(* ===== verification/_CoqProject ===== *)
-Q . S2P
Prelude.v
Ring.v
Mailbox.v
CMem.v
CString.v
CFormat.v
CArray.v
CPrint.v
Buf.v
Lz4.v
EventLog.v
CapIpc.v
Bitmap.v
IList.v
FrameAllocator.v
Pmm.v
Slab.v
KHeap.v
SlabHeap.v
KernelHeap.v
HashMap.v
HmsCache.v
Vfs.v
Ntfs.v
Devfs.v
PosixIo.v
HistBpt.v
History.v
Dns.v
NetWire.v
Net.v
NetInv.v
NetTraffic.v
Vmm.v
KernelVm.v
Sched.v
Ifc.v
LcContainer.v
AevosFs.v
VecIndex.v
Json.v
JsonMem.v
