(* ===== verification/Prelude.v ===== *)
(** * AevOS: a verification library

    AevOS is a bare-metal operating system that runs agents natively. This library
    models the parts of it that carry its own logic, the memory management, the
    scheduler, the file systems, the network, the containers and the data structures of
    the agents, as executable definitions that follow the C sources, and proves
    what makes each of them correct. Paths below are relative to the repository's
    [src/src/].

    ** Conventions

    A machine word is a [Z] in its range; an operation that can leave the range is
    followed by the wrap of its type ([u8] to [u64], [s32], [s64]). An array is a
    list, read and written with [l.[i]] and [l.[i <- x]]; the theorems show that the
    indices are in bounds, and where the code can leave an array the model has an
    explicit outcome. Such code lives in the monad [CMem.outcome]: [Ret], [Fault]
    for an access out of bounds, a null or dangling pointer or undefined
    arithmetic, and [NoFuel] for a loop whose fuel is spent. A theorem that gives
    [Ret] therefore shows memory safety and termination as well. Fuel is always
    bounded by the data: the number of nodes for a linked list, of bytes for a
    string, of items for a sift of a heap, of digits for a number; 17 turns for the
    blocks of a file; twice the length of the text for JSON; and where the network code
    waits, the readings of the clock that the wait takes. A null pointer is [None], or 0 where the code
    compares addresses. A call that runs under a spin lock is one step. Log lines
    are not modelled.

    ** The files and what they model

    - [Prelude], [Ring], [Bitmap], [IList]: words, arrays, ring buffers, bit sets
      and intrusive lists, shared by the components.
    - [CMem], [CString], [CFormat] ([lib/string.c]): byte memory, the memory and
      string functions, number conversion and [snprintf]. [CArray] carries the
      string functions over to arrays inside structures, [CPrint] computes the
      messages that are printed with them.
    - [FrameAllocator]: the class that states what the page allocator promises.
      [Pmm] ([kernel/mm/pmm.c]) is the page allocator and its instance.
    - [Slab] ([kernel/mm/slab.c]): the kernel heap over any frame allocator;
      [KernelHeap] puts the two together as the boot sequence does.
    - [KHeap]: the class that states what clients of the heap use, and [SlabHeap]
      its instance. The clients are [HashMap] ([lib/hashmap.c]), [HmsCache]
      ([agent/hms_cache.c]) and [Vfs] ([kernel/fs/vfs.c]); each keeps typed stores
      indexed by block addresses, which [kmalloc] and [kfree] alone extend and
      shrink. [Ntfs] ([kernel/fs/fs_ntfs.c]) and [Devfs] ([kernel/fs/devfs.c]) are drivers
      of [Vfs]. [PosixIo] ([posix/posix_io.c]) is the layer over [Vfs].
    - [AevosFs] ([kernel/fs/aevosfs.c]): the log-structured file system over a device, a
      parameter.
    - [VecIndex] ([db/vecindex.c]): the vector index over any heap, flat and inverted.
    - [Json] ([lib/json.c]): the reader as a function of the text and of what the heap
      grants; [JsonMem] relates it to the blocks of the heap.
    - [Vmm] ([kernel/mm/vmm.c], the x86_64 configuration): page tables over any
      frame allocator; [KernelVm] over that of [Pmm].
    - [Sched] ([kernel/sched/coroutine.c]): the coroutines and their queues.
    - [HistBpt] ([agent/hist_bptree.c]) and [History] ([agent/history.c]): the message
      history of an agent and its index, over any heap, with texts packed by [Lz4].
    - [Dns] ([kernel/net/dns.c]): the DNS client; the network stack that it calls is
      an argument.
    - [NetWire], [Net] ([kernel/net/lwip_port.c]): the network stack, from the frames of
      the card, a parameter with the clock, to the sockets; [NetWire] has byte order,
      checksums and the texts of addresses. [NetInv] shows that the stack stays
      well-formed, [NetTraffic] what becomes of datagrams and segments.
    - [Lz4] ([lib/lz4.c], on the byte buffers of [Buf]), [Mailbox] ([agent/mailbox.c]), [EventLog]
      ([agent/eventlog.c]), [CapIpc] ([kernel/ipc/cap_ipc.c]), [Ifc]
      ([container/ifc.c], [container/sandbox.c], [linux/linux_syscall_dispatch.c]),
      [LcContainer] ([container/lc_container.c], [container/oci_runtime.c]).

    A definition has the name of the C function or type it models; the loops of a
    function are the [Fixpoint]s before it.

    ** What is proved

    - Refinement of an abstract specification, over histories of calls: the heap
      is a set of disjoint blocks that keep their contents
      ([kernel_heap_refines]), the page allocator a set of free frames
      ([pmm_refines]), the file system a map from paths ([vfs_refines], for drivers that may
      discover files, and through it the posix calls, [posix_refines]), the files of
      [AevosFs] their contents ([aevosfs_files_refine]), a flat vector index a list of
      vectors ([vecindex_flat_refines]), the JSON reader a function of the text and of
      the granted requests ([json_parse_refines]), the hash
      map a finite map ([hashmap_refines]), the caches lists in order of use
      ([hms_cache_refines]), the message history a window of messages bounded in
      tokens ([history_refines]) and its index a sorted list, until it overflows
      ([hist_bpt_refines]), the docker commands a table of containers
      ([containers_refine]), the mailbox and the event log bounded queues, the
      capability table a set of grants, the policy matrix the last call about each
      flow ([ifc_history]).
    - Search: an inverted index looks through the lists of the nearest centroids
      ([ivf_search_probes]), but in the wrong order when it finds too few
      ([ivf_results_unsorted]).
    - Invariants and scheduling: [scheduler_run_inv], [yield_refines], and as liveness
      [round_robin].
    - Address spaces: [context_lifecycle].
    - Codecs: decompression is safe on every input, decodes the format, and never
      turns compressed data into something else ([lz4_lossless]); numbers survive
      printing and reading ([itoa_atoi]); JSON values that are printed are read back
      ([json_print_parse]), and so are vector indexes, less what the heap refuses
      ([vecindex_roundtrip]).
    - Untrusted input: whatever the network delivers, a resolver stays in its buffers
      ([dns_resolve_safe]), and the network stack stays in its buffers and always returns
      while no IPv4 packet claims to be longer than the receive buffer
      ([network_run_inv]), which the code does not check ([tcp_overread],
      [icmp_echo_leaks]); unpacking a name ends unless it meets a circle of pointers
      ([dns_unpack_decides]), which an answer can contain ([dns_pointer_loop_hangs]).
    - Texts: names and addresses are read back as they were written
      ([dns_name_roundtrip], [ipv6_text_roundtrip]); datagrams arrive as they were sent
      ([udp_roundtrip]); a connection is a bounded queue of bytes, blind to sequence
      numbers ([tcp_stream_refines]).
    - Bounds: [snprintf_bounded], [hashmap_limit], [aevosfs_space_bound].
    - Defects, as theorems about the code as it is: exhausted slab headers, a page
      mapped inside a huge page, a sleep of no ticks, long file names, lost OCI
      bundles, the one-entry L1 cache, a message freed twice, files lost by a remount
      ([remount_loses_files]), device files without a driver ([devices_unserved]), a
      training that makes every addition read too far ([ivf_train_overread]), a string
      that swallows its terminator ([json_backslash_overread]), buffer overruns and others.

    The refinement theorems about clients of the heap are instantiated in their
    witnesses with the heap that boot sets up on a small memory map.

    ** Parameters and assumptions

    The file system takes its drivers as a parameter; [vfs_refines] is for drivers
    that keep the contract [Vfs.driver_ok]: their functions return and leave the tree
    and the descriptors alone, and a lookup adds nothing or one child of the name it was
    asked for. [Ntfs.ntfs_driver_ok] shows that the NTFS stub keeps it, and the
    witnesses mount it; the lookup of [Devfs] does not, and [devices_unserved] shows
    what follows. The paths are shorter than their buffers. The heap's contract is the
    class [KHeap], which [SlabHeap] discharges. The context switch, the clock, the block
    devices, the network card and the payload of a capability are arguments. In
    [Vfs] the functions [read], [write] and [readdir] are single steps although
    the code does not lock them. The theorems about the scheduler take sleeps that end
    after they begin, those about the caches keys shorter than 64 bytes, those about
    the history texts that are not empty, and those about the network IPv4 lengths
    within the receive buffer: outside of these the code goes wrong, as other theorems
    and the findings tell.

    ** Not modelled

    Device drivers, the ext4 and FAT32 readers and [procfs], boot and interrupt entry,
    the language-model runtime (floating point), the database in memory and on disk
    ([db/aevos_db.c]), the user interface and the build tools. Of [vmm.c] the boot-time
    [vmm_init] and the other architectures. In the network stack, [net_detect_pci] only
    logs and [eth_receive] is not called; the receive queue of the card is a list. The
    depth of the C stack is not bounded in the model of the JSON reader. *)

From stdpp Require Import base numbers list.
From Stdlib Require Import Bool.
From Stdlib Require Ascii.
From Stdlib Require Import (notations) String.
Open Scope Z_scope.

(** ** Machine integers

    A C unsigned integer of width [w] is a [Z]; each operation of the source
    that can leave the range is followed by the wrap of its type. *)

Definition wrap (w z : Z) : Z := z mod 2 ^ w.
Abbreviation u8 := (wrap 8).
Abbreviation u16 := (wrap 16).
Abbreviation u32 := (wrap 32).
Abbreviation u64 := (wrap 64).

(** The reinterpretation of a [w]-bit word as a signed integer. *)
Definition swrap (w z : Z) : Z :=
  let v := wrap w z in if v <? 2 ^ (w - 1) then v else v - 2 ^ w.
Abbreviation s32 := (swrap 32).
Abbreviation s64 := (swrap 64).

Definition UINT64_MAX : Z := 0xFFFFFFFFFFFFFFFF.
Definition UINT32_MAX : Z := 0xFFFFFFFF.

(** [aevos/config.h], for x86_64. *)
Definition PAGE_SIZE : Z := 4096.
Definition PHYS_MAP_BASE : Z := 0xFFFF800000000000.
Definition PHYS_TO_VIRT (paddr : Z) : Z := u64 (paddr + PHYS_MAP_BASE).
Definition VIRT_TO_PHYS (vaddr : Z) : Z := u64 (vaddr - PHYS_MAP_BASE).

(** Kernel error numbers ([aevos/types.h]). *)
Definition ENOMEM : Z := 2.
Definition EINVAL : Z := 3.
Definition EIO : Z := 4.
Definition ENOENT : Z := 5.
Definition ENOSPC : Z := 7.
Definition EPERM : Z := 8.
Definition ENOTSUP : Z := 10.

(** [~x] on a 64-bit word. *)
Definition lnot64 (x : Z) : Z := u64 (Z.lnot x).

(** [ALIGN_UP] and [ALIGN_DOWN] of [aevos/types.h], on 64-bit words. *)
Definition ALIGN_UP (x a : Z) : Z := Z.land (u64 (x + a - 1)) (lnot64 (a - 1)).
Definition ALIGN_DOWN (x a : Z) : Z := Z.land x (lnot64 (a - 1)).

(** [__builtin_ctzll]: the index of the lowest set bit of a non-zero word. *)
Fixpoint ctz_from (n : nat) (x i : Z) : Z :=
  match n with
  | O => i
  | S n => if Z.testbit x i then i else ctz_from n x (i + 1)
  end.
Definition ctz64 (x : Z) : Z := ctz_from 64 x 0.

(** ** Arrays

    A C array of fixed length is a list, read and written at a [Z] index. The
    source only indexes in range; out of range, the read yields the type's
    inhabitant and the write does nothing. *)

Definition zlen {A} (l : list A) : Z := Z.of_nat (length l).
Definition aget {A} `{Inhabited A} (l : list A) (i : Z) : A := l !!! Z.to_nat i.
Definition aset {A} (l : list A) (i : Z) (x : A) : list A := <[Z.to_nat i := x]> l.

(** [memcpy(dst, src, n)] on whole buffers: the first [n] bytes are replaced. *)
Definition mem_copy {A} (dst src : list A) (n : Z) : list A :=
  take (Z.to_nat n) src ++ drop (Z.to_nat n) dst.

(** The bytes of a C string literal, without its terminator. *)
Definition bytes (s : String.string) : list Z :=
  map (λ a, Z.of_N (Ascii.N_of_ascii a)) (String.list_ascii_of_string s).
Arguments bytes s%_string_scope.

Declare Scope aevos_scope.
Delimit Scope aevos_scope with aevos.
Notation "l .[ i ]" := (aget l i)
  (at level 1, left associativity, format "l .[ i ]") : aevos_scope.
Notation "l .[ i <- x ]" := (aset l i x)
  (at level 1, left associativity, format "l .[ i <- x ]") : aevos_scope.
Open Scope aevos_scope.

(** The [int]-valued C conditions are [bool] here. *)
Definition nonzero (z : Z) : bool := negb (z =? 0).

(** ** Automation *)

(** Case analysis on the boolean comparisons of the goal or of a hypothesis. *)
Ltac bool_cases :=
  repeat match goal with
  | |- context [ ?a <? ?b ] => destruct (Z.ltb_spec a b)
  | |- context [ ?a <=? ?b ] => destruct (Z.leb_spec a b)
  | |- context [ ?a =? ?b ] => destruct (Z.eqb_spec a b)
  end.

Ltac bool_hyps :=
  repeat match goal with
  | H : _ && _ = true |- _ => apply andb_true_iff in H; destruct H
  | H : _ || _ = false |- _ => apply orb_false_iff in H; destruct H
  | H : negb _ = true |- _ => apply negb_true_iff in H
  | H : negb _ = false |- _ => apply negb_false_iff in H
  | H : (_ <? _) = true |- _ => apply Z.ltb_lt in H
  | H : (_ <? _) = false |- _ => apply Z.ltb_ge in H
  | H : (_ <=? _) = true |- _ => apply Z.leb_le in H
  | H : (_ <=? _) = false |- _ => apply Z.leb_gt in H
  | H : (_ =? _) = true |- _ => apply Z.eqb_eq in H
  | H : (_ =? _) = false |- _ => apply Z.eqb_neq in H
  end.

(** Linear arithmetic with [/] and [mod] by constants. *)
Ltac div_lia := Z.div_mod_to_equations; lia.

Create Rewrite HintDb aevos.
Create HintDb wrap.

(** ** Lemmas on comparisons *)

Lemma geb_lt x y : x < y → (x >=? y) = false.
Proof. rewrite Z.geb_leb. apply Z.leb_gt. Qed.
Lemma geb_ge x y : y ≤ x → (x >=? y) = true.
Proof. rewrite Z.geb_leb. apply Z.leb_le. Qed.
Lemma gtb_le x y : x ≤ y → (x >? y) = false.
Proof. rewrite Z.gtb_ltb. apply Z.ltb_ge. Qed.
Lemma gtb_gt x y : y < x → (x >? y) = true.
Proof. rewrite Z.gtb_ltb. apply Z.ltb_lt. Qed.

(** ** Lemmas on machine integers *)

Lemma wrap_id w z : 0 ≤ z < 2 ^ w → wrap w z = z.
Proof. apply Z.mod_small. Qed.

Lemma wrap_range w z : 0 ≤ w → 0 ≤ wrap w z < 2 ^ w.
Proof. intros. apply Z.mod_pos_bound, Z.pow_pos_nonneg; lia. Qed.

Lemma u64_range z : 0 ≤ u64 z < 2 ^ 64.
Proof. by apply wrap_range. Qed.

Lemma u32_range z : 0 ≤ u32 z < 2 ^ 32.
Proof. by apply wrap_range. Qed.

Lemma wrap_testbit w z i : 0 ≤ i < w → Z.testbit (wrap w z) i = Z.testbit z i.
Proof. intros. apply Z.mod_pow2_bits_low; lia. Qed.

Lemma wrap_testbit_high w z i : 0 ≤ w ≤ i → Z.testbit (wrap w z) i = false.
Proof. intros. apply Z.mod_pow2_bits_high; lia. Qed.

Lemma lnot64_testbit x i : 0 ≤ i < 64 → Z.testbit (lnot64 x) i = negb (Z.testbit x i).
Proof. intros. unfold lnot64. rewrite wrap_testbit by lia. apply Z.lnot_spec; lia. Qed.

Lemma land_range w x y : 0 ≤ w → 0 ≤ y → 0 ≤ x < 2 ^ w → 0 ≤ Z.land x y < 2 ^ w.
Proof.
  intros Hw Hy Hx. split; [apply Z.land_nonneg; lia|].
  assert (Z.land x y = Z.land x y mod 2 ^ w) as ->.
  { apply Z.bits_inj'. intros i Hi. destruct (decide (i < w)).
    - by rewrite Z.mod_pow2_bits_low by lia.
    - rewrite Z.mod_pow2_bits_high by lia. rewrite Z.land_spec.
      replace x with (x mod 2 ^ w) by (by apply Z.mod_small).
      by rewrite Z.mod_pow2_bits_high by lia. }
  apply Z.mod_pos_bound. lia.
Qed.

Lemma range_of_testbit w x :
  0 ≤ w → 0 ≤ x → (∀ i, w ≤ i → Z.testbit x i = false) → 0 ≤ x < 2 ^ w.
Proof.
  intros Hw Hx Hb. split; [done|].
  assert (x = x mod 2 ^ w) as ->.
  { apply Z.bits_inj'. intros i Hi. destruct (decide (i < w)).
    - by rewrite Z.mod_pow2_bits_low by lia.
    - rewrite Z.mod_pow2_bits_high by lia. apply Hb. lia. }
  apply Z.mod_pos_bound. lia.
Qed.

Lemma testbit_out_of_range w x i : 0 ≤ w ≤ i → 0 ≤ x < 2 ^ w → Z.testbit x i = false.
Proof.
  intros Hw Hx. replace x with (x mod 2 ^ w) by (by apply Z.mod_small).
  apply Z.mod_pow2_bits_high. lia.
Qed.

Lemma lor_range w x y :
  0 ≤ w → 0 ≤ x < 2 ^ w → 0 ≤ y < 2 ^ w → 0 ≤ Z.lor x y < 2 ^ w.
Proof.
  intros Hw Hx Hy. apply range_of_testbit; [done|apply Z.lor_nonneg; lia|].
  intros i Hi. rewrite Z.lor_spec.
  by rewrite (testbit_out_of_range w x), (testbit_out_of_range w y) by lia.
Qed.

Lemma shiftl_1_testbit k i :
  0 ≤ k → 0 ≤ i → Z.testbit (Z.shiftl 1 k) i = bool_decide (i = k).
Proof.
  intros Hk Hi. rewrite Z.shiftl_spec by lia. case_bool_decide as E.
  - subst. by rewrite Z.sub_diag.
  - destruct (Z.ltb_spec (i - k) 0); [by apply Z.testbit_neg_r|].
    replace (i - k) with (Z.succ (i - k - 1)) by lia.
    change 1 with (2 * 0 + 1). rewrite Z.testbit_odd_succ by lia. apply Z.bits_0.
Qed.

Lemma shiftl_1_range k w : 0 ≤ k < w → 0 ≤ Z.shiftl 1 k < 2 ^ w.
Proof.
  intros. rewrite Z.shiftl_1_l. split; [apply Z.pow_nonneg; lia|].
  apply Z.pow_lt_mono_r; lia.
Qed.

Lemma UINT64_MAX_testbit i : 0 ≤ i < 64 → Z.testbit UINT64_MAX i = true.
Proof. intros. change UINT64_MAX with (Z.ones 64). by apply Z.ones_spec_low. Qed.

(** A 64-bit word other than all-ones has a zero bit, which [ctz64] finds. *)
Lemma ctz_from_spec n x i :
  (∃ j, i ≤ j < i + Z.of_nat n ∧ Z.testbit x j = true) →
  i ≤ ctz_from n x i < i + Z.of_nat n ∧
  Z.testbit x (ctz_from n x i) = true ∧
  ∀ j, i ≤ j < ctz_from n x i → Z.testbit x j = false.
Proof.
  revert i. induction n as [|n IH]; intros i (j & Hj & Hb); [lia|].
  cbn [ctz_from]. destruct (Z.testbit x i) eqn:Hi.
  - repeat split; [lia|lia|done|lia].
  - assert (j ≠ i) by congruence.
    destruct (IH (i + 1)) as (Hr & Ht & Hlow); [exists j; split; [lia|done]|].
    repeat split; [lia|lia|done|]. intros k Hk.
    destruct (decide (k = i)) as [->|]; [done|apply Hlow; lia].
Qed.

Lemma word_has_zero x :
  0 ≤ x < 2 ^ 64 → x ≠ UINT64_MAX → ∃ j, 0 ≤ j < 64 ∧ Z.testbit x j = false.
Proof.
  intros Hx Hne.
  destruct (decide (Forall (λ j, Z.testbit x j = true) (seqZ 0 64))) as [Hall|Hex].
  - exfalso. apply Hne. apply Z.bits_inj'. intros i Hi.
    destruct (decide (i < 64)).
    + rewrite UINT64_MAX_testbit by lia.
      rewrite Forall_forall in Hall. apply Hall, elem_of_seqZ. lia.
    + rewrite (testbit_out_of_range 64 x) by lia. symmetry.
      apply (testbit_out_of_range 64); [lia|]. unfold UINT64_MAX. lia.
  - apply not_Forall_Exists in Hex; [|intros j; solve_decision].
    apply Exists_exists in Hex as (j & Hj & Hb). apply elem_of_seqZ in Hj.
    exists j. split; [lia|]. cbn in Hb. destruct (Z.testbit x j); congruence.
Qed.

(** The lowest zero bit of a word, as the allocators compute it. *)
Lemma ctz64_lnot x :
  0 ≤ x < 2 ^ 64 → x ≠ UINT64_MAX →
  0 ≤ ctz64 (lnot64 x) < 64 ∧
  Z.testbit x (ctz64 (lnot64 x)) = false ∧
  ∀ j, 0 ≤ j < ctz64 (lnot64 x) → Z.testbit x j = true.
Proof.
  intros Hx Hne. destruct (word_has_zero x Hx Hne) as (j & Hj & Hb).
  destruct (ctz_from_spec 64 (lnot64 x) 0) as (Hr & Ht & Hlow).
  { exists j. split; [lia|]. rewrite lnot64_testbit by lia. by rewrite Hb. }
  fold (ctz64 (lnot64 x)) in *.
  rewrite lnot64_testbit in Ht by lia. apply negb_true_iff in Ht.
  repeat split; [lia|lia|done|]. intros k Hk. specialize (Hlow k ltac:(lia)).
  rewrite lnot64_testbit in Hlow by lia. by apply negb_false_iff in Hlow.
Qed.

(** [ALIGN_UP] and [ALIGN_DOWN] to a power of two are the rounding functions,
    as long as the rounded-up value fits in 64 bits. *)
Lemma land_lnot_ones x k :
  0 ≤ k ≤ 64 → 0 ≤ x < 2 ^ 64 → Z.land x (lnot64 (2 ^ k - 1)) = x - x mod 2 ^ k.
Proof.
  intros Hk Hx. assert (0 < 2 ^ k) by (apply Z.pow_pos_nonneg; lia).
  assert (x - x mod 2 ^ k = Z.shiftl (Z.shiftr x k) k) as ->.
  { rewrite Z.shiftl_mul_pow2, Z.shiftr_div_pow2 by lia.
    pose proof (Z.div_mod x (2 ^ k)). lia. }
  apply Z.bits_inj'. intros i Hi. rewrite Z.land_spec.
  replace (2 ^ k - 1) with (Z.ones k) by (rewrite Z.ones_equiv; lia).
  destruct (decide (i < 64)).
  - rewrite lnot64_testbit by lia. rewrite Z.shiftl_spec by lia.
    destruct (decide (i < k)).
    + rewrite Z.ones_spec_low by lia. rewrite andb_false_r.
      symmetry. apply Z.testbit_neg_r. lia.
    + rewrite Z.ones_spec_high by lia. rewrite andb_true_r.
      rewrite Z.shiftr_spec by lia. f_equal. lia.
  - rewrite (testbit_out_of_range 64 x) by lia. cbn. symmetry.
    rewrite Z.shiftl_spec by lia. rewrite Z.shiftr_spec by lia.
    apply (testbit_out_of_range 64); lia.
Qed.

Lemma ALIGN_DOWN_page x : 0 ≤ x < 2 ^ 64 → ALIGN_DOWN x PAGE_SIZE = x / 4096 * 4096.
Proof.
  intros Hx. unfold ALIGN_DOWN, PAGE_SIZE. change (4096 - 1) with (2 ^ 12 - 1).
  rewrite land_lnot_ones by lia. div_lia.
Qed.

Lemma ALIGN_UP_page x :
  0 ≤ x → x + 4095 < 2 ^ 64 → ALIGN_UP x PAGE_SIZE = (x + 4095) / 4096 * 4096.
Proof.
  intros Hx Hov. unfold ALIGN_UP, PAGE_SIZE. change (4096 - 1) with (2 ^ 12 - 1).
  rewrite wrap_id by lia. rewrite land_lnot_ones by lia.
  replace (x + 4096 - 1) with (x + 4095) by lia. div_lia.
Qed.

(** ** Lemmas on arrays *)

Section arrays.
Context {A : Type} `{Inhabited A}.
Implicit Types l : list A.

Lemma zlen_aset l i x : zlen (aset l i x) = zlen l.
Proof. unfold zlen, aset. by rewrite length_insert. Qed.

Lemma length_aset l i x : length (aset l i x) = length l.
Proof. apply length_insert. Qed.

Lemma aset_aset l i x y : aset (aset l i x) i y = aset l i y.
Proof. unfold aset. apply list_insert_insert_eq. Qed.

Lemma aget_aset_eq l i x : 0 ≤ i < zlen l → aget (aset l i x) i = x.
Proof. intros. apply list_lookup_total_insert_eq. unfold zlen in *. lia. Qed.

Lemma aget_aset_ne l i j x : 0 ≤ i → 0 ≤ j → i ≠ j → aget (aset l i x) j = aget l j.
Proof. intros. apply list_lookup_total_insert_ne. lia. Qed.

Lemma aget_aset l i j x :
  0 ≤ i < zlen l → 0 ≤ j →
  aget (aset l i x) j = if decide (i = j) then x else aget l j.
Proof.
  intros. case_decide; [subst; by apply aget_aset_eq|apply aget_aset_ne; lia].
Qed.

Lemma aget_lookup l i : 0 ≤ i < zlen l → l !! Z.to_nat i = Some (aget l i).
Proof. intros. apply list_lookup_lookup_total_lt. unfold zlen in *. lia. Qed.

Lemma aget_replicate n (x : A) i : 0 ≤ i < Z.of_nat n → aget (replicate n x) i = x.
Proof. intros. apply lookup_total_replicate_2. lia. Qed.

Lemma Forall_aget (P : A → Prop) l i : Forall P l → 0 ≤ i < zlen l → P (aget l i).
Proof. intros HF Hi. eapply Forall_lookup_1; [done|by apply aget_lookup]. Qed.

Lemma Forall_aset (P : A → Prop) l i x : Forall P l → P x → Forall P (aset l i x).
Proof. intros. by apply Forall_insert. Qed.

Lemma Forall_aget_default (P : A → Prop) l i :
  Forall P l → P inhabitant → P (aget l i).
Proof.
  intros HF Hd. unfold aget. rewrite list_lookup_total_alt.
  destruct (l !! Z.to_nat i) eqn:E; [|done]. by eapply Forall_lookup_1.
Qed.

Lemma array_eq l l' :
  zlen l = zlen l' → (∀ i, 0 ≤ i < zlen l → aget l i = aget l' i) → l = l'.
Proof.
  intros Hlen Hi. unfold zlen in *. apply list_eq_same_length with (length l); [lia..|].
  intros i x y Hlt Hx Hy. specialize (Hi (Z.of_nat i) ltac:(lia)).
  unfold aget in Hi. rewrite Nat2Z.id in Hi.
  apply list_lookup_total_correct in Hx, Hy. congruence.
Qed.

Lemma zlen_app l l' : zlen (l ++ l') = zlen l + zlen l'.
Proof. unfold zlen. rewrite length_app. lia. Qed.

Lemma zlen_cons x l : zlen (x :: l) = zlen l + 1.
Proof. unfold zlen. cbn. lia. Qed.

Lemma zlen_nonneg l : 0 ≤ zlen l.
Proof. unfold zlen. lia. Qed.

Lemma zlen_tail l : zlen (tail l) = Z.max 0 (zlen l - 1).
Proof. unfold zlen. destruct l; cbn [tail length]; lia. Qed.

Lemma zlen_delete l k : 0 ≤ k < zlen l → zlen (delete (Z.to_nat k) l) = zlen l - 1.
Proof.
  intros. unfold zlen in *. rewrite length_delete; [lia|].
  apply lookup_lt_is_Some. lia.
Qed.

Lemma aget_app_l l l' i : 0 ≤ i < zlen l → aget (l ++ l') i = aget l i.
Proof. intros. apply lookup_total_app_l. unfold zlen in *. lia. Qed.

Lemma aget_app_r l l' i : zlen l ≤ i → aget (l ++ l') i = aget l' (i - zlen l).
Proof.
  intros. unfold aget, zlen in *. rewrite lookup_total_app_r by lia. f_equal. lia.
Qed.

Lemma aget_tail l i : 0 ≤ i → aget (tail l) i = aget l (i + 1).
Proof. intros. unfold aget. rewrite lookup_total_tail. f_equal. lia. Qed.

Lemma aget_delete l k i :
  0 ≤ k → 0 ≤ i →
  aget (delete (Z.to_nat k) l) i = aget l (if decide (i < k) then i else i + 1).
Proof.
  intros. unfold aget. rewrite list_lookup_total_delete. f_equal.
  repeat case_decide; lia.
Qed.

Lemma aget_singleton (x : A) : aget [x] 0 = x.
Proof. done. Qed.

Lemma aget_map {B} `{Inhabited B} (f : A → B) l i :
  0 ≤ i < zlen l → aget (f <$> l) i = f (aget l i).
Proof. intros. apply list_lookup_total_fmap. unfold zlen in *. lia. Qed.
End arrays.

#[export] Hint Rewrite @zlen_aset @length_aset : aevos.
#[export] Hint Resolve u64_range u32_range : wrap.

(** ** Indices of a ring *)

(** [(h + i) % cap] without the modulo, for a head inside the ring. *)
Lemma ring_index cap h i :
  0 ≤ h < cap → 0 ≤ i ≤ cap →
  (h + i) mod cap = if decide (h + i < cap) then h + i else h + i - cap.
Proof.
  intros Hh Hi. case_decide; [by apply Z.mod_small; lia|].
  symmetry. apply (Z.mod_unique_pos _ _ 1); lia.
Qed.

(** ** Counting with a boolean predicate *)

Definition countb (f : Z → bool) (lo hi : Z) : Z :=
  Z.of_nat (length (filter (λ i, f i = true) (seqZ lo (hi - lo)))).

Lemma countb_nil f lo hi : hi ≤ lo → countb f lo hi = 0.
Proof. intros. unfold countb. by rewrite seqZ_nil by lia. Qed.

Lemma countb_cons f lo hi :
  lo < hi → countb f lo hi = (if f lo then 1 else 0) + countb f (lo + 1) hi.
Proof.
  intros. unfold countb. rewrite seqZ_cons by lia.
  replace (Z.succ lo) with (lo + 1) by lia.
  replace (Z.pred (hi - lo)) with (hi - (lo + 1)) by lia.
  rewrite filter_cons. destruct (f lo); case_decide; cbn [length]; try congruence; lia.
Qed.

Lemma countb_bounds f lo hi : lo ≤ hi → 0 ≤ countb f lo hi ≤ hi - lo.
Proof.
  intros. unfold countb. split; [lia|].
  pose proof (length_filter (λ i, f i = true) (seqZ lo (hi - lo))).
  rewrite length_seqZ in *. lia.
Qed.

Lemma countb_ext f g lo hi :
  (∀ i, lo ≤ i < hi → f i = g i) → countb f lo hi = countb g lo hi.
Proof.
  intros Hfg. destruct (decide (lo ≤ hi)); [|by rewrite !countb_nil by lia].
  remember (Z.to_nat (hi - lo)) as n eqn:Hn. revert lo l Hn Hfg.
  induction n as [|n IH]; intros lo Hle Hn Hfg.
  - by rewrite !countb_nil by lia.
  - rewrite (countb_cons f lo), (countb_cons g lo) by lia. rewrite Hfg by lia. f_equal. apply IH; [lia..|].
    intros. apply Hfg. lia.
Qed.

Lemma countb_app f lo mid hi :
  lo ≤ mid ≤ hi → countb f lo hi = countb f lo mid + countb f mid hi.
Proof.
  intros H. remember (Z.to_nat (mid - lo)) as n eqn:Hn. revert lo H Hn.
  induction n as [|n IH]; intros lo H Hn.
  - assert (lo = mid) as -> by lia. rewrite (countb_nil f mid mid) by lia. lia.
  - rewrite (countb_cons f lo hi), (countb_cons f lo mid) by lia.
    rewrite (IH (lo + 1)) by lia. lia.
Qed.

(** Changing the predicate at one point of the range. *)
Lemma countb_update f g lo hi p :
  lo ≤ p < hi → (∀ i, lo ≤ i < hi → i ≠ p → g i = f i) →
  countb g lo hi = countb f lo hi + (if g p then 1 else 0) - (if f p then 1 else 0).
Proof.
  intros Hp Hfg.
  rewrite (countb_app f lo p hi), (countb_app g lo p hi) by lia.
  rewrite (countb_cons f p hi), (countb_cons g p hi) by lia.
  rewrite (countb_ext g f lo p) by (intros; apply Hfg; lia).
  rewrite (countb_ext g f (p + 1) hi) by (intros; apply Hfg; lia). lia.
Qed.

Lemma countb_all f lo hi :
  lo ≤ hi → (∀ i, lo ≤ i < hi → f i = true) → countb f lo hi = hi - lo.
Proof.
  intros Hle Hf. remember (Z.to_nat (hi - lo)) as n eqn:Hn. revert lo Hle Hn Hf.
  induction n as [|n IH]; intros lo Hle Hn Hf.
  - rewrite countb_nil by lia. lia.
  - rewrite countb_cons by lia. rewrite Hf by lia. rewrite IH; [lia..|].
    intros. apply Hf. lia.
Qed.

Lemma countb_none f lo hi : (∀ i, lo ≤ i < hi → f i = false) → countb f lo hi = 0.
Proof.
  intros Hf. destruct (decide (lo ≤ hi)); [|by rewrite countb_nil by lia].
  remember (Z.to_nat (hi - lo)) as n eqn:Hn. revert lo l Hn Hf.
  induction n as [|n IH]; intros lo Hle Hn Hf.
  - by rewrite countb_nil by lia.
  - rewrite countb_cons by lia. rewrite Hf by lia. rewrite IH; [lia..|].
    intros. apply Hf. lia.
Qed.

Lemma countb_pos_witness f lo hi :
  0 < countb f lo hi → ∃ i, lo ≤ i < hi ∧ f i = true.
Proof.
  intros Hc. unfold countb in Hc.
  destruct (filter (λ i, f i = true) (seqZ lo (hi - lo))) as [|x l] eqn:E; [cbn in Hc; lia|].
  assert (x ∈ filter (λ i, f i = true) (seqZ lo (hi - lo))) as Hx by (rewrite E; left).
  apply list_elem_of_filter in Hx as [Hf Hx]. apply elem_of_seqZ in Hx.
  exists x. split; [lia|done].
Qed.

(** ** Filtering *)

Lemma filter_iff_in {A} (P Q : A → Prop) `{∀ x, Decision (P x), ∀ x, Decision (Q x)} (l : list A) :
  (∀ x, x ∈ l → P x ↔ Q x) → filter P l = filter Q l.
Proof.
  induction l as [|x l IH]; intros Heq; [done|]. rewrite !filter_cons.
  rewrite IH by (intros y Hy; apply Heq; by right).
  pose proof (Heq x ltac:(left)). do 2 case_decide; tauto.
Qed.

(** ** Little-endian integers *)

Fixpoint le_bytes (n : nat) (z : Z) : list Z :=
  match n with O => [] | S n => z mod 256 :: le_bytes n (z / 256) end.
Fixpoint le_val (l : list Z) : Z :=
  match l with [] => 0 | b :: l => b + 256 * le_val l end.

Lemma length_le_bytes n z : length (le_bytes n z) = n.
Proof. revert z. induction n as [|n IH]; intros z; cbn; by rewrite ?IH. Qed.

Lemma le_val_bytes n z : 0 ≤ z < 256 ^ Z.of_nat n → le_val (le_bytes n z) = z.
Proof.
  revert z. induction n as [|n IH]; intros z Hz; cbn [le_bytes le_val]; [cbn in Hz; lia|].
  rewrite IH; [pose proof (Z.div_mod z 256); lia|]. rewrite Nat2Z.inj_succ, Z.pow_succ_r in Hz by lia.
  split; [apply Z.div_pos; lia|apply Z.div_lt_upper_bound; lia].
Qed.

Lemma le_bytes_range n z : Forall (λ b, 0 ≤ b < 256) (le_bytes n z).
Proof. revert z. induction n as [|n IH]; intros z; cbn; constructor; [apply Z.mod_pos_bound; lia|done]. Qed.

Lemma le_val_range l : Forall (λ b, 0 ≤ b < 256) l → 0 ≤ le_val l < 256 ^ zlen l.
Proof.
  induction 1 as [|b l Hb Hl IH]; [done|]. cbn [le_val]. unfold zlen in *. cbn [length].
  rewrite Nat2Z.inj_succ, Z.pow_succ_r by lia. lia.
Qed.
