(* ===== verification/Ring.v ===== *)
(** * Overwriting ring buffers

    The mailbox ([agent/mailbox.c]) and the event log ([agent/eventlog.c]) keep
    their records in the same shape of ring: an array of [cap] slots, the index
    [head] of the oldest record and the number [count] of records held. This
    file gives the sequence such a ring holds and how the index arithmetic of
    the two clients acts on it. *)

From S2P Require Import Prelude.
From stdpp Require Import base numbers list.
Open Scope Z_scope.

Section ring.
Context {A : Type} `{Inhabited A} (cap : Z).
Implicit Types r : list A.

(** Well-formed indices. *)
Definition ring_ok (r : list A) (head count : Z) : Prop :=
  zlen r = cap ∧ 0 ≤ head < cap ∧ 0 ≤ count ≤ cap.

(** The records held, oldest first. *)
Definition ring_view (r : list A) (head count : Z) : list A :=
  map (λ i, r.[(head + i) mod cap]) (seqZ 0 count).

Lemma zlen_ring_view r head count : 0 ≤ count → zlen (ring_view r head count) = count.
Proof. intros. unfold zlen, ring_view. rewrite length_map, length_seqZ. lia. Qed.

Lemma aget_ring_view r head count i :
  0 ≤ i < count → (ring_view r head count).[i] = r.[(head + i) mod cap].
Proof.
  intros. apply list_lookup_total_correct. unfold ring_view.
  change (map ?f ?l) with (f <$> l).
  rewrite list_lookup_fmap, lookup_seqZ_lt by lia. cbn. do 3 f_equal. lia.
Qed.

Lemma ring_index_range head i : 0 < cap → 0 ≤ (head + i) mod cap < cap.
Proof. intros. by apply Z.mod_pos_bound. Qed.

Lemma ring_index_inj head i j :
  0 ≤ head < cap → 0 ≤ i < cap → 0 ≤ j < cap →
  (head + i) mod cap = (head + j) mod cap → i = j.
Proof. intros. rewrite !ring_index in * by lia. repeat case_decide; lia. Qed.

(** A write at offset [k] of the ring reads back there and nowhere else. *)
Lemma aget_ring_write r head i k x :
  zlen r = cap → 0 ≤ head < cap → 0 ≤ i < cap → 0 ≤ k < cap →
  (aset r ((head + k) mod cap) x).[(head + i) mod cap]
  = if decide (i = k) then x else r.[(head + i) mod cap].
Proof.
  intros Hlen Hh Hi Hk.
  rewrite aget_aset by (rewrite ?Hlen; apply ring_index_range; lia).
  destruct (decide (i = k)) as [->|Hne]; [by rewrite decide_True|].
  rewrite decide_False; [done|]. intros E. apply Hne. symmetry.
  by apply (ring_index_inj head).
Qed.

(** Appending when there is room. *)
Lemma ring_push_room r head count x :
  ring_ok r head count → count < cap →
  ring_view (aset r ((head + count) mod cap) x) head (count + 1)
  = ring_view r head count ++ [x].
Proof.
  intros (Hlen & Hh & Hc) Hroom. apply array_eq.
  { rewrite zlen_app, !zlen_ring_view by lia. done. }
  intros i Hi. rewrite zlen_ring_view in Hi by lia.
  rewrite aget_ring_view, aget_ring_write by lia.
  case_decide as E; [subst i|].
  - rewrite aget_app_r; rewrite zlen_ring_view by lia; [|lia].
    by rewrite Z.sub_diag.
  - rewrite aget_app_l by (rewrite zlen_ring_view by lia; lia).
    by rewrite aget_ring_view by lia.
Qed.

(** Appending to a full ring drops the oldest record. *)
Lemma ring_push_full r head x :
  ring_ok r head cap →
  ring_view (aset r ((head + cap) mod cap) x) ((head + 1) mod cap) cap
  = tail (ring_view r head cap) ++ [x].
Proof.
  intros (Hlen & Hh & _). apply array_eq.
  { rewrite zlen_app, zlen_tail, !zlen_ring_view by lia. change (zlen [x]) with 1. lia. }
  intros i Hi. rewrite zlen_ring_view in Hi by lia.
  rewrite aget_ring_view by lia.
  assert ((head + cap) mod cap = (head + 0) mod cap) as ->.
  { rewrite !ring_index by lia. repeat case_decide; lia. }
  rewrite Z.add_mod_idemp_l by lia.
  destruct (decide (i = cap - 1)) as [->|].
  - replace (head + 1 + (cap - 1)) with (head + 0 + 1 * cap) by lia.
    rewrite Z.mod_add by lia. rewrite aget_ring_write by lia.
    rewrite decide_True by done.
    rewrite aget_app_r; rewrite zlen_tail, zlen_ring_view by lia; [|lia].
    by replace (cap - 1 - Z.max 0 (cap - 1)) with 0 by lia.
  - replace (head + 1 + i) with (head + (i + 1)) by lia.
    rewrite aget_ring_write by lia. rewrite decide_False by lia.
    rewrite aget_app_l by (rewrite zlen_tail, zlen_ring_view by lia; lia).
    rewrite aget_tail by lia. by rewrite aget_ring_view by lia.
Qed.

(** Taking the oldest record. *)
Lemma ring_pop r head count :
  ring_ok r head count → 0 < count →
  ring_view r head count
  = r.[head] :: ring_view r ((head + 1) mod cap) (count - 1).
Proof.
  intros (Hlen & Hh & Hc) Hpos. unfold ring_view at 1.
  rewrite seqZ_cons by lia. cbn [map]. f_equal.
  { f_equal. rewrite Z.add_0_r. apply Z.mod_small. lia. }
  apply array_eq.
  { rewrite zlen_ring_view by lia. unfold zlen. rewrite length_map, length_seqZ. lia. }
  intros i Hi. unfold zlen in Hi. rewrite length_map, length_seqZ in Hi.
  rewrite aget_ring_view by lia. apply list_lookup_total_correct.
  change (map ?f ?l) with (f <$> l).
  rewrite list_lookup_fmap, lookup_seqZ_lt by lia. cbn. do 2 f_equal.
  rewrite Z.add_mod_idemp_l by lia. f_equal. lia.
Qed.

Lemma ring_view_0 r head : ring_view r head 0 = [].
Proof. done. Qed.

(** Removal at offset [k] by shifting the later records down one slot. *)
Fixpoint ring_shift_down (n : nat) (r : list A) (head k : Z) : list A :=
  match n with
  | O => r
  | S n =>
      let r := aset r ((head + k) mod cap) (r.[(head + k + 1) mod cap]) in
      ring_shift_down n r head (k + 1)
  end.

Lemma zlen_ring_shift_down n r head k : zlen (ring_shift_down n r head k) = zlen r.
Proof.
  revert r k. induction n as [|n IH]; intros r k; [done|].
  cbn [ring_shift_down]. by rewrite IH, zlen_aset.
Qed.

Lemma aget_ring_shift_down n r head k i :
  zlen r = cap → 0 ≤ head < cap → 0 ≤ k → k + Z.of_nat n < cap → 0 ≤ i < cap →
  (ring_shift_down n r head k).[(head + i) mod cap]
  = r.[(head + (if decide (k ≤ i < k + Z.of_nat n) then i + 1 else i)) mod cap].
Proof.
  intros Hlen Hh. revert r k Hlen. induction n as [|n IH]; intros r k Hlen Hk Hn Hi.
  - cbn. by rewrite decide_False by lia.
  - cbn [ring_shift_down]. rewrite IH by (rewrite ?zlen_aset; lia).
    replace (head + k + 1) with (head + (k + 1)) by lia.
    rewrite aget_ring_write by (try case_decide; lia).
    repeat case_decide; try lia; repeat f_equal; lia.
Qed.

Lemma ring_remove r head count k :
  ring_ok r head count → 0 ≤ k < count →
  ring_view (ring_shift_down (Z.to_nat (count - 1 - k)) r head k) head (count - 1)
  = delete (Z.to_nat k) (ring_view r head count).
Proof.
  intros (Hlen & Hh & Hc) Hk. apply array_eq.
  { rewrite zlen_delete; rewrite !zlen_ring_view by lia; lia. }
  intros i Hi. rewrite zlen_ring_view in Hi by lia.
  rewrite aget_ring_view, aget_ring_shift_down, aget_delete by lia.
  rewrite aget_ring_view by (case_decide; lia).
  repeat case_decide; try lia; done.
Qed.
End ring.
