(* ===== verification/Mailbox.v ===== *)
(** * The inter-agent mailbox ([src/agent/mailbox.c])

    A ring of 256 messages of at most 511 payload bytes. Sending to a full
    mailbox overwrites the oldest message; receiving takes the oldest message,
    or the oldest one addressed to a given agent (or broadcast). Each operation
    runs under the mailbox's spin lock, so it is one step of the model.

    [spec] is the queue the mailbox implements; [mailbox_refines] relates any
    sequence of operations on the ring to the same sequence on the queue. *)

From S2P Require Import Prelude Ring.
From stdpp Require Import base numbers list.
Open Scope Z_scope.

Definition MAILBOX_CAP : Z := 256.
Definition MAILBOX_MSG_MAX : Z := 512.
Definition MAILBOX_TO_ANY : Z := 0.

Record mailbox_msg_t := {
  body : list Z;
  len : Z;
  from_agent : Z;
  to_agent : Z;
}.

Definition zero_msg : mailbox_msg_t :=
  {| body := replicate (Z.to_nat MAILBOX_MSG_MAX) 0; len := 0;
     from_agent := 0; to_agent := 0 |}.

#[export] Instance mailbox_msg_inhabited : Inhabited mailbox_msg_t := populate zero_msg.

Record mailbox_t := { ring : list mailbox_msg_t; head : Z; count : Z }.

Definition mailbox_init : mailbox_t :=
  {| ring := replicate (Z.to_nat MAILBOX_CAP) zero_msg; head := 0; count := 0 |}.

(** The message written into a slot: the bytes behind the terminator keep what
    the slot held before. *)
Definition fill_msg (m : mailbox_msg_t) (from to : Z) (data : list Z) (n : Z)
  : mailbox_msg_t :=
  {| body := aset (mem_copy m.(body) data n) n 0;
     len := u32 n; from_agent := from; to_agent := to |}.

(** [None] stands for a null [mb] or [data]. *)
Definition mailbox_send (mb : option mailbox_t) (from to : Z)
    (data : option (list Z)) (n : Z) : option mailbox_t * Z :=
  match mb, data with
  | Some m, Some bytes =>
      if n =? 0 then (mb, - EINVAL) else
      let n := if n >? MAILBOX_MSG_MAX - 1 then MAILBOX_MSG_MAX - 1 else n in
      let slot := u32 (m.(head) + m.(count)) mod MAILBOX_CAP in
      let count' := if m.(count) <? MAILBOX_CAP then m.(count) + 1 else m.(count) in
      let head' := if m.(count) <? MAILBOX_CAP then m.(head)
                   else u32 (m.(head) + 1) mod MAILBOX_CAP in
      (Some {| ring := aset m.(ring) slot (fill_msg (m.(ring).[slot]) from to bytes n);
               head := head'; count := count' |}, 0)
  | _, _ => (mb, - EINVAL)
  end.

Definition mailbox_broadcast (mb : option mailbox_t) (from : Z)
    (data : option (list Z)) (n : Z) : option mailbox_t * Z :=
  mailbox_send mb from MAILBOX_TO_ANY data n.

(** The receivers return the status and the message copied to [*out]; [None] is a
    null [mb], and [out] tells whether [out] is not null. *)
Definition mailbox_try_recv (mb : option mailbox_t) (out : bool) : option mailbox_t * Z * option mailbox_msg_t :=
  match mb with
  | None => (mb, - EINVAL, None)
  | Some m =>
      if negb out then (mb, - EINVAL, None) else
      if m.(count) =? 0 then (mb, - ENOENT, None) else
      (Some {| ring := m.(ring);
               head := u32 (m.(head) + 1) mod MAILBOX_CAP;
               count := m.(count) - 1 |}, 0, Some (m.(ring).[m.(head)]))
  end.

Definition addressed_to (for_agent : Z) (x : mailbox_msg_t) : bool :=
  (x.(to_agent) =? MAILBOX_TO_ANY) || (x.(to_agent) =? for_agent).

(** The scan of lines 72-78: the first offset holding a deliverable message. *)
Fixpoint scan_for (n : nat) (m : mailbox_t) (for_agent i : Z) : Z :=
  match n with
  | O => UINT32_MAX
  | S n =>
      if addressed_to for_agent (m.(ring).[u32 (m.(head) + i) mod MAILBOX_CAP]) then i
      else scan_for n m for_agent (i + 1)
  end.

(** The loop of lines 86-90, [k] running up to [n - 2]. *)
Fixpoint close_gap (n : nat) (r : list mailbox_msg_t) (hd k : Z) : list mailbox_msg_t :=
  match n with
  | O => r
  | S n =>
      let dst := u32 (hd + k) mod MAILBOX_CAP in
      let src := u32 (hd + k + 1) mod MAILBOX_CAP in
      close_gap n (aset r dst (r.[src])) hd (k + 1)
  end.

Definition mailbox_try_recv_for (mb : option mailbox_t) (for_agent : Z) (out : bool)
  : option mailbox_t * Z * option mailbox_msg_t :=
  match mb with
  | None => (mb, - EINVAL, None)
  | Some m =>
      if negb out then (mb, - EINVAL, None) else
      let n := m.(count) in
      if n =? 0 then (mb, - ENOENT, None) else
      let found_off := scan_for (Z.to_nat n) m for_agent 0 in
      if found_off =? UINT32_MAX then (mb, - ENOENT, None) else
      let msg := m.(ring).[u32 (m.(head) + found_off) mod MAILBOX_CAP] in
      (Some {| ring := close_gap (Z.to_nat (n - 1 - found_off)) m.(ring) m.(head) found_off;
               head := m.(head); count := n - 1 |}, 0, Some msg)
  end.

(** ** Invariant and abstraction *)

Definition msg_wf (x : mailbox_msg_t) : Prop :=
  zlen x.(body) = MAILBOX_MSG_MAX ∧ 0 ≤ x.(len) < MAILBOX_MSG_MAX.

Definition mailbox_wf (m : mailbox_t) : Prop :=
  ring_ok MAILBOX_CAP m.(ring) m.(head) m.(count) ∧ Forall msg_wf m.(ring).

(** The messages held, oldest first. *)
Definition queue (m : mailbox_t) : list mailbox_msg_t :=
  ring_view MAILBOX_CAP m.(ring) m.(head) m.(count).

Lemma mailbox_index m i :
  mailbox_wf m → 0 ≤ i ≤ 2 * MAILBOX_CAP → u32 (m.(head) + i) = m.(head) + i.
Proof.
  intros [(_ & Hh & _) _] Hi. apply wrap_id. unfold MAILBOX_CAP in *. lia.
Qed.

Lemma mailbox_init_wf : mailbox_wf mailbox_init ∧ queue mailbox_init = [].
Proof.
  split; [|done]. split; [done|]. apply Forall_replicate. done.
Qed.

Lemma fill_msg_wf m from to bytes n :
  msg_wf m → 0 < n < MAILBOX_MSG_MAX → n ≤ zlen bytes →
  msg_wf (fill_msg m from to bytes n).
Proof.
  intros [Hb _] Hn Hd. unfold msg_wf, fill_msg, MAILBOX_MSG_MAX in *. cbn.
  rewrite zlen_aset, wrap_id by lia. split; [|lia].
  unfold mem_copy, zlen in *. rewrite length_app, length_take, length_drop. lia.
Qed.

(** The payload of a message: its first [len] bytes. *)
Definition payload (x : mailbox_msg_t) : list Z := take (Z.to_nat x.(len)) x.(body).

Lemma fill_msg_payload m from to bytes n :
  msg_wf m → 0 < n < MAILBOX_MSG_MAX → n ≤ zlen bytes →
  payload (fill_msg m from to bytes n) = take (Z.to_nat n) bytes.
Proof.
  intros [Hb _] Hn Hd. unfold payload, fill_msg, MAILBOX_MSG_MAX, zlen in *. cbn [len body].
  rewrite wrap_id by lia. unfold aset. rewrite take_insert_ge by lia.
  unfold mem_copy. rewrite take_app_le by (rewrite length_take; lia).
  rewrite take_take. f_equal. lia.
Qed.

(** ** The operations on the queue *)

Definition clamp_len (n : Z) : Z :=
  if n >? MAILBOX_MSG_MAX - 1 then MAILBOX_MSG_MAX - 1 else n.

Lemma clamp_len_range n : 0 < n → 0 < clamp_len n < MAILBOX_MSG_MAX ∧ clamp_len n ≤ n.
Proof. unfold clamp_len, MAILBOX_MSG_MAX. destruct (Z.gtb_spec n (512 - 1)); lia. Qed.

Lemma mailbox_send_queue m from to bytes n :
  mailbox_wf m → 0 < n → n ≤ zlen bytes →
  ∃ m' x,
    mailbox_send (Some m) from to (Some bytes) n = (Some m', 0) ∧
    mailbox_wf m' ∧
    queue m' = (if m.(count) <? MAILBOX_CAP then queue m else tail (queue m)) ++ [x] ∧
    x.(from_agent) = from ∧ x.(to_agent) = to ∧
    payload x = take (Z.to_nat (clamp_len n)) bytes.
Proof.
  intros Hwf Hn Hd. pose proof Hwf as [Hring Hall]. pose proof Hring as (Hlen & Hh & Hc).
  destruct (clamp_len_range n Hn) as [Hcl Hle].
  set (slot := u32 (m.(head) + m.(count)) mod MAILBOX_CAP).
  set (x := fill_msg (m.(ring).[slot]) from to bytes (clamp_len n)).
  assert (0 ≤ slot < MAILBOX_CAP) as Hslot by (by apply Z.mod_pos_bound).
  assert (msg_wf (m.(ring).[slot])) as Hold by (apply Forall_aget; [done|lia]).
  assert (slot = (m.(head) + m.(count)) mod MAILBOX_CAP) as Hs.
  { subst slot. rewrite mailbox_index; [done|done|lia]. }
  assert (u32 (m.(head) + 1) = m.(head) + 1) as H1 by (apply mailbox_index; [done|done]).
  assert (msg_wf x) as Hx by (apply fill_msg_wf; [done|done|lia]).
  unfold mailbox_send. rewrite (proj2 (Z.eqb_neq n 0)) by lia.
  fold (clamp_len n). fold slot. fold x. rewrite H1.
  eexists _, x. split; [done|]. repeat split; cbn [ring head count].
  - by rewrite zlen_aset.
  - bool_cases; [lia|by apply Z.mod_pos_bound].
  - bool_cases; [lia|by apply Z.mod_pos_bound].
  - bool_cases; lia.
  - bool_cases; lia.
  - by apply Forall_aset.
  - unfold queue. cbn [ring head count]. rewrite Hs. destruct (Z.ltb_spec m.(count) MAILBOX_CAP).
    + by apply ring_push_room.
    + assert (m.(count) = MAILBOX_CAP) as Hfull by lia. rewrite Hfull in *.
      by apply ring_push_full.
  - apply fill_msg_payload; [done|done|lia].
Qed.

Lemma mailbox_try_recv_queue m :
  mailbox_wf m →
  match queue m with
  | [] => mailbox_try_recv (Some m) true = (Some m, - ENOENT, None)
  | x :: q =>
      ∃ m', mailbox_try_recv (Some m) true = (Some m', 0, Some x) ∧ mailbox_wf m' ∧ queue m' = q
  end.
Proof.
  intros Hwf. pose proof Hwf as [Hring Hall]. pose proof Hring as (Hlen & Hh & Hc).
  unfold mailbox_try_recv. cbn [negb]. destruct (Z.eqb_spec m.(count) 0) as [E|E].
  - unfold queue. by rewrite E.
  - unfold queue at 1. rewrite ring_pop by (done || lia).
    rewrite mailbox_index by (done || (unfold MAILBOX_CAP; lia)).
    eexists. split; [done|]. split; [|done].
    split; [|done]. split; [done|]. cbn. split; [by apply Z.mod_pos_bound|lia].
Qed.

(** Position of the first message deliverable to an agent. *)
Fixpoint first_for (for_agent : Z) (q : list mailbox_msg_t) : option nat :=
  match q with
  | [] => None
  | x :: q => if addressed_to for_agent x then Some 0%nat else S <$> first_for for_agent q
  end.

Lemma scan_for_spec n m ag i :
  mailbox_wf m → 0 ≤ i → i + Z.of_nat n = m.(count) →
  scan_for n m ag i
  = from_option (λ k, i + Z.of_nat k) UINT32_MAX (first_for ag (drop (Z.to_nat i) (queue m))).
Proof.
  intros Hwf. revert i. induction n as [|n IH]; intros i Hi Hn.
  - assert (length (queue m) ≤ Z.to_nat i)%nat.
    { pose proof (zlen_ring_view MAILBOX_CAP m.(ring) m.(head) m.(count)).
      unfold queue, zlen in *. lia. }
    by rewrite drop_ge.
  - pose proof Hwf as [(_ & _ & Hc) _]. cbn [scan_for].
    assert (queue m !! Z.to_nat i = Some (m.(ring).[u32 (m.(head) + i) mod MAILBOX_CAP])) as Hq.
    { rewrite mailbox_index by (done || lia). unfold queue.
      rewrite aget_lookup by (rewrite zlen_ring_view by lia; lia).
      by rewrite aget_ring_view by lia. }
    erewrite drop_S by exact Hq. cbn [first_for].
    destruct (addressed_to ag _); [cbn; lia|].
    rewrite IH by lia. replace (Z.to_nat (i + 1)) with (S (Z.to_nat i)) by lia.
    destruct (first_for ag _); cbn; lia.
Qed.

Lemma close_gap_shift n r hd k :
  0 ≤ hd < MAILBOX_CAP → 0 ≤ k → k + Z.of_nat n ≤ MAILBOX_CAP →
  close_gap n r hd k = ring_shift_down MAILBOX_CAP n r hd k.
Proof.
  intros Hh. revert r k. unfold MAILBOX_CAP in *.
  induction n as [|n IH]; intros r k Hk Hn; [done|].
  cbn [close_gap ring_shift_down]. unfold MAILBOX_CAP.
  rewrite !wrap_id by lia. apply IH; lia.
Qed.

Lemma close_gap_wf n r hd k : Forall msg_wf r → Forall msg_wf (close_gap n r hd k).
Proof.
  revert r k. induction n as [|n IH]; intros r k Hall; [done|].
  cbn [close_gap]. apply IH, Forall_aset; [done|]. by apply Forall_aget_default.
Qed.

Lemma first_for_lt ag q k : first_for ag q = Some k → (k < length q)%nat.
Proof.
  revert k. induction q as [|x q IH]; intros k Hk; [done|]. cbn in *.
  destruct (addressed_to ag x); simplify_eq; [lia|].
  destruct (first_for ag q) as [j|]; simplify_eq/=. specialize (IH _ eq_refl). lia.
Qed.

Lemma mailbox_try_recv_for_queue m ag :
  mailbox_wf m →
  match first_for ag (queue m) with
  | None => mailbox_try_recv_for (Some m) ag true = (Some m, - ENOENT, None)
  | Some k =>
      ∃ m', mailbox_try_recv_for (Some m) ag true = (Some m', 0, queue m !! k) ∧
            mailbox_wf m' ∧ queue m' = delete k (queue m)
  end.
Proof.
  intros Hwf. pose proof Hwf as [Hring Hall]. pose proof Hring as (Hlen & Hh & Hc).
  unfold mailbox_try_recv_for. cbn [negb]. rewrite scan_for_spec by (done || lia). rewrite drop_0.
  destruct (Z.eqb_spec m.(count) 0) as [E|E].
  { unfold queue. by rewrite E. }
  destruct (first_for ag (queue m)) as [k|] eqn:Hk; [|done].
  pose proof (first_for_lt _ _ _ Hk) as Hlt.
  assert (zlen (queue m) = m.(count)) as Hlq by (apply zlen_ring_view; lia).
  assert (Z.of_nat k < m.(count)) as Hkc by (unfold zlen in Hlq; lia).
  cbn [from_option]. unfold MAILBOX_CAP in *.
  destruct (Z.eqb_spec (0 + Z.of_nat k) UINT32_MAX); [unfold UINT32_MAX in *; lia|].
  eexists. split; [|split].
  - do 2 f_equal. rewrite mailbox_index by (done || (unfold MAILBOX_CAP; lia)).
    pose proof (aget_lookup (queue m) (0 + Z.of_nat k) ltac:(lia)) as Hl.
    unfold queue in Hl at 2. rewrite aget_ring_view in Hl by lia.
    replace (Z.to_nat (0 + Z.of_nat k)) with k in Hl by lia. by rewrite Hl.
  - split; cbn [ring head count].
    + split; [|unfold MAILBOX_CAP in *; lia]. rewrite close_gap_shift by (unfold MAILBOX_CAP in *; lia).
      by rewrite zlen_ring_shift_down.
    + by apply close_gap_wf.
  - unfold queue at 1. cbn [ring head count].
    rewrite close_gap_shift by (unfold MAILBOX_CAP in *; lia).
    rewrite ring_remove by (done || lia). by replace (Z.to_nat (0 + Z.of_nat k)) with k by lia.
Qed.

(** ** The queue specification and the refinement *)

Record amsg := { a_from : Z; a_to : Z; a_payload : list Z }.

Inductive mop :=
| Send (from to : Z) (bytes : list Z) (n : Z)
| Broadcast (from : Z) (bytes : list Z) (n : Z)
| Recv (out : bool)
| RecvFor (for_agent : Z) (out : bool).
(** A send must pass a buffer of at least the length it announces. *)
Definition mop_ok (o : mop) : Prop :=
  match o with
  | Send _ _ bytes n | Broadcast _ bytes n => 0 ≤ n ≤ zlen bytes
  | _ => True
  end.

Module spec.
(** Remove the first message addressed to [ag] or to everybody. *)
Fixpoint take_for (ag : Z) (q : list amsg) : option (amsg * list amsg) :=
  match q with
  | [] => None
  | x :: q =>
      if (x.(a_to) =? MAILBOX_TO_ANY) || (x.(a_to) =? ag) then Some (x, q)
      else prod_map id (cons x) <$> take_for ag q
  end.

Definition send (q : list amsg) (from to : Z) (bytes : list Z) (n : Z) : list amsg * Z * option amsg :=
  if n =? 0 then (q, - EINVAL, None) else
  let x := {| a_from := from; a_to := to;
              a_payload := take (Z.to_nat (clamp_len n)) bytes |} in
  ((if zlen q <? MAILBOX_CAP then q else tail q) ++ [x], 0, None).
Definition step (q : list amsg) (o : mop) : list amsg * Z * option amsg :=
  match o with
  | Send from to bytes n => send q from to bytes n
  | Broadcast from bytes n => send q from MAILBOX_TO_ANY bytes n
  | Recv false | RecvFor _ false => (q, - EINVAL, None)
  | Recv true =>
      match q with
      | [] => (q, - ENOENT, None)
      | x :: q => (q, 0, Some x)
      end
  | RecvFor ag true =>
      match take_for ag q with
      | None => (q, - ENOENT, None)
      | Some (x, q) => (q, 0, Some x)
      end
  end.

Fixpoint run (q : list amsg) (ops : list mop) : list (Z * option amsg) :=
  match ops with
  | [] => []
  | o :: ops => let '(q, rc, out) := step q o in (rc, out) :: run q ops
  end.
End spec.

Definition abs_msg (x : mailbox_msg_t) : amsg :=
  {| a_from := x.(from_agent); a_to := x.(to_agent); a_payload := payload x |}.

Definition abs_out (o : Z * option mailbox_msg_t) : Z * option amsg :=
  (o.1, abs_msg <$> o.2).

(** A call on a mailbox that is there; [default] gives it back as it is. *)
Definition mailbox_step (m : mailbox_t) (o : mop) : mailbox_t * Z * option mailbox_msg_t :=
  match o with
  | Send from to bytes n => let '(mb, rc) := mailbox_send (Some m) from to (Some bytes) n in (default m mb, rc, None)
  | Broadcast from bytes n => let '(mb, rc) := mailbox_broadcast (Some m) from (Some bytes) n in (default m mb, rc, None)
  | Recv out => let '(mb, rc, msg) := mailbox_try_recv (Some m) out in (default m mb, rc, msg)
  | RecvFor ag out => let '(mb, rc, msg) := mailbox_try_recv_for (Some m) ag out in (default m mb, rc, msg)
  end.

Fixpoint mailbox_run (m : mailbox_t) (ops : list mop) : list (Z * option mailbox_msg_t) :=
  match ops with
  | [] => []
  | o :: ops => let '(m, rc, out) := mailbox_step m o in (rc, out) :: mailbox_run m ops
  end.

Lemma take_for_first ag q :
  spec.take_for ag (abs_msg <$> q)
  = k ← first_for ag q; x ← q !! k; Some (abs_msg x, abs_msg <$> delete k q).
Proof.
  induction q as [|x q IH]; [done|]. cbn [fmap list_fmap spec.take_for first_for].
  unfold addressed_to. cbn [abs_msg a_to].
  destruct ((x.(to_agent) =? _) || (x.(to_agent) =? ag)); [done|].
  rewrite IH. destruct (first_for ag q) as [k|]; [|done]. cbn.
  by destruct (q !! k).
Qed.

Lemma mailbox_send_refines m from to bytes n :
  mailbox_wf m → 0 ≤ n ≤ zlen bytes →
  ∃ m' rc, mailbox_send (Some m) from to (Some bytes) n = (Some m', rc) ∧ mailbox_wf m' ∧
    spec.send (abs_msg <$> queue m) from to bytes n = (abs_msg <$> queue m', rc, None).
Proof.
  intros Hwf Hok. unfold spec.send. destruct (Z.eqb_spec n 0) as [->|Hn]; [by exists m, (- EINVAL)|].
  destruct (mailbox_send_queue m from to bytes n) as (m' & x & -> & Hwf' & Hq & Hf & Ht & Hp);
    [done|lia|lia|].
  exists m', 0. split; [done|]. split; [done|]. rewrite Hq, fmap_app. cbn.
  unfold zlen. rewrite length_fmap. fold (zlen (queue m)).
  unfold queue at 1. rewrite zlen_ring_view by (destruct Hwf as [(_ & _ & ?) _]; lia).
  assert (abs_msg x = {| a_from := from; a_to := to;
    a_payload := take (Z.to_nat (clamp_len n)) bytes |}) as ->
    by (unfold abs_msg; congruence).
  bool_cases; [done|]. by destruct (queue m).
Qed.

Lemma mailbox_step_refines m o :
  mailbox_wf m → mop_ok o →
  let '(m', rc, out) := mailbox_step m o in
  mailbox_wf m' ∧
  spec.step (abs_msg <$> queue m) o = (abs_msg <$> queue m', rc, abs_msg <$> out).
Proof.
  intros Hwf Hok. destruct o as [from to bytes n|from bytes n|[]|ag []]; cbn [mailbox_step spec.step]; unfold mailbox_broadcast.
  - by destruct (mailbox_send_refines m from to bytes n Hwf Hok) as (m' & rc & -> & Hwf' & ->).
  - by destruct (mailbox_send_refines m from MAILBOX_TO_ANY bytes n Hwf Hok) as (m' & rc & -> & Hwf' & ->).
  - pose proof (mailbox_try_recv_queue m Hwf) as H. destruct (queue m) as [|x q] eqn:Hq.
    + rewrite H. split; [done|]. change (default m (Some m)) with m. by rewrite Hq.
    + destruct H as (m' & -> & Hwf' & Hq'). split; [done|]. change (default m (Some m')) with m'. by rewrite Hq'.
  - done.
  - pose proof (mailbox_try_recv_for_queue m ag Hwf) as H. rewrite take_for_first.
    destruct (first_for ag (queue m)) as [k|] eqn:Hk; [|by rewrite H].
    destruct H as (m' & -> & Hwf' & Hq'). split; [done|]. change (default m (Some m')) with m'.
    destruct (lookup_lt_is_Some_2 (queue m) k) as [x Hx]; [by eapply first_for_lt|].
    cbn. rewrite Hx. cbn. by rewrite Hq'.
  - done.
Qed.

(** C24: From an initialised mailbox, every sequence of sends, broadcasts and receives
    returns exactly the statuses and messages (sender, addressee, payload bytes)
    of a queue that keeps the latest 256 messages: a send to a full mailbox drops
    the oldest message, a receive takes the oldest, an addressed receive takes
    the oldest one sent to that agent or broadcast and leaves the others in
    order; a receive without a place for the message is refused. *)
Theorem mailbox_refines ops :
  Forall mop_ok ops →
  map abs_out (mailbox_run mailbox_init ops) = spec.run [] ops.
Proof.
  intros Hok. destruct mailbox_init_wf as [Hwf Hq].
  change (@nil amsg) with (abs_msg <$> @nil mailbox_msg_t). rewrite <- Hq. clear Hq.
  revert Hwf. generalize mailbox_init as m. induction Hok as [|o ops Ho _ IH]; intros m Hwf; [done|].
  cbn [mailbox_run spec.run]. pose proof (mailbox_step_refines m o Hwf Ho) as Hs.
  destruct (mailbox_step m o) as [[m' rc] out]. destruct Hs as [Hwf' ->].
  cbn. by rewrite IH.
Qed.

Definition demo_ops : list mop :=
  [Send 1 7 [104; 105] 2; Broadcast 2 [1; 2; 3] 3; Send 3 9 [5] 1;
   RecvFor 9 true; RecvFor 9 true; RecvFor 9 true; Recv false; Recv true; Recv true].

Lemma mailbox_refines_witness :
  Forall mop_ok demo_ops ∧
  map abs_out (mailbox_run mailbox_init demo_ops)
  = [(0, None); (0, None); (0, None);
     (0, Some {| a_from := 2; a_to := 0; a_payload := [1; 2; 3] |});
     (0, Some {| a_from := 3; a_to := 9; a_payload := [5] |});
     (- ENOENT, None);
     (- EINVAL, None);
     (0, Some {| a_from := 1; a_to := 7; a_payload := [104; 105] |});
     (- ENOENT, None)].
Proof.
  assert (Forall mop_ok demo_ops) as Hok by (repeat constructor; done).
  split; [exact Hok|]. rewrite (mailbox_refines demo_ops Hok). reflexivity.
Defined.
