(* ===== verification/CMem.v ===== *)
(** * Byte memory and the block operations of [src/lib/string.c]

    Memory is a finite map from addresses to bytes; an access outside the
    mapped addresses is the outcome [Fault]. A loop whose exit depends on the
    bytes it reads takes a fuel argument and yields [NoFuel] when it is spent;
    the theorems about such loops give the fuel that is enough.

    The block routines ([memset], [memcpy], [memmove], [memcmp]) run for the
    count they are given, so they need no fuel. *)

From S2P Require Import Prelude.
From stdpp Require Import base numbers list gmap.
Open Scope Z_scope.

Inductive outcome (A : Type) :=
| Ret (a : A)
| Fault
| NoFuel.
Arguments Ret {A} _.
Arguments Fault {A}.
Arguments NoFuel {A}.

#[export] Instance outcome_ret : MRet outcome := λ A a, Ret a.
#[export] Instance outcome_bind : MBind outcome := λ A B f o,
  match o with
  | Ret a => f a
  | Fault => Fault
  | NoFuel => NoFuel
  end.

Definition load (m : gmap Z Z) (a : Z) : outcome Z :=
  match m !! a with
  | Some v => Ret v
  | None => Fault
  end.

Definition store (m : gmap Z Z) (a v : Z) : outcome (gmap Z Z) :=
  match m !! a with
  | Some _ => Ret (<[a:=u8 v]> m)
  | None => Fault
  end.

(** [while (n--) *d++ = c] *)
Fixpoint memset (n : nat) (m : gmap Z Z) (d c : Z) : outcome (gmap Z Z) :=
  match n with
  | O => Ret m
  | S n => m ← store m d c; memset n m (d + 1) c
  end.

(** [while (n--) *d++ = *s++] *)
Fixpoint memcpy (n : nat) (m : gmap Z Z) (d s : Z) : outcome (gmap Z Z) :=
  match n with
  | O => Ret m
  | S n => v ← load m s; m ← store m d v; memcpy n m (d + 1) (s + 1)
  end.

(** [while (n--) *--d = *--s], the pointers starting one past the blocks *)
Fixpoint memcpy_back (n : nat) (m : gmap Z Z) (d s : Z) : outcome (gmap Z Z) :=
  match n with
  | O => Ret m
  | S n => v ← load m (s - 1); m ← store m (d - 1) v; memcpy_back n m (d - 1) (s - 1)
  end.

Definition memmove (n : nat) (m : gmap Z Z) (d s : Z) : outcome (gmap Z Z) :=
  if d <? s then memcpy n m d s
  else if d >? s then memcpy_back n m (d + Z.of_nat n) (s + Z.of_nat n)
  else Ret m.

Fixpoint memcmp (n : nat) (m : gmap Z Z) (pa pb : Z) : outcome Z :=
  match n with
  | O => Ret 0
  | S n =>
      a ← load m pa; b ← load m pb;
      if negb (a =? b) then Ret (a - b) else memcmp n m (pa + 1) (pb + 1)
  end.

(** ** Lemmas *)

(** [n] bytes from [a] are mapped, and hold bytes. *)
Definition mapped (m : gmap Z Z) (a n : Z) : Prop :=
  ∀ i, a ≤ i < a + n → ∃ b, m !! i = Some b ∧ 0 ≤ b < 256.

(** The bytes [l] are stored from [a]. *)
Definition bytes_at (m : gmap Z Z) (a : Z) (l : list Z) : Prop :=
  ∀ i b, l !! i = Some b → m !! (a + Z.of_nat i) = Some b.

(** [m'] is [m] with the block at [d] replaced by the block at [s] of [m]. *)
Definition block_copied (m m' : gmap Z Z) (d s n : Z) : Prop :=
  ∀ a, m' !! a = m !! (if decide (d ≤ a < d + n) then a - d + s else a).

Lemma mapped_weaken m a n a' n' :
  mapped m a n → a ≤ a' → a' + n' ≤ a + n → mapped m a' n'.
Proof. intros Hm Ha Hn i Hi. apply Hm. lia. Qed.

Lemma mapped_insert m a n k v :
  0 ≤ v < 256 → mapped m a n → mapped (<[k:=v]> m) a n.
Proof.
  intros Hv Hm i Hi. rewrite lookup_insert. case_decide; [eauto|by apply Hm].
Qed.

Lemma load_some m a v : m !! a = Some v → load m a = Ret v.
Proof. unfold load. by intros ->. Qed.

Lemma store_some m a v b : m !! a = Some v → 0 ≤ b < 256 → store m a b = Ret (<[a:=b]> m).
Proof. unfold store. intros -> Hb. by rewrite wrap_id by lia. Qed.

Lemma load_mapped m a n i :
  mapped m a n → a ≤ i < a + n → ∃ b, load m i = Ret b ∧ m !! i = Some b ∧ 0 ≤ b < 256.
Proof. intros Hm Hi. destruct (Hm i Hi) as (b & E & Hb). unfold load. rewrite E. eauto. Qed.

Lemma store_mapped m a n i v :
  mapped m a n → a ≤ i < a + n → 0 ≤ v < 256 → store m i v = Ret (<[i:=v]> m).
Proof.
  intros Hm Hi Hv. destruct (Hm i Hi) as (b & E & _). unfold store. rewrite E.
  by rewrite wrap_id by lia.
Qed.

Lemma load_bytes_at m a l i b :
  bytes_at m a l → 0 ≤ i → l !! Z.to_nat i = Some b → load m (a + i) = Ret b.
Proof.
  intros Hb Hi Hl. specialize (Hb _ _ Hl). rewrite Z2Nat.id in Hb by lia.
  unfold load. by rewrite Hb.
Qed.

Lemma bytes_at_cons m a b l : bytes_at m a (b :: l) ↔ m !! a = Some b ∧ bytes_at m (a + 1) l.
Proof.
  split.
  - intros H. split.
    + specialize (H 0%nat b eq_refl). by rewrite Z.add_0_r in H.
    + intros i x Hx. specialize (H (S i) x Hx). rewrite <- H. f_equal. lia.
  - intros [H0 H1] [|i] x Hx; cbn in Hx.
    + simplify_eq. by rewrite Z.add_0_r.
    + rewrite <- (H1 i x Hx). f_equal. lia.
Qed.

Lemma bytes_at_app m a l l' :
  bytes_at m a (l ++ l') ↔ bytes_at m a l ∧ bytes_at m (a + zlen l) l'.
Proof.
  revert a. induction l as [|b l IH]; intros a.
  - cbn. unfold zlen. cbn. rewrite Z.add_0_r. split; [|tauto]. split; [|done]. intros i b Hb. done.
  - cbn [app]. rewrite !bytes_at_cons, IH. unfold zlen. cbn [length].
    replace (a + 1 + Z.of_nat (length l)) with (a + Z.of_nat (S (length l))) by lia. tauto.
Qed.

Lemma bytes_at_insert_out m a l k v :
  k < a ∨ a + zlen l ≤ k → bytes_at m a l → bytes_at (<[k:=v]> m) a l.
Proof.
  intros Hk Hl i b Hb. pose proof (lookup_lt_Some _ _ _ Hb). unfold zlen in Hk.
  rewrite lookup_insert_ne by lia. by apply Hl.
Qed.

Lemma memset_spec n m d c :
  mapped m d (Z.of_nat n) →
  ∃ m', memset n m d c = Ret m' ∧
        ∀ a, m' !! a = if decide (d ≤ a < d + Z.of_nat n) then Some (u8 c) else m !! a.
Proof.
  revert m d. induction n as [|n IH]; intros m d Hd; cbn [memset].
  - exists m. split; [done|]. intros a. by rewrite decide_False by lia.
  - destruct (Hd d) as (b & Hb & _); [lia|]. unfold store. rewrite Hb. cbn.
    destruct (IH (<[d:=u8 c]> m) (d + 1)) as (m' & -> & Hm').
    { apply mapped_insert; [by apply wrap_range|]. eapply mapped_weaken; [exact Hd|lia..]. }
    exists m'. split; [done|]. intros a. rewrite Hm', lookup_insert.
    repeat case_decide; try lia; done.
Qed.

(** Writing past the mapped bytes faults. *)
Lemma memset_fault n m d c j :
  mapped m d (Z.of_nat j) → (j < n)%nat → m !! (d + Z.of_nat j) = None →
  memset n m d c = Fault.
Proof.
  revert n m d. induction j as [|j IH]; intros [|n] m d Hd Hj Hn; try lia; cbn [memset].
  - rewrite Z.add_0_r in Hn. unfold store. by rewrite Hn.
  - destruct (Hd d) as (b & Hb & _); [lia|]. unfold store. rewrite Hb. cbn. apply IH.
    + apply mapped_insert; [by apply wrap_range|]. eapply mapped_weaken; [exact Hd|lia..].
    + lia.
    + rewrite lookup_insert_ne by lia. rewrite <- Hn. f_equal. lia.
Qed.

Lemma memcpy_spec n m d s :
  mapped m d (Z.of_nat n) → mapped m s (Z.of_nat n) →
  d ≤ s ∨ s + Z.of_nat n ≤ d →
  ∃ m', memcpy n m d s = Ret m' ∧ block_copied m m' d s (Z.of_nat n).
Proof.
  revert m d s. induction n as [|n IH]; intros m d s Hd Hs Hdis; cbn [memcpy].
  - exists m. split; [done|]. intros a. rewrite decide_False by lia. done.
  - destruct (load_mapped m s _ s Hs) as (b & Hl & Hlk & Hb); [lia|].
    rewrite Hl. cbn. rewrite (store_mapped m d (Z.of_nat (S n))) by (done || lia). cbn.
    destruct (IH (<[d:=b]> m) (d + 1) (s + 1)) as (m' & He & Hc); [..|lia|].
    { apply mapped_insert; [done|]. eapply mapped_weaken; [exact Hd|lia..]. }
    { apply mapped_insert; [done|]. eapply mapped_weaken; [exact Hs|lia..]. }
    exists m'. split; [done|]. intros a. rewrite Hc.
    destruct (decide (a = d)) as [->|].
    + rewrite decide_False by lia. rewrite lookup_insert_eq.
      rewrite decide_True by lia. by replace (d - d + s) with s by lia.
    + destruct (decide (d ≤ a < d + Z.of_nat (S n))).
      * rewrite decide_True by lia. rewrite lookup_insert_ne by lia. f_equal. lia.
      * rewrite decide_False by lia. by rewrite lookup_insert_ne by lia.
Qed.

Lemma memcpy_back_spec n m d s :
  mapped m (d - Z.of_nat n) (Z.of_nat n) → mapped m (s - Z.of_nat n) (Z.of_nat n) →
  s ≤ d →
  ∃ m', memcpy_back n m d s = Ret m' ∧
        block_copied m m' (d - Z.of_nat n) (s - Z.of_nat n) (Z.of_nat n).
Proof.
  revert m d s. induction n as [|n IH]; intros m d s Hd Hs Hle; cbn [memcpy_back].
  - exists m. split; [done|]. intros a. rewrite decide_False by lia. done.
  - destruct (load_mapped m _ _ (s - 1) Hs) as (b & Hl & Hlk & Hb); [lia|].
    rewrite Hl. cbn. rewrite (store_mapped m _ _ (d - 1) b Hd) by lia. cbn.
    destruct (IH (<[d - 1:=b]> m) (d - 1) (s - 1)) as (m' & He & Hc); [..|lia|].
    { apply mapped_insert; [done|]. eapply mapped_weaken; [exact Hd|lia..]. }
    { apply mapped_insert; [done|]. eapply mapped_weaken; [exact Hs|lia..]. }
    exists m'. split; [done|]. intros a. rewrite Hc.
    destruct (decide (a = d - 1)) as [->|].
    + rewrite decide_False by lia. rewrite lookup_insert_eq.
      rewrite decide_True by lia. rewrite <- Hlk. f_equal. lia.
    + destruct (decide (d - Z.of_nat (S n) ≤ a < d - Z.of_nat (S n) + Z.of_nat (S n))).
      * rewrite decide_True by lia. rewrite lookup_insert_ne by lia. f_equal. lia.
      * rewrite decide_False by lia. by rewrite lookup_insert_ne by lia.
Qed.

(** [memmove] copies correctly however its blocks overlap: on mapped blocks
    it succeeds, the destination ends up with the source's original bytes and no
    other byte of memory changes. *)
Theorem memmove_correct n m d s :
  mapped m d (Z.of_nat n) → mapped m s (Z.of_nat n) →
  ∃ m', memmove n m d s = Ret m' ∧ block_copied m m' d s (Z.of_nat n).
Proof.
  intros Hd Hs. unfold memmove. rewrite Z.gtb_ltb. bool_cases.
  - apply memcpy_spec; [done|done|lia].
  - destruct (memcpy_back_spec n m (d + Z.of_nat n) (s + Z.of_nat n)) as (m' & He & Hc).
    { by replace (d + Z.of_nat n - Z.of_nat n) with d by lia. }
    { by replace (s + Z.of_nat n - Z.of_nat n) with s by lia. }
    { lia. }
    exists m'. split; [done|].
    by replace (d + Z.of_nat n - Z.of_nat n) with d in Hc by lia;
       replace (s + Z.of_nat n - Z.of_nat n) with s in Hc by lia.
  - assert (d = s) as -> by lia. exists m. split; [done|]. intros a.
    case_decide; f_equal; lia.
Qed.

(** A memory holding the bytes [l] from address [a]. *)
Definition mem_of (a : Z) (l : list Z) : gmap Z Z :=
  list_to_map (zip (seqZ a (zlen l)) l).

Lemma memmove_correct_witness :
  mapped (mem_of 100 [1; 2; 3; 4; 5; 6]) 102 4 ∧
  ∃ m', memmove 4 (mem_of 100 [1; 2; 3; 4; 5; 6]) 102 100 = Ret m' ∧
        block_copied (mem_of 100 [1; 2; 3; 4; 5; 6]) m' 102 100 4.
Proof.
  assert (∀ a n, 100 ≤ a → a + n ≤ 106 → mapped (mem_of 100 [1; 2; 3; 4; 5; 6]) a n) as H.
  { intros a n Ha Hn i Hi.
    assert (i = 100 ∨ i = 101 ∨ i = 102 ∨ i = 103 ∨ i = 104 ∨ i = 105)
      as [->|[->|[->|[->|[->|]]]]] by lia; subst;
    vm_compute; eexists; (split; [reflexivity|split; [intros ?; discriminate|reflexivity]]). }
  split; [by apply H|]. apply (memmove_correct 4); by apply H.
Defined.
