(* ===== verification/CString.v ===== *)
(** * C strings ([src/lib/string.c], lines 52-167)

    Each routine is the pointer loop of the source over the byte memory of
    [CMem]. [cstr_at m a s] says that the string [s] is stored at [a] with its
    terminator; the lemmas compute each routine on such strings. *)

From S2P Require Import Prelude CMem.
From stdpp Require Import base numbers list gmap.
Open Scope Z_scope.

(** [while ( *p ) p++] *)
Fixpoint to_nul (fuel : nat) (m : gmap Z Z) (p : Z) : outcome Z :=
  match fuel with
  | O => NoFuel
  | S fuel => c ← load m p; if c =? 0 then Ret p else to_nul fuel m (p + 1)
  end.

Definition strlen (fuel : nat) (m : gmap Z Z) (s : Z) : outcome Z :=
  p ← to_nul fuel m s; Ret (p - s).

Fixpoint strnlen_loop (k : nat) (m : gmap Z Z) (s n : Z) : outcome Z :=
  match k with
  | O => Ret n
  | S k => c ← load m (s + n); if c =? 0 then Ret n else strnlen_loop k m s (n + 1)
  end.
Definition strnlen (m : gmap Z Z) (s : Z) (maxlen : nat) : outcome Z :=
  strnlen_loop maxlen m s 0.

(** [while ( ( *d++ = *src++ ) );] *)
Fixpoint strcpy (fuel : nat) (m : gmap Z Z) (d src : Z) : outcome (gmap Z Z) :=
  match fuel with
  | O => NoFuel
  | S fuel =>
      c ← load m src; m ← store m d c;
      if c =? 0 then Ret m else strcpy fuel m (d + 1) (src + 1)
  end.

(** [while (n && ( *d++ = *src++ )) n--;], returning [d] and what is left of [n] *)
Fixpoint strncpy_copy (n : nat) (m : gmap Z Z) (d src : Z) : outcome (gmap Z Z * Z * nat) :=
  match n with
  | O => Ret (m, d, O)
  | S k =>
      c ← load m src; m ← store m d c;
      if c =? 0 then Ret (m, d + 1, S k) else strncpy_copy k m (d + 1) (src + 1)
  end.

(** ... followed by [while (n--) *d++ = '\0';] *)
Definition strncpy (m : gmap Z Z) (d src : Z) (n : nat) : outcome (gmap Z Z) :=
  r ← strncpy_copy n m d src;
  let '(m, d, rest) := r in memset rest m d 0.

Definition strcat (fuel : nat) (m : gmap Z Z) (dest src : Z) : outcome (gmap Z Z) :=
  d ← to_nul fuel m dest; strcpy fuel m d src.

(** [while (n-- && *src) *d++ = *src++; *d = '\0';] *)
Fixpoint strncat_copy (n : nat) (m : gmap Z Z) (d src : Z) : outcome (gmap Z Z) :=
  match n with
  | O => store m d 0
  | S n =>
      c ← load m src;
      if c =? 0 then store m d 0
      else (m ← store m d c; strncat_copy n m (d + 1) (src + 1))
  end.
Definition strncat (fuel : nat) (m : gmap Z Z) (dest src : Z) (n : nat) : outcome (gmap Z Z) :=
  d ← to_nul fuel m dest; strncat_copy n m d src.

Fixpoint strcmp (fuel : nat) (m : gmap Z Z) (a b : Z) : outcome Z :=
  match fuel with
  | O => NoFuel
  | S fuel =>
      x ← load m a;
      if x =? 0 then (y ← load m b; Ret (x - y)) else
      y ← load m b;
      if x =? y then strcmp fuel m (a + 1) (b + 1) else Ret (x - y)
  end.

Fixpoint strncmp (n : nat) (m : gmap Z Z) (a b : Z) : outcome Z :=
  match n with
  | O => Ret 0
  | S n =>
      x ← load m a;
      if x =? 0 then (y ← load m b; Ret (x - y)) else
      y ← load m b;
      if x =? y then strncmp n m (a + 1) (b + 1) else Ret (x - y)
  end.

(** Pointer results: [None] is [NULL]. *)
Fixpoint strchr (fuel : nat) (m : gmap Z Z) (s c : Z) : outcome (option Z) :=
  match fuel with
  | O => NoFuel
  | S fuel =>
      x ← load m s;
      if x =? 0 then Ret (if c =? 0 then Some s else None)
      else if x =? u8 c then Ret (Some s) else strchr fuel m (s + 1) c
  end.

Fixpoint strrchr_loop (fuel : nat) (m : gmap Z Z) (s c : Z) (last : option Z)
  : outcome (option Z) :=
  match fuel with
  | O => NoFuel
  | S fuel =>
      x ← load m s;
      if x =? 0 then Ret (if c =? 0 then Some s else last)
      else strrchr_loop fuel m (s + 1) c (if x =? u8 c then Some s else last)
  end.
Definition strrchr (fuel : nat) (m : gmap Z Z) (s c : Z) : outcome (option Z) :=
  strrchr_loop fuel m s c None.

Fixpoint strstr_loop (fuel : nat) (m : gmap Z Z) (hay needle nlen : Z) : outcome (option Z) :=
  match fuel with
  | O => NoFuel
  | S fuel =>
      h ← load m hay;
      if h =? 0 then Ret None else
      c ← load m needle;
      if h =? c then
        r ← strncmp (Z.to_nat nlen) m hay needle;
        if r =? 0 then Ret (Some hay) else strstr_loop fuel m (hay + 1) needle nlen
      else strstr_loop fuel m (hay + 1) needle nlen
  end.
Definition strstr (fuel : nat) (m : gmap Z Z) (hay needle : Z) : outcome (option Z) :=
  c ← load m needle;
  if c =? 0 then Ret (Some hay) else
  nlen ← strlen fuel m needle;
  strstr_loop fuel m hay needle nlen.

(** ** Strings in memory *)

Definition cstr_at (m : gmap Z Z) (a : Z) (s : list Z) : Prop :=
  bytes_at m a (s ++ [0]) ∧ Forall (λ b, 0 < b < 256) s.

Lemma cstr_at_nil m a : cstr_at m a [] ↔ m !! a = Some 0.
Proof.
  unfold cstr_at. cbn [app]. rewrite bytes_at_cons. split; [tauto|].
  intros. repeat split; try done.
Qed.

Lemma cstr_at_cons m a b s :
  cstr_at m a (b :: s) ↔ m !! a = Some b ∧ 0 < b < 256 ∧ cstr_at m (a + 1) s.
Proof. unfold cstr_at. cbn [app]. rewrite bytes_at_cons, Forall_cons. tauto. Qed.

Lemma cstr_at_drop m a s k :
  cstr_at m a s → (k ≤ length s)%nat → cstr_at m (a + Z.of_nat k) (drop k s).
Proof.
  revert a s. induction k as [|k IH]; intros a s Hs Hk.
  - by rewrite Z.add_0_r.
  - destruct s as [|b s]; [cbn in Hk; lia|]. apply cstr_at_cons in Hs as (_ & _ & Hs).
    cbn in Hk. cbn [drop]. replace (a + Z.of_nat (S k)) with (a + 1 + Z.of_nat k) by lia.
    apply IH; [done|lia].
Qed.

Ltac cstr_step :=
  match goal with
  | H : cstr_at ?m ?a [] |- context [load ?m ?a] =>
      let E := fresh "E" in pose proof (proj1 (cstr_at_nil _ _) H) as E;
      rewrite (load_some _ _ _ E); cbn [mbind outcome_bind]
  | H : cstr_at ?m ?a (_ :: _) |- context [load ?m ?a] =>
      let E := fresh "E" in let B := fresh "B" in let T := fresh "T" in
      pose proof (proj1 (cstr_at_cons _ _ _ _) H) as (E & B & T);
      rewrite (load_some _ _ _ E); cbn [mbind outcome_bind]
  end.

Lemma to_nul_cstr fuel m a s :
  cstr_at m a s → (length s < fuel)%nat → to_nul fuel m a = Ret (a + zlen s).
Proof.
  revert fuel a. induction s as [|b s IH]; intros [|fuel] a Hs Hf; cbn in Hf; try lia;
    cbn [to_nul]; cstr_step.
  - unfold zlen. cbn. by rewrite Z.add_0_r.
  - rewrite (proj2 (Z.eqb_neq b 0)) by lia. rewrite IH by (done || lia).
    unfold zlen. cbn [length]. f_equal. lia.
Qed.

Lemma strlen_cstr fuel m a s :
  cstr_at m a s → (length s < fuel)%nat → strlen fuel m a = Ret (zlen s).
Proof. intros. unfold strlen. erewrite to_nul_cstr by done. cbn. f_equal. lia. Qed.

(** The result of comparing two strings byte by byte: the difference of the
    first bytes that differ, the end of a string counting as 0. *)
Fixpoint lex_diff (s t : list Z) : Z :=
  match s, t with
  | [], [] => 0
  | [], y :: _ => 0 - y
  | x :: _, [] => x
  | x :: s, y :: t => if x =? y then lex_diff s t else x - y
  end.

Lemma lex_diff_zero s t :
  Forall (λ b, 0 < b < 256) s → Forall (λ b, 0 < b < 256) t →
  lex_diff s t = 0 ↔ s = t.
Proof.
  intros Hs. revert t. induction Hs as [|x s Hx _ IH]; intros t Ht; destruct Ht as [|y t Hy Ht];
    cbn [lex_diff].
  - done.
  - split; [lia|done].
  - split; [lia|done].
  - destruct (Z.eqb_spec x y) as [->|]; [rewrite IH by done|]; split; intros; simplify_eq; try done; lia.
Qed.

Lemma strcmp_cstr fuel m a b s t :
  cstr_at m a s → cstr_at m b t → (length s < fuel)%nat →
  strcmp fuel m a b = Ret (lex_diff s t).
Proof.
  revert fuel a b t. induction s as [|x s IH]; intros [|fuel] a b t Hs Ht Hf; cbn in Hf; try lia;
    cbn [strcmp]; cstr_step.
  - change (0 =? 0) with true. cbv iota. destruct t as [|y t]; cstr_step; done.
  - rewrite (proj2 (Z.eqb_neq x 0)) by lia. destruct t as [|y t]; cstr_step; cbn [lex_diff].
    + rewrite (proj2 (Z.eqb_neq x 0)) by lia. f_equal. lia.
    + destruct (x =? y); [|done]. apply IH; [done..|lia].
Qed.

(** [strcmp] on two strings terminates without a fault, returns the
    difference of the first bytes at which they differ (a shorter string's end
    counting as 0), and returns 0 exactly for equal strings. *)
Lemma strcmp_correct m a b s t :
  cstr_at m a s → cstr_at m b t →
  strcmp (S (length s)) m a b = Ret (lex_diff s t) ∧ (lex_diff s t = 0 ↔ s = t).
Proof.
  intros Hs Ht. split; [by apply strcmp_cstr; [..|lia]|].
  apply lex_diff_zero; [apply Hs|apply Ht].
Qed.

Lemma cstr_demo : cstr_at (mem_of 10 [97; 98; 0; 97; 99; 0]) 10 [97; 98] ∧
                  cstr_at (mem_of 10 [97; 98; 0; 97; 99; 0]) 13 [97; 99].
Proof. split; repeat (rewrite cstr_at_cons; split; [reflexivity|split; [lia|]]); by apply cstr_at_nil. Qed.

Lemma strcmp_correct_witness :
  strcmp 3 (mem_of 10 [97; 98; 0; 97; 99; 0]) 10 13 = Ret (-1) ∧
  (lex_diff [97; 98] [97; 99] = 0 ↔ [97; 98] = [97; 99]).
Proof.
  destruct cstr_demo as [H1 H2].
  exact (strcmp_correct (mem_of 10 [97; 98; 0; 97; 99; 0]) 10 13 [97; 98] [97; 99] H1 H2).
Defined.

Lemma strncmp_cstr n m a b s t :
  cstr_at m a s → cstr_at m b t →
  strncmp n m a b = Ret (lex_diff (take n s) (take n t)).
Proof.
  revert a b s t. induction n as [|n IH]; intros a b s t Hs Ht; [done|]. cbn [strncmp].
  destruct s as [|x s]; cstr_step.
  - change (0 =? 0) with true. cbv iota. destruct t as [|y t]; cstr_step; done.
  - rewrite (proj2 (Z.eqb_neq x 0)) by lia. destruct t as [|y t]; cstr_step; cbn [take lex_diff].
    + rewrite (proj2 (Z.eqb_neq x 0)) by lia. f_equal. lia.
    + destruct (x =? y); [|done]. by apply IH.
Qed.

(** ** Copying *)

Lemma cstr_at_insert_out m a s k v :
  k < a ∨ a + zlen s < k → cstr_at m a s → cstr_at (<[k:=v]> m) a s.
Proof.
  intros Hk [Hb Hf]. split; [|done]. apply bytes_at_insert_out; [|done].
  rewrite zlen_app. change (zlen [0]) with 1. lia.
Qed.

Lemma cstr_byte m a b s : cstr_at m a (b :: s) → 0 ≤ b < 256.
Proof. intros (_ & Hb & _)%cstr_at_cons. lia. Qed.

(** The first loop of [strncpy] on a string shorter than [n] copies it with its
    terminator and leaves [n] short of the string's length, not one less. *)
Lemma strncpy_copy_short n m d src s :
  cstr_at m src s → (length s < n)%nat → mapped m d (zlen s + 1) →
  d + zlen s < src ∨ src + zlen s < d →
  ∃ m', strncpy_copy n m d src = Ret (m', d + zlen s + 1, (n - length s)%nat) ∧
        bytes_at m' d (s ++ [0]) ∧
        ∀ a, ¬ (d ≤ a ≤ d + zlen s) → m' !! a = m !! a.
Proof.
  revert n m d src. induction s as [|x s IH]; intros [|n] m d src Hs Hn Hd Hdis;
    cbn in Hn; try lia; cbn [strncpy_copy]; cstr_step.
  - unfold zlen in *. cbn [length] in *.
    rewrite (store_mapped m d _ d 0 Hd) by lia. cbn. eexists.
    split; [by rewrite Z.add_0_r|]. split.
    + apply bytes_at_cons. split; [apply lookup_insert_eq|]. intros i b Hb. done.
    + intros a Ha. apply lookup_insert_ne. lia.
  - pose proof (zlen_nonneg s). rewrite zlen_cons in *.
    rewrite (store_mapped m d _ d x Hd) by lia. cbn.
    rewrite (proj2 (Z.eqb_neq x 0)) by lia.
    destruct (IH n (<[d:=x]> m) (d + 1) (src + 1)) as (m' & -> & Hb' & Hfr); [..|lia|].
    { apply cstr_at_insert_out; [lia|done]. }
    { lia. }
    { apply mapped_insert; [lia|]. eapply mapped_weaken; [exact Hd|lia..]. }
    exists m'. split; [do 3 f_equal; lia|]. split.
    + cbn [app]. apply bytes_at_cons. split; [|done].
      rewrite Hfr by lia. apply lookup_insert_eq.
    + intros a Ha. rewrite Hfr by lia. apply lookup_insert_ne. lia.
Qed.

Lemma strncpy_short_spec m d src s n :
  cstr_at m src s → (length s < n)%nat →
  d + Z.of_nat n < src ∨ src + zlen s < d →
  (mapped m d (Z.of_nat n + 1) →
   ∃ m', strncpy m d src n = Ret m' ∧
         bytes_at m' d (s ++ replicate (S n - length s) 0) ∧
         ∀ a, ¬ (d ≤ a ≤ d + Z.of_nat n) → m' !! a = m !! a) ∧
  (mapped m d (Z.of_nat n) → m !! (d + Z.of_nat n) = None →
   strncpy m d src n = Fault).
Proof.
  intros Hs Hn Hdis. pose proof (zlen_nonneg s). assert (zlen s < Z.of_nat n) by (unfold zlen; lia).
  split; intros Hd.
  - destruct (strncpy_copy_short n m d src s) as (m1 & E & Hb & Hfr); [done|done|..|lia|].
    { eapply mapped_weaken; [exact Hd|lia..]. }
    unfold strncpy. rewrite E. cbn.
    destruct (memset_spec (n - length s) m1 (d + zlen s + 1) 0) as (m' & -> & Hm').
    { intros a Ha. rewrite Hfr by lia. apply Hd. unfold zlen in *. lia. }
    exists m'. split; [done|]. change (u8 0) with 0 in Hm'. split.
    + replace (S n - length s)%nat with (S (n - length s)) by lia. cbn [replicate].
      change (0 :: ?l) with ([0] ++ l). rewrite app_assoc. apply bytes_at_app. split.
      * intros i b Hib. rewrite Hm'. rewrite decide_False; [by apply Hb|].
        apply lookup_lt_Some in Hib. rewrite length_app in Hib. cbn in Hib. unfold zlen. lia.
      * rewrite zlen_app. change (zlen [0]) with 1. intros i b Hib.
        apply lookup_replicate in Hib as [-> Hi]. rewrite Hm'. rewrite decide_True; [done|lia].
    + intros a Ha. rewrite Hm'. rewrite decide_False by (unfold zlen; lia). apply Hfr. lia.
  - intros Hnone.
    destruct (strncpy_copy_short n m d src s) as (m1 & E & Hb & Hfr); [done|done|..|lia|].
    { eapply mapped_weaken; [exact Hd|lia..]. }
    unfold strncpy. rewrite E. cbn.
    apply (memset_fault _ _ _ _ (n - length s - 1)); [..|lia|].
    + intros a Ha. rewrite Hfr by lia. apply Hd. unfold zlen in *. lia.
    + rewrite Hfr by (unfold zlen; lia). rewrite <- Hnone. f_equal. unfold zlen. lia.
Qed.

(** [strncpy] of a string shorter than [n] writes [n + 1] bytes: with room
    for them it stores the string followed by zeros up to and including the byte
    at [dest + n], and changes nothing else; with exactly the [n] bytes that the
    call announces, the last write falls outside the buffer. *)
Theorem strncpy_short m d src s n :
  cstr_at m src s → (length s < n)%nat →
  d + Z.of_nat n < src ∨ src + zlen s < d →
  (mapped m d (Z.of_nat n + 1) →
   ∃ m', strncpy m d src n = Ret m' ∧
         bytes_at m' d (s ++ replicate (S n - length s) 0) ∧
         ∀ a, ¬ (d ≤ a ≤ d + Z.of_nat n) → m' !! a = m !! a) ∧
  (mapped m d (Z.of_nat n) → m !! (d + Z.of_nat n) = None →
   strncpy m d src n = Fault).
Proof. apply strncpy_short_spec. Qed.

Lemma strncpy_short_witness :
  strncpy (mem_of 0 [97; 0] ∪ mem_of 8 [1; 1; 1; 1]) 8 0 4 = Fault.
Proof.
  set (m := mem_of 0 [97; 0] ∪ mem_of 8 [1; 1; 1; 1]).
  assert (cstr_at m 0 [97]) as Hs.
  { apply cstr_at_cons. split; [reflexivity|]. split; [lia|]. by apply cstr_at_nil. }
  destruct (strncpy_short m 8 0 [97] 4 Hs) as [_ H]; [cbn; lia|cbn; unfold zlen; cbn; lia|].
  apply H; [|reflexivity]. intros a Ha.
  assert (a = 8 ∨ a = 9 ∨ a = 10 ∨ a = 11) as [-> | [-> | [-> | ->]]] by lia;
    exists 1; (split; [reflexivity|lia]).
Defined.

(** A string at least as long as [n] is cut to its first [n] bytes, and no
    terminator is written. *)
Lemma strncpy_long m d src s n :
  cstr_at m src s → (n ≤ length s)%nat → mapped m d (Z.of_nat n) →
  d + Z.of_nat n ≤ src ∨ src + zlen s < d →
  ∃ m', strncpy m d src n = Ret m' ∧ bytes_at m' d (take n s) ∧
        ∀ a, ¬ (d ≤ a < d + Z.of_nat n) → m' !! a = m !! a.
Proof.
  intros Hs Hn Hd Hdis.
  assert (∃ m', strncpy_copy n m d src = Ret (m', d + Z.of_nat n, 0%nat) ∧
          bytes_at m' d (take n s) ∧
          ∀ a, ¬ (d ≤ a < d + Z.of_nat n) → m' !! a = m !! a) as (m' & E & Hb & Hfr).
  { revert m d src s Hs Hn Hd Hdis. induction n as [|n IH]; intros m d src s Hs Hn Hd Hdis.
    - exists m. cbn. split; [by rewrite Z.add_0_r|]. split; [intros i b Hb; done|done].
    - destruct s as [|x s]; [cbn in Hn; lia|]. cbn [strncpy_copy]. cstr_step.
      rewrite zlen_cons in *. rewrite (store_mapped m d _ d x Hd) by lia. cbn [mbind outcome_bind].
      rewrite (proj2 (Z.eqb_neq x 0)) by lia.
      destruct (IH (<[d:=x]> m) (d + 1) (src + 1) s) as (m' & -> & Hb & Hfr).
      { apply cstr_at_insert_out; [lia|done]. }
      { cbn in Hn. lia. }
      { apply mapped_insert; [lia|]. eapply mapped_weaken; [exact Hd|lia..]. }
      { lia. }
      exists m'. split; [do 3 f_equal; lia|]. split.
      + cbn [take]. apply bytes_at_cons. split; [|done]. rewrite Hfr by lia. apply lookup_insert_eq.
      + intros a Ha. rewrite Hfr by lia. apply lookup_insert_ne. lia. }
  exists m'. unfold strncpy. rewrite E. done.
Qed.

(** ** Searching *)

(** [t] occurs in [s] at position [i]. *)
Definition occurs_at (s t : list Z) (i : nat) : Prop := take (length t) (drop i s) = t.

#[export] Instance occurs_at_dec s t i : Decision (occurs_at s t i).
Proof. unfold occurs_at. solve_decision. Defined.

(** What [strstr] returns for the strings at [hay] and at [needle]. *)
Definition strstr_result (hay : Z) (s t : list Z) (r : option Z) : Prop :=
  match r with
  | Some p => ∃ i, p = hay + Z.of_nat i ∧ occurs_at s t i ∧ ∀ j, (j < i)%nat → ¬ occurs_at s t j
  | None => ∀ j, ¬ occurs_at s t j
  end.

Lemma strncmp_prefix m a b s t :
  cstr_at m a s → cstr_at m b t →
  ∃ r, strncmp (length t) m a b = Ret r ∧ (r = 0 ↔ occurs_at s t 0).
Proof.
  intros Hs Ht. eexists. split; [by apply strncmp_cstr|].
  rewrite lex_diff_zero by (apply Forall_take; (apply Hs || apply Ht)).
  unfold occurs_at. by rewrite drop_0, (take_ge t) by lia.
Qed.

Lemma strstr_loop_cstr fuel m hay needle s t :
  cstr_at m hay s → cstr_at m needle t → t ≠ [] → (length s < fuel)%nat →
  ∃ r, strstr_loop fuel m hay needle (zlen t) = Ret r ∧ strstr_result hay s t r.
Proof.
  intros Hs Ht Hne. revert fuel hay Hs. induction s as [|x s IH]; intros [|fuel] hay Hs Hf;
    cbn in Hf; try lia; cbn [strstr_loop].
  - cstr_step. exists None. split; [done|]. intros j. unfold occurs_at.
    by rewrite drop_nil, take_nil.
  - destruct (strncmp_prefix m hay needle (x :: s) t Hs Ht) as (r & Hr & H0).
    cstr_step. rewrite (proj2 (Z.eqb_neq x 0)) by lia.
    destruct (IH fuel (hay + 1)) as (r' & Hloop & Hres); [done|lia|].
    assert (¬ occurs_at (x :: s) t 0 → strstr_result hay (x :: s) t r') as Hlift.
    { intros Hno. destruct r' as [p|]; cbn in *.
      - destruct Hres as (i & -> & Hi & Hlow). exists (S i). split; [lia|]. split; [done|].
        intros [|j] Hj; [done|]. apply Hlow. lia.
      - intros [|j]; [done|]. apply Hres. }
    destruct t as [|y t]; [done|]. cstr_step. unfold zlen. rewrite Nat2Z.id, Hr. cbn [mbind outcome_bind].
    fold (zlen (y :: t)). rewrite Hloop.
    destruct (Z.eqb_spec x y) as [->|Hxy].
    + destruct (Z.eqb_spec r 0) as [Er|Er].
      * exists (Some hay). split; [done|]. exists 0%nat. split; [lia|]. split; [by apply H0|lia].
      * exists r'. split; [done|]. apply Hlift. by rewrite <- H0.
    + exists r'. split; [done|]. apply Hlift. unfold occurs_at. cbn. congruence.
Qed.

Lemma strstr_spec m hay needle s t fuel :
  cstr_at m hay s → cstr_at m needle t → (length s + length t < fuel)%nat →
  ∃ r, strstr fuel m hay needle = Ret r ∧ strstr_result hay s t r.
Proof.
  intros Hs Ht Hf. unfold strstr. destruct t as [|y t].
  - cstr_step. exists (Some hay). split; [done|]. exists 0%nat. split; [lia|]. split; [done|lia].
  - pose proof Ht as Ht'. cstr_step. rewrite (proj2 (Z.eqb_neq y 0)) by lia.
    rewrite (strlen_cstr fuel m needle (y :: t)) by (done || lia). cbn [mbind outcome_bind].
    apply strstr_loop_cstr; [done..|lia].
Qed.

(** [strstr] terminates without a fault on any two strings and returns the
    first position of the haystack at which the needle occurs, or [NULL] exactly
    when it occurs nowhere. *)
Theorem strstr_correct m hay needle s t fuel :
  cstr_at m hay s → cstr_at m needle t → (length s + length t < fuel)%nat →
  ∃ r, strstr fuel m hay needle = Ret r ∧ strstr_result hay s t r.
Proof. apply strstr_spec. Qed.

Lemma strstr_correct_witness :
  ∃ r, strstr 10 (mem_of 0 [97; 97; 98; 99; 0; 97; 98; 0]) 0 5 = Ret r ∧
       strstr_result 0 [97; 97; 98; 99] [97; 98] r ∧ r = Some 1.
Proof.
  set (m := mem_of 0 [97; 97; 98; 99; 0; 97; 98; 0]).
  destruct (strstr_correct m 0 5 [97; 97; 98; 99] [97; 98] 10) as (r & E & H).
  { repeat (rewrite cstr_at_cons; split; [reflexivity|split; [lia|]]). by apply cstr_at_nil. }
  { repeat (rewrite cstr_at_cons; split; [reflexivity|split; [lia|]]). by apply cstr_at_nil. }
  { cbn. lia. }
  exists r. split; [exact E|]. split; [exact H|].
  assert (strstr 10 m 0 5 = Ret (Some 1)) as E' by reflexivity. rewrite E' in E. by simplify_eq.
Defined.

(** [strchr] finds the first occurrence of a byte. *)
Lemma strchr_cstr fuel m a s c :
  cstr_at m a s → 0 < c < 256 → (length s < fuel)%nat →
  strchr fuel m a c = Ret ((λ ix : nat * Z, a + Z.of_nat ix.1) <$> list_find (λ x, x = c) s).
Proof.
  intros Hs Hc. revert fuel a Hs. induction s as [|x s IH]; intros [|fuel] a Hs Hf; cbn in Hf; try lia;
    cbn [strchr]; cstr_step.
  - rewrite (proj2 (Z.eqb_neq c 0)) by lia. done.
  - rewrite (proj2 (Z.eqb_neq x 0)) by lia. rewrite wrap_id by lia. cbn [list_find].
    destruct (Z.eqb_spec x c) as [->|Hne].
    + rewrite decide_True by done. cbn. by rewrite Z.add_0_r.
    + rewrite decide_False by done. rewrite IH by (done || lia).
      destruct (list_find _ s) as [[i y]|]; [|done]. cbn. do 2 f_equal. lia.
Qed.
