(* ===== verification/CFormat.v ===== *)
(** * Number conversion and formatted output ([src/lib/string.c], lines 169-454)

    [atoi]/[atol], [itoa]/[ltoa], [snprintf] and the character classes. Signed
    overflow, which C leaves undefined, is [Fault]; so is a write outside the
    64-byte digit buffer of [_emit_uint] and a read past the end of the format
    string. The formatter is written over an arbitrary character sink, which
    [snprintf] instantiates with its bounded buffer. *)

From S2P Require Import Prelude CMem CString.
From stdpp Require Import base numbers list gmap.
Open Scope Z_scope.

(** ** Character classes *)

Definition _isspace (c : Z) : bool := (c =? 32) || ((9 <=? c) && (c <=? 13)).
Definition toupper (c : Z) : Z := if (97 <=? c) && (c <=? 122) then c - 32 else c.
Definition tolower (c : Z) : Z := if (65 <=? c) && (c <=? 90) then c + 32 else c.
Definition isdigit (c : Z) : bool := (48 <=? c) && (c <=? 57).
Definition isalpha (c : Z) : bool :=
  ((97 <=? c) && (c <=? 122)) || ((65 <=? c) && (c <=? 90)).
Definition isalnum (c : Z) : bool := isalpha c || isdigit c.
Definition isspace (c : Z) : bool := (c =? 32) || ((9 <=? c) && (c <=? 13)).
Definition isxdigit (c : Z) : bool :=
  isdigit c || ((97 <=? c) && (c <=? 102)) || ((65 <=? c) && (c <=? 70)).

(** ** Reading numbers *)

(** A signed result of [w] bits, or undefined behaviour. *)
Definition checked (w z : Z) : outcome Z :=
  if (- 2 ^ (w - 1) <=? z) && (z <? 2 ^ (w - 1)) then Ret z else Fault.

Fixpoint skip_spaces (fuel : nat) (m : gmap Z Z) (s : Z) : outcome Z :=
  match fuel with
  | O => NoFuel
  | S fuel => c ← load m s; if _isspace c then skip_spaces fuel m (s + 1) else Ret s
  end.

Fixpoint read_digits (fuel : nat) (w : Z) (m : gmap Z Z) (s result : Z) : outcome Z :=
  match fuel with
  | O => NoFuel
  | S fuel =>
      c ← load m s;
      if isdigit c then
        r10 ← checked w (result * 10);
        r ← checked w (r10 + (c - 48));
        read_digits fuel w m (s + 1) r
      else Ret result
  end.

(** [atoi] and [atol] differ in the width of their accumulator only. *)
Definition ato (w : Z) (fuel : nat) (m : gmap Z Z) (s : Z) : outcome Z :=
  s ← skip_spaces fuel m s;
  c ← load m s;
  let sign := if c =? 45 then -1 else 1 in
  let s := if (c =? 45) || (c =? 43) then s + 1 else s in
  r ← read_digits fuel w m s 0;
  checked w (sign * r).
Definition atoi := ato 32.
Definition atol := ato 64.

(** ** Writing numbers *)

(** [digits[d]] for "0123456789abcdefghijklmnopqrstuvwxyz" *)
Definition digit_char (d : Z) : Z := if d <? 10 then 48 + d else 87 + d.

(** [do { *p++ = digits[uval % base]; uval /= base; } while (uval);] *)
Fixpoint put_digits (fuel : nat) (m : gmap Z Z) (p uval base : Z) : outcome (gmap Z Z * Z) :=
  match fuel with
  | O => NoFuel
  | S fuel =>
      m ← store m p (digit_char (uval mod base));
      let uval := uval / base in
      if uval =? 0 then Ret (m, p + 1) else put_digits fuel m (p + 1) uval base
  end.

(** [_reverse]: [i] and [j] are the two running indices. *)
Fixpoint reverse_loop (fuel : nat) (m : gmap Z Z) (s i j : Z) : outcome (gmap Z Z) :=
  if i <? j then
    match fuel with
    | O => NoFuel
    | S fuel =>
        t ← load m (s + i); u ← load m (s + j);
        m ← store m (s + i) u; m ← store m (s + j) t;
        reverse_loop fuel m s (i + 1) (j - 1)
    end
  else Ret m.
Definition _reverse (m : gmap Z Z) (s len : Z) : outcome (gmap Z Z) :=
  reverse_loop (Z.to_nat len) m s 0 (u64 (len - 1)).

(** [itoa] and [ltoa] at width [w]; a word has at most [w] digits. *)
Definition toa (w : Z) (m : gmap Z Z) (value buf base : Z) : outcome (gmap Z Z) :=
  if (base <? 2) || (base >? 36) then store m buf 0 else
  let neg := (value <? 0) && (base =? 10) in
  let uval := if neg then wrap w (wrap w (- (value + 1)) + 1) else wrap w value in
  mp ← put_digits (Z.to_nat w) m buf uval base;
  let '(m, p) := mp in
  m ← (if neg then store m p 45 else Ret m);
  let p := if neg then p + 1 else p in
  m ← store m p 0;
  _reverse m buf (p - buf).
Definition itoa := toa 32.
Definition ltoa := toa 64.

(** ** [snprintf] *)

(** Variadic arguments: a 64-bit slot, or a string pointer ([None] is null). *)
Inductive varg :=
| VInt (z : Z)
| VStr (s : option (list Z)).

Definition va_int (ap : list varg) : outcome (Z * list varg) :=
  match ap with
  | VInt z :: ap => Ret (z, ap)
  | _ => Fault
  end.

Definition va_str (ap : list varg) : outcome (option (list Z) * list varg) :=
  match ap with
  | VStr s :: ap => Ret (s, ap)
  | _ => Fault
  end.

Definition null_text : list Z := [40; 110; 117; 108; 108; 41].

Section formatter.
(** The sink that [_emit_char] writes to. *)
Context {S : Type} (emit_char : S → Z → outcome S).

Fixpoint emit_str (st : S) (s : list Z) : outcome S :=
  match s with
  | [] => Ret st
  | c :: s => st ← emit_char st c; emit_str st s
  end.

(** [tmp[len++] = c] in the 64-byte buffer *)
Definition push_tmp (tmp : list Z) (c : Z) : outcome (list Z) :=
  if zlen tmp <? 64 then Ret (tmp ++ [c]) else Fault.

Definition hex_digit (uppercase : bool) (d : Z) : Z :=
  if d <? 10 then 48 + d else if uppercase then 55 + d else 87 + d.

Fixpoint tmp_digits (fuel : nat) (tmp : list Z) (val base : Z) (up : bool) : outcome (list Z) :=
  if val =? 0 then Ret tmp else
  match fuel with
  | O => NoFuel
  | Datatypes.S fuel =>
      tmp ← push_tmp tmp (hex_digit up (val mod base));
      tmp_digits fuel tmp (val / base) base up
  end.

Fixpoint tmp_pad (n : nat) (tmp : list Z) (pad : Z) : outcome (list Z) :=
  match n with
  | O => Ret tmp
  | Datatypes.S n => tmp ← push_tmp tmp pad; tmp_pad n tmp pad
  end.

Definition emit_uint (st : S) (val base : Z) (up : bool) (min_width pad : Z) : outcome S :=
  tmp ← (if val =? 0 then Ret [48] else tmp_digits 64 [] val base up);
  tmp ← tmp_pad (Z.to_nat (min_width - zlen tmp)) tmp pad;
  emit_str st (reverse tmp).

Definition emit_int (st : S) (val min_width pad : Z) : outcome S :=
  if val <? 0 then
    st ← emit_char st 45;
    v ← checked 64 (- val);
    emit_uint st v 10 false (if min_width >? 0 then min_width - 1 else min_width) pad
  else emit_uint st val 10 false min_width pad.

Fixpoint read_width (fmt : list Z) (width : Z) : outcome (Z * list Z) :=
  match fmt with
  | c :: fmt' =>
      if isdigit c then
        w10 ← checked 32 (width * 10);
        w ← checked 32 (w10 + (c - 48));
        read_width fmt' w
      else Ret (width, fmt)
  | [] => Ret (width, [])
  end.

(** The conversion at the head of [fmt], after flags, width and length. The
    source reads the character and then steps over it: at the end of the
    string that step leaves the format. *)
Definition conversion (st : S) (fmt : list Z) (ap : list varg)
    (pad width longness : Z) : outcome (S * list Z * list varg) :=
  match fmt with
  | [] => Fault
  | c :: fmt =>
      if (c =? 100) || (c =? 105) then (* d i *)
        a ← va_int ap; let '(z, ap) := a in
        st ← emit_int st (if longness =? 0 then s32 z else s64 z) width pad;
        Ret (st, fmt, ap)
      else if (c =? 117) || (c =? 120) || (c =? 88) then (* u x X *)
        a ← va_int ap; let '(z, ap) := a in
        st ← emit_uint st (if longness =? 0 then u32 z else u64 z)
               (if c =? 117 then 10 else 16) (c =? 88) width pad;
        Ret (st, fmt, ap)
      else if c =? 112 then (* p *)
        a ← va_int ap; let '(z, ap) := a in
        st ← emit_str st [48; 120];
        st ← emit_uint st (u64 z) 16 false 0 48;
        Ret (st, fmt, ap)
      else if c =? 115 then (* s *)
        a ← va_str ap; let '(s, ap) := a in
        st ← emit_str st (default null_text s);
        Ret (st, fmt, ap)
      else if c =? 99 then (* c *)
        a ← va_int ap; let '(z, ap) := a in
        st ← emit_char st (u8 z);
        Ret (st, fmt, ap)
      else if c =? 37 then (* % *)
        st ← emit_char st 37; Ret (st, fmt, ap)
      else
        st ← emit_char st 37; st ← emit_char st c; Ret (st, fmt, ap)
  end.

Definition directive (st : S) (fmt : list Z) (ap : list varg) : outcome (S * list Z * list varg) :=
  let '(pad, fmt) := match fmt with
                     | 48 :: fmt' => (48, fmt')
                     | _ => (32, fmt)
                     end in
  wf ← read_width fmt 0; let '(width, fmt) := wf in
  let '(longness, fmt) := match fmt with
                          | 108 :: 108 :: fmt' => (2, fmt')
                          | 108 :: fmt' => (1, fmt')
                          | _ => (0, fmt)
                          end in
  conversion st fmt ap pad width longness.

Fixpoint format (fuel : nat) (st : S) (fmt : list Z) (ap : list varg) : outcome S :=
  match fuel with
  | O => NoFuel
  | Datatypes.S fuel =>
      match fmt with
      | [] => Ret st
      | c :: fmt' =>
          if negb (c =? 37) then (st ← emit_char st c; format fuel st fmt' ap)
          else
            r ← directive st fmt' ap;
            let '(st, fmt, ap) := r in format fuel st fmt ap
      end
  end.
End formatter.

(** The bounded buffer: memory and the position [pos] counted by the source. *)
Definition emit_buf (buf size : Z) (st : gmap Z Z * Z) (c : Z) : outcome (gmap Z Z * Z) :=
  let '(m, pos) := st in
  m ← (if pos <? size - 1 then store m (buf + pos) c else Ret m);
  Ret (m, pos + 1).

(** [buf = NULL] is [None]. The loop consumes at least one character of the
    format per turn, so [length fmt + 1] turns are enough. *)
Definition snprintf (m : gmap Z Z) (buf : option Z) (size : Z) (fmt : list Z) (ap : list varg)
  : outcome (gmap Z Z * Z) :=
  match buf with
  | None => Ret (m, 0)
  | Some buf =>
      if size =? 0 then Ret (m, 0) else
      r ← format (emit_buf buf size) (length fmt + 1) (m, 0) fmt ap;
      let '(m, pos) := r in
      m ← store m (buf + (if pos <? size then pos else size - 1)) 0;
      Ret (m, s32 pos)
  end.

(** ** The bounded buffer against an unbounded one *)

(** Two outcomes that agree: both fault, or both return related values. *)
Definition sim {A B} (R : A → B → Prop) (x : outcome A) (y : outcome B) : Prop :=
  match x, y with
  | Ret a, Ret b => R a b
  | Fault, Fault => True
  | NoFuel, NoFuel => True
  | _, _ => False
  end.

Lemma sim_bind {A B A' B'} (R : A → B → Prop) (R' : A' → B' → Prop) x y f g :
  sim R x y → (∀ a b, R a b → sim R' (f a) (g b)) → sim R' (x ≫= f) (y ≫= g).
Proof. destruct x, y; cbn; try done. intros HR Hf. by apply Hf. Qed.

Lemma sim_refl {A} (x : outcome A) : sim eq x x.
Proof. by destruct x. Qed.

Section simulation.
Context {S T : Type} (R : S → T → Prop).
Context (es : S → Z → outcome S) (et : T → Z → outcome T).
Context (Hemit : ∀ a b c, R a b → sim R (es a c) (et b c)).

Definition R3 (x : S * list Z * list varg) (y : T * list Z * list varg) : Prop :=
  R x.1.1 y.1.1 ∧ x.1.2 = y.1.2 ∧ x.2 = y.2.

Lemma emit_str_sim s a b : R a b → sim R (emit_str es a s) (emit_str et b s).
Proof using Hemit.
  revert a b. induction s as [|c s IH]; intros a b Hab; cbn [emit_str]; [done|].
  by eapply sim_bind; [by apply Hemit|].
Qed.

Lemma emit_uint_sim a b v base up w p :
  R a b → sim R (emit_uint es a v base up w p) (emit_uint et b v base up w p).
Proof using Hemit.
  intros Hab. unfold emit_uint. eapply sim_bind; [apply sim_refl|intros t ? <-].
  eapply sim_bind; [apply sim_refl|intros t' ? <-]. by apply emit_str_sim.
Qed.

Lemma emit_int_sim a b v w p :
  R a b → sim R (emit_int es a v w p) (emit_int et b v w p).
Proof using Hemit.
  intros Hab. unfold emit_int. destruct (v <? 0); [|by apply emit_uint_sim].
  eapply sim_bind; [by apply Hemit|intros a1 b1 H1].
  eapply sim_bind; [apply sim_refl|intros x ? <-]. by apply emit_uint_sim.
Qed.

Ltac sim_step :=
  match goal with
  | |- sim _ (va_int ?ap ≫= _) _ => eapply sim_bind; [apply sim_refl|intros [? ?] ? <-]
  | |- sim _ (va_str ?ap ≫= _) _ => eapply sim_bind; [apply sim_refl|intros [? ?] ? <-]
  | |- sim _ (emit_int _ _ _ _ _ ≫= _) _ => eapply sim_bind; [by apply emit_int_sim|intros ? ? ?]
  | |- sim _ (emit_uint _ _ _ _ _ _ _ ≫= _) _ => eapply sim_bind; [by apply emit_uint_sim|intros ? ? ?]
  | |- sim _ (emit_str _ _ _ ≫= _) _ => eapply sim_bind; [by apply emit_str_sim|intros ? ? ?]
  | |- sim _ (es _ _ ≫= _) _ => eapply sim_bind; [by apply Hemit|intros ? ? ?]
  | |- sim R3 (Ret _) (Ret _) => done
  end.

Lemma conversion_sim a b fmt ap pad w l :
  R a b → sim R3 (conversion es a fmt ap pad w l) (conversion et b fmt ap pad w l).
Proof using Hemit.
  intros Hab. destruct fmt as [|c fmt]; [done|]. cbn [conversion].
  repeat case_match; repeat sim_step.
Qed.

Lemma directive_sim a b fmt ap :
  R a b → sim R3 (directive es a fmt ap) (directive et b fmt ap).
Proof using Hemit.
  intros Hab. unfold directive. destruct (match fmt with 48 :: _ => _ | _ => _ end) as [pad fmt1].
  eapply sim_bind; [apply sim_refl|intros [w fmt2] ? <-].
  destruct (match fmt2 with 108 :: _ => _ | _ => _ end) as [l fmt3]. by apply conversion_sim.
Qed.

Lemma format_sim fuel a b fmt ap :
  R a b → sim R (format es fuel a fmt ap) (format et fuel b fmt ap).
Proof using Hemit.
  revert a b fmt ap. induction fuel as [|fuel IH]; intros a b fmt ap Hab; [done|].
  cbn [format]. destruct fmt as [|c fmt]; [done|]. destruct (negb (c =? 37)).
  - eapply sim_bind; [by apply Hemit|]. intros. by apply IH.
  - eapply sim_bind; [by apply directive_sim|].
    intros [[a1 f1] p1] [[b1 f2] p2] (H1 & H2 & H3). cbn in *. subst. by apply IH.
Qed.
End simulation.

(** The whole output, with no bound. *)
Definition emit_list (out : list Z) (c : Z) : outcome (list Z) := Ret (out ++ [u8 c]).
Definition formatted (fmt : list Z) (ap : list varg) : outcome (list Z) :=
  format emit_list (length fmt + 1) [] fmt ap.

(** What the buffer holds after the output [out]. *)
Definition buffered (m0 : gmap Z Z) (buf size : Z) (st : gmap Z Z * Z) (out : list Z) : Prop :=
  st.2 = zlen out ∧ mapped st.1 buf size ∧
  bytes_at st.1 buf (take (Z.to_nat (size - 1)) out) ∧
  ∀ a, ¬ (buf ≤ a < buf + Z.min (zlen out) (size - 1)) → st.1 !! a = m0 !! a.

Lemma emit_buf_sim m0 buf size st out c :
  0 < size → buffered m0 buf size st out →
  sim (buffered m0 buf size) (emit_buf buf size st c) (emit_list out c).
Proof.
  intros Hs. destruct st as [m pos]. intros (Hpos & Hm & Hb & Hfr). cbn [fst snd] in *. subst pos.
  pose proof (zlen_nonneg out). unfold emit_buf, emit_list.
  destruct (Z.ltb_spec (zlen out) (size - 1)) as [Hlt|Hge].
  - destruct (Hm (buf + zlen out)) as (x & Hx & _); [lia|]. unfold store. rewrite Hx. cbn.
    assert (take (Z.to_nat (size - 1)) out = out) as Hall by (apply take_ge; unfold zlen in Hlt; lia).
    rewrite Hall in Hb. repeat split; cbn [fst snd].
    + rewrite zlen_app. done.
    + apply mapped_insert; [by apply wrap_range|done].
    + rewrite take_ge by (rewrite length_app; cbn; unfold zlen in Hlt; lia).
      apply bytes_at_app. split.
      * apply bytes_at_insert_out; [lia|done].
      * apply bytes_at_cons. split; [apply lookup_insert_eq|]. intros i b Hi. done.
    + intros a Ha. rewrite zlen_app in Ha. change (zlen [u8 c]) with 1 in Ha.
      rewrite lookup_insert_ne by lia. apply Hfr. lia.
  - cbn. repeat split; cbn [fst snd]; [by rewrite zlen_app|done| |].
    + rewrite take_app_le by (unfold zlen in Hge; lia). done.
    + intros a Ha. rewrite zlen_app in Ha. change (zlen [u8 c]) with 1 in Ha. apply Hfr. lia.
Qed.

(** Fuel: a digit loop divides a 64-bit value by at least 2 per turn. *)
Lemma tmp_digits_fuel fuel tmp val base up :
  2 ≤ base → 0 ≤ val < 2 ^ Z.of_nat fuel → tmp_digits fuel tmp val base up ≠ NoFuel.
Proof.
  intros Hb. revert tmp val. induction fuel as [|fuel IH]; intros tmp val Hv; cbn [tmp_digits].
  - replace val with 0 by (cbn in Hv; lia). done.
  - destruct (val =? 0); [done|]. unfold push_tmp. destruct (zlen tmp <? 64); [|done]. cbn.
    apply IH. rewrite Nat2Z.inj_succ, Z.pow_succ_r in Hv by lia.
    split; [apply Z.div_pos; lia|]. apply Z.div_lt_upper_bound; nia.
Qed.

(** No step of the formatter runs out of fuel. *)
Definition fuelled {A} (P : A → Prop) (x : outcome A) : Prop :=
  match x with
  | Ret a => P a
  | Fault => True
  | NoFuel => False
  end.

Lemma fuelled_bind {A B} (P : A → Prop) (Q : B → Prop) x f :
  fuelled P x → (∀ a, P a → fuelled Q (f a)) → fuelled Q (x ≫= f).
Proof. destruct x; cbn; try done. intros HP Hf. by apply Hf. Qed.

Lemma fuelled_weaken {A} (P Q : A → Prop) x :
  (∀ a, P a → Q a) → fuelled P x → fuelled Q x.
Proof. destruct x; cbn; auto. Qed.

Lemma checked_fuelled w z : fuelled (λ v, v = z ∧ - 2 ^ (w - 1) ≤ z < 2 ^ (w - 1)) (checked w z).
Proof. unfold checked. case_match; [|done]. cbn. bool_hyps. lia. Qed.

Lemma emit_str_fuelled s out : fuelled (λ _, True) (emit_str emit_list out s).
Proof. revert out. induction s as [|c s IH]; intros out; [done|]. apply IH. Qed.

Lemma tmp_pad_fuelled n tmp p : fuelled (λ _, True) (tmp_pad n tmp p).
Proof.
  revert tmp. induction n as [|n IH]; intros tmp; [done|]. cbn. unfold push_tmp.
  destruct (zlen tmp <? 64); [apply IH|done].
Qed.

Lemma emit_uint_fuelled out v base up w p :
  2 ≤ base → 0 ≤ v < 2 ^ 64 → fuelled (λ _, True) (emit_uint emit_list out v base up w p).
Proof.
  intros Hb Hv. unfold emit_uint. apply fuelled_bind with (λ _, True).
  - destruct (v =? 0); [done|].
    pose proof (tmp_digits_fuel 64 [] v base up Hb Hv). by destruct (tmp_digits 64 [] v base up).
  - intros tmp _. apply fuelled_bind with (λ _, True); [apply tmp_pad_fuelled|].
    intros. apply emit_str_fuelled.
Qed.

Lemma emit_int_fuelled out v w p :
  - 2 ^ 63 ≤ v < 2 ^ 63 → fuelled (λ _, True) (emit_int emit_list out v w p).
Proof.
  intros Hv. unfold emit_int. destruct (Z.ltb_spec v 0); [|apply emit_uint_fuelled; lia].
  cbn [mbind outcome_bind emit_list]. eapply fuelled_bind; [apply checked_fuelled|].
  intros z [-> Hz]. apply emit_uint_fuelled; [lia|]. cbn in Hz. lia.
Qed.

Lemma swrap_range w z : 0 < w → - 2 ^ (w - 1) ≤ swrap w z < 2 ^ (w - 1).
Proof.
  intros Hw. pose proof (wrap_range w z ltac:(lia)). unfold swrap.
  replace (2 ^ w) with (2 * 2 ^ (w - 1)) in *
    by (rewrite <- Z.pow_succ_r by lia; f_equal; lia).
  destruct (Z.ltb_spec (wrap w z) (2 ^ (w - 1))); lia.
Qed.

Lemma va_int_fuelled ap : fuelled (λ _, True) (va_int ap).
Proof. by destruct ap as [|[|] ?]. Qed.

Lemma va_str_fuelled ap : fuelled (λ _, True) (va_str ap).
Proof. by destruct ap as [|[|] ?]. Qed.

Lemma conversion_fuelled out fmt ap pad w l :
  fuelled (λ r, (length r.1.2 < length fmt)%nat) (conversion emit_list out fmt ap pad w l).
Proof.
  destruct fmt as [|c fmt]; [done|]. cbn [conversion length].
  assert (∀ z, fuelled (λ _, True) (emit_int emit_list out (if l =? 0 then s32 z else s64 z) w pad)).
  { intros z. apply emit_int_fuelled.
    pose proof (swrap_range 32 z ltac:(lia)). pose proof (swrap_range 64 z ltac:(lia)).
    destruct (l =? 0); cbn in *; lia. }
  assert (∀ z b, fuelled (λ _, True)
    (emit_uint emit_list out (if l =? 0 then u32 z else u64 z) (if (c =? 117) then 10 else 16) b w pad)).
  { intros z b. apply emit_uint_fuelled; [by destruct (c =? 117)|].
    pose proof (u32_range z). pose proof (u64_range z). destruct (l =? 0); lia. }
  destruct ((c =? 100) || (c =? 105)).
  { eapply fuelled_bind; [apply va_int_fuelled|intros [z ap'] _].
    eapply fuelled_bind; [done|]. cbn. lia. }
  destruct ((c =? 117) || (c =? 120) || (c =? 88)).
  { eapply fuelled_bind; [apply va_int_fuelled|intros [z ap'] _].
    eapply fuelled_bind; [done|]. cbn. lia. }
  destruct (c =? 112).
  { eapply fuelled_bind; [apply va_int_fuelled|intros [z ap'] _].
    eapply fuelled_bind; [apply emit_str_fuelled|intros ? _].
    eapply fuelled_bind; [apply emit_uint_fuelled; [lia|apply u64_range]|]. cbn. lia. }
  destruct (c =? 115).
  { eapply fuelled_bind; [apply va_str_fuelled|intros [z ap'] _].
    eapply fuelled_bind; [apply emit_str_fuelled|]. cbn. lia. }
  destruct (c =? 99).
  { eapply fuelled_bind; [apply va_int_fuelled|intros [z ap'] _]. cbn. lia. }
  destruct (c =? 37); cbn; lia.
Qed.

Lemma read_width_fuelled fmt w :
  fuelled (λ r, (length r.2 ≤ length fmt)%nat) (read_width fmt w).
Proof.
  revert w. induction fmt as [|c fmt IH]; intros w; cbn [read_width]; [cbn; lia|].
  destruct (isdigit c); [|cbn; lia]. eapply fuelled_bind; [apply checked_fuelled|intros ? _].
  eapply fuelled_bind; [apply checked_fuelled|intros ? _].
  eapply fuelled_weaken; [|apply IH]. cbn. lia.
Qed.

Lemma directive_fuelled out fmt ap :
  fuelled (λ r, (length r.1.2 < length fmt)%nat) (directive emit_list out fmt ap).
Proof.
  unfold directive.
  destruct (match fmt with 48 :: _ => _ | _ => _ end) as [pad fmt1] eqn:E1.
  assert (length fmt1 ≤ length fmt)%nat by (repeat case_match; simplify_eq/=; lia).
  eapply fuelled_bind; [apply read_width_fuelled|]. intros [w fmt2] H2. cbn in H2.
  destruct (match fmt2 with 108 :: _ => _ | _ => _ end) as [l fmt3] eqn:E3.
  assert (length fmt3 ≤ length fmt2)%nat by (clear -E3; repeat case_match; simplify_eq/=; lia).
  eapply fuelled_weaken; [|apply conversion_fuelled]. cbn. lia.
Qed.

Lemma format_fuelled fuel out fmt ap :
  (length fmt < fuel)%nat → fuelled (λ _, True) (format emit_list fuel out fmt ap).
Proof.
  revert out fmt ap. induction fuel as [|fuel IH]; intros out fmt ap Hf; [lia|].
  cbn [format]. destruct fmt as [|c fmt]; [done|]. cbn in Hf.
  destruct (negb (c =? 37)); [cbn; apply IH; lia|].
  eapply fuelled_bind; [apply directive_fuelled|]. intros [[st fmt'] ap'] Hlt. cbn in Hlt.
  apply IH. lia.
Qed.

Lemma format_buffered m buf size fmt ap :
  0 < size → mapped m buf size →
  sim (buffered m buf size)
    (format (emit_buf buf size) (length fmt + 1) (m, 0) fmt ap) (formatted fmt ap).
Proof.
  intros Hs Hm. apply format_sim; [intros; by apply emit_buf_sim|].
  repeat split; cbn; try done. rewrite take_nil. intros i b Hb. done.
Qed.

Lemma snprintf_faults m buf size fmt ap :
  0 < size → mapped m buf size → formatted fmt ap = Fault →
  snprintf m (Some buf) size fmt ap = Fault.
Proof.
  intros Hs Hm E. pose proof (format_buffered m buf size fmt ap Hs Hm) as Hsim.
  rewrite E in Hsim. unfold snprintf. rewrite (proj2 (Z.eqb_neq size 0)) by lia.
  by destruct (format (emit_buf buf size) _ _ _ _).
Qed.

Lemma snprintf_spec m buf size fmt ap :
  0 < size → mapped m buf size →
  match formatted fmt ap with
  | Ret out =>
      ∃ m', snprintf m (Some buf) size fmt ap = Ret (m', s32 (zlen out)) ∧
            bytes_at m' buf (take (Z.to_nat (size - 1)) out ++ [0]) ∧
            ∀ a, ¬ (buf ≤ a ≤ buf + Z.min (zlen out) (size - 1)) → m' !! a = m !! a
  | Fault => snprintf m (Some buf) size fmt ap = Fault
  | NoFuel => False
  end.
Proof.
  intros Hs Hm. unfold snprintf. rewrite (proj2 (Z.eqb_neq size 0)) by lia.
  pose proof (format_fuelled (length fmt + 1) [] fmt ap ltac:(lia)) as Hfuel.
  fold (formatted fmt ap) in Hfuel.
  pose proof (format_buffered m buf size fmt ap Hs Hm) as Hsim.
  destruct (format (emit_buf buf size) _ _ _ _) as [[m1 pos]| |],
    (formatted fmt ap) as [out| |]; cbn [sim] in Hsim; try done.
  destruct Hsim as (Hpos & Hm1 & Hb & Hfr). cbn [fst snd] in *. subst pos.
  pose proof (zlen_nonneg out). cbn [mbind outcome_bind].
  set (k := if zlen out <? size then zlen out else size - 1).
  assert (k = Z.min (zlen out) (size - 1)) as Hk by (subst k; bool_cases; lia).
  destruct (Hm1 (buf + k)) as (x & Hx & _); [lia|].
  unfold store. rewrite Hx. cbn. eexists. split; [done|].
  assert (zlen (take (Z.to_nat (size - 1)) out) = k) as Hlk.
  { unfold zlen in *. rewrite length_take. lia. }
  split.
  - apply bytes_at_app. split; [apply bytes_at_insert_out; [lia|done]|].
    rewrite Hlk. apply bytes_at_cons. split; [apply lookup_insert_eq|]. intros i b Hi. done.
  - intros a Ha. rewrite lookup_insert_ne by lia. apply Hfr. lia.
Qed.

(** C27: [snprintf] into a mapped buffer of [size > 0] bytes, of a format whose
    formatting is defined, terminates and behaves as the unbounded formatter cut to the buffer: it returns the length
    of the whole output, leaves its first [size - 1] characters and a terminator
    in the buffer, and writes nothing outside the [size] bytes. It faults exactly
    when the formatting itself does ([formatted]): a width above 64, which overruns
    the digits' buffer, a format that ends in a percent sign, an argument of the
    wrong kind. *)
Theorem snprintf_bounded m buf size fmt ap :
  0 < size → mapped m buf size →
  match formatted fmt ap with
  | Ret out =>
      ∃ m', snprintf m (Some buf) size fmt ap = Ret (m', s32 (zlen out)) ∧
            bytes_at m' buf (take (Z.to_nat (size - 1)) out ++ [0]) ∧
            ∀ a, ¬ (buf ≤ a < buf + size) → m' !! a = m !! a
  | Fault => snprintf m (Some buf) size fmt ap = Fault
  | NoFuel => False
  end.
Proof.
  intros Hs Hm. pose proof (snprintf_spec m buf size fmt ap Hs Hm) as H.
  destruct (formatted fmt ap) as [out| |]; [|done..]. destruct H as (m' & E & Hb & Hfr).
  exists m'. split; [done|]. split; [done|]. intros a Ha. apply Hfr. lia.
Qed.

(** ["%05d"] and the text ["v="] *)
Definition demo_fmt : list Z := [118; 61; 37; 48; 53; 100].

Lemma snprintf_bounded_witness :
  ∃ m', snprintf (mem_of 0 (replicate 8 7)) (Some 0) 6 demo_fmt [VInt 42] = Ret (m', 7) ∧
        bytes_at m' 0 [118; 61; 48; 48; 48; 0] ∧
        ∀ a, ¬ (0 ≤ a < 0 + 6) → m' !! a = mem_of 0 (replicate 8 7) !! a.
Proof.
  assert (mapped (mem_of 0 (replicate 8 7)) 0 6) as Hm.
  { intros a Ha. exists 7. split; [|lia].
    assert (a = 0 ∨ a = 1 ∨ a = 2 ∨ a = 3 ∨ a = 4 ∨ a = 5)
      as [-> | [-> | [-> | [-> | [-> | ->]]]]] by lia; reflexivity. }
  exact (snprintf_bounded (mem_of 0 (replicate 8 7)) 0 6 demo_fmt [VInt 42] ltac:(lia) Hm).
Defined.

(** A field wider than the digit buffer overruns it. *)
Lemma tmp_pad_overrun n tmp p :
  zlen tmp ≤ 64 → 64 < zlen tmp + Z.of_nat n → tmp_pad n tmp p = Fault.
Proof.
  revert tmp. induction n as [|n IH]; intros tmp Ht Hn; [lia|]. cbn. unfold push_tmp.
  destruct (Z.ltb_spec (zlen tmp) 64); [cbn|done].
  apply IH; rewrite zlen_app; change (zlen [p]) with 1; lia.
Qed.

Lemma tmp_digits_length fuel tmp u base up t :
  zlen tmp ≤ 64 → tmp_digits fuel tmp u base up = Ret t → zlen t ≤ 64.
Proof.
  revert tmp u. induction fuel as [|fuel IH]; intros tmp u Ht; cbn [tmp_digits];
    (destruct (u =? 0); [by intros [= <-]|]); [done|].
  unfold push_tmp. destruct (Z.ltb_spec (zlen tmp) 64); [cbn|done].
  apply IH. rewrite zlen_app. change (zlen [_]) with 1. lia.
Qed.

Lemma emit_uint_wide st v up w p :
  0 ≤ v < 2 ^ 64 → 64 < w → emit_uint emit_list st v 10 up w p = Fault.
Proof.
  intros Hv Hw. unfold emit_uint. destruct (v =? 0).
  - cbn [mbind outcome_bind]. rewrite tmp_pad_overrun; [done|done|]. unfold zlen. cbn. lia.
  - pose proof (tmp_digits_fuel 64 [] v 10 up ltac:(lia) Hv) as Hfu.
    pose proof (tmp_digits_length 64 [] v 10 up) as Hlen.
    destruct (tmp_digits 64 [] v 10 up) as [t| |]; [|done|done].
    specialize (Hlen t ltac:(done) eq_refl). cbn [mbind outcome_bind].
    rewrite tmp_pad_overrun; [done|done|]. unfold zlen in *. lia.
Qed.

Lemma emit_int_wide st z w p : 65 < w → emit_int emit_list st (s32 z) w p = Fault.
Proof.
  intros Hw. pose proof (swrap_range 32 z ltac:(lia)) as Hr. cbn in Hr. unfold emit_int.
  destruct (Z.ltb_spec (s32 z) 0); [|apply emit_uint_wide; lia].
  cbn [mbind outcome_bind emit_list]. pose proof (checked_fuelled 64 (- s32 z)) as Hc.
  destruct (checked 64 (- s32 z)) as [v| |]; cbn in *; [|done|done]. destruct Hc as [-> _].
  apply emit_uint_wide; destruct (Z.gtb_spec w 0); lia.
Qed.

(** Two format strings that [snprintf] cannot handle: with a field width
    such as 66 it overruns the 64-byte digit buffer of [_emit_uint] whatever the
    number, and a format that ends in a lone percent sign makes the loop step
    past the terminator. *)
Theorem snprintf_undefined m buf size z :
  0 < size → mapped m buf size →
  snprintf m (Some buf) size [37; 54; 54; 100] [VInt z] = Fault ∧
  snprintf m (Some buf) size [49; 48; 48; 37] [] = Fault.
Proof.
  intros Hs Hm. split.
  - apply snprintf_faults; [done..|]. unfold formatted. cbn [length Nat.add format negb Z.eqb Pos.eqb].
    assert (directive emit_list [] [54; 54; 100] [VInt z] = Fault) as ->; [|done].
    transitivity (st ← emit_int emit_list [] (s32 z) 66 32; Ret (st, @nil Z, @nil varg));
      [reflexivity|]. by rewrite emit_int_wide.
  - by apply snprintf_faults.
Qed.

Lemma snprintf_undefined_witness :
  snprintf (mem_of 0 [7]) (Some 0) 1 [37; 54; 54; 100] [VInt 5] = Fault ∧
  snprintf (mem_of 0 [7]) (Some 0) 1 [49; 48; 48; 37] [] = Fault.
Proof.
  apply (snprintf_undefined (mem_of 0 [7]) 0 1 5); [lia|].
  intros a Ha. exists 7. assert (a = 0) as -> by lia. split; [reflexivity|lia].
Defined.

(** ** Printing and reading back a number *)

(** The digits of [u] in base [base], least significant first. *)
Fixpoint digits_of (fuel : nat) (u base : Z) : list Z :=
  match fuel with
  | O => []
  | S fuel =>
      digit_char (u mod base) :: (if u / base =? 0 then [] else digits_of fuel (u / base) base)
  end.

(** The text [itoa] and [ltoa] produce in base 10. *)
Definition decimal (w value : Z) : list Z :=
  let ds := digits_of (Z.to_nat w) (Z.abs value) 10 in
  if value <? 0 then 45 :: rev ds else rev ds.

Definition is_byte (b : Z) : Prop := 0 ≤ b < 256.

Lemma digit_char_range d : 0 ≤ d < 10 → digit_char d = 48 + d.
Proof. intros. unfold digit_char. by rewrite (proj2 (Z.ltb_lt d 10)) by lia. Qed.

Lemma digits_of_digit fuel u : 0 ≤ u → Forall (λ c, 48 ≤ c ≤ 57) (digits_of fuel u 10).
Proof.
  revert u. induction fuel as [|fuel IH]; intros u Hu; cbn [digits_of]; [done|constructor].
  - rewrite digit_char_range by (apply Z.mod_pos_bound; lia).
    pose proof (Z.mod_pos_bound u 10). lia.
  - destruct (u / 10 =? 0); [done|]. apply IH, Z.div_pos; lia.
Qed.

Lemma digits_of_value fuel u :
  0 ≤ u < 2 ^ Z.of_nat fuel →
  fold_right (λ c acc, acc * 10 + (c - 48)) 0 (digits_of fuel u 10) = u.
Proof.
  revert u. induction fuel as [|fuel IH]; intros u Hu; [cbn in *; lia|]. cbn [digits_of fold_right].
  rewrite digit_char_range by (apply Z.mod_pos_bound; lia).
  pose proof (Z.div_mod u 10 ltac:(lia)). destruct (Z.eqb_spec (u / 10) 0) as [E|E].
  - cbn. lia.
  - rewrite IH; [lia|]. rewrite Nat2Z.inj_succ, Z.pow_succ_r in Hu by lia. split; div_lia.
Qed.

Lemma bytes_at_frame m m' a l :
  bytes_at m a l → (∀ x, a ≤ x < a + zlen l → m' !! x = m !! x) → bytes_at m' a l.
Proof.
  intros Hb Hfr i b Hi. pose proof (lookup_lt_Some _ _ _ Hi).
  rewrite Hfr; [by apply Hb|]. unfold zlen. lia.
Qed.

Lemma put_digits_spec fuel m p u :
  0 ≤ u < 2 ^ Z.of_nat fuel → (0 < fuel)%nat →
  mapped m p (zlen (digits_of fuel u 10)) →
  ∃ m', put_digits fuel m p u 10 = Ret (m', p + zlen (digits_of fuel u 10)) ∧
        bytes_at m' p (digits_of fuel u 10) ∧
        (∀ a n, mapped m a n → mapped m' a n) ∧
        ∀ a, ¬ (p ≤ a < p + zlen (digits_of fuel u 10)) → m' !! a = m !! a.
Proof.
  revert m p u. induction fuel as [|fuel IH]; intros m p u Hu Hf Hm; [lia|].
  pose proof (digits_of_digit (S fuel) u ltac:(lia)) as Hdig.
  cbn [put_digits digits_of] in *. apply Forall_cons in Hdig as [Hd _].
  set (c := digit_char (u mod 10)) in *.
  assert (∀ l, p ≤ p < p + zlen (c :: l)) as Hin
    by (intros l; rewrite zlen_cons; pose proof (zlen_nonneg l); lia).
  rewrite (store_mapped m p _ p c Hm) by (apply Hin || lia).
  cbn [mbind outcome_bind]. destruct (Z.eqb_spec (u / 10) 0) as [E|E].
  - eexists. split; [done|]. split; [|split].
    + apply bytes_at_cons. split; [apply lookup_insert_eq|]. intros i b Hi. done.
    + intros a n. apply mapped_insert. lia.
    + intros a Ha. apply lookup_insert_ne. unfold zlen in Ha. cbn in Ha. lia.
  - assert (0 ≤ u / 10 < 2 ^ Z.of_nat fuel) as Hu'.
    { rewrite Nat2Z.inj_succ, Z.pow_succ_r in Hu by lia. split; div_lia. }
    assert (0 < fuel)%nat as Hf' by (destruct fuel; [cbn in Hu'; lia|lia]).
    rewrite zlen_cons in *. set (ds := digits_of fuel (u / 10) 10) in *.
    pose proof (zlen_nonneg ds).
    destruct (IH (<[p:=c]> m) (p + 1) (u / 10) Hu' Hf') as (m' & -> & Hb & Hmap & Hfr).
    { apply mapped_insert; [lia|]. eapply mapped_weaken; [exact Hm|fold ds; lia..]. }
    fold ds in Hb, Hfr |- *. exists m'. split; [do 2 f_equal; lia|]. split; [|split].
    + apply bytes_at_cons. split; [|done]. rewrite Hfr by lia. apply lookup_insert_eq.
    + intros a n Ha. apply Hmap, mapped_insert; [lia|done].
    + intros a Ha. rewrite Hfr by lia. apply lookup_insert_ne. lia.
Qed.

Lemma reverse_loop_spec fuel m s i l :
  (length l ≤ fuel)%nat → bytes_at m (s + i) l → Forall is_byte l →
  ∃ m', reverse_loop fuel m s i (i + zlen l - 1) = Ret m' ∧
        bytes_at m' (s + i) (rev l) ∧
        ∀ a, ¬ (s + i ≤ a < s + i + zlen l) → m' !! a = m !! a.
Proof.
  revert m i l. induction fuel as [|fuel IH]; intros m i l Hf Hb Hl.
  { destruct l; [|cbn in Hf; lia]. cbn. exists m.
    rewrite (proj2 (Z.ltb_ge i (i + zlen [] - 1))) by (unfold zlen; cbn; lia). done. }
  destruct l as [|x l] using rev_ind; [|clear IHl].
  { exists m. cbn. rewrite (proj2 (Z.ltb_ge i (i + zlen [] - 1))) by (unfold zlen; cbn; lia). done. }
  destruct l as [|y l].
  { exists m. cbn. rewrite (proj2 (Z.ltb_ge i (i + zlen [x] - 1))) by (unfold zlen; cbn; lia). done. }
  cbn [reverse_loop]. rewrite zlen_app, zlen_cons in *. change (zlen [x]) with 1.
  pose proof (zlen_nonneg l). rewrite (proj2 (Z.ltb_lt i _)) by lia.
  change ((y :: l) ++ [x]) with (y :: (l ++ [x])) in *.
  apply Forall_cons in Hl as [Hy Hl]. apply Forall_app in Hl as [Hl Hx].
  apply Forall_cons in Hx as [Hx _]. unfold is_byte in Hx, Hy.
  pose proof Hb as [Hb0 Hb1]%bytes_at_cons. apply bytes_at_app in Hb1 as [Hmid Hlast].
  apply bytes_at_cons in Hlast as [Hlast _].
  replace (s + i + 1 + zlen l) with (s + (i + (zlen l + 1 + 1) - 1)) in Hlast by lia.
  rewrite (load_some _ _ _ Hb0), (load_some _ _ _ Hlast). cbn [mbind outcome_bind].
  rewrite (store_some _ _ _ _ Hb0 Hx). cbn [mbind outcome_bind].
  rewrite (store_some _ _ x y) by (rewrite ?lookup_insert_ne by lia; done || lia).
  cbn [mbind outcome_bind].
  set (m2 := <[s + (i + (zlen l + 1 + 1) - 1):=y]> (<[s + i:=x]> m)).
  destruct (IH m2 (i + 1) l) as (m' & He & Hb' & Hfr).
  { cbn in Hf. rewrite length_app in Hf. cbn in Hf. lia. }
  { eapply bytes_at_frame; [by replace (s + (i + 1)) with (s + i + 1) by lia|].
    intros a Ha. subst m2. by rewrite !lookup_insert_ne by lia. }
  { done. }
  exists m'. split; [rewrite <- He; f_equal; lia|]. split.
  - cbn [rev]. rewrite rev_app_distr. cbn [rev app]. apply bytes_at_cons. split.
    + rewrite Hfr by lia. subst m2. rewrite lookup_insert_ne by lia. apply lookup_insert_eq.
    + apply bytes_at_app. split; [by replace (s + i + 1) with (s + (i + 1)) by lia|].
      assert (zlen (rev l) = zlen l) as -> by (unfold zlen; by rewrite length_rev).
      apply bytes_at_cons. split; [|intros j b Hj; done].
      rewrite Hfr by lia. subst m2.
      replace (s + i + 1 + zlen l) with (s + (i + (zlen l + 1 + 1) - 1)) by lia.
      apply lookup_insert_eq.
  - intros a Ha. rewrite Hfr by lia. subst m2. by rewrite !lookup_insert_ne by lia.
Qed.

Lemma reverse_spec m s l :
  l ≠ [] → zlen l < 2 ^ 64 → bytes_at m s l → Forall is_byte l →
  ∃ m', _reverse m s (zlen l) = Ret m' ∧ bytes_at m' s (rev l) ∧
        ∀ a, ¬ (s ≤ a < s + zlen l) → m' !! a = m !! a.
Proof.
  intros Hne Hlt Hb Hl. unfold _reverse.
  assert (0 < zlen l) by (destruct l; [done|]; rewrite zlen_cons; pose proof (zlen_nonneg l); lia).
  rewrite wrap_id by lia.
  destruct (reverse_loop_spec (Z.to_nat (zlen l)) m s 0 l) as (m' & He & Hb' & Hfr).
  { unfold zlen. lia. } { by rewrite Z.add_0_r. } { done. }
  rewrite Z.add_0_r in *. exists m'. done.
Qed.

Lemma digits_of_length fuel u base : (length (digits_of fuel u base) ≤ fuel)%nat.
Proof.
  revert u. induction fuel as [|fuel IH]; intros u; cbn [digits_of length]; [lia|].
  destruct (u / base =? 0); [cbn; lia|]. specialize (IH (u / base)). lia.
Qed.

Lemma digits_of_nonempty fuel u base : (0 < fuel)%nat → digits_of fuel u base ≠ [].
Proof. destruct fuel; [lia|done]. Qed.

Lemma digits_bytes fuel u : 0 ≤ u → Forall is_byte (digits_of fuel u 10).
Proof. intros. eapply Forall_impl; [by apply digits_of_digit|]. unfold is_byte. cbn. lia. Qed.

(** The magnitude that [toa] converts is the absolute value. *)
Lemma toa_magnitude w value :
  8 ≤ w → - 2 ^ (w - 1) ≤ value < 2 ^ (w - 1) →
  (if value <? 0 then wrap w (wrap w (- (value + 1)) + 1) else wrap w value) = Z.abs value ∧
  0 ≤ Z.abs value < 2 ^ w.
Proof.
  intros Hw Hv. pose proof (Z.pow_pos_nonneg 2 (w - 1) ltac:(lia) ltac:(lia)).
  assert (2 ^ w = 2 * 2 ^ (w - 1)) by (rewrite <- Z.pow_succ_r by lia; f_equal; lia).
  split; [|lia]. destruct (Z.ltb_spec value 0); rewrite !wrap_id; rewrite ?wrap_id; lia.
Qed.

Definition sign_text (value : Z) : list Z := if value <? 0 then [45] else [].

Lemma decimal_rev w value :
  decimal w value = rev (digits_of (Z.to_nat w) (Z.abs value) 10 ++ sign_text value).
Proof.
  unfold decimal, sign_text. destruct (value <? 0); [by rewrite rev_app_distr|by rewrite app_nil_r].
Qed.

(** The digits, least significant first, and the sign behind them. *)
Lemma toa_digits w m value buf :
  8 ≤ w → - 2 ^ (w - 1) ≤ value < 2 ^ (w - 1) →
  mapped m buf (zlen (decimal w value) + 1) →
  ∃ m1 p m2,
    put_digits (Z.to_nat w) m buf (Z.abs value) 10 = Ret (m1, p) ∧
    (if value <? 0 then store m1 p 45 else Ret m1) = Ret m2 ∧
    (if value <? 0 then p + 1 else p) = buf + zlen (decimal w value) ∧
    bytes_at m2 buf (rev (decimal w value)) ∧
    mapped m2 buf (zlen (decimal w value) + 1) ∧
    ∀ a, ¬ (buf ≤ a < buf + zlen (decimal w value)) → m2 !! a = m !! a.
Proof.
  intros Hw Hv Hm. destruct (toa_magnitude w value Hw Hv) as [_ Hmag].
  assert (zlen (decimal w value)
          = zlen (digits_of (Z.to_nat w) (Z.abs value) 10) + zlen (sign_text value)) as Hdl.
  { rewrite decimal_rev. unfold zlen. rewrite length_rev, length_app. lia. }
  pose proof (zlen_nonneg (sign_text value)).
  destruct (put_digits_spec (Z.to_nat w) m buf (Z.abs value)) as (m1 & He & Hb1 & Hmp & Hfr1).
  { rewrite Z2Nat.id by lia. lia. } { lia. } { eapply mapped_weaken; [exact Hm|lia..]. }
  apply Hmp in Hm. rewrite Hdl in *. rewrite decimal_rev, rev_involutive.
  set (ds := digits_of _ _ _) in *. pose proof (zlen_nonneg ds).
  exists m1, (buf + zlen ds). unfold sign_text in *. destruct (value <? 0).
  - change (zlen [45]) with 1 in *. exists (<[buf + zlen ds:=45]> m1).
    split; [done|]. split; [by rewrite (store_mapped m1 _ _ _ _ Hm) by lia|].
    split; [lia|]. split; [|split; [apply mapped_insert; [lia|done]|]].
    + apply bytes_at_app. split; [apply bytes_at_insert_out; [lia|done]|].
      apply bytes_at_cons. split; [apply lookup_insert_eq|intros i b Hi; done].
    + intros a Ha. rewrite lookup_insert_ne by lia. apply Hfr1. lia.
  - change (zlen []) with 0 in *. exists m1. rewrite app_nil_r.
    split; [done|]. split; [done|]. split; [lia|]. split; [done|]. split; [done|].
    intros a Ha. apply Hfr1. lia.
Qed.

Lemma decimal_bytes w value : Forall is_byte (rev (decimal w value)).
Proof.
  rewrite decimal_rev, rev_involutive. apply Forall_app. split; [apply digits_bytes; lia|].
  unfold sign_text. destruct (value <? 0); repeat constructor; lia.
Qed.

Lemma decimal_length w value : 0 ≤ w → 0 ≤ zlen (decimal w value) ≤ w + 1.
Proof.
  intros Hw. split; [apply zlen_nonneg|]. rewrite decimal_rev. unfold zlen.
  rewrite length_rev, length_app. pose proof (digits_of_length (Z.to_nat w) (Z.abs value) 10).
  unfold sign_text. destruct (value <? 0); cbn [length]; lia.
Qed.

Lemma decimal_nonempty w value : 0 < w → decimal w value ≠ [].
Proof.
  intros Hw E. pose proof (digits_of_nonempty (Z.to_nat w) (Z.abs value) 10 ltac:(lia)) as Hne.
  rewrite decimal_rev in E. apply (f_equal (@rev Z)) in E. rewrite rev_involutive in E.
  cbn in E. apply app_eq_nil in E as [E _]. done.
Qed.

(** What [toa] stores, for a value of [w] bits. *)
Lemma toa_decimal w m value buf :
  8 ≤ w ≤ 64 → - 2 ^ (w - 1) ≤ value < 2 ^ (w - 1) →
  mapped m buf (zlen (decimal w value) + 1) →
  ∃ m', toa w m value buf 10 = Ret m' ∧ bytes_at m' buf (decimal w value ++ [0]) ∧
        ∀ a, ¬ (buf ≤ a ≤ buf + zlen (decimal w value)) → m' !! a = m !! a.
Proof.
  intros Hw Hv Hm. unfold toa. change ((10 <? 2) || (10 >? 36)) with false. cbv iota.
  rewrite andb_true_r. rewrite (proj1 (toa_magnitude w value ltac:(lia) Hv)).
  destruct (toa_digits w m value buf) as (m1 & p & m2 & -> & Hs & Hp & Hb & Hm2 & Hfr); [lia|done..|].
  cbn [mbind outcome_bind]. rewrite Hs. cbn [mbind outcome_bind]. rewrite Hp.
  pose proof (decimal_length w value ltac:(lia)). set (n := zlen (decimal w value)) in *.
  rewrite (store_mapped m2 _ _ _ 0 Hm2) by lia. cbn [mbind outcome_bind].
  assert (zlen (rev (decimal w value)) = n) as Hn by (unfold n, zlen; by rewrite length_rev).
  destruct (reverse_spec (<[buf + n:=0]> m2) buf (rev (decimal w value))) as (m' & He & Hb' & Hfr').
  { intros E. apply (decimal_nonempty w value ltac:(lia)).
    rewrite <- (rev_involutive (decimal w value)), E. done. }
  { lia. } { apply bytes_at_insert_out; [lia|done]. } { apply decimal_bytes. }
  rewrite Hn in He, Hfr'. exists m'. rewrite rev_involutive in Hb'.
  split; [by replace (buf + n - buf) with n by lia|]. split.
  - apply bytes_at_app. split; [done|]. apply bytes_at_cons. split; [|intros i b Hi; done].
    fold n. rewrite Hfr' by lia. apply lookup_insert_eq.
  - intros a Ha. rewrite Hfr', lookup_insert_ne by lia. apply Hfr. lia.
Qed.

(** ** Reading the text back *)

Lemma fold_digits_mono ds acc :
  Forall (λ c, 48 ≤ c ≤ 57) ds → 0 ≤ acc →
  acc ≤ fold_left (λ r c, r * 10 + (c - 48)) ds acc.
Proof.
  intros Hd. revert acc. induction Hd as [|c ds Hc _ IH]; intros acc Ha; cbn; [lia|].
  specialize (IH (acc * 10 + (c - 48)) ltac:(lia)). lia.
Qed.

Lemma checked_ok w z : - 2 ^ (w - 1) ≤ z < 2 ^ (w - 1) → checked w z = Ret z.
Proof.
  intros Hz. unfold checked.
  by rewrite (proj2 (Z.leb_le _ _)), (proj2 (Z.ltb_lt z _)) by lia.
Qed.

Lemma read_digits_spec fuel w m s ds acc :
  bytes_at m s (ds ++ [0]) → Forall (λ c, 48 ≤ c ≤ 57) ds → 0 ≤ acc →
  fold_left (λ r c, r * 10 + (c - 48)) ds acc < 2 ^ (w - 1) → (length ds < fuel)%nat →
  read_digits fuel w m s acc = Ret (fold_left (λ r c, r * 10 + (c - 48)) ds acc).
Proof.
  intros Hb Hd. revert fuel s acc Hb.
  induction Hd as [|c ds Hc Hd IH]; intros [|fuel] s acc Hb Ha Hlt Hf; cbn in Hf; try lia;
    cbn [read_digits app fold_left] in *; apply bytes_at_cons in Hb as [Hl Hb];
    rewrite (load_some _ _ _ Hl); cbn [mbind outcome_bind].
  - done.
  - unfold isdigit. rewrite (proj2 (Z.leb_le 48 c)), (proj2 (Z.leb_le c 57)) by lia. cbn [andb].
    pose proof (fold_digits_mono ds (acc * 10 + (c - 48)) Hd ltac:(lia)).
    pose proof (Z.pow_nonneg 2 (w - 1) ltac:(lia)).
    rewrite checked_ok by lia. cbn [mbind outcome_bind]. rewrite checked_ok by lia.
    cbn [mbind outcome_bind]. apply IH; [done|lia|done|lia].
Qed.

Lemma decimal_value w value :
  0 ≤ w → Z.abs value < 2 ^ w →
  fold_left (λ r c, r * 10 + (c - 48)) (rev (digits_of (Z.to_nat w) (Z.abs value) 10)) 0
  = Z.abs value.
Proof.
  intros Hw Hv. rewrite <- (rev_involutive (digits_of _ _ _)), rev_involutive.
  rewrite <- fold_left_rev_right, rev_involutive.
  apply digits_of_value. rewrite Z2Nat.id by lia. lia.
Qed.

Lemma skip_spaces_none fuel m s c :
  m !! s = Some c → _isspace c = false → (0 < fuel)%nat → skip_spaces fuel m s = Ret s.
Proof.
  intros Hl Hc Hf. destruct fuel; [lia|]. cbn [skip_spaces].
  rewrite (load_some _ _ _ Hl). cbn [mbind outcome_bind]. by rewrite Hc.
Qed.

(** [atoi]/[atol] on a decimal text. *)
Lemma ato_decimal w m s value fuel :
  8 ≤ w → - 2 ^ (w - 1) < value < 2 ^ (w - 1) →
  bytes_at m s (decimal w value ++ [0]) → w + 2 ≤ Z.of_nat fuel →
  ato w fuel m s = Ret value.
Proof.
  intros Hw Hv Hb Hf. destruct (toa_magnitude w value Hw ltac:(lia)) as [_ Hmag].
  pose proof (decimal_value w value ltac:(lia) ltac:(lia)) as Hval.
  pose proof (digits_of_length (Z.to_nat w) (Z.abs value) 10) as Hlen.
  pose proof (digits_of_nonempty (Z.to_nat w) (Z.abs value) 10 ltac:(lia)) as Hne.
  assert (Forall (λ c, 48 ≤ c ≤ 57) (rev (digits_of (Z.to_nat w) (Z.abs value) 10))) as Hdig.
  { apply Forall_rev, digits_of_digit. lia. }
  unfold decimal in Hb. set (ds := digits_of (Z.to_nat w) (Z.abs value) 10) in *.
  rewrite <- (length_rev ds) in Hlen.
  assert (rev ds ≠ []) as Hne' by (intros E; apply Hne; by rewrite <- (rev_involutive ds), E).
  assert (read_digits fuel w m (if value <? 0 then s + 1 else s) 0 = Ret (Z.abs value)) as Hr.
  { rewrite <- Hval. apply read_digits_spec; [|done|lia|rewrite Hval; lia|lia].
    destruct (value <? 0); [cbn [app] in Hb; apply bytes_at_cons in Hb as [_ Hb]; done|done]. }
  unfold ato. destruct (Z.ltb_spec value 0).
  - cbn [app] in Hb. apply bytes_at_cons in Hb as [Hl _].
    erewrite skip_spaces_none by (done || lia). cbn [mbind outcome_bind].
    rewrite (load_some _ _ _ Hl). cbn [mbind outcome_bind].
    change ((45 =? 45) || (45 =? 43)) with true. cbv iota. rewrite Hr. cbn [mbind outcome_bind].
    change (45 =? 45) with true. cbv iota. rewrite checked_ok by lia. f_equal. lia.
  - destruct (rev ds) as [|c t] eqn:E; [done|]. apply Forall_cons in Hdig as [Hc _].
    cbn [app] in Hb. apply bytes_at_cons in Hb as [Hl _].
    assert (_isspace c = false) by (unfold _isspace; bool_cases; cbn; lia).
    erewrite skip_spaces_none by (done || lia). cbn [mbind outcome_bind].
    rewrite (load_some _ _ _ Hl). cbn [mbind outcome_bind].
    rewrite (proj2 (Z.eqb_neq c 45)), (proj2 (Z.eqb_neq c 43)) by lia. cbn [orb].
    rewrite Hr. cbn [mbind outcome_bind]. rewrite checked_ok by lia. f_equal. lia.
Qed.

(** Printing an [int] in base 10 with [itoa] and reading it back with [atoi]
    gives the same number, for every [int] but the least one (whose magnitude
    [atoi] cannot accumulate); [itoa] needs exactly the text's length plus its
    terminator, and leaves the rest of memory alone. *)
Theorem itoa_atoi m value buf :
  - 2 ^ 31 < value < 2 ^ 31 →
  mapped m buf (zlen (decimal 32 value) + 1) →
  ∃ m', itoa m value buf 10 = Ret m' ∧ atoi 34 m' buf = Ret value ∧
        ∀ a, ¬ (buf ≤ a ≤ buf + zlen (decimal 32 value)) → m' !! a = m !! a.
Proof.
  intros Hv Hm. destruct (toa_decimal 32 m value buf) as (m' & He & Hb & Hfr); [lia|cbn; lia|done|].
  exists m'. split; [done|]. split; [|done]. apply ato_decimal; [lia|cbn; lia|done|lia].
Qed.

Lemma itoa_atoi_witness :
  mapped (mem_of 0 (replicate 5 7)) 0 (zlen (decimal 32 (-205)) + 1) ∧
  ∃ m', itoa (mem_of 0 (replicate 5 7)) (-205) 0 10 = Ret m' ∧ atoi 34 m' 0 = Ret (-205) ∧
        ∀ a, ¬ (0 ≤ a ≤ 0 + zlen (decimal 32 (-205))) → m' !! a = mem_of 0 (replicate 5 7) !! a.
Proof.
  assert (mapped (mem_of 0 (replicate 5 7)) 0 (zlen (decimal 32 (-205)) + 1)) as Hm.
  { intros a Ha. exists 7. split; [|lia]. change (zlen (decimal 32 (-205))) with 4 in Ha.
    assert (a = 0 ∨ a = 1 ∨ a = 2 ∨ a = 3 ∨ a = 4)
      as [-> | [-> | [-> | [-> | ->]]]] by lia; reflexivity. }
  split; [exact Hm|]. apply itoa_atoi; [lia|exact Hm].
Defined.
