(* ===== verification/CArray.v ===== *)
(** * Character arrays

    Most strings of the system are fixed arrays inside structures, filled with
    [strncpy] and [snprintf]. Here an array is the list of its bytes and a string
    argument is the list of its bytes without the terminator; the two functions
    on lists are proved equal to those of [CString] and [CFormat] on memory, so
    that the other files can work on arrays. *)

From S2P Require Import Prelude CMem CString CFormat.
From stdpp Require Import base numbers list gmap.
Open Scope Z_scope.

(** The string at the start of an array: the bytes before the first zero. *)
Fixpoint cstr (a : list Z) : list Z :=
  match a with [] => [] | c :: a => if c =? 0 then [] else c :: cstr a end.
Definition is_cstr (s : list Z) : Prop := Forall (λ b, 0 < b < 256) s.

(** [strncpy(dst, src, n)]: a string shorter than [n] is padded up to and
    including the byte at index [n]. *)
Definition strncpy_arr (dst src : list Z) (n : nat) : outcome (list Z) :=
  if decide (length src < n)%nat then
    if decide (S n ≤ length dst)%nat
    then Ret (src ++ replicate (S n - length src) 0 ++ drop (S n) dst) else Fault
  else if decide (n ≤ length dst)%nat then Ret (take n src ++ drop n dst) else Fault.

(** [strncpy(a, src, sizeof(a) - 1); a[sizeof(a) - 1] = '\0'] *)
Definition strncpy_term (dst src : list Z) : outcome (list Z) :=
  d ← strncpy_arr dst src (length dst - 1);
  Ret (d.[zlen dst - 1 <- 0]).

(** [snprintf(dst, size, fmt, ...)], [size > 0]: the array and the result. *)
Definition snprintf_arr (dst : list Z) (size : nat) (fmt : list Z) (ap : list varg)
    : outcome (list Z * Z) :=
  out ← formatted fmt ap;
  if decide (size ≤ length dst)%nat then
    let text := take (size - 1) out in
    Ret (text ++ [0] ++ drop (S (length text)) dst, s32 (zlen out))
  else Fault.

(** [strstr(hay, needle) != NULL] *)
Definition strstr_arr (hay needle : list Z) : bool :=
  existsb (λ j, bool_decide (occurs_at hay needle j)) (seq 0 (S (length hay))).

Lemma cstr_app s l : is_cstr s → cstr (s ++ 0 :: l) = s.
Proof.
  induction s as [|c s IH]; intros Hs; [done|]. apply Forall_cons in Hs as [Hc Hs]. cbn.
  rewrite (proj2 (Z.eqb_neq c 0)) by lia. by rewrite IH.
Qed.

Lemma is_cstr_take n s : is_cstr s → is_cstr (take n s).
Proof. apply Forall_take. Qed.

Lemma cstr_is_cstr a : Forall is_byte a → is_cstr (cstr a).
Proof.
  induction a as [|c a IH]; intros Ha; [by apply Forall_nil|]. apply Forall_cons in Ha as [Hc Ha].
  cbn. destruct (Z.eqb_spec c 0); [by apply Forall_nil|]. apply Forall_cons. unfold is_byte in Hc.
  split; [lia|by apply IH].
Qed.

(** ** Agreement with the functions on memory *)

Lemma bytes_at_mapped m a l : bytes_at m a l → Forall is_byte l → mapped m a (zlen l).
Proof.
  intros Hb Hl i Hi. destruct (lookup_lt_is_Some_2 l (Z.to_nat (i - a))) as [b Eb]; [unfold zlen in Hi; lia|].
  exists b. specialize (Hb _ _ Eb). split; [by replace i with (a + Z.of_nat (Z.to_nat (i - a))) by lia|].
  rewrite Forall_lookup in Hl. by apply (Hl _ _ Eb).
Qed.

Lemma bytes_at_drop m a l n : bytes_at m a l → bytes_at m (a + Z.of_nat n) (drop n l).
Proof. intros Hb i b Hi. rewrite lookup_drop in Hi. rewrite <- (Hb _ _ Hi). f_equal. lia. Qed.

Lemma bytes_at_unchanged m m' a l :
  bytes_at m a l → (∀ x, a ≤ x < a + zlen l → m' !! x = m !! x) → bytes_at m' a l.
Proof.
  intros Hb He i b Hi. rewrite <- (Hb _ _ Hi). apply He. apply lookup_lt_Some in Hi. unfold zlen. lia.
Qed.

(** The array after a write of [l] at its start. *)
Lemma bytes_at_patch m m' d dst l :
  bytes_at m d dst → bytes_at m' d l → (length l ≤ length dst)%nat →
  (∀ x, ¬ (d ≤ x < d + zlen l) → m' !! x = m !! x) →
  bytes_at m' d (l ++ drop (length l) dst) ∧ ∀ x, ¬ (d ≤ x < d + zlen dst) → m' !! x = m !! x.
Proof.
  intros Hd Hl Hlen Hfr. split; [|intros x Hx; apply Hfr; unfold zlen in *; lia].
  apply bytes_at_app. split; [done|]. eapply bytes_at_unchanged; [by apply bytes_at_drop|].
  intros x Hx. apply Hfr. lia.
Qed.

Lemma strncpy_arr_mem m d s src dst dst' n :
  cstr_at m s src → bytes_at m d dst → Forall is_byte dst →
  d + zlen dst ≤ s ∨ s + zlen src < d → strncpy_arr dst src n = Ret dst' →
  ∃ m', strncpy m d s n = Ret m' ∧ bytes_at m' d dst' ∧
        ∀ a, ¬ (d ≤ a < d + zlen dst) → m' !! a = m !! a.
Proof.
  intros Hs Hd Hb Hdis. pose proof (bytes_at_mapped m d dst Hd Hb) as Hm. unfold strncpy_arr, zlen in *.
  repeat case_decide; intros [= <-].
  - destruct (strncpy_short_spec m d s src n Hs ltac:(done)) as [H1 _]; [unfold zlen; lia|].
    destruct H1 as (m' & E & Hw & Hfr); [eapply mapped_weaken; [exact Hm|lia..]|].
    exists m'. split; [done|]. rewrite app_assoc.
    set (w := src ++ replicate (S n - length src) 0) in *.
    assert (length w = S n) as Ew by (unfold w; rewrite length_app, length_replicate; lia).
    rewrite <- Ew. eapply bytes_at_patch; [done|done|lia|]. intros x Hx. apply Hfr. unfold zlen in Hx. lia.
  - destruct (strncpy_long m d s src n Hs) as (m' & E & Hw & Hfr);
      [lia|eapply mapped_weaken; [exact Hm|lia..]|unfold zlen; lia|].
    exists m'. split; [done|]. assert (length (take n src) = n) as Ew by (rewrite length_take; lia).
    rewrite <- Ew at 2. eapply bytes_at_patch; [done|done|lia|]. intros x Hx. apply Hfr. unfold zlen in Hx. lia.
Qed.

Lemma snprintf_arr_mem m d dst dst' size r fmt ap :
  bytes_at m d dst → Forall is_byte dst → (0 < size)%nat → snprintf_arr dst size fmt ap = Ret (dst', r) →
  ∃ m', snprintf m (Some d) (Z.of_nat size) fmt ap = Ret (m', r) ∧ bytes_at m' d dst' ∧
        ∀ a, ¬ (d ≤ a < d + zlen dst) → m' !! a = m !! a.
Proof.
  intros Hd Hb Hsz. pose proof (bytes_at_mapped m d dst Hd Hb) as Hm. unfold snprintf_arr.
  destruct (formatted fmt ap) as [out| |] eqn:Ef; cbn [mbind outcome_bind]; [|done..].
  case_decide; [|done]. intros [= <- <-].
  pose proof (snprintf_spec m d (Z.of_nat size) fmt ap ltac:(lia)) as H1. rewrite Ef in H1.
  destruct H1 as (m' & E & Hw & Hfr); [eapply mapped_weaken; [exact Hm|unfold zlen; lia..]|].
  exists m'. split; [done|]. replace (Z.to_nat (Z.of_nat size - 1)) with (size - 1)%nat in Hw by lia.
  set (w := take (size - 1) out) in *.
  change (w ++ 0 :: drop (S (length w)) dst) with (w ++ [0] ++ drop (S (length w)) dst). rewrite app_assoc.
  assert (length (w ++ [0]) = S (length w)) as Ew by (rewrite length_app; cbn; lia).
  assert (length w ≤ size - 1)%nat as Hlw by (unfold w; rewrite length_take; lia).
  rewrite <- Ew. apply (bytes_at_patch m m' d dst (w ++ [0])); [done|done|lia|].
  intros x Hx. apply Hfr. unfold zlen in *. rewrite Ew in Hx. unfold w in Hx. rewrite length_take in Hx. lia.
Qed.

Lemma strstr_arr_mem m hay needle s t fuel :
  cstr_at m hay s → cstr_at m needle t → (length s + length t < fuel)%nat →
  ∃ r, strstr fuel m hay needle = Ret r ∧ strstr_arr s t = bool_decide (is_Some r).
Proof.
  intros Hs Ht Hf. destruct (strstr_spec m hay needle s t fuel Hs Ht Hf) as (r & E & Hr). exists r. split; [done|].
  unfold strstr_arr. destruct r as [a|]; cbn [strstr_result] in Hr.
  - rewrite bool_decide_true by done. destruct Hr as (i & _ & Hi & Hfirst). apply existsb_exists. exists i.
    split; [|by apply bool_decide_eq_true]. apply in_seq. destruct (decide (i ≤ length s)%nat); [lia|].
    exfalso. apply (Hfirst 0%nat); [lia|]. unfold occurs_at in *. rewrite drop_ge in Hi by lia. rewrite take_nil in Hi. by subst t.
  - rewrite bool_decide_false by (by intros [? ?]). apply not_true_is_false. intros (i & _ & Hi)%existsb_exists.
    by apply bool_decide_eq_true, Hr in Hi.
Qed.

(** ** What the arrays then hold *)

Lemma strncpy_term_spec dst src :
  is_cstr src → (0 < length dst)%nat →
  ∃ dst', strncpy_term dst src = Ret dst' ∧ length dst' = length dst ∧
    cstr dst' = take (length dst - 1) src.
Proof.
  intros Hs Hd. unfold strncpy_term, strncpy_arr. set (n := (length dst - 1)%nat).
  assert (S n = length dst) as Hn by (unfold n; lia). unfold aset.
  replace (Z.to_nat (zlen dst - 1)) with n by (unfold zlen; lia).
  case_decide as Hlt; rewrite decide_True by lia; cbn [mbind outcome_bind]; eexists; (split; [done|]).
  - rewrite length_insert, !length_app, length_replicate, length_drop. split; [lia|].
    rewrite take_ge by lia. rewrite drop_ge, app_nil_r by lia.
    rewrite insert_app_r_alt by lia. rewrite Hn. destruct (length dst - length src)%nat eqn:E; [lia|].
    cbn [replicate]. destruct (n - length src)%nat; cbn; by apply cstr_app.
  - rewrite length_insert, length_app, length_take, length_drop. split; [lia|].
    destruct (drop n dst) as [|x l] eqn:E; [pose proof (length_drop dst n) as Hl; rewrite E in Hl; cbn in Hl; lia|].
    rewrite insert_app_r_alt by (rewrite length_take; lia).
    replace (n - length (take n src))%nat with 0%nat by (rewrite length_take; lia).
    cbn. apply cstr_app. by apply is_cstr_take.
Qed.

Lemma snprintf_arr_spec dst size fmt ap out :
  formatted fmt ap = Ret out → is_cstr out → (0 < size ≤ length dst)%nat →
  ∃ dst', snprintf_arr dst size fmt ap = Ret (dst', s32 (zlen out)) ∧ length dst' = length dst ∧
    cstr dst' = take (size - 1) out.
Proof.
  intros Ef Ho Hsz. unfold snprintf_arr. rewrite Ef. cbn [mbind outcome_bind]. rewrite decide_True by lia.
  eexists. split; [done|]. split.
  - rewrite !length_app, length_drop, length_take. cbn. lia.
  - apply cstr_app. by apply is_cstr_take.
Qed.
