(* ===== verification/CPrint.v ===== *)
(** * Messages

    The formats that the system prints its names and messages with are built from
    literal text, [%s], [%d] and [%llu] without a field width. Here such a format
    is a list of pieces, and [CFormat.formatted] on it is proved to be the
    concatenation of their texts. *)

From S2P Require Import Prelude CMem CFormat CArray.
From stdpp Require Import base numbers list.
Open Scope Z_scope.

Inductive piece :=
  | Lit (l : list Z)
  | Str (s : option (list Z))
  | Dec (z : Z)
  | Llu (z : Z).
Fixpoint unparse (ps : list piece) : list Z :=
  match ps with
  | [] => []
  | Lit l :: ps => l ++ unparse ps
  | Str _ :: ps => 37 :: 115 :: unparse ps
  | Dec _ :: ps => 37 :: 100 :: unparse ps
  | Llu _ :: ps => 37 :: 108 :: 108 :: 117 :: unparse ps
  end.
Fixpoint args (ps : list piece) : list varg :=
  match ps with
  | [] => []
  | Lit _ :: ps => args ps
  | Str s :: ps => VStr s :: args ps
  | Dec z :: ps | Llu z :: ps => VInt z :: args ps
  end.
Definition dec (z : Z) : list Z := decimal 64 z.
Fixpoint text (ps : list piece) : list Z :=
  match ps with
  | [] => []
  | Lit l :: ps => l ++ text ps
  | Str s :: ps => default null_text s ++ text ps
  | Dec z :: ps | Llu z :: ps => dec z ++ text ps
  end.
Definition piece_ok (p : piece) : Prop :=
  match p with
  | Lit l => Forall (λ c, 0 < c < 256 ∧ c ≠ 37) l
  | Str (Some s) => is_cstr s
  | Str None => True
  | Dec z => 0 ≤ z < 2 ^ 31
  | Llu z => 0 ≤ z < 2 ^ 64
  end.

Lemma emit_str_list s : ∀ out, is_cstr s → emit_str emit_list out s = Ret (out ++ s).
Proof.
  induction s as [|c s IH]; intros out Hs; cbn [emit_str mbind outcome_bind emit_list]; [by rewrite app_nil_r|]. apply Forall_cons in Hs as [Hc Hs].
  rewrite IH by done. rewrite <- app_assoc. cbn [app]. by rewrite wrap_id by (cbn; lia).
Qed.

Lemma tmp_digits_list fuel : ∀ tmp u, u ≠ 0 → 0 ≤ u < 2 ^ Z.of_nat fuel → zlen tmp + Z.of_nat fuel ≤ 64 →
  tmp_digits fuel tmp u 10 false = Ret (tmp ++ digits_of fuel u 10).
Proof.
  induction fuel as [|fuel IH]; intros tmp u Hu Hr Hl; [cbn in Hr; lia|]. cbn [tmp_digits digits_of].
  rewrite (proj2 (Z.eqb_neq u 0)) by done. unfold push_tmp. rewrite (proj2 (Z.ltb_lt _ 64)) by lia. cbn [mbind outcome_bind].
  change (hex_digit false (u mod 10)) with (digit_char (u mod 10)).
  destruct (Z.eqb_spec (u / 10) 0) as [E|E]; [rewrite E; by destruct fuel|].
  rewrite IH; [by rewrite <- app_assoc|done| |].
  - rewrite Nat2Z.inj_succ, Z.pow_succ_r in Hr by lia. split; div_lia.
  - rewrite zlen_app. change (zlen [_]) with 1. lia.
Qed.

Lemma dec_cstr z : 0 ≤ z → is_cstr (dec z).
Proof.
  intros Hz. unfold dec, decimal. rewrite (proj2 (Z.ltb_ge z 0)) by lia. apply Forall_rev. rewrite Z.abs_eq by lia.
  eapply Forall_impl; [by apply digits_of_digit|]. cbn. lia.
Qed.

Lemma emit_uint_dec out v : 0 ≤ v < 2 ^ 64 → emit_uint emit_list out v 10 false 0 32 = Ret (out ++ dec v).
Proof.
  intros Hv. unfold emit_uint.
  assert ((if v =? 0 then Ret [48] else tmp_digits 64 [] v 10 false) = Ret (digits_of 64 v 10)) as ->.
  { destruct (Z.eqb_spec v 0) as [->|Hn]; [done|]. by rewrite tmp_digits_list. }
  cbn [mbind outcome_bind]. replace (Z.to_nat (0 - zlen (digits_of 64 v 10))) with 0%nat by (pose proof (zlen_nonneg (digits_of 64 v 10)); lia).
  cbn [tmp_pad mbind outcome_bind]. assert (dec v = reverse (digits_of 64 v 10)) as E.
  { unfold dec, decimal. rewrite (proj2 (Z.ltb_ge v 0)), Z.abs_eq, rev_alt by lia. done. }
  rewrite <- E. apply emit_str_list, dec_cstr. lia.
Qed.

Lemma format_lit l fmt ap : Forall (λ c, 0 < c < 256 ∧ c ≠ 37) l → ∀ fuel out, (length l ≤ fuel)%nat →
  format emit_list fuel out (l ++ fmt) ap = format emit_list (fuel - length l) (out ++ l) fmt ap.
Proof.
  induction 1 as [|c l [Hc Hp] _ IH]; intros fuel out Hf; [by rewrite app_nil_r, Nat.sub_0_r|].
  destruct fuel as [|fuel]; [cbn in Hf; lia|]. cbn [app format]. rewrite (proj2 (Z.eqb_neq c 37)) by done. cbn [negb mbind outcome_bind emit_list].
  rewrite IH by (cbn in Hf; lia). cbn [length]. rewrite <- app_assoc. rewrite wrap_id by (cbn; lia). done.
Qed.

Lemma dec_ok z : 0 ≤ z < 2 ^ 31 → s32 z = z ∧ (z <? 0) = false.
Proof.
  intros Hz. split; [|lia]. unfold swrap. rewrite wrap_id by lia. rewrite (proj2 (Z.ltb_lt z _)) by (cbn; lia). done.
Qed.

Lemma format_pieces ps : Forall piece_ok ps → ∀ fuel out, (length (unparse ps) < fuel)%nat →
  format emit_list fuel out (unparse ps) (args ps) = Ret (out ++ text ps).
Proof.
  induction 1 as [|p ps Hp _ IH]; intros fuel out Hf; [destruct fuel; [cbn in Hf; lia|]; by rewrite app_nil_r|].
  destruct p as [l|s|z|z]; cbn [unparse args text] in *; (destruct fuel as [|fuel]; [cbn in Hf; lia|]).
  - rewrite length_app in Hf. rewrite format_lit by (done || lia). rewrite IH by lia. by rewrite <- app_assoc.
  - assert (is_cstr (default null_text s)) as Hs by (destruct s; [done|repeat constructor; cbn; lia]).
    transitivity (st ← emit_str emit_list out (default null_text s); format emit_list fuel st (unparse ps) (args ps));
      [cbn; by destruct (emit_str emit_list out (default null_text s))|].
    rewrite emit_str_list by done. cbn [mbind outcome_bind]. rewrite IH by (cbn in Hf; lia). by rewrite <- app_assoc.
  - destruct (dec_ok z Hp) as [E1 E2]. transitivity (st ← emit_int emit_list out (s32 z) 0 32; format emit_list fuel st (unparse ps) (args ps));
      [cbn; by destruct (emit_int emit_list out (s32 z) 0 32)|].
    rewrite E1. unfold emit_int. rewrite E2. rewrite emit_uint_dec by (cbn in Hp; lia). cbn [mbind outcome_bind]. rewrite IH by (cbn in Hf; lia). by rewrite <- app_assoc.
  - transitivity (st ← emit_uint emit_list out (u64 z) 10 false 0 32; format emit_list fuel st (unparse ps) (args ps));
      [cbn; by destruct (emit_uint emit_list out (u64 z) 10 false 0 32)|].
    rewrite wrap_id by done. rewrite emit_uint_dec by done. cbn [mbind outcome_bind]. rewrite IH by (cbn in Hf; lia). by rewrite <- app_assoc.
Qed.

Lemma formatted_pieces ps : Forall piece_ok ps → formatted (unparse ps) (args ps) = Ret (text ps).
Proof. intros Hp. unfold formatted. rewrite format_pieces; [done|done|lia]. Qed.

Lemma text_cstr ps : Forall piece_ok ps → is_cstr (text ps).
Proof.
  induction 1 as [|p ps Hp _ IH]; [constructor|]. destruct p as [l|[s|]|z|z]; cbn [text default]; apply Forall_app; (split; [|exact IH]).
  - eapply Forall_impl; [exact Hp|]. cbn. lia.
  - exact Hp.
  - repeat constructor; cbn; lia.
  - apply dec_cstr. cbn in Hp. lia.
  - apply dec_cstr. cbn in Hp. lia.
Qed.
