(* ===== verification/Buf.v ===== *)
(** * Byte buffers

    The codecs and parsers work on buffers of bytes with indices for pointers. A
    read or a write outside a buffer is a [Fault]; [memcpy] reads and writes a
    block at once. *)

From S2P Require Import Prelude CMem.
From stdpp Require Import base numbers list.
Open Scope Z_scope.

Definition rd (p : list Z) (i : Z) : outcome Z :=
  if (0 <=? i) && (i <? zlen p) then Ret (p.[i]) else Fault.
(** [memcpy(dst + op, l, n)], where [l] are the [n] bytes. *)
Definition wr (dst : list Z) (op : Z) (l : list Z) : outcome (list Z) :=
  if (0 <=? op) && (op + zlen l <=? zlen dst)
  then Ret (take (Z.to_nat op) dst ++ l ++ drop (Z.to_nat (op + zlen l)) dst) else Fault.
Definition sub_list (p : list Z) (i n : Z) : list Z := take (Z.to_nat n) (drop (Z.to_nat i) p).
(** The [n] bytes at [p + i]. *)
Definition rd_block (p : list Z) (i n : Z) : outcome (list Z) :=
  if (0 <=? i) && (0 <=? n) && (i + n <=? zlen p) then Ret (sub_list p i n) else Fault.

(** ** Buffers *)

Definition splice (dst : list Z) (op : Z) (l : list Z) : list Z :=
  take (Z.to_nat op) dst ++ l ++ drop (Z.to_nat (op + zlen l)) dst.

Lemma rd_ok p i : 0 ≤ i < zlen p → rd p i = Ret (p.[i]).
Proof. intros Hi. unfold rd. destruct (Z.leb_spec 0 i), (Z.ltb_spec i (zlen p)); by lia || done. Qed.

Lemma wr_ok dst op l : 0 ≤ op → op + zlen l ≤ zlen dst → wr dst op l = Ret (splice dst op l).
Proof. intros H0 Hl. unfold wr. destruct (Z.leb_spec 0 op), (Z.leb_spec (op + zlen l) (zlen dst)); by lia || done. Qed.

Lemma rd_block_ok p i n : 0 ≤ i → 0 ≤ n → i + n ≤ zlen p → rd_block p i n = Ret (sub_list p i n).
Proof.
  intros Hi Hn Hl. unfold rd_block. rewrite (proj2 (Z.leb_le 0 i)), (proj2 (Z.leb_le 0 n)), (proj2 (Z.leb_le _ _)) by lia. done.
Qed.

Lemma zlen_sub_list p i n : 0 ≤ i → 0 ≤ n → i + n ≤ zlen p → zlen (sub_list p i n) = n.
Proof. intros Hi Hn Hl. unfold zlen, sub_list in *. rewrite length_take, length_drop. lia. Qed.

Lemma aget_sub_list p i n k : 0 ≤ i → i + n ≤ zlen p → 0 ≤ k < n → (sub_list p i n).[k] = p.[i + k].
Proof.
  intros Hi Hl Hk. unfold aget, sub_list. rewrite !list_lookup_total_alt, lookup_take_lt by lia.
  rewrite lookup_drop. f_equal. f_equal. lia.
Qed.

Lemma zlen_splice dst op l : 0 ≤ op → op + zlen l ≤ zlen dst → zlen (splice dst op l) = zlen dst.
Proof. intros H0 Hl. unfold splice, zlen in *. rewrite !length_app, length_take, length_drop. lia. Qed.

Lemma splice_in dst op l k : 0 ≤ op → op + zlen l ≤ zlen dst → 0 ≤ k < zlen l → (splice dst op l).[op + k] = l.[k].
Proof.
  intros H0 Hl Hk. unfold splice. assert (zlen (take (Z.to_nat op) dst) = op) as Ht.
  { unfold zlen in *. rewrite length_take. lia. }
  rewrite aget_app_r by lia. rewrite Ht. replace (op + k - op) with k by lia. by apply aget_app_l.
Qed.

Lemma splice_out dst op l k :
  0 ≤ op → op + zlen l ≤ zlen dst → 0 ≤ k < op ∨ op + zlen l ≤ k → (splice dst op l).[k] = dst.[k].
Proof.
  intros H0 Hl Hk. pose proof (zlen_nonneg l). unfold splice. assert (zlen (take (Z.to_nat op) dst) = op) as Ht.
  { unfold zlen in *. rewrite length_take. lia. }
  destruct Hk as [Hk|Hk].
  - rewrite aget_app_l by lia. unfold aget. rewrite !list_lookup_total_alt, lookup_take_lt by lia. done.
  - rewrite aget_app_r by lia. rewrite aget_app_r by lia. rewrite Ht. unfold aget. rewrite !list_lookup_total_alt, lookup_drop.
    f_equal. f_equal. lia.
Qed.

Lemma splice_splice dst op l l' :
  0 ≤ op → op + zlen l + zlen l' ≤ zlen dst →
  splice (splice dst op l) (op + zlen l) l' = splice dst op (l ++ l').
Proof.
  intros H0 Hl. pose proof (zlen_nonneg l). pose proof (zlen_nonneg l'). apply array_eq.
  { rewrite !zlen_splice by (rewrite ?zlen_splice, ?zlen_app; lia). done. }
  intros i Hi. rewrite !zlen_splice in Hi by (rewrite ?zlen_splice; lia).
  destruct (decide (0 ≤ i < op ∨ op + zlen l + zlen l' ≤ i)) as [Ho|Hin].
  - rewrite !splice_out by (rewrite ?zlen_splice, ?zlen_app; lia). done.
  - destruct (decide (i < op + zlen l)).
    + rewrite (splice_out _ (op + zlen l)) by (rewrite ?zlen_splice; lia).
      replace i with (op + (i - op)) by lia. rewrite !splice_in by (rewrite ?zlen_app; lia). by rewrite aget_app_l by lia.
    + assert (∃ k, i = op + zlen l + k ∧ 0 ≤ k < zlen l') as (k & -> & Hk) by (exists (i - op - zlen l); lia).
      rewrite splice_in by (rewrite ?zlen_splice; lia).
      replace (op + zlen l + k) with (op + (zlen l + k)) by lia. rewrite splice_in by (rewrite ?zlen_app; lia).
      rewrite aget_app_r by lia. f_equal. lia.
Qed.

(** Consecutive writes. *)
Lemma wr_next dst op l l' :
  0 ≤ op → op + zlen l + zlen l' ≤ zlen dst → wr (splice dst op l) (op + zlen l) l' = Ret (splice dst op (l ++ l')).
Proof.
  intros H0 Hl. pose proof (zlen_nonneg l). pose proof (zlen_nonneg l').
  rewrite wr_ok by (rewrite ?zlen_splice; lia). by rewrite splice_splice.
Qed.

(** Parts of lists. *)
Lemma sub_list_splice (dst l : list Z) i n : 0 ≤ i → 0 ≤ n → i + n ≤ zlen l → zlen l ≤ zlen dst → sub_list (splice dst 0 l) i n = sub_list l i n.
Proof.
  intros Hi Hn Hl Hd. unfold sub_list, splice. cbn [Z.to_nat take app]. unfold zlen in *. rewrite take_0. cbn [app].
  rewrite drop_app_le by lia. by rewrite take_app_le by (rewrite length_drop; lia).
Qed.
Lemma sub_list_middle pre l post : sub_list (pre ++ l ++ post) (zlen pre) (zlen l) = l.
Proof.
  unfold sub_list, zlen. rewrite !Nat2Z.id, drop_app_length. by rewrite take_app_length.
Qed.

Lemma sub_list_split (d : list Z) t c m : 0 ≤ t → 0 ≤ c ≤ m → sub_list d t m = sub_list d t c ++ sub_list d (t + c) (m - c).
Proof.
  intros Ht Hc. unfold sub_list. replace (Z.to_nat m) with (Z.to_nat c + Z.to_nat (m - c))%nat by lia. replace (Z.to_nat (t + c)) with (Z.to_nat t + Z.to_nat c)%nat by lia.
  rewrite <- drop_drop. symmetry. apply take_take_drop.
Qed.

Definition bytes_ok (p : list Z) : Prop := Forall (λ b, 0 ≤ b < 256) p.

Lemma bytes_aget p i : bytes_ok p → 0 ≤ p.[i] < 256.
Proof. intros Hp. apply (Forall_aget_default (λ b, 0 ≤ b < 256)); [done|]. cbn. lia. Qed.

Lemma lor_add a b k : 0 ≤ k → 0 ≤ a < 2 ^ k → 0 ≤ b → Z.lor a (Z.shiftl b k) = a + b * 2 ^ k.
Proof.
  intros Hk Ha Hb. rewrite <- Z.shiftl_mul_pow2 by lia. rewrite Z.add_nocarry_lor; [done|].
  apply Z.bits_inj'. intros i Hi. rewrite Z.land_spec, Z.bits_0. destruct (decide (i < k)).
  - rewrite (Z.shiftl_spec_low b) by lia. apply andb_false_r.
  - rewrite (testbit_out_of_range k a) by lia. done.
Qed.

Definition changed (dst dst' : list Z) (a b : Z) : Prop :=
  zlen dst' = zlen dst ∧ ∀ j, 0 ≤ j < a ∨ b ≤ j → dst'.[j] = dst.[j].

Lemma changed_refl dst a b : changed dst dst a b.
Proof. done. Qed.
Lemma changed_splice dst op l : 0 ≤ op → op + zlen l ≤ zlen dst → changed dst (splice dst op l) op (op + zlen l).
Proof. intros H0 Hl. split; [by apply zlen_splice|]. intros j Hj. by apply splice_out. Qed.
Lemma changed_trans d1 d2 d3 a b c d :
  changed d1 d2 a b → changed d2 d3 c d → changed d1 d3 (Z.min a c) (Z.max b d).
Proof. intros [E1 H1] [E2 H2]. split; [lia|]. intros j Hj. rewrite H2, H1 by lia. done. Qed.
Lemma changed_weaken d1 d2 a b a' b' : changed d1 d2 a b → a' ≤ a → b ≤ b' → changed d1 d2 a' b'.
Proof. intros [E H] Ha Hb. split; [done|]. intros j Hj. apply H. lia. Qed.

Lemma bytes_ok_splice dst i l : bytes_ok dst → bytes_ok l → bytes_ok (splice dst i l).
Proof. intros Hd Hl. unfold bytes_ok, splice in *. apply Forall_app; split; [by apply Forall_take|]. apply Forall_app; split; [done|by apply Forall_drop]. Qed.

(** ** Outcomes

    [ends Q P o]: [o] is no fault, and gives a result with [P] or never ends, which
    needs [Q]. *)
Definition ends {A} (Q : Prop) (P : A → Prop) (o : outcome A) : Prop :=
  match o with Ret x => P x | Fault => False | NoFuel => Q end.

Lemma ends_bind {A B} Q (P : A → Prop) (R : B → Prop) o (f : A → outcome B) :
  ends Q P o → (∀ x, P x → ends Q R (f x)) → ends Q R (o ≫= f).
Proof. destruct o; cbn; auto. Qed.
Lemma ends_mono {A} (Q Q' : Prop) (P P' : A → Prop) o : ends Q P o → (Q → Q') → (∀ x, P x → P' x) → ends Q' P' o.
Proof. destruct o; cbn; auto. Qed.

Lemma rd_ends (p : list Z) i : bytes_ok p → 0 ≤ i < zlen p → ends False (λ b, 0 ≤ b < 256) (rd p i).
Proof. intros Hb Hi. rewrite rd_ok by done. by apply bytes_aget. Qed.
