(* ===== verification/Lz4.v ===== *)
(** * LZ4 blocks ([src/lib/lz4.c])

    Buffers are lists of bytes and pointers into them are indices; a read or a
    write outside a buffer is a [Fault]. The capacity that a caller passes is a
    separate argument, as in the code, so that a write past the capacity and a
    write past the end of the buffer are different things. *)

From S2P Require Import Prelude CMem Buf.
From stdpp Require Import base numbers list.
Open Scope Z_scope.

Definition LZ4_HASH_LOG : Z := 12.
Definition LZ4_HASH_SIZE : Z := 4096.
Definition LZ4_MIN_MATCH : Z := 4.
Definition LZ4_MAX_INPUT_SIZE : Z := 0x7E000000.

Definition lz4_hash (val : Z) : Z := Z.shiftr (u32 (val * 2654435761)) (32 - LZ4_HASH_LOG).

Definition read32 (p : list Z) (i : Z) : outcome Z :=
  a ← rd p i; b ← rd p (i + 1); c ← rd p (i + 2); d ← rd p (i + 3);
  Ret (Z.lor (Z.lor (Z.lor a (Z.shiftl b 8)) (Z.shiftl c 16)) (Z.shiftl d 24)).
Definition write16_le (dst : list Z) (op v : Z) : outcome (list Z) :=
  dst ← wr dst op [Z.land v 0xFF]; wr dst (op + 1) [Z.shiftr v 8].
Definition read16_le (p : list Z) (i : Z) : outcome Z :=
  a ← rd p i; b ← rd p (i + 1); Ret (Z.lor a (Z.shiftl b 8)).

(** The number of equal bytes from [a] and [b] on, up to [limit]. *)
Fixpoint count_from (fuel : nat) (p : list Z) (a b limit n : Z) : outcome Z :=
  if a <? limit then
    match fuel with
    | O => NoFuel
    | S fuel =>
        x ← rd p a; y ← rd p b;
        if x =? y then count_from fuel p (a + 1) (b + 1) limit (n + 1) else Ret n
    end
  else Ret n.
Definition lz4_count (p : list Z) (a b limit : Z) : outcome Z :=
  count_from (Z.to_nat (limit - a)) p a b limit 0.

(** [while (rem >= 255) { *op++ = 255; rem -= 255; } *op++ = (uint8_t)rem;] *)
Fixpoint write_rem (fuel : nat) (dst : list Z) (op rem : Z) : outcome (list Z * Z) :=
  if rem >=? 255 then
    match fuel with
    | O => NoFuel
    | S fuel => dst ← wr dst op [255]; write_rem fuel dst (op + 1) (rem - 255)
    end
  else dst ← wr dst op [u8 rem]; Ret (dst, op + 1).
Definition write_ext (dst : list Z) (op len : Z) : outcome (list Z * Z) :=
  if len >=? 15 then write_rem (Z.to_nat len) dst op (len - 15) else Ret (dst, op).

(** One match: the body of the loop from [emit literals] to the offset and
    match length; [worst] is the code's estimate of what it will write. *)
Definition emit_seq (src dst : list Z) (op oend anchor ip ref match_len : Z) : outcome (option (list Z * Z)) :=
  let lit_len := ip - anchor in
  let worst := 1 + lit_len / 255 + lit_len + 2 + match_len / 255 + 1 in
  if op + worst >? oend then Ret None else
  let lit_hdr := if lit_len >=? 15 then 15 else lit_len in
  let ml_hdr := if match_len - LZ4_MIN_MATCH >=? 15 then 15 else match_len - LZ4_MIN_MATCH in
  dst ← wr dst op [u8 (Z.lor (Z.shiftl lit_hdr 4) ml_hdr)];
  r ← write_ext dst (op + 1) lit_len;
  let '(dst, op) := r in
  lits ← rd_block src anchor lit_len;
  dst ← wr dst op lits;
  let op := op + lit_len in
  dst ← write16_le dst op (u16 (ip - ref));
  r ← write_ext dst (op + 2) (match_len - LZ4_MIN_MATCH);
  Ret (Some r).

Definition emit_last (src dst : list Z) (op oend anchor iend : Z) : outcome (list Z * Z) :=
  let last_lit := iend - anchor in
  let worst_last := 1 + last_lit / 255 + last_lit in
  if op + worst_last >? oend then Ret (dst, -1) else
  let lit_hdr := if last_lit >=? 15 then 15 else last_lit in
  dst ← wr dst op [u8 (Z.shiftl lit_hdr 4)];
  r ← write_ext dst (op + 1) last_lit;
  let '(dst, op) := r in
  lits ← rd_block src anchor last_lit;
  dst ← wr dst op lits;
  Ret (dst, op + last_lit).

Fixpoint compress_from (fuel : nat) (src dst : list Z) (op oend : Z) (htable : list Z) (anchor ip iend : Z)
    : outcome (list Z * Z) :=
  let ilimit := iend - LZ4_MIN_MATCH in
  if ip <? ilimit then
    match fuel with
    | O => NoFuel
    | S fuel =>
        v ← read32 src ip;
        let h := lz4_hash v in
        let ref := htable.[h] in
        let htable := htable.[h <- u16 ip] in
        skip ← (if (ref <? 0) || (ip - ref >? 65535) then Ret true else w ← read32 src ref; Ret (negb (w =? v)));
        if (skip : bool) then compress_from fuel src dst op oend htable anchor (ip + 1) iend else
        n ← lz4_count src (ip + LZ4_MIN_MATCH) (ref + LZ4_MIN_MATCH) iend;
        let match_len := LZ4_MIN_MATCH + n in
        r ← emit_seq src dst op oend anchor ip ref match_len;
        match r with
        | None => Ret (dst, -1)
        | Some (dst, op) =>
            let ip := ip + match_len in
            htable ← (if ip <? ilimit then w ← read32 src ip; Ret (htable.[lz4_hash w <- u16 ip]) else Ret htable);
            compress_from fuel src dst op oend htable ip ip iend
        end
    end
  else emit_last src dst op oend anchor iend.

Definition lz4_compress (src : option (list Z)) (src_size : Z) (dst : option (list Z)) (dst_capacity : Z)
    : outcome (option (list Z) * Z) :=
  match src, dst with
  | Some s, Some d =>
      if src_size =? 0 then Ret (dst, -1) else
      if src_size >? LZ4_MAX_INPUT_SIZE then Ret (dst, -1) else
      r ← compress_from (Z.to_nat src_size) s d 0 dst_capacity (replicate (Z.to_nat LZ4_HASH_SIZE) 0) 0 1 src_size;
      let '(d, n) := r in Ret (Some d, n)
  | _, _ => Ret (dst, -1)
  end.

(** The length extension: bytes are added up to and including the first below 255. *)
Fixpoint read_ext (fuel : nat) (src : list Z) (ip iend len : Z) : outcome (Z * Z) :=
  if ip <? iend then
    match fuel with
    | O => NoFuel
    | S fuel =>
        b ← rd src ip;
        if b <? 255 then Ret (ip + 1, len + b) else read_ext fuel src (ip + 1) iend (len + b)
    end
  else Ret (ip, len).

(** [for (i = 0; i < match_len; i++) op[i] = match_src[i];] *)
Fixpoint copy_bytes (n : nat) (dst : list Z) (op match_src : Z) : outcome (list Z) :=
  match n with
  | O => Ret dst
  | S n => b ← rd dst match_src; dst ← wr dst op [b]; copy_bytes n dst (op + 1) (match_src + 1)
  end.
Definition copy_match (dst : list Z) (op offset match_len : Z) : outcome (list Z) :=
  if offset >=? match_len then b ← rd_block dst (op - offset) match_len; wr dst op b
  else copy_bytes (Z.to_nat match_len) dst op (op - offset).

Fixpoint decompress_from (fuel : nat) (src dst : list Z) (ip iend op oend : Z) : outcome (list Z * Z) :=
  if ip <? iend then
    match fuel with
    | O => NoFuel
    | S fuel =>
        tok ← rd src ip;
        let ip := ip + 1 in
        let lit_len := Z.shiftr tok 4 in
        let match_len := Z.land tok 0x0F in
        r ← (if lit_len =? 15 then read_ext (Z.to_nat iend) src ip iend lit_len else Ret (ip, lit_len));
        let '(ip, lit_len) := r in
        if (ip + lit_len >? iend) || (op + lit_len >? oend) then Ret (dst, -1) else
        b ← rd_block src ip lit_len;
        dst ← wr dst op b;
        let ip := ip + lit_len in
        let op := op + lit_len in
        if ip >=? iend then Ret (dst, op) else
        if ip + 2 >? iend then Ret (dst, -1) else
        offset ← read16_le src ip;
        let ip := ip + 2 in
        if offset =? 0 then Ret (dst, -1) else
        let match_len := match_len + LZ4_MIN_MATCH in
        r ← (if Z.land tok 0x0F =? 15 then read_ext (Z.to_nat iend) src ip iend match_len else Ret (ip, match_len));
        let '(ip, match_len) := r in
        if op - offset <? 0 then Ret (dst, -1) else
        if op + match_len >? oend then Ret (dst, -1) else
        dst ← copy_match dst op offset match_len;
        decompress_from fuel src dst ip iend (op + match_len) oend
    end
  else Ret (dst, op).

Definition lz4_decompress (src : option (list Z)) (src_size : Z) (dst : option (list Z)) (dst_capacity : Z)
    : outcome (option (list Z) * Z) :=
  match src, dst with
  | Some s, Some d =>
      r ← decompress_from (Z.to_nat src_size) s d 0 src_size 0 dst_capacity;
      let '(d, n) := r in Ret (Some d, n)
  | _, _ => Ret (dst, -1)
  end.

(** ** The block format *)

(** A sequence: literals, then [s_len] bytes copied from [s_off] bytes back. *)
Record seq := { s_lits : list Z; s_off : Z; s_len : Z }.

Definition hdr (n : Z) : Z := if n >=? 15 then 15 else n.
Definition ext (n : Z) : list Z :=
  if n >=? 15 then replicate (Z.to_nat ((n - 15) / 255)) 255 ++ [(n - 15) mod 255] else [].
Definition enc_seq (s : seq) : list Z :=
  [hdr (zlen s.(s_lits)) * 16 + hdr (s.(s_len) - 4)] ++ ext (zlen s.(s_lits)) ++ s.(s_lits) ++
  [s.(s_off) mod 256; s.(s_off) / 256] ++ ext (s.(s_len) - 4).
Definition enc_last (l : list Z) : list Z := [hdr (zlen l) * 16] ++ ext (zlen l) ++ l.
Fixpoint enc (seqs : list seq) (last : list Z) : list Z :=
  match seqs with [] => enc_last last | s :: seqs => enc_seq s ++ enc seqs last end.

(** The sequences say what the text is from [anchor] on. *)
Inductive parse (text : list Z) : Z → list seq → list Z → Prop :=
  | parse_last anchor : 0 ≤ anchor ≤ zlen text → parse text anchor [] (drop (Z.to_nat anchor) text)
  | parse_seq anchor ip off len seqs last :
      0 ≤ anchor ≤ ip → 0 ≤ off ≤ 65535 → off ≤ ip → 4 ≤ len → ip + len ≤ zlen text →
      (∀ i, 0 ≤ i < len → text.[ip + i] = text.[ip - off + i]) →
      parse text (ip + len) seqs last →
      parse text anchor ({| s_lits := sub_list text anchor (ip - anchor); s_off := off; s_len := len |} :: seqs) last.

Lemma zlen_ext n : 0 ≤ n → zlen (ext n) = if n >=? 15 then (n - 15) / 255 + 1 else 0.
Proof.
  intros Hn. unfold ext. destruct (Z.geb_spec n 15); [|done]. rewrite zlen_app. change (zlen [(n - 15) mod 255]) with 1.
  unfold zlen. rewrite length_replicate. assert (0 ≤ (n - 15) / 255) by (apply Z.div_pos; lia). lia.
Qed.

Lemma zlen_ext_bound n : 0 ≤ n → 0 ≤ zlen (ext n) ≤ n / 255 + 1.
Proof.
  intros Hn. rewrite zlen_ext by done. assert (0 ≤ n / 255) by (apply Z.div_pos; lia).
  destruct (Z.geb_spec n 15); [|lia]. assert (0 ≤ (n - 15) / 255) by (apply Z.div_pos; lia).
  assert ((n - 15) / 255 ≤ n / 255) by (apply Z.div_le_mono; lia). lia.
Qed.

(** ** The writer *)

Lemma write_rem_ok fuel : ∀ dst op rem,
  0 ≤ op → 0 ≤ rem ≤ Z.of_nat fuel → let l := replicate (Z.to_nat (rem / 255)) 255 ++ [rem mod 255] in
  op + zlen l ≤ zlen dst → write_rem fuel dst op rem = Ret (splice dst op l, op + zlen l).
Proof.
  induction fuel as [|fuel IH]; intros dst op rem Hop Hrem l Hl.
  - assert (rem = 0) as -> by lia. cbn. change l with [0] in *. rewrite wr_ok by done. done.
  - cbn [write_rem]. destruct (Z.geb_spec rem 255) as [Hge|Hlt].
    + assert (l = 255 :: (replicate (Z.to_nat ((rem - 255) / 255)) 255 ++ [(rem - 255) mod 255])) as El.
      { subst l. assert (rem / 255 = (rem - 255) / 255 + 1) as -> by div_lia. assert (0 ≤ (rem - 255) / 255) by (apply Z.div_pos; lia).
        rewrite Z2Nat.inj_add by lia. rewrite Nat.add_1_r. cbn [replicate app]. do 2 f_equal. f_equal. div_lia. }
      set (l' := replicate _ _ ++ _) in El. rewrite El, zlen_cons in Hl. pose proof (zlen_nonneg l').
      rewrite wr_ok; [|done|change (zlen [255]) with 1; lia]. cbn [mbind outcome_bind].
      assert (zlen (splice dst op [255]) = zlen dst) as Ez by (apply zlen_splice; [done|change (zlen [255]) with 1; lia]).
      rewrite IH; [|lia|lia|fold l'; rewrite Ez; lia]. fold l'. change (op + 1) with (op + zlen [255]).
      rewrite splice_splice; [|done|change (zlen [255]) with 1; lia]. rewrite El. change ([255] ++ l') with (255 :: l').
      rewrite !zlen_cons. change (zlen []) with 0. do 2 f_equal. lia.
    + assert (l = [rem]) as El by (subst l; rewrite Z.div_small, Z.mod_small by lia; done).
      rewrite El in *. rewrite wrap_id by lia. rewrite wr_ok; [done|done|lia].
Qed.

Lemma write_ext_ok dst op n :
  0 ≤ op → 0 ≤ n → op + zlen (ext n) ≤ zlen dst → write_ext dst op n = Ret (splice dst op (ext n), op + zlen (ext n)).
Proof.
  intros Hop Hn Hl. unfold write_ext, ext in *. destruct (Z.geb_spec n 15).
  - apply write_rem_ok; [done|lia|done].
  - unfold splice. change (zlen []) with 0. rewrite !Z.add_0_r. cbn [app]. by rewrite take_drop.
Qed.

Lemma token_small a b : 0 ≤ a ≤ 15 → 0 ≤ b ≤ 15 → u8 (Z.lor (Z.shiftl a 4) b) = a * 16 + b.
Proof.
  intros Ha Hb. assert (Z.lor (Z.shiftl a 4) b = a * 16 + b) as ->; [|apply wrap_id; lia].
  rewrite <- Z.add_nocarry_lor; [rewrite Z.shiftl_mul_pow2 by lia; lia|].
  apply Z.bits_inj'. intros i Hi. rewrite Z.land_spec, Z.bits_0. destruct (decide (i < 4)).
  - rewrite Z.shiftl_spec_low by lia. done.
  - rewrite (testbit_out_of_range 4 b) by lia. apply andb_false_r.
Qed.

Lemma hdr_range n : 0 ≤ n → 0 ≤ hdr n ≤ 15.
Proof. intros Hn. unfold hdr. destruct (Z.geb_spec n 15); lia. Qed.

Lemma low_high_16 v : 0 ≤ v < 65536 → Z.land v 0xFF = v mod 256 ∧ Z.shiftr v 8 = v / 256.
Proof. intros Hv. split; [change 0xFF with (Z.ones 8); by rewrite Z.land_ones by lia|by rewrite Z.shiftr_div_pow2 by lia]. Qed.

Lemma write_ext_next dst op l n :
  0 ≤ op → 0 ≤ n → op + zlen l + zlen (ext n) ≤ zlen dst →
  write_ext (splice dst op l) (op + zlen l) n = Ret (splice dst op (l ++ ext n), op + zlen (l ++ ext n)).
Proof.
  intros H0 Hn Hl. pose proof (zlen_nonneg l). pose proof (zlen_nonneg (ext n)).
  rewrite write_ext_ok by (rewrite ?zlen_splice; lia). rewrite splice_splice by lia. rewrite zlen_app. do 2 f_equal. lia.
Qed.

(** ** The compressor writes a block *)

Lemma zlen_enc_seq s :
  zlen (enc_seq s) = 1 + zlen (ext (zlen s.(s_lits))) + zlen s.(s_lits) + 2 + zlen (ext (s.(s_len) - 4)).
Proof. unfold enc_seq. rewrite !zlen_app. rewrite !zlen_cons. change (zlen []) with 0. lia. Qed.
Lemma zlen_enc_last l : zlen (enc_last l) = 1 + zlen (ext (zlen l)) + zlen l.
Proof. unfold enc_last. rewrite !zlen_app, !zlen_cons. change (zlen []) with 0. lia. Qed.

(** What the rest of a text can take. With that much room, or with one byte after
    the capacity, nothing is written past the output. *)
Definition room (rest : Z) : Z := rest + rest / 255 + 2.
Definition roomy (dst : list Z) (op oend rest : Z) : Prop := oend < zlen dst ∨ op + room rest ≤ zlen dst.

Lemma room_last n : 0 ≤ n → 1 + zlen (ext n) + n ≤ room n.
Proof. intros Hn. pose proof (zlen_ext_bound n Hn). unfold room. lia. Qed.

Lemma room_seq n len rest : 0 ≤ n → 4 ≤ len → 0 ≤ rest →
  1 + zlen (ext n) + n + 2 + zlen (ext (len - 4)) + room rest ≤ room (n + len + rest).
Proof.
  intros Hn Hlen Hr. rewrite !zlen_ext by lia. unfold room.
  assert (rest / 255 + n / 255 ≤ (n + len + rest) / 255) as Hd.
  { apply Z.div_le_lower_bound; [lia|]. pose proof (Z.mul_div_le rest 255). pose proof (Z.mul_div_le n 255). lia. }
  assert (0 ≤ n / 255) by (apply Z.div_pos; lia).
  assert ((if n >=? 15 then (n - 15) / 255 + 1 else 0) ≤ n / 255 + 1) as Hx.
  { destruct (n >=? 15); [|lia]. assert ((n - 15) / 255 ≤ n / 255) by (apply Z.div_le_mono; lia). lia. }
  assert (3 + (if len - 4 >=? 15 then (len - 4 - 15) / 255 + 1 else 0) + 1 ≤ len); [|lia].
  destruct (Z.geb_spec (len - 4) 15); [|lia]. pose proof (Z.mul_div_le (len - 4 - 15) 255). lia.
Qed.

Lemma room_worst n len rest : 0 ≤ n → 4 ≤ len → 0 ≤ rest →
  1 + n / 255 + n + 2 + len / 255 + 1 ≤ room (n + len + rest).
Proof.
  intros Hn Hlen Hr. unfold room. assert (n / 255 + len / 255 ≤ (n + len + rest) / 255); [|lia].
  apply Z.div_le_lower_bound; [lia|]. pose proof (Z.mul_div_le len 255). pose proof (Z.mul_div_le n 255). lia.
Qed.

Lemma emit_seq_spec src dst op oend anchor ip ref len :
  0 ≤ op → roomy dst op oend (zlen src - anchor) → 0 ≤ anchor ≤ ip → ip + len ≤ zlen src → 0 ≤ ip - ref ≤ 65535 → 4 ≤ len →
  let s := {| s_lits := sub_list src anchor (ip - anchor); s_off := ip - ref; s_len := len |} in
  emit_seq src dst op oend anchor ip ref len = Ret None ∧ oend < op + room (zlen src - anchor) ∨
  emit_seq src dst op oend anchor ip ref len = Ret (Some (splice dst op (enc_seq s), op + zlen (enc_seq s))) ∧
  op + zlen (enc_seq s) ≤ oend + 1 ∧ op + zlen (enc_seq s) ≤ zlen dst ∧
  op + zlen (enc_seq s) + room (zlen src - (ip + len)) ≤ op + room (zlen src - anchor).
Proof.
  intros Hop Hoend Ha Hip Hoff Hlen s. unfold emit_seq. destruct (Z.gtb_spec (op + (1 + (ip - anchor) / 255 + (ip - anchor) + 2 + len / 255 + 1)) oend) as [Hw|Hw].
  { left. split; [done|]. pose proof (room_worst (ip - anchor) len (zlen src - (ip + len))) as Hr.
    replace (ip - anchor + len + (zlen src - (ip + len))) with (zlen src - anchor) in Hr by lia. lia. }
  right. set (n := ip - anchor) in *. assert (zlen (s_lits s) = n) as En by (apply zlen_sub_list; lia).
  pose proof (zlen_enc_seq s) as Ez. rewrite En in Ez. cbn [s_len s] in Ez.
  pose proof (zlen_ext_bound n ltac:(lia)) as B1. 
  assert (0 ≤ zlen (ext (len - 4)) ≤ len / 255 + 1) as B2.
  { pose proof (zlen_ext_bound (len - 4) ltac:(lia)). assert ((len - 4) / 255 ≤ len / 255) by (apply Z.div_le_mono; lia). lia. }
  pose proof (room_seq n len (zlen src - (ip + len)) ltac:(lia) Hlen ltac:(lia)) as Hroom.
  replace (n + len + (zlen src - (ip + len))) with (zlen src - anchor) in Hroom by lia.
  assert (0 ≤ room (zlen src - (ip + len))) by (unfold room; assert (0 ≤ (zlen src - (ip + len)) / 255) by (apply Z.div_pos; lia); lia).
  assert (op + zlen (enc_seq s) ≤ zlen dst) as Hfit by (destruct Hoend; lia).
  fold (hdr n). fold (hdr (len - LZ4_MIN_MATCH)).
  rewrite token_small by (apply hdr_range; unfold LZ4_MIN_MATCH; lia).
  set (tok := hdr n * 16 + hdr (len - LZ4_MIN_MATCH)). rewrite wr_ok; [|done|change (zlen [tok]) with 1; lia].
  cbn [mbind outcome_bind]. change (op + 1) with (op + zlen [tok]).
  rewrite write_ext_next; [|done|lia|change (zlen [tok]) with 1; lia]. cbn [mbind outcome_bind].
  rewrite rd_block_ok by lia. cbn [mbind outcome_bind]. fold (s_lits s). change (sub_list src anchor n) with (s_lits s).
  assert (zlen ([tok] ++ ext n) = 1 + zlen (ext n)) as E1 by (rewrite zlen_app; done).
  rewrite wr_next by lia. cbn [mbind outcome_bind]. 
  replace (op + zlen ([tok] ++ ext n) + n) with (op + zlen (([tok] ++ ext n) ++ s_lits s)) by (rewrite (zlen_app _ (s_lits s)); lia).
  unfold write16_le. destruct (low_high_16 (ip - ref) ltac:(lia)) as [El Eh]. rewrite wrap_id by lia. rewrite El, Eh.
  set (w := ([tok] ++ ext n) ++ s_lits s). assert (zlen w = 1 + zlen (ext n) + n) as Ew by (unfold w; rewrite zlen_app; lia).
  rewrite wr_next; [|done|change (zlen [(ip - ref) mod 256]) with 1; lia]. cbn [mbind outcome_bind].
  assert (op + zlen w + 1 = op + zlen (w ++ [(ip - ref) mod 256])) as -> by (rewrite zlen_app; change (zlen [_]) with 1; lia).
  set (w1 := w ++ [_]). assert (zlen w1 = zlen w + 1) as Ew1 by (unfold w1; by rewrite zlen_app).
  rewrite wr_next; [|done|change (zlen [_]) with 1; lia]. cbn [mbind outcome_bind].
  set (w2 := w1 ++ [_]). assert (zlen w2 = zlen w + 2) as Ew2 by (unfold w2; rewrite zlen_app; change (zlen [_]) with 1; lia).
  replace (op + zlen w + 2) with (op + zlen w2) by lia.
  rewrite write_ext_next; [|done|unfold LZ4_MIN_MATCH; lia|unfold LZ4_MIN_MATCH; lia]. cbn [mbind outcome_bind].
  assert (w2 ++ ext (len - LZ4_MIN_MATCH) = enc_seq s) as ->.
  { unfold w2, w1, w, enc_seq. rewrite En. cbn [s_off s_len s]. rewrite <- !app_assoc. done. }
  split; [done|]. split; [lia|]. split; [done|lia].
Qed.

Lemma emit_last_spec src dst op oend anchor :
  0 ≤ op → roomy dst op oend (zlen src - anchor) → 0 ≤ anchor ≤ zlen src →
  let l := drop (Z.to_nat anchor) src in
  emit_last src dst op oend anchor (zlen src) = Ret (dst, -1) ∧ oend < op + room (zlen src - anchor) ∨
  emit_last src dst op oend anchor (zlen src) = Ret (splice dst op (enc_last l), op + zlen (enc_last l)) ∧
  op + zlen (enc_last l) ≤ oend + 1 ∧ op + zlen (enc_last l) ≤ zlen dst.
Proof.
  intros Hop Hoend Ha l. unfold emit_last. set (n := zlen src - anchor).
  destruct (Z.gtb_spec (op + (1 + n / 255 + n)) oend) as [Hw|Hw]; [left; split; [done|unfold room; fold n; lia]|]. right.
  assert (sub_list src anchor n = l) as El.
  { unfold sub_list, l. rewrite take_ge; [done|]. rewrite length_drop. unfold n, zlen. lia. }
  assert (zlen l = n) as En by (rewrite <- El; apply zlen_sub_list; lia).
  pose proof (zlen_enc_last l) as Ez. rewrite En in Ez. pose proof (zlen_ext_bound n ltac:(lia)) as B1.
  assert (op + zlen (enc_last l) ≤ zlen dst) as Hfit.
  { pose proof (room_last n ltac:(lia)). unfold roomy in Hoend. fold n in Hoend. lia. }
  fold (hdr n). assert (u8 (Z.shiftl (hdr n) 4) = hdr n * 16) as ->.
  { pose proof (token_small (hdr n) 0 ltac:(apply hdr_range; lia) ltac:(lia)) as E. by rewrite Z.lor_0_r, Z.add_0_r in E. }
  set (tok := hdr n * 16). rewrite wr_ok; [|done|change (zlen [tok]) with 1; lia].
  cbn [mbind outcome_bind]. change (op + 1) with (op + zlen [tok]).
  rewrite write_ext_next; [|done|lia|change (zlen [tok]) with 1; lia]. cbn [mbind outcome_bind].
  rewrite rd_block_ok by lia. cbn [mbind outcome_bind]. rewrite El.
  assert (zlen ([tok] ++ ext n) = 1 + zlen (ext n)) as E1 by (rewrite zlen_app; done).
  rewrite wr_next by lia. cbn [mbind outcome_bind]. unfold enc_last in *. rewrite En, E1 in *. rewrite <- app_assoc.
  split; [do 2 f_equal; lia|]. split; [lia|exact Hfit].
Qed.

Lemma read32_ok p i :
  bytes_ok p → 0 ≤ i → i + 4 ≤ zlen p →
  read32 p i = Ret (p.[i] + p.[i + 1] * 256 + p.[i + 2] * 65536 + p.[i + 3] * 16777216).
Proof.
  intros Hb Hi Hl. unfold read32. rewrite !rd_ok by lia. cbn [mbind outcome_bind].
  pose proof (bytes_aget p i Hb). pose proof (bytes_aget p (i + 1) Hb).
  pose proof (bytes_aget p (i + 2) Hb). pose proof (bytes_aget p (i + 3) Hb).
  rewrite (lor_add _ _ 8) by lia. rewrite (lor_add _ _ 16) by lia. rewrite (lor_add _ _ 24) by lia.
  reflexivity.
Qed.

Lemma lz4_hash_range v : 0 ≤ lz4_hash v < LZ4_HASH_SIZE.
Proof.
  unfold lz4_hash, LZ4_HASH_SIZE, LZ4_HASH_LOG. rewrite Z.shiftr_div_pow2 by lia. pose proof (u32_range (v * 2654435761)).
  change (2 ^ (32 - 12)) with 1048576. div_lia.
Qed.

Lemma count_from_spec fuel : ∀ p a b limit n,
  0 ≤ b ≤ a → limit ≤ zlen p → limit - a ≤ Z.of_nat fuel →
  ∃ k, count_from fuel p a b limit n = Ret (n + k) ∧ 0 ≤ k ∧ (a ≤ limit → a + k ≤ limit) ∧
    ∀ i, 0 ≤ i < k → p.[a + i] = p.[b + i].
Proof.
  induction fuel as [|fuel IH]; intros p a b limit n Hb Hl Hf; cbn [count_from];
    destruct (Z.ltb_spec a limit); try lia; try (exists 0; rewrite Z.add_0_r; repeat split; by lia).
  rewrite !rd_ok by lia. cbn [mbind outcome_bind]. destruct (Z.eqb_spec (p.[a]) (p.[b])) as [E|]; [|exists 0; rewrite Z.add_0_r; repeat split; by lia].
  destruct (IH p (a + 1) (b + 1) limit (n + 1)) as (k & -> & Hk & Hak & Heq); [lia|lia|lia|].
  exists (k + 1). split; [f_equal; lia|]. split; [lia|]. split; [lia|]. intros i Hi.
  destruct (decide (i = 0)) as [->|]; [by rewrite !Z.add_0_r|]. specialize (Heq (i - 1) ltac:(lia)).
  by replace (a + 1 + (i - 1)) with (a + i) in Heq by lia; replace (b + 1 + (i - 1)) with (b + i) in Heq by lia.
Qed.

Lemma match_spec p ip ref :
  bytes_ok p → 0 ≤ ref ≤ ip → ip + 4 ≤ zlen p → read32 p ref = read32 p ip →
  ∃ n, lz4_count p (ip + LZ4_MIN_MATCH) (ref + LZ4_MIN_MATCH) (zlen p) = Ret n ∧ 0 ≤ n ∧
    ip + (LZ4_MIN_MATCH + n) ≤ zlen p ∧ ∀ i, 0 ≤ i < LZ4_MIN_MATCH + n → p.[ip + i] = p.[ref + i].
Proof.
  intros Hb Hr Hip Heq. unfold lz4_count, LZ4_MIN_MATCH.
  destruct (count_from_spec (Z.to_nat (zlen p - (ip + 4))) p (ip + 4) (ref + 4) (zlen p) 0) as (n & -> & Hn & Hle & Hi); [lia|lia|lia|].
  exists n. split; [done|]. split; [done|]. split; [lia|]. rewrite !read32_ok in Heq by (done || lia).
  assert (∀ j, 0 ≤ p.[j] < 256) as Hbj by (intros j; by apply bytes_aget).
  pose proof (Hbj ip); pose proof (Hbj (ip + 1)); pose proof (Hbj (ip + 2)); pose proof (Hbj (ip + 3)).
  pose proof (Hbj ref); pose proof (Hbj (ref + 1)); pose proof (Hbj (ref + 2)); pose proof (Hbj (ref + 3)).
  injection Heq as Heq. intros i Hin.
  assert (p.[ref] = p.[ip] ∧ p.[ref + 1] = p.[ip + 1] ∧ p.[ref + 2] = p.[ip + 2] ∧ p.[ref + 3] = p.[ip + 3]) as (E0 & E1 & E2 & E3) by lia.
  destruct (decide (i < 4)).
  - assert (i = 0 ∨ i = 1 ∨ i = 2 ∨ i = 3) as [->|[->|[->| ->]]] by lia; by rewrite ?Z.add_0_r.
  - specialize (Hi (i - 4) ltac:(lia)). by replace (ip + 4 + (i - 4)) with (ip + i) in Hi by lia; replace (ref + 4 + (i - 4)) with (ref + i) in Hi by lia.
Qed.

(** Positions in the hash table are below the current one. *)
Definition htable_ok (t : list Z) (ip : Z) : Prop :=
  zlen t = LZ4_HASH_SIZE ∧ ∀ h, 0 ≤ h < LZ4_HASH_SIZE → 0 ≤ t.[h] ≤ ip.

Lemma htable_set t ip ip' h :
  htable_ok t ip → 0 ≤ h < LZ4_HASH_SIZE → 0 ≤ ip ≤ ip' → htable_ok (t.[h <- u16 ip']) ip'.
Proof.
  intros [Hl Hr] Hh Hip. split; [by rewrite zlen_aset|]. intros j Hj. rewrite aget_aset by lia. case_decide.
  - unfold wrap. split; [apply Z.mod_pos_bound; lia|]. apply Z.mod_le; lia.
  - specialize (Hr j Hj). lia.
Qed.

Lemma htable_mono t ip ip' : htable_ok t ip → ip ≤ ip' → htable_ok t ip'.
Proof. intros [Hl Hr] Hip. split; [done|]. intros j Hj. specialize (Hr j Hj). lia. Qed.

Definition block_written (src dst : list Z) (op oend anchor : Z) (r : outcome (list Z * Z)) : Prop :=
  ∃ dst' n, r = Ret (dst', n) ∧ zlen dst' = zlen dst ∧
    (n = -1 ∧ (∀ i, oend < i → dst'.[i] = dst.[i]) ∧ oend < op + room (zlen src - anchor) ∨
     ∃ seqs last, parse src anchor seqs last ∧ dst' = splice dst op (enc seqs last) ∧
       n = op + zlen (enc seqs last) ∧ n ≤ oend + 1 ∧ n ≤ zlen dst).

Lemma compress_from_spec fuel : ∀ src dst op oend t anchor ip,
  bytes_ok src → htable_ok t ip → 0 ≤ op → roomy dst op oend (zlen src - anchor) → 0 ≤ anchor ≤ ip → ip ≤ zlen src →
  zlen src - ip ≤ Z.of_nat fuel →
  block_written src dst op oend anchor (compress_from fuel src dst op oend t anchor ip (zlen src)).
Proof.
  assert (∀ src dst op oend anchor, 0 ≤ op → roomy dst op oend (zlen src - anchor) → 0 ≤ anchor ≤ zlen src →
    block_written src dst op oend anchor (emit_last src dst op oend anchor (zlen src))) as Hlast.
  { intros src dst op oend anchor Hop Ho Ha. destruct (emit_last_spec src dst op oend anchor Hop Ho Ha) as [[-> Hno]|(-> & Hle & Hfit)].
    - exists dst, (-1). split; [done|]. split; [done|]. by left.
    - eexists _, _. split; [done|]. pose proof (zlen_nonneg (enc_last (drop (Z.to_nat anchor) src))).
      split; [apply zlen_splice; lia|]. right. exists [], (drop (Z.to_nat anchor) src). split; [by constructor|done]. }
  induction fuel as [|fuel IH]; intros src dst op oend t anchor ip Hb Ht Hop Ho Ha Hip Hf; cbn [compress_from];
    change LZ4_MIN_MATCH with 4; destruct (Z.ltb_spec ip (zlen src - 4)); try (apply Hlast; [lia|done|lia]); try lia.
  rewrite read32_ok by (done || lia). cbn [mbind outcome_bind]. set (v := (_ + _)%Z).
  pose proof (lz4_hash_range v) as Hh. set (h := lz4_hash v) in *. pose proof (proj2 Ht h Hh) as Href. set (ref := t.[h]) in *.
  pose proof (htable_set t ip ip h Ht Hh ltac:(lia)) as Ht1. set (t1 := t.[h <- u16 ip]) in *.
  assert (block_written src dst op oend anchor (compress_from fuel src dst op oend t1 anchor (ip + 1) (zlen src))) as Hskip.
  { apply IH; [done|by apply (htable_mono t1 ip); [|lia]|done|done|lia|lia|lia]. }
  destruct (Z.ltb_spec ref 0); [lia|]. destruct (Z.gtb_spec (ip - ref) 65535) as [|Hoff]; [exact Hskip|]. cbn [orb].
  rewrite (read32_ok src ref) by (done || lia). cbn [mbind outcome_bind].
  destruct (Z.eqb_spec (src.[ref] + src.[ref + 1] * 256 + src.[ref + 2] * 65536 + src.[ref + 3] * 16777216) v) as [Ev|]; [|exact Hskip].
  cbn [negb]. destruct (match_spec src ip ref Hb ltac:(lia) ltac:(lia)) as (n & En & Hn & Hle & Heq).
  { rewrite !read32_ok by (done || lia). by f_equal. }
  change LZ4_MIN_MATCH with 4 in *. rewrite En. cbn [mbind outcome_bind].
  destruct (emit_seq_spec src dst op oend anchor ip ref (4 + n) Hop Ho ltac:(lia) ltac:(lia) ltac:(lia) ltac:(lia)) as [[-> Hno]|(-> & Hfit & Hfit2 & Hroom)];
    cbn [mbind outcome_bind].
  { exists dst, (-1). split; [done|]. split; [done|]. by left. }
  set (s := {| s_lits := _ |}) in *. pose proof (zlen_nonneg (enc_seq s)) as Hz.
  assert (∃ t2, (if ip + (4 + n) <? zlen src - 4 then w ← read32 src (ip + (4 + n)); Ret (t1.[lz4_hash w <- u16 (ip + (4 + n))]) else Ret t1) = Ret t2
    ∧ htable_ok t2 (ip + (4 + n))) as (t2 & -> & Ht2).
  { destruct (Z.ltb_spec (ip + (4 + n)) (zlen src - 4)); [|exists t1; split; [done|by apply (htable_mono t1 ip); [|lia]]].
    rewrite read32_ok by (done || lia). cbn [mbind outcome_bind]. eexists. split; [done|].
    apply (htable_set t1 ip); [done|apply lz4_hash_range|lia]. }
  cbn [mbind outcome_bind].
  assert (zlen (splice dst op (enc_seq s)) = zlen dst) as Ezs by (apply zlen_splice; lia).
  destruct (IH src (splice dst op (enc_seq s)) (op + zlen (enc_seq s)) oend t2 (ip + (4 + n)) (ip + (4 + n)) Hb Ht2) as
    (dst' & m & -> & Ez & Hres); [lia|unfold roomy in *; rewrite Ezs; lia|lia|lia|lia|]. exists dst', m. split; [done|]. split; [lia|].
  destruct Hres as [(-> & Hout & Hno)|(seqs & last & Hp & -> & -> & Hm & Hm2)].
  - left. split; [done|]. split; [|lia]. intros i Hi. rewrite Hout by done. apply splice_out; lia.
  - right. exists (s :: seqs), last. split; [apply parse_seq; try lia; [|done]|].
    + intros i Hi. rewrite Heq by lia. f_equal. lia.
    + cbn [enc]. pose proof (zlen_nonneg (enc seqs last)). rewrite zlen_app. rewrite splice_splice by lia. split; [done|]. lia.
Qed.

(** ** The decoder reads blocks *)

Definition holds_at (p : list Z) (i : Z) (l : list Z) : Prop :=
  0 ≤ i ∧ i + zlen l ≤ zlen p ∧ ∀ k, 0 ≤ k < zlen l → p.[i + k] = l.[k].

Lemma holds_at_app p i l1 l2 : holds_at p i (l1 ++ l2) → holds_at p i l1 ∧ holds_at p (i + zlen l1) l2.
Proof.
  intros (H0 & Hl & Hk). pose proof (zlen_nonneg l1). pose proof (zlen_nonneg l2). rewrite zlen_app in *. split.
  - split; [done|]. split; [lia|]. intros k Hk'. rewrite Hk by lia. by apply aget_app_l.
  - split; [lia|]. split; [lia|]. intros k Hk'. replace (i + zlen l1 + k) with (i + (zlen l1 + k)) by lia.
    rewrite Hk by lia. rewrite aget_app_r by lia. f_equal. lia.
Qed.

Lemma holds_at_cons p i x l : holds_at p i (x :: l) → rd p i = Ret x ∧ holds_at p (i + 1) l.
Proof.
  intros Hh. destruct (holds_at_app p i [x] l Hh) as [(H0 & Hl & Hk) Ht]. split; [|done].
  change (zlen [x]) with 1 in *. rewrite rd_ok by lia. specialize (Hk 0 ltac:(lia)). rewrite Z.add_0_r in Hk. by rewrite Hk.
Qed.

Lemma holds_at_block p i l : holds_at p i l → rd_block p i (zlen l) = Ret l.
Proof.
  intros (H0 & Hl & Hk). pose proof (zlen_nonneg l). rewrite rd_block_ok by lia. f_equal.
  apply array_eq; [apply zlen_sub_list; lia|]. intros k Hk'. rewrite zlen_sub_list in Hk' by lia.
  rewrite aget_sub_list by lia. by apply Hk.
Qed.

Lemma read_ext_ok k : ∀ fuel src ip iend len r,
  holds_at src ip (replicate k 255 ++ [r]) → ip + Z.of_nat k < iend → (k < fuel)%nat → 0 ≤ r < 255 →
  read_ext fuel src ip iend len = Ret (ip + Z.of_nat k + 1, len + 255 * Z.of_nat k + r).
Proof.
  induction k as [|k IH]; intros fuel src ip iend len r Hh Hi Hf Hr; (destruct fuel as [|fuel]; [lia|]); cbn [read_ext].
  - rewrite (proj2 (Z.ltb_lt _ _)) by lia. destruct (holds_at_cons _ _ _ _ Hh) as [-> _]. cbn [mbind outcome_bind].
    rewrite (proj2 (Z.ltb_lt r 255)) by lia. do 2 f_equal; lia.
  - rewrite (proj2 (Z.ltb_lt _ _)) by lia. destruct (holds_at_cons _ _ _ _ Hh) as [-> Ht]. cbn [mbind outcome_bind].
    change (255 <? 255) with false. cbv iota. rewrite (IH fuel src (ip + 1) iend (len + 255) r Ht) by lia.
    do 2 f_equal; lia.
Qed.

(** A length from its token nibble and its extension. *)
Lemma read_len_ok src ip iend b n :
  holds_at src ip (ext n) → ip + zlen (ext n) ≤ iend → 0 ≤ n →
  (if hdr n =? 15 then read_ext (Z.to_nat iend) src ip iend (b + hdr n) else Ret (ip, b + hdr n)) =
  Ret (ip + zlen (ext n), b + n).
Proof.
  intros Hh Hi Hn. unfold hdr. unfold ext in *. destruct (Z.geb_spec n 15) as [Hge|Hlt].
  - change (15 =? 15) with true. cbv iota. assert (0 ≤ (n - 15) / 255) as Hq by (apply Z.div_pos; lia).
    assert (0 ≤ ip) as H0 by apply Hh.
    assert (zlen (replicate (Z.to_nat ((n - 15) / 255)) 255 ++ [(n - 15) mod 255]) = (n - 15) / 255 + 1) as El.
    { rewrite zlen_app. change (zlen [_]) with 1. unfold zlen. rewrite length_replicate. lia. }
    rewrite El in *. pose proof (Z.mod_pos_bound (n - 15) 255 ltac:(lia)).
    rewrite (read_ext_ok _ _ _ _ _ _ _ Hh) by lia. do 2 f_equal; [lia|]. pose proof (Z.div_mod (n - 15) 255). lia.
  - rewrite (proj2 (Z.eqb_neq n 15)) by lia. change (zlen []) with 0. by rewrite Z.add_0_r.
Qed.

(** [dst'] differs from [dst] at most in [[a, b)]. *)
Lemma copy_bytes_ok n : ∀ dst op ms,
  0 ≤ ms < op → op + Z.of_nat n ≤ zlen dst →
  ∃ dst', copy_bytes n dst op ms = Ret dst' ∧ changed dst dst' op (op + Z.of_nat n) ∧
    ∀ i, 0 ≤ i < Z.of_nat n → dst'.[op + i] = dst'.[ms + i].
Proof.
  induction n as [|n IH]; intros dst op ms Hms Hl.
  - exists dst. split; [done|]. split; [apply changed_refl|lia].
  - cbn [copy_bytes]. rewrite rd_ok by lia. cbn [mbind outcome_bind]. set (b := dst.[ms]).
    change 1 with (zlen [b]). rewrite wr_ok; [|lia|change (zlen [b]) with 1; lia]. cbn [mbind outcome_bind].
    pose proof (changed_splice dst op [b] ltac:(lia) ltac:(change (zlen [b]) with 1; lia)) as Hc.
    change (zlen [b]) with 1 in *. pose proof (splice_in dst op [b] 0 ltac:(lia) ltac:(change (zlen [b]) with 1; lia) ltac:(change (zlen [b]) with 1; lia)) as Hin.
    rewrite Z.add_0_r in Hin. change ([b].[0]) with b in Hin. set (d1 := splice dst op [b]) in *.
    destruct (IH d1 (op + 1) (ms + 1)) as (d2 & -> & Hc2 & Heq); [lia|rewrite (proj1 Hc); lia|].
    exists d2. split; [done|]. pose proof (changed_trans _ _ _ _ _ _ _ Hc Hc2) as Hc3.
    split; [eapply changed_weaken; [exact Hc3|lia|lia]|]. intros i Hi. destruct (decide (i = 0)) as [->|].
    + rewrite !Z.add_0_r. rewrite !(proj2 Hc2) by lia. rewrite Hin. symmetry. apply Hc. lia.
    + specialize (Heq (i - 1) ltac:(lia)). by replace (op + 1 + (i - 1)) with (op + i) in Heq by lia; replace (ms + 1 + (i - 1)) with (ms + i) in Heq by lia.
Qed.

Lemma copy_match_ok dst op off len :
  0 < off ≤ op → 0 ≤ len → op + len ≤ zlen dst →
  ∃ dst', copy_match dst op off len = Ret dst' ∧ changed dst dst' op (op + len) ∧
    ∀ i, 0 ≤ i < len → dst'.[op + i] = dst'.[op - off + i].
Proof.
  intros Hoff Hlen Hl. unfold copy_match. destruct (Z.geb_spec off len) as [Hge|Hlt].
  - rewrite rd_block_ok by lia. cbn [mbind outcome_bind]. pose proof (zlen_sub_list dst (op - off) len ltac:(lia) Hlen ltac:(lia)) as E.
    rewrite wr_ok by lia. eexists. split; [done|]. pose proof (changed_splice dst op (sub_list dst (op - off) len) ltac:(lia) ltac:(lia)) as Hc.
    rewrite E in Hc. split; [done|]. intros i Hi. rewrite splice_in by lia. rewrite splice_out by lia. apply aget_sub_list; lia.
  - destruct (copy_bytes_ok (Z.to_nat len) dst op (op - off)) as (d & -> & Hc & Heq); [lia|lia|].
    rewrite Z2Nat.id in * by lia. by exists d.
Qed.

Lemma token_parts a b : 0 ≤ a → 0 ≤ b ≤ 15 → Z.shiftr (a * 16 + b) 4 = a ∧ Z.land (a * 16 + b) 0x0F = b.
Proof.
  intros Ha Hb. rewrite Z.shiftr_div_pow2 by lia. change 0x0F with (Z.ones 4). rewrite Z.land_ones by lia.
  change (2 ^ 4) with 16. split; div_lia.
Qed.

(** Literals: the first half of an iteration of the decoder. *)
Lemma wr_text text dst anchor n :
  0 ≤ anchor → 0 ≤ n → anchor + n ≤ zlen text → anchor + n ≤ zlen dst →
  (∀ j, 0 ≤ j < anchor → dst.[j] = text.[j]) →
  ∃ d, wr dst anchor (sub_list text anchor n) = Ret d ∧ zlen d = zlen dst ∧ ∀ j, 0 ≤ j < anchor + n → d.[j] = text.[j].
Proof.
  intros Ha Hn Hl Hd Heq. pose proof (zlen_sub_list text anchor n Ha Hn Hl) as E. rewrite wr_ok by lia.
  eexists. split; [done|]. split; [apply zlen_splice; lia|]. intros j Hj. destruct (decide (j < anchor)).
  - rewrite splice_out by lia. apply Heq. lia.
  - replace j with (anchor + (j - anchor)) by lia. rewrite splice_in by lia. apply aget_sub_list; lia.
Qed.

Lemma zlen_enc_pos seqs last : 0 < zlen (enc seqs last).
Proof.
  destruct seqs as [|s seqs]; cbn [enc].
  - rewrite zlen_enc_last. pose proof (zlen_nonneg last). pose proof (zlen_nonneg (ext (zlen last))). lia.
  - unfold enc_seq. rewrite !zlen_app. change (zlen [_]) with 1. pose proof (zlen_nonneg (ext (zlen (s_lits s)))).
    pose proof (zlen_nonneg (s_lits s)). pose proof (zlen_nonneg (ext (s_len s - 4))). pose proof (zlen_nonneg (enc seqs last)).
    change (zlen [s_off s mod 256; s_off s / 256]) with 2. lia.
Qed.

Lemma hdr_15 n : hdr n = 15 ↔ 15 ≤ n.
Proof. unfold hdr. destruct (Z.geb_spec n 15); lia. Qed.

Definition decoded (text dst : list Z) (oend : Z) (seqs : list seq) (r : outcome (list Z * Z)) : Prop :=
  ∃ dst' n, r = Ret (dst', n) ∧ zlen dst' = zlen dst ∧
    (n = -1 ∧ (Exists (λ s, s.(s_off) = 0) seqs ∨ oend < zlen text) ∨
     n = zlen text ∧ zlen text ≤ oend ∧ Forall (λ s, 0 < s.(s_off)) seqs ∧ ∀ j, 0 ≤ j < zlen text → dst'.[j] = text.[j]).

Lemma decoded_short text dst d oend seqs :
  zlen d = zlen dst → oend < zlen text → decoded text dst oend seqs (Ret (d, -1)).
Proof. intros Hd Ho. exists d, (-1). split; [done|]. split; [done|]. left. auto. Qed.

Lemma decode_last text src dst ip iend op oend fuel :
  0 ≤ op ≤ zlen text → holds_at src ip (enc_last (drop (Z.to_nat op) text)) →
  iend = ip + zlen (enc_last (drop (Z.to_nat op) text)) → op ≤ oend ≤ zlen dst →
  (∀ j, 0 ≤ j < op → dst.[j] = text.[j]) →
  decoded text dst oend [] (decompress_from (S fuel) src dst ip iend op oend).
Proof.
  set (l := drop (Z.to_nat op) text). intros Hop Hh -> Ho Heq. cbn [decompress_from].
  assert (zlen l = zlen text - op) as El by (unfold l; unfold zlen in Hop |- *; rewrite length_drop; lia).
  pose proof (zlen_ext_bound (zlen l) ltac:(lia)) as Hx. rewrite zlen_enc_last.
  rewrite (proj2 (Z.ltb_lt _ _)) by lia. unfold enc_last in Hh. destruct (holds_at_cons _ _ _ _ Hh) as [-> Ht].
  cbn [mbind outcome_bind]. destruct (token_parts (hdr (zlen l)) 0) as [Ea _]; [apply hdr_range; lia|lia|].
  rewrite Z.add_0_r in Ea. rewrite Ea. fold ([] ++ ext (zlen l) ++ l) in Ht. cbn [app] in Ht.
  destruct (holds_at_app _ _ _ _ Ht) as [Hext Hl].
  pose proof (read_len_ok src (ip + 1) (ip + (1 + zlen (ext (zlen l)) + zlen l)) 0 (zlen l) Hext ltac:(lia) ltac:(lia)) as Er.
  rewrite !Z.add_0_l in Er. rewrite Er. cbn [mbind outcome_bind].
  destruct (Z.gtb_spec (ip + 1 + zlen (ext (zlen l)) + zlen l) (ip + (1 + zlen (ext (zlen l)) + zlen l))); [lia|].
  destruct (Z.gtb_spec (op + zlen l) oend); [apply decoded_short; [done|lia]|]. cbn [orb]. rewrite (holds_at_block _ _ _ Hl). cbn [mbind outcome_bind].
  assert (sub_list text op (zlen l) = l) as Es.
  { unfold sub_list, l. rewrite take_ge; [done|]. unfold zlen. lia. }
  destruct (wr_text text dst op (zlen l)) as (d & Ew & Ed & Hd); [lia|lia|lia|lia|done|].
  rewrite Es in Ew. rewrite Ew. cbn [mbind outcome_bind].
  destruct (Z.geb_spec (ip + 1 + zlen (ext (zlen l)) + zlen l) (ip + (1 + zlen (ext (zlen l)) + zlen l))); [|lia].
  exists d, (op + zlen l). split; [done|]. split; [done|]. right. split; [lia|]. split; [lia|]. split; [constructor|]. intros j Hj. apply Hd. lia.
Qed.

Lemma decode_parse text anchor seqs last :
  parse text anchor seqs last → ∀ fuel src dst ip iend oend,
  holds_at src ip (enc seqs last) → iend = ip + zlen (enc seqs last) → anchor ≤ oend ≤ zlen dst →
  (∀ j, 0 ≤ j < anchor → dst.[j] = text.[j]) → iend - ip ≤ Z.of_nat fuel →
  decoded text dst oend seqs (decompress_from fuel src dst ip iend anchor oend).
Proof.
  induction 1 as [anchor Ha|anchor p off len seqs last Ha Hoff Hoffp Hlen Hfit Hmatch Hp IH]; intros fuel src dst ip iend oend Hh Hie Ho Heq Hf.
  { pose proof (zlen_enc_pos [] (drop (Z.to_nat anchor) text)). destruct fuel as [|fuel]; [lia|]. by apply decode_last. }
  set (s := {| s_lits := _ |}) in *. pose proof (zlen_enc_pos seqs last) as Hrest. cbn [enc] in Hie, Hh. rewrite zlen_app in Hie.
  set (n := p - anchor) in *. assert (zlen (s_lits s) = n) as En by (apply zlen_sub_list; lia).
  pose proof (zlen_enc_seq s) as Ez. rewrite En in Ez. change (s_len s) with len in Ez.
  pose proof (zlen_ext_bound n ltac:(lia)) as Hx1. pose proof (zlen_ext_bound (len - 4) ltac:(lia)) as Hx2.
  destruct fuel as [|fuel]; [lia|]. cbn [decompress_from]. rewrite (proj2 (Z.ltb_lt ip iend)) by lia.
  destruct (holds_at_app _ _ _ _ Hh) as [Hs Hr]. unfold enc_seq in Hs. rewrite En in Hs. cbn [s_off s_len s] in Hs. fold s in Hs.
  destruct (holds_at_cons _ _ _ _ Hs) as [-> Ht]. cbn [mbind outcome_bind]. cbn [app] in Ht.
  destruct (token_parts (hdr n) (hdr (len - 4))) as [Ea Eb]; [apply hdr_range; lia|apply hdr_range; lia|]. rewrite Ea, Eb.
  destruct (holds_at_app _ _ _ _ Ht) as [He1 Ht2]. destruct (holds_at_app _ _ _ _ Ht2) as [Hl Ht3].
  rewrite En in Ht3.
  change (off mod 256 :: off / 256 :: ext (len - 4)) with ([off mod 256] ++ [off / 256] ++ ext (len - 4)) in Ht3.
  destruct (holds_at_cons _ _ _ _ Ht3) as [Eo1 Ht4]. destruct (holds_at_cons _ _ _ _ Ht4) as [Eo2 He2].
  pose proof (read_len_ok src (ip + 1) iend 0 n He1 ltac:(lia) ltac:(lia)) as Er. rewrite !Z.add_0_l in Er. rewrite Er. cbn [mbind outcome_bind].
  set (ip1 := ip + 1 + zlen (ext n)) in *.
  destruct (Z.gtb_spec (ip1 + n) iend); [lia|]. destruct (Z.gtb_spec (anchor + n) oend); [apply decoded_short; [done|lia]|]. cbn [orb].
  pose proof (holds_at_block _ _ _ Hl) as Eblk. rewrite En in Eblk. rewrite Eblk. cbn [mbind outcome_bind].
  destruct (wr_text text dst anchor n) as (d & Ew & Ed & Hd); [lia|lia|lia|lia|done|].
  change (s_lits s) with (sub_list text anchor n). rewrite Ew. cbn [mbind outcome_bind].
  destruct (Z.geb_spec (ip1 + n) iend); [lia|]. destruct (Z.gtb_spec (ip1 + n + 2) iend); [lia|].
  unfold read16_le. rewrite Eo1. cbn [mbind outcome_bind]. rewrite Eo2. cbn [mbind outcome_bind].
  rewrite (lor_add _ _ 8) by (first [lia | apply Z.mod_pos_bound; lia | apply Z.div_pos; lia]).
  assert (off mod 256 + off / 256 * 2 ^ 8 = off) as -> by (pose proof (Z.div_mod off 256); lia).
  destruct (Z.eqb_spec off 0) as [->|Hoff0].
  { exists d, (-1). split; [done|]. split; [done|]. left. split; [done|]. left. by constructor. }
  rewrite (Z.add_comm (hdr (len - 4))). unfold LZ4_MIN_MATCH. replace (ip1 + n + 1 + 1) with (ip1 + n + 2) in He2 by lia.
  rewrite (read_len_ok src (ip1 + n + 2) iend 4 (len - 4) He2) by lia. cbn [mbind outcome_bind].
  replace (4 + (len - 4)) with len by lia. destruct (Z.ltb_spec (anchor + n - off) 0); [lia|].
  destruct (Z.gtb_spec (anchor + n + len) oend); [apply decoded_short; [lia|lia]|].
  destruct (copy_match_ok d (anchor + n) off len) as (d2 & -> & Hc & Hcp); [lia|lia|lia|]. cbn [mbind outcome_bind].
  replace (anchor + n + len) with (p + len) in * by lia. replace (anchor + n) with p in * by lia.
  assert (∀ i, 0 ≤ i ≤ len → ∀ j, 0 ≤ j < p + i → d2.[j] = text.[j]) as Htext.
  { intros i [Hi0 Hi]. revert Hi. pattern i. apply natlike_ind; [|clear i Hi0; intros i Hi0 IHi Hi|done].
    - intros _ j Hj. rewrite (proj2 Hc) by lia. apply Hd. lia.
    - intros j Hj. destruct (decide (j < p + i)); [by apply IHi; lia|]. replace j with (p + i) by lia.
      rewrite Hcp, Hmatch by lia. apply (IHi ltac:(lia)). lia. }
  destruct (IH fuel src d2 (ip1 + n + 2 + zlen (ext (len - 4))) iend oend) as (dst' & m & -> & Ez' & Hres).
  - replace (ip1 + n + 2 + zlen (ext (len - 4))) with (ip + zlen (enc_seq s)) by lia. exact Hr.
  - lia.
  - rewrite (proj1 Hc). lia.
  - apply (Htext len). lia.
  - lia.
  - exists dst', m. split; [done|]. split; [rewrite Ez', (proj1 Hc); done|].
    destruct Hres as [[-> Hex]|(-> & Hle & Hall & Hj)]; [left; split; [done|]; destruct Hex; [left; by right|by right]|right].
    split; [done|]. split; [done|]. split; [constructor; [cbn; lia|done]|done].
Qed.

(** ** The decoder on arbitrary input *)

Lemma read_ext_safe fuel : ∀ src ip iend len,
  bytes_ok src → 0 ≤ ip → iend ≤ zlen src → iend - ip ≤ Z.of_nat fuel →
  ∃ ip' len', read_ext fuel src ip iend len = Ret (ip', len') ∧ ip ≤ ip' ∧ (ip ≤ iend → ip' ≤ iend) ∧ len ≤ len'.
Proof.
  induction fuel as [|fuel IH]; intros src ip iend len Hb Hip Hi Hf; cbn [read_ext];
    destruct (Z.ltb_spec ip iend); try lia; try (exists ip, len; split; [done|lia]).
  rewrite rd_ok by lia. cbn [mbind outcome_bind]. pose proof (bytes_aget src ip Hb).
  destruct (Z.ltb_spec (src.[ip]) 255); [eexists _, _; split; [done|lia]|].
  destruct (IH src (ip + 1) iend (len + src.[ip])) as (ip' & len' & -> & Hr); [done|lia|lia|lia|].
  exists ip', len'. split; [done|lia].
Qed.

Lemma read_len_safe (c : bool) src ip iend len :
  bytes_ok src → 0 ≤ ip ≤ iend → iend ≤ zlen src →
  ∃ ip' len', (if c then read_ext (Z.to_nat iend) src ip iend len else Ret (ip, len)) = Ret (ip', len') ∧
    ip ≤ ip' ≤ iend ∧ len ≤ len'.
Proof.
  intros Hb Hip Hi. destruct c; [|exists ip, len; split; [done|lia]].
  destruct (read_ext_safe (Z.to_nat iend) src ip iend len) as (ip' & len' & -> & Hr); [done|lia|lia|lia|].
  exists ip', len'. split; [done|lia].
Qed.

Lemma decompress_from_safe fuel : ∀ src dst ip iend op oend,
  bytes_ok src → 0 ≤ ip → iend ≤ zlen src → 0 ≤ op ≤ oend → oend ≤ zlen dst → iend - ip ≤ Z.of_nat fuel →
  ∃ dst' n, decompress_from fuel src dst ip iend op oend = Ret (dst', n) ∧ changed dst dst' op oend ∧
    (n = -1 ∨ op ≤ n ≤ oend).
Proof.
  induction fuel as [|fuel IH]; intros src dst ip iend op oend Hb Hip Hi Hop Ho Hf; cbn [decompress_from];
    destruct (Z.ltb_spec ip iend); try lia; try (exists dst, op; split; [done|]; split; [apply changed_refl|lia]).
  rewrite rd_ok by lia. cbn [mbind outcome_bind]. pose proof (bytes_aget src ip Hb) as Htok. set (tok := src.[ip]) in *.
  assert (0 ≤ Z.shiftr tok 4) by (apply Z.shiftr_nonneg; lia). assert (0 ≤ Z.land tok 15) by (apply Z.land_nonneg; lia).
  destruct (read_len_safe (Z.shiftr tok 4 =? 15) src (ip + 1) iend (Z.shiftr tok 4)) as (ip1 & n & -> & Hip1 & Hn); [done|lia|lia|].
  cbn [mbind outcome_bind]. assert (∀ d, changed dst d op oend → ∃ dst' m, Ret (d, -1) = Ret (dst', m) ∧ changed dst dst' op oend ∧ (m = -1 ∨ op ≤ m ≤ oend)) as Herr.
  { intros d Hd. exists d, (-1). split; [done|]. split; [done|]. by left. }
  destruct (Z.gtb_spec (ip1 + n) iend); [apply Herr, changed_refl|]. destruct (Z.gtb_spec (op + n) oend); [apply Herr, changed_refl|].
  cbn [orb]. rewrite rd_block_ok by lia. cbn [mbind outcome_bind].
  pose proof (zlen_sub_list src ip1 n ltac:(lia) ltac:(lia) ltac:(lia)) as Es. rewrite wr_ok by lia. cbn [mbind outcome_bind].
  pose proof (changed_splice dst op (sub_list src ip1 n) ltac:(lia) ltac:(lia)) as Hc1. rewrite Es in Hc1.
  set (d1 := splice _ _ _) in *. pose proof (changed_weaken _ _ _ _ op oend Hc1 ltac:(lia) ltac:(lia)) as Hc1'.
  destruct (Z.geb_spec (ip1 + n) iend); [eexists _, _; split; [done|]; split; [done|lia]|].
  destruct (Z.gtb_spec (ip1 + n + 2) iend); [by apply Herr|]. unfold read16_le. rewrite !rd_ok by lia. cbn [mbind outcome_bind].
  pose proof (bytes_aget src (ip1 + n) Hb). pose proof (bytes_aget src (ip1 + n + 1) Hb). rewrite (lor_add _ _ 8) by lia.
  set (off := (_ + _ * 2 ^ 8)%Z). assert (0 ≤ off) by (unfold off; lia). clearbody off.
  destruct (Z.eqb_spec off 0); [by apply Herr|].
  destruct (read_len_safe (Z.land tok 15 =? 15) src (ip1 + n + 2) iend (Z.land tok 15 + LZ4_MIN_MATCH)) as (ip2 & len & -> & Hip2 & Hlen); [done|lia|lia|].
  cbn [mbind outcome_bind]. unfold LZ4_MIN_MATCH in Hlen. destruct (Z.ltb_spec (op + n - off) 0); [by apply Herr|].
  destruct (Z.gtb_spec (op + n + len) oend); [by apply Herr|].
  destruct (copy_match_ok d1 (op + n) off len) as (d2 & -> & Hc2 & _); [lia|lia|rewrite (proj1 Hc1); lia|]. cbn [mbind outcome_bind].
  destruct (IH src d2 ip2 iend (op + n + len) oend) as (d3 & m & -> & Hc3 & Hm); [done|lia|lia|lia|rewrite (proj1 Hc2), (proj1 Hc1); lia|lia|].
  exists d3, m. split; [done|]. split; [|lia].
  pose proof (changed_trans _ _ _ _ _ _ _ (changed_trans _ _ _ _ _ _ _ Hc1 Hc2) Hc3) as Hc.
  eapply changed_weaken; [exact Hc|lia|lia].
Qed.

Lemma holds_at_splice dst op l : 0 ≤ op → op + zlen l ≤ zlen dst → holds_at (splice dst op l) op l.
Proof. intros H0 Hl. split; [done|]. rewrite zlen_splice by done. split; [done|]. intros k Hk. by apply splice_in. Qed.

Lemma htable_init : htable_ok (replicate (Z.to_nat LZ4_HASH_SIZE) 0) 1.
Proof.
  split; [unfold zlen; rewrite length_replicate; done|]. intros h Hh. unfold LZ4_HASH_SIZE in *. rewrite aget_replicate by lia. lia.
Qed.

Lemma take_text (text dst : list Z) : zlen text ≤ zlen dst → (∀ j, 0 ≤ j < zlen text → dst.[j] = text.[j]) → take (length text) dst = text.
Proof.
  intros Hl Heq. apply array_eq.
  { unfold zlen in *. rewrite length_take. lia. }
  intros i Hi. unfold zlen in Hi. rewrite length_take in Hi. rewrite <- (Heq i) by (unfold zlen; lia).
  unfold aget. rewrite !list_lookup_total_alt, lookup_take_lt by lia. done.
Qed.

(** C23: the decoder is safe on every input: it terminates, reads nothing outside
    the bytes it was given, writes only to the first [dst_capacity] bytes of the
    output, and returns -1 or a size within the capacity. *)
Theorem lz4_decompress_safe src dst dst_capacity :
  bytes_ok src → 0 ≤ dst_capacity ≤ zlen dst →
  ∃ dst' n, lz4_decompress (Some src) (zlen src) (Some dst) dst_capacity = Ret (Some dst', n) ∧
    changed dst dst' 0 dst_capacity ∧ (n = -1 ∨ 0 ≤ n ≤ dst_capacity).
Proof.
  intros Hb Hd. unfold lz4_decompress. pose proof (zlen_nonneg src).
  destruct (decompress_from_safe (Z.to_nat (zlen src)) src dst 0 (zlen src) 0 dst_capacity) as (dst' & n & -> & Hc & Hn); [done|lia..|].
  exists dst', n. cbn [mbind outcome_bind]. done.
Qed.

(** The decoder implements the block format: whatever compressor wrote it,
    a block whose sequences describe [text] (literal runs of any length, matches
    that may overlap the text they produce, length extensions) is decoded to
    exactly [text]. *)
Theorem lz4_decodes_format text seqs last dst dst_capacity :
  parse text 0 seqs last → Forall (λ s, 0 < s.(s_off)) seqs → zlen text ≤ dst_capacity ≤ zlen dst →
  ∃ dst', lz4_decompress (Some (enc seqs last)) (zlen (enc seqs last)) (Some dst) dst_capacity = Ret (Some dst', zlen text) ∧
    take (length text) dst' = text.
Proof.
  intros Hp Hall Hd. unfold lz4_decompress. pose proof (zlen_enc_pos seqs last). pose proof (zlen_nonneg text).
  destruct (decode_parse text 0 seqs last Hp (Z.to_nat (zlen (enc seqs last))) (enc seqs last) dst 0 (zlen (enc seqs last)) dst_capacity)
    as (dst' & n & -> & Ez & Hres); [|done|lia|lia|lia|].
  { split; [done|]. split; [lia|]. done. }
  cbn [mbind outcome_bind]. destruct Hres as [[_ [Hex|Hex]]|(-> & _ & _ & Heq)]; [| lia |].
  { exfalso. apply Exists_exists in Hex as (s & Hs & E). rewrite Forall_forall in Hall. specialize (Hall s Hs). lia. }
  exists dst'. split; [done|]. apply take_text; [lia|done].
Qed.

Lemma compress_spec src dst cap :
  bytes_ok src → 0 < zlen src ≤ LZ4_MAX_INPUT_SIZE → 0 ≤ cap → roomy dst 0 cap (zlen src) →
  ∃ dst' n, lz4_compress (Some src) (zlen src) (Some dst) cap = Ret (Some dst', n) ∧ changed dst dst' 0 (cap + 1) ∧
    (n = -1 ∧ cap < room (zlen src) ∨ ∃ seqs last, parse src 0 seqs last ∧ n = zlen (enc seqs last) ∧ n ≤ cap + 1 ∧ n ≤ zlen dst ∧ holds_at dst' 0 (enc seqs last)).
Proof.
  intros Hb Hs Hc Hroomy. unfold lz4_compress. rewrite (proj2 (Z.eqb_neq _ 0)) by lia.
  destruct (Z.gtb_spec (zlen src) LZ4_MAX_INPUT_SIZE); [lia|].
  destruct (compress_from_spec (Z.to_nat (zlen src)) src dst 0 cap _ 0 1 Hb htable_init) as (dst' & n & -> & Ez & Hres); [lia|by rewrite Z.sub_0_r|lia..|].
  cbn [mbind outcome_bind]. exists dst', n. split; [done|]. destruct Hres as [(-> & Hout & Hno)|(seqs & last & Hp & -> & -> & Hn & Hn2)].
  - rewrite Z.sub_0_r in Hno. split; [split; [done|]|left; by split]. intros j Hj. apply Hout. lia.
  - rewrite Z.add_0_l in *. pose proof (zlen_nonneg (enc seqs last)). split.
    + eapply changed_weaken; [apply changed_splice; lia|lia|lia].
    + right. exists seqs, last. split_and!; [done|done|done|done|]. apply holds_at_splice; lia.
Qed.

(** The compressor terminates on every input up to its size limit and
    touches no byte after the one that follows the capacity: it returns -1, or a
    size of at most [dst_capacity + 1]. *)
Theorem lz4_compress_bounds src dst dst_capacity :
  bytes_ok src → 0 < zlen src ≤ LZ4_MAX_INPUT_SIZE → 0 ≤ dst_capacity < zlen dst →
  ∃ dst' n, lz4_compress (Some src) (zlen src) (Some dst) dst_capacity = Ret (Some dst', n) ∧
    changed dst dst' 0 (dst_capacity + 1) ∧ (n = -1 ∨ 0 < n ≤ dst_capacity + 1).
Proof.
  intros Hb Hs Hc. destruct (compress_spec src dst dst_capacity Hb Hs ltac:(lia) ltac:(left; lia)) as (dst' & n & E & Hch & Hn).
  exists dst', n. split; [done|]. split; [done|]. destruct Hn as [[? _]|(seqs & last & _ & -> & Hle & _ & _)]; [by left|right].
  pose proof (zlen_enc_pos seqs last). lia.
Qed.

(** The one byte of [lz4_compress_bounds] is real: 15 bytes without a match
    take 17 bytes of output (token, length extension, literals), the code counts
    16, and so writes past the end of a buffer of 16. *)
Theorem lz4_compress_overflow :
  lz4_compress (Some (seqZ 1 15)) 15 (Some (replicate 16 0)) 16 = Fault ∧
  match lz4_compress (Some (seqZ 1 15)) 15 (Some (replicate 17 0)) 16 with Ret (_, n) => n = 17 | _ => False end.
Proof. vm_compute. split; reflexivity. Qed.

(** C14: compression never corrupts data silently: what the compressor wrote is
    decoded, into any buffer that is large enough, to exactly the source, or the
    decoder rejects it with -1. *)
Theorem lz4_lossless src dst dst_capacity out out_capacity :
  bytes_ok src → 0 < zlen src ≤ LZ4_MAX_INPUT_SIZE → 0 ≤ dst_capacity < zlen dst →
  zlen src ≤ out_capacity ≤ zlen out →
  ∃ dst' n, lz4_compress (Some src) (zlen src) (Some dst) dst_capacity = Ret (Some dst', n) ∧
    (n = -1 ∨
     ∃ out' m, lz4_decompress (Some dst') n (Some out) out_capacity = Ret (Some out', m) ∧
       (m = -1 ∨ m = zlen src ∧ take (length src) out' = src)).
Proof.
  intros Hb Hs Hc Ho. destruct (compress_spec src dst dst_capacity Hb Hs ltac:(lia) ltac:(left; lia)) as (dst' & n & E & Hch & Hn).
  exists dst', n. split; [done|]. destruct Hn as [[? _]|(seqs & last & Hp & -> & Hle & _ & Hh)]; [by left|right].
  unfold lz4_decompress. pose proof (zlen_enc_pos seqs last).
  destruct (decode_parse src 0 seqs last Hp (Z.to_nat (zlen (enc seqs last))) dst' out 0 (zlen (enc seqs last)) out_capacity)
    as (out' & m & -> & Ez & Hres); [done|lia|lia|lia|lia|].
  cbn [mbind outcome_bind]. exists out', m. split; [done|]. destruct Hres as [[-> _]|(-> & _ & _ & Heq)]; [by left|right].
  split; [done|]. apply take_text; [lia|done].
Qed.

(** The bytes of an encoding. *)
Lemma ext_bytes n : 0 ≤ n → bytes_ok (ext n).
Proof.
  intros Hn. unfold ext. destruct (n >=? 15); [|constructor]. apply Forall_app. split.
  - apply Forall_replicate. lia.
  - constructor; [|constructor]. pose proof (Z.mod_pos_bound (n - 15) 255). lia.
Qed.

Lemma enc_bytes text anchor seqs last : bytes_ok text → parse text anchor seqs last → bytes_ok (enc seqs last).
Proof.
  intros Hb. induction 1 as [anchor Ha|anchor p off len seqs last Ha Hoff Hoffp Hlen Hfit Hmatch Hp IH]; cbn [enc].
  - unfold enc_last. pose proof (zlen_nonneg (drop (Z.to_nat anchor) text)) as Hz. pose proof (hdr_range _ Hz).
    constructor; [lia|]. apply Forall_app. split; [by apply ext_bytes|by apply Forall_drop].
  - apply Forall_app. split; [|done]. unfold enc_seq. cbn [s_lits s_off s_len].
    pose proof (zlen_nonneg (sub_list text anchor (p - anchor))) as Hz. pose proof (hdr_range _ Hz). pose proof (hdr_range (len - 4) ltac:(lia)).
    constructor; [lia|]. apply Forall_app. split; [by apply ext_bytes|].
    apply Forall_app. split; [by apply Forall_take, Forall_drop|].
    pose proof (Z.mod_pos_bound off 256 ltac:(lia)). assert (0 ≤ off / 256 < 256) by (split; [apply Z.div_pos; lia|apply Z.div_lt_upper_bound; lia]).
    repeat (constructor; [lia|]). apply ext_bytes. lia.
Qed.

Lemma holds_at_take p l : holds_at p 0 l → take (length l) p = l.
Proof.
  intros (_ & Hl & Hk). apply array_eq.
  { unfold zlen in *. rewrite length_take. lia. }
  intros i Hi. unfold zlen in Hi. rewrite length_take in Hi. rewrite <- (Hk i) by (unfold zlen; lia).
  unfold aget. rewrite !list_lookup_total_alt, lookup_take_lt by lia. done.
Qed.

Lemma take_holds_at p l : take (length l) p = l → holds_at p 0 l.
Proof.
  intros E. split; [done|]. assert (length l ≤ length p)%nat as Hle.
  { apply (f_equal length) in E. rewrite length_take in E. lia. }
  split; [unfold zlen; lia|]. intros k Hk. unfold zlen in Hk. unfold aget. rewrite !list_lookup_total_alt.
  replace (l !! Z.to_nat k) with (take (length l) p !! Z.to_nat k) by (by rewrite E). rewrite lookup_take_lt by lia. done.
Qed.

(** Whether the decoder accepts a block. *)
Definition accepted (code : list Z) (size : Z) : bool :=
  match lz4_decompress (Some code) (zlen code) (Some (replicate (Z.to_nat size) 0)) size with
  | Ret (_, m) => 0 <? m
  | _ => false
  end.

(** A buffer of [size + size / 255 + 2] bytes is always enough: the compressor
    neither gives up nor leaves it, and its output is decoded to the source, in
    a buffer that is large enough, or rejected. *)
Lemma lz4_pack src dst :
  bytes_ok src → 0 < zlen src ≤ LZ4_MAX_INPUT_SIZE → room (zlen src) ≤ zlen dst →
  ∃ dst' code, lz4_compress (Some src) (zlen src) (Some dst) (zlen dst) = Ret (Some dst', zlen code) ∧
    zlen dst' = zlen dst ∧ 0 < zlen code ≤ zlen dst ∧ take (length code) dst' = code ∧ bytes_ok code ∧
    ∀ blk out cap, take (length code) blk = code → 0 ≤ cap ≤ zlen out →
      ∃ out' m, lz4_decompress (Some blk) (zlen code) (Some out) cap = Ret (Some out', m) ∧ zlen out' = zlen out ∧
        if accepted code (zlen src) && (zlen src <=? cap) then m = zlen src ∧ take (length src) out' = src else m = -1.
Proof.
  intros Hb Hs Hd. assert (room (zlen src) ≤ zlen dst) as Hd' by done.
  destruct (compress_spec src dst (zlen dst) Hb Hs (zlen_nonneg dst) ltac:(by right)) as (dst' & n & E & Hch & [[_ Hno]|(seqs & last & Hp & -> & _ & Hle & Hh)]); [lia|].
  exists dst', (enc seqs last). pose proof (zlen_enc_pos seqs last) as Hpos. split; [done|]. split; [apply Hch|].
  split; [lia|]. split; [by apply holds_at_take|]. split; [by eapply enc_bytes|].
  assert (∀ blk out cap, take (length (enc seqs last)) blk = enc seqs last → 0 ≤ cap ≤ zlen out → decoded src out cap seqs
    (decompress_from (Z.to_nat (zlen (enc seqs last))) blk out 0 (zlen (enc seqs last)) 0 cap)) as Hdec.
  { intros blk out cap Hblk Hc. apply (decode_parse src 0 seqs last Hp); [by apply take_holds_at|lia|lia|lia|lia]. }
  intros blk out cap Hblk Hc. unfold accepted, lz4_decompress.
  assert (zlen (replicate (Z.to_nat (zlen src)) 0) = zlen src) as Ez by (unfold zlen at 1; rewrite length_replicate; lia).
  destruct (Hdec (enc seqs last) (replicate (Z.to_nat (zlen src)) 0) (zlen src)) as (o1 & m1 & -> & _ & H1); [by rewrite take_ge|rewrite Ez; lia|].
  destruct (Hdec blk out cap Hblk Hc) as (o2 & m2 & -> & Ez2 & H2). cbn [mbind outcome_bind]. exists o2, m2. split; [done|]. split; [done|].
  destruct H1 as [[-> [Hex|?]]|(-> & _ & Hall & _)]; [|lia|].
  - cbn. destruct H2 as [[-> _]|(_ & _ & Hall & _)]; [done|]. exfalso.
    apply Exists_exists in Hex as (s & Hin & E0). rewrite Forall_forall in Hall. specialize (Hall s Hin). lia.
  - rewrite (proj2 (Z.ltb_lt 0 (zlen src))) by lia. cbn [andb]. destruct H2 as [[-> [Hex|Hlt]]|(-> & Hle2 & _ & Heq)].
    + exfalso. apply Exists_exists in Hex as (s & Hin & E0). rewrite Forall_forall in Hall. specialize (Hall s Hin). lia.
    + by rewrite (proj2 (Z.leb_gt _ _)) by lia.
    + rewrite (proj2 (Z.leb_le _ _)) by lia. split; [done|]. apply take_text; [lia|done].
Qed.

(** The rejection in [lz4_lossless] happens: after a match the code records
    the position that follows it in the hash table, finds that very position
    when it looks it up next, and encodes the rest of the input as a match with
    offset 0, which no decoder accepts. *)
Theorem lz4_self_match :
  let text := [1; 2; 3; 4; 1; 2; 3; 4; 5; 6; 7; 8; 9] in
  match lz4_compress (Some text) 13 (Some (replicate 64 0)) 63 with
  | Ret (Some d, n) =>
      take (Z.to_nat n) d = [64; 1; 2; 3; 4; 4; 0; 1; 0; 0; 0] ∧
      match lz4_decompress (Some d) n (Some (replicate 64 0)) 64 with Ret (_, m) => m = -1 | _ => False end
  | _ => False
  end.
Proof. vm_compute. split; reflexivity. Qed.

Lemma bytes_ok_check p : forallb (λ b, (0 <=? b) && (b <? 256)) p = true → bytes_ok p.
Proof.
  intros Hp. apply Forall_forall. intros b Hb. rewrite forallb_forall in Hp. apply list_elem_of_In in Hb.
  specialize (Hp b Hb). bool_hyps. lia.
Qed.

Lemma lz4_decompress_safe_witness :
  ∃ dst' n, lz4_decompress (Some [255; 1; 2]) 3 (Some (replicate 8 0)) 8 = Ret (Some dst', n) ∧
    changed (replicate 8 0) dst' 0 8 ∧ (n = -1 ∨ 0 ≤ n ≤ 8).
Proof. apply (lz4_decompress_safe [255; 1; 2] (replicate 8 0) 8); [by apply bytes_ok_check|change (zlen (replicate 8 0)) with 8; lia]. Defined.

(** Seven times the byte 7, as one literal and an overlapping match. *)
Lemma demo_parse : parse (replicate 7 7) 0 [{| s_lits := [7]; s_off := 1; s_len := 6 |}] [].
Proof.
  apply (parse_seq (replicate 7 7) 0 1 1 6 [] []); [lia|lia|lia|lia|vm_compute; discriminate| |].
  - intros i Hi. unfold aget. rewrite !list_lookup_total_alt, !lookup_replicate_2 by lia. done.
  - apply (parse_last (replicate 7 7) 7). by vm_compute.
Qed.

Lemma lz4_decodes_format_witness :
  enc [{| s_lits := [7]; s_off := 1; s_len := 6 |}] [] = [18; 7; 1; 0; 0] ∧
  ∃ dst', lz4_decompress (Some [18; 7; 1; 0; 0]) 5 (Some (replicate 8 0)) 8 = Ret (Some dst', 7) ∧ take 7 dst' = replicate 7 7.
Proof.
  split; [reflexivity|].
  apply (lz4_decodes_format (replicate 7 7) [{| s_lits := [7]; s_off := 1; s_len := 6 |}] [] (replicate 8 0) 8 demo_parse);
    [by repeat constructor|by vm_compute].
Defined.

Definition demo_text : list Z := [1; 2; 3; 1; 2; 3; 1; 2; 3; 1; 2; 3].

Lemma lz4_compress_bounds_witness :
  ∃ dst' n, lz4_compress (Some demo_text) (zlen demo_text) (Some (replicate 32 0)) 31 = Ret (Some dst', n) ∧
    changed (replicate 32 0) dst' 0 (31 + 1) ∧ (n = -1 ∨ 0 < n ≤ 31 + 1).
Proof.
  apply lz4_compress_bounds.
  - by apply bytes_ok_check.
  - vm_compute. by split.
  - vm_compute. by split.
Defined.

Lemma lz4_lossless_witness :
  ∃ dst' n, lz4_compress (Some demo_text) (zlen demo_text) (Some (replicate 32 0)) 31 = Ret (Some dst', n) ∧
    (n = -1 ∨
     ∃ out' m, lz4_decompress (Some dst') n (Some (replicate 32 0)) 32 = Ret (Some out', m) ∧
       (m = -1 ∨ m = zlen demo_text ∧ take (length demo_text) out' = demo_text)).
Proof.
  apply lz4_lossless.
  - by apply bytes_ok_check.
  - vm_compute. by split.
  - vm_compute. by split.
  - vm_compute. by split.
Defined.
