(* ===== verification/EventLog.v ===== *)
(** * The event log ([src/agent/eventlog.c])

    A ring of 4096 records that keeps the most recent ones. Each operation runs
    under the log's spin lock, so it is one step. [timer_get_ms] is the argument
    [now]; a payload is a string without its terminator, [None] a null pointer. *)

From S2P Require Import Prelude CMem CFormat CArray Ring.
From stdpp Require Import base numbers list gmap.
From Stdlib Require Import (notations) String.
Open Scope Z_scope.

Definition EVENTLOG_CAPACITY : Z := 4096.
Definition EVENTLOG_PAYLOAD : Z := 192.

Record eventlog_record_t := {
  seq : Z; ts_ms : Z; type : Z; agent_id : Z; payload : list Z;
}.
Definition zero_record : eventlog_record_t :=
  {| seq := 0; ts_ms := 0; type := 0; agent_id := 0;
     payload := replicate (Z.to_nat EVENTLOG_PAYLOAD) 0 |}.
#[export] Instance eventlog_record_inhabited : Inhabited eventlog_record_t := populate zero_record.

Record eventlog := { g_ring : list eventlog_record_t; g_head : Z; g_count : Z; g_seq : Z }.

Definition eventlog_init : eventlog :=
  {| g_ring := replicate (Z.to_nat EVENTLOG_CAPACITY) zero_record;
     g_head := 0; g_count := 0; g_seq := 0 |}.

Definition eventlog_append (g : eventlog) (ty agent : Z) (pay : option (list Z)) (now : Z)
    : outcome eventlog :=
  let slot := u32 (g.(g_head) + g.(g_count)) mod EVENTLOG_CAPACITY in
  let count := if g.(g_count) <? EVENTLOG_CAPACITY then u32 (g.(g_count) + 1) else g.(g_count) in
  let head := if g.(g_count) <? EVENTLOG_CAPACITY then g.(g_head)
              else u32 (g.(g_head) + 1) mod EVENTLOG_CAPACITY in
  let r := g.(g_ring).[slot] in
  let n := u64 (g.(g_seq) + 1) in
  p ← match pay with
      | Some s => strncpy_term r.(payload) s
      | None => Ret (r.(payload).[0 <- 0])
      end;
  Ret {| g_ring := g.(g_ring).[slot <- {| seq := n; ts_ms := now; type := ty; agent_id := agent;
                                         payload := p |}];
         g_head := head; g_count := count; g_seq := n |}.

Definition eventlog_seq (g : eventlog) : Z := g.(g_seq).

(** The copy loop of [eventlog_snapshot]; [out] is the caller's array. *)
Fixpoint copy_from (n : nat) (g : eventlog) (out : list eventlog_record_t) (start i : Z)
    : list eventlog_record_t :=
  match n with
  | O => out
  | S n => copy_from n g (out.[i <- g.(g_ring).[u32 (start + i) mod EVENTLOG_CAPACITY]]) start (i + 1)
  end.

(** [None] is a null [out]. *)
Definition eventlog_snapshot (g : eventlog) (out : option (list eventlog_record_t)) (max_records : Z)
    : option (list eventlog_record_t) * Z :=
  match out with
  | None => (None, 0)
  | Some o =>
      if max_records =? 0 then (out, 0) else
      let n := if g.(g_count) <? max_records then g.(g_count) else max_records in
      let start := u32 (u32 (g.(g_head) + g.(g_count)) - n) mod EVENTLOG_CAPACITY in
      (Some (copy_from (Z.to_nat n) g o start 0), n)
  end.

(** ** The log as a sequence of events

    The abstract log is the list of all events appended since [eventlog_init];
    the ring holds the records of the last [EVENTLOG_CAPACITY] of them. *)

Record event := { ev_type : Z; ev_agent : Z; ev_pay : option (list Z); ev_now : Z }.
Definition event_ok (e : event) : Prop := match e.(ev_pay) with Some s => is_cstr s | None => True end.

(** What a reader of a record sees. *)
Record entry := { e_seq : Z; e_ts : Z; e_type : Z; e_agent : Z; e_text : list Z }.
Definition entry_of (r : eventlog_record_t) : entry :=
  {| e_seq := r.(seq); e_ts := r.(ts_ms); e_type := r.(type); e_agent := r.(agent_id);
     e_text := cstr r.(payload) |}.

(** The payload is cut to the 191 bytes that fit. *)
Definition event_entry (i : nat) (e : event) : entry :=
  {| e_seq := Z.of_nat i + 1; e_ts := e.(ev_now); e_type := e.(ev_type); e_agent := e.(ev_agent);
     e_text := take 191 (default [] e.(ev_pay)) |}.
Definition entries (evs : list event) : list entry := imap event_entry evs.
Definition last_n {A} (n : nat) (l : list A) : list A := drop (length l - n) l.

Fixpoint append_all (g : eventlog) (evs : list event) : outcome eventlog :=
  match evs with
  | [] => Ret g
  | e :: evs =>
      g ← eventlog_append g e.(ev_type) e.(ev_agent) e.(ev_pay) e.(ev_now); append_all g evs
  end.

Record log_ok (g : eventlog) (evs : list event) : Prop := {
  lo_ring : ring_ok EVENTLOG_CAPACITY g.(g_ring) g.(g_head) g.(g_count);
  lo_pay : Forall (λ r, length r.(payload) = Z.to_nat EVENTLOG_PAYLOAD) g.(g_ring);
  lo_count : g.(g_count) = Z.min (zlen evs) EVENTLOG_CAPACITY;
  lo_seq : g.(g_seq) = zlen evs;
  lo_view : entry_of <$> ring_view EVENTLOG_CAPACITY g.(g_ring) g.(g_head) g.(g_count) =
            last_n (Z.to_nat EVENTLOG_CAPACITY) (entries evs);
}.

Lemma init_log : log_ok eventlog_init [].
Proof.
  split; [|by apply Forall_replicate|done|done|done].
  split; [by vm_compute|]. cbn. unfold EVENTLOG_CAPACITY. lia.
Qed.

Lemma append_payload r pay :
  length r.(payload) = Z.to_nat EVENTLOG_PAYLOAD →
  match pay with Some s => is_cstr s | None => True end →
  ∃ p, match pay with
       | Some s => strncpy_term r.(payload) s
       | None => Ret (r.(payload).[0 <- 0])
       end = Ret p ∧ length p = Z.to_nat EVENTLOG_PAYLOAD ∧ cstr p = take 191 (default [] pay).
Proof.
  intros Hl Hp. destruct pay as [s|].
  - destruct (strncpy_term_spec r.(payload) s Hp) as (p & E & Hlp & Hc); [rewrite Hl; unfold EVENTLOG_PAYLOAD; lia|].
    exists p. rewrite Hlp, Hc, Hl. done.
  - eexists. split; [done|]. rewrite length_aset. split; [done|]. by destruct r.(payload).
Qed.

Lemma entries_snoc evs e : entries (evs ++ [e]) = entries evs ++ [event_entry (length evs) e].
Proof. unfold entries. rewrite imap_app. cbn. by rewrite Nat.add_0_r. Qed.

Lemma length_entries evs : length (entries evs) = length evs.
Proof. apply length_imap. Qed.

Lemma tail_of_drop {A} k (l : list A) : tail (drop k l) = drop (S k) l.
Proof. revert l. induction k as [|k IH]; intros [|x l]; [done|done|done|]. apply IH. Qed.

Lemma last_n_snoc {A} n (l : list A) x :
  last_n (S n) (l ++ [x]) = (if decide (length l ≤ n)%nat then l else tail (last_n (S n) l)) ++ [x].
Proof.
  unfold last_n. rewrite length_app. cbn [length]. case_decide.
  - replace (length l + 1 - S n)%nat with 0%nat by lia. done.
  - rewrite drop_app_le by lia. f_equal. rewrite tail_of_drop. f_equal. lia.
Qed.

Lemma append_ok g evs e :
  log_ok g evs → event_ok e → zlen evs + 1 < 2 ^ 64 →
  ∃ g', eventlog_append g e.(ev_type) e.(ev_agent) e.(ev_pay) e.(ev_now) = Ret g' ∧ log_ok g' (evs ++ [e]).
Proof.
  intros [Hr Hp Hc Hs Hv] He Hb. pose proof Hr as (Hl & Hh & Hcc). pose proof (zlen_nonneg evs).
  unfold EVENTLOG_CAPACITY in *. unfold eventlog_append. unfold EVENTLOG_CAPACITY.
  set (slot := u32 (g.(g_head) + g.(g_count)) mod 4096).
  assert (slot = (g.(g_head) + g.(g_count)) mod 4096) as Eslot by (unfold slot; by rewrite (wrap_id 32) by lia).
  assert (0 ≤ slot < 4096) as Hslot by (unfold slot; by apply Z.mod_pos_bound).
  destruct (append_payload (g.(g_ring).[slot]) e.(ev_pay)) as (p & -> & Hlp & Hcp); [|done|].
  { apply (Forall_aget (λ r, length r.(payload) = Z.to_nat EVENTLOG_PAYLOAD)); [done|lia]. }
  cbn [mbind outcome_bind]. eexists. split; [done|]. rewrite (wrap_id 64) by lia.
  set (r := {| seq := _ |}).
  assert (entry_of r = event_entry (length evs) e) as Er.
  { unfold entry_of, event_entry, r. cbn. rewrite Hs, Hcp. done. }
  assert (zlen (evs ++ [e]) = zlen evs + 1) as El by (by rewrite zlen_app).
  split; cbn [g_ring g_head g_count g_seq].
  - unfold EVENTLOG_CAPACITY. split; [by rewrite zlen_aset|]. bool_cases; rewrite ?(wrap_id 32) by lia.
    + split; lia.
    + split; [by apply Z.mod_pos_bound|lia].
  - by apply Forall_aset.
  - unfold EVENTLOG_CAPACITY. rewrite El. bool_cases; rewrite ?(wrap_id 32) by lia; lia.
  - by rewrite El, Hs.
  - rewrite Eslot. unfold EVENTLOG_CAPACITY. change (Z.to_nat 4096) with (S (Z.to_nat 4095)).
    rewrite entries_snoc, last_n_snoc, length_entries.
    destruct (Z.ltb_spec g.(g_count) 4096) as [Hlt|Hge].
    + rewrite (wrap_id 32) by lia. rewrite ring_push_room by done. rewrite fmap_app, Hv, decide_True by (unfold zlen in *; lia).
      unfold last_n. rewrite length_entries. replace (length evs - _)%nat with 0%nat by (unfold zlen in *; lia).
      cbn. by rewrite Er.
    + assert (g.(g_count) = 4096) as E4 by lia. rewrite E4 in Hr, Hv |- *. rewrite (wrap_id 32) by lia.
      rewrite ring_push_full by done. rewrite fmap_app. cbn [fmap list_fmap]. rewrite Er.
      rewrite decide_False by (unfold zlen in *; lia). f_equal.
      change (Z.to_nat 4096) with (S (Z.to_nat 4095)) in Hv. rewrite <- Hv.
      by destruct (ring_view _ _ _ _).
Qed.

Lemma append_all_ok evs' evs g :
  log_ok g evs → Forall event_ok evs' → zlen evs + zlen evs' < 2 ^ 64 →
  ∃ g', append_all g evs' = Ret g' ∧ log_ok g' (evs ++ evs').
Proof.
  revert evs g. induction evs' as [|e evs' IH]; intros evs g Hg Hf Hb.
  - exists g. by rewrite app_nil_r.
  - apply Forall_cons in Hf as [He Hf]. rewrite zlen_cons in Hb. pose proof (zlen_nonneg evs').
    destruct (append_ok g evs e Hg He) as (g1 & E & Hg1); [lia|]. cbn [append_all]. rewrite E.
    destruct (IH (evs ++ [e]) g1 Hg1 Hf) as (g' & E' & Hg'); [rewrite zlen_app; change (zlen [e]) with 1; lia|].
    exists g'. split; [done|]. by rewrite <- app_assoc in Hg'.
Qed.

(** ** The snapshot *)

Lemma copy_from_spec n g out start i :
  0 ≤ i → i + Z.of_nat n ≤ zlen out → 0 ≤ start → start + i + Z.of_nat n < 2 ^ 32 →
  zlen (copy_from n g out start i) = zlen out ∧
  ∀ j, 0 ≤ j < zlen out →
    (copy_from n g out start i).[j] =
      if decide (i ≤ j < i + Z.of_nat n) then g.(g_ring).[(start + j) mod EVENTLOG_CAPACITY] else out.[j].
Proof.
  revert out i. induction n as [|n IH]; intros out i Hi Hn Hs Hb; cbn [copy_from].
  - split; [done|]. intros j Hj. rewrite decide_False; [done|lia].
  - destruct (IH (out.[i <- g.(g_ring).[u32 (start + i) mod EVENTLOG_CAPACITY]]) (i + 1)) as [El Ej];
      [lia|rewrite zlen_aset; lia|lia|lia|].
    rewrite zlen_aset in El, Ej. split; [done|]. intros j Hj. rewrite Ej by done.
    destruct (decide (j = i)) as [->|Hne].
    + rewrite decide_False, aget_aset_eq, decide_True, wrap_id by lia. done.
    + rewrite aget_aset_ne by lia. repeat case_decide; done || lia.
Qed.

Lemma last_n_aget `{Inhabited A} n (l : list A) j :
  (n ≤ length l)%nat → 0 ≤ j < Z.of_nat n → (last_n n l).[j] = l.[zlen l - Z.of_nat n + j].
Proof.
  intros Hn Hj. unfold last_n, aget. rewrite lookup_total_drop. f_equal. unfold zlen. lia.
Qed.

Lemma last_n_last_n {A} n k (l : list A) : (n ≤ k)%nat → last_n n (last_n k l) = last_n n l.
Proof.
  intros Hn. unfold last_n. rewrite length_drop, drop_drop. f_equal. lia.
Qed.

Lemma last_n_fmap {A B} (f : A → B) n (l : list A) : f <$> last_n n l = last_n n (f <$> l).
Proof. unfold last_n. by rewrite fmap_drop, length_fmap. Qed.

(** A snapshot of [n] records is the last [n] of the ring. *)
Lemma snapshot_ring g out n :
  ring_ok EVENTLOG_CAPACITY g.(g_ring) g.(g_head) g.(g_count) → 0 ≤ n ≤ g.(g_count) → n ≤ zlen out →
  let start := u32 (u32 (g.(g_head) + g.(g_count)) - n) mod EVENTLOG_CAPACITY in
  let out' := copy_from (Z.to_nat n) g out start 0 in
  zlen out' = zlen out ∧
  take (Z.to_nat n) out' =
    last_n (Z.to_nat n) (ring_view EVENTLOG_CAPACITY g.(g_ring) g.(g_head) g.(g_count)) ∧
  ∀ j, n ≤ j < zlen out → out'.[j] = out.[j].
Proof.
  intros (Hl & Hh & Hc) Hn Ho start out'. unfold EVENTLOG_CAPACITY in *.
  assert (start = (g.(g_head) + g.(g_count) - n) mod 4096) as Es.
  { unfold start. by rewrite !(wrap_id 32) by (rewrite ?(wrap_id 32); lia). }
  assert (0 ≤ start < 4096) as Hst by (rewrite Es; by apply Z.mod_pos_bound).
  destruct (copy_from_spec (Z.to_nat n) g out start 0) as [El Ej]; [lia..|]. fold out' in El, Ej.
  set (v := ring_view _ _ _ _). assert (zlen v = g.(g_count)) as Hv by (apply zlen_ring_view; lia).
  assert (length v = Z.to_nat g.(g_count)) as Hv' by (unfold zlen in Hv; lia).
  split; [done|]. split.
  - apply array_eq.
    + unfold zlen in *. unfold last_n. rewrite length_take, length_drop. lia.
    + intros j Hj. unfold zlen in Hj. rewrite length_take in Hj.
      rewrite last_n_aget by lia. rewrite Hv, Z2Nat.id by lia. unfold v. rewrite aget_ring_view by lia.
      unfold aget at 1. rewrite lookup_total_take by lia. change (out' !!! Z.to_nat j) with (out'.[j]).
      rewrite Ej by (unfold zlen in *; lia). repeat (case_decide; [|lia]). unfold EVENTLOG_CAPACITY.
      rewrite Es, Zplus_mod_idemp_l.
      by replace (g.(g_head) + g.(g_count) - n + j) with (g.(g_head) + (g.(g_count) - n + j)) by lia.
  - intros j Hj. rewrite Ej by lia. rewrite decide_False; [done|lia].
Qed.

(** After any sequence of appends the log holds the last 4096 events: a
    snapshot returns how many records it copied, the smaller of the requested
    number and the number held, and the first entries of the caller's array are
    then exactly that many most recent events in order, each with its sequence
    number (counted from 1), time, type, agent and first 191 payload bytes; the
    rest of the array is unchanged. *)
Theorem eventlog_refines evs out max_records :
  Forall event_ok evs → zlen evs < 2 ^ 64 → 0 < max_records < 2 ^ 32 → max_records ≤ zlen out →
  ∃ g out' n,
    append_all eventlog_init evs = Ret g ∧ eventlog_seq g = zlen evs ∧
    eventlog_snapshot g (Some out) max_records = (Some out', n) ∧
    n = Z.min (Z.min (zlen evs) EVENTLOG_CAPACITY) max_records ∧
    entry_of <$> take (Z.to_nat n) out' = last_n (Z.to_nat n) (entries evs) ∧
    zlen out' = zlen out ∧ ∀ j, n ≤ j < zlen out → out'.[j] = out.[j].
Proof.
  intros Hf Hb Hm Ho. destruct (append_all_ok evs [] eventlog_init init_log Hf) as (g & E & Hg); [change (zlen (@nil event)) with 0; lia|].
  cbn [app] in Hg. destruct Hg as [Hr _ Hc Hs Hv]. pose proof Hr as (Hl & Hh & Hcc).
  set (n := Z.min (Z.min (zlen evs) EVENTLOG_CAPACITY) max_records).
  pose proof (zlen_nonneg evs). unfold EVENTLOG_CAPACITY in *.
  destruct (snapshot_ring g out n Hr) as (El & Et & Ej); [lia|lia|].
  eexists g, _, n. split; [done|]. split; [done|]. split.
  { unfold eventlog_snapshot. rewrite (proj2 (Z.eqb_neq max_records 0)) by lia.
    replace (if g.(g_count) <? max_records then g.(g_count) else max_records) with n by (bool_cases; lia).
    reflexivity. }
  split; [done|]. split; [|by split].
  unfold EVENTLOG_CAPACITY in *. rewrite Et, last_n_fmap, Hv. apply last_n_last_n. lia.
Qed.

Definition demo_events : list event :=
  [{| ev_type := 1; ev_agent := 7; ev_pay := Some (bytes "hello"); ev_now := 10 |};
   {| ev_type := 6; ev_agent := 0; ev_pay := None; ev_now := 12 |}].

Lemma eventlog_refines_witness :
  ∃ g out' n,
    append_all eventlog_init demo_events = Ret g ∧ eventlog_seq g = 2 ∧
    eventlog_snapshot g (Some [zero_record]) 1 = (Some out', n) ∧ n = 1 ∧
    entry_of <$> out' = [{| e_seq := 2; e_ts := 12; e_type := 6; e_agent := 0; e_text := [] |}].
Proof.
  destruct (eventlog_refines demo_events [zero_record] 1) as (g & out' & n & E & Hs & En & Hn & Ht & Hl & _).
  - apply List.Forall_cons; [|apply List.Forall_cons; [exact I|apply List.Forall_nil]].
    apply (bool_decide_unpack _). by vm_compute.
  - done.
  - done.
  - done.
  - exists g, out', n. split; [exact E|]. split; [exact Hs|]. split; [exact En|]. split; [exact Hn|].
    assert (n = 1) as E1 by exact Hn. rewrite E1 in Ht. rewrite take_ge in Ht; [exact Ht|].
    change (zlen [zero_record]) with 1 in Hl. unfold zlen in Hl. lia.
Defined.
