(* ===== verification/CapIpc.v ===== *)
(** * Capability tokens for IPC ([src/kernel/ipc/cap_ipc.c])

    A table of 32 endpoint slots; a grant fills the first empty slot with the next
    token. [None] for the message of [cap_ipc_deliver] is a null pointer. The
    log line of [cap_ipc_init] is not modelled. *)

From S2P Require Import Prelude.
From stdpp Require Import base numbers list gmap.
Open Scope Z_scope.

Definition CAP_IPC_MAX_ENDPOINTS : Z := 32.
Definition CAP_IPC_MAGIC : Z := 0xCA704970.

Record cap_ipc_endpoint_t := {
  magic : Z; token : Z; ep_class : Z; owner_domain : Z; revoked : bool;
}.
Definition zero_ep : cap_ipc_endpoint_t :=
  {| magic := 0; token := 0; ep_class := 0; owner_domain := 0; revoked := false |}.
#[export] Instance endpoint_inhabited : Inhabited cap_ipc_endpoint_t := populate zero_ep.

Record cap_ipc := { g_eps : list cap_ipc_endpoint_t; g_next_tok : Z }.

Definition cap_ipc_init (s : cap_ipc) : cap_ipc :=
  {| g_eps := replicate (Z.to_nat CAP_IPC_MAX_ENDPOINTS) zero_ep; g_next_tok := s.(g_next_tok) |}.

Fixpoint grant_from (n : nat) (s : cap_ipc) (ep owner i : Z) : cap_ipc * Z :=
  match n with
  | O => (s, 0)
  | S n =>
      if magic (s.(g_eps).[i]) =? 0 then
        let e := {| magic := CAP_IPC_MAGIC; token := s.(g_next_tok); ep_class := ep;
                    owner_domain := owner; revoked := false |} in
        ({| g_eps := s.(g_eps).[i <- e]; g_next_tok := u64 (s.(g_next_tok) + 1) |}, e.(token))
      else grant_from n s ep owner (i + 1)
  end.
Definition cap_ipc_grant (s : cap_ipc) (ep owner : Z) : cap_ipc * Z :=
  grant_from (Z.to_nat CAP_IPC_MAX_ENDPOINTS) s ep owner 0.

Fixpoint validate_from (n : nat) (s : cap_ipc) (tok expected i : Z) : bool :=
  match n with
  | O => false
  | S n =>
      let e := s.(g_eps).[i] in
      if (e.(magic) =? CAP_IPC_MAGIC) && (e.(token) =? tok) && negb e.(revoked) && (e.(ep_class) =? expected)
      then true else validate_from n s tok expected (i + 1)
  end.
Definition cap_ipc_validate (s : cap_ipc) (tok expected : Z) : bool :=
  if tok =? 0 then false else validate_from (Z.to_nat CAP_IPC_MAX_ENDPOINTS) s tok expected 0.

Definition set_revoked (e : cap_ipc_endpoint_t) : cap_ipc_endpoint_t :=
  {| magic := e.(magic); token := e.(token); ep_class := e.(ep_class);
     owner_domain := e.(owner_domain); revoked := true |}.
Fixpoint revoke_from (n : nat) (s : cap_ipc) (tok i : Z) : cap_ipc :=
  match n with
  | O => s
  | S n =>
      if token (s.(g_eps).[i]) =? tok
      then {| g_eps := s.(g_eps).[i <- set_revoked (s.(g_eps).[i])]; g_next_tok := s.(g_next_tok) |}
      else revoke_from n s tok (i + 1)
  end.
Definition cap_ipc_revoke (s : cap_ipc) (tok : Z) : cap_ipc :=
  revoke_from (Z.to_nat CAP_IPC_MAX_ENDPOINTS) s tok 0.

Fixpoint deliver_from (n : nat) (s : cap_ipc) (tok i : Z) : Z :=
  match n with
  | O => - EPERM
  | S n =>
      let e := s.(g_eps).[i] in
      if negb (e.(magic) =? CAP_IPC_MAGIC) || e.(revoked) || negb (e.(token) =? tok)
      then deliver_from n s tok (i + 1) else 0
  end.
Definition cap_ipc_deliver {msg} (s : cap_ipc) (tok : Z) (m : option msg) : Z :=
  match m with
  | None => - EINVAL
  | Some _ => deliver_from (Z.to_nat CAP_IPC_MAX_ENDPOINTS) s tok 0
  end.

(** ** The specification: a finite map from tokens to their state *)

Record cap := { c_class : Z; c_owner : Z; c_live : bool }.
Record spec := { caps : gmap Z cap; issued : Z }.

Inductive op := Init | GrantOp (ep owner : Z) | ValidateOp (tok ep : Z) | RevokeOp (tok : Z)
  | DeliverOp (tok : Z) (msg : option unit).
Definition run_op (s : cap_ipc) (o : op) : cap_ipc * Z :=
  match o with
  | Init => (cap_ipc_init s, 0)
  | GrantOp ep owner => cap_ipc_grant s ep owner
  | ValidateOp tok ep => (s, if cap_ipc_validate s tok ep then 1 else 0)
  | RevokeOp tok => (cap_ipc_revoke s tok, 0)
  | DeliverOp tok m => (s, cap_ipc_deliver s tok m)
  end.
Definition live (a : spec) (tok : Z) : bool :=
  match a.(caps) !! tok with Some c => c.(c_live) | None => false end.
Definition spec_op (a : spec) (o : op) : spec * Z :=
  match o with
  | Init => ({| caps := ∅; issued := a.(issued) |}, 0)
  | GrantOp ep owner =>
      if Z.of_nat (size a.(caps)) <? CAP_IPC_MAX_ENDPOINTS then
        let t := a.(issued) + 1 in
        ({| caps := <[t := {| c_class := ep; c_owner := owner; c_live := true |}]> a.(caps); issued := t |}, t)
      else (a, 0)
  | ValidateOp tok ep =>
      (a, match a.(caps) !! tok with
          | Some c => if c.(c_live) && (c.(c_class) =? ep) then 1 else 0
          | None => 0
          end)
  | RevokeOp tok =>
      ({| caps := alter (λ c, {| c_class := c.(c_class); c_owner := c.(c_owner); c_live := false |}) tok a.(caps);
          issued := a.(issued) |}, 0)
  | DeliverOp tok None => (a, - EINVAL)
  | DeliverOp tok (Some _) => (a, if live a tok then 0 else - EPERM)
  end.
Fixpoint run_ops (s : cap_ipc) (os : list op) : cap_ipc * list Z :=
  match os with
  | [] => (s, [])
  | o :: os => let '(s, r) := run_op s o in let '(s, rs) := run_ops s os in (s, r :: rs)
  end.
Fixpoint spec_ops (a : spec) (os : list op) : spec * list Z :=
  match os with
  | [] => (a, [])
  | o :: os => let '(a, r) := spec_op a o in let '(a, rs) := spec_ops a os in (a, r :: rs)
  end.

(** The slots below [used] hold the capabilities, one each. *)
Definition slot_cap (e : cap_ipc_endpoint_t) : cap :=
  {| c_class := e.(ep_class); c_owner := e.(owner_domain); c_live := negb e.(revoked) |}.
Record refines (s : cap_ipc) (a : spec) : Prop := {
  r_len : zlen s.(g_eps) = CAP_IPC_MAX_ENDPOINTS;
  r_next : s.(g_next_tok) = a.(issued) + 1 ∧ 0 ≤ a.(issued);
  r_size : Z.of_nat (size a.(caps)) ≤ CAP_IPC_MAX_ENDPOINTS;
  r_used : ∀ i, 0 ≤ i < Z.of_nat (size a.(caps)) → let e := s.(g_eps).[i] in
    e.(magic) = CAP_IPC_MAGIC ∧ 0 < e.(token) ≤ a.(issued) ∧ a.(caps) !! e.(token) = Some (slot_cap e);
  r_free : ∀ i, Z.of_nat (size a.(caps)) ≤ i < CAP_IPC_MAX_ENDPOINTS →
    magic (s.(g_eps).[i]) = 0 ∧ token (s.(g_eps).[i]) = 0;
  r_inj : ∀ i j, 0 ≤ i < Z.of_nat (size a.(caps)) → 0 ≤ j < Z.of_nat (size a.(caps)) →
    token (s.(g_eps).[i]) = token (s.(g_eps).[j]) → i = j;
  r_dom : ∀ t c, a.(caps) !! t = Some c →
    ∃ i, 0 ≤ i < Z.of_nat (size a.(caps)) ∧ token (s.(g_eps).[i]) = t;
}.

(** ** The loops *)

Lemma validate_from_spec n s tok ep i :
  validate_from n s tok ep i = true ↔ ∃ k, i ≤ k < i + Z.of_nat n ∧
    magic (s.(g_eps).[k]) = CAP_IPC_MAGIC ∧ token (s.(g_eps).[k]) = tok ∧
    revoked (s.(g_eps).[k]) = false ∧ ep_class (s.(g_eps).[k]) = ep.
Proof.
  revert i. induction n as [|n IH]; intros i; cbn [validate_from]; [split; [done|intros (k & ? & _); lia]|].
  destruct (_ && _) eqn:E.
  - split; [|done]. intros _. exists i. bool_hyps. split; [lia|done].
  - rewrite IH. split; intros (k & Hk & H); exists k; (split; [|done]); [lia|].
    destruct (decide (k = i)) as [->|]; [|lia]. destruct H as (H1 & H2 & H3 & H4).
    by rewrite H1, H2, H3, H4, !Z.eqb_refl in E.
Qed.

Lemma deliver_from_spec n s tok i :
  (deliver_from n s tok i = 0 ∧ ∃ k, i ≤ k < i + Z.of_nat n ∧
    magic (s.(g_eps).[k]) = CAP_IPC_MAGIC ∧ token (s.(g_eps).[k]) = tok ∧ revoked (s.(g_eps).[k]) = false) ∨
  (deliver_from n s tok i = - EPERM ∧ ∀ k, i ≤ k < i + Z.of_nat n →
    ¬ (magic (s.(g_eps).[k]) = CAP_IPC_MAGIC ∧ token (s.(g_eps).[k]) = tok ∧ revoked (s.(g_eps).[k]) = false)).
Proof.
  revert i. induction n as [|n IH]; intros i; cbn [deliver_from]; [right; split; [done|lia]|].
  destruct (_ || _) eqn:E.
  - destruct (IH (i + 1)) as [(E1 & k & Hk & H)|[E1 H]].
    + left. split; [done|]. exists k. split; [lia|done].
    + right. split; [done|]. intros k Hk (H1 & H2 & H3). destruct (decide (k = i)) as [->|]; [|apply (H k); [lia|done]].
      by rewrite H1, H2, H3, !Z.eqb_refl in E.
  - left. split; [done|]. exists i. bool_hyps. split; [lia|done].
Qed.

Lemma revoke_from_spec n s tok i :
  (∃ k, i ≤ k < i + Z.of_nat n ∧ token (s.(g_eps).[k]) = tok ∧ (∀ j, i ≤ j < k → token (s.(g_eps).[j]) ≠ tok) ∧
    revoke_from n s tok i =
      {| g_eps := s.(g_eps).[k <- set_revoked (s.(g_eps).[k])]; g_next_tok := s.(g_next_tok) |}) ∨
  (revoke_from n s tok i = s ∧ ∀ k, i ≤ k < i + Z.of_nat n → token (s.(g_eps).[k]) ≠ tok).
Proof.
  revert i. induction n as [|n IH]; intros i; cbn [revoke_from]; [right; split; [done|lia]|].
  destruct (Z.eqb_spec (token (s.(g_eps).[i])) tok) as [E|E].
  - left. exists i. split; [lia|]. split; [done|]. split; [lia|done].
  - destruct (IH (i + 1)) as [(k & Hk & Ht & Hlt & E1)|[E1 H]].
    + left. exists k. split; [lia|]. split; [done|]. split; [|done]. intros j Hj.
      destruct (decide (j = i)) as [->|]; [done|apply Hlt; lia].
    + right. split; [done|]. intros k Hk. destruct (decide (k = i)) as [->|]; [done|apply H; lia].
Qed.

Lemma grant_from_spec n s ep owner i m :
  i ≤ m ≤ i + Z.of_nat n → (∀ k, i ≤ k < m → magic (s.(g_eps).[k]) ≠ 0) →
  (m < i + Z.of_nat n → magic (s.(g_eps).[m]) = 0) →
  grant_from n s ep owner i =
    if m <? i + Z.of_nat n then
      ({| g_eps := s.(g_eps).[m <- {| magic := CAP_IPC_MAGIC; token := s.(g_next_tok); ep_class := ep;
                                      owner_domain := owner; revoked := false |}];
          g_next_tok := u64 (s.(g_next_tok) + 1) |}, s.(g_next_tok))
    else (s, 0).
Proof.
  revert i. induction n as [|n IH]; intros i Hm Hused Hfree; cbn [grant_from].
  - by rewrite (proj2 (Z.ltb_ge m (i + Z.of_nat 0))) by lia.
  - destruct (decide (m = i)) as [->|Hne].
    + rewrite Hfree by lia. cbn. by rewrite (proj2 (Z.ltb_lt i _)) by lia.
    + rewrite (proj2 (Z.eqb_neq _ 0)) by (apply Hused; lia). rewrite IH; [|lia|intros; apply Hused; lia|intros; apply Hfree; lia].
      by replace (i + 1 + Z.of_nat n) with (i + Z.of_nat (S n)) by lia.
Qed.

(** ** Each operation refines its specification *)

(** What a search for a token finds. *)
Lemma token_slot s a k tok :
  refines s a → 0 ≤ k < CAP_IPC_MAX_ENDPOINTS → tok ≠ 0 → token (s.(g_eps).[k]) = tok →
  k < Z.of_nat (size a.(caps)) ∧ magic (s.(g_eps).[k]) = CAP_IPC_MAGIC ∧
  a.(caps) !! tok = Some (slot_cap (s.(g_eps).[k])).
Proof.
  intros R Hk Ht E. destruct (decide (k < Z.of_nat (size a.(caps)))) as [Hlt|Hge].
  - destruct (r_used _ _ R k) as (Hm & _ & Hc); [lia|]. by rewrite E in Hc.
  - destruct (r_free _ _ R k) as [_ H0]; [lia|]. congruence.
Qed.

Lemma cap_token s a t c :
  refines s a → a.(caps) !! t = Some c →
  ∃ k, 0 ≤ k < Z.of_nat (size a.(caps)) ∧ token (s.(g_eps).[k]) = t ∧
       magic (s.(g_eps).[k]) = CAP_IPC_MAGIC ∧ c = slot_cap (s.(g_eps).[k]) ∧ 0 < t ≤ a.(issued).
Proof.
  intros R Hc. destruct (r_dom _ _ R t c Hc) as (k & Hk & Et). exists k.
  destruct (r_used _ _ R k Hk) as (Hm & Hr & Hl). rewrite Et in *. rewrite Hc in Hl. injection Hl as ->. done.
Qed.

Lemma validate_refines s a tok ep :
  refines s a → cap_ipc_validate s tok ep =
    match a.(caps) !! tok with Some c => c.(c_live) && (c.(c_class) =? ep) | None => false end.
Proof.
  intros R. unfold cap_ipc_validate. destruct (Z.eqb_spec tok 0) as [->|Hne].
  - destruct (a.(caps) !! 0) as [c|] eqn:Hc; [|done]. destruct (cap_token s a 0 c R Hc) as (k & _ & _ & _ & _ & ?). lia.
  - apply eq_bool_prop_intro. rewrite !Is_true_true, validate_from_spec. rewrite Z2Nat.id by done. split.
    + intros (k & Hk & Hm & Et & Er & Ee). destruct (token_slot s a k tok R ltac:(lia) Hne Et) as (_ & _ & ->).
      cbn. by rewrite Er, Ee, Z.eqb_refl.
    + destruct (a.(caps) !! tok) as [c|] eqn:Hc; [|done].
      destruct (cap_token s a tok c R Hc) as (k & Hk & Et & Hm & -> & _). cbn. intros Hb. bool_hyps.
      pose proof (r_size _ _ R). exists k. split; [lia|done].
Qed.

Lemma deliver_refines s a tok :
  refines s a →
  cap_ipc_deliver s tok (Some tt) = if live a tok then 0 else - EPERM.
Proof.
  intros R. unfold cap_ipc_deliver, live. pose proof (r_size _ _ R).
  destruct (deliver_from_spec (Z.to_nat CAP_IPC_MAX_ENDPOINTS) s tok 0) as [(-> & k & Hk & Hm & Et & Er)|[-> Hno]];
    rewrite Z2Nat.id in * by done.
  - destruct (decide (k < Z.of_nat (size a.(caps)))) as [Hlt|Hge].
    + destruct (r_used _ _ R k) as (_ & _ & Hc); [lia|]. rewrite Et in Hc. rewrite Hc. cbn. by rewrite Er.
    + destruct (r_free _ _ R k) as [H0 _]; [lia|]. by rewrite H0 in Hm.
  - destruct (a.(caps) !! tok) as [c|] eqn:Hc; [|done].
    destruct (cap_token s a tok c R Hc) as (k & Hk & Et & Hm & -> & _). cbn.
    destruct (revoked _) eqn:Er; [done|]. exfalso. apply (Hno k); [lia|done].
Qed.

Lemma grant_refines s a ep owner :
  refines s a → a.(issued) + 2 < 2 ^ 64 →
  (cap_ipc_grant s ep owner).2 = (spec_op a (GrantOp ep owner)).2 ∧
  refines (cap_ipc_grant s ep owner).1 (spec_op a (GrantOp ep owner)).1.
Proof.
  intros R Hb. pose proof R as [Hl [Hnx Hi0] Hsz Hu Hf Hinj Hd]. unfold cap_ipc_grant.
  set (m := Z.of_nat (size a.(caps))) in *.
  assert (0 ≤ m) by lia.
  rewrite (grant_from_spec _ s ep owner 0 m); rewrite ?Z2Nat.id by done; [|lia| |intros; by apply Hf; lia].
  2: { intros k Hk. destruct (Hu k Hk) as (-> & _). done. }
  cbn [spec_op]. fold m. rewrite Z.add_0_l. destruct (Z.ltb_spec m CAP_IPC_MAX_ENDPOINTS) as [Hlt|Hge]; [|by split].
  cbn [fst snd]. split; [done|].
  assert (a.(caps) !! (a.(issued) + 1) = None) as Hnone.
  { destruct (_ !! _) as [c|] eqn:Hc; [|done]. destruct (cap_token s a _ c R Hc) as (_ & _ & _ & _ & _ & ?). lia. }
  set (e := {| magic := _ |}).
  assert (∀ i, 0 ≤ i → (s.(g_eps).[m <- e]).[i] = if decide (m = i) then e else s.(g_eps).[i]) as He
    by (intros i Hi; apply aget_aset; lia).
  assert (size (<[a.(issued) + 1 := {| c_class := ep; c_owner := owner; c_live := true |}]> a.(caps)) = S (size a.(caps)))
    as Esz by (by apply map_size_insert_None).
  assert (∀ i, 0 ≤ i < m → token (s.(g_eps).[i]) ≠ a.(issued) + 1) as Hnew.
  { intros i Hi. destruct (Hu i Hi) as (_ & ? & _). lia. }
  split; cbn [g_eps g_next_tok caps issued]; rewrite ?Esz; fold m; try rewrite Nat2Z.inj_succ; fold m.
  - by rewrite zlen_aset.
  - rewrite wrap_id by lia. lia.
  - lia.
  - intros i Hi. rewrite He by lia. cbv zeta. case_decide as E.
    + cbn. rewrite Hnx. split; [done|]. split; [lia|]. apply lookup_insert_eq.
    + destruct (Hu i) as (H1 & H2 & H3); [lia|]. split; [done|]. split; [lia|].
      rewrite lookup_insert_ne; [done|]. intros Eq. apply (Hnew i); [lia|done].
  - intros i Hi. rewrite He by lia. rewrite decide_False by lia. apply Hf. lia.
  - intros i j Hi Hj. rewrite !He by lia. repeat case_decide; subst; cbn; rewrite ?Hnx; intros E; try done.
    + exfalso. apply (Hnew j); [lia|done].
    + exfalso. apply (Hnew i); [lia|done].
    + apply Hinj; [lia..|done].
  - intros t c Hc. apply lookup_insert_Some in Hc as [[<- _]|[Hne Hc]].
    + exists m. split; [lia|]. rewrite He, decide_True by lia. cbn. lia.
    + destruct (Hd t c Hc) as (i & Hi & Et). exists i. split; [lia|]. rewrite He, decide_False by lia. done.
Qed.

Definition unlive (c : cap) : cap := {| c_class := c.(c_class); c_owner := c.(c_owner); c_live := false |}.

Lemma size_alter_caps (f : cap → cap) k (m : gmap Z cap) : size (alter f k m) = size m.
Proof. by rewrite <- (size_dom (alter f k m)), dom_alter_L, size_dom. Qed.

Lemma revoke_refines s a tok :
  refines s a →
  refines (cap_ipc_revoke s tok) {| caps := alter unlive tok a.(caps); issued := a.(issued) |}.
Proof.
  intros R. pose proof R as [Hl [Hnx Hi0] Hsz Hu Hf Hinj Hd]. unfold cap_ipc_revoke.
  destruct (revoke_from_spec (Z.to_nat CAP_IPC_MAX_ENDPOINTS) s tok 0) as [(k & Hk & Et & _ & ->)|[-> Hno]];
    rewrite Z2Nat.id in * by done.
  - assert (∀ i, 0 ≤ i → (s.(g_eps).[k <- set_revoked (s.(g_eps).[k])]).[i] =
                         if decide (k = i) then set_revoked (s.(g_eps).[i]) else s.(g_eps).[i]) as He.
    { intros i Hi. rewrite aget_aset by lia. case_decide; by subst. }
    assert (∀ i, 0 ≤ i → token ((s.(g_eps).[k <- set_revoked (s.(g_eps).[k])]).[i]) = token (s.(g_eps).[i]) ∧
                         magic ((s.(g_eps).[k <- set_revoked (s.(g_eps).[k])]).[i]) = magic (s.(g_eps).[i])) as Htm.
    { intros i Hi. rewrite He by done. by case_decide. }
    split; cbn [g_eps g_next_tok caps issued]; rewrite ?size_alter_caps.
    + by rewrite zlen_aset.
    + done.
    + done.
    + intros i Hi. cbv zeta. destruct (Htm i) as [-> ->]; [lia|]. destruct (Hu i Hi) as (Hm & Hr & Hc).
      split; [done|]. split; [done|]. rewrite He by lia. destruct (decide (k = i)) as [E1|E1].
      * subst k. by rewrite <- Et, lookup_alter_eq, Hc.
      * rewrite lookup_alter_ne; [done|]. intros E2.
        destruct (decide (k < Z.of_nat (size a.(caps)))); [apply E1, Hinj; [lia|done|congruence]|].
        destruct (Hf k) as [_ H0]; [lia|]. lia.
    + intros i Hi. destruct (Htm i) as [-> ->]; [lia|]. by apply Hf.
    + intros i j Hi Hj. destruct (Htm i) as [-> _]; [lia|]. destruct (Htm j) as [-> _]; [lia|]. by apply Hinj.
    + intros t c Hc. assert (is_Some (a.(caps) !! t)) as [c' Hc'].
      { rewrite lookup_alter in Hc. case_decide as E; [rewrite E in Hc|by eexists]. by destruct (a.(caps) !! t). }
      destruct (Hd t c' Hc') as (i & Hi & E). exists i. split; [done|]. destruct (Htm i) as [-> _]; [lia|done].
  - assert (a.(caps) !! tok = None) as Hn.
    { destruct (_ !! _) as [c|] eqn:Hc; [|done]. destruct (cap_token s a tok c R Hc) as (k & Hk & E & _).
      exfalso. apply (Hno k); [lia|done]. }
    assert (alter unlive tok a.(caps) = a.(caps)) as ->; [|by destruct a].
    apply map_eq. intros t. rewrite lookup_alter. case_decide; subst; [by rewrite Hn|done].
Qed.

Lemma init_refines s n :
  s.(g_next_tok) = n + 1 → 0 ≤ n → refines (cap_ipc_init s) {| caps := ∅; issued := n |}.
Proof.
  intros Hn H0. split; cbn [cap_ipc_init g_eps g_next_tok caps issued]; rewrite ?map_size_empty; try done.
  - intros i Hi. lia.
  - intros i Hi. rewrite aget_replicate; [done|]. rewrite Z2Nat.id; [lia|done].
  - intros i j Hi. lia.
Qed.

Definition op_ok (a : spec) : Prop := a.(issued) + 2 < 2 ^ 64.

Lemma op_refines s a o :
  refines s a → op_ok a → (run_op s o).2 = (spec_op a o).2 ∧ refines (run_op s o).1 (spec_op a o).1.
Proof.
  intros R Hb. pose proof (r_next _ _ R) as [Hnx Hi0]. destruct o as [|ep ow|tok ep|tok|tok m]; cbn [run_op].
  - split; [done|]. by apply init_refines.
  - by apply grant_refines.
  - cbn [fst snd spec_op]. rewrite (validate_refines s a) by done. split; [|done]. by destruct (_ !! _).
  - split; [done|]. by apply revoke_refines.
  - destruct m as [[]|]; [|by split]. split; [|done]. by apply deliver_refines.
Qed.

Lemma spec_op_issued a o : a.(issued) ≤ (spec_op a o).1.(issued) ≤ a.(issued) + 1.
Proof.
  destruct o as [| | | |? [?|]]; cbn; try lia. destruct (_ <? _); cbn; lia.
Qed.

Lemma run_refines os s a :
  refines s a → a.(issued) + zlen os + 2 < 2 ^ 64 →
  (run_ops s os).2 = (spec_ops a os).2 ∧ refines (run_ops s os).1 (spec_ops a os).1.
Proof.
  revert s a. induction os as [|o os IH]; intros s a R Hb; [done|]. rewrite zlen_cons in Hb. pose proof (zlen_nonneg os).
  destruct (op_refines s a o R) as [E R1]; [unfold op_ok; lia|]. pose proof (spec_op_issued a o) as Hi.
  cbn [run_ops spec_ops]. destruct (run_op s o) as [s1 r1], (spec_op a o) as [a1 r1']. cbn [fst snd] in *. subst r1'.
  destruct (IH s1 a1 R1) as [E' R']; [lia|].
  destruct (run_ops s1 os) as [s2 rs], (spec_ops a1 os) as [a2 rs']. cbn [fst snd] in *. by subst.
Qed.

(** The state at boot: the table is zero and the first token is 1. *)
Definition boot_caps : cap_ipc := {| g_eps := replicate (Z.to_nat CAP_IPC_MAX_ENDPOINTS) zero_ep; g_next_tok := 1 |}.
Definition no_caps : spec := {| caps := ∅; issued := 0 |}.

Lemma boot_refines : refines boot_caps no_caps.
Proof. by apply (init_refines boot_caps 0). Qed.

(** C25: Any sequence of calls to the capability table, from boot, returns exactly
    what a finite map from tokens to capabilities returns: tokens are issued in
    order and never reissued; a token validates exactly for the class of its grant
    until it is revoked, whoever its owner is and whoever asks (the owner is stored
    and never read, and there are no rights); a message is accepted, and dropped,
    for a token of any class that is not revoked; and after 32 grants
    every grant fails until the table is initialised again, even if tokens were
    revoked. *)
Theorem cap_ipc_refines os :
  zlen os < 2 ^ 63 → (run_ops boot_caps os).2 = (spec_ops no_caps os).2.
Proof. intros Hb. apply run_refines; [apply boot_refines|]. cbn. lia. Qed.

(** A capability that is not live never becomes live again. *)
Definition dead (a : spec) (tok : Z) : Prop := live a tok = false ∧ tok ≤ a.(issued).

Lemma dead_step a o tok : dead a tok → dead (spec_op a o).1 tok.
Proof.
  intros [Hl Ht]. destruct o as [|ep ow|? ?|t|? [?|]]; cbn [spec_op fst]; try done.
  - case_match; [|done]. split; cbn; [|lia]. unfold live in *. cbn. rewrite lookup_insert_ne by lia. done.
  - split; [|done]. unfold live in *. cbn. rewrite lookup_alter. case_decide as E; [|done].
    rewrite E. by destruct (_ !! tok).
Qed.

Lemma dead_run os a tok : dead a tok → dead (spec_ops a os).1 tok.
Proof.
  revert a. induction os as [|o os IH]; intros a Hd; [done|]. cbn [spec_ops]. pose proof (dead_step a o tok Hd) as H1.
  destruct (spec_op a o) as [a1 r]. specialize (IH a1 H1). by destruct (spec_ops a1 os).
Qed.

(** Revocation is final: whatever calls came before and after it, a token
    that was issued and then revoked neither validates for any class nor receives
    a message. *)
Theorem revoke_final os os' tok ep :
  zlen os + zlen os' < 2 ^ 63 → 0 < tok < (run_ops boot_caps os).1.(g_next_tok) →
  let s := (run_ops boot_caps (os ++ RevokeOp tok :: os')).1 in
  cap_ipc_validate s tok ep = false ∧ cap_ipc_deliver s tok (Some tt) = - EPERM.
Proof.
  intros Hb Ht. pose proof (zlen_nonneg os). pose proof (zlen_nonneg os').
  destruct (run_refines os boot_caps no_caps boot_refines) as [_ R]; [cbn; lia|].
  destruct (run_refines (os ++ RevokeOp tok :: os') boot_caps no_caps boot_refines) as [_ R'];
    [rewrite zlen_app, zlen_cons; cbn; lia|].
  cbv zeta. assert (dead (spec_ops no_caps (os ++ RevokeOp tok :: os')).1 tok) as [Hd _].
  { assert (∀ a, (spec_ops a (os ++ RevokeOp tok :: os')).1 =
      (spec_ops (spec_op (spec_ops a os).1 (RevokeOp tok)).1 os').1) as ->.
    { clear. induction os as [|o os IH]; intros a; cbn [app spec_ops fst].
      - destruct (spec_op a (RevokeOp tok)) as [a1 r]. cbn [fst]. by destruct (spec_ops a1 os').
      - destruct (spec_op a o) as [a1 r]. specialize (IH a1).
        destruct (spec_ops a1 (os ++ RevokeOp tok :: os')), (spec_ops a1 os). done. }
    apply dead_run. split; cbn.
    - unfold live. cbn. rewrite lookup_alter_eq. by destruct (_ !! tok).
    - destruct (r_next _ _ R) as [E _]. lia. }
  rewrite (validate_refines _ _ tok ep R'), (deliver_refines _ _ tok R').
  rewrite Hd. split; [|done]. unfold live in Hd. destruct (_ !! tok); [|done]. by rewrite Hd.
Qed.

Definition demo_caps : list op := [GrantOp 1 0; GrantOp 3 2; ValidateOp 2 3; ValidateOp 2 1; RevokeOp 1; DeliverOp 1 (Some tt)].

Lemma cap_ipc_refines_witness : (run_ops boot_caps demo_caps).2 = [1; 2; 1; 0; 0; - EPERM].
Proof. rewrite (cap_ipc_refines demo_caps); [by vm_compute|done]. Defined.

Lemma revoke_final_witness :
  let s := (run_ops boot_caps ([GrantOp 1 0] ++ RevokeOp 1 :: [GrantOp 1 0])).1 in
  cap_ipc_validate s 1 1 = false ∧ cap_ipc_deliver s 1 (Some tt) = - EPERM.
Proof.
  refine (revoke_final [GrantOp 1 0] [GrantOp 1 0] 1 1 _ _); [reflexivity|].
  split; vm_compute; reflexivity.
Defined.
