(* ===== verification/Bitmap.v ===== *)
(** * Arrays of 64-bit words used as bit sets

    [pmm.c] and [slab.c] each keep a bitmap of this form, with their own copy of
    the set, clear, test and scan code. The lemmas here are about the bit
    operations on the word array; the two components' definitions are
    convertible to them. *)

From S2P Require Import Prelude.
From stdpp Require Import base numbers list.
Open Scope Z_scope.

Definition bits_set (l : list Z) (i : Z) : list Z :=
  aset l (i / 64) (Z.lor (l.[i / 64]) (Z.shiftl 1 (i mod 64))).
Definition bits_clear (l : list Z) (i : Z) : list Z :=
  aset l (i / 64) (Z.land (l.[i / 64]) (lnot64 (Z.shiftl 1 (i mod 64)))).
Definition bits_test (l : list Z) (i : Z) : bool :=
  nonzero (Z.land (Z.shiftr (l.[i / 64]) (i mod 64)) 1).

Definition words_ok (l : list Z) : Prop := Forall (λ w, 0 ≤ w < 2 ^ 64) l.

(** The array has a bit [i]. *)
Definition has_bit (l : list Z) (i : Z) : Prop := 0 ≤ i < 64 * zlen l.

Lemma has_bit_word l i : has_bit l i → 0 ≤ i / 64 < zlen l ∧ 0 ≤ i mod 64 < 64.
Proof. unfold has_bit. split; div_lia. Qed.

Lemma bits_test_testbit l i : 0 ≤ i → bits_test l i = Z.testbit (l.[i / 64]) (i mod 64).
Proof.
  intros Hi. unfold bits_test, nonzero.
  change 1 with (Z.ones 1). rewrite Z.land_ones by lia. change (2 ^ 1) with 2.
  rewrite Z.testbit_odd, Zmod_odd. by destruct (Z.odd _).
Qed.

Lemma bits_set_ok l i : words_ok l → has_bit l i → words_ok (bits_set l i).
Proof.
  intros Hok [Hw Hb]%has_bit_word. apply Forall_aset; [done|].
  pose proof (Forall_aget _ _ _ Hok Hw). apply lor_range; [lia|done|].
  apply shiftl_1_range. lia.
Qed.

Lemma bits_clear_ok l i : words_ok l → has_bit l i → words_ok (bits_clear l i).
Proof.
  intros Hok [Hw Hb]%has_bit_word. apply Forall_aset; [done|].
  pose proof (Forall_aget _ _ _ Hok Hw). apply land_range; [lia| |done].
  apply wrap_range. lia.
Qed.

Lemma same_bit i j : 0 ≤ i → 0 ≤ j → i / 64 = j / 64 → i mod 64 = j mod 64 → i = j.
Proof. intros. div_lia. Qed.

Lemma bits_test_set l i j :
  has_bit l i → 0 ≤ j → bits_test (bits_set l i) j = bool_decide (j = i) || bits_test l j.
Proof.
  intros Hi Hj. destruct (has_bit_word l i Hi) as [Hw Hb].
  assert (0 ≤ i) by apply Hi. rewrite !bits_test_testbit by lia. unfold bits_set.
  rewrite aget_aset by (done || (apply Z.div_pos; lia)).
  pose proof (Z.mod_pos_bound j 64). case_decide as E.
  - rewrite Z.lor_spec, shiftl_1_testbit by lia. rewrite E. rewrite orb_comm. f_equal.
    repeat case_bool_decide; try done; [exfalso; eauto using same_bit|subst; done].
  - rewrite bool_decide_false by (intros ->; done). done.
Qed.

Lemma bits_test_clear l i j :
  has_bit l i → 0 ≤ j →
  bits_test (bits_clear l i) j = negb (bool_decide (j = i)) && bits_test l j.
Proof.
  intros Hi Hj. destruct (has_bit_word l i Hi) as [Hw Hb].
  assert (0 ≤ i) by apply Hi. rewrite !bits_test_testbit by lia. unfold bits_clear.
  rewrite aget_aset by (done || (apply Z.div_pos; lia)).
  pose proof (Z.mod_pos_bound j 64). case_decide as E.
  - rewrite Z.land_spec, lnot64_testbit, shiftl_1_testbit by lia. rewrite E, andb_comm. f_equal.
    repeat case_bool_decide; try done; [exfalso; eauto using same_bit|subst; done].
  - rewrite bool_decide_false by (intros ->; done). done.
Qed.

(** What the scans learn from one word: all its bits are set, or [ctz] of its
    complement is its lowest clear bit. *)
Lemma word_scan l w :
  words_ok l → 0 ≤ w < zlen l →
  if l.[w] =? UINT64_MAX then ∀ j, w * 64 ≤ j < w * 64 + 64 → bits_test l j = true
  else
    let b := ctz64 (lnot64 (l.[w])) in
    0 ≤ b < 64 ∧ bits_test l (w * 64 + b) = false ∧
    ∀ j, w * 64 ≤ j < w * 64 + b → bits_test l j = true.
Proof.
  intros Hok Hw. pose proof (Forall_aget _ _ _ Hok Hw) as Hword. cbn beta in Hword.
  assert (∀ j, w * 64 ≤ j < w * 64 + 64 → bits_test l j = Z.testbit (l.[w]) (j - w * 64)) as Hbit.
  { intros j Hj. rewrite bits_test_testbit by lia.
    replace (j / 64) with w by div_lia. f_equal. div_lia. }
  destruct (Z.eqb_spec (l.[w]) UINT64_MAX) as [E|E].
  - intros j Hj. rewrite Hbit, E by lia. apply UINT64_MAX_testbit. lia.
  - destruct (ctz64_lnot _ Hword E) as (Hr & Hz & Hlow). cbn zeta. set (b := ctz64 _) in *.
    split; [done|]. split.
    + rewrite Hbit by lia. by replace (w * 64 + b - w * 64) with b by lia.
    + intros j Hj. rewrite Hbit by lia. apply Hlow. lia.
Qed.
