(* ===== verification/IList.v ===== *)
(** * Intrusive singly linked lists

    The slab caches and the run queues link array elements through a [next]
    field. [ilist nxt p l] says that following [nxt] from the head pointer [p]
    visits exactly the indices [l], and then reaches the null pointer. *)

From S2P Require Import Prelude.
From stdpp Require Import base numbers list.
Open Scope Z_scope.

Fixpoint ilist (nxt : Z → option Z) (p : option Z) (l : list Z) : Prop :=
  match l with
  | [] => p = None
  | i :: l => p = Some i ∧ ilist nxt (nxt i) l
  end.

Lemma ilist_ext nxt nxt' p l :
  (∀ i, i ∈ l → nxt' i = nxt i) → ilist nxt p l → ilist nxt' p l.
Proof.
  revert p. induction l as [|i l IH]; intros p Heq Hc; [done|]. destruct Hc as [-> Hc].
  split; [done|]. rewrite Heq by left. apply IH; [|done]. intros j Hj. apply Heq. by right.
Qed.

Lemma ilist_none nxt l : ilist nxt None l → l = [].
Proof. destruct l; [done|]. by intros [? _]. Qed.

(** Appending [c] by changing the link of the last element. *)
Lemma ilist_snoc nxt nxt' p l c i :
  ilist nxt p (l ++ [i]) → NoDup (l ++ [i]) → c ∉ l ++ [i] →
  nxt' i = Some c → nxt' c = None → (∀ j, j ∈ l → nxt' j = nxt j) →
  ilist nxt' p (l ++ [i] ++ [c]).
Proof.
  revert p. induction l as [|j l IH]; intros p Hc Hnd Hni Hi Hn Heq.
  - destruct Hc as [-> _]. cbn. by rewrite Hi, Hn.
  - destruct Hc as [-> Hc]. split; [done|]. rewrite Heq by left. fold ilist.
    apply IH; [done|by apply NoDup_cons in Hnd as [_ ?]|intros ?; apply Hni; by right|done|done|].
    intros k Hk. apply Heq. by right.
Qed.

(** A list without repetition of indices below [n] has at most [n] elements. *)
Lemma NoDup_range_length (l : list Z) n :
  NoDup l → (∀ i, i ∈ l → 0 ≤ i < n) → Z.of_nat (length l) ≤ Z.max 0 n.
Proof.
  intros Hnd Hr. assert (length l ≤ length (seqZ 0 n))%nat as Hlen.
  { apply submseteq_length, NoDup_submseteq; [done|]. intros i Hi. apply elem_of_seqZ.
    specialize (Hr i Hi). lia. }
  rewrite length_seqZ in Hlen. lia.
Qed.

(** Unlinking [a]: the head pointer or the link of its predecessor now skips it. *)
Lemma ilist_unlink nxt nxt' p p' l1 a l2 :
  ilist nxt p (l1 ++ a :: l2) → NoDup (l1 ++ a :: l2) →
  (∀ b, b ∈ l1 ++ l2 → last l1 ≠ Some b → nxt' b = nxt b) →
  match last l1 with None => p' = nxt a | Some q => p' = p ∧ nxt' q = nxt a end →
  ilist nxt' p' (l1 ++ l2).
Proof.
  revert p p'. induction l1 as [|b l1 IH]; intros p p' Hc Hnd Hb Hl.
  - cbn in Hl. subst p'. destruct Hc as [-> Hc]. eapply ilist_ext; [|exact Hc]. intros c Hin. by apply Hb.
  - destruct Hc as [-> Hc]. cbn in Hnd. apply NoDup_cons in Hnd as [Hni Hnd].
    assert (b ∉ l1 ∧ b ∉ l2) as [Hn1 Hn2] by (rewrite elem_of_app, elem_of_cons in Hni; tauto).
    assert (∀ c, c ∈ l1 ++ l2 → last l1 ≠ Some c → last (b :: l1) ≠ Some c) as Hlast.
    { intros c Hin Hlc. destruct l1; [|done]. cbn. by intros [= ->]. }
    assert (p' = Some b) as -> by (destruct (last (b :: l1)) eqn:El; [by destruct Hl|by apply last_None in El]).
    split; [done|]. apply (IH (nxt b)); [done|done| |].
    + intros c Hin Hlc. apply Hb; [by right|by apply Hlast].
    + destruct l1 as [|c l1]; [by destruct Hl|]. change (last (b :: c :: l1)) with (last (c :: l1)) in *.
      destruct (last (c :: l1)) as [q|] eqn:El; [|by apply last_None in El]. destruct Hl as [_ Hq]. split; [|done].
      apply Hb; [by left|]. intros [= ->]. apply Hn1. rewrite last_Some in El. destruct El as [l' ->].
      rewrite elem_of_app. right. by left.
Qed.
