(* ===== verification/FrameAllocator.v ===== *)
(** * The contract between the page allocator and its clients

    The slab allocator and the paging code call [pmm_alloc_page],
    [pmm_alloc_pages] and the two free functions, and rely on nothing else of
    [pmm.c]. The class states what they rely on: runs of frames come out of a
    set of free frames, a failed allocation returns 0 and changes nothing, and
    frame 0 is never handed out, so that 0 is not a valid address. *)

From S2P Require Import Prelude.
From stdpp Require Import base numbers list gmap.
Open Scope Z_scope.

(** The [c] frames that start at frame [s]. *)
Definition frames (s c : Z) : gset Z := list_to_set (seqZ s c).

Lemma elem_of_frames s c i : i ∈ frames s c ↔ s ≤ i < s + c.
Proof. unfold frames. by rewrite elem_of_list_to_set, elem_of_seqZ. Qed.

(** Frames are numbered below [2 ^ 20] (the first 4 GiB). *)
Definition MAX_FRAMES : Z := 2 ^ 20.

Class FrameAllocator (A : Type) := {
  fa_inv : A → Prop;
  fa_size : A → Z; (** the number of frames of the machine *)
  fa_free : A → gset Z;
  fa_alloc : A → Z → A * Z;
  fa_release : A → Z → Z → A;
  fa_size_max : ∀ a, fa_inv a → fa_size a ≤ MAX_FRAMES;
  fa_free_range : ∀ a f, fa_inv a → f ∈ fa_free a → 0 < f < fa_size a;
  fa_alloc_spec : ∀ a c,
    fa_inv a → 0 < c < 2 ^ 64 →
    let '(a', pa) := fa_alloc a c in
    fa_inv a' ∧ fa_size a' = fa_size a ∧
    ((pa = 0 ∧ a' = a) ∨
     ∃ f, 0 < f ∧ f + c ≤ fa_size a ∧ pa = f * PAGE_SIZE ∧
          frames f c ⊆ fa_free a ∧ fa_free a' = fa_free a ∖ frames f c);
  (** The frames given back are [frames f c], those already free included; a
      frame the machine does not have is skipped. *)
  fa_release_spec : ∀ a f c,
    fa_inv a → 0 < f → 0 ≤ c →
    let a' := fa_release a (f * PAGE_SIZE) c in
    fa_inv a' ∧ fa_size a' = fa_size a ∧
    fa_free a' = fa_free a ∪ filter (λ i, i < fa_size a) (frames f c);
}.
