(* ===== verification/Pmm.v ===== *)
(** * The physical page allocator ([src/kernel/mm/pmm.c])

    One bit per page of the first 4 GiB, set when the page is in use, and a
    counter of free pages. Every operation runs under [pmm.lock], so it is one
    step of the model and the lock word is left out of the state. *)

From S2P Require Import Prelude Bitmap FrameAllocator.
From stdpp Require Import base numbers list gmap.
Open Scope Z_scope.

Definition PMM_MAX_PAGES : Z := 2 ^ 20.

Record pmm_t := { bitmap : list Z; total_pages : Z; free_pages : Z }.

Definition with_bitmap (p : pmm_t) (b : list Z) : pmm_t :=
  {| bitmap := b; total_pages := p.(total_pages); free_pages := p.(free_pages) |}.
Definition with_free (p : pmm_t) (f : Z) : pmm_t :=
  {| bitmap := p.(bitmap); total_pages := p.(total_pages); free_pages := f |}.

(** ** Bitmap helpers *)

Definition bm_set (p : pmm_t) (page : Z) : pmm_t :=
  with_bitmap p (aset p.(bitmap) (page / 64)
    (Z.lor (p.(bitmap).[page / 64]) (Z.shiftl 1 (page mod 64)))).

Definition bm_clear (p : pmm_t) (page : Z) : pmm_t :=
  with_bitmap p (aset p.(bitmap) (page / 64)
    (Z.land (p.(bitmap).[page / 64]) (lnot64 (Z.shiftl 1 (page mod 64))))).

Definition bm_test (p : pmm_t) (page : Z) : bool :=
  nonzero (Z.land (Z.shiftr (p.(bitmap).[page / 64]) (page mod 64)) 1).

(** [for (i = start; i < start + count && i < PMM_MAX_PAGES; i++)]; the bound
    [start + count] is a 64-bit sum. *)
Definition range_len (start count : Z) : nat :=
  Z.to_nat (Z.min (u64 (start + count)) PMM_MAX_PAGES - start).

Fixpoint bm_set_from (n : nat) (p : pmm_t) (i : Z) : pmm_t :=
  match n with
  | O => p
  | S n => bm_set_from n (bm_set p i) (i + 1)
  end.
Definition bm_set_range (p : pmm_t) (start count : Z) : pmm_t :=
  bm_set_from (range_len start count) p start.

Fixpoint bm_clear_from (n : nat) (p : pmm_t) (i : Z) : pmm_t :=
  match n with
  | O => p
  | S n => bm_clear_from n (bm_clear p i) (i + 1)
  end.
Definition bm_clear_range (p : pmm_t) (start count : Z) : pmm_t :=
  bm_clear_from (range_len start count) p start.

Fixpoint find_free_loop (n : nat) (p : pmm_t) (i run start count : Z) : Z :=
  match n with
  | O => UINT64_MAX
  | S n =>
      if bm_test p i then find_free_loop n p (i + 1) 0 (i + 1) count
      else
        let run := run + 1 in
        if run =? count then start else find_free_loop n p (i + 1) run start count
  end.
Definition bm_find_free (p : pmm_t) (from count : Z) : Z :=
  find_free_loop (Z.to_nat (p.(total_pages) - from)) p from 0 from count.

Fixpoint first_free_loop (n : nat) (p : pmm_t) (w : Z) : Z :=
  match n with
  | O => UINT64_MAX
  | S n =>
      if negb (p.(bitmap).[w] =? UINT64_MAX) then
        let bit := ctz64 (lnot64 (p.(bitmap).[w])) in
        let page := w * 64 + bit in
        if page <? p.(total_pages) then page else first_free_loop n p (w + 1)
      else first_free_loop n p (w + 1)
  end.
Definition bm_find_first_free (p : pmm_t) : Z :=
  first_free_loop (Z.to_nat ((p.(total_pages) + 63) / 64)) p 0.

(** ** Initialisation from the boot information *)

Definition MMAP_USABLE : Z := 0.
Record mmap_entry_t := { base : Z; length_ : Z; type : Z }.
Record boot_info_t := {
  mmap : list mmap_entry_t;
  kernel_phys_base : Z;
  kernel_size : Z;
  total_memory : Z;
}.

(** One turn of the loop over the memory map (lines 84-102). *)
Definition init_region (p : pmm_t) (e : mmap_entry_t) : pmm_t :=
  if negb (e.(type) =? MMAP_USABLE) then p else
  let b := ALIGN_UP e.(base) PAGE_SIZE in
  let end_ := ALIGN_DOWN (u64 (e.(base) + e.(length_))) PAGE_SIZE in
  if end_ <=? b then p else
  let start_page := b / PAGE_SIZE in
  let num_pages := (end_ - b) / PAGE_SIZE in
  let num_pages := if u64 (start_page + num_pages) >? p.(total_pages)
                   then u64 (p.(total_pages) - start_page) else num_pages in
  let p := bm_clear_range p start_page num_pages in
  with_free p (u64 (p.(free_pages) + num_pages)).

(** [if (!bm_test(i)) { bm_set(i); pmm.free_pages--; }] over [n] pages. *)
Fixpoint reserve_from (n : nat) (p : pmm_t) (i : Z) : pmm_t :=
  match n with
  | O => p
  | S n =>
      let p := if negb (bm_test p i)
               then with_free (bm_set p i) (u64 (p.(free_pages) - 1)) else p in
      reserve_from n p (i + 1)
  end.

Definition pmm_init (bi : boot_info_t) : pmm_t :=
  let total := bi.(total_memory) / PAGE_SIZE in
  let total := if total >? PMM_MAX_PAGES then PMM_MAX_PAGES else total in
  let p := {| bitmap := replicate (Z.to_nat (PMM_MAX_PAGES / 64)) UINT64_MAX;
              total_pages := total; free_pages := 0 |} in
  let p := fold_left init_region bi.(mmap) p in
  let k_start := bi.(kernel_phys_base) / PAGE_SIZE in
  let k_pages := ALIGN_UP bi.(kernel_size) PAGE_SIZE / PAGE_SIZE in
  let p := reserve_from (Z.to_nat (Z.min (u64 (k_start + k_pages)) p.(total_pages) - k_start))
             p k_start in
  let low_pages := (1024 * 1024) / PAGE_SIZE in
  reserve_from (Z.to_nat (Z.min low_pages p.(total_pages))) p 0.

(** ** Allocation and release *)

Definition pmm_alloc_page (p : pmm_t) : pmm_t * Z :=
  let page := bm_find_first_free p in
  if page =? UINT64_MAX then (p, 0) else
  let p := bm_set p page in
  (with_free p (u64 (p.(free_pages) - 1)), u64 (page * PAGE_SIZE)).

Definition pmm_alloc_pages (p : pmm_t) (count : Z) : pmm_t * Z :=
  if count =? 0 then (p, 0) else
  if count =? 1 then pmm_alloc_page p else
  let start := bm_find_free p 0 count in
  if start =? UINT64_MAX then (p, 0) else
  let p := bm_set_range p start count in
  (with_free p (u64 (p.(free_pages) - count)), u64 (start * PAGE_SIZE)).

(** [if (bm_test(page)) { bm_clear(page); pmm.free_pages++; }] *)
Definition release (p : pmm_t) (page : Z) : pmm_t :=
  if bm_test p page then with_free (bm_clear p page) (u64 (p.(free_pages) + 1)) else p.

Definition pmm_free_page (p : pmm_t) (paddr : Z) : pmm_t :=
  let page := paddr / PAGE_SIZE in
  if page >=? p.(total_pages) then p else release p page.

Fixpoint free_loop (n : nat) (p : pmm_t) (page : Z) : pmm_t :=
  match n with
  | O => p
  | S n => if page >=? p.(total_pages) then p else free_loop n (release p page) (u64 (page + 1))
  end.
Definition pmm_free_pages (p : pmm_t) (paddr count : Z) : pmm_t :=
  free_loop (Z.to_nat count) p (paddr / PAGE_SIZE).

Definition pmm_get_free_pages (p : pmm_t) : Z := p.(free_pages).
Definition pmm_get_total_pages (p : pmm_t) : Z := p.(total_pages).

(** ** Reading the bitmap *)

Definition pmm_ok (p : pmm_t) : Prop :=
  zlen p.(bitmap) = PMM_MAX_PAGES / 64 ∧
  Forall (λ w, 0 ≤ w < 2 ^ 64) p.(bitmap) ∧
  0 ≤ p.(total_pages) ≤ PMM_MAX_PAGES.

(** The page numbers the bitmap has a bit for. *)
Definition in_bitmap (i : Z) : Prop := 0 ≤ i < PMM_MAX_PAGES.

Lemma in_bitmap_has_bit p i : pmm_ok p → in_bitmap i → has_bit p.(bitmap) i.
Proof. intros (Hl & _) Hi. unfold in_bitmap, has_bit, PMM_MAX_PAGES in *. rewrite Hl.
  change (2 ^ 20 / 64) with 16384. lia.
Qed.

Lemma bm_set_ok p i : pmm_ok p → in_bitmap i → pmm_ok (bm_set p i).
Proof.
  intros Hok Hi. pose proof (in_bitmap_has_bit p i Hok Hi). destruct Hok as (Hl & HF & Ht).
  split; [by cbn; rewrite zlen_aset|]. split; [by apply bits_set_ok|done].
Qed.

Lemma bm_clear_ok p i : pmm_ok p → in_bitmap i → pmm_ok (bm_clear p i).
Proof.
  intros Hok Hi. pose proof (in_bitmap_has_bit p i Hok Hi). destruct Hok as (Hl & HF & Ht).
  split; [by cbn; rewrite zlen_aset|]. split; [by apply bits_clear_ok|done].
Qed.

Lemma bm_test_set p i j :
  pmm_ok p → in_bitmap i → 0 ≤ j →
  bm_test (bm_set p i) j = bool_decide (j = i) || bm_test p j.
Proof. intros Hok Hi. apply bits_test_set. by apply in_bitmap_has_bit. Qed.

Lemma bm_test_clear p i j :
  pmm_ok p → in_bitmap i → 0 ≤ j →
  bm_test (bm_clear p i) j = negb (bool_decide (j = i)) && bm_test p j.
Proof. intros Hok Hi. apply bits_test_clear. by apply in_bitmap_has_bit. Qed.

(** ** The searches *)

Definition free_at (p : pmm_t) (i : Z) : Prop := bm_test p i = false.

(** Some page of the window of [count] pages from [s] is in use. *)
Definition blocked (p : pmm_t) (s count : Z) : Prop :=
  ∃ j, s ≤ j < s + count ∧ bm_test p j = true.

Lemma find_free_loop_spec n p from i run start count :
  0 < count → from ≤ start → start + run = i → 0 ≤ run < count →
  i + Z.of_nat n = p.(total_pages) →
  (∀ j, start ≤ j < i → free_at p j) →
  (∀ s, from ≤ s < start → blocked p s count) →
  let r := find_free_loop n p i run start count in
  (from ≤ r ∧ r + count ≤ p.(total_pages) ∧ (∀ j, r ≤ j < r + count → free_at p j) ∧
   (∀ s, from ≤ s < r → blocked p s count)) ∨
  (r = UINT64_MAX ∧ ∀ s, from ≤ s → s + count ≤ p.(total_pages) → blocked p s count).
Proof.
  revert i run start. induction n as [|n IH]; intros i run start Hc Hfs Hsr Hrun Hn Hfree Hbl;
    cbn [find_free_loop].
  - right. split; [done|]. intros s Hs Hsc. apply Hbl. lia.
  - destruct (bm_test p i) eqn:Hi.
    + apply IH; [lia..|]. intros s Hs.
      destruct (decide (s < start)); [apply Hbl; lia|]. exists i. split; [lia|done].
    + destruct (Z.eqb_spec (run + 1) count) as [E|E].
      * left. split; [done|]. split; [lia|]. split; [|done]. intros j Hj.
        destruct (decide (j = i)) as [->|]; [done|apply Hfree; lia].
      * apply IH; [lia..| |done]. intros j Hj.
        destruct (decide (j = i)) as [->|]; [done|apply Hfree; lia].
Qed.

(** First fit: the lowest window of [count] free pages, or none exists. *)
Lemma bm_find_free_spec p count :
  pmm_ok p → 0 < count →
  let r := bm_find_free p 0 count in
  (0 ≤ r ∧ r + count ≤ p.(total_pages) ∧ (∀ j, r ≤ j < r + count → free_at p j) ∧
   (∀ s, 0 ≤ s < r → blocked p s count)) ∨
  (r = UINT64_MAX ∧ ∀ s, 0 ≤ s → s + count ≤ p.(total_pages) → blocked p s count).
Proof.
  intros (_ & _ & Ht) Hc. apply find_free_loop_spec; try lia.
Qed.

Lemma first_free_loop_spec n p w :
  pmm_ok p → 0 ≤ w → w + Z.of_nat n = (p.(total_pages) + 63) / 64 →
  let r := first_free_loop n p w in
  (w * 64 ≤ r < p.(total_pages) ∧ free_at p r ∧
   ∀ j, w * 64 ≤ j < r → bm_test p j = true) ∨
  (r = UINT64_MAX ∧ ∀ j, w * 64 ≤ j < p.(total_pages) → bm_test p j = true).
Proof.
  intros Hok Hw. pose proof Hok as (Hl & HF & Ht). revert w Hw.
  induction n as [|n IH]; intros w Hw Hn; cbn [first_free_loop].
  { right. split; [done|]. intros j Hj. exfalso. div_lia. }
  assert (0 ≤ w < zlen p.(bitmap)) as Hin by (rewrite Hl; unfold PMM_MAX_PAGES in *; cbn in *; div_lia).
  pose proof (word_scan p.(bitmap) w HF Hin) as Hscan.
  specialize (IH (w + 1) ltac:(lia) ltac:(lia)). cbn zeta in IH.
  assert ((∀ j, w * 64 ≤ j < Z.min (w * 64 + 64) p.(total_pages) → bm_test p j = true) →
    (w * 64 ≤ first_free_loop n p (w + 1) < p.(total_pages) ∧ free_at p (first_free_loop n p (w + 1)) ∧
     ∀ j, w * 64 ≤ j < first_free_loop n p (w + 1) → bm_test p j = true) ∨
    (first_free_loop n p (w + 1) = UINT64_MAX ∧
     ∀ j, w * 64 ≤ j < p.(total_pages) → bm_test p j = true)) as Hnext.
  { intros Hall. destruct IH as [(Hr & Hfr & Hlow)|(Hr & Hlow)]; [left|right].
    - split; [lia|]. split; [done|]. intros j Hj.
      destruct (decide (j < w * 64 + 64)); [apply Hall; lia|apply Hlow; lia].
    - split; [done|]. intros j Hj.
      destruct (decide (j < w * 64 + 64)); [apply Hall; lia|apply Hlow; lia]. }
  destruct (p.(bitmap).[w] =? UINT64_MAX); cbn [negb].
  - apply Hnext. intros j Hj. apply Hscan. lia.
  - destruct Hscan as (Hr & Hz & Hlow). set (b := ctz64 _) in *.
    destruct (Z.ltb_spec (w * 64 + b) p.(total_pages)); [left|].
    + split; [lia|]. split; [done|exact Hlow].
    + apply Hnext. intros j Hj. apply Hlow. lia.
Qed.

(** The word-at-a-time scan finds the lowest free page. *)
Lemma bm_find_first_free_spec p :
  pmm_ok p →
  let r := bm_find_first_free p in
  (0 ≤ r < p.(total_pages) ∧ free_at p r ∧ ∀ j, 0 ≤ j < r → bm_test p j = true) ∨
  (r = UINT64_MAX ∧ ∀ j, 0 ≤ j < p.(total_pages) → bm_test p j = true).
Proof.
  intros Hok. pose proof Hok as (_ & _ & Ht).
  assert (0 ≤ (p.(total_pages) + 63) / 64) by (apply Z.div_pos; lia).
  apply (first_free_loop_spec _ p 0); [done|lia|lia].
Qed.

(** ** The invariant: the counter is the number of free pages *)

Definition is_free (p : pmm_t) (i : Z) : bool := negb (bm_test p i).

Definition pmm_wf (p : pmm_t) : Prop :=
  pmm_ok p ∧ p.(free_pages) = countb (is_free p) 0 p.(total_pages).

Lemma in_bitmap_page p i : pmm_ok p → 0 ≤ i < p.(total_pages) → in_bitmap i.
Proof. intros (_ & _ & Ht) Hi. unfold in_bitmap. lia. Qed.

Lemma free_pages_range p : pmm_wf p → 0 ≤ p.(free_pages) ≤ PMM_MAX_PAGES.
Proof.
  intros [(_ & _ & Ht) ->]. pose proof (countb_bounds (is_free p) 0 p.(total_pages)). lia.
Qed.

Lemma bm_set_from_ok n p i :
  pmm_ok p → 0 ≤ i → i + Z.of_nat n ≤ PMM_MAX_PAGES → pmm_ok (bm_set_from n p i).
Proof.
  revert p i. induction n as [|n IH]; intros p i Hok Hi Hn; [done|]. cbn [bm_set_from].
  apply IH; [apply bm_set_ok; [done|unfold in_bitmap; lia]|lia..].
Qed.

Lemma bm_test_set_from n p i j :
  pmm_ok p → 0 ≤ i → i + Z.of_nat n ≤ PMM_MAX_PAGES → 0 ≤ j →
  bm_test (bm_set_from n p i) j = bool_decide (i ≤ j < i + Z.of_nat n) || bm_test p j.
Proof.
  revert p i. induction n as [|n IH]; intros p i Hok Hi Hn Hj; cbn [bm_set_from].
  - by rewrite bool_decide_false by lia.
  - assert (in_bitmap i) by (unfold in_bitmap; lia).
    rewrite IH, bm_test_set by (done || (by apply bm_set_ok) || lia).
    repeat case_bool_decide; try lia; done.
Qed.

Lemma bm_clear_from_ok n p i :
  pmm_ok p → 0 ≤ i → i + Z.of_nat n ≤ PMM_MAX_PAGES → pmm_ok (bm_clear_from n p i).
Proof.
  revert p i. induction n as [|n IH]; intros p i Hok Hi Hn; [done|]. cbn [bm_clear_from].
  apply IH; [apply bm_clear_ok; [done|unfold in_bitmap; lia]|lia..].
Qed.

Lemma bm_test_clear_from n p i j :
  pmm_ok p → 0 ≤ i → i + Z.of_nat n ≤ PMM_MAX_PAGES → 0 ≤ j →
  bm_test (bm_clear_from n p i) j = negb (bool_decide (i ≤ j < i + Z.of_nat n)) && bm_test p j.
Proof.
  revert p i. induction n as [|n IH]; intros p i Hok Hi Hn Hj; cbn [bm_clear_from].
  - by rewrite bool_decide_false by lia.
  - assert (in_bitmap i) by (unfold in_bitmap; lia).
    rewrite IH, bm_test_clear by (done || (by apply bm_clear_ok) || lia).
    repeat case_bool_decide; try lia; done.
Qed.

Lemma bm_set_from_fields n p i :
  total_pages (bm_set_from n p i) = p.(total_pages) ∧ free_pages (bm_set_from n p i) = p.(free_pages).
Proof. revert p i. induction n as [|n IH]; intros p i; [done|]. exact (IH (bm_set p i) (i + 1)). Qed.

Lemma bm_clear_from_fields n p i :
  total_pages (bm_clear_from n p i) = p.(total_pages) ∧ free_pages (bm_clear_from n p i) = p.(free_pages).
Proof. revert p i. induction n as [|n IH]; intros p i; [done|]. exact (IH (bm_clear p i) (i + 1)). Qed.

Lemma range_len_exact start count :
  0 ≤ start → 0 ≤ count → start + count ≤ PMM_MAX_PAGES →
  Z.of_nat (range_len start count) = count.
Proof.
  intros. unfold range_len, PMM_MAX_PAGES in *. rewrite wrap_id by lia. lia.
Qed.

(** Marking or unmarking a whole range changes the count by its length. *)
Lemma countb_range f g lo hi s c :
  lo ≤ s → 0 ≤ c → s + c ≤ hi →
  (∀ i, s ≤ i < s + c → f i = true ∧ g i = false) →
  (∀ i, lo ≤ i < hi → ¬ (s ≤ i < s + c) → g i = f i) →
  countb g lo hi = countb f lo hi - c.
Proof.
  intros Hlo Hc Hhi Hin Hout.
  rewrite (countb_app f lo s hi), (countb_app g lo s hi) by lia.
  rewrite (countb_app f s (s + c) hi), (countb_app g s (s + c) hi) by lia.
  rewrite (countb_ext g f lo s) by (intros; apply Hout; lia).
  rewrite (countb_ext g f (s + c) hi) by (intros; apply Hout; lia).
  rewrite (countb_all f s (s + c)) by (try (intros; by apply Hin); lia).
  rewrite (countb_none g s (s + c)) by (intros; by apply Hin). lia.
Qed.

(** The state after pages [s .. s+c-1], all free, have been marked used. *)
Definition pages_taken (p p' : pmm_t) (s c : Z) : Prop :=
  total_pages p' = p.(total_pages) ∧
  (∀ j, s ≤ j < s + c → free_at p j) ∧
  ∀ j, 0 ≤ j → bm_test p' j = bool_decide (s ≤ j < s + c) || bm_test p j.

Lemma pages_taken_wf p p' s c :
  pmm_wf p → pmm_ok p' → pages_taken p p' s c → 0 ≤ s → 0 ≤ c → s + c ≤ p.(total_pages) →
  free_pages p' = u64 (p.(free_pages) - c) → pmm_wf p'.
Proof.
  intros [Hok Hfp] Hok' (Ht & Hfree & Htest) Hs Hc Hsc Hf. split; [done|].
  assert (countb (is_free p') 0 p.(total_pages) = countb (is_free p) 0 p.(total_pages) - c) as E.
  { apply (countb_range _ _ _ _ s c); [lia..| |].
    - intros i Hi. unfold is_free. rewrite Htest by lia. rewrite bool_decide_true by lia.
      by rewrite Hfree.
    - intros i Hi Hn. unfold is_free. rewrite Htest by lia. by rewrite bool_decide_false. }
  pose proof (countb_bounds (is_free p') 0 p.(total_pages)).
  destruct Hok as (_ & _ & Htot). unfold PMM_MAX_PAGES in *.
  rewrite Hf, Ht, wrap_id; lia.
Qed.

(** [pmm_alloc_page] hands out the lowest free page, if there is one. *)
Lemma pmm_alloc_page_spec p :
  pmm_wf p →
  let '(p', pa) := pmm_alloc_page p in
  pmm_wf p' ∧
  ((pa = 0 ∧ p' = p ∧ ∀ j, 0 ≤ j < p.(total_pages) → bm_test p j = true) ∨
   (∃ f, 0 ≤ f < p.(total_pages) ∧ pa = f * PAGE_SIZE ∧
         (∀ j, 0 ≤ j < f → bm_test p j = true) ∧ pages_taken p p' f 1)).
Proof.
  intros Hwf. pose proof Hwf as [Hok Hfp]. pose proof Hok as (_ & _ & Ht).
  unfold pmm_alloc_page. destruct (bm_find_first_free_spec p Hok) as [(Hr & Hfree & Hlow)|(Hr & Hall)].
  - set (f := bm_find_first_free p) in *. unfold PMM_MAX_PAGES in Ht.
    rewrite (proj2 (Z.eqb_neq f UINT64_MAX)) by (unfold UINT64_MAX; lia).
    assert (in_bitmap f) as Hin by (eapply in_bitmap_page; [done|lia]).
    set (p' := with_free _ _).
    assert (pages_taken p p' f 1) as Hp.
    { split; [done|]. split; [by intros j Hj; replace j with f by lia|].
      intros j Hj. transitivity (bm_test (bm_set p f) j); [done|].
      rewrite bm_test_set by done. f_equal. apply bool_decide_ext. lia. }
    split.
    + eapply (pages_taken_wf p p' f 1); [done| |done|lia..|done].
      subst p'. unfold with_free. apply (bm_set_ok p f Hok Hin).
    + right. exists f. split; [lia|]. split; [|done]. unfold PAGE_SIZE. apply wrap_id. lia.
  - rewrite Hr, Z.eqb_refl. split; [done|]. by left.
Qed.

(** [pmm_alloc_pages] hands out the lowest window of [count] free pages. *)
Lemma pmm_alloc_pages_spec p count :
  pmm_wf p → 0 < count < 2 ^ 64 →
  let '(p', pa) := pmm_alloc_pages p count in
  pmm_wf p' ∧
  ((pa = 0 ∧ p' = p ∧ ∀ s, 0 ≤ s → s + count ≤ p.(total_pages) → blocked p s count) ∨
   (∃ f, 0 ≤ f ∧ f + count ≤ p.(total_pages) ∧ pa = f * PAGE_SIZE ∧
         (∀ s, 0 ≤ s < f → blocked p s count) ∧ pages_taken p p' f count)).
Proof.
  intros Hwf Hc. pose proof Hwf as [Hok Hfp]. pose proof Hok as (_ & _ & Ht).
  unfold pmm_alloc_pages. rewrite (proj2 (Z.eqb_neq count 0)) by lia.
  destruct (Z.eqb_spec count 1) as [->|Hne].
  { pose proof (pmm_alloc_page_spec p Hwf) as H. destruct (pmm_alloc_page p) as [p' pa].
    destruct H as [Hwf' [(-> & -> & Hall)|(f & Hf & -> & Hlow & Htk)]]; split; [done| |done|].
    - left. split; [done|]. split; [done|]. intros s Hs Hsc. exists s. split; [lia|apply Hall; lia].
    - right. exists f. split; [lia|]. split; [lia|]. split; [done|]. split; [|done].
      intros s Hs. exists s. split; [lia|apply Hlow; lia]. }
  destruct (bm_find_free_spec p count Hok) as [(Hr & Hrc & Hfree & Hlow)|(Hr & Hall)]; [lia| |].
  - set (f := bm_find_free p 0 count) in *. unfold PMM_MAX_PAGES in Ht.
    rewrite (proj2 (Z.eqb_neq f UINT64_MAX)) by (unfold UINT64_MAX; lia).
    unfold bm_set_range. set (n := range_len f count).
    assert (Z.of_nat n = count) as Hn by (apply range_len_exact; unfold PMM_MAX_PAGES; lia).
    destruct (bm_set_from_fields n p f) as [Htot Hfr]. set (p' := with_free _ _).
    assert (pages_taken p p' f count) as Hp.
    { split; [done|]. split; [done|].
      intros j Hj. transitivity (bm_test (bm_set_from n p f) j); [done|].
      rewrite bm_test_set_from by (done || unfold PMM_MAX_PAGES; lia). by rewrite Hn. }
    split.
    + eapply (pages_taken_wf p p' f count); [done| |done|lia..|by cbn; rewrite Hfr].
      subst p'. unfold with_free. apply (bm_set_from_ok n p f Hok); unfold PMM_MAX_PAGES; lia.
    + right. exists f. split; [done|]. split; [done|]. split; [|done].
      unfold PAGE_SIZE. apply wrap_id. lia.
  - rewrite Hr, Z.eqb_refl. split; [done|]. by left.
Qed.

(** ** Release *)

(** Page [f] has been made free, if it was not already. *)
Definition page_released (p p' : pmm_t) (f : Z) : Prop :=
  total_pages p' = p.(total_pages) ∧
  ∀ j, 0 ≤ j → bm_test p' j = negb (bool_decide (j = f)) && bm_test p j.

Lemma release_spec p f :
  pmm_wf p → 0 ≤ f < p.(total_pages) → pmm_wf (release p f) ∧ page_released p (release p f) f.
Proof.
  intros Hwf Hf. pose proof Hwf as [Hok Hfp]. pose proof (free_pages_range p Hwf) as Hr.
  assert (in_bitmap f) as Hin by (by eapply in_bitmap_page).
  unfold release. destruct (bm_test p f) eqn:E.
  - set (p' := with_free _ _).
    assert (page_released p p' f) as Hp.
    { split; [done|]. intros j Hj. transitivity (bm_test (bm_clear p f) j); [done|].
      by apply bm_test_clear. }
    split; [|done]. split; [apply (bm_clear_ok p f Hok Hin)|]. destruct Hp as [Ht Htest].
    assert (countb (is_free p') 0 p.(total_pages) = p.(free_pages) + 1) as Hc.
    { rewrite Hfp, (countb_update (is_free p) (is_free p') 0 _ f Hf); unfold is_free.
      - rewrite Htest, E, bool_decide_true by (done || lia). cbn. lia.
      - intros i Hi Hne. by rewrite Htest, bool_decide_false by (done || lia). }
    rewrite Ht, Hc. unfold PMM_MAX_PAGES in Hr. apply wrap_id. lia.
  - split; [done|]. split; [done|]. intros j Hj. case_bool_decide; [subst; by rewrite E|done].
Qed.

Lemma pmm_free_page_spec p pa :
  pmm_wf p → 0 ≤ pa →
  pmm_wf (pmm_free_page p pa) ∧
  (if pa / PAGE_SIZE <? p.(total_pages) then page_released p (pmm_free_page p pa) (pa / PAGE_SIZE)
   else pmm_free_page p pa = p).
Proof.
  intros Hwf Hpa. unfold pmm_free_page. rewrite Z.geb_leb.
  assert (0 ≤ pa / PAGE_SIZE) by (by apply Z.div_pos).
  destruct (Z.leb_spec p.(total_pages) (pa / PAGE_SIZE)) as [Hge|Hlt].
  - by rewrite (proj2 (Z.ltb_ge _ _)) by lia.
  - rewrite (proj2 (Z.ltb_lt _ _)) by lia. by apply release_spec.
Qed.

Lemma free_loop_spec n p f :
  pmm_wf p → 0 ≤ f →
  pmm_wf (free_loop n p f) ∧ total_pages (free_loop n p f) = p.(total_pages) ∧
  ∀ j, 0 ≤ j < p.(total_pages) →
    bm_test (free_loop n p f) j = negb (bool_decide (f ≤ j < f + Z.of_nat n)) && bm_test p j.
Proof.
  revert p f. induction n as [|n IH]; intros p f Hwf Hf; cbn [free_loop].
  { split; [done|]. split; [done|]. intros j Hj. by rewrite bool_decide_false by lia. }
  rewrite Z.geb_leb. destruct (Z.leb_spec p.(total_pages) f) as [Hge|Hlt].
  { split; [done|]. split; [done|]. intros j Hj. by rewrite bool_decide_false by lia. }
  pose proof Hwf as [(_ & _ & Ht) _]. unfold PMM_MAX_PAGES in Ht. rewrite wrap_id by lia.
  destruct (release_spec p f Hwf) as [Hwf' [Ht' Hrel]]; [lia|].
  destruct (IH _ (f + 1) Hwf') as (Hw & Htt & Htest); [lia|].
  split; [done|]. split; [congruence|]. intros j Hj.
  rewrite Htest, Hrel by lia. repeat case_bool_decide; try lia; done.
Qed.

(** ** Refinement of a first-fit allocator over a set of free frames *)

Definition free_set (p : pmm_t) : gset Z :=
  list_to_set (filter (λ i, bm_test p i = false) (seqZ 0 p.(total_pages))).

Lemma elem_of_free_set p i : i ∈ free_set p ↔ 0 ≤ i < p.(total_pages) ∧ bm_test p i = false.
Proof.
  unfold free_set. rewrite elem_of_list_to_set, list_elem_of_filter, elem_of_seqZ. 
  split; intros [? ?]; split; (done || lia).
Qed.

Lemma size_free_set p : pmm_wf p → Z.of_nat (size (free_set p)) = p.(free_pages).
Proof.
  intros [_ ->]. unfold free_set, countb, is_free. rewrite size_list_to_set.
  - rewrite Z.sub_0_r. f_equal. f_equal. apply list_filter_iff. intros i. by rewrite negb_true_iff.
  - apply NoDup_filter, NoDup_seqZ.
Qed.

Inductive pmm_op :=
  | AllocPage
  | AllocPages (count : Z)
  | FreePage (paddr : Z)
  | FreePages (paddr count : Z).

(** What each call does to the set [F] of free frames of a machine with
    [total] pages, and what it returns. *)
Definition lowest_window (F : gset Z) (f c : Z) : Prop :=
  0 ≤ f ∧ frames f c ⊆ F ∧ ∀ s, 0 ≤ s < f → frames s c ⊈ F.

Inductive pmm_spec (total : Z) : gset Z → pmm_op → gset Z → Z → Prop :=
  | spec_page F F' r : pmm_spec total F (AllocPages 1) F' r → pmm_spec total F AllocPage F' r
  | spec_none F : pmm_spec total F (AllocPages 0) F 0
  | spec_take F f c :
      0 < c → lowest_window F f c →
      pmm_spec total F (AllocPages c) (F ∖ frames f c) (f * PAGE_SIZE)
  | spec_fail F c :
      0 < c → (∀ s, 0 ≤ s → frames s c ⊈ F) → pmm_spec total F (AllocPages c) F 0
  | spec_free F pa F' :
      pmm_spec total F (FreePages pa 1) F' 0 → pmm_spec total F (FreePage pa) F' 0
  | spec_frees F pa c :
      pmm_spec total F (FreePages pa c)
        (F ∪ filter (λ i, i < total) (frames (pa / PAGE_SIZE) c)) 0.

Definition pmm_step (p : pmm_t) (op : pmm_op) : pmm_t * Z :=
  match op with
  | AllocPage => pmm_alloc_page p
  | AllocPages c => pmm_alloc_pages p c
  | FreePage pa => (pmm_free_page p pa, 0)
  | FreePages pa c => (pmm_free_pages p pa c, 0)
  end.

(** The arguments are 64-bit words. *)
Definition op_ok (op : pmm_op) : Prop :=
  match op with
  | AllocPage => True
  | AllocPages c => 0 ≤ c < 2 ^ 64
  | FreePage pa => 0 ≤ pa < 2 ^ 64
  | FreePages pa c => 0 ≤ pa < 2 ^ 64 ∧ 0 ≤ c < 2 ^ 64
  end.

Lemma blocked_window p s c :
  0 ≤ s → s + c ≤ p.(total_pages) → blocked p s c → frames s c ⊈ free_set p.
Proof.
  intros Hs Hsc (j & Hj & Hb) Hsub. assert (j ∈ free_set p) as Hin by (apply Hsub, elem_of_frames, Hj).
  apply elem_of_free_set in Hin as [_ Hf]. congruence.
Qed.

Lemma window_too_high p s c : 0 < c → p.(total_pages) < s + c → frames s c ⊈ free_set p.
Proof.
  intros Hc Hhi Hsub. assert (s + c - 1 ∈ free_set p) as Hin by (apply Hsub, elem_of_frames; lia).
  apply elem_of_free_set in Hin as [? _]. lia.
Qed.

Lemma pages_taken_set p p' f c :
  0 ≤ f → pages_taken p p' f c → free_set p' = free_set p ∖ frames f c.
Proof.
  intros Hf (Ht & _ & Htest). apply set_eq. intros i.
  rewrite elem_of_difference, !elem_of_free_set, elem_of_frames, Ht. split.
  - intros [Hi Hb]. rewrite Htest in Hb by lia. apply orb_false_iff in Hb as [Hb ?].
    apply bool_decide_eq_false in Hb. done.
  - intros [[Hi Hb] Hn]. split; [done|]. rewrite Htest by lia. by rewrite bool_decide_false.
Qed.

Lemma alloc_pages_step p c :
  pmm_wf p → 0 ≤ c < 2 ^ 64 →
  let '(p', r) := pmm_alloc_pages p c in
  pmm_wf p' ∧ total_pages p' = p.(total_pages) ∧
  pmm_spec p.(total_pages) (free_set p) (AllocPages c) (free_set p') r.
Proof.
  intros Hwf Hc. destruct (decide (c = 0)) as [->|Hne].
  { split; [done|]. split; [done|apply spec_none]. }
  pose proof (pmm_alloc_pages_spec p c Hwf) as H. destruct (pmm_alloc_pages p c) as [p' r].
  destruct H as [Hwf' H]; [lia|]. split; [done|].
  destruct H as [(-> & -> & Hall)|(f & Hf & Hfc & -> & Hlow & Htk)].
  - split; [done|]. apply spec_fail; [lia|]. intros s Hs.
    destruct (decide (s + c ≤ p.(total_pages))); [apply blocked_window; auto|apply window_too_high; lia].
  - split; [apply Htk|]. rewrite (pages_taken_set p p' f c Hf Htk). apply spec_take; [lia|].
    split; [done|]. split.
    + intros i Hi%elem_of_frames. apply elem_of_free_set. split; [lia|]. by apply Htk.
    + intros s Hs. apply blocked_window; [lia..|]. by apply Hlow.
Qed.

Lemma free_pages_step p pa c :
  pmm_wf p → 0 ≤ pa → 0 ≤ c →
  let p' := pmm_free_pages p pa c in
  pmm_wf p' ∧ total_pages p' = p.(total_pages) ∧
  free_set p' = free_set p ∪ filter (λ i, i < p.(total_pages)) (frames (pa / PAGE_SIZE) c).
Proof.
  intros Hwf Hpa Hc. assert (0 ≤ pa / PAGE_SIZE) as Hf by (by apply Z.div_pos).
  destruct (free_loop_spec (Z.to_nat c) p _ Hwf Hf) as (Hwf' & Ht & Htest).
  split; [done|]. split; [done|]. apply set_eq. intros i. unfold pmm_free_pages.
  rewrite elem_of_union, elem_of_filter, !elem_of_free_set, elem_of_frames, Ht.
  rewrite Z2Nat.id in Htest by done. split.
  - intros [Hi Hb]. rewrite Htest in Hb by done. case_bool_decide; [right; split; lia|by left].
  - intros [[Hi Hb]|[Hlt Hin]]; (split; [lia|]); rewrite Htest by lia.
    + by rewrite Hb, andb_false_r.
    + by rewrite bool_decide_true.
Qed.

Lemma pmm_step_refines p op :
  pmm_wf p → op_ok op →
  let '(p', r) := pmm_step p op in
  pmm_wf p' ∧ total_pages p' = p.(total_pages) ∧
  pmm_spec p.(total_pages) (free_set p) op (free_set p') r.
Proof.
  intros Hwf Hop. destruct op as [|c|pa|pa c]; cbn [pmm_step op_ok] in *.
  - pose proof (alloc_pages_step p 1 Hwf) as H. unfold pmm_alloc_pages in H. cbn [Z.eqb] in H.
    change (1 =? 0) with false in H. destruct (pmm_alloc_page p) as [p' r].
    destruct H as (? & ? & ?); [lia|]. split; [done|]. split; [done|]. by apply spec_page.
  - by apply alloc_pages_step.
  - assert (pmm_free_page p pa = pmm_free_pages p pa 1) as ->.
    { done. }
    destruct (free_pages_step p pa 1 Hwf) as (? & ? & Hs); [lia..|].
    split; [done|]. split; [done|]. apply spec_free. rewrite Hs. apply spec_frees.
  - destruct Hop. destruct (free_pages_step p pa c Hwf) as (? & ? & Hs); [lia..|].
    split; [done|]. split; [done|]. rewrite Hs. apply spec_frees.
Qed.

Fixpoint pmm_run (p : pmm_t) (ops : list pmm_op) : pmm_t * list Z :=
  match ops with
  | [] => (p, [])
  | op :: ops =>
      let '(p, r) := pmm_step p op in
      let '(p, rs) := pmm_run p ops in (p, r :: rs)
  end.

Inductive spec_run (total : Z) : gset Z → list pmm_op → gset Z → list Z → Prop :=
  | run_nil F : spec_run total F [] F []
  | run_cons F op F1 r ops F2 rs :
      pmm_spec total F op F1 r → spec_run total F1 ops F2 rs →
      spec_run total F (op :: ops) F2 (r :: rs).

(** C2: every sequence of calls to the page allocator returns what a first-fit
    allocator over the set of free frames returns: allocations give the lowest
    window of free frames and take it out of the set, fail only when no window
    exists, frees put the frames back (frees of free or absent frames change
    nothing), and the free-page counter stays the size of the set. *)
Theorem pmm_refines p ops :
  pmm_wf p → Forall op_ok ops →
  let '(p', rs) := pmm_run p ops in
  pmm_wf p' ∧ pmm_get_total_pages p' = pmm_get_total_pages p ∧
  pmm_get_free_pages p' = Z.of_nat (size (free_set p')) ∧
  spec_run p.(total_pages) (free_set p) ops (free_set p') rs.
Proof.
  intros Hwf Hops. revert p Hwf. induction Hops as [|op ops Hop _ IH]; intros p Hwf; cbn [pmm_run].
  { split; [done|]. split; [done|]. split; [symmetry; by apply size_free_set|constructor]. }
  pose proof (pmm_step_refines p op Hwf Hop) as Hs. destruct (pmm_step p op) as [p1 r].
  destruct Hs as (Hwf1 & Ht & Hs). specialize (IH p1 Hwf1). destruct (pmm_run p1 ops) as [p2 rs].
  destruct IH as (? & Ht2 & ? & Hrun). split; [done|].
  split; [unfold pmm_get_total_pages in *; congruence|]. split; [done|].
  econstructor; [done|]. by rewrite Ht in Hrun.
Qed.

(** Twelve pages of memory, of which 8 to 11 are free. *)
Definition small_pmm : pmm_t :=
  {| bitmap := 0xFFFFFFFFFFFFF0FF :: replicate (Z.to_nat 16383) UINT64_MAX; total_pages := 12; free_pages := 4 |}.

Lemma small_pmm_wf : pmm_wf small_pmm.
Proof.
  split; [|by vm_compute]. split; [by vm_compute|]. split; [|by vm_compute].
  constructor; [lia|]. apply Forall_replicate. unfold UINT64_MAX. lia.
Qed.

Lemma pmm_refines_witness :
  let ops := [AllocPages 2; AllocPage; FreePage 0x8000; FreePage 0x8000; AllocPages 2; AllocPages 1] in
  (pmm_run small_pmm ops).2 = [0x8000; 0xA000; 0; 0; 0; 0x8000] ∧
  spec_run 12 (free_set small_pmm) ops (free_set (pmm_run small_pmm ops).1)
    (pmm_run small_pmm ops).2.
Proof.
  intros ops. split; [by vm_compute|].
  assert (Forall op_ok ops) as Hok by (repeat constructor; cbn; lia).
  pose proof (pmm_refines small_pmm ops small_pmm_wf Hok) as H.
  destruct (pmm_run small_pmm ops) as [p' rs]. apply H.
Defined.

(** ** Initialisation *)

(** Page [i] lies completely inside the usable region [e]. *)
Definition usable_page (e : mmap_entry_t) (i : Z) : bool :=
  (e.(type) =? MMAP_USABLE) &&
  ((e.(base) + 4095) / PAGE_SIZE <=? i) && (i <? (e.(base) + e.(length_)) / PAGE_SIZE).

(** The region does not wrap around the 64-bit address space and does not
    start above the last managed page. *)
Definition region_ok (total : Z) (e : mmap_entry_t) : Prop :=
  0 ≤ e.(base) ∧ 0 ≤ e.(length_) ∧ e.(base) + 4095 < 2 ^ 64 ∧ e.(base) + e.(length_) < 2 ^ 64 ∧
  (e.(base) + 4095) / PAGE_SIZE ≤ total.

Definition regions_disjoint (e e' : mmap_entry_t) : Prop :=
  ∀ i, usable_page e i = true → usable_page e' i = false.

(** [init_region] on a region that does not overlap the free pages. *)
Lemma init_region_spec p e :
  pmm_wf p → region_ok p.(total_pages) e →
  (∀ i, 0 ≤ i < p.(total_pages) → usable_page e i = true → bm_test p i = true) →
  pmm_wf (init_region p e) ∧ total_pages (init_region p e) = p.(total_pages) ∧
  ∀ i, 0 ≤ i < p.(total_pages) →
    bm_test (init_region p e) i = negb (usable_page e i) && bm_test p i.
Proof.
  intros Hwf (Hb & Hl & Hov & Hov' & Hst) Hused. pose proof Hwf as [Hok Hfp].
  pose proof Hok as (_ & _ & Ht). unfold PAGE_SIZE, PMM_MAX_PAGES in *.
  unfold init_region, usable_page, PAGE_SIZE in *.
  destruct (e.(type) =? MMAP_USABLE); cbn [negb andb] in *; [|done].
  rewrite ALIGN_UP_page, wrap_id, ALIGN_DOWN_page by lia.
  set (s := (e.(base) + 4095) / 4096) in *. set (t := (e.(base) + e.(length_)) / 4096) in *.
  assert (0 ≤ s) as Hs by (apply Z.div_pos; lia).
  assert (t < 2 ^ 52) as Htmax by (subst t; div_lia).
  destruct (Z.leb_spec (t * 4096) (s * 4096)) as [Hle|Hlt].
  { split; [done|]. split; [done|]. intros i Hi.
    by destruct (Z.leb_spec s i), (Z.ltb_spec i t); try lia. }
  rewrite <- Z.mul_sub_distr_r, !Z.div_mul by lia.
  replace (s + (t - s)) with t by lia. rewrite (wrap_id 64 t), Z.gtb_ltb by lia.
  set (n := if _ <? _ then _ else _).
  assert (n = Z.min t p.(total_pages) - s) as Hn.
  { subst n. destruct (Z.ltb_spec p.(total_pages) t); [rewrite wrap_id by lia|]; lia. }
  assert (Z.of_nat (range_len s n) = n) as Hlen by (apply range_len_exact; unfold PMM_MAX_PAGES; lia).
  unfold bm_clear_range. destruct (bm_clear_from_fields (range_len s n) p s) as [Htot Hfr].
  set (q := bm_clear_from _ _ _) in *. set (q' := with_free _ _).
  assert (pmm_ok q) as Hokq by (apply bm_clear_from_ok; unfold PMM_MAX_PAGES; (done || lia)).
  assert (∀ i, 0 ≤ i < p.(total_pages) → bm_test q' i = negb ((s <=? i) && (i <? t)) && bm_test p i) as Htest.
  { intros i Hi. transitivity (bm_test q i); [done|]. subst q.
    rewrite bm_test_clear_from by (unfold PMM_MAX_PAGES; (done || lia)). rewrite Hlen. f_equal. f_equal.
    destruct (Z.leb_spec s i), (Z.ltb_spec i t); case_bool_decide; try done; lia. }
  split; [|by split]. split; [done|]. cbn [free_pages with_free total_pages q'].
  assert (countb (is_free p) 0 p.(total_pages) = countb (is_free q') 0 p.(total_pages) - n) as Hc.
  { apply (countb_range _ _ _ _ s n); [lia..| |]; unfold is_free; intros i Hi.
    - rewrite Htest, Hused by (rewrite ?(proj2 (Z.leb_le _ _)), ?(proj2 (Z.ltb_lt _ _)) by lia; (done || lia)).
      rewrite (proj2 (Z.leb_le s i)), (proj2 (Z.ltb_lt i t)) by lia. done.
    - intros Hout. rewrite Htest by lia.
      destruct (Z.leb_spec s i), (Z.ltb_spec i t); try lia; done. }
  pose proof (countb_bounds (is_free q') 0 p.(total_pages)).
  rewrite Hfr, Htot, Hfp, wrap_id by lia. lia.
Qed.

Lemma init_regions_spec es p :
  pmm_wf p → Forall (region_ok p.(total_pages)) es → ForallOrdPairs regions_disjoint es →
  (∀ e i, e ∈ es → 0 ≤ i < p.(total_pages) → usable_page e i = true → bm_test p i = true) →
  let q := fold_left init_region es p in
  pmm_wf q ∧ total_pages q = p.(total_pages) ∧
  ∀ i, 0 ≤ i < p.(total_pages) →
    bm_test q i = negb (existsb (λ e, usable_page e i) es) && bm_test p i.
Proof.
  revert p. induction es as [|e es IH]; intros p Hwf Hes Hdis Hused; cbn [fold_left existsb]; [done|].
  inversion Hes as [|?? He Hes']; subst. inversion Hdis as [|?? Hdis1 Hdis']; subst.
  destruct (init_region_spec p e Hwf He) as (Hwf1 & Ht1 & Htest1).
  { intros i. apply Hused. by left. }
  rewrite <- Ht1 in Hes'. destruct (IH (init_region p e) Hwf1 Hes' Hdis') as (Hwf2 & Ht2 & Htest2).
  { intros e' i Hin Hi Hu. rewrite Ht1 in Hi. rewrite Htest1 by done.
    rewrite (Hused e' i) by (done || by right). rewrite Forall_forall in Hdis1.
    specialize (Hdis1 e' Hin i). destruct (usable_page e i); [|done].
    by rewrite Hdis1 in Hu. }
  split; [done|]. split; [congruence|]. intros i Hi.
  rewrite Htest2, Htest1 by lia. by rewrite negb_orb, andb_assoc, (andb_comm (negb (existsb _ _))).
Qed.

Lemma reserve_one_spec p i :
  pmm_wf p → 0 ≤ i < p.(total_pages) →
  let q := if negb (bm_test p i) then with_free (bm_set p i) (u64 (p.(free_pages) - 1)) else p in
  pmm_wf q ∧ total_pages q = p.(total_pages) ∧
  ∀ j, 0 ≤ j → bm_test q j = bool_decide (j = i) || bm_test p j.
Proof.
  intros Hwf Hi. destruct (bm_test p i) eqn:E; cbn [negb].
  { split; [done|]. split; [done|]. intros j Hj. case_bool_decide; [by subst|done]. }
  assert (in_bitmap i) as Hin by (eapply in_bitmap_page; [apply Hwf|lia]).
  set (q := with_free _ _). cbn zeta.
  assert (∀ j, 0 ≤ j → bm_test q j = bool_decide (j = i) || bm_test p j) as Hq.
  { intros j Hj. transitivity (bm_test (bm_set p i) j); [done|]. apply bm_test_set; [apply Hwf|done..]. }
  split; [|done]. apply (pages_taken_wf p q i 1); [done|apply (bm_set_ok p i); [apply Hwf|done]| |lia..|done].
  split; [done|]. split; [by intros j Hj; replace j with i by lia|].
  intros j Hj. rewrite Hq by done. f_equal. apply bool_decide_ext. lia.
Qed.

(** The loops that take pages back after the map has been read. *)
Lemma reserve_from_spec n p i :
  pmm_wf p → 0 ≤ i → i + Z.of_nat n ≤ p.(total_pages) ∨ n = O →
  pmm_wf (reserve_from n p i) ∧ total_pages (reserve_from n p i) = p.(total_pages) ∧
  ∀ j, 0 ≤ j →
    bm_test (reserve_from n p i) j = bool_decide (i ≤ j < i + Z.of_nat n) || bm_test p j.
Proof.
  revert p i. induction n as [|n IH]; intros p i Hwf Hi Hn; cbn [reserve_from].
  { split; [done|]. split; [done|]. intros j Hj. by rewrite bool_decide_false by lia. }
  destruct Hn as [Hn|]; [|done].
  destruct (reserve_one_spec p i Hwf) as (Hwf' & Ht & Hq); [lia|].
  destruct (IH _ (i + 1) Hwf') as (? & Ht' & Hj); [lia|rewrite Ht; lia|].
  split; [done|]. split; [congruence|]. intros j Hj0. rewrite Hj, Hq by done.
  repeat case_bool_decide; try done; lia.
Qed.

(** Page [i] is one that the code counts as kernel image: the base rounded down, the
    size rounded up. Of an image that begins inside a page the last page may be
    missed. *)
Definition kernel_page (bi : boot_info_t) (i : Z) : Prop :=
  bi.(kernel_phys_base) / PAGE_SIZE ≤ i <
  bi.(kernel_phys_base) / PAGE_SIZE + (bi.(kernel_size) + 4095) / PAGE_SIZE.

(** What the boot loader promises: regions in the managed range that do not
    overlap, and a kernel image that does not wrap around. *)
Definition boot_total (bi : boot_info_t) : Z := Z.min (bi.(total_memory) / PAGE_SIZE) PMM_MAX_PAGES.

Record boot_ok (bi : boot_info_t) : Prop := {
  boot_memory : 0 ≤ bi.(total_memory);
  boot_regions : Forall (region_ok (boot_total bi)) bi.(mmap);
  boot_disjoint : ForallOrdPairs regions_disjoint bi.(mmap);
  boot_kernel : 0 ≤ bi.(kernel_phys_base) ∧ 0 ≤ bi.(kernel_size) ∧
                bi.(kernel_phys_base) + bi.(kernel_size) + 8192 < 2 ^ 64;
}.

Lemma blank_pmm_wf total :
  0 ≤ total ≤ PMM_MAX_PAGES →
  let p := {| bitmap := replicate (Z.to_nat (PMM_MAX_PAGES / 64)) UINT64_MAX;
              total_pages := total; free_pages := 0 |} in
  pmm_wf p ∧ ∀ i, 0 ≤ i < total → bm_test p i = true.
Proof.
  intros Ht p. assert (∀ i, 0 ≤ i < total → bm_test p i = true) as Hall.
  { intros i Hi. unfold bm_test. fold (bits_test (bitmap p) i). rewrite bits_test_testbit by lia.
    cbn [bitmap p]. unfold PMM_MAX_PAGES in *.
    rewrite aget_replicate by (change (2 ^ 20 / 64) with 16384; div_lia).
    apply UINT64_MAX_testbit. div_lia. }
  split; [|done]. split.
  - split; [unfold zlen; cbn [bitmap p]; by rewrite length_replicate|].
    split; [|done]. apply Forall_replicate. unfold UINT64_MAX. lia.
  - symmetry. apply countb_none. intros i Hi. unfold is_free. by rewrite Hall.
Qed.

Lemma pmm_init_spec bi :
  boot_ok bi →
  pmm_wf (pmm_init bi) ∧ pmm_get_total_pages (pmm_init bi) = boot_total bi ∧
  ∀ i, i ∈ free_set (pmm_init bi) ↔
    256 ≤ i < boot_total bi ∧ ¬ kernel_page bi i ∧
    existsb (λ e, usable_page e i) bi.(mmap) = true.
Proof.
  intros [Hm Hr Hd (Hkb & Hks & Hkov)]. unfold pmm_init, boot_total, pmm_get_total_pages, kernel_page in *.
  assert (0 ≤ bi.(total_memory) / PAGE_SIZE) by (by apply Z.div_pos).
  replace (if bi.(total_memory) / PAGE_SIZE >? PMM_MAX_PAGES then _ else _)
    with (Z.min (bi.(total_memory) / PAGE_SIZE) PMM_MAX_PAGES)
    by (rewrite Z.gtb_ltb; bool_cases; lia).
  set (total := Z.min _ _) in *.
  assert (0 ≤ total ≤ PMM_MAX_PAGES) as Htot by (unfold total, PMM_MAX_PAGES; lia).
  destruct (blank_pmm_wf total Htot) as [Hwf0 Hall0]. set (p0 := Build_pmm_t _ _ _) in *.
  destruct (init_regions_spec bi.(mmap) p0 Hwf0 Hr Hd) as (Hwf1 & Ht1 & Htest1); [by intros; apply Hall0|].
  set (p1 := fold_left _ _ _) in *.
  rewrite ALIGN_UP_page by lia. unfold PAGE_SIZE in *. rewrite Z.div_mul by lia.
  set (k := bi.(kernel_phys_base) / 4096) in *. set (m := (bi.(kernel_size) + 4095) / 4096) in *.
  assert (0 ≤ k ∧ 0 ≤ m ∧ k + m < 2 ^ 64) as (Hk & Hmm & Hkm) by (subst k m; div_lia).
  rewrite (wrap_id 64 (k + m)) by lia. rewrite Ht1. cbn [total_pages p0].
  set (n := Z.to_nat (Z.min (k + m) total - k)).
  destruct (reserve_from_spec n p1 k Hwf1 Hk) as (Hwf2 & Ht2 & Htest2).
  { rewrite Ht1. cbn [total_pages p0]. lia. }
  set (p2 := reserve_from n p1 k) in *. change (1024 * 1024 / 4096) with 256.
  destruct (reserve_from_spec (Z.to_nat (Z.min 256 (total_pages p2))) p2 0 Hwf2) as (Hwf3 & Ht3 & Htest3);
    [lia|lia|].
  rewrite Ht2, Ht1 in *. cbn [total_pages p0] in *. split; [done|]. split; [done|].
  intros i. rewrite elem_of_free_set, Ht3. 
  assert (0 ≤ i < total → bm_test (reserve_from (Z.to_nat (Z.min 256 total)) p2 0) i =
    bool_decide (i < 256) || (bool_decide (k ≤ i < k + m) || negb (existsb (λ e, usable_page e i) bi.(mmap)))) as E.
  { intros Hi. rewrite Htest3, Htest2, Htest1, Hall0, andb_true_r by lia.
    f_equal; [apply bool_decide_ext; lia|]. f_equal. apply bool_decide_ext. lia. }
  split.
  - intros [Hi Hb]. rewrite E in Hb by done. bool_hyps. 
    rewrite ->!bool_decide_eq_false in *. split; [lia|]. by split.
  - intros (Hi & Hnk & Hu). rewrite E by lia. split; [lia|]. rewrite Hu.
    by rewrite !bool_decide_false by (done || lia).
Qed.

(** C26: after [pmm_init] the free frames are exactly the managed pages that lie
    inside a usable region of the memory map, above the first megabyte and
    outside the kernel image, and the counter agrees with them. *)
Theorem pmm_init_correct bi :
  boot_ok bi →
  pmm_wf (pmm_init bi) ∧ pmm_get_total_pages (pmm_init bi) = boot_total bi ∧
  ∀ i, i ∈ free_set (pmm_init bi) ↔
    256 ≤ i < boot_total bi ∧ ¬ kernel_page bi i ∧
    existsb (λ e, usable_page e i) bi.(mmap) = true.
Proof. apply pmm_init_spec. Qed.

(** A 64 MiB machine with a hole, the kernel at 1 MiB and 1.5 MiB long. *)
Definition demo_boot : boot_info_t :=
  {| mmap := [ {| base := 0; length_ := 0x9FC00; type := 0 |};
               {| base := 0x9FC00; length_ := 0x60400; type := 1 |};
               {| base := 0x100000; length_ := 0x3F00800; type := 0 |} ];
     kernel_phys_base := 0x100000; kernel_size := 0x180000; total_memory := 0x4000000 |}.

Lemma demo_boot_ok : boot_ok demo_boot.
Proof.
  split; [by vm_compute| | |by vm_compute].
    - repeat constructor; vm_compute; congruence.
    - repeat first [apply FOP_cons | apply FOP_nil | apply List.Forall_cons | apply List.Forall_nil];
        intros i; unfold usable_page; cbn [base length_ type]; intros; bool_hyps;
        repeat (rewrite andb_false_iff || rewrite Z.ltb_ge || rewrite Z.leb_gt || rewrite Z.eqb_neq);
        unfold MMAP_USABLE, PAGE_SIZE in *; div_lia.
Qed.

Lemma pmm_init_correct_witness :
  boot_ok demo_boot ∧ pmm_get_free_pages (pmm_init demo_boot) = 15744 ∧
  (0x27F ∈ free_set (pmm_init demo_boot) → False) ∧ 0x280 ∈ free_set (pmm_init demo_boot).
Proof.
  destruct (pmm_init_correct demo_boot demo_boot_ok) as (Hwf & Ht & Hfree).
  split; [exact demo_boot_ok|]. split; [by vm_compute|]. split.
  - intros H. apply Hfree in H as (_ & Hk & _). apply Hk. split; [discriminate|reflexivity].
  - apply Hfree. split; [split; [discriminate|reflexivity]|]. split; [|reflexivity].
    intros [_ Hlt]. vm_compute in Hlt. discriminate.
Defined.

(** A usable region that starts above the last managed page frees nothing,
    yet [num_pages] wraps around and the free-page counter is lowered by the
    distance from the last managed page to the region. *)
Theorem init_region_above p e :
  pmm_wf p → e.(type) = MMAP_USABLE → 0 ≤ e.(base) → e.(base) + e.(length_) < 2 ^ 64 →
  (e.(base) + 4095) / PAGE_SIZE < (e.(base) + e.(length_)) / PAGE_SIZE →
  p.(total_pages) < (e.(base) + 4095) / PAGE_SIZE →
  init_region p e =
    with_free p (u64 (p.(free_pages) - ((e.(base) + 4095) / PAGE_SIZE - p.(total_pages)))).
Proof.
  intros [(_ & _ & Ht) _] Hty Hb Hl Hne Hgt. unfold PAGE_SIZE, PMM_MAX_PAGES in *.
  assert (e.(base) + 4095 < 2 ^ 64 ∧ 0 ≤ e.(base) + e.(length_)) as [Hov Hpos] by div_lia.
  unfold init_region, PAGE_SIZE. rewrite Hty, Z.eqb_refl. cbn [negb].
  rewrite ALIGN_UP_page, wrap_id, ALIGN_DOWN_page by lia.
  set (s := (e.(base) + 4095) / 4096) in *. set (t := (e.(base) + e.(length_)) / 4096) in *.
  assert (t < 2 ^ 52) as Htmax by (subst t; div_lia).
  rewrite (proj2 (Z.leb_gt _ _)) by lia.
  rewrite <- Z.mul_sub_distr_r, !Z.div_mul by lia. replace (s + (t - s)) with t by lia.
  rewrite (wrap_id 64 t), Z.gtb_ltb, (proj2 (Z.ltb_lt _ _)) by lia.
  assert (range_len s (u64 (p.(total_pages) - s)) = O) as Hlen.
  { unfold range_len, wrap. rewrite Zplus_mod_idemp_r, Z.mod_small by lia. unfold PMM_MAX_PAGES. lia. }
  unfold bm_clear_range. rewrite Hlen. cbn [bm_clear_from]. f_equal.
  unfold wrap. rewrite Zplus_mod_idemp_r. f_equal. lia.
Qed.

(** A 3.5 GiB machine whose last 1.5 GiB is mapped at 4 GiB. *)
Lemma init_region_above_witness :
  let p := {| bitmap := replicate (Z.to_nat 16384) UINT64_MAX; total_pages := 0xE0000; free_pages := 0 |} in
  let e := {| base := 0x100000000; length_ := 0x60000000; type := 0 |} in
  pmm_wf p ∧ free_pages (init_region p e) = 2 ^ 64 - 0x20000.
Proof.
  intros p e. destruct (blank_pmm_wf 0xE0000) as [Hwf _]; [by vm_compute|]. split; [exact Hwf|].
  rewrite (init_region_above p e Hwf); by vm_compute.
Defined.

(** ** The contract of [FrameAllocator] *)

Definition pmm_inv (p : pmm_t) : Prop := pmm_wf p ∧ 0 ∉ free_set p.

Lemma pmm_size_max p : pmm_inv p → p.(total_pages) ≤ MAX_FRAMES.
Proof. intros [[(_ & _ & Ht) _] _]. unfold MAX_FRAMES, PMM_MAX_PAGES in *. lia. Qed.

Lemma pmm_free_range p f : pmm_inv p → f ∈ free_set p → 0 < f < p.(total_pages).
Proof.
  intros [_ H0] Hf. assert (f ≠ 0) by (by intros ->). apply elem_of_free_set in Hf. lia.
Qed.

Lemma pmm_inv_alloc p c :
  pmm_inv p → 0 < c < 2 ^ 64 →
  let '(p', pa) := pmm_alloc_pages p c in
  pmm_inv p' ∧ total_pages p' = p.(total_pages) ∧
  ((pa = 0 ∧ p' = p) ∨
   ∃ f, 0 < f ∧ f + c ≤ p.(total_pages) ∧ pa = f * PAGE_SIZE ∧
        frames f c ⊆ free_set p ∧ free_set p' = free_set p ∖ frames f c).
Proof.
  intros [Hwf H0] Hc. pose proof (pmm_alloc_pages_spec p c Hwf Hc) as H.
  destruct (pmm_alloc_pages p c) as [p' pa].
  destruct H as [Hwf' [(-> & -> & _)|(f & Hf & Hfc & -> & _ & Htk)]].
  { split; [by split|]. split; [done|]. by left. }
  pose proof (pages_taken_set p p' f c Hf Htk) as E. split; [split; [done|rewrite E; set_solver]|].
  split; [apply Htk|].
  assert (frames f c ⊆ free_set p) as Hsub.
  { intros i Hi%elem_of_frames. apply elem_of_free_set. split; [lia|]. by apply Htk. }
  assert (f ≠ 0). { intros ->. apply H0, Hsub, elem_of_frames. lia. }
  right. exists f. split; [lia|done].
Qed.

Lemma pmm_inv_free p f c :
  pmm_inv p → 0 < f → 0 ≤ c →
  let p' := pmm_free_pages p (f * PAGE_SIZE) c in
  pmm_inv p' ∧ total_pages p' = p.(total_pages) ∧
  free_set p' = free_set p ∪ filter (λ i, i < p.(total_pages)) (frames f c).
Proof.
  intros [Hwf H0] Hf Hc. unfold PAGE_SIZE in *.
  destruct (free_pages_step p (f * 4096) c Hwf) as (Hwf' & Ht & E); [lia..|].
  unfold PAGE_SIZE in E. rewrite Z.div_mul in E by lia. cbn zeta. unfold pmm_inv. rewrite E.
  split; [|done]. split; [done|]. rewrite elem_of_union, elem_of_filter, elem_of_frames.
  intros [?|[? ?]]; [done|lia].
Qed.

#[export] Instance pmm_frame_allocator : FrameAllocator pmm_t := {
  fa_inv := pmm_inv;
  fa_size := total_pages;
  fa_free := free_set;
  fa_alloc := pmm_alloc_pages;
  fa_release := pmm_free_pages;
  fa_size_max := pmm_size_max;
  fa_free_range := pmm_free_range;
  fa_alloc_spec := pmm_inv_alloc;
  fa_release_spec := pmm_inv_free;
}.
