(* ===== verification/Slab.v ===== *)
(** * The kernel heap ([src/kernel/mm/slab.c])

    Twelve caches of power-of-two object sizes; each cache keeps its slabs (one
    or more pages cut into objects) on two intrusive lists, those with a free
    object and the full ones. A slab pointer is an index of [slab_pool]. The
    frames come from any [FrameAllocator]; memory is a total map from virtual
    addresses to bytes, since the heap only touches the direct map. A list walk
    takes fuel; an intrusive list visits each of the pool's slots at most once,
    so [SLAB_POOL_SIZE + 1] turns are enough for it. Every call runs under the
    lock of one cache, and is one step here. *)

From S2P Require Import Prelude Bitmap IList CMem FrameAllocator.
From stdpp Require Import functions base numbers list gmap.
Open Scope Z_scope.

Definition SLAB_NUM_CACHES : Z := 12.
Definition SLAB_POOL_SIZE : Z := 512.
Definition SLAB_MAX_OBJECTS : Z := 128.
Definition cache_sizes : list Z :=
  [32; 64; 128; 256; 512; 1024; 2048; 4096; 8192; 16384; 32768; 65536].

Record slab_t := {
  base : Z; phys : Z; total_obj : Z; free_count : Z; bitmap : list Z;
  next : option Z; cache : Z;
}.
Definition zero_slab : slab_t :=
  {| base := 0; phys := 0; total_obj := 0; free_count := 0; bitmap := [0; 0];
     next := None; cache := 0 |}.
#[export] Instance slab_inhabited : Inhabited slab_t := populate zero_slab.

Record slab_cache_t := {
  obj_size : Z; pages_per_slab : Z; obj_per_slab : Z;
  partial : option Z; full : option Z;
}.
Definition zero_cache : slab_cache_t :=
  {| obj_size := 0; pages_per_slab := 0; obj_per_slab := 0; partial := None; full := None |}.
#[export] Instance cache_inhabited : Inhabited slab_cache_t := populate zero_cache.

Record heap (A : Type) := {
  caches : list slab_cache_t;
  slab_pool : list slab_t;
  slab_pool_next : Z;
  pages : A;
  mem : Z → Z;
}.
Arguments Build_heap {A}.
Arguments caches {A}.
Arguments slab_pool {A}.
Arguments slab_pool_next {A}.
Arguments pages {A}.
Arguments mem {A}.

Definition set_next (s : slab_t) (n : option Z) : slab_t :=
  {| base := s.(base); phys := s.(phys); total_obj := s.(total_obj); free_count := s.(free_count);
     bitmap := s.(bitmap); next := n; cache := s.(cache) |}.
Definition set_bits (s : slab_t) (b : list Z) (fc : Z) : slab_t :=
  {| base := s.(base); phys := s.(phys); total_obj := s.(total_obj); free_count := fc;
     bitmap := b; next := s.(next); cache := s.(cache) |}.
Definition set_phys (s : slab_t) (p : Z) : slab_t :=
  {| base := s.(base); phys := p; total_obj := s.(total_obj); free_count := s.(free_count);
     bitmap := s.(bitmap); next := s.(next); cache := s.(cache) |}.
Definition set_lists (c : slab_cache_t) (p f : option Z) : slab_cache_t :=
  {| obj_size := c.(obj_size); pages_per_slab := c.(pages_per_slab);
     obj_per_slab := c.(obj_per_slab); partial := p; full := f |}.

(** ** Helpers *)

Definition poke (m : Z → Z) (a v : Z) : Z → Z := λ x, if x =? a then v else m x.

Fixpoint kmemcpy (n : nat) (m : Z → Z) (dst src : Z) : Z → Z :=
  match n with
  | O => m
  | S n => kmemcpy n (poke m dst (m src)) (dst + 1) (src + 1)
  end.

Fixpoint kmemset (n : nat) (m : Z → Z) (dst val : Z) : Z → Z :=
  match n with
  | O => m
  | S n => kmemset n (poke m dst (u8 val)) (dst + 1) val
  end.

Definition slab_bm_set (s : slab_t) (idx : Z) : list Z :=
  aset s.(bitmap) (idx / 64) (Z.lor (s.(bitmap).[idx / 64]) (Z.shiftl 1 (idx mod 64))).
Definition slab_bm_clear (s : slab_t) (idx : Z) : list Z :=
  aset s.(bitmap) (idx / 64) (Z.land (s.(bitmap).[idx / 64]) (lnot64 (Z.shiftl 1 (idx mod 64)))).
Definition slab_bm_test (s : slab_t) (idx : Z) : bool :=
  nonzero (Z.land (Z.shiftr (s.(bitmap).[idx / 64]) (idx mod 64)) 1).

Fixpoint bm_find_loop (n : nat) (s : slab_t) (w : Z) : Z :=
  match n with
  | O => UINT32_MAX
  | S n =>
      if s.(bitmap).[w] =? UINT64_MAX then bm_find_loop n s (w + 1) else
      let bit := ctz64 (lnot64 (s.(bitmap).[w])) in
      let idx := w * 64 + bit in
      if idx <? s.(total_obj) then idx else bm_find_loop n s (w + 1)
  end.
Definition slab_bm_find_free (s : slab_t) : Z :=
  bm_find_loop (Z.to_nat ((s.(total_obj) + 63) / 64)) s 0.

(** ** Intrusive lists *)

Definition walk_fuel : nat := Z.to_nat (SLAB_POOL_SIZE + 1).

(** The loop of [slab_list_remove] with [pp = &slab_pool[prev].next]. *)
Fixpoint remove_after (fuel : nat) (pool : list slab_t) (prev target : Z) : outcome (list slab_t) :=
  match fuel with
  | O => NoFuel
  | S fuel =>
      match next (pool.[prev]) with
      | None => Ret pool
      | Some i =>
          if i =? target then
            let pool := pool.[prev <- set_next (pool.[prev]) (next (pool.[target]))] in
            Ret (pool.[target <- set_next (pool.[target]) None])
          else remove_after fuel pool i target
      end
  end.

(** The list head is the cache's [partial] or [full] field. *)
Definition slab_list_remove (pool : list slab_t) (head : option Z) (target : Z)
  : outcome (list slab_t * option Z) :=
  match head with
  | None => Ret (pool, head)
  | Some i =>
      if i =? target then
        Ret (pool.[target <- set_next (pool.[target]) None], next (pool.[target]))
      else pool ← remove_after walk_fuel pool i target; Ret (pool, head)
  end.

(** The slab of the list at [p] whose pages contain [ptr]. *)
Definition owns (s : slab_t) (bytes ptr : Z) : bool :=
  (s.(base) <=? ptr) && (ptr <? s.(base) + bytes).

Fixpoint find_slab (fuel : nat) (pool : list slab_t) (p : option Z) (bytes ptr : Z)
  : outcome (option Z) :=
  match p with
  | None => Ret None
  | Some i =>
      match fuel with
      | O => NoFuel
      | S fuel =>
          if owns (pool.[i]) bytes ptr then Ret (Some i)
          else find_slab fuel pool (next (pool.[i])) bytes ptr
      end
  end.

Section slab.
Context {A : Type} `{FA : FrameAllocator A}.
Implicit Types h : heap A.

Definition with_pool (h : heap A) (pool : list slab_t) : heap A :=
  {| caches := h.(caches); slab_pool := pool; slab_pool_next := h.(slab_pool_next);
     pages := h.(pages); mem := h.(mem) |}.
Definition with_cache (h : heap A) (c : Z) (k : slab_cache_t) : heap A :=
  {| caches := h.(caches).[c <- k]; slab_pool := h.(slab_pool);
     slab_pool_next := h.(slab_pool_next); pages := h.(pages); mem := h.(mem) |}.
Definition with_pages (h : heap A) (a : A) : heap A :=
  {| caches := h.(caches); slab_pool := h.(slab_pool); slab_pool_next := h.(slab_pool_next);
     pages := a; mem := h.(mem) |}.
Definition with_mem (h : heap A) (m : Z → Z) : heap A :=
  {| caches := h.(caches); slab_pool := h.(slab_pool); slab_pool_next := h.(slab_pool_next);
     pages := h.(pages); mem := m |}.

Definition slab_pool_alloc (h : heap A) : heap A * option Z :=
  if h.(slab_pool_next) <? SLAB_POOL_SIZE then
    ({| caches := h.(caches); slab_pool := h.(slab_pool);
        slab_pool_next := u32 (h.(slab_pool_next) + 1); pages := h.(pages); mem := h.(mem) |},
     Some h.(slab_pool_next))
  else (h, None).

Definition slab_create (h : heap A) (c : Z) : heap A * option Z :=
  let k := h.(caches).[c] in
  let '(h, r) := slab_pool_alloc h in
  match r with
  | None => (h, None)
  | Some i =>
      let '(a, phys) := fa_alloc h.(pages) k.(pages_per_slab) in
      let h := with_pages h a in
      let h := with_pool h (h.(slab_pool).[i <- set_phys (h.(slab_pool).[i]) phys]) in
      if phys =? 0 then (h, None) else
      let s := {| base := PHYS_TO_VIRT phys; phys := phys; total_obj := k.(obj_per_slab);
                  free_count := k.(obj_per_slab); bitmap := [0; 0]; next := None; cache := c |} in
      let h := with_pool h (h.(slab_pool).[i <- s]) in
      (with_mem h (kmemset (Z.to_nat (k.(pages_per_slab) * PAGE_SIZE)) h.(mem) s.(base) 0), Some i)
  end.

(** The part of [cache_alloc] from line 155 on, with [s] at the head of the
    partial list. *)
Definition take_object (h : heap A) (c i : Z) : outcome (heap A * Z) :=
  let k := h.(caches).[c] in
  let s := h.(slab_pool).[i] in
  let idx := slab_bm_find_free s in
  if idx =? UINT32_MAX then Ret (h, 0) else
  let s := set_bits s (slab_bm_set s idx) (u32 (s.(free_count) - 1)) in
  let pool := h.(slab_pool).[i <- s] in
  let obj := u64 (s.(base) + idx * k.(obj_size)) in
  if s.(free_count) =? 0 then
    r ← slab_list_remove pool k.(partial) i;
    let '(pool, partial) := r in
    let pool := pool.[i <- set_next (pool.[i]) k.(full)] in
    Ret (with_cache (with_pool h pool) c (set_lists k partial (Some i)), obj)
  else Ret (with_pool h pool, obj).

Definition cache_alloc (h : heap A) (c : Z) : outcome (heap A * Z) :=
  match partial (h.(caches).[c]) with
  | Some i => take_object h c i
  | None =>
      let '(h, r) := slab_create h c in
      match r with
      | None => Ret (h, 0)
      | Some i =>
          let k := h.(caches).[c] in
          let pool := h.(slab_pool).[i <- set_next (h.(slab_pool).[i]) k.(partial)] in
          take_object (with_cache (with_pool h pool) c (set_lists k (Some i) k.(full))) c i
      end
  end.

(** The part of [cache_free] from line 216 on. *)
Definition put_object (h : heap A) (c i ptr : Z) (was_full : bool) : outcome (heap A) :=
  let k := h.(caches).[c] in
  let s := h.(slab_pool).[i] in
  let idx := u32 (ptr - s.(base)) / u32 k.(obj_size) in
  if negb (slab_bm_test s idx) then Ret h else
  let s := set_bits s (slab_bm_clear s idx) (u32 (s.(free_count) + 1)) in
  let pool := h.(slab_pool).[i <- s] in
  if was_full then
    r ← slab_list_remove pool k.(full) i;
    let '(pool, full) := r in
    let pool := pool.[i <- set_next (pool.[i]) k.(partial)] in
    Ret (with_cache (with_pool h pool) c (set_lists k (Some i) full))
  else Ret (with_pool h pool).

Definition cache_free (h : heap A) (c ptr : Z) : outcome (heap A) :=
  let k := h.(caches).[c] in
  let slab_bytes := k.(pages_per_slab) * PAGE_SIZE in
  r ← find_slab walk_fuel h.(slab_pool) k.(partial) slab_bytes ptr;
  match r with
  | Some i => put_object h c i ptr false
  | None =>
      r ← find_slab walk_fuel h.(slab_pool) k.(full) slab_bytes ptr;
      match r with
      | Some i => put_object h c i ptr true
      | None => Ret h
      end
  end.

Fixpoint find_cache_from (n : nat) (cs : list slab_cache_t) (size i : Z) : option Z :=
  match n with
  | O => None
  | S n => if size <=? obj_size (cs.[i]) then Some i else find_cache_from n cs size (i + 1)
  end.
Definition find_cache (h : heap A) (size : Z) : option Z :=
  find_cache_from (Z.to_nat SLAB_NUM_CACHES) h.(caches) size 0.

Fixpoint find_cache_for_ptr_from (n : nat) (h : heap A) (ptr c : Z) : outcome (option Z) :=
  match n with
  | O => Ret None
  | S n =>
      let k := h.(caches).[c] in
      let slab_bytes := k.(pages_per_slab) * PAGE_SIZE in
      r ← find_slab walk_fuel h.(slab_pool) k.(partial) slab_bytes ptr;
      match r with
      | Some _ => Ret (Some c)
      | None =>
          r ← find_slab walk_fuel h.(slab_pool) k.(full) slab_bytes ptr;
          match r with
          | Some _ => Ret (Some c)
          | None => find_cache_for_ptr_from n h ptr (c + 1)
          end
      end
  end.
(** Every caller passes null for the two output pointers. *)
Definition find_cache_for_ptr (h : heap A) (ptr : Z) : outcome (option Z) :=
  find_cache_for_ptr_from (Z.to_nat SLAB_NUM_CACHES) h ptr 0.

(** ** The interface of the heap *)

Definition init_cache (size : Z) : slab_cache_t :=
  let pages := if size <=? PAGE_SIZE then 1 else u32 ((size + PAGE_SIZE - 1) / PAGE_SIZE) in
  let objs := u32 (pages * PAGE_SIZE / size) in
  {| obj_size := size; pages_per_slab := pages;
     obj_per_slab := if objs >? SLAB_MAX_OBJECTS then SLAB_MAX_OBJECTS else objs;
     partial := None; full := None |}.

Definition slab_init (h : heap A) : heap A :=
  {| caches := init_cache <$> cache_sizes; slab_pool := h.(slab_pool); slab_pool_next := 0;
     pages := h.(pages); mem := h.(mem) |}.

Definition kmalloc (h : heap A) (size : Z) : outcome (heap A * Z) :=
  if size =? 0 then Ret (h, 0) else
  match find_cache h size with
  | None => Ret (h, 0)
  | Some c => cache_alloc h c
  end.

Definition kfree (h : heap A) (ptr : Z) : outcome (heap A) :=
  if ptr =? 0 then Ret h else
  r ← find_cache_for_ptr h ptr;
  match r with
  | None => Ret h
  | Some c => cache_free h c ptr
  end.

Definition krealloc (h : heap A) (ptr new_size : Z) : outcome (heap A * Z) :=
  if ptr =? 0 then kmalloc h new_size else
  if new_size =? 0 then h ← kfree h ptr; Ret (h, 0) else
  r ← find_cache_for_ptr h ptr;
  match r with
  | None => Ret (h, 0)
  | Some oc =>
      let old_size := obj_size (h.(caches).[oc]) in
      if new_size <=? old_size then Ret (h, ptr) else
      r ← kmalloc h new_size;
      let '(h, new_ptr) := r in
      if new_ptr =? 0 then Ret (h, 0) else
      let h := with_mem h (kmemcpy (Z.to_nat old_size) h.(mem) new_ptr ptr) in
      h ← kfree h ptr; Ret (h, new_ptr)
  end.

Definition kcalloc (h : heap A) (count size : Z) : outcome (heap A * Z) :=
  let total := u64 (count * size) in
  if negb (count =? 0) && negb (total / count =? size) then Ret (h, 0) else
  r ← kmalloc h total;
  let '(h, ptr) := r in
  if ptr =? 0 then Ret (h, 0)
  else Ret (with_mem h (kmemset (Z.to_nat total) h.(mem) ptr 0), ptr).
End slab.

(** ** Chains: what an intrusive list holds *)

Abbreviation chain pool := (ilist (λ i, next (aget pool i))).

(** The indices in use are slots of the pool. *)
Definition slots (pool : list slab_t) (l : list Z) : Prop := ∀ i, i ∈ l → 0 ≤ i < zlen pool.

Lemma NoDup_slots_length pool l : NoDup l → slots pool l → (length l ≤ length pool)%nat.
Proof. intros Hnd Hs. pose proof (NoDup_range_length l _ Hnd Hs). unfold zlen in *. lia. Qed.

Lemma find_slab_spec fuel pool p l bytes ptr :
  chain pool p l → (length l ≤ fuel)%nat →
  (∃ i, find_slab fuel pool p bytes ptr = Ret (Some i) ∧ i ∈ l ∧ owns (pool.[i]) bytes ptr = true) ∨
  (find_slab fuel pool p bytes ptr = Ret None ∧ ∀ i, i ∈ l → owns (pool.[i]) bytes ptr = false).
Proof.
  revert fuel p. induction l as [|i l IH]; intros fuel p Hc Hf.
  { cbn in Hc. subst p. right. split; [by destruct fuel|]. intros i Hi. by apply not_elem_of_nil in Hi. }
  destruct Hc as [-> Hc]. destruct fuel as [|fuel]; cbn [length] in Hf; [lia|]. cbn [find_slab].
  destruct (owns (pool.[i]) bytes ptr) eqn:E.
  { left. exists i. split; [done|]. split; [left|done]. }
  destruct (IH fuel _ Hc) as [(j & -> & Hj & Ho)|[-> Hno]]; [lia| |].
  - left. exists j. split; [done|]. split; [by right|done].
  - right. split; [done|]. intros j [->|Hj]%elem_of_cons; auto.
Qed.

(** The fields other than [next]. *)
Definition body (s : slab_t) : slab_t := set_next s None.

Lemma body_fields s s' :
  body s = body s' →
  s.(base) = s'.(base) ∧ s.(phys) = s'.(phys) ∧ s.(total_obj) = s'.(total_obj) ∧
  s.(free_count) = s'.(free_count) ∧ s.(bitmap) = s'.(bitmap) ∧ s.(cache) = s'.(cache).
Proof. destruct s, s'. unfold body, set_next. cbn. by intros [= -> -> -> -> -> ->]. Qed.

(** Two pools that differ only in links. *)
Definition relinked (pool pool' : list slab_t) : Prop :=
  zlen pool' = zlen pool ∧ ∀ i, 0 ≤ i < zlen pool → body (pool'.[i]) = body (pool.[i]).

Lemma relinked_set_next pool i n : 0 ≤ i < zlen pool → relinked pool (pool.[i <- set_next (pool.[i]) n]).
Proof.
  intros Hi. split; [apply zlen_aset|]. intros j Hj. rewrite aget_aset by lia.
  by case_decide; subst.
Qed.

Lemma relinked_trans pool1 pool2 pool3 :
  relinked pool1 pool2 → relinked pool2 pool3 → relinked pool1 pool3.
Proof.
  intros [L1 H1] [L2 H2]. split; [congruence|]. intros i Hi. rewrite H2 by lia. by apply H1.
Qed.

Lemma next_set_next pool i j n :
  0 ≤ i < zlen pool → 0 ≤ j →
  next (pool.[i <- set_next (pool.[i]) n].[j]) = if decide (i = j) then n else next (pool.[j]).
Proof. intros. rewrite aget_aset by lia. by case_decide. Qed.

(** Unlinking [t] from the chain that goes on after [prev]. *)
Lemma remove_after_spec fuel pool prev l1 t l2 :
  chain pool (next (pool.[prev])) (l1 ++ t :: l2) →
  NoDup (prev :: l1 ++ t :: l2) → slots pool (prev :: l1 ++ t :: l2) → (length l1 < fuel)%nat →
  ∃ pool', remove_after fuel pool prev t = Ret pool' ∧ relinked pool pool' ∧
    chain pool' (next (pool'.[prev])) (l1 ++ l2) ∧
    ∀ j, 0 ≤ j → j ∉ prev :: l1 ++ t :: l2 → next (pool'.[j]) = next (pool.[j]).
Proof.
  revert fuel prev. induction l1 as [|i l1 IH]; intros fuel prev Hc Hnd Hs Hf;
    (destruct fuel as [|fuel]; [cbn in Hf; lia|]); cbn [app] in *; destruct Hc as [E Hc];
    cbn [remove_after]; rewrite E.
  - rewrite Z.eqb_refl. apply NoDup_cons in Hnd as [Hp Hnd]. apply NoDup_cons in Hnd as [Ht Hnd].
    assert (0 ≤ prev < zlen pool) as Hprev by (apply Hs; left).
    assert (0 ≤ t < zlen pool) as Htr by (apply Hs; right; left).
    assert (prev ≠ t) as Hne by (intros ->; apply Hp; left).
    set (pool1 := pool.[prev <- _]).
    assert (zlen pool1 = zlen pool) as Hl1 by apply zlen_aset.
    set (pool2 := pool1.[t <- _]). exists pool2. split; [done|].
    assert (∀ j, 0 ≤ j → next (pool2.[j]) = if decide (j = t) then None
      else if decide (j = prev) then next (pool.[t]) else next (pool.[j])) as Hn.
    { intros j Hj. subst pool2. rewrite next_set_next by lia. subst pool1.
      rewrite next_set_next by lia. repeat case_decide; congruence. }
    split. { apply relinked_trans with pool1; apply relinked_set_next; lia. }
    split.
    + rewrite Hn by lia. rewrite decide_False, decide_True by done.
      eapply ilist_ext; [|done]. intros j Hj. rewrite Hn by (apply Hs; by do 2 right).
      rewrite decide_False by (by intros ->). rewrite decide_False; [done|].
      intros ->. apply Hp. by right.
    + intros j Hj Hni. rewrite Hn by done. rewrite !decide_False; [done|..]; set_solver.
  - destruct (Z.eqb_spec i t) as [->|Hne].
    { exfalso. apply NoDup_cons in Hnd as [_ Hnd]. apply NoDup_cons in Hnd as [Hni _]. set_solver. }
    pose proof Hnd as [Hp Hnd']%NoDup_cons.
    destruct (IH fuel i Hc Hnd') as (pool' & -> & Hre & Hch & Hoth).
    { intros j Hj. apply Hs. by right. } { cbn in Hf; lia. }
    exists pool'. split; [done|]. split; [done|].
    assert (0 ≤ prev < zlen pool) as Hprev by (apply Hs; left).
    split; [|intros j Hj Hni; apply Hoth; [done|set_solver]].
    rewrite (Hoth prev) by (lia || done). by rewrite E.
Qed.

Lemma slab_list_remove_spec pool head l1 t l2 :
  zlen pool = SLAB_POOL_SIZE → chain pool head (l1 ++ t :: l2) →
  NoDup (l1 ++ t :: l2) → slots pool (l1 ++ t :: l2) →
  ∃ pool' head', slab_list_remove pool head t = Ret (pool', head') ∧ relinked pool pool' ∧
    chain pool' head' (l1 ++ l2) ∧
    ∀ j, 0 ≤ j → j ∉ l1 ++ t :: l2 → next (pool'.[j]) = next (pool.[j]).
Proof.
  intros Hz Hc Hnd Hs. destruct l1 as [|i l1]; cbn [app] in *; destruct Hc as [-> Hc].
  - unfold slab_list_remove. rewrite Z.eqb_refl. eexists _, _. split; [done|].
    assert (0 ≤ t < zlen pool) by (apply Hs; left). pose proof Hnd as [Hni _]%NoDup_cons.
    split; [by apply relinked_set_next|]. split.
    + eapply ilist_ext; [|done]. intros j Hj. rewrite next_set_next by (done || apply Hs; by right).
      rewrite decide_False; [done|by intros ->].
    + intros j Hj Hnj. rewrite next_set_next by done. rewrite decide_False; [done|]. set_solver.
  - unfold slab_list_remove. destruct (Z.eqb_spec i t) as [->|Hne].
    { exfalso. apply NoDup_cons in Hnd as [Hni _]. set_solver. }
    destruct (remove_after_spec walk_fuel pool i l1 t l2 Hc Hnd Hs) as (pool' & E & Hre & Hch & Hoth).
    { pose proof (NoDup_slots_length pool _ Hnd Hs) as Hl. cbn [length] in Hl.
      rewrite length_app in Hl. unfold walk_fuel, zlen, SLAB_POOL_SIZE in *. lia. }
    rewrite E. eexists _, _. split; [done|]. split; [done|]. split; [by split|done].
Qed.

(** ** Well-formed slabs *)

(** The configuration [slab_init] gives cache [c]. *)
Definition cfg (c : Z) : slab_cache_t := init_cache (cache_sizes.[c]).
Definition is_cache (c : Z) : Prop := 0 ≤ c < SLAB_NUM_CACHES.

Lemma is_cache_cases c (P : Z → Prop) :
  is_cache c → (∀ i, i ∈ seqZ 0 12 → P i) → P c.
Proof. intros Hc HP. apply HP, elem_of_seqZ. unfold is_cache, SLAB_NUM_CACHES in Hc. lia. Qed.

(** Objects fill the pages of a slab exactly, and fit in the 128-bit bitmap. *)
Lemma cfg_facts c :
  is_cache c →
  32 ≤ obj_size (cfg c) ≤ 65536 ∧ 0 < pages_per_slab (cfg c) ≤ 16 ∧
  0 < obj_per_slab (cfg c) ≤ 128 ∧
  obj_per_slab (cfg c) * obj_size (cfg c) = pages_per_slab (cfg c) * PAGE_SIZE.
Proof.
  intros Hc. pattern c. apply (is_cache_cases c); [done|]. clear c Hc.
  apply Forall_forall. by repeat (constructor; [by vm_compute|]).
Qed.

Definition obj_free (s : slab_t) (k : Z) : bool := negb (slab_bm_test s k).

(** The first frame of a slab. *)
Definition frame (s : slab_t) : Z := s.(phys) / PAGE_SIZE.

Record slab_ok (c : Z) (s : slab_t) : Prop := {
  ok_total : s.(total_obj) = obj_per_slab (cfg c);
  ok_words : zlen s.(bitmap) = 2 ∧ words_ok s.(bitmap);
  ok_free : s.(free_count) = countb (obj_free s) 0 s.(total_obj);
  ok_cache : s.(cache) = c;
  ok_frame : 0 < frame s ∧ frame s + pages_per_slab (cfg c) ≤ MAX_FRAMES;
  ok_phys : s.(phys) = frame s * PAGE_SIZE;
  ok_base : s.(base) = s.(phys) + PHYS_MAP_BASE;
}.

Lemma slab_ok_body c s s' : body s = body s' → slab_ok c s → slab_ok c s'.
Proof.
  intros E [H1 H2 H3 H4 H5 H6 H7]. apply body_fields in E as (Eb & Ep & Et & Ef & Em & Ec).
  unfold frame, obj_free, slab_bm_test in *.
  split; unfold frame, obj_free, slab_bm_test; rewrite <- ?Et, <- ?Em, <- ?Ef, <- ?Ep, <- ?Eb, <- ?Ec; done.
Qed.

Lemma slab_has_bit c s k : is_cache c → slab_ok c s → 0 ≤ k < s.(total_obj) → has_bit s.(bitmap) k.
Proof.
  intros Hc Hok Hk. destruct (cfg_facts c Hc) as (_ & _ & Ho & _).
  unfold has_bit. rewrite (proj1 (ok_words _ _ Hok)). rewrite (ok_total _ _ Hok) in Hk. lia.
Qed.

Lemma free_count_range c s : is_cache c → slab_ok c s → 0 ≤ s.(free_count) ≤ s.(total_obj) ∧ s.(total_obj) ≤ 128.
Proof.
  intros Hc Hok. destruct (cfg_facts c Hc) as (_ & _ & Ho & _). rewrite (ok_free _ _ Hok).
  rewrite <- (ok_total _ _ Hok) in Ho. pose proof (countb_bounds (obj_free s) 0 s.(total_obj)). lia.
Qed.

(** The scan finds the lowest free object of a slab that has one. *)
Lemma bm_find_loop_spec n s w :
  zlen s.(bitmap) = 2 → words_ok s.(bitmap) → s.(total_obj) ≤ 128 → 0 ≤ w →
  w + Z.of_nat n = (s.(total_obj) + 63) / 64 →
  let r := bm_find_loop n s w in
  (w * 64 ≤ r < s.(total_obj) ∧ slab_bm_test s r = false) ∨
  (r = UINT32_MAX ∧ ∀ k, w * 64 ≤ k < s.(total_obj) → slab_bm_test s k = true).
Proof.
  intros Hl Hok Ht. revert w. induction n as [|n IH]; intros w Hw Hn; cbn [bm_find_loop].
  { right. split; [done|]. intros k Hk. exfalso. div_lia. }
  assert (0 ≤ w < zlen s.(bitmap)) as Hin by (rewrite Hl; div_lia).
  pose proof (word_scan s.(bitmap) w Hok Hin) as Hscan.
  specialize (IH (w + 1) ltac:(lia) ltac:(lia)). cbn zeta in *.
  assert ((∀ k, w * 64 ≤ k < Z.min (w * 64 + 64) s.(total_obj) → slab_bm_test s k = true) →
    (w * 64 ≤ bm_find_loop n s (w + 1) < s.(total_obj) ∧ slab_bm_test s (bm_find_loop n s (w + 1)) = false) ∨
    (bm_find_loop n s (w + 1) = UINT32_MAX ∧ ∀ k, w * 64 ≤ k < s.(total_obj) → slab_bm_test s k = true)) as Hnext.
  { intros Hall. destruct IH as [[Hr Hb]|[Hr Hb]]; [left; split; [lia|done]|right; split; [done|]].
    intros k Hk. destruct (decide (k < w * 64 + 64)); [apply Hall; lia|apply Hb; lia]. }
  destruct (s.(bitmap).[w] =? UINT64_MAX).
  - apply Hnext. intros k Hk. apply Hscan. lia.
  - destruct Hscan as (Hr & Hz & Hlow). set (b := ctz64 _) in *.
    destruct (Z.ltb_spec (w * 64 + b) s.(total_obj)); [left; split; [lia|done]|].
    apply Hnext. intros k Hk. apply Hlow. lia.
Qed.

Lemma slab_bm_find_free_spec c s :
  is_cache c → slab_ok c s → 0 < s.(free_count) →
  0 ≤ slab_bm_find_free s < s.(total_obj) ∧ slab_bm_test s (slab_bm_find_free s) = false.
Proof.
  intros Hc Hok Hf. destruct (free_count_range c s Hc Hok) as [Hr Ht].
  destruct (ok_words _ _ Hok) as [Hl Hw].
  assert (0 ≤ (s.(total_obj) + 63) / 64) by (apply Z.div_pos; lia).
  destruct (bm_find_loop_spec (Z.to_nat ((s.(total_obj) + 63) / 64)) s 0 Hl Hw Ht) as [H1|[_ H1]];
    [lia|lia|exact H1|].
  exfalso. rewrite (ok_free _ _ Hok), countb_none in Hf; [lia|].
  intros k Hk. unfold obj_free. by rewrite H1 by lia.
Qed.

(** Marking object [k], and the slab after it. *)
Definition marked (s : slab_t) (k : Z) : slab_t := set_bits s (slab_bm_set s k) (u32 (s.(free_count) - 1)).
Definition unmarked (s : slab_t) (k : Z) : slab_t := set_bits s (slab_bm_clear s k) (u32 (s.(free_count) + 1)).

Lemma marked_test c s k j :
  is_cache c → slab_ok c s → 0 ≤ k < s.(total_obj) → 0 ≤ j →
  slab_bm_test (marked s k) j = bool_decide (j = k) || slab_bm_test s j.
Proof. intros. apply bits_test_set; [by eapply slab_has_bit|done]. Qed.

Lemma unmarked_test c s k j :
  is_cache c → slab_ok c s → 0 ≤ k < s.(total_obj) → 0 ≤ j →
  slab_bm_test (unmarked s k) j = negb (bool_decide (j = k)) && slab_bm_test s j.
Proof. intros. apply bits_test_clear; [by eapply slab_has_bit|done]. Qed.

Lemma marked_ok c s k :
  is_cache c → slab_ok c s → 0 ≤ k < s.(total_obj) → slab_bm_test s k = false →
  slab_ok c (marked s k) ∧ free_count (marked s k) = s.(free_count) - 1.
Proof.
  intros Hc Hok Hk Hb. destruct (free_count_range c s Hc Hok) as [Hr Ht].
  assert (countb (obj_free (marked s k)) 0 s.(total_obj) = s.(free_count) - 1) as E.
  { rewrite (ok_free _ _ Hok), (countb_update (obj_free s) (obj_free (marked s k)) 0 _ k Hk); unfold obj_free.
    - rewrite (marked_test c), Hb, bool_decide_true by (done || lia). cbn. lia.
    - intros i Hi Hne. by rewrite (marked_test c), bool_decide_false by (done || lia). }
  pose proof (countb_bounds (obj_free (marked s k)) 0 s.(total_obj)).
  assert (free_count (marked s k) = s.(free_count) - 1) as Ef by (apply wrap_id; lia).
  split; [|done]. destruct Hok as [H1 [H2 H2'] H3 H4 H5 H6 H7].
  split; try done; [split; [cbn; by unfold slab_bm_set; rewrite zlen_aset|]|by rewrite Ef].
  apply bits_set_ok; [done|]. unfold has_bit. lia.
Qed.

Lemma unmarked_ok c s k :
  is_cache c → slab_ok c s → 0 ≤ k < s.(total_obj) → slab_bm_test s k = true →
  slab_ok c (unmarked s k) ∧ free_count (unmarked s k) = s.(free_count) + 1.
Proof.
  intros Hc Hok Hk Hb. destruct (free_count_range c s Hc Hok) as [Hr Ht].
  assert (countb (obj_free (unmarked s k)) 0 s.(total_obj) = s.(free_count) + 1) as E.
  { rewrite (ok_free _ _ Hok), (countb_update (obj_free s) (obj_free (unmarked s k)) 0 _ k Hk); unfold obj_free.
    - rewrite (unmarked_test c), Hb, bool_decide_true by (done || lia). cbn. lia.
    - intros i Hi Hne. by rewrite (unmarked_test c), bool_decide_false by (done || lia). }
  assert (free_count (unmarked s k) = s.(free_count) + 1) as Ef by (apply wrap_id; lia).
  split; [|done]. destruct Hok as [H1 [H2 H2'] H3 H4 H5 H6 H7].
  split; try done; [split; [cbn; by unfold slab_bm_clear; rewrite zlen_aset|]|by rewrite Ef].
  apply bits_clear_ok; [done|]. unfold has_bit. lia.
Qed.

(** ** The invariant of the heap *)

(** Ghost state: the slabs on the two lists of each cache. *)
Abbreviation lists := (Z → list Z * list Z).

Section invariant.
Context {A : Type} `{FA : FrameAllocator A}.
Implicit Types h : heap A.

Definition members (L : lists) (c : Z) : list Z := (L c).1 ++ (L c).2.

Definition cache_ok (pool : list slab_t) (k : slab_cache_t) (c : Z) (l : list Z * list Z) : Prop :=
  k = set_lists (cfg c) k.(partial) k.(full) ∧
  chain pool k.(partial) l.1 ∧ chain pool k.(full) l.2 ∧ NoDup (l.1 ++ l.2) ∧
  (∀ i, i ∈ l.1 → 0 < free_count (pool.[i])) ∧ (∀ i, i ∈ l.2 → free_count (pool.[i]) = 0).

(** The frames of slabs [i] of cache [c] and [j] of cache [c'] do not overlap. *)
Definition apart (pool : list slab_t) (c i c' j : Z) : Prop :=
  frame (pool.[i]) + pages_per_slab (cfg c) ≤ frame (pool.[j]) ∨
  frame (pool.[j]) + pages_per_slab (cfg c') ≤ frame (pool.[i]).

Record heap_inv (h : heap A) (L : lists) : Prop := {
  inv_caches : zlen h.(caches) = SLAB_NUM_CACHES;
  inv_pool : zlen h.(slab_pool) = SLAB_POOL_SIZE ∧ 0 ≤ h.(slab_pool_next) ≤ SLAB_POOL_SIZE;
  inv_pages : fa_inv h.(pages);
  inv_cache : ∀ c, is_cache c → cache_ok h.(slab_pool) (h.(caches).[c]) c (L c);
  inv_slab : ∀ c i, is_cache c → i ∈ members L c →
    0 ≤ i < h.(slab_pool_next) ∧ slab_ok c (h.(slab_pool).[i]);
  inv_apart : ∀ c i c' j, is_cache c → is_cache c' → i ∈ members L c → j ∈ members L c' → i ≠ j →
    apart h.(slab_pool) c i c' j;
  inv_used : ∀ c i f, is_cache c → i ∈ members L c →
    frame (h.(slab_pool).[i]) ≤ f < frame (h.(slab_pool).[i]) + pages_per_slab (cfg c) →
    f ∉ fa_free h.(pages);
}.

(** An object in use: its address and its size. *)
Definition block (h : heap A) (L : lists) (a n : Z) : Prop :=
  ∃ c i k, is_cache c ∧ i ∈ members L c ∧ 0 ≤ k < obj_per_slab (cfg c) ∧
    slab_bm_test (h.(slab_pool).[i]) k = true ∧
    a = base (h.(slab_pool).[i]) + k * obj_size (cfg c) ∧ n = obj_size (cfg c).

Lemma members_same_cache h L c c' i :
  heap_inv h L → is_cache c → is_cache c' → i ∈ members L c → i ∈ members L c' → c = c'.
Proof.
  intros Hinv Hc Hc' Hi Hi'. destruct (inv_slab _ _ Hinv c i Hc Hi) as [_ H1].
  destruct (inv_slab _ _ Hinv c' i Hc' Hi') as [_ H2].
  by rewrite <- (ok_cache _ _ H1), <- (ok_cache _ _ H2).
Qed.

Lemma cfg_set_lists c k p f : k = set_lists (cfg c) p f →
  obj_size k = obj_size (cfg c) ∧ pages_per_slab k = pages_per_slab (cfg c) ∧
  obj_per_slab k = obj_per_slab (cfg c).
Proof. by intros ->. Qed.

Lemma cfg_relist c k p f p' f' : k = set_lists (cfg c) p f → set_lists k p' f' = set_lists (cfg c) p' f'.
Proof. by intros ->. Qed.

(** Changing the marks of slab [i] of cache [c], and the lists of that cache. *)
Lemma inv_update h L c i s' pool' p f l :
  heap_inv h L → is_cache c → i ∈ members L c →
  zlen pool' = SLAB_POOL_SIZE →
  (∀ j, 0 ≤ j < SLAB_POOL_SIZE → j ≠ i → body (pool'.[j]) = body (h.(slab_pool).[j])) →
  body (pool'.[i]) = body s' → slab_ok c s' → s'.(phys) = phys (h.(slab_pool).[i]) →
  (∀ j, 0 ≤ j < SLAB_POOL_SIZE → j ∉ members L c → next (pool'.[j]) = next (h.(slab_pool).[j])) →
  l.1 ++ l.2 ≡ₚ members L c →
  cache_ok pool' (set_lists (h.(caches).[c]) p f) c l →
  heap_inv (with_cache (with_pool h pool') c (set_lists (h.(caches).[c]) p f)) (<[c := l]> L).
Proof.
  intros Hinv Hc Hi Hz Hb Hbi Hs' Hphys Hn Hperm Hcok.
  pose proof (inv_pool _ _ Hinv) as [Hpz Hpn].
  assert (∀ c' j, is_cache c' → j ∈ members (<[c:=l]> L) c' ↔ j ∈ members L c') as Hmem.
  { intros c' j Hc'. unfold members at 1. destruct (decide (c' = c)) as [->|Hne].
    - rewrite fn_lookup_insert. by rewrite Hperm.
    - by rewrite fn_lookup_insert_ne. }
  assert (∀ c' j, is_cache c' → j ∈ members L c' → 0 ≤ j < SLAB_POOL_SIZE) as Hrng.
  { intros c' j Hc' Hj. destruct (inv_slab _ _ Hinv c' j Hc' Hj). lia. }
  assert (∀ c' j, is_cache c' → j ∈ members L c' → frame (pool'.[j]) = frame (h.(slab_pool).[j])) as Hfr.
  { intros c' j Hc' Hj. unfold frame. f_equal. destruct (decide (j = i)) as [->|Hne].
    - apply body_fields in Hbi as (_ & -> & _). done.
    - by destruct (body_fields _ _ (Hb j (Hrng c' j Hc' Hj) Hne)) as (_ & -> & _). }
  split; cbn [caches slab_pool slab_pool_next pages with_cache with_pool].
  - rewrite zlen_aset. apply Hinv.
  - done.
  - apply Hinv.
  - intros c' Hc'. rewrite aget_aset by (rewrite ?(inv_caches _ _ Hinv); unfold is_cache in *; lia).
    case_decide as E; [subst c'; by rewrite fn_lookup_insert|]. rewrite fn_lookup_insert_ne by done.
    destruct (inv_cache _ _ Hinv c' Hc') as (H1 & H2 & H3 & H4 & H5 & H6).
    assert (∀ j, j ∈ members L c' → 0 ≤ j < SLAB_POOL_SIZE ∧ j ≠ i ∧ next (pool'.[j]) = next (h.(slab_pool).[j]) ∧
      free_count (pool'.[j]) = free_count (h.(slab_pool).[j])) as Hj.
    { intros j Hj. pose proof (Hrng c' j Hc' Hj) as Hr.
      assert (j ≠ i) as Hne by (intros ->; apply E; by eapply members_same_cache).
      split; [done|]. split; [done|]. split.
      - apply Hn; [done|]. intros Hjc. apply E. by eapply members_same_cache.
      - by destruct (body_fields _ _ (Hb j Hr Hne)) as (_ & _ & _ & -> & _). }
    split; [done|]. unfold members in Hj.
    split; [eapply ilist_ext; [|done]; intros j Hjl; apply Hj, elem_of_app; by left|].
    split; [eapply ilist_ext; [|done]; intros j Hjl; apply Hj, elem_of_app; by right|].
    split; [done|]. split; intros j Hjl.
    + destruct (Hj j) as (_ & _ & _ & ->); [apply elem_of_app; by left|]. by apply H5.
    + destruct (Hj j) as (_ & _ & _ & ->); [apply elem_of_app; by right|]. by apply H6.
  - intros c' j Hc' Hj. rewrite Hmem in Hj by done. destruct (inv_slab _ _ Hinv c' j Hc' Hj) as [Hr Hok].
    split; [done|]. destruct (decide (j = i)) as [->|Hne].
    + assert (c' = c) as -> by (by eapply members_same_cache). by apply (slab_ok_body c s').
    + eapply slab_ok_body; [|done]. symmetry. apply Hb; [lia|done].
  - intros c1 j1 c2 j2 Hc1 Hc2 Hj1 Hj2 Hne. rewrite Hmem in Hj1, Hj2 by done.
    unfold apart. rewrite (Hfr c1), (Hfr c2) by done. by apply (inv_apart _ _ Hinv).
  - intros c' j fr Hc' Hj. rewrite Hmem in Hj by done. rewrite (Hfr c') by done. by apply (inv_used _ _ Hinv).
Qed.

(** ** Taking and giving back one object *)

Lemma NoDup_middle (l1 l2 : list Z) i : NoDup (l1 ++ i :: l2) → i ∉ l1 ++ l2.
Proof. rewrite <- Permutation_middle. by intros [? _]%NoDup_cons. Qed.

(** [h'] is [h] with mark [k] of slab [i] set to [b]; slabs may have moved
    between the lists of a cache. *)
Definition touched (h : heap A) (L : lists) (h' : heap A) (L' : lists) (i k : Z) (b : bool) : Prop :=
  h'.(mem) = h.(mem) ∧
  (∀ c j, is_cache c → j ∈ members L' c ↔ j ∈ members L c) ∧
  ∀ c j, is_cache c → j ∈ members L c →
    base (h'.(slab_pool).[j]) = base (h.(slab_pool).[j]) ∧
    ∀ m, 0 ≤ m → slab_bm_test (h'.(slab_pool).[j]) m =
      if decide (j = i ∧ m = k) then b else slab_bm_test (h.(slab_pool).[j]) m.

Lemma with_cache_id h c :
  zlen h.(caches) = SLAB_NUM_CACHES → is_cache c →
  with_cache h c (set_lists (h.(caches).[c]) (partial (h.(caches).[c])) (full (h.(caches).[c]))) = h.
Proof.
  intros Hz Hc. unfold with_cache. destruct h as [cs pool nx a mm]. cbn in *. f_equal.
  destruct (cs.[c]) eqn:E. unfold set_lists. cbn. rewrite <- E. apply list_insert_id.
  apply aget_lookup. unfold is_cache in Hc. lia.
Qed.

(** Storing slab [s'] in slot [i] and relinking the lists of its cache. *)
Lemma update_spec h L c i s' pool' p f l k b :
  heap_inv h L → is_cache c → i ∈ members L c →
  relinked (h.(slab_pool).[i <- s']) pool' →
  slab_ok c s' → s'.(phys) = phys (h.(slab_pool).[i]) →
  (∀ m, 0 ≤ m → slab_bm_test s' m = if decide (m = k) then b else slab_bm_test (h.(slab_pool).[i]) m) →
  (∀ j, 0 ≤ j < SLAB_POOL_SIZE → j ∉ members L c → next (pool'.[j]) = next (h.(slab_pool).[j])) →
  l.1 ++ l.2 ≡ₚ members L c →
  cache_ok pool' (set_lists (h.(caches).[c]) p f) c l →
  let h' := with_cache (with_pool h pool') c (set_lists (h.(caches).[c]) p f) in
  heap_inv h' (<[c := l]> L) ∧ touched h L h' (<[c := l]> L) i k b.
Proof.
  intros Hinv Hc Hi [Hz2 Hb2] Hs' Hphys Htest Hn Hperm Hcok.
  destruct (inv_slab _ _ Hinv c i Hc Hi) as [Hir Hok]. pose proof (inv_pool _ _ Hinv) as [Hz Hpn].
  rewrite zlen_aset in Hz2, Hb2.
  assert (∀ j, 0 ≤ j < SLAB_POOL_SIZE → j ≠ i → body (pool'.[j]) = body (h.(slab_pool).[j])) as Hb.
  { intros j Hj Hne. rewrite Hb2 by lia. by rewrite aget_aset_ne by lia. }
  assert (body (pool'.[i]) = body s') as Hbi by (rewrite Hb2 by lia; by rewrite aget_aset_eq by lia).
  split; [apply (inv_update h L c i s'); try done; lia|]. split; [done|]. split.
  { intros c' j Hc'. unfold members at 1. destruct (decide (c' = c)) as [->|Hne].
    - rewrite fn_lookup_insert. by rewrite Hperm.
    - by rewrite fn_lookup_insert_ne. }
  intros c' j Hc' Hj. cbn [slab_pool with_cache with_pool]. unfold slab_bm_test in *.
  destruct (decide (j = i)) as [->|Hne].
  - apply body_fields in Hbi as (-> & _ & _ & _ & -> & _).
    split; [by rewrite (ok_base _ _ Hs'), (ok_base _ _ Hok), Hphys|]. intros m Hm.
    rewrite Htest by done. destruct (decide (m = k)); [by rewrite decide_True|by rewrite decide_False by tauto].
  - destruct (inv_slab _ _ Hinv c' j Hc' Hj) as [Hr _].
    destruct (body_fields _ _ (Hb j ltac:(lia) Hne)) as (-> & _ & _ & _ & -> & _).
    split; [done|]. intros m Hm. by rewrite decide_False by tauto.
Qed.

(** Storing a slab whose body changed keeps the chains. *)
Lemma chain_store pool i s l p :
  0 ≤ i < zlen pool → slots pool l → s.(next) = next (pool.[i]) → chain pool p l →
  chain (pool.[i <- s]) p l.
Proof.
  intros Hi Hs Hn. apply ilist_ext. intros j Hj. rewrite aget_aset by (done || by apply Hs).
  case_decide; congruence.
Qed.

Lemma members_slots h L c : heap_inv h L → is_cache c → slots h.(slab_pool) (members L c).
Proof.
  intros Hinv Hc i Hi. destruct (inv_slab _ _ Hinv c i Hc Hi).
  pose proof (inv_pool _ _ Hinv). lia.
Qed.

(** When slab [i] keeps its place. *)
Lemma update_in_place h L c i s' k b :
  heap_inv h L → is_cache c → i ∈ members L c →
  slab_ok c s' → s'.(phys) = phys (h.(slab_pool).[i]) → s'.(next) = next (h.(slab_pool).[i]) →
  (∀ m, 0 ≤ m → slab_bm_test s' m = if decide (m = k) then b else slab_bm_test (h.(slab_pool).[i]) m) →
  0 < s'.(free_count) → i ∈ (L c).1 →
  let h' := with_pool h (h.(slab_pool).[i <- s']) in
  heap_inv h' (<[c := L c]> L) ∧ touched h L h' (<[c := L c]> L) i k b.
Proof.
  intros Hinv Hc Hi Hs' Hphys Hnext Htest Hf Hp.
  destruct (inv_slab _ _ Hinv c i Hc Hi) as [Hir Hok]. pose proof (inv_pool _ _ Hinv) as [Hz Hpn].
  pose proof (members_slots h L c Hinv Hc) as Hslots.
  destruct (inv_cache _ _ Hinv c Hc) as (Hcfg & Hcp & Hcf & Hnd & Hfp & Hff).
  set (pool' := h.(slab_pool).[i <- s']). cbn zeta.
  assert (∀ j, 0 ≤ j → pool'.[j] = if decide (i = j) then s' else h.(slab_pool).[j]) as Hget.
  { intros j Hj. apply aget_aset; lia. }
  rewrite <- (with_cache_id (with_pool h pool') c) by (done || apply Hinv).
  apply (update_spec h L c i s'); try done.
  - intros j Hj Hnm. rewrite Hget by lia. rewrite decide_False; [done|by intros ->].
  - split; [by eapply cfg_relist|]. cbn [set_lists partial full].
    split; [apply chain_store; [lia| |done..]; intros j Hj; apply Hslots, elem_of_app; by left|].
    split; [apply chain_store; [lia| |done..]; intros j Hj; apply Hslots, elem_of_app; by right|].
    split; [done|]. split; intros j Hj.
    + rewrite Hget by (apply Hslots, elem_of_app; by left). case_decide; [done|by apply Hfp].
    + rewrite Hget by (apply Hslots, elem_of_app; by right). rewrite decide_False; [by apply Hff|].
      intros ->. apply NoDup_app in Hnd as (_ & Hdis & _). by apply (Hdis j).
Qed.

(** When slab [i] moves from one list to the head of the other: out of [l1 ++
    i :: l2], whose head was [p], onto [l], whose head was [q]. *)
Lemma chain_move pool i s p q l1 l2 l :
  zlen pool = SLAB_POOL_SIZE → s.(next) = next (pool.[i]) →
  chain pool p (l1 ++ i :: l2) → chain pool q l →
  NoDup ((l1 ++ i :: l2) ++ l) → slots pool ((l1 ++ i :: l2) ++ l) →
  ∃ pool2 p', slab_list_remove (pool.[i <- s]) p i = Ret (pool2, p') ∧
    let pool' := pool2.[i <- set_next (pool2.[i]) q] in
    relinked (pool.[i <- s]) pool' ∧ chain pool' p' (l1 ++ l2) ∧ chain pool' (Some i) (i :: l) ∧
    ∀ j, 0 ≤ j < SLAB_POOL_SIZE → j ∉ (l1 ++ i :: l2) ++ l → next (pool'.[j]) = next (pool.[j]).
Proof.
  intros Hz Hn Hp Hq Hnd Hs. set (pool1 := pool.[i <- s]).
  assert (zlen pool1 = SLAB_POOL_SIZE) as Hz1 by (unfold pool1; by rewrite zlen_aset).
  assert (i ∈ (l1 ++ i :: l2) ++ l) as Hin by set_solver. pose proof (Hs i Hin) as Hir.
  apply NoDup_app in Hnd as (Hnd1 & Hdis & Hnd2).
  assert (slots pool (l1 ++ i :: l2) ∧ slots pool l) as [Hs1 Hs2]
    by (split; intros j Hj; apply Hs, elem_of_app; auto).
  destruct (slab_list_remove_spec pool1 p l1 i l2) as (pool2 & p' & Er & [Hz2 Hb2] & Hch & Hoth);
    [done|by apply chain_store|done|by intros j Hj; rewrite Hz1, <- Hz; apply Hs1|].
  assert (∀ j, 0 ≤ j → next (pool1.[j]) = next (pool.[j])) as Hn1.
  { intros j Hj. unfold pool1. rewrite aget_aset by lia. case_decide; congruence. }
  exists pool2, p'. split; [done|]. cbn zeta. set (pool' := pool2.[i <- _]).
  assert (∀ j, 0 ≤ j → next (pool'.[j]) = if decide (i = j) then q else next (pool2.[j])) as Hn'.
  { intros j Hj. apply next_set_next; lia. }
  assert (i ∉ l1 ++ l2 ∧ i ∉ l) as [Hi1 Hi2].
  { split; [|by apply Hdis; set_solver]. rewrite <- Permutation_middle in Hnd1. by apply NoDup_cons in Hnd1 as [? _]. }
  split; [|split; [|split]].
  - apply relinked_trans with pool2; [by split|]. apply relinked_set_next. lia.
  - eapply ilist_ext; [|done]. intros j Hj. rewrite Hn' by (apply Hs1; set_solver).
    rewrite decide_False; [done|by intros ->].
  - split; [done|]. rewrite Hn' by lia. rewrite decide_True by done. eapply ilist_ext; [|done].
    intros j Hj. rewrite Hn' by (by apply Hs2). rewrite decide_False by (by intros ->).
    rewrite Hoth by ((by apply Hs2) || intros Hj1; by eapply Hdis). apply Hn1. by apply Hs2.
  - intros j Hj Hnm. rewrite Hn' by lia. rewrite decide_False by (by intros ->).
    rewrite Hoth by (lia || set_solver). apply Hn1. lia.
Qed.

Lemma object_address c s k :
  is_cache c → slab_ok c s → 0 ≤ k < obj_per_slab (cfg c) →
  PHYS_MAP_BASE < s.(base) + k * obj_size (cfg c) ∧
  s.(base) + k * obj_size (cfg c) + obj_size (cfg c) < 2 ^ 64.
Proof.
  intros Hc Hok Hk. destruct (cfg_facts c Hc) as (Hsz & Hpg & Hob & Hfit).
  rewrite (ok_base _ _ Hok), (ok_phys _ _ Hok). pose proof (ok_frame _ _ Hok).
  unfold PHYS_MAP_BASE, MAX_FRAMES, PAGE_SIZE in *. nia.
Qed.

Lemma relinked_free_count pool i s pool' j :
  relinked (pool.[i <- s]) pool' → 0 ≤ i < zlen pool → 0 ≤ j < zlen pool →
  free_count (pool'.[j]) = if decide (i = j) then s.(free_count) else free_count (pool.[j]).
Proof.
  intros [_ Hre] Hi Hj. rewrite zlen_aset in Hre.
  destruct (body_fields _ _ (Hre j Hj)) as (_ & _ & _ & -> & _). rewrite aget_aset by lia. by case_decide.
Qed.

(** When slab [i] moves to the full list. *)
Lemma update_to_full h L c i s' k b l1 l2 :
  heap_inv h L → is_cache c → (L c).1 = l1 ++ i :: l2 →
  slab_ok c s' → s'.(phys) = phys (h.(slab_pool).[i]) → s'.(next) = next (h.(slab_pool).[i]) →
  (∀ m, 0 ≤ m → slab_bm_test s' m = if decide (m = k) then b else slab_bm_test (h.(slab_pool).[i]) m) →
  s'.(free_count) = 0 →
  let kc := h.(caches).[c] in
  ∃ pool2 p', slab_list_remove (h.(slab_pool).[i <- s']) kc.(partial) i = Ret (pool2, p') ∧
    let pool' := pool2.[i <- set_next (pool2.[i]) kc.(full)] in
    let h' := with_cache (with_pool h pool') c (set_lists kc p' (Some i)) in
    let L' := <[c := (l1 ++ l2, i :: (L c).2)]> L in
    heap_inv h' L' ∧ touched h L h' L' i k b.
Proof.
  intros Hinv Hc HL Hs' Hphys Hnext Htest Hf. cbn zeta.
  assert (i ∈ members L c) as Hi by (apply elem_of_app; left; rewrite HL; set_solver).
  pose proof (members_slots h L c Hinv Hc) as Hsl. pose proof (inv_pool _ _ Hinv) as [Hz Hpn].
  destruct (inv_cache _ _ Hinv c Hc) as (Hcfg & Hcp & Hcf & Hnd & Hfp & Hff).
  destruct (chain_move h.(slab_pool) i s' (partial (h.(caches).[c])) (full (h.(caches).[c])) l1 l2 (L c).2)
    as (pool2 & p' & Er & Hre & Hch1 & Hch2 & Hoth); try (done || by rewrite <- HL).
  exists pool2, p'. split; [done|]. set (pool' := pool2.[i <- _]) in *.
  assert (l1 ++ l2 ++ i :: (L c).2 ≡ₚ members L c) as Hperm.
  { unfold members. rewrite HL. solve_Permutation. }
  apply (update_spec h L c i s'); try done.
  - intros j Hj Hnm. apply Hoth; [done|]. by rewrite <- HL.
  - cbn. by rewrite <- app_assoc.
  - split; [by eapply cfg_relist|]. split; [done|]. split; [done|].
    split; [cbn; rewrite <- app_assoc, Hperm; done|]. cbn [fst snd].
    split; intros j Hj; rewrite (relinked_free_count _ _ _ _ j Hre) by (apply Hsl; try done; rewrite <- Hperm; set_solver).
    + rewrite decide_False; [apply Hfp; rewrite HL; set_solver|]. intros ->.
      rewrite HL in Hnd. by apply NoDup_app, proj1, NoDup_middle in Hnd.
    + case_decide; [done|]. apply Hff. set_solver.
Qed.

(** When slab [i] moves from the full list to the partial one. *)
Lemma update_to_partial h L c i s' k b l1 l2 :
  heap_inv h L → is_cache c → (L c).2 = l1 ++ i :: l2 →
  slab_ok c s' → s'.(phys) = phys (h.(slab_pool).[i]) → s'.(next) = next (h.(slab_pool).[i]) →
  (∀ m, 0 ≤ m → slab_bm_test s' m = if decide (m = k) then b else slab_bm_test (h.(slab_pool).[i]) m) →
  0 < s'.(free_count) →
  let kc := h.(caches).[c] in
  ∃ pool2 f', slab_list_remove (h.(slab_pool).[i <- s']) kc.(full) i = Ret (pool2, f') ∧
    let pool' := pool2.[i <- set_next (pool2.[i]) kc.(partial)] in
    let h' := with_cache (with_pool h pool') c (set_lists kc (Some i) f') in
    let L' := <[c := (i :: (L c).1, l1 ++ l2)]> L in
    heap_inv h' L' ∧ touched h L h' L' i k b.
Proof.
  intros Hinv Hc HL Hs' Hphys Hnext Htest Hf. cbn zeta.
  assert (i ∈ members L c) as Hi by (apply elem_of_app; right; rewrite HL; set_solver).
  pose proof (members_slots h L c Hinv Hc) as Hsl. pose proof (inv_pool _ _ Hinv) as [Hz Hpn].
  destruct (inv_cache _ _ Hinv c Hc) as (Hcfg & Hcp & Hcf & Hnd & Hfp & Hff).
  assert (members L c ≡ₚ (l1 ++ i :: l2) ++ (L c).1) as Hmm.
  { unfold members. rewrite HL. solve_Permutation. }
  destruct (chain_move h.(slab_pool) i s' (full (h.(caches).[c])) (partial (h.(caches).[c])) l1 l2 (L c).1)
    as (pool2 & p' & Er & Hre & Hch1 & Hch2 & Hoth); try (done || by rewrite <- HL).
  { by rewrite <- Hmm. } { intros j Hj. apply Hsl. by rewrite Hmm. }
  exists pool2, p'. split; [done|]. set (pool' := pool2.[i <- _]) in *.
  assert ((i :: (L c).1) ++ l1 ++ l2 ≡ₚ members L c) as Hperm.
  { unfold members. rewrite HL. solve_Permutation. }
  apply (update_spec h L c i s'); try done.
  - intros j Hj Hnm. apply Hoth; [done|]. by rewrite <- Hmm.
  - split; [by eapply cfg_relist|]. split; [done|]. split; [done|].
    split; [cbn [fst snd]; rewrite Hperm; done|]. cbn [fst snd].
    split; intros j Hj; rewrite (relinked_free_count _ _ _ _ j Hre) by (apply Hsl; try done; rewrite <- Hperm; set_solver).
    + case_decide; [done|]. apply Hfp. set_solver.
    + rewrite decide_False; [apply Hff; rewrite HL; set_solver|]. intros ->.
      rewrite HL in Hnd. by apply NoDup_app, proj2, proj2, NoDup_middle in Hnd.
Qed.

Lemma take_object_spec h L c i lp :
  heap_inv h L → is_cache c → (L c).1 = i :: lp →
  ∃ h' L' k, take_object h c i = Ret (h', base (h.(slab_pool).[i]) + k * obj_size (cfg c)) ∧
    heap_inv h' L' ∧ 0 ≤ k < obj_per_slab (cfg c) ∧
    slab_bm_test (h.(slab_pool).[i]) k = false ∧ touched h L h' L' i k true.
Proof.
  intros Hinv Hc HL. assert (i ∈ (L c).1) as Hi1 by (rewrite HL; left).
  assert (i ∈ members L c) as Hi by (apply elem_of_app; by left).
  destruct (inv_slab _ _ Hinv c i Hc Hi) as [Hir Hok].
  destruct (inv_cache _ _ Hinv c Hc) as (Hcfg & _ & _ & _ & Hfp & _).
  destruct (cfg_set_lists _ _ _ _ Hcfg) as (Esz & _ & _).
  set (s := h.(slab_pool).[i]) in *. assert (0 < s.(free_count)) as Hf by (by apply Hfp).
  destruct (slab_bm_find_free_spec c s Hc Hok Hf) as [Hk Hb].
  unfold take_object. fold s. remember (slab_bm_find_free s) as k eqn:Ek. clear Ek.
  destruct (marked_ok c s k Hc Hok Hk Hb) as [Hok' Hfc].
  pose proof (λ m, marked_test c s k m Hc Hok Hk) as Htest. rewrite (ok_total _ _ Hok) in Hk.
  destruct (cfg_facts c Hc) as (Hsz & _ & Hob & _). destruct (object_address c s k Hc Hok Hk) as [Ha1 Ha2].
  rewrite (proj2 (Z.eqb_neq k UINT32_MAX)) by (unfold UINT32_MAX; lia). fold (marked s k).
  change (base (marked s k)) with s.(base). rewrite Esz, wrap_id by (unfold PHYS_MAP_BASE in *; lia).
  assert (∀ m, 0 ≤ m → slab_bm_test (marked s k) m = if decide (m = k) then true else slab_bm_test s m) as Htest'.
  { intros m Hm. rewrite Htest by done. case_bool_decide; by case_decide. }
  destruct (Z.eqb_spec (free_count (marked s k)) 0) as [E0|E0].
  - destruct (update_to_full h L c i (marked s k) k true [] lp) as (pool2 & p' & -> & ? & ?); try done.
    eexists _, _, k. split; [done|]. split; [done|]. split; [done|]. by split.
  - eexists _, (<[c := L c]> L), k. split; [done|].
    destruct (update_in_place h L c i (marked s k) k true) as [? ?]; try done; lia.
Qed.

(** Giving back the object that contains [ptr], a pointer into slab [i]. *)
Lemma put_object_spec h L c i ptr (was_full : bool) :
  heap_inv h L → is_cache c → i ∈ (if was_full then (L c).2 else (L c).1) →
  owns (h.(slab_pool).[i]) (pages_per_slab (cfg c) * PAGE_SIZE) ptr = true →
  let k := (ptr - base (h.(slab_pool).[i])) / obj_size (cfg c) in
  0 ≤ k < obj_per_slab (cfg c) ∧
  ∃ h' L', put_object h c i ptr was_full = Ret h' ∧ heap_inv h' L' ∧ touched h L h' L' i k false.
Proof.
  intros Hinv Hc Hi1 Ho.
  assert (i ∈ members L c) as Hi by (apply elem_of_app; destruct was_full; auto).
  destruct (inv_slab _ _ Hinv c i Hc Hi) as [Hir Hok].
  destruct (inv_cache _ _ Hinv c Hc) as (Hcfg & _ & _ & _ & Hfp & Hff).
  destruct (cfg_set_lists _ _ _ _ Hcfg) as (Esz & _ & _). unfold put_object. rewrite Esz.
  set (s := h.(slab_pool).[i]) in *. unfold owns in Ho. bool_hyps.
  destruct (cfg_facts c Hc) as (Hsz & Hpg & Hob & Hfit). unfold PAGE_SIZE in *.
  rewrite !wrap_id by lia. set (k := (ptr - s.(base)) / obj_size (cfg c)).
  assert (0 ≤ k < obj_per_slab (cfg c)) as Hk.
  { split; [apply Z.div_pos; lia|]. apply Z.div_lt_upper_bound; lia. }
  split; [done|]. destruct (slab_bm_test s k) eqn:Hb; cbn [negb].
  2: { exists h, L. split; [done|]. split; [done|]. split; [done|]. split; [done|].
       intros c' j Hc' Hj. split; [done|]. intros m Hm. case_decide as E; [|done]. by destruct E as [-> ->]. }
  rewrite <- (ok_total _ _ Hok) in Hk. destruct (unmarked_ok c s k Hc Hok Hk Hb) as [Hok' Hfc].
  assert (∀ m, 0 ≤ m → slab_bm_test (unmarked s k) m = if decide (m = k) then false else slab_bm_test s m) as Htest.
  { intros m Hm. rewrite (unmarked_test c) by done. case_bool_decide; by case_decide. }
  fold (unmarked s k). pose proof (free_count_range c s Hc Hok).
  destruct was_full.
  - apply list_elem_of_split in Hi1 as (l1 & l2 & HL).
    destruct (update_to_partial h L c i (unmarked s k) k false l1 l2) as (pool2 & p' & -> & ? & ?); try done; [lia|].
    eexists _, _. split; [done|]. by split.
  - eexists _, (<[c := L c]> L). split; [done|].
    destruct (update_in_place h L c i (unmarked s k) k false) as [? ?]; try done; lia.
Qed.

(** ** A new slab *)

(** Steps that leave the slabs on the lists alone. *)
Record extends (h h' : heap A) : Prop := {
  ext_caches : h'.(caches) = h.(caches);
  ext_zlen : zlen h'.(slab_pool) = zlen h.(slab_pool);
  ext_pool : ∀ j, 0 ≤ j < h.(slab_pool_next) → h'.(slab_pool).[j] = h.(slab_pool).[j];
  ext_next : h.(slab_pool_next) ≤ h'.(slab_pool_next) ≤ SLAB_POOL_SIZE;
  ext_inv : fa_inv h'.(pages);
  ext_free : fa_free h'.(pages) ⊆ fa_free h.(pages);
}.

Lemma extends_slab h h' L c i :
  heap_inv h L → extends h h' → is_cache c → i ∈ members L c → h'.(slab_pool).[i] = h.(slab_pool).[i].
Proof. intros Hinv He Hc Hi. apply (ext_pool _ _ He). by apply (inv_slab _ _ Hinv c). Qed.

Lemma extends_inv h h' L : heap_inv h L → extends h h' → heap_inv h' L.
Proof.
  intros Hinv He. pose proof (λ c i, extends_slab h h' L c i Hinv He) as Heq.
  pose proof (inv_pool _ _ Hinv) as [Hz Hpn]. pose proof (ext_next _ _ He) as Hn. split.
  - rewrite (ext_caches _ _ He). apply Hinv.
  - rewrite (ext_zlen _ _ He). split; [done|lia].
  - apply He.
  - intros c Hc. rewrite (ext_caches _ _ He).
    destruct (inv_cache _ _ Hinv c Hc) as (H1 & H2 & H3 & H4 & H5 & H6). split; [done|].
    split; [eapply ilist_ext; [|done]; intros j Hj; rewrite (Heq c); [done..|apply elem_of_app; by left]|].
    split; [eapply ilist_ext; [|done]; intros j Hj; rewrite (Heq c); [done..|apply elem_of_app; by right]|].
    split; [done|].
    split; intros j Hj; (rewrite (Heq c); [auto|done|apply elem_of_app; auto]).
  - intros c i Hc Hi. rewrite (Heq c) by done. destruct (inv_slab _ _ Hinv c i Hc Hi). split; [lia|done].
  - intros c i c' j Hc Hc' Hi Hj Hne. unfold apart. rewrite (Heq c), (Heq c') by done.
    by apply (inv_apart _ _ Hinv).
  - intros c i f Hc Hi. rewrite (Heq c) by done. intros Hf Hin.
    apply (ext_free _ _ He) in Hin. by apply (inv_used _ _ Hinv c i f).
Qed.

(** Putting slab [i], on no list so far, on the empty partial list of [c]. *)
Lemma link_spec h L c i :
  heap_inv h L → is_cache c → (L c).1 = [] → partial (h.(caches).[c]) = None →
  0 ≤ i < h.(slab_pool_next) → (∀ c', is_cache c' → i ∉ members L c') →
  slab_ok c (h.(slab_pool).[i]) → 0 < free_count (h.(slab_pool).[i]) → next (h.(slab_pool).[i]) = None →
  (∀ c' j, is_cache c' → j ∈ members L c' → apart h.(slab_pool) c i c' j) →
  (∀ f, frame (h.(slab_pool).[i]) ≤ f < frame (h.(slab_pool).[i]) + pages_per_slab (cfg c) → f ∉ fa_free h.(pages)) →
  heap_inv (with_cache h c (set_lists (h.(caches).[c]) (Some i) (full (h.(caches).[c]))))
    (<[c := ([i], (L c).2)]> L).
Proof.
  intros Hinv Hc HL Hpart Hi Hnew Hok Hf Hnext Hap Hused.
  set (L' := <[c := ([i], (L c).2)]> L).
  assert (∀ c' j, is_cache c' → j ∈ members L' c' → (c' = c ∧ j = i) ∨ j ∈ members L c') as Hmem.
  { intros c' j Hc'. unfold members, L'. destruct (decide (c' = c)) as [->|Hne].
    - rewrite fn_lookup_insert, HL. set_solver.
    - rewrite fn_lookup_insert_ne by done. auto. }
  split; cbn [caches slab_pool slab_pool_next pages with_cache]; try apply Hinv.
  - rewrite zlen_aset. apply Hinv.
  - intros c' Hc'. unfold L'. rewrite aget_aset by (rewrite ?(inv_caches _ _ Hinv); unfold is_cache in *; lia).
    case_decide as E; [subst c'; rewrite fn_lookup_insert|rewrite fn_lookup_insert_ne by done; by apply Hinv].
    destruct (inv_cache _ _ Hinv c Hc) as (H1 & H2 & H3 & H4 & H5 & H6).
    split; [by eapply cfg_relist|]. split; [done|]. split; [done|]. split.
    + cbn. apply NoDup_cons. rewrite HL in H4. split; [|done].
      intros Hin. apply (Hnew c Hc). apply elem_of_app. by right.
    + split; [|done]. by intros j ->%list_elem_of_singleton.
  - intros c' j Hc' Hj. destruct (Hmem c' j Hc' Hj) as [[-> ->]|Hj']; [done|by apply Hinv].
  - intros c1 j1 c2 j2 Hc1 Hc2 Hj1 Hj2 Hne.
    destruct (Hmem c1 j1 Hc1 Hj1) as [[-> ->]|Hj1'], (Hmem c2 j2 Hc2 Hj2) as [[-> ->]|Hj2']; [done|by apply Hap| |].
    + destruct (Hap c1 j1 Hc1 Hj1'); [by right|by left].
    + by apply (inv_apart _ _ Hinv).
  - intros c' j f Hc' Hj. destruct (Hmem c' j Hc' Hj) as [[-> ->]|Hj']; [apply Hused|by apply (inv_used _ _ Hinv)].
Qed.

Lemma kmemset_spec n m d v x :
  kmemset n m d v x = if decide (d ≤ x < d + Z.of_nat n) then u8 v else m x.
Proof.
  revert m d. induction n as [|n IH]; intros m d; cbn [kmemset]; [by rewrite decide_False by lia|].
  rewrite IH. unfold poke. destruct (Z.eqb_spec x d); repeat case_decide; try lia; done.
Qed.

Lemma kmemcpy_spec n m d s x :
  d + Z.of_nat n ≤ s ∨ s + Z.of_nat n ≤ d →
  kmemcpy n m d s x = if decide (d ≤ x < d + Z.of_nat n) then m (x - d + s) else m x.
Proof.
  revert m d s. induction n as [|n IH]; intros m d s Hd; cbn [kmemcpy]; [by rewrite decide_False by lia|].
  rewrite IH by lia. unfold poke. repeat case_decide; try lia.
  - rewrite (proj2 (Z.eqb_neq _ _)) by lia. f_equal. lia.
  - replace x with d by lia. rewrite Z.eqb_refl. f_equal. lia.
  - by rewrite (proj2 (Z.eqb_neq _ _)) by lia.
Qed.

Lemma blank_test s k : s.(bitmap) = [0; 0] → 0 ≤ k < 128 → slab_bm_test s k = false.
Proof.
  intros E Hk. unfold slab_bm_test. rewrite E.
  assert (k / 64 = 0 ∨ k / 64 = 1) as [-> | ->] by div_lia; cbn; by rewrite Z.shiftr_0_l.
Qed.

(** What [slab_create] returns: a slab with no object in use, on frames that
    were free and have been zeroed. *)
Record new_slab (h h' : heap A) (c i : Z) : Prop := {
  new_index : i = h.(slab_pool_next) ∧ 0 ≤ i < h'.(slab_pool_next);
  new_ok : slab_ok c (h'.(slab_pool).[i]);
  new_count : 0 < free_count (h'.(slab_pool).[i]);
  new_next : next (h'.(slab_pool).[i]) = None;
  new_blank : ∀ k, 0 ≤ k < obj_per_slab (cfg c) → slab_bm_test (h'.(slab_pool).[i]) k = false;
  new_frames : ∀ f,
    frame (h'.(slab_pool).[i]) ≤ f < frame (h'.(slab_pool).[i]) + pages_per_slab (cfg c) →
    f ∈ fa_free h.(pages) ∧ f ∉ fa_free h'.(pages);
  new_mem : ∀ x, h'.(mem) x =
    if decide (base (h'.(slab_pool).[i]) ≤ x < base (h'.(slab_pool).[i]) + pages_per_slab (cfg c) * PAGE_SIZE)
    then 0 else h.(mem) x;
}.

Lemma slab_create_spec h L c :
  heap_inv h L → is_cache c →
  let '(h', r) := slab_create h c in
  extends h h' ∧ match r with None => h'.(mem) = h.(mem) | Some i => new_slab h h' c i end.
Proof.
  intros Hinv Hc. pose proof (inv_pool _ _ Hinv) as [Hz Hpn].
  destruct (inv_cache _ _ Hinv c Hc) as (Hcfg & _).
  destruct (cfg_set_lists _ _ _ _ Hcfg) as (_ & Epg & Eob).
  destruct (cfg_facts c Hc) as (Hsz & Hpg & Hob & Hfit).
  unfold slab_create, slab_pool_alloc. rewrite Epg, Eob.
  destruct (Z.ltb_spec h.(slab_pool_next) SLAB_POOL_SIZE) as [Hlt|Hge].
  2: { split; [|done]. split; try done; [lia|apply Hinv]. }
  cbn [pages]. pose proof (fa_alloc_spec h.(pages) (pages_per_slab (cfg c)) (inv_pages _ _ Hinv) ltac:(lia)) as Hal.
  destruct (fa_alloc h.(pages) (pages_per_slab (cfg c))) as [a pa]. destruct Hal as (Ha & _ & Hal).
  pose proof (fa_size_max h.(pages) (inv_pages _ _ Hinv)) as Hmax.
  set (i := h.(slab_pool_next)) in *. unfold SLAB_POOL_SIZE in *. rewrite (wrap_id 32 (i + 1)) by lia.
  cbn [slab_pool with_pages with_pool caches slab_pool_next pages mem with_mem].
  destruct (Z.eqb_spec pa 0) as [E0|E0].
  { split; [|done]. split; cbn; try done; [apply zlen_aset| |unfold SLAB_POOL_SIZE; lia|].
    - intros j Hj. apply aget_aset_ne; lia.
    - destruct Hal as [[_ ->]|(f & Hf & _ & -> & _)]; [done|unfold PAGE_SIZE in *; lia]. }
  destruct Hal as [[? _]|(f & Hf & Hfc & Epa & Hsub & Efree)]; [done|].
  assert (PHYS_TO_VIRT pa = pa + PHYS_MAP_BASE) as Evirt.
  { apply wrap_id. unfold MAX_FRAMES, PAGE_SIZE, PHYS_MAP_BASE in *. lia. }
  split.
  - split; cbn; try done; [by rewrite !zlen_aset| |unfold SLAB_POOL_SIZE; lia|rewrite Efree; set_solver].
    intros j Hj. rewrite !aget_aset_ne by lia. done.
  - set (s := Build_slab_t _ _ _ _ _ _ _). match goal with |- new_slab _ ?x _ _ => set (h' := x) end.
    assert (h'.(slab_pool).[i] = s) as Es.
    { subst h'. cbn [slab_pool with_mem with_pool with_pages]. apply aget_aset_eq. rewrite zlen_aset. lia. }
    assert (frame s = f) as Efr by (unfold frame; cbn; rewrite Epa; by apply Z.div_mul).
    assert (∀ k, 0 ≤ k < obj_per_slab (cfg c) → slab_bm_test s k = false) as Hblank
      by (intros k Hk; apply blank_test; [done|lia]).
    split; rewrite ?Es; cbn [slab_pool_next free_count next pages mem with_mem with_pool with_pages h' s]; try done; [lia| |lia| |].
    + split; rewrite ?Efr; try (done || lia).
      * split; [done|]. apply Forall_cons; split; [done|]. by apply Forall_singleton.
      * cbn [free_count s total_obj]. rewrite countb_all; [lia|lia|].
        intros k Hk. unfold obj_free. by rewrite Hblank.
    + rewrite Efr. intros f' Hf'. rewrite Efree. rewrite <- elem_of_frames in Hf'. set_solver.
    + intros x. rewrite kmemset_spec. rewrite Z2Nat.id by (unfold PAGE_SIZE; lia). done.
Qed.

(** Two objects of the heap that are not the same object do not overlap. *)
Definition obj_addr (h : heap A) (c i k : Z) : Z := base (h.(slab_pool).[i]) + k * obj_size (cfg c).

Lemma slabs_apart h L c i c' j :
  heap_inv h L → is_cache c → is_cache c' → i ∈ members L c → j ∈ members L c' → i ≠ j →
  base (h.(slab_pool).[i]) + pages_per_slab (cfg c) * PAGE_SIZE ≤ base (h.(slab_pool).[j]) ∨
  base (h.(slab_pool).[j]) + pages_per_slab (cfg c') * PAGE_SIZE ≤ base (h.(slab_pool).[i]).
Proof.
  intros Hinv Hc Hc' Hi Hj Hne. destruct (inv_slab _ _ Hinv c i Hc Hi) as [_ H1].
  destruct (inv_slab _ _ Hinv c' j Hc' Hj) as [_ H2].
  rewrite (ok_base _ _ H1), (ok_base _ _ H2), (ok_phys _ _ H1), (ok_phys _ _ H2).
  unfold PAGE_SIZE. destruct (inv_apart _ _ Hinv c i c' j); try done; lia.
Qed.

Lemma objects_apart h L c i k c' j m :
  heap_inv h L → is_cache c → is_cache c' → i ∈ members L c → j ∈ members L c' →
  0 ≤ k < obj_per_slab (cfg c) → 0 ≤ m < obj_per_slab (cfg c') → (i, k) ≠ (j, m) →
  obj_addr h c i k + obj_size (cfg c) ≤ obj_addr h c' j m ∨
  obj_addr h c' j m + obj_size (cfg c') ≤ obj_addr h c i k.
Proof.
  intros Hinv Hc Hc' Hi Hj Hk Hm Hne. unfold obj_addr.
  destruct (cfg_facts c Hc) as (Hsz & _ & _ & Hfit), (cfg_facts c' Hc') as (Hsz' & _ & _ & Hfit').
  destruct (decide (i = j)) as [->|Hij].
  - assert (c = c') as <- by (by eapply members_same_cache).
    assert (k ≠ m) by congruence. destruct (decide (k < m)); [left|right]; nia.
  - destruct (slabs_apart h L c i c' j); try done; [left|right]; nia.
Qed.

Lemma blocks_apart h L a n a' n' :
  heap_inv h L → block h L a n → block h L a' n' → a ≠ a' → a + n ≤ a' ∨ a' + n' ≤ a.
Proof.
  intros Hinv (c & i & k & Hc & Hi & Hk & _ & -> & ->) (c' & j & m & Hc' & Hj & Hm & _ & -> & ->) Hne.
  apply (objects_apart h L c i k c' j m); try done. intros [= -> ->]. apply Hne.
  by rewrite (members_same_cache h L c c' j Hinv Hc Hc' Hi Hj).
Qed.

Lemma blocks_functional h L a n n' : heap_inv h L → block h L a n → block h L a n' → n = n'.
Proof.
  intros Hinv (c & i & k & Hc & Hi & Hk & _ & Ea & ->) (c' & j & m & Hc' & Hj & Hm & _ & Ea' & ->).
  destruct (decide ((i, k) = (j, m))) as [[= -> ->]|Hne].
  - by rewrite (members_same_cache h L c c' j Hinv Hc Hc' Hi Hj).
  - pose proof (cfg_facts c Hc). pose proof (cfg_facts c' Hc').
    destruct (objects_apart h L c i k c' j m); try done; unfold obj_addr in *; lia.
Qed.

(** ** Allocation and release as changes of the set of blocks *)

Definition in_block (h : heap A) (L : lists) (x : Z) : Prop := ∃ a n, block h L a n ∧ a ≤ x < a + n.

Lemma touched_block h L h' L' c i k b a n :
  heap_inv h L → touched h L h' L' i k b → is_cache c → i ∈ members L c → 0 ≤ k < obj_per_slab (cfg c) →
  block h' L' a n ↔
    if b then block h L a n ∨ (a = obj_addr h c i k ∧ n = obj_size (cfg c))
    else block h L a n ∧ a ≠ obj_addr h c i k.
Proof.
  intros Hinv (_ & Hmem & Hs) Hc Hi Hk. split.
  - intros (c' & j & m & Hc' & Hj & Hm & Hb & -> & ->). rewrite Hmem in Hj by done.
    destruct (Hs c' j Hc' Hj) as [-> Ht]. rewrite Ht in Hb by lia.
    case_decide as E.
    + destruct E as [-> ->]. rewrite Hb.
      rewrite (members_same_cache h L c' c i Hinv Hc' Hc Hj Hi). by right.
    + destruct b; [left; by exists c', j, m|]. split; [by exists c', j, m|].
      pose proof (cfg_facts c Hc). pose proof (cfg_facts c' Hc').
      destruct (objects_apart h L c i k c' j m); try done; [|unfold obj_addr in *; lia..].
      intros [= -> ->]. by apply E.
  - assert (∀ c' j m, is_cache c' → j ∈ members L c' → 0 ≤ m < obj_per_slab (cfg c') →
      (if decide (j = i ∧ m = k) then b else slab_bm_test (h.(slab_pool).[j]) m) = true →
      block h' L' (obj_addr h c' j m) (obj_size (cfg c'))) as Hblk.
    { intros c' j m Hc' Hj Hm Hb. destruct (Hs c' j Hc' Hj) as [Hbase Ht]. exists c', j, m.
      split; [done|]. split; [by rewrite Hmem|]. split; [done|]. split; [by rewrite Ht by lia|].
      by rewrite Hbase. }
    destruct b.
    + intros [(c' & j & m & Hc' & Hj & Hm & Hb & -> & ->)|[-> ->]].
      * apply Hblk; [done..|]. by case_decide.
      * apply Hblk; [done..|]. by rewrite decide_True.
    + intros [(c' & j & m & Hc' & Hj & Hm & Hb & -> & ->) Hne].
      apply Hblk; [done..|]. rewrite decide_False; [done|]. intros [-> ->]. apply Hne.
      by rewrite (members_same_cache h L c' c i Hinv Hc' Hc Hj Hi).
Qed.

(** The outcome of an allocation: a new block of [n] bytes at [p] that no
    block in use overlaps, whose bytes are left as they were. *)
Record allocated (h : heap A) (L : lists) (h' : heap A) (L' : lists) (p n : Z) : Prop := {
  al_range : 0 < p ∧ p + n < 2 ^ 64;
  al_block : ∀ a m, block h' L' a m ↔ block h L a m ∨ (a = p ∧ m = n);
  al_fresh : ∀ a m, block h L a m → p + n ≤ a ∨ a + m ≤ p;
  al_mem : ∀ x, in_block h L x → h'.(mem) x = h.(mem) x;
}.

Record unchanged (h : heap A) (L : lists) (h' : heap A) (L' : lists) : Prop := {
  un_block : ∀ a m, block h' L' a m ↔ block h L a m;
  un_mem : ∀ x, in_block h L x → h'.(mem) x = h.(mem) x;
}.

Lemma take_object_allocated h L c i lp :
  heap_inv h L → is_cache c → (L c).1 = i :: lp →
  ∃ h' L' p, take_object h c i = Ret (h', p) ∧ heap_inv h' L' ∧ allocated h L h' L' p (obj_size (cfg c)).
Proof.
  intros Hinv Hc HL. assert (i ∈ members L c) as Hi by (apply elem_of_app; left; rewrite HL; left).
  destruct (take_object_spec h L c i lp Hinv Hc HL) as (h' & L' & k & E & Hinv' & Hk & Hb & Ht).
  exists h', L', (obj_addr h c i k). split; [done|]. split; [done|].
  destruct (inv_slab _ _ Hinv c i Hc Hi) as [_ Hok].
  pose proof (λ a m, touched_block h L h' L' c i k true a m Hinv Ht Hc Hi Hk) as Hblk.
  split; [|done| |by intros x _; rewrite (proj1 Ht)].
  - pose proof (object_address c _ k Hc Hok Hk). unfold obj_addr, PHYS_MAP_BASE in *. lia.
  - intros a m (c' & j & k' & Hc' & Hj & Hk' & Hb' & -> & ->).
    apply (objects_apart h L c i k c' j k'); try done. intros [= -> ->]. congruence.
Qed.

Lemma extends_block h h' L a n :
  heap_inv h L → extends h h' → block h' L a n ↔ block h L a n.
Proof.
  intros Hinv He. split; intros (c & i & k & Hc & Hi & H); exists c, i, k.
  - by rewrite (extends_slab h h' L c i) in H.
  - by rewrite (extends_slab h h' L c i).
Qed.

(** A byte of a block in use lies outside the pages of a new slab. *)
Lemma new_slab_outside h h' L c i x :
  heap_inv h L → is_cache c → new_slab h h' c i → in_block h L x →
  ¬ (base (h'.(slab_pool).[i]) ≤ x < base (h'.(slab_pool).[i]) + pages_per_slab (cfg c) * PAGE_SIZE).
Proof.
  intros Hinv Hc Hn (a & n & (c' & j & k & Hc' & Hj & Hk & _ & -> & ->) & Hx) Hx'.
  destruct (inv_slab _ _ Hinv c' j Hc' Hj) as [_ Hok].
  destruct (cfg_facts c' Hc') as (Hsz & _ & _ & Hfit). pose proof (new_ok _ _ _ _ Hn) as Hok'.
  set (f := (x - PHYS_MAP_BASE) / PAGE_SIZE).
  rewrite (ok_base _ _ Hok), (ok_phys _ _ Hok) in Hx. rewrite (ok_base _ _ Hok'), (ok_phys _ _ Hok') in Hx'.
  set (fr := frame (h.(slab_pool).[j])) in *. set (fr' := frame (h'.(slab_pool).[i])) in *.
  assert (fr * PAGE_SIZE ≤ x - PHYS_MAP_BASE < (fr + pages_per_slab (cfg c')) * PAGE_SIZE) as H1 by nia.
  assert (fr ≤ f < fr + pages_per_slab (cfg c')) as Hf1 by (unfold f, PAGE_SIZE in *; div_lia).
  assert (fr' ≤ f < fr' + pages_per_slab (cfg c)) as Hf2 by (unfold f, PAGE_SIZE in *; div_lia).
  apply (inv_used _ _ Hinv c' j f Hc' Hj Hf1). by apply (new_frames _ _ _ _ Hn).
Qed.

Lemma intervals_apart a n b m :
  0 < n → 0 < m → (∀ f, a ≤ f < a + n → b ≤ f < b + m → False) → a + n ≤ b ∨ b + m ≤ a.
Proof. intros Hn Hm H. destruct (decide (a ≤ b)); [specialize (H b)|specialize (H a)]; lia. Qed.

Lemma link_block h L c i kk a n :
  (∀ k, 0 ≤ k < obj_per_slab (cfg c) → slab_bm_test (h.(slab_pool).[i]) k = false) → (L c).1 = [] →
  block (with_cache h c kk) (<[c := ([i], (L c).2)]> L) a n ↔ block h L a n.
Proof.
  intros Hblank HL. split; intros (c' & j & k & Hc' & Hj & Hk & Hb & H); exists c', j, k; (split; [done|]).
  - split; [|done]. unfold members in *. destruct (decide (c' = c)) as [->|Hne].
    + rewrite fn_lookup_insert in Hj. rewrite HL. cbn in *.
      apply elem_of_cons in Hj as [->|Hj]; [by rewrite Hblank in Hb|done].
    + by rewrite fn_lookup_insert_ne in Hj.
  - split; [|done]. unfold members in *. destruct (decide (c' = c)) as [->|Hne].
    + rewrite fn_lookup_insert. rewrite HL in Hj. by right.
    + by rewrite fn_lookup_insert_ne.
Qed.

(** The new slab's frames are those of no other slab. *)
Lemma new_slab_apart h h1 L c i c' j :
  heap_inv h L → extends h h1 → is_cache c → new_slab h h1 c i → is_cache c' → j ∈ members L c' →
  apart h1.(slab_pool) c i c' j.
Proof.
  intros Hinv He Hc Hn Hc' Hj. unfold apart. rewrite (extends_slab h h1 L c' j) by done.
  pose proof (cfg_facts c Hc). pose proof (cfg_facts c' Hc').
  apply intervals_apart; [lia..|]. intros f Hf1 Hf2.
  apply (inv_used _ _ Hinv c' j f Hc' Hj Hf2). by apply (new_frames _ _ _ _ Hn).
Qed.

Lemma cache_alloc_spec h L c :
  heap_inv h L → is_cache c →
  ∃ h' L' p, cache_alloc h c = Ret (h', p) ∧ heap_inv h' L' ∧
    ((p = 0 ∧ unchanged h L h' L') ∨ allocated h L h' L' p (obj_size (cfg c))).
Proof.
  intros Hinv Hc. unfold cache_alloc. destruct (inv_cache _ _ Hinv c Hc) as (_ & Hcp & _).
  destruct (partial (h.(caches).[c])) as [i|] eqn:Epart.
  { destruct (L c).1 as [|i' lp] eqn:HL; [done|]. destruct Hcp as [[= <-] _].
    destruct (take_object_allocated h L c i lp Hinv Hc HL) as (h' & L' & p & -> & ? & ?); eauto 10. }
  apply ilist_none in Hcp as HL. pose proof (slab_create_spec h L c Hinv Hc) as Hcr.
  destruct (slab_create h c) as [h1 [i|]]; destruct Hcr as [He Hn].
  2: { exists h1, L, 0. split; [done|]. split; [by eapply extends_inv|]. left. split; [done|].
       split; [by intros; apply extends_block|]. intros x _. by rewrite Hn. }
  pose proof (extends_inv h h1 L Hinv He) as Hinv1. pose proof (new_index _ _ _ _ Hn) as [Ei Hi].
  assert (partial (h1.(caches).[c]) = None) as Epart1 by (by rewrite (ext_caches _ _ He)).
  assert (with_pool h1 (h1.(slab_pool).[i <- set_next (h1.(slab_pool).[i]) (partial (h1.(caches).[c]))]) = h1) as ->.
  { rewrite Epart1, <- (new_next _ _ _ _ Hn). destruct h1 as [cs pool nx pg mm]. unfold with_pool. cbn. f_equal.
    replace (set_next _ _) with (pool.[i]) by (by destruct (pool.[i])).
    apply list_insert_id, aget_lookup. pose proof (inv_pool _ _ Hinv1) as [Hz Hpn]. cbn in *. lia. }
  set (h2 := with_cache _ _ _). set (L2 := <[c := ([i], (L c).2)]> L).
  assert (heap_inv h2 L2) as Hinv2.
  { apply link_spec; try done; try apply Hn.
    - intros c' Hc' Him. destruct (inv_slab _ _ Hinv c' i Hc' Him). lia.
    - intros c' j Hc' Hj. by apply (new_slab_apart h h1 L). }
  assert (∀ a n, block h2 L2 a n ↔ block h L a n) as Hblk.
  { intros a n. unfold h2, L2. rewrite link_block by (done || apply Hn). by apply extends_block. }
  destruct (take_object_allocated h2 L2 c i []) as (h' & L' & p & -> & Hinv' & Hal); [done|done|..].
  { unfold L2. by rewrite fn_lookup_insert. }
  exists h', L', p. split; [done|]. split; [done|]. right. split.
  - apply Hal.
  - intros a n. by rewrite (al_block _ _ _ _ _ _ Hal), Hblk.
  - intros a n Hb. apply Hblk in Hb. by apply (al_fresh _ _ _ _ _ _ Hal).
  - intros x Hx. transitivity (h2.(mem) x).
    + apply (al_mem _ _ _ _ _ _ Hal). destruct Hx as (a & n & Hb & Hx). exists a, n. by rewrite Hblk.
    + cbn [mem h2 with_cache]. rewrite (new_mem _ _ _ _ Hn). rewrite decide_False; [done|].
      by apply (new_slab_outside h h1 L c i x).
Qed.

(** The smallest object size that fits. *)
Definition size_class (size n : Z) : Prop :=
  size ≤ n ∧ n ∈ cache_sizes ∧ ∀ m, m ∈ cache_sizes → size ≤ m → n ≤ m.

Lemma cfg_size c : is_cache c → obj_size (cfg c) = 2 ^ (5 + c).
Proof.
  intros Hc. pattern c. apply (is_cache_cases c); [done|]. clear c Hc.
  apply Forall_forall. by repeat (constructor; [by vm_compute|]).
Qed.

Lemma elem_of_cache_sizes m : m ∈ cache_sizes ↔ ∃ c, is_cache c ∧ m = obj_size (cfg c).
Proof.
  split.
  - intros (i & Hi)%list_elem_of_lookup. exists (Z.of_nat i).
    pose proof (lookup_lt_Some _ _ _ Hi) as Hlt. cbn in Hlt. unfold is_cache, SLAB_NUM_CACHES. split; [lia|].
    change (m = cache_sizes.[Z.of_nat i]). unfold aget. rewrite Nat2Z.id. symmetry.
    by apply list_lookup_total_correct.
  - intros (c & Hc & ->). apply list_elem_of_lookup. exists (Z.to_nat c).
    apply aget_lookup. unfold is_cache, SLAB_NUM_CACHES, zlen in *. cbn. lia.
Qed.

Lemma find_cache_from_spec n h L size i :
  heap_inv h L → 0 ≤ i → i + Z.of_nat n = SLAB_NUM_CACHES →
  match find_cache_from n h.(caches) size i with
  | Some c => i ≤ c < SLAB_NUM_CACHES ∧ size ≤ obj_size (cfg c) ∧ ∀ j, i ≤ j < c → obj_size (cfg j) < size
  | None => ∀ j, i ≤ j < SLAB_NUM_CACHES → obj_size (cfg j) < size
  end.
Proof.
  intros Hinv. revert i. induction n as [|n IH]; intros i Hi Hn; cbn [find_cache_from]; [intros j Hj; lia|].
  assert (is_cache i) as Hc by (unfold is_cache; lia).
  assert (obj_size (h.(caches).[i]) = obj_size (cfg i)) as ->
    by (by destruct (inv_cache _ _ Hinv i Hc) as (-> & _)).
  destruct (Z.leb_spec size (obj_size (cfg i))); [split; [lia|]; split; [done|intros; lia]|].
  specialize (IH (i + 1) ltac:(lia) ltac:(lia)). destruct (find_cache_from n h.(caches) size (i + 1)) as [c|].
  - destruct IH as (? & ? & Hlow). split; [lia|]. split; [done|]. intros j Hj.
    destruct (decide (j = i)) as [->|]; [done|apply Hlow; lia].
  - intros j Hj. destruct (decide (j = i)) as [->|]; [done|apply IH; lia].
Qed.

Lemma find_cache_spec h L size :
  heap_inv h L →
  match find_cache h size with
  | Some c => is_cache c ∧ size_class size (obj_size (cfg c))
  | None => 65536 < size
  end.
Proof.
  intros Hinv. pose proof (find_cache_from_spec (Z.to_nat SLAB_NUM_CACHES) h L size 0 Hinv) as H.
  unfold find_cache. destruct (find_cache_from _ _ _ _) as [c|].
  - destruct H as (Hc & Hle & Hlow); [done|done|]. split; [done|]. split; [done|].
    split; [apply elem_of_cache_sizes; by exists c|]. intros m (j & Hj & ->)%elem_of_cache_sizes Hm.
    destruct (decide (j < c)); [unfold is_cache in *; specialize (Hlow j ltac:(lia)); lia|].
    rewrite !cfg_size by done. unfold is_cache in *. apply Z.pow_le_mono_r; lia.
  - specialize (H ltac:(done) ltac:(done) 11 ltac:(unfold SLAB_NUM_CACHES; lia)). exact H.
Qed.

(** ** Finding the owner of a pointer *)

Definition owner (h : heap A) (L : lists) (ptr c i : Z) : Prop :=
  is_cache c ∧ i ∈ members L c ∧
  owns (h.(slab_pool).[i]) (pages_per_slab (cfg c) * PAGE_SIZE) ptr = true.

Lemma walk_enough h L c l :
  heap_inv h L → is_cache c → NoDup l → (∀ i, i ∈ l → i ∈ members L c) → (length l ≤ walk_fuel)%nat.
Proof.
  intros Hinv Hc Hnd Hsub. pose proof (inv_pool _ _ Hinv) as [Hz _].
  pose proof (NoDup_slots_length h.(slab_pool) l Hnd) as Hlen.
  unfold walk_fuel, zlen, SLAB_POOL_SIZE in *. etransitivity; [apply Hlen|lia].
  intros i Hi. by apply (members_slots h L c Hinv Hc), Hsub.
Qed.

(** Both list walks of cache [c]. *)
Lemma find_slab_cache h L c ptr :
  heap_inv h L → is_cache c →
  let k := h.(caches).[c] in
  let bytes := k.(pages_per_slab) * PAGE_SIZE in
  (∃ i, find_slab walk_fuel h.(slab_pool) k.(partial) bytes ptr = Ret (Some i) ∧
        i ∈ (L c).1 ∧ owner h L ptr c i) ∨
  (find_slab walk_fuel h.(slab_pool) k.(partial) bytes ptr = Ret None ∧
   ∃ i, find_slab walk_fuel h.(slab_pool) k.(full) bytes ptr = Ret (Some i) ∧
        i ∈ (L c).2 ∧ owner h L ptr c i) ∨
  (find_slab walk_fuel h.(slab_pool) k.(partial) bytes ptr = Ret None ∧
   find_slab walk_fuel h.(slab_pool) k.(full) bytes ptr = Ret None ∧ ∀ i, ¬ owner h L ptr c i).
Proof.
  intros Hinv Hc. destruct (inv_cache _ _ Hinv c Hc) as (Hcfg & Hcp & Hcf & Hnd & _).
  destruct (cfg_set_lists _ _ _ _ Hcfg) as (_ & Epg & _). cbn zeta. rewrite Epg.
  apply NoDup_app in Hnd as (Hnd1 & _ & Hnd2).
  destruct (find_slab_spec walk_fuel h.(slab_pool) _ _ (pages_per_slab (cfg c) * PAGE_SIZE) ptr Hcp)
    as [(i & E & Hi & Ho)|[E Hno]].
  { apply (walk_enough h L c); try done. intros i Hi. apply elem_of_app; by left. }
  { left. exists i. split; [done|]. split; [done|]. split; [done|]. split; [apply elem_of_app; by left|done]. }
  destruct (find_slab_spec walk_fuel h.(slab_pool) _ _ (pages_per_slab (cfg c) * PAGE_SIZE) ptr Hcf)
    as [(i & E' & Hi & Ho)|[E' Hno']].
  { apply (walk_enough h L c); try done. intros i Hi. apply elem_of_app; by right. }
  { right; left. split; [done|]. exists i. split; [done|]. split; [done|]. split; [done|].
    split; [apply elem_of_app; by right|done]. }
  right; right. split; [done|]. split; [done|]. intros i (_ & Hi & Ho).
  apply elem_of_app in Hi as [Hi|Hi]; [by rewrite Hno in Ho|by rewrite Hno' in Ho].
Qed.

Lemma find_cache_for_ptr_spec h L ptr :
  heap_inv h L →
  (∃ c i, find_cache_for_ptr h ptr = Ret (Some c) ∧ owner h L ptr c i) ∨
  (find_cache_for_ptr h ptr = Ret None ∧ ∀ c i, ¬ owner h L ptr c i).
Proof.
  intros Hinv. unfold find_cache_for_ptr.
  assert (∀ n c0, 0 ≤ c0 → c0 + Z.of_nat n = SLAB_NUM_CACHES →
    (∃ c i, find_cache_for_ptr_from n h ptr c0 = Ret (Some c) ∧ owner h L ptr c i) ∨
    (find_cache_for_ptr_from n h ptr c0 = Ret None ∧ ∀ c i, c0 ≤ c → ¬ owner h L ptr c i)) as Hind.
  { intros n. induction n as [|n IH]; intros c0 H0 Hn; cbn [find_cache_for_ptr_from].
    { right. split; [done|]. intros c i Hc (Hc' & _). unfold is_cache in Hc'. lia. }
    assert (is_cache c0) as Hc by (unfold is_cache; lia).
    destruct (find_slab_cache h L c0 ptr Hinv Hc) as [(i & E & _ & Ho)|[(E & i & E' & _ & Ho)|(E & E' & Hno)]];
      rewrite E; cbn [mbind outcome_bind]; [eauto|rewrite E'; cbn; eauto|].
    rewrite E'. cbn [mbind outcome_bind]. destruct (IH (c0 + 1)) as [?|[-> Hno']]; [lia..|by left|].
    right. split; [done|]. intros c i Hle. destruct (decide (c = c0)) as [->|]; [apply Hno|apply Hno'; lia]. }
  destruct (Hind (Z.to_nat SLAB_NUM_CACHES) 0) as [?|[-> Hno]]; [done|done|by left|].
  right. split; [done|]. intros c i Ho. apply (Hno c i); [|done]. by destruct Ho as [[? _] _].
Qed.

Lemma owner_unique h L ptr c i c' j :
  heap_inv h L → owner h L ptr c i → owner h L ptr c' j → c = c' ∧ i = j.
Proof.
  intros Hinv (Hc & Hi & Ho) (Hc' & Hj & Ho'). unfold owns in *. bool_hyps.
  destruct (decide (i = j)) as [->|Hne]; [by split; [eapply members_same_cache|]|].
  destruct (slabs_apart h L c i c' j); try done; lia.
Qed.

(** ** The four calls *)

Lemma kmalloc_spec h L size :
  heap_inv h L → 0 ≤ size →
  ∃ h' L' p, kmalloc h size = Ret (h', p) ∧ heap_inv h' L' ∧
    ((p = 0 ∧ unchanged h L h' L') ∨
     ∃ n, 0 < size ∧ size_class size n ∧ allocated h L h' L' p n).
Proof.
  intros Hinv Hs. unfold kmalloc. destruct (Z.eqb_spec size 0) as [->|Hne].
  { exists h, L, 0. split; [done|]. split; [done|]. by left. }
  pose proof (find_cache_spec h L size Hinv) as Hf. destruct (find_cache h size) as [c|].
  2: { exists h, L, 0. split; [done|]. split; [done|]. by left. }
  destruct Hf as [Hc Hcl]. destruct (cache_alloc_spec h L c Hinv Hc) as (h' & L' & p & -> & Hinv' & [?|Hal]).
  - exists h', L', p. split; [done|]. split; [done|]. by left.
  - exists h', L', p. split; [done|]. split; [done|]. right. exists (obj_size (cfg c)). split; [lia|done].
Qed.

(** The block around [ptr], if there is one, is gone. *)
Record released (h : heap A) (L : lists) (h' : heap A) (L' : lists) (ptr : Z) : Prop := {
  rel_block : ∀ a n, block h' L' a n ↔ block h L a n ∧ ¬ (a ≤ ptr < a + n);
  rel_mem : h'.(mem) = h.(mem);
}.

Lemma block_owner h L a n ptr :
  heap_inv h L → block h L a n → a ≤ ptr < a + n → ∃ c i, owner h L ptr c i ∧ n = obj_size (cfg c).
Proof.
  intros Hinv (c & i & k & Hc & Hi & Hk & _ & -> & ->) Hp. exists c, i. split; [|done].
  split; [done|]. split; [done|]. destruct (cfg_facts c Hc) as (Hsz & _ & _ & Hfit).
  unfold owns. apply andb_true_iff. rewrite Z.leb_le, Z.ltb_lt. nia.
Qed.

Lemma put_object_released h L c i ptr (was_full : bool) :
  heap_inv h L → i ∈ (if was_full then (L c).2 else (L c).1) → owner h L ptr c i →
  ∃ h' L', put_object h c i ptr was_full = Ret h' ∧ heap_inv h' L' ∧ released h L h' L' ptr.
Proof.
  intros Hinv Hi (Hc & Hm & Ho).
  destruct (put_object_spec h L c i ptr was_full Hinv Hc Hi Ho) as (Hk & h' & L' & E & Hinv' & Ht).
  exists h', L'. split; [done|]. split; [done|]. split; [|by apply Ht]. intros a n.
  rewrite (touched_block h L h' L' c i _ false a n Hinv Ht Hc Hm Hk). set (k := _ / _) in *.
  pose proof (cfg_facts c Hc) as (Hsz & _). unfold owns in Ho. bool_hyps.
  assert (obj_addr h c i k ≤ ptr < obj_addr h c i k + obj_size (cfg c)) as Hin.
  { unfold obj_addr. pose proof (Z.div_mod (ptr - base (h.(slab_pool).[i])) (obj_size (cfg c))).
    pose proof (Z.mod_pos_bound (ptr - base (h.(slab_pool).[i])) (obj_size (cfg c))). unfold k. lia. }
  split; intros [Hb Hne]; (split; [done|]); destruct Hb as (c' & j & m & Hc' & Hj & Hm' & Hbit & -> & ->).
  - intros Hp. destruct (objects_apart h L c i k c' j m); try done; [|unfold obj_addr in *; lia..].
    intros [= -> ->]. apply Hne. by rewrite (members_same_cache h L c c' j).
  - intros Ea. apply Hne. rewrite Ea. split; [lia|].
    destruct (decide ((i, k) = (j, m))) as [[= -> ->]|Hd].
    + rewrite (members_same_cache h L c' c j Hinv Hc' Hc Hj Hm). lia.
    + pose proof (cfg_facts c' Hc'). destruct (objects_apart h L c i k c' j m); try done; unfold obj_addr in *; lia.
Qed.

Lemma released_none h L ptr :
  heap_inv h L → (∀ c i, ¬ owner h L ptr c i) → released h L h L ptr.
Proof.
  intros Hinv Hno. split; [|done]. intros a n. split; [|tauto]. intros Hb. split; [done|].
  intros Hp. destruct (block_owner h L a n ptr Hinv Hb Hp) as (c & i & Ho & _). by eapply Hno.
Qed.

Lemma cache_free_spec h L c i ptr :
  heap_inv h L → owner h L ptr c i →
  ∃ h' L', cache_free h c ptr = Ret h' ∧ heap_inv h' L' ∧ released h L h' L' ptr.
Proof.
  intros Hinv Ho. pose proof Ho as (Hc & _). unfold cache_free.
  destruct (find_slab_cache h L c ptr Hinv Hc) as [(j & -> & Hj & Ho')|[(-> & j & -> & Hj & Ho')|(_ & _ & Hno)]];
    cbn [mbind outcome_bind].
  - by apply put_object_released.
  - by apply put_object_released.
  - by destruct (Hno i).
Qed.

Lemma block_nonzero h L a n : heap_inv h L → block h L a n → 0 < a ∧ a + n < 2 ^ 64.
Proof.
  intros Hinv (c & i & k & Hc & Hi & Hk & _ & -> & ->). destruct (inv_slab _ _ Hinv c i Hc Hi) as [_ Hok].
  pose proof (object_address c _ k Hc Hok Hk). unfold PHYS_MAP_BASE in *. lia.
Qed.

Lemma kfree_spec h L ptr :
  heap_inv h L → ∃ h' L', kfree h ptr = Ret h' ∧ heap_inv h' L' ∧ released h L h' L' ptr.
Proof.
  intros Hinv. unfold kfree. destruct (Z.eqb_spec ptr 0) as [->|Hne].
  { exists h, L. split; [done|]. split; [done|]. split; [|done]. intros a n. split; [|tauto].
    intros Hb. split; [done|]. destruct (block_nonzero h L a n Hinv Hb). lia. }
  destruct (find_cache_for_ptr_spec h L ptr Hinv) as [(c & i & -> & Ho)|[-> Hno]]; cbn [mbind outcome_bind].
  - by apply (cache_free_spec h L c i).
  - exists h, L. split; [done|]. split; [done|]. by apply released_none.
Qed.
End invariant.

(** ** Refinement: the heap as a finite map from addresses to blocks of bytes *)

Abbreviation blocks := (gmap Z (list Z)).

Definition contains (p a : Z) (l : list Z) : Prop := a ≤ p < a + zlen l.

(** The block that contains [p] is given back. *)
Definition remove_block (p : Z) (B : blocks) : blocks :=
  filter (λ kv, ¬ (kv.1 ≤ p < kv.1 + zlen kv.2)) B.

Definition write_byte (x v : Z) (B : blocks) : blocks :=
  map_imap (λ a l, Some (if decide (a ≤ x < a + zlen l) then l.[x - a <- v] else l)) B.

(** [l] at [p] overlaps no block of [B]. *)
Definition fresh_block (B : blocks) (p : Z) (l : list Z) : Prop :=
  0 < p ∧ p + zlen l < 2 ^ 64 ∧
  ∀ a l', B !! a = Some l' → p + zlen l ≤ a ∨ a + zlen l' ≤ p.

(** Calls of the heap, and stores by its clients. *)
Inductive heap_op :=
| Malloc (n : Z)
| Free (p : Z)
| Realloc (p n : Z)
| Calloc (count n : Z)
| Write (x v : Z).

Inductive heap_spec (B : blocks) : heap_op → blocks → Z → Prop :=
| malloc_fails n : heap_spec B (Malloc n) B 0
| malloc_gives n p l :
    0 < n → size_class n (zlen l) → fresh_block B p l → heap_spec B (Malloc n) (<[p:=l]> B) p
| free_gives_back p : heap_spec B (Free p) (remove_block p B) 0
| realloc_null n B' r : heap_spec B (Malloc n) B' r → heap_spec B (Realloc 0 n) B' r
| realloc_zero p : p ≠ 0 → heap_spec B (Realloc p 0) (remove_block p B) 0
| realloc_fits p n l : B !! p = Some l → 0 < n ≤ zlen l → heap_spec B (Realloc p n) B p
| realloc_fails p n :
    p ≠ 0 → n ≠ 0 → (∀ l, B !! p = Some l → zlen l < n) → heap_spec B (Realloc p n) B 0
| realloc_moves p n q l :
    p ≠ 0 → size_class n (zlen l) → fresh_block B q l →
    (∀ old, B !! p = Some old → zlen old < n ∧ old `prefix_of` l) →
    heap_spec B (Realloc p n) (remove_block p (<[q:=l]> B)) q
| realloc_stray p n : (* [p] is not the start of a block in use *)
    p ≠ 0 → n ≠ 0 → B !! p = None → heap_spec B (Realloc p n) B p
| calloc_fails c n : heap_spec B (Calloc c n) B 0
| calloc_gives c n p l :
    0 < c * n < 2 ^ 64 → size_class (c * n) (zlen l) → fresh_block B p l →
    take (Z.to_nat (c * n)) l = replicate (Z.to_nat (c * n)) 0 →
    heap_spec B (Calloc c n) (<[p:=l]> B) p
| write_byte_to x v : heap_spec B (Write x v) (write_byte x v B) 0.

Section refinement.
Context {A : Type} `{FA : FrameAllocator A}.
Implicit Types (h : heap A) (B : blocks).

Definition read (m : Z → Z) (a n : Z) : list Z := m <$> seqZ a n.

Definition represents (h : heap A) (L : lists) (B : blocks) : Prop :=
  heap_inv h L ∧ ∀ a l, B !! a = Some l ↔ ∃ n, block h L a n ∧ l = read h.(mem) a n.

Definition heap_step (h : heap A) (op : heap_op) : outcome (heap A * Z) :=
  match op with
  | Malloc n => kmalloc h n
  | Free p => h ← kfree h p; Ret (h, 0)
  | Realloc p n => krealloc h p n
  | Calloc c n => kcalloc h c n
  | Write x v => Ret (with_mem h (poke h.(mem) x v), 0)
  end.

Definition op_ok (op : heap_op) : Prop :=
  match op with
  | Malloc n | Realloc _ n => 0 ≤ n < 2 ^ 64
  | Calloc c n => 0 ≤ c < 2 ^ 64 ∧ 0 ≤ n < 2 ^ 64
  | _ => True
  end.

Lemma zlen_read m a n : 0 ≤ n → zlen (read m a n) = n.
Proof. intros. unfold zlen, read. rewrite length_fmap, length_seqZ. lia. Qed.

Lemma read_ext m m' a n : (∀ x, a ≤ x < a + n → m x = m' x) → read m a n = read m' a n.
Proof.
  intros Hm. apply list_fmap_ext. intros i x Hx. apply Hm.
  apply list_elem_of_lookup_2, elem_of_seqZ in Hx. lia.
Qed.

Lemma aget_read m a n i : 0 ≤ i < n → (read m a n).[i] = m (a + i).
Proof.
  intros Hi. unfold aget, read. apply list_lookup_total_correct.
  rewrite list_lookup_fmap, lookup_seqZ_lt by lia. cbn. do 2 f_equal. lia.
Qed.

Lemma read_app m a n k : 0 ≤ n → 0 ≤ k → read m a (n + k) = read m a n ++ read m (a + n) k.
Proof. intros. unfold read. by rewrite seqZ_app, fmap_app by lia. Qed.

Lemma read_shift m m' a b n :
  0 ≤ n → (∀ i, 0 ≤ i < n → m (a + i) = m' (b + i)) → read m a n = read m' b n.
Proof.
  intros Hn Hm. apply array_eq; rewrite !zlen_read by lia; [done|]. intros i Hi.
  rewrite !aget_read by lia. by apply Hm.
Qed.

Lemma block_size h L a n : block h L a n → 0 < n.
Proof. intros (c & i & k & Hc & _ & _ & _ & _ & ->). pose proof (cfg_facts c Hc). lia. Qed.

Lemma represents_lookup h L B a n :
  represents h L B → block h L a n → B !! a = Some (read h.(mem) a n).
Proof. intros [_ HR] Hb. apply HR. by exists n. Qed.

Lemma represents_block h L B a l :
  represents h L B → B !! a = Some l → block h L a (zlen l) ∧ l = read h.(mem) a (zlen l).
Proof.
  intros [_ HR] Hl. apply HR in Hl as (n & Hb & ->). pose proof (block_size h L a n Hb).
  rewrite zlen_read by lia. done.
Qed.

Lemma represents_unchanged h L h' L' B :
  represents h L B → heap_inv h' L' → unchanged h L h' L' → represents h' L' B.
Proof.
  intros [_ HR] Hinv' [Hb Hm]. split; [done|]. intros a l. rewrite HR.
  split; intros (n & Hbl & ->); exists n; (split; [by apply Hb|]); apply read_ext; intros x Hx.
  - symmetry. apply Hm. by exists a, n.
  - apply Hm. exists a, n. split; [by apply Hb|done].
Qed.

Lemma represents_allocated h L h' L' B p n :
  represents h L B → heap_inv h' L' → allocated h L h' L' p n → 0 < n →
  represents h' L' (<[p := read h'.(mem) p n]> B) ∧ fresh_block B p (read h'.(mem) p n).
Proof.
  intros HRB Hinv' [Hr Hb Hf Hm] Hn. pose proof HRB as [Hinv HR]. split; [split; [done|]|].
  - intros a l. rewrite lookup_insert. case_decide as E.
    + subst a. split.
      * intros [= <-]. exists n. split; [apply Hb; by right|done].
      * intros (m & [Hbm|[_ ->]]%Hb & ->); [|done].
        destruct (Hf p m Hbm); pose proof (block_size h L p m Hbm); lia.
    + rewrite HR. split; intros (m & Hbl & ->); exists m.
      * split; [apply Hb; by left|]. apply read_ext. intros x Hx. symmetry. apply Hm. by exists a, m.
      * apply Hb in Hbl as [Hbl|[? _]]; [|done]. split; [done|].
        apply read_ext. intros x Hx. apply Hm. by exists a, m.
  - split; [lia|]. rewrite zlen_read by lia. split; [lia|]. intros a l Hl.
    destruct (represents_block h L B a l HRB Hl) as [Hbl _]. by apply Hf.
Qed.

Lemma represents_released h L h' L' B p :
  represents h L B → heap_inv h' L' → released h L h' L' p → represents h' L' (remove_block p B).
Proof.
  intros HRB Hinv' [Hb Hm]. pose proof HRB as [Hinv HR]. split; [done|]. intros a l.
  unfold remove_block. rewrite map_lookup_filter_Some. cbn [fst snd]. split.
  - intros [Hl Hn]. destruct (represents_block h L B a l HRB Hl) as [Hbl El].
    exists (zlen l). rewrite Hm. split; [by apply Hb|done].
  - intros (n & [Hbl Hn]%Hb & ->). rewrite Hm. pose proof (block_size h L a n Hbl).
    rewrite zlen_read by lia. split; [by eapply represents_lookup|done].
Qed.

Lemma block_with_mem h L m a n : block (with_mem h m) L a n ↔ block h L a n.
Proof. done. Qed.

Lemma inv_with_mem h L m : heap_inv h L → heap_inv (with_mem h m) L.
Proof. intros [H1 H2 H3 H4 H5 H6 H7]. by split. Qed.

Lemma represents_write h L B x v :
  represents h L B → represents (with_mem h (poke h.(mem) x v)) L (write_byte x v B).
Proof.
  intros HRB. pose proof HRB as [Hinv HR]. split; [by apply inv_with_mem|]. intros a l.
  unfold write_byte. rewrite map_lookup_imap.
  assert (∀ n, 0 < n → read (poke h.(mem) x v) a n =
    if decide (a ≤ x < a + n) then (read h.(mem) a n).[x - a <- v] else read h.(mem) a n) as Hrd.
  { intros n Hn. case_decide.
    - apply array_eq; [by rewrite zlen_aset, !zlen_read by lia|]. rewrite zlen_read by lia.
      intros i Hi. rewrite aget_aset by (rewrite ?zlen_read; lia). rewrite !aget_read by lia.
      unfold poke. destruct (Z.eqb_spec (a + i) x); case_decide; (done || lia).
    - apply read_ext. intros y Hy. unfold poke. by rewrite (proj2 (Z.eqb_neq _ _)) by lia. }
  destruct (B !! a) as [l0|] eqn:El; cbn [mbind option_bind].
  - destruct (represents_block h L B a l0 HRB El) as [Hbl E0]. pose proof (block_size h L a _ Hbl) as Hn.
    assert ((if decide (a ≤ x < a + zlen l0) then l0.[x - a <- v] else l0) =
            read (poke h.(mem) x v) a (zlen l0)) as ->.
    { rewrite (Hrd (zlen l0) Hn). rewrite <- E0. done. }
    split; [intros [= <-]; by exists (zlen l0)|]. intros (n & Hb & ->). f_equal. f_equal.
    symmetry. by eapply blocks_functional.
  - split; [done|]. intros (n & Hb & _). by rewrite (represents_lookup h L B a n HRB Hb) in El.
Qed.

(** A store to the bytes of one block. *)
Lemma represents_fill h L B p n m' :
  represents h L B → block h L p n → (∀ x, ¬ (p ≤ x < p + n) → m' x = h.(mem) x) →
  represents (with_mem h m') L (<[p := read m' p n]> B).
Proof.
  intros HRB Hp Hm. pose proof HRB as [Hinv HR]. split; [by apply inv_with_mem|]. intros a l.
  rewrite lookup_insert. case_decide as E.
  - subst a. split; [intros [= <-]; by exists n|]. intros (k & Hb & ->). f_equal. f_equal.
    by eapply blocks_functional.
  - rewrite HR. assert (∀ k, block h L a k → read m' a k = read h.(mem) a k) as Hrd.
    { intros k Hb. apply read_ext. intros x Hx. apply Hm. destruct (blocks_apart h L p n a k Hinv Hp Hb E); lia. }
    split; intros (k & Hb & ->); exists k; (split; [done|]); [symmetry|]; by apply Hrd.
Qed.

Lemma malloc_refines h L B n :
  represents h L B → 0 ≤ n →
  ∃ h' L' p, kmalloc h n = Ret (h', p) ∧
    ((p = 0 ∧ represents h' L' B) ∨
     (0 < p ∧ 0 < n ∧ ∃ k, size_class n k ∧ 0 < k ∧ block h' L' p k ∧
        fresh_block B p (read h'.(mem) p k) ∧ allocated h L h' L' p k ∧
        represents h' L' (<[p := read h'.(mem) p k]> B))).
Proof.
  intros HRB Hn. destruct (kmalloc_spec h L n (proj1 HRB) Hn) as (h' & L' & p & -> & Hinv' & [[-> Hu]|(k & Hn0 & Hcl & Hal)]).
  - exists h', L', 0. split; [done|]. left. split; [done|]. by eapply represents_unchanged.
  - exists h', L', p. split; [done|]. right.
    assert (0 < k) as Hk by (destruct Hcl as [? _]; lia).
    destruct (represents_allocated h L h' L' B p k HRB Hinv' Hal Hk) as [HR' Hf].
    split; [apply Hal|]. split; [done|]. exists k. split; [done|]. split; [done|].
    split; [apply (al_block _ _ _ _ _ _ Hal); by right|]. done.
Qed.

Lemma calloc_no_overflow c n :
  0 < c < 2 ^ 64 → 0 ≤ n → u64 (c * n) / c = n ↔ c * n < 2 ^ 64.
Proof.
  intros Hc Hn. pose proof (u64_range (c * n)) as Hr. split.
  - intros E. destruct (decide (c * n < 2 ^ 64)) as [|Hge]; [done|]. exfalso.
    assert (u64 (c * n) < c * n) by lia. pose proof (Z.div_mod (u64 (c * n)) c).
    pose proof (Z.mod_pos_bound (u64 (c * n)) c). nia.
  - intros Hlt. rewrite wrap_id by nia. rewrite Z.mul_comm. apply Z.div_mul. lia.
Qed.

Lemma calloc_refines h L B c n :
  represents h L B → 0 ≤ c < 2 ^ 64 → 0 ≤ n < 2 ^ 64 →
  ∃ h' L' B' r, kcalloc h c n = Ret (h', r) ∧ represents h' L' B' ∧ heap_spec B (Calloc c n) B' r.
Proof.
  intros HRB Hc Hn. unfold kcalloc.
  destruct (negb (c =? 0) && negb (u64 (c * n) / c =? n)) eqn:Eov.
  { exists h, L, B, 0. split; [done|]. split; [done|]. constructor. }
  assert (0 ≤ c * n < 2 ^ 64) as Hrange.
  { destruct (decide (c = 0)) as [->|Hc0]; [lia|]. rewrite (proj2 (Z.eqb_neq c 0) Hc0) in Eov. cbn in Eov.
    apply negb_false_iff, Z.eqb_eq in Eov. apply calloc_no_overflow in Eov; lia. }
  rewrite wrap_id by done.
  destruct (malloc_refines h L B (c * n) HRB) as (h' & L' & p & -> & [[-> HR']|(Hp & Hcn & k & Hcl & Hk & Hb & Hf & Hal & HR')]);
    [lia|cbn; eauto 10 using calloc_fails|].
  cbn [mbind outcome_bind]. rewrite (proj2 (Z.eqb_neq p 0)) by lia.
  set (m' := kmemset _ _ _ _). destruct Hcl as (Hle & Hin & Hmin).
  assert (∀ x, m' x = if decide (p ≤ x < p + c * n) then 0 else h'.(mem) x) as Hm.
  { intros x. unfold m'. rewrite kmemset_spec, Z2Nat.id by lia. done. }
  exists (with_mem h' m'), L', (<[p := read m' p k]> B), p. split; [done|]. split.
  - rewrite <- (insert_insert_eq B p (read m' p k) (read h'.(mem) p k)). apply represents_fill; [done|done|].
    intros x Hx. rewrite Hm. by rewrite decide_False by lia.
  - apply calloc_gives; [lia| | |]; rewrite ?zlen_read by lia; [done| |].
    + destruct Hf as (? & ? & Hf). split; [done|]. rewrite zlen_read in * by lia. done.
    + apply list_eq_same_length with (Z.to_nat (c * n)); [by rewrite length_replicate|
        rewrite length_take; unfold read; rewrite length_fmap, length_seqZ; lia|].
      intros i x y Hi Hx Hy. apply lookup_replicate in Hy as [-> _].
      rewrite lookup_take_lt in Hx by done. unfold read in Hx. rewrite list_lookup_fmap, lookup_seqZ_lt in Hx by lia.
      cbn in Hx. injection Hx as <-. rewrite Hm. by rewrite decide_True by lia.
Qed.

Lemma kmemcpy_outside n m d s x : ¬ (d ≤ x < d + Z.of_nat n) → kmemcpy n m d s x = m x.
Proof.
  revert m d s. induction n as [|n IH]; intros m d s Hx; cbn [kmemcpy]; [done|].
  rewrite IH by lia. unfold poke. by rewrite (proj2 (Z.eqb_neq _ _)) by lia.
Qed.

(** The part of [krealloc] that moves the data: [n] bytes of [p] into the new
    block of [k > n] bytes at [q], after which [p] is freed. *)
Lemma move_refines h L B h1 L1 p q n k :
  represents h L B → represents h1 L1 (<[q := read h1.(mem) q k]> B) → block h1 L1 q k →
  allocated h L h1 L1 q k → fresh_block B q (read h1.(mem) q k) → 0 < n < k →
  (∀ old, B !! p = Some old → zlen old = n) →
  ∃ h' L' l, kfree (with_mem h1 (kmemcpy (Z.to_nat n) h1.(mem) q p)) p = Ret h' ∧ zlen l = k ∧
    represents h' L' (remove_block p (<[q := l]> B)) ∧ fresh_block B q l ∧
    ∀ old, B !! p = Some old → old `prefix_of` l.
Proof.
  intros HRB HR1 Hq Hal Hf Hnk Hold. set (m' := kmemcpy _ _ _ _). set (h2 := with_mem h1 m').
  assert (represents h2 L1 (<[q := read m' q k]> B)) as HR2.
  { rewrite <- (insert_insert_eq B q (read m' q k) (read h1.(mem) q k)). apply represents_fill; [done|done|].
    intros x Hx. apply kmemcpy_outside. lia. }
  destruct (kfree_spec h2 L1 p (proj1 HR2)) as (h' & L' & E & Hinv' & Hrel).
  exists h', L', (read m' q k). split; [done|]. split; [apply zlen_read; lia|].
  split; [by eapply represents_released|]. split.
  { destruct Hf as (? & Hf1 & Hf2). rewrite zlen_read in Hf1, Hf2 by lia.
    split; [done|]. rewrite zlen_read by lia. done. }
  intros old Ho. pose proof (Hold old Ho) as Hlen. destruct (represents_block h L B p old HRB Ho) as [Hb Eold].
  rewrite Hlen in Hb, Eold. exists (read m' (q + n) (k - n)).
  replace k with (n + (k - n)) at 1 by lia. rewrite read_app by lia. f_equal.
  rewrite Eold. apply read_shift; [lia|]. intros i Hi. unfold m'.
  rewrite kmemcpy_spec by (rewrite Z2Nat.id by lia; destruct (al_fresh _ _ _ _ _ _ Hal p n Hb); lia).
  rewrite Z2Nat.id, decide_True by lia. replace (q + i - q + p) with (p + i) by lia.
  apply (al_mem _ _ _ _ _ _ Hal). exists p, n. split; [done|lia].
Qed.

Lemma realloc_refines h L B p n :
  represents h L B → 0 ≤ n < 2 ^ 64 →
  ∃ h' L' B' r, krealloc h p n = Ret (h', r) ∧ represents h' L' B' ∧ heap_spec B (Realloc p n) B' r.
Proof.
  intros HRB Hn. unfold krealloc. destruct (Z.eqb_spec p 0) as [->|Hp].
  { destruct (malloc_refines h L B n HRB) as (h' & L' & q & -> & [[-> HR']|(Hq & Hn0 & k & Hcl & Hk & Hb & Hf & Hal & HR')]); [lia|..].
    - exists h', L', B, 0. split; [done|]. split; [done|]. apply realloc_null, malloc_fails.
    - eexists h', L', _, q. split; [done|]. split; [done|]. apply realloc_null, malloc_gives; [done| |done].
      by rewrite zlen_read by lia. }
  destruct (Z.eqb_spec n 0) as [->|Hn0].
  { destruct (kfree_spec h L p (proj1 HRB)) as (h' & L' & -> & Hinv' & Hrel).
    exists h', L', (remove_block p B), 0. split; [done|]. split; [by eapply represents_released|]. by apply realloc_zero. }
  destruct (find_cache_for_ptr_spec h L p (proj1 HRB)) as [(c & i & -> & Ho)|[-> Hno]]; cbn [mbind outcome_bind].
  2: { exists h, L, B, 0. split; [done|]. split; [done|]. apply realloc_fails; [done|done|]. intros l Hl.
       destruct (represents_block h L B p l HRB Hl) as [Hb _]. pose proof (block_size _ _ _ _ Hb).
       destruct (block_owner h L p _ p (proj1 HRB) Hb) as (c & i & Ho & _); [lia|]. by destruct (Hno c i). }
  assert (obj_size (h.(caches).[c]) = obj_size (cfg c)) as ->.
  { destruct Ho as [Hc _]. by destruct (inv_cache _ _ (proj1 HRB) c Hc) as (-> & _). }
  assert (∀ l, B !! p = Some l → zlen l = obj_size (cfg c)) as Hlen.
  { intros l Hl. destruct (represents_block h L B p l HRB Hl) as [Hb _]. pose proof (block_size _ _ _ _ Hb).
    destruct (block_owner h L p _ p (proj1 HRB) Hb) as (c' & i' & Ho' & ->); [lia|].
    by destruct (owner_unique h L p c i c' i' (proj1 HRB) Ho Ho') as [-> _]. }
  pose proof (cfg_facts c (proj1 Ho)) as (Hsz & _).
  destruct (Z.leb_spec n (obj_size (cfg c))) as [Hle|Hgt].
  { exists h, L, B, p. split; [done|]. split; [done|]. destruct (B !! p) as [l|] eqn:El.
    - eapply realloc_fits; [done|]. rewrite Hlen by done. lia.
    - by apply realloc_stray. }
  destruct (malloc_refines h L B n HRB) as (h1 & L1 & q & -> & [[-> HR1]|(Hq & _ & k & Hcl & Hk & Hb & Hf & Hal & HR1)]); [lia|..];
    cbn [mbind outcome_bind].
  { exists h1, L1, B, 0. split; [done|]. split; [done|]. apply realloc_fails; [done|done|].
    intros l Hl. by rewrite Hlen. }
  rewrite (proj2 (Z.eqb_neq q 0)) by lia.
  destruct (move_refines h L B h1 L1 p q (obj_size (cfg c)) k) as (h' & L' & l & -> & Hl & HR' & Hf' & Hpre); try done.
  { destruct Hcl as [? _]. lia. }
  eexists h', L', _, q. split; [done|]. split; [done|]. apply realloc_moves; [done|by rewrite Hl|done|].
  intros old Ho'. rewrite (Hlen old Ho'). split; [done|]. by apply Hpre.
Qed.

Lemma heap_step_refines h L B op :
  represents h L B → op_ok op →
  ∃ h' L' B' r, heap_step h op = Ret (h', r) ∧ represents h' L' B' ∧ heap_spec B op B' r.
Proof.
  intros HRB Hop. destruct op as [n|p|p n|c n|x v]; cbn [heap_step op_ok] in *.
  - destruct (malloc_refines h L B n HRB) as (h' & L' & p & -> & [[-> HR']|(Hp & Hn & k & Hcl & Hk & Hb & Hf & Hal & HR')]); [lia|..].
    + exists h', L', B, 0. split; [done|]. split; [done|]. constructor.
    + eexists h', L', _, p. split; [done|]. split; [done|]. apply malloc_gives; [done| |done].
      by rewrite zlen_read by lia.
  - destruct (kfree_spec h L p (proj1 HRB)) as (h' & L' & -> & Hinv' & Hrel).
    exists h', L', (remove_block p B), 0. split; [done|]. split; [by eapply represents_released|]. constructor.
  - by apply (realloc_refines h L).
  - by destruct Hop; apply (calloc_refines h L).
  - eexists _, L, _, 0. split; [done|]. split; [by apply represents_write|]. constructor.
Qed.

Fixpoint heap_run (h : heap A) (ops : list heap_op) : outcome (heap A * list Z) :=
  match ops with
  | [] => Ret (h, [])
  | op :: ops =>
      r ← heap_step h op; let '(h, v) := r in
      r ← heap_run h ops; let '(h, vs) := r in Ret (h, v :: vs)
  end.

Inductive spec_run : blocks → list heap_op → blocks → list Z → Prop :=
| spec_nil B : spec_run B [] B []
| spec_cons B op B1 v ops B2 vs :
    heap_spec B op B1 v → spec_run B1 ops B2 vs → spec_run B (op :: ops) B2 (v :: vs).

(** The state [slab_init] starts from: the static pool, and frames to hand out. *)
Lemma slab_init_represents h :
  zlen h.(slab_pool) = SLAB_POOL_SIZE → fa_inv h.(pages) →
  represents (slab_init h) (λ _, ([], [])) ∅.
Proof.
  intros Hz Hp. split.
  - split; try done.
    + intros c Hc. cbn [caches slab_init slab_pool].
      rewrite aget_map by (unfold is_cache, SLAB_NUM_CACHES, zlen in *; cbn; lia).
      split; [done|]. split; [done|]. split; [done|]. split; [apply NoDup_nil_2|].
      split; intros i Hi; by apply not_elem_of_nil in Hi.
    + intros c i _ Hi. by apply not_elem_of_nil in Hi.
    + intros c i c' j _ _ Hi. by apply not_elem_of_nil in Hi.
    + intros c i f _ Hi. by apply not_elem_of_nil in Hi.
  - intros a l. rewrite lookup_empty. split; [done|].
    intros (n & (c & i & k & _ & Hi & _) & _). by apply not_elem_of_nil in Hi.
Qed.

(** Against any frame allocator. *)
Lemma heap_run_refines h ops :
  zlen h.(slab_pool) = SLAB_POOL_SIZE → fa_inv h.(pages) → Forall op_ok ops →
  ∃ h' L' B rs, heap_run (slab_init h) ops = Ret (h', rs) ∧ represents h' L' B ∧ spec_run ∅ ops B rs.
Proof.
  intros Hz Hp Hops. pose proof (slab_init_represents h Hz Hp) as HR.
  generalize dependent (slab_init h). generalize (∅ : blocks). generalize (λ _ : Z, ([], []) : list Z * list Z).
  clear Hz Hp h. induction Hops as [|op ops Hop _ IH]; intros L B h HR; cbn [heap_run].
  { exists h, L, B, []. split; [done|]. split; [done|constructor]. }
  destruct (heap_step_refines h L B op HR Hop) as (h1 & L1 & B1 & v & -> & HR1 & Hs).
  destruct (IH L1 B1 h1 HR1) as (h2 & L2 & B2 & vs & E & HR2 & Hrun). cbn [mbind outcome_bind]. rewrite E.
  exists h2, L2, B2, (v :: vs). split; [done|]. split; [done|]. by econstructor.
Qed.

(** When no page is left, a failed allocation of a new slab still uses up
    one of the [SLAB_POOL_SIZE] slab headers; once they are used up, the cache
    allocates no slab any more, whatever pages are given back. *)
Theorem slab_header_leak h c :
  partial (h.(caches).[c]) = None →
  (0 ≤ h.(slab_pool_next) < SLAB_POOL_SIZE →
   (fa_alloc h.(pages) (pages_per_slab (h.(caches).[c]))).2 = 0 →
   ∃ h', cache_alloc h c = Ret (h', 0) ∧
     h'.(slab_pool_next) = h.(slab_pool_next) + 1 ∧ h'.(caches) = h.(caches)) ∧
  (SLAB_POOL_SIZE ≤ h.(slab_pool_next) → cache_alloc h c = Ret (h, 0)).
Proof.
  intros Hp. unfold cache_alloc, slab_create, slab_pool_alloc. rewrite Hp. split.
  - intros Hn Hf. rewrite (proj2 (Z.ltb_lt _ _)) by lia. cbn [pages].
    destruct (fa_alloc h.(pages) _) as [a pa]. cbn in Hf. subst pa. cbn [Z.eqb].
    eexists. split; [done|]. split; [|done]. cbn. unfold SLAB_POOL_SIZE in *. apply wrap_id. lia.
  - intros Hn. by rewrite (proj2 (Z.ltb_ge _ _)) by lia.
Qed.
End refinement.
