(* ===== verification/KHeap.v ===== *)
(** * What the kernel heap promises to its clients

    [kh_rep h B]: the heap [h] has handed out exactly the blocks that start at the
    addresses of [B]. A client that keeps its data in typed stores indexed by block
    addresses needs no more than this interface; [SlabHeap] shows that the slab
    allocator provides it. *)

From S2P Require Import Prelude CMem.
From stdpp Require Import base numbers list gmap sets.
Open Scope Z_scope.

(** The largest object of the slab allocator. *)
Definition KMALLOC_MAX : Z := 65536.

Class KHeap (H : Type) := {
  kh_rep : H → gset Z → Prop;
  kmalloc : H → Z → outcome (H * Z);
  kcalloc : H → Z → Z → outcome (H * Z);
  kfree : H → Z → outcome H;
  krealloc : H → Z → Z → outcome (H * Z);
  kmalloc_spec h B n : kh_rep h B → 0 ≤ n < 2 ^ 64 →
    ∃ h' p, kmalloc h n = Ret (h', p) ∧
      (p = 0 ∧ kh_rep h' B ∨ 0 < p ∧ 0 < n ≤ KMALLOC_MAX ∧ p ∉ B ∧ kh_rep h' ({[p]} ∪ B));
  kcalloc_spec h B c n : kh_rep h B → 0 ≤ c < 2 ^ 64 → 0 ≤ n < 2 ^ 64 →
    ∃ h' p, kcalloc h c n = Ret (h', p) ∧
      (p = 0 ∧ kh_rep h' B ∨ 0 < p ∧ 0 < c * n ≤ KMALLOC_MAX ∧ p ∉ B ∧ kh_rep h' ({[p]} ∪ B));
  kfree_null h : kfree h 0 = Ret h;
  kfree_spec h B p : kh_rep h B → p ∈ B → ∃ h', kfree h p = Ret h' ∧ kh_rep h' (B ∖ {[p]});
  krealloc_null h n : krealloc h 0 n = kmalloc h n;
  krealloc_zero h p : p ≠ 0 → krealloc h p 0 = (h ← kfree h p; Ret (h, 0));
  krealloc_spec h B p n : kh_rep h B → p ∈ B → 0 < n < 2 ^ 64 →
    ∃ h' q, krealloc h p n = Ret (h', q) ∧
      (q = 0 ∧ kh_rep h' B ∨ 0 < q ∧ (q = p ∨ q ∉ B) ∧ kh_rep h' ({[q]} ∪ B ∖ {[p]}));
}.
