(* ===== verification/SlabHeap.v ===== *)
(** * The slab allocator provides [KHeap] *)

From S2P Require Import Prelude CMem FrameAllocator Slab KHeap.
From stdpp Require Import base numbers list gmap sets.
Open Scope Z_scope.

Section instance.
Context {A : Type} `{FA : FrameAllocator A}.

Definition slab_rep (h : heap A) (B : gset Z) : Prop :=
  ∃ L (m : blocks), represents h L m ∧ dom m = B.

Lemma size_class_max n k : size_class n k → n ≤ KMALLOC_MAX.
Proof.
  intros (Hle & Hin & _). enough (n ≤ k ∧ k ≤ 65536) by (unfold KMALLOC_MAX; lia). split; [done|].
  unfold cache_sizes in Hin. repeat (apply elem_of_cons in Hin as [->|Hin]; [lia|]). by apply not_elem_of_nil in Hin.
Qed.

Lemma fresh_not_live h L (m : blocks) p l :
  represents h L m → fresh_block m p l → 0 < zlen l → p ∉ dom m.
Proof.
  intros HR (_ & _ & Hd) Hlen [l' Hl]%elem_of_dom. specialize (Hd p l' Hl).
  destruct (represents_block h L m p l' HR Hl) as [Hbl _]. pose proof (block_size _ _ _ _ Hbl). lia.
Qed.

Lemma slab_kmalloc_spec h B n :
  slab_rep h B → 0 ≤ n < 2 ^ 64 →
  ∃ h' p, Slab.kmalloc h n = Ret (h', p) ∧
    (p = 0 ∧ slab_rep h' B ∨ 0 < p ∧ 0 < n ≤ KMALLOC_MAX ∧ p ∉ B ∧ slab_rep h' ({[p]} ∪ B)).
Proof.
  intros (L & m & HR & <-) Hn.
  destruct (malloc_refines h L m n HR) as (h' & L' & p & E & [[-> HR']|(Hp & Hn0 & k & Hcl & Hk & Hb & Hf & _ & HR')]); [lia|..].
  - exists h', 0. split; [done|]. left. split; [done|]. by exists L', m.
  - exists h', p. split; [done|]. right. split; [done|]. split; [split; [done|by apply (size_class_max n k)]|].
    split; [|eexists L', _; split; [exact HR'|]; by rewrite dom_insert_L].
    apply (fresh_not_live h L m p _ HR Hf). rewrite zlen_read; lia.
Qed.

Lemma slab_kcalloc_spec h B c n :
  slab_rep h B → 0 ≤ c < 2 ^ 64 → 0 ≤ n < 2 ^ 64 →
  ∃ h' p, Slab.kcalloc h c n = Ret (h', p) ∧
    (p = 0 ∧ slab_rep h' B ∨ 0 < p ∧ 0 < c * n ≤ KMALLOC_MAX ∧ p ∉ B ∧ slab_rep h' ({[p]} ∪ B)).
Proof.
  intros (L & m & HR & <-) Hc Hn.
  destruct (calloc_refines h L m c n HR Hc Hn) as (h' & L' & m' & p & E & HR' & Hs).
  exists h', p. split; [done|]. inversion Hs as [| | | | | | | | |? ?|? ? ? l Hcn Hcl Hf _|]; subst.
  - left. split; [done|]. by eexists L', _.
  - right. pose proof (size_class_max _ _ Hcl). split; [apply Hf|]. split; [lia|].
    split; [|eexists L', _; split; [exact HR'|]; by rewrite dom_insert_L].
    apply (fresh_not_live h L m p _ HR Hf). destruct Hcl as [? _]. lia.
Qed.

Lemma dom_remove_block h L (m : blocks) p l :
  represents h L m → m !! p = Some l → dom (remove_block p m) = dom m ∖ {[p]}.
Proof.
  intros HR Hl. destruct (represents_block h L m p l HR Hl) as [Hb _]. pose proof (block_size _ _ _ _ Hb) as Hsz.
  apply set_eq. intros a. rewrite elem_of_difference, elem_of_singleton, !elem_of_dom. unfold remove_block. split.
  - intros [l' Hl']. apply map_lookup_filter_Some in Hl' as [Hl' Hn]. cbn in Hn. split; [by eexists|].
    intros ->. rewrite Hl in Hl'. injection Hl' as <-. apply Hn. lia.
  - intros [[l' Hl'] Hne]. exists l'. apply map_lookup_filter_Some. split; [done|]. cbn. intros Hin.
    destruct (represents_block h L m a l' HR Hl') as [Hb' _].
    destruct (blocks_apart h L p (zlen l) a (zlen l') (proj1 HR) Hb Hb'); [done|lia|lia].
Qed.

Lemma slab_kfree_spec h B p :
  slab_rep h B → p ∈ B → ∃ h', Slab.kfree h p = Ret h' ∧ slab_rep h' (B ∖ {[p]}).
Proof.
  intros (L & m & HR & <-) [l Hl]%elem_of_dom.
  destruct (Slab.kfree_spec h L p (proj1 HR)) as (h' & L' & E & Hinv & Hrel).
  exists h'. split; [done|]. exists L', (remove_block p m). split; [by eapply represents_released|].
  by eapply dom_remove_block.
Qed.

Lemma slab_krealloc_spec h B p n :
  slab_rep h B → p ∈ B → 0 < n < 2 ^ 64 →
  ∃ h' q, Slab.krealloc h p n = Ret (h', q) ∧
    (q = 0 ∧ slab_rep h' B ∨ 0 < q ∧ (q = p ∨ q ∉ B) ∧ slab_rep h' ({[q]} ∪ B ∖ {[p]})).
Proof.
  intros (L & m & HR & <-) Hp Hn. pose proof Hp as [l Hl]%elem_of_dom.
  destruct (represents_block h L m p l HR Hl) as [Hb _]. pose proof (block_size _ _ _ _ Hb) as Hsz.
  pose proof (block_nonzero h L p _ (proj1 HR) Hb) as [Hp0 _].
  destruct (realloc_refines h L m p n HR) as (h' & L' & m' & q & E & HR' & Hs); [lia|].
  exists h', q. split; [done|].
  inversion Hs as [| | | | |? ? ? Hl' Hle|? ? ? ? ?|? ? ? l' _ _ Hf Hold| | | |]; subst; try lia; try congruence.
  - right. split; [done|]. split; [by left|]. exists L', m'. split; [done|]. set_unfold. intros a.
    destruct (decide (a = q)) as [->|]; set_solver.
  - left. split; [done|]. by exists L', m'.
  - right. destruct Hf as (Hq & _ & Hd). destruct (Hold l Hl) as [_ Hpre%prefix_length].
    assert (0 < zlen l') as Hl' by (unfold zlen in *; lia).
    assert (q ∉ dom m) as Hqm.
    { intros [l2 Hl2]%elem_of_dom. destruct (represents_block h L m q l2 HR Hl2) as [Hb2 _].
      pose proof (block_size _ _ _ _ Hb2). specialize (Hd q l2 Hl2). lia. }
    split; [done|]. split; [by right|]. eexists L', _. split; [exact HR'|].
    unfold remove_block. rewrite map_filter_insert_True by (cbn; specialize (Hd p l Hl); lia).
    rewrite dom_insert_L. f_equal. by apply (dom_remove_block h L m p l).
Qed.

Lemma slab_krealloc_zero (h : heap A) p : p ≠ 0 → Slab.krealloc h p 0 = (h ← Slab.kfree h p; Ret (h, 0)).
Proof. intros Hp. unfold Slab.krealloc. by rewrite (proj2 (Z.eqb_neq p 0)). Qed.

#[export] Instance slab_heap : KHeap (heap A) := {|
  kh_rep := slab_rep;
  KHeap.kmalloc := Slab.kmalloc;
  KHeap.kcalloc := Slab.kcalloc;
  KHeap.kfree := Slab.kfree;
  KHeap.krealloc := Slab.krealloc;
  KHeap.kmalloc_spec := slab_kmalloc_spec;
  KHeap.kcalloc_spec := slab_kcalloc_spec;
  KHeap.kfree_null := λ _, eq_refl;
  KHeap.kfree_spec := slab_kfree_spec;
  KHeap.krealloc_null := λ _ _, eq_refl;
  KHeap.krealloc_zero := slab_krealloc_zero;
  KHeap.krealloc_spec := slab_krealloc_spec;
|}.
End instance.
