(* ===== verification/KernelHeap.v ===== *)
(** * The kernel heap on top of the page allocator

    The boot sequence [pmm_init] then [slab_init], and what the clients of
    [kmalloc] get from the two components together. *)

From S2P Require Import Prelude CMem FrameAllocator Pmm Slab KHeap SlabHeap.
From stdpp Require Import base numbers list gmap.
Open Scope Z_scope.

(** The static data of [slab.c] is zeroed before [slab_init] runs. *)
Definition boot_heap (bi : boot_info_t) (ram : Z → Z) : heap pmm_t :=
  slab_init {| caches := replicate (Z.to_nat SLAB_NUM_CACHES) zero_cache;
               slab_pool := replicate (Z.to_nat SLAB_POOL_SIZE) zero_slab;
               slab_pool_next := 0; pages := pmm_init bi; mem := ram |}.

Lemma pmm_init_inv bi : boot_ok bi → pmm_inv (pmm_init bi).
Proof.
  intros Hbi. destruct (pmm_init_spec bi Hbi) as (Hwf & _ & Hfree). split; [done|].
  intros H0%Hfree. lia.
Qed.

(** C1: every sequence of [kmalloc], [kfree], [krealloc] and [kcalloc] calls
    after boot, interleaved with client stores, runs to completion and behaves
    like a finite map from addresses to blocks of bytes: new blocks have the
    smallest size class that fits and overlap no block in use, blocks keep
    their bytes until they are freed, a free releases exactly the block around
    the pointer (a stray or repeated free changes nothing), [krealloc] keeps
    the contents and [kcalloc] returns zeroed memory or fails when the product
    overflows. *)
Theorem kernel_heap_refines bi ram ops :
  boot_ok bi → Forall op_ok ops →
  ∃ h L B rs, heap_run (boot_heap bi ram) ops = Ret (h, rs) ∧ represents h L B ∧ spec_run ∅ ops B rs.
Proof.
  intros Hbi Hops. apply heap_run_refines; [done| |done]. by apply pmm_init_inv.
Qed.

Definition demo_ops : list heap_op :=
  [Malloc 100; Calloc 3 16; Write 0xFFFF800000280000 7; Realloc 0xFFFF800000280000 200;
   Free 0xFFFF800000280010; Free 0xFFFF800000280010; Malloc 128; Calloc (2 ^ 63) 2; Malloc 70000].

Definition results {A} (o : outcome (heap A * list Z)) : option (list Z) :=
  match o with
  | Ret (_, rs) => Some rs
  | _ => None
  end.

Lemma kernel_heap_refines_witness :
  ∃ h L B rs, heap_run (boot_heap demo_boot (λ _, 0)) demo_ops = Ret (h, rs) ∧
    represents h L B ∧ spec_run ∅ demo_ops B rs ∧
    results (heap_run (boot_heap demo_boot (λ _, 0)) demo_ops) =
      Some [0xFFFF800000280000; 0xFFFF800000281000; 0; 0xFFFF800000282000; 0; 0;
            0xFFFF800000280000; 0; 0].
Proof.
  destruct (kernel_heap_refines demo_boot (λ _, 0) demo_ops demo_boot_ok) as (h & L & B & rs & E & HR & Hs).
  { repeat constructor; cbn; lia. }
  exists h, L, B, rs. split; [exact E|]. split; [exact HR|]. split; [exact Hs|]. by vm_compute.
Defined.

(** A machine whose pages are all in use. *)
Definition full_pmm : pmm_t :=
  {| Pmm.bitmap := replicate (Z.to_nat 16384) UINT64_MAX; total_pages := 12; free_pages := 0 |}.

Lemma slab_header_leak_witness :
  let h := slab_init {| caches := []; slab_pool := replicate (Z.to_nat SLAB_POOL_SIZE) zero_slab;
                        slab_pool_next := 0; pages := full_pmm; mem := λ _, 0 |} in
  ∃ h', cache_alloc h 0 = Ret (h', 0) ∧ slab_pool_next h' = 1 ∧ caches h' = caches h.
Proof.
  intros h. apply (slab_header_leak h 0); by vm_compute.
Defined.

(** The heap that boot sets up on a small memory map, for the witnesses of the
    theorems about clients of the heap. *)
Definition demo_heap := boot_heap demo_boot (λ _, 0).

Lemma demo_heap_rep : kh_rep demo_heap ∅.
Proof.
  exists (λ _, ([], [])), ∅. split; [|apply dom_empty_L]. apply Slab.slab_init_represents; [done|].
  exact (pmm_init_inv _ demo_boot_ok).
Qed.
