(* ===== verification/HashMap.v ===== *)
(** * The string hash map ([src/lib/hashmap.c])

    Chained hashing with FNV-1a. The map lives in heap blocks; the typed stores
    [ents] and [strs] hold the entries and the key strings by the address of their
    block, and only [kmalloc] and [kfree] create and destroy them, so that a use
    after free is a [Fault]. The heap is any [KHeap]. A key is a string without
    its terminator; [None] stands for a null pointer. *)

From S2P Require Import Pmm Slab SlabHeap KernelHeap.
From S2P Require Import Prelude CMem CFormat CArray IList KHeap.
From stdpp Require Import functions base numbers list gmap sets.
Open Scope Z_scope.

Definition FNV_OFFSET_BASIS : Z := 0xcbf29ce484222325.
Definition FNV_PRIME : Z := 0x100000001b3.
Definition DEFAULT_CAPACITY : Z := 16.

Fixpoint fnv_from (h : Z) (key : list Z) : Z :=
  match key with [] => h | c :: key => fnv_from (u64 (Z.lxor h c * FNV_PRIME)) key end.
Definition fnv1a_hash (key : list Z) : Z := fnv_from FNV_OFFSET_BASIS key.

Definition next_power_of_2 (v : Z) : Z :=
  let v := u64 (v - 1) in
  let v := Z.lor v (Z.shiftr v 1) in let v := Z.lor v (Z.shiftr v 2) in
  let v := Z.lor v (Z.shiftr v 4) in let v := Z.lor v (Z.shiftr v 8) in
  let v := Z.lor v (Z.shiftr v 16) in let v := Z.lor v (Z.shiftr v 32) in
  u64 (v + 1).

Record hashmap_entry_t := { key : Z; value : Z; hash : Z; next : option Z }.
Definition set_next (e : hashmap_entry_t) (n : option Z) : hashmap_entry_t :=
  {| key := e.(key); value := e.(value); hash := e.(hash); next := n |}.
Definition set_value (e : hashmap_entry_t) (v : Z) : hashmap_entry_t :=
  {| key := e.(key); value := v; hash := e.(hash); next := e.(next) |}.

(** [self] and [bptr] are the blocks of the structure and of the bucket array. *)
Record hashmap_t := {
  self : Z; bptr : Z; buckets : list (option Z); count : Z; capacity : Z; load_threshold : Z;
}.

Record store (H : Type) := {
  heap : H; ents : gmap Z hashmap_entry_t; strs : gmap Z (list Z);
}.
Arguments Build_store {H}.
Arguments heap {H}.
Arguments ents {H}.
Arguments strs {H}.

(** [sizeof] the entry and the map structures on a 64-bit machine. *)
Definition SIZEOF_ENTRY : Z := 32.
Definition SIZEOF_MAP : Z := 32.

Section hashmap.
Context {H : Type} `{KH : KHeap H}.
Implicit Types s : store H.
Implicit Types m : hashmap_t.

Definition with_heap s (h : H) : store H := {| heap := h; ents := s.(ents); strs := s.(strs) |}.
Definition with_ents s (e : gmap Z hashmap_entry_t) : store H :=
  {| heap := s.(heap); ents := e; strs := s.(strs) |}.
Definition with_strs s (t : gmap Z (list Z)) : store H :=
  {| heap := s.(heap); ents := s.(ents); strs := t |}.
Definition entry s (a : Z) : outcome hashmap_entry_t :=
  match s.(ents) !! a with Some e => Ret e | None => Fault end.
Definition str s (a : Z) : outcome (list Z) :=
  match s.(strs) !! a with Some t => Ret t | None => Fault end.

Definition with_buckets m (b : list (option Z)) : hashmap_t :=
  {| self := m.(self); bptr := m.(bptr); buckets := b; count := m.(count); capacity := m.(capacity);
     load_threshold := m.(load_threshold) |}.
Definition with_count m (c : Z) : hashmap_t :=
  {| self := m.(self); bptr := m.(bptr); buckets := m.(buckets); count := c; capacity := m.(capacity);
     load_threshold := m.(load_threshold) |}.

Definition hashmap_create s (initial_capacity : Z) : outcome (store H * option hashmap_t) :=
  let cap := if initial_capacity <? DEFAULT_CAPACITY then DEFAULT_CAPACITY else initial_capacity in
  let cap := next_power_of_2 cap in
  r ← kmalloc s.(heap) SIZEOF_MAP;
  let '(h, p) := r in
  if p =? 0 then Ret (with_heap s h, None) else
  r ← kcalloc h cap 8;
  let '(h, b) := r in
  if b =? 0 then h ← kfree h p; Ret (with_heap s h, None) else
  Ret (with_heap s h,
       Some {| self := p; bptr := b; buckets := replicate (Z.to_nat cap) None; count := 0;
               capacity := cap; load_threshold := u64 (cap * 75) / 100 |}).

Definition free_entry s (a : Z) : outcome (store H) :=
  e ← entry s a;
  h ← kfree s.(heap) e.(key);
  let s := with_heap (with_strs s (delete e.(key) s.(strs))) h in
  h ← kfree s.(heap) a;
  Ret (with_heap (with_ents s (delete a s.(ents))) h).

(** [dup_key]: [None] when there is no memory. *)
Definition dup_key s (k : list Z) : outcome (store H * option Z) :=
  r ← kmalloc s.(heap) (zlen k + 1);
  let '(h, p) := r in
  if p =? 0 then Ret (with_heap s h, None)
  else Ret (with_strs (with_heap s h) (<[p := k]> s.(strs)), Some p).

(** The inner loop of [hashmap_resize]: the chain from [e] is moved to [nb]. *)
Fixpoint move_chain (fuel : nat) s (nb : list (option Z)) (new_cap : Z) (e : option Z)
    : outcome (store H * list (option Z)) :=
  match e with
  | None => Ret (s, nb)
  | Some a =>
      match fuel with
      | O => NoFuel
      | S fuel =>
          x ← entry s a;
          let idx := Z.land x.(hash) (new_cap - 1) in
          let s := with_ents s (<[a := set_next x (nb.[idx])]> s.(ents)) in
          move_chain fuel s (nb.[idx <- Some a]) new_cap x.(next)
      end
  end.
Fixpoint move_buckets (n : nat) (fuel : nat) s m (nb : list (option Z)) (new_cap i : Z)
    : outcome (store H * list (option Z)) :=
  match n with
  | O => Ret (s, nb)
  | S n =>
      r ← move_chain fuel s nb new_cap (m.(buckets).[i]);
      let '(s, nb) := r in move_buckets n fuel s m nb new_cap (i + 1)
  end.

(** A chain is walked with fuel for every entry there is. *)
Definition fuel_of s : nat := S (size s.(ents)).

Definition hashmap_resize s m (new_cap : Z) : outcome (store H * hashmap_t * Z) :=
  r ← kcalloc s.(heap) new_cap 8;
  let '(h, b) := r in
  let s := with_heap s h in
  if b =? 0 then Ret (s, m, - ENOMEM) else
  r ← move_buckets (Z.to_nat m.(capacity)) (fuel_of s) s m (replicate (Z.to_nat new_cap) None) new_cap 0;
  let '(s, nb) := r in
  h ← kfree s.(heap) m.(bptr);
  Ret (with_heap s h,
       {| self := m.(self); bptr := b; buckets := nb; count := m.(count); capacity := new_cap;
          load_threshold := u64 (new_cap * 75) / 100 |}, 0).

(** [for (e = ...; e; e = e->next) if (e->hash == h && strcmp(e->key, key) == 0)]:
    the first entry that matches. *)
Fixpoint find_entry (fuel : nat) s (e : option Z) (h : Z) (k : list Z) : outcome (option Z) :=
  match e with
  | None => Ret None
  | Some a =>
      match fuel with
      | O => NoFuel
      | S fuel =>
          x ← entry s a;
          if x.(hash) =? h then
            t ← str s x.(key);
            if bool_decide (t = k) then Ret (Some a) else find_entry fuel s x.(next) h k
          else find_entry fuel s x.(next) h k
      end
  end.

Definition index m (h : Z) : Z := Z.land h (m.(capacity) - 1).

Definition hashmap_put s (map : option hashmap_t) (k : option (list Z)) (v : Z)
    : outcome (store H * option hashmap_t * Z) :=
  match map, k with
  | Some m, Some k =>
      let h := fnv1a_hash k in
      r ← find_entry (fuel_of s) s (m.(buckets).[index m h]) h k;
      match r with
      | Some a => x ← entry s a; Ret (with_ents s (<[a := set_value x v]> s.(ents)), Some m, 0)
      | None =>
          r ← (if m.(count) >=? m.(load_threshold) then hashmap_resize s m (u64 (m.(capacity) * 2))
               else Ret (s, m, 0));
          let '(s, m, rc) := r in
          if negb (rc =? 0) then Ret (s, Some m, rc) else
          let idx := index m h in
          r ← kmalloc s.(heap) SIZEOF_ENTRY;
          let '(hp, a) := r in
          let s := with_heap s hp in
          if a =? 0 then Ret (s, Some m, - ENOMEM) else
          r ← dup_key s k;
          let '(s, kp) := r in
          match kp with
          | None => hp ← kfree s.(heap) a; Ret (with_heap s hp, Some m, - ENOMEM)
          | Some kp =>
              let e := {| key := kp; value := v; hash := h; next := m.(buckets).[idx] |} in
              Ret (with_ents s (<[a := e]> s.(ents)),
                   Some (with_count (with_buckets m (m.(buckets).[idx <- Some a])) (u64 (m.(count) + 1))), 0)
          end
      end
  | _, _ => Ret (s, map, - EINVAL)
  end.

Definition hashmap_get s (map : option hashmap_t) (k : option (list Z)) : outcome Z :=
  match map, k with
  | Some m, Some k =>
      let h := fnv1a_hash k in
      r ← find_entry (fuel_of s) s (m.(buckets).[index m h]) h k;
      match r with Some a => x ← entry s a; Ret x.(value) | None => Ret 0 end
  | _, _ => Ret 0
  end.

Definition hashmap_contains s (map : option hashmap_t) (k : option (list Z)) : outcome bool :=
  match map, k with
  | Some m, Some k =>
      let h := fnv1a_hash k in
      r ← find_entry (fuel_of s) s (m.(buckets).[index m h]) h k;
      Ret (bool_decide (is_Some r))
  | _, _ => Ret false
  end.

(** The body of the [if] in [hashmap_remove]: [prev] is the bucket ([None]) or the
    entry whose [next] field points to the entry [x] at [a]. *)
Definition take_out s m (idx : Z) (prev : option Z) (a : Z) (x : hashmap_entry_t)
    : outcome (store H * hashmap_t * Z) :=
  r ← match prev with
      | None => Ret (s, with_buckets m (m.(buckets).[idx <- x.(next)]))
      | Some p => y ← entry s p; Ret (with_ents s (<[p := set_next y x.(next)]> s.(ents)), m)
      end;
  let '(s, m) := r in
  s ← free_entry s a;
  Ret (s, with_count m (u64 (m.(count) - 1)), x.(value)).
Fixpoint remove_from (fuel : nat) s m (idx : Z) (prev e : option Z) (h : Z) (k : list Z)
    : outcome (store H * hashmap_t * Z) :=
  match e with
  | None => Ret (s, m, 0)
  | Some a =>
      match fuel with
      | O => NoFuel
      | S fuel =>
          x ← entry s a;
          if x.(hash) =? h then
            t ← str s x.(key);
            if bool_decide (t = k) then take_out s m idx prev a x
            else remove_from fuel s m idx (Some a) x.(next) h k
          else remove_from fuel s m idx (Some a) x.(next) h k
      end
  end.
Definition hashmap_remove s (map : option hashmap_t) (k : option (list Z))
    : outcome (store H * option hashmap_t * Z) :=
  match map, k with
  | Some m, Some k =>
      let h := fnv1a_hash k in
      r ← remove_from (fuel_of s) s m (index m h) None (m.(buckets).[index m h]) h k;
      let '(s, m, v) := r in Ret (s, Some m, v)
  | _, _ => Ret (s, map, 0)
  end.

Definition hashmap_size (map : option hashmap_t) : Z :=
  match map with Some m => m.(count) | None => 0 end.

Fixpoint free_chain (fuel : nat) s (e : option Z) : outcome (store H) :=
  match e with
  | None => Ret s
  | Some a =>
      match fuel with
      | O => NoFuel
      | S fuel => x ← entry s a; s ← free_entry s a; free_chain fuel s x.(next)
      end
  end.
Fixpoint clear_from (n : nat) (fuel : nat) s m (i : Z) : outcome (store H * hashmap_t) :=
  match n with
  | O => Ret (s, m)
  | S n =>
      s ← free_chain fuel s (m.(buckets).[i]);
      clear_from n fuel s (with_buckets m (m.(buckets).[i <- None])) (i + 1)
  end.
Definition hashmap_clear s (map : option hashmap_t) : outcome (store H * option hashmap_t) :=
  match map with
  | None => Ret (s, None)
  | Some m =>
      r ← clear_from (Z.to_nat m.(capacity)) (fuel_of s) s m 0;
      let '(s, m) := r in Ret (s, Some (with_count m 0))
  end.

Definition hashmap_destroy s (map : option hashmap_t) : outcome (store H) :=
  match map with
  | None => Ret s
  | Some m =>
      r ← hashmap_clear s map;
      let '(s, _) := r in
      h ← kfree s.(heap) m.(bptr);
      h ← kfree h m.(self);
      Ret (with_heap s h)
  end.

(** The calls that [hashmap_foreach] makes to its callback, in order. *)
Fixpoint visit_chain (fuel : nat) s (e : option Z) : outcome (list (list Z * Z)) :=
  match e with
  | None => Ret []
  | Some a =>
      match fuel with
      | O => NoFuel
      | S fuel => x ← entry s a; t ← str s x.(key); l ← visit_chain fuel s x.(next); Ret ((t, x.(value)) :: l)
      end
  end.
Fixpoint visit_from (n : nat) (fuel : nat) s m (i : Z) : outcome (list (list Z * Z)) :=
  match n with
  | O => Ret []
  | S n => l ← visit_chain fuel s (m.(buckets).[i]); l' ← visit_from n fuel s m (i + 1); Ret (l ++ l')
  end.
Definition hashmap_foreach s (map : option hashmap_t) : outcome (list (list Z * Z)) :=
  match map with Some m => visit_from (Z.to_nat m.(capacity)) (fuel_of s) s m 0 | None => Ret [] end.
End hashmap.

(** ** Bit arithmetic *)

Definition smeared (v w x : Z) : Prop :=
  ∀ i, 0 ≤ i → Z.testbit x i = true ↔ ∃ j, 0 ≤ j < w ∧ Z.testbit v (i + j) = true.

Lemma smear_step v w x : 0 < w → smeared v w x → smeared v (2 * w) (Z.lor x (Z.shiftr x w)).
Proof.
  intros Hw Hx i Hi. rewrite Z.lor_spec, Z.shiftr_spec, orb_true_iff, (Hx i), (Hx (i + w)) by lia. split.
  - intros [(j & Hj & Hb)|(j & Hj & Hb)]; [exists j; split; [lia|done]|].
    exists (w + j). split; [lia|]. by rewrite Z.add_assoc.
  - intros (j & Hj & Hb). destruct (decide (j < w)); [left; exists j; split; [lia|done]|].
    right. exists (j - w). split; [lia|]. by replace (i + w + (j - w)) with (i + j) by lia.
Qed.

Lemma next_power_of_2_log v :
  2 ≤ v < 2 ^ 64 → next_power_of_2 v = u64 (2 ^ (Z.log2 (v - 1) + 1)) ∧ 0 ≤ Z.log2 (v - 1) < 64.
Proof.
  intros Hv. unfold next_power_of_2. rewrite (wrap_id 64 (v - 1)) by lia. set (u := v - 1).
  assert (smeared u 1 u) as H0.
  { intros i Hi. split; [intros Hb; exists 0; split; [lia|by rewrite Z.add_0_r]|].
    intros (j & Hj & Hb). by replace (i + j) with i in Hb by lia. }
  apply (smear_step u 1) in H0; [|lia]. apply (smear_step u 2) in H0; [|lia]. apply (smear_step u 4) in H0; [|lia].
  apply (smear_step u 8) in H0; [|lia]. apply (smear_step u 16) in H0; [|lia]. apply (smear_step u 32) in H0; [|lia].
  cbv zeta. set (x := Z.lor _ (Z.shiftr _ 32)) in *. change (2 * 32) with 64 in H0. clearbody x.
  pose proof (Z.log2_nonneg u). assert (Z.log2 u < 64) as Hlt by (apply Z.log2_lt_pow2; lia).
  split; [|done]. assert (x = Z.ones (Z.log2 u + 1)) as ->.
  { apply Z.bits_inj'. intros i Hi. destruct (decide (i ≤ Z.log2 u)).
    - rewrite Z.ones_spec_low by lia. apply H0; [done|]. exists (Z.log2 u - i). split; [lia|].
      replace (i + (Z.log2 u - i)) with (Z.log2 u) by lia. apply Z.bit_log2. lia.
    - rewrite Z.ones_spec_high by lia. destruct (Z.testbit x i) eqn:Hb; [|done].
      apply H0 in Hb as (j & Hj & Hb); [|done]. rewrite Z.bits_above_log2 in Hb; [done|lia|lia]. }
  rewrite Z.ones_equiv. f_equal. lia.
Qed.

(** A power of two, and the next one, unless it does not fit: then 0. *)
Lemma next_power_of_2_spec v :
  2 ≤ v < 2 ^ 64 →
  next_power_of_2 v = 0 ∨ ∃ k, 0 < k ≤ 63 ∧ next_power_of_2 v = 2 ^ k ∧ v ≤ 2 ^ k < 2 * v.
Proof.
  intros Hv. destruct (next_power_of_2_log v Hv) as [-> Hlog]. set (u := v - 1) in *.
  destruct (decide (Z.log2 u = 63)) as [E|Hne].
  - left. rewrite E. reflexivity.
  - right. exists (Z.log2 u + 1). split; [lia|]. pose proof (Z.log2_spec u ltac:(lia)) as Hspec.
    replace (Z.succ (Z.log2 u)) with (Z.log2 u + 1) in Hspec by lia.
    assert (2 ^ (Z.log2 u + 1) ≤ 2 ^ 63) as Hp by (apply Z.pow_le_mono_r; lia).
    rewrite wrap_id by lia. split; [done|]. rewrite Z.pow_add_r in * by lia. change (2 ^ 1) with 2 in *. lia.
Qed.

Lemma land_pow2 h k : 0 ≤ k → 0 ≤ Z.land h (2 ^ k - 1) < 2 ^ k.
Proof.
  intros Hk. replace (2 ^ k - 1) with (Z.ones k) by (rewrite Z.ones_equiv; lia).
  rewrite Z.land_ones by done. apply Z.mod_pos_bound. apply Z.pow_pos_nonneg; lia.
Qed.

(** ** The table

    The proofs separate what the entries say ([dict]), which does not look at the
    links, from where they are ([table]), which does not look at keys and values. *)

Section proofs.
Context {H : Type} `{KH : KHeap H}.
Implicit Types s : store H.
Implicit Types m : hashmap_t.
Implicit Types C N : Z → list Z.

Definition nxt s (a : Z) : option Z := match s.(ents) !! a with Some e => e.(next) | None => None end.
Definition pay (e : hashmap_entry_t) : Z * Z * Z := (e.(key), e.(value), e.(hash)).
Definition holds s (a : Z) (k : list Z) : Prop := ∃ e, s.(ents) !! a = Some e ∧ s.(strs) !! e.(key) = Some k.

Record dict s (M : gmap (list Z) Z) : Prop := {
  d_ent a e : s.(ents) !! a = Some e → ∃ k,
    s.(strs) !! e.(key) = Some k ∧ e.(hash) = fnv1a_hash k ∧ M !! k = Some e.(value);
  d_key k v : M !! k = Some v → ∃ a, holds s a k;
  d_inj a b k : holds s a k → holds s b k → a = b;
  d_strs p t : s.(strs) !! p = Some t → ∃ a e, s.(ents) !! a = Some e ∧ e.(key) = p;
}.

(** [C i] is the chain of bucket [i]. *)
Record table s m C : Prop := {
  t_cap : ∃ k, m.(capacity) = 2 ^ k ∧ 4 ≤ k ≤ 13;
  t_len : zlen m.(buckets) = m.(capacity);
  t_chain i : 0 ≤ i < m.(capacity) → ilist (nxt s) (m.(buckets).[i]) (C i);
  t_nodup i : 0 ≤ i < m.(capacity) → NoDup (C i);
  t_mem i a : 0 ≤ i < m.(capacity) →
    a ∈ C i ↔ ∃ e, s.(ents) !! a = Some e ∧ index m e.(hash) = i;
}.

Lemma index_range m h k : m.(capacity) = 2 ^ k → 0 ≤ k → 0 ≤ index m h < m.(capacity).
Proof. intros E Hk. unfold index. rewrite E. by apply land_pow2. Qed.

Lemma tab_index s m C h : table s m C → 0 ≤ index m h < m.(capacity).
Proof. intros T. destruct (t_cap _ _ _ T) as (k & E & Hk). apply (index_range m h k); [done|lia]. Qed.

Lemma ents_length s (l : list Z) :
  NoDup l → (∀ a, a ∈ l → is_Some (s.(ents) !! a)) → (length l < fuel_of s)%nat.
Proof.
  intros Hnd Hin. unfold fuel_of. enough (length l ≤ size s.(ents))%nat by lia.
  rewrite <- size_dom. rewrite <- (size_list_to_set (C:=gset Z) l) by done.
  apply subseteq_size. intros a. rewrite elem_of_list_to_set, elem_of_dom. apply Hin.
Qed.

Lemma chain_length s m C i : table s m C → 0 ≤ i < m.(capacity) → (length (C i) < fuel_of s)%nat.
Proof.
  intros T Hi. apply ents_length; [by apply T|]. intros a Ha.
  apply (t_mem _ _ _ T i a Hi) in Ha as (e & -> & _). by eexists.
Qed.

(** Changing links, and nothing else, leaves the content. *)
Lemma dict_pay s s' M :
  s'.(strs) = s.(strs) → (∀ a, pay <$> s'.(ents) !! a = pay <$> s.(ents) !! a) → dict s M → dict s' M.
Proof.
  intros Hs Hp D.
  assert (∀ t t' : store H, (∀ a, pay <$> t'.(ents) !! a = pay <$> t.(ents) !! a) → ∀ a e, t.(ents) !! a = Some e →
    ∃ e', t'.(ents) !! a = Some e' ∧ e.(key) = e'.(key) ∧ e.(value) = e'.(value) ∧ e.(hash) = e'.(hash)) as Hto.
  { intros t t' Hq a e He. specialize (Hq a). rewrite He in Hq. cbn in Hq.
    apply fmap_Some in Hq as (e' & He' & Eq). exists e'. unfold pay in Eq. by simplify_eq. }
  assert (∀ a k, holds s' a k ↔ holds s a k) as Hh.
  { intros a k. split; intros (e & He & Hk).
    - destruct (Hto s' s ltac:(done) a e He) as (e' & He' & Ek & _). exists e'. by rewrite <- Ek, <- Hs.
    - destruct (Hto s s' Hp a e He) as (e' & He' & Ek & _). exists e'. by rewrite <- Ek, Hs. }
  split.
  - intros a e He. destruct (Hto s' s ltac:(done) a e He) as (e' & He' & -> & -> & ->). rewrite Hs. by apply (d_ent _ _ D a).
  - intros k v Hk. destruct (d_key _ _ D k v Hk) as (a & Ha). exists a. by apply Hh.
  - intros a b k Ha Hb. apply (d_inj _ _ D a b k); by apply Hh.
  - intros p t Hp'. rewrite Hs in Hp'. destruct (d_strs _ _ D p t Hp') as (a & e & He & <-).
    destruct (Hto s s' Hp a e He) as (e' & He' & Ek & _). by exists a, e'.
Qed.

Lemma dict_holds s M a k : dict s M → holds s a k → is_Some (M !! k).
Proof.
  intros D (e & He & Hk). destruct (d_ent _ _ D a e He) as (t & Ht & _ & HM).
  assert (t = k) as -> by congruence. by eexists.
Qed.

(** ** Searching *)

Lemma find_entry_spec l fuel s M e h k :
  dict s M → ilist (nxt s) e l → (length l < fuel)%nat → (∀ a, a ∈ l → is_Some (s.(ents) !! a)) →
  h = fnv1a_hash k →
  ∃ r, find_entry fuel s e h k = Ret r ∧
    match r with Some a => a ∈ l ∧ holds s a k | None => ∀ a, a ∈ l → ¬ holds s a k end.
Proof.
  intros D Hc Hf Hl ->. revert fuel e Hc Hf. induction l as [|a l IH]; intros fuel e Hc Hf.
  - cbn in Hc. subst e. exists None. split; [by destruct fuel|]. by intros a ?%not_elem_of_nil.
  - destruct Hc as [-> Hc]. destruct fuel as [|fuel]; [cbn in Hf; lia|]. cbn [find_entry].
    destruct (Hl a ltac:(by left)) as [x Ex]. destruct (d_ent _ _ D a x Ex) as (t & Et & Eh & _).
    unfold entry. rewrite Ex. cbn [mbind outcome_bind].
    assert (nxt s a = x.(next)) as En by (unfold nxt; by rewrite Ex). rewrite En in Hc.
    assert (holds s a k ↔ t = k) as Hk.
    { split; [intros (x' & Ex' & Et'); congruence|intros <-; by exists x]. }
    destruct (IH ltac:(intros b Hb; apply Hl; by right) fuel x.(next) Hc ltac:(cbn in Hf; lia)) as (r & Er & Hr).
    destruct (decide (t = k)) as [->|Hne].
    + rewrite Eh, Z.eqb_refl. unfold str. rewrite Et. cbn [mbind outcome_bind]. rewrite bool_decide_eq_true_2 by done.
      exists (Some a). split; [done|]. split; [by left|by apply Hk].
    + exists r. split.
      * unfold str. rewrite Et. cbn [mbind outcome_bind]. rewrite bool_decide_eq_false_2 by done. by destruct (_ =? _).
      * destruct r as [b|]; [destruct Hr; split; [by right|done]|].
        intros b [->|Hb]%elem_of_cons; [by rewrite Hk|by apply Hr].
Qed.

(** The search of [put], [get] and [contains]. *)
Lemma find_spec s m M C k :
  dict s M → table s m C →
  ∃ r, find_entry (fuel_of s) s (m.(buckets).[index m (fnv1a_hash k)]) (fnv1a_hash k) k = Ret r ∧
    match r with
    | Some a => ∃ e, s.(ents) !! a = Some e ∧ s.(strs) !! e.(key) = Some k ∧ M !! k = Some e.(value)
    | None => M !! k = None
    end.
Proof.
  intros D T. set (i := index m (fnv1a_hash k)). pose proof (tab_index _ _ _ (fnv1a_hash k) T) as Hi. fold i in Hi.
  destruct (find_entry_spec (C i) (fuel_of s) s M (m.(buckets).[i]) (fnv1a_hash k) k D) as (r & -> & Hr);
    [by apply T|by eapply chain_length| |done|].
  { intros a Ha. apply (t_mem _ _ _ T i a Hi) in Ha as (e & -> & _). by eexists. }
  exists r. split; [done|]. destruct r as [a|].
  - destruct Hr as [Ha (e & He & Hk)]. exists e. split; [done|]. split; [done|].
    destruct (d_ent _ _ D a e He) as (t & Ht & _ & HM). naive_solver.
  - destruct (M !! k) as [v|] eqn:HM; [|done]. destruct (d_key _ _ D k v HM) as (a & e & He & Hk).
    exfalso. apply (Hr a); [|by exists e]. apply (t_mem _ _ _ T i a Hi). exists e. split; [done|].
    destruct (d_ent _ _ D a e He) as (t & Ht & Hh & _). assert (t = k) as -> by congruence. by rewrite Hh.
Qed.

(** ** The effect of the operations on the table *)

Definition link (e : hashmap_entry_t) : option Z * Z := (e.(next), e.(hash)).

Lemma table_link s s' m C :
  (∀ a, link <$> s'.(ents) !! a = link <$> s.(ents) !! a) → table s m C → table s' m C.
Proof.
  intros Hl T.
  assert (∀ a, nxt s' a = nxt s a) as Hn.
  { intros a. specialize (Hl a). unfold nxt, link in *. destruct (s'.(ents) !! a), (s.(ents) !! a); cbn in Hl; by simplify_eq. }
  split; [apply T|apply T| |apply T|].
  - intros i Hi. eapply ilist_ext; [intros a _; apply Hn|by apply T].
  - intros i a Hi. rewrite (t_mem _ _ _ T i a Hi). specialize (Hl a). unfold link in Hl.
    destruct (s'.(ents) !! a) as [x|], (s.(ents) !! a) as [y|]; cbn in Hl; simplify_eq; [|naive_solver].
    split; intros (e & Ee & <-); [exists x|exists y]; (split; [done|congruence]).
Qed.

Lemma table_buckets s m m' C :
  m'.(buckets) = m.(buckets) → m'.(capacity) = m.(capacity) → table s m C → table s m' C.
Proof. intros Eb Ec []. split; unfold index in *; rewrite ?Eb, ?Ec; done. Qed.

(** [put] on a key that is present. *)
Lemma dict_set s M a e k v :
  dict s M → s.(ents) !! a = Some e → s.(strs) !! e.(key) = Some k →
  dict (with_ents s (<[a := set_value e v]> s.(ents))) (<[k := v]> M).
Proof.
  intros D He Hk. set (s' := with_ents s _).
  assert (∀ b x, s'.(ents) !! b = Some x → b = a ∧ x = set_value e v ∨ b ≠ a ∧ s.(ents) !! b = Some x) as Hb.
  { intros b x Hx. cbn in Hx. apply lookup_insert_Some in Hx. naive_solver. }
  assert (∀ b t, holds s' b t ↔ holds s b t) as Hh.
  { intros b t. split; intros (x & Hx & Ht).
    - destruct (Hb b x Hx) as [[-> ->]|[_ Hx']]; [by exists e|by exists x].
    - destruct (decide (b = a)) as [->|Hne].
      + exists (set_value e v). cbn. rewrite lookup_insert_eq. assert (x = e) as -> by congruence. done.
      + exists x. cbn. by rewrite lookup_insert_ne. }
  split.
  - intros b x Hx. destruct (Hb b x Hx) as [[-> ->]|[Hne Hx']].
    + exists k. cbn. rewrite lookup_insert_eq. split; [done|]. split; [|done].
      destruct (d_ent _ _ D a e He) as (t & Ht & Hhs & _). congruence.
    + destruct (d_ent _ _ D b x Hx') as (t & Ht & Hhs & HM). exists t. split; [done|]. split; [done|].
      rewrite lookup_insert_ne; [done|]. intros <-. apply Hne, (d_inj _ _ D b a k); [by exists x|by exists e].
  - intros t w Hw. setoid_rewrite Hh. apply lookup_insert_Some in Hw as [[<- _]|[_ Hw]]; [by exists a, e|].
    by apply (d_key _ _ D t w).
  - intros b c t Hx Hy. apply (d_inj _ _ D b c t); by apply Hh.
  - intros p t Hp. destruct (d_strs _ _ D p t Hp) as (b & x & Hx & <-). destruct (decide (b = a)) as [->|Hne].
    + exists a, (set_value e v). cbn. rewrite lookup_insert_eq. assert (x = e) as -> by congruence. done.
    + exists b, x. cbn. by rewrite lookup_insert_ne.
Qed.

Lemma dict_insert s M a e k :
  dict s M → M !! k = None → s.(ents) !! a = None → s.(strs) !! e.(key) = None → e.(hash) = fnv1a_hash k →
  dict (with_ents (with_strs s (<[e.(key) := k]> s.(strs))) (<[a := e]> s.(ents))) (<[k := e.(value)]> M).
Proof.
  intros D HM Ha Hp Hhs. set (s' := with_ents _ _).
  assert (∀ b x, s.(ents) !! b = Some x → b ≠ a ∧ x.(key) ≠ e.(key)) as Hold.
  { intros b x Hx. split; [congruence|]. intros E. destruct (d_ent _ _ D b x Hx) as (t & Ht & _). congruence. }
  assert (∀ b t, holds s' b t ↔ b = a ∧ t = k ∨ holds s b t) as Hh.
  { intros b t. split.
    - intros (x & Hx & Ht). cbn in Hx, Ht. apply lookup_insert_Some in Hx as [[<- <-]|[_ Hx]].
      + rewrite lookup_insert_eq in Ht. naive_solver.
      + right. exists x. split; [done|]. rewrite lookup_insert_ne in Ht by (by apply not_eq_sym, (Hold b x)). done.
    - intros [[-> ->]|(x & Hx & Ht)].
      + exists e. cbn. by rewrite !lookup_insert_eq.
      + exists x. cbn. destruct (Hold b x Hx). rewrite !lookup_insert_ne by done. done. }
  split.
  - intros b x Hx. cbn in Hx. apply lookup_insert_Some in Hx as [[<- <-]|[_ Hx]].
    + exists k. cbn. by rewrite !lookup_insert_eq.
    + destruct (d_ent _ _ D b x Hx) as (t & Ht & Hhx & HMt). exists t. destruct (Hold b x Hx). cbn.
      rewrite !lookup_insert_ne by congruence. done.
  - intros t w Hw. setoid_rewrite Hh. apply lookup_insert_Some in Hw as [[<- _]|[_ Hw]]; [exists a; by left|].
    destruct (d_key _ _ D t w Hw) as (b & Hb). exists b. by right.
  - assert (∀ b, ¬ holds s b k) as Hno by (intros b Hb; destruct (dict_holds _ _ _ _ D Hb); congruence).
    intros b c t Hx Hy. apply Hh in Hx as [[-> ->]|Hx], Hy as [[-> ?]|Hy]; subst; [done|by destruct (Hno c)|by destruct (Hno b)|].
    by apply (d_inj _ _ D b c t).
  - intros p t Hq. cbn in Hq. apply lookup_insert_Some in Hq as [[<- _]|[_ Hq]].
    + exists a, e. cbn. by rewrite lookup_insert_eq.
    + destruct (d_strs _ _ D p t Hq) as (b & x & Hx & Ex). exists b, x. cbn. rewrite lookup_insert_ne; [done|].
      apply not_eq_sym. by apply (Hold b x).
Qed.

Lemma dict_delete s M a e k :
  dict s M → s.(ents) !! a = Some e → s.(strs) !! e.(key) = Some k →
  dict (with_ents (with_strs s (delete e.(key) s.(strs))) (delete a s.(ents))) (delete k M).
Proof.
  intros D He Hk. set (s' := with_ents _ _).
  assert (∀ b x, s.(ents) !! b = Some x → x.(key) = e.(key) → b = a) as Hold.
  { intros b x Hx Ex. apply (d_inj _ _ D b a k); [exists x; by rewrite Ex|by exists e]. }
  assert (∀ b t, holds s' b t ↔ b ≠ a ∧ holds s b t) as Hh.
  { intros b t. split.
    - intros (x & Hx & Ht). cbn in Hx, Ht. apply lookup_delete_Some in Hx as [Hne Hx], Ht as [_ Ht].
      split; [done|by exists x].
    - intros [Hne (x & Hx & Ht)]. exists x. cbn. rewrite !lookup_delete_ne; [done| |done].
      intros E. by apply Hne, (Hold b x). }
  split.
  - intros b x Hx. cbn in Hx. apply lookup_delete_Some in Hx as [Hne Hx].
    destruct (d_ent _ _ D b x Hx) as (t & Ht & Hhs & HM). exists t. cbn. rewrite !lookup_delete_ne; [done| |].
    + intros <-. apply Hne, (d_inj _ _ D a b k); [by exists e|by exists x].
    + intros E. by apply Hne, eq_sym, (Hold b x).
  - intros t w Hw. apply lookup_delete_Some in Hw as [Hne Hw]. destruct (d_key _ _ D t w Hw) as (b & Hb).
    exists b. apply Hh. split; [|done]. intros ->. destruct Hb as (x & Hx & Ht). congruence.
  - intros b c t Hx Hy. apply Hh in Hx as [_ Hx], Hy as [_ Hy]. by apply (d_inj _ _ D b c t).
  - intros p t Hp. cbn in Hp. apply lookup_delete_Some in Hp as [Hne Hp].
    destruct (d_strs _ _ D p t Hp) as (b & x & Hx & Ex). exists b, x. cbn. rewrite lookup_delete_ne; [done|]. congruence.
Qed.

(** A new entry at the head of its chain. *)
Lemma table_insert s s' m m' C a e :
  table s m C → s.(ents) !! a = None → s'.(ents) = <[a := e]> s.(ents) →
  m'.(buckets) = m.(buckets).[index m e.(hash) <- Some a] → m'.(capacity) = m.(capacity) →
  e.(next) = m.(buckets).[index m e.(hash)] →
  table s' m' (<[index m e.(hash) := a :: C (index m e.(hash))]> C).
Proof.
  intros T Ha Es' Eb Ec En. set (i := index m e.(hash)) in *.
  pose proof (tab_index _ _ _ e.(hash) T) as Hi. fold i in Hi. pose proof (t_len _ _ _ T) as Hlen.
  assert (∀ j, 0 ≤ j < m.(capacity) → a ∉ C j) as Hni.
  { intros j Hj Hin. apply (t_mem _ _ _ T j a Hj) in Hin as (x & Hx & _). congruence. }
  assert (∀ b, b ≠ a → nxt s' b = nxt s b) as Hn.
  { intros b Hne. unfold nxt. rewrite Es'. by rewrite lookup_insert_ne. }
  assert (nxt s' a = m.(buckets).[i]) as Hna by (unfold nxt; rewrite Es', lookup_insert_eq; done).
  assert (∀ j, 0 ≤ j < m.(capacity) → ilist (nxt s') (m.(buckets).[j]) (C j)) as Hc.
  { intros j Hj. eapply ilist_ext; [|by apply T]. intros b Hb. apply Hn. intros ->. by apply (Hni j). }
  split.
  - rewrite Ec. apply T.
  - by rewrite Eb, Ec, zlen_aset.
  - intros j Hj. rewrite Ec in Hj. rewrite Eb, aget_aset by lia. destruct (decide (i = j)) as [<-|Hne].
    + rewrite fn_lookup_insert. split; [done|]. rewrite Hna. by apply Hc.
    + rewrite fn_lookup_insert_ne by done. by apply Hc.
  - intros j Hj. rewrite Ec in Hj. destruct (decide (i = j)) as [<-|Hne].
    + rewrite fn_lookup_insert. apply NoDup_cons. split; [by apply Hni|by apply T].
    + rewrite fn_lookup_insert_ne by done. by apply T.
  - intros j b Hj. rewrite Ec in Hj. unfold index. rewrite Es', Ec. fold (index m).
    pose proof (t_mem _ _ _ T j b Hj) as Hm. unfold index in *. destruct (decide (b = a)) as [->|Hba].
    + rewrite lookup_insert_eq. fold (index m e.(hash)) in i. destruct (decide (i = j)) as [<-|Hne].
      * rewrite fn_lookup_insert. split; [by exists e|by left].
      * rewrite fn_lookup_insert_ne by done. split; [by intros ?%Hni|]. intros (x & [= <-] & E). by destruct Hne.
    + rewrite lookup_insert_ne by done. destruct (decide (i = j)) as [<-|Hne].
      * rewrite fn_lookup_insert. rewrite <- Hm. set_solver.
      * rewrite fn_lookup_insert_ne by done. done.
Qed.

(** An entry [a] leaves its chain. *)
Lemma table_unlink s s' m m' C a e l1 l2 :
  let i := index m e.(hash) in
  table s m C → s.(ents) !! a = Some e → C i = l1 ++ a :: l2 →
  s'.(ents) !! a = None →
  (∀ b, b ≠ a → (λ x, x.(hash)) <$> s'.(ents) !! b = (λ x, x.(hash)) <$> s.(ents) !! b) →
  (∀ b, b ≠ a → last l1 ≠ Some b → nxt s' b = nxt s b) →
  match last l1 with
  | None => m'.(buckets) = m.(buckets).[i <- e.(next)]
  | Some q => m'.(buckets) = m.(buckets) ∧ nxt s' q = e.(next)
  end → m'.(capacity) = m.(capacity) →
  table s' m' (<[i := l1 ++ l2]> C).
Proof.
  intros i T He HCi Ha' Hh Hn Hl Ec. pose proof (tab_index _ _ _ e.(hash) T) as Hi. fold i in Hi.
  pose proof (t_nodup _ _ _ T i Hi) as Hnd. rewrite HCi in Hnd. pose proof (t_len _ _ _ T) as Hlen.
  assert (∀ j b, 0 ≤ j < m.(capacity) → j ≠ i → b ∈ C j → b ∉ C i) as Hdis.
  { intros j b Hj Hne H1 H2. apply (t_mem _ _ _ T) in H1 as (x & Hx & <-), H2 as (y & Hy & Ey); [|done|done].
    simplify_eq. }
  assert (∀ q, last l1 = Some q → q ∈ l1) as Hlast.
  { intros q [l ->]%last_Some. rewrite elem_of_app. right. by left. }
  assert (nxt s a = e.(next)) as Hna by (unfold nxt; by rewrite He).
  apply NoDup_app in Hnd as Hnd'. destruct Hnd' as (Hnd1 & Hd & [Hna2 Hnd2]%NoDup_cons).
  assert (zlen m'.(buckets) = m.(capacity) ∧ (∀ j, 0 ≤ j → j ≠ i → m'.(buckets).[j] = m.(buckets).[j]) ∧
    match last l1 with None => m'.(buckets).[i] = e.(next) | Some q => m'.(buckets).[i] = m.(buckets).[i] ∧ nxt s' q = e.(next) end)
    as (Hlen' & Hbj & Hbi).
  { destruct (last l1); [destruct Hl as [-> ?]|rewrite Hl]; rewrite ?zlen_aset; (split; [done|]).
    - done.
    - split; [intros j Hj Hne; rewrite aget_aset_ne; [done|lia|lia|done]|]. apply aget_aset_eq. lia. }
  split.
  - rewrite Ec. apply T.
  - by rewrite Ec.
  - intros j Hj. rewrite Ec in Hj. pose proof (t_chain _ _ _ T j Hj) as Hc. destruct (decide (i = j)) as [<-|Hne].
    + rewrite fn_lookup_insert. rewrite HCi in Hc. eapply ilist_unlink; [exact Hc|done| |].
      * intros b Hb Hlb. apply Hn; [|done]. intros ->. apply elem_of_app in Hb as [Hb|Hb]; [|done].
        apply (Hd a Hb). by left.
      * by rewrite Hna.
    + rewrite fn_lookup_insert_ne by done. rewrite Hbj by (lia || done). eapply ilist_ext; [|exact Hc].
      intros b Hb. pose proof (Hdis j b Hj (not_eq_sym Hne) Hb) as Hni. rewrite HCi in Hni. apply Hn; [set_solver +Hni|].
      intros Hlb%Hlast. set_solver +Hni Hlb.
  - intros j Hj. rewrite Ec in Hj. destruct (decide (i = j)) as [<-|Hne].
    + rewrite fn_lookup_insert. apply NoDup_app. split; [done|]. split; [|done]. intros b Hb1 Hb2. apply (Hd b Hb1). by right.
    + rewrite fn_lookup_insert_ne by done. by apply T.
  - intros j b Hj. rewrite Ec in Hj. unfold index in *. rewrite Ec.
    pose proof (t_mem _ _ _ T j b Hj) as Hm. unfold index in Hm. destruct (decide (b = a)) as [->|Hba].
    + rewrite Ha'. split; [|naive_solver]. destruct (decide (i = j)) as [<-|Hne].
      * rewrite fn_lookup_insert. intros [?|?]%elem_of_app; [|done]. exfalso. apply (Hd a); [done|by left].
      * rewrite fn_lookup_insert_ne by done. rewrite Hm, He. intros (x & [= <-] & E). by destruct Hne.
    + assert (b ∈ (<[i := l1 ++ l2]> C) j ↔ b ∈ C j) as ->.
      { destruct (decide (i = j)) as [<-|Hne]; [|by rewrite fn_lookup_insert_ne].
        rewrite fn_lookup_insert, HCi. set_solver +Hba. }
      rewrite Hm. specialize (Hh b Hba). clear -Hh. destruct (s'.(ents) !! b) as [x|], (s.(ents) !! b) as [y|]; cbn in Hh; [|done..].
      injection Hh as Hh. split; intros (? & [= <-] & <-); [exists x|exists y]; by rewrite Hh.
Qed.

(** ** Ownership

    [B] is the set of the other blocks of the heap; the entries and the keys are
    blocks too, all of them different. *)

Record own (B : gset Z) s : Prop := {
  o_rep : kh_rep s.(heap) (B ∪ dom s.(ents) ∪ dom s.(strs));
  o_be : B ## dom s.(ents);
  o_bs : B ## dom s.(strs);
  o_es : dom s.(ents) ## dom s.(strs);
}.

Lemma own_dom B s s' :
  s'.(heap) = s.(heap) → dom s'.(ents) = dom s.(ents) → dom s'.(strs) = dom s.(strs) → own B s → own B s'.
Proof. intros Eh Ee Es []. split; by rewrite ?Eh, ?Ee, ?Es. Qed.

Lemma dom_update (t : gmap Z hashmap_entry_t) a e e' : t !! a = Some e → dom (<[a := e']> t) = dom t.
Proof. intros He. rewrite dom_insert_L. assert (a ∈ dom t) by (by apply elem_of_dom). set_solver. Qed.

Lemma free_entry_spec B s a e k :
  own B s → s.(ents) !! a = Some e → s.(strs) !! e.(key) = Some k →
  ∃ s', free_entry s a = Ret s' ∧ own B s' ∧ s'.(ents) = delete a s.(ents) ∧ s'.(strs) = delete e.(key) s.(strs).
Proof.
  intros [Hr Hbe Hbs Hes] He Hk. unfold free_entry, entry. rewrite He. cbn [mbind outcome_bind].
  assert (a ∈ dom s.(ents)) as Ha by (by apply elem_of_dom).
  assert (e.(key) ∈ dom s.(strs)) as Hp by (by apply elem_of_dom).
  destruct (kfree_spec _ _ e.(key) Hr) as (h1 & -> & Hr1); [set_solver|]. cbn [mbind outcome_bind heap with_heap with_strs].
  destruct (kfree_spec _ _ a Hr1) as (h2 & -> & Hr2); [set_solver|]. cbn [mbind outcome_bind heap with_heap with_strs].
  eexists. split; [done|]. cbn. split; [|done]. split; cbn; rewrite ?dom_delete_L; [|set_solver..].
  replace (B ∪ dom s.(ents) ∖ {[a]} ∪ dom s.(strs) ∖ {[e.(key)]}) with
    ((B ∪ dom s.(ents) ∪ dom s.(strs)) ∖ {[e.(key)]} ∖ {[a]}); [done|].
  set_solver.
Qed.

Definition same_shape m m' : Prop :=
  m'.(self) = m.(self) ∧ m'.(bptr) = m.(bptr) ∧ m'.(capacity) = m.(capacity) ∧ m'.(load_threshold) = m.(load_threshold).

Lemma take_out_spec B s m M C i a x k l1 l2 :
  dict s M → table s m C → own B s → s.(ents) !! a = Some x → s.(strs) !! x.(key) = Some k →
  i = index m x.(hash) → C i = l1 ++ a :: l2 →
  ∃ s' m' C', take_out s m i (last l1) a x = Ret (s', m', x.(value)) ∧
    dict s' (delete k M) ∧ table s' m' C' ∧ own B s' ∧ same_shape m m' ∧ m'.(count) = u64 (m.(count) - 1).
Proof.
  intros D T O He Hk -> HCi. unfold take_out. set (i := index m x.(hash)) in *.
  pose proof (tab_index _ _ _ x.(hash) T) as Hi. fold i in Hi.
  pose proof (t_nodup _ _ _ T i Hi) as Hnd. rewrite HCi in Hnd.
  assert (∃ s1 m1, match last l1 with
      | None => Ret (s, with_buckets m (m.(buckets).[i <- x.(next)]))
      | Some p => y ← entry s p; Ret (with_ents s (<[p := set_next y x.(next)]> s.(ents)), m)
      end = Ret (s1, m1) ∧ s1.(strs) = s.(strs) ∧ s1.(heap) = s.(heap) ∧ dom s1.(ents) = dom s.(ents) ∧
      (∀ b, pay <$> s1.(ents) !! b = pay <$> s.(ents) !! b) ∧ s1.(ents) !! a = Some x ∧
      (∀ b, last l1 ≠ Some b → nxt s1 b = nxt s b) ∧ same_shape m m1 ∧ m1.(count) = m.(count) ∧
      match last l1 with
      | None => m1.(buckets) = m.(buckets).[i <- x.(next)]
      | Some q => m1.(buckets) = m.(buckets) ∧ nxt s1 q = x.(next)
      end) as (s1 & m1 & -> & Es & Eh & Ed & Hp & Ha1 & Hn & Hsh & Hcnt & Hl).
  { destruct (last l1) as [q|] eqn:El; [|by exists s, (with_buckets m (m.(buckets).[i <- x.(next)]))].
    apply last_Some in El as [l ->]. assert (q ∈ C i) as Hq by (rewrite HCi; set_solver +).
    apply (t_mem _ _ _ T i q Hi) in Hq as (y & Hy & _). unfold entry. rewrite Hy. cbn [mbind outcome_bind].
    assert (a ≠ q) as Hne. { intros ->. apply NoDup_app in Hnd as (_ & Hd & _). apply (Hd q); set_solver +. }
    eexists _, m. split; [done|]. split; [done|]. split; [done|]. split; [by apply (dom_update _ _ y)|]. cbn. split.
    { intros b. rewrite lookup_insert. case_decide; [subst; by rewrite Hy|done]. }
    split; [by rewrite lookup_insert_ne|]. unfold nxt. cbn. split.
    { intros b Hb. rewrite lookup_insert_ne; [done|congruence]. }
    rewrite lookup_insert_eq. done. }
  cbn [mbind outcome_bind]. pose proof (dict_pay s s1 M Es Hp D) as D1. rewrite <- Es in Hk.
  pose proof (own_dom B s s1 Eh Ed ltac:(by rewrite Es) O) as O1.
  destruct (free_entry_spec B s1 a x k O1 Ha1 Hk) as (s2 & -> & O2 & Ee2 & Es2). cbn [mbind outcome_bind].
  destruct Hsh as (S1 & S2 & S3 & S4).
  exists s2, (with_count m1 (u64 (m1.(count) - 1))), (<[i := l1 ++ l2]> C). split; [done|]. split.
  { pose proof (dict_delete s1 M a x k D1 Ha1 Hk) as D2. destruct s2. cbn in Ee2, Es2. subst. eapply dict_pay, D2; done. }
  split; [|split; [done|split; [done|cbn; by rewrite Hcnt]]].
  apply (table_unlink s _ m _ C a x l1 l2); try done.
  - by rewrite Ee2, lookup_delete_eq.
  - intros b Hb. rewrite Ee2, lookup_delete_ne by done. specialize (Hp b). unfold pay in Hp.
    destruct (s1.(ents) !! b), (s.(ents) !! b); cbn in Hp; [|done..]. injection Hp as _ _ Hp. cbn. by rewrite Hp.
  - intros b Hb Hlb. rewrite <- Hn by done. unfold nxt. by rewrite Ee2, lookup_delete_ne.
  - destruct (last l1) as [q|] eqn:El; [|done]. destruct Hl as [Hl Hq]. split; [done|].
    apply last_Some in El as [l ->]. unfold nxt in *. rewrite Ee2, lookup_delete_ne; [done|].
    intros ->. apply NoDup_app in Hnd as (_ & Hd & _). apply (Hd q); set_solver +.
Qed.

Lemma remove_from_spec B s m M C k l2 fuel : ∀ l1 e,
  let i := index m (fnv1a_hash k) in
  dict s M → table s m C → own B s → C i = l1 ++ l2 → ilist (nxt s) e l2 → (length l2 < fuel)%nat →
  (∀ a, a ∈ l1 → ¬ holds s a k) →
  ∃ s' m' v, remove_from fuel s m i (last l1) e (fnv1a_hash k) k = Ret (s', m', v) ∧
    match M !! k with
    | None => s' = s ∧ m' = m ∧ v = 0
    | Some w => v = w ∧ dict s' (delete k M) ∧ own B s' ∧ same_shape m m' ∧
        m'.(count) = u64 (m.(count) - 1) ∧ ∃ C', table s' m' C'
    end.
Proof.
  revert fuel. induction l2 as [|a l2 IH]; intros fuel l1 e i D T O HCi Hc Hf Hno.
  - cbn in Hc. subst e. exists s, m, 0. split; [by destruct fuel|]. destruct (M !! k) as [v|] eqn:HM; [|done]. exfalso.
    destruct (d_key _ _ D k v HM) as (b & x & Hx & Hk). apply (Hno b); [|by exists x]. rewrite app_nil_r in HCi.
    rewrite <- HCi. apply (t_mem _ _ _ T i b); [by eapply tab_index|]. exists x. split; [done|].
    destruct (d_ent _ _ D b x Hx) as (t & Ht & Hh & _). assert (t = k) as -> by congruence. by rewrite Hh.
  - destruct Hc as [-> Hc]. destruct fuel as [|fuel]; [cbn in Hf; lia|]. cbn [remove_from].
    assert (a ∈ C i) as Ha by (rewrite HCi; set_solver +).
    apply (t_mem _ _ _ T i a) in Ha as (x & Hx & Eix); [|by eapply tab_index].
    destruct (d_ent _ _ D a x Hx) as (t & Ht & Hh & HMt). unfold entry at 1. rewrite Hx. cbn [mbind outcome_bind].
    assert (nxt s a = x.(next)) as En by (unfold nxt; by rewrite Hx). rewrite En in Hc.
    destruct (decide (t = k)) as [->|Hne].
    + rewrite Hh, Z.eqb_refl. unfold str at 1. rewrite Ht. cbn [mbind outcome_bind]. rewrite bool_decide_eq_true_2 by done.
      destruct (take_out_spec B s m M C i a x k l1 l2) as (s' & m' & C' & -> & D' & T' & O' & Hsh & Hcnt); try done.
      exists s', m', x.(value). rewrite HMt. split; [done|]. do 5 (split; [done|]). by exists C'.
    + assert (∀ o, (if x.(hash) =? fnv1a_hash k then t ← str s x.(key); if bool_decide (t = k) then take_out s m i (last l1) a x else o else o) = o) as Hskip.
      { intros o. destruct (_ =? _); [|done]. unfold str. rewrite Ht. cbn [mbind outcome_bind]. by rewrite bool_decide_eq_false_2. }
      rewrite Hskip. destruct (IH fuel (l1 ++ [a]) x.(next) D T O) as (s' & m' & v & E & Hr); [by rewrite <- app_assoc|done|cbn in Hf; lia| |].
      { intros b [Hb| ->%list_elem_of_singleton]%elem_of_app; [by apply Hno|]. intros (x' & Hx' & Ht'). congruence. }
      rewrite last_snoc in E. by exists s', m', v.
Qed.

(** ** Resizing

    During a resize the entries of [D] have moved to the new chains [N], and the
    others are as they were in [s0]. *)

Record moving s0 s (nb : list (option Z)) (nc : Z) (D : Z → Prop) N : Prop := {
  v_strs : s.(strs) = s0.(strs);
  v_heap : s.(heap) = s0.(heap);
  v_pay a : pay <$> s.(ents) !! a = pay <$> s0.(ents) !! a;
  v_old a : ¬ D a → s.(ents) !! a = s0.(ents) !! a;
  v_len : zlen nb = nc;
  v_chain j : 0 ≤ j < nc → ilist (nxt s) (nb.[j]) (N j);
  v_nodup j : 0 ≤ j < nc → NoDup (N j);
  v_mem j a : 0 ≤ j < nc →
    a ∈ N j ↔ D a ∧ ∃ e, s0.(ents) !! a = Some e ∧ Z.land e.(hash) (nc - 1) = j;
}.

Lemma moving_ext s0 s nb nc D D' N :
  (∀ a, D a ↔ D' a) → moving s0 s nb nc D N → moving s0 s nb nc D' N.
Proof.
  intros HD []. split; try done.
  - intros a Ha. apply v_old0. by rewrite HD.
  - intros j a Hj. rewrite <- HD. by apply v_mem0.
Qed.

Lemma move_one s0 s nb kc D N a x :
  let nc := 2 ^ kc in let j := Z.land x.(hash) (nc - 1) in
  0 ≤ kc → moving s0 s nb nc D N → ¬ D a → s0.(ents) !! a = Some x →
  moving s0 (with_ents s (<[a := set_next x (nb.[j])]> s.(ents))) (nb.[j <- Some a]) nc
    (λ b, D b ∨ b = a) (<[j := a :: N j]> N).
Proof.
  intros nc j Hkc V Ha Hx. pose proof (land_pow2 x.(hash) kc Hkc) as Hj. fold nc j in Hj. clearbody nc.
  pose proof (v_len _ _ _ _ _ _ V) as Hlen. set (s' := with_ents _ _).
  assert (∀ i, 0 ≤ i < nc → a ∉ N i) as Hni by (intros i Hi [Hin _]%(v_mem _ _ _ _ _ _ V i a Hi); done).
  assert (∀ b, b ≠ a → nxt s' b = nxt s b) as Hn by (intros b Hb; unfold nxt; cbn; by rewrite lookup_insert_ne).
  assert (nxt s' a = nb.[j]) as Hna by (unfold nxt; cbn; by rewrite lookup_insert_eq).
  assert (∀ i, 0 ≤ i < nc → ilist (nxt s') (nb.[i]) (N i)) as Hc.
  { intros i Hi. eapply ilist_ext; [|by apply V]. intros b Hb. apply Hn. intros ->. by apply (Hni i). }
  split; [apply V|apply V| | | | | |].
  - intros b. cbn. rewrite lookup_insert. case_decide; [subst; by rewrite Hx|apply V].
  - intros b Hb. cbn. rewrite lookup_insert_ne by naive_solver. apply V. naive_solver.
  - by rewrite zlen_aset.
  - intros i Hi. rewrite aget_aset by lia. destruct (decide (j = i)) as [<-|Hne].
    + rewrite fn_lookup_insert. split; [done|]. rewrite Hna. by apply Hc.
    + rewrite fn_lookup_insert_ne by done. by apply Hc.
  - intros i Hi. destruct (decide (j = i)) as [<-|Hne].
    + rewrite fn_lookup_insert. apply NoDup_cons. split; [by apply Hni|by apply V].
    + rewrite fn_lookup_insert_ne by done. by apply V.
  - intros i b Hi. pose proof (v_mem _ _ _ _ _ _ V i b Hi) as Hm. destruct (decide (j = i)) as [<-|Hne].
    + rewrite fn_lookup_insert, elem_of_cons, Hm. split; [|naive_solver]. intros [->|[? ?]]; [|naive_solver].
      split; [by right|by exists x].
    + rewrite fn_lookup_insert_ne by done. rewrite Hm. split; [naive_solver|]. intros [[Hb| ->] (y & Hy & E)]; [by split; [|exists y]|].
      exfalso. apply Hne. unfold j. congruence.
Qed.

Lemma move_chain_spec s0 kc l : ∀ fuel s nb D N e,
  let nc := 2 ^ kc in
  0 ≤ kc → moving s0 s nb nc D N → ilist (nxt s0) e l → NoDup l → (length l < fuel)%nat →
  (∀ a, a ∈ l → ¬ D a ∧ is_Some (s0.(ents) !! a)) →
  ∃ s' nb' N', move_chain fuel s nb nc e = Ret (s', nb') ∧ moving s0 s' nb' nc (λ b, D b ∨ b ∈ l) N'.
Proof.
  induction l as [|a l IH]; intros fuel s nb D N e nc Hkc V Hc Hnd Hf Hl.
  - cbn in Hc. subst e. exists s, nb, N. split; [by destruct fuel|]. eapply moving_ext, V. set_solver +.
  - destruct Hc as [-> Hc]. destruct fuel as [|fuel]; [cbn in Hf; lia|]. cbn [move_chain].
    destruct (Hl a ltac:(by left)) as [HDa [x Hx]]. apply NoDup_cons in Hnd as [Hni Hnd].
    unfold entry. rewrite (v_old _ _ _ _ _ _ V a HDa), Hx. cbn [mbind outcome_bind].
    assert (nxt s0 a = x.(next)) as En by (unfold nxt; by rewrite Hx). rewrite En in Hc.
    pose proof (move_one s0 s nb kc D N a x Hkc V HDa Hx) as V'.
    destruct (IH fuel _ _ _ _ _ Hkc V' Hc Hnd ltac:(cbn in Hf; lia)) as (s' & nb' & N' & E & V'').
    { intros b Hb. destruct (Hl b ltac:(by right)) as [HDb Hsb]. split; [|done]. intros [?| ->]; done. }
    exists s', nb', N'. split; [exact E|]. eapply moving_ext, V''. intros b. cbn. rewrite elem_of_cons. tauto.
Qed.

Lemma move_buckets_spec s0 m C kc n : ∀ fuel s nb i N,
  let nc := 2 ^ kc in
  0 ≤ kc → table s0 m C → fuel = fuel_of s0 → 0 ≤ i → i + Z.of_nat n = m.(capacity) →
  moving s0 s nb nc (λ a, ∃ j, 0 ≤ j < i ∧ a ∈ C j) N →
  ∃ s' nb' N', move_buckets n fuel s m nb nc i = Ret (s', nb') ∧
    moving s0 s' nb' nc (λ a, ∃ j, 0 ≤ j < m.(capacity) ∧ a ∈ C j) N'.
Proof.
  induction n as [|n IH]; intros fuel s nb i N nc Hkc T -> Hi Hn V.
  - exists s, nb, N. split; [done|]. by replace (capacity m) with i by lia.
  - cbn [move_buckets]. pose proof (t_chain _ _ _ T i ltac:(lia)) as Hc. pose proof (t_nodup _ _ _ T i ltac:(lia)) as Hnd.
    destruct (move_chain_spec s0 kc (C i) (fuel_of s0) s nb _ N (m.(buckets).[i]) Hkc V Hc Hnd) as (s1 & nb1 & N1 & E & V1).
    { apply (chain_length s0 m C i T). lia. }
    { intros a Ha. apply (t_mem _ _ _ T i a) in Ha as (x & Hx & Ei); [|lia]. split; [|by eexists].
      intros (j & Hj & Hin). apply (t_mem _ _ _ T j a) in Hin as (y & Hy & Ej); [|lia]. simplify_eq. lia. }
    fold nc in E. rewrite E. cbn [mbind outcome_bind]. apply (IH _ _ _ _ N1 Hkc T eq_refl); [lia|lia|].
    eapply moving_ext, V1. intros a. cbn. split.
    + intros [(j & Hj & Ha)|Ha]; [exists j; split; [lia|done]|]. exists i. split; [lia|done].
    + intros (j & Hj & Ha). destruct (decide (j = i)) as [->|]; [by right|]. left. exists j. split; [lia|done].
Qed.

Lemma hashmap_resize_spec B s m M C k :
  dict s M → table s m C → own ({[m.(bptr)]} ∪ B) s → m.(bptr) ∉ B → m.(capacity) = 2 ^ k → 4 ≤ k ≤ 13 →
  ∃ s' m' rc, hashmap_resize s m (u64 (m.(capacity) * 2)) = Ret (s', m', rc) ∧ dict s' M ∧
    own ({[m'.(bptr)]} ∪ B) s' ∧ m'.(bptr) ∉ B ∧ m'.(self) = m.(self) ∧ m'.(count) = m.(count) ∧
    (rc = - ENOMEM ∧ m' = m ∧ table s' m' C ∨
     rc = 0 ∧ m'.(capacity) = m.(capacity) * 2 ∧ m'.(load_threshold) = m'.(capacity) * 75 / 100 ∧ ∃ C', table s' m' C').
Proof.
  intros D T O Hb Ek Hk. unfold hashmap_resize.
  assert (2 ^ 4 ≤ m.(capacity) ≤ 2 ^ 13) as Hcap by (rewrite Ek; split; apply Z.pow_le_mono_r; lia).
  rewrite wrap_id by lia. destruct (kcalloc_spec _ _ (m.(capacity) * 2) 8 (o_rep _ _ O)) as (h & p & -> & Hp); [lia|lia|].
  cbn [mbind outcome_bind]. destruct Hp as [[-> Hr]|(Hp0 & Hsz & Hp & Hr)].
  { cbn. exists (with_heap s h), m, (- ENOMEM). split; [done|]. split; [by destruct D|]. destruct O.
    split; [done|]. do 3 (split; [done|]). left. split; [done|]. split; [done|]. by destruct T. }
  rewrite (proj2 (Z.eqb_neq p 0)) by lia. set (s1 := with_heap s h).
  assert (m.(capacity) * 2 = 2 ^ (k + 1)) as E2 by (rewrite Ek, Z.pow_add_r by lia; done).
  assert (k + 1 ≤ 13) as Hk1 by (apply (Z.pow_le_mono_r_iff 2); unfold KMALLOC_MAX in Hsz; lia).
  destruct (move_buckets_spec s1 m C (k + 1) (Z.to_nat m.(capacity)) (fuel_of s1) s1
      (replicate (Z.to_nat (m.(capacity) * 2)) None) 0 (λ _, [])) as (s2 & nb & N & E & V); [lia|by destruct T|done|lia|lia| |].
  { rewrite <- E2. split; try done.
    - unfold zlen. rewrite length_replicate. lia.
    - intros j Hj. by rewrite aget_replicate by lia.
    - intros j _. by apply NoDup_nil.
    - intros j a Hj. split; [by intros ?%not_elem_of_nil|]. intros [(i & Hi & _) _]. lia. }
  rewrite <- E2 in E, V. rewrite E. cbn [mbind outcome_bind].
  assert (dom s2.(ents) = dom s.(ents)) as Ed.
  { apply set_eq. intros a. rewrite !elem_of_dom, <- !(fmap_is_Some pay). by rewrite (v_pay _ _ _ _ _ _ V). }
  destruct O as [Or Obe Obs Oes].
  destruct (kfree_spec s2.(heap) _ m.(bptr) ltac:(rewrite (v_heap _ _ _ _ _ _ V); exact Hr)) as (h' & -> & Hr'); [set_solver +|].
  cbn [mbind outcome_bind]. eexists _, _, 0. split; [done|]. split.
  { eapply dict_pay, D; [apply V|apply V]. }
  cbn [self bptr count load_threshold capacity]. split; [|split; [set_solver +Hp|split; [done|split; [done|right]]]].
  { split; cbn; rewrite ?Ed, ?(v_strs _ _ _ _ _ _ V); cbn; [|set_solver +Hp Obe|set_solver +Hp Obs|done].
    eapply eq_ind; [exact Hr'|]. set_solver +Hp Hb Obe Obs. }
  split; [done|]. split; [done|]. split; [rewrite wrap_id by lia; done|]. exists N. split; cbn [buckets capacity]; try apply V.
  - exists (k + 1). split; [done|lia].
  - intros j a Hj. rewrite (v_mem _ _ _ _ _ _ V j a Hj). unfold index. cbn [capacity ents with_heap].
    pose proof (v_pay _ _ _ _ _ _ V a) as Hp1. change (ents s1) with (ents s) in *. split.
    + intros [_ (x & Hx & <-)]. rewrite Hx in Hp1. apply fmap_Some in Hp1 as (y & Hy & Ey). exists y. injection Ey as _ _ ->. done.
    + intros (y & Hy & <-). rewrite Hy in Hp1. symmetry in Hp1. apply fmap_Some in Hp1 as (x & Hx & Ex). injection Ex as _ _ Eh.
      split; [|exists x; by rewrite Eh]. exists (index m x.(hash)).
      pose proof (tab_index _ _ _ x.(hash) T) as Hix. split; [done|]. apply (t_mem _ _ _ T); [done|]. by exists x.
Qed.

(** ** The map as a whole

    [hm F s m M]: the map [m] represents [M], and the heap holds its blocks and the
    blocks [F] of everybody else. *)

Definition hm (F : gset Z) s m (M : gmap (list Z) Z) : Prop :=
  dict s M ∧ (∃ C, table s m C) ∧ own ({[m.(bptr)]} ∪ ({[m.(self)]} ∪ F)) s ∧
  m.(bptr) ∉ {[m.(self)]} ∪ F ∧ m.(self) ∉ F ∧
  m.(count) = Z.of_nat (size M) ∧ m.(count) ≤ m.(load_threshold) ∧
  m.(load_threshold) = m.(capacity) * 75 / 100.

Lemma hm_threshold F s m M : hm F s m M → 12 ≤ m.(load_threshold) ≤ 6144.
Proof.
  intros (_ & (C & T) & _ & _ & _ & _ & _ & ->). destruct (t_cap _ _ _ T) as (k & -> & Hk).
  assert (2 ^ 4 ≤ 2 ^ k ≤ 2 ^ 13) as Hc by (split; apply Z.pow_le_mono_r; lia).
  change (2 ^ 4) with 16 in Hc. change (2 ^ 13) with 8192 in Hc. div_lia.
Qed.

(** The last part of [hashmap_put]. *)
Lemma put_new_spec F s m M C k v :
  dict s M → table s m C → own ({[m.(bptr)]} ∪ ({[m.(self)]} ∪ F)) s → m.(bptr) ∉ {[m.(self)]} ∪ F →
  m.(self) ∉ F → m.(count) = Z.of_nat (size M) → m.(count) < m.(load_threshold) ≤ 6144 →
  m.(load_threshold) = m.(capacity) * 75 / 100 → M !! k = None → zlen k < 2 ^ 63 →
  let idx := index m (fnv1a_hash k) in
  ∃ s' m' rc,
    (r ← kmalloc s.(heap) SIZEOF_ENTRY;
     let '(hp, a) := r in
     let s := with_heap s hp in
     if a =? 0 then Ret (s, Some m, - ENOMEM) else
     r ← dup_key s k;
     let '(s, kp) := r in
     match kp with
     | None => hp ← kfree s.(heap) a; Ret (with_heap s hp, Some m, - ENOMEM)
     | Some kp =>
         let e := {| key := kp; value := v; hash := fnv1a_hash k; next := m.(buckets).[idx] |} in
         Ret (with_ents s (<[a := e]> s.(ents)),
              Some (with_count (with_buckets m (m.(buckets).[idx <- Some a])) (u64 (m.(count) + 1))), 0)
     end) = Ret (s', Some m', rc) ∧
    (rc = 0 ∧ hm F s' m' (<[k := v]> M) ∨ rc = - ENOMEM ∧ hm F s' m' M).
Proof.
  intros D T O Hb Hs Hcnt Hth Eth HM Hk idx. destruct O as [Or Obe Obs Oes].
  set (B := {[m.(bptr)]} ∪ ({[m.(self)]} ∪ F)) in *.
  assert (∀ h, kh_rep h (B ∪ dom s.(ents) ∪ dom s.(strs)) → hm F (with_heap s h) m M) as Hsame.
  { intros h Hr. split; [by destruct D|]. split; [exists C; by destruct T|]. split; [done|]. do 3 (split; [done|]). split; [lia|done]. }
  destruct (kmalloc_spec _ _ SIZEOF_ENTRY Or ltac:(done)) as (h1 & a & -> & Ha). cbn [mbind outcome_bind].
  destruct Ha as [[-> Hr1]|(Ha0 & _ & Ha & Hr1)].
  { eexists _, _, _. split; [done|]. right. split; [done|by apply Hsame]. }
  rewrite (proj2 (Z.eqb_neq a 0)) by lia. unfold dup_key. cbn [heap with_heap].
  pose proof (zlen_nonneg k).
  destruct (kmalloc_spec _ _ (zlen k + 1) Hr1 ltac:(lia)) as (h2 & p & -> & Hp). cbn [mbind outcome_bind].
  destruct Hp as [[-> Hr2]|(Hp0 & _ & Hp & Hr2)].
  { cbn. destruct (kfree_spec _ _ a Hr2 ltac:(set_solver +)) as (h3 & -> & Hr3). cbn. eexists _, _, _. split; [done|].
    right. split; [done|]. apply (Hsame h3). eapply eq_ind; [exact Hr3|]. set_solver +Ha. }
  rewrite (proj2 (Z.eqb_neq p 0)) by lia. cbn [mbind outcome_bind].
  set (e := {| key := p; value := v; hash := fnv1a_hash k; next := m.(buckets).[idx] |}).
  set (s' := with_ents _ _). set (m' := with_count _ _). exists s', m', 0. split; [done|]. left. split; [done|].
  assert (s.(ents) !! a = None) as Ea by (apply not_elem_of_dom; set_solver +Ha).
  assert (s.(strs) !! p = None) as Ep by (apply not_elem_of_dom; set_solver +Hp).
  split.
  { pose proof (dict_insert s M a e k D HM Ea Ep eq_refl) as D'. eapply dict_pay, D'; done. }
  split; [exists (<[idx := a :: C idx]> C); by apply (table_insert s s' m m' C a e)|].
  split; [|split; [done|split; [done|]]].
  - split; cbn; rewrite ?dom_insert_L; fold B; [|set_solver +Ha Obe|set_solver +Hp Obs|set_solver +Ha Hp Oes].
    eapply eq_ind; [exact Hr2|]. set_solver +.
  - cbn. rewrite map_size_insert_None by done. rewrite wrap_id by lia. split; [lia|]. split; [lia|done].
Qed.

Lemma put_spec F s m M k v :
  hm F s m M → zlen k < 2 ^ 63 →
  ∃ s' m' rc, hashmap_put s (Some m) (Some k) v = Ret (s', Some m', rc) ∧
    (rc = 0 ∧ hm F s' m' (<[k := v]> M) ∨ rc = - ENOMEM ∧ M !! k = None ∧ hm F s' m' M).
Proof.
  intros Hm Hlen. pose proof (hm_threshold _ _ _ _ Hm) as Hth.
  destruct Hm as (D & (C & T) & O & Hb & Hs & Hcnt & Hle & Eth). unfold hashmap_put.
  destruct (find_spec s m M C k D T) as (r & -> & Hr). cbn [mbind outcome_bind]. destruct r as [a|].
  - destruct Hr as (e & He & Hk & HM). unfold entry. rewrite He. cbn [mbind outcome_bind]. eexists _, m, 0.
    split; [done|]. left. split; [done|]. split; [by apply dict_set|]. split.
    { exists C. eapply table_link, T. intros b. cbn. rewrite lookup_insert. case_decide; [subst; by rewrite He|done]. }
    split; [eapply own_dom, O; [done|by eapply dom_update|done]|]. split; [done|]. split; [done|].
    rewrite map_size_insert_Some by (rewrite HM; by eexists). done.
  - destruct (m.(count) >=? m.(load_threshold)) eqn:Eload.
    + assert (m.(count) = m.(load_threshold)) as Ecl by (apply Z.geb_le in Eload; lia).
      destruct (t_cap _ _ _ T) as (kc & Ek & Hkc).
      destruct (hashmap_resize_spec _ s m M C kc D T O Hb Ek Hkc) as (s1 & m1 & rc & -> & D1 & O1 & Hb1 & Es1 & Ec1 & Hrc).
      cbn [mbind outcome_bind]. destruct Hrc as [(-> & -> & T1)|(-> & Ecap & Eth1 & C1 & T1)].
      { eexists _, _, _. split; [done|]. right. split; [done|]. split; [done|]. split; [done|]. split; [by exists C|]. done. }
      cbn [negb Z.eqb]. rewrite <- Es1 in *. rewrite <- Ec1 in *.
      assert (m1.(load_threshold) ≤ 6144).
      { rewrite Eth1. destruct (t_cap _ _ _ T1) as (k1 & -> & Hk1).
        assert (2 ^ k1 ≤ 2 ^ 13) as Hc by (apply Z.pow_le_mono_r; lia). change (2 ^ 13) with 8192 in Hc. div_lia. }
      destruct (put_new_spec F s1 m1 M C1 k v D1 T1 O1 Hb1 Hs Hcnt) as (s' & m' & rc & E & Hrc); [|done|done|done|].
      { rewrite Eth1, Ecap in *. split; [div_lia|lia]. }
      exists s', m', rc. split; [exact E|]. tauto.
    + cbn [mbind outcome_bind]. cbn [negb Z.eqb]. rewrite Z.geb_leb in Eload. apply Z.leb_gt in Eload.
      destruct (put_new_spec F s m M C k v D T O Hb Hs Hcnt) as (s' & m' & rc & E & Hrc); [lia|done|done|done|].
      exists s', m', rc. split; [exact E|]. tauto.
Qed.

Lemma get_spec F s m M k : hm F s m M → hashmap_get s (Some m) (Some k) = Ret (default 0 (M !! k)).
Proof.
  intros (D & (C & T) & _). unfold hashmap_get. destruct (find_spec s m M C k D T) as (r & -> & Hr).
  cbn [mbind outcome_bind]. destruct r as [a|]; [|by rewrite Hr]. destruct Hr as (e & He & _ & ->). unfold entry. by rewrite He.
Qed.

Lemma contains_spec F s m M k :
  hm F s m M → hashmap_contains s (Some m) (Some k) = Ret (bool_decide (is_Some (M !! k))).
Proof.
  intros (D & (C & T) & _). unfold hashmap_contains. destruct (find_spec s m M C k D T) as (r & -> & Hr).
  cbn [mbind outcome_bind]. destruct r as [a|]; [destruct Hr as (e & _ & _ & ->)|rewrite Hr]; f_equal.
Qed.

Lemma remove_spec F s m M k :
  hm F s m M →
  ∃ s' m', hashmap_remove s (Some m) (Some k) = Ret (s', Some m', default 0 (M !! k)) ∧ hm F s' m' (delete k M).
Proof.
  intros Hm. pose proof (hm_threshold _ _ _ _ Hm) as Hth.
  destruct Hm as (D & (C & T) & O & Hb & Hs & Hcnt & Hle & Eth). unfold hashmap_remove.
  pose proof (tab_index _ _ _ (fnv1a_hash k) T) as Hi.
  destruct (remove_from_spec _ s m M C k (C (index m (fnv1a_hash k))) (fuel_of s) [] _ D T O eq_refl (t_chain _ _ _ T _ Hi))
    as (s' & m' & v & E & Hr); [by eapply chain_length|by intros ? ?%not_elem_of_nil|]. cbn [last] in E. rewrite E.
  cbn [mbind outcome_bind]. destruct (M !! k) as [w|] eqn:HM.
  - destruct Hr as (-> & D' & O' & (E1 & E2 & E3 & E4) & Ec & T'). exists s', m'. split; [done|].
    assert (0 < size M)%nat by (apply Nat.neq_0_lt_0, map_size_non_empty_iff; intros ->; done).
    split; [done|]. split; [done|]. rewrite E1, E2, E3, E4. split; [done|]. split; [done|]. split; [done|].
    rewrite map_size_delete_Some by (rewrite HM; by eexists). rewrite Ec, wrap_id by lia. split; [lia|]. split; [lia|done].
  - destruct Hr as (-> & -> & ->). exists s, m. split; [done|]. rewrite delete_id by done. split; [done|].
    split; [by exists C|]. done.
Qed.

(** ** Clearing

    [D] are the entries freed so far; the others are as they were in [s0]. *)

Record freeing B s0 s (D : Z → Prop) : Prop := {
  f_dict : ∃ M, dict s M;
  f_own : own B s;
  f_gone a : D a → s.(ents) !! a = None;
  f_left a : ¬ D a → s.(ents) !! a = s0.(ents) !! a;
}.

Lemma freeing_ext B s0 s D D' : (∀ a, D a ↔ D' a) → freeing B s0 s D → freeing B s0 s D'.
Proof. intros HD []. split; [done|done|intros a Ha; apply f_gone0|intros a Ha; apply f_left0]; by rewrite HD. Qed.

Lemma free_chain_spec B s0 l : ∀ fuel s D e,
  freeing B s0 s D → ilist (nxt s0) e l → NoDup l → (length l < fuel)%nat →
  (∀ a, a ∈ l → ¬ D a ∧ is_Some (s0.(ents) !! a)) →
  ∃ s', free_chain fuel s e = Ret s' ∧ freeing B s0 s' (λ b, D b ∨ b ∈ l).
Proof.
  induction l as [|a l IH]; intros fuel s D e V Hc Hnd Hf Hl.
  - cbn in Hc. subst e. exists s. split; [by destruct fuel|]. eapply freeing_ext, V. set_solver +.
  - destruct Hc as [-> Hc]. destruct fuel as [|fuel]; [cbn in Hf; lia|]. cbn [free_chain].
    destruct (Hl a ltac:(by left)) as [HDa [x Hx]]. apply NoDup_cons in Hnd as [Hni Hnd].
    pose proof (f_left _ _ _ _ V a HDa) as Ea. rewrite Hx in Ea. unfold entry. rewrite Ea. cbn [mbind outcome_bind].
    destruct (f_dict _ _ _ _ V) as (M & D0). destruct (d_ent _ _ D0 a x Ea) as (k & Hk & _).
    destruct (free_entry_spec B s a x k (f_own _ _ _ _ V) Ea Hk) as (s1 & -> & O1 & Ee & Es). cbn [mbind outcome_bind].
    assert (nxt s0 a = x.(next)) as En by (unfold nxt; by rewrite Hx). rewrite En in Hc.
    destruct (IH fuel s1 (λ b, D b ∨ b = a) x.(next)) as (s' & -> & V'); [|done|done|cbn in Hf; lia| |].
    + split; [|done| |].
      * exists (delete k M). pose proof (dict_delete s M a x k D0 Ea Hk) as D1. destruct s1. cbn in Ee, Es. subst. eapply dict_pay, D1; done.
      * intros b Hb. rewrite Ee. destruct (decide (a = b)) as [->|Hne]; [apply lookup_delete_eq|]. rewrite lookup_delete_ne by done.
        apply V. by destruct Hb as [?| ->].
      * intros b Hb. rewrite Ee, lookup_delete_ne by (intros ->; apply Hb; by right). apply V. tauto.
    + intros b Hb. destruct (Hl b ltac:(by right)) as [HDb Hsb]. split; [|done]. intros [?| ->]; done.
    + exists s'. split; [done|]. eapply freeing_ext, V'. intros b. cbn. rewrite elem_of_cons. tauto.
Qed.

Lemma clear_from_spec B s0 m C n : ∀ s m1 i,
  table s0 m C → 0 ≤ i → i + Z.of_nat n = m.(capacity) → zlen m1.(buckets) = m.(capacity) →
  (∀ j, 0 ≤ j < i → m1.(buckets).[j] = None) → (∀ j, i ≤ j → m1.(buckets).[j] = m.(buckets).[j]) →
  freeing B s0 s (λ a, ∃ j, 0 ≤ j < i ∧ a ∈ C j) →
  ∃ s' m', clear_from n (fuel_of s0) s m1 i = Ret (s', m') ∧
    freeing B s0 s' (λ a, ∃ j, 0 ≤ j < m.(capacity) ∧ a ∈ C j) ∧ same_shape m1 m' ∧
    zlen m'.(buckets) = m.(capacity) ∧ ∀ j, 0 ≤ j < m.(capacity) → m'.(buckets).[j] = None.
Proof.
  induction n as [|n IH]; intros s m1 i T Hi Hn Hlen Hz Heq V.
  - exists s, m1. assert (i = m.(capacity)) as -> by lia. split; [done|]. split; [done|]. done.
  - cbn [clear_from]. rewrite (Heq i) by lia.
    destruct (free_chain_spec B s0 (C i) (fuel_of s0) s _ (m.(buckets).[i]) V) as (s1 & -> & V1);
      [apply T; lia|apply T; lia|apply (chain_length s0 m C i T); lia| |].
    { intros a Ha. apply (t_mem _ _ _ T i a) in Ha as (x & Hx & Ei); [|lia]. split; [|by eexists].
      intros (j & Hj & Hin). apply (t_mem _ _ _ T j a) in Hin as (y & Hy & Ej); [|lia]. simplify_eq. lia. }
    cbn [mbind outcome_bind].
    destruct (IH s1 (with_buckets m1 (m1.(buckets).[i <- None])) (i + 1)) as (s' & m' & E & V' & Hsh & Hr); try done; try lia.
    + cbn. by rewrite zlen_aset.
    + intros j Hj. cbn. rewrite aget_aset by lia. case_decide; [done|apply Hz; lia].
    + intros j Hj. cbn. rewrite aget_aset_ne by lia. apply Heq. lia.
    + eapply freeing_ext, V1. intros a. cbn. split.
      * intros [(j & Hj & Ha)|Ha]; [exists j; split; [lia|done]|]. exists i. split; [lia|done].
      * intros (j & Hj & Ha). destruct (decide (j = i)) as [->|]; [by right|]. left. exists j. split; [lia|done].
    + by exists s', m'.
Qed.

Lemma clear_spec F s m M :
  hm F s m M → ∃ s' m', hashmap_clear s (Some m) = Ret (s', Some m') ∧ hm F s' m' ∅ ∧ same_shape m m' ∧
    s'.(ents) = ∅ ∧ s'.(strs) = ∅.
Proof.
  intros Hm. pose proof (hm_threshold _ _ _ _ Hm) as Hth.
  destruct Hm as (D & (C & T) & O & Hb & Hs & Hcnt & Hle & Eth). unfold hashmap_clear.
  destruct (t_cap _ _ _ T) as (kc & Ek & Hkc). pose proof (Z.pow_pos_nonneg 2 kc ltac:(lia) ltac:(lia)).
  destruct (clear_from_spec ({[m.(bptr)]} ∪ ({[m.(self)]} ∪ F)) s m C (Z.to_nat m.(capacity)) s m 0 T) as (s' & m' & -> & V & (E1 & E2 & E3 & E4) & Hlen & Hz);
    [lia|lia|apply T|lia|done| |].
  { split; [by exists M|exact O| |done]. intros a (j & Hj & _). lia. }
  cbn [mbind outcome_bind]. exists s', (with_count m' 0). split; [done|].
  assert (s'.(ents) = ∅) as Ee.
  { apply map_empty. intros a. destruct (s.(ents) !! a) as [x|] eqn:Hx.
    - apply V. exists (index m x.(hash)). pose proof (tab_index _ _ _ x.(hash) T) as Hix. split; [done|].
      apply (t_mem _ _ _ T); [done|by exists x].
    - destruct (s'.(ents) !! a) as [y|] eqn:Hy; [|done]. exfalso.
      rewrite (f_left _ _ _ _ V a) in Hy; [congruence|]. intros (j & Hj & Ha). apply (t_mem _ _ _ T) in Ha as (z & Hz' & _); [|done].
      congruence. }
  destruct (f_dict _ _ _ _ V) as (M' & D').
  assert (s'.(strs) = ∅) as Es.
  { apply map_empty. intros p. destruct (s'.(strs) !! p) as [t|] eqn:Ht; [|done].
    destruct (d_strs _ _ D' p t Ht) as (a & e & He & _). by rewrite Ee in He. }
  assert (M' = ∅) as ->.
  { apply map_empty. intros k. destruct (M' !! k) as [v|] eqn:Hv; [|done].
    destruct (d_key _ _ D' k v Hv) as (a & e & He & _). by rewrite Ee in He. }
  split; [|by split]. split; [done|]. split.
  { exists (λ _, []). split; cbn.
    - exists kc. by rewrite E3.
    - by rewrite E3.
    - intros i Hi. rewrite E3 in Hi. by apply Hz.
    - intros i Hi. apply NoDup_nil_2.
    - intros i a Hi. rewrite Ee. split; [by intros ?%not_elem_of_nil|]. by intros (e & He & _). }
  cbn. rewrite E1, E2, E3, E4. split; [apply V|]. split; [done|]. split; [done|]. split; [done|]. split; [lia|done].
Qed.

Lemma destroy_spec F s m M :
  hm F s m M → ∃ s', hashmap_destroy s (Some m) = Ret s' ∧ kh_rep s'.(heap) F ∧ s'.(ents) = ∅ ∧ s'.(strs) = ∅.
Proof.
  intros Hm. destruct (clear_spec F s m M Hm) as (s1 & m1 & E & Hm1 & (E1 & E2 & _) & Ee & Es).
  unfold hashmap_destroy. rewrite E. cbn [mbind outcome_bind].
  destruct Hm1 as (_ & _ & [Or _ _ _] & Hb & Hs & _). rewrite Ee, Es, E1, E2 in *.
  destruct (kfree_spec _ _ m.(bptr) Or ltac:(set_solver +)) as (h1 & -> & Hr1). cbn [mbind outcome_bind].
  destruct (kfree_spec _ _ m.(self) Hr1 ltac:(set_solver +Hb)) as (h2 & -> & Hr2). cbn [mbind outcome_bind].
  eexists. split; [done|]. split; [|by split]. cbn. eapply eq_ind; [exact Hr2|]. rewrite !dom_empty_L. set_solver +Hb Hs.
Qed.

(** ** Creation and iteration *)

Lemma dict_empty s : s.(ents) = ∅ → s.(strs) = ∅ → dict s ∅.
Proof.
  intros Ee Es. assert (∀ a k, ¬ holds s a k) as Hno by (intros a k (e & He & _); by rewrite Ee in He).
  split; rewrite ?Ee, ?Es; [done|done| |done]. intros a b k Ha. by destruct (Hno a k).
Qed.

Lemma create_spec F (h : H) n :
  kh_rep h F → 0 ≤ n < 2 ^ 64 →
  ∃ s' r, hashmap_create {| heap := h; ents := ∅; strs := ∅ |} n = Ret (s', r) ∧ s'.(ents) = ∅ ∧ s'.(strs) = ∅ ∧
    match r with Some m => hm F s' m ∅ ∧ n ≤ m.(capacity) | None => kh_rep s'.(heap) F end.
Proof.
  intros Hr Hn. unfold hashmap_create. cbn [heap].
  set (c := if n <? DEFAULT_CAPACITY then DEFAULT_CAPACITY else n).
  assert (16 ≤ c < 2 ^ 64 ∧ n ≤ c) as [Hc Hnc] by (unfold c, DEFAULT_CAPACITY; bool_cases; lia).
  destruct (kmalloc_spec _ _ SIZEOF_MAP Hr ltac:(done)) as (h1 & p & -> & Hp). cbn [mbind outcome_bind].
  destruct Hp as [[-> Hr1]|(Hp0 & _ & Hp & Hr1)]; [by eexists _, None|].
  rewrite (proj2 (Z.eqb_neq p 0)) by lia.
  assert (0 ≤ next_power_of_2 c < 2 ^ 64) as Hrng by apply u64_range.
  destruct (kcalloc_spec _ _ (next_power_of_2 c) 8 Hr1 Hrng ltac:(lia)) as (h2 & b & -> & Hb2). cbn [mbind outcome_bind].
  destruct Hb2 as [[-> Hr2]|(Hb0 & Hsz & Hb & Hr2)].
  { cbn. destruct (kfree_spec _ _ p Hr2 ltac:(set_solver +)) as (h3 & -> & Hr3). cbn. eexists _, None. split; [done|].
    split; [done|]. split; [done|]. cbn. eapply eq_ind; [exact Hr3|]. set_solver +Hp. }
  rewrite (proj2 (Z.eqb_neq b 0)) by lia. unfold KMALLOC_MAX in Hsz.
  destruct (next_power_of_2_spec c ltac:(lia)) as [E0|(k & Hk & Ek & Hck)]; [lia|].
  assert (k ≤ 13) as Hk13 by (apply (Z.pow_le_mono_r_iff 2); [lia|lia|]; rewrite Ek in Hsz; lia).
  assert (4 ≤ k) as Hk4 by (apply (Z.pow_le_mono_r_iff 2); lia).
  eexists _, (Some _). split; [done|]. split; [done|]. split; [done|].
  assert (2 ^ k ≤ 2 ^ 13) as Hle by (apply Z.pow_le_mono_r; lia). change (2 ^ 13) with 8192 in Hle.
  split; [|cbn; lia]. split; [by apply dict_empty|]. split.
  - exists (λ _, []). split; cbn [capacity buckets ents].
    + exists k. split; [done|lia].
    + unfold zlen. rewrite length_replicate. lia.
    + intros i Hi. by rewrite aget_replicate by lia.
    + intros i Hi. apply NoDup_nil_2.
    + intros i a Hi. cbn. split; [by intros ?%not_elem_of_nil|]. by intros (e & He & _).
  - cbn [bptr self count load_threshold capacity]. split; [split; cbn; rewrite ?dom_empty_L|]; [|set_solver +..|].
    + eapply eq_ind; [exact Hr2|]. set_solver +.
    + split; [done|]. split; [done|]. rewrite map_size_empty, Ek, wrap_id by lia. split; [done|]. split; [div_lia|done].
Qed.

Definition visited s (a : Z) (kv : list Z * Z) : Prop :=
  ∃ x, s.(ents) !! a = Some x ∧ s.(strs) !! x.(key) = Some kv.1 ∧ x.(value) = kv.2.

Lemma visit_chain_spec s M l : ∀ fuel e,
  dict s M → ilist (nxt s) e l → (length l < fuel)%nat → (∀ a, a ∈ l → is_Some (s.(ents) !! a)) →
  ∃ L, visit_chain fuel s e = Ret L ∧ Forall2 (visited s) l L.
Proof.
  induction l as [|a l IH]; intros fuel e D Hc Hf Hl.
  - cbn in Hc. subst e. exists []. split; [by destruct fuel|constructor].
  - destruct Hc as [-> Hc]. destruct fuel as [|fuel]; [cbn in Hf; lia|]. cbn [visit_chain].
    destruct (Hl a ltac:(by left)) as [x Hx]. destruct (d_ent _ _ D a x Hx) as (t & Ht & _).
    assert (nxt s a = x.(next)) as En by (unfold nxt; by rewrite Hx). rewrite En in Hc.
    destruct (IH fuel x.(next) D Hc ltac:(cbn in Hf; lia) ltac:(intros b Hb; apply Hl; by right)) as (L & EL & HL).
    unfold entry, str. rewrite Hx. cbn [mbind outcome_bind]. rewrite Ht. cbn [mbind outcome_bind]. rewrite EL.
    cbn [mbind outcome_bind]. eexists. split; [done|]. constructor; [by exists x|done].
Qed.

Lemma visit_from_spec s m M C n : ∀ i,
  dict s M → table s m C → 0 ≤ i → i + Z.of_nat n = m.(capacity) →
  ∃ A L, visit_from n (fuel_of s) s m i = Ret L ∧ Forall2 (visited s) A L ∧ NoDup A ∧
    ∀ a, a ∈ A ↔ ∃ e, s.(ents) !! a = Some e ∧ i ≤ index m e.(hash).
Proof.
  induction n as [|n IH]; intros i D T Hi Hn.
  - exists [], []. split; [done|]. split; [constructor|]. split; [apply NoDup_nil_2|]. intros a.
    split; [by intros ?%not_elem_of_nil|]. intros (e & _ & Hx). pose proof (tab_index _ _ _ e.(hash) T). lia.
  - cbn [visit_from]. destruct (visit_chain_spec s M (C i) (fuel_of s) (m.(buckets).[i]) D) as (L & -> & HL);
      [apply T; lia|apply (chain_length s m C i T); lia| |].
    { intros a Ha. apply (t_mem _ _ _ T i a) in Ha as (e & -> & _); [by eexists|lia]. }
    destruct (IH (i + 1) D T ltac:(lia) ltac:(lia)) as (A & L' & -> & HL' & Hnd & HA). cbn [mbind outcome_bind].
    exists (C i ++ A), (L ++ L'). split; [done|]. split; [by apply Forall2_app|].
    assert (∀ a, a ∈ C i ↔ ∃ e, s.(ents) !! a = Some e ∧ index m e.(hash) = i) as Hm by (intros a; apply T; lia).
    split.
    + apply NoDup_app. split; [apply T; lia|]. split; [|done]. intros a (e & He & Ee)%Hm (e' & He' & Ee')%HA. simplify_eq. lia.
    + intros a. rewrite elem_of_app, Hm, HA. split.
      * intros [(e & He & Ee)|(e & He & Ee)]; exists e; (split; [done|lia]).
      * intros (e & He & Ee). destruct (decide (index m e.(hash) = i)); [left|right]; exists e; (split; [done|lia]).
Qed.

(** The callback sees every binding once. *)
Lemma foreach_spec F s m M : hm F s m M → ∃ L, hashmap_foreach s (Some m) = Ret L ∧ L ≡ₚ map_to_list M.
Proof.
  intros (D & (C & T) & _). unfold hashmap_foreach.
  destruct (t_cap _ _ _ T) as (kc & Ek & Hkc). pose proof (Z.pow_pos_nonneg 2 kc ltac:(lia) ltac:(lia)).
  destruct (visit_from_spec s m M C (Z.to_nat m.(capacity)) 0 D T) as (A & L & E & HL & Hnd & HA); [lia|lia|].
  exists L. split; [done|].
  assert (∀ k v, (k, v) ∈ L ↔ M !! k = Some v) as Hin.
  { intros k v. split.
    - intros Hkv. apply list_elem_of_lookup in Hkv as [i Hi]. destruct (Forall2_lookup_r _ _ _ _ _ HL Hi) as (a & Ha & x & Hx & Hk & Hv).
      destruct (d_ent _ _ D a x Hx) as (t & Ht & _ & HM). cbn in Hk, Hv. assert (t = k) as -> by congruence. by rewrite HM, Hv.
    - intros HM. destruct (d_key _ _ D k v HM) as (a & e & He & Hk).
      assert (a ∈ A) as Ha by (apply HA; exists e; split; [done|]; by apply (tab_index s m C)).
      apply list_elem_of_lookup in Ha as [i Hi]. destruct (Forall2_lookup_l _ _ _ _ _ HL Hi) as ([k' v'] & HLi & x & Hx & Hk' & Hv').
      cbn in *. simplify_eq. destruct (d_ent _ _ D a e He) as (t & Ht & _ & HM'). simplify_eq. by eapply list_elem_of_lookup_2. }
  apply NoDup_Permutation; [|apply NoDup_map_to_list|].
  - apply NoDup_alt. intros i j [k v] Hi Hj.
    destruct (Forall2_lookup_r _ _ _ _ _ HL Hi) as (a & Ha & x & Hx & Hk & _).
    destruct (Forall2_lookup_r _ _ _ _ _ HL Hj) as (b & Hb & y & Hy & Hk' & _).
    assert (a = b) as -> by (apply (d_inj _ _ D a b k); [by exists x|by exists y]).
    by eapply NoDup_lookup.
  - intros [k v]. rewrite Hin, elem_of_map_to_list. done.
Qed.

(** ** A client's history *)

Inductive hop :=
  | Put (k : list Z) (v : Z) | Get (k : list Z) | Contains (k : list Z) | Remove (k : list Z)
  | Size | Clear | Foreach.
Inductive hres := Int (z : Z) | Flag (b : bool) | Bindings (l : list (list Z * Z)).

Definition hop_step s (map : option hashmap_t) (op : hop) : outcome (store H * option hashmap_t * hres) :=
  match op with
  | Put k v => r ← hashmap_put s map (Some k) v; let '(s, map, rc) := r in Ret (s, map, Int rc)
  | Get k => v ← hashmap_get s map (Some k); Ret (s, map, Int v)
  | Contains k => b ← hashmap_contains s map (Some k); Ret (s, map, Flag b)
  | Remove k => r ← hashmap_remove s map (Some k); let '(s, map, v) := r in Ret (s, map, Int v)
  | Size => Ret (s, map, Int (hashmap_size map))
  | Clear => r ← hashmap_clear s map; let '(s, map) := r in Ret (s, map, Int 0)
  | Foreach => l ← hashmap_foreach s map; Ret (s, map, Bindings l)
  end.
Fixpoint hrun s (map : option hashmap_t) (ops : list hop) : outcome (store H * option hashmap_t * list hres) :=
  match ops with
  | [] => Ret (s, map, [])
  | op :: ops =>
      r ← hop_step s map op; let '(s, map, x) := r in
      r ← hrun s map ops; let '(s, map, xs) := r in Ret (s, map, x :: xs)
  end.

(** The same operations on a finite map; an insertion may be refused. *)
Inductive hspec (M : gmap (list Z) Z) : hop → hres → gmap (list Z) Z → Prop :=
  | spec_put k v : hspec M (Put k v) (Int 0) (<[k := v]> M)
  | spec_refused k v : M !! k = None → hspec M (Put k v) (Int (- ENOMEM)) M
  | spec_get k : hspec M (Get k) (Int (default 0 (M !! k))) M
  | spec_contains k : hspec M (Contains k) (Flag (bool_decide (is_Some (M !! k)))) M
  | spec_remove k : hspec M (Remove k) (Int (default 0 (M !! k))) (delete k M)
  | spec_size : hspec M Size (Int (Z.of_nat (size M))) M
  | spec_clear : hspec M Clear (Int 0) ∅
  | spec_foreach l : l ≡ₚ map_to_list M → hspec M Foreach (Bindings l) M.
Inductive hspecs : gmap (list Z) Z → list hop → list hres → gmap (list Z) Z → Prop :=
  | hspecs_nil M : hspecs M [] [] M
  | hspecs_cons M op r M' ops rs M'' : hspec M op r M' → hspecs M' ops rs M'' → hspecs M (op :: ops) (r :: rs) M''.

(** Keys are shorter than the address space. *)
Definition key_ok (op : hop) : Prop := match op with Put k _ => zlen k < 2 ^ 63 | _ => True end.

Lemma hop_step_refines F s m M op :
  hm F s m M → key_ok op →
  ∃ s' m' r M', hop_step s (Some m) op = Ret (s', Some m', r) ∧ hspec M op r M' ∧ hm F s' m' M'.
Proof.
  intros Hm Hk. destruct op as [k v|k|k|k| | |]; cbn [hop_step].
  - destruct (put_spec F s m M k v Hm Hk) as (s' & m' & rc & -> & [[-> Hm']|(-> & HM & Hm')]); cbn [mbind outcome_bind];
      eexists s', m', _, _; (split; [done|]); (split; [by constructor|done]).
  - rewrite (get_spec F s m M k Hm). exists s, m. do 2 eexists. split; [done|]. split; [constructor|done].
  - rewrite (contains_spec F s m M k Hm). exists s, m. do 2 eexists. split; [done|]. split; [constructor|done].
  - destruct (remove_spec F s m M k Hm) as (s' & m' & -> & Hm'). exists s', m'. do 2 eexists. split; [done|]. split; [constructor|done].
  - exists s, m. do 2 eexists. split; [done|]. cbn [hashmap_size]. assert (m.(count) = Z.of_nat (size M)) as -> by apply Hm.
    split; [constructor|done].
  - destruct (clear_spec F s m M Hm) as (s' & m' & -> & Hm' & _). exists s', m'. do 2 eexists. split; [done|]. split; [constructor|done].
  - destruct (foreach_spec F s m M Hm) as (L & -> & HL). exists s, m. do 2 eexists. split; [done|]. split; [by constructor|done].
Qed.

Lemma hrun_refines F ops : ∀ s m M,
  hm F s m M → Forall key_ok ops →
  ∃ s' m' rs M', hrun s (Some m) ops = Ret (s', Some m', rs) ∧ hspecs M ops rs M' ∧ hm F s' m' M'.
Proof.
  induction ops as [|op ops IH]; intros s m M Hm Hk; [exists s, m, [], M; split; [done|]; by split; [constructor|]|].
  apply Forall_cons in Hk as [Hk1 Hk]. cbn [hrun].
  destruct (hop_step_refines F s m M op Hm Hk1) as (s1 & m1 & r & M1 & -> & Hs & Hm1). cbn [mbind outcome_bind].
  destruct (IH s1 m1 M1 Hm1 Hk) as (s2 & m2 & rs & M2 & -> & Hss & Hm2). cbn [mbind outcome_bind].
  exists s2, m2, (r :: rs), M2. split; [done|]. split; [by econstructor|done].
Qed.

(** C5: over any kernel heap, [hashmap_create] either fails and leaves the heap
    as it was, or yields a map on which every sequence of [put], [get],
    [contains], [remove], [size], [clear] and [foreach] calls runs to completion
    and answers like a finite map from strings to values, whatever resizing and
    hash collisions do; [put] may only refuse a new key, with [-ENOMEM] and no
    change; [foreach] reports every binding exactly once; and [hashmap_destroy]
    then returns every block, so that the heap holds what it held before. *)
Theorem hashmap_refines F (h : H) n ops :
  kh_rep h F → 0 ≤ n < 2 ^ 64 → Forall key_ok ops →
  ∃ s1 r, hashmap_create {| heap := h; ents := ∅; strs := ∅ |} n = Ret (s1, r) ∧
    match r with
    | None => kh_rep s1.(heap) F
    | Some m => ∃ s2 m2 rs M s3,
        hrun s1 (Some m) ops = Ret (s2, Some m2, rs) ∧ hspecs ∅ ops rs M ∧
        hashmap_destroy s2 (Some m2) = Ret s3 ∧ kh_rep s3.(heap) F ∧ s3.(ents) = ∅ ∧ s3.(strs) = ∅
    end.
Proof.
  intros Hr Hn Hk. destruct (create_spec F h n Hr Hn) as (s1 & r & E & _ & _ & Hres). exists s1, r. split; [done|].
  destruct r as [m|]; [|done]. destruct Hres as [Hm _].
  destruct (hrun_refines F ops s1 m ∅ Hm Hk) as (s2 & m2 & rs & M & E2 & Hs & Hm2).
  destruct (destroy_spec F s2 m2 M Hm2) as (s3 & E3 & Hr3 & Hd). exists s2, m2, rs, M, s3. done.
Qed.

(** The map never holds more than 6144 bindings: the bucket array of a
    larger table does not fit the largest heap object, so a [put] of a new key
    into a map of 6144 is refused with [-ENOMEM], however much memory is free,
    and changes nothing. *)
Theorem hashmap_limit F s m M k v :
  hm F s m M → zlen k < 2 ^ 63 →
  Z.of_nat (size M) ≤ 6144 ∧
  (Z.of_nat (size M) = 6144 → M !! k = None →
   ∃ s' m', hashmap_put s (Some m) (Some k) v = Ret (s', Some m', - ENOMEM) ∧ hm F s' m' M).
Proof.
  assert (∀ s m M, hm F s m M → Z.of_nat (size M) ≤ 6144) as Hbound.
  { intros s1 m1 M1 Hm. pose proof (hm_threshold _ _ _ _ Hm). destruct Hm as (_ & _ & _ & _ & _ & <- & Hle & _). lia. }
  intros Hm Hk. split; [by eapply Hbound|]. intros Hfull HM.
  destruct (put_spec F s m M k v Hm Hk) as (s' & m' & rc & E & [[-> Hm']|(-> & _ & Hm')]); [|by exists s', m'].
  exfalso. apply Hbound in Hm'. rewrite map_size_insert_None in Hm' by done. lia.
Qed.
End proofs.

(** [next_power_of_2] computes, with shifts and ors, the least power of two
    that is not below its argument, or 0 when that is 2^64 and does not fit. *)
Theorem next_power_of_2_correct v :
  2 ≤ v < 2 ^ 64 →
  (2 ^ 63 < v → next_power_of_2 v = 0) ∧
  (v ≤ 2 ^ 63 → next_power_of_2 v = 2 ^ Z.log2_up v).
Proof.
  intros Hv. assert (Z.log2_up v = Z.log2 (v - 1) + 1) as ->.
  { rewrite Z.log2_up_eqn by lia. replace (Z.pred v) with (v - 1) by lia. lia. }
  destruct (next_power_of_2_log v Hv) as [-> Hlog]. pose proof (Z.log2_spec (v - 1) ltac:(lia)) as Hspec.
  split; intros Hc.
  - assert (Z.log2 (v - 1) = 63) as ->; [|reflexivity]. enough (¬ Z.log2 (v - 1) < 63) by lia. intros Hlt.
    assert (2 ^ Z.succ (Z.log2 (v - 1)) ≤ 2 ^ 63) by (apply Z.pow_le_mono_r; lia). lia.
  - apply wrap_id. split; [apply Z.pow_nonneg; lia|]. apply Z.pow_lt_mono_r; [lia|lia|].
    enough (Z.log2 (v - 1) < 63) by lia. apply Z.log2_lt_pow2; lia.
Qed.

Lemma next_power_of_2_correct_witness :
  next_power_of_2 17 = 32 ∧ next_power_of_2 (2 ^ 63 + 1) = 0.
Proof.
  split.
  - apply (next_power_of_2_correct 17); lia.
  - apply (next_power_of_2_correct (2 ^ 63 + 1)); lia.
Defined.

(** ** On the kernel's heap, after boot *)

Definition demo_hops : list hop :=
  [Put [97] 1; Put [98] 2; Put [97] 3; Get [97]; Remove [98]; Contains [98]; Size; Foreach; Clear; Size].

Definition run_demo : outcome (store (Slab.heap pmm_t) * list hres) :=
  r ← hashmap_create {| heap := demo_heap; ents := ∅; strs := ∅ |} 5;
  let '(s, m) := r in
  r ← hrun s m demo_hops; let '(s, m, rs) := r in
  s ← hashmap_destroy s m; Ret (s, rs).

Lemma hashmap_refines_witness :
  (∃ s1 r, hashmap_create {| heap := demo_heap; ents := ∅; strs := ∅ |} 5 = Ret (s1, r) ∧
    match r with
    | None => kh_rep s1.(heap) ∅
    | Some m => ∃ s2 m2 rs M s3,
        hrun s1 (Some m) demo_hops = Ret (s2, Some m2, rs) ∧ hspecs ∅ demo_hops rs M ∧
        hashmap_destroy s2 (Some m2) = Ret s3 ∧ kh_rep s3.(heap) ∅ ∧ s3.(ents) = ∅ ∧ s3.(strs) = ∅
    end) ∧
  match run_demo with Ret (_, rs) => Some rs | _ => None end =
    Some [Int 0; Int 0; Int 0; Int 3; Int 2; Flag false; Int 1; Bindings [([97], 3)]; Int 0; Int 0].
Proof.
  split; [|by vm_compute]. apply (hashmap_refines ∅ demo_heap 5 demo_hops demo_heap_rep); [lia|].
  repeat constructor; cbn; lia.
Defined.

Lemma demo_map : ∃ s m, hm ∅ s m ∅ (H:=Slab.heap pmm_t).
Proof.
  destruct (create_spec ∅ demo_heap 16 demo_heap_rep ltac:(lia)) as (s & r & E & _ & _ & Hr).
  destruct r as [m|]; [exists s, m; apply Hr|]. exfalso.
  assert (match hashmap_create {| heap := demo_heap; ents := ∅; strs := ∅ |} 16 with Ret (_, Some _) => true | _ => false end = true) as Hc by (by vm_compute).
  by rewrite E in Hc.
Qed.

Lemma hashmap_limit_witness :
  ∃ s m, hm ∅ s m ∅ (H:=Slab.heap pmm_t) ∧ Z.of_nat (size (∅ : gmap (list Z) Z)) ≤ 6144.
Proof.
  destruct demo_map as (s & m & Hm). exists s, m. split; [exact Hm|].
  exact (proj1 (hashmap_limit ∅ s m ∅ [97] 1 Hm ltac:(reflexivity))).
Defined.
