(* ===== verification/HmsCache.v ===== *)
(** * The memory cache hierarchy ([src/agent/hms_cache.c])

    Three tables of named blobs: L1 with a CLOCK hand, L2 and L3 with time stamps.
    A table entry points to a heap block; the typed store [blobs] holds the contents
    of the blocks. Each call runs under the lock of the cache and is one step. *)

From S2P Require Import Pmm Slab SlabHeap KernelHeap.
From S2P Require Import Prelude CMem CArray IList KHeap.
From stdpp Require Import base numbers list gmap sets sorting.
Open Scope Z_scope.

Record kv_entry_t := { key : list Z; blob : Z; len : Z; ref : Z; lru_tag : Z; in_use : bool }.
Definition zero_entry : kv_entry_t :=
  {| key := replicate 64 0; blob := 0; len := 0; ref := 0; lru_tag := 0; in_use := false |}.
#[export] Instance kv_entry_inhabited : Inhabited kv_entry_t := populate zero_entry.

(** [self] and [tabp] are the blocks of the structure and of the table. *)
Record hms_kv_t := { self : Z; tabp : Z; tab : list kv_entry_t; cap : Z; hand : Z; clock : Z }.
Record hms_cache_t := {
  l1_slots : Z; l2_slots : Z; l3_slots : Z; hits_l1 : Z; hits_l2 : Z; hits_l3 : Z; misses : Z;
  l1_private : option hms_kv_t; l2_private : option hms_kv_t; l3_private : option hms_kv_t;
}.

Definition SIZEOF_KV : Z := 24.
Definition SIZEOF_KV_ENTRY : Z := 104.

Definition with_key (e : kv_entry_t) k := {| key := k; blob := e.(blob); len := e.(len); ref := e.(ref); lru_tag := e.(lru_tag); in_use := true |}.
Definition with_ref (e : kv_entry_t) r := {| key := e.(key); blob := e.(blob); len := e.(len); ref := r; lru_tag := e.(lru_tag); in_use := e.(in_use) |}.
Definition with_tag (e : kv_entry_t) t := {| key := e.(key); blob := e.(blob); len := e.(len); ref := e.(ref); lru_tag := t; in_use := e.(in_use) |}.
Definition with_blob (e : kv_entry_t) p n := {| key := e.(key); blob := p; len := n; ref := e.(ref); lru_tag := e.(lru_tag); in_use := e.(in_use) |}.
(** [e->blob == NULL]; [e->in_use = false] *)
Definition no_blob (e : kv_entry_t) := {| key := e.(key); blob := 0; len := e.(len); ref := e.(ref); lru_tag := e.(lru_tag); in_use := false |}.

Definition with_tab (K : hms_kv_t) t := {| self := K.(self); tabp := K.(tabp); tab := t; cap := K.(cap); hand := K.(hand); clock := K.(clock) |}.
Definition with_hand (K : hms_kv_t) h := {| self := K.(self); tabp := K.(tabp); tab := K.(tab); cap := K.(cap); hand := h; clock := K.(clock) |}.
Definition with_clock (K : hms_kv_t) c := {| self := K.(self); tabp := K.(tabp); tab := K.(tab); cap := K.(cap); hand := K.(hand); clock := c |}.
Definition set_entry (K : hms_kv_t) i e := with_tab K (K.(tab).[i <- e]).

Definition with_misses (c : hms_cache_t) m :=
  {| l1_slots := c.(l1_slots); l2_slots := c.(l2_slots); l3_slots := c.(l3_slots); hits_l1 := c.(hits_l1); hits_l2 := c.(hits_l2);
     hits_l3 := c.(hits_l3); misses := m; l1_private := c.(l1_private); l2_private := c.(l2_private); l3_private := c.(l3_private) |}.
Definition with_l1 (c : hms_cache_t) k h :=
  {| l1_slots := c.(l1_slots); l2_slots := c.(l2_slots); l3_slots := c.(l3_slots); hits_l1 := h; hits_l2 := c.(hits_l2);
     hits_l3 := c.(hits_l3); misses := c.(misses); l1_private := k; l2_private := c.(l2_private); l3_private := c.(l3_private) |}.
Definition with_l2 (c : hms_cache_t) k h :=
  {| l1_slots := c.(l1_slots); l2_slots := c.(l2_slots); l3_slots := c.(l3_slots); hits_l1 := c.(hits_l1); hits_l2 := h;
     hits_l3 := c.(hits_l3); misses := c.(misses); l1_private := c.(l1_private); l2_private := k; l3_private := c.(l3_private) |}.
Definition with_l3 (c : hms_cache_t) k h :=
  {| l1_slots := c.(l1_slots); l2_slots := c.(l2_slots); l3_slots := c.(l3_slots); hits_l1 := c.(hits_l1); hits_l2 := c.(hits_l2);
     hits_l3 := h; misses := c.(misses); l1_private := c.(l1_private); l2_private := c.(l2_private); l3_private := k |}.

Record store (H : Type) := { heap : H; blobs : gmap Z (list Z) }.
Arguments Build_store {H}.
Arguments heap {H}.
Arguments blobs {H}.

(** The first used entry with that key. *)
Fixpoint find_from (n : nat) (K : hms_kv_t) (k : list Z) (i : Z) : option Z :=
  match n with
  | O => None
  | S n =>
      let e := K.(tab).[i] in
      if e.(in_use) && bool_decide (cstr e.(key) = k) then Some i else find_from n K k (i + 1)
  end.
Definition kv_find (K : hms_kv_t) (k : list Z) : option Z := find_from (Z.to_nat K.(cap)) K k 0.

Section cache.
Context {H : Type} `{KH : KHeap H}.
Implicit Types s : store H.

Definition free_blob s (p : Z) : outcome (store H) :=
  h ← kfree s.(heap) p; Ret {| heap := h; blobs := delete p s.(blobs) |}.

Fixpoint destroy_from (n : nat) s (K : hms_kv_t) (i : Z) : outcome (store H) :=
  match n with
  | O => Ret s
  | S n => s ← free_blob s (K.(tab).[i]).(blob); destroy_from n s K (i + 1)
  end.
Definition kv_destroy s (K : hms_kv_t) : outcome (store H) :=
  s ← destroy_from (Z.to_nat K.(cap)) s K 0;
  h ← kfree s.(heap) K.(tabp); Ret {| heap := h; blobs := s.(blobs) |}.

(** [kfree(e->blob); memset(e, 0, sizeof( *e)); return e;] *)
Definition wipe s (K : hms_kv_t) (i : Z) : outcome (store H * hms_kv_t * Z) :=
  s ← free_blob s (K.(tab).[i]).(blob); Ret (s, set_entry K i zero_entry, i).

Fixpoint clock_from (n : nat) s (L : hms_kv_t) : outcome (store H * hms_kv_t * Z) :=
  match n with
  | O => wipe s L 0
  | S n =>
      let i := L.(hand) in
      let e := L.(tab).[i] in
      let L := with_hand L ((i + 1) mod L.(cap)) in
      if negb e.(in_use) then clock_from n s L
      else if e.(ref) =? 0 then wipe s L i
      else clock_from n s (set_entry L i (with_ref e 0))
  end.
Definition l1_evict s (L : hms_kv_t) : outcome (store H * hms_kv_t * Z) :=
  clock_from (Z.to_nat (u32 (L.(cap) * 2))) s L.

Fixpoint lru_from (n : nat) s (K : hms_kv_t) (i best_i best_t : Z) : outcome (store H * hms_kv_t * Z) :=
  match n with
  | O => if best_i <? K.(cap) then wipe s K best_i else Fault
  | S n =>
      let e := K.(tab).[i] in
      if negb e.(in_use) then Ret (s, K, i)
      else if e.(lru_tag) <? best_t then lru_from n s K (i + 1) i e.(lru_tag)
      else lru_from n s K (i + 1) best_i best_t
  end.
Definition lru_evict s (K : hms_kv_t) : outcome (store H * hms_kv_t * Z) :=
  lru_from (Z.to_nat K.(cap)) s K 0 UINT32_MAX UINT64_MAX.

(** One tier of [hms_cache_init]. *)
Definition init_tier s (slots : Z) : outcome (store H * option hms_kv_t) :=
  r ← kcalloc s.(heap) 1 SIZEOF_KV;
  let '(h, p) := r in
  if p =? 0 then Ret ({| heap := h; blobs := s.(blobs) |}, None) else
  r ← kcalloc h slots SIZEOF_KV_ENTRY;
  let '(h, t) := r in
  if t =? 0 then h ← kfree h p; Ret ({| heap := h; blobs := s.(blobs) |}, None)
  else Ret ({| heap := h; blobs := s.(blobs) |},
            Some {| self := p; tabp := t; tab := replicate (Z.to_nat slots) zero_entry; cap := slots; hand := 0; clock := 0 |}).
Definition hms_cache_init s (slots : Z) : outcome (store H * hms_cache_t) :=
  let l1 := if slots =? 0 then 32 else slots in
  r ← init_tier s l1; let '(s, k1) := r in
  r ← init_tier s 256; let '(s, k2) := r in
  r ← init_tier s 512; let '(s, k3) := r in
  Ret (s, {| l1_slots := l1; l2_slots := 256; l3_slots := 512; hits_l1 := 0; hits_l2 := 0; hits_l3 := 0; misses := 0;
             l1_private := k1; l2_private := k2; l3_private := k3 |}).

Definition destroy_tier s (k : option hms_kv_t) : outcome (store H) :=
  match k with
  | None => Ret s
  | Some K => s ← kv_destroy s K; h ← kfree s.(heap) K.(self); Ret {| heap := h; blobs := s.(blobs) |}
  end.
Definition hms_cache_destroy s (c : hms_cache_t) : outcome (store H * hms_cache_t) :=
  s ← destroy_tier s c.(l1_private);
  s ← destroy_tier s c.(l2_private);
  s ← destroy_tier s c.(l3_private);
  Ret (s, with_l1 (with_l2 (with_l3 c None c.(hits_l3)) None c.(hits_l2)) None c.(hits_l1)).

(** [memcpy(out, e->blob, n)]: the bytes, for [n] up to the length of the block. *)
Definition read_blob s (e : kv_entry_t) (n : Z) : outcome (list Z) :=
  match s.(blobs) !! e.(blob) with
  | Some d => if n <=? zlen d then Ret (take (Z.to_nat n) d) else Fault
  | None => Fault
  end.
(** [kfree(e->blob); e->blob = kmalloc(len); ... memcpy(e->blob, data, len); e->len = len;] *)
Definition store_blob s (K : hms_kv_t) (i : Z) (data : list Z) : outcome (store H * hms_kv_t * Z) :=
  let e := K.(tab).[i] in
  s ← free_blob s e.(blob);
  r ← kmalloc s.(heap) (zlen data);
  let '(h, p) := r in
  if p =? 0 then Ret ({| heap := h; blobs := s.(blobs) |}, set_entry K i (no_blob e), - ENOMEM)
  else Ret ({| heap := h; blobs := <[p := data]> s.(blobs) |}, set_entry K i (with_blob e p (zlen data)), 0).

(** A key is a string; the data of a [put] is its bytes, and a [get] returns the
    copied bytes, whose number is the new [*io_len]. *)
Definition hms_cache_l1_get s (c : hms_cache_t) (k : list Z) (io_len : Z) : outcome (hms_cache_t * Z * list Z) :=
  match c.(l1_private) with
  | None => Ret (c, - EINVAL, [])
  | Some L =>
      match kv_find L k with
      | None => Ret (with_misses c (u64 (c.(misses) + 1)), - ENOENT, [])
      | Some i =>
          let e := L.(tab).[i] in
          out ← read_blob s e (if io_len <? e.(len) then io_len else e.(len));
          Ret (with_l1 c (Some (set_entry L i (with_ref e 1))) (u64 (c.(hits_l1) + 1)), 0, out)
      end
  end.

Definition hms_cache_l1_put s (c : hms_cache_t) (k data : list Z) : outcome (store H * hms_cache_t * Z) :=
  match c.(l1_private) with
  | None => Ret (s, c, - EINVAL)
  | Some L =>
      if zlen data =? 0 then Ret (s, c, - EINVAL) else
      r ← match kv_find L k with
          | Some i => Ret (s, L, i)
          | None =>
              r ← l1_evict s L;
              let '(s, L, i) := r in
              a ← strncpy_term (L.(tab).[i]).(key) k;
              Ret (s, set_entry L i (with_key (L.(tab).[i]) a), i)
          end;
      let '(s, L, i) := r in
      r ← store_blob s L i data;
      let '(s, L, rc) := r in
      if rc =? 0 then Ret (s, with_l1 c (Some (set_entry L i (with_ref (L.(tab).[i]) 1))) c.(hits_l1), 0)
      else Ret (s, with_l1 c (Some L) c.(hits_l1), rc)
  end.

Definition tier_get s (c : hms_cache_t) (priv : option hms_kv_t) (hits : Z) (k : list Z) (io_len : Z)
    : outcome (hms_cache_t * option hms_kv_t * Z * Z * list Z) :=
  match priv with
  | None => Ret (c, priv, hits, - EINVAL, [])
  | Some L =>
      match kv_find L k with
      | None => Ret (with_misses c (u64 (c.(misses) + 1)), priv, hits, - ENOENT, [])
      | Some i =>
          let e := L.(tab).[i] in
          out ← read_blob s e (if io_len <? e.(len) then io_len else e.(len));
          let L := with_clock L (u64 (L.(clock) + 1)) in
          Ret (c, Some (set_entry L i (with_tag e L.(clock))), u64 (hits + 1), 0, out)
      end
  end.

Fixpoint count_used (n : nat) (K : hms_kv_t) (i : Z) : Z :=
  match n with O => 0 | S n => (if (K.(tab).[i]).(in_use) then 1 else 0) + count_used n K (i + 1) end.
(** The first free entry; the code's [e] stays null when there is none. *)
Fixpoint first_free (n : nat) (K : hms_kv_t) (i : Z) : outcome Z :=
  match n with
  | O => Fault
  | S n => if negb (K.(tab).[i]).(in_use) then Ret i else first_free n K (i + 1)
  end.

Definition tier_put s (priv : option hms_kv_t) (k data : list Z) : outcome (store H * option hms_kv_t * Z) :=
  match priv with
  | None => Ret (s, priv, - EINVAL)
  | Some L =>
      r ← match kv_find L k with
          | Some i => Ret (s, L, i)
          | None =>
              r ← (if count_used (Z.to_nat L.(cap)) L 0 >=? L.(cap) then lru_evict s L
                   else i ← first_free (Z.to_nat L.(cap)) L 0; Ret (s, L, i));
              let '(s, L, i) := r in
              a ← strncpy_term (L.(tab).[i]).(key) k;
              Ret (s, set_entry L i (with_key (L.(tab).[i]) a), i)
          end;
      let '(s, L, i) := r in
      r ← store_blob s L i data;
      let '(s, L, rc) := r in
      if rc =? 0 then
        let L := with_clock L (u64 (L.(clock) + 1)) in
        Ret (s, Some (set_entry L i (with_tag (L.(tab).[i]) L.(clock))), 0)
      else Ret (s, Some L, rc)
  end.

Definition hms_cache_l2_get s (c : hms_cache_t) (k : list Z) (io_len : Z) : outcome (hms_cache_t * Z * list Z) :=
  r ← tier_get s c c.(l2_private) c.(hits_l2) k io_len;
  let '(c, p, h, rc, out) := r in Ret (with_l2 c p h, rc, out).
Definition hms_cache_l2_put s (c : hms_cache_t) (k data : list Z) : outcome (store H * hms_cache_t * Z) :=
  if zlen data =? 0 then Ret (s, c, - EINVAL) else
  r ← tier_put s c.(l2_private) k data; let '(s, p, rc) := r in Ret (s, with_l2 c p c.(hits_l2), rc).
Definition hms_cache_l3_get s (c : hms_cache_t) (k : list Z) (io_len : Z) : outcome (hms_cache_t * Z * list Z) :=
  r ← tier_get s c c.(l3_private) c.(hits_l3) k io_len;
  let '(c, p, h, rc, out) := r in Ret (with_l3 c p h, rc, out).
Definition hms_cache_l3_put s (c : hms_cache_t) (k data : list Z) : outcome (store H * hms_cache_t * Z) :=
  if zlen data =? 0 then Ret (s, c, - EINVAL) else
  r ← tier_put s c.(l3_private) k data; let '(s, p, rc) := r in Ret (s, with_l3 c p c.(hits_l3), rc).
End cache.

(** ** The contents of a table

    [I] lists the entries in use and [L] their keys and data, in an order of the
    reader's choice; [m] is the part of the store that belongs to the table. *)

Definition ent (K : hms_kv_t) (m : gmap Z (list Z)) (i : Z) (kd : list Z * list Z) : Prop :=
  let e := K.(tab).[i] in
  cstr e.(key) = kd.1 ∧ 0 < e.(blob) ∧ m !! e.(blob) = Some kd.2 ∧ e.(len) = zlen kd.2.

Record kv_rep (K : hms_kv_t) (m : gmap Z (list Z)) (I : list Z) (L : list (list Z * list Z)) : Prop := {
  r_len : zlen K.(tab) = K.(cap);
  r_cap : 0 < K.(cap) ≤ 630;
  r_hand : 0 ≤ K.(hand) < K.(cap);
  r_nodup : NoDup I;
  r_used i : 0 ≤ i < K.(cap) → i ∈ I ↔ (K.(tab).[i]).(in_use) = true;
  r_range i : i ∈ I → 0 ≤ i < K.(cap);
  r_free i : 0 ≤ i < K.(cap) → i ∉ I → (K.(tab).[i]).(blob) = 0;
  r_key i : 0 ≤ i < K.(cap) → length (K.(tab).[i]).(key) = 64%nat;
  r_ent : Forall2 (ent K m) I L;
  r_inj i j : i ∈ I → j ∈ I → (K.(tab).[i]).(blob) = (K.(tab).[j]).(blob) → i = j;
  r_cover p : p ∈ dom m → ∃ i, i ∈ I ∧ (K.(tab).[i]).(blob) = p;
  r_keys : NoDup L.*1;
}.

Lemma ent_of K m I L i : kv_rep K m I L → i ∈ I → ∃ kd, kd ∈ L ∧ ent K m i kd.
Proof.
  intros R Hi. apply list_elem_of_lookup in Hi as [j Hj]. destruct (Forall2_lookup_l _ _ _ _ _ (r_ent _ _ _ _ R) Hj) as (kd & Hl & He).
  exists kd. split; [by eapply list_elem_of_lookup_2|done].
Qed.

Lemma Forall2_impl_in {A B} (P Q : A → B → Prop) (l : list A) (k : list B) :
  Forall2 P l k → (∀ x y, x ∈ l → P x y → Q x y) → Forall2 Q l k.
Proof.
  induction 1 as [|x y l k Hxy _ IH]; intros Hi; constructor; [by apply Hi; [left|]|].
  apply IH. intros a b Ha. apply Hi. by right.
Qed.

(** Equal entries up to [ref] and [lru_tag]. *)
Definition same_ent (e e' : kv_entry_t) : Prop :=
  e'.(key) = e.(key) ∧ e'.(blob) = e.(blob) ∧ e'.(len) = e.(len) ∧ e'.(in_use) = e.(in_use).

Lemma rep_meta K K' m I L :
  zlen K'.(tab) = zlen K.(tab) → K'.(cap) = K.(cap) → 0 ≤ K'.(hand) < K.(cap) →
  (∀ i, 0 ≤ i < K.(cap) → same_ent (K.(tab).[i]) (K'.(tab).[i])) → kv_rep K m I L → kv_rep K' m I L.
Proof.
  intros El Ec Eh Hs R.
  split; [rewrite El, Ec; apply R|rewrite Ec; apply R|by rewrite Ec|apply R|..|apply R]; try (setoid_rewrite Ec).
  - intros i Hi. destruct (Hs i Hi) as (_ & _ & _ & ->). by apply R.
  - intros i Hi. by apply R.
  - intros i Hi Hn. destruct (Hs i Hi) as (_ & -> & _). by apply R.
  - intros i Hi. destruct (Hs i Hi) as (-> & _). by apply R.
  - eapply Forall2_impl_in; [apply R|]. intros i kd Hi He.
    destruct (Hs i (r_range _ _ _ _ R i Hi)) as (E1 & E2 & E3 & _). unfold ent in *. by rewrite E1, E2, E3.
  - intros i j Hi Hj. destruct (Hs i (r_range _ _ _ _ R i Hi)) as (_ & -> & _), (Hs j (r_range _ _ _ _ R j Hj)) as (_ & -> & _). by apply R.
  - intros p Hp. destruct (r_cover _ _ _ _ R p Hp) as (i & Hi & E). exists i. split; [done|].
    by destruct (Hs i (r_range _ _ _ _ R i Hi)) as (_ & -> & _).
Qed.

Lemma rep_set_meta K m I L i e h :
  kv_rep K m I L → 0 ≤ i < K.(cap) → same_ent (K.(tab).[i]) e → 0 ≤ h < K.(cap) →
  kv_rep (with_hand (set_entry K i e) h) m I L.
Proof.
  intros R Hi He Hh. eapply rep_meta, R; try done; cbn; [by rewrite zlen_aset|]. intros j Hj.
  rewrite aget_aset by (rewrite ?(r_len _ _ _ _ R); lia). case_decide; [by subst|done].
Qed.

(** Reordering. *)
Lemma rep_move K m I1 i I2 L1 kd L2 :
  length I1 = length L1 → kv_rep K m (I1 ++ i :: I2) (L1 ++ kd :: L2) →
  kv_rep K m (I1 ++ I2 ++ [i]) (L1 ++ L2 ++ [kd]).
Proof.
  intros Hlen R. assert (I1 ++ i :: I2 ≡ₚ I1 ++ I2 ++ [i]) as HI by (by rewrite (Permutation_cons_append I2 i)).
  assert (∀ j, j ∈ I1 ++ I2 ++ [i] ↔ j ∈ I1 ++ i :: I2) as HIn by (intros j; by rewrite HI).
  split; try apply R.
  - rewrite <- HI. apply R.
  - intros j Hj. rewrite HIn. by apply R.
  - intros j Hj. apply R. by apply HIn.
  - intros j Hj Hn. apply R; [done|]. by rewrite <- HIn.
  - pose proof (r_ent _ _ _ _ R) as HF. apply Forall2_app_inv in HF as [HF1 HF2]; [|done].
    inversion HF2; subst. apply Forall2_app; [done|]. apply Forall2_app; [done|]. by constructor.
  - intros j k Hj Hk. apply R; by apply HIn.
  - intros p Hp. destruct (r_cover _ _ _ _ R p Hp) as (j & Hj & E). exists j. split; [by apply HIn|done].
  - assert ((L1 ++ kd :: L2).*1 ≡ₚ (L1 ++ L2 ++ [kd]).*1) as HL by (by rewrite (Permutation_cons_append L2 kd)).
    rewrite <- HL. apply R.
Qed.

(** An entry goes away, with its block. *)
Lemma rep_drop K m I1 i I2 L1 kd L2 e :
  length I1 = length L1 → kv_rep K m (I1 ++ i :: I2) (L1 ++ kd :: L2) →
  e.(in_use) = false → e.(blob) = 0 → length e.(key) = 64%nat →
  kv_rep (set_entry K i e) (delete (K.(tab).[i]).(blob) m) (I1 ++ I2) (L1 ++ L2).
Proof.
  intros Hlen R He1 He2 He3. set (b := (K.(tab).[i]).(blob)).
  assert (i ∈ I1 ++ i :: I2) as Hi by set_solver +. pose proof (r_range _ _ _ _ R i Hi) as Hir. pose proof (r_len _ _ _ _ R) as Hl.
  pose proof (r_nodup _ _ _ _ R) as Hnd. assert (I1 ++ i :: I2 ≡ₚ i :: I1 ++ I2) as HI by (by rewrite Permutation_middle).
  rewrite HI in Hnd. apply NoDup_cons in Hnd as [Hni Hnd].
  assert (∀ j, j ∈ I1 ++ I2 ↔ j ∈ I1 ++ i :: I2 ∧ j ≠ i) as HIn.
  { intros j. rewrite HI, elem_of_cons. split; [intros Hj; split; [by right|]; intros ->; done|]. intros [[?|?] ?]; done. }
  assert (∀ j, 0 ≤ j → (set_entry K i e).(tab).[j] = if decide (i = j) then e else K.(tab).[j]) as Hg.
  { intros j Hj. cbn. apply aget_aset; lia. }
  split; cbn [set_entry with_tab cap hand]; [cbn; by rewrite zlen_aset|apply R|apply R|done|..].
  - intros j Hj. rewrite Hg, HIn by lia. case_decide as E; [subst; rewrite He1; by split; [intros [_ ?]|]|].
    rewrite (r_used _ _ _ _ R j Hj). by split; [intros [? _]|].
  - intros j [Hj _]%HIn. by apply R.
  - intros j Hj Hn. rewrite Hg by lia. case_decide as E; [done|]. apply R; [done|]. intros Hj'. apply Hn, HIn. done.
  - intros j Hj. rewrite Hg by lia. case_decide; [done|]. by apply R.
  - pose proof (r_ent _ _ _ _ R) as HF. apply Forall2_app_inv in HF as [HF1 HF2]; [|done]. inversion HF2; subst.
    assert (Forall2 (ent K m) (I1 ++ I2) (L1 ++ L2)) as HF by (by apply Forall2_app).
    eapply Forall2_impl_in; [exact HF|]. intros j x [Hj Hne]%HIn Hx.
    pose proof (r_range _ _ _ _ R j Hj). unfold ent in *. rewrite Hg by lia. rewrite decide_False by done.
    rewrite lookup_delete_ne; [done|]. intros E. apply Hne. by apply (r_inj _ _ _ _ R).
  - intros j k [Hj Hj']%HIn [Hk Hk']%HIn. pose proof (r_range _ _ _ _ R j Hj). pose proof (r_range _ _ _ _ R k Hk).
    rewrite !Hg by lia. rewrite !decide_False by done. by apply R.
  - intros p. rewrite dom_delete. intros [Hp Hpb]%elem_of_difference. destruct (r_cover _ _ _ _ R p Hp) as (j & Hj & E).
    assert (j ≠ i) by (intros ->; set_solver). pose proof (r_range _ _ _ _ R j Hj). exists j. split; [by apply HIn|].
    rewrite Hg by lia. by rewrite decide_False.
  - assert ((L1 ++ kd :: L2).*1 ≡ₚ kd.1 :: (L1 ++ L2).*1) as HL by (rewrite <- fmap_cons; by rewrite Permutation_middle).
    pose proof (r_keys _ _ _ _ R) as HK. rewrite HL in HK. by apply NoDup_cons in HK as [_ ?].
Qed.

(** A new entry with its block. *)
Lemma rep_add K m I L i p k d e :
  kv_rep K m I L → 0 ≤ i < K.(cap) → i ∉ I → 0 < p → m !! p = None → k ∉ L.*1 →
  cstr e.(key) = k → length e.(key) = 64%nat → e.(blob) = p → e.(len) = zlen d → e.(in_use) = true →
  kv_rep (set_entry K i e) (<[p := d]> m) (I ++ [i]) (L ++ [(k, d)]).
Proof.
  intros R Hi Hni Hp0 Hp Hk E1 E1' E2 E3 E4. pose proof (r_len _ _ _ _ R) as Hl.
  assert (∀ j, 0 ≤ j → (set_entry K i e).(tab).[j] = if decide (i = j) then e else K.(tab).[j]) as Hg.
  { intros j Hj. cbn. apply aget_aset; lia. }
  assert (∀ j, j ∈ I → j ≠ i) as Hne by (by intros j Hj ->).
  assert (∀ j, j ∈ I → (K.(tab).[j]).(blob) ≠ p) as Hnp.
  { intros j Hj. destruct (ent_of _ _ _ _ _ R Hj) as (kd & _ & _ & _ & Hm & _). congruence. }
  split; cbn [set_entry with_tab cap hand]; [cbn; by rewrite zlen_aset|apply R|apply R|..].
  - apply NoDup_app. split; [apply R|]. split; [|apply NoDup_singleton]. intros j Hj ->%list_elem_of_singleton. done.
  - intros j Hj. rewrite Hg, elem_of_app, list_elem_of_singleton by lia. case_decide as E.
    + subst j. rewrite E4. split; [done|by right].
    + rewrite (r_used _ _ _ _ R j Hj). split; [|by left]. by intros [?| ->].
  - intros j [Hj| ->%list_elem_of_singleton]%elem_of_app; [by apply R|done].
  - intros j Hj [Hn Hn']%not_elem_of_app. rewrite Hg by lia. rewrite decide_False; [by apply R|]. set_solver +Hn'.
  - intros j Hj. rewrite Hg by lia. case_decide; [done|]. by apply R.
  - apply Forall2_app.
    + eapply Forall2_impl_in; [apply R|]. intros j x Hj Hx.
      pose proof (r_range _ _ _ _ R j Hj). unfold ent in *. rewrite Hg by lia. rewrite decide_False by (by apply not_eq_sym, Hne).
      rewrite lookup_insert_ne; [done|]. by apply not_eq_sym, Hnp.
    + constructor; [|done]. unfold ent. rewrite Hg by lia. rewrite decide_True by done. cbn. rewrite E2, lookup_insert_eq. done.
  - intros j j' [Hj| ->%list_elem_of_singleton]%elem_of_app [Hj'| ->%list_elem_of_singleton]%elem_of_app; rewrite !Hg by first [lia | by apply R].
    + rewrite !decide_False by (by apply not_eq_sym, Hne). by apply R.
    + rewrite decide_False, decide_True by (done || by apply not_eq_sym, Hne). rewrite E2. intros E. by destruct (Hnp j).
    + rewrite decide_True, decide_False by (done || by apply not_eq_sym, Hne). rewrite E2. intros E. by destruct (Hnp j').
    + done.
  - intros q. rewrite dom_insert, elem_of_union, elem_of_singleton. intros [->|Hq].
    + exists i. split; [set_solver +|]. rewrite Hg by lia. by rewrite decide_True.
    + destruct (r_cover _ _ _ _ R q Hq) as (j & Hj & E). exists j. split; [set_solver +Hj|].
      pose proof (r_range _ _ _ _ R j Hj). rewrite Hg by lia. rewrite decide_False; [done|]. by apply not_eq_sym, Hne.
  - rewrite fmap_app. apply NoDup_app. split; [apply R|]. split; [|apply NoDup_singleton]. by intros x Hx ->%list_elem_of_singleton.
Qed.

Lemma rep_split K m I L i :
  kv_rep K m I L → i ∈ I → ∃ I1 I2 L1 kd L2, I = I1 ++ i :: I2 ∧ L = L1 ++ kd :: L2 ∧ length I1 = length L1 ∧ ent K m i kd.
Proof.
  intros R Hi. apply list_elem_of_lookup in Hi as [n Hn]. pose proof (r_ent _ _ _ _ R) as HF.
  destruct (Forall2_lookup_l _ _ _ _ _ HF Hn) as (kd & Hl & He).
  exists (take n I), (drop (S n) I), (take n L), kd, (drop (S n) L). rewrite !take_drop_middle by done.
  split; [done|]. split; [done|]. split; [|done]. rewrite !length_take. by rewrite (Forall2_length _ _ _ HF).
Qed.

Lemma find_from_spec n K k : ∀ i, 
  match find_from n K k i with
  | Some j => i ≤ j < i + Z.of_nat n ∧ (K.(tab).[j]).(in_use) = true ∧ cstr (K.(tab).[j]).(key) = k
  | None => ∀ j, i ≤ j < i + Z.of_nat n → (K.(tab).[j]).(in_use) = true → cstr (K.(tab).[j]).(key) ≠ k
  end.
Proof.
  induction n as [|n IH]; intros i; cbn [find_from]; [lia|].
  destruct (in_use (K.(tab).[i])) eqn:Eu; [case_bool_decide as Ek|]; cbn [andb].
  - split; [lia|done].
  - specialize (IH (i + 1)). destruct (find_from n K k (i + 1)); [split; [lia|apply IH]|].
    intros j Hj. destruct (decide (j = i)) as [->|]; [done|apply IH; lia].
  - specialize (IH (i + 1)). destruct (find_from n K k (i + 1)); [split; [lia|apply IH]|].
    intros j Hj. destruct (decide (j = i)) as [->|]; [congruence|apply IH; lia].
Qed.

Lemma kv_find_spec K m I L k :
  kv_rep K m I L →
  match kv_find K k with
  | Some i => ∃ I1 I2 L1 d L2, I = I1 ++ i :: I2 ∧ L = L1 ++ (k, d) :: L2 ∧ length I1 = length L1 ∧ ent K m i (k, d)
  | None => k ∉ L.*1
  end.
Proof.
  intros R. pose proof (r_cap _ _ _ _ R). unfold kv_find. pose proof (find_from_spec (Z.to_nat K.(cap)) K k 0) as Hf.
  destruct (find_from _ K k 0) as [i|].
  - destruct Hf as (Hi & Hu & Hk). assert (i ∈ I) as HI by (apply (r_used _ _ _ _ R); [lia|done]).
    destruct (rep_split _ _ _ _ _ R HI) as (I1 & I2 & L1 & [k' d] & L2 & EI & EL & Hlen & He).
    assert (k' = k) as -> by (destruct He as [E _]; cbn in E; congruence). by exists I1, I2, L1, d, L2.
  - intros (kd & -> & Hl)%list_elem_of_fmap. apply list_elem_of_lookup in Hl as [n Hn].
    destruct (Forall2_lookup_r _ _ _ _ _ (r_ent _ _ _ _ R) Hn) as (i & Hi & He & _). apply list_elem_of_lookup_2 in Hi.
    pose proof (r_range _ _ _ _ R i Hi). apply (Hf i); [lia|by apply (r_used _ _ _ _ R)|done].
Qed.

Lemma rep_unused K m I L i e :
  kv_rep K m I L → 0 ≤ i < K.(cap) → i ∉ I → e.(in_use) = false → e.(blob) = 0 → length e.(key) = 64%nat →
  kv_rep (set_entry K i e) m I L.
Proof.
  intros R Hi Hni He1 He2 He3. pose proof (r_len _ _ _ _ R) as Hl.
  assert (∀ j, 0 ≤ j → (set_entry K i e).(tab).[j] = if decide (i = j) then e else K.(tab).[j]) as Hg.
  { intros j Hj. cbn. apply aget_aset; lia. }
  assert (∀ j, j ∈ I → (set_entry K i e).(tab).[j] = K.(tab).[j]) as Hin.
  { intros j Hj. pose proof (r_range _ _ _ _ R j Hj). rewrite Hg by lia. apply decide_False. by intros ->. }
  split; cbn [set_entry with_tab cap hand]; [cbn; by rewrite zlen_aset|apply R|apply R|apply R|..].
  - intros j Hj. rewrite Hg by lia. case_decide as E; [subst; by rewrite He1|by apply R].
  - intros j Hj. by apply R.
  - intros j Hj Hn. rewrite Hg by lia. case_decide; [done|by apply R].
  - intros j Hj. rewrite Hg by lia. case_decide; [done|by apply R].
  - eapply Forall2_impl_in; [apply R|]. intros j x Hj Hx. unfold ent. by rewrite Hin.
  - intros j j' Hj Hj'. rewrite !Hin by done. by apply R.
  - intros p Hp. destruct (r_cover _ _ _ _ R p Hp) as (j & Hj & E). exists j. by rewrite Hin.
  - apply R.
Qed.

(** ** Blocks

    [B] are the other blocks of the heap, [m] the blobs of one table and [mf] those
    of the others. *)

Section proofs.
Context {H : Type} `{KH : KHeap H}.
Implicit Types s : store H.

Record own (B : gset Z) s (m mf : gmap Z (list Z)) : Prop := {
  o_rep : kh_rep s.(heap) (B ∪ dom s.(blobs));
  o_disj : B ## dom s.(blobs);
  o_pos p : p ∈ dom s.(blobs) → 0 < p;
  o_part : s.(blobs) = m ∪ mf;
  o_map : m ##ₘ mf;
}.

Lemma free_blob_spec B s m mf p :
  own B s m mf → p = 0 ∨ p ∈ dom m → ∃ s', free_blob s p = Ret s' ∧ own B s' (delete p m) mf.
Proof.
  intros [Hr Hd Hp Hpt Hm] [->|Hin]; unfold free_blob.
  - rewrite kfree_null. cbn [mbind outcome_bind]. eexists. split; [done|].
    assert (0 ∉ dom s.(blobs)) as H0 by (intros H0%Hp; lia).
    assert (m !! 0 = None) as Hm0 by (apply not_elem_of_dom; intros H1; apply H0; rewrite Hpt, dom_union; set_solver +H1).
    rewrite (delete_id _ _ Hm0), delete_id by (by apply not_elem_of_dom). by split.
  - assert (p ∈ dom s.(blobs)) as Hin' by (rewrite Hpt, dom_union; set_solver +Hin).
    destruct (kfree_spec _ _ p Hr ltac:(set_solver +Hin')) as (h & -> & Hr'). cbn [mbind outcome_bind]. eexists. split; [done|].
    assert (mf !! p = None) as Hmf by (apply not_elem_of_dom; apply map_disjoint_dom in Hm; set_solver +Hm Hin).
    split; cbn.
    + rewrite dom_delete_L. eapply eq_ind; [exact Hr'|]. set_solver +Hd Hin'.
    + rewrite dom_delete. set_solver +Hd.
    + intros q. rewrite dom_delete. intros [Hq _]%elem_of_difference. by apply Hp.
    + rewrite Hpt, delete_union. by rewrite (delete_id mf p).
    + by apply map_disjoint_delete_l.
Qed.

Lemma set_set K i e e' : set_entry (set_entry K i e) i e' = set_entry K i e'.
Proof. unfold set_entry, with_tab. cbn. f_equal. apply list_insert_insert_eq. Qed.

Lemma get_set K m I L i e : kv_rep K m I L → 0 ≤ i < K.(cap) → (set_entry K i e).(tab).[i] = e.
Proof. intros R Hi. cbn. apply aget_aset_eq. rewrite (r_len _ _ _ _ R). lia. Qed.

(** The last part of a [put], on the entry [e] that has the key [k]: [K0] is the
    table without that entry. *)
Lemma store_blob_spec B s K0 m mf I L i e k data :
  own B s m mf → kv_rep K0 (delete e.(blob) m) I L → e.(blob) = 0 ∨ e.(blob) ∈ dom m → 0 ≤ i < K0.(cap) → i ∉ I →
  cstr e.(key) = k → length e.(key) = 64%nat → e.(in_use) = true → k ∉ L.*1 → 0 < zlen data < 2 ^ 64 →
  ∃ s' K' rc m', store_blob s (set_entry K0 i e) i data = Ret (s', K', rc) ∧ own B s' m' mf ∧
    (rc = - ENOMEM ∧ kv_rep K' m' I L ∧ K' = set_entry K0 i (no_blob e) ∨
     rc = 0 ∧ kv_rep K' m' (I ++ [i]) (L ++ [(k, data)]) ∧ ∃ p, K' = set_entry K0 i (with_blob e p (zlen data))).
Proof.
  intros O R Hb Hi Hni Ek El Eu Hk Hd. unfold store_blob. rewrite (get_set K0 _ I L) by done.
  destruct (free_blob_spec B s m mf e.(blob) O Hb) as (s1 & -> & O1). cbn [mbind outcome_bind].
  destruct O1 as [Hr Hdj Hp Hpt Hm]. destruct (kmalloc_spec _ _ (zlen data) Hr ltac:(lia)) as (h & p & -> & Hmp). cbn [mbind outcome_bind].
  rewrite !set_set. destruct Hmp as [[-> Hr']|(Hp0 & _ & Hpn & Hr')].
  - cbn. eexists _, _, _, (delete e.(blob) m). split; [done|]. split; [by split|]. left. split; [done|]. split; [|done].
    apply rep_unused; done.
  - rewrite (proj2 (Z.eqb_neq p 0)) by lia.
    assert (s1.(blobs) !! p = None) as Hnp by (apply not_elem_of_dom; set_solver +Hpn).
    rewrite Hpt in Hnp. apply lookup_union_None in Hnp as [Hn1 Hn2].
    eexists _, _, _, (<[p := data]> (delete e.(blob) m)). split; [done|]. split.
    + split; cbn.
      * rewrite dom_insert_L. eapply eq_ind; [exact Hr'|]. set_solver +.
      * rewrite dom_insert. set_solver +Hdj Hpn.
      * intros q. rewrite dom_insert, elem_of_union, elem_of_singleton. intros [->|Hq]; [done|by apply Hp].
      * by rewrite Hpt, insert_union_l.
      * by apply map_disjoint_insert_l_2.
    + right. split; [done|]. split; [|by exists p]. by apply (rep_add K0 _ I L i p k data).
Qed.

Lemma wipe_used B s K m mf I1 i I2 L1 kd L2 :
  own B s m mf → kv_rep K m (I1 ++ i :: I2) (L1 ++ kd :: L2) → length I1 = length L1 →
  ∃ s', wipe s K i = Ret (s', set_entry K i zero_entry, i) ∧ own B s' (delete (K.(tab).[i]).(blob) m) mf ∧
    kv_rep (set_entry K i zero_entry) (delete (K.(tab).[i]).(blob) m) (I1 ++ I2) (L1 ++ L2).
Proof.
  intros O R Hlen. unfold wipe. destruct (ent_of _ _ _ _ i R ltac:(set_solver +)) as (x & _ & He).
  destruct (free_blob_spec B s m mf (K.(tab).[i]).(blob) O) as (s' & -> & O').
  { right. destruct He as (_ & _ & He & _). by eapply elem_of_dom_2. }
  exists s'. split; [done|]. split; [done|]. by apply (rep_drop K m I1 i I2 L1 kd L2).
Qed.

Lemma wipe_unused B s K m mf I L i :
  own B s m mf → kv_rep K m I L → 0 ≤ i < K.(cap) → i ∉ I →
  ∃ s', wipe s K i = Ret (s', set_entry K i zero_entry, i) ∧ own B s' m mf ∧ kv_rep (set_entry K i zero_entry) m I L.
Proof.
  intros O R Hi Hni. unfold wipe. rewrite (r_free _ _ _ _ R i Hi Hni).
  destruct (free_blob_spec B s m mf 0 O (or_introl eq_refl)) as (s' & -> & O'). exists s'. split; [done|].
  assert (m !! 0 = None) as H0.
  { apply not_elem_of_dom. intros H0. assert (0 < 0); [|lia]. apply (o_pos _ _ _ _ O). rewrite (o_part _ _ _ _ O), dom_union. set_solver +H0. }
  rewrite delete_id in O' by done. split; [done|]. by apply rep_unused.
Qed.

Definition same_shape (K K' : hms_kv_t) : Prop := K'.(self) = K.(self) ∧ K'.(tabp) = K.(tabp) ∧ K'.(cap) = K.(cap).

(** ** L1: the hand never finds a free slot, so slot 0 is the only one ever used *)

Lemma only_zero (I : list Z) : NoDup I → (∀ i, i ∈ I → i = 0) → I = [] ∨ I = [0].
Proof.
  intros Hnd Hz. destruct I as [|i I]; [by left|right]. rewrite (Hz i) by left. f_equal. destruct I as [|j I]; [done|].
  exfalso. apply NoDup_cons in Hnd as [Hni _]. apply Hni. rewrite (Hz i), (Hz j) by set_solver +. left.
Qed.

Lemma wipe_zero B s K m mf I L :
  own B s m mf → kv_rep K m I L → (∀ i, i ∈ I → i = 0) →
  ∃ s' m', wipe s K 0 = Ret (s', set_entry K 0 zero_entry, 0) ∧ own B s' m' mf ∧ kv_rep (set_entry K 0 zero_entry) m' [] [].
Proof.
  intros O R Hz. pose proof (r_cap _ _ _ _ R). destruct (only_zero I (r_nodup _ _ _ _ R) Hz) as [-> | ->].
  - pose proof (r_ent _ _ _ _ R) as HF. apply Forall2_nil_inv_l in HF as ->.
    destruct (wipe_unused B s K m mf [] [] 0 O R) as (s' & E & O' & R'); [lia|set_solver +|]. by exists s', m.
  - pose proof (r_ent _ _ _ _ R) as HF. apply Forall2_cons_inv_l in HF as (kd & L' & _ & HF & ->).
    apply Forall2_nil_inv_l in HF as ->.
    destruct (wipe_used B s K m mf [] 0 [] [] kd [] O R eq_refl) as (s' & E & O' & R'). by exists s', (delete (blob (tab K).[0]) m).
Qed.

Lemma clock_from_spec B n : ∀ s K m mf I L,
  own B s m mf → kv_rep K m I L → (∀ i, i ∈ I → i = 0) →
  ∃ s' K' m', clock_from n s K = Ret (s', K', 0) ∧ own B s' m' mf ∧ kv_rep K' m' [] [] ∧ same_shape K K' ∧
    (K'.(tab).[0]) = zero_entry.
Proof.
  induction n as [|n IH]; intros s K m mf I L O R Hz; cbn [clock_from].
  - destruct (wipe_zero B s K m mf I L O R Hz) as (s' & m' & -> & O' & R'). pose proof (r_cap _ _ _ _ R).
    eexists s', _, m'. split; [done|]. split; [done|]. split; [done|]. split; [done|]. apply (get_set K m I L); [done|lia].
  - pose proof (r_hand _ _ _ _ R) as Hh. set (i := K.(hand)) in *. set (h := (i + 1) mod K.(cap)).
    assert (0 ≤ h < K.(cap)) as Hh' by (apply Z.mod_pos_bound; lia).
    assert (kv_rep (with_hand K h) m I L) as R1 by (by apply (rep_meta K)).
    destruct (in_use (K.(tab).[i])) eqn:Eu; cbn [negb].
    + assert (i ∈ I) as Hi by (by apply (r_used _ _ _ _ R)). pose proof (Hz i Hi) as Ei.
      destruct (Z.eqb_spec (ref (K.(tab).[i])) 0) as [E0|_].
      * rewrite Ei. destruct (wipe_zero B s (with_hand K h) m mf I L O R1 Hz) as (s' & m' & -> & O' & R').
        eexists s', _, m'. split; [done|]. split; [done|]. split; [done|]. split; [done|]. apply (get_set (with_hand K h) m I L); [done|cbn; lia].
      * destruct (IH s (set_entry (with_hand K h) i (with_ref (K.(tab).[i]) 0)) m mf I L O) as (s' & K' & m' & E & O' & R' & Hs & Ez); [|done|].
        { apply (rep_set_meta K m I L i (with_ref (K.(tab).[i]) 0) h); done. }
        by exists s', K', m'.
    + destruct (IH s (with_hand K h) m mf I L O R1 Hz) as (s' & K' & m' & E & O' & R' & Hs & Ez). by exists s', K', m'.
Qed.

(** ** L2 and L3: time stamps *)

Definition tag (K : hms_kv_t) (i : Z) : Z := (K.(tab).[i]).(lru_tag).
Definition ordered (K : hms_kv_t) (I : list Z) : Prop :=
  StronglySorted (λ i j, tag K i < tag K j) I ∧ Forall (λ i, 0 ≤ tag K i ≤ K.(clock)) I.

Lemma ordered_ext K K' I :
  (∀ i, i ∈ I → tag K' i = tag K i) → K.(clock) ≤ K'.(clock) → ordered K I → ordered K' I.
Proof.
  intros Ht Hc [Hs Hf]. split.
  - clear Hf. induction Hs as [|i I Hs IH Hi]; constructor.
    + apply IH. intros j Hj. apply Ht. by right.
    + rewrite Forall_forall in *. intros j Hj. rewrite !Ht by (by left || by right). by apply Hi.
  - rewrite Forall_forall in *. intros i Hi. rewrite Ht by done. specialize (Hf i Hi). lia.
Qed.

Lemma ordered_mid K I1 i I2 : ordered K (I1 ++ i :: I2) → ordered K (I1 ++ I2).
Proof.
  intros [Hs Hf]. split.
  - clear Hf. induction I1 as [|j I1 IH]; cbn in *; [by apply StronglySorted_inv in Hs as [? _]|].
    apply StronglySorted_inv in Hs as [Hs Hj]. constructor; [by apply IH|]. rewrite !Forall_app, Forall_cons in *. tauto.
  - rewrite !Forall_app, Forall_cons in *. tauto.
Qed.

Lemma ordered_snoc K I i :
  ordered K I → (∀ j, j ∈ I → tag K j < tag K i) → 0 ≤ tag K i ≤ K.(clock) → ordered K (I ++ [i]).
Proof.
  intros [Hs Hf] Hi Ht. split.
  - clear Hf. induction I as [|j I IH]; cbn; [by repeat constructor|]. apply StronglySorted_inv in Hs as [Hs Hj].
    constructor; [apply IH; [done|intros k Hk; apply Hi; by right]|]. apply Forall_app. split; [done|]. constructor; [|done].
    apply Hi. left.
  - apply Forall_app. split; [done|]. by constructor.
Qed.

(** The smallest stamp is at the head. *)
Lemma ordered_head K i I j : ordered K (i :: I) → j ∈ i :: I → j ≠ i → tag K i < tag K j.
Proof.
  intros [Hs _] Hj Hne. apply StronglySorted_inv in Hs as [_ Hs]. rewrite Forall_forall in Hs. apply Hs.
  by apply elem_of_cons in Hj as [?|?].
Qed.

Lemma lru_from_spec n K m x I L : ∀ s i bi bt,
  kv_rep K m (x :: I) L → ordered K (x :: I) → K.(clock) < UINT64_MAX → (∀ j, 0 ≤ j < K.(cap) → j ∈ x :: I) →
  0 ≤ i → i + Z.of_nat n = K.(cap) →
  (x < i ∧ bi = x ∧ bt = tag K x ∨ i ≤ x ∧ tag K x < bt) →
  lru_from n s K i bi bt = wipe s K x.
Proof.
  induction n as [|n IH]; intros s i bi bt R Ho Hclk Hall Hi Hn Hb; cbn [lru_from].
  - pose proof (r_range _ _ _ _ R x ltac:(by left)). destruct Hb as [(_ & -> & _)|[? _]]; [|lia].
    by rewrite (proj2 (Z.ltb_lt _ _)) by lia.
  - assert (i ∈ x :: I) as HiI by (apply Hall; lia). assert (in_use (K.(tab).[i]) = true) as -> by (apply (r_used _ _ _ _ R); [lia|done]).
    cbn [negb]. fold (tag K i). destruct (decide (i = x)) as [->|Hne].
    + destruct Hb as [(? & _)|[_ Hlt]]; [lia|]. rewrite (proj2 (Z.ltb_lt _ _)) by lia. apply IH; [done|done|done|done|lia|lia|left; split; [lia|done]].
    + pose proof (ordered_head K x I i Ho HiI Hne) as Hlt. destruct Hb as [(Hx & -> & ->)|[Hx Hbt]].
      * rewrite (proj2 (Z.ltb_ge _ _)) by lia. apply IH; [done|done|done|done|lia|lia|left; split; [lia|done]].
      * destruct (Z.ltb_spec (tag K i) bt); (apply IH; [done|done|done|done|lia|lia|right; split; lia]).
Qed.

Lemma count_used_spec n K : ∀ i, count_used n K i = zlen (filter (λ j, (K.(tab).[j]).(in_use) = true) (seqZ i (Z.of_nat n))).
Proof.
  induction n as [|n IH]; intros i; cbn [count_used]; [done|].
  rewrite (seqZ_cons i (Z.of_nat (S n))) by lia. rewrite filter_cons. replace (Z.pred (Z.of_nat (S n))) with (Z.of_nat n) by lia.
  rewrite IH. change (i + 1) with (Z.succ i). destruct (in_use (K.(tab).[i])).
  - rewrite decide_True by done. rewrite zlen_cons. lia.
  - rewrite decide_False by done. lia.
Qed.

Lemma count_used_len K m I L : kv_rep K m I L → count_used (Z.to_nat K.(cap)) K 0 = zlen L.
Proof.
  intros R. pose proof (r_cap _ _ _ _ R). rewrite count_used_spec, Z2Nat.id by lia. unfold zlen. f_equal.
  rewrite <- (Forall2_length _ _ _ (r_ent _ _ _ _ R)). apply Permutation_length, NoDup_Permutation.
  - apply NoDup_filter, NoDup_seqZ.
  - apply R.
  - intros j. rewrite list_elem_of_filter, elem_of_seqZ. split.
    + intros [Hu Hj]. apply (r_used _ _ _ _ R); [lia|done].
    + intros Hj. pose proof (r_range _ _ _ _ R j Hj). split; [by apply (r_used _ _ _ _ R)|lia].
Qed.

Lemma all_used K m I L : kv_rep K m I L → K.(cap) ≤ zlen L → ∀ j, 0 ≤ j < K.(cap) → j ∈ I.
Proof.
  intros R Hl j Hj. destruct (decide (j ∈ I)) as [|Hn]; [done|]. exfalso.
  assert (Z.of_nat (length (j :: I)) ≤ Z.max 0 K.(cap)) as Hle.
  { apply NoDup_range_length; [constructor; [done|apply R]|]. intros i [->|Hi]%elem_of_cons; [done|by apply R]. }
  pose proof (Forall2_length _ _ _ (r_ent _ _ _ _ R)). unfold zlen in Hl. cbn in Hle. lia.
Qed.

Lemma first_free_spec K m I L n : ∀ i,
  kv_rep K m I L → 0 ≤ i → i + Z.of_nat n = K.(cap) → (∀ j, 0 ≤ j < i → j ∈ I) → zlen L < K.(cap) →
  ∃ j, first_free n K i = Ret j ∧ 0 ≤ j < K.(cap) ∧ j ∉ I.
Proof.
  induction n as [|n IH]; intros i R Hi Hn Hin Hlt; cbn [first_free].
  - exfalso. assert (Permutation (seqZ 0 K.(cap)) I) as HP.
    { apply NoDup_Permutation; [apply NoDup_seqZ|apply R|]. intros j. rewrite elem_of_seqZ. split; [intros Hj; apply Hin; lia|].
      intros Hj%(r_range _ _ _ _ R). lia. }
    apply Permutation_length in HP. rewrite length_seqZ in HP.
    pose proof (Forall2_length _ _ _ (r_ent _ _ _ _ R)). unfold zlen in Hlt. lia.
  - destruct (in_use (K.(tab).[i])) eqn:Eu; cbn [negb].
    + apply IH; try done; try lia. intros j Hj. destruct (decide (j = i)) as [->|]; [|apply Hin; lia].
      apply (r_used _ _ _ _ R); [lia|done].
    + exists i. split; [done|]. split; [lia|]. rewrite (r_used _ _ _ _ R) by lia. by rewrite Eu.
Qed.

(** ** Least-recently-used lists

    The specification of a table of [n] entries: a list of bindings, the one
    that was used last at the end. *)

Fixpoint assoc (k : list Z) (L : list (list Z * list Z)) : option (list Z) :=
  match L with [] => None | (k', d) :: L => if decide (k' = k) then Some d else assoc k L end.
Definition remove_key (k : list Z) (L : list (list Z * list Z)) := filter (λ x, x.1 ≠ k) L.
(** Room for [k]: its own binding goes, or, when the list is full, the oldest. *)
Definition room (n : Z) (k : list Z) (L : list (list Z * list Z)) :=
  let L := remove_key k L in if decide (zlen L < n) then L else tail L.

Lemma remove_absent k L : k ∉ L.*1 → assoc k L = None ∧ remove_key k L = L.
Proof.
  unfold remove_key. induction L as [|[k' d] L IH]; intros Hk; [done|]. cbn in Hk. apply not_elem_of_cons in Hk as [Hne Hk].
  destruct (IH Hk) as [E1 E2]. cbn [assoc]. rewrite decide_False by done. rewrite filter_cons_True by (cbn; done). by rewrite E2.
Qed.

Lemma assoc_mid k d L1 L2 :
  NoDup (L1 ++ (k, d) :: L2).*1 → assoc k (L1 ++ (k, d) :: L2) = Some d ∧ remove_key k (L1 ++ (k, d) :: L2) = L1 ++ L2.
Proof.
  rewrite fmap_app, fmap_cons. intros (_ & Hd & [Hn _]%NoDup_cons)%NoDup_app.
  assert (k ∉ L1.*1) as Hn1 by (intros Hk; apply (Hd k Hk); left).
  destruct (remove_absent k L1 Hn1) as [E1 E1'], (remove_absent k L2 Hn) as [E2 E2']. unfold remove_key in *. split.
  - clear -E1 Hn1. induction L1 as [|[k' d'] L1 IH]; cbn; [by rewrite decide_True|]. cbn in Hn1. apply not_elem_of_cons in Hn1 as [Hne Hn1].
    rewrite decide_False by done. apply IH; [done|]. cbn in E1. by rewrite decide_False in E1.
  - rewrite filter_app, filter_cons_False by (cbn; tauto). by rewrite E1', E2'.
Qed.

Lemma set_self K m I L i e : kv_rep K m I L → 0 ≤ i < K.(cap) → set_entry (set_entry K i e) i (K.(tab).[i]) = K.
Proof.
  intros R Hi. rewrite set_set. unfold set_entry, with_tab. pose proof (aget_lookup K.(tab) i ltac:(rewrite (r_len _ _ _ _ R); lia)) as E.
  destruct K. cbn in *. f_equal. by apply list_insert_id.
Qed.

(** How a [put] finds the entry to write, given what [evict] does on a miss: the
    entry [e] at [i] has the key, and the table without it is [K0]. *)
Record picked B (K : hms_kv_t) (k : list Z) s (K0 : hms_kv_t) m mf I L (i : Z) (e : kv_entry_t) : Prop := {
  p_own : own B s m mf;
  p_rep : kv_rep K0 (delete e.(blob) m) I L;
  p_blob : e.(blob) = 0 ∨ e.(blob) ∈ dom m;
  p_i : 0 ≤ i < K0.(cap);
  p_new : i ∉ I;
  p_key : cstr e.(key) = k;
  p_klen : length e.(key) = 64%nat;
  p_use : e.(in_use) = true;
  p_absent : k ∉ L.*1;
  p_shape : same_shape K K0;
}.

Lemma pick_found B s K m mf I1 i I2 L1 k d L2 :
  own B s m mf → kv_rep K m (I1 ++ i :: I2) (L1 ++ (k, d) :: L2) → length I1 = length L1 → ent K m i (k, d) →
  picked B K k s (set_entry K i (no_blob (K.(tab).[i]))) m mf (I1 ++ I2) (L1 ++ L2) i (K.(tab).[i]) ∧
  set_entry (set_entry K i (no_blob (K.(tab).[i]))) i (K.(tab).[i]) = K.
Proof.
  intros O R Hlen (E1 & E2 & E3 & E4). assert (i ∈ I1 ++ i :: I2) as Hi by set_solver +. pose proof (r_range _ _ _ _ R i Hi) as Hir.
  split; [|by eapply set_self]. pose proof (r_nodup _ _ _ _ R) as Hnd. pose proof (r_keys _ _ _ _ R) as Hks. split.
  - done.
  - apply (rep_drop K m I1 i I2 L1 (k, d) L2); try done. cbn. by apply R.
  - right. by eapply elem_of_dom_2.
  - done.
  - rewrite <- Permutation_middle in Hnd. by apply NoDup_cons in Hnd as [? _].
  - done.
  - by apply R.
  - by apply (r_used _ _ _ _ R).
  - rewrite fmap_app, fmap_cons, <- Permutation_middle in Hks. rewrite fmap_app. by apply NoDup_cons in Hks as [? _].
  - done.
Qed.

Lemma pick_new B s K K0 m mf I L i k :
  own B s m mf → kv_rep K0 m I L → 0 ≤ i < K0.(cap) → i ∉ I → k ∉ L.*1 → is_cstr k → (length k < 64)%nat → same_shape K K0 →
  ∃ a, strncpy_term (K0.(tab).[i]).(key) k = Ret a ∧ picked B K k s K0 m mf I L i (with_key (K0.(tab).[i]) a).
Proof.
  intros O R Hi Hni Hk Hc Hlen Hs. pose proof (r_key _ _ _ _ R i Hi) as El.
  destruct (strncpy_term_spec (K0.(tab).[i]).(key) k Hc ltac:(lia)) as (a & E & Ela & Ea). exists a. split; [done|].
  rewrite El in Ea, Ela. rewrite take_ge in Ea by lia. pose proof (r_free _ _ _ _ R i Hi Hni) as E0.
  assert (m !! 0 = None) as Hm0.
  { apply not_elem_of_dom. intros H0. assert (0 < 0); [|lia]. apply (o_pos _ _ _ _ O). rewrite (o_part _ _ _ _ O), dom_union. set_solver +H0. }
  split; cbn; rewrite ?E0; try done; [|by left]. by rewrite delete_id.
Qed.

(** The entry that a new key gets in L2 and L3. *)
Lemma lru_pick B s K m mf I L k :
  own B s m mf → kv_rep K m I L → ordered K I → K.(clock) < UINT64_MAX → k ∉ L.*1 → is_cstr k → (length k < 64)%nat →
  ∃ s' K0 m' I' i,
    (if count_used (Z.to_nat K.(cap)) K 0 >=? K.(cap) then lru_evict s K
     else i ← first_free (Z.to_nat K.(cap)) K 0; Ret (s, K, i)) = Ret (s', K0, i) ∧
    ordered K0 I' ∧ K0.(clock) = K.(clock) ∧
    ∃ a, strncpy_term (K0.(tab).[i]).(key) k = Ret a ∧
      picked B K k s' K0 m' mf I' (room K.(cap) k L) i (with_key (K0.(tab).[i]) a).
Proof.
  intros O R Ho Hclk Hk Hc Hlen. rewrite (count_used_len K m I L R). pose proof (r_cap _ _ _ _ R) as Hcap.
  unfold room. rewrite (proj2 (remove_absent k L Hk)). destruct (Z.geb_spec (zlen L) K.(cap)) as [Hfull|Hroom].
  - rewrite decide_False by lia. pose proof (all_used K m I L R Hfull) as Hall.
    destruct I as [|x I]; [by destruct (not_elem_of_nil 0 (Hall 0 ltac:(lia)))|].
    destruct L as [|kd L]; [by pose proof (r_ent _ _ _ _ R) as HF; inversion HF|].
    unfold lru_evict. pose proof (r_range _ _ _ _ R x ltac:(by left)) as Hx.
    assert (tag K x ≤ K.(clock)) as Htx by (destruct Ho as [_ Hf]; rewrite Forall_forall in Hf; apply Hf; by left).
    rewrite (lru_from_spec (Z.to_nat K.(cap)) K m x I (kd :: L)); [|done|done|done|done|lia|lia|right; split; lia].
    destruct (wipe_used B s K m mf [] x I [] kd L O R eq_refl) as (s' & -> & O' & R').
    pose proof (r_nodup _ _ _ _ R) as Hnd. apply NoDup_cons in Hnd as [Hni _].
    eexists s', _, _, I, x. split; [done|]. split.
    { apply (ordered_ext K); [|done|by apply (ordered_mid K [] x I)]. intros j Hj. unfold tag. cbn.
      rewrite aget_aset; [rewrite decide_False; [done|by intros ->]|rewrite (r_len _ _ _ _ R); lia|].
      pose proof (r_range _ _ _ _ R j ltac:(by right)). lia. }
    split; [done|]. cbn [tail]. apply (pick_new B s' K (set_entry K x zero_entry) _ mf I L x k O' R'); try done.
    cbn in Hk. by apply not_elem_of_cons in Hk as [_ ?].
  - rewrite decide_True by lia.
    destruct (first_free_spec K m I L (Z.to_nat K.(cap)) 0 R) as (i & -> & Hi & Hni); [lia|lia|lia|lia|].
    cbn [mbind outcome_bind]. exists s, K, m, I, i. split; [done|]. split; [done|]. split; [done|].
    by apply (pick_new B s K K m mf I L i k).
Qed.

(** The rest of [tier_put]. *)
Lemma tier_finish B s K K0 m mf I L i e k data :
  picked B K k s K0 m mf I L i e → ordered K0 I → 0 ≤ K0.(clock) < UINT64_MAX → 0 < zlen data < 2 ^ 64 →
  ∃ s' K' m' I' (ok : bool),
    (r ← store_blob s (set_entry K0 i e) i data;
     let '(s, L, rc) := r in
     if rc =? 0 then
       let L := with_clock L (u64 (L.(clock) + 1)) in
       Ret (s, Some (set_entry L i (with_tag (L.(tab).[i]) L.(clock))), 0)
     else Ret (s, Some L, rc)) = Ret (s', Some K', if ok then 0 else - ENOMEM) ∧
    own B s' m' mf ∧ kv_rep K' m' I' (if ok then L ++ [(k, data)] else L) ∧ ordered K' I' ∧ same_shape K K' ∧
    K0.(clock) ≤ K'.(clock) ≤ K0.(clock) + 1.
Proof.
  intros [O R Hb Hi Hni Ek El Eu Hk Hs] Ho Hclk Hd.
  destruct (store_blob_spec B s K0 m mf I L i e k data) as (s' & K' & rc & m' & -> & O' & [(-> & R' & EK)|(-> & R' & p & EK)]); try done;
    cbn [mbind outcome_bind]; pose proof (r_len _ _ _ _ R) as Hl.
  - exists s', K', m', I, false. split; [done|]. split; [done|]. split; [done|]. subst K'. split; [|split; [done|cbn; lia]].
    apply (ordered_ext K0); [|done|done]. intros j Hj. unfold tag. cbn. pose proof (r_range _ _ _ _ R j Hj).
    rewrite aget_aset by lia. rewrite decide_False; [done|by intros ->].
  - cbn [Z.eqb]. set (K1 := with_clock K' (u64 (clock K' + 1))).
    assert (clock K' = K0.(clock)) as Eclk by (by rewrite EK). assert (clock K1 = K0.(clock) + 1) as Eclk1.
    { unfold K1. cbn. rewrite Eclk. apply wrap_id. unfold UINT64_MAX in Hclk. lia. }
    exists s', (set_entry K1 i (with_tag (K1.(tab).[i]) K1.(clock))), m', (I ++ [i]), true.
    assert (zlen K'.(tab) = K0.(cap)) as El' by (rewrite EK; cbn; by rewrite zlen_aset).
    split; [done|]. split; [done|]. split.
    { apply (rep_meta K'); [cbn; by rewrite zlen_aset|done| | |exact R'].
      - apply R'.
      - intros j Hj. assert (cap K' = K0.(cap)) as Ec by (by rewrite EK). rewrite Ec in Hj. cbn. rewrite aget_aset by lia.
        case_decide; [by subst|done]. }
    split; [|split; [unfold K1; rewrite EK; exact Hs|cbn [set_entry with_tab clock]; lia]].
    assert (∀ j, 0 ≤ j < K0.(cap) → tag (set_entry K1 i (with_tag (K1.(tab).[i]) K1.(clock))) j = if decide (i = j) then K0.(clock) + 1 else tag K0 j) as Htag.
    { intros j Hj. unfold tag at 1. cbn [set_entry with_tab tab]. rewrite aget_aset by (unfold K1; cbn; lia). case_decide as E; [exact Eclk1|].
      unfold K1. cbn. rewrite EK. cbn. rewrite aget_aset by lia. by rewrite decide_False. }
    assert (∀ j, j ∈ I → tag (set_entry K1 i (with_tag (K1.(tab).[i]) K1.(clock))) j = tag K0 j) as Htag'.
    { intros j Hj. rewrite Htag by (by apply R). rewrite decide_False; [done|by intros ->]. }
    apply ordered_snoc.
    + apply (ordered_ext K0); [done|cbn [set_entry with_tab clock]; lia|done].
    + intros j Hj. rewrite Htag' by done. rewrite Htag by lia. rewrite decide_True by done.
      destruct Ho as [_ Hf]. rewrite Forall_forall in Hf. specialize (Hf j Hj). cbn in Hf. lia.
    + rewrite Htag by lia. rewrite decide_True by done. cbn [set_entry with_tab clock]. lia.
Qed.

Definition key_ok (k : list Z) : Prop := is_cstr k ∧ (length k < 64)%nat.

Lemma room_present n k d L1 L2 :
  NoDup (L1 ++ (k, d) :: L2).*1 → zlen (L1 ++ (k, d) :: L2) ≤ n → room n k (L1 ++ (k, d) :: L2) = L1 ++ L2.
Proof.
  intros Hnd Hn. unfold room. rewrite (proj2 (assoc_mid k d L1 L2 Hnd)). apply decide_True.
  rewrite zlen_app in *. rewrite zlen_cons in Hn. lia.
Qed.

Lemma rep_length K m I L : kv_rep K m I L → zlen L ≤ K.(cap).
Proof.
  intros R. pose proof (r_cap _ _ _ _ R). unfold zlen. rewrite <- (Forall2_length _ _ _ (r_ent _ _ _ _ R)).
  pose proof (NoDup_range_length I K.(cap) (r_nodup _ _ _ _ R) (r_range _ _ _ _ R)). lia.
Qed.

Lemma tier_put_spec B s K m mf I L k data :
  own B s m mf → kv_rep K m I L → ordered K I → 0 ≤ K.(clock) < UINT64_MAX → key_ok k → 0 < zlen data < 2 ^ 64 →
  ∃ s' K' m' I' (ok : bool),
    tier_put s (Some K) k data = Ret (s', Some K', if ok then 0 else - ENOMEM) ∧
    own B s' m' mf ∧ kv_rep K' m' I' (if ok then room K.(cap) k L ++ [(k, data)] else room K.(cap) k L) ∧
    ordered K' I' ∧ same_shape K K' ∧ K.(clock) ≤ K'.(clock) ≤ K.(clock) + 1.
Proof.
  intros O R Ho Hclk [Hc Hlen] Hd. unfold tier_put. pose proof (kv_find_spec K m I L k R) as Hf.
  destruct (kv_find K k) as [i|].
  - destruct Hf as (I1 & I2 & L1 & d & L2 & -> & -> & Hl & He). cbn [mbind outcome_bind].
    destruct (pick_found B s K m mf I1 i I2 L1 k d L2 O R Hl He) as [P E].
    destruct (tier_finish B s K _ m mf (I1 ++ I2) (L1 ++ L2) i _ k data P) as (s' & K' & m' & I' & ok & E' & Hres); [|done|done|].
    { apply (ordered_ext K); [|done|by apply (ordered_mid K I1 i I2)]. intros j Hj.
      assert (j ∈ I1 ++ i :: I2) as Hj' by set_solver +Hj. pose proof (r_range _ _ _ _ R j Hj').
      pose proof (r_range _ _ _ _ R i ltac:(set_solver +)). unfold tag. cbn. rewrite aget_aset by (rewrite ?(r_len _ _ _ _ R); lia).
      case_decide; [by subst|done]. }
    rewrite E in E'. exists s', K', m', I', ok. split; [exact E'|].
    by rewrite (room_present K.(cap) k d L1 L2 (r_keys _ _ _ _ R) (rep_length _ _ _ _ R)).
  - destruct (lru_pick B s K m mf I L k O R Ho ltac:(lia) Hf Hc Hlen) as (s1 & K0 & m1 & I1 & i & -> & Ho1 & Eclk & a & Ea & P).
    cbn [mbind outcome_bind]. rewrite Ea. cbn [mbind outcome_bind].
    destruct (tier_finish B s1 K K0 m1 mf I1 _ i _ k data P Ho1) as (s' & K' & m' & I' & ok & E' & Hres); [lia|done|].
    rewrite Eclk in Hres. exists s', K', m', I', ok. split; [exact E'|done].
Qed.

Definition prefix (n : Z) (d : list Z) : list Z := take (Z.to_nat (Z.min n (zlen d))) d.

Lemma read_blob_spec B s m mf K i kd n :
  own B s m mf → ent K m i kd → 0 ≤ n →
  read_blob s (K.(tab).[i]) (if n <? (K.(tab).[i]).(len) then n else (K.(tab).[i]).(len)) = Ret (prefix n kd.2).
Proof.
  intros O (_ & _ & E3 & E4) Hn. unfold read_blob. rewrite (o_part _ _ _ _ O), (lookup_union_Some_l _ _ _ _ E3), E4.
  unfold prefix. destruct (Z.ltb_spec n (zlen kd.2)); rewrite (proj2 (Z.leb_le _ _)) by lia; do 3 f_equal; lia.
Qed.

Lemma tier_get_spec B s c K m mf I L h k n :
  own B s m mf → kv_rep K m I L → ordered K I → 0 ≤ K.(clock) < UINT64_MAX → 0 ≤ n →
  match assoc k L with
  | None => tier_get s c (Some K) h k n = Ret (with_misses c (u64 (c.(misses) + 1)), Some K, h, - ENOENT, [])
  | Some d => ∃ K' I', tier_get s c (Some K) h k n = Ret (c, Some K', u64 (h + 1), 0, prefix n d) ∧
      kv_rep K' m I' (remove_key k L ++ [(k, d)]) ∧ ordered K' I' ∧ same_shape K K' ∧ K.(clock) ≤ K'.(clock) ≤ K.(clock) + 1
  end.
Proof.
  intros O R Ho Hclk Hn. unfold tier_get. pose proof (kv_find_spec K m I L k R) as Hf. destruct (kv_find K k) as [i|].
  - destruct Hf as (I1 & I2 & L1 & d & L2 & -> & -> & Hl & He).
    destruct (assoc_mid k d L1 L2 (r_keys _ _ _ _ R)) as [-> ->]. rewrite (read_blob_spec B s m mf K i (k, d) n O He Hn).
    cbn [mbind outcome_bind snd]. set (K1 := with_clock K (u64 (K.(clock) + 1))).
    assert (K1.(clock) = K.(clock) + 1) as Ec by (apply wrap_id; unfold UINT64_MAX in Hclk; lia).
    pose proof (r_range _ _ _ _ R i ltac:(set_solver +)) as Hi. pose proof (r_len _ _ _ _ R) as Elen.
    exists (set_entry K1 i (with_tag (K.(tab).[i]) K1.(clock))), (I1 ++ I2 ++ [i]). split; [done|].
    assert (∀ j, 0 ≤ j < K.(cap) → (set_entry K1 i (with_tag (K.(tab).[i]) K1.(clock))).(tab).[j] =
      if decide (i = j) then with_tag (K.(tab).[i]) K1.(clock) else K.(tab).[j]) as Hg by (intros j Hj; apply aget_aset; unfold K1; cbn; lia).
    split; [|split; [|split; [done|cbn [set_entry with_tab clock]; lia]]].
    + rewrite <- app_assoc. apply rep_move; [done|]. apply (rep_meta K); [cbn; by rewrite zlen_aset|done|apply R| |done].
      intros j Hj. rewrite Hg by done. case_decide; [by subst|done].
    + pose proof (r_nodup _ _ _ _ R) as Hnd. rewrite <- Permutation_middle in Hnd. apply NoDup_cons in Hnd as [Hni _].
      assert (∀ j, j ∈ I1 ++ I2 → tag (set_entry K1 i (with_tag (K.(tab).[i]) K1.(clock))) j = tag K j) as Htag.
      { intros j Hj. unfold tag. rewrite Hg by (apply R; set_solver +Hj). rewrite decide_False; [done|by intros ->]. }
      assert (tag (set_entry K1 i (with_tag (K.(tab).[i]) K1.(clock))) i = K.(clock) + 1) as Eti.
      { unfold tag. rewrite Hg by done. rewrite decide_True by done. exact Ec. }
      pose proof (ordered_mid K I1 i I2 Ho) as Hom. rewrite app_assoc. apply ordered_snoc.
      * apply (ordered_ext K); [done|cbn [set_entry with_tab clock]; lia|done].
      * intros j Hj. rewrite Htag, Eti by done. destruct Hom as [_ Hf]. rewrite Forall_forall in Hf. specialize (Hf j Hj). cbn in Hf. lia.
      * rewrite Eti. cbn [set_entry with_tab clock]. lia.
  - by rewrite (proj1 (remove_absent k L Hf)).
Qed.

(** L1 as a list of at most one binding. *)
Lemma only_one K m I L : kv_rep K m I L → (∀ i, i ∈ I → i = 0) → L = [] ∨ ∃ kd, L = [kd] ∧ I = [0].
Proof.
  intros R Hz. pose proof (r_ent _ _ _ _ R) as HF. destruct (only_zero I (r_nodup _ _ _ _ R) Hz) as [-> | ->]; inversion HF as [|? kd ? L' ? HF']; subst; [by left|].
  apply Forall2_nil_inv_l in HF' as ->. right. by exists kd.
Qed.

Lemma l1_put_spec B s c K m mf I L k data :
  own B s m mf → c.(l1_private) = Some K → kv_rep K m I L → (∀ i, i ∈ I → i = 0) → key_ok k → 0 < zlen data < 2 ^ 64 →
  ∃ s' K' m' I' (ok : bool),
    hms_cache_l1_put s c k data = Ret (s', with_l1 c (Some K') c.(hits_l1), if ok then 0 else - ENOMEM) ∧
    own B s' m' mf ∧ kv_rep K' m' I' (if ok then room 1 k L ++ [(k, data)] else room 1 k L) ∧
    (∀ i, i ∈ I' → i = 0) ∧ same_shape K K'.
Proof.
  intros O Ec R Hz [Hc Hlen] Hd. unfold hms_cache_l1_put. rewrite Ec. rewrite (proj2 (Z.eqb_neq _ 0)) by lia.
  assert (∃ s1 K1 K0 m1 i e,
    match kv_find K k with
    | Some i => Ret (s, K, i)
    | None =>
        r ← l1_evict s K; let '(s, L, i) := r in
        a ← strncpy_term (L.(tab).[i]).(key) k; Ret (s, set_entry L i (with_key (L.(tab).[i]) a), i)
    end = Ret (s1, K1, i) ∧ K1 = set_entry K0 i e ∧ i = 0 ∧ picked B K k s1 K0 m1 mf [] [] i e ∧ room 1 k L = []) as
    (s1 & K1 & K0 & m1 & i & e & -> & -> & Ei & P & Er).
  { pose proof (kv_find_spec K m I L k R) as Hf. destruct (only_one K m I L R Hz) as [->|(kd & -> & ->)].
    - destruct (kv_find K k) as [i|]; [destruct Hf as (? & ? & ? & ? & ? & _ & E & _); by destruct (app_cons_not_nil _ _ _ E)|].
      unfold l1_evict. destruct (clock_from_spec B (Z.to_nat (u32 (K.(cap) * 2))) s K m mf I [] O R Hz) as (s' & K' & m' & -> & O' & R' & Hs & Ez).
      cbn [mbind outcome_bind]. pose proof (r_cap _ _ _ _ R').
      destruct (pick_new B s' K K' m' mf [] [] 0 k O' R') as (a & -> & P); [lia|set_solver +|set_solver +|done|done|done|].
      by eexists s', _, K', m', 0, _.
    - destruct (kv_find K k) as [i|].
      + destruct Hf as (I1 & I2 & L1 & d & L2 & EI & EL & Hl & He).
        destruct I1 as [|? I1]; [|by destruct I1]. destruct L1 as [|? L1]; [|done]. cbn in EI, EL. injection EI as <- <-. injection EL as -> <-.
        destruct (pick_found B s K m mf [] 0 [] [] k d [] O R eq_refl He) as [P E].
        eexists s, K, _, m, 0, _. split; [done|]. split; [symmetry; exact E|]. split; [done|]. split; [exact P|].
        apply (room_present 1 k d [] []); [apply R|done].
      + unfold l1_evict. destruct (clock_from_spec B (Z.to_nat (u32 (K.(cap) * 2))) s K m mf [0] [kd] O R Hz) as (s' & K' & m' & -> & O' & R' & Hs & Ez).
        cbn [mbind outcome_bind]. pose proof (r_cap _ _ _ _ R').
        destruct (pick_new B s' K K' m' mf [] [] 0 k O' R') as (a & -> & P); [lia|set_solver +|set_solver +|done|done|done|].
        eexists s', _, K', m', 0, _. split; [done|]. split; [done|]. split; [done|]. split; [done|].
        unfold room. by rewrite (proj2 (remove_absent k [kd] Hf)). }
  cbn [mbind outcome_bind]. rewrite Er. destruct P as [O1 R1 Hb Hi Hni Ek El Eu Hk Hs].
  destruct (store_blob_spec B s1 K0 m1 mf [] [] i e k data) as (s' & K' & rc & m' & -> & O' & [(-> & R' & EK)|(-> & R' & p & EK)]); try done; cbn [mbind outcome_bind].
  - exists s', K', m', [], false. split; [done|]. split; [done|]. split; [done|]. split; [set_solver +|]. by subst K'.
  - cbn [Z.eqb app] in *. eexists s', _, m', [i], true. split; [done|]. split; [done|]. split.
    + apply (rep_set_meta K' m' [i] _ i (with_ref (K'.(tab).[i]) 1) K'.(hand)); [done|apply R'; by left|done|apply R'].
    + split; [intros j ->%list_elem_of_singleton; done|]. by subst K'.
Qed.

Lemma l1_get_spec B s c K m mf I L k n :
  own B s m mf → c.(l1_private) = Some K → kv_rep K m I L → (∀ i, i ∈ I → i = 0) → 0 ≤ n →
  match assoc k L with
  | None => hms_cache_l1_get s c k n = Ret (with_misses c (u64 (c.(misses) + 1)), - ENOENT, [])
  | Some d => ∃ K', hms_cache_l1_get s c k n = Ret (with_l1 c (Some K') (u64 (c.(hits_l1) + 1)), 0, prefix n d) ∧
      kv_rep K' m I (remove_key k L ++ [(k, d)]) ∧ same_shape K K'
  end.
Proof.
  intros O Ec R Hz Hn. unfold hms_cache_l1_get. rewrite Ec. pose proof (kv_find_spec K m I L k R) as Hf.
  destruct (only_one K m I L R Hz) as [->|(kd & -> & ->)]; (destruct (kv_find K k) as [i|]; [|by rewrite (proj1 (remove_absent k _ Hf))]);
    destruct Hf as (I1 & I2 & L1 & d & L2 & EI & EL & Hl & He); [by destruct (app_cons_not_nil _ _ _ EL)|].
  destruct I1 as [|? I1]; [|by destruct I1]. destruct L1 as [|? L1]; [|done]. cbn in EI, EL. injection EI as <- <-. injection EL as -> <-.
  destruct (assoc_mid k d [] [] ltac:(apply R)) as [E1 E2]. cbn [app] in E1, E2. rewrite E1, E2.
  rewrite (read_blob_spec B s m mf K 0 (k, d) n O He Hn). cbn [mbind outcome_bind snd app]. eexists. split; [done|]. split; [|done].
  apply (rep_set_meta K m [0] _ 0 (with_ref (K.(tab).[0]) 1) K.(hand)); [done|apply R; by left|done|apply R].
Qed.

(** ** The cache as a whole *)

Inductive cop :=
  | L1Get (k : list Z) (n : Z) | L1Put (k data : list Z) | L2Get (k : list Z) (n : Z) | L2Put (k data : list Z)
  | L3Get (k : list Z) (n : Z) | L3Put (k data : list Z).
Definition op_ok (op : cop) : Prop :=
  match op with
  | L1Get _ n | L2Get _ n | L3Get _ n => 0 ≤ n
  | L1Put k data | L2Put k data | L3Put k data => key_ok k ∧ zlen data < 2 ^ 64
  end.

Definition cstep s (c : hms_cache_t) (op : cop) : outcome (store H * hms_cache_t * (Z * list Z)) :=
  match op with
  | L1Get k n => r ← hms_cache_l1_get s c k n; let '(c, rc, out) := r in Ret (s, c, (rc, out))
  | L2Get k n => r ← hms_cache_l2_get s c k n; let '(c, rc, out) := r in Ret (s, c, (rc, out))
  | L3Get k n => r ← hms_cache_l3_get s c k n; let '(c, rc, out) := r in Ret (s, c, (rc, out))
  | L1Put k d => r ← hms_cache_l1_put s c k d; let '(s, c, rc) := r in Ret (s, c, (rc, []))
  | L2Put k d => r ← hms_cache_l2_put s c k d; let '(s, c, rc) := r in Ret (s, c, (rc, []))
  | L3Put k d => r ← hms_cache_l3_put s c k d; let '(s, c, rc) := r in Ret (s, c, (rc, []))
  end.
Fixpoint crun s (c : hms_cache_t) (ops : list cop) : outcome (store H * hms_cache_t * list (Z * list Z)) :=
  match ops with
  | [] => Ret (s, c, [])
  | op :: ops =>
      r ← cstep s c op; let '(s, c, x) := r in
      r ← crun s c ops; let '(s, c, xs) := r in Ret (s, c, x :: xs)
  end.

(** A tier is a least-recently-used list, or missing when [hms_cache_init] had no
    memory for it; [ok] says whether the memory for the data was there. *)
Definition tier := option (list (list Z * list Z)).
Definition spec_get (t : tier) (k : list Z) (n : Z) : tier * (Z * list Z) :=
  match t with
  | None => (t, (- EINVAL, []))
  | Some L => match assoc k L with
              | None => (t, (- ENOENT, []))
              | Some d => (Some (remove_key k L ++ [(k, d)]), (0, prefix n d))
              end
  end.
Definition spec_put (n : Z) (t : tier) (k d : list Z) (ok : bool) : tier * (Z * list Z) :=
  match t with
  | None => (t, (- EINVAL, []))
  | Some L => if zlen d =? 0 then (t, (- EINVAL, []))
              else (Some (if ok then room n k L ++ [(k, d)] else room n k L), (if ok then 0 else - ENOMEM, []))
  end.
Definition cspec (A : tier * tier * tier) (op : cop) (ok : bool) : tier * tier * tier * (Z * list Z) :=
  let '(t1, t2, t3) := A in
  match op with
  | L1Get k n => let '(t, r) := spec_get t1 k n in (t, t2, t3, r)
  | L2Get k n => let '(t, r) := spec_get t2 k n in (t1, t, t3, r)
  | L3Get k n => let '(t, r) := spec_get t3 k n in (t1, t2, t, r)
  | L1Put k d => let '(t, r) := spec_put 1 t1 k d ok in (t, t2, t3, r)
  | L2Put k d => let '(t, r) := spec_put 256 t2 k d ok in (t1, t, t3, r)
  | L3Put k d => let '(t, r) := spec_put 512 t3 k d ok in (t1, t2, t, r)
  end.
Fixpoint cspec_run (A : tier * tier * tier) (ops : list (cop * bool)) : tier * tier * tier * list (Z * list Z) :=
  match ops with
  | [] => (A, [])
  | (op, ok) :: ops => let '(A, x) := cspec A op ok in let '(A, xs) := cspec_run A ops in (A, x :: xs)
  end.

Definition tier_rep (n clk : Z) (p : option hms_kv_t) (m : gmap Z (list Z)) (t : tier) (fx : gset Z) : Prop :=
  match p, t with
  | None, None => m = ∅ ∧ fx = ∅
  | Some K, Some L => K.(cap) = n ∧ fx = {[K.(self); K.(tabp)]} ∧ K.(self) ≠ K.(tabp) ∧
      ∃ I, kv_rep K m I L ∧ ordered K I ∧ 0 ≤ K.(clock) ≤ clk
  | _, _ => False
  end.
Definition l1_rep (p : option hms_kv_t) (m : gmap Z (list Z)) (t : tier) (fx : gset Z) : Prop :=
  match p, t with
  | None, None => m = ∅ ∧ fx = ∅
  | Some K, Some L => fx = {[K.(self); K.(tabp)]} ∧ K.(self) ≠ K.(tabp) ∧
      ∃ I, kv_rep K m I L ∧ ∀ i, i ∈ I → i = 0
  | _, _ => False
  end.

Record cache_rep (B : gset Z) (clk : Z) (c : hms_cache_t) (A : tier * tier * tier) s (f1 f2 f3 : gset Z) (m1 m2 m3 : gmap Z (list Z)) : Prop := {
  c_own : own B s m1 (m2 ∪ m3);
  c_dis : m2 ##ₘ m3;
  c_l1 : l1_rep c.(l1_private) m1 A.1.1 f1;
  c_l2 : tier_rep 256 clk c.(l2_private) m2 A.1.2 f2;
  c_l3 : tier_rep 512 clk c.(l3_private) m3 A.2 f3;
}.

Lemma own_swap B s a b c : own B s a (b ∪ c) → b ##ₘ c → own B s b (a ∪ c) ∧ a ##ₘ c.
Proof.
  intros [H1 H2 H3 H4 H5] Hbc. apply map_disjoint_union_r in H5 as [Hab Hac]. split; [|done]. split; [done|done|done| |].
  - rewrite H4, !map_union_assoc. by rewrite (map_union_comm a b).
  - apply map_disjoint_union_r. done.
Qed.

Lemma own_third B s a b c : own B s a (b ∪ c) → b ##ₘ c → own B s c (a ∪ b) ∧ a ##ₘ b.
Proof. intros O Hbc. rewrite (map_union_comm b c) in O by done. by apply own_swap. Qed.

Lemma own_third_back B s a b c : own B s c (a ∪ b) → a ##ₘ b → own B s a (b ∪ c) ∧ b ##ₘ c.
Proof. intros O Hab. destruct (own_swap B s c a b O Hab) as [O' Hcb]. by rewrite map_union_comm in O'. Qed.

(** One call on L2 or L3. *)
Lemma tier_get_refines B s c n0 clk p m mf t fx h k n :
  own B s m mf → tier_rep n0 clk p m t fx → clk < UINT64_MAX → 0 ≤ n →
  ∃ c' p' h', tier_get s c p h k n = Ret (c', p', h', (spec_get t k n).2.1, (spec_get t k n).2.2) ∧
    tier_rep n0 (clk + 1) p' m (spec_get t k n).1 fx ∧
    (c' = c ∨ c' = with_misses c (u64 (c.(misses) + 1))).
Proof.
  intros O T Hclk Hn. destruct p as [K|], t as [L|]; try done; [|exists c, None, h; split; [done|]; split; [done|by left]].
  destruct T as (Ecap & Efx & Hne & I & R & Ho & Hk). cbn [spec_get]. pose proof (tier_get_spec B s c K m mf I L h k n O R Ho ltac:(lia) Hn) as Hg.
  destruct (assoc k L) as [d|].
  - destruct Hg as (K' & I' & -> & R' & Ho' & (S1 & S2 & S3) & Hk'). eexists _, _, _. split; [done|]. cbn. split; [|by left].
    rewrite S1, S2, S3. split; [done|]. split; [done|]. split; [done|]. exists I'. split; [done|]. split; [done|lia].
  - rewrite Hg. eexists _, _, _. split; [done|]. cbn. split; [|by right]. split; [done|]. split; [done|]. split; [done|].
    exists I. split; [done|]. split; [done|lia].
Qed.

Lemma tier_put_refines B s n0 clk p m mf t fx k d :
  own B s m mf → tier_rep n0 clk p m t fx → clk < UINT64_MAX → key_ok k → 0 < zlen d < 2 ^ 64 →
  ∃ s' p' m' ok, tier_put s p k d = Ret (s', p', (spec_put n0 t k d ok).2.1) ∧
    own B s' m' mf ∧ tier_rep n0 (clk + 1) p' m' (spec_put n0 t k d ok).1 fx.
Proof.
  intros O T Hclk Hk Hd. destruct p as [K|], t as [L|]; try done; [|exists s, None, m, true; split; [done|]; by split].
  destruct T as (Ecap & Efx & Hne & I & R & Ho & Hc).
  destruct (tier_put_spec B s K m mf I L k d O R Ho ltac:(lia) Hk Hd) as (s' & K' & m' & I' & ok & -> & O' & R' & Ho' & (S1 & S2 & S3) & Hc').
  exists s', (Some K'), m', ok. cbn [spec_put]. rewrite (proj2 (Z.eqb_neq _ 0)) by lia. split; [done|]. split; [done|]. cbn [fst tier_rep].
  rewrite S1, S2, S3. split; [done|]. split; [done|]. split; [done|]. exists I'. rewrite Ecap in R'. split; [done|]. split; [done|lia].
Qed.

Lemma tier_rep_mono n0 clk p m t fx : tier_rep n0 clk p m t fx → tier_rep n0 (clk + 1) p m t fx.
Proof.
  destruct p as [K|], t as [L|]; try done. intros (Ecap & Efx & Hne & I & R & Ho & Hc). split; [done|]. split; [done|]. split; [done|].
  exists I. split; [done|]. split; [done|lia].
Qed.

Lemma spec_put_empty n0 t k d ok : zlen d = 0 → spec_put n0 t k d ok = (t, (- EINVAL, [])).
Proof. intros E. destruct t; cbn; [|done]. by rewrite E. Qed.

Lemma cstep_l1 B clk c A s f1 f2 f3 m1 m2 m3 op :
  cache_rep B clk c A s f1 f2 f3 m1 m2 m3 → clk < UINT64_MAX → op_ok op →
  match op with L1Get _ _ | L1Put _ _ => True | _ => False end →
  ∃ s' c' m1' ok, cstep s c op = Ret (s', c', (cspec A op ok).2) ∧
    cache_rep B (clk + 1) c' (cspec A op ok).1 s' f1 f2 f3 m1' m2 m3.
Proof.
  intros [O Hd T1 T2 T3] Hclk Hop Hl1. destruct A as [[t1 t2] t3]. cbn [fst snd] in *.
  apply tier_rep_mono in T2, T3. destruct op as [k n|k d| | | |]; try done; cbn [cstep cspec].
  - destruct (l1_private c) as [K|] eqn:Ec, t1 as [L|]; try done.
    + destruct T1 as (Ef & Hne & I & R & Hz). pose proof (l1_get_spec B s c K m1 _ I L k n O Ec R Hz Hop) as Hg. cbn [spec_get].
      destruct (assoc k L) as [d|].
      * destruct Hg as (K' & -> & R' & S1 & S2 & S3). cbn [mbind outcome_bind]. eexists s, _, m1, true. split; [done|].
        split; [done|done| |done|done]. cbn. rewrite S1, S2. split; [done|]. split; [done|]. by exists I.
      * rewrite Hg. cbn [mbind outcome_bind]. eexists s, _, m1, true. split; [done|]. split; [done|done| |done|done].
        cbn. rewrite Ec. split; [done|]. split; [done|]. by exists I.
    + unfold hms_cache_l1_get. rewrite Ec. cbn. eexists s, c, m1, true. split; [done|]. split; [done|done| |done|done]. cbn. by rewrite Ec.
  - destruct Hop as [Hk Hlen]. pose proof (zlen_nonneg d). destruct (l1_private c) as [K|] eqn:Ec, t1 as [L|]; try done.
    + destruct T1 as (Ef & Hne & I & R & Hz). destruct (decide (zlen d = 0)) as [E0|].
      { unfold hms_cache_l1_put. rewrite Ec, E0. cbn [Z.eqb mbind outcome_bind]. exists s, c, m1, true. rewrite spec_put_empty by done.
        split; [done|]. split; [done|done| |done|done]. cbn. rewrite Ec. split; [done|]. split; [done|]. by exists I. }
      destruct (l1_put_spec B s c K m1 _ I L k d O Ec R Hz Hk ltac:(lia)) as (s' & K' & m' & I' & ok & -> & O' & R' & Hz' & S1 & S2 & S3).
      cbn [mbind outcome_bind]. eexists s', _, m', ok. cbn [spec_put]. rewrite (proj2 (Z.eqb_neq _ 0)) by done. split; [done|].
      split; [done|done| |done|done]. cbn. rewrite S1, S2. split; [done|]. split; [done|]. by exists I'.
    + unfold hms_cache_l1_put. rewrite Ec. cbn. exists s, c, m1, true. split; [done|]. split; [done|done| |done|done]. cbn. by rewrite Ec.
Qed.

Lemma cstep_refines B clk c A s f1 f2 f3 m1 m2 m3 op :
  cache_rep B clk c A s f1 f2 f3 m1 m2 m3 → clk < UINT64_MAX → op_ok op →
  ∃ s' c' m1' m2' m3' ok, cstep s c op = Ret (s', c', (cspec A op ok).2) ∧
    cache_rep B (clk + 1) c' (cspec A op ok).1 s' f1 f2 f3 m1' m2' m3'.
Proof.
  intros HR Hclk Hop. destruct op as [k n|k d|k n|k d|k n|k d].
  1, 2: destruct (cstep_l1 B clk c A s f1 f2 f3 m1 m2 m3 _ HR Hclk Hop I) as (s' & c' & m1' & ok & E & HR'); by exists s', c', m1', m2, m3, ok.
  all: destruct HR as [O Hd T1 T2 T3], A as [[t1 t2] t3]; cbn [fst snd] in *; pose proof (tier_rep_mono _ _ _ _ _ _ T2) as T2';
    pose proof (tier_rep_mono _ _ _ _ _ _ T3) as T3'; destruct (own_swap _ _ _ _ _ O Hd) as [O2 Hd2], (own_third _ _ _ _ _ O Hd) as [O3 Hd3].
  - destruct (tier_get_refines B s c 256 clk _ m2 _ t2 f2 c.(hits_l2) k n O2 T2 Hclk Hop) as (c' & p' & h' & E & T & Hc).
    cbn [cstep]. unfold hms_cache_l2_get. rewrite E. cbn [mbind outcome_bind cspec]. destruct (spec_get t2 k n) as [t [rc out]].
    eexists s, _, m1, m2, m3, true. split; [done|]. split; [done|done| |exact T|]; destruct Hc as [-> | ->]; done.
  - destruct Hop as [Hk Hlen]. pose proof (zlen_nonneg d). cbn [cstep]. unfold hms_cache_l2_put. destruct (Z.eqb_spec (zlen d) 0) as [E0|].
    { eexists s, c, m1, m2, m3, true. cbn [mbind outcome_bind cspec]. rewrite spec_put_empty by done. split; [done|]. by split. }
    destruct (tier_put_refines B s 256 clk _ m2 _ t2 f2 k d O2 T2 Hclk Hk ltac:(lia)) as (s' & p' & m' & ok & E & O' & T).
    rewrite E. cbn [mbind outcome_bind cspec]. destruct (own_swap _ _ _ _ _ O' Hd2) as [O1 Hd1].
    eexists s', _, m1, m', m3, ok. assert ((spec_put 256 t2 k d ok).2.2 = []) as Eo by (unfold spec_put; by repeat case_match).
    destruct (spec_put 256 t2 k d ok) as [t [rc out]]. cbn in Eo. subst out. split; [done|]. by split.
  - destruct (tier_get_refines B s c 512 clk _ m3 _ t3 f3 c.(hits_l3) k n O3 T3 Hclk Hop) as (c' & p' & h' & E & T & Hc).
    cbn [cstep]. unfold hms_cache_l3_get. rewrite E. cbn [mbind outcome_bind cspec]. destruct (spec_get t3 k n) as [t [rc out]].
    eexists s, _, m1, m2, m3, true. split; [done|]. split; [done|done| | |exact T]; destruct Hc as [-> | ->]; done.
  - destruct Hop as [Hk Hlen]. pose proof (zlen_nonneg d). cbn [cstep]. unfold hms_cache_l3_put. destruct (Z.eqb_spec (zlen d) 0) as [E0|].
    { eexists s, c, m1, m2, m3, true. cbn [mbind outcome_bind cspec]. rewrite spec_put_empty by done. split; [done|]. by split. }
    destruct (tier_put_refines B s 512 clk _ m3 _ t3 f3 k d O3 T3 Hclk Hk ltac:(lia)) as (s' & p' & m' & ok & E & O' & T).
    rewrite E. cbn [mbind outcome_bind cspec]. destruct (own_third_back _ _ _ _ _ O' Hd3) as [O1 Hd1].
    eexists s', _, m1, m2, m', ok. assert ((spec_put 512 t3 k d ok).2.2 = []) as Eo by (unfold spec_put; by repeat case_match).
    destruct (spec_put 512 t3 k d ok) as [t [rc out]]. cbn in Eo. subst out. split; [done|]. by split.
Qed.

Lemma crun_refines B f1 f2 f3 ops : ∀ clk c A s m1 m2 m3,
  cache_rep B clk c A s f1 f2 f3 m1 m2 m3 → clk + Z.of_nat (length ops) < UINT64_MAX → Forall op_ok ops →
  ∃ s' c' m1' m2' m3' oks, let r := cspec_run A (zip ops oks) in
    crun s c ops = Ret (s', c', r.2) ∧ length oks = length ops ∧
    cache_rep B (clk + Z.of_nat (length ops)) c' r.1 s' f1 f2 f3 m1' m2' m3'.
Proof.
  induction ops as [|op ops IH]; intros clk c A s m1 m2 m3 HR Hclk Hops.
  - exists s, c, m1, m2, m3, []. cbn. split; [done|]. split; [done|]. by rewrite Z.add_0_r.
  - apply Forall_cons in Hops as [Hop Hops]. cbn [crun length] in *.
    destruct (cstep_refines B clk c A s f1 f2 f3 m1 m2 m3 op HR ltac:(lia) Hop) as (s1 & c1 & n1 & n2 & n3 & ok & -> & HR1).
    cbn [mbind outcome_bind]. destruct (IH (clk + 1) c1 _ s1 n1 n2 n3 HR1 ltac:(lia) Hops) as (s2 & c2 & k1 & k2 & k3 & oks & -> & Hlen & HR2).
    cbn [mbind outcome_bind]. exists s2, c2, k1, k2, k3, (ok :: oks). cbn [zip zip_with cspec_run length].
    destruct (cspec A op ok) as [A1 x]. cbn [fst snd] in *. change (zip_with pair ops oks) with (zip ops oks).
    destruct (cspec_run A1 (zip ops oks)) as [A2 xs]. cbn [fst snd] in *. split; [done|]. split; [by f_equal|].
    by replace (clk + Z.of_nat (S (length ops))) with (clk + 1 + Z.of_nat (length ops)) by lia.
Qed.

(** ** Creation and destruction *)

Lemma rep_fresh p t n : 0 < n ≤ 630 →
  kv_rep {| self := p; tabp := t; tab := replicate (Z.to_nat n) zero_entry; cap := n; hand := 0; clock := 0 |} ∅ [] [].
Proof.
  intros Hn. assert (∀ i, 0 ≤ i < n → (replicate (Z.to_nat n) zero_entry).[i] = zero_entry) as Hg by (intros i Hi; apply aget_replicate; lia).
  split; cbn [tab cap hand].
  - unfold zlen. rewrite length_replicate. lia.
  - done.
  - lia.
  - constructor.
  - intros i Hi. rewrite Hg by done. split; [by intros ?%not_elem_of_nil|done].
  - by intros i ?%not_elem_of_nil.
  - intros i Hi _. by rewrite Hg.
  - intros i Hi. by rewrite Hg.
  - constructor.
  - by intros i j ?%not_elem_of_nil.
  - intros q. by rewrite dom_empty.
  - constructor.
Qed.

Lemma init_tier_spec B s n :
  kh_rep s.(heap) B → 0 < n < 2 ^ 32 →
  ∃ s' p fx, init_tier s n = Ret (s', p) ∧ s'.(blobs) = s.(blobs) ∧ kh_rep s'.(heap) (fx ∪ B) ∧ fx ## B ∧
    match p with
    | None => fx = ∅
    | Some K => K.(cap) = n ∧ fx = {[K.(self); K.(tabp)]} ∧ K.(self) ≠ K.(tabp) ∧ K.(clock) = 0 ∧ kv_rep K ∅ [] []
    end.
Proof.
  intros Hr Hn. unfold init_tier. destruct (kcalloc_spec _ _ 1 SIZEOF_KV Hr ltac:(done) ltac:(done)) as (h & p & -> & Hp).
  cbn [mbind outcome_bind]. destruct Hp as [[-> Hr1]|(Hp0 & _ & Hp & Hr1)].
  { eexists _, None, ∅. split; [done|]. split; [done|]. split; [cbn; by rewrite union_empty_l_L|]. split; [set_solver +|done]. }
  rewrite (proj2 (Z.eqb_neq p 0)) by lia.
  destruct (kcalloc_spec _ _ n SIZEOF_KV_ENTRY Hr1 ltac:(lia) ltac:(done)) as (h2 & t & -> & Ht). cbn [mbind outcome_bind].
  destruct Ht as [[-> Hr2]|(Ht0 & Hsz & Ht & Hr2)].
  { cbn. destruct (kfree_spec _ _ p Hr2 ltac:(set_solver +)) as (h3 & -> & Hr3). cbn. eexists _, None, ∅. split; [done|]. split; [done|].
    split; [|split; [set_solver +|done]]. cbn. eapply eq_ind; [exact Hr3|]. set_solver +Hp. }
  rewrite (proj2 (Z.eqb_neq t 0)) by lia. eexists _, (Some _), {[p; t]}. split; [done|]. split; [done|]. split; [|split; [set_solver +Hp Ht|]].
  - cbn. eapply eq_ind; [exact Hr2|]. set_solver +.
  - split; [done|]. split; [done|]. split; [cbn; set_solver +Ht|]. split; [done|]. apply rep_fresh.
    unfold SIZEOF_KV_ENTRY, KMALLOC_MAX in Hsz. lia.
Qed.

Lemma destroy_from_spec B mf K n : ∀ s m i,
  own B s m mf →
  (∀ j, i ≤ j < i + Z.of_nat n → (K.(tab).[j]).(blob) = 0 ∨ (K.(tab).[j]).(blob) ∈ dom m) →
  (∀ j j', i ≤ j < i + Z.of_nat n → i ≤ j' < i + Z.of_nat n → (K.(tab).[j]).(blob) ≠ 0 → (K.(tab).[j]).(blob) = (K.(tab).[j']).(blob) → j = j') →
  (∀ p, p ∈ dom m → ∃ j, i ≤ j < i + Z.of_nat n ∧ (K.(tab).[j]).(blob) = p) →
  ∃ s', destroy_from n s K i = Ret s' ∧ own B s' ∅ mf.
Proof.
  induction n as [|n IH]; intros s m i O Hb Hinj Hcov.
  - exists s. split; [done|]. assert (m = ∅) as ->; [|done]. apply (dom_empty_inv_L (D:=gset Z)).
    apply elem_of_equiv_empty_L. intros p (j & Hj & _)%Hcov. lia.
  - cbn [destroy_from]. destruct (free_blob_spec B s m mf (K.(tab).[i]).(blob) O (Hb i ltac:(lia))) as (s1 & -> & O1).
    cbn [mbind outcome_bind]. apply (IH s1 _ (i + 1) O1).
    + intros j Hj. destruct (Hb j ltac:(lia)) as [?|Hin]; [by left|]. destruct (decide ((K.(tab).[j]).(blob) = 0)); [by left|right].
      rewrite dom_delete. apply elem_of_difference. split; [done|]. rewrite elem_of_singleton. intros E.
      pose proof (Hinj j i ltac:(lia) ltac:(lia) ltac:(done) E). lia.
    + intros j j' Hj Hj'. apply Hinj; lia.
    + intros p. rewrite dom_delete. intros [Hp Hne]%elem_of_difference. destruct (Hcov p Hp) as (j & Hj & E).
      exists j. split; [|done]. assert (j ≠ i) by (intros ->; set_solver +E Hne). lia.
Qed.

Lemma own_free B s m mf p :
  own ({[p]} ∪ B) s m mf → p ∉ B → ∃ h, kfree s.(heap) p = Ret h ∧ own B {| heap := h; blobs := s.(blobs) |} m mf.
Proof.
  intros [Hr Hd Hp Hpt Hm] Hn. destruct (kfree_spec _ _ p Hr ltac:(set_solver +)) as (h & -> & Hr'). exists h. split; [done|].
  split; cbn; [|set_solver +Hd|done|done|done]. eapply eq_ind; [exact Hr'|]. set_solver +Hn Hd.
Qed.

Lemma destroy_tier_spec B s K m mf I L :
  own ({[K.(self); K.(tabp)]} ∪ B) s m mf → K.(self) ≠ K.(tabp) → {[K.(self); K.(tabp)]} ## B → kv_rep K m I L →
  ∃ s', destroy_tier s (Some K) = Ret s' ∧ own B s' ∅ mf.
Proof.
  intros O Hne Hd R. pose proof (r_cap _ _ _ _ R) as Hcap. cbn [destroy_tier]. unfold kv_destroy.
  destruct (destroy_from_spec _ mf K (Z.to_nat K.(cap)) s m 0 O) as (s1 & -> & O1).
  - intros j Hj. destruct (decide (j ∈ I)) as [Hin|Hn]; [right|left; apply (r_free _ _ _ _ R); [lia|done]].
    destruct (ent_of _ _ _ _ _ R Hin) as (kd & _ & _ & _ & Hm & _). by eapply elem_of_dom_2.
  - intros j j' Hj Hj' H0 E. assert (j ∈ I) as Hin.
    { destruct (decide (j ∈ I)) as [|Hn]; [done|]. destruct H0. apply (r_free _ _ _ _ R); [lia|done]. }
    assert (j' ∈ I) as Hin'.
    { destruct (decide (j' ∈ I)) as [|Hn]; [done|]. destruct H0. rewrite E. apply (r_free _ _ _ _ R); [lia|done]. }
    by apply (r_inj _ _ _ _ R).
  - intros p Hp. destruct (r_cover _ _ _ _ R p Hp) as (j & Hj & E). exists j. pose proof (r_range _ _ _ _ R j Hj). split; [lia|done].
  - cbn [mbind outcome_bind]. assert ({[K.(self); K.(tabp)]} ∪ B = {[K.(tabp)]} ∪ ({[K.(self)]} ∪ B)) as EB by set_solver +.
    rewrite EB in O1. destruct (own_free _ _ _ _ _ O1 ltac:(set_solver +Hne Hd)) as (h & -> & O2). cbn [mbind outcome_bind].
    destruct (own_free _ _ _ _ _ O2 ltac:(set_solver +Hd)) as (h2 & -> & O3). cbn [mbind outcome_bind].
    eexists. split; [done|exact O3].
Qed.

Lemma destroy_l1 B s p m mf t fx :
  own (fx ∪ B) s m mf → fx ## B → l1_rep p m t fx → ∃ s', destroy_tier s p = Ret s' ∧ own B s' ∅ mf.
Proof.
  intros O Hd T. destruct p as [K|], t as [L|]; try done.
  - destruct T as (-> & Hne & I & R & _). by eapply destroy_tier_spec.
  - destruct T as [-> ->]. rewrite union_empty_l_L in O. by exists s.
Qed.

Lemma destroy_lru B s n clk p m mf t fx :
  own (fx ∪ B) s m mf → fx ## B → tier_rep n clk p m t fx → ∃ s', destroy_tier s p = Ret s' ∧ own B s' ∅ mf.
Proof.
  intros O Hd T. destruct p as [K|], t as [L|]; try done.
  - destruct T as (_ & -> & Hne & I & R & _). by eapply destroy_tier_spec.
  - destruct T as [-> ->]. rewrite union_empty_l_L in O. by exists s.
Qed.

Definition fresh_tier (p : option hms_kv_t) : tier := match p with Some _ => Some [] | None => None end.

Lemma init_spec F (h : H) slots :
  kh_rep h F → 0 ≤ slots < 2 ^ 32 →
  ∃ s c f1 f2 f3, hms_cache_init {| heap := h; blobs := ∅ |} slots = Ret (s, c) ∧
    cache_rep (f3 ∪ (f2 ∪ (f1 ∪ F))) 0 c (fresh_tier c.(l1_private), fresh_tier c.(l2_private), fresh_tier c.(l3_private)) s f1 f2 f3 ∅ ∅ ∅ ∧
    f1 ## F ∧ f2 ## f1 ∪ F ∧ f3 ## f2 ∪ (f1 ∪ F).
Proof.
  intros Hr Hs. unfold hms_cache_init. set (n := if slots =? 0 then 32 else slots).
  assert (0 < n < 2 ^ 32) as Hn by (unfold n; destruct (Z.eqb_spec slots 0); lia).
  destruct (init_tier_spec F {| heap := h; blobs := ∅ |} n Hr Hn) as (s1 & p1 & f1 & -> & B1 & R1 & D1 & T1). cbn [mbind outcome_bind].
  destruct (init_tier_spec _ s1 256 R1 ltac:(done)) as (s2 & p2 & f2 & -> & B2 & R2 & D2 & T2). cbn [mbind outcome_bind].
  destruct (init_tier_spec _ s2 512 R2 ltac:(done)) as (s3 & p3 & f3 & -> & B3 & R3 & D3 & T3). cbn [mbind outcome_bind].
  assert (s3.(blobs) = ∅) as Eb by (by rewrite B3, B2, B1).
  eexists s3, _, f1, f2, f3. split; [done|]. split; [|done].
  assert (∀ n p fx, match p with None => fx = ∅ | Some K => K.(cap) = n ∧ fx = {[K.(self); K.(tabp)]} ∧ K.(self) ≠ K.(tabp) ∧ K.(clock) = 0 ∧ kv_rep K ∅ [] [] end →
    tier_rep n 0 p ∅ (fresh_tier p) fx) as Ht.
  { intros n0 [K|] fx Hp; [|done]. destruct Hp as (E1 & E2 & E3 & E4 & E5). split; [done|]. split; [done|]. split; [done|].
    exists []. split; [done|]. split; [by repeat constructor|lia]. }
  split; cbn [l1_private l2_private l3_private fst snd].
  - split.
    + rewrite Eb, dom_empty_L. by rewrite union_empty_r_L.
    + rewrite Eb, dom_empty_L. set_solver +.
    + rewrite Eb. intros p. by rewrite dom_empty.
    + rewrite Eb. by rewrite !map_union_empty.
    + apply map_disjoint_empty_l.
  - apply map_disjoint_empty_l.
  - destruct p1 as [K|]; [|done]. destruct T1 as (E1 & E2 & E3 & E4 & E5). split; [done|]. split; [done|].
    exists []. split; [done|]. by intros i ?%not_elem_of_nil.
  - by apply Ht.
  - by apply Ht.
Qed.

Lemma hms_destroy_spec F clk c A s f1 f2 f3 m1 m2 m3 :
  cache_rep (f3 ∪ (f2 ∪ (f1 ∪ F))) clk c A s f1 f2 f3 m1 m2 m3 →
  f1 ## F → f2 ## f1 ∪ F → f3 ## f2 ∪ (f1 ∪ F) →
  ∃ s' c', hms_cache_destroy s c = Ret (s', c') ∧ kh_rep s'.(heap) F ∧ s'.(blobs) = ∅ ∧
    c'.(l1_private) = None ∧ c'.(l2_private) = None ∧ c'.(l3_private) = None.
Proof.
  intros [O Hd T1 T2 T3] D1 D2 D3. unfold hms_cache_destroy.
  assert (f3 ∪ (f2 ∪ (f1 ∪ F)) = f1 ∪ (f2 ∪ (f3 ∪ F))) as EB by set_solver +. rewrite EB in O.
  destruct (destroy_l1 (f2 ∪ (f3 ∪ F)) s _ m1 _ _ f1 O ltac:(set_solver +D1 D2 D3) T1) as (s1 & -> & O1). cbn [mbind outcome_bind].
  destruct (own_swap _ _ _ _ _ O1 Hd) as [O2 Hd2].
  destruct (destroy_lru (f3 ∪ F) s1 _ clk _ m2 _ _ f2 O2 ltac:(set_solver +D1 D2 D3) T2) as (s2 & -> & O3). cbn [mbind outcome_bind].
  rewrite map_empty_union in O3. destruct O3 as [a1 a2 a3 a4 a5]. rewrite map_empty_union in a4.
  assert (own (f3 ∪ F) s2 m3 ∅) as O4 by (split; [done|done|done|by rewrite map_union_empty|apply map_disjoint_empty_r]).
  destruct (destroy_lru F s2 _ clk _ m3 _ _ f3 O4 ltac:(set_solver +D1 D2 D3) T3) as (s3 & -> & O5). cbn [mbind outcome_bind].
  destruct O5 as [b1 b2 b3 b4 b5]. rewrite map_union_empty in b4. rewrite b4, dom_empty_L, union_empty_r_L in b1.
  eexists s3, _. done.
Qed.

(** C7: over any kernel heap, from [hms_cache_init] to [hms_cache_destroy], for keys
    shorter than 64 bytes (a longer one is cut when it is stored and never found
    again), each tier answers like a list in least-recently-used order: a hit returns the bytes
    that the last [put] of the key stored, cut to the caller's buffer, and makes
    the key the newest; a [put] replaces the binding of its key, or drops the
    oldest one when L2 holds 256, L3 512 or L1 a single binding; without memory a
    [put] returns [-ENOMEM] and the key is gone. The tiers do not disturb each
    other, and [hms_cache_destroy] gives back every block. *)
Theorem hms_cache_refines F (h : H) slots ops :
  kh_rep h F → 0 ≤ slots < 2 ^ 32 → Forall op_ok ops → Z.of_nat (length ops) < UINT64_MAX →
  ∃ s c s1 c1 oks s2 c2, hms_cache_init {| heap := h; blobs := ∅ |} slots = Ret (s, c) ∧
    let r := cspec_run (fresh_tier c.(l1_private), fresh_tier c.(l2_private), fresh_tier c.(l3_private)) (zip ops oks) in
    length oks = length ops ∧ crun s c ops = Ret (s1, c1, r.2) ∧
    hms_cache_destroy s1 c1 = Ret (s2, c2) ∧ kh_rep s2.(heap) F ∧ s2.(blobs) = ∅.
Proof.
  intros Hr Hs Hops Hlen. destruct (init_spec F h slots Hr Hs) as (s & c & f1 & f2 & f3 & E & HR & D1 & D2 & D3).
  destruct (crun_refines _ f1 f2 f3 ops 0 c _ s ∅ ∅ ∅ HR ltac:(lia) Hops) as (s1 & c1 & m1 & m2 & m3 & oks & E1 & Hl & HR1).
  destruct (hms_destroy_spec F _ c1 _ s1 f1 f2 f3 m1 m2 m3 HR1 D1 D2 D3) as (s2 & c2 & E2 & Hr2 & Hb & _).
  exists s, c, s1, c1, oks, s2, c2. done.
Qed.

(** L1 is meant to hold [l1_slots] entries but never holds more than one: its
    eviction skips free slots and, finding nothing to evict, reuses slot 0, so
    after two successful [put]s of different keys the first key is gone. *)
Theorem l1_holds_one_entry F (h : H) slots k1 d1 k2 d2 n :
  kh_rep h F → 0 ≤ slots < 2 ^ 32 → key_ok k1 → key_ok k2 → k1 ≠ k2 →
  0 < zlen d1 < 2 ^ 64 → 0 < zlen d2 < 2 ^ 64 → 0 ≤ n →
  ∃ s c, hms_cache_init {| heap := h; blobs := ∅ |} slots = Ret (s, c) ∧
  ∃ s1 c1 rc1, hms_cache_l1_put s c k1 d1 = Ret (s1, c1, rc1) ∧
  ∃ s2 c2 rc2, hms_cache_l1_put s1 c1 k2 d2 = Ret (s2, c2, rc2) ∧
    (rc2 = 0 → ∃ c3, hms_cache_l1_get s2 c2 k1 n = Ret (c3, - ENOENT, [])).
Proof.
  intros Hr Hs Hk1 Hk2 Hne Hd1 Hd2 Hn. destruct (init_spec F h slots Hr Hs) as (s & c & f1 & f2 & f3 & E & [O _ T1 _ _] & _).
  exists s, c. split; [done|]. cbn [fst snd] in T1. destruct (l1_private c) as [K|] eqn:Ec.
  - cbn in T1. destruct T1 as (_ & _ & I & R & Hz).
    destruct (l1_put_spec _ s c K _ _ I [] k1 d1 O Ec R Hz Hk1 Hd1) as (s1 & K1 & m1 & I1 & ok1 & -> & O1 & R1 & Hz1 & _).
    eexists s1, _, _. split; [done|].
    destruct (l1_put_spec _ s1 (with_l1 c (Some K1) c.(hits_l1)) K1 m1 _ I1 _ k2 d2 O1 eq_refl R1 Hz1 Hk2 Hd2) as (s2 & K2 & m2 & I2 & ok2 & -> & O2 & R2 & Hz2 & _).
    eexists s2, _, _. split; [done|]. intros Eok. destruct ok2; [|done].
    pose proof (l1_get_spec _ s2 (with_l1 (with_l1 c (Some K1) c.(hits_l1)) (Some K2) c.(hits_l1)) K2 m2 _ I2 _ k1 n O2 eq_refl R2 Hz2 Hn) as Hg.
    assert (room 1 k2 (if ok1 then room 1 k1 [] ++ [(k1, d1)] else room 1 k1 []) = []) as Er.
    { destruct ok1; [|done]. unfold room at 1. change (room 1 k1 [] ++ [(k1, d1)]) with [(k1, d1)].
      rewrite (proj2 (remove_absent k2 [(k1, d1)] ltac:(set_solver +Hne))). done. }
    rewrite Er in Hg. cbn [app assoc] in Hg. rewrite decide_False in Hg by done. by eexists.
  - unfold hms_cache_l1_put. rewrite Ec. eexists s, c, _. split; [done|]. rewrite Ec. eexists s, c, _. split; [done|]. done.
Qed.
End proofs.

(** ** On the kernel's heap, after boot *)

Definition demo_cops : list cop :=
  [L2Put [97] [1; 2; 3]; L2Get [97] 2; L2Get [98] 2; L1Put [97] [5]; L1Put [98] [6]; L1Get [97] 9; L1Get [98] 9; L3Put [97] []].

Lemma demo_keys : Forall op_ok demo_cops ∧ key_ok [97] ∧ key_ok [98].
Proof.
  assert (∀ b, 0 < b < 256 → key_ok [b]) as Hk by (intros b Hb; split; [by constructor|cbn; lia]).
  pose proof (Hk 97 ltac:(lia)). pose proof (Hk 98 ltac:(lia)).
  assert (∀ k d : list Z, key_ok k → (length d < 4)%nat → key_ok k ∧ zlen d < 2 ^ 64) as Hd by (intros k d Hkk Hl; split; [done|unfold zlen; lia]).
  split; [|done]. repeat constructor; try (apply Hd; [done|cbn; lia]); done.
Qed.

Definition run_demo : option (list (Z * list Z)) :=
  match (r ← hms_cache_init {| heap := demo_heap; blobs := ∅ |} 8; let '(s, c) := r in
         r ← crun s c demo_cops; let '(s, c, rs) := r in
         r ← hms_cache_destroy s c; Ret rs) with
  | Ret rs => Some rs
  | _ => None
  end.

Lemma hms_cache_refines_witness :
  (∃ s c s1 c1 oks s2 c2, hms_cache_init {| heap := demo_heap; blobs := ∅ |} 8 = Ret (s, c) ∧
    let r := cspec_run (fresh_tier c.(l1_private), fresh_tier c.(l2_private), fresh_tier c.(l3_private)) (zip demo_cops oks) in
    length oks = length demo_cops ∧ crun s c demo_cops = Ret (s1, c1, r.2) ∧
    hms_cache_destroy s1 c1 = Ret (s2, c2) ∧ kh_rep s2.(heap) ∅ ∧ s2.(blobs) = ∅) ∧
  run_demo = Some [(0, []); (0, [1; 2]); (- ENOENT, []); (0, []); (0, []); (- ENOENT, []); (0, [6]); (- EINVAL, [])].
Proof.
  split; [|by vm_compute].
  exact (hms_cache_refines ∅ demo_heap 8 demo_cops demo_heap_rep ltac:(lia) (proj1 demo_keys) eq_refl).
Defined.

Lemma l1_holds_one_entry_witness :
  ∃ s c, hms_cache_init {| heap := demo_heap; blobs := ∅ |} 8 = Ret (s, c) ∧
  ∃ s1 c1 rc1, hms_cache_l1_put s c [97] [5] = Ret (s1, c1, rc1) ∧
  ∃ s2 c2 rc2, hms_cache_l1_put s1 c1 [98] [6] = Ret (s2, c2, rc2) ∧
    (rc2 = 0 → ∃ c3, hms_cache_l1_get s2 c2 [97] 9 = Ret (c3, - ENOENT, [])).
Proof.
  apply (l1_holds_one_entry ∅ demo_heap 8 [97] [5] [98] [6] 9 demo_heap_rep ltac:(lia) (proj1 (proj2 demo_keys)) (proj2 (proj2 demo_keys)) ltac:(done)).
  - change (zlen [5]) with 1. lia.
  - change (zlen [6]) with 1. lia.
  - lia.
Defined.
