(* ===== verification/Vfs.v ===== *)
(** * The virtual file system ([src/kernel/fs/vfs.c], [vfs.h])

    The nodes are heap blocks linked by [parent], [children] and [next_sibling];
    the typed store [nodes] holds them by address. A file-system driver is a record
    of optional functions ([vfs_ops]), a function pointer table in the code; nodes
    refer to it by number, and [Drv] maps the numbers to the tables. A driver has a
    state [P] of its own. Strings are lists of bytes without the terminator; the
    fixed buffers of the code cut them to [VFS_NAME_MAX - 1] or [VFS_PATH_MAX - 1]
    bytes (see [CArray.strncpy_term_spec]). A call is a single
    step; [vfs_lock] makes it one except in read, write and readdir, which do not
    take it. *)

From S2P Require Import Pmm Slab SlabHeap KernelHeap.
From S2P Require Import Prelude CMem CArray IList KHeap.
From stdpp Require Import base numbers list gmap sets.
Open Scope Z_scope.

Definition VFS_NAME_MAX : Z := 128.
Definition VFS_PATH_MAX : Z := 512.
Definition VFS_O_READ : Z := 1.
Definition VFS_O_WRITE : Z := 2.
Definition VFS_O_CREATE : Z := 4.
Definition VFS_O_TRUNC : Z := 8.
Definition VFS_O_APPEND : Z := 16.
Definition VFS_SEEK_SET : Z := 0.
Definition VFS_SEEK_CUR : Z := 1.
Definition VFS_SEEK_END : Z := 2.
Definition MAX_OPEN_FILES : Z := 256.
Definition EEXIST : Z := 9.
Definition EBADF : Z := 11.
Definition SIZEOF_NODE : Z := 216.

Inductive vfs_node_type_t := VFS_FILE | VFS_DIR | VFS_SYMLINK | VFS_DEVICE.
#[export] Instance type_eq_dec : EqDecision vfs_node_type_t.
Proof. solve_decision. Defined.

Record vfs_node := {
  name : list Z; type : vfs_node_type_t; size : Z; permissions : Z; inode : Z; fs_data : Z; ops : option Z;
  parent : option Z; children : option Z; next_sibling : option Z; mount_ops : option Z; mount_data : Z;
}.
Record vfs_dirent := { d_name : list Z; d_type : vfs_node_type_t; d_inode : Z; d_size : Z }.
Record vfs_stat := {
  st_type : vfs_node_type_t; st_size : Z; st_permissions : Z; st_inode : Z; st_created : Z; st_modified : Z;
}.
Record vfs_fd_entry := { node : option Z; flags : Z; offset : Z; in_use : bool }.
Definition free_entry : vfs_fd_entry := {| node := None; flags := 0; offset := 0; in_use := false |}.
#[export] Instance fd_inhabited : Inhabited vfs_fd_entry := populate free_entry.

Record vfs (H P : Type) := {
  heap : H; priv : P; nodes : gmap Z vfs_node; fd_table : list vfs_fd_entry; vfs_root : option Z;
}.
Arguments heap {H P}.
Arguments priv {H P}.
Arguments nodes {H P}.
Arguments fd_table {H P}.
Arguments vfs_root {H P}.

Definition set_size (n : vfs_node) (z : Z) : vfs_node :=
  {| name := n.(name); type := n.(type); size := z; permissions := n.(permissions); inode := n.(inode); fs_data := n.(fs_data);
     ops := n.(ops); parent := n.(parent); children := n.(children); next_sibling := n.(next_sibling);
     mount_ops := n.(mount_ops); mount_data := n.(mount_data) |}.
Definition set_fs_data (n : vfs_node) (d : Z) : vfs_node :=
  {| name := n.(name); type := n.(type); size := n.(size); permissions := n.(permissions); inode := n.(inode); fs_data := d;
     ops := n.(ops); parent := n.(parent); children := n.(children); next_sibling := n.(next_sibling);
     mount_ops := n.(mount_ops); mount_data := n.(mount_data) |}.
Definition set_ops (n : vfs_node) (o : option Z) : vfs_node :=
  {| name := n.(name); type := n.(type); size := n.(size); permissions := n.(permissions); inode := n.(inode); fs_data := n.(fs_data);
     ops := o; parent := n.(parent); children := n.(children); next_sibling := n.(next_sibling);
     mount_ops := n.(mount_ops); mount_data := n.(mount_data) |}.
Definition set_links (n : vfs_node) (p s : option Z) : vfs_node :=
  {| name := n.(name); type := n.(type); size := n.(size); permissions := n.(permissions); inode := n.(inode); fs_data := n.(fs_data);
     ops := n.(ops); parent := p; children := n.(children); next_sibling := s;
     mount_ops := n.(mount_ops); mount_data := n.(mount_data) |}.
Definition set_children (n : vfs_node) (c : option Z) : vfs_node :=
  {| name := n.(name); type := n.(type); size := n.(size); permissions := n.(permissions); inode := n.(inode); fs_data := n.(fs_data);
     ops := n.(ops); parent := n.(parent); children := c; next_sibling := n.(next_sibling);
     mount_ops := n.(mount_ops); mount_data := n.(mount_data) |}.
Definition set_mount (n : vfs_node) (o d : Z) : vfs_node :=
  {| name := n.(name); type := n.(type); size := n.(size); permissions := n.(permissions); inode := n.(inode); fs_data := n.(fs_data);
     ops := n.(ops); parent := n.(parent); children := n.(children); next_sibling := n.(next_sibling);
     mount_ops := Some o; mount_data := d |}.

Section vfs.
Context {H P : Type} `{KH : KHeap H}.
Implicit Types s : vfs H P.

(** [struct vfs_ops]; [unlink] is called by nobody in the file. A function gets the
    addresses of nodes; the bytes that [read] fills in are part of its result. *)
Record vfs_ops := {
  op_read : option (vfs H P → Z → Z → Z → outcome (vfs H P * Z * list Z));
  op_write : option (vfs H P → Z → Z → list Z → outcome (vfs H P * Z));
  op_open : option (vfs H P → Z → Z → outcome (vfs H P * Z));
  op_close : option (vfs H P → Z → outcome (vfs H P * Z));
  op_readdir : option (vfs H P → Z → Z → outcome (vfs H P * Z * list vfs_dirent));
  op_mkdir : option (vfs H P → Z → list Z → outcome (vfs H P * Z));
  op_stat : option (vfs H P → Z → outcome (vfs H P * Z * vfs_stat));
  op_lookup : option (vfs H P → Z → list Z → outcome (vfs H P * option Z));
}.
Context (Drv : Z → vfs_ops).

Definition with_nodes s (n : gmap Z vfs_node) : vfs H P :=
  {| heap := s.(heap); priv := s.(priv); nodes := n; fd_table := s.(fd_table); vfs_root := s.(vfs_root) |}.
Definition with_heap s (h : H) : vfs H P :=
  {| heap := h; priv := s.(priv); nodes := s.(nodes); fd_table := s.(fd_table); vfs_root := s.(vfs_root) |}.
Definition with_fds s (f : list vfs_fd_entry) : vfs H P :=
  {| heap := s.(heap); priv := s.(priv); nodes := s.(nodes); fd_table := f; vfs_root := s.(vfs_root) |}.
Definition with_root s (r : option Z) : vfs H P :=
  {| heap := s.(heap); priv := s.(priv); nodes := s.(nodes); fd_table := s.(fd_table); vfs_root := r |}.
Definition deref s (a : Z) : outcome vfs_node := match s.(nodes) !! a with Some n => Ret n | None => Fault end.
Definition put_node s (a : Z) (n : vfs_node) : vfs H P := with_nodes s (<[a := n]> s.(nodes)).

Fixpoint alloc_from (n : nat) s (i : Z) : vfs H P * Z :=
  match n with
  | O => (s, - ENOMEM)
  | S n =>
      let e := s.(fd_table).[i] in
      if negb e.(in_use)
      then (with_fds s (s.(fd_table).[i <- {| node := e.(node); flags := e.(flags); offset := e.(offset); in_use := true |}]), i)
      else alloc_from n s (i + 1)
  end.
Definition alloc_fd s : vfs H P * Z := alloc_from (Z.to_nat MAX_OPEN_FILES) s 0.

Definition cut_name (n : list Z) : list Z := take (Z.to_nat (VFS_NAME_MAX - 1)) n.
Definition new_node (n : list Z) (t : vfs_node_type_t) : vfs_node :=
  {| name := cut_name n; type := t; size := 0; permissions := 0; inode := 0; fs_data := 0; ops := None;
     parent := None; children := None; next_sibling := None; mount_ops := None; mount_data := 0 |}.
Definition create_node s (n : list Z) (t : vfs_node_type_t) : outcome (vfs H P * option Z) :=
  r ← kcalloc s.(heap) 1 SIZEOF_NODE;
  let '(h, a) := r in
  let s := with_heap s h in
  if a =? 0 then Ret (s, None) else Ret (put_node s a (new_node n t), Some a).

Definition add_child s (p c : Z) : outcome (vfs H P) :=
  np ← deref s p;
  nc ← deref s c;
  let s := put_node s c (set_links nc (Some p) np.(children)) in
  np ← deref s p;
  Ret (put_node s p (set_children np (Some c))).

Fixpoint find_from (fuel : nat) s (c : option Z) (n : list Z) : outcome (option Z) :=
  match c with
  | None => Ret None
  | Some a =>
      match fuel with
      | O => NoFuel
      | S fuel =>
          x ← deref s a;
          if bool_decide (x.(name) = n) then Ret (Some a) else find_from fuel s x.(next_sibling) n
      end
  end.
(** A sibling list and a chain of parents have no more nodes than there are. *)
Definition fuel_of s : nat := S (base.size s.(nodes)).
Definition find_child s (p : Z) (n : list Z) : outcome (option Z) :=
  x ← deref s p; find_from (fuel_of s) s x.(children) n.

Definition own_ops (n : vfs_node) : option Z := match n.(mount_ops) with Some o => Some o | None => n.(ops) end.
Fixpoint ops_from (fuel : nat) s (p : option Z) : outcome (option Z) :=
  match p with
  | None => Ret None
  | Some a =>
      match fuel with
      | O => NoFuel
      | S fuel =>
          x ← deref s a;
          match own_ops x with Some o => Ret (Some o) | None => ops_from fuel s x.(parent) end
      end
  end.
Definition get_ops s (a : Z) : outcome (option vfs_ops) :=
  x ← deref s a;
  o ← (match own_ops x with Some o => Ret (Some o) | None => ops_from (fuel_of s) s x.(parent) end : outcome (option Z));
  Ret (match o with Some d => Some (Drv d) | None => None end).

(** [while ( *path == '/') path++;] *)
Fixpoint skip_slashes (path : list Z) : list Z :=
  match path with c :: p => if c =? 47 then skip_slashes p else path | [] => [] end.
(** [while ( *path && *path != '/' && len < VFS_NAME_MAX - 1) component[len++] = *path++;] *)
Fixpoint take_component (n : nat) (path : list Z) : list Z * list Z :=
  match n, path with
  | S n, c :: p => if c =? 47 then ([], path) else let '(w, r) := take_component n p in (c :: w, r)
  | _, _ => ([], path)
  end.

Fixpoint walk_from (fuel : nat) s (cur : Z) (path : list Z) : outcome (vfs H P * option Z) :=
  match skip_slashes path with
  | [] => Ret (s, Some cur)
  | path =>
      match fuel with
      | O => NoFuel
      | S fuel =>
          let '(component, path) := take_component (Z.to_nat (VFS_NAME_MAX - 1)) path in
          if bool_decide (component = [46]) then walk_from fuel s cur path else
          if bool_decide (component = [46; 46]) then
            x ← deref s cur;
            walk_from fuel s (match x.(parent) with Some p => p | None => cur end) path
          else
            child ← find_child s cur component;
            r ← match child with
                | Some c => Ret (s, Some c)
                | None =>
                    pop ← get_ops s cur;
                    match pop with
                    | Some d => match d.(op_lookup) with Some f => f s cur component | None => Ret (s, None) end
                    | None => Ret (s, None)
                    end
                end;
            let '(s, child) := r in
            match child with None => Ret (s, None) | Some c => walk_from fuel s c path end
      end
  end.
Definition vfs_walk_path s (path : option (list Z)) : outcome (vfs H P * option Z) :=
  match path with
  | Some (47 :: p) =>
      match s.(vfs_root) with Some r => walk_from (S (length p)) s r p | None => Fault end
  | _ => Ret (s, None)
  end.
Definition vfs_resolve_path s (path : option (list Z)) : outcome (vfs H P * option Z) := vfs_walk_path s path.

Definition vfs_make_child s (p : option Z) (n : option (list Z)) (t : vfs_node_type_t) (data : Z) : outcome (vfs H P * option Z) :=
  match p, n with
  | Some p, Some (c :: n) =>
      r ← create_node s (c :: n) t;
      let '(s, a) := r in
      match a with
      | None => Ret (s, None)
      | Some a =>
          x ← deref s a;
          s ← add_child (put_node s a (set_fs_data x data)) p a;
          Ret (s, Some a)
      end
  | _, _ => Ret (s, None)
  end.

Definition vfs_init s : outcome (vfs H P * Z) :=
  let s := with_fds s (replicate (Z.to_nat MAX_OPEN_FILES) free_entry) in
  r ← create_node s [47] VFS_DIR;
  let '(s, r) := r in
  let s := with_root s r in
  match r with None => Ret (s, - ENOMEM) | Some _ => Ret (s, 0) end.

(** The loop of [vfs_mount] that creates the missing directories. *)
Fixpoint make_dirs (fuel : nat) s (cur : Z) (p : list Z) : outcome (vfs H P * option Z) :=
  match skip_slashes p with
  | [] => Ret (s, Some cur)
  | p =>
      match fuel with
      | O => NoFuel
      | S fuel =>
          let '(comp, p) := take_component (Z.to_nat (VFS_NAME_MAX - 1)) p in
          child ← find_child s cur comp;
          match child with
          | Some c => make_dirs fuel s c p
          | None =>
              r ← create_node s comp VFS_DIR;
              let '(s, a) := r in
              match a with
              | None => Ret (s, None)
              | Some a => s ← add_child s cur a; make_dirs fuel s a p
              end
          end
      end
  end.
Definition vfs_mount s (path : option (list Z)) (fs_ops : option Z) (data : Z) : outcome (vfs H P * Z) :=
  match path, fs_ops with
  | Some path, Some o =>
      match s.(vfs_root) with
      | None => Fault
      | Some root =>
          r ← (if bool_decide (path = [47]) then Ret (s, Some root)
               else
                 r ← vfs_walk_path s (Some path);
                 let '(s, mp) := r in
                 match mp with
                 | Some a => Ret (s, Some a)
                 | None => match path with [] => Fault | _ :: p => make_dirs (S (length p)) s root p end
                 end);
          let '(s, mp) := r in
          match mp with
          | None => Ret (s, - ENOMEM)
          | Some a => x ← deref s a; Ret (put_node s a (set_mount x o data), 0)
          end
      end
  | _, _ => Ret (s, - EINVAL)
  end.

(** [strrchr(path, '/')]: what is before the last slash and after it. *)
Fixpoint split_last (path : list Z) : option (list Z * list Z) :=
  match path with
  | [] => None
  | c :: p =>
      match split_last p with
      | Some (a, b) => Some (c :: a, b)
      | None => if c =? 47 then Some ([], p) else None
      end
  end.
Definition has (fl bit : Z) : bool := nonzero (Z.land fl bit).
Definition cut_path (p : list Z) : list Z := take (Z.to_nat (VFS_PATH_MAX - 1)) p.

(** The part of [vfs_open] that creates a missing file: the node, or the error. *)
Definition open_create s (path : list Z) : outcome (vfs H P * (Z + Z)) :=
  match split_last (cut_path path), s.(vfs_root) with
  | None, _ => Ret (s, inr (- EINVAL))
  | _, None => Fault
  | Some ([], _), Some root =>
      r ← create_node s (cut_name (tail path)) VFS_FILE;
      let '(s, a) := r in
      match a with None => Ret (s, inr (- ENOMEM)) | Some a => s ← add_child s root a; Ret (s, inl a) end
  | Some (par, base), Some _ =>
      r ← vfs_walk_path s (Some par);
      let '(s, p) := r in
      match p with
      | None => Ret (s, inr (- ENOENT))
      | Some p =>
          x ← deref s p;
          if negb (bool_decide (x.(type) = VFS_DIR)) then Ret (s, inr (- ENOENT)) else
          r ← create_node s (cut_name base) VFS_FILE;
          let '(s, a) := r in
          match a with
          | None => Ret (s, inr (- ENOMEM))
          | Some a =>
              x ← deref s p;
              y ← deref s a;
              s ← add_child (put_node s a (set_ops y x.(ops))) p a; Ret (s, inl a)
          end
      end
  end.
Definition vfs_open s (path : option (list Z)) (fl : Z) : outcome (vfs H P * Z) :=
  r ← vfs_walk_path s path;
  let '(s, n) := r in
  r ← match n with
      | Some a => Ret (s, inl a)
      | None =>
          if has fl VFS_O_CREATE then match path with Some p => open_create s p | None => Fault end
          else Ret (s, inr (- ENOENT))
      end;
  let '(s, n) := r in
  match n with
  | inr e => Ret (s, e)
  | inl a =>
      let '(s, fd) := alloc_fd s in
      if fd <? 0 then Ret (s, fd) else
      let s := with_fds s (s.(fd_table).[fd <- {| node := Some a; flags := fl; offset := 0; in_use := true |}]) in
      s ← (if has fl VFS_O_TRUNC then x ← deref s a; Ret (put_node s a (set_size x 0)) else Ret s);
      o ← get_ops s a;
      s ← match o with
          | Some d => match d.(op_open) with Some f => r ← f s a fl; Ret r.1 | None => Ret s end
          | None => Ret s
          end;
      Ret (s, fd)
  end.

Definition bad_fd s (fd : Z) : bool := (fd <? 0) || (fd >=? MAX_OPEN_FILES) || negb (s.(fd_table).[fd]).(in_use).
Definition fd_node s (fd : Z) : outcome Z := match (s.(fd_table).[fd]).(node) with Some a => Ret a | None => Fault end.
Definition set_offset s (fd off : Z) : vfs H P :=
  let e := s.(fd_table).[fd] in
  with_fds s (s.(fd_table).[fd <- {| node := e.(node); flags := e.(flags); offset := off; in_use := e.(in_use) |}]).

Definition vfs_close s (fd : Z) : outcome (vfs H P * Z) :=
  if bad_fd s fd then Ret (s, - EBADF) else
  a ← fd_node s fd;
  o ← get_ops s a;
  s ← match o with
      | Some d => match d.(op_close) with Some f => r ← f s a; Ret r.1 | None => Ret s end
      | None => Ret s
      end;
  Ret (with_fds s (s.(fd_table).[fd <- free_entry]), 0).

(** [buf] is [None] for a null pointer; the bytes read are part of the result. *)
Definition vfs_read s (fd : Z) (buf : bool) (n : Z) : outcome (vfs H P * Z * list Z) :=
  if bad_fd s fd then Ret (s, - EBADF, []) else
  if negb buf || (n =? 0) then Ret (s, - EINVAL, []) else
  a ← fd_node s fd;
  o ← get_ops s a;
  match o with
  | Some d =>
      match d.(op_read) with
      | Some f =>
          r ← f s a (s.(fd_table).[fd]).(offset) n;
          let '(s, n, out) := r in
          if n >? 0 then Ret (set_offset s fd (u64 ((s.(fd_table).[fd]).(offset) + n)), n, out) else Ret (s, n, out)
      | None => Ret (s, - ENOTSUP, [])
      end
  | None => Ret (s, - ENOTSUP, [])
  end.

Definition vfs_write s (fd : Z) (buf : option (list Z)) : outcome (vfs H P * Z) :=
  if bad_fd s fd then Ret (s, - EBADF) else
  match buf with
  | None => Ret (s, - EINVAL)
  | Some data =>
      if zlen data =? 0 then Ret (s, - EINVAL) else
      a ← fd_node s fd;
      o ← get_ops s a;
      match o with
      | Some d =>
          match d.(op_write) with
          | Some f =>
              s ← (if has (s.(fd_table).[fd]).(flags) VFS_O_APPEND then x ← deref s a; Ret (set_offset s fd x.(size)) else Ret s);
              r ← f s a (s.(fd_table).[fd]).(offset) data;
              let '(s, n) := r in
              if n >? 0 then
                let s := set_offset s fd (u64 ((s.(fd_table).[fd]).(offset) + n)) in
                x ← deref s a;
                let off := (s.(fd_table).[fd]).(offset) in
                Ret (if off >? x.(size) then put_node s a (set_size x off) else s, n)
              else Ret (s, n)
          | None => Ret (s, - ENOTSUP)
          end
      | None => Ret (s, - ENOTSUP)
      end
  end.

Definition vfs_mkdir s (path : option (list Z)) : outcome (vfs H P * Z) :=
  match path with
  | Some ((47 :: rest) as path) =>
      r ← vfs_walk_path s (Some path);
      let '(s, existing) := r in
      match existing with
      | Some _ => Ret (s, - EEXIST)
      | None =>
          match split_last (cut_path path) with
          | None => Ret (s, - EINVAL)
          | Some (par, base) =>
              r ← match par with
                  | [] => Ret (s, s.(vfs_root), cut_name rest)
                  | _ => r ← vfs_walk_path s (Some par); let '(s, p) := r in Ret (s, p, cut_name base)
                  end;
              let '(s, p, dirname) := r in
              match p with
              | None => Ret (s, - ENOENT)
              | Some p =>
                  x ← deref s p;
                  if negb (bool_decide (x.(type) = VFS_DIR)) then Ret (s, - ENOENT) else
                  o ← get_ops s p;
                  r ← match o with
                      | Some d => match d.(op_mkdir) with Some f => f s p dirname | None => Ret (s, 0) end
                      | None => Ret (s, 0)
                      end;
                  let '(s, rc) := r in
                  if rc <? 0 then Ret (s, rc) else
                  r ← create_node s dirname VFS_DIR;
                  let '(s, a) := r in
                  match a with
                  | None => Ret (s, - ENOMEM)
                  | Some a =>
                      x ← deref s p;
                      y ← deref s a;
                      s ← add_child (put_node s a (set_ops y x.(ops))) p a; Ret (s, 0)
                  end
              end
          end
      end
  | _ => Ret (s, - EINVAL)
  end.

Fixpoint dirents (n : nat) (fuel : nat) s (c : option Z) : outcome (list vfs_dirent) :=
  match c, n with
  | Some a, S n =>
      match fuel with
      | O => NoFuel
      | S fuel =>
          x ← deref s a;
          l ← dirents n fuel s x.(next_sibling);
          Ret ({| d_name := cut_name x.(name); d_type := x.(type); d_inode := x.(inode); d_size := x.(size) |} :: l)
      end
  | _, _ => Ret []
  end.
Definition vfs_readdir s (fd : Z) (entries : bool) (max_entries : Z) : outcome (vfs H P * Z * list vfs_dirent) :=
  if bad_fd s fd then Ret (s, - EBADF, []) else
  if negb entries || (max_entries =? 0) then Ret (s, - EINVAL, []) else
  a ← fd_node s fd;
  x ← deref s a;
  if negb (bool_decide (x.(type) = VFS_DIR)) then Ret (s, - EINVAL, []) else
  o ← get_ops s a;
  match o with
  | Some {| op_readdir := Some f |} => f s a max_entries
  | _ => l ← dirents (Z.to_nat max_entries) (fuel_of s) s x.(children); Ret (s, zlen l, l)
  end.

Definition node_stat (x : vfs_node) : vfs_stat :=
  {| st_type := x.(type); st_size := x.(size); st_permissions := x.(permissions); st_inode := x.(inode); st_created := 0; st_modified := 0 |}.
(** The last part of [vfs_stat] and [vfs_fstat]. *)
Definition stat_node s (a : Z) : outcome (vfs H P * Z * option vfs_stat) :=
  o ← get_ops s a;
  match o with
  | Some {| op_stat := Some f |} => r ← f s a; let '(s, rc, st) := r in Ret (s, rc, Some st)
  | _ => x ← deref s a; Ret (s, 0, Some (node_stat x))
  end.
(** The result has the contents of [*st], when it was written. *)
Definition vfs_stat_path s (path : option (list Z)) (st : bool) : outcome (vfs H P * Z * option vfs_stat) :=
  match path with
  | Some _ =>
      if negb st then Ret (s, - EINVAL, None) else
      r ← vfs_walk_path s path;
      let '(s, n) := r in
      match n with None => Ret (s, - ENOENT, None) | Some a => stat_node s a end
  | None => Ret (s, - EINVAL, None)
  end.
Definition vfs_fstat s (fd : Z) (st : bool) : outcome (vfs H P * Z * option vfs_stat) :=
  if negb st then Ret (s, - EINVAL, None) else
  if bad_fd s fd then Ret (s, - EBADF, None) else
  a ← fd_node s fd; stat_node s a.

(** The sums are computed in [int64_t]. *)
Definition vfs_lseek s (fd off whence : Z) : outcome (vfs H P * Z) :=
  if bad_fd s fd then Ret (s, - EBADF) else
  a ← fd_node s fd;
  x ← deref s a;
  let cur := swrap 64 (s.(fd_table).[fd]).(offset) in
  let new_off :=
    if whence =? VFS_SEEK_SET then Some off
    else if whence =? VFS_SEEK_CUR then Some (swrap 64 (cur + off))
    else if whence =? VFS_SEEK_END then Some (swrap 64 (swrap 64 x.(size) + off))
    else None in
  match new_off with
  | None => Ret (s, - EINVAL)
  | Some o => if o <? 0 then Ret (s, - EINVAL) else Ret (set_offset s fd o, o)
  end.
End vfs.

(** ** Paths *)

Definition emit (acc : list Z) : list (list Z) := match acc with [] => [] | _ => [acc] end.
Fixpoint comps_acc (acc path : list Z) : list (list Z) :=
  match path with
  | [] => emit acc
  | c :: p => if c =? 47 then emit acc ++ comps_acc [] p else comps_acc (acc ++ [c]) p
  end.
(** The non-empty pieces between slashes. *)
Definition components (path : list Z) : list (list Z) := comps_acc [] path.
Definition short (l : list (list Z)) : Prop := Forall (λ c, (length c ≤ 127)%nat) l.

Lemma comps_app acc p q : comps_acc acc (p ++ 47 :: q) = comps_acc acc p ++ components q.
Proof.
  revert acc. induction p as [|c p IH]; intros acc; cbn; [done|]. destruct (c =? 47); [|by apply IH].
  by rewrite IH, app_assoc.
Qed.

Lemma comps_skip p : components (skip_slashes p) = components p.
Proof.
  induction p as [|c p IH]; [done|]. cbn. destruct (Z.eqb_spec c 47) as [->|Hc]; [exact IH|].
  unfold components. cbn. by rewrite (proj2 (Z.eqb_neq c 47)).
Qed.

Lemma skip_head p : match skip_slashes p with c :: _ => c ≠ 47 | [] => True end.
Proof. induction p as [|c p IH]; [done|]. cbn. by destruct (Z.eqb_spec c 47). Qed.

Lemma skip_length p : (length (skip_slashes p) ≤ length p)%nat.
Proof. induction p as [|c p IH]; [done|]. cbn. destruct (c =? 47); cbn; lia. Qed.

Lemma comps_head acc p :
  acc ≠ [] → ∃ w r, comps_acc acc p = (acc ++ w) :: r.
Proof.
  revert acc. induction p as [|c p IH]; intros acc Ha; cbn.
  - exists [], []. rewrite app_nil_r. by destruct acc.
  - destruct (c =? 47).
    + exists [], (comps_acc [] p). rewrite app_nil_r. by destruct acc.
    + destruct (IH (acc ++ [c])) as (w & r & ->); [by destruct acc|]. exists (c :: w), r. by rewrite <- app_assoc.
Qed.

Lemma take_component_spec n : ∀ acc p,
  let '(w, r) := take_component n p in
  p = w ++ r ∧ 47 ∉ w ∧ comps_acc acc p = comps_acc (acc ++ w) r ∧ (length w ≤ n)%nat ∧
  (length w = n ∨ match r with [] => True | c :: _ => c = 47 end).
Proof.
  induction n as [|n IH]; intros acc p; cbn.
  - rewrite app_nil_r. split; [done|]. split; [by apply not_elem_of_nil|]. split; [done|]. split; [cbn; lia|by left].
  - destruct p as [|c p]; cbn.
    + rewrite app_nil_r. split; [done|]. split; [by apply not_elem_of_nil|]. split; [done|]. split; [lia|by right].
    + destruct (Z.eqb_spec c 47) as [->|Hc]; cbn.
      * rewrite app_nil_r. split; [done|]. split; [by apply not_elem_of_nil|]. split; [done|]. split; [lia|by right].
      * specialize (IH (acc ++ [c]) p). destruct (take_component n p) as [w r].
        destruct IH as (-> & Hw & E & Hl & Hr). split; [done|]. split; [apply not_elem_of_cons; split; [congruence|done]|].
        rewrite E, <- app_assoc. split; [done|]. split; [cbn; lia|]. cbn. destruct Hr; [left; lia|by right].
Qed.

(** The next component that the code cuts off is the next piece, when no piece is too long. *)
Lemma next_component c p :
  c ≠ 47 → short (components (c :: p)) →
  ∃ w r, take_component (Z.to_nat (VFS_NAME_MAX - 1)) (c :: p) = (w, r) ∧ w ≠ [] ∧ 47 ∉ w ∧
    components (c :: p) = w :: components r ∧ (length r < length (c :: p))%nat ∧ (length w ≤ 127)%nat.
Proof.
  intros Hc Hs. change (Z.to_nat (VFS_NAME_MAX - 1)) with 127%nat. pose proof (take_component_spec 127 [] (c :: p)) as Ht.
  destruct (take_component 127 (c :: p)) as [w r] eqn:Et. destruct Ht as (E & Hw & Ec & Hl & Hr). cbn [app] in Ec.
  assert (w ≠ []) as Hne.
  { intros ->. cbn [app] in E. subst r. by destruct Hr. }
  exists w, r. split; [done|]. split; [done|]. split; [done|]. unfold components in *. rewrite Ec in *. split.
  - destruct r as [|d r]; [by destruct w|]. cbn. destruct (Z.eqb_spec d 47) as [->|Hd]; [by destruct w|].
    destruct Hr as [Hr|]; [|done]. exfalso. cbn in Hs. rewrite (proj2 (Z.eqb_neq d 47)) in Hs by done.
    destruct (comps_head (w ++ [d]) r) as (w' & r' & E'); [by destruct w|]. rewrite E' in Hs.
    apply Forall_cons in Hs as [Hs _]. rewrite !length_app in Hs. cbn in Hs. lia.
  - rewrite E, length_app. destruct w; [done|]. cbn in *. lia.
Qed.

Lemma split_last_spec path :
  match split_last path with
  | Some (a, b) => path = a ++ 47 :: b ∧ 47 ∉ b
  | None => 47 ∉ path
  end.
Proof.
  induction path as [|c p IH]; cbn; [by apply not_elem_of_nil|]. destruct (split_last p) as [[a b]|].
  - destruct IH as [-> Hb]. by split.
  - destruct (Z.eqb_spec c 47) as [->|Hc]; [by split|]. apply not_elem_of_cons; split; [congruence|done].
Qed.

Lemma components_base b : 47 ∉ b → components b = emit b.
Proof.
  unfold components. intros Hb. enough (∀ acc, comps_acc acc b = emit (acc ++ b)) as -> by done.
  induction b as [|c b IH]; intros acc; cbn; [by rewrite app_nil_r|]. apply not_elem_of_cons in Hb as [Hc Hb].
  rewrite (proj2 (Z.eqb_neq c 47)) by done. rewrite IH by done. by rewrite <- app_assoc.
Qed.

(** The node that a path leads to from the directory [p]. *)
Definition rstep (D : gset (list (list Z))) (p : list (list Z)) (c : list Z) : option (list (list Z)) :=
  if decide (c = [46]) then Some p
  else if decide (c = [46; 46]) then Some (removelast p)
  else if decide (p ++ [c] ∈ D) then Some (p ++ [c]) else None.
Fixpoint resolve (D : gset (list (list Z))) (p : list (list Z)) (cs : list (list Z)) : option (list (list Z)) :=
  match cs with [] => Some p | c :: cs => rstep D p c ≫= λ q, resolve D q cs end.

Lemma resolve_app D p cs cs' : resolve D p (cs ++ cs') = resolve D p cs ≫= λ q, resolve D q cs'.
Proof. revert p. induction cs as [|c cs IH]; intros p; cbn; [done|]. destruct (rstep D p c); cbn; [apply IH|done]. Qed.

(** ** The tree *)

Definition name_ok (n : list Z) : Prop := n ≠ [] ∧ n ≠ [46] ∧ n ≠ [46; 46] ∧ 47 ∉ n ∧ (length n ≤ 127)%nat.

(** The heap blocks that the drivers hold, as their state tells, and those among them
    that the [fs_data] of a node may point to. *)
Class DriverState (P : Type) := { driver_blocks : P → gset Z; driver_data : P → gset Z; }.
#[export] Instance no_driver_state : DriverState () := {| driver_blocks _ := ∅; driver_data _ := ∅ |}.

Section proofs.
Context {H P : Type} `{KH : KHeap H} `{DS : DriverState P}.
Implicit Types s : vfs H P.
Implicit Types M : gmap (list (list Z)) Z.

Definition nxt s (a : Z) : option Z := match s.(nodes) !! a with Some x => x.(next_sibling) | None => None end.

(** [M] gives the node of every path from the root. *)
Record tree s M : Prop := {
  t_root : ∃ r, s.(vfs_root) = Some r ∧ M !! [] = Some r;
  t_node p a : M !! p = Some a → is_Some (s.(nodes) !! a);
  t_path a x : s.(nodes) !! a = Some x → ∃ p, M !! p = Some a;
  t_inj p q a : M !! p = Some a → M !! q = Some a → p = q;
  t_up p n a x : M !! (p ++ [n]) = Some a → s.(nodes) !! a = Some x →
    x.(name) = n ∧ name_ok n ∧ ∃ b, M !! p = Some b ∧ x.(parent) = Some b;
  t_top a x : M !! [] = Some a → s.(nodes) !! a = Some x → x.(parent) = None;
  t_kids p b x : M !! p = Some b → s.(nodes) !! b = Some x →
    ∃ l, ilist (nxt s) x.(children) l ∧ NoDup l ∧ ∀ a, a ∈ l ↔ ∃ n, M !! (p ++ [n]) = Some a;
}.

Lemma tree_node s M p a : tree s M → M !! p = Some a → ∃ x, s.(nodes) !! a = Some x.
Proof. intros T Hp. by apply (t_node _ _ T p a). Qed.

Lemma nodes_length s M (l : list Z) :
  tree s M → NoDup l → (∀ a, a ∈ l → ∃ p, M !! p = Some a) → (length l < fuel_of s)%nat.
Proof.
  intros T Hnd Hin. unfold fuel_of. enough (length l ≤ base.size s.(nodes))%nat by lia.
  rewrite <- size_dom. rewrite <- (size_list_to_set (C:=gset Z) l) by done.
  apply subseteq_size. intros a. rewrite elem_of_list_to_set, elem_of_dom. intros Ha. destruct (Hin a Ha) as (p & Hp).
  by apply (t_node _ _ T p a).
Qed.

Lemma siblings_spec s M p l n : ∀ fuel c,
  tree s M → ilist (nxt s) c l → (length l < fuel)%nat → (∀ a, a ∈ l → ∃ k, M !! (p ++ [k]) = Some a) →
  find_from fuel s c n = Ret (match M !! (p ++ [n]) with Some a => if decide (a ∈ l) then Some a else None | None => None end).
Proof.
  induction l as [|a l IH]; intros fuel c T Hc Hf Hl.
  - cbn in Hc. subst c. destruct fuel; cbn; by destruct (M !! (p ++ [n])).
  - destruct Hc as [-> Hc]. destruct fuel as [|fuel]; [cbn in Hf; lia|]. cbn [find_from].
    destruct (Hl a ltac:(by left)) as (k & Hk). destruct (tree_node _ _ _ _ T Hk) as [x Hx].
    destruct (t_up _ _ T p k a x Hk Hx) as (En & _). unfold deref. rewrite Hx. cbn [mbind outcome_bind].
    assert (nxt s a = x.(next_sibling)) as Ex by (unfold nxt; by rewrite Hx). rewrite Ex in Hc.
    case_bool_decide as E.
    + assert (k = n) as -> by congruence. rewrite Hk. by rewrite decide_True by (by left).
    + rewrite (IH fuel _ T Hc) by (cbn in Hf; try lia; intros b Hb; apply Hl; by right).
      destruct (M !! (p ++ [n])) as [b|] eqn:Eb; [|done]. f_equal.
      assert (b ≠ a) as Hne.
      { intros ->. pose proof (t_inj _ _ T _ _ _ Hk Eb) as Epp. apply app_inj_tail in Epp as [_ ->]. congruence. }
      destruct (decide (b ∈ l)) as [Hb|Hb]; [by rewrite decide_True by (by right)|].
      rewrite decide_False; [done|]. by intros [?|?]%elem_of_cons.
Qed.

Lemma find_child_spec s M p b n : tree s M → M !! p = Some b → find_child s b n = Ret (M !! (p ++ [n])).
Proof.
  intros T Hb. unfold find_child. destruct (tree_node _ _ _ _ T Hb) as [x Hx]. unfold deref. rewrite Hx. cbn [mbind outcome_bind].
  destruct (t_kids _ _ T p b x Hb Hx) as (l & Hc & Hnd & Hl).
  rewrite (siblings_spec s M p l n); [|done|done| |by intros a ?%Hl].
  - destruct (M !! (p ++ [n])) as [a|] eqn:E; [|done]. rewrite decide_True; [done|]. apply Hl. by exists n.
  - apply (nodes_length s M l T Hnd). intros a (k & Hk)%Hl. by exists (p ++ [k]).
Qed.

Lemma path_nodes s M p : ∀ a, tree s M → M !! p = Some a →
  ∃ l, NoDup l ∧ length l = S (length p) ∧ ∀ c, c ∈ l → ∃ q, M !! q = Some c ∧ (length q ≤ length p)%nat.
Proof.
  induction p as [|n p IH] using rev_ind; intros a T Ha.
  - exists [a]. split; [apply NoDup_singleton|]. split; [done|]. intros c ->%list_elem_of_singleton. exists []. split; [done|cbn; lia].
  - destruct (tree_node _ _ _ _ T Ha) as [x Hx]. destruct (t_up _ _ T p n a x Ha Hx) as (_ & _ & b & Hb & _).
    destruct (IH b T Hb) as (l & Hnd & Hlen & Hl). exists (a :: l). split; [|split].
    + constructor; [|done]. intros (q & Hq & Hql)%Hl. pose proof (t_inj _ _ T _ _ _ Ha Hq) as <-. rewrite length_app in Hql. cbn in Hql. lia.
    + rewrite length_app. cbn. lia.
    + intros c [->|(q & Hq & Hql)%Hl]%elem_of_cons; [exists (p ++ [n]); split; [done|lia]|]. exists q. split; [done|]. rewrite length_app. lia.
Qed.

Lemma path_length s M p a : tree s M → M !! p = Some a → (length p < fuel_of s)%nat.
Proof.
  intros T Ha. destruct (path_nodes s M p a T Ha) as (l & Hnd & Hlen & Hl).
  pose proof (nodes_length s M l T Hnd) as Hn. enough (length l < fuel_of s)%nat by lia. apply Hn.
  intros c (q & Hq & _)%Hl. by exists q.
Qed.

Lemma ops_from_spec s M p : ∀ fuel a, tree s M → M !! p = Some a → (length p < fuel)%nat →
  ∃ o, ops_from fuel s (Some a) = Ret o.
Proof.
  induction p as [|n p IH] using rev_ind; intros fuel a T Ha Hf; (destruct fuel as [|fuel]; [lia|]); cbn [ops_from];
    destruct (tree_node _ _ _ _ T Ha) as [x Hx]; unfold deref; rewrite Hx; cbn [mbind outcome_bind].
  - destruct (own_ops x) as [o|]; [by exists (Some o)|]. rewrite (t_top _ _ T a x Ha Hx). exists None. by destruct fuel.
  - destruct (own_ops x) as [o|]; [by exists (Some o)|]. destruct (t_up _ _ T p n a x Ha Hx) as (_ & _ & b & Hb & ->).
    rewrite length_app in Hf. cbn in Hf. apply (IH fuel b T Hb). lia.
Qed.

Lemma get_ops_spec (Drv : Z → vfs_ops) s M p a :
  tree s M → M !! p = Some a → get_ops Drv s a = Ret None ∨ ∃ d, get_ops Drv s a = Ret (Some (Drv d)).
Proof.
  intros T Ha. unfold get_ops. destruct (tree_node _ _ _ _ T Ha) as [x Hx]. unfold deref. rewrite Hx. cbn [mbind outcome_bind].
  assert (∃ o, (match own_ops x with Some o => Ret (Some o) | None => ops_from (fuel_of s) s x.(parent) end : outcome (option Z)) = Ret o) as (o & ->).
  { destruct (own_ops x) as [o|]; [by exists (Some o)|]. destruct p as [|n p _] using rev_ind.
    - rewrite (t_top _ _ T a x Ha Hx). exists None. by destruct (fuel_of s).
    - destruct (t_up _ _ T p n a x Ha Hx) as (_ & _ & b & Hb & ->). apply (ops_from_spec s M p _ b T Hb).
      by apply (path_length s M p b). }
  cbn [mbind outcome_bind]. destruct o as [d|]; [right; by exists d|by left].
Qed.

(** ** New nodes *)

(** The heap holds a block for every node, those of the drivers, and the blocks [F]
    of others; the [fs_data] of a node is null or driver data. *)
Record own (F : gset Z) s : Prop := {
  o_heap : kh_rep s.(heap) (F ∪ driver_blocks s.(priv) ∪ dom s.(nodes));
  o_apart : F ∪ driver_blocks s.(priv) ## dom s.(nodes);
  o_frame : F ## driver_blocks s.(priv);
  o_data a x : s.(nodes) !! a = Some x → x.(fs_data) = 0 ∨ x.(fs_data) ∈ driver_data s.(priv);
}.

Lemma own_put F s a x y :
  own F s → s.(nodes) !! a = Some x → y.(fs_data) = 0 ∨ y.(fs_data) ∈ driver_data s.(priv) → own F (put_node s a y).
Proof.
  intros [Hr Hd Hf Hx] Ha Hy. assert (dom (<[a := y]> s.(nodes)) = dom s.(nodes)) as E.
  { rewrite dom_insert_L. pose proof (elem_of_dom_2 _ _ _ Ha). set_solver. }
  split; cbn; rewrite ?E; try done. intros c z Hz. apply lookup_insert_Some in Hz as [[<- <-]|[_ Hz]]; [done|by apply (Hx c)].
Qed.

Lemma create_node_spec F s n t :
  own F s → ∃ s' r, create_node s n t = Ret (s', r) ∧ own F s' ∧ s'.(fd_table) = s.(fd_table) ∧ s'.(vfs_root) = s.(vfs_root) ∧
    s'.(priv) = s.(priv) ∧
    match r with
    | Some a => s.(nodes) !! a = None ∧ s'.(nodes) = <[a := new_node n t]> s.(nodes)
    | None => s'.(nodes) = s.(nodes)
    end.
Proof.
  intros [Hr Hd Hf Hx]. unfold create_node. destruct (kcalloc_spec _ _ 1 SIZEOF_NODE Hr ltac:(done) ltac:(done)) as (h & a & -> & Ha).
  cbn [mbind outcome_bind]. destruct Ha as [[-> Hr1]|(Ha0 & _ & Ha & Hr1)].
  - eexists _, None. split; [done|]. by split; [split|].
  - rewrite (proj2 (Z.eqb_neq a 0)) by lia. eexists _, (Some a). split; [done|]. split; [split; cbn|].
    + rewrite dom_insert_L. eapply eq_ind; [exact Hr1|]. set_solver +.
    + rewrite dom_insert. set_solver +Hd Ha.
    + done.
    + intros c x Hc. apply lookup_insert_Some in Hc as [[<- <-]|[_ Hc]]; [by left|by apply (Hx c)].
    + split; [done|]. split; [done|]. split; [done|]. split; [apply not_elem_of_dom; set_solver +Ha|done].
Qed.

(** [add_child] of the fresh node [y] at [a] under the node at [p]. *)
Lemma tree_add s s' M p b xb a y n :
  tree s M → M !! p = Some b → s.(nodes) !! b = Some xb → s.(nodes) !! a = None → M !! (p ++ [n]) = None → name_ok n →
  y.(name) = n → y.(children) = None → s'.(vfs_root) = s.(vfs_root) →
  s'.(nodes) = <[b := set_children xb (Some a)]> (<[a := set_links y (Some b) xb.(children)]> s.(nodes)) →
  tree s' (<[p ++ [n] := a]> M).
Proof.
  intros T Hb Hxb Ha Hnew Hn Ey1 Ey2 Er En.
  assert (b ≠ a) as Hba by congruence.
  assert (s'.(nodes) !! a = Some (set_links y (Some b) xb.(children))) as Ea by (rewrite En, lookup_insert_ne, lookup_insert_eq; done).
  assert (s'.(nodes) !! b = Some (set_children xb (Some a))) as Eb by (rewrite En, lookup_insert_eq; done).
  assert (∀ c, c ≠ a → c ≠ b → s'.(nodes) !! c = s.(nodes) !! c) as Ec by (intros c H1 H2; rewrite En, !lookup_insert_ne; done).
  assert (∀ q c, M !! q = Some c → c ≠ a) as HMa by (intros q c Hq ->; destruct (t_node _ _ T q a Hq); congruence).
  assert (∀ c, c ≠ a → nxt s' c = nxt s c) as Hnx.
  { intros c Hc. unfold nxt. destruct (decide (c = b)) as [->|]; [by rewrite Eb, Hxb|by rewrite Ec]. }
  assert (∀ q c x, M !! q = Some c → s'.(nodes) !! c = Some x → ∃ x0, s.(nodes) !! c = Some x0 ∧ x.(name) = x0.(name) ∧ x.(parent) = x0.(parent) ∧
            x.(children) = if decide (c = b) then Some a else x0.(children)) as Hold.
  { intros q c x Hq Hx. pose proof (HMa q c Hq). destruct (decide (c = b)) as [->|]; [rewrite Eb in Hx; injection Hx as <-; by exists xb|].
    rewrite Ec in Hx by done. by exists x. }
  split.
  - rewrite Er. destruct (t_root _ _ T) as (r & E1 & E2). exists r. split; [done|]. rewrite lookup_insert_ne; [done|by destruct p].
  - intros q c Hq. apply lookup_insert_Some in Hq as [[<- <-]|[_ Hq]]; [by eexists|]. pose proof (HMa q c Hq).
    destruct (decide (c = b)) as [->|]; [by eexists|]. rewrite Ec by done. by apply (t_node _ _ T q).
  - intros c x Hx. destruct (decide (c = a)) as [->|Hca]; [exists (p ++ [n]); apply lookup_insert_eq|].
    assert (∃ q, M !! q = Some c) as (q & Hq).
    { destruct (decide (c = b)) as [->|]; [by exists p|]. rewrite Ec in Hx by done. by apply (t_path _ _ T c x). }
    exists q. rewrite lookup_insert_ne; [done|]. intros <-. congruence.
  - intros q q' c Hq Hq'. apply lookup_insert_Some in Hq as [[<- <-]|[_ Hq]], Hq' as [[<- E]|[_ Hq']]; [done| | |by apply (t_inj _ _ T q q' c)].
    + by destruct (HMa q' a Hq').
    + subst. by destruct (HMa q c Hq).
  - intros q k c x Hq Hx. apply lookup_insert_Some in Hq as [[Epp <-]|[Hne Hq]].
    + apply app_inj_tail in Epp as [<- <-]. rewrite Ea in Hx. injection Hx as <-. split; [done|]. split; [done|]. exists b.
      split; [rewrite lookup_insert_ne; [done|]|done]. intros E. pose proof (f_equal length E) as El. rewrite length_app in El. cbn in El. lia.
    + destruct (Hold _ _ _ Hq Hx) as (x0 & Hx0 & -> & -> & _). destruct (t_up _ _ T q k c x0 Hq Hx0) as (E1 & E2 & b' & Hb' & E3).
      split; [done|]. split; [done|]. exists b'. split; [|done]. rewrite lookup_insert_ne; [done|]. intros <-. congruence.
  - intros c x Hq Hx. rewrite lookup_insert_ne in Hq by (by destruct p). destruct (Hold _ _ _ Hq Hx) as (x0 & Hx0 & _ & -> & _). by apply (t_top _ _ T c x0).
  - intros q c x Hq Hx. apply lookup_insert_Some in Hq as [[<- <-]|[Hne Hq]].
    { rewrite Ea in Hx. injection Hx as <-. cbn. rewrite Ey2. exists []. split; [done|]. split; [constructor|]. intros d.
      split; [by intros ?%not_elem_of_nil|]. intros (k & Hk). exfalso. rewrite lookup_insert_ne in Hk.
      - destruct (tree_node _ _ _ _ T Hk) as [xd Hxd]. destruct (t_up _ _ T _ _ _ _ Hk Hxd) as (_ & _ & b' & Hb' & _). congruence.
      - intros E. pose proof (f_equal length E) as El. rewrite !length_app in El. cbn in El. lia. }
    destruct (Hold _ _ _ Hq Hx) as (x0 & Hx0 & _ & _ & ->). destruct (t_kids _ _ T q c x0 Hq Hx0) as (l & Hc & Hnd & Hl).
    assert (∀ d, d ∈ l → d ≠ a) as Hla by (intros d (k & Hk)%Hl; by apply (HMa _ _ Hk)).
    assert (ilist (nxt s') x0.(children) l) as Hc' by (eapply ilist_ext; [|exact Hc]; intros d Hd; apply Hnx; by apply Hla).
    case_decide as Ecb.
    + subst c. assert (q = p) as -> by (by apply (t_inj _ _ T q p b)). assert (x0 = xb) as -> by congruence.
      exists (a :: l). split; [split; [done|unfold nxt at 2; by rewrite Ea]|]. split; [constructor; [intros Hd; by apply (Hla a)|done]|].
      intros d. rewrite elem_of_cons, Hl. split.
      * intros [->|(k & Hk)]; [exists n; apply lookup_insert_eq|]. exists k. rewrite lookup_insert_ne; [done|]. intros E. rewrite <- E in Hk. congruence.
      * intros (k & Hk). apply lookup_insert_Some in Hk as [[_ <-]|[_ Hk]]; [by left|right; by exists k].
    + exists l. split; [done|]. split; [done|]. intros d. rewrite Hl. split.
      * intros (k & Hk). exists k. rewrite lookup_insert_ne; [done|]. intros E. rewrite <- E in Hk. congruence.
      * intros (k & Hk). apply lookup_insert_Some in Hk as [[E _]|[_ Hk]]; [|by exists k]. exfalso.
        apply app_inj_tail in E as [-> _]. congruence.
Qed.

(** Attributes that the tree does not depend on. *)
Definition same_links (x y : vfs_node) : Prop :=
  y.(name) = x.(name) ∧ y.(parent) = x.(parent) ∧ y.(children) = x.(children) ∧ y.(next_sibling) = x.(next_sibling).

Lemma tree_attr s s' M a x y :
  tree s M → s.(nodes) !! a = Some x → same_links x y → s'.(nodes) = <[a := y]> s.(nodes) → s'.(vfs_root) = s.(vfs_root) → tree s' M.
Proof.
  intros T Hx (E1 & E2 & E3 & E4) En Er.
  assert (∀ c z, s'.(nodes) !! c = Some z → ∃ z0, s.(nodes) !! c = Some z0 ∧ same_links z0 z) as Hold.
  { intros c z Hz. rewrite En in Hz. apply lookup_insert_Some in Hz as [[<- <-]|[_ Hz]]; [by exists x|by exists z]. }
  assert (∀ c, nxt s' c = nxt s c) as Hnx.
  { intros c. unfold nxt. rewrite En, lookup_insert. case_decide; [subst; by rewrite Hx|done]. }
  split.
  - rewrite Er. apply T.
  - intros p c Hp. rewrite En, lookup_insert. case_decide; [by eexists|by apply (t_node _ _ T p)].
  - intros c z Hz. destruct (Hold c z Hz) as (z0 & Hz0 & _). by apply (t_path _ _ T c z0).
  - apply T.
  - intros p n c z Hp Hz. destruct (Hold c z Hz) as (z0 & Hz0 & -> & -> & _). by apply (t_up _ _ T p n c z0).
  - intros c z Hp Hz. destruct (Hold c z Hz) as (z0 & Hz0 & _ & -> & _). by apply (t_top _ _ T c z0).
  - intros p b z Hp Hz. destruct (Hold b z Hz) as (z0 & Hz0 & _ & _ & -> & _). destruct (t_kids _ _ T p b z0 Hp Hz0) as (l & Hc & Hr).
    exists l. split; [|done]. eapply ilist_ext; [intros c _; apply Hnx|done].
Qed.

(** ** What the drivers promise

    A driver function returns, leaves the tree and the descriptors alone, and may
    keep blocks of the heap for itself. [lookup] may also add a child of the name it
    was asked for, the way the disk file systems do with [vfs_make_child]. The
    lookups of [devfs] and [procfs] break this promise: they return a node that is
    in no directory. *)

Lemma tree_nodes s s' M : s'.(nodes) = s.(nodes) → s'.(vfs_root) = s.(vfs_root) → tree s M → tree s' M.
Proof.
  intros En Er T. assert (∀ a, nxt s' a = nxt s a) as Hn by (intros a; unfold nxt; by rewrite En).
  split; rewrite ?En, ?Er; try apply T.
  intros p b x Hb Hx. destruct (t_kids _ _ T p b x Hb Hx) as (l & Hc & Hr). exists l. split; [|done].
  eapply ilist_ext; [intros a _; apply Hn|done].
Qed.

Definition same F s s' : Prop :=
  s'.(nodes) = s.(nodes) ∧ s'.(fd_table) = s.(fd_table) ∧ s'.(vfs_root) = s.(vfs_root) ∧ own F s'.

Lemma same_refl F s : own F s → same F s s.
Proof. done. Qed.

(** The result [r] of looking up [n] in the directory [x] at [a]. *)
Definition looked_up F s (a : Z) (x : vfs_node) (n : list Z) s' (r : option Z) : Prop :=
  match r with
  | None => same F s s'
  | Some c => s.(nodes) !! c = None ∧ own F s' ∧ s'.(fd_table) = s.(fd_table) ∧ s'.(vfs_root) = s.(vfs_root) ∧
      ∃ t data, s'.(nodes) = <[a := set_children x (Some c)]> (<[c := set_links (set_fs_data (new_node n t) data) (Some a) x.(children)]> s.(nodes))
  end.

Record driver_ok (Drv : Z → vfs_ops (H:=H) (P:=P)) : Prop := {
  q_lookup d f F s M a x n : (Drv d).(op_lookup) = Some f → own F s → tree s M → s.(nodes) !! a = Some x → name_ok n →
    ∃ s' r, f s a n = Ret (s', r) ∧ looked_up F s a x n s' r;
  q_read d f F s M a off n : (Drv d).(op_read) = Some f → own F s → tree s M → is_Some (s.(nodes) !! a) → 0 ≤ n →
    ∃ s' r out, f s a off n = Ret (s', r, out) ∧ same F s s' ∧ r ≤ n;
  q_write d f F s M a off l : (Drv d).(op_write) = Some f → own F s → tree s M → is_Some (s.(nodes) !! a) →
    ∃ s' r, f s a off l = Ret (s', r) ∧ same F s s' ∧ r ≤ zlen l;
  q_open d f F s M a fl : (Drv d).(op_open) = Some f → own F s → tree s M → is_Some (s.(nodes) !! a) →
    ∃ s' r, f s a fl = Ret (s', r) ∧ same F s s';
  q_close d f F s M a : (Drv d).(op_close) = Some f → own F s → tree s M → is_Some (s.(nodes) !! a) →
    ∃ s' r, f s a = Ret (s', r) ∧ same F s s';
  q_readdir d f F s M a n : (Drv d).(op_readdir) = Some f → own F s → tree s M → is_Some (s.(nodes) !! a) → 0 ≤ n →
    ∃ s' r l, f s a n = Ret (s', r, l) ∧ same F s s';
  q_mkdir d f F s M a n : (Drv d).(op_mkdir) = Some f → own F s → tree s M → is_Some (s.(nodes) !! a) → name_ok n →
    ∃ s' r, f s a n = Ret (s', r) ∧ same F s s';
  q_stat d f F s M a : (Drv d).(op_stat) = Some f → own F s → tree s M → is_Some (s.(nodes) !! a) →
    ∃ s' r st, f s a = Ret (s', r, st) ∧ same F s s';
}.
Definition no_lookup (Drv : Z → vfs_ops (H:=H) (P:=P)) : Prop := ∀ d, (Drv d).(op_lookup) = None.

(** A table all of whose rows come from tables that keep the contract. *)
Lemma driver_ok_rows (Drv : Z → vfs_ops (H:=H) (P:=P)) : (∀ d, ∃ D, driver_ok D ∧ Drv d = D d) → driver_ok Drv.
Proof. intros HD. split; intros d; destruct (HD d) as (D & Q & ->); [apply (q_lookup _ Q)|apply (q_read _ Q)|apply (q_write _ Q)|apply (q_open _ Q)|
  apply (q_close _ Q)|apply (q_readdir _ Q)|apply (q_mkdir _ Q)|apply (q_stat _ Q)]. Qed.

(** What a driver may end its lookup with: [data] is a block of its own. *)
Lemma make_child_spec F s a x n t data :
  own F s → s.(nodes) !! a = Some x → n ≠ [] → data = 0 ∨ data ∈ driver_data s.(priv) →
  ∃ s' r, vfs_make_child s (Some a) (Some n) t data = Ret (s', r) ∧ looked_up F s a x n s' r.
Proof.
  intros O Ha Hn Hd. destruct n as [|k n]; [done|]. unfold vfs_make_child.
  destruct (create_node_spec F s (k :: n) t O) as (s1 & r & -> & O1 & Ef & Er & Ep & Hr). cbn [mbind outcome_bind].
  destruct r as [c|]; [|by exists s1, None].
  destruct Hr as [Hc En]. assert (a ≠ c) as Hac by congruence. set (y := new_node (k :: n) t) in *.
  assert (s1.(nodes) !! c = Some y) as E1 by (rewrite En; apply lookup_insert_eq).
  assert (s1.(nodes) !! a = Some x) as E2 by (rewrite En, lookup_insert_ne; done).
  unfold deref. rewrite E1. cbn [mbind outcome_bind].
  assert (own F (put_node s1 c (set_fs_data y data))) as O2 by (apply (own_put F s1 c y); rewrite ?Ep; done).
  set (s2 := put_node s1 c (set_fs_data y data)) in *.
  assert (s2.(nodes) !! c = Some (set_fs_data y data)) as E3 by apply lookup_insert_eq.
  assert (s2.(nodes) !! a = Some x) as E4 by (cbn; by rewrite lookup_insert_ne).
  set (s3 := put_node s2 c (set_links (set_fs_data y data) (Some a) x.(children))).
  assert (own F s3) as O3 by (apply (own_put F s2 c _ _ O2 E3); cbn; by rewrite Ep).
  assert (s3.(nodes) !! a = Some x) as E5 by (cbn; by rewrite !lookup_insert_ne).
  assert (add_child s2 a c = Ret (put_node s3 a (set_children x (Some c)))) as ->.
  { unfold add_child, deref. rewrite E4. cbn [mbind outcome_bind]. rewrite E3. cbn [mbind outcome_bind].
    fold s3. rewrite E5. done. }
  cbn [mbind outcome_bind]. eexists _, (Some c). split; [done|]. split; [done|].
  split; [apply (own_put F s3 a x _ O3 E5); apply (o_data _ _ O3 a x E5)|]. split; [done|]. split; [done|]. exists t, data.
  cbn. rewrite En. by rewrite !insert_insert_eq.
Qed.

(** ** The abstract file system

    [files] maps the absolute paths to the type and size of what is there, [mnt]
    the mount points to their drivers, and [fds] the descriptors to path, flags
    and offset. *)

Record afs := { files : gmap (list (list Z)) (vfs_node_type_t * Z); mnt : gmap (list (list Z)) Z; fds : list (option (list (list Z) * Z * Z)) }.

Definition find_path (A : afs) (path : list Z) : option (list (list Z)) :=
  match path with 47 :: p => resolve (dom A.(files)) [] (components p) | _ => None end.
(** The driver of a node: that of the nearest mount point above it. *)
Fixpoint driver_from (n : nat) (m : gmap (list (list Z)) Z) (q : list (list Z)) : option Z :=
  match m !! q with
  | Some d => Some d
  | None => match n with O => None | S n => driver_from n m (removelast q) end
  end.
Definition driver (A : afs) (q : list (list Z)) : option Z := driver_from (length q) A.(mnt) q.

Definition fd_rep M (e : vfs_fd_entry) (d : option (list (list Z) * Z * Z)) : Prop :=
  if e.(in_use) then ∃ p a, e.(node) = Some a ∧ M !! p = Some a ∧ d = Some (p, e.(flags), e.(offset)) else d = None.
Definition attr s (a : Z) : option (vfs_node_type_t * Z) := (λ x, (x.(type), x.(size))) <$> s.(nodes) !! a.

Record rep F s M (A : afs) : Prop := {
  r_tree : tree s M;
  r_own : own F s;
  r_files p : A.(files) !! p = M !! p ≫= attr s;
  r_root : ∃ z, A.(files) !! [] = Some (VFS_DIR, z);
  r_ops a x : s.(nodes) !! a = Some x → x.(ops) = None;
  r_mnt p a x : M !! p = Some a → s.(nodes) !! a = Some x → x.(mount_ops) = A.(mnt) !! p;
  r_mnt_in p d : A.(mnt) !! p = Some d → is_Some (M !! p);
  r_len : zlen s.(fd_table) = MAX_OPEN_FILES;
  r_dlen : zlen A.(fds) = MAX_OPEN_FILES;
  r_fd i : 0 ≤ i < MAX_OPEN_FILES → fd_rep M (s.(fd_table).[i]) (A.(fds).[i]);
}.

Lemma rep_dom F s M A : rep F s M A → dom A.(files) = dom M.
Proof.
  intros R. apply set_eq. intros p. rewrite !elem_of_dom, (r_files _ _ _ _ R p). destruct (M !! p) as [a|] eqn:E; cbn.
  - destruct (tree_node _ _ _ _ (r_tree _ _ _ _ R) E) as [x Hx]. unfold attr. rewrite Hx. cbn. by split; eexists.
  - split; by intros [? ?].
Qed.

Lemma rep_file F s M A p a : rep F s M A → M !! p = Some a → ∃ x, s.(nodes) !! a = Some x ∧ A.(files) !! p = Some (x.(type), x.(size)).
Proof.
  intros R E. destruct (tree_node _ _ _ _ (r_tree _ _ _ _ R) E) as [x Hx]. exists x. split; [done|].
  rewrite (r_files _ _ _ _ R p), E. cbn. unfold attr. by rewrite Hx.
Qed.

(** The frame may change with the state. *)
Lemma rep_reframe F F' s s' M A : same F' s s' → rep F s M A → rep F' s' M A.
Proof.
  intros Hs R. pose proof Hs as (En & Ef & Er & Eo). split; try apply R; try done.
  - by eapply tree_nodes; [| |apply R].
  - intros p. rewrite (r_files _ _ _ _ R p). unfold attr. by rewrite En.
  - intros a x. rewrite En. apply R.
  - intros p a x Hp. rewrite En. by apply R.
  - rewrite Ef. apply R.
  - intros i Hi. rewrite Ef. by apply R.
Qed.
Lemma rep_same F s s' M A : same F s s' → rep F s M A → rep F s' M A.
Proof. apply rep_reframe. Qed.

Lemma resolve_in F s M A p cs q : rep F s M A → is_Some (M !! p) → resolve (dom M) p cs = Some q → is_Some (M !! q).
Proof.
  intros R. revert p. induction cs as [|c cs IH]; intros p Hp; cbn; [by intros [= <-]|].
  intros (p' & Hstep & Hq)%bind_Some. apply (IH p'); [|done]. unfold rstep in Hstep. repeat case_decide; simplify_eq.
  - done.
  - destruct Hp as [a Ha]. destruct p as [|n p _] using rev_ind; [by exists a|]. rewrite removelast_last.
    destruct (tree_node _ _ _ _ (r_tree _ _ _ _ R) Ha) as [x Hx]. destruct (t_up _ _ (r_tree _ _ _ _ R) p n a x Ha Hx) as (_ & _ & b & Hb & _).
    by exists b.
  - by apply elem_of_dom.
Qed.

Lemma get_ops_rep Drv F s M A p a : rep F s M A → M !! p = Some a → get_ops Drv s a = Ret (Drv <$> driver A p).
Proof.
  intros R Ha. pose proof (r_tree _ _ _ _ R) as T.
  assert (∀ p a x, M !! p = Some a → s.(nodes) !! a = Some x → own_ops x = A.(mnt) !! p) as Hown.
  { intros q c x Hc Hx. unfold own_ops. rewrite (r_mnt _ _ _ _ R q c x Hc Hx), (r_ops _ _ _ _ R c x Hx). by destruct (A.(mnt) !! q). }
  assert (∀ p fuel a, M !! p = Some a → (length p < fuel)%nat → ops_from fuel s (Some a) = Ret (driver A p)) as Hup.
  { clear p a Ha. intros p. induction p as [|n p IH] using rev_ind; intros fuel a Ha Hf; (destruct fuel as [|fuel]; [lia|]); cbn [ops_from];
      destruct (tree_node _ _ _ _ T Ha) as [x Hx]; unfold deref; rewrite Hx; cbn [mbind outcome_bind]; rewrite (Hown _ a x Ha Hx).
    - unfold driver. cbn. destruct (A.(mnt) !! []); [done|]. rewrite (t_top _ _ T a x Ha Hx). by destruct fuel.
    - unfold driver. rewrite length_app. cbn [length]. rewrite Nat.add_1_r. cbn [driver_from]. destruct (A.(mnt) !! (p ++ [n])); [done|].
      destruct (t_up _ _ T p n a x Ha Hx) as (_ & _ & b & Hb & ->). rewrite removelast_last. rewrite length_app in Hf. cbn in Hf.
      rewrite (IH fuel b Hb) by lia. done. }
  unfold get_ops. destruct (tree_node _ _ _ _ T Ha) as [x Hx]. unfold deref. rewrite Hx. cbn [mbind outcome_bind]. rewrite (Hown p a x Ha Hx).
  assert ((match A.(mnt) !! p with Some o => Ret (Some o) | None => ops_from (fuel_of s) s x.(parent) end : outcome (option Z)) = Ret (driver A p)) as ->.
  { unfold driver. destruct p as [|n p _] using rev_ind; cbn [length].
    - cbn. destruct (A.(mnt) !! []); [done|]. rewrite (t_top _ _ T a x Ha Hx). by destruct (fuel_of s).
    - rewrite length_app. cbn [length]. rewrite Nat.add_1_r. cbn [driver_from]. destruct (A.(mnt) !! (p ++ [n])); [done|].
      destruct (t_up _ _ T p n a x Ha Hx) as (_ & _ & b & Hb & ->). rewrite removelast_last.
      rewrite (Hup p _ b Hb) by (by apply (path_length s M p b)). done. }
  cbn [mbind outcome_bind]. by destruct (driver A p).
Qed.

Definition add_file (A : afs) q (t : vfs_node_type_t) : afs := {| files := <[q := (t, 0)]> A.(files); mnt := A.(mnt); fds := A.(fds) |}.

Lemma name_cut n : name_ok n → cut_name n = n.
Proof. intros (_ & _ & _ & _ & Hl). unfold cut_name. apply take_ge. change (Z.to_nat (VFS_NAME_MAX - 1)) with 127%nat. lia. Qed.

(** What a new node [a] under the one of [p] changes. *)
Lemma rep_grow F s s2 M A p b xb a n t data :
  rep F s M A → M !! p = Some b → s.(nodes) !! b = Some xb → s.(nodes) !! a = None → M !! (p ++ [n]) = None → name_ok n →
  own F s2 → s2.(fd_table) = s.(fd_table) → s2.(vfs_root) = s.(vfs_root) →
  s2.(nodes) = <[b := set_children xb (Some a)]> (<[a := set_links (set_fs_data (new_node n t) data) (Some b) xb.(children)]> s.(nodes)) →
  rep F s2 (<[p ++ [n] := a]> M) (add_file A (p ++ [n]) t).
Proof.
  intros R Hb Hxb Ha Hnew Hn O2 Ef Er En2. pose proof (r_tree _ _ _ _ R) as T. assert (b ≠ a) as Hba by congruence.
  assert (A.(mnt) !! (p ++ [n]) = None) as Hmnt.
  { destruct (A.(mnt) !! (p ++ [n])) as [d|] eqn:E; [|done]. destruct (r_mnt_in _ _ _ _ R _ d E). congruence. }
  assert (∀ q c, M !! q = Some c → c ≠ a) as HMa by (intros q c Hq ->; destruct (t_node _ _ T q a Hq); congruence).
  assert (∀ c z, s2.(nodes) !! c = Some z → c = a ∧ z.(ops) = None ∧ z.(mount_ops) = None ∨
     c ≠ a ∧ ∃ z0, s.(nodes) !! c = Some z0 ∧ z.(ops) = z0.(ops) ∧ z.(mount_ops) = z0.(mount_ops)) as Hold.
  { intros c z Hz. rewrite En2 in Hz. apply lookup_insert_Some in Hz as [[<- <-]|[_ Hz]]; [right; split; [done|by exists xb]|].
    apply lookup_insert_Some in Hz as [[<- <-]|[? Hz]]; [by left|right; split; [done|by exists z]]. }
  assert (∀ q c, M !! q = Some c → attr s2 c = attr s c) as Hattr.
  { intros q c Hq. pose proof (HMa q c Hq). unfold attr. rewrite En2, lookup_insert. case_decide as E2; [subst; by rewrite Hxb|].
    by rewrite lookup_insert_ne. }
  split; [|done|..].
  - apply (tree_add s s2 M p b xb a (set_fs_data (new_node n t) data) n); try done. cbn. by rewrite name_cut.
  - intros q. cbn. rewrite !lookup_insert. case_decide.
    + cbn. unfold attr. rewrite En2, lookup_insert_ne, lookup_insert_eq by done. done.
    + rewrite (r_files _ _ _ _ R q). destruct (M !! q) as [c|] eqn:Ec; cbn; [|done]. by rewrite (Hattr q c).
  - destruct (r_root _ _ _ _ R) as [z Hz]. exists z. cbn. rewrite lookup_insert_ne; [done|by destruct p].
  - intros c z Hz. destruct (Hold c z Hz) as [(_ & -> & _)|(_ & z0 & Hz0 & -> & _)]; [done|by apply (r_ops _ _ _ _ R c)].
  - intros q c z Hq Hz. cbn. apply lookup_insert_Some in Hq as [[<- <-]|[_ Hq]].
    + rewrite Hmnt. by destruct (Hold a z Hz) as [(_ & _ & ->)|[? _]].
    + pose proof (HMa q c Hq). destruct (Hold c z Hz) as [[? _]|(_ & z0 & Hz0 & _ & ->)]; [done|]. by apply (r_mnt _ _ _ _ R q c z0).
  - intros q d Hd. rewrite lookup_insert. case_decide; [by eexists|by apply (r_mnt_in _ _ _ _ R q d)].
  - rewrite Ef. apply R.
  - apply R.
  - intros i Hi. cbn [add_file fds]. rewrite Ef. pose proof (r_fd _ _ _ _ R i Hi) as Hfd.
    unfold fd_rep in *. destruct (in_use _); [|done]. destruct Hfd as (q & c & E2 & E3 & E4). exists q, c. split; [done|].
    split; [|done]. rewrite lookup_insert_ne; [done|]. intros <-. congruence.
Qed.

(** [create_node] and [add_child] of a file that is not there. *)
Lemma rep_attach F s M A p b n t :
  rep F s M A → M !! p = Some b → M !! (p ++ [n]) = None → name_ok n →
  ∃ s1 r, create_node s n t = Ret (s1, r) ∧
    match r with
    | None => rep F s1 M A
    | Some a => ∃ s2, add_child s1 b a = Ret s2 ∧
        (x ← deref s1 b; y ← deref s1 a; add_child (put_node s1 a (set_ops y x.(ops))) b a) = Ret s2 ∧
        rep F s2 (<[p ++ [n] := a]> M) (add_file A (p ++ [n]) t)
    end.
Proof.
  intros R Hb Hnew Hn. pose proof (r_tree _ _ _ _ R) as T.
  destruct (create_node_spec F s n t (r_own _ _ _ _ R)) as (s1 & r & E & O1 & Ef & Er & Ep & Hr). exists s1, r. split; [done|].
  destruct r as [a|].
  2:{ split; try apply R; try done.
      - by eapply tree_nodes; [| |exact T].
      - intros q. rewrite (r_files _ _ _ _ R q). unfold attr. by rewrite Hr.
      - intros a x. rewrite Hr. apply R.
      - intros q a x Hq. rewrite Hr. by apply R.
      - rewrite Ef. apply R.
      - intros i Hi. rewrite Ef. by apply R. }
  destruct Hr as [Ha Hn1]. destruct (tree_node _ _ _ _ T Hb) as [xb Hxb]. assert (b ≠ a) as Hba by congruence.
  set (y := new_node n t) in *.
  assert (s1.(nodes) !! b = Some xb) as E1b by (rewrite Hn1, lookup_insert_ne; done).
  assert (s1.(nodes) !! a = Some y) as E1a by (rewrite Hn1; apply lookup_insert_eq).
  set (s2 := put_node (put_node s1 a (set_links y (Some b) xb.(children))) b (set_children xb (Some a))).
  assert (add_child s1 b a = Ret s2) as Ead.
  { unfold add_child, deref. rewrite E1b. cbn [mbind outcome_bind]. rewrite E1a. cbn [mbind outcome_bind].
    cbn [put_node with_nodes nodes]. rewrite lookup_insert_ne, E1b by done. done. }
  exists s2. split; [done|]. split.
  { unfold deref. rewrite E1b. cbn [mbind outcome_bind]. rewrite E1a. cbn [mbind outcome_bind]. rewrite (r_ops _ _ _ _ R b xb Hxb).
    change (set_ops y None) with y. assert (put_node s1 a y = s1) as ->; [|done]. unfold put_node, with_nodes.
    rewrite insert_id by done. by destruct s1. }
  assert (s2.(nodes) = <[b := set_children xb (Some a)]> (<[a := set_links y (Some b) xb.(children)]> s.(nodes))) as En2.
  { cbn. rewrite Hn1. by rewrite insert_insert_eq. }
  apply (rep_grow F s s2 M A p b xb a n t 0); try done.
  apply (own_put F _ b xb); [|cbn; by rewrite lookup_insert_ne|apply (o_data _ _ O1 b xb E1b)].
  apply (own_put F s1 a y _ O1 E1a). apply (o_data _ _ O1 a y E1a).
Qed.

(** ** Walking a path

    On the way a driver may discover files of the names in the path, in directories
    that it serves. *)

Definition driver_op {Fn} (Drv : Z → vfs_ops (H:=H) (P:=P)) (A : afs) q (sel : vfs_ops (H:=H) (P:=P) → option Fn) : option Fn :=
  driver A q ≫= λ d, sel (Drv d).

Inductive discovers (Drv : Z → vfs_ops (H:=H) (P:=P)) (names : list (list Z)) : afs → afs → Prop :=
  | disc_none A : discovers Drv names A A
  | disc_file A p n t A' :
      p ∈ dom A.(files) → is_Some (driver_op Drv A p op_lookup) → n ∈ names → name_ok n → p ++ [n] ∉ dom A.(files) →
      discovers Drv names (add_file A (p ++ [n]) t) A' → discovers Drv names A A'.

Lemma discovers_trans Drv names A B C : discovers Drv names A B → discovers Drv names B C → discovers Drv names A C.
Proof. induction 1; [done|]. intros ?. eapply disc_file; eauto. Qed.
Lemma discovers_names Drv names names' A B : names ⊆ names' → discovers Drv names A B → discovers Drv names' A B.
Proof. intros Hs. induction 1; [constructor|]. eapply disc_file; eauto. Qed.
Lemma no_discovery Drv names A B : no_lookup Drv → discovers Drv names A B → B = A.
Proof. intros Hn Hd. destruct Hd as [|A p n t B _ [f Hf]]; [done|]. apply bind_Some in Hf as (d & _ & Hf). by rewrite Hn in Hf. Qed.

(** A lookup through the driver of the directory [p]. *)
Lemma lookup_rep Drv F s M A p a n :
  driver_ok Drv → rep F s M A → M !! p = Some a → M !! (p ++ [n]) = None → name_ok n →
  ∃ s' M' A' r, (pop ← get_ops Drv s a;
     match pop with
     | Some d => match d.(op_lookup) with Some f => f s a n | None => Ret (s, None) end
     | None => Ret (s, None)
     end) = Ret (s', r) ∧ rep F s' M' A' ∧
    match r with
    | None => M' = M ∧ A' = A
    | Some c => M' = <[p ++ [n] := c]> M ∧ is_Some (driver_op Drv A p op_lookup) ∧ ∃ t, A' = add_file A (p ++ [n]) t
    end.
Proof.
  intros Q R Ha Hnew Hn. rewrite (get_ops_rep Drv F s M A p a R Ha). cbn [mbind outcome_bind].
  destruct (driver A p) as [d|] eqn:Ed; cbn [fmap option_fmap option_map]; [|by exists s, M, A, None].
  destruct (op_lookup (Drv d)) as [f|] eqn:Ef; [|by exists s, M, A, None]. pose proof (r_tree _ _ _ _ R) as T.
  destruct (tree_node _ _ _ _ T Ha) as [x Hx].
  destruct (q_lookup _ Q d f F s M a x n Ef (r_own _ _ _ _ R) T Hx Hn) as (s' & r & -> & Hr). destruct r as [c|]; cbn in Hr.
  - destruct Hr as (Hc & O & Efd & Er & t & data & En). exists s', (<[p ++ [n] := c]> M), (add_file A (p ++ [n]) t), (Some c).
    split; [done|]. split; [by apply (rep_grow F s s' M A p a x c n t data)|]. split; [done|].
    split; [unfold driver_op; rewrite Ed; cbn; by eexists|by exists t].
  - exists s', M, A, None. split; [done|]. split; [by eapply rep_same|done].
Qed.

(** What a walk from [p] along the names [cs] leaves: new files lie at most as deep
    as the path is long. *)
Definition walked Drv F s M A p cs s' (r : option Z) : Prop :=
  ∃ M' A', r = resolve (dom A'.(files)) p cs ≫= (λ q, M' !! q) ∧ rep F s' M' A' ∧ discovers Drv cs A A' ∧ M ⊆ M' ∧
    ∀ q, q ∈ dom A'.(files) → q ∈ dom A.(files) ∨ (length q ≤ length p + length cs)%nat.

Lemma walk_from_rep Drv F : driver_ok Drv → ∀ fuel s M A p a path,
  rep F s M A → M !! p = Some a → short (components path) → (length path < fuel)%nat →
  ∃ s' r, walk_from Drv fuel s a path = Ret (s', r) ∧ walked Drv F s M A p (components path) s' r.
Proof.
  intros Q fuel. induction fuel as [|fuel IH]; intros s M A p a path R Ha Hs Hf; [lia|]. cbn [walk_from].
  rewrite <- comps_skip in *. pose proof (skip_head path) as Hh. pose proof (skip_length path) as Hl.
  pose proof (r_tree _ _ _ _ R) as T.
  destruct (skip_slashes path) as [|c q].
  { exists s, (Some a). split; [done|]. exists M, A. cbn. rewrite Ha. split; [done|]. split; [done|]. split; [constructor|]. split; [done|]. by left. }
  destruct (next_component c q Hh Hs) as (w & r & -> & Hne & Hw & Ec & Hlen & Hw127). rewrite Ec in *. apply Forall_cons in Hs as [_ Hs].
  assert (length r < fuel)%nat as Hfr by (cbn in *; lia).
  assert (∀ s1 M1 A1 p1 a1, rep F s1 M1 A1 → M1 !! p1 = Some a1 → M ⊆ M1 → discovers Drv (w :: components r) A A1 → (length p1 ≤ S (length p))%nat →
    (∀ q, q ∈ dom A1.(files) → q ∈ dom A.(files) ∨ (length q ≤ S (length p))%nat) →
    (∀ D, dom M1 ⊆ D → rstep D p w = Some p1) →
    ∃ s' res, walk_from Drv fuel s1 a1 r = Ret (s', res) ∧ walked Drv F s M A p (w :: components r) s' res) as Hgo.
  { intros s1 M1 A1 p1 a1 R1 Ha1 HM HA Hp1 Hnew1 Hstep. destruct (IH s1 M1 A1 p1 a1 r R1 Ha1 Hs Hfr) as (s' & res & -> & M' & A' & -> & R' & HA' & HM' & Hnew').
    exists s'. eexists. split; [done|]. exists M', A'. cbn [resolve]. rewrite Hstep by (rewrite (rep_dom _ _ _ _ R'); by apply subseteq_dom).
    split; [done|]. split; [done|]. split; [eapply discovers_trans; [exact HA|]; eapply discovers_names; [|exact HA']; intros ? ?; by right|].
    split; [by etrans|]. intros k [Hk|Hk]%Hnew'; [|right; cbn; lia]. destruct (Hnew1 k Hk) as [?|?]; [by left|right; cbn; lia]. }
  case_bool_decide as E1.
  { subst w. apply (Hgo s M A p a R Ha); [done|apply disc_none|lia|by left|]. intros D _. unfold rstep. by rewrite decide_True. }
  case_bool_decide as E2.
  { subst w. destruct (tree_node _ _ _ _ T Ha) as [x Hx]. unfold deref. rewrite Hx. cbn [mbind outcome_bind].
    apply (Hgo s M A (removelast p)); [done| |done|apply disc_none|destruct p as [|n p _] using rev_ind; [cbn; lia|]; rewrite removelast_last, length_app; lia|by left|].
    - destruct p as [|n p _] using rev_ind; [by rewrite (t_top _ _ T a x Ha Hx)|].
      destruct (t_up _ _ T p n a x Ha Hx) as (_ & _ & b & Hb & ->). by rewrite removelast_last.
    - intros D _. unfold rstep. by rewrite decide_False, decide_True by done. }
  rewrite (find_child_spec s M p a w T Ha). cbn [mbind outcome_bind].
  assert (∀ D, p ++ [w] ∈ D → rstep D p w = Some (p ++ [w])) as Hst by (intros D HD; unfold rstep; by rewrite !decide_False, decide_True by done).
  assert (length (p ++ [w]) = S (length p)) as Hpw by (rewrite length_app; cbn; lia).
  destruct (M !! (p ++ [w])) as [b|] eqn:Eb.
  { cbn [mbind outcome_bind]. apply (Hgo s M A (p ++ [w]) b R Eb); [done|apply disc_none|lia|by left|].
    intros D HD. apply Hst, HD. by eapply elem_of_dom_2. }
  assert (name_ok w) as Hok by (split; [done|]; split; [done|]; split; [done|]; split; done).
  destruct (lookup_rep Drv F s M A p a w Q R Ha Eb Hok) as (s1 & M1 & A1 & o & E & R1 & Ho). cbn [mbind outcome_bind] in E |- *. rewrite E.
  cbn [mbind outcome_bind]. assert (p ++ [w] ∉ dom A.(files)) as HnA by (rewrite (rep_dom _ _ _ _ R); by apply not_elem_of_dom).
  destruct o as [b|].
  - destruct Ho as (-> & Hop & t & ->). apply (Hgo s1 _ _ (p ++ [w]) b R1); [apply lookup_insert_eq|by apply insert_subseteq| |lia| |].
    + eapply disc_file; [|done|by left|done|done|constructor]. rewrite (rep_dom _ _ _ _ R). by eapply elem_of_dom_2.
    + intros k. cbn. rewrite dom_insert, elem_of_union, elem_of_singleton. intros [->|?]; [right; lia|by left].
    + intros D HD. apply Hst, HD. rewrite dom_insert. set_solver.
  - destruct Ho as [-> ->]. exists s1, None. split; [done|]. exists M, A. split; [|split; [done|split; [constructor|split; [done|by left]]]].
    cbn [resolve]. unfold rstep. by rewrite !decide_False by done.
Qed.

(** [vfs_walk_path], and the state it leaves. *)
Lemma walk_rep Drv F s M A path :
  driver_ok Drv → rep F s M A → short (components path) →
  ∃ s' M' A', vfs_walk_path Drv s (Some path) = Ret (s', find_path A' path ≫= λ q, M' !! q) ∧ rep F s' M' A' ∧
    discovers Drv (components path) A A' ∧ M ⊆ M' ∧ (∀ q, find_path A' path = Some q → ∃ a, M' !! q = Some a) ∧
    ∀ q, q ∈ dom A'.(files) → q ∈ dom A.(files) ∨ (length q ≤ length (components path))%nat.
Proof.
  intros Q R Hs. unfold vfs_walk_path. destruct path as [|c p].
  { exists s, M, A. split; [done|]. split; [done|]. split; [constructor|]. split; [done|]. split; [done|by left]. }
  destruct (decide (c = 47)) as [->|Hc].
  - destruct (t_root _ _ (r_tree _ _ _ _ R)) as (r & Er & Hr). rewrite Er.
    destruct (walk_from_rep Drv F Q (S (length p)) s M A [] r p R Hr Hs ltac:(lia)) as (s' & res & -> & M' & A' & -> & R' & HA & HM & Hd).
    exists s', M', A'. split; [done|]. split; [done|]. split; [done|]. split; [done|]. split; [|done].
    intros q Hq. cbn [find_path] in Hq. rewrite (rep_dom _ _ _ _ R') in Hq. apply (resolve_in F s' M' A' [] (components p) q R'); [|done].
    exists r. by eapply lookup_weaken.
  - exists s, M, A. assert (find_path A (c :: p) = None) as -> by (unfold find_path; repeat case_match; congruence).
    split; [repeat case_match; (done || congruence)|]. split; [done|]. split; [constructor|]. split; [done|]. split; [done|by left].
Qed.

Definition plain (cs : list (list Z)) : Prop := Forall (λ c, c ≠ [46] ∧ c ≠ [46; 46]) cs.

Lemma resolve_plain D cs : plain cs → ∀ q r, resolve D q cs = Some r → r = q ++ cs.
Proof.
  induction 1 as [|c cs [H1 H2] _ IH]; intros q r; cbn; [intros [= <-]; by rewrite app_nil_r|].
  intros (q' & Hstep & Hq)%bind_Some. unfold rstep in Hstep. repeat case_decide; try done. injection Hstep as <-.
  rewrite (IH _ _ Hq). by rewrite <- app_assoc.
Qed.

(** The directories above a file are there. *)
Lemma resolve_prefix F s M A cs : rep F s M A → plain cs → ∀ q, q ++ cs ∈ dom A.(files) → resolve (dom A.(files)) q cs = Some (q ++ cs).
Proof.
  intros R. induction 1 as [|c cs [H1 H2] _ IH]; intros q Hq; cbn [resolve]; [by rewrite app_nil_r|].
  assert (∀ l q, q ++ l ∈ dom A.(files) → q ∈ dom A.(files)) as Hup.
  { clear -R. intros l. induction l as [|n l IH] using rev_ind; intros q; [by rewrite app_nil_r|]. rewrite app_assoc. intros Hq. apply IH.
    rewrite (rep_dom _ _ _ _ R) in *. apply elem_of_dom in Hq as [a Ha]. destruct (tree_node _ _ _ _ (r_tree _ _ _ _ R) Ha) as [x Hx].
    destruct (t_up _ _ (r_tree _ _ _ _ R) _ n a x Ha Hx) as (_ & _ & b & Hb & _). by eapply elem_of_dom_2. }
  replace (q ++ c :: cs) with ((q ++ [c]) ++ cs) in * by (by rewrite <- app_assoc). unfold rstep.
  rewrite !decide_False, decide_True by (done || by eapply Hup). cbn. by apply IH.
Qed.

Lemma find_relative A c p : c ≠ 47 → find_path A (c :: p) = None.
Proof. intros Hc. unfold find_path. repeat case_match; congruence. Qed.

(** Splitting a path at its last slash. *)
Lemma find_split F s M A (par base : list Z) :
  rep F s M A → (47 ∉ base) → find_path A (par ++ 47 :: base) =
  (if decide (par = []) then Some [] else find_path A par) ≫= λ q, resolve (dom A.(files)) q (emit base).
Proof.
  intros R Hb. destruct par as [|c par].
  - rewrite decide_True by done. cbn. unfold components. rewrite <- (components_base base Hb). done.
  - rewrite decide_False by done. cbn [app]. destruct (decide (c = 47)) as [->|Hc].
    + unfold find_path, components. rewrite comps_app, resolve_app. rewrite (components_base base Hb). done.
    + by rewrite !find_relative.
Qed.

Lemma short_split (par base : list Z) : 47 ∉ base → short (components (par ++ 47 :: base)) → short (components par) ∧ short (emit base).
Proof.
  intros Hb. unfold components. rewrite comps_app. intros [H1 H2]%Forall_app. rewrite components_base in H2 by done. done.
Qed.

(** A path that leads nowhere, below a directory that exists, has a proper name at its end. *)
Lemma missing_name F s M A (base : list Z) q :
  rep F s M A → 47 ∉ base → short (emit base) →
  resolve (dom A.(files)) q (emit base) = None → name_ok base ∧ M !! (q ++ [base]) = None.
Proof.
  intros R Hb Hs Hn. rewrite (rep_dom _ _ _ _ R) in Hn. destruct base as [|c base]; [done|]. cbn [emit resolve] in *. apply Forall_cons in Hs as [Hs _].
  unfold rstep in Hn. repeat case_decide; try done. split; [|by apply not_elem_of_dom]. split; [done|]. done.
Qed.

(** The path that [mkdir] and [open] would create: its directory must exist. *)
Definition new_path (A : afs) (path : list Z) : option (list (list Z)) :=
  match split_last path with
  | Some (par, base) =>
      q ← (if decide (par = []) then Some [] else find_path A par);
      match A.(files) !! q with Some (VFS_DIR, _) => Some (q ++ [base]) | _ => None end
  | None => None
  end.

Definition path_ok (path : list Z) : Prop := (length path < 512)%nat ∧ short (components path).

Lemma cut_path_ok path : path_ok path → cut_path path = path.
Proof. intros [Hl _]. unfold cut_path. apply take_ge. change (Z.to_nat (VFS_PATH_MAX - 1)) with 511%nat. lia. Qed.

(** The directory of a path that does not exist. *)
Lemma parent_rep F s M A path par base :
  rep F s M A → path_ok path → split_last path = Some (par, base) → find_path A path = None →
  (47 ∉ base) ∧ short (components par) ∧
  ∀ q, (if decide (par = []) then Some [] else find_path A par) = Some q → name_ok base ∧ M !! (q ++ [base]) = None.
Proof.
  intros R [_ Hs] Es Hf. pose proof (split_last_spec path) as Hsp. rewrite Es in Hsp. destruct Hsp as [-> Hb].
  destruct (short_split par base Hb Hs) as [Hsp Hsb]. split; [done|]. split; [done|]. intros q Hq.
  rewrite (find_split F s M A par base R Hb), Hq in Hf. cbn [mbind option_bind] in Hf. by apply (missing_name F s M A base q R).
Qed.

(** A path under which something may be made: it is walked twice, and the second
    walk must not discover what the first one missed. *)
Definition creatable (Drv : Z → vfs_ops (H:=H) (P:=P)) (path : list Z) : Prop :=
  no_lookup Drv ∨ plain (components path) ∧ last path ≠ Some 47.

(** The second walk of a path that leads nowhere, to its directory. *)
Lemma second_walk Drv F s M A path par base :
  driver_ok Drv → rep F s M A → path_ok path → creatable Drv path → split_last path = Some (par, base) → find_path A path = None →
  ∃ s' M' A', vfs_walk_path Drv s (Some par) = Ret (s', find_path A' par ≫= λ q, M' !! q) ∧ rep F s' M' A' ∧
    discovers Drv (components path) A A' ∧ (∀ q, find_path A' par = Some q → ∃ a, M' !! q = Some a) ∧ find_path A' path = None.
Proof.
  intros Q R [_ Hs] Hc Es Hf. pose proof (split_last_spec path) as Hsp. rewrite Es in Hsp. destruct Hsp as [-> Hb].
  destruct (short_split par base Hb Hs) as [Hsp _].
  assert (components (par ++ 47 :: base) = components par ++ emit base) as Ecs by (unfold components; rewrite comps_app; by rewrite <- (components_base base Hb)).
  destruct (walk_rep Drv F s M A par Q R Hsp) as (s' & M' & A' & E & R' & HA & _ & Hin & Hnew). exists s', M', A'. split; [done|]. split; [done|].
  split; [rewrite Ecs; eapply discovers_names; [|exact HA]; set_solver +|]. split; [done|].
  destruct Hc as [Hno|[Hp Hl]]; [by rewrite (no_discovery _ _ _ _ Hno HA)|].
  destruct (decide (base = [])) as [->|Hbase]; [by rewrite last_snoc in Hl|].
  assert (emit base = [base]) as Em by (by destruct base). rewrite Ecs, Em in Hp. pose proof Hp as [Hpar Hp1]%Forall_app. apply Forall_cons in Hp1 as [[H1 H2] _].
  rewrite (find_split F s' M' A' par base R' Hb), Em. destruct (if decide (par = []) then Some [] else find_path A' par) as [q|] eqn:Eq; [|done].
  cbn. unfold rstep. rewrite !decide_False by done. destruct (decide (q ++ [base] ∈ dom A'.(files))) as [Hin'|]; [|done]. exfalso.
  assert (q = components par) as ->.
  { destruct (decide (par = [])) as [->|Hne]; [by injection Eq as <-|]. unfold find_path in Eq. destruct par as [|c p]; [done|].
    destruct (decide (c = 47)) as [->|]; [|by repeat case_match]. change (components (47 :: p)) with (components p) in *.
    by apply (resolve_plain _ _ Hpar [] q) in Eq. }
  destruct (Hnew _ Hin') as [Hold|Hlen]; [|rewrite length_app in Hlen; cbn in Hlen; lia].
  assert (resolve (dom A.(files)) [] (components par ++ [base]) = Some (components par ++ [base])) as Er.
  { apply (resolve_prefix F s M A _ R Hp []). done. }
  enough (find_path A (par ++ 47 :: base) = resolve (dom A.(files)) [] (components (par ++ 47 :: base))) as E1 by (rewrite E1, Ecs, Em, Er in Hf; done).
  destruct par as [|c p]; [done|]. rewrite decide_False in Eq by done. destruct (decide (c = 47)) as [->|]; [done|]. by rewrite find_relative in Eq.
Qed.

Definition is_dir (A : afs) (q : list (list Z)) : bool := match A.(files) !! q with Some (VFS_DIR, _) => true | _ => false end.

Lemma is_dir_rep F s M A q b x :
  rep F s M A → M !! q = Some b → s.(nodes) !! b = Some x → bool_decide (x.(type) = VFS_DIR) = is_dir A q.
Proof.
  intros R Hb Hx. unfold is_dir. destruct (rep_file F s M A q b R Hb) as (x' & Hx' & ->). assert (x' = x) as -> by congruence.
  by destruct (type x).
Qed.

Inductive mkdir_spec (Drv : Z → vfs_ops (H:=H) (P:=P)) (A : afs) (path : list Z) : Z → afs → Prop :=
  | mk_relative : head path ≠ Some 47 → mkdir_spec Drv A path (- EINVAL) A
  | mk_exists q : head path = Some 47 → find_path A path = Some q → mkdir_spec Drv A path (- EEXIST) A
  | mk_noent : head path = Some 47 → find_path A path = None → new_path A path = None → mkdir_spec Drv A path (- ENOENT) A
  | mk_refused q d rc : head path = Some 47 → find_path A path = None → new_path A path = Some q → driver A (removelast q) = Some d →
      is_Some (Drv d).(op_mkdir) → rc < 0 → mkdir_spec Drv A path rc A
  | mk_nomem q : head path = Some 47 → find_path A path = None → new_path A path = Some q → mkdir_spec Drv A path (- ENOMEM) A
  | mk_done q : head path = Some 47 → find_path A path = None → new_path A path = Some q → mkdir_spec Drv A path 0 (add_file A q VFS_DIR).

(** The end of [mkdir], in the directory [q] at [b]. *)
Lemma mkdir_in Drv F s M A path q b base :
  driver_ok Drv → rep F s M A → head path = Some 47 → find_path A path = None → new_path A path = (if is_dir A q then Some (q ++ [base]) else None) →
  M !! q = Some b → name_ok base → M !! (q ++ [base]) = None →
  ∃ s' M' A' rc,
    (x ← deref s b;
     if negb (bool_decide (x.(type) = VFS_DIR)) then Ret (s, - ENOENT) else
     o ← get_ops Drv s b;
     r ← match o with
         | Some d => match d.(op_mkdir) with Some f => f s b base | None => Ret (s, 0) end
         | None => Ret (s, 0)
         end;
     let '(s, rc) := r in
     if rc <? 0 then Ret (s, rc) else
     r ← create_node s base VFS_DIR;
     let '(s, a) := r in
     match a with
     | None => Ret (s, - ENOMEM)
     | Some a => x ← deref s b; y ← deref s a; s ← add_child (put_node s a (set_ops y x.(ops))) b a; Ret (s, 0)
     end) = Ret (s', rc) ∧ mkdir_spec Drv A path rc A' ∧ rep F s' M' A'.
Proof.
  intros Q R Hh Hf Hnp Hb Hn Hnew. destruct (tree_node _ _ _ _ (r_tree _ _ _ _ R) Hb) as [x Hx].
  assert (deref s b = Ret x) as -> by (unfold deref; by rewrite Hx).
  cbn [mbind outcome_bind]. rewrite (is_dir_rep F s M A q b x R Hb Hx). destruct (is_dir A q); cbn [negb].
  2:{ exists s, M, A, (- ENOENT). split; [done|]. split; [by apply mk_noent|done]. }
  rewrite (get_ops_rep Drv F s M A q b R Hb). cbn [mbind outcome_bind].
  assert (∃ s1 rc, match Drv <$> driver A q with
                   | Some d => match d.(op_mkdir) with Some f => f s b base | None => Ret (s, 0) end
                   | None => Ret (s, 0)
                   end = Ret (s1, rc) ∧ same F s s1 ∧ (rc < 0 → ∃ d, driver A q = Some d ∧ is_Some (Drv d).(op_mkdir))) as (s1 & rc & -> & Hsame & Hrc).
  { pose proof (same_refl F s (r_own _ _ _ _ R)) as Hsr. destruct (driver A q) as [d|] eqn:Ed; cbn; [|exists s, 0; split; [done|]; split; [done|lia]].
    destruct (op_mkdir (Drv d)) as [f|] eqn:Ef; [|exists s, 0; split; [done|]; split; [done|lia]].
    destruct (q_mkdir _ Q d f F s M b base Ef (r_own _ _ _ _ R) (r_tree _ _ _ _ R) ltac:(by eexists) Hn) as (s1 & rc & -> & Hs). exists s1, rc. split; [done|]. split; [done|]. intros _. exists d. by rewrite Ef. }
  cbn [mbind outcome_bind]. pose proof (rep_same F s s1 M A Hsame R) as R1. destruct (Z.ltb_spec rc 0) as [Hlt|Hge].
  { exists s1, M, A, rc. split; [done|]. split; [|done]. destruct (Hrc Hlt) as (d & Ed & Hd).
    eapply (mk_refused _ _ _ (q ++ [base]) d); try done. by rewrite removelast_last. }
  destruct (rep_attach F s1 M A q b base VFS_DIR R1 Hb Hnew Hn) as (s2 & r & -> & Hr). cbn [mbind outcome_bind]. destruct r as [a|].
  - destruct Hr as (s3 & _ & E & R3). exists s3, (<[q ++ [base] := a]> M), (add_file A (q ++ [base]) VFS_DIR), 0. split; [|by split; [apply mk_done|]].
    unfold deref in *. destruct (s2.(nodes) !! b) as [x2|]; [|done]. cbn [mbind outcome_bind] in *.
    destruct (s2.(nodes) !! a) as [y|]; [|done]. cbn [mbind outcome_bind] in *. by rewrite E.
  - exists s2, M, A, (- ENOMEM). split; [done|]. split; [by eapply mk_nomem|done].
Qed.

Lemma mkdir_rep Drv F s M A path :
  driver_ok Drv → rep F s M A → path_ok path → creatable Drv path →
  ∃ s' M' A0 A' rc, vfs_mkdir Drv s (Some path) = Ret (s', rc) ∧ discovers Drv (components path) A A0 ∧ mkdir_spec Drv A0 path rc A' ∧ rep F s' M' A'.
Proof.
  intros Q R Hp Hcr. destruct path as [|c rest].
  { exists s, M, A, A, (- EINVAL). split; [done|]. split; [constructor|]. split; [by apply mk_relative|done]. }
  destruct (decide (c = 47)) as [->|Hc].
  2:{ exists s, M, A, A, (- EINVAL). split; [unfold vfs_mkdir; repeat case_match; (done || congruence)|]. split; [constructor|]. split; [apply mk_relative; cbn; congruence|done]. }
  cbn [vfs_mkdir]. destruct (walk_rep Drv F s M A (47 :: rest) Q R ltac:(apply Hp)) as (s1 & M1 & A1 & -> & R1 & HA1 & _ & Hin & _). cbn [mbind outcome_bind].
  destruct (find_path A1 (47 :: rest)) as [q|] eqn:Ef; cbn [mbind option_bind].
  { destruct (Hin q eq_refl) as [a ->]. exists s1, M1, A1, A1, (- EEXIST). split; [done|]. split; [done|]. split; [by eapply mk_exists|done]. }
  rewrite (cut_path_ok _ Hp). destruct (split_last (47 :: rest)) as [[par base]|] eqn:Es.
  2:{ pose proof (split_last_spec (47 :: rest)) as Hsp. rewrite Es in Hsp. destruct Hsp. by left. }
  assert (∀ A q, (if decide (par = []) then Some [] else find_path A par) = Some q →
    new_path A (47 :: rest) = if is_dir A q then Some (q ++ [base]) else None) as Hnp.
  { intros B q Hq. unfold new_path. rewrite Es, Hq. cbn [mbind option_bind]. unfold is_dir. by repeat case_match. }
  destruct par as [|c par].
  - destruct (parent_rep F s1 M1 A1 (47 :: rest) [] base R1 Hp Es Ef) as (Hb & Hsp & Hpar).
    destruct (t_root _ _ (r_tree _ _ _ _ R1)) as (root & Er & HMr).
    pose proof (split_last_spec (47 :: rest)) as Hsplit. rewrite Es in Hsplit. destruct Hsplit as [[= ->] _].
    destruct (Hpar [] eq_refl) as [Hn Hnew]. cbn [mbind outcome_bind]. rewrite Er, (name_cut base Hn).
    destruct (mkdir_in Drv F s1 M1 A1 (47 :: base) [] root base Q R1 eq_refl Ef (Hnp A1 [] eq_refl) HMr Hn Hnew) as (s' & M' & A' & rc & H1 & H2 & H3).
    by exists s', M', A1, A', rc.
  - destruct (second_walk Drv F s1 M1 A1 (47 :: rest) (c :: par) base Q R1 Hp Hcr Es Ef) as (s2 & M2 & A2 & -> & R2 & HA2 & Hin2 & Ef2). cbn [mbind outcome_bind].
    pose proof (discovers_trans _ _ _ _ _ HA1 HA2) as HA.
    destruct (parent_rep F s2 M2 A2 (47 :: rest) (c :: par) base R2 Hp Es Ef2) as (_ & _ & Hpar).
    rewrite decide_False in Hpar by done. destruct (find_path A2 (c :: par)) as [q|] eqn:Ep; cbn [mbind option_bind].
    + destruct (Hin2 q eq_refl) as [b Hqb]. rewrite Hqb. destruct (Hpar q eq_refl) as [Hn Hnew]. rewrite (name_cut base Hn).
      specialize (Hnp A2 q). rewrite decide_False in Hnp by done.
      destruct (mkdir_in Drv F s2 M2 A2 (47 :: rest) q b base Q R2 eq_refl Ef2 (Hnp Ep) Hqb Hn Hnew) as (s' & M' & A' & rc & H1 & H2 & H3).
      by exists s', M', A2, A', rc.
    + exists s2, M2, A2, A2, (- ENOENT). split; [done|]. split; [done|]. split; [|done]. apply mk_noent; [done|done|]. unfold new_path. rewrite Es.
      rewrite decide_False by done. by rewrite Ep.
Qed.
(** ** Descriptors *)

Definition set_fd (A : afs) (i : Z) (d : option (list (list Z) * Z * Z)) : afs := {| files := A.(files); mnt := A.(mnt); fds := A.(fds).[i <- d] |}.
Definition set_len (A : afs) q (z : Z) : afs := {| files := alter (λ x, (x.1, z)) q A.(files); mnt := A.(mnt); fds := A.(fds) |}.
Definition set_mnt (A : afs) q (d : Z) : afs := {| files := A.(files); mnt := <[q := d]> A.(mnt); fds := A.(fds) |}.
Definition open_at (A : afs) (fd : Z) : option (list (list Z) * Z * Z) :=
  if decide (0 ≤ fd < MAX_OPEN_FILES) then A.(fds).[fd] else None.

Lemma rep_fds F s M A fd e d :
  rep F s M A → 0 ≤ fd < MAX_OPEN_FILES → fd_rep M e d → rep F (with_fds s (s.(fd_table).[fd <- e])) M (set_fd A fd d).
Proof.
  intros R Hfd Hd. pose proof (r_len _ _ _ _ R) as Hl. pose proof (r_dlen _ _ _ _ R) as Hdl. split; try apply R.
  - by apply (tree_nodes s), R.
  - destruct (r_own _ _ _ _ R) as [O1 O2 O3 O4]. by split.
  - cbn. by rewrite zlen_aset.
  - cbn. by rewrite zlen_aset.
  - intros i Hi. cbn. rewrite !aget_aset by lia. case_decide; [done|by apply R].
Qed.

Lemma rep_size F s M A q a x z :
  rep F s M A → M !! q = Some a → s.(nodes) !! a = Some x → rep F (put_node s a (set_size x z)) M (set_len A q z).
Proof.
  intros R Ha Hx. pose proof (r_tree _ _ _ _ R) as T. split; try apply R.
  - by apply (tree_attr s _ M a x (set_size x z)).
  - pose proof (r_own _ _ _ _ R) as O. apply (own_put F s a x _ O Hx), (o_data _ _ O a x Hx).
  - intros p. cbn. destruct (decide (p = q)) as [->|Hpq].
    + rewrite lookup_alter_eq, Ha, (r_files _ _ _ _ R q), Ha. unfold attr. cbn. rewrite lookup_insert_eq, Hx. done.
    + rewrite lookup_alter_ne, (r_files _ _ _ _ R p) by done. destruct (M !! p) as [c|] eqn:Ec; cbn; [|done]. unfold attr. cbn.
      rewrite lookup_insert_ne; [done|]. intros <-. apply Hpq. by apply (t_inj _ _ T p q a).
  - destruct (r_root _ _ _ _ R) as [w Hw]. cbn. destruct (decide (q = [])) as [->|Hq].
    + rewrite lookup_alter_eq, Hw. by eexists.
    + rewrite lookup_alter_ne by done. by exists w.
  - intros c y Hy. cbn in Hy. apply lookup_insert_Some in Hy as [[<- <-]|[_ Hy]]; [|by apply (r_ops _ _ _ _ R c)].
    exact (r_ops _ _ _ _ R a x Hx).
  - intros p c y Hp Hy. cbn in Hy. apply lookup_insert_Some in Hy as [[<- <-]|[_ Hy]]; [|by apply (r_mnt _ _ _ _ R p c)].
    exact (r_mnt _ _ _ _ R p a x Hp Hx).
Qed.

Lemma bad_fd_rep F s M A fd :
  rep F s M A →
  match open_at A fd with
  | Some (q, fl, off) => bad_fd s fd = false ∧ 0 ≤ fd < MAX_OPEN_FILES ∧
      ∃ a, fd_node s fd = Ret a ∧ M !! q = Some a ∧ s.(fd_table).[fd] = {| node := Some a; flags := fl; offset := off; in_use := true |}
  | None => bad_fd s fd = true
  end.
Proof.
  intros R. unfold open_at. unfold bad_fd. destruct (decide (0 ≤ fd < MAX_OPEN_FILES)) as [Hfd|Hfd]; [|bool_cases; lia].
  rewrite (proj2 (Z.ltb_ge fd 0)) by lia. rewrite Z.geb_leb, (proj2 (Z.leb_gt MAX_OPEN_FILES fd)) by lia. cbn [orb].
  pose proof (r_fd _ _ _ _ R fd Hfd) as He. unfold fd_rep in He. destruct (in_use (s.(fd_table).[fd])) eqn:Eu; [|by rewrite He].
  destruct He as (q & a & E1 & E2 & ->). split; [done|]. split; [done|]. exists a. unfold fd_node. rewrite E1. split; [done|]. split; [done|].
  destruct (s.(fd_table).[fd]); cbn in *. by subst.
Qed.

(** The lowest free descriptor. *)
Definition next_fd (A : afs) (fd : Z) : Prop :=
  0 ≤ fd < MAX_OPEN_FILES ∧ A.(fds).[fd] = None ∧ ∀ i, 0 ≤ i < fd → is_Some (A.(fds).[i]).

Lemma lowest_fd_spec F s M A : rep F s M A → ∀ n i, 0 ≤ i → i + Z.of_nat n = MAX_OPEN_FILES → (∀ j, 0 ≤ j < i → is_Some (A.(fds).[j])) →
  let '(s', fd) := alloc_from n s i in
  if fd <? 0 then fd = - ENOMEM ∧ s' = s ∧ ∀ j, 0 ≤ j < MAX_OPEN_FILES → is_Some (A.(fds).[j])
  else next_fd A fd ∧ ∃ e, s' = with_fds s (s.(fd_table).[fd <- e]).
Proof.
  intros R n. induction n as [|n IH]; intros i Hi Hn Hlo; cbn [alloc_from].
  - split; [done|]. split; [done|]. intros j Hj. apply Hlo. lia.
  - assert (0 ≤ i < MAX_OPEN_FILES) as Hir by lia. pose proof (r_fd _ _ _ _ R i Hir) as He. unfold fd_rep in He.
    destruct (in_use (s.(fd_table).[i])); cbn [negb].
    + apply IH; [lia|lia|]. intros j Hj. destruct (decide (j = i)) as [->|]; [|apply Hlo; lia]. destruct He as (q & a & _ & _ & ->). by eexists.
    + rewrite (proj2 (Z.ltb_ge i 0)) by lia. split; [by split; [|split]|]. by eexists.
Qed.
(** ** Opening *)

(** The file of an [open], created when it is missing and the flags ask for it. *)
Inductive opened (A : afs) (path : list Z) (fl : Z) : Z + list (list Z) → afs → Prop :=
  | op_found q : find_path A path = Some q → opened A path fl (inr q) A
  | op_missing : find_path A path = None → has fl VFS_O_CREATE = false → opened A path fl (inl (- ENOENT)) A
  | op_no_slash : find_path A path = None → has fl VFS_O_CREATE = true → 47 ∉ path → opened A path fl (inl (- EINVAL)) A
  | op_no_dir : find_path A path = None → has fl VFS_O_CREATE = true → 47 ∈ path → new_path A path = None → opened A path fl (inl (- ENOENT)) A
  | op_nomem q : find_path A path = None → has fl VFS_O_CREATE = true → new_path A path = Some q → opened A path fl (inl (- ENOMEM)) A
  | op_created q : find_path A path = None → has fl VFS_O_CREATE = true → new_path A path = Some q →
      opened A path fl (inr q) (add_file A q VFS_FILE).

(** The creation in the directory [q] at [b]; a file below the root does not look at its [ops]. *)
Lemma open_create_in F s M A path fl q b base :
  rep F s M A → M !! q = Some b → name_ok base → M !! (q ++ [base]) = None → find_path A path = None → has fl VFS_O_CREATE = true →
  new_path A path = Some (q ++ [base]) →
  ∃ s1 o s' M' A' r, create_node s base VFS_FILE = Ret (s1, o) ∧
    match o with None => Ret (s1, inr (- ENOMEM)) | Some a => s ← add_child s1 b a; Ret (s, inl a) end = Ret (s', r) ∧
    match o with
    | None => Ret (s1, inr (- ENOMEM))
    | Some a => x ← deref s1 b; y ← deref s1 a; s ← add_child (put_node s1 a (set_ops y x.(ops))) b a; Ret (s, inl a)
    end = Ret (s', r) ∧ rep F s' M' A' ∧
    match r with inl a => ∃ q, M' !! q = Some a ∧ opened A path fl (inr q) A' | inr e => opened A path fl (inl e) A' end.
Proof.
  intros R Hb Hn Hnew Hf Hc Hnp. destruct (rep_attach F s M A q b base VFS_FILE R Hb Hnew Hn) as (s1 & o & -> & Ho). exists s1, o.
  destruct o as [a|].
  - destruct Ho as (s2 & -> & E & R2). eexists s2, _, _, (inl a). split; [done|]. split; [done|]. split; [|split; [exact R2|]].
    + unfold deref in *. destruct (s1.(nodes) !! b) as [x|]; [|done]. cbn [mbind outcome_bind] in *.
      destruct (s1.(nodes) !! a) as [y|]; [|done]. cbn [mbind outcome_bind] in *. by rewrite E.
    + exists (q ++ [base]). split; [apply lookup_insert_eq|]. by apply op_created.
  - exists s1, M, A, (inr (- ENOMEM)). split; [done|]. split; [done|]. split; [done|]. split; [done|]. by eapply op_nomem.
Qed.

Lemma open_create_rep Drv F s M A path fl :
  driver_ok Drv → rep F s M A → path_ok path → creatable Drv path → find_path A path = None → has fl VFS_O_CREATE = true →
  ∃ s' M' A0 A' r, open_create Drv s path = Ret (s', r) ∧ discovers Drv (components path) A A0 ∧ rep F s' M' A' ∧
    match r with inl a => ∃ q, M' !! q = Some a ∧ opened A0 path fl (inr q) A' | inr e => opened A0 path fl (inl e) A' end.
Proof.
  intros Q R Hp Hcr Hf Hc. unfold open_create. rewrite (cut_path_ok _ Hp). pose proof (split_last_spec path) as Hsplit.
  destruct (split_last path) as [[par base]|] eqn:Es.
  2:{ exists s, M, A, A, (inr (- EINVAL)). split; [done|]. split; [constructor|]. split; [done|]. by apply op_no_slash. }
  destruct Hsplit as [Epath _]. destruct (t_root _ _ (r_tree _ _ _ _ R)) as (root & Er & HMr). rewrite Er.
  assert (47 ∈ path) as Hsl by (rewrite Epath; set_solver).
  assert (∀ A q, (if decide (par = []) then Some [] else find_path A par) = Some q →
    new_path A path = if is_dir A q then Some (q ++ [base]) else None) as Hnp.
  { intros B q Hq. unfold new_path. rewrite Es, Hq. cbn [mbind option_bind]. unfold is_dir. by repeat case_match. }
  destruct par as [|c par].
  - destruct (parent_rep F s M A path [] base R Hp Es Hf) as (_ & _ & Hpar).
    subst path. destruct (Hpar [] eq_refl) as [Hn Hnew]. cbn [app tail]. rewrite (name_cut base Hn).
    assert (is_dir A [] = true) as Hd by (unfold is_dir; destruct (r_root _ _ _ _ R) as [z ->]; done).
    specialize (Hnp A [] eq_refl). rewrite Hd in Hnp.
    destruct (open_create_in F s M A _ fl [] root base R HMr Hn Hnew Hf Hc Hnp) as (s1 & o & s' & M' & A' & r & -> & E & _ & R' & Hr).
    exists s', M', A, A', r. split; [exact E|]. split; [constructor|done].
  - destruct (second_walk Drv F s M A path (c :: par) base Q R Hp Hcr Es Hf) as (s1 & M1 & A1 & -> & R1 & HA1 & Hin & Hf1). cbn [mbind outcome_bind].
    destruct (parent_rep F s1 M1 A1 path (c :: par) base R1 Hp Es Hf1) as (_ & _ & Hpar). specialize (Hnp A1).
    rewrite decide_False in Hpar, Hnp by done. destruct (find_path A1 (c :: par)) as [q|] eqn:Ep; cbn [mbind option_bind].
    2:{ exists s1, M1, A1, A1, (inr (- ENOENT)). split; [done|]. split; [done|]. split; [done|]. apply op_no_dir; try done. unfold new_path. by rewrite Es, decide_False, Ep by done. }
    destruct (Hin q eq_refl) as [b Hqb]. rewrite Hqb. destruct (Hpar q eq_refl) as [Hn Hnew]. rewrite (name_cut base Hn).
    specialize (Hnp q eq_refl). destruct (tree_node _ _ _ _ (r_tree _ _ _ _ R1) Hqb) as [x Hx].
    assert (deref s1 b = Ret x) as -> by (unfold deref; by rewrite Hx). cbn [mbind outcome_bind].
    rewrite (is_dir_rep F s1 M1 A1 q b x R1 Hqb Hx). destruct (is_dir A1 q); cbn [negb].
    2:{ exists s1, M1, A1, A1, (inr (- ENOENT)). split; [done|]. split; [done|]. split; [done|]. by apply op_no_dir. }
    destruct (open_create_in F s1 M1 A1 path fl q b base R1 Hqb Hn Hnew Hf1 Hc Hnp) as (s2 & o & s' & M' & A' & r & -> & _ & E & R' & Hr).
    exists s', M', A1, A', r. split; [exact E|done].
Qed.

(** What [open] does with the file at [q]. *)
Definition truncated (A : afs) q (fl : Z) : afs := if has fl VFS_O_TRUNC then set_len A q 0 else A.
Inductive open_spec (A : afs) (path : list Z) (fl : Z) : Z → afs → Prop :=
  | open_error e A1 : opened A path fl (inl e) A1 → open_spec A path fl e A1
  | open_full q A1 : opened A path fl (inr q) A1 → (∀ i, 0 ≤ i < MAX_OPEN_FILES → is_Some (A1.(fds).[i])) → open_spec A path fl (- ENOMEM) A1
  | open_done q A1 fd : opened A path fl (inr q) A1 → next_fd A1 fd → open_spec A path fl fd (truncated (set_fd A1 fd (Some (q, fl, 0))) q fl).

(** A call of a driver function whose result is not used. *)
Lemma optional_call {X Fn} F (o : option X) (sel : X → option Fn) (app : Fn → outcome (vfs H P * Z)) s :
  own F s → (∀ d f, o = Some d → sel d = Some f → ∃ s' rc, app f = Ret (s', rc) ∧ same F s s') →
  ∃ s', match o with Some d => match sel d with Some f => x ← app f; Ret x.1 | None => Ret s end | None => Ret s end = Ret s' ∧ same F s s'.
Proof.
  intros O Hf. destruct o as [d|]; [|by exists s]. destruct (sel d) as [f|] eqn:E; [|by exists s].
  destruct (Hf d f eq_refl E) as (s' & rc & -> & Hs). by exists s'.
Qed.

Lemma driver_fmap (Drv : Z → vfs_ops (H:=H) (P:=P)) (A : afs) q d : Drv <$> driver A q = Some d → ∃ i, driver A q = Some i ∧ d = Drv i.
Proof. destruct (driver A q) as [i|]; [|done]. intros [= <-]. by exists i. Qed.

(** The driver depends on the mount points only. *)
Lemma driver_mnt (A B : afs) q : B.(mnt) = A.(mnt) → driver B q = driver A q.
Proof. unfold driver. by intros ->. Qed.

Lemma open_file_rep Drv F s M A q a fl :
  driver_ok Drv → rep F s M A → M !! q = Some a →
  ∃ s' A' rc,
    (let '(s, fd) := alloc_fd s in
     if fd <? 0 then Ret (s, fd) else
     let s := with_fds s (s.(fd_table).[fd <- {| node := Some a; flags := fl; offset := 0; in_use := true |}]) in
     s ← (if has fl VFS_O_TRUNC then x ← deref s a; Ret (put_node s a (set_size x 0)) else Ret s);
     o ← get_ops Drv s a;
     s ← match o with
         | Some d => match d.(op_open) with Some f => r ← f s a fl; Ret r.1 | None => Ret s end
         | None => Ret s
         end;
     Ret (s, fd)) = Ret (s', rc) ∧ rep F s' M A' ∧
    (A' = A ∧ rc = - ENOMEM ∧ (∀ i, 0 ≤ i < MAX_OPEN_FILES → is_Some (A.(fds).[i])) ∨
     next_fd A rc ∧ A' = truncated (set_fd A rc (Some (q, fl, 0))) q fl).
Proof.
  intros Q R Ha. unfold alloc_fd. pose proof (lowest_fd_spec F s M A R (Z.to_nat MAX_OPEN_FILES) 0 ltac:(lia) eq_refl ltac:(lia)) as Hal.
  destruct (alloc_from _ s 0) as [s1 fd]. destruct (fd <? 0).
  { destruct Hal as (-> & -> & Hall). exists s, A, (- ENOMEM). split; [done|]. split; [done|]. by left. }
  destruct Hal as (Hnext & e & ->). pose proof Hnext as (Hfd & _). set (en := {| node := Some a; flags := fl; offset := 0; in_use := true |}).
  assert (with_fds (with_fds s (s.(fd_table).[fd <- e])) ((s.(fd_table).[fd <- e]).[fd <- en]) = with_fds s (s.(fd_table).[fd <- en])) as Es.
  { unfold with_fds, aset. cbn. by rewrite list_insert_insert_eq. }
  cbn [with_fds fd_table] in *. rewrite Es. clear Es.
  assert (rep F (with_fds s (s.(fd_table).[fd <- en])) M (set_fd A fd (Some (q, fl, 0)))) as R1 by (apply rep_fds; [done|done|by exists q, a]).
  revert R1. generalize (with_fds s (s.(fd_table).[fd <- en])). intros s1 R1.
  assert (∃ s2, (if has fl VFS_O_TRUNC then x ← deref s1 a; Ret (put_node s1 a (set_size x 0)) else Ret s1) = Ret s2 ∧
    rep F s2 M (truncated (set_fd A fd (Some (q, fl, 0))) q fl)) as (s2 & -> & R2).
  { unfold truncated. destruct (has fl VFS_O_TRUNC); [|by exists s1]. destruct (tree_node _ _ _ _ (r_tree _ _ _ _ R1) Ha) as [x Hx].
    unfold deref. rewrite Hx. eexists. split; [done|]. by apply rep_size. }
  cbn [mbind outcome_bind]. rewrite (get_ops_rep Drv F s2 M _ q a R2 Ha). cbn [mbind outcome_bind].
  pose proof (r_own _ _ _ _ R2) as O2. pose proof (r_tree _ _ _ _ R2) as T2.
  destruct (optional_call F (Drv <$> driver (truncated (set_fd A fd (Some (q, fl, 0))) q fl) q) op_open (λ f, f s2 a fl) s2 O2) as (s3 & -> & Hs3).
  { intros d f (i & _ & ->)%driver_fmap Hf. by apply (q_open _ Q i f F s2 M a fl Hf O2 T2), (t_node _ _ T2 q). }
  eexists s3, _, fd. split; [done|]. split; [by eapply rep_same|]. by right.
Qed.

Lemma open_rep Drv F s M A path fl :
  driver_ok Drv → rep F s M A → path_ok path → (has fl VFS_O_CREATE = true → creatable Drv path) →
  ∃ s' M' A0 A' rc, vfs_open Drv s (Some path) fl = Ret (s', rc) ∧ discovers Drv (components path) A A0 ∧ open_spec A0 path fl rc A' ∧ rep F s' M' A'.
Proof.
  intros Q R Hp Hcr. unfold vfs_open. destruct (walk_rep Drv F s M A path Q R ltac:(apply Hp)) as (s1 & M1 & A1 & -> & R1 & HA1 & _ & Hin & _). cbn [mbind outcome_bind].
  assert (∃ s2 M2 A0 A2 r, match find_path A1 path ≫= λ q, M1 !! q with
      | Some a => Ret (s1, inl a)
      | None => if has fl VFS_O_CREATE then open_create Drv s1 path else Ret (s1, inr (- ENOENT))
      end = Ret (s2, r) ∧ discovers Drv (components path) A A0 ∧ rep F s2 M2 A2 ∧
      match r with inl a => ∃ q, M2 !! q = Some a ∧ opened A0 path fl (inr q) A2 | inr e => opened A0 path fl (inl e) A2 end)
    as (s2 & M2 & A0 & A2 & r & -> & HA0 & R2 & Hr).
  { destruct (find_path A1 path) as [q|] eqn:Ef; cbn [mbind option_bind].
    - destruct (Hin q eq_refl) as [a Ha]. rewrite Ha. exists s1, M1, A1, A1, (inl a). split; [done|]. split; [done|]. split; [done|]. exists q. split; [done|by apply op_found].
    - destruct (has fl VFS_O_CREATE) eqn:Ec.
      + destruct (open_create_rep Drv F s1 M1 A1 path fl Q R1 Hp (Hcr eq_refl) Ef Ec) as (s' & M' & A0 & A' & r & -> & HA0 & R' & Hr).
        exists s', M', A0, A', r. split; [done|]. split; [by eapply discovers_trans|]. by split.
      + exists s1, M1, A1, A1, (inr (- ENOENT)). split; [done|]. split; [done|]. split; [done|]. by apply op_missing. }
  cbn [mbind outcome_bind]. destruct r as [a|e].
  - destruct Hr as (q & Ha & Ho). destruct (open_file_rep Drv F s2 M2 A2 q a fl Q R2 Ha) as (s3 & A3 & rc & E & R3 & Hrc).
    exists s3, M2, A0, A3, rc. split; [exact E|]. split; [done|]. split; [|done]. destruct Hrc as [(-> & -> & Hall)|[Hn ->]]; [by eapply open_full|by eapply open_done].
  - exists s2, M2, A0, A2, e. split; [done|]. split; [done|]. split; [by apply open_error|done].
Qed.
(** ** Closing, reading, writing and seeking *)

Definition close_spec (A : afs) (fd rc : Z) (A' : afs) : Prop :=
  match open_at A fd with
  | None => rc = - EBADF ∧ A' = A
  | Some _ => rc = 0 ∧ A' = set_fd A fd None
  end.

Lemma close_rep Drv F s M A fd :
  driver_ok Drv → rep F s M A → ∃ s' A' rc, vfs_close Drv s fd = Ret (s', rc) ∧ close_spec A fd rc A' ∧ rep F s' M A'.
Proof.
  intros Q R. unfold vfs_close, close_spec. pose proof (bad_fd_rep F s M A fd R) as Hb. destruct (open_at A fd) as [[[q fl] off]|].
  2:{ rewrite Hb. by exists s, A, (- EBADF). }
  destruct Hb as (-> & Hfd & a & -> & Ha & _). cbn [mbind outcome_bind]. rewrite (get_ops_rep Drv F s M A q a R Ha). cbn [mbind outcome_bind].
  pose proof (r_own _ _ _ _ R) as O. pose proof (r_tree _ _ _ _ R) as T.
  destruct (optional_call F (Drv <$> driver A q) op_close (λ f, f s a) s O) as (s1 & -> & Hs1).
  { intros d f (i & _ & ->)%driver_fmap Hf. by apply (q_close _ Q i f F s M a Hf O T), (t_node _ _ T q). }
  cbn [mbind outcome_bind]. eexists _, (set_fd A fd None), 0. split; [done|]. split; [done|]. apply rep_fds; [by eapply rep_same|done|done].
Qed.

Inductive read_spec (Drv : Z → vfs_ops (H:=H) (P:=P)) (A : afs) (fd n : Z) : Z → afs → Prop :=
  | read_bad : open_at A fd = None → read_spec Drv A fd n (- EBADF) A
  | read_zero e : open_at A fd = Some e → n = 0 → read_spec Drv A fd n (- EINVAL) A
  | read_unsupported q fl off : open_at A fd = Some (q, fl, off) → n ≠ 0 → driver_op Drv A q op_read = None → read_spec Drv A fd n (- ENOTSUP) A
  | read_done q fl off rc : open_at A fd = Some (q, fl, off) → n ≠ 0 → is_Some (driver_op Drv A q op_read) → rc ≤ n →
      read_spec Drv A fd n rc (if rc >? 0 then set_fd A fd (Some (q, fl, u64 (off + rc))) else A).

(** [set_offset] on an open descriptor. *)
Lemma rep_offset F s M A fd q fl off o : rep F s M A → open_at A fd = Some (q, fl, off) →
  rep F (set_offset s fd o) M (set_fd A fd (Some (q, fl, o))).
Proof.
  intros R Ho. pose proof (bad_fd_rep F s M A fd R) as Hb. rewrite Ho in Hb. destruct Hb as (_ & Hfd & a & _ & Ha & E).
  unfold set_offset. rewrite E. apply rep_fds; [done|done|]. by exists q, a.
Qed.

Lemma read_rep Drv F s M A fd n :
  driver_ok Drv → rep F s M A → 0 ≤ n → ∃ s' A' rc out, vfs_read Drv s fd true n = Ret (s', rc, out) ∧ read_spec Drv A fd n rc A' ∧ rep F s' M A'.
Proof.
  intros Q R Hn0. unfold vfs_read. pose proof (bad_fd_rep F s M A fd R) as Hb. destruct (open_at A fd) as [[[q fl] off]|] eqn:Eo.
  2:{ rewrite Hb. exists s, A, (- EBADF), []. split; [done|]. split; [by apply read_bad|done]. }
  destruct Hb as (-> & Hfd & a & -> & Ha & Ee). cbn [negb orb]. destruct (Z.eqb_spec n 0) as [->|Hn].
  { exists s, A, (- EINVAL), []. split; [done|]. split; [by eapply read_zero|done]. }
  cbn [mbind outcome_bind]. rewrite (get_ops_rep Drv F s M A q a R Ha). cbn [mbind outcome_bind].
  destruct (driver A q) as [d|] eqn:Ed; cbn [fmap option_fmap option_map].
  2:{ exists s, A, (- ENOTSUP), []. split; [done|]. split; [|done]. eapply read_unsupported; [done|done|]. unfold driver_op. by rewrite Ed. }
  assert (driver_op Drv A q op_read = op_read (Drv d)) as Edr by (unfold driver_op; by rewrite Ed).
  destruct (op_read (Drv d)) as [f|] eqn:Ef.
  2:{ exists s, A, (- ENOTSUP), []. split; [done|]. split; [|done]. by eapply read_unsupported. }
  rewrite Ee. cbn [offset]. destruct (q_read _ Q d f F s M a off n Ef (r_own _ _ _ _ R) (r_tree _ _ _ _ R) (t_node _ _ (r_tree _ _ _ _ R) q a Ha) Hn0) as (s1 & r & out & -> & Hs & Hr). cbn [mbind outcome_bind].
  pose proof (rep_same F s s1 M A Hs R) as R1. pose proof (read_done Drv A fd n q fl off r Eo Hn ltac:(rewrite Edr; by eexists) Hr) as Hspec.
  destruct (r >? 0).
  - eexists _, _, r, out. split; [done|]. split; [exact Hspec|]. destruct Hs as (_ & Etab & _). rewrite Etab, Ee. cbn [offset].
    by eapply rep_offset.
  - exists s1, A, r, out. by split; [|split].
Qed.

(** Where a write starts, and what it leaves. *)
Definition start (A : afs) q (fl off : Z) : Z :=
  if has fl VFS_O_APPEND then match A.(files) !! q with Some (_, z) => z | None => 0 end else off.
Definition grown (A : afs) q (z : Z) : afs :=
  match A.(files) !! q with Some (_, z0) => if z >? z0 then set_len A q z else A | None => A end.
Inductive write_spec (Drv : Z → vfs_ops (H:=H) (P:=P)) (A : afs) (fd n : Z) : Z → afs → Prop :=
  | write_bad : open_at A fd = None → write_spec Drv A fd n (- EBADF) A
  | write_zero e : open_at A fd = Some e → n = 0 → write_spec Drv A fd n (- EINVAL) A
  | write_unsupported q fl off : open_at A fd = Some (q, fl, off) → n ≠ 0 → driver_op Drv A q op_write = None → write_spec Drv A fd n (- ENOTSUP) A
  | write_failed q fl off rc : open_at A fd = Some (q, fl, off) → n ≠ 0 → is_Some (driver_op Drv A q op_write) → rc ≤ 0 →
      write_spec Drv A fd n rc (set_fd A fd (Some (q, fl, start A q fl off)))
  | write_done q fl off rc : open_at A fd = Some (q, fl, off) → n ≠ 0 → is_Some (driver_op Drv A q op_write) → 0 < rc ≤ n →
      write_spec Drv A fd n rc (grown (set_fd A fd (Some (q, fl, u64 (start A q fl off + rc)))) q (u64 (start A q fl off + rc))).

Lemma set_fd_same (A : afs) fd q fl off : open_at A fd = Some (q, fl, off) → zlen A.(fds) = MAX_OPEN_FILES → set_fd A fd (Some (q, fl, off)) = A.
Proof.
  unfold open_at. case_decide; [|done]. intros Ho Hl. unfold set_fd, aset. rewrite list_insert_id; [by destruct A|].
  rewrite aget_lookup by lia. by rewrite Ho.
Qed.
Lemma set_fd_twice (A : afs) fd d d' : set_fd (set_fd A fd d) fd d' = set_fd A fd d'.
Proof. unfold set_fd, aset. cbn. by rewrite list_insert_insert_eq. Qed.
Lemma open_at_set (A : afs) fd d d' : open_at A fd = Some d → zlen A.(fds) = MAX_OPEN_FILES → open_at (set_fd A fd d') fd = d'.
Proof. unfold open_at. case_decide; [|done]. intros _ Hl. cbn. by rewrite aget_aset_eq by lia. Qed.
Lemma grown_rep F s M A q a x z :
  rep F s M A → M !! q = Some a → s.(nodes) !! a = Some x →
  rep F (if z >? x.(size) then put_node s a (set_size x z) else s) M (grown A q z).
Proof.
  intros R Ha Hx. unfold grown. destruct (rep_file F s M A q a R Ha) as (x' & Hx' & ->). assert (x' = x) as -> by congruence.
  destruct (z >? x.(size)); [by apply rep_size|done].
Qed.

(** Moving the offset to the end of the file, for [O_APPEND]. *)
Lemma start_rep F s M A fd q fl off a :
  rep F s M A → open_at A fd = Some (q, fl, off) → M !! q = Some a → s.(fd_table).[fd] = {| node := Some a; flags := fl; offset := off; in_use := true |} →
  ∃ s', (if has fl VFS_O_APPEND then x ← deref s a; Ret (set_offset s fd x.(size)) else Ret s) = Ret s' ∧
    rep F s' M (set_fd A fd (Some (q, fl, start A q fl off))) ∧
    s'.(fd_table).[fd] = {| node := Some a; flags := fl; offset := start A q fl off; in_use := true |}.
Proof.
  intros R Ho Ha Ee. unfold start. destruct (rep_file F s M A q a R Ha) as (x & Hx & ->). destruct (has fl VFS_O_APPEND).
  - unfold deref. rewrite Hx. eexists. split; [done|]. split; [by eapply rep_offset|]. unfold set_offset. cbn. rewrite Ee.
    rewrite aget_aset_eq; [done|]. rewrite (r_len _ _ _ _ R). unfold open_at in Ho. by case_decide.
  - exists s. split; [done|]. split; [|done]. by rewrite set_fd_same by (done || apply R).
Qed.

Lemma write_rep Drv F s M A fd data :
  driver_ok Drv → rep F s M A → ∃ s' A' rc, vfs_write Drv s fd (Some data) = Ret (s', rc) ∧ write_spec Drv A fd (zlen data) rc A' ∧ rep F s' M A'.
Proof.
  intros Q R. unfold vfs_write. pose proof (bad_fd_rep F s M A fd R) as Hb. destruct (open_at A fd) as [[[q fl] off]|] eqn:Eo.
  2:{ rewrite Hb. exists s, A, (- EBADF). split; [done|]. split; [by apply write_bad|done]. }
  destruct Hb as (-> & Hfd & a & -> & Ha & Ee). destruct (Z.eqb_spec (zlen data) 0) as [E0|Hn].
  { exists s, A, (- EINVAL). split; [done|]. split; [by eapply write_zero|done]. }
  cbn [mbind outcome_bind]. rewrite (get_ops_rep Drv F s M A q a R Ha). cbn [mbind outcome_bind].
  destruct (driver A q) as [d|] eqn:Ed; cbn [fmap option_fmap option_map].
  2:{ exists s, A, (- ENOTSUP). split; [done|]. split; [|done]. eapply write_unsupported; [done|done|]. unfold driver_op. by rewrite Ed. }
  assert (driver_op Drv A q op_write = op_write (Drv d)) as Edr by (unfold driver_op; by rewrite Ed).
  destruct (op_write (Drv d)) as [f|] eqn:Ef.
  2:{ exists s, A, (- ENOTSUP). split; [done|]. split; [|done]. by eapply write_unsupported. }
  rewrite Ee. cbn [flags]. destruct (start_rep F s M A fd q fl off a R Eo Ha Ee) as (s1 & -> & R1 & E1). cbn [mbind outcome_bind]. rewrite E1. cbn [offset].
  destruct (q_write _ Q d f F s1 M a (start A q fl off) data Ef (r_own _ _ _ _ R1) (r_tree _ _ _ _ R1) (t_node _ _ (r_tree _ _ _ _ R1) q a Ha)) as (s2 & r & -> & Hs & Hr). cbn [mbind outcome_bind].
  pose proof (rep_same F s1 s2 M _ Hs R1) as R2. pose proof Hs as (_ & Etab & _).
  assert (is_Some (driver_op Drv A q op_write)) as Hop by (rewrite Edr; by eexists).
  assert (open_at (set_fd A fd (Some (q, fl, start A q fl off))) fd = Some (q, fl, start A q fl off)) as Eo2 by (eapply open_at_set; [done|apply R]).
  destruct (Z.gtb_spec r 0) as [Hpos|Hneg].
  - rewrite Etab, E1. cbn [offset]. pose proof (rep_offset F s2 M _ fd q fl _ (u64 (start A q fl off + r)) R2 Eo2) as R3.
    rewrite set_fd_twice in R3. destruct (tree_node _ _ _ _ (r_tree _ _ _ _ R3) Ha) as [x Hx]. unfold deref. rewrite Hx. cbn [mbind outcome_bind].
    eexists _, _, r. split; [done|]. split; [apply (write_done Drv A fd _ q fl off r); try done; lia|].
    assert (offset ((set_offset s2 fd (u64 (start A q fl off + r))).(fd_table).[fd]) = u64 (start A q fl off + r)) as ->.
    { unfold set_offset. cbn. rewrite aget_aset_eq; [done|]. rewrite (r_len _ _ _ _ R2). done. }
    by apply grown_rep.
  - eexists s2, _, r. split; [done|]. split; [by eapply write_failed|done].
Qed.

Definition seek_spec (A : afs) (fd off whence : Z) : Z * afs :=
  match open_at A fd with
  | None => (- EBADF, A)
  | Some (q, fl, cur) =>
      let base := if whence =? VFS_SEEK_SET then Some off
        else if whence =? VFS_SEEK_CUR then Some (swrap 64 (swrap 64 cur + off))
        else if whence =? VFS_SEEK_END then Some (swrap 64 (swrap 64 (match A.(files) !! q with Some (_, z) => z | None => 0 end) + off))
        else None in
      match base with
      | None => (- EINVAL, A)
      | Some o => if o <? 0 then (- EINVAL, A) else (o, set_fd A fd (Some (q, fl, o)))
      end
  end.

Lemma seek_rep F s M A fd off whence :
  rep F s M A → ∃ s', vfs_lseek s fd off whence = Ret (s', (seek_spec A fd off whence).1) ∧ rep F s' M (seek_spec A fd off whence).2.
Proof.
  intros R. unfold vfs_lseek, seek_spec. pose proof (bad_fd_rep F s M A fd R) as Hb. destruct (open_at A fd) as [[[q fl] cur]|] eqn:Eo.
  2:{ rewrite Hb. by exists s. }
  destruct Hb as (-> & Hfd & a & -> & Ha & Ee). cbn [mbind outcome_bind]. destruct (rep_file F s M A q a R Ha) as (x & Hx & ->).
  unfold deref. rewrite Hx, Ee. cbn [mbind outcome_bind offset]. destruct (if whence =? VFS_SEEK_SET then _ else _) as [o|]; [|by exists s].
  destruct (o <? 0); [by exists s|]. eexists. split; [done|]. by eapply rep_offset.
Qed.
(** ** Directories and attributes *)

Definition entry (A : afs) q (e : vfs_dirent) : Prop := A.(files) !! (q ++ [e.(d_name)]) = Some (e.(d_type), e.(d_size)).
(** [l] lists directory [q], up to [n] entries. *)
Definition listing (A : afs) q (n : Z) (l : list vfs_dirent) : Prop :=
  NoDup (d_name <$> l) ∧ Forall (entry A q) l ∧ zlen l ≤ n ∧
  (zlen l < n → ∀ k, q ++ [k] ∈ dom A.(files) → k ∈ d_name <$> l).
Inductive readdir_spec (Drv : Z → vfs_ops (H:=H) (P:=P)) (A : afs) (fd n : Z) : Z → list vfs_dirent → Prop :=
  | rd_bad : open_at A fd = None → readdir_spec Drv A fd n (- EBADF) []
  | rd_invalid q fl off : open_at A fd = Some (q, fl, off) → n = 0 ∨ is_dir A q = false → readdir_spec Drv A fd n (- EINVAL) []
  | rd_driver q fl off rc l : open_at A fd = Some (q, fl, off) → n ≠ 0 → is_dir A q = true → is_Some (driver_op Drv A q op_readdir) →
      readdir_spec Drv A fd n rc l
  | rd_tree q fl off l : open_at A fd = Some (q, fl, off) → n ≠ 0 → is_dir A q = true → driver_op Drv A q op_readdir = None →
      listing A q n l → readdir_spec Drv A fd n (zlen l) l.

Definition dirent_of s (a : Z) : vfs_dirent :=
  match s.(nodes) !! a with
  | Some x => {| d_name := x.(name); d_type := x.(type); d_inode := x.(inode); d_size := x.(size) |}
  | None => {| d_name := []; d_type := VFS_FILE; d_inode := 0; d_size := 0 |}
  end.
Lemma dirents_spec s n : ∀ fuel c l, ilist (nxt s) c l → (length l < fuel)%nat → Forall (λ a, ∃ x, s.(nodes) !! a = Some x ∧ (length x.(name) ≤ 127)%nat) l →
  dirents n fuel s c = Ret (dirent_of s <$> take n l).
Proof.
  induction n as [|n IH]; intros fuel c l Hl Hf Hx; [by destruct c, fuel|].
  destruct l as [|a l]; [cbn in Hl; subst c; by destruct fuel|]. destruct Hl as [-> Hl]. destruct fuel as [|fuel]; [cbn in Hf; lia|].
  apply Forall_cons in Hx as [(x & Ex & Hn) Hx]. cbn [dirents]. unfold deref. rewrite Ex. cbn [mbind outcome_bind].
  unfold nxt at 2 in Hl. rewrite Ex in Hl. rewrite (IH fuel _ l Hl) by (done || (cbn in Hf; lia)). cbn [mbind outcome_bind take].
  rewrite fmap_cons. unfold dirent_of at 2. rewrite Ex. unfold cut_name.
  rewrite take_ge by (change (Z.to_nat (VFS_NAME_MAX - 1)) with 127%nat; lia). done.
Qed.

(** The children of a directory. *)
Lemma listing_rep F s M A q b x n :
  rep F s M A → M !! q = Some b → s.(nodes) !! b = Some x → 0 ≤ n →
  ∃ l, dirents (Z.to_nat n) (fuel_of s) s x.(children) = Ret l ∧ listing A q n l.
Proof.
  intros R Hb Hx Hn. pose proof (r_tree _ _ _ _ R) as T. destruct (t_kids _ _ T q b x Hb Hx) as (l & Hl & Hnd & Hin).
  assert (∀ a, a ∈ l → ∃ y, s.(nodes) !! a = Some y ∧ M !! (q ++ [y.(name)]) = Some a ∧ (length y.(name) ≤ 127)%nat) as Hy.
  { intros a (k & Hk)%Hin. destruct (tree_node _ _ _ _ T Hk) as [y Hy]. exists y. split; [done|].
    destruct (t_up _ _ T q k a y Hk Hy) as (-> & Hok & _). split; [done|]. by destruct Hok as (_ & _ & _ & _ & ?). }
  exists (dirent_of s <$> take (Z.to_nat n) l). split.
  { apply dirents_spec; [done| |].
    - apply (nodes_length s M); [done|done|]. intros a Ha. destruct (Hy a Ha) as (y & _ & E & _). by eexists.
    - apply Forall_forall. intros a Ha. destruct (Hy a Ha) as (y & E & _ & El). by exists y. }
  assert (∀ a, a ∈ take (Z.to_nat n) l → a ∈ l) as Htk by (intros a (i & Hi & _)%elem_of_take; by eapply list_elem_of_lookup_2).
  assert (∀ a, a ∈ l → M !! (q ++ [d_name (dirent_of s a)]) = Some a) as Hd.
  { intros a Ha. destruct (Hy a Ha) as (y & E & E2 & _). unfold dirent_of. by rewrite E. }
  split; [|split; [|split]].
  - rewrite <- list_fmap_compose. apply NoDup_fmap_2_strong; [|rewrite <- (take_drop (Z.to_nat n) l) in Hnd; by apply NoDup_app in Hnd as [? _]]. intros a c Ha Hc E. cbn in E.
    pose proof (Hd a (Htk _ Ha)) as E1. rewrite E in E1. rewrite (Hd c (Htk _ Hc)) in E1. congruence.
  - apply Forall_fmap, Forall_forall. intros a Ha. destruct (Hy a (Htk _ Ha)) as (y & E & E2 & _). unfold entry, compose, dirent_of. rewrite E. cbn.
    rewrite (r_files _ _ _ _ R), E2. cbn. unfold attr. by rewrite E.
  - unfold zlen. rewrite length_fmap, length_take. lia.
  - unfold zlen. rewrite length_fmap, length_take. intros Hlt k Hk. rewrite take_ge by lia. rewrite (rep_dom _ _ _ _ R) in Hk.
    apply elem_of_dom in Hk as [a Ha]. apply list_elem_of_fmap. exists (dirent_of s a). assert (a ∈ l) as Hal by (apply Hin; by exists k).
    split; [|by apply list_elem_of_fmap_2]. pose proof (Hd a Hal) as E. pose proof (t_inj _ _ T _ _ _ Ha E) as E2. by apply app_inj_tail in E2 as [_ ->].
Qed.

Lemma readdir_rep Drv F s M A fd n :
  driver_ok Drv → rep F s M A → 0 ≤ n → ∃ s' rc l, vfs_readdir Drv s fd true n = Ret (s', rc, l) ∧ readdir_spec Drv A fd n rc l ∧ rep F s' M A.
Proof.
  intros Q R Hn. unfold vfs_readdir. pose proof (bad_fd_rep F s M A fd R) as Hb. destruct (open_at A fd) as [[[q fl] off]|] eqn:Eo.
  2:{ rewrite Hb. exists s, (- EBADF), []. split; [done|]. split; [by apply rd_bad|done]. }
  destruct Hb as (-> & Hfd & a & -> & Ha & Ee). cbn [negb orb]. destruct (Z.eqb_spec n 0) as [->|Hn0].
  { exists s, (- EINVAL), []. split; [done|]. split; [|done]. eapply rd_invalid; [done|by left]. }
  cbn [mbind outcome_bind]. destruct (tree_node _ _ _ _ (r_tree _ _ _ _ R) Ha) as [x Hx].
  assert (deref s a = Ret x) as -> by (unfold deref; by rewrite Hx). cbn [mbind outcome_bind].
  rewrite (is_dir_rep F s M A q a x R Ha Hx). destruct (is_dir A q) eqn:Ed; cbn [negb].
  2:{ exists s, (- EINVAL), []. split; [done|]. split; [|done]. eapply rd_invalid; [done|by right]. }
  rewrite (get_ops_rep Drv F s M A q a R Ha). cbn [mbind outcome_bind]. destruct (listing_rep F s M A q a x n R Ha Hx Hn) as (l & El & Hl).
  assert (driver_op Drv A q op_readdir = match Drv <$> driver A q with Some d => op_readdir d | None => None end) as Edr.
  { unfold driver_op. by destruct (driver A q). }
  destruct (Drv <$> driver A q) as [[rd wr opn cl rdd mk st lk]|] eqn:Edd; cbn [op_readdir] in Edr;
    [destruct rdd as [f|]|]; try (rewrite El; exists s, (zlen l), l; split; [done|]; split; [by eapply rd_tree|done]).
  apply driver_fmap in Edd as (d & _ & Ed2). destruct (q_readdir _ Q d f F s M a n ltac:(by rewrite <- Ed2) (r_own _ _ _ _ R) (r_tree _ _ _ _ R) (t_node _ _ (r_tree _ _ _ _ R) q a Ha) Hn) as (s1 & r & l1 & -> & Hs).
  exists s1, r, l1. split; [done|]. split; [eapply rd_driver; [done|done|done|rewrite Edr; by eexists]|by eapply rep_same].
Qed.

(** [stat] of the file at [q]. *)
Inductive stat_spec (Drv : Z → vfs_ops (H:=H) (P:=P)) (A : afs) q : Z → option vfs_stat → Prop :=
  | st_driver rc st : is_Some (driver_op Drv A q op_stat) → stat_spec Drv A q rc (Some st)
  | st_tree st : driver_op Drv A q op_stat = None → A.(files) !! q = Some (st.(st_type), st.(st_size)) → stat_spec Drv A q 0 (Some st).
Lemma stat_node_rep Drv F s M A q a :
  driver_ok Drv → rep F s M A → M !! q = Some a → ∃ s' rc st, stat_node Drv s a = Ret (s', rc, st) ∧ stat_spec Drv A q rc st ∧ rep F s' M A.
Proof.
  intros Q R Ha. unfold stat_node. rewrite (get_ops_rep Drv F s M A q a R Ha). cbn [mbind outcome_bind].
  destruct (rep_file F s M A q a R Ha) as (x & Hx & Efile).
  assert (driver_op Drv A q op_stat = match Drv <$> driver A q with Some d => op_stat d | None => None end) as Edr.
  { unfold driver_op. by destruct (driver A q). }
  destruct (Drv <$> driver A q) as [[rd wr opn cl rdd mk st lk]|] eqn:Edd; cbn [op_stat] in Edr;
    [destruct st as [f|]|]; try (unfold deref; rewrite Hx; exists s, 0, (Some (node_stat x)); split; [done|]; split; [by apply st_tree|done]).
  apply driver_fmap in Edd as (d & _ & Ed2). destruct (q_stat _ Q d f F s M a ltac:(by rewrite <- Ed2) (r_own _ _ _ _ R) (r_tree _ _ _ _ R) (t_node _ _ (r_tree _ _ _ _ R) q a Ha)) as (s1 & r & st & -> & Hs).
  exists s1, r, (Some st). split; [done|]. split; [apply st_driver; rewrite Edr; by eexists|by eapply rep_same].
Qed.

Definition stat_path_spec Drv (A : afs) path rc st : Prop :=
  match find_path A path with None => rc = - ENOENT ∧ st = None | Some q => stat_spec Drv A q rc st end.
Definition fstat_spec Drv (A : afs) fd rc st : Prop :=
  match open_at A fd with None => rc = - EBADF ∧ st = None | Some (q, _, _) => stat_spec Drv A q rc st end.

Lemma stat_path_rep Drv F s M A path :
  driver_ok Drv → rep F s M A → path_ok path →
  ∃ s' M' A' rc st, vfs_stat_path Drv s (Some path) true = Ret (s', rc, st) ∧ discovers Drv (components path) A A' ∧ stat_path_spec Drv A' path rc st ∧ rep F s' M' A'.
Proof.
  intros Q R Hp. cbn [vfs_stat_path negb]. destruct (walk_rep Drv F s M A path Q R ltac:(apply Hp)) as (s1 & M1 & A1 & -> & R1 & HA & _ & Hin & _).
  unfold stat_path_spec. cbn [mbind outcome_bind]. destruct (find_path A1 path) as [q|] eqn:Ef; cbn [mbind option_bind].
  - destruct (Hin q eq_refl) as [a Ha]. rewrite Ha. destruct (stat_node_rep Drv F s1 M1 A1 q a Q R1 Ha) as (s' & rc & st & -> & Hs & R').
    exists s', M1, A1, rc, st. rewrite Ef. by split.
  - exists s1, M1, A1, (- ENOENT), None. by rewrite Ef.
Qed.

Lemma fstat_rep Drv F s M A fd :
  driver_ok Drv → rep F s M A → ∃ s' rc st, vfs_fstat Drv s fd true = Ret (s', rc, st) ∧ fstat_spec Drv A fd rc st ∧ rep F s' M A.
Proof.
  intros Q R. unfold vfs_fstat, fstat_spec. cbn [negb]. pose proof (bad_fd_rep F s M A fd R) as Hb. destruct (open_at A fd) as [[[q fl] off]|].
  - destruct Hb as (-> & _ & a & -> & Ha & _). cbn [mbind outcome_bind]. by apply (stat_node_rep Drv F s M A q a).
  - rewrite Hb. by exists s, (- EBADF), None.
Qed.

(** ** Mounting *)

(** The path [q] and its [cs] below it, created where they are missing. *)
Fixpoint mkdirs (A : afs) q (cs : list (list Z)) : afs :=
  match cs with
  | [] => A
  | c :: cs => mkdirs (if decide (q ++ [c] ∈ dom A.(files)) then A else add_file A (q ++ [c]) VFS_DIR) (q ++ [c]) cs
  end.
Definition mount_ok (path : list Z) : Prop := head path = Some 47 ∧ short (components path) ∧ plain (components path).

Inductive mount_spec (A : afs) (path : list Z) (d : Z) : Z → afs → Prop :=
  | mount_done : mount_spec A path d 0 (set_mnt (mkdirs A [] (components path)) (components path) d)
  | mount_nomem n : mount_spec A path d (- ENOMEM) (mkdirs A [] (take n (components path))).

Lemma rep_mount F s M A q a x d data :
  rep F s M A → M !! q = Some a → s.(nodes) !! a = Some x → rep F (put_node s a (set_mount x d data)) M (set_mnt A q d).
Proof.
  intros R Ha Hx. pose proof (r_tree _ _ _ _ R) as T. split; try apply R.
  - by apply (tree_attr s _ M a x (set_mount x d data)).
  - pose proof (r_own _ _ _ _ R) as O. apply (own_put F s a x _ O Hx), (o_data _ _ O a x Hx).
  - intros p. cbn. rewrite (r_files _ _ _ _ R p). destruct (M !! p) as [c|]; cbn; [|done]. unfold attr. cbn. rewrite lookup_insert.
    case_decide; [subst; by rewrite Hx|done].
  - intros c y Hy. cbn in Hy. apply lookup_insert_Some in Hy as [[<- <-]|[_ Hy]]; [|by apply (r_ops _ _ _ _ R c)]. exact (r_ops _ _ _ _ R a x Hx).
  - intros p c y Hp Hy. cbn in Hy |- *. rewrite lookup_insert. apply lookup_insert_Some in Hy as [[<- <-]|[Hne Hy]].
    + rewrite decide_True; [done|]. by apply (t_inj _ _ T q p a).
    + rewrite decide_False by (intros ->; congruence). by apply (r_mnt _ _ _ _ R p c).
  - intros p e Hp. cbn in Hp. apply lookup_insert_Some in Hp as [[<- _]|[_ Hp]]; [by exists a|by apply (r_mnt_in _ _ _ _ R p e)].
Qed.

(** A driver gives a node its data. *)
Lemma rep_data F s M A q a x d :
  rep F s M A → M !! q = Some a → s.(nodes) !! a = Some x → d = 0 ∨ d ∈ driver_data s.(priv) → rep F (put_node s a (set_fs_data x d)) M A.
Proof.
  intros R Ha Hx Hd. pose proof (r_tree _ _ _ _ R) as T. split; try apply R.
  - by apply (tree_attr s _ M a x (set_fs_data x d)).
  - by apply (own_put F s a x _ (r_own _ _ _ _ R) Hx).
  - intros p. rewrite (r_files _ _ _ _ R p). destruct (M !! p) as [c|]; cbn; [|done]. unfold attr. cbn. rewrite lookup_insert.
    case_decide; [subst; by rewrite Hx|done].
  - intros c y Hy. cbn in Hy. apply lookup_insert_Some in Hy as [[<- <-]|[_ Hy]]; [|by apply (r_ops _ _ _ _ R c)]. exact (r_ops _ _ _ _ R a x Hx).
  - intros p c y Hp Hy. cbn in Hy. apply lookup_insert_Some in Hy as [[<- <-]|[Hne Hy]]; [|by apply (r_mnt _ _ _ _ R p c)].
    apply (r_mnt _ _ _ _ R p a x Hp Hx).
Qed.

Lemma make_dirs_rep F : ∀ fuel s M A q a path,
  rep F s M A → M !! q = Some a → short (components path) → plain (components path) → (length path < fuel)%nat →
  ∃ s' M' A' r, make_dirs fuel s a path = Ret (s', r) ∧ rep F s' M' A' ∧
    match r with
    | Some b => A' = mkdirs A q (components path) ∧ M' !! (q ++ components path) = Some b
    | None => ∃ n, A' = mkdirs A q (take n (components path))
    end.
Proof.
  intros fuel. induction fuel as [|fuel IH]; intros s M A q a path R Ha Hs Hd Hf; [lia|]. cbn [make_dirs].
  rewrite <- comps_skip in *. pose proof (skip_head path) as Hh. pose proof (skip_length path) as Hl.
  destruct (skip_slashes path) as [|c p]; [exists s, M, A, (Some a); split; [done|]; split; [done|]; by rewrite app_nil_r|].
  destruct (next_component c p Hh Hs) as (w & r & -> & Hne & Hw & Ec & Hlen & Hw127). rewrite Ec in *.
  apply Forall_cons in Hs as [_ Hs]. apply Forall_cons in Hd as [[Hd1 Hd2] Hd]. pose proof (r_tree _ _ _ _ R) as T.
  rewrite (find_child_spec s M q a w T Ha). cbn [mbind outcome_bind]. assert (length r < fuel)%nat as Hfr by (cbn in *; lia).
  destruct (M !! (q ++ [w])) as [b|] eqn:Eb.
  - destruct (IH s M A (q ++ [w]) b r R Eb Hs Hd Hfr) as (s' & M' & A' & res & -> & R' & Hres). exists s', M', A', res. split; [done|]. split; [done|].
    assert (q ++ [w] ∈ dom A.(files)) as Hin by (rewrite (rep_dom _ _ _ _ R); by eapply elem_of_dom_2).
    destruct res as [e|].
    + cbn [mkdirs]. rewrite decide_True by done. by rewrite <- app_assoc in Hres.
    + destruct Hres as (n & ->). exists (S n). cbn [take mkdirs]. by rewrite decide_True.
  - assert (q ++ [w] ∉ dom A.(files)) as Hin by (rewrite (rep_dom _ _ _ _ R); by apply not_elem_of_dom).
    destruct (rep_attach F s M A q a w VFS_DIR R Ha Eb) as (s1 & o & -> & Ho); [by split; [|split; [|split; [|split]]]|]. cbn [mbind outcome_bind].
    destruct o as [b|]; [|exists s1, M, A, None; split; [done|]; split; [done|]; by exists 0%nat].
    destruct Ho as (s2 & -> & _ & R2). cbn [mbind outcome_bind].
    destruct (IH s2 _ _ (q ++ [w]) b r R2 (lookup_insert_eq _ _ _) Hs Hd Hfr) as (s' & M' & A' & res & -> & R' & Hres).
    exists s', M', A', res. split; [done|]. split; [done|]. destruct res as [e|].
    + cbn [mkdirs]. rewrite decide_False by done. by rewrite <- app_assoc in Hres.
    + destruct Hres as (n & ->). exists (S n). cbn [take mkdirs]. by rewrite decide_False.
Qed.

(** A path that leads somewhere needs no new directory. *)
Lemma mkdirs_resolved D A cs : D = dom A.(files) → plain cs → ∀ q r, resolve D q cs = Some r → mkdirs A q cs = A ∧ r = q ++ cs.
Proof.
  intros -> Hp. induction Hp as [|c cs [H1 H2] _ IH]; intros q r Hq; cbn in *; [injection Hq as <-; by rewrite app_nil_r|].
  apply bind_Some in Hq as (q' & Hstep & Hq). unfold rstep in Hstep. repeat case_decide; try done. injection Hstep as <-.
  destruct (IH _ _ Hq) as [-> ->]. by rewrite <- app_assoc.
Qed.

Lemma mount_rep Drv F s M A path d data :
  driver_ok Drv → rep F s M A → mount_ok path →
  ∃ s' M' A0 A' rc, vfs_mount Drv s (Some path) (Some d) data = Ret (s', rc) ∧ discovers Drv (components path) A A0 ∧ mount_spec A0 path d rc A' ∧ rep F s' M' A'.
Proof.
  intros Q R (Hh & Hs & Hp). destruct path as [|c p]; [done|]. cbn in Hh. injection Hh as ->.
  destruct (t_root _ _ (r_tree _ _ _ _ R)) as (root & Er & HMr). unfold vfs_mount. rewrite Er.
  assert (∃ s1 M1 A0 A1 r, (if bool_decide (47 :: p = [47]) then Ret (s, Some root) else
      r ← vfs_walk_path Drv s (Some (47 :: p)); let '(s, mp) := r in
      match mp with Some a => Ret (s, Some a) | None => make_dirs (S (length p)) s root p end) = Ret (s1, r) ∧
    discovers Drv (components p) A A0 ∧ rep F s1 M1 A1 ∧
    match r with
    | Some b => A1 = mkdirs A0 [] (components p) ∧ M1 !! components p = Some b
    | None => ∃ n, A1 = mkdirs A0 [] (take n (components p))
    end) as (s1 & M1 & A0 & A1 & r & -> & HA0 & R1 & Hr).
  { case_bool_decide as Ep; [injection Ep as ->; exists s, M, A, A, (Some root); split; [done|]; split; [constructor|done]|].
    destruct (walk_rep Drv F s M A (47 :: p) Q R Hs) as (s1 & M1 & A0 & -> & R1 & HA0 & HM & Hin & _). cbn [mbind outcome_bind].
    destruct (find_path A0 (47 :: p)) as [q|] eqn:Ef; cbn [mbind option_bind].
    - destruct (Hin q eq_refl) as [a Ha]. rewrite Ha. exists s1, M1, A0, A0, (Some a). split; [done|]. split; [done|]. split; [done|].
      cbn in Ef. destruct (mkdirs_resolved _ A0 (components p) eq_refl Hp [] q Ef) as [-> ->]. done.
    - destruct (make_dirs_rep F (S (length p)) s1 M1 A0 [] root p R1) as (s' & M' & A' & r & -> & R' & Hr); [by eapply lookup_weaken|done|done|lia|].
      by exists s', M', A0, A', r. }
  cbn [mbind outcome_bind]. change (components (47 :: p)) with (components p) in *. destruct r as [b|].
  - destruct Hr as [-> Hb]. destruct (tree_node _ _ _ _ (r_tree _ _ _ _ R1) Hb) as [x Hx]. unfold deref. rewrite Hx. cbn [mbind outcome_bind].
    eexists _, M1, A0, _, 0. split; [done|]. split; [done|]. split; [apply (mount_done A0 (47 :: p) d)|]. by apply rep_mount.
  - destruct Hr as (n & ->). exists s1, M1, A0, (mkdirs A0 [] (take n (components p))), (- ENOMEM). split; [done|]. split; [done|]. split; [|done]. apply (mount_nomem A0 (47 :: p) d).
Qed.
(** ** Histories of calls *)

Definition init_afs : afs := {| files := {[ [] := (VFS_DIR, 0) ]}; mnt := ∅; fds := replicate (Z.to_nat MAX_OPEN_FILES) None |}.

Lemma init_rep F h p tab r0 :
  kh_rep h (F ∪ driver_blocks p) → F ## driver_blocks p →
  ∃ s rc, vfs_init {| heap := h; priv := p; nodes := ∅; fd_table := tab; vfs_root := r0 |} = Ret (s, rc) ∧
    (rc = - ENOMEM ∧ s.(nodes) = ∅ ∧ kh_rep s.(heap) (F ∪ driver_blocks p) ∨ rc = 0 ∧ ∃ M, rep F s M init_afs).
Proof.
  intros Hh HF. unfold vfs_init. set (s0 := with_fds _ _).
  assert (own F s0) as O by (split; cbn; [by rewrite dom_empty_L, union_empty_r_L|set_solver|done|done]).
  destruct (create_node_spec F s0 [47] VFS_DIR O) as (s1 & r & -> & O1 & Ef & Er & Ep & Hr). cbn [mbind outcome_bind]. destruct r as [a|].
  2:{ eexists _, (- ENOMEM). split; [done|]. left. split; [done|]. cbn in Hr |- *. pose proof (o_heap _ _ O1) as Oh. rewrite Hr, Ep, dom_empty_L, union_empty_r_L in Oh. done. }
  destruct Hr as [Ha En]. cbn in En. eexists _, 0. split; [done|]. right. split; [done|]. exists {[ [] := a ]}.
  assert (∀ c x, s1.(nodes) !! c = Some x → c = a ∧ x = new_node [47] VFS_DIR) as Hx.
  { intros c x Hc. rewrite En in Hc. apply lookup_insert_Some in Hc as [[<- <-]|[_ Hc]]; [done|]. by rewrite lookup_empty in Hc. }
  assert (∀ q c, ({[ [] := a ]} : gmap (list (list Z)) Z) !! q = Some c → q = [] ∧ c = a) as HM by (intros q c Hq; apply lookup_singleton_Some in Hq as [<- <-]; done).
  split; cbn.
  - split; cbn.
    + exists a. split; [done|]. apply lookup_singleton_eq.
    + intros q c [-> ->]%HM. rewrite En, lookup_insert_eq. by eexists.
    + intros c x [-> _]%Hx. exists []. apply lookup_singleton_eq.
    + intros q q' c [-> _]%HM [-> _]%HM. done.
    + intros q n c x [Hq _]%HM. by destruct q.
    + intros c x _ [_ ->]%Hx. done.
    + intros q b x [-> ->]%HM [_ ->]%Hx. exists []. cbn. split; [done|]. split; [constructor|]. intros c. split; [by intros ?%not_elem_of_nil|].
      intros (n & [Hq _]%HM). done.
  - destruct O1 as [O1 O2 O3 O4]. by split.
  - intros q. destruct (decide (q = [])) as [->|Hq].
    + rewrite !lookup_singleton_eq. cbn. unfold attr. cbn. rewrite En, lookup_insert_eq. done.
    + by rewrite !lookup_singleton_ne by done.
  - exists 0. apply lookup_singleton_eq.
  - intros c x [_ ->]%Hx. done.
  - intros q c x _ [_ ->]%Hx. done.
  - done.
  - by rewrite Ef.
  - done.
  - intros i Hi. rewrite Ef. unfold init_afs, s0. cbn [with_fds fd_table fds]. by rewrite !aget_replicate.
Qed.

Inductive call :=
  | Open (path : list Z) (fl : Z) | Close (fd : Z) | Read (fd n : Z) | Write (fd : Z) (data : list Z) | Mkdir (path : list Z)
  | Readdir (fd n : Z) | Seek (fd off whence : Z) | Stat (path : list Z) | Fstat (fd : Z) | Mount (path : list Z) (d data : Z).
Inductive reply := Int (rc : Z) | Bytes (rc : Z) (out : list Z) | Entries (rc : Z) (l : list vfs_dirent) | Attr (rc : Z) (st : option vfs_stat).

(** The paths and names are shorter than the buffers, and sizes are not negative. *)
Definition call_ok (Drv : Z → vfs_ops (H:=H) (P:=P)) (c : call) : Prop :=
  match c with
  | Open path fl => path_ok path ∧ (has fl VFS_O_CREATE = true → creatable Drv path)
  | Mkdir path => path_ok path ∧ creatable Drv path
  | Stat path => path_ok path
  | Read _ n | Readdir _ n => 0 ≤ n
  | Mount path _ _ => mount_ok path
  | _ => True
  end.
(** The names that a call looks up. *)
Definition call_names (c : call) : list (list Z) :=
  match c with Open path _ | Mkdir path | Stat path | Mount path _ _ => components path | _ => [] end.
Definition do_call (Drv : Z → vfs_ops (H:=H) (P:=P)) s (c : call) : outcome (vfs H P * reply) :=
  match c with
  | Open path fl => r ← vfs_open Drv s (Some path) fl; Ret (r.1, Int r.2)
  | Close fd => r ← vfs_close Drv s fd; Ret (r.1, Int r.2)
  | Read fd n => r ← vfs_read Drv s fd true n; Ret (r.1.1, Bytes r.1.2 r.2)
  | Write fd data => r ← vfs_write Drv s fd (Some data); Ret (r.1, Int r.2)
  | Mkdir path => r ← vfs_mkdir Drv s (Some path); Ret (r.1, Int r.2)
  | Readdir fd n => r ← vfs_readdir Drv s fd true n; Ret (r.1.1, Entries r.1.2 r.2)
  | Seek fd off whence => r ← vfs_lseek s fd off whence; Ret (r.1, Int r.2)
  | Stat path => r ← vfs_stat_path Drv s (Some path) true; Ret (r.1.1, Attr r.1.2 r.2)
  | Fstat fd => r ← vfs_fstat Drv s fd true; Ret (r.1.1, Attr r.1.2 r.2)
  | Mount path d data => r ← vfs_mount Drv s (Some path) (Some d) data; Ret (r.1, Int r.2)
  end.
(** The abstract file system's answer to a call, once the drivers have discovered
    what they want to. *)
Definition step (Drv : Z → vfs_ops (H:=H) (P:=P)) (A : afs) (c : call) (r : reply) (A' : afs) : Prop :=
  match c, r with
  | Open path fl, Int rc => open_spec A path fl rc A'
  | Close fd, Int rc => close_spec A fd rc A'
  | Read fd n, Bytes rc _ => read_spec Drv A fd n rc A'
  | Write fd data, Int rc => write_spec Drv A fd (zlen data) rc A'
  | Mkdir path, Int rc => mkdir_spec Drv A path rc A'
  | Readdir fd n, Entries rc l => A' = A ∧ readdir_spec Drv A fd n rc l
  | Seek fd off whence, Int rc => (rc, A') = seek_spec A fd off whence
  | Stat path, Attr rc st => A' = A ∧ stat_path_spec Drv A path rc st
  | Fstat fd, Attr rc st => A' = A ∧ fstat_spec Drv A fd rc st
  | Mount path d _, Int rc => mount_spec A path d rc A'
  | _, _ => False
  end.
Fixpoint run (Drv : Z → vfs_ops (H:=H) (P:=P)) s (cs : list call) : outcome (vfs H P * list reply) :=
  match cs with
  | [] => Ret (s, [])
  | c :: cs => r ← do_call Drv s c; let '(s, x) := r in r ← run Drv s cs; let '(s, xs) := r in Ret (s, x :: xs)
  end.
Inductive steps (Drv : Z → vfs_ops (H:=H) (P:=P)) : afs → list call → list reply → afs → Prop :=
  | steps_nil A : steps Drv A [] [] A
  | steps_cons A A0 A1 A2 c cs r rs : discovers Drv (call_names c) A A0 → step Drv A0 c r A1 → steps Drv A1 cs rs A2 → steps Drv A (c :: cs) (r :: rs) A2.

Lemma call_rep Drv F s M A c :
  driver_ok Drv → rep F s M A → call_ok Drv c →
  ∃ s' M' A0 A' r, do_call Drv s c = Ret (s', r) ∧ discovers Drv (call_names c) A A0 ∧ step Drv A0 c r A' ∧ rep F s' M' A'.
Proof.
  intros Q R Hc. pose proof (disc_none Drv [] A) as Hd. destruct c as [path fl|fd|fd n|fd data|path|fd n|fd off wh|path|fd|path d data]; cbn [do_call step call_names].
  - destruct Hc as [Hp Hcr]. destruct (open_rep Drv F s M A path fl Q R Hp Hcr) as (s' & M' & A0 & A' & rc & -> & ? & ? & ?). by exists s', M', A0, A', (Int rc).
  - destruct (close_rep Drv F s M A fd Q R) as (s' & A' & rc & -> & ? & ?). by exists s', M, A, A', (Int rc).
  - destruct (read_rep Drv F s M A fd n Q R Hc) as (s' & A' & rc & out & -> & ? & ?). by exists s', M, A, A', (Bytes rc out).
  - destruct (write_rep Drv F s M A fd data Q R) as (s' & A' & rc & -> & ? & ?). by exists s', M, A, A', (Int rc).
  - destruct Hc as [Hp Hcr]. destruct (mkdir_rep Drv F s M A path Q R Hp Hcr) as (s' & M' & A0 & A' & rc & -> & ? & ? & ?). by exists s', M', A0, A', (Int rc).
  - destruct (readdir_rep Drv F s M A fd n Q R Hc) as (s' & rc & l & -> & ? & ?). by exists s', M, A, A, (Entries rc l).
  - destruct (seek_rep F s M A fd off wh R) as (s' & -> & ?). exists s', M, A, (seek_spec A fd off wh).2, (Int (seek_spec A fd off wh).1).
    split; [done|]. split; [done|]. split; [by destruct (seek_spec A fd off wh)|done].
  - destruct (stat_path_rep Drv F s M A path Q R Hc) as (s' & M' & A' & rc & st & -> & ? & ? & ?). by exists s', M', A', A', (Attr rc st).
  - destruct (fstat_rep Drv F s M A fd Q R) as (s' & rc & st & -> & ? & ?). by exists s', M, A, A, (Attr rc st).
  - destruct (mount_rep Drv F s M A path d data Q R Hc) as (s' & M' & A0 & A' & rc & -> & ? & ? & ?). by exists s', M', A0, A', (Int rc).
Qed.

Lemma calls_rep Drv F cs : driver_ok Drv → Forall (call_ok Drv) cs → ∀ s M A, rep F s M A →
  ∃ s' M' A' rs, run Drv s cs = Ret (s', rs) ∧ steps Drv A cs rs A' ∧ rep F s' M' A'.
Proof.
  intros Q. induction 1 as [|c cs Hc _ IH]; intros s M A R; cbn [run].
  { exists s, M, A, []. split; [done|]. split; [constructor|done]. }
  destruct (call_rep Drv F s M A c Q R Hc) as (s1 & M1 & A0 & A1 & r & -> & H0 & Hs1 & R1). cbn [mbind outcome_bind].
  destruct (IH s1 M1 A1 R1) as (s2 & M2 & A2 & rs & -> & Hs2 & R2). cbn [mbind outcome_bind].
  exists s2, M2, A2, (r :: rs). split; [done|]. split; [by eapply steps_cons|done].
Qed.

(** C3: The virtual file system over a heap that keeps its contract and over
    drivers that keep theirs ([driver_ok]: functions that return, leave the tree and
    the descriptors alone, and a lookup that adds nothing or one child of the name
    it was asked for) implements the abstract file system, which has no nodes or
    pointers. [vfs_init] gives the empty one or reports that memory is missing; and
    from every state that represents an abstract file system, every history of
    calls [open], [close], [read], [write], [lseek], [mkdir], [readdir], [stat],
    [fstat] and [mount] returns, with the replies that the abstract calls allow after
    the drivers have discovered files of the names in the path, and leaves a state
    that represents the abstract one. The heap holds one block for every node, the
    blocks of the drivers, and what was there before. The paths are shorter than 512
    bytes and their names than 128; a path that is to be mounted, or made while
    drivers look names up, has no dots and no slash at its end. *)
Theorem vfs_refines Drv F :
  driver_ok Drv →
  (∀ h p tab r0, kh_rep h (F ∪ driver_blocks p) → F ## driver_blocks p →
    ∃ s rc, vfs_init {| heap := h; priv := p; nodes := ∅; fd_table := tab; vfs_root := r0 |} = Ret (s, rc) ∧
      (rc = - ENOMEM ∧ s.(nodes) = ∅ ∧ kh_rep s.(heap) (F ∪ driver_blocks p) ∨ rc = 0 ∧ ∃ M, rep F s M init_afs)) ∧
  (∀ s M A calls, rep F s M A → Forall (call_ok Drv) calls →
    ∃ s' M' A' rs, run Drv s calls = Ret (s', rs) ∧ steps Drv A calls rs A' ∧ rep F s' M' A').
Proof. intros Q. split; [apply init_rep|]. intros s M A calls R Hc. exact (calls_rep Drv F calls Q Hc s M A R). Qed.

(** A name longer than a component: the walk cuts it in two, so what [open]
    creates under the cut name is not found again. *)
Lemma take_component_all w v : ∀ k, 47 ∉ w → (length w ≤ k)%nat → (v = [] ∨ length w = k) → take_component k (w ++ v) = (w, v).
Proof.
  induction w as [|c w IH]; intros k Hw Hl Hv; [destruct k; [done|]; by destruct Hv as [->|?]|].
  destruct k as [|k]; [cbn in Hl; lia|]. apply not_elem_of_cons in Hw as [Hc Hw]. cbn. rewrite (proj2 (Z.eqb_neq c 47)) by done.
  rewrite IH; [done|done|cbn in Hl; lia|]. destruct Hv as [->|Hv]; [by left|right; cbn in Hv; lia].
Qed.
Lemma skip_none w v : 47 ∉ w → w ≠ [] → skip_slashes (w ++ v) = w ++ v.
Proof. destruct w as [|c w]; [done|]. intros [Hc _]%not_elem_of_cons _. cbn. by rewrite (proj2 (Z.eqb_neq c 47)). Qed.

Definition long_name (w v : list Z) : Prop :=
  47 ∉ w ∧ 47 ∉ v ∧ length w = 127%nat ∧ v ≠ [] ∧ (length v ≤ 127)%nat ∧ v ≠ [46] ∧ v ≠ [46; 46].

(** One round of the walk. *)
Lemma walk_one Drv fuel s M q b w v :
  no_lookup Drv → tree s M → M !! q = Some b → 47 ∉ w → w ≠ [] → (length w ≤ 127)%nat → (v = [] ∨ length w = 127%nat) → w ≠ [46] → w ≠ [46; 46] →
  (M !! (q ++ [w]) = None → walk_from Drv (S fuel) s b (w ++ v) = Ret (s, None)) ∧
  (∀ c, M !! (q ++ [w]) = Some c → walk_from Drv (S fuel) s b (w ++ v) = walk_from Drv fuel s c v).
Proof.
  intros Q T Hb Hw Hne Hl Hv H1 H2. cbn [walk_from]. rewrite skip_none by done.
  destruct (w ++ v) as [|c0 n0] eqn:E; [by apply app_nil in E as [? _]|]. rewrite <- E.
  change (Z.to_nat (VFS_NAME_MAX - 1)) with 127%nat. rewrite take_component_all by done. rewrite !bool_decide_eq_false_2 by done.
  rewrite (find_child_spec s M q b w T Hb). cbn [mbind outcome_bind]. split; [intros ->|by intros c ->].
  destruct (get_ops_spec Drv s M q b T Hb) as [-> | (d & ->)]; cbn [mbind outcome_bind]; [done|]. by rewrite Q.
Qed.

Lemma long_name_walk Drv s M w v :
  no_lookup Drv → tree s M → long_name w v → M !! [w; v] = None → vfs_walk_path Drv s (Some (47 :: w ++ v)) = Ret (s, None).
Proof.
  intros Q T (Hw & Hv & Hl & Hne & Hlv & H1 & H2) Hno. destruct (t_root _ _ T) as (root & Er & Hroot). unfold vfs_walk_path. rewrite Er.
  assert (w ≠ []) as Hwn by (by destruct w). assert (w ≠ [46] ∧ w ≠ [46; 46]) as [Hw1 Hw2] by (split; intros ->; done).
  destruct (walk_one Drv (length (w ++ v)) s M [] root w v Q T Hroot Hw Hwn ltac:(lia) ltac:(by right) Hw1 Hw2) as [Hn Hs]. cbn [app] in *.
  destruct (M !! [w]) as [b|] eqn:Eb; [|by apply Hn]. rewrite (Hs b eq_refl). rewrite length_app, Hl. cbn [Nat.add].
  destruct (walk_one Drv (126 + length v) s M [w] b v [] Q T Eb Hv Hne Hlv ltac:(by left) H1 H2) as [Hn2 _]. cbn [app] in Hn2.
  rewrite app_nil_r in Hn2. by apply Hn2.
Qed.

(** A file whose name is longer than 127 bytes is created but never found, whatever
    the drivers that look nothing up: in a
    root without an entry of the cut name, [vfs_open] with [O_CREATE] makes an
    empty file of the cut name (or fails), and a [vfs_stat] of the same path in the state that it
    leaves gives [ENOENT]. *)
Theorem long_name_lost Drv F s M A w v fl :
  driver_ok Drv → no_lookup Drv → rep F s M A → long_name w v → M !! [w] = None → has fl VFS_O_CREATE = true →
  ∃ s1 rc, vfs_open Drv s (Some (47 :: w ++ v)) fl = Ret (s1, rc) ∧
  (0 ≤ rc → ∃ M1 A1, rep F s1 M1 A1 ∧ A1.(files) !! [w] = Some (VFS_FILE, 0)) ∧
  ∃ s2, vfs_stat_path Drv s1 (Some (47 :: w ++ v)) true = Ret (s2, - ENOENT, None).
Proof.
  intros Q Q0 R Hlong Hnew Hc. pose proof Hlong as (Hw & Hv & Hl & Hne & Hlv & H1 & H2). pose proof (r_tree _ _ _ _ R) as T.
  assert (∀ s M m, tree s M → M !! [w] = None → M !! [w; m] = None) as Hkid.
  { clear. intros s M m T Hn. destruct (M !! [w; m]) as [c|] eqn:E; [|done]. change [w; m] with ([w] ++ [m]) in E.
    destruct (tree_node _ _ _ _ T E) as [x Hx]. destruct (t_up _ _ T [w] m c x E Hx) as (_ & _ & b & Hb & _). congruence. }
  unfold vfs_open. rewrite (long_name_walk Drv s M w v Q0 T Hlong (Hkid _ _ _ T Hnew)). cbn [mbind outcome_bind]. rewrite Hc.
  assert (split_last (cut_path (47 :: w ++ v)) = Some ([], w ++ v)) as Esp.
  { unfold cut_path. rewrite take_ge by (cbn; rewrite length_app; change (Z.to_nat (VFS_PATH_MAX - 1)) with 511%nat; lia).
    pose proof (split_last_spec (47 :: w ++ v)) as Hsp. destruct (split_last (47 :: w ++ v)) as [[a b]|]; [|destruct Hsp; by left].
    destruct Hsp as [E Hb]. destruct a as [|c a]; [cbn in E; congruence|]. exfalso. cbn in E. injection E as <- E.
    assert (47 ∈ w ++ v) as Hin by (rewrite E; set_solver). apply elem_of_app in Hin as [?|?]; done. }
  assert (cut_name (w ++ v) = w) as Ecut by (unfold cut_name; change (Z.to_nat (VFS_NAME_MAX - 1)) with 127%nat; by rewrite take_app_length').
  destruct (t_root _ _ (r_tree _ _ _ _ R)) as (root & Er & Hroot).
  assert (name_ok w) as Hok by (split; [by destruct w|]; split; [by intros ->|]; split; [by intros ->|]; split; [done|lia]).
  assert (∃ s1 M1 r, open_create Drv s (47 :: w ++ v) = Ret (s1, r) ∧ rep F s1 M1 (match r with inl _ => add_file A [w] VFS_FILE | inr _ => A end) ∧
    M1 !! [w; v] = None ∧ match r with inl a => M1 !! [w] = Some a | inr e => e < 0 end) as (s1 & M1 & r & -> & R1 & Hno & Hr).
  { unfold open_create. rewrite Esp, Er. cbn [tail]. rewrite Ecut. destruct (rep_attach F s M A [] root w VFS_FILE R Hroot Hnew Hok) as (s1 & r & -> & Hr).
    cbn [mbind outcome_bind app] in *. destruct r as [a|].
    - destruct Hr as (s2 & -> & _ & R2). eexists s2, _, (inl a). split; [done|]. split; [exact R2|]. rewrite lookup_insert_eq. split; [|done].
      rewrite lookup_insert_ne by done. by apply (Hkid _ _ _ T).
    - exists s1, M, (inr (- ENOMEM)). split; [done|]. split; [done|]. split; [by apply (Hkid _ _ _ T)|done]. }
  cbn [mbind outcome_bind]. destruct r as [a|e].
  - destruct (open_file_rep Drv F s1 M1 _ [w] a fl Q R1 Hr) as (s2 & A2 & rc & E2 & R2 & Hrc). exists s2, rc. split; [exact E2|].
    pose proof (long_name_walk Drv s2 M1 w v Q0 (r_tree _ _ _ _ R2) Hlong Hno) as E3. split; [|cbn [vfs_stat_path negb]; rewrite E3; by exists s2].
    intros Hpos. exists M1, A2. split; [done|]. destruct Hrc as [(_ & -> & _)|[_ ->]]; [done|]. unfold truncated. destruct (has fl VFS_O_TRUNC); cbn.
    + by rewrite lookup_alter_eq, lookup_insert_eq.
    + by rewrite lookup_insert_eq.
  - exists s1, e. split; [done|]. pose proof (long_name_walk Drv s1 M1 w v Q0 (r_tree _ _ _ _ R1) Hlong Hno) as E3.
    split; [|cbn [vfs_stat_path negb]; rewrite E3; by exists s1]. intros Hpos. lia.
Qed.
End proofs.

(** ** On the kernel's heap, after boot, with a driver of zeros *)

Definition zeros {P} (d : Z) : vfs_ops (H:=Slab.heap pmm_t) (P:=P) :=
  {| op_read := Some (λ s _ _ n, Ret (s, Z.min n 16, replicate (Z.to_nat (Z.min n 16)) 0));
     op_write := Some (λ s _ _ l, Ret (s, zlen l));
     op_open := None; op_close := None; op_readdir := None; op_mkdir := None; op_stat := None; op_lookup := None |}.
Lemma zeros_ok P `{DriverState P} : driver_ok (P:=P) zeros.
Proof.
  split; try done.
  - intros d f F s M a off n [= <-] O _ _ Hn. eexists s, _, _. split; [done|]. split; [done|lia].
  - intros d f F s M a off l [= <-] O _ _. eexists s, _. split; [done|]. split; [done|lia].
Qed.
Lemma zeros_no_lookup P : no_lookup (P:=P) zeros.
Proof. done. Qed.

Definition demo_vfs {P} (p : P) : vfs (Slab.heap pmm_t) P := {| heap := demo_heap; priv := p; nodes := ∅; fd_table := []; vfs_root := None |}.
(** Deciding that a path is short enough. *)
Definition path_okb (path : list Z) : bool := (length path <? 512)%nat && forallb (λ c, length c <=? 127)%nat (components path).
Lemma path_okb_ok path : path_okb path = true → path_ok path.
Proof.
  unfold path_okb. intros [Hl Hf]%andb_true_iff. split; [by apply Nat.ltb_lt|]. apply Forall_forall. intros c Hc.
  rewrite forallb_forall in Hf. apply list_elem_of_In, Hf in Hc. by apply Nat.leb_le.
Qed.
Definition plainb (path : list Z) : bool :=
  forallb (λ c, bool_decide (c ≠ [46] ∧ c ≠ [46; 46])) (components path) && bool_decide (last path ≠ Some 47).
Lemma plainb_ok path : plainb path = true → plain (components path) ∧ last path ≠ Some 47.
Proof.
  unfold plainb. intros [Hp Hl]%andb_true_iff. split; [|by apply bool_decide_eq_true in Hl]. apply Forall_forall. intros c Hc.
  rewrite forallb_forall in Hp. apply list_elem_of_In, Hp in Hc. by apply bool_decide_eq_true in Hc.
Qed.
Definition call_okb (c : call) : bool :=
  match c with
  | Open path fl => path_okb path && (negb (has fl VFS_O_CREATE) || plainb path)
  | Mkdir path => path_okb path && plainb path
  | Stat path => path_okb path
  | Read _ n | Readdir _ n => 0 <=? n
  | Mount path _ _ => bool_decide (head path = Some 47) && path_okb path && plainb path
  | _ => true
  end.
Lemma call_okb_ok {H P} (Drv : Z → vfs_ops (H:=H) (P:=P)) cs : forallb call_okb cs = true → Forall (call_ok Drv) cs.
Proof.
  intros Hc. apply Forall_forall. intros c Hin. rewrite forallb_forall in Hc. apply list_elem_of_In, Hc in Hin. revert Hin.
  destruct c as [path fl|fd|fd n|fd data|path|fd n|fd off wh|path|fd|path d data]; cbn; try done; try lia.
  - intros [Hp Hf]%andb_true_iff. split; [by apply path_okb_ok|]. intros E. rewrite E in Hf. right. by apply plainb_ok.
  - intros [Hp Hf]%andb_true_iff. split; [by apply path_okb_ok|]. right. by apply plainb_ok.
  - apply path_okb_ok.
  - intros [[Hh Hp]%andb_true_iff Hf]%andb_true_iff. split; [by apply bool_decide_eq_true in Hh|]. split; [by apply path_okb_ok|by apply plainb_ok].
Qed.
Definition rc_of (r : reply) : Z := match r with Int rc | Bytes rc _ | Entries rc _ | Attr rc _ => rc end.

(** The state after [vfs_init] on the booted kernel's heap. *)
Lemma demo_rep {P} `{DS : DriverState P} (p : P) : driver_blocks p = ∅ →
  ∃ (s : vfs (Slab.heap pmm_t) P) M, vfs_init (demo_vfs p) = Ret (s, 0) ∧ rep ∅ s M init_afs ∧ M !! [replicate 127 97] = None.
Proof.
  intros Hp. destruct (init_rep ∅ demo_heap p [] None) as (s & rc & E & [(-> & _)|(-> & M & R)]).
  - rewrite Hp, union_empty_r_L. exact demo_heap_rep.
  - set_solver +.
  - exfalso. assert (match vfs_init (demo_vfs p) with Ret (_, rc) => rc =? 0 | _ => false end = true) as Hc by (vm_compute; reflexivity).
    unfold demo_vfs in Hc. by rewrite E in Hc.
  - exists s, M. split; [done|]. split; [done|]. apply not_elem_of_dom. rewrite <- (rep_dom _ _ _ _ R). cbn. rewrite dom_singleton_L. by intros ?%elem_of_singleton.
Qed.

Lemma long_name_lost_witness :
  ∃ (s : vfs (Slab.heap pmm_t) unit) M, rep ∅ s M init_afs ∧
  ∃ s1 rc, vfs_open zeros s (Some (47 :: replicate 127 97 ++ [98])) VFS_O_CREATE = Ret (s1, rc) ∧
  (0 ≤ rc → ∃ M1 A1, rep ∅ s1 M1 A1 ∧ A1.(files) !! [replicate 127 97] = Some (VFS_FILE, 0)) ∧
  ∃ s2, vfs_stat_path zeros s1 (Some (47 :: replicate 127 97 ++ [98])) true = Ret (s2, - ENOENT, None).
Proof.
  destruct (demo_rep (DS:=no_driver_state) () eq_refl) as (s & M & _ & R & Hn). exists s, M. split; [exact R|].
  apply (long_name_lost zeros ∅ s M init_afs (replicate 127 97) [98] VFS_O_CREATE (zeros_ok ()) (zeros_no_lookup ()) R); [|exact Hn|reflexivity].
  split; [apply (bool_decide_unpack _); reflexivity|]. split; [set_solver|]. split; [apply length_replicate|]. split; [done|]. split; [cbn; lia|done].
Defined.
