(* ===== verification/Ntfs.v ===== *)
(** * The NTFS stub ([src/kernel/fs/fs_ntfs.c])

    A driver that discovers a file by [lookup]. Its blocks are in a typed store: the
    context of a mount and the private data of a node. The block device is a
    parameter: a read gives its success and the contents that the buffer has after
    it. Reading an uninitialised context or node does not occur; the fields that
    [ntfs_stat] does not write are given as 0. *)

From S2P Require Import Pmm Slab SlabHeap KernelHeap.
From stdpp Require Import base numbers list gmap sets.
From Stdlib Require Import (notations) String.
From S2P Require Import Prelude CMem CArray KHeap Vfs.
Open Scope Z_scope.

Inductive ntfs_obj := ntfs_ctx (part_lba : Z) | ntfs_node (is_readme : Z).
Definition is_readme (o : ntfs_obj) : option Z := match o with ntfs_node b => Some b | ntfs_ctx _ => None end.
#[export] Instance ntfs_state : DriverState (gmap Z ntfs_obj) := {| driver_blocks p := dom p; driver_data p := dom (omap is_readme p) |}.

Definition SIZEOF_CTX : Z := 4.
Definition SIZEOF_NTFS_NODE : Z := 1.
Definition ntfs_readme_body : list Z :=
  bytes "AevOS NTFS: stub volume driver." ++ [13; 10] ++
  bytes "Full NTFS requires $MFT, attribute lists, index trees, and security descriptors." ++ [13; 10] ++
  bytes "Use FAT32 or EXT4 mounts for real file access on the same block device." ++ [13; 10].
Definition readme_name : list Z := bytes "NTFS_README.TXT".

(** ** Finding the partition *)

Definition le32 (s : list Z) (i : Z) : Z :=
  Z.lor (Z.lor (s.[i]) (Z.shiftl (s.[i + 1]) 8)) (Z.lor (Z.shiftl (s.[i + 2]) 16) (Z.shiftl (s.[i + 3]) 24)).
Definition boot_is_ntfs (s : list Z) : bool := bool_decide (take 8 (drop 3 s) = bytes "NTFS    ").

Section probe.
Context (block_dev_read : Z → list Z → bool * list Z).

(** The loop over the four partitions; [sec] is the buffer, which a read overwrites. *)
Fixpoint probe_from (n : nat) (i : Z) (sec : list Z) : option Z :=
  match n with
  | O => None
  | S n =>
      let pe := 0x1BE + i * 16 in
      if negb (sec.[pe + 4] =? 0x07) then probe_from n (i + 1) sec else
      let lba := le32 sec (pe + 8) in
      let '(ok, sec) := block_dev_read lba sec in
      if negb ok then probe_from n (i + 1) sec
      else if boot_is_ntfs sec then Some lba else probe_from n (i + 1) sec
  end.
(** [None] for [false], else the partition's first sector. *)
Definition probe_ntfs (sec : list Z) : option Z :=
  let '(ok, sec) := block_dev_read 0 sec in
  if negb ok then None
  else if boot_is_ntfs sec then Some 0
  else if negb (sec.[510] =? 0x55) || negb (sec.[511] =? 0xAA) then None
  else probe_from 4 0 sec.
End probe.

(** ** The driver's functions *)

Section ntfs.
Context {H : Type} `{KH : KHeap H}.
Notation vfs_t := (vfs H (gmap Z ntfs_obj)).
Implicit Types s : vfs_t.

Definition with_priv s (p : gmap Z ntfs_obj) : vfs_t :=
  {| heap := s.(heap); priv := p; nodes := s.(nodes); fd_table := s.(fd_table); vfs_root := s.(vfs_root) |}.
(** [kmalloc] of an object, and its first contents. *)
Definition alloc_obj s (size : Z) (o : ntfs_obj) : outcome (vfs_t * Z) :=
  r ← kmalloc s.(heap) size;
  let '(h, a) := r in
  let s := with_heap s h in
  Ret (if a =? 0 then s else with_priv s (<[a := o]> s.(priv)), a).
Definition free_block s (a : Z) : outcome vfs_t := h ← kfree s.(heap) a; Ret (with_heap s h).

Fixpoint ctx_from (fuel : nat) s (p : option Z) : outcome (option Z) :=
  match p with
  | None => Ret None
  | Some a =>
      match fuel with
      | O => NoFuel
      | S fuel =>
          x ← deref s a;
          if nonzero x.(mount_data) then Ret (Some x.(mount_data)) else ctx_from fuel s x.(parent)
      end
  end.
Definition ctx_of s (n : Z) : outcome (option Z) := ctx_from (fuel_of s) s (Some n).
(** [(ntfs_node_t * )node->fs_data], and what it points to. *)
Definition node_data s (a : Z) : outcome (option Z) :=
  x ← deref s a;
  if x.(fs_data) =? 0 then Ret None
  else match s.(priv) !! x.(fs_data) with Some (ntfs_node b) => Ret (Some b) | _ => Fault end.

Definition readme_stat : vfs_stat :=
  {| st_type := VFS_FILE; st_size := zlen ntfs_readme_body; st_permissions := 0x124; st_inode := 1; st_created := 0; st_modified := 0 |}.
Definition root_stat : vfs_stat := {| st_type := VFS_DIR; st_size := 0; st_permissions := 0x16D; st_inode := 2; st_created := 0; st_modified := 0 |}.
Definition no_stat : vfs_stat := {| st_type := VFS_FILE; st_size := 0; st_permissions := 0; st_inode := 0; st_created := 0; st_modified := 0 |}.
Definition ntfs_stat s (a : Z) : outcome (vfs_t * Z * vfs_stat) :=
  fn ← node_data s a;
  match fn with
  | None => Ret (s, - EINVAL, no_stat)
  | Some b => Ret (s, 0, if nonzero b then readme_stat else root_stat)
  end.
Definition ntfs_read s (a offset size : Z) : outcome (vfs_t * Z * list Z) :=
  fn ← node_data s a;
  match fn with
  | Some b =>
      if negb (nonzero b) then Ret (s, - EINVAL, []) else
      let total := zlen ntfs_readme_body in
      if offset >=? total then Ret (s, 0, []) else
      let rem := total - offset in
      let size := if size >? rem then rem else size in
      Ret (s, size, take (Z.to_nat size) (drop (Z.to_nat offset) ntfs_readme_body))
  | None => Ret (s, - EINVAL, [])
  end.
Definition ntfs_readdir s (a max : Z) : outcome (vfs_t * Z * list vfs_dirent) :=
  fn ← node_data s a;
  match fn with
  | Some b =>
      if nonzero b then Ret (s, - EINVAL, []) else
      if max =? 0 then Ret (s, 0, []) else
      Ret (s, 1, [{| d_name := readme_name; d_type := VFS_FILE; d_inode := 1; d_size := zlen ntfs_readme_body |}])
  | None => Ret (s, - EINVAL, [])
  end.
Definition ntfs_lookup s (parent : Z) (name : list Z) : outcome (vfs_t * option Z) :=
  c ← ctx_of s parent;
  match c with
  | None => Ret (s, None)
  | Some _ =>
      pd ← node_data s parent;
      match pd with
      | None => Ret (s, None)
      | Some b =>
          if nonzero b then Ret (s, None) else
          if negb (bool_decide (name = readme_name)) then Ret (s, None) else
          r ← alloc_obj s SIZEOF_NTFS_NODE (ntfs_node 1);
          let '(s, ch) := r in
          if ch =? 0 then Ret (s, None) else vfs_make_child s (Some parent) (Some name) VFS_FILE ch
      end
  end.
Definition ntfs_ops : vfs_ops (H:=H) (P:=gmap Z ntfs_obj) :=
  {| op_read := Some ntfs_read; op_write := None; op_open := None; op_close := None; op_readdir := Some ntfs_readdir; op_mkdir := None;
     op_stat := Some ntfs_stat; op_lookup := Some ntfs_lookup |}.

(** ** Mounting; [ops] is the number of [ntfs_ops] in the table [Drv] *)

Context (block_dev_is_available : bool) (block_dev_read : Z → list Z → bool * list Z) (Drv : Z → vfs_ops (H:=H) (P:=gmap Z ntfs_obj)) (ops : Z).

(** [sec] is what the buffer on the stack holds; the context enters the store when the
    mount is made, nobody reads it before. *)
Definition ntfs_try_mount s (sec : list Z) (mount_path : list Z) : outcome (vfs_t * Z) :=
  if negb block_dev_is_available then Ret (s, - EIO) else
  r ← kmalloc s.(heap) SIZEOF_CTX;
  let '(h, ctx) := r in
  let s := with_heap s h in
  if ctx =? 0 then Ret (s, - ENOMEM) else
  match probe_ntfs block_dev_read sec with
  | None => s ← free_block s ctx; Ret (s, - EINVAL)
  | Some lba =>
      r ← vfs_mount Drv s (Some mount_path) (Some ops) ctx;
      let '(s, rc) := r in
      if rc <? 0 then s ← free_block s ctx; Ret (s, rc) else
      r ← vfs_resolve_path Drv s (Some mount_path);
      let '(s, mp) := r in
      match mp with
      | None => s ← free_block s ctx; Ret (s, - ENOENT)
      | Some mp =>
          r ← alloc_obj s SIZEOF_NTFS_NODE (ntfs_node 0);
          let '(s, root) := r in
          if root =? 0 then s ← free_block s ctx; Ret (s, - ENOMEM)
          else
            x ← deref s mp;
            Ret (put_node (with_priv s (<[ctx := ntfs_ctx lba]> s.(priv))) mp (set_fs_data x root), 0)
      end
  end.

(** ** The driver keeps its contract *)

Lemma alloc_obj_spec F s n o :
  own F s → 0 ≤ n < 2 ^ 64 →
  ∃ s' a, alloc_obj s n o = Ret (s', a) ∧ same F s s' ∧
    (a = 0 ∧ s'.(priv) = s.(priv) ∨ a ≠ 0 ∧ a ∉ F ∧ s.(priv) !! a = None ∧ s'.(priv) = <[a := o]> s.(priv)).
Proof.
  intros [Hr Hd Hf Hx] Hn. unfold alloc_obj. destruct (kmalloc_spec _ _ n Hr Hn) as (h & a & -> & Ha). cbn [mbind outcome_bind].
  destruct Ha as [[-> Hr1]|(Ha0 & _ & Ha & Hr1)].
  - eexists _, 0. split; [done|]. split; [|by left]. split; [done|]. split; [done|]. split; [done|]. by split.
  - rewrite (proj2 (Z.eqb_neq a 0)) by lia. eexists _, a. split; [done|].
    assert (s.(priv) !! a = None) as Hnone by (apply not_elem_of_dom; cbn in Ha; set_solver +Ha).
    split; [|right; split; [lia|]; split; [set_solver +Ha|done]].
    split; [done|]. split; [done|]. split; [done|]. split; cbn.
    + cbn in Hr1. rewrite dom_insert_L. eapply eq_ind; [exact Hr1|]. set_solver +.
    + cbn in *. rewrite dom_insert. set_solver +Hd Ha.
    + cbn in *. rewrite dom_insert. set_solver +Hf Ha.
    + intros c x Hc. destruct (Hx c x Hc) as [?|Hin]; [by left|right]. cbn in *. apply elem_of_dom. apply elem_of_dom in Hin as [b Hb].
      rewrite lookup_omap in Hb |- *. rewrite lookup_insert_ne; [by eexists|]. intros E. by rewrite <- E, Hnone in Hb.
Qed.

Lemma ctx_of_spec s M a : tree s M → is_Some (s.(nodes) !! a) → ∃ c, ctx_of s a = Ret c.
Proof.
  intros T [x Hx]. destruct (t_path _ _ T a x Hx) as [p Hp]. unfold ctx_of. pose proof (path_length s M p a T Hp) as Hl. clear x Hx. revert Hp Hl.
  generalize (fuel_of s). revert a. induction p as [|n p IH] using rev_ind; intros a fuel Ha Hf; (destruct fuel as [|fuel]; [lia|]); cbn [ctx_from];
    destruct (tree_node _ _ _ _ T Ha) as [x Hx]; unfold deref; rewrite Hx; cbn [mbind outcome_bind]; (destruct (nonzero _); [by eexists|]).
  - rewrite (t_top _ _ T a x Ha Hx). by destruct fuel; eexists.
  - destruct (t_up _ _ T p n a x Ha Hx) as (_ & _ & b & Hb & ->). rewrite length_app in Hf. cbn in Hf. apply (IH b fuel Hb). lia.
Qed.
Lemma node_data_spec F s a : own F s → is_Some (s.(nodes) !! a) → ∃ o, node_data s a = Ret o.
Proof.
  intros O [x Hx]. unfold node_data, deref. rewrite Hx. cbn [mbind outcome_bind]. destruct (o_data _ _ O a x Hx) as [E|Hin]; [rewrite E; by exists None|].
  destruct (_ =? 0); [by exists None|]. cbn in Hin. apply elem_of_dom in Hin as [b Hb]. rewrite lookup_omap in Hb.
  destruct (s.(priv) !! x.(fs_data)) as [[c|c]|]; [done|by eexists|done].
Qed.

Lemma ntfs_lookup_spec F s M a x n : own F s → tree s M → s.(nodes) !! a = Some x → name_ok n →
  ∃ s' r, ntfs_lookup s a n = Ret (s', r) ∧ looked_up F s a x n s' r.
Proof.
  intros O T Hx Hn. pose proof (same_refl F s O) as Hsame. unfold ntfs_lookup.
  destruct (ctx_of_spec s M a T ltac:(by eexists)) as (c & ->). destruct (node_data_spec F s a O ltac:(by eexists)) as (b & Eb). cbn [mbind outcome_bind].
  destruct c as [c|]; [|by exists s, None]. rewrite Eb. cbn [mbind outcome_bind]. destruct b as [b|]; [|by exists s, None]. destruct (nonzero b); [by exists s, None|].
  destruct (negb _); [by exists s, None|]. destruct (alloc_obj_spec F s SIZEOF_NTFS_NODE (ntfs_node 1) O ltac:(done)) as (s1 & ch & -> & Hs1 & Hch).
  cbn [mbind outcome_bind]. destruct Hch as [[-> _]|(Hch & _ & _ & Ep)]; [by exists s1, None|]. rewrite (proj2 (Z.eqb_neq ch 0)) by done.
  destruct Hs1 as (En & Ef & Er & O1). destruct (make_child_spec F s1 a x n VFS_FILE ch O1 ltac:(by rewrite En) ltac:(by destruct Hn)) as (s' & r & -> & Hr).
  { right. cbn. rewrite Ep. apply elem_of_dom. rewrite lookup_omap, lookup_insert_eq. by eexists. }
  exists s', r. split; [done|]. destruct r as [d|]; unfold looked_up, same in *; rewrite En, Ef, Er in Hr; done.
Qed.

Lemma ntfs_driver_ok : driver_ok (λ _, ntfs_ops).
Proof.
  split; cbn; try done; [intros _ f F s M a x n [= <-]; apply ntfs_lookup_spec|..].
  - intros _ f F s M a off n [= <-] O _ Ha Hn. unfold ntfs_read. destruct (node_data_spec F s a O Ha) as (b & ->). cbn [mbind outcome_bind].
    assert (∃ s' r out, Ret (s, - EINVAL, [] : list Z) = Ret (s', r, out) ∧ same F s s' ∧ r ≤ n) as Hinv by (exists s, (- EINVAL), []; split; [done|]; split; [done|unfold EINVAL; lia]).
    destruct b as [b|]; [|done]. destruct (negb (nonzero b)); [done|]. destruct (off >=? _); [exists s, 0, []; split; [done|]; split; [done|lia]|].
    eexists s, _, _. split; [done|]. split; [done|]. destruct (Z.gtb_spec n (zlen ntfs_readme_body - off)); lia.
  - intros _ f F s M a n [= <-] O _ Ha Hn. unfold ntfs_readdir. destruct (node_data_spec F s a O Ha) as (b & ->). cbn [mbind outcome_bind].
    destruct b as [b|]; [|by eexists s, _, _]. destruct (nonzero b); [by eexists s, _, _|]. by destruct (n =? 0); eexists s, _, _.
  - intros _ f F s M a [= <-] O _ Ha. unfold ntfs_stat. destruct (node_data_spec F s a O Ha) as (b & ->). cbn [mbind outcome_bind]. by destruct b; eexists s, _, _.
Qed.

(** ** Mounting over an abstract file system *)

Lemma free_block_spec F c s : own ({[c]} ∪ F) s → c ∉ F → ∃ s', free_block s c = Ret s' ∧ same F s s'.
Proof.
  intros [Hr Hd Hf Hx] Hc. unfold free_block. destruct (kfree_spec _ _ c Hr ltac:(set_solver +)) as (h & -> & Hr1). cbn [mbind outcome_bind].
  eexists. split; [done|]. split; [done|]. split; [done|]. split; [done|]. split; cbn; [|set_solver +Hd|set_solver +Hf|done].
  eapply eq_ind; [exact Hr1|]. apply set_eq. intros a. destruct (decide (a = c)) as [->|]; set_solver.
Qed.
Lemma own_more F s n : own F s → 0 ≤ n < 2 ^ 64 →
  ∃ h c, kmalloc s.(heap) n = Ret (h, c) ∧ (c = 0 ∧ own F (with_heap s h) ∨ c ≠ 0 ∧ c ∉ F ∧ own ({[c]} ∪ F) (with_heap s h)).
Proof.
  intros [Hr Hd Hf Hx] Hn. destruct (kmalloc_spec _ _ n Hr Hn) as (h & c & -> & Ha). exists h, c. split; [done|].
  destruct Ha as [[-> Hr1]|(Ha0 & _ & Ha & Hr1)]; [left; by repeat split|right]. split; [lia|]. split; [set_solver +Ha|].
  split; cbn; [|set_solver +Hd Ha|set_solver +Hf Ha|done]. eapply eq_ind; [exact Hr1|]. set_solver +.
Qed.

(** A block in the frame becomes a context of the driver. *)
Lemma own_keep F c s lba : c ∉ F → own ({[c]} ∪ F) s → own F (with_priv s (<[c := ntfs_ctx lba]> s.(priv))).
Proof.
  intros HcF [Hr Hd Hf Hx]. assert (c ∉ dom s.(priv)) as Hc by (cbn in Hf; set_solver +Hf). split; cbn in *.
  - rewrite dom_insert_L. eapply eq_ind; [exact Hr|]. set_solver +.
  - rewrite dom_insert. set_solver +Hd.
  - rewrite dom_insert. set_solver +Hf HcF.
  - intros a x Ha. destruct (Hx a x Ha) as [?|Hin]; [by left|right]. apply elem_of_dom. apply elem_of_dom in Hin as [b Hb].
    rewrite lookup_omap in Hb |- *. rewrite lookup_insert_ne; [by eexists|]. intros E. apply not_elem_of_dom in Hc. by rewrite <- E, Hc in Hb.
Qed.

(** What a mount of the path [path] does, with its result. *)
Inductive tried (A : afs) (path : list Z) : Z → afs → Prop :=
  | tried_early rc : rc ∈ [- EIO; - ENOMEM; - EINVAL] → tried A path rc A
  | tried_mount A0 k A1 A2 rc :
      discovers Drv (components path) A A0 → mount_spec A0 path ops k A1 → discovers Drv (components path) A1 A2 →
      (k < 0 ∧ rc = k ∧ A2 = A1 ∨ k = 0 ∧ rc ∈ [0; - ENOENT; - ENOMEM]) → tried A path rc A2.

Lemma ntfs_try_mount_rep F s M A sec path :
  driver_ok Drv → rep F s M A → mount_ok path →
  ∃ s' M' A' rc, ntfs_try_mount s sec path = Ret (s', rc) ∧ rep F s' M' A' ∧ tried A path rc A'.
Proof.
  intros Q R Hp. unfold ntfs_try_mount. destruct block_dev_is_available; cbn [negb].
  2:{ exists s, M, A, (- EIO). split; [done|]. split; [done|]. apply tried_early. set_solver. }
  destruct (own_more F s SIZEOF_CTX (r_own _ _ _ _ R) ltac:(done)) as (h & c & -> & Hc). cbn [mbind outcome_bind].
  destruct Hc as [[-> O]|(Hc0 & HcF & O)].
  { eexists _, M, A, (- ENOMEM). split; [done|]. split; [by apply (rep_reframe F F s)|]. apply tried_early. set_solver. }
  rewrite (proj2 (Z.eqb_neq c 0)) by done.
  pose proof (rep_reframe F ({[c]} ∪ F) s (with_heap s h) M A ltac:(done) R) as R1. revert O R1. generalize (with_heap s h). clear s R. intros s O R.
  assert (∀ s M A, rep ({[c]} ∪ F) s M A → ∃ s', free_block s c = Ret s' ∧ rep F s' M A) as Hfree.
  { intros s0 M0 A0 R0. destruct (free_block_spec F c s0 (r_own _ _ _ _ R0) HcF) as (s' & -> & Hs'). exists s'. split; [done|]. by eapply rep_reframe. }
  destruct (probe_ntfs _ sec) as [lba|].
  2:{ destruct (Hfree s M A R) as (s' & -> & R'). exists s', M, A, (- EINVAL). split; [done|]. split; [done|]. apply tried_early. set_solver. }
  destruct (mount_rep Drv _ s M A path ops c Q R Hp) as (s1 & M1 & A0 & A1 & k & -> & HA0 & Hm & R1). cbn [mbind outcome_bind].
  assert (k = 0 ∨ k < 0) as Hk by (destruct Hm; [by left|right; unfold ENOMEM; lia]). destruct (Z.ltb_spec k 0).
  { destruct (Hfree s1 M1 A1 R1) as (s' & -> & R'). exists s', M1, A1, k. split; [done|]. split; [done|].
    eapply tried_mount; [done|done|constructor|by left]. }
  destruct Hk as [->|]; [|lia]. destruct Hp as (_ & Hs & _).
  destruct (walk_rep Drv _ s1 M1 A1 path Q R1 Hs) as (s2 & M2 & A2 & E & R2 & HA2 & _ & Hin & _). unfold vfs_resolve_path. rewrite E. cbn [mbind outcome_bind].
  assert (∀ rc, rc ∈ [0; - ENOENT; - ENOMEM] → tried A path rc A2) as Ht by (intros rc Hrc; eapply tried_mount; [done|done|done|by right]).
  destruct (find_path A2 path) as [q|]; cbn [mbind option_bind].
  2:{ destruct (Hfree s2 M2 A2 R2) as (s' & -> & R'). exists s', M2, A2, (- ENOENT). split; [done|]. split; [done|]. apply Ht. set_solver. }
  destruct (Hin q eq_refl) as [a Ha]. rewrite Ha. pose proof (r_own _ _ _ _ R2) as O2.
  destruct (alloc_obj_spec _ s2 SIZEOF_NTFS_NODE (ntfs_node 0) O2 ltac:(done)) as (s3 & root & -> & Hs3 & Hroot). cbn [mbind outcome_bind].
  pose proof (rep_same _ s2 s3 M2 A2 Hs3 R2) as R3. destruct Hroot as [[-> _]|(Hr0 & Hrc & Hrp & Ep)]; [|rewrite (proj2 (Z.eqb_neq root 0)) by done].
  { destruct (Hfree s3 M2 A2 R3) as (s' & -> & R'). exists s', M2, A2, (- ENOMEM). split; [done|]. split; [done|]. apply Ht. set_solver. }
  destruct (tree_node _ _ _ _ (r_tree _ _ _ _ R3) Ha) as [x Hx]. unfold deref. rewrite Hx. cbn [mbind outcome_bind].
  eexists _, M2, A2, 0. split; [done|]. split; [|apply Ht; set_solver].
  assert (rep F (with_priv s3 (<[c := ntfs_ctx lba]> s3.(priv))) M2 A2) as R4.
  { eapply rep_reframe; [|exact R3]. split; [done|]. split; [done|]. split; [done|]. apply own_keep; [exact HcF|apply R3]. }
  apply (rep_data F _ M2 A2 q a x root R4 Ha Hx). right. cbn. apply elem_of_dom. rewrite lookup_omap, lookup_insert_ne.
  - rewrite Ep, lookup_insert_eq. by eexists.
  - intros ->. apply Hrc. set_solver +.
Qed.
End ntfs.

(** ** On the kernel's heap, after boot: driver 1 is NTFS, the others give zeros *)

Definition drivers (d : Z) : vfs_ops (H:=Slab.heap pmm_t) (P:=gmap Z ntfs_obj) := if d =? 1 then ntfs_ops else zeros d.
Lemma drivers_ok : driver_ok drivers.
Proof.
  apply driver_ok_rows. intros d. unfold drivers. destruct (d =? 1); [exists (λ _, ntfs_ops)|exists zeros]; (split; [|done]); [apply ntfs_driver_ok|apply zeros_ok].
Qed.

(** A disk with a boot record whose second partition, at sector 64, is NTFS. *)
Definition demo_sector (lba : Z) : list Z :=
  if lba =? 0 then replicate 462 0 ++ [0; 0; 0; 0; 7; 0; 0; 0; 64; 0; 0; 0] ++ replicate 36 0 ++ [0x55; 0xAA]
  else if lba =? 64 then [0; 0; 0] ++ bytes "NTFS    " ++ replicate 501 0 else replicate 512 0.
Definition demo_read (lba : Z) (_ : list Z) : bool * list Z := (true, demo_sector lba).
Definition demo_mount (s : vfs (Slab.heap pmm_t) (gmap Z ntfs_obj)) : outcome (vfs (Slab.heap pmm_t) (gmap Z ntfs_obj) * Z) :=
  ntfs_try_mount true demo_read drivers 1 s (replicate 512 0) (bytes "/n").

Definition demo_calls : list call :=
  [Mkdir (bytes "/a"); Mkdir (bytes "/a"); Open (bytes "/a/b") (VFS_O_CREATE + VFS_O_WRITE); Write 0 [1; 2; 3]; Mount (bytes "/d/x") 5 0;
   Open (bytes "/d/x/b") (VFS_O_CREATE + VFS_O_APPEND); Write 1 [1; 2; 3]; Seek 1 1 VFS_SEEK_SET; Write 1 [4]; Seek 1 0 VFS_SEEK_SET; Read 1 2;
   Fstat 1; Close 0; Close 0; Open (bytes "/") 0; Readdir 0 9; Stat (bytes "/a/../d"); Stat (bytes "/z");
   Stat (bytes "/n/NTFS_README.TXT"); Open (bytes "/n/NTFS_README.TXT") 0; Read 2 5; Seek 2 180 VFS_SEEK_SET; Read 2 100; Write 2 [1]; Seek 2 0 VFS_SEEK_END;
   Open (bytes "/n/OTHER.TXT") 0; Open (bytes "/n") 0; Readdir 3 4].
Lemma demo_calls_ok : Forall (call_ok drivers) demo_calls.
Proof. apply call_okb_ok. vm_compute. reflexivity. Qed.
Definition no_objects : gmap Z ntfs_obj := ∅.
Definition demo_start : outcome (vfs (Slab.heap pmm_t) (gmap Z ntfs_obj) * Z) := r ← vfs_init (demo_vfs no_objects); demo_mount r.1.
Definition run_demo : outcome (Z * list Z) := r ← demo_start; x ← run drivers r.1 demo_calls; Ret (r.2, map rc_of x.2).

(** The state after the boot and the mount represents some abstract file system. *)
Lemma demo_mount_rep s0 M0 A0 : rep ∅ s0 M0 A0 → ∃ s M A rc, demo_mount s0 = Ret (s, rc) ∧ rep ∅ s M A.
Proof.
  intros R0. assert (mount_ok (bytes "/n")) as Hp.
  { split; [done|]. split; [apply (path_okb_ok (bytes "/n")); reflexivity|]. apply (plainb_ok (bytes "/n")). reflexivity. }
  destruct (ntfs_try_mount_rep true demo_read drivers 1 ∅ s0 M0 A0 (replicate 512 0) (bytes "/n") drivers_ok R0 Hp) as (s & M & A & rc & E & R & _).
  exists s, M, A, rc. exact (conj E R).
Qed.
Lemma demo_start_ok : match demo_start with Ret (_, rc) => rc =? 0 | _ => false end = true.
Proof. vm_compute. reflexivity. Qed.
Lemma demo_start_rep : ∃ s M A, demo_start = Ret (s, 0) ∧ rep ∅ s M A.
Proof.
  destruct (demo_rep (DS:=ntfs_state) no_objects eq_refl) as (s0 & M0 & E0 & R0 & _).
  destruct (demo_mount_rep s0 M0 _ R0) as (s & M & A & rc & E & R).
  assert (demo_start = Ret (s, rc)) as Es by (unfold demo_start; rewrite E0; exact E).
  pose proof demo_start_ok as Hc. rewrite Es in Hc. apply Z.eqb_eq in Hc. rewrite Hc in Es. exists s, M, A. exact (conj Es R).
Qed.

Lemma vfs_refines_witness :
  (∃ s rc, vfs_init (demo_vfs no_objects) = Ret (s, rc) ∧
     (rc = - ENOMEM ∧ s.(nodes) = ∅ ∧ kh_rep s.(heap) (∅ ∪ driver_blocks no_objects) ∨ rc = 0 ∧ ∃ M, rep ∅ s M init_afs)) ∧
  (∃ s M A, demo_start = Ret (s, 0) ∧ rep ∅ s M A ∧
     ∃ s' M' A' rs, run drivers s demo_calls = Ret (s', rs) ∧ steps drivers A demo_calls rs A' ∧ rep ∅ s' M' A') ∧
  run_demo = Ret (0, [0; - EEXIST; 0; - ENOTSUP; 0; 1; 3; 1; 1; 0; 2; 0; 0; - EBADF; 0; 3; 0; - ENOENT; 0; 2; 5; 180; 8; - ENOTSUP; 0; - ENOENT; 3; 1]).
Proof.
  destruct (vfs_refines drivers ∅ drivers_ok) as [Hinit Hrun]. split; [|split; [|vm_compute; reflexivity]].
  - apply (Hinit demo_heap no_objects [] None); [exact demo_heap_rep|done].
  - destruct demo_start_rep as (s & M & A & E & R). exists s, M, A. split; [exact E|]. split; [exact R|].
    exact (Hrun s M A demo_calls R demo_calls_ok).
Defined.
