(* ===== verification/Devfs.v ===== *)
(** * The device files ([src/kernel/fs/devfs.c])

    A driver whose lookup breaks the contract of [Vfs.driver_ok]: it returns a new node
    that is in no directory. The private data of a node is the kind of device, in a
    typed store; the root node that [devfs_init] makes is in the store of the nodes,
    and [mount_data] points to it. *)

From S2P Require Import Pmm Slab SlabHeap KernelHeap.
From stdpp Require Import base numbers list gmap sets.
From Stdlib Require Import (notations) String.
From S2P Require Import Prelude CMem CArray KHeap Vfs.
Open Scope Z_scope.

Definition EISDIR : Z := 12.
Definition ENOTDIR : Z := 13.
Inductive dev_kind_t := DEV_ROOT | DEV_NULL | DEV_ZERO.
#[export] Instance dev_kind_dec : EqDecision dev_kind_t.
Proof. solve_decision. Defined.
Definition SIZEOF_DEV_DATA : Z := 4.

Section devfs.
Context {H : Type} `{KH : KHeap H}.
Notation vfs_t := (vfs H (gmap Z dev_kind_t)).
Implicit Types s : vfs_t.

Definition with_priv s (p : gmap Z dev_kind_t) : vfs_t :=
  {| heap := s.(heap); priv := p; nodes := s.(nodes); fd_table := s.(fd_table); vfs_root := s.(vfs_root) |}.
(** What a pointer to the data of a device points to. *)
Definition kind_at s (p : Z) : outcome (option dev_kind_t) :=
  match s.(priv) !! p with Some k => Ret (Some k) | None => Fault end.
Definition dev_resolve s (node : option Z) : outcome (option dev_kind_t) :=
  match node with
  | None => Ret None
  | Some a =>
      x ← deref s a;
      if nonzero x.(fs_data) then kind_at s x.(fs_data) else
      if nonzero x.(mount_data) then
        mr ← deref s x.(mount_data);
        if nonzero mr.(fs_data) then kind_at s mr.(fs_data) else Ret None
      else Ret None
  end.
Definition devfs_read s (node offset size : Z) : outcome (vfs_t * Z * list Z) :=
  dd ← dev_resolve s (Some node);
  match dd with
  | None | Some DEV_ROOT => Ret (s, - EISDIR, [])
  | Some DEV_NULL => Ret (s, 0, [])
  | Some DEV_ZERO => Ret (s, s64 size, replicate (Z.to_nat size) 0)
  end.
Definition devfs_write s (node offset : Z) (buf : list Z) : outcome (vfs_t * Z) :=
  dd ← dev_resolve s (Some node);
  match dd with None | Some DEV_ROOT => Ret (s, - EISDIR) | Some _ => Ret (s, s64 (zlen buf)) end.
Definition devfs_open s (node flags : Z) : outcome (vfs_t * Z) :=
  dd ← dev_resolve s (Some node);
  match dd with None => Ret (s, - ENOENT) | Some _ => Ret (s, 0) end.
Definition devfs_close s (node : Z) : outcome (vfs_t * Z) := Ret (s, 0).
Definition dev_entry (name : list Z) (i : Z) : vfs_dirent := {| d_name := name; d_type := VFS_DEVICE; d_inode := i; d_size := 0 |}.
Definition devfs_readdir s (node max_entries : Z) : outcome (vfs_t * Z * list vfs_dirent) :=
  dd ← dev_resolve s (Some node);
  match dd with
  | Some DEV_ROOT =>
      let n := if 2 >? max_entries then max_entries else 2 in
      Ret (s, n, take (Z.to_nat n) [dev_entry (bytes "null") 1; dev_entry (bytes "zero") 2])
  | _ => Ret (s, - ENOTDIR, [])
  end.
(** On failure the structure is not written, and given as 0. *)
Definition devfs_stat s (node : Z) : outcome (vfs_t * Z * vfs_stat) :=
  dd ← dev_resolve s (Some node);
  let st t := {| st_type := t; st_size := 0; st_permissions := 0; st_inode := 0; st_created := 0; st_modified := 0 |} in
  match dd with
  | None => Ret (s, - ENOENT, st VFS_FILE)
  | Some k => Ret (s, 0, st (if decide (k = DEV_ROOT) then VFS_DIR else VFS_DEVICE))
  end.

(** [kcalloc] of a node and of its data; 0 for the node if one of the two fails, and
    then the other is given back. *)
Definition alloc_dev s : outcome (vfs_t * Z * Z) :=
  '(h, ch) ← kcalloc s.(heap) 1 SIZEOF_NODE;
  '(h, cd) ← kcalloc h 1 SIZEOF_DEV_DATA;
  if (ch =? 0) || (cd =? 0) then
    h ← kfree h ch; h ← kfree h cd; Ret (with_heap s h, 0, 0)
  else Ret (with_heap s h, ch, cd).
Definition dev_node (name : list Z) (t : vfs_node_type_t) (o : option Z) (data : Z) : vfs_node :=
  {| name := cut_name name; type := t; size := 0; permissions := 0; inode := 0; fs_data := data; ops := o;
     parent := None; children := None; next_sibling := None; mount_ops := None; mount_data := 0 |}.
Definition put_dev s (ch cd : Z) (x : vfs_node) (k : dev_kind_t) : vfs_t :=
  put_node (with_priv s (<[cd := k]> s.(priv))) ch x.
Definition devfs_lookup s (parent : Z) (name : list Z) : outcome (vfs_t * option Z) :=
  pd ← dev_resolve s (Some parent);
  if negb (bool_decide (pd = Some DEV_ROOT)) then Ret (s, None) else
  match (if bool_decide (name = bytes "null") then Some DEV_NULL else if bool_decide (name = bytes "zero") then Some DEV_ZERO else None) with
  | None => Ret (s, None)
  | Some k =>
      '(s, ch, cd) ← alloc_dev s;
      if ch =? 0 then Ret (s, None) else
      p ← deref s parent;
      Ret (put_dev s ch cd (dev_node name VFS_DEVICE p.(ops) cd) k, Some ch)
  end.
Definition devfs_ops : vfs_ops (H:=H) (P:=gmap Z dev_kind_t) :=
  {| op_read := Some devfs_read; op_write := Some devfs_write; op_open := Some devfs_open; op_close := Some devfs_close;
     op_readdir := Some devfs_readdir; op_mkdir := None; op_stat := Some devfs_stat; op_lookup := Some devfs_lookup |}.

(** [devfs] is the number of [devfs_ops] in the table [Drv]. *)
Context (Drv : Z → vfs_ops (H:=H) (P:=gmap Z dev_kind_t)) (devfs : Z).
Definition devfs_init s : outcome (vfs_t * Z) :=
  '(s, root, pd) ← alloc_dev s;
  if root =? 0 then Ret (s, - ENOMEM) else
  let s := put_dev s root pd (dev_node (bytes "dev") VFS_DIR (Some devfs) pd) DEV_ROOT in
  '(s, rc) ← vfs_mount Drv s (Some (bytes "/dev")) (Some devfs) root;
  if negb (rc =? 0) then
    h ← kfree s.(heap) pd; h ← kfree h root;
    Ret (with_nodes (with_priv (with_heap s h) (delete pd s.(priv))) (delete root s.(nodes)), rc)
  else Ret (s, 0).

(** ** The devices are not served *)

Lemma alloc_dev_nodes s s' ch cd : alloc_dev s = Ret (s', ch, cd) → s'.(nodes) = s.(nodes) ∧ s'.(priv) = s.(priv) ∧ s'.(fd_table) = s.(fd_table).
Proof.
  unfold alloc_dev. destruct (kcalloc _ _ _) as [[h c]| |]; cbn [mbind outcome_bind]; [|done..].
  destruct (kcalloc _ _ _) as [[h1 d]| |]; cbn [mbind outcome_bind]; [|done..]. destruct (_ || _); [|by intros [= <- _ _]].
  destruct (kfree _ _) as [h2| |]; cbn [mbind outcome_bind]; [|done..]. destruct (kfree _ _) as [h3| |]; cbn [mbind outcome_bind]; [|done..].
  by intros [= <- _ _].
Qed.

(** The node that a lookup in a mounted directory finds (its [ops] is null, [vfs_mount]
    sets [mount_ops] only) is in no directory and has no driver: a descriptor of
    [/dev/null] or [/dev/zero] can be neither read nor written. *)
Theorem devices_unserved s s' (parent fd n c : Z) (x : vfs_node) (name data : list Z) (fl off : Z) :
  s.(nodes) !! parent = Some x → x.(ops) = None → devfs_lookup s parent name = Ret (s', Some c) →
  c ≠ parent → 0 ≤ fd < MAX_OPEN_FILES → 0 < n → data ≠ [] →
  let s2 := with_fds s' (s'.(fd_table).[fd <- {| node := Some c; flags := fl; offset := off; in_use := true |}]) in
  zlen s'.(fd_table) = MAX_OPEN_FILES →
  get_ops Drv s' c = Ret None ∧
  vfs_read Drv s2 fd true n = Ret (s2, - ENOTSUP, []) ∧ vfs_write Drv s2 fd (Some data) = Ret (s2, - ENOTSUP) ∧
  (∀ a y, s'.(nodes) !! a = Some y → a ≠ c → s.(nodes) !! a = Some y).
Proof.
  intros Hx Ho Hl Hc Hfd Hn Hdata s2 Hlen. unfold devfs_lookup in Hl. destruct (dev_resolve s _) as [pd| |]; cbn [mbind outcome_bind] in Hl; [|done..].
  destruct (negb _); [done|]. destruct (if bool_decide (name = bytes "null") then _ else _) as [k|]; [|done].
  destruct (alloc_dev s) as [[[s1 ch] cd]| |] eqn:Ea; cbn [mbind outcome_bind] in Hl; [|done..]. destruct (alloc_dev_nodes _ _ _ _ Ea) as (En & _).
  destruct (ch =? 0); [done|]. unfold deref in Hl. rewrite En, Hx in Hl. cbn [mbind outcome_bind] in Hl. rewrite Ho in Hl. injection Hl as <- <-.
  assert (∀ s, s.(nodes) !! ch = Some (dev_node name VFS_DEVICE None cd) → get_ops Drv s ch = Ret None) as Eg.
  { intros s0 E. unfold get_ops, deref. by rewrite E. }
  assert (bad_fd s2 fd = false ∧ fd_node s2 fd = Ret ch) as [Eb En2].
  { unfold bad_fd, fd_node, s2. cbn [with_fds fd_table]. rewrite aget_aset_eq by lia. cbn [in_use node]. split; [|done].
    rewrite (proj2 (Z.ltb_ge fd 0)), Z.geb_leb, (proj2 (Z.leb_gt MAX_OPEN_FILES fd)) by lia. done. }
  assert (get_ops Drv s2 ch = Ret None) as Eg2 by (apply Eg, lookup_insert_eq). split; [apply Eg, lookup_insert_eq|]. split; [|split].
  - unfold vfs_read. rewrite Eb, (proj2 (Z.eqb_neq n 0)) by lia. cbn [negb orb]. rewrite En2. cbn [mbind outcome_bind]. rewrite Eg2. done.
  - unfold vfs_write. rewrite Eb. destruct data as [|b data]; [done|]. rewrite (proj2 (Z.eqb_neq (zlen (b :: data)) 0)) by (rewrite zlen_cons; pose proof (zlen_nonneg data); lia).
    rewrite En2. cbn [mbind outcome_bind]. rewrite Eg2. done.
  - intros a y Hy Hne. cbn in Hy. rewrite lookup_insert_ne in Hy by done. by rewrite En in Hy.
Qed.
End devfs.

(** ** After boot *)

Definition dev_drivers (d : Z) : vfs_ops (H:=Slab.heap pmm_t) (P:=gmap Z dev_kind_t) := devfs_ops.
Definition demo_devices : vfs (Slab.heap pmm_t) (gmap Z dev_kind_t) := demo_vfs ∅.
(** [devfs_init], then [/dev/zero] opened, read, written and described. *)
Definition run_devices : outcome (list Z) :=
  '(s, r0) ← vfs_init demo_devices; '(s, r1) ← devfs_init dev_drivers 1 s;
  '(s, fd) ← vfs_open dev_drivers s (Some (bytes "/dev/zero")) (VFS_O_READ + VFS_O_WRITE);
  '(s, n, _) ← vfs_read dev_drivers s fd true 4; '(s, m) ← vfs_write dev_drivers s fd (Some [1; 2]);
  '(s, r2, _) ← vfs_stat_path dev_drivers s (Some (bytes "/dev")) true; Ret [r0; r1; fd; n; m; r2].
Example run_devices_results : run_devices = Ret [0; 0; 0; - ENOTSUP; - ENOTSUP; 0].
Proof. vm_compute. reflexivity. Qed.
