(* ===== verification/PosixIo.v ===== *)
(** * The posix calls ([src/posix/posix_io.c], [posix_errno.c])

    A layer over [Vfs] with a global [errno]. A call returns -1 and sets [errno]
    when the file system reports an error; the numbers are translated by
    [kerr_to_posix]. The negation of the least [int], which C leaves undefined,
    wraps. *)

From S2P Require Import Pmm Slab SlabHeap KernelHeap.
From stdpp Require Import base numbers list gmap sets.
From Stdlib Require Import (notations) String.
From S2P Require Import Prelude CMem CArray KHeap Vfs Ntfs.
Open Scope Z_scope.

Definition O_ACCMODE : Z := 3.
Definition O_RDONLY : Z := 0.
Definition O_WRONLY : Z := 1.
Definition O_RDWR : Z := 2.
Definition O_CREAT : Z := 0x40.
Definition O_EXCL : Z := 0x80.
Definition O_TRUNC : Z := 0x200.
Definition O_APPEND : Z := 0x400.
Definition S_IFDIR : Z := 0x4000.
Definition S_IFREG : Z := 0x8000.
Definition SEEK_SET : Z := 0.
Definition P_EEXIST : Z := 17.
Definition P_EINVAL : Z := 22.
Definition ESKILL_FAIL : Z := 1.
Definition EBUSY : Z := 6.

Record stat := {
  st_dev : Z; st_ino : Z; st_mode : Z; st_nlink : Z; st_uid : Z; st_gid : Z; st_rdev : Z; st_size : Z; st_blksize : Z;
  st_blocks : Z; st_atime : Z; st_mtime : Z; st_ctime : Z;
}.

Definition kerr_to_posix (k : Z) : Z :=
  if k =? EPERM then 1
  else if k =? ENOENT then 2
  else if k =? EIO then 5
  else if k =? EBADF then 9
  else if k =? ENOMEM then 12
  else if k =? EBUSY then 16
  else if k =? EEXIST then 17
  else if k =? EINVAL then 22
  else if k =? ENOSPC then 28
  else if k =? ENOTSUP then 95
  else if k =? ESKILL_FAIL then 5
  else 5.
(** The value that [posix_seterr_from_kerr] gives to [errno]. *)
Definition posix_seterr_from_kerr (kret : Z) : Z :=
  if kret >=? 0 then 0 else kerr_to_posix (s32 (- kret)).

Definition oflag_to_vfs (oflag : Z) : Z :=
  let acc := Z.land oflag O_ACCMODE in
  let vf := if acc =? O_RDONLY then VFS_O_READ
            else if acc =? O_WRONLY then VFS_O_WRITE
            else if acc =? O_RDWR then Z.lor VFS_O_READ VFS_O_WRITE else 0 in
  let vf := if has oflag O_CREAT then Z.lor vf VFS_O_CREATE else vf in
  let vf := if has oflag O_TRUNC then Z.lor vf VFS_O_TRUNC else vf in
  if has oflag O_APPEND then Z.lor vf VFS_O_APPEND else vf.

Definition vfs_stat_to_posix (vs : vfs_stat) : stat :=
  {| st_dev := 1; st_ino := vs.(st_inode);
     st_mode := Z.lor (Z.land vs.(st_permissions) 0x1FF)
                  (match vs.(st_type) with VFS_DIR => S_IFDIR | VFS_FILE => S_IFREG | VFS_SYMLINK => S_IFREG | VFS_DEVICE => S_IFREG end);
     st_nlink := 1; st_uid := 0; st_gid := 0; st_rdev := 0; st_size := s64 vs.(Vfs.st_size); st_blksize := 512;
     st_blocks := if vs.(Vfs.st_size) >? 0 then s64 (u64 (vs.(Vfs.st_size) + 511) / 512) else 0;
     st_atime := 0; st_mtime := 0; st_ctime := 0 |}.

Record posix (H P : Type) := { fs : vfs H P; errno : Z }.
Arguments fs {H P}.
Arguments errno {H P}.

Section posix.
Context {H P : Type} `{KH : KHeap H} (Drv : Z → vfs_ops (H:=H) (P:=P)).
Implicit Types s : posix H P.

Definition with_fs s (v : vfs H P) : posix H P := {| fs := v; errno := s.(errno) |}.
Definition set_errno s (e : Z) : posix H P := {| fs := s.(fs); errno := e |}.
Definition posix_init s : posix H P := set_errno s 0.
(** The result [n] of a call of the file system, as an [int] for [errno]. *)
Definition result s (n ok : Z) : posix H P * Z :=
  if n <? 0 then (set_errno s (posix_seterr_from_kerr (s32 n)), -1) else (s, ok).

Definition posix_open s (path : option (list Z)) (oflag : Z) : outcome (posix H P * Z) :=
  let s := set_errno s (posix_seterr_from_kerr 0) in
  match path with
  | None => Ret (set_errno s P_EINVAL, -1)
  | Some _ =>
      r ← (if has oflag O_CREAT && has oflag O_EXCL
           then r ← vfs_stat_path Drv s.(fs) path true; let '(v, rc, _) := r in Ret (with_fs s v, rc =? 0)
           else Ret (s, false));
      let '(s, exists_) := r in
      if exists_ : bool then Ret (set_errno s P_EEXIST, -1) else
      r ← vfs_open Drv s.(fs) path (oflag_to_vfs oflag);
      let '(v, fd) := r in Ret (result (with_fs s v) fd fd)
  end.
Definition posix_close s (fd : Z) : outcome (posix H P * Z) :=
  r ← vfs_close Drv s.(fs) fd; let '(v, rc) := r in Ret (result (with_fs s v) rc 0).
Definition posix_read s (fd : Z) (buf : bool) (count : Z) : outcome (posix H P * Z * list Z) :=
  r ← vfs_read Drv s.(fs) fd buf count; let '(v, n, out) := r in Ret (result (with_fs s v) n n, out).
Definition posix_write s (fd : Z) (buf : option (list Z)) : outcome (posix H P * Z) :=
  r ← vfs_write Drv s.(fs) fd buf; let '(v, n) := r in Ret (result (with_fs s v) n n).
Definition posix_lseek s (fd off whence : Z) : outcome (posix H P * Z) :=
  r ← vfs_lseek s.(fs) fd off whence; let '(v, n) := r in Ret (result (with_fs s v) n n).
(** The structure is filled in on success only. *)
Definition stat_result s (rc : Z) (vs : option vfs_stat) : outcome (posix H P * Z * option stat) :=
  if rc <? 0 then Ret (result s rc 0, None)
  else match vs with Some vs => Ret (s, 0, Some (vfs_stat_to_posix vs)) | None => Fault end.
Definition posix_stat s (path : option (list Z)) (buf : bool) : outcome (posix H P * Z * option stat) :=
  match path with
  | Some _ =>
      if negb buf then Ret (set_errno s P_EINVAL, -1, None) else
      r ← vfs_stat_path Drv s.(fs) path true; let '(v, rc, vs) := r in stat_result (with_fs s v) rc vs
  | None => Ret (set_errno s P_EINVAL, -1, None)
  end.
Definition posix_fstat s (fd : Z) (buf : bool) : outcome (posix H P * Z * option stat) :=
  if negb buf then Ret (set_errno s P_EINVAL, -1, None) else
  r ← vfs_fstat Drv s.(fs) fd true; let '(v, rc, vs) := r in stat_result (with_fs s v) rc vs.
Definition posix_mkdir s (path : option (list Z)) : outcome (posix H P * Z) :=
  match path with
  | None => Ret (set_errno s P_EINVAL, -1)
  | Some _ => r ← vfs_mkdir Drv s.(fs) path; let '(v, rc) := r in Ret (result (with_fs s v) rc 0)
  end.
End posix.

(** ** The calls over the abstract file system *)

Inductive pcall :=
  | POpen (path : option (list Z)) (oflag : Z) | PClose (fd : Z) | PRead (fd n : Z) | PWrite (fd : Z) (data : list Z)
  | PSeek (fd off whence : Z) | PStat (path : option (list Z)) | PFstat (fd : Z) | PMkdir (path : option (list Z)).
Inductive preply := PInt (rc : Z) | PBytes (rc : Z) (out : list Z) | PAttr (rc : Z) (st : option stat).
(** The result and the [errno] that follow from the result [k] of the file system
    when [errno] was [e]: [ok] is what the call returns on success. *)
Definition answers (e k ok : Z) (rc e' : Z) : Prop :=
  if decide (k < 0) then rc = -1 ∧ e' = posix_seterr_from_kerr (s32 k) else rc = ok ∧ e' = e.
Definition exclusive (oflag : Z) : bool := has oflag O_CREAT && has oflag O_EXCL.

Section refinement.
Context {H P : Type} `{KH : KHeap H} `{DS : DriverState P} (Drv : Z → vfs_ops (H:=H) (P:=P)).
Implicit Types s : posix H P.

(** As [Vfs.call_ok] and [Vfs.call_names]. *)
Definition pcall_ok (c : pcall) : Prop :=
  match c with
  | POpen (Some path) oflag => path_ok path ∧ (has (oflag_to_vfs oflag) VFS_O_CREATE = true → creatable Drv path)
  | PMkdir (Some path) => path_ok path ∧ creatable Drv path
  | PStat (Some path) => path_ok path
  | PRead _ n => 0 ≤ n
  | _ => True
  end.
Definition pcall_names (c : pcall) : list (list Z) :=
  match c with POpen (Some path) _ | PMkdir (Some path) | PStat (Some path) => components path | _ => [] end.

Definition attr_answers (e k : Z) (vs : option vfs_stat) (rc : Z) (st : option stat) (e' : Z) : Prop :=
  answers e k 0 rc e' ∧ st = if decide (k < 0) then None else vfs_stat_to_posix <$> vs.

(** One call, on the abstract file system and [errno], once the drivers have discovered
    what they want to; an exclusive [open] looks twice. *)
Inductive pstep (A : afs) (e : Z) : pcall → preply → afs → Z → Prop :=
  | p_open_null oflag : pstep A e (POpen None oflag) (PInt (-1)) A P_EINVAL
  | p_open_exists path oflag st :
      exclusive oflag = true → stat_path_spec Drv A path 0 st → pstep A e (POpen (Some path) oflag) (PInt (-1)) A P_EEXIST
  | p_open path oflag k rc A1 A' e' :
      (exclusive oflag = true → ∃ k0 st, k0 ≠ 0 ∧ stat_path_spec Drv A path k0 st) → discovers Drv (components path) A A1 →
      open_spec A1 path (oflag_to_vfs oflag) k A' → answers 0 k k rc e' → pstep A e (POpen (Some path) oflag) (PInt rc) A' e'
  | p_close fd k rc A' e' : close_spec A fd k A' → answers e k 0 rc e' → pstep A e (PClose fd) (PInt rc) A' e'
  | p_read fd n k rc out A' e' : read_spec Drv A fd n k A' → answers e k k rc e' → pstep A e (PRead fd n) (PBytes rc out) A' e'
  | p_write fd data k rc A' e' : write_spec Drv A fd (zlen data) k A' → answers e k k rc e' → pstep A e (PWrite fd data) (PInt rc) A' e'
  | p_seek fd off whence k rc A' e' : (k, A') = seek_spec A fd off whence → answers e k k rc e' → pstep A e (PSeek fd off whence) (PInt rc) A' e'
  | p_stat_null : pstep A e (PStat None) (PAttr (-1) None) A P_EINVAL
  | p_stat path k vs rc st e' : stat_path_spec Drv A path k vs → attr_answers e k vs rc st e' → pstep A e (PStat (Some path)) (PAttr rc st) A e'
  | p_fstat fd k vs rc st e' : fstat_spec Drv A fd k vs → attr_answers e k vs rc st e' → pstep A e (PFstat fd) (PAttr rc st) A e'
  | p_mkdir_null : pstep A e (PMkdir None) (PInt (-1)) A P_EINVAL
  | p_mkdir path k rc A' e' : mkdir_spec Drv A path k A' → answers e k 0 rc e' → pstep A e (PMkdir (Some path)) (PInt rc) A' e'.

Definition do_pcall s (c : pcall) : outcome (posix H P * preply) :=
  match c with
  | POpen path oflag => r ← posix_open Drv s path oflag; Ret (r.1, PInt r.2)
  | PClose fd => r ← posix_close Drv s fd; Ret (r.1, PInt r.2)
  | PRead fd n => r ← posix_read Drv s fd true n; Ret (r.1.1, PBytes r.1.2 r.2)
  | PWrite fd data => r ← posix_write Drv s fd (Some data); Ret (r.1, PInt r.2)
  | PSeek fd off whence => r ← posix_lseek s fd off whence; Ret (r.1, PInt r.2)
  | PStat path => r ← posix_stat Drv s path true; Ret (r.1.1, PAttr r.1.2 r.2)
  | PFstat fd => r ← posix_fstat Drv s fd true; Ret (r.1.1, PAttr r.1.2 r.2)
  | PMkdir path => r ← posix_mkdir Drv s path; Ret (r.1, PInt r.2)
  end.

Lemma result_answers s n ok : answers s.(errno) n ok (result s n ok).2 (result s n ok).1.(errno) ∧ (result s n ok).1.(fs) = s.(fs).
Proof.
  unfold answers, result. destruct (Z.ltb_spec n 0); [rewrite decide_True by done|rewrite decide_False by lia]; done.
Qed.

(** A successful [stat] has filled in its structure. *)
Lemma stat_written A q k vs : stat_spec Drv A q k vs → is_Some vs.
Proof. by intros [rc st _|st _ _]; eexists. Qed.

Lemma stat_answers s k vs : (k < 0 ∨ is_Some vs) →
  ∃ s' rc st, stat_result s k vs = Ret (s', rc, st) ∧ s'.(fs) = s.(fs) ∧ attr_answers s.(errno) k vs rc st s'.(errno).
Proof.
  intros Hk. unfold stat_result, attr_answers. destruct (Z.ltb_spec k 0) as [Hlt|Hge].
  - destruct (result_answers s k 0) as [Ha Hf]. exists (result s k 0).1, (result s k 0).2, None. split; [by destruct (result s k 0)|]. cbn [fst snd].
    split; [done|]. split; [done|]. by rewrite decide_True.
  - destruct Hk as [?|[st ->]]; [lia|]. eexists s, 0, _. split; [done|]. split; [done|]. unfold answers. rewrite !decide_False by lia. done.
Qed.

Lemma pcall_rep F s M A c :
  driver_ok Drv → rep F s.(fs) M A → pcall_ok c →
  ∃ s' M' A0 A' r, do_pcall s c = Ret (s', r) ∧ discovers Drv (pcall_names c) A A0 ∧ pstep A0 s.(errno) c r A' s'.(errno) ∧ rep F s'.(fs) M' A'.
Proof.
  intros Q R Hc. pose proof (disc_none Drv [] A) as Hd. destruct c as [[path|] oflag|fd|fd n|fd data|fd off wh|[path|]|fd|[path|]]; cbn [do_pcall pcall_names].
  - unfold posix_open. set (s0 := set_errno s _). fold (exclusive oflag).
    destruct Hc as [Hp Hcr].
    assert (∃ v M0 A0 b, (if exclusive oflag then r ← vfs_stat_path Drv s0.(fs) (Some path) true; let '(v, rc, _) := r in Ret (with_fs s0 v, rc =? 0)
        else Ret (s0, false)) = Ret (with_fs s0 v, b) ∧ discovers Drv (components path) A A0 ∧ rep F v M0 A0 ∧
      if b : bool then exclusive oflag = true ∧ ∃ st, stat_path_spec Drv A0 path 0 st
      else exclusive oflag = true → ∃ k0 st, k0 ≠ 0 ∧ stat_path_spec Drv A0 path k0 st) as (v & M0 & A0 & b & -> & HA0 & Rv & Hb).
    { destruct (exclusive oflag); [|exists s.(fs), M, A, false; split; [reflexivity|]; split; [constructor|]; split; [done|]; intros ?; discriminate].
      destruct (stat_path_rep Drv F s.(fs) M A path Q R Hp) as (v & M0 & A0 & rc & st & E & HA0 & Hst & Rv). cbn [fs set_errno s0]. rewrite E. cbn [mbind outcome_bind].
      exists v, M0, A0, (rc =? 0). split; [done|]. split; [done|]. split; [done|]. destruct (Z.eqb_spec rc 0) as [->|]; [split; [done|by exists st]|intros _; by exists rc, st]. }
    cbn [mbind outcome_bind]. destruct b.
    + destruct Hb as [Hex [st Hst]]. eexists _, M0, A0, A0, (PInt (-1)). split; [done|]. split; [done|]. split; [by eapply p_open_exists|done].
    + destruct (open_rep Drv F v M0 A0 path (oflag_to_vfs oflag) Q Rv Hp Hcr) as (v' & M' & A1 & A' & k & E & HA1 & Ho & R'). cbn [fs with_fs]. rewrite E. cbn [mbind outcome_bind].
      destruct (result_answers (with_fs (with_fs s0 v) v') k k) as [Ha Hf]. eexists _, M', A0, A', (PInt _). split; [done|]. cbn [fst snd]. split; [done|].
      split; [by eapply p_open|by rewrite Hf].
  - eexists _, M, A, A, (PInt (-1)). split; [done|]. split; [done|]. split; [apply p_open_null|done].
  - unfold posix_close. destruct (close_rep Drv F s.(fs) M A fd Q R) as (v & A' & k & -> & Hs & R'). cbn [mbind outcome_bind].
    destruct (result_answers (with_fs s v) k 0) as [Ha Hf]. eexists _, M, A, A', (PInt _). split; [done|]. cbn [fst snd]. split; [done|]. split; [by eapply p_close|by rewrite Hf].
  - unfold posix_read. destruct (read_rep Drv F s.(fs) M A fd n Q R Hc) as (v & A' & k & out & -> & Hs & R'). cbn [mbind outcome_bind].
    destruct (result_answers (with_fs s v) k k) as [Ha Hf]. eexists _, M, A, A', (PBytes _ out). split; [done|]. cbn [fst snd]. split; [done|]. split; [by eapply p_read|by rewrite Hf].
  - unfold posix_write. destruct (write_rep Drv F s.(fs) M A fd data Q R) as (v & A' & k & -> & Hs & R'). cbn [mbind outcome_bind].
    destruct (result_answers (with_fs s v) k k) as [Ha Hf]. eexists _, M, A, A', (PInt _). split; [done|]. cbn [fst snd]. split; [done|]. split; [by eapply p_write|by rewrite Hf].
  - unfold posix_lseek. destruct (seek_rep F s.(fs) M A fd off wh R) as (v & -> & R'). cbn [mbind outcome_bind]. destruct (seek_spec A fd off wh) as [k A'] eqn:E.
    destruct (result_answers (with_fs s v) k k) as [Ha Hf]. eexists _, M, A, A', (PInt _). split; [done|]. cbn [fst snd]. split; [done|]. split; [by eapply p_seek|by rewrite Hf].
  - unfold posix_stat. cbn [negb]. destruct (stat_path_rep Drv F s.(fs) M A path Q R Hc) as (v & M' & A' & k & vs & -> & HA & Hs & R'). cbn [mbind outcome_bind].
    destruct (stat_answers (with_fs s v) k vs) as (s' & rc & st & -> & Hf & Ha).
    { unfold stat_path_spec in Hs. destruct (find_path A' path); [right; by eapply stat_written|left]. by destruct Hs as [-> _]. }
    cbn [mbind outcome_bind fst snd]. exists s', M', A', A', (PAttr rc st). split; [done|]. split; [done|]. split; [by eapply p_stat|by rewrite Hf].
  - eexists _, M, A, A, (PAttr (-1) None). split; [done|]. split; [done|]. split; [apply p_stat_null|done].
  - unfold posix_fstat. cbn [negb]. destruct (fstat_rep Drv F s.(fs) M A fd Q R) as (v & k & vs & -> & Hs & R'). cbn [mbind outcome_bind].
    destruct (stat_answers (with_fs s v) k vs) as (s' & rc & st & -> & Hf & Ha).
    { unfold fstat_spec in Hs. destruct (open_at A fd) as [[[q fl] off]|]; [right; by eapply stat_written|left]. by destruct Hs as [-> _]. }
    cbn [mbind outcome_bind fst snd]. exists s', M, A, A, (PAttr rc st). split; [done|]. split; [done|]. split; [by eapply p_fstat|by rewrite Hf].
  - unfold posix_mkdir. destruct Hc as [Hp Hcr]. destruct (mkdir_rep Drv F s.(fs) M A path Q R Hp Hcr) as (v & M' & A0 & A' & k & -> & HA0 & Hs & R'). cbn [mbind outcome_bind].
    destruct (result_answers (with_fs s v) k 0) as [Ha Hf]. eexists _, M', A0, A', (PInt _). split; [done|]. cbn [fst snd]. split; [done|]. split; [by eapply p_mkdir|by rewrite Hf].
  - eexists _, M, A, A, (PInt (-1)). split; [done|]. split; [done|]. split; [apply p_mkdir_null|done].
Qed.

Fixpoint prun s (cs : list pcall) : outcome (posix H P * list preply) :=
  match cs with
  | [] => Ret (s, [])
  | c :: cs => r ← do_pcall s c; let '(s, x) := r in r ← prun s cs; let '(s, xs) := r in Ret (s, x :: xs)
  end.
Inductive psteps : afs → Z → list pcall → list preply → afs → Z → Prop :=
  | psteps_nil A e : psteps A e [] [] A e
  | psteps_cons A e A0 A1 e1 A2 e2 c cs r rs : discovers Drv (pcall_names c) A A0 → pstep A0 e c r A1 e1 → psteps A1 e1 cs rs A2 e2 → psteps A e (c :: cs) (r :: rs) A2 e2.

Lemma pcalls_rep F cs : driver_ok Drv → Forall pcall_ok cs → ∀ s M A, rep F s.(fs) M A →
  ∃ s' M' A' rs, prun s cs = Ret (s', rs) ∧ psteps A s.(errno) cs rs A' s'.(errno) ∧ rep F s'.(fs) M' A'.
Proof.
  intros Q. induction 1 as [|c cs Hc _ IH]; intros s M A R; cbn [prun].
  { exists s, M, A, []. split; [done|]. split; [constructor|done]. }
  destruct (pcall_rep F s M A c Q R Hc) as (s1 & M1 & A0 & A1 & r & -> & H0 & Hs1 & R1). cbn [mbind outcome_bind].
  destruct (IH s1 M1 A1 R1) as (s2 & M2 & A2 & rs & -> & Hs2 & R2). cbn [mbind outcome_bind].
  exists s2, M2, A2, (r :: rs). split; [done|]. split; [by eapply psteps_cons|done].
Qed.

(** C9: The posix calls over a file system that represents an abstract one, with
    drivers that keep their contract ([Vfs.driver_ok], lookups that discover files
    included): every history of [open], [close], [read], [write], [lseek], [stat],
    [fstat] and [mkdir] returns, each call does what the abstract call does once the
    drivers have discovered files of the names in the path, gives -1 and the
    translated [errno] exactly when that reports an error, and the translated
    attributes when it does not; [open] with [O_CREAT] and [O_EXCL] refuses a
    path that [stat] finds. The paths are shorter than 512 bytes and their names than
    128; a path under which something is to be made, while drivers look names up,
    has no dots and no slash at its end. *)
Theorem posix_refines F s M A cs :
  driver_ok Drv → rep F s.(fs) M A → Forall pcall_ok cs →
  ∃ s' M' A' rs, prun s cs = Ret (s', rs) ∧ psteps A s.(errno) cs rs A' s'.(errno) ∧ rep F s'.(fs) M' A'.
Proof. intros Q R Hc. by apply (pcalls_rep F cs Q Hc s M A R). Qed.
End refinement.

(** ** After boot and the mount of an NTFS volume *)

Definition demo_pcalls : list pcall :=
  [PMkdir (Some (bytes "/a")); POpen (Some (bytes "/a/b")) (O_CREAT + O_EXCL + O_RDWR); POpen (Some (bytes "/a/b")) (O_CREAT + O_EXCL); PWrite 0 [1; 2];
   PSeek 0 7 SEEK_SET; PRead 0 3; PFstat 0; PStat (Some (bytes "/a")); PClose 0; PClose 0; POpen None 0; PStat (Some (bytes "/b")); PMkdir (Some (bytes "a"));
   POpen (Some (bytes "/n/NTFS_README.TXT")) (O_CREAT + O_EXCL); POpen (Some (bytes "/n/NTFS_README.TXT")) O_RDONLY; PRead 0 5; PClose 7].
Definition pcall_okb (c : pcall) : bool :=
  match c with
  | POpen (Some path) oflag => path_okb path && (negb (has (oflag_to_vfs oflag) VFS_O_CREATE) || plainb path)
  | PMkdir (Some path) => path_okb path && plainb path
  | PStat (Some path) => path_okb path
  | PRead _ n => 0 <=? n
  | _ => true
  end.
Lemma pcall_okb_ok {H P} (Drv : Z → vfs_ops (H:=H) (P:=P)) cs : forallb pcall_okb cs = true → Forall (pcall_ok Drv) cs.
Proof.
  intros Hc. apply Forall_forall. intros c Hin. rewrite forallb_forall in Hc. apply list_elem_of_In, Hc in Hin. revert Hin.
  destruct c as [[path|] oflag|fd|fd n|fd data|fd off wh|[path|]|fd|[path|]]; cbn; try done; try lia.
  - intros [Hp Hf]%andb_true_iff. split; [by apply path_okb_ok|]. intros E. rewrite E in Hf. right. by apply plainb_ok.
  - apply path_okb_ok.
  - intros [Hp Hf]%andb_true_iff. split; [by apply path_okb_ok|]. right. by apply plainb_ok.
Qed.
Lemma demo_pcalls_ok : Forall (pcall_ok drivers) demo_pcalls.
Proof. apply pcall_okb_ok. vm_compute. reflexivity. Qed.
Definition pint (r : preply) : Z := match r with PInt rc | PBytes rc _ | PAttr rc _ => rc end.
Definition run_posix : outcome (list Z * Z) :=
  r ← demo_start; x ← prun drivers {| fs := r.1; errno := 0 |} demo_pcalls; Ret (map pint x.2, errno x.1).

Lemma posix_refines_witness :
  (∃ (s : posix (Slab.heap pmm_t) (gmap Z ntfs_obj)) M A, demo_start = Ret (s.(fs), 0) ∧ rep ∅ s.(fs) M A ∧
   ∃ s' M' A' rs, prun drivers s demo_pcalls = Ret (s', rs) ∧ psteps drivers A s.(errno) demo_pcalls rs A' s'.(errno) ∧ rep ∅ s'.(fs) M' A') ∧
  run_posix = Ret ([0; 0; -1; -1; 7; -1; 0; 0; 0; -1; -1; -1; -1; -1; 0; 5; -1], 9).
Proof.
  split; [|vm_compute; reflexivity]. destruct demo_start_rep as (v & M & A & E & R). exists {| fs := v; errno := 0 |}, M, A. split; [exact E|]. split; [exact R|].
  exact (posix_refines drivers ∅ {| fs := v; errno := 0 |} M A demo_pcalls drivers_ok R demo_pcalls_ok).
Defined.
