(* ===== verification/HistBpt.v ===== *)
(** * The index of the message history ([src/agent/hist_bptree.c])

    A B+ tree of order four from sequence numbers to ring slots. Nodes are heap
    blocks; the typed store [nodes] holds them by address. An access to one of a
    node's arrays out of bounds is a [Fault]. The code inserts into a leaf before
    it splits it, so a fourth key leaves the arrays of three; the splits and the
    inner nodes after that are modelled, but only reached that way. *)

From S2P Require Import Pmm Slab SlabHeap KernelHeap.
From S2P Require Import Prelude CMem KHeap.
From stdpp Require Import base numbers list gmap sets.
Open Scope Z_scope.

Definition BP_MAX : Z := 3.
Definition SIZEOF_BP_NODE : Z := 96.
Definition HIST_RING_SIZE : Z := 4096.

Record hist_bp_node := {
  is_leaf : bool; nkeys : Z; keys : list Z; vals : list Z; parent : option Z; children : list (option Z); next : option Z;
}.
Record hist_bptree := { root : option Z; height : Z }.
(** [hist_entry_t] and [struct history] ([agent/history.h]); a null [data] is [None]. *)
Record hist_entry := {
  timestamp : Z; seq : Z; role : Z; token_count : Z; data : option Z; data_len : Z; raw_len : Z;
}.
Definition zero_entry : hist_entry :=
  {| timestamp := 0; seq := 0; role := 0; token_count := 0; data := None; data_len := 0; raw_len := 0 |}.
#[export] Instance hist_entry_inhabited : Inhabited hist_entry := populate zero_entry.
Record history := {
  ring : list hist_entry; head : Z; tail : Z; window_tokens : Z; max_tokens : Z; next_seq : Z; bpt : hist_bptree;
}.

(** The heap and the nodes of the tree, by address. *)
Record store (H : Type) := { heap : H; nodes : gmap Z hist_bp_node }.
Arguments heap {H}.
Arguments nodes {H}.

Definition new_node (leaf : bool) : hist_bp_node :=
  {| is_leaf := leaf; nkeys := 0; keys := replicate 3 0; vals := replicate 3 0; parent := None; children := replicate 4 None; next := None |}.
Definition set_keys (n : hist_bp_node) (k : Z) (ks vs : list Z) : hist_bp_node :=
  {| is_leaf := n.(is_leaf); nkeys := k; keys := ks; vals := vs; parent := n.(parent); children := n.(children); next := n.(next) |}.
Definition set_children (n : hist_bp_node) (c : list (option Z)) : hist_bp_node :=
  {| is_leaf := n.(is_leaf); nkeys := n.(nkeys); keys := n.(keys); vals := n.(vals); parent := n.(parent); children := c; next := n.(next) |}.
Definition set_parent (n : hist_bp_node) (p : option Z) : hist_bp_node :=
  {| is_leaf := n.(is_leaf); nkeys := n.(nkeys); keys := n.(keys); vals := n.(vals); parent := p; children := n.(children); next := n.(next) |}.
Definition set_next (n : hist_bp_node) (p : option Z) : hist_bp_node :=
  {| is_leaf := n.(is_leaf); nkeys := n.(nkeys); keys := n.(keys); vals := n.(vals); parent := n.(parent); children := n.(children); next := p |}.

(** Checked array accesses. *)
Definition rd {A} (l : list A) (i : Z) : outcome A :=
  if decide (0 ≤ i) then match l !! Z.to_nat i with Some x => Ret x | None => Fault end else Fault.
Definition wr {A} (l : list A) (i : Z) (x : A) : outcome (list A) :=
  if decide (0 ≤ i < zlen l) then Ret (<[Z.to_nat i := x]> l) else Fault.

Section bpt.
Context {H : Type} `{KH : KHeap H}.
Implicit Types s : store H.
Implicit Types t : hist_bptree.

Definition node s (a : Z) : outcome hist_bp_node := match s.(nodes) !! a with Some n => Ret n | None => Fault end.
Definition put s (a : Z) (n : hist_bp_node) : store H := {| heap := s.(heap); nodes := <[a := n]> s.(nodes) |}.
Definition fuel_of s : nat := S (base.size s.(nodes)).

Definition node_alloc s (leaf : bool) : outcome (store H * option Z) :=
  r ← kcalloc s.(heap) 1 SIZEOF_BP_NODE;
  let '(h, a) := r in
  if a =? 0 then Ret ({| heap := h; nodes := s.(nodes) |}, None)
  else Ret ({| heap := h; nodes := <[a := new_node leaf]> s.(nodes) |}, Some a).

Definition free_node s (a : Z) : outcome (store H) :=
  match s.(nodes) !! a with
  | Some _ => h ← kfree s.(heap) a; Ret {| heap := h; nodes := delete a s.(nodes) |}
  | None => Fault
  end.
(** The loop over the children goes from [i] on, [n] turns. *)
Fixpoint node_free_recursive (fuel : nat) s (x : option Z) : outcome (store H) :=
  match x with
  | None => Ret s
  | Some a =>
      match fuel with
      | O => NoFuel
      | S fuel =>
          n ← node s a;
          s ← (if n.(is_leaf) then Ret s
               else (fix kids (k : nat) (i : Z) s : outcome (store H) :=
                       match k with
                       | O => Ret s
                       | S k => c ← rd n.(children) i; s ← node_free_recursive fuel s c; kids k (i + 1) s
                       end) (Z.to_nat (n.(nkeys) + 1)) 0 s);
          free_node s a
      end
  end.

Definition hist_bpt_init (t : option hist_bptree) : option hist_bptree := match t with Some _ => Some {| root := None; height := 0 |} | None => None end.
Definition hist_bpt_destroy s (t : option hist_bptree) : outcome (store H * option hist_bptree) :=
  match t with
  | None => Ret (s, None)
  | Some t => s ← node_free_recursive (fuel_of s) s t.(root); Ret (s, Some {| root := None; height := 0 |})
  end.
Definition hist_bpt_clear := hist_bpt_destroy.

(** The loops over the keys of a node make at most [nkeys] turns. *)
Definition key_fuel (n : hist_bp_node) : nat := S (Z.to_nat n.(nkeys)).
(** [while (i < nkeys && key >= keys[i]) i++;] *)
Fixpoint child_index (fuel : nat) (n : hist_bp_node) (key i : Z) : outcome Z :=
  if i <? n.(nkeys) then
    k ← rd n.(keys) i;
    if key >=? k then match fuel with O => NoFuel | S fuel => child_index fuel n key (i + 1) end else Ret i
  else Ret i.
Fixpoint leaf_search (fuel : nat) s (x : option Z) (key : Z) : outcome (option Z) :=
  match x with
  | None => Ret None
  | Some a =>
      n ← node s a;
      if n.(is_leaf) then Ret (Some a) else
      match fuel with
      | O => NoFuel
      | S fuel => i ← child_index (key_fuel n) n key 0; c ← rd n.(children) i; leaf_search fuel s c key
      end
  end.

(** The loop of [leaf_insert_sorted]: the last index and the shifted arrays. *)
Fixpoint shift_from (fuel : nat) (ks vs : list Z) (key i : Z) : outcome (Z * list Z * list Z) :=
  if i >=? 0 then
    k ← rd ks i;
    if k >? key then
      match fuel with
      | O => NoFuel
      | S fuel => ks ← wr ks (i + 1) k; v ← rd vs i; vs ← wr vs (i + 1) v; shift_from fuel ks vs key (i - 1)
      end
    else Ret (i, ks, vs)
  else Ret (i, ks, vs).
Definition leaf_insert_sorted (n : hist_bp_node) (key val : Z) : outcome hist_bp_node :=
  r ← shift_from (key_fuel n) n.(keys) n.(vals) key (n.(nkeys) - 1);
  let '(i, ks, vs) := r in
  ks ← wr ks (i + 1) key;
  vs ← wr vs (i + 1) val;
  Ret (set_keys n (u8 (n.(nkeys) + 1)) ks vs).

Fixpoint make_room (k : nat) (n : hist_bp_node) (i pos : Z) : outcome hist_bp_node :=
  match k with
  | O => Ret n
  | S k =>
      if i >? pos then
        x ← rd n.(keys) (i - 1);
        ks ← wr n.(keys) i x;
        c ← rd n.(children) i;
        cs ← wr n.(children) (i + 1) c;
        make_room k (set_children (set_keys n n.(nkeys) ks n.(vals)) cs) (i - 1) pos
      else Ret n
  end.
Definition internal_insert s (a pos key new_child : Z) : outcome (store H) :=
  n ← node s a;
  n ← make_room (key_fuel n) n n.(nkeys) pos;
  ks ← wr n.(keys) pos key;
  cs ← wr n.(children) (pos + 1) (Some new_child);
  let s := put s a (set_children (set_keys n n.(nkeys) ks n.(vals)) cs) in
  c ← node s new_child;
  let s := put s new_child (set_parent c (Some a)) in
  n ← node s a;
  Ret (put s a (set_keys n (u8 (n.(nkeys) + 1)) n.(keys) n.(vals))).

(** Copying [k] keys and values of the leaf from [mid + i] on. *)
Fixpoint copy_leaf (k : nat) (from to : hist_bp_node) (mid i : Z) : outcome hist_bp_node :=
  match k with
  | O => Ret to
  | S k =>
      x ← rd from.(keys) (mid + i);
      ks ← wr to.(keys) i x;
      v ← rd from.(vals) (mid + i);
      vs ← wr to.(vals) i v;
      copy_leaf k from (set_keys to to.(nkeys) ks vs) mid (i + 1)
  end.
Definition split_leaf_node s (a : Z) : outcome (store H * option Z) :=
  r ← node_alloc s true;
  let '(s, b) := r in
  match b with
  | None => Ret (s, None)
  | Some b =>
      leaf ← node s a;
      R ← node s b;
      let mid := leaf.(nkeys) / 2 in
      let rn := u8 (leaf.(nkeys) - mid) in
      R ← copy_leaf (Z.to_nat rn) leaf R mid 0;
      let R := set_parent (set_next (set_keys R rn R.(keys) R.(vals)) leaf.(next)) leaf.(parent) in
      let leaf := set_next (set_keys leaf (u8 mid) leaf.(keys) leaf.(vals)) (Some b) in
      Ret (put (put s b R) a leaf, Some b)
  end.

(** Moving the keys and children from [i] on to the right node, the last child too. *)
Fixpoint move_children (k : nat) s (a b : Z) (i j : Z) : outcome (store H) :=
  n ← node s a;
  c ← rd n.(children) i;
  match c with
  | None => Fault
  | Some c =>
      match k with
      | O =>
          R ← node s b;
          cs ← wr R.(children) j (Some c);
          let s := put s b (set_children R cs) in
          x ← node s c;
          Ret (put s c (set_parent x (Some b)))
      | S k =>
          R ← node s b;
          x ← rd n.(keys) i;
          ks ← wr R.(keys) j x;
          cs ← wr R.(children) j (Some c);
          let s := put s b (set_children (set_keys R R.(nkeys) ks R.(vals)) cs) in
          y ← node s c;
          move_children k (put s c (set_parent y (Some b))) a b (i + 1) (j + 1)
      end
  end.
Definition split_internal_node s (a : Z) : outcome (store H * Z * option Z) :=
  n ← node s a;
  let nk := n.(nkeys) in
  let midk := nk / 2 in
  promo ← rd n.(keys) midk;
  r ← node_alloc s false;
  let '(s, b) := r in
  match b with
  | None => Ret (s, promo, None)
  | Some b =>
      R ← node s b;
      let rn := nk - midk - 1 in
      let s := put s b (set_keys R (u8 rn) R.(keys) R.(vals)) in
      s ← move_children (Z.to_nat rn) s a b (midk + 1) 0;
      n ← node s a;
      R ← node s b;
      let s := put s b (set_parent R n.(parent)) in
      Ret (put s a (set_keys n (u8 midk) n.(keys) n.(vals)), promo, Some b)
  end.

(** [while (pos < nkeys && keys[pos] <= sep) pos++;] is [child_index] with [sep]. *)
Fixpoint insert_up (fuel : nat) s t (left : Z) (par : option Z) (sep newR : Z) : outcome (store H * hist_bptree * Z) :=
  match par with
  | Some p =>
      match fuel with
      | O => NoFuel
      | S fuel =>
          n ← node s p;
          pos ← child_index (key_fuel n) n sep 0;
          s' ← internal_insert s p pos sep newR;
          if n.(nkeys) <? BP_MAX then Ret (s', t, 0) else
          r ← split_internal_node s' p;
          let '(s, promo, b) := r in
          match b with
          | None => Ret (s, t, - ENOMEM)
          | Some b => n ← node s p; insert_up fuel s t p n.(parent) promo b
          end
      end
  | None =>
      r ← node_alloc s false;
      let '(s, a) := r in
      match a with
      | None => Ret (s, t, - ENOMEM)
      | Some a =>
          n ← node s a;
          ks ← wr n.(keys) 0 sep;
          cs ← wr n.(children) 0 (Some left);
          cs ← wr cs 1 (Some newR);
          let s := put s a (set_children (set_keys n 1 ks n.(vals)) cs) in
          l ← node s left;
          let s := put s left (set_parent l (Some a)) in
          r ← node s newR;
          Ret (put s newR (set_parent r (Some a)), {| root := Some a; height := u32 (t.(height) + 1) |}, 0)
      end
  end.

(** The position of the key in the leaf. *)
Fixpoint key_at (k : nat) (n : hist_bp_node) (key i : Z) : outcome (option Z) :=
  match k with
  | O => Ret None
  | S k => x ← rd n.(keys) i; if x =? key then Ret (Some i) else key_at k n key (i + 1)
  end.
Definition hist_bpt_insert s (t : option hist_bptree) (sq ring_idx : Z) : outcome (store H * option hist_bptree * Z) :=
  match t with
  | None => Ret (s, None, - EINVAL)
  | Some t =>
      match t.(root) with
      | None =>
          r ← node_alloc s true;
          let '(s, a) := r in
          match a with
          | None => Ret (s, Some t, - ENOMEM)
          | Some a =>
              n ← node s a;
              ks ← wr n.(keys) 0 sq;
              vs ← wr n.(vals) 0 ring_idx;
              Ret (put s a (set_keys n 1 ks vs), Some {| root := Some a; height := 1 |}, 0)
          end
      | Some _ =>
          leaf ← leaf_search (fuel_of s) s t.(root) sq;
          match leaf with
          | None => Ret (s, Some t, - EINVAL)
          | Some a =>
              n ← node s a;
              i ← key_at (Z.to_nat n.(nkeys)) n sq 0;
              match i with
              | Some i => vs ← wr n.(vals) i ring_idx; Ret (put s a (set_keys n n.(nkeys) n.(keys) vs), Some t, 0)
              | None =>
                  if n.(nkeys) <? BP_MAX then n ← leaf_insert_sorted n sq ring_idx; Ret (put s a n, Some t, 0)
                  else
                  n ← leaf_insert_sorted n sq ring_idx;
                  r ← split_leaf_node (put s a n) a;
                  let '(s, b) := r in
                  match b with
                  | None => Ret (s, Some t, - ENOMEM)
                  | Some b =>
                      R ← node s b;
                      sep ← rd R.(keys) 0;
                      n ← node s a;
                      r ← insert_up (fuel_of s) s t a n.(parent) sep b;
                      let '(s, t, rc) := r in Ret (s, Some t, rc)
                  end
              end
          end
      end
  end.

Fixpoint rebuild_from (n : nat) s (t : option hist_bptree) (h : history) (i : Z) : outcome (store H * option hist_bptree) :=
  match n with
  | O => Ret (s, t)
  | S n =>
      let abs_idx := u32 (h.(tail) + i) mod HIST_RING_SIZE in
      let e := h.(ring).[abs_idx] in
      if bool_decide (is_Some e.(data)) then
        r ← hist_bpt_insert s t e.(seq) abs_idx;
        let '(s, t, _) := r in rebuild_from n s t h (i + 1)
      else rebuild_from n s t h (i + 1)
  end.
Definition hist_bpt_rebuild s (t : option hist_bptree) (h : option history) : outcome (store H * option hist_bptree) :=
  match t, h with
  | Some _, Some h =>
      r ← hist_bpt_clear s t;
      let '(s, t) := r in rebuild_from (Z.to_nat (u32 (h.(head) - h.(tail)))) s t h 0
  | _, _ => Ret (s, t)
  end.

Fixpoint leftmost_leaf (fuel : nat) s (x : option Z) : outcome (option Z) :=
  match x with
  | None => Ret None
  | Some a =>
      n ← node s a;
      if n.(is_leaf) then Ret (Some a) else
      match fuel with O => NoFuel | S fuel => c ← rd n.(children) 0; leftmost_leaf fuel s c end
  end.
(** One leaf: the slots of its keys from [min_seq] on, while there is room. *)
Fixpoint leaf_range (k : nat) (n : hist_bp_node) (i min_seq room : Z) : outcome (list Z) :=
  match k with
  | O => Ret []
  | S k =>
      x ← rd n.(keys) i;
      if (x >=? min_seq) && (0 <? room) then v ← rd n.(vals) i; l ← leaf_range k n (i + 1) min_seq (room - 1); Ret (v :: l)
      else leaf_range k n (i + 1) min_seq room
  end.
Fixpoint leaves_range (fuel : nat) s (x : option Z) (min_seq room : Z) : outcome (list Z) :=
  match x with
  | None => Ret []
  | Some a =>
      match fuel with
      | O => NoFuel
      | S fuel =>
          n ← node s a;
          l ← leaf_range (Z.to_nat n.(nkeys)) n 0 min_seq room;
          l' ← leaves_range fuel s n.(next) min_seq (room - zlen l);
          Ret (l ++ l')
      end
  end.
(** The slots that are written to [out_ring_idx]; their number is the result. *)
Definition hist_bpt_range_from_seq s (t : option hist_bptree) (min_seq : Z) (out : bool) (max_out : Z) : outcome (list Z) :=
  match t with
  | None => Ret []
  | Some t =>
      match t.(root) with
      | None => Ret []
      | Some _ =>
          if negb out || (max_out =? 0) then Ret [] else
          L ← leftmost_leaf (fuel_of s) s t.(root); leaves_range (fuel_of s) s L min_seq max_out
      end
  end.
End bpt.

(** ** The index as a sorted list *)

Fixpoint ins (k v : Z) (L : list (Z * Z)) : list (Z * Z) :=
  match L with
  | [] => [(k, v)]
  | (k', v') :: L' => if k' <? k then (k', v') :: ins k v L' else if k' =? k then (k, v) :: L' else (k, v) :: L
  end.
Fixpoint ascending (L : list (Z * Z)) : Prop :=
  match L with
  | (k, _) :: ((k', _) :: _) as L' => k < k' ∧ ascending L'
  | _ => True
  end.
Definition range (min_seq max_out : Z) (L : list (Z * Z)) : list Z :=
  take (Z.to_nat max_out) (snd <$> filter (λ p, min_seq ≤ p.1) L).

Record leaf_rep (n : hist_bp_node) (L : list (Z * Z)) : Prop := {
  lf_leaf : is_leaf n = true;
  lf_nkeys : nkeys n = zlen L;
  lf_keys : ∃ j, keys n = L.*1 ++ j;
  lf_vals : ∃ j, vals n = L.*2 ++ j;
  lf_len : length (keys n) = 3%nat ∧ length (vals n) = 3%nat;
  lf_links : parent n = None ∧ next n = None;
}.

Lemma rd_at {A} (l l' : list A) x i : i = zlen l → rd (l ++ x :: l') i = Ret x.
Proof.
  intros ->. unfold rd, zlen. rewrite decide_True by lia. rewrite Nat2Z.id, lookup_app_r by lia. by rewrite Nat.sub_diag.
Qed.
Lemma key_at_spec n k : ∀ (L1 L2 : list (Z * Z)) j, keys n = (L1 ++ L2).*1 ++ j →
  key_at (length L2) n k (zlen L1) = Ret (match list_find (λ p, p.1 = k) L2 with Some (i, _) => Some (zlen L1 + Z.of_nat i) | None => None end).
Proof.
  intros L1 L2. revert L1. induction L2 as [|[k' v'] L2 IH]; intros L1 j Ek; [done|]. cbn [length key_at].
  assert (rd (keys n) (zlen L1) = Ret k') as ->.
  { rewrite Ek, fmap_app, <- app_assoc. cbn [fmap list_fmap app].  apply rd_at. unfold zlen. by rewrite length_fmap. }
  cbn [mbind outcome_bind list_find fst]. destruct (Z.eqb_spec k' k) as [->|Hne].
  - rewrite decide_True by done. by rewrite Z.add_0_r.
  - rewrite decide_False by done. replace (zlen L1 + 1) with (zlen (L1 ++ [(k', v')])) by (rewrite zlen_app; done).
    rewrite (IH (L1 ++ [(k', v')]) j) by (by rewrite <- app_assoc). f_equal. destruct (list_find _ L2) as [[i p]|]; cbn; [|done].
    f_equal. rewrite zlen_app. change (zlen [(k', v')]) with 1. lia.
Qed.


Lemma wr_at {A} (l l' : list A) x y i : i = zlen l → wr (l ++ x :: l') i y = Ret (l ++ y :: l').
Proof.
  intros ->. unfold wr, zlen. rewrite decide_True by (rewrite length_app; cbn; lia).
  by rewrite Nat2Z.id, insert_app_r_alt, Nat.sub_diag by lia.
Qed.
Lemma wr_past {A} (l : list A) i y : zlen l ≤ i → wr l i y = Fault.
Proof. intros Hi. unfold wr. by rewrite decide_False by lia. Qed.

Lemma zlen_snoc {A} (l : list A) x : zlen (l ++ [x]) = zlen l + 1.
Proof. unfold zlen. rewrite length_app. cbn. lia. Qed.
Lemma zlen_pos {A} (l : list A) : 0 ≤ zlen l.
Proof. unfold zlen. lia. Qed.
Lemma zlen_fst (L : list (Z * Z)) : zlen L.*1 = zlen L.
Proof. unfold zlen. by rewrite length_fmap. Qed.
Lemma zlen_snd (L : list (Z * Z)) : zlen L.*2 = zlen L.
Proof. unfold zlen. by rewrite length_fmap. Qed.
#[local] Hint Rewrite @fmap_app zlen_fst zlen_snd : hist_bpt.

Lemma ascending_tail k v L : ascending ((k, v) :: L) → Forall (λ p, k < p.1) L.
Proof.
  revert k v. induction L as [|[k2 v2] L IH]; intros k v Hs; constructor; cbn in Hs; [apply Hs|].
  destruct Hs as [? Hs]. eapply Forall_impl; [by apply (IH k2 v2)|]. cbn. lia.
Qed.
Lemma ascending_cons k v L : ascending ((k, v) :: L) → ascending L.
Proof. destruct L as [|[k2 v2] L]; [done|]. by intros [_ ?]. Qed.

(** A new key goes between the smaller and the greater ones. *)
Lemma ins_split k v L : ascending L → k ∉ L.*1 →
  ∃ A B, L = A ++ B ∧ ins k v L = A ++ (k, v) :: B ∧ Forall (λ p, p.1 < k) A ∧ Forall (λ p, k < p.1) B.
Proof.
  induction L as [|[k' v'] L IH]; intros Hs Hk; [exists [], []; naive_solver|].
  cbn [fmap list_fmap fst] in Hk. apply not_elem_of_cons in Hk as [Hne Hk]. cbn [ins].
  pose proof (ascending_cons _ _ _ Hs) as HsL.
  destruct (Z.ltb_spec k' k).
  - destruct (IH HsL Hk) as (A & B & -> & -> & HA & HB). exists ((k', v') :: A), B. repeat split; auto.
  - rewrite (proj2 (Z.eqb_neq k' k)) by auto. exists [], ((k', v') :: L). repeat split; [done|].
    constructor; [cbn; lia|]. eapply Forall_impl; [by apply (ascending_tail k' v')|]. cbn. lia.
Qed.

Lemma shift_from_spec fuel A B k : ∀ x y j jv,
  Forall (λ p, p.1 < k) A → Forall (λ p, k < p.1) B → (length B ≤ fuel)%nat →
  ∃ x' y', shift_from fuel ((A ++ B).*1 ++ x :: j) ((A ++ B).*2 ++ y :: jv) k (zlen (A ++ B) - 1)
           = Ret (zlen A - 1, A.*1 ++ x' :: B.*1 ++ j, A.*2 ++ y' :: B.*2 ++ jv).
Proof.
  revert fuel. induction B as [|[b w] B IH] using rev_ind; intros fuel x y j jv HA HB Hf.
  - exists x, y. rewrite app_nil_r. cbn [fmap list_fmap app]. destruct A as [|[a u] A _] using rev_ind; [by destruct fuel|].
    apply Forall_app in HA as [_ HA]. apply Forall_cons_1 in HA as [HA _]. cbn in HA.
    rewrite zlen_snoc, Z.add_simpl_r. pose proof (zlen_pos A).
    destruct fuel; cbn [shift_from]; rewrite (proj2 (Z.geb_le _ _)) by lia;
      rewrite !(fmap_app _ A), <- !app_assoc; cbn [fmap list_fmap fst snd app]; rewrite !rd_at by (by autorewrite with hist_bpt); cbn [mbind outcome_bind];
      destruct (Z.gtb_spec a k); try lia; reflexivity.
  - apply Forall_app in HB as [HB Hb]. apply Forall_cons_1 in Hb as [Hb _]. cbn in Hb. rewrite length_app in Hf. cbn in Hf.
    destruct fuel as [|fuel]; [lia|].
    destruct (IH fuel b w (b :: j) (w :: jv) HA HB ltac:(lia)) as (x' & y' & E). exists x', y'.
    rewrite (app_assoc A B). set (L := A ++ B) in *.
    rewrite zlen_snoc, Z.add_simpl_r. pose proof (zlen_pos L).
    rewrite !(fmap_app _ L), <- !app_assoc. cbn [fmap list_fmap fst snd app shift_from].
    rewrite (proj2 (Z.geb_le _ _)) by lia. rewrite !rd_at by (by autorewrite with hist_bpt). cbn [mbind outcome_bind].
    destruct (Z.gtb_spec b k); [|lia].
    rewrite (app_assoc _ [b] (x :: j) : L.*1 ++ b :: x :: j = _), (app_assoc _ [w] (y :: jv) : L.*2 ++ w :: y :: jv = _).
    rewrite (wr_at (L.*1 ++ [b])), (wr_at (L.*2 ++ [w])) by (rewrite zlen_snoc; by autorewrite with hist_bpt).
    cbn [mbind outcome_bind]. rewrite <- !app_assoc. cbn [app]. rewrite E. by rewrite !fmap_app, <- !app_assoc.
Qed.

Lemma leaf_insert_spec n L k v :
  leaf_rep n L → (0 < length L < 3)%nat → ascending L → k ∉ L.*1 →
  ∃ n', leaf_insert_sorted n k v = Ret n' ∧ leaf_rep n' (ins k v L).
Proof.
  intros [Hl Hn [jk Hk] [jv Hv] [Lk Lv] Hlk] HL Hs Hin. unfold leaf_insert_sorted. rewrite Hn.
  destruct (ins_split k v L Hs Hin) as (A & B & -> & -> & HA & HB).
  rewrite Hk in Lk. rewrite Hv in Lv. rewrite length_app, length_fmap in Lk, Lv.
  destruct jk as [|x j]; [cbn in Lk; lia|]. destruct jv as [|y jv]; [cbn in Lv; lia|].
  rewrite length_app in HL.
  destruct (shift_from_spec (key_fuel n) A B k x y j jv HA HB ltac:(unfold key_fuel; rewrite Hn; unfold zlen; rewrite length_app; lia)) as (x' & y' & E).
  rewrite Hk, Hv, E. cbn [mbind outcome_bind]. rewrite Z.sub_add.
  rewrite !wr_at by (by autorewrite with hist_bpt). cbn [mbind outcome_bind]. eexists. split; [reflexivity|].
  rewrite length_app in Lk, Lv. cbn in Lk, Lv.
  split; cbn; rewrite ?fmap_app; [done | | by exists j; rewrite <- app_assoc | by exists jv; rewrite <- app_assoc | | done].
  - unfold u8, zlen. rewrite !length_app. cbn. rewrite Z.mod_small; lia.
  - rewrite !length_app; cbn; rewrite !length_app, !length_fmap. lia.
Qed.

(** In a full leaf the first write of the shift, or that of the key itself, is past the array. *)
Lemma shift_from_full fuel A B k :
  Forall (λ p, p.1 < k) A → Forall (λ p, k < p.1) B → A ++ B ≠ [] →
  (r ← shift_from (S fuel) (A ++ B).*1 (A ++ B).*2 k (zlen (A ++ B) - 1);
   let '(i, ks, vs) := r in wr ks (i + 1) k) = Fault.
Proof.
  intros HA HB Hne. destruct B as [|[b w] B _] using rev_ind.
  - rewrite app_nil_r in *. destruct A as [|[a u] A _] using rev_ind; [done|].
    apply Forall_app in HA as [_ HA]. apply Forall_cons_1 in HA as [HA _]. cbn in HA.
    rewrite zlen_snoc, Z.add_simpl_r. pose proof (zlen_pos A). cbn [shift_from]. rewrite (proj2 (Z.geb_le _ _)) by lia.
    rewrite !(fmap_app _ A). cbn [fmap list_fmap fst snd]. rewrite !rd_at by (by autorewrite with hist_bpt). cbn [mbind outcome_bind].
    destruct (Z.gtb_spec a k); [lia|]. cbn [mbind outcome_bind]. by rewrite wr_past by (rewrite zlen_snoc, zlen_fst; lia).
  - apply Forall_app in HB as [_ HB]. apply Forall_cons_1 in HB as [HB _]. cbn in HB. rewrite app_assoc. set (L := A ++ B) in *.
    rewrite zlen_snoc, Z.add_simpl_r. pose proof (zlen_pos L). cbn [shift_from]. rewrite (proj2 (Z.geb_le _ _)) by lia.
    rewrite !(fmap_app _ L). cbn [fmap list_fmap fst snd]. rewrite !rd_at by (by autorewrite with hist_bpt). cbn [mbind outcome_bind].
    destruct (Z.gtb_spec b k); [|lia]. cbn [mbind outcome_bind]. by rewrite (wr_past (L.*1 ++ [b])) by (rewrite zlen_snoc, zlen_fst; lia).
Qed.

Lemma leaf_insert_full n L k v :
  leaf_rep n L → length L = 3%nat → ascending L → k ∉ L.*1 → leaf_insert_sorted n k v = Fault.
Proof.
  intros [Hl Hn [jk Hk] [jv Hv] [Lk Lv] Hlk] HL Hs Hin. unfold leaf_insert_sorted. rewrite Hn.
  rewrite Hk in Lk. rewrite Hv in Lv. rewrite length_app, length_fmap in Lk, Lv.
  destruct jk; [|cbn in Lk; lia]. destruct jv; [|cbn in Lv; lia]. rewrite app_nil_r in Hk, Hv. clear Lk Lv.
  destruct (ins_split k v L Hs Hin) as (A & B & -> & _ & HA & HB). rewrite Hk, Hv.
  pose proof (shift_from_full (Z.to_nat (nkeys n)) A B k HA HB ltac:(by intros E; rewrite E in HL)) as Hf. fold (key_fuel n) in Hf.
  destruct (shift_from _ _ _ _ _) as [[[i ks] vs]| |]; cbn [mbind outcome_bind] in *; [by rewrite Hf|done..].
Qed.

Lemma leaf_range_spec n min_seq : ∀ (L2 L1 : list (Z * Z)) jk jv room, 0 ≤ room →
  keys n = (L1 ++ L2).*1 ++ jk → vals n = (L1 ++ L2).*2 ++ jv →
  leaf_range (length L2) n (zlen L1) min_seq room = Ret (range min_seq room L2).
Proof.
  induction L2 as [|[k v] L2 IH]; intros L1 jk jv room Hr Hk Hv; [by unfold range; cbn; rewrite firstn_nil|]. cbn [length leaf_range].
  assert (∀ r, 0 ≤ r → leaf_range (length L2) n (zlen L1 + 1) min_seq r = Ret (range min_seq r L2)) as IH'.
  { intros r ?. rewrite <- (zlen_snoc L1 (k, v)). apply (IH _ jk jv); [done|..]; by rewrite <- app_assoc. }
  rewrite fmap_app, <- app_assoc in Hk, Hv. cbn [fmap list_fmap fst snd app] in Hk, Hv.
  rewrite Hk, Hv, !rd_at by (by autorewrite with hist_bpt). cbn [mbind outcome_bind]. unfold range. rewrite filter_cons. cbn [fst].
  destruct (Z.geb_spec k min_seq); [rewrite decide_True by lia | rewrite decide_False by lia; cbn [andb]; by apply IH'].
  cbn [andb]. destruct (Z.ltb_spec 0 room).
  - rewrite IH' by lia. cbn [mbind outcome_bind fmap list_fmap snd]. unfold range.
    by replace (Z.to_nat room) with (S (Z.to_nat (room - 1))) by lia.
  - rewrite IH' by lia. assert (room = 0) as -> by lia. unfold range. done.
Qed.

(** ** Histories of calls *)

Inductive bp_op := Insert (sq ring_idx : Z) | RangeFrom (min_seq max_out : Z) | Clear.
Inductive bp_answer := Code (rc : Z) | Slots (l : list Z) | Done.

(** One call on the sorted list. Only the allocation of the leaf can fail. A
    fourth key leaves the arrays of the leaf. *)
Inductive index_step : list (Z * Z) → bp_op → outcome (list (Z * Z) * bp_answer) → Prop :=
| step_update L k v : k ∈ L.*1 → index_step L (Insert k v) (Ret (ins k v L, Code 0))
| step_first k v : index_step [] (Insert k v) (Ret ([(k, v)], Code 0))
| step_no_memory k v : index_step [] (Insert k v) (Ret ([], Code (- ENOMEM)))
| step_insert L k v : k ∉ L.*1 → (0 < length L < 3)%nat → index_step L (Insert k v) (Ret (ins k v L, Code 0))
| step_overrun L k v : k ∉ L.*1 → length L = 3%nat → index_step L (Insert k v) Fault
| step_range L m n : index_step L (RangeFrom m n) (Ret (L, Slots (range m n L)))
| step_clear L : index_step L Clear (Ret ([], Done)).

Inductive index_run : list (Z * Z) → list bp_op → outcome (list (Z * Z) * list bp_answer) → Prop :=
| run_nil L : index_run L [] (Ret (L, []))
| run_cons L o ops L' a r : index_step L o (Ret (L', a)) → index_run L' ops r →
    index_run L (o :: ops) ('(L'', l) ← r; Ret (L'', a :: l))
| run_fault L o ops : index_step L o Fault → index_run L (o :: ops) Fault.

Lemma index_run_app L ops r : index_run L ops r → ∀ ops2,
  match r with
  | Ret (L1, l1) => ∀ r2, index_run L1 ops2 r2 → index_run L (ops ++ ops2) ('(L2, l2) ← r2; Ret (L2, l1 ++ l2))
  | Fault => index_run L (ops ++ ops2) Fault
  | NoFuel => False
  end.
Proof.
  induction 1 as [L|L o ops L' a r Hst Hr IH|L o ops Hst]; intros ops2.
  - intros r2 H2. cbn [app]. by destruct r2 as [[L2 l2]| |].
  - specialize (IH ops2). destruct r as [[L1 l1]| |]; cbn [mbind outcome_bind app] in *; [|by apply (run_cons _ _ _ _ _ _ Hst IH)|done].
    intros r2 H2. pose proof (run_cons _ _ _ _ _ _ Hst (IH r2 H2)) as Hc. by destruct r2 as [[L2 l2]| |].
  - by apply run_fault.
Qed.

Definition bp_op_ok (o : bp_op) : Prop := match o with RangeFrom _ n => 0 ≤ n | _ => True end.

Section refinement.
Context {H : Type} `{KH : KHeap H}.
Implicit Types s : store H.

Definition bpt_step s (t : hist_bptree) (o : bp_op) : outcome (store H * option hist_bptree * bp_answer) :=
  match o with
  | Insert k v => r ← hist_bpt_insert s (Some t) k v; let '(s, t, rc) := r in Ret (s, t, Code rc)
  | RangeFrom m n => l ← hist_bpt_range_from_seq s (Some t) m true n; Ret (s, Some t, Slots l)
  | Clear => r ← hist_bpt_clear s (Some t); let '(s, t) := r in Ret (s, t, Done)
  end.
Fixpoint bpt_run s (t : hist_bptree) (ops : list bp_op) : outcome (store H * hist_bptree * list bp_answer) :=
  match ops with
  | [] => Ret (s, t, [])
  | o :: ops =>
      r ← bpt_step s t o;
      match r with
      | (s, Some t, a) => r ← bpt_run s t ops; let '(s, t, l) := r in Ret (s, t, a :: l)
      | (s, None, _) => Fault
      end
  end.

(** The tree is empty or a single leaf; [B] are the blocks of others. *)
Definition bpt_rep s (t : hist_bptree) (L : list (Z * Z)) (B : gset Z) : Prop :=
  match L with
  | [] => root t = None ∧ nodes s = ∅ ∧ kh_rep (heap s) B
  | _ => ∃ a n, root t = Some a ∧ nodes s = {[a := n]} ∧ leaf_rep n L ∧ ascending L ∧ (length L ≤ 3)%nat ∧
           a ∉ B ∧ kh_rep (heap s) ({[a]} ∪ B)
  end.

(** The tree apart from the heap it is in. *)
Definition tree_rep (ns : gmap Z hist_bp_node) (t : hist_bptree) (L : list (Z * Z)) : Prop :=
  match L with
  | [] => root t = None ∧ ns = ∅
  | _ => ∃ a n, root t = Some a ∧ ns = {[a := n]} ∧ leaf_rep n L ∧ ascending L ∧ (length L ≤ 3)%nat
  end.

Lemma bpt_rep_split s t L B :
  bpt_rep s t L B ↔ tree_rep (nodes s) t L ∧ dom (nodes s) ## B ∧ kh_rep (heap s) (dom (nodes s) ∪ B).
Proof.
  unfold bpt_rep, tree_rep. destruct L as [|p L].
  - split.
    + intros (? & Hn & ?). rewrite Hn, dom_empty_L, union_empty_l_L. split_and!; [done|done|set_solver|done].
    + intros ([? Hn] & _ & Hh). rewrite Hn, dom_empty_L, union_empty_l_L in Hh. done.
  - split.
    + intros (a & n & ? & Hn & ? & ? & ? & ? & ?). rewrite Hn, dom_singleton_L. split_and!; [by exists a, n|set_solver|done].
    + intros ((a & n & ? & Hn & ? & ? & ?) & Hd & Hh). rewrite Hn, dom_singleton_L in Hd, Hh. exists a, n. split_and!; try done. set_solver.
Qed.

Lemma ins_ascending k v L : ascending L → ascending (ins k v L).
Proof.
  induction L as [|[k1 v1] L IH]; intros Hs; [done|]. cbn [ins].
  destruct (Z.ltb_spec k1 k); [|destruct (Z.eqb_spec k1 k) as [->|]].
  - assert (ascending L) as HL by (destruct L as [|[k2 v2] L]; [done|apply Hs]). specialize (IH HL).
    destruct L as [|[k2 v2] L]; [done|]. destruct Hs as [? _]. cbn [ins] in *.
    destruct (Z.ltb_spec k2 k); [|destruct (Z.eqb_spec k2 k) as [->|]]; cbn; (split; [lia|]); apply IH.
  - destruct L as [|[k2 v2] L]; done.
  - cbn. split; [lia|]. apply Hs.
Qed.

Lemma ins_update k v w L i : ascending L → L !! i = Some (k, w) → ins k v L = <[i := (k, v)]> L.
Proof.
  revert i. induction L as [|[k1 v1] L IH]; intros i Hs Hi; [done|]. cbn [ins]. destruct i as [|i]; cbn in Hi.
  - injection Hi as -> ->. by rewrite Z.ltb_irrefl, Z.eqb_refl.
  - pose proof (ascending_tail _ _ _ Hs) as Ht. rewrite Forall_lookup in Ht. specialize (Ht _ _ Hi). cbn in Ht.
    rewrite (proj2 (Z.ltb_lt k1 k) Ht). cbn. f_equal. apply IH; [by eapply ascending_cons|done].
Qed.

Lemma leaf_update n L i k v w :
  leaf_rep n L → L !! i = Some (k, w) →
  ∃ vs, wr (vals n) (0 + Z.of_nat i) v = Ret vs ∧
    leaf_rep (set_keys n (nkeys n) (keys n) vs) (<[i := (k, v)]> L).
Proof.
  intros [Hl Hn [jk Hk] [jv Hv] [Lk Lv] Hlk] Hi. pose proof (lookup_lt_Some _ _ _ Hi) as Hlt.
  unfold wr, zlen. rewrite decide_True by (rewrite Hv, length_app, length_fmap; cbn; lia).
  eexists. split; [reflexivity|]. replace (Z.to_nat (0 + Z.of_nat i)) with i by lia.
  split; cbn; [done| | | |by rewrite length_insert|done].
  - by rewrite Hn; unfold zlen; rewrite length_insert.
  - exists jk. rewrite Hk. f_equal. rewrite list_fmap_insert. cbn. symmetry. apply list_insert_id. by rewrite list_lookup_fmap, Hi.
  - exists jv. rewrite Hv, list_fmap_insert, insert_app_l by (by rewrite length_fmap). done.
Qed.

Lemma ins_length_new k v L : k ∉ L.*1 → length (ins k v L) = S (length L).
Proof.
  induction L as [|[k1 v1] L IH]; cbn; intros Hk; [done|]. apply not_elem_of_cons in Hk as [Hne Hk].
  destruct (k1 <? k); [cbn; by rewrite IH|]. by rewrite (proj2 (Z.eqb_neq k1 k)) by auto.
Qed.

Lemma new_leaf k v :
  ∃ ks vs, wr (keys (new_node true)) 0 k = Ret ks ∧ wr (vals (new_node true)) 0 v = Ret vs ∧
    leaf_rep (set_keys (new_node true) 1 ks vs) [(k, v)].
Proof.
  eexists _, _. split; [reflexivity|]. split; [reflexivity|]. split; try done; by exists [0; 0].
Qed.

Lemma insert_first s t B k v : bpt_rep s t [] B → ∃ s' t' rc L,
  hist_bpt_insert s (Some t) k v = Ret (s', Some t', rc) ∧
  index_step [] (Insert k v) (Ret (L, Code rc)) ∧ bpt_rep s' t' L B.
Proof.
  intros (Hr & Hn & Hh). unfold hist_bpt_insert, node_alloc. rewrite Hr, Hn.
  destruct (kcalloc_spec (heap s) B 1 SIZEOF_BP_NODE Hh) as (h & a & E & [[-> Hh']|(Ha & _ & HaB & Hh')]); [done|done|..];
    rewrite E; cbn [mbind outcome_bind].
  - eexists _, _, _, []. split; [reflexivity|]. split; [apply step_no_memory|done].
  - rewrite (proj2 (Z.eqb_neq a 0)) by lia. cbn [mbind outcome_bind]. unfold node, put. cbn [nodes heap]. rewrite lookup_insert_eq.
    cbn [mbind outcome_bind]. destruct (new_leaf k v) as (ks & vs & -> & -> & Hrep). cbn [mbind outcome_bind].
    eexists _, _, _, [(k, v)]. split; [reflexivity|]. split; [apply step_first|].
    exists a, (set_keys (new_node true) 1 ks vs). split_and!; try done; [by cbn; rewrite insert_insert_eq|cbn; lia].
Qed.

Lemma node_single s a n : nodes s = {[a := n]} → node s a = Ret n ∧ fuel_of s = 2%nat.
Proof. intros E. unfold node, fuel_of. by rewrite E, lookup_singleton_eq, map_size_singleton. Qed.

Lemma insert_more s t p L B k v : bpt_rep s t (p :: L) B →
  if decide (k ∈ (p :: L).*1 ∨ (length L < 2)%nat) then
    ∃ s', hist_bpt_insert s (Some t) k v = Ret (s', Some t, 0) ∧ bpt_rep s' t (ins k v (p :: L)) B
  else hist_bpt_insert s (Some t) k v = Fault.
Proof.
  intros (a & n & Hr & Hns & Hrep & Hs & Hlen & Ha & Hh). destruct (node_single s a n Hns) as [En Ef].
  unfold hist_bpt_insert. rewrite Hr, Ef. cbn [leaf_search]. rewrite En. cbn [mbind outcome_bind].
  rewrite (lf_leaf _ _ Hrep). cbn [mbind outcome_bind]. rewrite En. cbn [mbind outcome_bind]. clear Ef.
  destruct (lf_keys _ _ Hrep) as [j Hk]. rewrite (lf_nkeys _ _ Hrep). replace (Z.to_nat (zlen (p :: L))) with (length (p :: L)) by (unfold zlen; lia).
  pose proof (key_at_spec n k [] (p :: L) j Hk) as Ek. change (zlen []) with 0 in Ek. rewrite Ek. clear Ek. cbn [mbind outcome_bind].
  destruct (list_find _ (p :: L)) as [[i [k' w]]|] eqn:Ef.
  - apply list_find_Some in Ef as (Hi & Hk' & _). cbn in Hk'. subst k'.
    destruct (leaf_update n _ i k v w Hrep Hi) as (vs & Ew & Hrep'). rewrite Ew. cbn [mbind outcome_bind].
    rewrite decide_True by (left; apply list_elem_of_fmap; exists (k, w); split; [done|by eapply list_elem_of_lookup_2]).
    eexists. split; [reflexivity|]. rewrite (ins_update k v w _ i Hs Hi).
    assert (length (<[i:=(k, v)]> (p :: L)) ≤ 3)%nat as Hl' by (by rewrite length_insert).
    assert (ascending (<[i:=(k, v)]> (p :: L))) as Hs' by (rewrite <- (ins_update k v w) by done; by apply ins_ascending).
    destruct (<[i:=(k, v)]> (p :: L)) as [|q L'] eqn:EL; [by apply (f_equal length) in EL; rewrite length_insert in EL|].
    exists a. eexists. split_and!; [done| |exact Hrep'|done|done|done|done].
    unfold put. cbn [nodes]. rewrite Hns, <- (lf_nkeys _ _ Hrep). apply insert_singleton_eq.
  - apply list_find_None in Ef. assert (k ∉ (p :: L).*1) as Hnin.
    { intros (q & Eq & Hq)%list_elem_of_fmap. rewrite Forall_forall in Ef. by apply (Ef q Hq). }
    unfold zlen. destruct (Z.ltb_spec (Z.of_nat (length (p :: L))) BP_MAX) as [Hlt|Hge].
    + change BP_MAX with 3 in Hlt. rewrite decide_True by (right; cbn in Hlt; lia).
      destruct (leaf_insert_spec n (p :: L) k v Hrep ltac:(cbn in *; lia) Hs Hnin) as (n' & En' & Hrep'). rewrite En'. cbn [mbind outcome_bind].
      eexists. split; [reflexivity|]. pose proof (ins_ascending k v _ Hs) as Hs'. pose proof (ins_length_new k v _ Hnin) as Hl'.
      destruct (ins k v (p :: L)) as [|q L'] eqn:EL; [done|]. exists a, n'.
      split_and!; [done| |exact Hrep'|done|cbn in *; lia|done|done]. unfold put. cbn [nodes]. rewrite Hns. apply insert_singleton_eq.
    + change BP_MAX with 3 in Hge. rewrite decide_False by (intros [?|?]; [done|cbn in Hge; lia]).
      rewrite (leaf_insert_full n (p :: L) k v Hrep); [done|cbn in *; lia|done|done].
Qed.

Lemma range_spec s t L B m n : 0 ≤ n → bpt_rep s t L B →
  hist_bpt_range_from_seq s (Some t) m true n = Ret (range m n L).
Proof.
  intros Hn Hrep. unfold hist_bpt_range_from_seq. destruct L as [|p L].
  { destruct Hrep as (-> & _). unfold range. cbn. by rewrite firstn_nil. }
  destruct Hrep as (a & nd & Hr & Hns & Hrep & Hs & Hlen & Ha & Hh). rewrite Hr. cbn [negb orb].
  destruct (Z.eqb_spec n 0) as [->|]; [done|]. destruct (node_single s a nd Hns) as [En ->].
  cbn [leftmost_leaf leaves_range]. rewrite En. cbn [mbind outcome_bind]. rewrite (lf_leaf _ _ Hrep). cbn [mbind outcome_bind]. rewrite En. cbn [mbind outcome_bind].
  rewrite (lf_nkeys _ _ Hrep). replace (Z.to_nat (zlen (p :: L))) with (length (p :: L)) by (unfold zlen; lia).
  destruct (lf_keys _ _ Hrep) as [jk Hk]. destruct (lf_vals _ _ Hrep) as [jv Hv].
  pose proof (leaf_range_spec nd m (p :: L) [] jk jv n Hn Hk Hv) as El. change (zlen []) with 0 in El. rewrite El. clear El. cbn [mbind outcome_bind].
  destruct (lf_links _ _ Hrep) as [_ ->]. cbn. by rewrite app_nil_r.
Qed.

Lemma index_clear_spec s t L B : bpt_rep s t L B →
  ∃ s', hist_bpt_clear s (Some t) = Ret (s', Some {| root := None; height := 0 |}) ∧ bpt_rep s' {| root := None; height := 0 |} [] B.
Proof.
  intros Hrep. unfold hist_bpt_clear, hist_bpt_destroy. destruct L as [|p L].
  { destruct Hrep as (-> & Hn & Hh). destruct (fuel_of s); by exists s. }
  destruct Hrep as (a & nd & -> & Hns & Hrep & Hs & Hlen & Ha & Hh). destruct (node_single s a nd Hns) as [En ->].
  cbn [node_free_recursive]. rewrite En. cbn [mbind outcome_bind]. rewrite (lf_leaf _ _ Hrep). cbn [mbind outcome_bind].
  unfold free_node. rewrite Hns, lookup_singleton_eq. destruct (kfree_spec (heap s) _ a Hh ltac:(set_solver)) as (h & -> & Hh'). cbn [mbind outcome_bind].
  eexists. split; [reflexivity|]. split; [done|]. cbn. split; [apply delete_singleton_eq|].
  by replace (({[a]} ∪ B) ∖ {[a]}) with B in Hh' by set_solver.
Qed.

Lemma insert_spec s t L B k v : bpt_rep s t L B →
  (∃ s' t' rc L', hist_bpt_insert s (Some t) k v = Ret (s', Some t', rc) ∧
     index_step L (Insert k v) (Ret (L', Code rc)) ∧ bpt_rep s' t' L' B) ∨
  hist_bpt_insert s (Some t) k v = Fault ∧ index_step L (Insert k v) Fault.
Proof.
  intros Hrep. destruct L as [|p L].
  { destruct (insert_first s t B k v Hrep) as (s' & t' & rc & L' & Hi). left. by exists s', t', rc, L'. }
  pose proof (insert_more s t p L B k v Hrep) as Hi. case_decide as Hd.
  - destruct Hi as (s' & -> & Hrep'). left. eexists _, _, _, _. split; [reflexivity|]. split; [|exact Hrep'].
    destruct (decide (k ∈ (p :: L).*1)); [by apply step_update|]. apply step_insert; [done|]. destruct Hd; [done|cbn; lia].
  - rewrite Hi. right. split; [done|]. apply step_overrun; [naive_solver|].
    destruct Hrep as (_ & _ & _ & _ & _ & _ & Hlen & _). cbn in *. assert (¬ (length L < 2)%nat) by naive_solver. lia.
Qed.

Lemma bpt_step_spec s t L B o : bpt_rep s t L B → bp_op_ok o →
  (∃ s' t' L' a, bpt_step s t o = Ret (s', Some t', a) ∧ index_step L o (Ret (L', a)) ∧ bpt_rep s' t' L' B) ∨
  bpt_step s t o = Fault ∧ index_step L o Fault.
Proof.
  intros Hrep Ho. destruct o as [k v|m n|]; unfold bpt_step.
  - destruct (insert_spec s t L B k v Hrep) as [(s' & t' & rc & L' & -> & Hst & Hrep')|[-> Hst]]; [left|by right].
    by eexists _, _, _, _.
  - rewrite (range_spec s t L B m n Ho Hrep). left. eexists _, _, _, _. split; [reflexivity|]. split; [constructor|done].
  - destruct (index_clear_spec s t L B Hrep) as (s' & -> & Hrep'). left. eexists _, _, _, _. split; [reflexivity|]. split; [constructor|done].
Qed.

(** C20: every history of insertions, range queries and clears on an index just
    initialised returns what a sorted list returns, one leaf of the heap being
    its only block, until an insertion of a fourth distinct key, which writes
    past the arrays of the leaf. *)
Theorem hist_bpt_refines s ops B :
  nodes s = ∅ → kh_rep (heap s) B → Forall bp_op_ok ops →
  ∃ r, index_run [] ops r ∧
    match r with
    | Ret (L, l) => ∃ s' t', bpt_run s {| root := None; height := 0 |} ops = Ret (s', t', l) ∧ bpt_rep s' t' L B
    | _ => bpt_run s {| root := None; height := 0 |} ops = Fault
    end.
Proof.
  intros Hn Hh Hops. assert (bpt_rep s {| root := None; height := 0 |} [] B) as Hrep by done.
  revert Hrep. clear Hn Hh. generalize {| root := None; height := 0 |} as t. generalize (@nil (Z * Z)) as L. revert s.
  induction Hops as [|o ops Ho Hops IH]; intros s L t Hrep.
  { eexists. split; [constructor|]. by exists s, t. }
  cbn [bpt_run]. destruct (bpt_step_spec s t L B o Hrep Ho) as [(s' & t' & L' & a & -> & Hst & Hrep')|[-> Hst]].
  - destruct (IH s' L' t' Hrep') as (r & Hr & Hm). eexists. split; [by eapply run_cons|]. cbn [mbind outcome_bind].
    destruct r as [[L2 l]| |]; cbn [mbind outcome_bind]; [|by rewrite Hm..].
    destruct Hm as (s2 & t2 & -> & Hrep2). by exists s2, t2.
  - exists Fault. split; [by apply run_fault|done].
Qed.
End refinement.

(** ** On the kernel's heap, after boot *)

Definition demo_index : store (Slab.heap pmm_t) := {| heap := demo_heap; nodes := ∅ |}.
Definition demo_index_ops : list bp_op :=
  [Insert 7 0; Insert 5 1; Insert 7 2; RangeFrom 6 9; Insert 9 3; RangeFrom 0 2; Clear; RangeFrom 0 2; Insert 1 0; Insert 2 1; Insert 3 2].

Definition answers {S T} (o : outcome (S * T * list bp_answer)) : option (list bp_answer) :=
  match o with Ret (_, l) => Some l | _ => None end.

Lemma hist_bpt_refines_witness :
  (∃ r, index_run [] demo_index_ops r ∧
    match r with
    | Ret (L, l) => ∃ s' t', bpt_run demo_index {| root := None; height := 0 |} demo_index_ops = Ret (s', t', l) ∧ bpt_rep s' t' L ∅
    | _ => bpt_run demo_index {| root := None; height := 0 |} demo_index_ops = Fault
    end) ∧
  answers (bpt_run demo_index {| root := None; height := 0 |} demo_index_ops) =
    Some [Code 0; Code 0; Code 0; Slots [2]; Code 0; Slots [1; 2]; Done; Slots []; Code 0; Code 0; Code 0] ∧
  bpt_run demo_index {| root := None; height := 0 |} (demo_index_ops ++ [Insert 4 3]) = Fault.
Proof.
  split; [|by vm_compute]. apply (hist_bpt_refines demo_index demo_index_ops ∅); [done|exact demo_heap_rep|].
  repeat constructor; cbn; lia.
Defined.
