(* ===== verification/History.v ===== *)
(** * The message history of an agent ([src/agent/history.c])

    A ring of 4096 entries whose texts are compressed into heap blocks, bounded
    by a window of tokens, with the index of [HistBpt] from sequence numbers to
    slots. [blobs] holds the blocks of the texts by address; a block that is not
    there is not to be read or freed. Texts are the bytes before the terminator.
    A fresh block is modelled as zeroes; its bytes are written before they are
    read. The lock makes every call one step. *)

From stdpp Require Import base numbers list gmap sets.
From S2P Require Import Pmm Slab SlabHeap KernelHeap.
From S2P Require Import Prelude CMem CString CArray Ring KHeap Buf Lz4 HistBpt.
Open Scope Z_scope.

Definition HIST_SERIAL_MAGIC : Z := 0x48495354.
Definition HIST_SERIAL_MAGIC_V2 : Z := 0x32534948.
Definition SIZEOF_HIST_ENTRY : Z := 40.

Record hstore (H : Type) := { index : HistBpt.store H; blobs : gmap Z (list Z) }.
Arguments index {H}.
Arguments blobs {H}.

Definition estimate_tokens (text : list Z) : Z := u32 (u32 (zlen text) + 3) / 4.

Definition set_data (e : hist_entry) (d : option Z) : hist_entry :=
  {| timestamp := e.(timestamp); seq := e.(seq); role := e.(role); token_count := e.(token_count);
     data := d; data_len := e.(data_len); raw_len := e.(raw_len) |}.
Definition clear_counts (e : hist_entry) : hist_entry :=
  {| timestamp := e.(timestamp); seq := e.(seq); role := e.(role); token_count := 0;
     data := e.(data); data_len := 0; raw_len := 0 |}.
Definition with_ring (h : history) (r : list hist_entry) (hd tl win : Z) : history :=
  {| ring := r; head := hd; tail := tl; window_tokens := win; max_tokens := h.(max_tokens); next_seq := h.(next_seq); bpt := h.(bpt) |}.
Definition with_bpt (h : history) (t : hist_bptree) : history :=
  {| ring := h.(ring); head := h.(head); tail := h.(tail); window_tokens := h.(window_tokens); max_tokens := h.(max_tokens);
     next_seq := h.(next_seq); bpt := t |}.
Definition with_next_seq (h : history) (n : Z) : history :=
  {| ring := h.(ring); head := h.(head); tail := h.(tail); window_tokens := h.(window_tokens); max_tokens := h.(max_tokens);
     next_seq := n; bpt := h.(bpt) |}.
Definition with_max_tokens (h : history) (n : Z) : history :=
  {| ring := h.(ring); head := h.(head); tail := h.(tail); window_tokens := h.(window_tokens); max_tokens := n;
     next_seq := h.(next_seq); bpt := h.(bpt) |}.

Definition history_init (h : option history) (max : Z) : option history :=
  match h with
  | None => None
  | Some _ =>
      Some {| ring := replicate (Z.to_nat HIST_RING_SIZE) zero_entry; head := 0; tail := 0; window_tokens := 0;
              max_tokens := max; next_seq := 0; bpt := {| root := None; height := 0 |} |}
  end.

Section history.
Context {H : Type} `{KH : KHeap H}.
Implicit Types (s : hstore H) (h : history).

Definition with_heap s (hp : H) (b : gmap Z (list Z)) : hstore H :=
  {| index := {| heap := hp; nodes := s.(index).(nodes) |}; blobs := b |}.
Definition with_index s (i : HistBpt.store H) : hstore H := {| index := i; blobs := s.(blobs) |}.

Definition blob s (p : Z) : outcome (list Z) := match s.(blobs) !! p with Some d => Ret d | None => Fault end.
Definition new_blob s (n : Z) : outcome (hstore H * option Z) :=
  r ← kmalloc s.(index).(heap) n;
  let '(hp, p) := r in
  if p =? 0 then Ret (with_heap s hp s.(blobs), None)
  else Ret (with_heap s hp (<[p := replicate (Z.to_nat n) 0]> s.(blobs)), Some p).
(** [krealloc] to at most the size of the block; the null pointer is [None]. *)
Definition shrink_blob s (p n : Z) : outcome (hstore H * option Z) :=
  d ← blob s p;
  r ← krealloc s.(index).(heap) p n;
  let '(hp, q) := r in
  if q =? 0 then Ret (with_heap s hp (if n =? 0 then delete p s.(blobs) else s.(blobs)), None)
  else Ret (with_heap s hp (<[q := take (Z.to_nat n) d]> (delete p s.(blobs))), Some q).
Definition free_blob s (p : Z) : outcome (hstore H) :=
  _ ← blob s p;
  hp ← kfree s.(index).(heap) p;
  Ret (with_heap s hp (delete p s.(blobs))).

Definition entry_free s (e : hist_entry) : outcome (hstore H * hist_entry) :=
  r ← (match e.(data) with Some p => s ← free_blob s p; Ret (s, set_data e None) | None => Ret (s, e) end);
  let '(s, e) := r in Ret (s, clear_counts e).

Definition evict_oldest s h : outcome (hstore H * history) :=
  if h.(head) =? h.(tail) then Ret (s, h) else
  let idx := h.(tail) mod HIST_RING_SIZE in
  let e := h.(ring).[idx] in
  r ← entry_free s e;
  let '(s, e') := r in
  Ret (s, with_ring h (h.(ring).[idx <- e']) h.(head) (u32 (h.(tail) + 1)) (u32 (h.(window_tokens) - e.(token_count)))).

(** The two loops of [history_push] that evict, and whether they did. *)
Fixpoint evict_full (fuel : nat) s h (dirty : bool) : outcome (hstore H * history * bool) :=
  if u32 (h.(head) - h.(tail)) >=? HIST_RING_SIZE then
    match fuel with
    | O => NoFuel
    | S fuel => r ← evict_oldest s h; let '(s, h) := r in evict_full fuel s h true
    end
  else Ret (s, h, dirty).
Fixpoint evict_window (fuel : nat) s h (tok : Z) (dirty : bool) : outcome (hstore H * history * bool) :=
  if (u32 (h.(window_tokens) + tok) >? h.(max_tokens)) && (h.(head) >? h.(tail)) then
    match fuel with
    | O => NoFuel
    | S fuel => r ← evict_oldest s h; let '(s, h) := r in evict_window fuel s h tok true
    end
  else Ret (s, h, dirty).

(** The text in a block of its own: the pointer and the number of bytes stored. *)
Definition pack s (text : list Z) : outcome (hstore H * option (Z * Z)) :=
  let raw := zlen text in
  let comp_max := raw + raw / 255 + 16 in
  r ← new_blob s comp_max;
  let '(s, c) := r in
  match c with
  | None => Ret (s, None)
  | Some p =>
      d ← blob s p;
      r ← lz4_compress (Some text) raw (Some d) comp_max;
      match r with
      | (None, _) => Fault
      | (Some d, n) =>
          r ← (if n <=? 0 then d ← Buf.wr d 0 text; Ret (d, raw) else Ret (d, n));
          let '(d, n) := r in
          r ← shrink_blob {| index := s.(index); blobs := <[p := d]> s.(blobs) |} p n;
          let '(s, q) := r in
          Ret (s, Some (default p q, n))
      end
  end.

Definition insert_entry s h (rl : Z) (now tok p comp_len raw : Z) : outcome (hstore H * history) :=
  let idx := h.(head) mod HIST_RING_SIZE in
  r ← entry_free s (h.(ring).[idx]);
  let '(s, _) := r in
  let e := {| timestamp := now; seq := h.(next_seq); role := rl; token_count := tok; data := Some p;
              data_len := u32 comp_len; raw_len := u32 raw |} in
  let h := with_next_seq (with_ring h (h.(ring).[idx <- e]) (u32 (h.(head) + 1)) h.(tail) (u32 (h.(window_tokens) + tok)))
             (u64 (h.(next_seq) + 1)) in
  r ← hist_bpt_insert s.(index) (Some h.(bpt)) e.(seq) idx;
  match r with
  | (i, Some t, _) => Ret (with_index s i, with_bpt h t)
  | _ => Fault
  end.

Definition rebuild s h : outcome (hstore H * history) :=
  r ← hist_bpt_rebuild s.(index) (Some h.(bpt)) (Some h);
  match r with
  | (i, Some t) => Ret (with_index s i, with_bpt h t)
  | _ => Fault
  end.

Definition history_push s (ho : option history) (rl : Z) (text : option (list Z)) (now : Z)
    : outcome (hstore H * option history * Z) :=
  match ho, text with
  | Some h, Some text =>
      let tok := estimate_tokens text in
      r ← pack s text;
      let '(s, c) := r in
      match c with
      | None => Ret (s, Some h, - ENOMEM)
      | Some (p, n) =>
          r ← evict_full (S (length h.(ring))) s h false;
          let '(s, h, dirty) := r in
          r ← evict_window (S (Z.to_nat (h.(head) - h.(tail)))) s h tok dirty;
          let '(s, h, dirty) := r in
          r ← (if dirty : bool then rebuild s h else Ret (s, h));
          let '(s, h) := r in
          r ← insert_entry s h rl now tok p n (zlen text);
          let '(s, h) := r in
          Ret (s, Some h, 0)
      end
  | _, _ => Ret (s, ho, - EINVAL)
  end.

(** The decoded text, or else the stored bytes as they are: the output buffer and
    the number of bytes. *)
Definition unpack s (p : Z) (e : hist_entry) (out : list Z) (buf_size copy_max : Z) : outcome (list Z * Z) :=
  d ← blob s p;
  r ← lz4_decompress (Some d) e.(data_len) (Some out) (Z.min (buf_size - 1) e.(raw_len));
  match r with
  | (None, _) => Fault
  | (Some out, n) =>
      if n <=? 0 then
        let c := Z.min e.(data_len) copy_max in
        l ← rd_block d 0 c; out ← Buf.wr out 0 l; Ret (out, c)
      else Ret (out, n)
  end.

(** The result and the contents of the output buffer. *)
Definition history_get s (ho : option history) (i : Z) (out : option (list Z)) (buf_size : Z)
    : outcome (Z * option (list Z)) :=
  match ho, out with
  | Some h, Some out =>
      if buf_size =? 0 then Ret (- EINVAL, Some out) else
      if i >=? u32 (h.(head) - h.(tail)) then Ret (- ENOENT, Some out) else
      let e := h.(ring).[u32 (h.(tail) + i) mod HIST_RING_SIZE] in
      match e.(data) with
      | None => Ret (- ENOENT, Some out)
      | Some p =>
          if e.(data_len) =? 0 then Ret (- ENOENT, Some out) else
          r ← unpack s p e out buf_size (u32 (buf_size - 1));
          let '(out, n) := r in
          out ← Buf.wr out n [0]; Ret (n, Some out)
      end
  | _, _ => Ret (- EINVAL, out)
  end.

(** The copied entries, in a block of the caller, and [*out_count]. *)
Definition history_get_recent s (ho : option history) (count : Z) : outcome (hstore H * option (Z * list hist_entry) * Z) :=
  match ho with
  | None => Ret (s, None, 0)
  | Some h =>
      let total := u32 (h.(head) - h.(tail)) in
      let n := if count >? total then total else count in
      r ← kmalloc s.(index).(heap) (n * SIZEOF_HIST_ENTRY);
      let '(hp, p) := r in
      let s := with_heap s hp s.(blobs) in
      if p =? 0 then Ret (s, None, 0) else
      Ret (s, Some (p, (λ i, h.(ring).[u32 (h.(head) - n + i) mod HIST_RING_SIZE]) <$> seqZ 0 n), n)
  end.

Definition history_count (ho : option history) : Z :=
  match ho with None => 0 | Some h => u32 (h.(head) - h.(tail)) end.

Fixpoint drop_newest (n : nat) s h : outcome (hstore H * history) :=
  match n with
  | O => Ret (s, h)
  | S n =>
      if h.(head) <=? h.(tail) then Ret (s, h) else
      let hd := u32 (h.(head) - 1) in
      let idx := hd mod HIST_RING_SIZE in
      let e := h.(ring).[idx] in
      r ← entry_free s e;
      let '(s, _) := r in
      drop_newest n s (with_ring h (h.(ring).[idx <- zero_entry]) hd h.(tail) (u32 (h.(window_tokens) - e.(token_count))))
  end.
Definition history_truncate_keep s (ho : option history) (keep : Z) : outcome (hstore H * option history * Z) :=
  match ho with
  | None => Ret (s, None, - EINVAL)
  | Some h =>
      let total := u32 (h.(head) - h.(tail)) in
      if keep >=? total then Ret (s, Some h, 0) else
      r ← drop_newest (Z.to_nat (total - keep)) s h;
      let '(s, h) := r in
      r ← rebuild s h;
      let '(s, h) := r in Ret (s, Some h, 0)
  end.

Fixpoint evict_all (fuel : nat) s h : outcome (hstore H * history) :=
  if h.(head) >? h.(tail) then
    match fuel with
    | O => NoFuel
    | S fuel => r ← evict_oldest s h; let '(s, h) := r in evict_all fuel s h
    end
  else Ret (s, h).
Definition history_clear s (ho : option history) : outcome (hstore H * option history) :=
  match ho with
  | None => Ret (s, None)
  | Some h =>
      r ← evict_all (S (Z.to_nat (h.(head) - h.(tail)))) s h;
      let '(s, h) := r in
      r ← hist_bpt_clear s.(index) (Some h.(bpt));
      match r with
      | (i, Some t) => Ret (with_index s i, Some (with_bpt (with_next_seq (with_ring h h.(ring) 0 0 0) 0) t))
      | _ => Fault
      end
  end.

Definition history_get_window_tokens (ho : option history) : Z := match ho with Some h => h.(window_tokens) | None => 0 end.
Definition history_seq_at (ho : option history) (i : Z) : Z :=
  match ho with
  | None => 0
  | Some h =>
      if i >=? u32 (h.(head) - h.(tail)) then 0 else (h.(ring).[u32 (h.(tail) + i) mod HIST_RING_SIZE]).(seq)
  end.

(** The positions from [i] on whose text contains the keyword; the buffer [buf]
    is replaced when it is too small. *)
Fixpoint search_from (n : nat) s h (keyword : list Z) (i found max_results buf buf_size : Z)
    : outcome (hstore H * option Z * list Z) :=
  match n with
  | O => Ret (s, Some buf, [])
  | S n =>
      if negb (found <? max_results) then Ret (s, Some buf, []) else
      let e := h.(ring).[u32 (h.(tail) + i) mod HIST_RING_SIZE] in
      match e.(data) with
      | None => search_from n s h keyword (i + 1) found max_results buf buf_size
      | Some p =>
          r ← (if u32 (e.(raw_len) + 1) >? buf_size then
                 s ← free_blob s buf;
                 r ← new_blob s (u32 (e.(raw_len) + 1));
                 let '(s, b) := r in Ret (s, b, u32 (e.(raw_len) + 1))
               else Ret (s, Some buf, buf_size));
          let '(s, b, buf_size) := r in
          match b with
          | None => Ret (s, None, [])
          | Some buf =>
              out ← blob s buf;
              r ← unpack s p e out buf_size (buf_size - 1);
              let '(out, len) := r in
              out ← Buf.wr out len [0];
              let s := {| index := s.(index); blobs := <[buf := out]> s.(blobs) |} in
              let hit := strstr_arr (cstr out) keyword in
              r ← search_from n s h keyword (i + 1) (if hit then found + 1 else found) max_results buf buf_size;
              let '(s, b, l) := r in Ret (s, b, if hit then i :: l else l)
          end
      end
  end.
Definition history_search s (ho : option history) (keyword : option (list Z)) (results : bool) (max_results : Z)
    : outcome (hstore H * Z * list Z) :=
  match ho, keyword with
  | Some h, Some k =>
      if negb results then Ret (s, - EINVAL, []) else
      r ← new_blob s 8192;
      let '(s, b) := r in
      match b with
      | None => Ret (s, - ENOMEM, [])
      | Some buf =>
          r ← search_from (Z.to_nat (u32 (h.(head) - h.(tail)))) s h k 0 0 max_results buf 8192;
          let '(s, b, l) := r in
          s ← (match b with Some buf => free_blob s buf | None => Ret s end);
          Ret (s, zlen l, l)
      end
  | _, _ => Ret (s, - EINVAL, [])
  end.

(** ** The image of a history

    [magic count max_tokens window_tokens next_seq], then for each entry
    [timestamp seq role token_count raw_len data_len data]. *)

Definition put (buf : list Z) (p : Z) (l : list Z) : outcome (list Z * Z) :=
  buf ← Buf.wr buf p l; Ret (buf, p + zlen l).
Definition serialize_entry s (e : hist_entry) (buf : list Z) (p : Z) : outcome (list Z * Z) :=
  r ← put buf p (le_bytes 8 e.(timestamp)); let '(buf, p) := r in
  r ← put buf p (le_bytes 8 e.(seq)); let '(buf, p) := r in
  r ← put buf p [e.(role)]; let '(buf, p) := r in
  r ← put buf p (le_bytes 4 e.(token_count)); let '(buf, p) := r in
  r ← put buf p (le_bytes 4 e.(raw_len)); let '(buf, p) := r in
  r ← put buf p (le_bytes 4 e.(data_len)); let '(buf, p) := r in
  match e.(data) with
  | Some a => if e.(data_len) >? 0 then d ← blob s a; l ← rd_block d 0 e.(data_len); put buf p l else Ret (buf, p)
  | None => Ret (buf, p)
  end.
Fixpoint serialize_from (n : nat) s h (i : Z) (buf : list Z) (p : Z) : outcome (list Z * Z) :=
  match n with
  | O => Ret (buf, p)
  | S n =>
      r ← serialize_entry s (h.(ring).[u32 (h.(tail) + i) mod HIST_RING_SIZE]) buf p;
      let '(buf, p) := r in serialize_from n s h (i + 1) buf p
  end.
Fixpoint needed_from (n : nat) h (i : Z) : Z :=
  match n with O => 0 | S n => 29 + (h.(ring).[u32 (h.(tail) + i) mod HIST_RING_SIZE]).(data_len) + needed_from n h (i + 1) end.
(** The result and the buffer. *)
Definition history_serialize s (ho : option history) (buf : option (list Z)) (size : Z) : outcome (Z * option (list Z)) :=
  match ho, buf with
  | Some h, Some buf =>
      let count := u32 (h.(head) - h.(tail)) in
      let needed := 24 + needed_from (Z.to_nat count) h 0 in
      if size <? needed then Ret (needed, Some buf) else
      r ← put buf 0 (le_bytes 4 HIST_SERIAL_MAGIC_V2); let '(buf, p) := r in
      r ← put buf p (le_bytes 4 count); let '(buf, p) := r in
      r ← put buf p (le_bytes 4 h.(max_tokens)); let '(buf, p) := r in
      r ← put buf p (le_bytes 4 h.(window_tokens)); let '(buf, p) := r in
      r ← put buf p (le_bytes 8 h.(next_seq)); let '(buf, p) := r in
      r ← serialize_from (Z.to_nat count) s h 0 buf p; let '(buf, p) := r in
      Ret (p, Some buf)
  | _, _ => Ret (- EINVAL, buf)
  end.

Definition get (buf : list Z) (p n : Z) : outcome Z := l ← rd_block buf p n; Ret (le_val l).
(** The entries from [p] on; [v2] is the version with sequence numbers. *)
Fixpoint deserialize_from (n : nat) s h (v2 : bool) (buf : list Z) (size p : Z) : outcome (hstore H * history) :=
  match n with
  | O => Ret (s, h)
  | S n =>
      if p + (if v2 then 29 else 21) >? size then Ret (s, h) else
      ts ← get buf p 8; let p := p + 8 in
      sq ← (if v2 then get buf p 8 else Ret 0); let p := if v2 then p + 8 else p in
      rl ← get buf p 1; let p := p + 1 in
      tok ← get buf p 4; let p := p + 4 in
      raw ← get buf p 4; let p := p + 4 in
      len ← get buf p 4; let p := p + 4 in
      if p + len >? size then Ret (s, h) else
      let idx := h.(head) mod HIST_RING_SIZE in
      r ← entry_free s (h.(ring).[idx]);
      let '(s, _) := r in
      let h := if v2 then h else with_next_seq h (u64 (h.(next_seq) + 1)) in
      let sq := if v2 then sq else u64 (h.(next_seq) - 1) in
      r ← new_blob s len;
      let '(s, d) := r in
      s ← (match d with
           | Some a => if len >? 0 then l ← rd_block buf p len; Ret {| index := s.(index); blobs := <[a := l]> s.(blobs) |} else Ret s
           | None => Ret s
           end);
      let e := {| timestamp := ts; seq := sq; role := rl; token_count := tok; data := d; data_len := len; raw_len := raw |} in
      let h := with_ring h (h.(ring).[idx <- e]) (u32 (h.(head) + 1)) h.(tail) (u32 (h.(window_tokens) + tok)) in
      r ← hist_bpt_insert s.(index) (Some h.(bpt)) sq idx;
      match r with
      | (i, Some t, _) => deserialize_from n (with_index s i) (with_bpt h t) v2 buf size (p + len)
      | _ => Fault
      end
  end.
Definition history_deserialize s (ho : option history) (buf : option (list Z)) (size : Z)
    : outcome (hstore H * option history * Z) :=
  match ho, buf with
  | Some h, Some buf =>
      if size <? 16 then Ret (s, Some h, - EINVAL) else
      magic ← get buf 0 4;
      let v2 := magic =? HIST_SERIAL_MAGIC_V2 in
      if negb (magic =? HIST_SERIAL_MAGIC) && negb v2 then Ret (s, Some h, - EINVAL) else
      count ← get buf 4 4;
      max_tok ← get buf 8 4;
      _ ← get buf 12 4;
      r ← history_clear s (Some h);
      match r with
      | (s, Some h) =>
          let h := with_max_tokens h max_tok in
          if v2 then
            if 16 + 8 >? size then Ret (s, Some h, - EINVAL) else
            ns ← get buf 16 8;
            r ← deserialize_from (Z.to_nat count) s (with_next_seq h ns) true buf size 24;
            let '(s, h) := r in Ret (s, Some h, 0)
          else
            r ← deserialize_from (Z.to_nat count) s h false buf size 16;
            let '(s, h) := r in Ret (s, Some h, 0)
      | (s, None) => Fault
      end
  | _, _ => Ret (s, ho, - EINVAL)
  end.
End history.

(** ** The history as a list of messages *)

(** A message: [m_code] are the bytes that are stored for its text. *)
Record msg := { m_time : Z; m_seq : Z; m_role : Z; m_tokens : Z; m_text : list Z; m_code : list Z }.

(** What the decoder makes of the stored bytes: the text, if it accepts them and
    the buffer is large enough, and otherwise nothing. *)
Definition packs (text code : list Z) : Prop :=
  ∀ blk out cap, take (length code) blk = code → 0 ≤ cap ≤ zlen out →
    ∃ out' m, lz4_decompress (Some blk) (zlen code) (Some out) cap = Ret (Some out', m) ∧ zlen out' = zlen out ∧
      if accepted code (zlen text) && (zlen text <=? cap) then m = zlen text ∧ take (length text) out' = text else m = -1.
Record msg_ok (m : msg) : Prop := {
  mo_text : bytes_ok (m_text m) ∧ 0 < zlen (m_text m) ≤ KMALLOC_MAX;
  mo_code : bytes_ok (m_code m) ∧ 0 < zlen (m_code m) < 2 ^ 31;
  mo_packs : packs (m_text m) (m_code m);
  mo_tokens : m_tokens m = estimate_tokens (m_text m);
}.
Definition tokens (M : list msg) : Z := foldr (λ m n, m_tokens m + n) 0 M.
Definition slot (base : Z) (i : nat) : Z := (base + Z.of_nat i) mod HIST_RING_SIZE.

(** Pushing to a full window drops the oldest messages. *)
Fixpoint evict (max tok : Z) (M : list msg) : list msg :=
  match M with
  | [] => []
  | _ :: M' => if (zlen M >=? HIST_RING_SIZE) || (tokens M + tok >? max) then evict max tok M' else M
  end.
Fixpoint inserts (base : Z) (i : nat) (M : list msg) : list bp_op :=
  match M with [] => [] | m :: M => Insert (m_seq m) (slot base i) :: inserts base (S i) M end.

Record abs := { a_base : Z; a_msgs : list msg; a_index : list (Z * Z); a_max : Z; a_next : Z }.
Inductive hop := Push (rl : Z) (text : list Z) (now : Z) | Get (i : Z) (out : list Z) | Count | Tokens | SeqAt (i : Z)
  | Truncate (keep : Z) | Wipe.
Inductive hans := Rc (rc : Z) | Got (rc : Z) (l : list Z) | Num (n : Z) | Void.

(** What a reader gets: the text and its terminator, or as much of the stored
    bytes as fit when the text does not or when the decoder rejects them. *)
Definition reading (m : msg) (size : Z) : list Z :=
  if accepted (m_code m) (zlen (m_text m)) && (zlen (m_text m) <=? size - 1) then m_text m
  else take (Z.to_nat (size - 1)) (m_code m).

Inductive hist_step : abs → hop → outcome (abs * hans) → Prop :=
| push_no_memory a rl text now : hist_step a (Push rl text now) (Ret (a, Rc (- ENOMEM)))
| push_stored a rl text now code r :
    let m := {| m_time := now; m_seq := a_next a; m_role := rl; m_tokens := estimate_tokens text; m_text := text; m_code := code |} in
    let M := evict (a_max a) (m_tokens m) (a_msgs a) in
    let n := (length (a_msgs a) - length M)%nat in
    let base := a_base a + Z.of_nat n in
    msg_ok m →
    index_run (a_index a) ((if decide (n = 0%nat) then [] else Clear :: inserts base 0 M) ++ [Insert (m_seq m) (slot base (length M))]) r →
    hist_step a (Push rl text now)
      ('(L, _) ← r; Ret ({| a_base := base; a_msgs := M ++ [m]; a_index := L; a_max := a_max a; a_next := u64 (a_next a + 1) |}, Rc 0))
| get_past_end a i out : zlen (a_msgs a) ≤ i → hist_step a (Get i out) (Ret (a, Got (- ENOENT) out))
| get_text a i m out : 0 ≤ i → a_msgs a !! Z.to_nat i = Some m →
    hist_step a (Get i out) (Ret (a, Got (zlen (reading m (zlen out))) (reading m (zlen out) ++ [0])))
| count_msgs a : hist_step a Count (Ret (a, Num (zlen (a_msgs a))))
| sum_tokens a : hist_step a Tokens (Ret (a, Num (tokens (a_msgs a))))
| seq_at a i : hist_step a (SeqAt i) (Ret (a, Num (match a_msgs a !! Z.to_nat i with Some m => m_seq m | None => 0 end)))
| truncate_none a k : zlen (a_msgs a) ≤ k → hist_step a (Truncate k) (Ret (a, Rc 0))
| truncate_some a k r : 0 ≤ k < zlen (a_msgs a) →
    index_run (a_index a) (Clear :: inserts (a_base a) 0 (take (Z.to_nat k) (a_msgs a))) r →
    hist_step a (Truncate k)
      ('(L, _) ← r; Ret ({| a_base := a_base a; a_msgs := take (Z.to_nat k) (a_msgs a); a_index := L; a_max := a_max a; a_next := a_next a |}, Rc 0))
| wipe a : hist_step a Wipe (Ret ({| a_base := 0; a_msgs := []; a_index := []; a_max := a_max a; a_next := 0 |}, Void)).

Inductive hist_run : abs → list hop → outcome (abs * list hans) → Prop :=
| hrun_nil a : hist_run a [] (Ret (a, []))
| hrun_cons a o ops a' x r : hist_step a o (Ret (a', x)) → hist_run a' ops r → hist_run a (o :: ops) ('(a'', l) ← r; Ret (a'', x :: l))
| hrun_fault a o ops : hist_step a o Fault → hist_run a (o :: ops) Fault.

Definition hop_ok (o : hop) : Prop :=
  match o with
  | Push _ text _ => bytes_ok text ∧ text ≠ [] ∧ zlen text < 2 ^ 31
  | Get i out => 0 ≤ i ∧ 0 < zlen out < 2 ^ 32
  | SeqAt i | Truncate i => 0 ≤ i
  | _ => True
  end.

Section refinement.
Context {H : Type} `{KH : KHeap H}.
Implicit Types (s : hstore H) (h : history).

Definition call s h (o : hop) : outcome (hstore H * option history * hans) :=
  match o with
  | Push rl text now => r ← history_push s (Some h) rl (Some text) now; let '(s, h, rc) := r in Ret (s, h, Rc rc)
  | Get i out =>
      r ← history_get s (Some h) i (Some out) (zlen out);
      match r with
      | (rc, Some out) => Ret (s, Some h, Got rc (if rc <? 0 then out else take (S (Z.to_nat rc)) out))
      | _ => Fault
      end
  | Count => Ret (s, Some h, Num (history_count (Some h)))
  | Tokens => Ret (s, Some h, Num (history_get_window_tokens (Some h)))
  | SeqAt i => Ret (s, Some h, Num (history_seq_at (Some h) i))
  | Truncate k => r ← history_truncate_keep s (Some h) k; let '(s, h, rc) := r in Ret (s, h, Rc rc)
  | Wipe => r ← history_clear s (Some h); let '(s, h) := r in Ret (s, h, Void)
  end.
Fixpoint calls s h (ops : list hop) : outcome (hstore H * history * list hans) :=
  match ops with
  | [] => Ret (s, h, [])
  | o :: ops =>
      r ← call s h o;
      match r with
      | (s, Some h, x) => r ← calls s h ops; let '(s, h, l) := r in Ret (s, h, x :: l)
      | (_, None, _) => Fault
      end
  end.

Definition mem_ok s (t : hist_bptree) (L : list (Z * Z)) (B : gset Z) : Prop :=
  bpt_rep s.(index) t L (dom s.(blobs) ∪ B) ∧ dom s.(blobs) ## B.

Lemma mem_ok_heap s t L B : mem_ok s t L B ↔
  tree_rep (nodes s.(index)) t L ∧ dom (nodes s.(index)) ## dom s.(blobs) ∪ B ∧ dom s.(blobs) ## B ∧
  kh_rep (heap s.(index)) (dom (nodes s.(index)) ∪ (dom s.(blobs) ∪ B)).
Proof. unfold mem_ok. rewrite bpt_rep_split. naive_solver. Qed.

Lemma new_blob_spec s t L B n : mem_ok s t L B → 0 ≤ n < 2 ^ 64 →
  ∃ s' r, new_blob s n = Ret (s', r) ∧ mem_ok s' t L B ∧
    match r with
    | None => blobs s' = blobs s
    | Some p => 0 < n ≤ KMALLOC_MAX ∧ blobs s !! p = None ∧ blobs s' = <[p := replicate (Z.to_nat n) 0]> (blobs s) ∧ p ≠ 0
    end.
Proof.
  intros (Ht & Hd & Hb & Hh)%mem_ok_heap Hn. unfold new_blob.
  destruct (kmalloc_spec (heap (index s)) _ n Hh Hn) as (h' & p & -> & [[-> Hh']|(Hp & Hsz & Hf & Hh')]); cbn [mbind outcome_bind].
  - eexists _, None. split; [reflexivity|]. split; [|done]. by apply mem_ok_heap.
  - rewrite (proj2 (Z.eqb_neq p 0)) by lia. eexists _, (Some p). split; [reflexivity|]. split.
    + apply mem_ok_heap. cbn [index blobs with_heap nodes heap]. rewrite dom_insert_L. split_and!; [done|set_solver|set_solver|].
      eapply eq_rect; [exact Hh'|]. set_solver.
    + split_and!; [lia|lia|apply not_elem_of_dom; set_solver|done|lia].
Qed.

Lemma blob_some s p d : blobs s !! p = Some d → blob s p = Ret d.
Proof. intros E. unfold blob. by rewrite E. Qed.

Lemma shrink_blob_spec s t L B p d n : mem_ok s t L B → blobs s !! p = Some d → 0 < n < 2 ^ 64 →
  ∃ s' r, shrink_blob s p n = Ret (s', r) ∧ mem_ok s' t L B ∧
    match r with
    | None => blobs s' = blobs s
    | Some q => (q = p ∨ blobs s !! q = None) ∧ blobs s' = <[q := take (Z.to_nat n) d]> (delete p (blobs s))
    end.
Proof.
  intros (Ht & Hd & Hb & Hh)%mem_ok_heap Ep Hn. unfold shrink_blob. rewrite (blob_some s p d Ep). cbn [mbind outcome_bind].
  assert (p ∈ dom (blobs s)) as Hp by (apply elem_of_dom; by eexists).
  destruct (krealloc_spec (heap (index s)) _ p n Hh ltac:(set_solver) Hn) as (h' & q & -> & [[-> Hh']|(Hq & Hf & Hh')]); cbn [mbind outcome_bind].
  - rewrite (proj2 (Z.eqb_neq n 0)) by lia. eexists _, None. split; [reflexivity|]. split; [|done]. by apply mem_ok_heap.
  - rewrite (proj2 (Z.eqb_neq q 0)) by lia. eexists _, (Some q). split; [reflexivity|]. split.
    + apply mem_ok_heap. cbn [index blobs with_heap nodes heap]. rewrite dom_insert_L, dom_delete_L.
      assert (q ∉ dom (nodes (index s)) ∧ q ∉ B) as [? ?] by (destruct Hf as [->|?]; set_solver).
      split_and!; [done|set_solver|set_solver|]. eapply eq_rect; [exact Hh'|]. apply set_eq. intros x.
      destruct (decide (x = p)) as [->|]; set_solver.
    + split; [|done]. destruct Hf as [->|Hf]; [by left|right]. apply not_elem_of_dom. set_solver.
Qed.

Lemma blob_free_spec s t L B p d : mem_ok s t L B → blobs s !! p = Some d →
  ∃ s', free_blob s p = Ret s' ∧ mem_ok s' t L B ∧ blobs s' = delete p (blobs s).
Proof.
  intros (Ht & Hd & Hb & Hh)%mem_ok_heap Ep. unfold free_blob. rewrite (blob_some s p d Ep). cbn [mbind outcome_bind].
  assert (p ∈ dom (blobs s)) as Hp by (apply elem_of_dom; by eexists).
  destruct (kfree_spec (heap (index s)) _ p Hh ltac:(set_solver)) as (h' & -> & Hh'). cbn [mbind outcome_bind].
  eexists. split; [reflexivity|]. split; [|done]. apply mem_ok_heap. cbn [index blobs with_heap nodes heap]. rewrite dom_delete_L.
  split_and!; [done|set_solver|set_solver|]. eapply eq_rect; [exact Hh'|]. apply set_eq. intros x.
  destruct (decide (x = p)) as [->|]; set_solver.
Qed.

Lemma pack_spec s t L B text : mem_ok s t L B → bytes_ok text → text ≠ [] → zlen text < 2 ^ 31 →
  ∃ s' r, pack s text = Ret (s', r) ∧ mem_ok s' t L B ∧
    match r with
    | None => blobs s' = blobs s
    | Some (q, n) => ∃ blk code, blobs s !! q = None ∧ blobs s' = <[q := blk]> (blobs s) ∧ take (length code) blk = code ∧
        n = zlen code ∧ 0 < zlen code < 2 ^ 31 ∧ bytes_ok code ∧ packs text code ∧ 0 < zlen text ≤ KMALLOC_MAX
    end.
Proof.
  intros Hm Hb Hne Hlen. unfold pack. assert (0 < zlen text) as Hpos by (destruct text; [done|unfold zlen; cbn; lia]).
  assert (0 ≤ zlen text / 255) as Hd by (apply Z.div_pos; lia).
  assert (zlen text / 255 ≤ zlen text) as Hd2 by (apply Z.div_le_upper_bound; lia).
  destruct (new_blob_spec s t L B (zlen text + zlen text / 255 + 16) Hm ltac:(lia)) as (s1 & [p|] & -> & Hm1 & H1);
    cbn [mbind outcome_bind]; [|by exists s1, None].
  destruct H1 as (Hsz & Hf & E1 & _). rewrite (blob_some s1 p _ ltac:(rewrite E1; apply lookup_insert_eq)). cbn [mbind outcome_bind].
  set (dst := replicate _ 0). assert (zlen dst = zlen text + zlen text / 255 + 16) as Ez.
  { unfold dst, zlen. rewrite length_replicate. fold (zlen text). lia. }
  unfold KMALLOC_MAX in *. rewrite <- Ez.
  destruct (lz4_pack text dst Hb) as (d & code & -> & Ed & Hc & Ht & Hcb & Hp); [unfold LZ4_MAX_INPUT_SIZE; lia|unfold room; lia|].
  cbn [mbind outcome_bind]. destruct (Z.leb_spec (zlen code) 0); [lia|]. cbn [mbind outcome_bind].
  set (s2 := {| index := index s1; blobs := <[p := d]> (blobs s1) |}).
  assert (mem_ok s2 t L B) as Hm2.
  { unfold mem_ok, s2 in *. cbn [index blobs]. rewrite dom_insert_L. rewrite E1, dom_insert_L in Hm1 |- *.
    by replace ({[p]} ∪ ({[p]} ∪ dom (blobs s))) with ({[p]} ∪ dom (blobs s)) by set_solver. }
  destruct (shrink_blob_spec s2 t L B p d (zlen code) Hm2 ltac:(apply lookup_insert_eq) ltac:(lia)) as (s3 & [q|] & -> & Hm3 & H3);
    cbn [mbind outcome_bind default]; eexists s3, (Some _); (split; [reflexivity|]); (split; [done|]).
  - destruct H3 as [Hq E3]. exists code, code. unfold s2 in *. cbn [blobs] in *. rewrite E1 in *.
    assert (take (Z.to_nat (zlen code)) d = code) as Etk by (unfold zlen; by rewrite Nat2Z.id).
    rewrite Etk, !delete_insert_eq, delete_id in E3 by done.
    split_and!; try done; [|by rewrite take_ge|lia..].
    destruct Hq as [->|Hq]; [done|]. rewrite insert_insert_eq in Hq. apply lookup_insert_None in Hq. naive_solver.
  - exists d, code. unfold s2 in H3. cbn [blobs] in H3. rewrite E1, insert_insert_eq in H3. split_and!; try done; lia.
Qed.

(** The slots of the ring from the tail on hold the messages with the addresses
    of their blocks; the others are empty. [X] are blocks that no slot refers to yet. *)
Definition entry_of (m : msg) (p : Z) : hist_entry :=
  {| timestamp := m_time m; seq := m_seq m; role := m_role m; token_count := m_tokens m; data := Some p;
     data_len := zlen (m_code m); raw_len := zlen (m_text m) |}.
Definition slot_ok (o : option (msg * Z)) (e : hist_entry) : Prop :=
  match o with Some (m, p) => e = entry_of m p | None => data e = None end.
Record hist_rep s h (MP : list (msg * Z)) (X : gmap Z (list Z)) (L : list (Z * Z)) (B : gset Z) : Prop := {
  hr_mem : mem_ok s (bpt h) L B;
  hr_ring : zlen (ring h) = HIST_RING_SIZE;
  hr_ends : 0 ≤ tail h ∧ head h = tail h + zlen MP ∧ head h < 2 ^ 32 ∧ zlen MP ≤ HIST_RING_SIZE;
  hr_slots : ∀ k : nat, Z.of_nat k < HIST_RING_SIZE → slot_ok (MP !! k) ((ring h).[slot (tail h) k]);
  hr_blobs : NoDup MP.*2 ∧ dom (blobs s) = list_to_set MP.*2 ∪ dom X ∧ dom X ## list_to_set MP.*2 ∧ X ⊆ blobs s;
  hr_codes : ∀ m p, (m, p) ∈ MP → ∃ blk, blobs s !! p = Some blk ∧ take (length (m_code m)) blk = m_code m;
  hr_msgs : Forall msg_ok MP.*1;
  hr_tokens : window_tokens h = tokens MP.*1;
}.
Definition same_rest h h' : Prop := max_tokens h' = max_tokens h ∧ next_seq h' = next_seq h ∧ bpt h' = bpt h.

Lemma slot_range base k : 0 ≤ slot base k < HIST_RING_SIZE.
Proof. unfold slot. apply Z.mod_pos_bound. reflexivity. Qed.

Lemma ring_slot_inj base i j :
  Z.of_nat i < HIST_RING_SIZE → Z.of_nat j < HIST_RING_SIZE → slot base i = slot base j → i = j.
Proof.
  unfold slot, HIST_RING_SIZE. intros Hi Hj E. pose proof (Z.div_mod (base + Z.of_nat i) 4096). pose proof (Z.div_mod (base + Z.of_nat j) 4096). lia.
Qed.

Lemma slot_next base k : slot (base + 1) k = slot base (S k).
Proof. unfold slot. f_equal. lia. Qed.

Lemma aget_slot (r : list hist_entry) base i k x :
  zlen r = HIST_RING_SIZE → Z.of_nat i < HIST_RING_SIZE → Z.of_nat k < HIST_RING_SIZE →
  (r.[slot base i <- x]).[slot base k] = if decide (k = i) then x else r.[slot base k].
Proof.
  intros Hr Hi Hk. rewrite aget_aset by (rewrite ?Hr; apply slot_range).
  destruct (decide (k = i)) as [->|Hne]; [by rewrite decide_True|]. rewrite decide_False; [done|].
  intros E. apply Hne. symmetry. by apply (ring_slot_inj base i k).
Qed.

Lemma tokens_app M M' : tokens (M ++ M') = tokens M + tokens M'.
Proof. unfold tokens. induction M as [|m M IH]; cbn; [done|]. rewrite IH. lia. Qed.

Lemma estimate_bound text : zlen text ≤ KMALLOC_MAX → 0 ≤ estimate_tokens text ≤ 16384.
Proof.
  unfold estimate_tokens, KMALLOC_MAX. intros Hl. assert (0 ≤ zlen text) by (unfold zlen; lia).
  rewrite !wrap_id by (rewrite ?wrap_id; lia). split; [apply Z.div_pos; lia|]. apply Z.lt_succ_r, Z.div_lt_upper_bound; lia.
Qed.

Lemma tokens_bound M : Forall msg_ok M → 0 ≤ tokens M ≤ 16384 * zlen M.
Proof.
  induction 1 as [|m M [Ht _ _ Hk] HM IH]; [done|]. unfold tokens in *. cbn [foldr]. unfold zlen in *. cbn [length].
  pose proof (estimate_bound (m_text m) ltac:(apply Ht)). lia.
Qed.

Lemma entry_free_spec s t L B m p blk : mem_ok s t L B → blobs s !! p = Some blk →
  ∃ s', entry_free s (entry_of m p) = Ret (s', clear_counts (set_data (entry_of m p) None)) ∧ mem_ok s' t L B ∧ blobs s' = delete p (blobs s).
Proof.
  intros Hm Ep. unfold entry_free. cbn [data entry_of]. destruct (blob_free_spec s t L B p blk Hm Ep) as (s' & -> & Hm' & E').
  exists s'. done.
Qed.

Lemma blobs_delete (b X : gmap Z (list Z)) (P : list Z) p :
  NoDup (p :: P) → dom b = list_to_set (p :: P) ∪ dom X → dom X ## list_to_set (p :: P) → X ⊆ b →
  dom (delete p b) = list_to_set P ∪ dom X ∧ dom X ## list_to_set P ∧ X ⊆ delete p b.
Proof.
  intros [Hp _]%NoDup_cons E Hd HX. rewrite dom_delete_L, E. split_and!; [set_solver|set_solver|].
  apply map_subseteq_spec. intros x d Hx. rewrite lookup_delete_ne; [by eapply lookup_weaken|].
  intros ->. assert (x ∈ dom X) by (apply elem_of_dom; by eexists). set_solver.
Qed.

Lemma evict_oldest_spec s h m p MP X L B : hist_rep s h ((m, p) :: MP) X L B →
  ∃ s' h', evict_oldest s h = Ret (s', h') ∧ hist_rep s' h' MP X L B ∧ tail h' = tail h + 1 ∧ same_rest h h'.
Proof.
  intros [Hm Hr (Ht & Hh & Hh32 & Hn) Hs (Hnd & Hdom & HXd & HX) Hc Hmo Htk]. unfold evict_oldest.
  rewrite zlen_cons in Hh, Hn. assert (0 ≤ zlen MP) by (unfold zlen; lia).
  rewrite (proj2 (Z.eqb_neq (head h) (tail h))) by lia.
  replace (tail h mod HIST_RING_SIZE) with (slot (tail h) 0) by (unfold slot; f_equal; lia).
  pose proof (Hs 0%nat ltac:(done)) as Hs0. cbn [lookup list_lookup slot_ok] in Hs0. rewrite Hs0.
  destruct (Hc m p ltac:(by left)) as (blk & Eb & _).
  destruct (entry_free_spec s _ L B m p blk Hm Eb) as (s' & -> & Hm' & E'). cbn [mbind outcome_bind].
  eexists s', _. split; [reflexivity|]. cbn [fmap list_fmap fst snd] in *.
  pose proof (Forall_cons_1 _ _ _ Hmo) as [Hm1 HmM].
  pose proof (tokens_bound _ HmM) as Hb1. pose proof (estimate_bound (m_text m) ltac:(apply (mo_text _ Hm1))) as Hb2. rewrite <- (mo_tokens _ Hm1) in Hb2.
  unfold HIST_RING_SIZE in *. assert (zlen MP.*1 = zlen MP) as Ez by (unfold zlen; by rewrite length_fmap). rewrite Ez in Hb1.
  split; [|split; [cbn; apply wrap_id; lia|done]]. split; cbn [head tail ring window_tokens bpt with_ring].
  - done.
  - by rewrite zlen_aset.
  - unfold HIST_RING_SIZE. rewrite wrap_id by lia. lia.
  - intros k Hk. unfold HIST_RING_SIZE in Hk. rewrite wrap_id by lia. rewrite slot_next. destruct (decide (k = 4095%nat)) as [->|Hne].
    + assert (slot (tail h) 4096 = slot (tail h) 0) as -> by (unfold slot, HIST_RING_SIZE; rewrite Z.add_0_r; exact (Z.mod_add (tail h) 1 4096 ltac:(done))).
      rewrite aget_slot, decide_True by done. rewrite lookup_ge_None_2 by (unfold zlen in *; lia). done.
    + rewrite aget_slot, decide_False by (done || unfold HIST_RING_SIZE; lia). apply (Hs (S k)). lia.
  - split; [by apply NoDup_cons in Hnd as [_ ?]|]. rewrite E'. by apply blobs_delete.
  - intros m' p' Hin. destruct (Hc m' p' ltac:(by right)) as (blk' & Eb' & Et'). exists blk'. split; [|done].
    rewrite E', lookup_delete_ne; [done|]. intros ->. apply NoDup_cons in Hnd as [Hp _]. apply Hp.
    apply list_elem_of_fmap. by exists (m', p').
  - done.
  - rewrite Htk. cbn [token_count entry_of tokens foldr]. unfold tokens in *. rewrite wrap_id; lia.
Qed.

Lemma evict_full_spec s h MP X L B fuel : hist_rep s h MP X L B →
  ∃ s' h' MP', evict_full (S (S fuel)) s h false = Ret (s', h', bool_decide (length MP' < length MP)%nat) ∧ hist_rep s' h' MP' X L B ∧
    zlen MP' < HIST_RING_SIZE ∧ (∀ mx tok, evict mx tok MP.*1 = evict mx tok MP'.*1) ∧
    (length MP' ≤ length MP)%nat ∧ tail h' = tail h + (zlen MP - zlen MP') ∧ same_rest h h'.
Proof.
  intros Hrep. assert (∀ s h MP d, hist_rep s h MP X L B → zlen MP < HIST_RING_SIZE → ∀ f, evict_full (S f) s h d = Ret (s, h, d)) as Hstop.
  { intros s0 h0 MP0 d [_ _ (? & Hh0 & ? & ?) _ _ _ _ _] Hlt f. cbn [evict_full]. assert (0 ≤ zlen MP0) by (unfold zlen; lia).
    rewrite wrap_id by (unfold HIST_RING_SIZE in *; lia). destruct (Z.geb_spec (head h0 - tail h0) HIST_RING_SIZE); [lia|done]. }
  pose proof (hr_ends _ _ _ _ _ _ Hrep) as (? & Hh & ? & Hn).
  destruct (decide (zlen MP < HIST_RING_SIZE)) as [Hlt|Hge].
  - exists s, h, MP. rewrite (Hstop s h MP false Hrep Hlt), bool_decide_false by lia. split_and!; try done; lia.
  - destruct MP as [|[m p] MP]; [done|]. destruct (evict_oldest_spec s h m p MP X L B Hrep) as (s' & h' & E & Hrep' & Ht' & Hsame).
    rewrite zlen_cons in *. assert (zlen MP < HIST_RING_SIZE) as Hlt by lia. exists s', h', MP.
    rewrite bool_decide_true by (cbn; lia). split.
    + assert (0 ≤ zlen MP) by (unfold zlen; lia). change (evict_full (S (S fuel)) s h false) with
        (if u32 (head h - tail h) >=? HIST_RING_SIZE then r ← evict_oldest s h; let '(s, h) := r in evict_full (S fuel) s h true else Ret (s, h, false)).
      rewrite wrap_id by (unfold HIST_RING_SIZE in *; lia). destruct (Z.geb_spec (head h - tail h) HIST_RING_SIZE); [|lia].
      rewrite E. cbn [mbind outcome_bind]. by apply (Hstop s' h' MP).
    + split_and!; try done; [|cbn; lia|lia]. intros mx tok. cbn [evict fmap list_fmap fst].
      assert (zlen (m :: MP.*1) >=? HIST_RING_SIZE = true) as ->; [|done]. apply Z.geb_le. rewrite zlen_cons. unfold zlen in *. rewrite length_fmap. lia.
Qed.

Lemma evict_window_spec fuel : ∀ s h MP X L B tok d, hist_rep s h MP X L B → zlen MP < HIST_RING_SIZE → (length MP < fuel)%nat → 0 ≤ tok ≤ 16384 →
  ∃ s' h' MP', evict_window fuel s h tok d = Ret (s', h', d || bool_decide (length MP' < length MP)%nat) ∧ hist_rep s' h' MP' X L B ∧
    MP'.*1 = evict (max_tokens h) tok MP.*1 ∧ (length MP' ≤ length MP)%nat ∧ tail h' = tail h + (zlen MP - zlen MP') ∧ same_rest h h'.
Proof.
  induction fuel as [|fuel IH]; intros s h MP X L B tok d Hrep Hlt Hf Htok; [lia|]. cbn [evict_window].
  pose proof Hrep as [_ _ (Ht & Hh & Hh32 & Hn) _ _ _ Hmo Htk]. pose proof (tokens_bound _ Hmo) as Hb.
  assert (zlen MP.*1 = zlen MP) as Ez by (unfold zlen; by rewrite length_fmap). rewrite Ez in Hb. unfold HIST_RING_SIZE in *.
  rewrite Htk, wrap_id by lia. destruct MP as [|[m p] MP].
  - exists s, h, []. change (zlen []) with 0 in Hh. destruct (Z.gtb_spec (head h) (tail h)); [lia|]. rewrite andb_false_r.
    rewrite bool_decide_false, orb_false_r by lia. split_and!; try done; lia.
  - rewrite zlen_cons in *. assert (0 ≤ zlen MP) by (unfold zlen; lia). rewrite (proj2 (Z.gtb_gt (head h) (tail h))), andb_true_r by lia.
    cbn [evict fmap list_fmap fst]. assert (zlen (m :: MP.*1) >=? HIST_RING_SIZE = false) as ->.
    { rewrite Z.geb_leb. apply Z.leb_gt. unfold HIST_RING_SIZE. rewrite zlen_cons. unfold zlen in *. rewrite length_fmap. lia. }
    cbn [orb]. destruct (tokens (m :: MP.*1) + tok >? max_tokens h) eqn:Eover.
    + destruct (evict_oldest_spec s h m p MP X L B Hrep) as (s1 & h1 & -> & Hrep1 & Ht1 & (Hs1 & Hs2 & Hs3)). cbn [mbind outcome_bind].
      destruct (IH s1 h1 MP X L B tok true Hrep1 ltac:(lia) ltac:(cbn in Hf; lia) Htok) as (s' & h' & MP' & -> & Hrep' & E' & Hl' & Ht' & (? & ? & ?)).
      exists s', h', MP'. rewrite Hs1 in E'. rewrite (bool_decide_true (length MP' < length ((m, p) :: MP))%nat), orb_true_r by (cbn; lia).
      unfold same_rest. split_and!; try done; [cbn; lia|lia|congruence|congruence|congruence].
    + exists s, h, ((m, p) :: MP). rewrite bool_decide_false, orb_false_r by lia. rewrite zlen_cons. split_and!; try done; lia.
Qed.

(** How an outcome of the index shows in the code that uses it. *)
Definition index_result {A} (r : outcome (list (Z * Z) * list bp_answer)) (o : outcome A) (ok : list (Z * Z) → A → Prop) : Prop :=
  match r with Ret (L, _) => ∃ x, o = Ret x ∧ ok L x | _ => o = Fault end.

Lemma rebuild_from_spec h MP BB n : ∀ i idx t L,
  (∀ k : nat, Z.of_nat k < HIST_RING_SIZE → slot_ok (MP !! k) ((ring h).[slot (tail h) k])) →
  0 ≤ tail h → tail h + zlen MP < 2 ^ 32 → zlen MP ≤ HIST_RING_SIZE → (i + n = length MP)%nat → bpt_rep idx t L BB →
  ∃ r, index_run L (inserts (tail h) i (drop i MP.*1)) r ∧
    index_result r (rebuild_from n idx (Some t) h (Z.of_nat i)) (λ L' x, ∃ idx' t', x = (idx', Some t') ∧ bpt_rep idx' t' L' BB).
Proof.
  induction n as [|n IH]; intros i idx t L Hs Ht H32 Hn Hi Hrep.
  { exists (Ret (L, [])). rewrite drop_ge by (rewrite length_fmap; lia). split; [constructor|]. eexists. split; [reflexivity|]. by exists idx, t. }
  destruct (lookup_lt_is_Some_2 MP i ltac:(lia)) as [[m p] Em].
  pose proof (Hs i ltac:(unfold zlen, HIST_RING_SIZE in *; lia)) as Hsl. rewrite Em in Hsl. cbn [slot_ok] in Hsl.
  rewrite (drop_S MP.*1 m i) by (by rewrite list_lookup_fmap, Em). cbn [inserts rebuild_from].
  rewrite wrap_id by (unfold zlen in *; lia). change ((tail h + Z.of_nat i) mod HIST_RING_SIZE) with (slot (tail h) i).
  rewrite Hsl. cbn [data seq entry_of]. rewrite bool_decide_true by (by eexists).
  destruct (HistBpt.insert_spec idx t L BB (m_seq m) (slot (tail h) i) Hrep) as [(idx1 & t1 & rc & L1 & -> & Hst & Hrep1)|[-> Hst]]; cbn [mbind outcome_bind].
  - destruct (IH (S i) idx1 t1 L1 Hs Ht H32 Hn ltac:(lia) Hrep1) as (r & Hr & Hres). replace (Z.of_nat i + 1) with (Z.of_nat (S i)) by lia.
    eexists. split; [by eapply run_cons|]. destruct r as [[L2 l]| |]; cbn [index_result mbind outcome_bind] in *; done.
  - exists Fault. split; [by apply run_fault|done].
Qed.

Lemma rebuild_spec s h MP X L B : hist_rep s h MP X L B →
  ∃ r, index_run L (Clear :: inserts (tail h) 0 MP.*1) r ∧
    index_result r (rebuild s h) (λ L' x, ∃ s' t', x = (s', with_bpt h t') ∧ hist_rep s' (with_bpt h t') MP X L' B).
Proof.
  intros [[Hm Hd] Hr (Ht & Hh & Hh32 & Hn) Hs Hb Hc Hmo Htk]. unfold rebuild, hist_bpt_rebuild.
  destruct (index_clear_spec (index s) (bpt h) L _ Hm) as (idx & -> & Hrep). cbn [mbind outcome_bind].
  assert (0 ≤ zlen MP) by (unfold zlen; lia). rewrite wrap_id by (unfold HIST_RING_SIZE in *; lia).
  replace (Z.to_nat (head h - tail h)) with (length MP) by (unfold zlen in *; lia).
  destruct (rebuild_from_spec h MP _ (length MP) 0 idx _ [] Hs Ht ltac:(lia) Hn eq_refl Hrep) as (r & Hrun & Hres).
  rewrite drop_0 in Hrun. change (Z.of_nat 0) with 0 in Hres. eexists. split; [eapply run_cons; [constructor|exact Hrun]|].
  destruct r as [[L' l]| |]; cbn [index_result mbind outcome_bind] in *; [|by rewrite Hres..].
  destruct Hres as (x & -> & idx' & t' & -> & Hrep'). cbn [mbind outcome_bind]. eexists. split; [reflexivity|].
  eexists _, t'. split; [reflexivity|]. split; try done.
Qed.

Lemma insert_entry_spec s h MP X L B m q blk : hist_rep s h MP (<[q := blk]> X) L B → X !! q = None → msg_ok m → m_seq m = next_seq h →
  take (length (m_code m)) blk = m_code m → zlen MP < HIST_RING_SIZE → head h + 1 < 2 ^ 32 →
  ∃ r, index_run L [Insert (m_seq m) (slot (tail h) (length MP))] r ∧
    index_result r (insert_entry s h (m_role m) (m_time m) (m_tokens m) q (zlen (m_code m)) (zlen (m_text m)))
      (λ L' x, ∃ s' h', x = (s', h') ∧ hist_rep s' h' (MP ++ [(m, q)]) X L' B ∧ tail h' = tail h ∧ max_tokens h' = max_tokens h ∧ next_seq h' = u64 (next_seq h + 1)).
Proof.
  intros [[Hm Hd] Hr (Ht & Hh & Hh32 & Hn) Hs (Hnd & Hdom & HXd & HX) Hc Hmo Htk] Hq Hok Hsq Hblk Hlt Hhead. unfold insert_entry.
  assert (head h mod HIST_RING_SIZE = slot (tail h) (length MP)) as -> by (unfold slot; by rewrite Hh).
  pose proof (Hs (length MP) ltac:(unfold zlen in *; lia)) as Hsl. rewrite lookup_ge_None_2 in Hsl by done. cbn [slot_ok] in Hsl.
  unfold entry_free. rewrite Hsl. cbn [mbind outcome_bind].
  destruct (mo_text _ Hok) as [_ Htx]. destruct (mo_code _ Hok) as [_ Hcd]. pose proof (estimate_bound (m_text m) ltac:(lia)) as Hest.
  rewrite <- (mo_tokens _ Hok) in Hest. pose proof (tokens_bound _ Hmo) as Hb.
  assert (zlen MP.*1 = zlen MP) as Ez by (unfold zlen; by rewrite length_fmap). rewrite Ez in Hb.
  unfold KMALLOC_MAX, HIST_RING_SIZE in *. rewrite !(wrap_id 32) by lia. rewrite <- Hsq. cbn [seq bpt with_next_seq with_ring].
  fold (entry_of m q). set (e := entry_of m q).
  destruct (HistBpt.insert_spec (index s) (bpt h) L _ (m_seq m) (slot (tail h) (length MP)) Hm) as [(idx & t' & rc & L' & -> & Hst & Hrep)|[-> Hst]];
    cbn [mbind outcome_bind].
  2: { exists Fault. split; [by apply run_fault|done]. }
  eexists. split; [eapply run_cons; [exact Hst|constructor]|]. cbn [mbind outcome_bind index_result]. eexists. split; [reflexivity|].
  eexists _, _. split; [reflexivity|]. split; [|done].
  split; cbn [head tail ring window_tokens bpt with_ring with_next_seq with_bpt index blobs with_index].
  - done.
  - by rewrite zlen_aset.
  - rewrite zlen_snoc. unfold HIST_RING_SIZE. lia.
  - intros k Hk. rewrite aget_slot by (done || unfold zlen, HIST_RING_SIZE in *; lia). destruct (decide (k = length MP)) as [->|Hne].
    + by rewrite lookup_app_r, Nat.sub_diag by done.
    + specialize (Hs k Hk). destruct (decide (k < length MP)%nat); [by rewrite lookup_app_l|].
      rewrite lookup_ge_None_2 in Hs by lia. by rewrite lookup_ge_None_2 by (rewrite length_app; cbn; lia).
  - rewrite fmap_app. cbn [fmap list_fmap snd]. rewrite dom_insert_L in Hdom, HXd.
    assert (X ⊆ <[q := blk]> X) by (by apply insert_subseteq).
    split_and!; [|set_solver| |by etrans].
    + apply NoDup_app. split; [done|]. split; [set_solver|apply NoDup_singleton].
    + assert (q ∉ dom X) by (by apply not_elem_of_dom). set_solver.
  - intros m' p' Hin. apply elem_of_app in Hin as [Hin|Hin%list_elem_of_singleton]; [by apply Hc|]. injection Hin as -> ->.
    exists blk. split; [|done]. eapply lookup_weaken; [apply lookup_insert_eq|exact HX].
  - rewrite fmap_app. apply Forall_app_2; [done|]. cbn. by apply Forall_singleton.
  - rewrite fmap_app, tokens_app. cbn [fmap list_fmap fst tokens foldr]. lia.
Qed.

Lemma hist_rep_add s s1 h MP L B q blk : hist_rep s h MP ∅ L B → mem_ok s1 (bpt h) L B →
  blobs s !! q = None → blobs s1 = <[q := blk]> (blobs s) → hist_rep s1 h MP (<[q := blk]> ∅) L B.
Proof.
  intros [Hm Hr He Hs (Hnd & Hdom & HXd & HX) Hc Hmo Htk] Hm1 Hq E1. split; try done.
  - rewrite E1, !dom_insert_L, Hdom, dom_empty_L. apply not_elem_of_dom in Hq. rewrite Hdom in Hq.
    split_and!; [done|set_solver|set_solver|]. apply insert_mono. apply map_empty_subseteq.
  - intros m p Hin. destruct (Hc m p Hin) as (d & Ed & Et). exists d. split; [|done]. rewrite E1, lookup_insert_ne; [done|]. congruence.
Qed.

Lemma hist_rep_mem s s1 h MP X L B : hist_rep s h MP X L B → mem_ok s1 (bpt h) L B → blobs s1 = blobs s → hist_rep s1 h MP X L B.
Proof. intros [Hm Hr He Hs Hb Hc Hmo Htk] Hm1 E1. split; rewrite ?E1; done. Qed.

Lemma evict_loops_spec s h MP X L B tok : hist_rep s h MP X L B → 0 ≤ tok ≤ 16384 →
  ∃ s1 h1 d1 s' h' MP', evict_full (S (length (ring h))) s h false = Ret (s1, h1, d1) ∧
    evict_window (S (Z.to_nat (head h1 - tail h1))) s1 h1 tok d1 = Ret (s', h', bool_decide (length MP' < length MP)%nat) ∧
    hist_rep s' h' MP' X L B ∧ MP'.*1 = evict (max_tokens h) tok MP.*1 ∧ (length MP' ≤ length MP)%nat ∧ zlen MP' < HIST_RING_SIZE ∧
    tail h' = tail h + (zlen MP - zlen MP') ∧ same_rest h h'.
Proof.
  intros Hrep Htok. destruct (length (ring h)) as [|f] eqn:Ef.
  { exfalso. pose proof (hr_ring _ _ _ _ _ _ Hrep) as Hr. unfold zlen in Hr. by rewrite Ef in Hr. }
  destruct (evict_full_spec s h MP X L B f Hrep) as (s1 & h1 & MP1 & E1 & Hrep1 & Hlt & Hev & Hl1 & Ht1 & (Hm1 & Hn1 & Hb1)).
  destruct (evict_window_spec (S (Z.to_nat (head h1 - tail h1))) s1 h1 MP1 X L B tok (bool_decide (length MP1 < length MP)%nat) Hrep1 Hlt)
    as (s2 & h2 & MP2 & E2 & Hrep2 & Ee & Hl2 & Ht2 & (Hm2 & Hn2 & Hb2)); [|done|].
  { pose proof (hr_ends _ _ _ _ _ _ Hrep1) as (_ & Hh & _). unfold zlen in Hh. lia. }
  exists s1, h1, (bool_decide (length MP1 < length MP)%nat), s2, h2, MP2. split; [done|]. split.
  { rewrite E2. do 2 f_equal. repeat case_bool_decide; try done; lia. }
  split; [done|]. split; [by rewrite Ee, Hm1, <- Hev|]. split; [lia|]. split; [unfold zlen in *; lia|]. split; [lia|].
  unfold same_rest. split_and!; congruence.
Qed.

Definition hist_abs s h (a : abs) (B : gset Z) : Prop :=
  ∃ MP, hist_rep s h MP ∅ (a_index a) B ∧ MP.*1 = a_msgs a ∧ tail h = a_base a ∧ max_tokens h = a_max a ∧ next_seq h = a_next a.

(** What one call does, next to the list of messages. *)
Definition call_ok s h (a : abs) (B : gset Z) (o : hop) (res : outcome (hstore H * option history * hans)) : Prop :=
  (∃ s' h' x a', res = Ret (s', Some h', x) ∧ hist_step a o (Ret (a', x)) ∧ hist_abs s' h' a' B ∧ head h' ≤ head h + 1) ∨
  res = Fault ∧ hist_step a o Fault.

Lemma push_spec s h a B rl text now : hist_abs s h a B → hop_ok (Push rl text now) → head h + 1 < 2 ^ 32 →
  call_ok s h a B (Push rl text now) (call s h (Push rl text now)).
Proof.
  intros (MP & Hrep & Emsgs & Ebase & Emax & Enext) (Hb & Hne & Hlen) Hhead. cbn [call]. unfold history_push.
  destruct (pack_spec s (bpt h) (a_index a) B text (hr_mem _ _ _ _ _ _ Hrep) Hb Hne Hlen) as (s1 & r & -> & Hm1 & Hp). cbn [mbind outcome_bind].
  destruct r as [[q n]|]; cbn [mbind outcome_bind].
  2: { left. eexists s1, h, _, a. split; [reflexivity|]. split; [constructor|]. split; [|lia].
       exists MP. split; [by eapply hist_rep_mem|done]. }
  destruct Hp as (blk & code & Hq & E1 & Hblk & -> & Hcode & Hcb & Hpk & Htx).
  pose proof (hist_rep_add s s1 h MP _ B q blk Hrep Hm1 Hq E1) as Hrep1.
  pose proof (estimate_bound text ltac:(lia)) as Hest.
  set (m := {| m_time := now; m_seq := a_next a; m_role := rl; m_tokens := estimate_tokens text; m_text := text; m_code := code |}).
  assert (msg_ok m) as Hok by (by split).
  destruct (evict_loops_spec s1 h MP _ _ B (estimate_tokens text) Hrep1 Hest)
    as (s2 & h2 & d2 & s3 & h3 & MP3 & -> & E3 & Hrep3 & Eev & Hl3 & Hlt3 & Ht3 & (Em3 & En3 & Eb3)).
  cbn [mbind outcome_bind]. rewrite E3. cbn [mbind outcome_bind].
  assert (length (a_msgs a) = length MP) as Elen by (rewrite <- Emsgs; by rewrite length_fmap).
  set (M := evict (a_max a) (m_tokens m) (a_msgs a)).
  assert (MP3.*1 = M) as EM by (unfold M; rewrite <- Emsgs, <- Emax; exact Eev).
  assert (length M = length MP3) as ElM by (rewrite <- EM; by rewrite length_fmap).
  set (base := a_base a + Z.of_nat (length (a_msgs a) - length M)).
  assert (tail h3 = base) as Et by (unfold base; rewrite Elen, ElM, Ht3, Ebase; unfold zlen; lia).
  set (ops1 := if decide ((length (a_msgs a) - length M)%nat = 0%nat) then [] else Clear :: inserts base 0 M).
  assert (∃ r1, index_run (a_index a) ops1 r1 ∧
    index_result r1 (if bool_decide (length MP3 < length MP)%nat then rebuild s3 h3 else Ret (s3, h3))
      (λ L' x, ∃ s4 t4, x = (s4, with_bpt h3 t4) ∧ hist_rep s4 (with_bpt h3 t4) MP3 (<[q := blk]> ∅) L' B)) as (r1 & Hr1 & Hres1).
  { unfold ops1. rewrite Elen, ElM. case_bool_decide as Hd; [rewrite decide_False by lia|rewrite decide_True by lia].
    - rewrite <- Et, <- EM. exact (rebuild_spec s3 h3 MP3 _ _ B Hrep3).
    - exists (Ret (a_index a, [])). split; [constructor|]. eexists. split; [reflexivity|]. exists s3, (bpt h3). by destruct h3. }
  pose proof (index_run_app _ _ _ Hr1 [Insert (m_seq m) (slot base (length M))]) as Happ.
  destruct r1 as [[L1 l1]| |]; cbn [index_result] in Hres1; [|rewrite Hres1; cbn [mbind outcome_bind]; right|done].
  2: { split; [done|]. exact (push_stored a rl text now code Fault Hok Happ). }
  destruct Hres1 as (x1 & -> & s4 & t4 & -> & Hrep4). cbn [mbind outcome_bind].
  assert (head (with_bpt h3 t4) + 1 < 2 ^ 32 ∧ head h3 = head h) as [Hh4 Eh].
  { pose proof (hr_ends _ _ _ _ _ _ Hrep) as (_ & ? & _). pose proof (hr_ends _ _ _ _ _ _ Hrep3) as (_ & ? & _). cbn. lia. }
  destruct (insert_entry_spec s4 (with_bpt h3 t4) MP3 ∅ L1 B m q blk Hrep4 (lookup_empty q) Hok) as (r2 & Hr2 & Hres2);
    [cbn; congruence|done|done|done|]. cbn [tail with_bpt] in Hr2. rewrite Et, <- ElM in Hr2. specialize (Happ _ Hr2).
  cbn [m_role m_time m_tokens m_code m_text m] in Hres2.
  destruct r2 as [[L2 l2]| |]; cbn [index_result mbind outcome_bind] in *; [|rewrite Hres2; right|by pose proof (index_run_app _ _ _ Hr2 [])].
  2: { split; [done|]. exact (push_stored a rl text now code Fault Hok Happ). }
  destruct Hres2 as (x2 & -> & s5 & h5 & -> & Hrep5 & Et5 & Em5 & En5). cbn [mbind outcome_bind]. left.
  eexists s5, h5, _, _. split; [reflexivity|]. split; [exact (push_stored a rl text now code _ Hok Happ)|]. split.
  - exists (MP3 ++ [(m, q)]). cbn [a_index a_msgs a_base a_max a_next]. rewrite fmap_app, EM. cbn [tail max_tokens next_seq with_bpt] in *.
    split_and!; [exact Hrep5|done|by rewrite Et5|by rewrite Em5, Em3|by rewrite En5, En3, Enext].
  - pose proof (hr_ends _ _ _ _ _ _ Hrep5) as (_ & Hh5 & _). pose proof (hr_ends _ _ _ _ _ _ Hrep3) as (_ & Hh3 & _).
    rewrite zlen_snoc in Hh5. cbn [tail with_bpt] in Et5. lia.
Qed.

Lemma take_splice (out l : list Z) : zlen l ≤ zlen out → take (length l) (splice out 0 l) = l.
Proof. intros Hl. unfold splice. rewrite take_0, app_nil_l. apply take_app_length. Qed.

Lemma take_splice_snoc (out : list Z) n x : (n < length out)%nat → take (S n) (splice out (Z.of_nat n) [x]) = take n out ++ [x].
Proof.
  intros Hn. unfold splice. rewrite Nat2Z.id, app_assoc, take_app_le, take_ge; [done|..]; rewrite length_app, length_take; cbn; lia.
Qed.

(** The bytes a reader is left with. *)
Lemma unpack_spec s m p blk out : blobs s !! p = Some blk → take (length (m_code m)) blk = m_code m → msg_ok m → 0 < zlen out < 2 ^ 32 →
  ∃ out', unpack s p (entry_of m p) out (zlen out) (u32 (zlen out - 1)) = Ret (out', zlen (reading m (zlen out))) ∧ zlen out' = zlen out ∧
    take (length (reading m (zlen out))) out' = reading m (zlen out) ∧ zlen (reading m (zlen out)) < zlen out.
Proof.
  intros Eb Et [[_ Htx] [_ Hcd] Hp _] Ho. unfold unpack. rewrite (blob_some s p blk Eb). cbn [mbind outcome_bind data_len raw_len entry_of].
  destruct (Hp blk out (Z.min (zlen out - 1) (zlen (m_text m))) Et ltac:(lia)) as (out' & n & -> & Ez & Hn). cbn [mbind outcome_bind].
  unfold reading. replace (zlen (m_text m) <=? Z.min (zlen out - 1) (zlen (m_text m))) with (zlen (m_text m) <=? zlen out - 1) in Hn.
  2: { destruct (Z.leb_spec (zlen (m_text m)) (zlen out - 1)), (Z.leb_spec (zlen (m_text m)) (Z.min (zlen out - 1) (zlen (m_text m)))); lia. }
  destruct (accepted (m_code m) (zlen (m_text m)) && (zlen (m_text m) <=? zlen out - 1)) eqn:Ea.
  - destruct Hn as [-> Hn]. destruct (Z.leb_spec (zlen (m_text m)) 0); [lia|]. exists out'. apply andb_true_iff in Ea as [_ Ea%Z.leb_le].
    split_and!; [done|done|done|lia].
  - subst n. cbn [Z.leb Z.compare]. rewrite wrap_id by lia. set (c := Z.min (zlen (m_code m)) (zlen out - 1)).
    assert (length (m_code m) ≤ length blk)%nat as Hle by (apply (f_equal length) in Et; rewrite length_take in Et; lia).
    rewrite rd_block_ok by (unfold zlen in *; lia). cbn [mbind outcome_bind].
    assert (sub_list blk 0 c = take (Z.to_nat (zlen out - 1)) (m_code m)) as Ec.
    { unfold sub_list. rewrite drop_0, <- Et, take_take. f_equal. unfold c, zlen in *. lia. }
    assert (zlen (sub_list blk 0 c) = c) as Ezc by (apply zlen_sub_list; unfold zlen in *; lia).
    rewrite Ec in *. rewrite wr_ok by lia. cbn [mbind outcome_bind].
    eexists. split; [do 2 f_equal; by rewrite Ezc|]. split; [rewrite zlen_splice by lia; done|]. split; [apply take_splice; lia|lia].
Qed.

Lemma hist_get_spec s h a B i out : hist_abs s h a B → hop_ok (Get i out) → call_ok s h a B (Get i out) (call s h (Get i out)).
Proof.
  intros Habs (Hi & Ho). pose proof Habs as (MP & Hrep & Emsgs & Ebase & Emax & Enext).
  pose proof Hrep as [_ Hr (Ht & Hh & Hh32 & Hn) Hs _ Hc Hmo _]. left. cbn [call]. unfold history_get.
  rewrite (proj2 (Z.eqb_neq (zlen out) 0)) by lia. assert (0 ≤ zlen MP) by (unfold zlen; lia).
  unfold HIST_RING_SIZE in Hn. rewrite (wrap_id 32 (head h - tail h)) by lia. replace (head h - tail h) with (zlen MP) by lia.
  assert (zlen (a_msgs a) = zlen MP) as Ez by (rewrite <- Emsgs; unfold zlen; by rewrite length_fmap).
  destruct (Z.geb_spec i (zlen MP)) as [Hge|Hlt].
  { cbn [mbind outcome_bind]. eexists s, h, _, a. split; [reflexivity|]. split; [constructor; lia|]. split; [done|lia]. }
  rewrite wrap_id by lia. destruct (lookup_lt_is_Some_2 MP (Z.to_nat i)) as [[m p] Em]; [unfold zlen in *; lia|].
  replace ((tail h + i) mod HIST_RING_SIZE) with (slot (tail h) (Z.to_nat i)) by (unfold slot; f_equal; lia).
  pose proof (Hs (Z.to_nat i) ltac:(unfold HIST_RING_SIZE; lia)) as Hsl. rewrite Em in Hsl. cbn [slot_ok] in Hsl. rewrite Hsl. cbn [data entry_of data_len].
  assert (msg_ok m) as Hok. { rewrite Forall_forall in Hmo. apply Hmo. apply list_elem_of_fmap. exists (m, p). split; [done|by eapply list_elem_of_lookup_2]. }
  pose proof (mo_code _ Hok) as [_ Hcd]. rewrite (proj2 (Z.eqb_neq (zlen (m_code m)) 0)) by lia.
  destruct (Hc m p ltac:(by eapply list_elem_of_lookup_2)) as (blk & Eb & Et).
  destruct (unpack_spec s m p blk out Eb Et Hok Ho) as (out' & E & Ez' & Etk & Hlt'). fold (entry_of m p). rewrite E. cbn [mbind outcome_bind].
  set (l := reading m (zlen out)) in *. assert (0 ≤ zlen l) by (unfold zlen; lia).
  rewrite wr_ok by (change (zlen [0]) with 1; lia). cbn [mbind outcome_bind]. destruct (Z.ltb_spec (zlen l) 0); [lia|].
  eexists s, h, _, a. split; [reflexivity|]. split; [|split; [done|lia]].
  unfold zlen at 2 3. rewrite Nat2Z.id, take_splice_snoc by (unfold zlen in *; lia). rewrite Etk.
  apply (get_text a i m out Hi). by rewrite <- Emsgs, list_lookup_fmap, Em.
Qed.

Lemma drop_newest_spec n : ∀ s h MP L B, hist_rep s h MP ∅ L B → (n ≤ length MP)%nat →
  ∃ s' h', drop_newest n s h = Ret (s', h') ∧ hist_rep s' h' (take (length MP - n) MP) ∅ L B ∧ tail h' = tail h ∧ same_rest h h'.
Proof.
  induction n as [|n IH]; intros s h MP L B Hrep Hn.
  { exists s, h. rewrite take_ge by lia. done. }
  destruct MP as [|x MP _] using rev_ind; [cbn in Hn; lia|]. destruct x as [m p]. cbn [drop_newest].
  pose proof Hrep as [Hm Hr (Ht & Hh & Hh32 & Hl) Hs (Hnd & Hdom & HXd & HX) Hc Hmo Htk]. rewrite zlen_snoc in Hh, Hl.
  assert (0 ≤ zlen MP) by (unfold zlen; lia). destruct (Z.leb_spec (head h) (tail h)); [lia|].
  rewrite wrap_id by lia. replace ((head h - 1) mod HIST_RING_SIZE) with (slot (tail h) (length MP)) by (unfold slot; f_equal; unfold zlen in *; lia).
  pose proof (Hs (length MP) ltac:(unfold zlen in *; lia)) as Hsl. rewrite lookup_app_r, Nat.sub_diag in Hsl by done. cbn [lookup list_lookup slot_ok] in Hsl.
  rewrite Hsl. destruct (Hc m p ltac:(set_solver)) as (blk & Eb & _).
  destruct (entry_free_spec s _ L B m p blk Hm Eb) as (s1 & -> & Hm1 & E1). cbn [mbind outcome_bind].
  rewrite fmap_app in Hnd, Hdom, HXd. rewrite fmap_app in Hmo, Htk. cbn [fmap list_fmap fst snd] in *. apply Forall_app in Hmo as [HmM Hm0]. apply Forall_cons_1 in Hm0 as [Hm0 _].
  pose proof (tokens_bound _ HmM) as Hb1. pose proof (estimate_bound (m_text m) ltac:(apply (mo_text _ Hm0))) as Hb2. rewrite <- (mo_tokens _ Hm0) in Hb2.
  assert (zlen MP.*1 = zlen MP) as Ez by (unfold zlen; by rewrite length_fmap). rewrite Ez in Hb1. rewrite tokens_app in Htk. cbn [tokens foldr] in Htk.
  assert (NoDup (p :: MP.*2)) as Hnd' by (by rewrite (Permutation_cons_append MP.*2 p)).
  destruct (IH s1 (with_ring h ((ring h).[slot (tail h) (length MP) <- zero_entry]) (head h - 1) (tail h) (u32 (window_tokens h - token_count (entry_of m p)))) MP L B)
    as (s' & h' & -> & Hrep' & Ht' & Hsame).
  - unfold HIST_RING_SIZE in *. split; cbn [head tail ring window_tokens bpt with_ring].
    + done.
    + by rewrite zlen_aset.
    + unfold HIST_RING_SIZE. lia.
    + intros k Hk. rewrite aget_slot by (done || unfold zlen, HIST_RING_SIZE in *; lia). destruct (decide (k = length MP)) as [->|Hne].
      * by rewrite lookup_ge_None_2.
      * specialize (Hs k Hk). destruct (decide (k < length MP)%nat); [by rewrite lookup_app_l in Hs|].
        rewrite lookup_ge_None_2 in Hs by (rewrite length_app; cbn; lia). by rewrite lookup_ge_None_2 by lia.
    + split; [by apply NoDup_cons in Hnd' as [_ ?]|]. rewrite E1. apply blobs_delete; [done| |set_solver|done].
      rewrite Hdom. set_solver.
    + intros m' p' Hin. destruct (Hc m' p' ltac:(set_solver)) as (d & Ed & Et). exists d. split; [|done].
      rewrite E1, lookup_delete_ne; [done|]. intros ->. apply NoDup_cons in Hnd' as [Hp _]. apply Hp. apply list_elem_of_fmap. by exists (m', p').
    + done.
    + cbn [token_count entry_of]. rewrite wrap_id; unfold tokens in *; lia.
  - rewrite length_app in Hn. cbn in Hn. lia.
  - exists s', h'. split; [done|]. rewrite length_app. cbn [length]. rewrite take_app_le by lia.
    replace (length MP + 1 - S n)%nat with (length MP - n)%nat by lia. done.
Qed.

Lemma truncate_spec s h a B k : hist_abs s h a B → hop_ok (Truncate k) → call_ok s h a B (Truncate k) (call s h (Truncate k)).
Proof.
  intros Habs Hk. cbn in Hk. pose proof Habs as (MP & Hrep & Emsgs & Ebase & Emax & Enext).
  pose proof (hr_ends _ _ _ _ _ _ Hrep) as (Ht & Hh & Hh32 & Hn). cbn [call]. unfold history_truncate_keep. assert (0 ≤ zlen MP) by (unfold zlen; lia).
  unfold HIST_RING_SIZE in Hn. rewrite wrap_id by lia. replace (head h - tail h) with (zlen MP) by lia.
  assert (zlen (a_msgs a) = zlen MP) as Ez by (rewrite <- Emsgs; unfold zlen; by rewrite length_fmap).
  destruct (Z.geb_spec k (zlen MP)) as [Hge|Hlt].
  { left. eexists s, h, _, a. split; [reflexivity|]. split; [constructor; lia|]. split; [done|lia]. }
  destruct (drop_newest_spec (Z.to_nat (zlen MP - k)) s h MP _ B Hrep) as (s1 & h1 & -> & Hrep1 & Ht1 & (Em1 & En1 & Eb1)); [unfold zlen in *; lia|].
  cbn [mbind outcome_bind]. replace (length MP - Z.to_nat (zlen MP - k))%nat with (Z.to_nat k) in Hrep1 by (unfold zlen in *; lia).
  destruct (rebuild_spec s1 h1 _ _ _ B Hrep1) as (r & Hr & Hres). rewrite Ht1, Ebase, fmap_take, Emsgs in Hr.
  destruct r as [[L' l]| |]; cbn [index_result mbind outcome_bind] in *; [|rewrite Hres; right|by pose proof (index_run_app _ _ _ Hr [])].
  2: { split; [done|]. exact (truncate_some a k Fault ltac:(lia) Hr). }
  destruct Hres as (x & -> & s2 & t2 & -> & Hrep2). cbn [mbind outcome_bind]. left.
  eexists s2, _, _, _. split; [reflexivity|]. split; [exact (truncate_some a k _ ltac:(lia) Hr)|]. split.
  - exists (take (Z.to_nat k) MP). cbn [a_index a_msgs a_base a_max a_next tail max_tokens next_seq with_bpt].
    rewrite fmap_take, Emsgs. split_and!; [exact Hrep2|done|congruence|congruence|congruence].
  - pose proof (hr_ends _ _ _ _ _ _ Hrep2) as (_ & Hh2 & _). cbn in Hh2 |- *. unfold zlen in *. rewrite length_take in Hh2. lia.
Qed.

Lemma evict_all_spec fuel : ∀ s h MP L B, hist_rep s h MP ∅ L B → (length MP < fuel)%nat →
  ∃ s' h', evict_all fuel s h = Ret (s', h') ∧ hist_rep s' h' [] ∅ L B ∧ same_rest h h'.
Proof.
  induction fuel as [|fuel IH]; intros s h MP L B Hrep Hf; [lia|]. cbn [evict_all].
  pose proof (hr_ends _ _ _ _ _ _ Hrep) as (Ht & Hh & Hh32 & Hn). destruct MP as [|[m p] MP].
  - change (zlen []) with 0 in Hh. destruct (Z.gtb_spec (head h) (tail h)); [lia|]. exists s, h. done.
  - rewrite zlen_cons in Hh. assert (0 ≤ zlen MP) by (unfold zlen; lia). destruct (Z.gtb_spec (head h) (tail h)); [|lia].
    destruct (evict_oldest_spec s h m p MP ∅ L B Hrep) as (s1 & h1 & -> & Hrep1 & _ & (Em & En & Eb)). cbn [mbind outcome_bind].
    destruct (IH s1 h1 MP L B Hrep1 ltac:(cbn in Hf; lia)) as (s' & h' & -> & Hrep' & (Em' & En' & Eb')).
    exists s', h'. unfold same_rest. split_and!; congruence.
Qed.

Lemma wipe_spec s h a B : hist_abs s h a B → call_ok s h a B Wipe (call s h Wipe).
Proof.
  intros (MP & Hrep & Emsgs & Ebase & Emax & Enext). left. cbn [call]. unfold history_clear.
  pose proof (hr_ends _ _ _ _ _ _ Hrep) as (Ht0 & Hh0 & _).
  destruct (evict_all_spec (S (Z.to_nat (head h - tail h))) s h MP _ B Hrep) as (s1 & h1 & -> & Hrep1 & (Em & En & Eb)); [unfold zlen in *; lia|].
  cbn [mbind outcome_bind]. destruct Hrep1 as [[Hm Hd] Hr (Ht & Hh & Hh32 & Hn) Hs Hb Hc Hmo Htk].
  destruct (index_clear_spec (index s1) (bpt h1) _ _ Hm) as (idx & -> & Hrep'). cbn [mbind outcome_bind].
  eexists _, _, _, _. split; [reflexivity|]. split; [constructor|]. split.
  - exists []. cbn [a_index a_msgs a_base a_max a_next tail max_tokens next_seq with_bpt with_next_seq with_ring].
    split_and!; [|done|done|congruence|done]. split; cbn [head tail ring window_tokens bpt with_ring with_next_seq with_bpt index blobs with_index]; try done.
    intros k Hk. cbn [lookup list_lookup slot_ok].
    pose proof (Z.mod_pos_bound (Z.of_nat k - tail h1) HIST_RING_SIZE ltac:(done)) as Hj.
    specialize (Hs (Z.to_nat ((Z.of_nat k - tail h1) mod HIST_RING_SIZE)) ltac:(lia)). cbn [lookup list_lookup slot_ok] in Hs.
    replace (slot 0 k) with (slot (tail h1) (Z.to_nat ((Z.of_nat k - tail h1) mod HIST_RING_SIZE))); [done|].
    unfold slot. rewrite Z2Nat.id by lia. rewrite Z.add_mod_idemp_r by done. f_equal. lia.
  - cbn. unfold zlen in *. lia.
Qed.

Lemma call_spec s h a B o : hist_abs s h a B → hop_ok o → head h + 1 < 2 ^ 32 → call_ok s h a B o (call s h o).
Proof.
  intros Habs Ho Hhead. pose proof Habs as (MP & Hrep & Emsgs & Ebase & Emax & Enext).
  pose proof (hr_ends _ _ _ _ _ _ Hrep) as (Ht & Hh & Hh32 & Hn). assert (0 ≤ zlen MP) by (unfold zlen; lia). unfold HIST_RING_SIZE in Hn.
  assert (zlen (a_msgs a) = zlen MP) as Ez by (rewrite <- Emsgs; unfold zlen; by rewrite length_fmap).
  destruct o as [rl text now|i out| | |i|k|].
  - by apply push_spec.
  - by apply hist_get_spec.
  - left. eexists s, h, _, a. split; [reflexivity|]. split; [|split; [done|lia]]. cbn [history_count]. rewrite wrap_id by lia.
    replace (head h - tail h) with (zlen (a_msgs a)) by lia. constructor.
  - left. eexists s, h, _, a. split; [reflexivity|]. split; [|split; [done|lia]]. cbn [history_get_window_tokens].
    rewrite (hr_tokens _ _ _ _ _ _ Hrep), Emsgs. constructor.
  - left. eexists s, h, _, a. split; [reflexivity|]. split; [|split; [done|lia]]. cbn [history_seq_at]. cbn in Ho.
    rewrite (wrap_id 32 (head h - tail h)) by lia. destruct (Z.geb_spec i (head h - tail h)) as [Hge|Hlt].
    + pose proof (seq_at a i) as Hst. rewrite lookup_ge_None_2 in Hst by (unfold zlen in *; lia). exact Hst.
    + rewrite wrap_id by lia. destruct (lookup_lt_is_Some_2 MP (Z.to_nat i)) as [[m p] Em]; [unfold zlen in *; lia|].
      replace ((tail h + i) mod HIST_RING_SIZE) with (slot (tail h) (Z.to_nat i)) by (unfold slot; f_equal; lia).
      pose proof (hr_slots _ _ _ _ _ _ Hrep (Z.to_nat i) ltac:(unfold HIST_RING_SIZE; lia)) as Hsl. rewrite Em in Hsl. cbn [slot_ok] in Hsl. rewrite Hsl.
      pose proof (seq_at a i) as Hst. rewrite <- Emsgs, list_lookup_fmap, Em in Hst. exact Hst.
  - by apply truncate_spec.
  - by apply wipe_spec.
Qed.

Lemma init_abs s max B : mem_ok s {| root := None; height := 0 |} [] B → blobs s = ∅ →
  ∀ h h0, history_init (Some h0) max = Some h → hist_abs s h {| a_base := 0; a_msgs := []; a_index := []; a_max := max; a_next := 0 |} B ∧ head h = 0.
Proof.
  intros Hm Hb h h0 Hi. unfold history_init in Hi. apply (inj Some) in Hi. subst h. split; [|done]. exists [].
  split_and!; [|done|done|done|done]. split; cbn [head tail ring window_tokens bpt]; [done| | | | | |constructor|done].
  - unfold zlen. rewrite length_replicate. done.
  - done.
  - intros k Hk. rewrite aget_replicate by (pose proof (slot_range 0 k); unfold HIST_RING_SIZE in *; lia). done.
  - rewrite Hb, dom_empty_L. split_and!; [constructor|set_solver|set_solver|done].
  - set_solver.
Qed.

(** C8: from [history_init] on, every history of pushes of texts that are not empty,
    reads, counts, truncations and clears behaves like a list of messages bounded by the window of tokens
    and by 4096: a push drops the oldest messages until the new one fits, a read
    returns the text of a message (or the stored bytes, when the text does not
    fit the buffer or the compressor wrote a block that the decoder rejects), a
    truncation keeps the oldest; the blocks of the dropped messages are freed. (An
    empty text is freed twice: [empty_text_freed_twice].) The only other outcome is a fault, exactly when the index overruns. *)
Theorem history_refines s h0 h max ops B :
  nodes s.(index) = ∅ → blobs s = ∅ → kh_rep (heap s.(index)) B → history_init (Some h0) max = Some h →
  Forall hop_ok ops → Z.of_nat (length ops) < 2 ^ 32 →
  ∃ r, hist_run {| a_base := 0; a_msgs := []; a_index := []; a_max := max; a_next := 0 |} ops r ∧
    match r with
    | Ret (a', l) => ∃ s' h', calls s h ops = Ret (s', h', l) ∧ hist_abs s' h' a' B
    | _ => calls s h ops = Fault
    end.
Proof.
  intros Hn Hb Hh Hi Hops Hlen. destruct (init_abs s max B) with (h := h) (h0 := h0) as [Habs Hhead]; [|done|done|].
  { unfold mem_ok. rewrite Hb, dom_empty_L, union_empty_l_L. split; [done|]. intros x Hx. by apply elem_of_empty in Hx. }
  assert (head h + Z.of_nat (length ops) < 2 ^ 32) as Hbound by lia. clear Hn Hb Hh Hi Hhead Hlen.
  revert s h Habs Hbound. generalize {| a_base := 0; a_msgs := []; a_index := []; a_max := max; a_next := 0 |} as a.
  induction Hops as [|o ops Ho Hops IH]; intros a s h Habs Hbound.
  { eexists. split; [constructor|]. by exists s, h. }
  cbn [calls length] in *. destruct (call_spec s h a B o Habs Ho ltac:(lia)) as [(s' & h' & x & a' & -> & Hst & Habs' & Hle)|[-> Hst]]; cbn [mbind outcome_bind].
  - destruct (IH a' s' h' Habs' ltac:(lia)) as (r & Hr & Hm). eexists. split; [by eapply hrun_cons|].
    destruct r as [[a2 l]| |]; cbn [mbind outcome_bind]; [|by rewrite Hm..]. destruct Hm as (s2 & h2 & -> & Habs2). by exists s2, h2.
  - exists Fault. split; [by apply hrun_fault|done].
Qed.

Lemma new_blob_fresh s n r s' : new_blob s n = Ret (s', Some r) → blobs s' !! r = Some (replicate (Z.to_nat n) 0).
Proof.
  unfold new_blob. destruct (kmalloc _ _) as [[hp p]| |]; cbn [mbind outcome_bind]; [|done..].
  destruct (p =? 0); [done|]. intros [= <- <-]. apply lookup_insert_eq.
Qed.

(** The buffer of an empty text is given back by [krealloc(comp, 0)]. *)
Lemma pack_empty s t L B : mem_ok s t L B →
  ∃ s' r, pack s [] = Ret (s', r) ∧ mem_ok s' t L B ∧ blobs s' = blobs s ∧
    match r with Some (p, n) => p ≠ 0 ∧ blobs s !! p = None ∧ n = 0 | None => True end.
Proof.
  intros Hm. unfold pack. change (zlen [] + zlen [] / 255 + 16) with 16.
  destruct (new_blob_spec s t L B 16 Hm ltac:(lia)) as (s1 & [p|] & -> & Hm1 & H1); cbn [mbind outcome_bind]; [|by exists s1, None].
  destruct H1 as (_ & Hf & E1 & Hp0). set (d := replicate _ 0) in *.
  rewrite (blob_some s1 p d) by (rewrite E1; apply lookup_insert_eq). cbn [mbind outcome_bind].
  change (lz4_compress (Some []) (zlen []) (Some d) 16) with (Ret (Some d, -1)). cbn [mbind outcome_bind].
  change (-1 <=? 0) with true. cbv iota. rewrite wr_ok by (change (zlen []) with 0; unfold zlen; lia). cbn [mbind outcome_bind].
  change (splice d 0 []) with d. rewrite E1, insert_insert_eq, <- E1.
  replace {| index := index s1; blobs := blobs s1 |} with s1 by (by destruct s1). unfold shrink_blob.
  rewrite (blob_some s1 p d) by (rewrite E1; apply lookup_insert_eq). cbn [mbind outcome_bind]. change (zlen []) with 0.
  assert (blobs s1 !! p = Some d) as Ep by (rewrite E1; apply lookup_insert_eq).
  destruct (blob_free_spec s1 t L B p d Hm1 Ep) as (s2 & E2 & Hm2 & Eb2). rewrite krealloc_zero by done.
  unfold free_blob in E2. rewrite (blob_some s1 p d Ep) in E2. cbn [mbind outcome_bind] in E2.
  destruct (kfree (heap (index s1)) p) as [hp| |]; cbn [mbind outcome_bind] in *; [|done..]. injection E2 as <-. cbn [Z.eqb].
  eexists _, (Some (p, 0)). split; [reflexivity|]. split; [done|]. cbn [blobs with_heap default] in *. split; [|done].
  by rewrite E1, delete_insert_eq, delete_id.
Qed.

(** C40: a message with an empty text keeps a pointer to a block that is already
    free ([krealloc] of the buffer to no bytes frees it and returns the null
    pointer, which the code takes for a failure); when the message is dropped the
    block is freed again. *)
Theorem empty_text_freed_twice s h0 h max rl now B :
  nodes s.(index) = ∅ → blobs s = ∅ → kh_rep (heap s.(index)) B → history_init (Some h0) max = Some h → 0 ≤ max < 2 ^ 32 →
  ∃ s' h' rc, history_push s (Some h) rl (Some []) now = Ret (s', Some h', rc) ∧ (rc = 0 ∨ rc = - ENOMEM) ∧
    (rc = 0 → history_clear s' (Some h') = Fault).
Proof.
  intros Hn Hb Hh Hi Hmax. assert (mem_ok s {| root := None; height := 0 |} [] B) as Hm.
  { unfold mem_ok. rewrite Hb, dom_empty_L, union_empty_l_L. split; [done|]. intros x Hx. by apply elem_of_empty in Hx. }
  unfold history_init in Hi. apply (inj Some) in Hi. subst h. unfold history_push.
  destruct (pack_empty s _ [] B Hm) as (s1 & [[p n]|] & -> & Hm1 & E1 & Hp); cbn [mbind outcome_bind];
    [|eexists _, _, _; split; [reflexivity|]; split; [by right|done]].
  destruct Hp as (Hp0 & Hf & ->). set (r := replicate _ zero_entry). cbn [evict_full ring head tail].
  change (u32 (0 - 0) >=? HIST_RING_SIZE) with false. cbv iota. cbn [mbind outcome_bind evict_window head tail window_tokens max_tokens].
  change (0 >? 0) with false. rewrite andb_false_r. cbn [mbind outcome_bind]. unfold insert_entry. cbn [ring head]. 
  assert (r.[0 mod HIST_RING_SIZE] = zero_entry) as -> by (unfold r; apply aget_replicate; done).
  cbn [entry_free data zero_entry mbind outcome_bind]. set (e := {| timestamp := now |}). set (h1 := with_next_seq _ _).
  destruct (insert_first (index s1) {| root := None; height := 0 |} _ (seq e) (0 mod HIST_RING_SIZE) (proj1 Hm1)) as (i & t' & rc & L' & E & _).
  change (bpt h1) with {| root := None; height := 0 |}. rewrite E. cbn [mbind outcome_bind].
  eexists _, _, _. split; [reflexivity|]. split; [by left|]. intros _. unfold history_clear, evict_all, evict_oldest.
  change (head (with_bpt h1 t')) with 1. change (tail (with_bpt h1 t')) with 0. change (1 >? 0) with true. change (1 =? 0) with false. cbv iota.
  change (ring (with_bpt h1 t')) with (r.[0 mod HIST_RING_SIZE <- e]).
  rewrite aget_aset_eq by (unfold r, zlen; rewrite length_replicate; done).
  change (data e) with (Some p). unfold entry_free. cbn [data e]. unfold free_blob, blob. cbn [blobs with_index].
  rewrite E1, Hf. done.
Qed.
End refinement.

(** ** On the kernel's heap, after boot *)

Definition demo_store : hstore (Slab.heap pmm_t) := {| index := demo_index; blobs := ∅ |}.
Definition any_history : history :=
  {| ring := []; head := 0; tail := 0; window_tokens := 0; max_tokens := 0; next_seq := 0; bpt := {| root := None; height := 0 |} |}.
Definition demo_history (max : Z) : history := default any_history (history_init (Some any_history) max).
(** The window of nine tokens holds two texts of at most sixteen bytes. *)
Definition demo_hops : list hop :=
  [Push 0 (seqZ 65 16) 1; Push 1 (seqZ 97 16) 2; Count; Tokens; Push 0 [1; 2; 3; 4; 1; 2; 3; 4; 5; 6; 7; 8; 9] 3; Count; SeqAt 0;
   Get 0 (replicate 20 7); Get 0 (replicate 5 7); Get 1 (replicate 20 7); Get 2 (replicate 2 7); Truncate 1; Count; Wipe; Tokens].

Definition history_answers {S T} (o : outcome (S * T * list hans)) : option (list hans) :=
  match o with Ret (_, l) => Some l | _ => None end.

Lemma demo_hops_ok : Forall hop_ok demo_hops.
Proof.
  assert (∀ l, forallb (λ b, (0 <=? b) && (b <? 256)) l = true → l ≠ [] → zlen l < 2 ^ 31 → bytes_ok l ∧ l ≠ [] ∧ zlen l < 2 ^ 31) as Ht.
  { intros l Hl. split; [by apply bytes_ok_check|done]. }
  repeat constructor; try (apply Ht; vm_compute; done); cbn; try lia; done.
Qed.

(** The second text of the last two reads does not come back: a buffer of five
    bytes gets the start of the compressed block, and the third message, whose
    block the decoder rejects, is read as that block. *)
Lemma history_refines_witness :
  (∃ r, hist_run {| a_base := 0; a_msgs := []; a_index := []; a_max := 9; a_next := 0 |} demo_hops r ∧
    match r with
    | Ret (a', l) => ∃ s' h', calls demo_store (demo_history 9) demo_hops = Ret (s', h', l) ∧ hist_abs s' h' a' ∅
    | _ => calls demo_store (demo_history 9) demo_hops = Fault
    end) ∧
  history_answers (calls demo_store (demo_history 9) demo_hops) =
    Some [Rc 0; Rc 0; Num 2; Num 8; Rc 0; Num 2; Num 1; Got 16 (seqZ 97 16 ++ [0]); Got 4 [240; 1; 97; 98; 0];
          Got 11 [64; 1; 2; 3; 4; 4; 0; 1; 0; 0; 0; 0]; Got (- ENOENT) [7; 7]; Rc 0; Num 1; Void; Num 0].
Proof.
  split; [|by vm_compute].
  apply (history_refines demo_store any_history (demo_history 9) 9 demo_hops ∅); [done|done|exact demo_heap_rep|reflexivity|exact demo_hops_ok|cbn; lia].
Defined.

Lemma empty_text_freed_twice_witness :
  ∃ s' h' rc, history_push demo_store (Some (demo_history 9)) 0 (Some []) 1 = Ret (s', Some h', rc) ∧ (rc = 0 ∨ rc = - ENOMEM) ∧
    (rc = 0 → history_clear s' (Some h') = Fault).
Proof.
  apply (empty_text_freed_twice demo_store any_history (demo_history 9) 9 0 1 ∅); [done|done|exact demo_heap_rep|reflexivity|lia].
Defined.
