(* ===== verification/Dns.v ===== *)
(** * The DNS client ([src/kernel/net/dns.c])

    Names are encoded into queries and unpacked from answers over the byte buffers
    of [Buf]. What happens on the network during an exchange is an argument: the
    results of the calls into the network stack, the readings of the clock, and
    the datagrams that each [net_poll] delivers to the bound port. The array
    [cname] of a resolver is not initialised by the code; its bytes are an
    argument too. *)

From stdpp Require Import base numbers list relations.
From S2P Require Import Prelude CMem CString CArray Buf.
From Stdlib Require Import (notations) String.
Open Scope Z_scope.

Definition DNS_PORT : Z := 53.
Definition DNS_TYPE_A : Z := 1.
Definition DNS_TYPE_CNAME : Z := 5.
Definition DNS_TYPE_AAAA : Z := 28.
Definition DNS_CLASS_IN : Z := 1.
Definition TIMER_FREQ_HZ : Z := 1000.
Definition ETIMEDOUT : Z := 15.
Definition ENOTFOUND : Z := 16.
(** The character that separates labels. *)
Definition DOT : Z := 46.

Definition dns_read_u16 (p : list Z) (o : Z) : outcome Z :=
  a ← rd p o; b ← rd p (o + 1); Ret (u16 (Z.lor (Z.shiftl a 8) b)).

(** ** Names in queries *)

(** The bytes up to the next dot and the rest from the dot on. *)
Fixpoint split_label (name : list Z) : list Z * list Z :=
  match name with
  | [] => ([], [])
  | c :: r => if c =? DOT then ([], name) else let '(l, rest) := split_label r in (c :: l, rest)
  end.

Fixpoint encode_labels (fuel : nat) (out : list Z) (cap : Z) (name : list Z) (o : Z) : outcome (list Z * option Z) :=
  match name with
  | [] => Ret (out, Some o)
  | _ =>
      match fuel with
      | O => NoFuel
      | S fuel =>
          let '(l, dot) := split_label name in
          let lab := zlen l in
          if (lab =? 0) || (lab >? 63) || (o + 1 + lab >=? cap) then Ret (out, None) else
          out ← wr out o [u8 lab];
          out ← wr out (o + 1) l;
          encode_labels fuel out cap (tail dot) (o + 1 + lab)
      end
  end.
Definition dns_encode_name (out : list Z) (cap : Z) (name : list Z) : outcome (list Z * Z) :=
  r ← encode_labels (S (length name)) out cap name 0;
  match r with
  | (out, None) => Ret (out, -1)
  | (out, Some o) =>
      if o + 1 >=? cap then Ret (out, -1) else
      out ← wr out o [0];
      Ret (out, s32 (o + 1))
  end.

(** ** Names in answers *)

Definition is_pointer (lab : Z) : bool := Z.land lab 0xC0 =? 0xC0.
Definition pointer (lab b : Z) : Z := u16 (Z.lor (Z.shiftl (Z.land lab 0x3F) 8) b).

Fixpoint unpack_from (fuel : nat) (dst : list Z) (dcap : Z) (pkt : list Z) (pktlen ioff o : Z) (jumped : bool) (back : Z)
    : outcome (list Z * Z * Z) :=
  if ioff >=? pktlen then Ret (dst, ioff, -1) else
  lab ← rd pkt ioff;
  if lab =? 0 then
    dst ← wr dst o [0];
    Ret (dst, if jumped then back else ioff + 1, 0)
  else if is_pointer lab then
    if ioff + 1 >=? pktlen then Ret (dst, ioff, -1) else
    b ← rd pkt (ioff + 1);
    let ptr := pointer lab b in
    let back := if jumped then back else ioff + 2 in
    if ptr >=? pktlen then Ret (dst, ptr, -1) else
    match fuel with O => NoFuel | S fuel => unpack_from fuel dst dcap pkt pktlen ptr o true back end
  else
    let ioff := ioff + 1 in
    if (ioff + lab >? pktlen) || (o + lab + 2 >=? dcap) then Ret (dst, ioff, -1) else
    r ← (if nonzero o then dst ← wr dst o [DOT]; Ret (dst, o + 1) else Ret (dst, o));
    let '(dst, o) := r in
    l ← rd_block pkt ioff lab;
    dst ← wr dst o l;
    match fuel with O => NoFuel | S fuel => unpack_from fuel dst dcap pkt pktlen (ioff + lab) (o + lab) jumped back end.

(** The array, the offset and the result. *)
Definition dns_name_unpack (fuel : nat) (dst : list Z) (dcap : Z) (pkt : list Z) (pktlen ioff depth : Z)
    : outcome (list Z * Z * Z) :=
  if depth >? 12 then Ret (dst, ioff, -1) else unpack_from fuel dst dcap pkt pktlen ioff 0 false 0.

(** ** The sections of a message *)

(** The loop that [dns_skip_question] and [dns_read_rr] share: the offset behind a name. *)
Fixpoint skip_name (fuel : nat) (pkt : list Z) (len off : Z) : outcome (option Z) :=
  if off >=? len then Ret None else
  l ← rd pkt off;
  if l =? 0 then Ret (Some (off + 1))
  else if is_pointer l then Ret (Some (off + 2))
  else match fuel with O => NoFuel | S fuel => skip_name fuel pkt len (off + (1 + l)) end.

Definition dns_skip_question (pkt : list Z) (len off : Z) : outcome (option Z) :=
  r ← skip_name (S (Z.to_nat len)) pkt len off;
  match r with
  | None => Ret None
  | Some off => if off + 4 >? len then Ret None else Ret (Some (off + 4))
  end.

(** The type, the length of the data, their offset and the offset behind them. *)
Definition dns_read_rr (pkt : list Z) (len off : Z) : outcome (option (Z * Z * Z * Z)) :=
  r ← skip_name (S (Z.to_nat len)) pkt len off;
  match r with
  | None => Ret None
  | Some off =>
      if off + 10 >? len then Ret None else
      rtype ← dns_read_u16 pkt off;
      rdlen ← dns_read_u16 pkt (off + 8);
      let rdata_off := off + 10 in
      if rdata_off + rdlen >? len then Ret None else Ret (Some (rtype, rdlen, rdata_off, rdata_off + rdlen))
  end.

(** ** Receiving *)

Record dns_rx_t := { waiting : bool; tid : Z; got : bool; len : Z; buf : list Z }.
Definition DNS_BUF : Z := 1536.
Definition dns_rx0 : dns_rx_t := {| waiting := false; tid := 0; got := false; len := 0; buf := replicate 1536 0 |}.

Definition dns_udp_handler (rx : dns_rx_t) (data : list Z) : outcome dns_rx_t :=
  let n := zlen data in
  if negb rx.(waiting) || (n <? 12) || (n >? DNS_BUF) then Ret rx else
  t ← dns_read_u16 data 0;
  if negb (t =? rx.(tid)) then Ret rx else
  b ← wr rx.(buf) 0 data;
  Ret {| waiting := rx.(waiting); tid := rx.(tid); got := true; len := n; buf := b |}.

Fixpoint deliver (rx : dns_rx_t) (ds : list (list Z)) : outcome dns_rx_t :=
  match ds with
  | [] => Ret rx
  | d :: ds => rx ← dns_udp_handler rx d; deliver rx ds
  end.

(** ** An exchange *)

Record datagram := { dst_ip : Z; dst_port : Z; src_port : Z; payload : list Z }.
(** What the exchange meets: the results of the calls in their order, and for each
    turn of the waiting loop the clock and the datagrams that arrive. *)
Record net_env := {
  dns_server : Z; arp_rc : Z; bind_ticks : Z; bind_rc : Z; tid_ticks : Z * Z; send_rc : Z; sent_ticks : Z;
  poll : nat → Z * list (list Z); stack_cname : list Z; stack_qbuf : list Z }.

Definition with_wait (rx : dns_rx_t) (w : bool) : dns_rx_t :=
  {| waiting := w; tid := rx.(tid); got := rx.(got); len := rx.(len); buf := rx.(buf) |}.

Fixpoint wait_reply (fuel : nat) (rx : dns_rx_t) (p : nat → Z * list (list Z)) (k : nat) (deadline : Z) : outcome dns_rx_t :=
  let '(now, ds) := p k in
  if s64 (deadline - now) >? 0 then
    if rx.(got) then Ret rx else
    match fuel with
    | O => NoFuel
    | S fuel => rx ← deliver rx ds; wait_reply fuel rx p (S k) deadline
    end
  else Ret rx.

(** The query from the identifier on: its header, the name and the question. *)
Definition dns_query (qbuf : list Z) (t qtype : Z) (name : list Z) : outcome (option (list Z)) :=
  q ← wr qbuf 0 [u8 (Z.shiftr t 8); u8 t; 1; 0; 0; 1; 0; 0; 0; 0; 0; 0];
  r ← dns_encode_name (drop 12 q) (zlen q - 12 - 4) name;
  let '(e, nl) := r in
  if nl <? 0 then Ret None else
  let q := take 12 q ++ e in
  q ← wr q (12 + nl) [u8 (Z.shiftr qtype 8); u8 qtype; 0; u8 DNS_CLASS_IN];
  Ret (Some (take (Z.to_nat (12 + nl + 4)) q)).

Definition choose_tid (t : Z * Z) : Z :=
  let x := u16 (Z.lxor t.1 (Z.shiftr t.2 16)) in if x =? 0 then 0xACE1 else x.

Definition set_tid (rx : dns_rx_t) (t : Z) : dns_rx_t :=
  {| waiting := rx.(waiting); tid := t; got := rx.(got); len := rx.(len); buf := rx.(buf) |}.
Definition start_wait (rx : dns_rx_t) : dns_rx_t :=
  {| waiting := true; tid := rx.(tid); got := false; len := 0; buf := rx.(buf) |}.

(** The receiver, the datagram sent and the result. *)
Definition dns_exchange (fuel : nat) (rx : dns_rx_t) (e : net_env) (qtype : Z) (name : list Z) (timeout_ms : Z)
    : outcome (dns_rx_t * option datagram * Z) :=
  let ip := e.(dns_server) in
  if ip =? 0 then Ret (rx, None, - EIO) else
  if e.(arp_rc) <? 0 then Ret (rx, None, - ETIMEDOUT) else
  let sport := u16 (42000 + u16 (Z.land e.(bind_ticks) 0x1FFF)) in
  if e.(bind_rc) <? 0 then Ret (rx, None, - ENOMEM) else
  let rx := set_tid rx (choose_tid e.(tid_ticks)) in
  q ← dns_query e.(stack_qbuf) rx.(tid) qtype name;
  match q with
  | None => Ret (rx, None, - EINVAL)
  | Some q =>
      let sent := Some {| dst_ip := ip; dst_port := DNS_PORT; src_port := sport; payload := q |} in
      let rx := start_wait rx in
      if e.(send_rc) <? 0 then Ret (rx, sent, - EIO) else
      let deadline := u64 (e.(sent_ticks) + timeout_ms * TIMER_FREQ_HZ / 1000) in
      rx ← wait_reply fuel rx e.(poll) 0 deadline;
      let rx := with_wait rx false in
      Ret (rx, sent, if rx.(got) then 0 else - ETIMEDOUT)
  end.

(** ** Answers *)

(** [an] records from [off] on: the array [cname], the result and the address. *)
Fixpoint parse_records (an : nat) (fuel : nat) (rx : dns_rx_t) (a_out aaaa_out : bool) (cname : list Z) (off : Z)
    : outcome (list Z * Z * list Z) :=
  match an with
  | O => Ret (cname, if nonzero (cname.[0]) then 0 else - ENOTFOUND, [])
  | S an =>
      r ← dns_read_rr rx.(buf) rx.(len) off;
      match r with
      | None => Ret (cname, - EIO, [])
      | Some (rtype, rdlen, rdoff, off) =>
          if (rtype =? DNS_TYPE_A) && (rdlen =? 4) && a_out then
            a ← rd_block rx.(buf) rdoff 4; Ret (cname, 1, a)
          else if (rtype =? DNS_TYPE_AAAA) && (rdlen =? 16) && aaaa_out then
            a ← rd_block rx.(buf) rdoff 16; Ret (cname, 2, a)
          else if (rtype =? DNS_TYPE_CNAME) && (zlen cname >? 0) then
            r ← dns_name_unpack fuel cname (zlen cname) rx.(buf) rx.(len) rdoff 0;
            let '(cname, _, _) := r in parse_records an fuel rx a_out aaaa_out cname off
          else parse_records an fuel rx a_out aaaa_out cname off
      end
  end.

Definition dns_parse_response (fuel : nat) (rx : dns_rx_t) (a_out aaaa_out : bool) (cname : list Z)
    : outcome (list Z * Z * list Z) :=
  if rx.(len) <? 12 then Ret (cname, - EIO, []) else
  f ← dns_read_u16 rx.(buf) 2;
  let rcode := u8 (Z.land f 0x0F) in
  if rcode =? 3 then Ret (cname, - ENOTFOUND, []) else
  if nonzero rcode then Ret (cname, - EIO, []) else
  an ← dns_read_u16 rx.(buf) 6;
  q ← dns_skip_question rx.(buf) rx.(len) 12;
  match q with
  | None => Ret (cname, - EIO, [])
  | Some off => cname ← wr cname 0 [0]; parse_records (Z.to_nat an) fuel rx a_out aaaa_out cname off
  end.

(** ** Resolving *)

(** The loop over the hops, shared by the two resolvers, which differ in the type
    they ask for and the result they wait for. *)
Fixpoint resolve_hops (hops : nat) (fuel : nat) (rx : dns_rx_t) (envs : nat → net_env) (v6 : bool) (n : list Z) (timeout_ms : Z)
    : outcome (dns_rx_t * Z * list Z) :=
  match hops with
  | O => Ret (rx, - ENOTFOUND, [])
  | S hops =>
      let e := envs hops in
      r ← dns_exchange fuel rx e (if v6 then DNS_TYPE_AAAA else DNS_TYPE_A) (cstr n) timeout_ms;
      let '(rx, _, rc) := r in
      if rc <? 0 then Ret (rx, rc, []) else
      r ← dns_parse_response fuel rx (negb v6) v6 e.(stack_cname);
      let '(cname, pr, a) := r in
      if pr =? (if v6 then 2 else 1) then Ret (rx, 0, a) else
      if (pr =? 0) && nonzero (cname.[0]) then
        n ← strncpy_term n (cstr cname);
        resolve_hops hops fuel rx envs v6 n timeout_ms
      else Ret (rx, if pr <? 0 then pr else - ENOTFOUND, [])
  end.

Definition dns_resolve (v6 : bool) (fuel : nat) (rx : dns_rx_t) (envs : nat → net_env) (stack_n : list Z)
    (name : option (list Z)) (out : bool) (timeout_ms : Z) : outcome (dns_rx_t * Z * list Z) :=
  match name, out with
  | Some (c :: name), true =>
      n ← strncpy_term stack_n (c :: name);
      resolve_hops 8 fuel rx envs v6 n timeout_ms
  | _, _ => Ret (rx, - EINVAL, [])
  end.
Definition dns_resolve_a := dns_resolve false.
Definition dns_resolve_aaaa := dns_resolve true.

(** * Specification of a name in a message

    A name at an offset is a sequence of labels that ends in a zero byte; a pointer
    goes on at another offset. [reads pkt n off labs e]: the [n] bytes of [pkt] hold
    the labels [labs] at [off], and the name itself ends before [e]. *)

Definition label_at (pkt : list Z) (n off : Z) : option (list Z) :=
  if (off <? n) && nonzero (pkt.[off]) && negb (is_pointer (pkt.[off])) && (off + 1 + pkt.[off] <=? n)
  then Some (sub_list pkt (off + 1) (pkt.[off])) else None.
Definition hop_at (pkt : list Z) (n off : Z) : option Z :=
  if (off + 1 <? n) && is_pointer (pkt.[off]) && (pointer (pkt.[off]) (pkt.[off + 1]) <? n)
  then Some (pointer (pkt.[off]) (pkt.[off + 1])) else None.

Inductive reads (pkt : list Z) (n : Z) : Z → list (list Z) → Z → Prop :=
  | reads_end off : off < n → pkt.[off] = 0 → reads pkt n off [] (off + 1)
  | reads_hop off p labs e : hop_at pkt n off = Some p → reads pkt n p labs e → reads pkt n off labs (off + 2)
  | reads_label off l labs e : label_at pkt n off = Some l → reads pkt n (off + 1 + zlen l) labs e →
      reads pkt n off (l :: labs) e.

(** The text of a name, and whether it fits: each label needs two bytes more than
    are there when it is added. *)
Definition add_label (t l : list Z) : list Z := match t with [] => l | _ => t ++ DOT :: l end.
Definition text_of (labs : list (list Z)) : list Z := foldl add_label [] labs.
Fixpoint fits (dcap : Z) (t : list Z) (labs : list (list Z)) : Prop :=
  match labs with
  | [] => True
  | l :: labs => zlen t + zlen l + 2 < dcap ∧ fits dcap (add_label t l) labs
  end.

(** One turn of the loop that goes on: the offset and the text so far. *)
Inductive next (pkt : list Z) (n dcap : Z) : Z * list Z → Z * list Z → Prop :=
  | next_hop off p t : hop_at pkt n off = Some p → next pkt n dcap (off, t) (p, t)
  | next_label off l t : label_at pkt n off = Some l → zlen t + zlen l + 2 < dcap →
      next pkt n dcap (off, t) (off + 1 + zlen l, add_label t l).
Definition hops (pkt : list Z) (n : Z) (x y : Z) : Prop := hop_at pkt n x = Some y.

(** * Proofs about names *)

Lemma is_pointer_byte b : 0 ≤ b < 256 → is_pointer b = (192 <=? b).
Proof.
  intros Hb. assert (forallb (λ b, Bool.eqb (is_pointer b) (192 <=? b)) (seqZ 0 256) = true) as H by reflexivity.
  rewrite forallb_forall in H. apply Bool.eqb_prop, H. apply list_elem_of_In, elem_of_seqZ. lia.
Qed.

Lemma pointer_range a b : 0 ≤ pointer a b.
Proof. unfold pointer. apply (wrap_range 16). lia. Qed.

Section unpack.
Context (pkt : list Z) (n dcap : Z) (dst0 : list Z).
Context (Hpkt : bytes_ok pkt) (Hn : n ≤ zlen pkt) (Hcap : dcap ≤ zlen dst0) (Hpos : 0 < dcap).

Lemma label_at_some off l : 0 ≤ off → label_at pkt n off = Some l →
  off < n ∧ pkt.[off] ≠ 0 ∧ is_pointer (pkt.[off]) = false ∧ zlen l = pkt.[off] ∧ off + 1 + pkt.[off] ≤ n ∧
  l = sub_list pkt (off + 1) (pkt.[off]) ∧ 0 < zlen l.
Proof.
  intros H0. unfold label_at. destruct (_ && _) eqn:E; [|done]. intros [= <-]. unfold nonzero in E. bool_hyps.
  pose proof (bytes_aget pkt off Hpkt). rewrite zlen_sub_list by lia. repeat split; try done; lia.
Qed.

Lemma hop_at_some off p : hop_at pkt n off = Some p →
  off + 1 < n ∧ is_pointer (pkt.[off]) = true ∧ p = pointer (pkt.[off]) (pkt.[off + 1]) ∧ 0 ≤ p < n.
Proof.
  unfold hop_at. destruct (_ && _) eqn:E; [|done]. intros [= <-]. bool_hyps.
  pose proof (pointer_range (pkt.[off]) (pkt.[off + 1])). done || (repeat split; try done; lia).
Qed.

Lemma zlen_add_label t l : 0 < zlen l → zlen t < zlen (add_label t l) ≤ zlen t + zlen l + 1.
Proof. intros Hl. unfold add_label. destruct t; [change (zlen (@nil Z)) with 0; lia|]. rewrite zlen_app, !zlen_cons. pose proof (zlen_nonneg t). lia. Qed.

(** The state of the loop: the text is at the start of the array. *)
Definition state (fuel : nat) (off : Z) (t : list Z) (j : bool) (back : Z) : outcome (list Z * Z * Z) :=
  unpack_from fuel (splice dst0 0 t) dcap pkt n off (zlen t) j back.

Lemma state_end fuel off t j back :
  0 ≤ off < n → pkt.[off] = 0 → zlen t < dcap →
  state fuel off t j back = Ret (splice dst0 0 (t ++ [0]), if j then back else off + 1, 0).
Proof.
  intros Ho E Ht. unfold state. assert (wr (splice dst0 0 t) (zlen t) [0] = Ret (splice dst0 0 (t ++ [0]))) as Ew.
  { replace (zlen t) with (0 + zlen t) by lia. apply wr_next; [lia|]. change (zlen [0]) with 1. lia. }
  destruct fuel; cbn [unpack_from]; rewrite geb_lt by lia; rewrite (rd_ok pkt off) by lia; cbn [mbind outcome_bind];
    rewrite E; cbn [Z.eqb]; by rewrite Ew.
Qed.

Lemma state_hop fuel off t j back p :
  0 ≤ off → hop_at pkt n off = Some p →
  state fuel off t j back =
  match fuel with O => NoFuel | S fuel => state fuel p t true (if j then back else off + 2) end.
Proof.
  intros H0 Hh. destruct (hop_at_some off p Hh) as (Ho & Eptr & -> & Hr). unfold state.
  destruct fuel; cbn [unpack_from]; rewrite geb_lt by lia; rewrite (rd_ok pkt off) by lia; cbn [mbind outcome_bind];
    (destruct (Z.eqb_spec (pkt.[off]) 0) as [E|_]; [by rewrite E in Eptr|]);
    rewrite Eptr, geb_lt by lia; rewrite (rd_ok pkt (off + 1)) by lia; cbn [mbind outcome_bind]; by rewrite geb_lt by lia.
Qed.

Lemma state_label fuel off t j back l :
  0 ≤ off → label_at pkt n off = Some l → zlen t + zlen l + 2 < dcap →
  state fuel off t j back =
  match fuel with O => NoFuel | S fuel => state fuel (off + 1 + zlen l) (add_label t l) j back end.
Proof.
  intros H0 Hl Hfit. destruct (label_at_some off l H0 Hl) as (Ho & E0 & Eptr & Ezl & Hend & El & Hpos'). unfold state.
  assert (∀ f, (r ← (if nonzero (zlen t) then dst ← wr (splice dst0 0 t) (zlen t) [DOT]; Ret (dst, zlen t + 1)
                     else Ret (splice dst0 0 t, zlen t));
                let '(dst, o) := r in l ← rd_block pkt (off + 1) (pkt.[off]); dst ← wr dst o l; f dst (o + pkt.[off]))
          = f (splice dst0 0 (add_label t l)) (zlen (add_label t l)) :> outcome (list Z * Z * Z)) as Hw.
  { intros f. unfold nonzero, add_label. rewrite rd_block_ok by lia. rewrite <- El, <- Ezl. destruct t as [|c t].
    - change (zlen []) with 0 in *. cbn [Z.eqb negb mbind outcome_bind].
      pose proof (wr_next dst0 0 [] l ltac:(lia)) as E1. change (0 + zlen []) with 0 in E1. cbn [app] in E1.
      rewrite E1 by lia. done.
    - rewrite (proj2 (Z.eqb_neq _ 0)) by (rewrite zlen_cons; pose proof (zlen_nonneg t); lia). cbn [negb].
      pose proof (wr_next dst0 0 (c :: t) [DOT] ltac:(lia)) as E1. change (zlen [DOT]) with 1 in E1.
      rewrite !Z.add_0_l in E1. rewrite E1 by lia. cbn [mbind outcome_bind].
      pose proof (wr_next dst0 0 ((c :: t) ++ [DOT]) l ltac:(lia)) as E2. rewrite zlen_app in E2. change (zlen [DOT]) with 1 in E2.
      rewrite !Z.add_0_l in E2. rewrite E2 by lia. cbn [mbind outcome_bind]. rewrite <- app_assoc. cbn [app].
      change (c :: t ++ DOT :: l) with ((c :: t) ++ DOT :: l).
      f_equal. rewrite zlen_app, (zlen_cons DOT). lia. }
  destruct fuel; cbn [unpack_from]; rewrite geb_lt by lia; rewrite (rd_ok pkt off) by lia; cbn [mbind outcome_bind];
    rewrite (proj2 (Z.eqb_neq _ 0)) by done; rewrite Eptr, gtb_le, geb_lt by lia; cbn [orb].
  - apply (Hw (λ _ _, NoFuel)).
  - rewrite Ezl. apply (Hw (λ d o, unpack_from fuel d dcap pkt n (off + 1 + pkt.[off]) o j back)).
Qed.

(** What a turn of the loop meets. *)
Inductive turn (off : Z) (t : list Z) : Prop :=
  | turn_end : off < n → pkt.[off] = 0 → turn off t
  | turn_hop p : hop_at pkt n off = Some p → turn off t
  | turn_label l : label_at pkt n off = Some l → zlen t + zlen l + 2 < dcap → turn off t
  | turn_stuck : (∀ fuel j back, ∃ x, state fuel off t j back = Ret (splice dst0 0 t, x, -1)) →
      (off < n → pkt.[off] ≠ 0) → hop_at pkt n off = None →
      (∀ l, label_at pkt n off = Some l → dcap ≤ zlen t + zlen l + 2) → turn off t.

Lemma turn_total off t : 0 ≤ off → turn off t.
Proof.
  intros H0. pose proof (bytes_aget pkt off Hpkt) as Hb. destruct (decide (off < n)) as [Ho|Ho].
  2:{ apply turn_stuck; [|lia|..].
      - intros fuel j back. eexists. unfold state. destruct fuel; cbn [unpack_from]; by rewrite geb_ge by lia.
      - unfold hop_at. by rewrite (proj2 (Z.ltb_ge _ _)) by lia.
      - unfold label_at. by rewrite (proj2 (Z.ltb_ge _ _)) by lia. }
  destruct (decide (pkt.[off] = 0)) as [E0|E0]; [by apply turn_end|].
  destruct (is_pointer (pkt.[off])) eqn:Ep.
  - destruct (hop_at pkt n off) as [p|] eqn:Eh; [by eapply turn_hop|]. apply turn_stuck; [|done|done|].
    + intros fuel j back. unfold hop_at in Eh. rewrite Ep, andb_true_r in Eh. unfold state.
      destruct fuel; cbn [unpack_from]; rewrite geb_lt by lia; rewrite (rd_ok pkt off) by lia; cbn [mbind outcome_bind];
        rewrite (proj2 (Z.eqb_neq _ 0)) by done; rewrite Ep; (destruct (Z.geb_spec (off + 1) n); [by eexists|]);
        rewrite (rd_ok pkt (off + 1)) by lia; cbn [mbind outcome_bind]; rewrite (proj2 (Z.ltb_lt _ _)) in Eh by lia; cbn [andb] in Eh;
        (destruct (Z.ltb_spec (pointer pkt.[off] pkt.[off + 1]) n); [done|]); rewrite geb_ge by lia; by eexists.
    + unfold label_at. rewrite Ep. cbn [negb]. by rewrite andb_false_r.
  - assert (hop_at pkt n off = None) as Eh by (unfold hop_at; by rewrite Ep, andb_false_r).
    assert (label_at pkt n off = if off + 1 + pkt.[off] <=? n then Some (sub_list pkt (off + 1) pkt.[off]) else None) as El.
    { unfold label_at, nonzero. rewrite (proj2 (Z.ltb_lt off n)), (proj2 (Z.eqb_neq _ 0)), Ep by done. done. }
    destruct (Z.leb_spec (off + 1 + pkt.[off]) n) as [Hle|Hle].
    + destruct (decide (zlen t + pkt.[off] + 2 < dcap)); [eapply turn_label; [exact El|by rewrite zlen_sub_list by lia]|].
      apply turn_stuck; [|done|done|rewrite El; intros l [= <-]; rewrite zlen_sub_list by lia; lia].
      intros fuel j back. unfold state. eexists.
      destruct fuel; cbn [unpack_from]; rewrite geb_lt by lia; rewrite (rd_ok pkt off) by lia; cbn [mbind outcome_bind];
        rewrite (proj2 (Z.eqb_neq _ 0)) by done; by rewrite Ep, gtb_le, geb_ge by lia.
    + apply turn_stuck; [|done|done|by rewrite El].
      intros fuel j back. unfold state. eexists.
      destruct fuel; cbn [unpack_from]; rewrite geb_lt by lia; rewrite (rd_ok pkt off) by lia; cbn [mbind outcome_bind];
        rewrite (proj2 (Z.eqb_neq _ 0)) by done; by rewrite Ep, gtb_gt by lia.
Qed.

Lemma add_label_cap t l : zlen t + zlen l + 2 < dcap → zlen (add_label t l) < dcap.
Proof.
  intros H. pose proof (zlen_nonneg l). unfold add_label. destruct t as [|c t]; [change (zlen []) with 0 in H; lia|].
  rewrite zlen_app, (zlen_cons DOT). lia.
Qed.

Lemma hop_not_end off p : hop_at pkt n off = Some p → pkt.[off] ≠ 0 ∧ label_at pkt n off = None.
Proof.
  intros (_ & Ep & _)%hop_at_some. split; [by intros E; rewrite E in Ep|].
  unfold label_at. rewrite Ep. cbn [negb]. by rewrite andb_false_r.
Qed.

Lemma reads_hop_inv off p labs e : hop_at pkt n off = Some p → reads pkt n off labs e →
  e = off + 2 ∧ ∃ e', reads pkt n p labs e'.
Proof.
  intros Hh Hr. destruct (hop_not_end off p Hh) as [H0 Hl]. inversion Hr; subst; [done| |congruence].
  simplify_eq. eauto.
Qed.
Lemma reads_label_inv off l labs e : 0 ≤ off → label_at pkt n off = Some l → reads pkt n off labs e →
  ∃ labs', labs = l :: labs' ∧ reads pkt n (off + 1 + zlen l) labs' e.
Proof.
  intros Ho Hl Hr. destruct (label_at_some off l Ho Hl) as (_ & H0 & _). inversion Hr as [|? p ? ? Hh|]; subst; [done| |].
  - destruct (hop_not_end off p Hh). congruence.
  - simplify_eq. eauto.
Qed.

(** What a call gives: nothing yet, the name, or a failure with part of the name written. *)
Inductive unpacked (off : Z) (t : list Z) (j : bool) (back : Z) : outcome (list Z * Z * Z) → Prop :=
  | unpacked_more s : next pkt n dcap (off, t) s → unpacked off t j back NoFuel
  | unpacked_name labs e : reads pkt n off labs e → fits dcap t labs →
      unpacked off t j back (Ret (splice dst0 0 (foldl add_label t labs ++ [0]), if j then back else e, 0))
  | unpacked_failed t' x : zlen t' < dcap → (∀ labs e, reads pkt n off labs e → ¬ fits dcap t labs) →
      unpacked off t j back (Ret (splice dst0 0 t', x, -1)).

Lemma stuck_failed off t j back x :
  0 ≤ off → zlen t < dcap → (off < n → pkt.[off] ≠ 0) → hop_at pkt n off = None →
  (∀ l, label_at pkt n off = Some l → dcap ≤ zlen t + zlen l + 2) → unpacked off t j back (Ret (splice dst0 0 t, x, -1)).
Proof.
  intros H0 Ht Hnz Hh Hl. apply unpacked_failed; [done|]. intros labs e Hr Hf.
  inversion Hr as [? ? E|? p ? ? Hp|? l ? ? El]; subst; [by apply Hnz|congruence|].
  specialize (Hl l El). destruct Hf. lia.
Qed.

Lemma state_spec fuel off t j back : 0 ≤ off → zlen t < dcap → unpacked off t j back (state fuel off t j back).
Proof.
  revert off t j back. induction fuel as [|fuel IH]; intros off t j back H0 Ht; destruct (turn_total off t H0) as [Ho E|p Hh|l Hl Hfit|Hs Hnz Hh Hl].
  - rewrite state_end by done. apply (unpacked_name _ _ _ _ [] (off + 1)); [by constructor|done].
  - rewrite (state_hop _ _ _ _ _ p) by done. by eapply unpacked_more, next_hop.
  - rewrite (state_label _ _ _ _ _ l) by done. by eapply unpacked_more, next_label.
  - destruct (Hs O j back) as [x ->]. by apply stuck_failed.
  - rewrite state_end by done. apply (unpacked_name _ _ _ _ [] (off + 1)); [by constructor|done].
  - rewrite (state_hop _ _ _ _ _ p) by done. pose proof (hop_at_some off p Hh) as (_ & _ & _ & Hp).
    destruct (IH p t true (if j then back else off + 2) ltac:(lia) Ht) as [s Hn'|labs e Hr Hf|t' x Ht' Hno].
    + by eapply unpacked_more, next_hop.
    + replace (if j then back else off + 2) with (if j then back else off + 2) by done.
      apply (unpacked_name off t j back labs (off + 2)); [by eapply reads_hop|done].
    + apply unpacked_failed; [done|]. intros labs e Hr. apply (reads_hop_inv off p) in Hr as (_ & e' & Hr); [by eapply Hno|done].
  - rewrite (state_label _ _ _ _ _ l) by done. pose proof (label_at_some off l H0 Hl) as (_ & _ & _ & Hz & _).
    pose proof (bytes_aget pkt off Hpkt).
    destruct (IH (off + 1 + zlen l) (add_label t l) j back ltac:(lia) (add_label_cap t l Hfit)) as [s Hn'|labs e Hr Hf|t' x Ht' Hno].
    + by eapply unpacked_more, next_label.
    + apply (unpacked_name off t j back (l :: labs) e); [by eapply reads_label|done].
    + apply unpacked_failed; [done|]. intros labs e Hr.
      apply (reads_label_inv off l) in Hr as (labs' & -> & Hr); [|done..]. intros [_ Hf]. by eapply Hno.
  - destruct (Hs (S fuel) j back) as [x ->]. by apply stuck_failed.
Qed.

(** ** Termination

    The loop runs out of fuel exactly when it can take that many turns. Between
    two labels it only follows pointers, so more than [n] turns without a label
    visit an offset twice. *)

Lemma next_inv off t s j back fuel : 0 ≤ off → zlen t < dcap → next pkt n dcap (off, t) s →
  0 ≤ s.1 ∧ zlen s.2 < dcap ∧ state O off t j back = NoFuel ∧ ∃ j' back', state (S fuel) off t j back = state fuel s.1 s.2 j' back'.
Proof.
  intros H0 Ht Hs. inversion Hs as [? p ? Hh|? l ? Hl Hfit]; subst; cbn [fst snd].
  - pose proof (hop_at_some off p Hh) as (_ & _ & _ & Hp). rewrite !(state_hop _ _ _ _ _ p) by done.
    split; [lia|]. split; [lia|]. eauto.
  - pose proof (label_at_some off l H0 Hl) as (_ & _ & _ & Hz & _). pose proof (bytes_aget pkt off Hpkt).
    rewrite !(state_label _ _ _ _ _ l) by done. split; [lia|]. split; [by apply add_label_cap|]. eauto.
Qed.

Lemma nofuel_steps fuel off t j back : 0 ≤ off → zlen t < dcap →
  state fuel off t j back = NoFuel ↔ ∃ s, nsteps (next pkt n dcap) (S fuel) (off, t) s.
Proof.
  revert off t j back. induction fuel as [|fuel IH]; intros off t j back H0 Ht.
  - split.
    + pose proof (state_spec 0 off t j back H0 Ht) as Hs. intros E. rewrite E in Hs. inversion Hs. eexists. by apply nsteps_once.
    + intros [s ?%nsteps_once_inv]. by edestruct (next_inv off t s j back O) as (_ & _ & ? & _).
  - split.
    + pose proof (state_spec (S fuel) off t j back H0 Ht) as Hs. intros E. rewrite E in Hs. inversion Hs as [[off' t'] Hn'| |].
      destruct (next_inv off t _ j back fuel H0 Ht Hn') as (H0' & Ht' & _ & j' & back' & E'). rewrite E in E'.
      symmetry in E'. apply IH in E' as [s Hss]; [|done..]. exists s. by eapply nsteps_l.
    + intros [s Hss]. inversion Hss as [|? ? [off' t'] ? Hn' Hrest]; subst.
      destruct (next_inv off t _ j back fuel H0 Ht Hn') as (H0' & Ht' & _ & j' & back' & ->). apply IH; eauto.
Qed.

Lemma chain_repeats (l : list Z) (x : Z) :
  (∀ i a b, (x :: l) !! i = Some a → (x :: l) !! S i = Some b → hops pkt n a b) → ¬ NoDup (x :: l) →
  ∃ z, rtc (hops pkt n) x z ∧ tc (hops pkt n) z z.
Proof.
  revert x. induction l as [|y l IH]; intros x Hc Hd; [destruct Hd; apply NoDup_singleton|].
  assert (hops pkt n x y) as Hxy by (by apply (Hc 0%nat)).
  assert (∀ i z, (y :: l) !! i = Some z → tc (hops pkt n) x z) as Htc.
  { intros i. induction i as [|i IHi]; intros z Hz; [injection Hz as <-; by apply tc_once|].
    destruct (lookup_lt_is_Some_2 (y :: l) i) as [w Hw]; [apply lookup_lt_Some in Hz; lia|].
    eapply tc_r; [by apply IHi|]. by apply (Hc (S i)). }
  destruct (decide (x ∈ y :: l)) as [Hin|Hni].
  - exists x. split; [done|]. apply list_elem_of_lookup in Hin as [i Hi]. by eapply Htc.
  - destruct (IH y) as (z & Hz & Hzz); [intros i a b Ha Hb; by apply (Hc (S i))|by intros Hnd; apply Hd, NoDup_cons|].
    exists z. split; [by eapply rtc_l|done].
Qed.

Lemma hops_path k x y : nsteps (hops pkt n) k x y →
  ∃ l, length l = k ∧ ∀ i a b, (x :: l) !! i = Some a → (x :: l) !! S i = Some b → hops pkt n a b.
Proof.
  induction 1 as [x|k x y z Hxy _ (l & Hl & Hc)]; [by exists []|].
  exists (y :: l). split; [cbn; lia|]. intros [|i] a b Ha Hb; [by injection Ha as <-; injection Hb as <-|by apply (Hc i)].
Qed.

Lemma hops_repeat k x y : 0 ≤ x → (Z.to_nat n < k)%nat → nsteps (hops pkt n) k x y →
  ∃ z, rtc (hops pkt n) x z ∧ tc (hops pkt n) z z.
Proof.
  intros Hx Hk Hs. destruct (hops_path k x y Hs) as (l & Hl & Hc). apply (chain_repeats l x Hc). intros Hnd.
  assert (∀ z, z ∈ l → 0 ≤ z < n) as Hin.
  { intros z [i Hi]%list_elem_of_lookup. destruct (lookup_lt_is_Some_2 (x :: l) i) as [w Hw]; [apply lookup_lt_Some in Hi; cbn; lia|].
    apply (Hc i w z) in Hi; [|done]. by apply hop_at_some in Hi as (_ & _ & _ & ?). }
  assert (l ⊆+ seqZ 0 n) as Hsub.
  { apply NoDup_submseteq; [by apply NoDup_cons in Hnd as [_ ?]|]. intros z Hz. apply elem_of_seqZ. specialize (Hin z Hz). lia. }
  apply submseteq_length in Hsub. rewrite length_seqZ in Hsub. lia.
Qed.

Lemma hops_next x y t : rtc (hops pkt n) x y → rtc (next pkt n dcap) (x, t) (y, t).
Proof. induction 1 as [x|x y z Hxy _ IH]; [done|]. eapply rtc_l; [by eapply next_hop|done]. Qed.

(** A run either only follows pointers or reaches a label. *)
Lemma next_split k off t s : nsteps (next pkt n dcap) k (off, t) s →
  (∃ y, nsteps (hops pkt n) k off y) ∨
  ∃ i o l, (i < k)%nat ∧ nsteps (hops pkt n) i off o ∧ label_at pkt n o = Some l ∧ zlen t + zlen l + 2 < dcap ∧
    nsteps (next pkt n dcap) (k - 1 - i) (o + 1 + zlen l, add_label t l) s.
Proof.
  revert off t. induction k as [|k IH]; intros off t Hs; [left; exists off; constructor|].
  inversion Hs as [|? ? q ? Hn' Hrest]; subst. inversion Hn' as [? p ? Hh|? l ? Hl Hfit]; subst.
  - destruct (IH p t Hrest) as [[y Hy]|(i & o & l & Hi & Ho & Hl & Hf & Hr)].
    + left. exists y. by eapply nsteps_l.
    + right. exists (S i), o, l. split; [lia|]. split; [by eapply nsteps_l|]. by replace (S k - 1 - S i)%nat with (k - 1 - i)%nat by lia.
  - right. exists O, off, l. split; [lia|]. split; [constructor|]. by replace (S k - 1 - 0)%nat with k by lia.
Qed.

Lemma hops_nonneg k x y : 0 ≤ x → nsteps (hops pkt n) k x y → 0 ≤ y.
Proof. intros Hx. induction 1 as [|k x y z Hxy _ IH]; [done|]. apply IH. apply hop_at_some in Hxy as (_ & _ & _ & ?). lia. Qed.

Lemma long_run_loops m k off t s :
  0 ≤ off → (Z.to_nat (dcap - zlen t) ≤ m)%nat → (S m * S (Z.to_nat n) ≤ k)%nat →
  nsteps (next pkt n dcap) k (off, t) s →
  ∃ x t', rtc (next pkt n dcap) (off, t) (x, t') ∧ tc (hops pkt n) x x.
Proof.
  revert k off t. induction m as [|m IH]; intros k off t H0 Hm Hk Hs;
    destruct (next_split k off t s Hs) as [[y Hy]|(i & o & l & Hi & Ho & Hl & Hf & Hr)].
  1,3: destruct (hops_repeat k off y H0 ltac:(lia) Hy) as (z & Hz & Hzz); exists z, t; split; [by apply hops_next|done].
  - pose proof (zlen_nonneg l). lia.
  - destruct (decide (Z.to_nat n < i)%nat) as [Hlong|Hshort].
    + destruct (hops_repeat i off o H0 Hlong Ho) as (z & Hz & Hzz). exists z, t. split; [by apply hops_next|done].
    + pose proof (hops_nonneg i off o H0 Ho). pose proof (label_at_some o l ltac:(done) Hl) as (_ & _ & _ & _ & _ & _ & Hzl).
      pose proof (zlen_add_label t l Hzl).
      destruct (IH (k - 1 - i)%nat (o + 1 + zlen l) (add_label t l)) as (x & t' & Hx & Hxx); [lia|lia|lia|done|].
      exists x, t'. split; [|done]. etrans; [apply hops_next; by eapply rtc_nsteps_2|].
      eapply rtc_l; [by apply next_label|done].
Qed.

(** A circle of pointers can be followed for ever. *)
Lemma circle_runs x t k : tc (hops pkt n) x x → ∃ y, nsteps (next pkt n dcap) k (x, t) (y, t).
Proof.
  intros Hx. assert (∃ y, hops pkt n x y ∧ rtc (hops pkt n) y x) as H.
  { inversion Hx as [? ? H|? y ? H H']; subst; [by exists x|]. exists y. split; [done|by apply tc_rtc]. }
  clear Hx. assert (∀ z, rtc (hops pkt n) z x → ∃ y, nsteps (next pkt n dcap) k (z, t) (y, t)) as Hall; [|apply Hall; done].
  induction k as [|k IH]; intros z Hz; [exists z; constructor|]. destruct H as (y & Hxy & Hyx).
  inversion Hz as [|? w ? Hzw Hwx]; subst.
  - destruct (IH y Hyx) as [v Hv]. exists v. eapply nsteps_l; [by eapply next_hop|done].
  - destruct (IH w Hwx) as [v Hv]. exists v. eapply nsteps_l; [by eapply next_hop|done].
Qed.

Lemma reached_runs off t x t' k : rtc (next pkt n dcap) (off, t) (x, t') → tc (hops pkt n) x x →
  ∃ s, nsteps (next pkt n dcap) k (off, t) s.
Proof.
  intros (i & Hi)%rtc_nsteps Hx. destruct (circle_runs x t' k Hx) as [y Hy].
  pose proof (nsteps_trans _ _ _ _ _ Hi Hy) as Hall. rewrite Nat.add_comm in Hall.
  apply nsteps_add_inv in Hall as (s & Hs & _). by exists s.
Qed.

(** The fuel that decides whether the loop ends. *)
Definition unpack_fuel : nat := S (Z.to_nat dcap) * S (Z.to_nat n).

Lemma nofuel_circle off j back fuel : 0 ≤ off → (unpack_fuel ≤ fuel)%nat →
  state fuel off [] j back = NoFuel ↔ ∃ x t, rtc (next pkt n dcap) (off, []) (x, t) ∧ tc (hops pkt n) x x.
Proof.
  intros H0 Hf. rewrite nofuel_steps by (change (zlen []) with 0; lia). split.
  - intros [s Hs]. eapply (long_run_loops (Z.to_nat dcap) (S fuel)); [done|change (zlen []) with 0; lia| |done].
    unfold unpack_fuel in Hf. lia.
  - intros (x & t & Hr & Hx). by eapply reached_runs.
Qed.

Lemma circle_nofuel off j back fuel : 0 ≤ off → (∃ x t, rtc (next pkt n dcap) (off, []) (x, t) ∧ tc (hops pkt n) x x) →
  state fuel off [] j back = NoFuel.
Proof.
  intros H0 (x & t & Hr & Hx). apply nofuel_steps; [done|change (zlen []) with 0; lia|]. by eapply reached_runs.
Qed.
End unpack.

(** ** Encoding *)

Definition label_ok (l : list Z) : Prop := 0 < zlen l ≤ 63 ∧ Forall (λ c, 0 < c < 256 ∧ c ≠ DOT) l.
Fixpoint dotted (labs : list (list Z)) : list Z :=
  match labs with [] => [] | [l] => l | l :: labs => l ++ DOT :: dotted labs end.
(** The labels with their lengths, and the zero byte at the end. *)
Definition wire_labels (labs : list (list Z)) : list Z := concat (map (λ l, zlen l :: l) labs).
Definition wire (labs : list (list Z)) : list Z := wire_labels labs ++ [0].

Lemma split_label_dot l r : Forall (λ c, 0 < c < 256 ∧ c ≠ DOT) l → split_label (l ++ DOT :: r) = (l, DOT :: r).
Proof.
  induction 1 as [|c l [_ Hc] _ IH]; [done|]. cbn [app split_label]. rewrite (proj2 (Z.eqb_neq c DOT)) by done. by rewrite IH.
Qed.
Lemma split_label_end l : Forall (λ c, 0 < c < 256 ∧ c ≠ DOT) l → split_label l = (l, []).
Proof. induction 1 as [|c l [_ Hc] _ IH]; [done|]. cbn [split_label]. rewrite (proj2 (Z.eqb_neq c DOT)) by done. by rewrite IH. Qed.

Lemma dotted_cons l labs (tr : list Z) : label_ok l → (labs = [] → tr = [] ∨ tr = [DOT]) →
  ∃ c r d, dotted (l :: labs) ++ tr = c :: r ∧ split_label (c :: r) = (l, d) ∧ tail d = dotted labs ++ (match labs with [] => [] | _ => tr end).
Proof.
  intros [Hl Hf] Htr. destruct l as [|c l]; [change (zlen []) with 0 in Hl; lia|]. destruct labs as [|l' labs].
  - cbn [dotted]. destruct (Htr eq_refl) as [-> | ->].
    + exists c, l, []. rewrite app_nil_r. split; [done|]. split; [by apply split_label_end|done].
    + exists c, (l ++ [DOT]), [DOT]. split; [done|]. split; [|done]. by apply (split_label_dot (c :: l) []).
  - exists c, (l ++ DOT :: dotted (l' :: labs) ++ tr), (DOT :: dotted (l' :: labs) ++ tr).
    change (dotted ((c :: l) :: l' :: labs)) with ((c :: l) ++ DOT :: dotted (l' :: labs)). rewrite <- app_assoc. split; [done|].
    split; [|done]. by apply (split_label_dot (c :: l)).
Qed.

Lemma zlen_wire_cons l labs : zlen (wire_labels (l :: labs)) = 1 + zlen l + zlen (wire_labels labs).
Proof. unfold wire_labels. cbn [map concat]. rewrite zlen_app, zlen_cons. lia. Qed.

Lemma encode_labels_spec labs tr fuel out acc cap :
  Forall label_ok labs → tr = [] ∨ tr = [DOT] ∧ labs ≠ [] → (length labs ≤ fuel)%nat → cap ≤ zlen out → zlen acc < cap →
  if decide (zlen acc + zlen (wire_labels labs) < cap)
  then encode_labels fuel (splice out 0 acc) cap (dotted labs ++ tr) (zlen acc) =
       Ret (splice out 0 (acc ++ wire_labels labs), Some (zlen acc + zlen (wire_labels labs)))
  else ∃ acc', zlen acc' < cap ∧ encode_labels fuel (splice out 0 acc) cap (dotted labs ++ tr) (zlen acc) = Ret (splice out 0 acc', None).
Proof.
  revert tr fuel acc. induction labs as [|l labs IH]; intros tr fuel acc Hok Htr Hf Hcap Hacc.
  { assert (tr = []) as -> by naive_solver. change (zlen (wire_labels [])) with 0. rewrite decide_True by lia.
    change (wire_labels []) with (@nil Z). rewrite Z.add_0_r, !app_nil_r. by destruct fuel. }
  apply Forall_cons in Hok as [Hl Hok]. destruct fuel as [|fuel]; [cbn in Hf; lia|].
  destruct (dotted_cons l labs tr Hl) as (c & r & d & -> & Esplit & Etail); [naive_solver|].
  cbn [encode_labels]. rewrite Esplit, Etail. destruct Hl as [Hl _]. rewrite zlen_wire_cons.
  pose proof (zlen_nonneg acc). pose proof (zlen_nonneg (wire_labels labs)).
  rewrite (proj2 (Z.eqb_neq _ 0)) by lia. rewrite gtb_le by lia. cbn [orb].
  destruct (Z.geb_spec (zlen acc + 1 + zlen l) cap) as [Hbig|Hsmall].
  { rewrite decide_False by lia. by exists acc. }
  assert (u8 (zlen l) = zlen l) as -> by (apply wrap_id; lia).
  pose proof (wr_next out 0 acc [zlen l] ltac:(lia)) as E1. change (zlen [zlen l]) with 1 in E1. rewrite !Z.add_0_l in E1.
  rewrite E1 by lia. cbn [mbind outcome_bind].
  pose proof (wr_next out 0 (acc ++ [zlen l]) l ltac:(lia)) as E2. rewrite zlen_app in E2. change (zlen [zlen l]) with 1 in E2.
  rewrite !Z.add_0_l in E2. rewrite E2 by lia. cbn [mbind outcome_bind]. rewrite <- app_assoc. cbn [app].
  specialize (IH (match labs with [] => [] | _ => tr end) fuel (acc ++ zlen l :: l) Hok).
  assert (zlen (acc ++ zlen l :: l) = zlen acc + 1 + zlen l) as Ea by (rewrite zlen_app, zlen_cons; lia).
  rewrite Ea in IH. destruct (decide (zlen acc + (1 + zlen l + zlen (wire_labels labs)) < cap)).
  - rewrite decide_True in IH by lia. rewrite IH; [|by destruct labs; naive_solver|cbn in Hf; lia..].
    unfold wire_labels. cbn [map concat]. rewrite <- app_assoc. cbn [app].
    by replace (zlen acc + 1 + zlen l + zlen (concat (map (λ l, zlen l :: l) labs))) with
      (zlen acc + (1 + zlen l + zlen (concat (map (λ l, zlen l :: l) labs)))) by lia.
  - rewrite decide_False in IH by lia. apply IH; [by destruct labs; naive_solver|cbn in Hf; lia..].
Qed.

Lemma encode_spec labs tr out cap :
  Forall label_ok labs → tr = [] ∨ tr = [DOT] ∧ labs ≠ [] → 0 < cap ≤ zlen out → cap < 2 ^ 31 →
  if decide (zlen (wire labs) < cap)
  then dns_encode_name out cap (dotted labs ++ tr) = Ret (splice out 0 (wire labs), zlen (wire labs))
  else ∃ acc, zlen acc < cap ∧ dns_encode_name out cap (dotted labs ++ tr) = Ret (splice out 0 acc, -1).
Proof.
  intros Hok Htr Hcap H31. unfold dns_encode_name. change out with (splice out 0 []) at 1 3.
  assert (length labs ≤ S (length (dotted labs ++ tr)))%nat as Hfuel.
  { clear -Hok. rewrite length_app. induction Hok as [|l labs [Hl _] _ IH]; [cbn; lia|].
    destruct labs as [|l' labs]; [cbn; lia|]. change (dotted (l :: l' :: labs)) with (l ++ DOT :: dotted (l' :: labs)).
    rewrite length_app. cbn [length] in *. lia. }
  pose proof (encode_labels_spec labs tr _ out [] cap Hok Htr Hfuel ltac:(lia) ltac:(change (zlen []) with 0; lia)) as He.
  change (zlen []) with 0 in He. rewrite !Z.add_0_l in He. cbn [app] in He.
  assert (zlen (wire labs) = zlen (wire_labels labs) + 1) as Ew by (unfold wire; rewrite zlen_app; done). rewrite Ew.
  pose proof (zlen_nonneg (wire_labels labs)).
  destruct (decide (zlen (wire_labels labs) < cap)) as [Hl|Hl].
  - rewrite He. cbn [mbind outcome_bind]. destruct (Z.geb_spec (zlen (wire_labels labs) + 1) cap).
    + rewrite decide_False by lia. by exists (wire_labels labs).
    + rewrite decide_True by lia. pose proof (wr_next out 0 (wire_labels labs) [0] ltac:(lia)) as E1.
      change (zlen [0]) with 1 in E1. rewrite !Z.add_0_l in E1. rewrite E1 by lia. cbn [mbind outcome_bind].
      do 2 f_equal. unfold swrap, wrap. rewrite Z.mod_small by lia. by rewrite (proj2 (Z.ltb_lt _ _)) by lia.
  - rewrite decide_False by lia. destruct He as (acc & Hacc & ->). by exists acc.
Qed.

(** ** Encoded names are read back *)

Lemma aget_middle (pre : list Z) x post : (pre ++ x :: post).[zlen pre] = x.
Proof. rewrite aget_app_r by lia. by rewrite Z.sub_diag. Qed.

Lemma label_at_wire l pre post n : label_ok l → zlen pre + 1 + zlen l ≤ n →
  label_at (pre ++ (zlen l :: l) ++ post) n (zlen pre) = Some l.
Proof.
  intros [Hl _] Hn. unfold label_at. cbn [app]. rewrite aget_middle.
  rewrite is_pointer_byte by lia. rewrite (proj2 (Z.ltb_lt (zlen pre) n)), (proj2 (Z.leb_gt 192 _)), (proj2 (Z.leb_le _ n)) by lia.
  unfold nonzero. rewrite (proj2 (Z.eqb_neq _ 0)) by lia. cbn [andb negb]. f_equal.
  replace (pre ++ zlen l :: l ++ post) with ((pre ++ [zlen l]) ++ l ++ post) by (by rewrite <- app_assoc).
  replace (zlen pre + 1) with (zlen (pre ++ [zlen l])) by (rewrite zlen_app; done). apply sub_list_middle.
Qed.

Lemma wire_state labs pre post fuel dst t j back dcap :
  let pkt := pre ++ wire labs ++ post in
  Forall label_ok labs → bytes_ok pkt → dcap ≤ zlen dst → zlen t < dcap → fits dcap t labs → (length labs ≤ fuel)%nat →
  state pkt (zlen pkt) dcap dst fuel (zlen pre) t j back =
  Ret (splice dst 0 (foldl add_label t labs ++ [0]), if j then back else zlen pre + zlen (wire labs), 0).
Proof.
  intros pkt Hok. subst pkt. revert pre fuel t. induction Hok as [|l labs Hl Hok IH]; intros pre fuel t Hb Hcap Ht Hfit Hf.
  - pose proof (zlen_nonneg pre). pose proof (zlen_nonneg post).
    rewrite state_end; [by change (wire []) with [0]|done|done|..|done].
    + rewrite !zlen_app. change (zlen (wire [])) with 1. lia.
    + change (wire [] ++ post) with (0 :: post). apply aget_middle.
  - destruct fuel as [|fuel]; [cbn in Hf; lia|].
    pose proof (zlen_nonneg pre). pose proof (zlen_nonneg post). pose proof (zlen_nonneg (wire labs)).
    assert (pre ++ wire (l :: labs) ++ post = (pre ++ zlen l :: l) ++ wire labs ++ post) as Epkt.
    { unfold wire, wire_labels. cbn [map concat]. by rewrite <- !app_assoc. }
    rewrite Epkt in *. set (pkt := (pre ++ zlen l :: l) ++ wire labs ++ post) in *. destruct Hfit as [Hfit Hfits].
    assert (zlen pkt = zlen pre + 1 + zlen l + zlen (wire labs) + zlen post) as Ez by (unfold pkt; rewrite !zlen_app, zlen_cons; lia).
    rewrite (state_label pkt (zlen pkt) dcap dst Hb ltac:(lia) ltac:(lia) _ _ _ _ _ l); [|done| |done].
    2:{ pose proof (label_at_wire l pre (wire labs ++ post) (zlen pkt) Hl ltac:(lia)) as E. by rewrite app_assoc in E. }
    assert (zlen pre + 1 + zlen l = zlen (pre ++ zlen l :: l)) as -> by (rewrite zlen_app, zlen_cons; lia).
    unfold pkt. rewrite IH; [|done|done|by eapply add_label_cap|done|cbn in Hf; lia]. cbn [foldl]. do 3 f_equal.
    destruct j; [done|]. unfold wire, wire_labels. cbn [map concat]. rewrite !zlen_app, !zlen_cons. lia.
Qed.

Lemma dotted_text labs t : Forall label_ok labs → t ≠ [] → foldl add_label t labs = t ++ match labs with [] => [] | _ => DOT :: dotted labs end.
Proof.
  intros Hok. revert t. induction Hok as [|l labs Hl Hok IH]; intros t Ht; [by rewrite app_nil_r|]. cbn [foldl].
  destruct t as [|c t]; [done|]. cbn [add_label]. rewrite IH by done. rewrite <- app_assoc. destruct labs; cbn [app dotted]; by rewrite ?app_nil_r.
Qed.

Lemma text_of_dotted labs : Forall label_ok labs → text_of labs = dotted labs.
Proof.
  intros Hok. unfold text_of. destruct Hok as [|l labs Hl Hok]; [done|]. cbn [foldl add_label].
  rewrite dotted_text; [|done|intros ->; destruct Hl as [Hl _]; change (zlen []) with 0 in Hl; lia].
  destruct labs; [by rewrite app_nil_r|done].
Qed.

(** A name whose encoding is shorter than the array fits into it. *)
Lemma wire_fits labs t dcap : Forall label_ok labs → zlen t + zlen (wire_labels labs) + 1 < dcap → fits dcap t labs.
Proof.
  intros Hok. revert t. induction Hok as [|l labs Hl Hok IH]; intros t Ht; [done|]. rewrite zlen_wire_cons in Ht.
  pose proof (zlen_nonneg (wire_labels labs)). split; [lia|]. apply IH.
  pose proof (zlen_add_label t l ltac:(destruct Hl; lia)). lia.
Qed.

Lemma wire_length labs : zlen (wire labs) = zlen (wire_labels labs) + 1.
Proof. unfold wire. by rewrite zlen_app. Qed.

(** C28: a name of labels of 1 to 63 characters, with or without a dot at the end, is encoded exactly when
    its encoding is shorter than the room for it, and otherwise refused with only
    that room written; wherever the encoding stands in a message it is unpacked as
    the name without the last dot, with the offset just behind it. *)
Theorem dns_name_roundtrip labs tr out cap pre post dst fuel :
  Forall label_ok labs → tr = [] ∨ tr = [DOT] ∧ labs ≠ [] → 0 < cap ≤ zlen out → cap < 2 ^ 31 →
  bytes_ok (pre ++ wire labs ++ post) → zlen (wire labs) < zlen dst → (length labs ≤ fuel)%nat →
  (if decide (zlen (wire labs) < cap)
   then dns_encode_name out cap (dotted labs ++ tr) = Ret (splice out 0 (wire labs), zlen (wire labs))
   else ∃ acc, zlen acc < cap ∧ dns_encode_name out cap (dotted labs ++ tr) = Ret (splice out 0 acc, -1)) ∧
  dns_name_unpack fuel dst (zlen dst) (pre ++ wire labs ++ post) (zlen (pre ++ wire labs ++ post)) (zlen pre) 0 =
    Ret (splice dst 0 (dotted labs ++ [0]), zlen pre + zlen (wire labs), 0).
Proof.
  intros Hok Htr Hcap H31 Hb Hdst Hf. split; [by apply encode_spec|]. rewrite wire_length in Hdst. pose proof (zlen_nonneg (wire_labels labs)).
  pose proof (wire_state labs pre post fuel dst [] false 0 (zlen dst) Hok Hb ltac:(lia)) as Hs. cbn zeta in Hs.
  rewrite <- text_of_dotted by done. apply Hs; [change (zlen []) with 0; lia|by apply wire_fits|done].
Qed.

Lemma dns_name_roundtrip_witness :
  dns_name_unpack 2 (replicate 32 7) 32 (wire [bytes "os"; bytes "org"] ++ [1; 2]) 10 0 0 =
    Ret (splice (replicate 32 7) 0 (bytes "os.org" ++ [0]), 8, 0) ∧
  dns_encode_name (replicate 16 0) 16 (bytes "os.org.") = Ret (bytes "" ++ [2; 111; 115; 3; 111; 114; 103; 0] ++ replicate 8 0, 8).
Proof.
  assert (Forall label_ok [bytes "os"; bytes "org"]) as Hok.
  { repeat constructor; cbn; try lia; done. }
  destruct (dns_name_roundtrip [bytes "os"; bytes "org"] [DOT] (replicate 16 0) 16 [] [1; 2] (replicate 32 7) 2 Hok) as [H1 H2].
  - by right.
  - by vm_compute.
  - lia.
  - by repeat constructor.
  - by vm_compute.
  - by vm_compute; lia.
  - split; [exact H2|]. rewrite decide_True in H1 by (by vm_compute). exact H1.
Defined.

(** ** Unpacking decides *)

(** C22: within [unpack_fuel] turns the unpacking of any message returns, unless it
    reaches a circle of pointers, and then it never does; it returns 0 exactly for a
    name that fits, with its text in the array, and writes nothing past the array. *)
Theorem dns_unpack_decides pkt n dst off fuel :
  bytes_ok pkt → n ≤ zlen pkt → 0 < zlen dst → 0 ≤ off → (unpack_fuel n (zlen dst) ≤ fuel)%nat →
  let r := dns_name_unpack fuel dst (zlen dst) pkt n off 0 in
  (∃ labs e, reads pkt n off labs e ∧ fits (zlen dst) [] labs ∧ r = Ret (splice dst 0 (text_of labs ++ [0]), e, 0)) ∨
  (∃ t x, (∀ labs e, reads pkt n off labs e → ¬ fits (zlen dst) [] labs) ∧ zlen t < zlen dst ∧ r = Ret (splice dst 0 t, x, -1)) ∨
  ((∃ x t, rtc (next pkt n (zlen dst)) (off, []) (x, t) ∧ tc (hops pkt n) x x) ∧
   ∀ fuel, dns_name_unpack fuel dst (zlen dst) pkt n off 0 = NoFuel).
Proof.
  intros Hb Hn Hd H0 Hf r. subst r. change (dns_name_unpack fuel dst (zlen dst) pkt n off 0) with (state pkt n (zlen dst) dst fuel off [] false 0).
  pose proof (nofuel_circle pkt n (zlen dst) dst Hb Hn ltac:(lia) Hd off false 0 fuel H0 Hf) as Hc.
  destruct (state_spec pkt n (zlen dst) dst Hb Hn ltac:(lia) fuel off [] false 0 H0 Hd) as [s Hs|labs e Hr Hfit|t x Ht Hno].
  - right; right. assert (∃ x t, rtc (next pkt n (zlen dst)) (off, []) (x, t) ∧ tc (hops pkt n) x x) as Hx by by apply Hc.
    split; [done|]. intros fuel'. by apply (circle_nofuel pkt n (zlen dst) dst).
  - left. by exists labs, e.
  - right; left. by exists t, x.
Qed.

Lemma dns_unpack_decides_witness :
  dns_name_unpack (Z.to_nat 100000) (replicate 8 0) 8 [1; 97; 192; 4; 192; 2] 6 0 0 = NoFuel.
Proof.
  destruct (dns_unpack_decides [1; 97; 192; 4; 192; 2] 6 (replicate 8 0) 0 (unpack_fuel 6 8)) as [(labs & e & _ & _ & H)|[(t & x & _ & _ & H)|[_ H]]].
  - by repeat constructor.
  - by vm_compute.
  - by vm_compute.
  - lia.
  - done.
  - vm_compute in H. discriminate H.
  - vm_compute in H. discriminate H.
  - exact (H (Z.to_nat 100000)).
Defined.

(** ** Memory safety of the whole client

    In terms of [Buf.ends]. *)

Lemma read_u16_ends p i : 0 ≤ i → i + 2 ≤ zlen p → ends False (λ v, 0 ≤ v < 65536) (dns_read_u16 p i).
Proof. intros H0 Hi. unfold dns_read_u16. rewrite !rd_ok by lia. cbn. apply (wrap_range 16). lia. Qed.

Lemma skip_name_ends fuel pkt n off :
  bytes_ok pkt → n ≤ zlen pkt → 0 ≤ off → (Z.to_nat (n - off) < fuel)%nat →
  ends False (λ r, ∀ o, r = Some o → off < o) (skip_name fuel pkt n off).
Proof.
  intros Hb Hn. revert off. induction fuel as [|fuel IH]; intros off H0 Hf; [lia|]. cbn [skip_name].
  destruct (Z.geb_spec off n); [done|]. rewrite rd_ok by lia. cbn [mbind outcome_bind]. pose proof (bytes_aget pkt off Hb).
  destruct (pkt.[off] =? 0); [intros o [= <-]; lia|]. destruct (is_pointer _); [intros o [= <-]; lia|].
  eapply ends_mono; [apply IH; lia|done|]. intros r Hr o Ho. specialize (Hr o Ho). lia.
Qed.

Lemma skip_question_ends pkt n off :
  bytes_ok pkt → n ≤ zlen pkt → 0 ≤ off → ends False (λ r, ∀ o, r = Some o → 0 ≤ o) (dns_skip_question pkt n off).
Proof.
  intros Hb Hn H0. unfold dns_skip_question. eapply ends_bind; [apply skip_name_ends; [done..|lia]|]. intros [o|] Ho; [|done].
  specialize (Ho o eq_refl). destruct (_ >? n); [done|]. intros o' [= <-]. lia.
Qed.

Lemma read_rr_ends pkt n off :
  bytes_ok pkt → n ≤ zlen pkt → 0 ≤ off →
  ends False (λ r, ∀ t l d o, r = Some (t, l, d, o) → 0 ≤ d ∧ 0 ≤ l ∧ d + l ≤ n ∧ o = d + l) (dns_read_rr pkt n off).
Proof.
  intros Hb Hn H0. unfold dns_read_rr. eapply ends_bind; [apply skip_name_ends; [done..|lia]|]. intros [o|] Ho; [|done].
  specialize (Ho o eq_refl). destruct (Z.gtb_spec (o + 10) n); [done|].
  eapply ends_bind; [apply read_u16_ends; lia|]. intros t Ht. eapply ends_bind; [apply read_u16_ends; lia|]. intros l Hl.
  cbv beta in Hl. destruct (Z.gtb_spec (o + 10 + l) n); [done|]. intros ???? [= <- <- <- <-]. lia.
Qed.

(** A circle of pointers in a message. *)
Definition circular (pkt : list Z) (n : Z) : Prop := ∃ x, tc (hops pkt n) x x.

Lemma unpack_ends fuel dst pkt n off :
  bytes_ok pkt → n ≤ zlen pkt → 0 < zlen dst → 0 ≤ off → (unpack_fuel n (zlen dst) ≤ fuel)%nat →
  ends (circular pkt n) (λ r, zlen r.1.1 = zlen dst) (dns_name_unpack fuel dst (zlen dst) pkt n off 0).
Proof.
  intros Hb Hn Hd H0 Hf. change (dns_name_unpack fuel dst (zlen dst) pkt n off 0) with (state pkt n (zlen dst) dst fuel off [] false 0).
  pose proof (nofuel_circle pkt n (zlen dst) dst Hb Hn ltac:(lia) Hd off false 0 fuel H0 Hf) as Hc.
  destruct (state_spec pkt n (zlen dst) dst Hb Hn ltac:(lia) fuel off [] false 0 H0 Hd) as [s Hs|labs e Hr Hfit|t x Ht Hno].
  - cbn. destruct (proj1 Hc eq_refl) as (x & _ & _ & Hx). by exists x.
  - cbn. assert (zlen (text_of labs) < zlen dst) as Hlt.
    { clear -Hfit Hd. unfold text_of. change 0 with (zlen (@nil Z)) in Hd. revert Hd Hfit. generalize (@nil Z) as t.
      induction labs as [|l labs IH]; intros t Ht Hf; [done|]. destruct Hf as [Hl Hf]. apply IH; [|done]. by apply add_label_cap. }
    apply zlen_splice; [lia|]. rewrite zlen_app. change (zlen [0]) with 1. fold (text_of labs). lia.
  - cbn. apply zlen_splice; lia.
Qed.

(** What a resolver may be given back: an address of the right size or an error. *)
Definition answer_ok (cname : list Z) (r : list Z * Z * list Z) : Prop :=
  let '(c, rc, a) := r in zlen c = zlen cname ∧ (rc = 1 ∧ zlen a = 4 ∨ rc = 2 ∧ zlen a = 16 ∨ rc ≤ 0 ∧ a = []).

Lemma parse_records_ends an fuel rx a6 a4 cname off :
  bytes_ok (buf rx) → len rx ≤ zlen (buf rx) → 0 < zlen cname → 0 ≤ off → (unpack_fuel (len rx) (zlen cname) ≤ fuel)%nat →
  ends (circular (buf rx) (len rx)) (answer_ok cname) (parse_records an fuel rx a4 a6 cname off).
Proof.
  intros Hb Hn. revert cname off. induction an as [|an IH]; intros cname off Hc H0 Hf; cbn [parse_records].
  { split; [done|]. right; right. split; [|done]. destruct (nonzero _); unfold ENOTFOUND; lia. }
  eapply ends_bind; [eapply ends_mono; [by apply read_rr_ends|done|intros x Hx; exact Hx]|].
  intros [[[[t l] d] o]|] Hr; [|split; [done|]; right; right; unfold EIO; split; [lia|done]].
  destruct (Hr t l d o eq_refl) as (Hd & Hl & Hdl & ->).
  destruct ((t =? DNS_TYPE_A) && (l =? 4) && a4) eqn:Ea.
  { bool_hyps. rewrite rd_block_ok by lia. cbn. split; [done|]. left. split; [done|]. apply zlen_sub_list; lia. }
  destruct ((t =? DNS_TYPE_AAAA) && (l =? 16) && a6) eqn:E6.
  { bool_hyps. rewrite rd_block_ok by lia. cbn. split; [done|]. right; left. split; [done|]. apply zlen_sub_list; lia. }
  destruct ((t =? DNS_TYPE_CNAME) && (zlen cname >? 0)); [|apply IH; [done|lia|done]].
  eapply ends_bind; [by apply unpack_ends|]. intros [[c x] rc] Hz. cbn in Hz. rewrite <- Hz in Hc, Hf.
  eapply ends_mono; [apply IH; [done|lia|done]|done|]. intros [[c' rc'] a]. unfold answer_ok. by rewrite Hz.
Qed.

Lemma parse_response_ends fuel rx a4 a6 cname :
  bytes_ok (buf rx) → len rx ≤ zlen (buf rx) → 0 < zlen cname → (unpack_fuel (len rx) (zlen cname) ≤ fuel)%nat →
  ends (circular (buf rx) (len rx)) (answer_ok cname) (dns_parse_response fuel rx a4 a6 cname).
Proof.
  intros Hb Hn Hc Hf. unfold dns_parse_response. assert (∀ e, e ≤ 0 → answer_ok cname (cname, e, [])) as He.
  { intros e Hle. split; [done|]. by right; right. }
  destruct (Z.ltb_spec (len rx) 12); [by apply He|].
  eapply ends_bind; [eapply ends_mono; [apply (read_u16_ends _ 2); lia|done|intros x Hx; exact Hx]|]. intros f _.
  destruct (_ =? 3); [by apply He|]. destruct (nonzero _); [by apply He|].
  eapply ends_bind; [eapply ends_mono; [apply (read_u16_ends _ 6); lia|done|intros x Hx; exact Hx]|]. intros an _.
  eapply ends_bind; [eapply ends_mono; [by apply (skip_question_ends _ _ 12)|done|intros x Hx; exact Hx]|].
  intros [off|] Ho; [|by apply He]. specialize (Ho off eq_refl).
  rewrite wr_ok by (change (zlen [0]) with 1; lia). cbn [mbind outcome_bind].
  assert (zlen (splice cname 0 [0]) = zlen cname) as Ez by (apply zlen_splice; [lia|]; change (zlen [0]) with 1; lia).
  eapply ends_mono; [apply parse_records_ends; by rewrite ?Ez|done|]. intros [[c rc] a]. unfold answer_ok. by rewrite Ez.
Qed.

(** ** Exchanges *)

Lemma split_label_length name : (length (split_label name).1 + length (split_label name).2 = length name)%nat.
Proof.
  induction name as [|c r IH]; [done|]. cbn [split_label]. destruct (c =? DOT); [done|].
  destruct (split_label r) as [l d]. cbn in *. lia.
Qed.

Lemma encode_labels_ends fuel out cap name o :
  (length name < fuel)%nat → 0 ≤ o < cap → cap ≤ zlen out →
  ends False (λ r, zlen r.1 = zlen out ∧ ∀ o', r.2 = Some o' → 0 ≤ o' < cap) (encode_labels fuel out cap name o).
Proof.
  revert out name o. induction fuel as [|fuel IH]; intros out name o Hf Ho Hcap; [lia|].
  destruct name as [|c name]; [cbn; split; [done|]; intros ? [= <-]; lia|]. cbn [encode_labels].
  pose proof (split_label_length (c :: name)) as Hl. destruct (split_label (c :: name)) as [l d]. cbn [fst snd] in Hl.
  destruct (Z.eqb_spec (zlen l) 0); [done|]. destruct (Z.gtb_spec (zlen l) 63); [done|].
  destruct (Z.geb_spec (o + 1 + zlen l) cap); [done|]. cbn [orb]. pose proof (zlen_nonneg l).
  rewrite wr_ok by (change (zlen [_]) with 1; lia). cbn [mbind outcome_bind].
  assert (zlen (splice out o [u8 (zlen l)]) = zlen out) as E1 by (apply zlen_splice; [lia|]; change (zlen [_]) with 1; lia).
  rewrite wr_ok by lia. cbn [mbind outcome_bind].
  assert (zlen (splice (splice out o [u8 (zlen l)]) (o + 1) l) = zlen out) as E2 by (rewrite zlen_splice; lia).
  rewrite <- E2. apply IH; [|lia..]. unfold zlen in *. destruct d; cbn [tail length] in *; lia.
Qed.

Lemma encode_name_ends out cap name :
  0 < cap ≤ zlen out → cap < 2 ^ 31 → ends False (λ r, zlen r.1 = zlen out ∧ r.2 < cap) (dns_encode_name out cap name).
Proof.
  intros Hcap H31. unfold dns_encode_name. eapply ends_bind; [by apply encode_labels_ends; lia|].
  intros [out' [o|]] [Hz Ho]; cbn [fst snd] in *; [|cbn; lia]. specialize (Ho o eq_refl).
  destruct (Z.geb_spec (o + 1) cap); [cbn; lia|].
  rewrite wr_ok by (change (zlen [_]) with 1; lia). cbn. split; [rewrite zlen_splice; change (zlen [_]) with 1; lia|].
  unfold swrap, wrap. rewrite Z.mod_small by lia. destruct (_ <? _); lia.
Qed.

Lemma query_ends q t qtype name : zlen q = 512 → ends False (λ _, True) (dns_query q t qtype name).
Proof.
  intros Hq. unfold dns_query. rewrite wr_ok by (rewrite ?Hq; vm_compute; discriminate). cbn [mbind outcome_bind].
  set (h := splice q 0 _). assert (zlen h = 512) as Hh by (unfold h; rewrite zlen_splice; [done|lia|rewrite Hq; by vm_compute]).
  assert (zlen (drop 12 h) = 500) as Hd by (unfold zlen in *; rewrite length_drop; lia).
  eapply ends_bind; [apply encode_name_ends; rewrite ?Hd, ?Hh; lia|]. intros [e nl] [He Hnl]. cbn [fst snd] in *.
  destruct (Z.ltb_spec nl 0); [done|]. rewrite wr_ok; [done|lia|].
  rewrite zlen_app, He, Hd. change (zlen [_; _; _; _]) with 4. unfold zlen in *. rewrite length_take. lia.
Qed.

Record rx_ok (rx : dns_rx_t) : Prop := { rx_buf : zlen (buf rx) = DNS_BUF; rx_bytes : bytes_ok (buf rx); rx_len : 0 ≤ len rx ≤ DNS_BUF }.

(** The receiver holds one of the datagrams [D]. *)
Definition received (D : list Z → Prop) (rx : dns_rx_t) : Prop :=
  got rx = true → ∃ d, D d ∧ zlen d = len rx ∧ ∀ i, 0 ≤ i < len rx → (buf rx).[i] = d.[i].

Lemma handler_ends D rx d : rx_ok rx → received D rx → bytes_ok d → D d →
  ends False (λ rx', rx_ok rx' ∧ received D rx') (dns_udp_handler rx d).
Proof.
  intros [Hb Hby Hl] Hr Hd HD. unfold dns_udp_handler. destruct (negb (waiting rx)); [by cbn|]. cbn [orb].
  destruct (Z.ltb_spec (zlen d) 12); [by cbn|]. cbn [orb]. destruct (Z.gtb_spec (zlen d) DNS_BUF); [by cbn|].
  eapply ends_bind; [eapply ends_mono; [apply (read_u16_ends d 0); lia|done|intros x Hx; exact Hx]|]. intros t _.
  destruct (negb _); [by cbn|]. rewrite wr_ok by lia. cbn. split.
  - split; cbn; [rewrite zlen_splice; lia|by apply bytes_ok_splice|lia].
  - intros _. exists d. cbn. split; [done|]. split; [done|]. intros i Hi. pose proof (splice_in (buf rx) 0 d i) as E.
    rewrite Z.add_0_l in E. apply E; lia.
Qed.

Lemma deliver_ends D rx ds : rx_ok rx → received D rx → Forall (λ d, bytes_ok d ∧ D d) ds →
  ends False (λ rx', rx_ok rx' ∧ received D rx') (deliver rx ds).
Proof.
  intros Hok Hr Hds. revert rx Hok Hr. induction Hds as [|d ds [Hd HD] _ IH]; intros rx Hok Hr; [done|]. cbn [deliver].
  eapply ends_bind; [by apply handler_ends|]. intros rx' [Hok' Hr']. by apply IH.
Qed.

Definition deadline_of (e : net_env) (timeout_ms : Z) : Z := u64 (e.(sent_ticks) + timeout_ms * TIMER_FREQ_HZ / 1000).
(** The clock does not pass the deadline in so many turns. *)
Definition clock_stuck (fuel : nat) (e : net_env) (timeout_ms : Z) : Prop :=
  ∀ k, (k ≤ fuel)%nat → 0 < s64 (deadline_of e timeout_ms - (e.(poll) k).1).

Lemma wait_reply_ends D fuel rx p k deadline : rx_ok rx → received D rx → (∀ k, Forall (λ d, bytes_ok d ∧ D d) (p k).2) →
  ends (∀ i, (i ≤ fuel)%nat → 0 < s64 (deadline - (p (k + i)%nat).1)) (λ rx', rx_ok rx' ∧ received D rx') (wait_reply fuel rx p k deadline).
Proof.
  intros Hok Hr Hp. revert rx k Hok Hr. induction fuel as [|fuel IH]; intros rx k Hok Hr; cbn [wait_reply];
    specialize (Hp k) as Hds; destruct (p k) as [now ds] eqn:Ep; cbn [snd] in Hds;
    destruct (Z.gtb_spec (s64 (deadline - now)) 0) as [Hlt|]; [|done| |done]; (destruct (got rx) eqn:Eg; [done|]).
  - cbn. intros i Hi. replace i with 0%nat by lia. rewrite Nat.add_0_r, Ep. cbn. lia.
  - eapply ends_bind; [eapply ends_mono; [by apply (deliver_ends D)|done|intros x Hx; exact Hx]|]. intros rx' [Hok' Hr'].
    eapply ends_mono; [by apply IH| |done]. intros Hstuck [|i] Hi; [rewrite Nat.add_0_r, Ep; cbn; lia|].
    rewrite <- Nat.add_succ_comm. apply Hstuck. lia.
Qed.

Record env_ok (e : net_env) : Prop := {
  env_cname : zlen e.(stack_cname) = 256; env_qbuf : zlen e.(stack_qbuf) = 512;
  env_bytes : ∀ k, Forall bytes_ok (e.(poll) k).2 }.
(** The datagrams that arrive during an exchange. *)
Definition arrives (e : net_env) (d : list Z) : Prop := ∃ k, d ∈ (e.(poll) k).2.

Lemma exchange_ends fuel rx e qtype name timeout_ms : rx_ok rx → env_ok e →
  ends (clock_stuck fuel e timeout_ms)
    (λ r, rx_ok r.1.1 ∧ r.2 ≤ 0 ∧ (r.2 = 0 → ∃ d, arrives e d ∧ zlen d = len r.1.1 ∧ ∀ i, 0 ≤ i < len r.1.1 → (buf r.1.1).[i] = d.[i]))
    (dns_exchange fuel rx e qtype name timeout_ms).
Proof.
  intros Hok [_ Hq Hby]. unfold dns_exchange. destruct (_ =? 0); [by cbn; unfold EIO|]. destruct (arp_rc e <? 0); [by cbn; unfold ETIMEDOUT|].
  destruct (bind_rc e <? 0); [by cbn; unfold ENOMEM|].
  assert (∀ t, rx_ok (set_tid rx t)) as Hok1 by (intros t; destruct Hok; by split).
  eapply ends_bind; [eapply ends_mono; [by apply query_ends|done|intros x Hx; exact Hx]|]. intros [q|] _; [|by cbn; unfold EINVAL].
  assert (∀ t, rx_ok (start_wait (set_tid rx t))) as Hok2.
  { intros t. destruct Hok as [Hb Hby' Hl]. split; cbn; [done..|]. unfold DNS_BUF; lia. }
  destruct (send_rc e <? 0); [cbn; unfold EIO; split; [done|lia]|].
  eapply ends_bind; [eapply ends_mono; [apply (wait_reply_ends (arrives e)); [done|done|]| |intros x Hx; exact Hx]|].
  - intros k. apply Forall_forall. intros d Hd. split; [|by exists k]. specialize (Hby k). rewrite Forall_forall in Hby. by apply Hby.
  - intros Hs k Hk. by apply Hs.
  - intros rx' [[Hb Hby' Hl] Hr]. cbn. split; [by split|]. unfold received in Hr. destruct (got rx'); [|unfold ETIMEDOUT; split; [lia|done]].
    split; [lia|]. intros _. by apply Hr.
Qed.

(** ** Resolving *)

Lemma hop_at_ext p q n x : (∀ i, 0 ≤ i < n → p.[i] = q.[i]) → 0 ≤ x → hop_at p n x = hop_at q n x.
Proof.
  intros He Hx. unfold hop_at. destruct (Z.ltb_spec (x + 1) n); [|done]. by rewrite !He by lia.
Qed.
Lemma circular_ext p q n : (∀ i, 0 ≤ i < n → p.[i] = q.[i]) → circular p n → circular q n.
Proof.
  intros He [x Hx]. exists x.
  assert (∀ a b, tc (hops p n) a b → 0 ≤ a → 0 ≤ b ∧ tc (hops q n) a b) as Hall.
  { induction 1 as [a b Hab|a b c Hab _ IH]; intros Ha; pose proof (hop_at_some p n a b Hab) as (_ & _ & _ & Hb);
      unfold hops in Hab; rewrite (hop_at_ext p q) in Hab by done; [split; [lia|by apply tc_once]|].
    destruct (IH ltac:(lia)). split; [done|]. by eapply tc_l. }
  assert (0 ≤ x); [|by apply Hall].
  assert (∀ a b, tc (hops p n) a b → 0 ≤ b) as Hpos; [|by eapply Hpos].
  induction 1 as [a b Hab|]; [|done]. apply hop_at_some in Hab as (_ & _ & _ & ?). lia.
Qed.

Lemma strncpy_term_total dst src : (0 < length dst)%nat → ∃ dst', strncpy_term dst src = Ret dst' ∧ zlen dst' = zlen dst.
Proof.
  intros Hd. unfold strncpy_term, strncpy_arr, zlen. case_decide.
  - rewrite decide_True by lia. cbn. eexists. split; [done|]. rewrite length_aset, !length_app, length_replicate, length_drop. lia.
  - rewrite decide_True by lia. cbn. eexists. split; [done|]. rewrite length_aset, length_app, length_take, length_drop. lia.
Qed.

Definition resolve_fuel : nat := unpack_fuel DNS_BUF 256.
Definition resolve_blocked (fuel : nat) (envs : nat → net_env) (timeout_ms : Z) : Prop :=
  (∃ i, clock_stuck fuel (envs i) timeout_ms) ∨ ∃ i d, arrives (envs i) d ∧ circular d (zlen d).
Definition resolve_result (v6 : bool) (r : dns_rx_t * Z * list Z) : Prop :=
  let '(rx, rc, a) := r in rx_ok rx ∧ (rc = 0 ∧ zlen a = (if v6 then 16 else 4) ∨ rc < 0 ∧ a = []).

Lemma resolve_hops_ends hops fuel rx envs v6 n timeout_ms :
  rx_ok rx → (∀ i, env_ok (envs i)) → zlen n = 256 → (resolve_fuel ≤ fuel)%nat →
  ends (resolve_blocked fuel envs timeout_ms) (resolve_result v6) (resolve_hops hops fuel rx envs v6 n timeout_ms).
Proof.
  intros Hrx Henv Hn Hf. revert rx n Hrx Hn. induction hops as [|hops IH]; intros rx n Hrx Hn; cbn [resolve_hops].
  { split; [done|]. right. by unfold ENOTFOUND. }
  eapply ends_bind; [eapply ends_mono; [by apply exchange_ends| |intros x Hx; exact Hx]; intros Hs; left; by exists hops|].
  intros [[rx1 sent] rc] (Hrx1 & Hrc & Hd). cbn [fst snd] in *. destruct (Z.ltb_spec rc 0); [by cbn; split; [|right]|].
  destruct (Hd ltac:(lia)) as (d & Harr & Hlen & Hext). pose proof Hrx1 as [Hb Hby Hl]. destruct (Henv hops) as [Hcn _ _].
  eapply ends_bind; [eapply ends_mono; [apply parse_response_ends; [done|lia|lia|]| |intros x Hx; exact Hx]|].
  { rewrite Hcn. unfold resolve_fuel, unpack_fuel in Hf. unfold unpack_fuel. nia. }
  { intros Hc. right. exists hops, d. split; [done|]. rewrite Hlen. by eapply circular_ext. }
  intros [[c pr] a] (Hc & Hpr). assert (∀ z, z < 0 → ends (resolve_blocked fuel envs timeout_ms) (resolve_result v6) (Ret (rx1, z, []))) as Herr.
  { intros z Hz. cbn. split; [done|]. by right. }
  destruct (Z.eqb_spec pr (if v6 then 2 else 1)).
  { cbn. split; [done|]. left. split; [done|]. destruct v6; lia. }
  destruct (_ && _).
  - destruct (strncpy_term_total n (cstr c)) as (n' & -> & Hn'); [unfold zlen in Hn; lia|]. cbn [mbind outcome_bind]. apply IH; [done|lia].
  - destruct (Z.ltb_spec pr 0); apply Herr; unfold ENOTFOUND; lia.
Qed.

(** C21: whatever arrives from the network, a resolver touches no memory outside its
    buffers, and returns an address of 4 or 16 bytes or an error, unless the clock
    stands still or a datagram holds a circle of pointers. *)
Theorem dns_resolve_safe v6 fuel rx envs stack_n name out timeout_ms :
  rx_ok rx → (∀ i, env_ok (envs i)) → zlen stack_n = 256 → (resolve_fuel ≤ fuel)%nat →
  ends (resolve_blocked fuel envs timeout_ms) (resolve_result v6) (dns_resolve v6 fuel rx envs stack_n name out timeout_ms).
Proof.
  intros Hrx Henv Hn Hf. unfold dns_resolve. assert (resolve_result v6 (rx, - EINVAL, [])) as He by (split; [done|]; right; by unfold EINVAL).
  destruct name as [[|c name]|]; [done| |done]. destruct out; [|done].
  destruct (strncpy_term_total stack_n (c :: name)) as (n & -> & Hz); [unfold zlen in Hn; lia|]. cbn [mbind outcome_bind].
  by apply resolve_hops_ends; rewrite ?Hz.
Qed.

(** ** A pointer to itself

    An answer to the query [t] whose name is a pointer to that pointer. *)
Definition evil (t : Z) : list Z :=
  [u8 (Z.shiftr t 8); u8 t; 0x81; 0x80; 0; 1; 0; 1; 0; 0; 0; 0] ++ [0; 0; 1; 0; 1] ++ [0; 0; 5; 0; 1; 0; 0; 0; 0; 0; 2; 0xC0; 28].

Lemma evil_bytes t : bytes_ok (evil t).
Proof. unfold evil. cbn [app]. apply Forall_cons. split; [by apply (wrap_range 8)|]. apply Forall_cons. split; [by apply (wrap_range 8)|]. by repeat constructor. Qed.

Lemma evil_at b t i : 30 ≤ zlen b → 0 ≤ i < 30 → (splice b 0 (evil t)).[i] = (evil t).[i].
Proof. intros Hb Hi. pose proof (splice_in b 0 (evil t) i ltac:(lia)) as E. rewrite Z.add_0_l in E. apply E; change (zlen (evil t)) with 30; lia. Qed.

Lemma evil_rd b t i : 30 ≤ zlen b → 0 ≤ i < 30 → rd (splice b 0 (evil t)) i = Ret ((evil t).[i]).
Proof.
  intros Hb Hi. rewrite rd_ok; [by rewrite evil_at|]. rewrite zlen_splice; [lia..|]. change (zlen (evil t)) with 30. lia.
Qed.

Lemma skip_name_zero fuel pkt n off : off < n → rd pkt off = Ret 0 → skip_name fuel pkt n off = Ret (Some (off + 1)).
Proof. intros Ho E. destruct fuel; cbn [skip_name]; rewrite geb_lt by done; by rewrite E. Qed.

Lemma evil_u16 b t i : 30 ≤ zlen b → 0 ≤ i < 29 →
  dns_read_u16 (splice b 0 (evil t)) i = Ret (u16 (Z.lor (Z.shiftl ((evil t).[i]) 8) ((evil t).[i + 1]))).
Proof. intros Hb Hi. unfold dns_read_u16. by rewrite !evil_rd by lia. Qed.

Lemma evil_question b t : 30 ≤ zlen b → dns_skip_question (splice b 0 (evil t)) 30 12 = Ret (Some 17).
Proof.
  intros Hb. unfold dns_skip_question. by rewrite (skip_name_zero _ _ 30 12) by (done || (rewrite evil_rd by lia; done)).
Qed.

Lemma evil_record b t : 30 ≤ zlen b → dns_read_rr (splice b 0 (evil t)) 30 17 = Ret (Some (DNS_TYPE_CNAME, 2, 28, 30)).
Proof.
  intros Hb. unfold dns_read_rr. rewrite (skip_name_zero _ _ 30 17) by (done || (rewrite evil_rd by lia; done)).
  cbn [mbind outcome_bind]. change (17 + 1 + 10 >? 30) with false. cbv iota. by rewrite !evil_u16 by lia.
Qed.

Lemma evil_unpack fuel b t dst : 30 ≤ zlen b → bytes_ok b → 0 < zlen dst →
  dns_name_unpack fuel dst (zlen dst) (splice b 0 (evil t)) 30 28 0 = NoFuel.
Proof.
  intros Hb Hby Hd. set (p := splice b 0 (evil t)). assert (30 ≤ zlen p) as Hp.
  { unfold p. rewrite zlen_splice; [done|lia|]. change (zlen (evil t)) with 30. lia. }
  assert (hops p 30 28 28) as Hh by (unfold hops, hop_at, p; by rewrite !evil_at by lia).
  apply (circle_nofuel p 30 (zlen dst) dst); [apply bytes_ok_splice; [done|apply evil_bytes]|done|lia|done|lia|].
  exists 28, []. split; [done|by apply tc_once].
Qed.

Lemma evil_parse fuel rx t a4 a6 cname : DNS_BUF = zlen (buf rx) → bytes_ok (buf rx) → 0 < zlen cname →
  dns_parse_response fuel {| waiting := false; tid := tid rx; got := true; len := 30; buf := splice (buf rx) 0 (evil t) |} a4 a6 cname = NoFuel.
Proof.
  intros Hz Hby Hc. unfold dns_parse_response. cbn [buf len]. set (b := buf rx) in *.
  assert (30 ≤ zlen b) as H30 by (rewrite <- Hz; by unfold DNS_BUF).
  change (30 <? 12) with false. rewrite !evil_u16, evil_question by lia. cbn [mbind outcome_bind].
  change (u8 _ =? 3) with false. change (nonzero _) with false. cbv iota.
  rewrite wr_ok by (change (zlen [0]) with 1; lia). cbn [mbind outcome_bind].
  set (c := splice cname 0 [0]). assert (zlen c = zlen cname) as Hzc by (apply zlen_splice; [lia|]; change (zlen [0]) with 1; lia).
  change (Z.to_nat _) with 1%nat. cbn [parse_records buf len]. rewrite evil_record by done. cbn [mbind outcome_bind].
  rewrite (gtb_gt (zlen c) 0) by lia. change (DNS_TYPE_CNAME =? DNS_TYPE_A) with false. change (DNS_TYPE_CNAME =? DNS_TYPE_AAAA) with false.
  change (DNS_TYPE_CNAME =? DNS_TYPE_CNAME) with true. cbn [andb]. by rewrite evil_unpack by (done || lia).
Qed.

Lemma wait_got fuel rx p k deadline : got rx = true → wait_reply fuel rx p k deadline = Ret rx.
Proof. intros Hg. destruct fuel; cbn [wait_reply]; destruct (p k); destruct (_ >? 0); by rewrite ?Hg. Qed.

Lemma evil_exchange fuel rx e qtype name timeout_ms q : rx_ok rx →
  e.(dns_server) ≠ 0 → 0 ≤ e.(arp_rc) → 0 ≤ e.(bind_rc) → 0 ≤ e.(send_rc) →
  dns_query e.(stack_qbuf) (choose_tid e.(tid_ticks)) qtype name = Ret (Some q) →
  (e.(poll) 0%nat).2 = [evil (choose_tid e.(tid_ticks))] → 0 < s64 (deadline_of e timeout_ms - (e.(poll) 0%nat).1) →
  dns_exchange fuel rx e qtype name timeout_ms = NoFuel ∨
  ∃ sent, dns_exchange fuel rx e qtype name timeout_ms =
    Ret ({| waiting := false; tid := choose_tid e.(tid_ticks); got := true; len := 30;
            buf := splice (buf rx) 0 (evil (choose_tid e.(tid_ticks))) |}, sent, 0).
Proof.
  intros [Hb _ _] Hip Harp Hbind Hsend Hq Hp Hnow. unfold dns_exchange.
  rewrite (proj2 (Z.eqb_neq _ 0)) by done. rewrite !(proj2 (Z.ltb_ge _ 0)) by done. cbn [set_tid tid]. rewrite Hq. cbn [mbind outcome_bind].
  set (t := choose_tid (tid_ticks e)) in *.
  assert (0 ≤ t < 2 ^ 16) as Ht.
  { unfold t, choose_tid. pose proof (wrap_range 16 (Z.lxor e.(tid_ticks).1 (Z.shiftr e.(tid_ticks).2 16)) ltac:(lia)). destruct (_ =? 0); lia. }
  assert (deliver (start_wait (set_tid rx t)) [evil t] = Ret {| waiting := true; tid := t; got := true; len := 30; buf := splice (buf rx) 0 (evil t) |}) as Hd.
  { cbn [deliver]. unfold dns_udp_handler. cbn [start_wait set_tid waiting tid buf]. change (zlen (evil t)) with 30.
    change (negb true || (30 <? 12) || (30 >? DNS_BUF)) with false. cbv iota.
    assert (dns_read_u16 (evil t) 0 = Ret t) as ->.
    { unfold dns_read_u16. rewrite !rd_ok by (change (zlen (evil t)) with 30; lia). cbn [mbind outcome_bind]. f_equal.
      change ((evil t).[0]) with (u8 (Z.shiftr t 8)). change ((evil t).[0 + 1]) with (u8 t). unfold wrap.
      rewrite Z.shiftr_div_pow2 by lia. rewrite Z.lor_comm, lor_add by (lia || (apply Z.mod_pos_bound; lia) || (split; [apply Z.mod_pos_bound|]; lia) || (pose proof (Z.mod_pos_bound t (2 ^ 8)); pose proof (Z.mod_pos_bound (t / 2 ^ 8) (2 ^ 8)); lia)).
      rewrite (Z.mod_small (t / 2 ^ 8)) by div_lia. rewrite (Z.add_comm), (Z.mul_comm _ (2 ^ 8)), <- Z_div_mod_eq_full. apply Z.mod_small. lia. }
    cbn [mbind outcome_bind]. rewrite Z.eqb_refl. cbn [negb]. rewrite wr_ok; [done|lia|]. rewrite Hb. by vm_compute. }
  unfold deadline_of in Hnow. destruct (poll e 0) as [now ds] eqn:Ep. cbn [fst snd] in *. subst ds.
  destruct fuel as [|fuel]; cbn [wait_reply]; rewrite Ep, gtb_gt by done; cbn [start_wait got mbind outcome_bind].
  - by left.
  - right. rewrite Hd. cbn [mbind outcome_bind]. rewrite wait_got by done. cbn. by eexists.
Qed.

Lemma dotted_length labs : labs ≠ [] → zlen (dotted labs) + 2 = zlen (wire labs).
Proof.
  intros Hn. rewrite wire_length. induction labs as [|l [|l' labs] IH]; [done|rewrite zlen_wire_cons; change (zlen (wire_labels [])) with 0; cbn [dotted]; lia|].
  change (dotted (l :: l' :: labs)) with (l ++ DOT :: dotted (l' :: labs)). rewrite zlen_wire_cons, zlen_app, zlen_cons.
  specialize (IH ltac:(done)). lia.
Qed.

Lemma dotted_cstr labs : Forall label_ok labs → is_cstr (dotted labs).
Proof.
  induction 1 as [|l labs [_ Hl] _ IH]; [by apply Forall_nil|].
  assert (is_cstr l) as Hc by (eapply Forall_impl; [exact Hl|]; by intros c [? _]). destruct labs as [|l' labs]; [done|].
  apply Forall_app. split; [done|]. by apply Forall_cons.
Qed.

Lemma query_ok labs q t qtype : Forall label_ok labs → zlen (wire labs) ≤ 256 → zlen q = 512 →
  ∃ m, dns_query q t qtype (dotted labs) = Ret (Some m).
Proof.
  intros Hok Hw Hq. unfold dns_query. rewrite wr_ok by (rewrite ?Hq; vm_compute; discriminate). cbn [mbind outcome_bind].
  set (h := splice q 0 _). assert (zlen h = 512) as Hh by (unfold h; rewrite zlen_splice; [done|lia|rewrite Hq; by vm_compute]).
  assert (zlen (drop 12 h) = 500) as Hd by (unfold zlen in *; rewrite length_drop; lia). rewrite Hh.
  pose proof (encode_spec labs [] (drop 12 h) (512 - 12 - 4) Hok ltac:(by left) ltac:(lia) ltac:(lia)) as He.
  rewrite app_nil_r, decide_True in He by lia. rewrite He. cbn [mbind outcome_bind]. pose proof (zlen_nonneg (wire labs)).
  rewrite (proj2 (Z.ltb_ge _ 0)) by lia. rewrite wr_ok; [by eexists|lia|].
  rewrite zlen_app, zlen_splice by lia. rewrite Hd. change (zlen [_; _; _; _]) with 4. unfold zlen in *. rewrite length_take. lia.
Qed.

(** C39: one datagram stops the machine: an answer to the query whose name is a pointer
    to itself makes the resolver loop for ever, for every name that it can ask for. *)
Theorem dns_pointer_loop_hangs v6 fuel rx envs stack_n labs timeout_ms :
  let e := envs 7%nat in
  rx_ok rx → env_ok e → zlen stack_n = 256 → labs ≠ [] → Forall label_ok labs → zlen (wire labs) ≤ 256 →
  e.(dns_server) ≠ 0 → 0 ≤ e.(arp_rc) → 0 ≤ e.(bind_rc) → 0 ≤ e.(send_rc) →
  (e.(poll) 0%nat).2 = [evil (choose_tid e.(tid_ticks))] → 0 < s64 (deadline_of e timeout_ms - (e.(poll) 0%nat).1) →
  dns_resolve v6 fuel rx envs stack_n (Some (dotted labs)) true timeout_ms = NoFuel.
Proof.
  intros e Hrx He Hz Hne Hok Hw Hip Harp Hbind Hsend Hp Hnow. unfold dns_resolve.
  pose proof (dotted_length labs Hne) as Hdl. pose proof (dotted_cstr labs Hok) as Hc.
  destruct (dotted labs) as [|c name] eqn:Ed.
  { destruct labs as [|l labs]; [done|]. apply Forall_cons in Hok as [[Hl _] _]. rewrite wire_length, zlen_wire_cons in Hdl.
    change (zlen []) with 0 in Hdl. pose proof (zlen_nonneg (wire_labels labs)). lia. }
  rewrite <- Ed in Hdl, Hc. destruct (strncpy_term_spec stack_n (dotted labs) Hc) as (n & En & Hlen & Hcs); [unfold zlen in Hz; lia|].
  assert (length stack_n - 1 = 255)%nat as H255 by (unfold zlen in Hz; lia). rewrite H255, take_ge in Hcs by (unfold zlen in *; lia).
  rewrite Ed in En. rewrite En. cbn [mbind outcome_bind]. change 8%nat with (S 7). set (seven := 7%nat) in *. cbn [resolve_hops]. rewrite Hcs. fold e.
  destruct (query_ok labs (stack_qbuf e) (choose_tid (tid_ticks e)) (if v6 then DNS_TYPE_AAAA else DNS_TYPE_A) Hok Hw (env_qbuf e He)) as [q Hq].
  destruct (evil_exchange fuel rx e _ _ timeout_ms q Hrx Hip Harp Hbind Hsend Hq Hp Hnow) as [-> | [sent ->]]; [done|].
  cbn [mbind outcome_bind]. change (0 <? 0) with false. cbv iota. destruct Hrx as [Hb Hby _].
  pose proof (evil_parse fuel (set_tid rx (choose_tid (tid_ticks e))) (choose_tid (tid_ticks e)) (negb v6) v6 (stack_cname e)) as Hev.
  cbn [set_tid buf tid] in Hev. rewrite Hev; [done|done|done|]. rewrite (env_cname e He). lia.
Qed.

(** A server that answers the query for [os.org] with one address, and one that
    answers with [evil]. *)
Definition demo_env (answer : Z → list Z) : net_env :=
  {| dns_server := 0x0302000A; arp_rc := 0; bind_ticks := 77; bind_rc := 0; tid_ticks := (0x1234, 0x1234); send_rc := 0; sent_ticks := 100;
     poll := λ k, (100 + Z.of_nat k, if decide (k = 0%nat) then [answer 0x1234] else []);
     stack_cname := replicate 256 0xAA; stack_qbuf := replicate 512 0xAA |}.
Definition good_answer (t : Z) : list Z :=
  [u8 (Z.shiftr t 8); u8 t; 0x81; 0x80; 0; 1; 0; 1; 0; 0; 0; 0] ++ wire [bytes "os"; bytes "org"] ++ [0; 1; 0; 1] ++
  [0xC0; 12; 0; 1; 0; 1; 0; 0; 1; 0; 0; 4; 10; 0; 2; 15].

Lemma dns_rx0_ok : rx_ok dns_rx0.
Proof. split; [by vm_compute|by apply Forall_replicate|by vm_compute]. Qed.
Lemma demo_env_ok answer : bytes_ok (answer 0x1234) → env_ok (demo_env answer).
Proof. intros Hb. split; [by vm_compute..|]. intros k. cbn. case_decide; by repeat constructor. Qed.

Lemma dns_resolve_safe_witness :
  ends (resolve_blocked resolve_fuel (λ _, demo_env good_answer) 1000) (resolve_result false)
    (dns_resolve_a resolve_fuel dns_rx0 (λ _, demo_env good_answer) (replicate 256 0) (Some (bytes "os.org")) true 1000).
Proof.
  apply (dns_resolve_safe false); [exact dns_rx0_ok| |by vm_compute|done].
  intros i. apply demo_env_ok. by repeat constructor.
Defined.

Example resolves_os_org :
  match dns_resolve_a 10 dns_rx0 (λ _, demo_env good_answer) (replicate 256 0) (Some (bytes "os.org")) true 1000 with
  | Ret (_, rc, a) => rc = 0 ∧ a = [10; 0; 2; 15] | _ => False end.
Proof. by vm_compute. Qed.

Lemma dns_pointer_loop_hangs_witness :
  dns_resolve_a (Z.to_nat 100000) dns_rx0 (λ _, demo_env evil) (replicate 256 0) (Some (dotted [bytes "os"; bytes "org"])) true 1000 = NoFuel.
Proof.
  apply (dns_pointer_loop_hangs false (Z.to_nat 100000) dns_rx0 (λ _, demo_env evil)); try (by vm_compute).
  - exact dns_rx0_ok.
  - apply demo_env_ok, evil_bytes.
  - repeat constructor; cbn; try lia; done.
Defined.
