(* ===== verification/NetWire.v ===== *)
(** * Words, checksums and addresses of the network stack ([src/kernel/net/lwip_port.c])

    Fields of packed headers are bytes in memory order; a 16- or 32-bit field is
    loaded and stored little-endian, so that [htons] and [htonl] swap bytes. Then
    the texts of addresses. *)

From stdpp Require Import base numbers list.
From S2P Require Import Prelude CMem Buf Dns.
From Stdlib Require Import (notations) String.
Open Scope Z_scope.

(** ** Byte order *)

Definition htons (v : Z) : Z := u16 (Z.lor (Z.shiftr v 8) (Z.shiftl v 8)).
Definition ntohs (v : Z) : Z := htons v.
Definition htonl (v : Z) : Z :=
  u32 (Z.lor (Z.lor (Z.land (Z.shiftr v 24) 0xFF) (Z.land (Z.shiftr v 8) 0xFF00))
             (Z.lor (Z.land (u32 (Z.shiftl v 8)) 0xFF0000) (Z.land (u32 (Z.shiftl v 24)) 0xFF000000))).
Definition ntohl (v : Z) : Z := htonl v.
(** A field of [n] bytes at [i]. *)
Definition field (p : list Z) (i : Z) (n : nat) : outcome Z := l ← rd_block p i (Z.of_nat n); Ret (le_val l).

(** ** Checksum *)

Fixpoint sum_words (data : list Z) (sum : Z) : Z :=
  match data with
  | a :: b :: data => sum_words data (u32 (sum + (a + 256 * b)))
  | [a] => u32 (sum + a)
  | [] => sum
  end.
Fixpoint fold_carries (fuel : nat) (sum : Z) : Z :=
  match fuel with
  | O => sum
  | S fuel => if nonzero (Z.shiftr sum 16) then fold_carries fuel (Z.land sum 0xFFFF + Z.shiftr sum 16) else sum
  end.
(** Two turns are enough for a 32-bit sum ([fold_carries_spec]). *)
Definition ip_checksum (data : list Z) : Z := u16 (Z.lnot (fold_carries 2 (sum_words data 0))).

(** ** IPv4 addresses as text *)

Definition IP4 (a b c d : Z) : Z :=
  Z.lor (Z.lor (Z.lor (u32 a) (u32 (Z.shiftl b 8))) (u32 (Z.shiftl c 16))) (u32 (Z.shiftl d 24)).

Definition is_blank (c : Z) : bool := (c =? 32) || (c =? 9).
Definition is_digit (c : Z) : bool := (48 <=? c) && (c <=? 57).
Fixpoint skip_blanks (s : list Z) : list Z :=
  match s with c :: r => if is_blank c then skip_blanks r else s | [] => [] end.
(** The digits of an octet, their number and the rest, unless the value passes 255. *)
Fixpoint octet (s : list Z) (n nd : Z) : option (Z * Z * list Z) :=
  match s with
  | c :: r => if is_digit c then let n := u32 (u32 (n * 10) + (c - 48)) in if n >? 255 then None else octet r n (nd + 1) else Some (n, nd, s)
  | [] => Some (n, nd, [])
  end.
(** Octet number [4 - k] and the following ones. *)
Fixpoint octets (k : nat) (s : list Z) : option (list Z * list Z) :=
  match k with
  | O => Some ([], s)
  | S k =>
      match octet s 0 0 with
      | None => None
      | Some (n, nd, s) =>
          if nd =? 0 then None else
          match k, s with
          | O, _ => Some ([n], s)
          | S _, c :: r => if negb (c =? 46) then None else
              match octets k r with Some (l, s) => Some (n :: l, s) | None => None end
          | S _, [] => None
          end
      end
  end.
Definition net_parse_ipv4 (s : option (list Z)) (ip_out : bool) : Z * option Z :=
  match s, ip_out with
  | Some s, true =>
      match octets 4 (skip_blanks s) with
      | Some ([a; b; c; d], r) =>
          match skip_blanks r with [] => (0, Some (IP4 (u8 a) (u8 b) (u8 c) (u8 d))) | _ => (- EINVAL, None) end
      | _ => (- EINVAL, None)
      end
  | _, _ => (- EINVAL, None)
  end.

(** ** IPv6 addresses as text *)

Definition xdigit (c : Z) : Z :=
  if (48 <=? c) && (c <=? 57) then c - 48
  else if (97 <=? c) && (c <=? 102) then 10 + c - 97
  else if (65 <=? c) && (c <=? 70) then 10 + c - 65
  else -1.
Definition COLON : Z := 58.

(** The address up to a zone, at most 127 characters. *)
Fixpoint copy_address (s : list Z) (room : nat) : list Z :=
  match s, room with
  | c :: r, S room => if c =? 37 then [] else c :: copy_address r room
  | _, _ => []
  end.
(** A group of hexadecimal digits, their number and the rest. *)
Fixpoint hex_group (p : list Z) (v nd : Z) : option (Z * Z * list Z) :=
  match p with
  | [] => Some (v, nd, [])
  | c :: r =>
      if c =? COLON then Some (v, nd, p) else
      let xd := xdigit c in
      if xd <? 0 then None else
      let v := u32 (Z.lor (u32 (Z.shiftl v 4)) xd) in
      if v >? 0xFFFF then None else hex_group r v (nd + 1)
  end.
Definition skip_colon (p : list Z) : list Z := match p with c :: r => if c =? COLON then r else p | [] => [] end.
(** The part before the last colon of an address that ends in an IPv4 address. *)
Fixpoint left_words (fuel : nat) (p : list Z) (words : list Z) (wi : Z) : option (list Z) :=
  match p, fuel with
  | [], _ | _, O => Some words
  | c :: r, S fuel =>
      if wi <? 8 then
        if c =? COLON then left_words fuel r words wi else
        match hex_group p 0 0 with
        | None => None
        | Some (v, nd, p) => if nd =? 0 then None else left_words fuel (skip_colon p) (words.[wi <- u16 v]) (wi + 1)
        end
      else Some words
  end.
(** Groups separated by colons: the words, their number, and where [::] stands. *)
Fixpoint groups (fuel : nat) (p : list Z) (words : list Z) (wi dbl : Z) : option (list Z * Z * Z) :=
  match p, fuel with
  | [], _ | _, O => Some (words, wi, dbl)
  | c :: r, S fuel =>
      if (c =? COLON) && match r with c' :: _ => c' =? COLON | [] => false end then
        if dbl >=? 0 then None else groups fuel (tail r) words wi wi
      else if c =? COLON then None
      else
        match hex_group p 0 0 with
        | None => None
        | Some (v, nd, p) =>
            if nd =? 0 then None else if wi >=? 8 then None
            else groups fuel (skip_colon p) (words.[wi <- u16 v]) (wi + 1) dbl
        end
  end.
Definition bytes_of_words (words : list Z) : list Z := concat (map (λ w, [u8 (Z.shiftr w 8); u8 w]) words).
Definition zeros (n : nat) : list Z := replicate n 0.

(** The last colon: what is before it and what is behind it. *)
Fixpoint split_last_colon (s : list Z) : option (list Z * list Z) :=
  match s with
  | [] => None
  | c :: r =>
      match split_last_colon r with
      | Some (l, t) => Some (c :: l, t)
      | None => if c =? COLON then Some ([], r) else None
      end
  end.
Definition dots (s : list Z) : Z := zlen (List.filter (λ c, c =? 46) s).

Definition parse_embedded (left v4 : list Z) : Z * list Z :=
  match net_parse_ipv4 (Some v4) true with
  | (0, Some ip) =>
      if zlen left >=? 96 then (- EINVAL, zeros 16) else
      match left_words (S (length left)) (skip_colon left) (zeros 8) 0 with
      | None => (- EINVAL, zeros 16)
      | Some words =>
          let b := bytes_of_words words in
          (0, take 12 b ++ [u8 (Z.land ip 0xFF); u8 (Z.land (Z.shiftr ip 8) 0xFF); u8 (Z.land (Z.shiftr ip 16) 0xFF); u8 (Z.land (Z.shiftr ip 24) 0xFF)])
      end
  | _ => (- EINVAL, zeros 16)
  end.
Definition parse_groups (p : list Z) : Z * list Z :=
  let double := match p with c :: c' :: _ => (c =? COLON) && (c' =? COLON) | _ => false end in
  match groups (S (length p)) (if double then drop 2 p else p) (zeros 8) 0 (if double then 0 else -1) with
  | None => (- EINVAL, zeros 16)
  | Some (words, used, dbl) =>
      if dbl <? 0 then if negb (used =? 8) then (- EINVAL, zeros 16) else (0, bytes_of_words words)
      else
        let ins := 8 - used in
        if ins + used >? 8 then (- EINVAL, zeros 16) else
        (0, bytes_of_words (take (Z.to_nat dbl) words ++ zeros (Z.to_nat ins) ++ take (Z.to_nat (used - dbl)) (drop (Z.to_nat dbl) words)))
  end.
Definition net_parse_ipv6 (s : option (list Z)) (out : bool) : Z * list Z :=
  match s, out with
  | Some s, true =>
      let tmp := copy_address (skip_blanks s) 127 in
      if zlen tmp =? 0 then (- EINVAL, zeros 16) else
      if bool_decide (tmp = [COLON; COLON]) then (0, zeros 16) else
      if bool_decide (tmp = [COLON; COLON; 49]) then (0, zeros 15 ++ [1]) else
      match split_last_colon tmp with
      | Some (l, t) => if dots t =? 3 then parse_embedded l t else parse_groups tmp
      | None => parse_groups tmp
      end
  | _, _ => (- EINVAL, [])
  end.

Definition hex_char (v : Z) : Z := (bytes "0123456789abcdef").[v].
Definition hex2 (v : Z) : list Z := [hex_char (Z.shiftr v 4); hex_char (Z.land v 0x0F)].
Fixpoint format_pairs (b : list Z) : list Z :=
  match b with
  | x :: y :: ((_ :: _) as r) => hex2 x ++ hex2 y ++ COLON :: format_pairs r
  | x :: y :: [] => hex2 x ++ hex2 y
  | _ => []
  end.
(** The buffer and its capacity; a buffer too small holds the empty string. *)
Definition net_format_ipv6 (a : option (list Z)) (buf : list Z) (cap : Z) : outcome (list Z) :=
  match a with
  | Some b => if cap <? 40 then (if nonzero cap then wr buf 0 [0] else Ret buf) else wr buf 0 (format_pairs b ++ [0])
  | None => if nonzero cap then wr buf 0 [0] else Ret buf
  end.

(** The link-local address of an interface from its hardware address. *)
Definition linklocal_from_mac (mac : list Z) : list Z :=
  [0xfe; 0x80; 0; 0; 0; 0; 0; 0; u8 (Z.lxor (mac.[0]) 0x02); mac.[1]; mac.[2]; 0xff; 0xfe; mac.[3]; mac.[4]; mac.[5]].

Example parses_eight_groups : net_parse_ipv6 (Some (bytes " fe80:0:0:0:5054:ff:fe12:3456%eth0")) true =
  (0, [254; 128; 0; 0; 0; 0; 0; 0; 80; 84; 0; 255; 254; 18; 52; 86]).
Proof. reflexivity. Qed.
(** The groups in front of an embedded IPv4 address are put first, whatever [::] says. *)
Example embedded_ipv4_misplaced : net_parse_ipv6 (Some (bytes "::ffff:10.0.2.2")) true =
  (0, [255; 255; 0; 0; 0; 0; 0; 0; 0; 0; 0; 0; 10; 0; 2; 2]).
Proof. reflexivity. Qed.
Example three_colons : net_parse_ipv6 (Some (bytes "fe80:::1")) true = (0, [254; 128] ++ zeros 13 ++ [1]).
Proof. reflexivity. Qed.

(** * Proofs: byte order *)

Lemma htons_val v : 0 ≤ v < 65536 → htons v = v / 256 + v mod 256 * 256.
Proof.
  intros Hv. unfold htons, wrap. rewrite Z.shiftr_div_pow2 by lia. change (2 ^ 8) with 256.
  assert (0 ≤ v / 256 < 256) by (split; [apply Z.div_pos; lia|apply Z.div_lt_upper_bound; lia]).
  rewrite lor_add by lia. change (2 ^ 8) with 256. change (2 ^ 16) with 65536.
  symmetry. apply (Z.mod_unique_pos _ _ (v / 256)); [|pose proof (Z.div_mod v 256); lia].
  pose proof (Z.mod_pos_bound v 256). lia.
Qed.

Lemma htons_range v : 0 ≤ htons v < 65536.
Proof. apply (wrap_range 16). lia. Qed.

Lemma ntohs_htons v : 0 ≤ v < 65536 → ntohs (htons v) = v.
Proof.
  intros Hv. unfold ntohs. rewrite (htons_val (htons v)) by apply htons_range. rewrite htons_val by done.
  assert (0 ≤ v / 256 < 256) by (split; [apply Z.div_pos; lia|apply Z.div_lt_upper_bound; lia]).
  pose proof (Z.mod_pos_bound v 256 ltac:(lia)). rewrite Z.div_add, (Z.div_small (v / 256)) by lia.
  rewrite Z.mod_add, (Z.mod_small (v / 256)) by lia. pose proof (Z.div_mod v 256). lia.
Qed.

Lemma land_byte x k : 0 ≤ k → Z.land x (Z.shiftl 255 k) = x / 2 ^ k mod 256 * 2 ^ k.
Proof.
  intros Hk. change 255 with (Z.ones 8). rewrite <- Z.shiftl_mul_pow2 by lia. change 256 with (2 ^ 8).
  rewrite <- Z.shiftr_div_pow2, <- Z.land_ones by lia. apply Z.bits_inj'. intros i Hi.
  rewrite Z.land_spec, !Z.shiftl_spec, Z.land_spec by lia. destruct (decide (i < k)).
  - rewrite !(Z.testbit_neg_r _ (i - k)) by lia. by rewrite !andb_false_r.
  - rewrite Z.shiftr_spec by lia. by replace (i - k + k) with i by lia.
Qed.

(** The bytes of a 32-bit word in reverse order. *)
Lemma htonl_val v : 0 ≤ v < 2 ^ 32 →
  htonl v = v / 2 ^ 24 + v / 2 ^ 16 mod 256 * 2 ^ 8 + v / 2 ^ 8 mod 256 * 2 ^ 16 + v mod 256 * 2 ^ 24.
Proof.
  intros Hv. unfold htonl. change 0xFF000000 with (Z.shiftl 255 24). change 0xFF0000 with (Z.shiftl 255 16).
  change 0xFF00 with (Z.shiftl 255 8). change (Z.land (Z.shiftr v 24) 0xFF) with (Z.land (Z.shiftr v 24) (Z.shiftl 255 0)).
  rewrite !land_byte by lia. rewrite !Z.shiftr_div_pow2 by lia. unfold wrap. rewrite !Z.shiftl_mul_pow2 by lia.
  assert (v / 2 ^ 24 / 2 ^ 0 mod 256 * 2 ^ 0 = v / 2 ^ 24) as -> by div_lia.
  assert (v / 2 ^ 8 / 2 ^ 8 = v / 2 ^ 16) as -> by div_lia.
  assert ((v * 2 ^ 8) mod 2 ^ 32 / 2 ^ 16 mod 256 = v / 2 ^ 8 mod 256) as -> by div_lia.
  assert ((v * 2 ^ 24) mod 2 ^ 32 / 2 ^ 24 mod 256 = v mod 256) as -> by div_lia.
  set (a := v / 2 ^ 24). set (b := v / 2 ^ 16 mod 256). set (c := v / 2 ^ 8 mod 256). set (d := v mod 256).
  assert (0 ≤ a < 256) by (unfold a; div_lia).
  assert (0 ≤ b < 256 ∧ 0 ≤ c < 256 ∧ 0 ≤ d < 256) as (Hb & Hc & Hd) by (unfold b, c, d; split_and!; apply Z.mod_pos_bound; lia).
  assert (Z.lor a (b * 2 ^ 8) = a + b * 2 ^ 8) as -> by (rewrite <- lor_add by lia; by rewrite Z.shiftl_mul_pow2 by lia).
  assert (Z.lor (c * 2 ^ 16) (d * 2 ^ 24) = (c + d * 2 ^ 8) * 2 ^ 16) as ->.
  { replace (d * 2 ^ 24) with (d * 2 ^ 8 * 2 ^ 16) by lia. rewrite <- !(Z.shiftl_mul_pow2 _ 16) by lia. rewrite <- Z.shiftl_lor.
    f_equal. rewrite <- lor_add by lia. by rewrite Z.shiftl_mul_pow2 by lia. }
  rewrite <- (Z.shiftl_mul_pow2 (c + _)) by lia. rewrite lor_add by lia. rewrite Z.mod_small by lia. lia.
Qed.

Lemma htonl_range v : 0 ≤ htonl v < 2 ^ 32.
Proof. apply (wrap_range 32). lia. Qed.

Lemma bytes_of_word a b c d : 0 ≤ a < 256 → 0 ≤ b < 256 → 0 ≤ c < 256 → 0 ≤ d < 256 →
  let w := a + b * 2 ^ 8 + c * 2 ^ 16 + d * 2 ^ 24 in
  0 ≤ w < 2 ^ 32 ∧ w mod 256 = a ∧ w / 2 ^ 8 mod 256 = b ∧ w / 2 ^ 16 mod 256 = c ∧ w / 2 ^ 24 = d.
Proof.
  intros Ha Hb Hc Hd w. split; [unfold w; lia|].
  assert (w / 2 ^ 8 = b + c * 2 ^ 8 + d * 2 ^ 16) as -> by (symmetry; apply (Z.div_unique_pos _ _ _ a); unfold w; lia).
  assert (w / 2 ^ 16 = c + d * 2 ^ 8) as -> by (symmetry; apply (Z.div_unique_pos _ _ _ (a + b * 2 ^ 8)); unfold w; lia).
  split_and!; symmetry.
  - apply (Z.mod_unique_pos _ _ (b + c * 2 ^ 8 + d * 2 ^ 16)); unfold w; lia.
  - apply (Z.mod_unique_pos _ _ (c + d * 2 ^ 8)); lia.
  - apply (Z.mod_unique_pos _ _ d); lia.
  - apply (Z.div_unique_pos _ _ _ (a + b * 2 ^ 8 + c * 2 ^ 16)); unfold w; lia.
Qed.

Lemma word_of_bytes v : 0 ≤ v < 2 ^ 32 →
  ∃ a b c d, v = a + b * 2 ^ 8 + c * 2 ^ 16 + d * 2 ^ 24 ∧ 0 ≤ a < 256 ∧ 0 ≤ b < 256 ∧ 0 ≤ c < 256 ∧ 0 ≤ d < 256.
Proof.
  intros Hv. pose proof (Z.div_mod v 256). pose proof (Z.mod_pos_bound v 256).
  pose proof (Z.div_mod (v / 256) 256). pose proof (Z.mod_pos_bound (v / 256) 256).
  pose proof (Z.div_mod (v / 256 / 256) 256). pose proof (Z.mod_pos_bound (v / 256 / 256) 256).
  exists (v mod 256), (v / 256 mod 256), (v / 256 / 256 mod 256), (v / 256 / 256 / 256). lia.
Qed.

Lemma ntohl_htonl v : 0 ≤ v < 2 ^ 32 → ntohl (htonl v) = v.
Proof.
  intros Hv. unfold ntohl. rewrite (htonl_val (htonl v)) by apply htonl_range. rewrite htonl_val by done.
  destruct (word_of_bytes v Hv) as (a & b & c & d & -> & Ha & Hb & Hc & Hd).
  destruct (bytes_of_word a b c d Ha Hb Hc Hd) as (_ & -> & -> & -> & ->).
  destruct (bytes_of_word d c b a Hd Hc Hb Ha) as (_ & -> & -> & -> & ->). lia.
Qed.

(** * Checksum *)

Fixpoint word_sum (data : list Z) : Z :=
  match data with a :: b :: data => a + 256 * b + word_sum data | [a] => a | [] => 0 end.

Lemma list_pair_ind {A} (P : list A → Prop) :
  P [] → (∀ a, P [a]) → (∀ a b l, P l → P (a :: b :: l)) → ∀ l, P l.
Proof.
  intros H0 H1 H2. enough (∀ n l, (length l ≤ n)%nat → P l) as H by (intros l; by apply (H (length l))).
  induction n as [|n IH]; intros l Hl; [destruct l; [done|cbn in Hl; lia]|].
  destruct l as [|a [|b l]]; [done|done|]. apply H2, IH. cbn in Hl. lia.
Qed.

Lemma word_sum_range data : bytes_ok data → 0 ≤ word_sum data ≤ 65535 * zlen data.
Proof.
  induction data as [|a|a b data IH] using list_pair_ind; intros Hd; [done|..].
  - apply Forall_cons in Hd as [Ha _]. cbn. change (zlen [a]) with 1. lia.
  - apply Forall_cons in Hd as [Ha Hd]. apply Forall_cons in Hd as [Hb Hd]. cbn [word_sum]. rewrite !zlen_cons.
    specialize (IH Hd). lia.
Qed.

Lemma sum_words_spec data s : bytes_ok data → 0 ≤ s → s + 65535 * zlen data < 2 ^ 32 → sum_words data s = s + word_sum data.
Proof.
  revert s. induction data as [|a|a b data IH] using list_pair_ind; intros s Hd H0 Hs; cbn [sum_words word_sum]; [lia|..].
  - apply Forall_cons in Hd as [Ha _]. change (zlen [a]) with 1 in Hs. apply wrap_id. lia.
  - apply Forall_cons in Hd as [Ha Hd]. apply Forall_cons in Hd as [Hb Hd]. rewrite !zlen_cons in Hs.
    pose proof (zlen_nonneg data). rewrite wrap_id by lia. rewrite IH by (done || lia). lia.
Qed.

(** Folding keeps the value modulo 65535, and the zero. *)
Lemma fold_carries_spec s : 0 ≤ s < 2 ^ 32 →
  let f := fold_carries 2 s in 0 ≤ f < 65536 ∧ f mod 65535 = s mod 65535 ∧ (f = 0 → s = 0).
Proof.
  intros Hs f. assert (∀ x, 0 ≤ x → let y := Z.land x 0xFFFF + Z.shiftr x 16 in y = x - 65535 * (x / 65536)) as Hstep.
  { intros x Hx. cbn zeta. replace (Z.land x 0xFFFF) with (x mod 65536) by (symmetry; by apply (Z.land_ones x 16)).
    rewrite Z.shiftr_div_pow2 by lia. change (2 ^ 16) with 65536. pose proof (Z.div_mod x 65536). lia. }
  assert (∀ x, 0 ≤ x → nonzero (Z.shiftr x 16) = false → x < 65536) as Hend.
  { intros x Hx E. unfold nonzero in E. rewrite Z.shiftr_div_pow2 in E by lia. bool_hyps. div_lia. }
  assert (∀ x k, (x - 65535 * k) mod 65535 = x mod 65535) as Hmod.
  { intros x k. replace (x - 65535 * k) with (x + (- k) * 65535) by lia. by rewrite Z.mod_add. }
  subst f. cbn [fold_carries]. destruct (nonzero (Z.shiftr s 16)) eqn:E1; [|by specialize (Hend s ltac:(lia) E1); lia].
  rewrite (Hstep s) by lia. set (t := s - 65535 * (s / 65536)). assert (0 < t ≤ 131070) as Ht.
  { unfold nonzero in E1. rewrite Z.shiftr_div_pow2 in E1 by lia. bool_hyps. unfold t. div_lia. }
  assert (t mod 65535 = s mod 65535) as Et by apply Hmod.
  destruct (nonzero (Z.shiftr t 16)) eqn:E2.
  - rewrite (Hstep t) by lia. rewrite Hmod. split_and!; [div_lia..|done|]. intros. div_lia.
  - specialize (Hend t ltac:(lia) E2). split_and!; [lia|lia|done|lia].
Qed.

Lemma checksum_val data : bytes_ok data → zlen data < 65536 →
  ip_checksum data = 65535 - fold_carries 2 (word_sum data) ∧ 0 ≤ word_sum data < 2 ^ 32.
Proof.
  intros Hd Hl. pose proof (word_sum_range data Hd). unfold ip_checksum. rewrite sum_words_spec by (done || lia). cbn [Z.add].
  split; [|lia]. destruct (fold_carries_spec (word_sum data) ltac:(lia)) as (Hf & _). set (f := fold_carries _ _) in *.
  unfold Z.lnot, wrap. symmetry. apply (Z.mod_unique_pos _ _ (-1)); lia.
Qed.

Lemma word_sum_app l l' : Z.Even (zlen l) → word_sum (l ++ l') = word_sum l + word_sum l'.
Proof.
  induction l as [|a|a b l IH] using list_pair_ind; intros He; [done|..].
  - destruct He as [k Hk]. change (zlen [a]) with 1 in Hk. lia.
  - cbn [app word_sum]. rewrite IH; [lia|]. rewrite !zlen_cons in He. destruct He as [k Hk]. exists (k - 1). lia.
Qed.

(** A message whose checksum was computed with zeroes in its field sums up to all
    ones, so that the receiver computes 0: the one's complement sum of the
    internet protocols. *)
Theorem checksum_verifies pre post :
  bytes_ok pre → bytes_ok post → Z.Even (zlen pre) → zlen pre + zlen post < 65534 →
  ip_checksum (pre ++ le_bytes 2 (ip_checksum (pre ++ [0; 0] ++ post)) ++ post) = 0.
Proof.
  intros Hpre Hpost He Hl. set (c := ip_checksum (pre ++ [0; 0] ++ post)).
  assert (0 ≤ c < 65536) as Hc by (apply (wrap_range 16); lia).
  destruct (checksum_val (pre ++ [0; 0] ++ post)) as [Ec Hs].
  { apply Forall_app; split; [done|]. apply Forall_app; split; [by repeat constructor|done]. }
  { rewrite !zlen_app. change (zlen [0; 0]) with 2. lia. }
  destruct (checksum_val (pre ++ le_bytes 2 c ++ post)) as [Er Hs'].
  { apply Forall_app; split; [done|]. apply Forall_app; split; [apply le_bytes_range|done]. }
  { rewrite !zlen_app. change (zlen (le_bytes 2 c)) with 2. lia. }
  fold c in Ec. rewrite Er. rewrite !word_sum_app in * by (done || by exists 1).
  assert (word_sum (le_bytes 2 c) = c) as Ew by (cbn; div_lia). rewrite Ew in *. change (word_sum [0; 0]) with 0 in *.
  set (a := word_sum pre) in *. set (b := word_sum post) in *.
  destruct (fold_carries_spec (a + (0 + b)) ltac:(lia)) as (Hf & Hm & Hz). set (f := fold_carries 2 (a + (0 + b))) in *.
  destruct (fold_carries_spec (a + (c + b)) ltac:(lia)) as (Hg & Hn & Hy). set (g := fold_carries 2 (a + (c + b))) in *.
  assert (g mod 65535 = 0) as Hg0.
  { rewrite Hn. replace (a + (c + b)) with (a + (0 + b) + (65535 - f)) by lia. rewrite Z.add_mod, <- Hm by lia.
    rewrite <- Z.add_mod by lia. replace (f + (65535 - f)) with 65535 by lia. done. }
  assert (g ≠ 0) as Hne by (intros E; specialize (Hy E); assert (a + (0 + b) = 0) by lia; assert (f = 0); [|lia];
    unfold f; rewrite H; done). 
  assert (g = 65535) by div_lia. lia.
Qed.

Lemma checksum_verifies_witness :
  ip_checksum ([8; 0] ++ le_bytes 2 (ip_checksum ([8; 0] ++ [0; 0] ++ [0xAE; 0xA1; 0; 1])) ++ [0xAE; 0xA1; 0; 1]) = 0 ∧
  ip_checksum ([8; 0] ++ [0; 0] ++ [0xAE; 0xA1; 0; 1]) = 0x5D49.
Proof. split; [apply checksum_verifies; [by repeat constructor..|by exists 1|by vm_compute]|by vm_compute]. Defined.

(** * Addresses as text *)

Lemma IP4_val a b c d : 0 ≤ a < 256 → 0 ≤ b < 256 → 0 ≤ c < 256 → 0 ≤ d < 256 →
  IP4 a b c d = a + b * 2 ^ 8 + c * 2 ^ 16 + d * 2 ^ 24.
Proof.
  intros Ha Hb Hc Hd. unfold IP4. rewrite !wrap_id by (rewrite ?Z.shiftl_mul_pow2; lia).
  rewrite (lor_add a b) by lia. rewrite (lor_add _ c) by lia. rewrite (lor_add _ d) by lia. done.
Qed.

(** The value of decimal digits behind a number. *)
Definition val (n : Z) (d : list Z) : Z := foldl (λ n c, n * 10 + (c - 48)) n d.
Definition stops (r : list Z) : Prop := match r with c :: _ => is_digit c = false | [] => True end.
(** An octet in decimal. *)
Definition decimal (d : list Z) : Prop := d ≠ [] ∧ Forall (λ c, is_digit c = true) d ∧ val 0 d ≤ 255.

Lemma val_mono d n : 0 ≤ n → Forall (λ c, is_digit c = true) d → n ≤ val n d.
Proof.
  intros Hn Hd. revert n Hn. induction Hd as [|c d Hc _ IH]; intros n Hn; [done|]. unfold val in *. cbn [foldl].
  unfold is_digit in Hc. bool_hyps. etrans; [|apply IH; lia]. lia.
Qed.

Lemma octet_complete d r n nd : 0 ≤ n → Forall (λ c, is_digit c = true) d → stops r → val n d ≤ 255 →
  octet (d ++ r) n nd = Some (val n d, nd + zlen d, r).
Proof.
  intros Hn Hd Hr. revert n nd Hn. induction Hd as [|c d Hc Hd IH]; intros n nd Hn Hv.
  - cbn [app]. change (zlen []) with 0. rewrite Z.add_0_r. destruct r as [|c r]; [done|]. cbn in Hr |- *. by rewrite Hr.
  - cbn [app octet]. rewrite Hc. assert (0 ≤ c - 48 ≤ 9) by (unfold is_digit in Hc; bool_hyps; lia).
    change (val (n * 10 + (c - 48)) d ≤ 255) in Hv. pose proof (val_mono d (n * 10 + (c - 48)) ltac:(lia) Hd).
    rewrite !wrap_id by (rewrite ?wrap_id; lia). rewrite gtb_le by lia. rewrite IH by (lia || done).
    rewrite zlen_cons. unfold val. cbn [foldl]. do 3 f_equal. lia.
Qed.

Lemma octet_sound s n nd n' nd' r : 0 ≤ n ≤ 255 → octet s n nd = Some (n', nd', r) →
  ∃ d, s = d ++ r ∧ Forall (λ c, is_digit c = true) d ∧ stops r ∧ n' = val n d ∧ n' ≤ 255 ∧ nd' = nd + zlen d.
Proof.
  revert n nd. induction s as [|c s IH]; intros n nd Hn; cbn [octet].
  - intros [= <- <- <-]. exists []. change (zlen []) with 0. split_and!; try done; cbn; lia.
  - destruct (is_digit c) eqn:Hc.
    + assert (0 ≤ c - 48 ≤ 9) by (unfold is_digit in Hc; bool_hyps; lia). rewrite !wrap_id by (rewrite ?wrap_id; lia).
      destruct (Z.gtb_spec (n * 10 + (c - 48)) 255); [done|]. intros (d & -> & Hd & Hr & -> & Hle & ->)%IH; [|lia].
      exists (c :: d). rewrite zlen_cons. split_and!; try done; [by constructor|lia].
    + intros [= <- <- <-]. exists []. change (zlen []) with 0. split_and!; try done; cbn; lia.
Qed.

Lemma decimal_octet d r : decimal d → stops r → octet (d ++ r) 0 0 = Some (val 0 d, zlen d, r).
Proof. intros (_ & Hd & Hv) Hr. by apply octet_complete. Qed.

Lemma octets_complete ds r : Forall decimal ds → ds ≠ [] → stops r → octets (length ds) (dotted ds ++ r) = Some (map (val 0) ds, r).
Proof.
  intros Hd. induction Hd as [|d ds Hd Hds IH]; intros Hne Hr; [done|]. assert (zlen d ≠ 0) as Hz.
  { destruct Hd as [Hd _]. destruct d; [done|]. rewrite zlen_cons. pose proof (zlen_nonneg d). lia. }
  cbn [length octets]. destruct ds as [|d' ds].
  - cbn [dotted length map]. rewrite decimal_octet by done. by rewrite (proj2 (Z.eqb_neq _ _) Hz).
  - change (dotted (d :: d' :: ds)) with (d ++ DOT :: dotted (d' :: ds)). rewrite <- app_assoc. cbn [app].
    rewrite decimal_octet by done. rewrite (proj2 (Z.eqb_neq _ _) Hz). cbn [length]. change (DOT =? 46) with true. cbn [negb].
    cbn [length] in IH. rewrite IH by done. done.
Qed.

Lemma octets_sound k s l r : octets k s = Some (l, r) → k ≠ O →
  ∃ ds, length ds = k ∧ s = dotted ds ++ r ∧ Forall decimal ds ∧ stops r ∧ l = map (val 0) ds.
Proof.
  revert s l r. induction k as [|k IH]; intros s l r; [done|]. cbn [octets]. intros E _.
  destruct (octet s 0 0) as [[[n nd] s']|] eqn:Eo; [|done].
  apply octet_sound in Eo as (d & -> & Hd & Hs & -> & Hn & ->); [|lia]. destruct (Z.eqb_spec (0 + zlen d) 0) as [|Hz]; [done|].
  assert (decimal d) as Hdec by (split; [by intros ->|done]). destruct k as [|k].
  - injection E as <- <-. exists [d]. split_and!; try done. by constructor.
  - destruct s' as [|c s']; [done|]. destruct (Z.eqb_spec c 46) as [->|]; [|done]. cbn [negb] in E.
    destruct (octets (S k) s') as [[l' r']|] eqn:Eos; [|done]. injection E as <- <-.
    apply IH in Eos as (ds & Hl & -> & Hds & Hr & ->); [|done]. destruct ds as [|d' ds]; [done|].
    exists (d :: d' :: ds). split_and!; [cbn in *; lia| |by constructor|done|done].
    change (dotted (d :: d' :: ds)) with (d ++ DOT :: dotted (d' :: ds)). by rewrite <- app_assoc.
Qed.

Lemma skip_blanks_spec s : ∃ b, s = b ++ skip_blanks s ∧ Forall (λ c, is_blank c = true) b.
Proof.
  induction s as [|c s (b & E & Hb)]; [by exists []|]. cbn [skip_blanks]. destruct (is_blank c) eqn:Ec; [|by exists []].
  exists (c :: b). cbn [app]. rewrite <- E. split; [done|by constructor].
Qed.
Lemma skip_blanks_app b s : Forall (λ c, is_blank c = true) b → match s with c :: _ => is_blank c = false | [] => True end →
  skip_blanks (b ++ s) = s.
Proof.
  induction 1 as [|c b Hc _ IH]; intros Hs; [|cbn; rewrite Hc; by apply IH]. destruct s as [|c s]; [done|]. cbn. by rewrite Hs.
Qed.

(** Four octets in decimal between dots, with blanks around them. *)
Definition ipv4_text (s : list Z) (v : Z) : Prop :=
  ∃ b d1 d2 d3 d4 b', s = b ++ dotted [d1; d2; d3; d4] ++ b' ∧ Forall (λ c, is_blank c = true) b ∧ Forall (λ c, is_blank c = true) b' ∧
    decimal d1 ∧ decimal d2 ∧ decimal d3 ∧ decimal d4 ∧
    v = val 0 d1 + val 0 d2 * 2 ^ 8 + val 0 d3 * 2 ^ 16 + val 0 d4 * 2 ^ 24.

Lemma decimal_range d : decimal d → 0 ≤ val 0 d < 256.
Proof. intros (_ & Hd & Hv). split; [by apply val_mono|lia]. Qed.

(** [net_parse_ipv4] accepts exactly four decimal octets of any number of digits
    between dots, with blanks around them, and gives the address; everything else is
    an invalid argument. *)
Theorem net_parse_ipv4_correct s :
  (∀ v, ipv4_text s v ↔ net_parse_ipv4 (Some s) true = (0, Some v)) ∧
  ((∀ v, ¬ ipv4_text s v) ↔ net_parse_ipv4 (Some s) true = (- EINVAL, None)).
Proof.
  assert (∀ v, ipv4_text s v → net_parse_ipv4 (Some s) true = (0, Some v)) as Hc.
  { intros v (b & d1 & d2 & d3 & d4 & b' & -> & Hb & Hb' & H1 & H2 & H3 & H4 & ->). unfold net_parse_ipv4.
    rewrite skip_blanks_app; [|done|].
    - assert (stops b') as Hst.
      { destruct b' as [|c b']; [done|]. apply Forall_cons in Hb' as [Hc _]. unfold stops, is_digit, is_blank in *.
        destruct (Z.eqb_spec c 32) as [->|]; [done|]. destruct (Z.eqb_spec c 9) as [->|]; done. }
      pose proof (octets_complete [d1; d2; d3; d4] b' ltac:(by rewrite !Forall_cons) ltac:(done) Hst) as Eo. cbn [length] in Eo.
      rewrite Eo. cbn [map]. rewrite <- (app_nil_r b'), skip_blanks_app by done.
      apply decimal_range in H1, H2, H3, H4. rewrite !(wrap_id 8) by lia. by rewrite IP4_val.
    - destruct H1 as (Hne & Hd & _). destruct d1 as [|c d1]; [done|]. apply Forall_cons in Hd as [Hd _]. cbn.
      unfold is_digit, is_blank in *. bool_hyps. rewrite !(proj2 (Z.eqb_neq _ _)) by lia. done. }
  assert (∀ v, net_parse_ipv4 (Some s) true = (0, Some v) → ipv4_text s v) as Hs.
  { intros v E. unfold net_parse_ipv4 in E. destruct (skip_blanks_spec s) as (b & Es & Hb).
    destruct (octets 4 (skip_blanks s)) as [[l r]|] eqn:Eo; [|done].
    apply octets_sound in Eo as (ds & Hl & E2 & Hds & Hr & ->); [|done].
    destruct ds as [|d1 [|d2 [|d3 [|d4 [|]]]]]; try done. cbn [map] in E. destruct (skip_blanks_spec r) as (b' & Er & Hb').
    destruct (skip_blanks r) as [|]; [|done]. injection E as <-. rewrite app_nil_r in Er. subst r.
    exists b, d1, d2, d3, d4, b'. rewrite Es at 1. rewrite E2. rewrite !Forall_cons in Hds. destruct Hds as (H1 & H2 & H3 & H4 & _).
    split_and!; try done. pose proof (decimal_range _ H1). pose proof (decimal_range _ H2). pose proof (decimal_range _ H3).
    pose proof (decimal_range _ H4). rewrite !(wrap_id 8) by lia. by apply IP4_val. }
  split; [intros v; split; auto|]. split.
  - intros Hno. unfold net_parse_ipv4 in *. destruct (octets 4 (skip_blanks s)) as [[[|a [|b [|c [|d [|]]]]] r]|]; try done.
    destruct (skip_blanks r); [|done]. exfalso. by eapply Hno, Hs.
  - intros E v Hv. apply Hc in Hv. congruence.
Qed.

(** ** IPv6 *)

Lemma hex_char_digit v : 0 ≤ v < 16 →
  xdigit (hex_char v) = v ∧ hex_char v ≠ COLON ∧ hex_char v ≠ 37 ∧ hex_char v ≠ 46 ∧ is_blank (hex_char v) = false ∧ 0 < hex_char v < 128.
Proof.
  intros Hv. assert (forallb (λ v, (xdigit (hex_char v) =? v) && negb (hex_char v =? COLON) && negb (hex_char v =? 37) &&
    negb (hex_char v =? 46) && negb (is_blank (hex_char v)) && (0 <? hex_char v) && (hex_char v <? 128)) (seqZ 0 16) = true) as H by reflexivity.
  rewrite forallb_forall in H. specialize (H v ltac:(apply list_elem_of_In, elem_of_seqZ; lia)). bool_hyps. split_and!; done || lia.
Qed.

Lemma nibbles x : 0 ≤ x < 256 → 0 ≤ Z.shiftr x 4 < 16 ∧ 0 ≤ Z.land x 0x0F < 16 ∧ x = Z.shiftr x 4 * 16 + Z.land x 0x0F.
Proof. intros Hx. rewrite Z.shiftr_div_pow2 by lia. change 0x0F with (Z.ones 4). rewrite Z.land_ones by lia. change (2 ^ 4) with 16. div_lia. Qed.

Lemma hex_step v a r nd : 0 ≤ v < 4096 → 0 ≤ a < 16 → hex_group (hex_char a :: r) v nd = hex_group r (v * 16 + a) (nd + 1).
Proof.
  intros Hv Ha. destruct (hex_char_digit a Ha) as (Hx & Hc & _). cbn [hex_group].
  rewrite (proj2 (Z.eqb_neq _ _) Hc), Hx. rewrite (proj2 (Z.ltb_ge a 0)) by lia.
  rewrite (wrap_id 32 (Z.shiftl v 4)) by (rewrite Z.shiftl_mul_pow2; lia). rewrite Z.lor_comm, lor_add by lia.
  rewrite wrap_id by lia. rewrite gtb_le by lia. f_equal. lia.
Qed.

Lemma hex_group_pair x y r : 0 ≤ x < 256 → 0 ≤ y < 256 → match r with c :: _ => c = COLON | [] => True end →
  hex_group (hex2 x ++ hex2 y ++ r) 0 0 = Some (x * 256 + y, 4, r).
Proof.
  intros Hx Hy Hr. destruct (nibbles x Hx) as (H1 & H2 & Ex). destruct (nibbles y Hy) as (H3 & H4 & Ey).
  unfold hex2. cbn [app]. rewrite !hex_step by lia. destruct r as [|c r]; cbn [hex_group]; [|subst c; rewrite Z.eqb_refl]; do 3 f_equal; lia.
Qed.

(** The words of the pairs of bytes. *)
Fixpoint pairs (b : list Z) : list Z := match b with x :: y :: b => x * 256 + y :: pairs b | _ => [] end.

Lemma pairs_words b : bytes_ok b → Z.Even (zlen b) → bytes_of_words (pairs b) = b.
Proof.
  induction b as [|a|x y b IH] using list_pair_ind; intros Hb He; [done|..].
  - destruct He as [k Hk]. change (zlen [a]) with 1 in Hk. lia.
  - apply Forall_cons in Hb as [Hx Hb]. apply Forall_cons in Hb as [Hy Hb]. unfold bytes_of_words in *. cbn [pairs map concat app].
    rewrite IH; [|done|rewrite !zlen_cons in He; destruct He as [k Hk]; exists (k - 1); lia].
    rewrite Z.shiftr_div_pow2 by lia. unfold wrap. change (2 ^ 8) with 256. rewrite Z.div_add_l by lia.
    rewrite (Z.div_small y) by lia. rewrite Z.add_0_r, (Z.mod_small x) by lia.
    rewrite (Z.add_comm (x * 256)), Z.mod_add, (Z.mod_small y) by lia. done.
Qed.

Lemma format_pairs_cons x y b : b ≠ [] → format_pairs (x :: y :: b) = hex2 x ++ hex2 y ++ COLON :: format_pairs b.
Proof. by destruct b. Qed.

Lemma format_head b : bytes_ok b → Z.Even (zlen b) → b ≠ [] → ∃ a r, format_pairs b = hex_char a :: r ∧ 0 ≤ a < 16.
Proof.
  intros Hb He Hn. destruct b as [|x [|y b]]; [done|destruct He as [k Hk]; change (zlen [x]) with 1 in Hk; lia|].
  apply Forall_cons in Hb as [Hx _]. exists (Z.shiftr x 4). destruct b; eexists; (split; [reflexivity|by apply nibbles]).
Qed.

Lemma groups_format b dn tl fuel : bytes_ok b → Z.Even (zlen b) → b ≠ [] → length (pairs b) = length tl → zlen dn + zlen tl = 8 →
  (length b ≤ fuel)%nat → groups fuel (format_pairs b) (dn ++ tl) (zlen dn) (-1) = Some (dn ++ pairs b, 8, -1).
Proof.
  revert dn tl fuel. induction b as [|a|x y b IH] using list_pair_ind; intros dn tl fuel Hb He Hn Hl Hz Hf; [done|..].
  { destruct He as [k Hk]. change (zlen [a]) with 1 in Hk. lia. }
  apply Forall_cons in Hb as [Hx Hb]. apply Forall_cons in Hb as [Hy Hb]. destruct tl as [|w tl]; [done|].
  assert (Z.Even (zlen b)) as He' by (rewrite !zlen_cons in He; destruct He as [k Hk]; exists (k - 1); lia).
  assert (zlen (w :: tl) = zlen tl + 1) as Ez by apply zlen_cons. rewrite Ez in Hz. pose proof (zlen_nonneg tl). pose proof (zlen_nonneg dn).
  set (rest := match b with [] => [] | _ => COLON :: format_pairs b end).
  assert (format_pairs (x :: y :: b) = hex2 x ++ hex2 y ++ rest) as Ef by (unfold rest; destruct b; [by rewrite app_nil_r|done]).
  rewrite Ef. destruct fuel as [|fuel]; [cbn in Hf; lia|].
  pose proof (hex_group_pair x y rest Hx Hy ltac:(unfold rest; by destruct b)) as Eg.
  destruct (nibbles x Hx) as (H1 & _ & Ex). destruct (hex_char_digit _ H1) as (_ & Hc & _).
  unfold hex2 in *. cbn [app] in *. cbn [groups]. rewrite (proj2 (Z.eqb_neq _ _) Hc). cbn [andb]. rewrite Eg.
  change (4 =? 0) with false. cbv iota. rewrite geb_lt by lia. rewrite (wrap_id 16) by lia.
  assert ((dn ++ w :: tl).[zlen dn <- x * 256 + y] = (dn ++ [x * 256 + y]) ++ tl) as Es.
  { unfold aset, zlen. rewrite Nat2Z.id, insert_app_r_alt by lia. rewrite Nat.sub_diag. cbn. by rewrite <- app_assoc. }
  rewrite Es. assert (zlen dn + 1 = zlen (dn ++ [x * 256 + y])) as -> by (rewrite zlen_app; done).
  destruct b as [|z b].
  - destruct tl; [|done]. cbn [skip_colon pairs]. rewrite app_nil_r. unfold rest. cbn [skip_colon]. destruct fuel; cbn [groups].
    all: rewrite zlen_app; change (zlen [x * 256 + y]) with 1; change (zlen []) with 0 in Hz; do 2 f_equal; f_equal; lia.
  - unfold rest. cbn [skip_colon]. rewrite Z.eqb_refl. rewrite IH; [|done..|cbn in Hl |- *; lia| |cbn in Hf |- *; lia].
    + cbn [pairs]. rewrite <- app_assoc. done.
    + rewrite zlen_app. change (zlen [x * 256 + y]) with 1. lia.
Qed.

Lemma format_chars b : bytes_ok b → Forall (λ c, c = COLON ∨ (c ≠ COLON ∧ c ≠ 37 ∧ c ≠ 46 ∧ is_blank c = false)) (format_pairs b).
Proof.
  assert (∀ x, 0 ≤ x < 256 → Forall (λ c, c = COLON ∨ (c ≠ COLON ∧ c ≠ 37 ∧ c ≠ 46 ∧ is_blank c = false)) (hex2 x)) as Hh.
  { intros x Hx. destruct (nibbles x Hx) as (H1 & H2 & _). destruct (hex_char_digit _ H1) as (_ & ? & ? & ? & ? & _).
    destruct (hex_char_digit _ H2) as (_ & ? & ? & ? & ? & _). unfold hex2. rewrite !Forall_cons. split_and!; try (by right). by apply Forall_nil. }
  induction b as [|a|x y b IH] using list_pair_ind; intros Hb; [by apply Forall_nil..|].
  apply Forall_cons in Hb as [Hx Hb]. apply Forall_cons in Hb as [Hy Hb]. destruct b as [|z b].
  - cbn [format_pairs]. apply Forall_app; split; by apply Hh.
  - rewrite format_pairs_cons by done. apply Forall_app; split; [by apply Hh|]. apply Forall_app; split; [by apply Hh|].
    apply Forall_cons; split; [by left|by apply IH].
Qed.

Lemma copy_address_all s room : Forall (λ c, c ≠ 37) s → (length s ≤ room)%nat → copy_address s room = s.
Proof.
  intros Hs. revert room. induction Hs as [|c s Hc _ IH]; intros room Hr; [by destruct room|].
  destruct room as [|room]; [cbn in Hr; lia|]. cbn [copy_address]. rewrite (proj2 (Z.eqb_neq c 37)) by done. f_equal. apply IH. cbn in Hr. lia.
Qed.

Lemma split_last_colon_tail s l t : split_last_colon s = Some (l, t) → ∀ P : Z → Prop, Forall P s → Forall P t.
Proof.
  revert l. induction s as [|c s IH]; intros l; [done|]. cbn [split_last_colon]. destruct (split_last_colon s) as [[l' t']|] eqn:E.
  - intros [= <- <-] P HP. apply Forall_cons in HP as [_ HP]. by eapply IH.
  - destruct (c =? COLON); [|done]. intros [= <- <-] P HP. by apply Forall_cons in HP as [_ HP].
Qed.

Lemma dots_none t : Forall (λ c, c ≠ 46) t → dots t = 0.
Proof.
  intros Ht. unfold dots. induction Ht as [|c t Hc _ IH]; [done|]. cbn [List.filter]. by rewrite (proj2 (Z.eqb_neq c 46)).
Qed.

Lemma parse_plain tmp : Forall (λ c, c ≠ 46) tmp → 
  match split_last_colon tmp with Some (l, t) => if dots t =? 3 then parse_embedded l t else parse_groups tmp | None => parse_groups tmp end
  = parse_groups tmp.
Proof.
  intros Ht. destruct (split_last_colon tmp) as [[l t]|] eqn:E; [|done]. rewrite (dots_none t); [done|].
  by apply (split_last_colon_tail tmp l t E).
Qed.

(** C38: [net_format_ipv6] writes every address into a buffer of 40 bytes or more as its
    eight groups of four digits, none of them shortened or left out (the header calls it
    compact where possible), and [net_parse_ipv6] reads this text back as the same
    address. *)
Theorem ipv6_text_roundtrip b buf cap :
  bytes_ok b → zlen b = 16 → 40 ≤ cap ≤ zlen buf →
  net_format_ipv6 (Some b) buf cap = Ret (splice buf 0 (format_pairs b ++ [0])) ∧
  net_parse_ipv6 (Some (format_pairs b)) true = (0, b).
Proof.
  intros Hb Hl Hcap. assert (zlen (format_pairs b) = 39) as Hf.
  { unfold zlen in Hl. do 16 (destruct b as [|? b]; [cbn in Hl; lia|]). destruct b; [done|cbn in Hl; lia]. }
  assert (Z.Even (zlen b)) as He by (exists 8; lia). assert (b ≠ []) as Hn by (by intros ->).
  pose proof (format_chars b Hb) as Hc. destruct (format_head b Hb He Hn) as (a & r & Er & Ha).
  destruct (hex_char_digit a Ha) as (_ & Hnc & _ & _ & Hnb & _).
  split.
  { unfold net_format_ipv6. rewrite (proj2 (Z.ltb_ge cap 40)) by lia. apply wr_ok; [lia|]. rewrite zlen_app, Hf. change (zlen [0]) with 1. lia. }
  unfold net_parse_ipv6. assert (skip_blanks (format_pairs b) = format_pairs b) as -> by (rewrite Er; cbn [skip_blanks]; by rewrite Hnb).
  rewrite copy_address_all; [|eapply Forall_impl; [exact Hc|]; cbn; intros c [->|]; [done|naive_solver]|unfold zlen in Hf; lia].
  rewrite Hf. change (39 =? 0) with false. cbv iota.
  rewrite !bool_decide_false by (rewrite Er; intros [= E _]; by rewrite E in Hnc).
  rewrite parse_plain by (eapply Forall_impl; [exact Hc|]; cbn; intros c [->|]; [done|naive_solver]).
  unfold parse_groups. assert (match format_pairs b with c :: c' :: _ => (c =? COLON) && (c' =? COLON) | _ => false end = false) as ->.
  { rewrite Er. destruct r; [done|]. by rewrite (proj2 (Z.eqb_neq _ _) Hnc). }
  pose proof (groups_format b [] (zeros 8) (S (length (format_pairs b))) Hb He Hn) as Eg. change (zlen []) with 0 in Eg. cbn [app] in Eg.
  assert (length (pairs b) = 8%nat) as Hp.
  { unfold zlen in Hl. do 16 (destruct b as [|? b]; [cbn in Hl; lia|]). destruct b; [done|cbn in Hl; lia]. }
  rewrite Eg; [|done|done|unfold zlen in *; lia]. change (-1 <? 0) with true. change (8 =? 8) with true. cbv iota. cbn [negb].
  by rewrite pairs_words.
Qed.

(** An address in compressed form is refused as soon as a group stands in front of
    the [::], as in [fe80::1]: the loop has skipped the first of the two colons. *)
Theorem ipv6_compression_refused g r :
  g ≠ [] → Forall (λ c, xdigit c ≠ -1) g → match r with c :: _ => c ≠ COLON | [] => True end →
  Forall (λ c, c ≠ 46 ∧ c ≠ 37) r → zlen g + zlen r ≤ 125 →
  net_parse_ipv6 (Some (g ++ [COLON; COLON] ++ r)) true = (- EINVAL, zeros 16).
Proof.
  intros Hne Hg Hr Hr' Hl. assert (∀ c, xdigit c ≠ -1 → c ≠ COLON ∧ c ≠ 37 ∧ c ≠ 46 ∧ is_blank c = false) as Hx.
  { intros c Hc. unfold xdigit, is_blank, COLON in *. destruct (Z.leb_spec 48 c), (Z.leb_spec c 57); cbn [andb] in Hc;
      destruct (Z.leb_spec 97 c), (Z.leb_spec c 102); cbn [andb] in Hc; destruct (Z.leb_spec 65 c), (Z.leb_spec c 70); cbn [andb] in Hc;
      try lia; rewrite !(proj2 (Z.eqb_neq _ _)) by lia; split_and!; done || lia. }
  set (text := g ++ [COLON; COLON] ++ r). destruct g as [|c0 g]; [done|]. pose proof Hg as [H0 Hg']%Forall_cons.
  destruct (Hx c0 H0) as (Hc0 & _ & _ & Hb0). unfold net_parse_ipv6.
  assert (skip_blanks text = text) as -> by (unfold text; cbn [app skip_blanks]; by rewrite Hb0).
  assert (Forall (λ c, c ≠ 46 ∧ c ≠ 37) text) as Ht.
  { apply Forall_app; split; [eapply Forall_impl; [exact Hg|]; intros c Hc; destruct (Hx c Hc) as (? & ? & ? & ?); done|]. by repeat constructor. }
  assert (zlen text ≤ 127) as Hlt by (unfold text; rewrite !zlen_app; change (zlen [COLON; COLON]) with 2; lia).
  rewrite copy_address_all; [|eapply Forall_impl; [exact Ht|]; by intros c [_ ?]|unfold zlen in Hlt; lia].
  assert (zlen text ≠ 0) as Hz by (unfold text; cbn [app]; rewrite zlen_cons; pose proof (zlen_nonneg (g ++ COLON :: COLON :: r)); lia).
  rewrite (proj2 (Z.eqb_neq _ 0)) by done. rewrite !bool_decide_false by (unfold text; cbn [app]; intros [= E _]; done).
  rewrite parse_plain by (eapply Forall_impl; [exact Ht|]; by intros c [? _]). unfold parse_groups.
  assert (match text with c :: c' :: _ => (c =? COLON) && (c' =? COLON) | _ => false end = false) as ->.
  { unfold text. cbn [app]. destruct (g ++ _); [done|]. by rewrite (proj2 (Z.eqb_neq _ _) Hc0). }
  cbv iota. unfold text at 2. cbn [app groups]. rewrite (proj2 (Z.eqb_neq _ _) Hc0). cbn [andb].
  assert (∀ g v nd, Forall (λ c, xdigit c ≠ -1) g → hex_group (g ++ COLON :: COLON :: r) v nd = None ∨
            ∃ v' nd', hex_group (g ++ COLON :: COLON :: r) v nd = Some (v', nd', COLON :: COLON :: r)) as Hgrp.
  { clear -Hx. intros g. induction g as [|c g IH]; intros v nd Hg.
    - right. cbn [app hex_group]. rewrite Z.eqb_refl. eauto.
    - apply Forall_cons in Hg as [Hc Hg]. destruct (Hx c Hc) as (Hcc & _). cbn [app hex_group]. rewrite (proj2 (Z.eqb_neq _ _) Hcc).
      destruct (_ <? 0); [by left|]. destruct (_ >? _); [by left|]. by apply IH. }
  destruct (Hgrp (c0 :: g) 0 0 Hg) as [E|(v & nd & E)]; cbn [app] in E; rewrite E; [done|].
  destruct (nd =? 0); [done|]. change (0 >=? 8) with false. cbv iota. cbn [skip_colon]. rewrite Z.eqb_refl.
  assert (∃ k, length text = S k) as [k ->] by (exists (length text - 1)%nat; unfold zlen in Hz; lia). cbn [groups].
  assert (match r with c' :: _ => c' =? COLON | [] => false end = false) as -> by (destruct r; [done|]; by apply Z.eqb_neq).
  by rewrite Z.eqb_refl.
Qed.

Lemma ipv6_text_roundtrip_witness :
  net_parse_ipv6 (Some (format_pairs ([254; 128] ++ zeros 13 ++ [1]))) true = (0, [254; 128] ++ zeros 13 ++ [1]).
Proof. apply (ipv6_text_roundtrip _ (zeros 40) 40); [by repeat constructor|done|by vm_compute]. Defined.
Lemma ipv6_compression_refused_witness : net_parse_ipv6 (Some (bytes "fe80" ++ [COLON; COLON] ++ bytes "1")) true = (- EINVAL, zeros 16).
Proof. apply ipv6_compression_refused; [done|by repeat constructor|done|by repeat constructor|by vm_compute]. Defined.
