(* ===== verification/Net.v ===== *)
(** * The network stack ([src/kernel/net/lwip_port.c])

    The state of the stack and every handler, from the frame of the card to the
    sockets. The card is a parameter: [send_raw k f] is the result of sending [f]
    as the [k]-th frame, and what it was given is kept in [sent]; [wire] holds what
    the card's receive function returns at its coming calls, a frame or none. The clock is [clock k] at its [k]-th
    reading. [stack] and [rx_stack] are the bytes that the frame buffers of [eth_send]
    and of the card's poll function hold before they are written. A call back into a client
    other than the two of the kernel is recorded in [inbox]. Lookups of a table
    stop at the first entry that fits, as the loops of the code do. *)

From stdpp Require Import base numbers list.
From S2P Require Import Prelude CMem CArray Buf Dns NetWire.
Open Scope Z_scope.

Definition EBUSY : Z := 6.
Definition ETH_ADDR_LEN : Z := 6.
Definition ETH_MTU : Z := 1500.
Definition ETH_TYPE_ARP : Z := 0x0806.
Definition ETH_TYPE_IPV4 : Z := 0x0800.
Definition ETH_TYPE_IPV6 : Z := 0x86DD.
Definition ARP_OP_REQUEST : Z := 1.
Definition ARP_OP_REPLY : Z := 2.
Definition ARP_TABLE_SIZE : Z := 64.
Definition IP_PROTO_ICMP : Z := 1.
Definition IP_PROTO_TCP : Z := 6.
Definition IP_PROTO_UDP : Z := 17.
Definition ICMP_ECHO : Z := 8.
Definition ICMP_ECHOREPLY : Z := 0.
Definition UDP_MAX_SOCKETS : Z := 32.
Definition TCP_FIN : Z := 0x01.
Definition TCP_SYN : Z := 0x02.
Definition TCP_PSH : Z := 0x08.
Definition TCP_ACK : Z := 0x10.
Definition TCP_MAX_SOCKETS : Z := 16.
Definition TCP_RX_BUF_SIZE : Z := 8192.
Definition IP6_NXT_ICMP6 : Z := 58.
Definition ICMP6_ECHO_REQ : Z := 128.
Definition ICMP6_ECHO_REP : Z := 129.
Definition ICMP6_NS : Z := 135.
Definition ICMP6_NA : Z := 136.
Definition ND_OPT_SRCLLA : Z := 1.
Definition ND_OPT_TGTLLA : Z := 2.
Definition ND_CACHE : Z := 24.
Definition DHCP_SERVER_PORT : Z := 67.
Definition DHCP_CLIENT_PORT : Z := 68.
Definition DHCP_MAGIC : Z := 0x63825363.
(** Sizes of the packed headers. *)
Definition SIZEOF_ETH : Z := 14.
Definition SIZEOF_ARP : Z := 28.
Definition SIZEOF_IPV4 : Z := 20.
Definition SIZEOF_UDP : Z := 8.
Definition SIZEOF_TCP : Z := 20.
Definition SIZEOF_DHCP : Z := 552.
(** The receive buffer of the card's driver. *)
Definition RX_FRAME : Z := 2048.

Record net_interface_t := {
  mac : list Z; ip : Z; netmask : Z; gateway : Z; dns4 : Z; is_up : bool; can_send : bool; ipv6_link_local : list Z }.
Record arp_entry_t := { a_ip : Z; a_mac : list Z; a_valid : bool }.
#[export] Instance arp_inhabited : Inhabited arp_entry_t := populate {| a_ip := 0; a_mac := zeros 6; a_valid := false |}.
Record nd_entry_t := { nd_ip : list Z; nd_mac : list Z; nd_valid : bool }.
#[export] Instance nd_inhabited : Inhabited nd_entry_t := populate {| nd_ip := zeros 16; nd_mac := zeros 6; nd_valid := false |}.
Inductive udp_recv_callback_t := cb_dns | cb_dhcp | cb_client (n : Z).
Record udp_socket_t := { u_port : Z; u_in_use : bool; u_callback : option udp_recv_callback_t }.
#[export] Instance udp_inhabited : Inhabited udp_socket_t := populate {| u_port := 0; u_in_use := false; u_callback := None |}.
Inductive tcp_state_t :=
  TCP_STATE_CLOSED | TCP_STATE_LISTEN | TCP_STATE_SYN_SENT | TCP_STATE_SYN_RECEIVED | TCP_STATE_ESTABLISHED
| TCP_STATE_FIN_WAIT_1 | TCP_STATE_FIN_WAIT_2 | TCP_STATE_CLOSE_WAIT | TCP_STATE_LAST_ACK | TCP_STATE_TIME_WAIT.
#[export] Instance tcp_state_dec : EqDecision tcp_state_t.
Proof. solve_decision. Defined.
(** The transmit buffer is not used. *)
Record tcp_socket_t := {
  t_in_use : bool; t_state : tcp_state_t; t_local_ip : Z; t_local_port : Z; t_remote_ip : Z; t_remote_port : Z;
  t_seq : Z; t_ack : Z; rx_buf : list Z; rx_len : Z }.
Definition tcp_zero : tcp_socket_t :=
  {| t_in_use := false; t_state := TCP_STATE_CLOSED; t_local_ip := 0; t_local_port := 0; t_remote_ip := 0; t_remote_port := 0;
     t_seq := 0; t_ack := 0; rx_buf := zeros (Z.to_nat TCP_RX_BUF_SIZE); rx_len := 0 |}.
#[export] Instance tcp_inhabited : Inhabited tcp_socket_t := populate tcp_zero.
Record ping_t (T : Type) := { p_active : bool; p_id : Z; p_seq : Z; p_target : T; p_replied : bool; p_start : Z }.
Arguments p_active {T}. Arguments p_id {T}. Arguments p_seq {T}. Arguments p_target {T}. Arguments p_replied {T}. Arguments p_start {T}.

Record net_t := {
  g_iface : option net_interface_t; arp_table : list arp_entry_t; udp_sockets : list udp_socket_t; tcp_sockets : list tcp_socket_t; ip_id_counter : Z; ping_wait : ping_t Z; ping_seq_global : Z; ping6_wait : ping_t (list Z); ping6_seq_g : Z; nd_tbl : list nd_entry_t; dhcp_done : bool; dns_rx : dns_rx_t; inbox : list (Z * Z * Z * list Z); sent : list (list Z); time : nat; wire : list (option (list Z)) }.
Definition set_iface (s : net_t) (v : option net_interface_t) : net_t :=
  {| g_iface := v; arp_table := s.(arp_table); udp_sockets := s.(udp_sockets); tcp_sockets := s.(tcp_sockets);
     ip_id_counter := s.(ip_id_counter); ping_wait := s.(ping_wait); ping_seq_global := s.(ping_seq_global);
     ping6_wait := s.(ping6_wait); ping6_seq_g := s.(ping6_seq_g); nd_tbl := s.(nd_tbl); dhcp_done :=
     s.(dhcp_done); dns_rx := s.(dns_rx); inbox := s.(inbox); sent := s.(sent); time := s.(time); wire :=
     s.(wire) |}.
Definition set_arp (s : net_t) (v : list arp_entry_t) : net_t :=
  {| g_iface := s.(g_iface); arp_table := v; udp_sockets := s.(udp_sockets); tcp_sockets := s.(tcp_sockets);
     ip_id_counter := s.(ip_id_counter); ping_wait := s.(ping_wait); ping_seq_global := s.(ping_seq_global);
     ping6_wait := s.(ping6_wait); ping6_seq_g := s.(ping6_seq_g); nd_tbl := s.(nd_tbl); dhcp_done :=
     s.(dhcp_done); dns_rx := s.(dns_rx); inbox := s.(inbox); sent := s.(sent); time := s.(time); wire :=
     s.(wire) |}.
Definition set_udp (s : net_t) (v : list udp_socket_t) : net_t :=
  {| g_iface := s.(g_iface); arp_table := s.(arp_table); udp_sockets := v; tcp_sockets := s.(tcp_sockets);
     ip_id_counter := s.(ip_id_counter); ping_wait := s.(ping_wait); ping_seq_global := s.(ping_seq_global);
     ping6_wait := s.(ping6_wait); ping6_seq_g := s.(ping6_seq_g); nd_tbl := s.(nd_tbl); dhcp_done :=
     s.(dhcp_done); dns_rx := s.(dns_rx); inbox := s.(inbox); sent := s.(sent); time := s.(time); wire :=
     s.(wire) |}.
Definition set_tcp (s : net_t) (v : list tcp_socket_t) : net_t :=
  {| g_iface := s.(g_iface); arp_table := s.(arp_table); udp_sockets := s.(udp_sockets); tcp_sockets := v;
     ip_id_counter := s.(ip_id_counter); ping_wait := s.(ping_wait); ping_seq_global := s.(ping_seq_global);
     ping6_wait := s.(ping6_wait); ping6_seq_g := s.(ping6_seq_g); nd_tbl := s.(nd_tbl); dhcp_done :=
     s.(dhcp_done); dns_rx := s.(dns_rx); inbox := s.(inbox); sent := s.(sent); time := s.(time); wire :=
     s.(wire) |}.
Definition set_ip_id (s : net_t) (v : Z) : net_t :=
  {| g_iface := s.(g_iface); arp_table := s.(arp_table); udp_sockets := s.(udp_sockets); tcp_sockets :=
     s.(tcp_sockets); ip_id_counter := v; ping_wait := s.(ping_wait); ping_seq_global := s.(ping_seq_global);
     ping6_wait := s.(ping6_wait); ping6_seq_g := s.(ping6_seq_g); nd_tbl := s.(nd_tbl); dhcp_done :=
     s.(dhcp_done); dns_rx := s.(dns_rx); inbox := s.(inbox); sent := s.(sent); time := s.(time); wire :=
     s.(wire) |}.
Definition set_ping (s : net_t) (v : ping_t Z) : net_t :=
  {| g_iface := s.(g_iface); arp_table := s.(arp_table); udp_sockets := s.(udp_sockets); tcp_sockets :=
     s.(tcp_sockets); ip_id_counter := s.(ip_id_counter); ping_wait := v; ping_seq_global :=
     s.(ping_seq_global); ping6_wait := s.(ping6_wait); ping6_seq_g := s.(ping6_seq_g); nd_tbl := s.(nd_tbl);
     dhcp_done := s.(dhcp_done); dns_rx := s.(dns_rx); inbox := s.(inbox); sent := s.(sent); time := s.(time);
     wire := s.(wire) |}.
Definition set_ping_seq (s : net_t) (v : Z) : net_t :=
  {| g_iface := s.(g_iface); arp_table := s.(arp_table); udp_sockets := s.(udp_sockets); tcp_sockets :=
     s.(tcp_sockets); ip_id_counter := s.(ip_id_counter); ping_wait := s.(ping_wait); ping_seq_global := v;
     ping6_wait := s.(ping6_wait); ping6_seq_g := s.(ping6_seq_g); nd_tbl := s.(nd_tbl); dhcp_done :=
     s.(dhcp_done); dns_rx := s.(dns_rx); inbox := s.(inbox); sent := s.(sent); time := s.(time); wire :=
     s.(wire) |}.
Definition set_ping6 (s : net_t) (v : ping_t (list Z)) : net_t :=
  {| g_iface := s.(g_iface); arp_table := s.(arp_table); udp_sockets := s.(udp_sockets); tcp_sockets :=
     s.(tcp_sockets); ip_id_counter := s.(ip_id_counter); ping_wait := s.(ping_wait); ping_seq_global :=
     s.(ping_seq_global); ping6_wait := v; ping6_seq_g := s.(ping6_seq_g); nd_tbl := s.(nd_tbl); dhcp_done :=
     s.(dhcp_done); dns_rx := s.(dns_rx); inbox := s.(inbox); sent := s.(sent); time := s.(time); wire :=
     s.(wire) |}.
Definition set_ping6_seq (s : net_t) (v : Z) : net_t :=
  {| g_iface := s.(g_iface); arp_table := s.(arp_table); udp_sockets := s.(udp_sockets); tcp_sockets :=
     s.(tcp_sockets); ip_id_counter := s.(ip_id_counter); ping_wait := s.(ping_wait); ping_seq_global :=
     s.(ping_seq_global); ping6_wait := s.(ping6_wait); ping6_seq_g := v; nd_tbl := s.(nd_tbl); dhcp_done :=
     s.(dhcp_done); dns_rx := s.(dns_rx); inbox := s.(inbox); sent := s.(sent); time := s.(time); wire :=
     s.(wire) |}.
Definition set_nd (s : net_t) (v : list nd_entry_t) : net_t :=
  {| g_iface := s.(g_iface); arp_table := s.(arp_table); udp_sockets := s.(udp_sockets); tcp_sockets :=
     s.(tcp_sockets); ip_id_counter := s.(ip_id_counter); ping_wait := s.(ping_wait); ping_seq_global :=
     s.(ping_seq_global); ping6_wait := s.(ping6_wait); ping6_seq_g := s.(ping6_seq_g); nd_tbl := v; dhcp_done
     := s.(dhcp_done); dns_rx := s.(dns_rx); inbox := s.(inbox); sent := s.(sent); time := s.(time); wire :=
     s.(wire) |}.
Definition set_dhcp (s : net_t) (v : bool) : net_t :=
  {| g_iface := s.(g_iface); arp_table := s.(arp_table); udp_sockets := s.(udp_sockets); tcp_sockets :=
     s.(tcp_sockets); ip_id_counter := s.(ip_id_counter); ping_wait := s.(ping_wait); ping_seq_global :=
     s.(ping_seq_global); ping6_wait := s.(ping6_wait); ping6_seq_g := s.(ping6_seq_g); nd_tbl := s.(nd_tbl);
     dhcp_done := v; dns_rx := s.(dns_rx); inbox := s.(inbox); sent := s.(sent); time := s.(time); wire :=
     s.(wire) |}.
Definition set_dns (s : net_t) (v : dns_rx_t) : net_t :=
  {| g_iface := s.(g_iface); arp_table := s.(arp_table); udp_sockets := s.(udp_sockets); tcp_sockets :=
     s.(tcp_sockets); ip_id_counter := s.(ip_id_counter); ping_wait := s.(ping_wait); ping_seq_global :=
     s.(ping_seq_global); ping6_wait := s.(ping6_wait); ping6_seq_g := s.(ping6_seq_g); nd_tbl := s.(nd_tbl);
     dhcp_done := s.(dhcp_done); dns_rx := v; inbox := s.(inbox); sent := s.(sent); time := s.(time); wire :=
     s.(wire) |}.
Definition set_inbox (s : net_t) (v : list (Z * Z * Z * list Z)) : net_t :=
  {| g_iface := s.(g_iface); arp_table := s.(arp_table); udp_sockets := s.(udp_sockets); tcp_sockets :=
     s.(tcp_sockets); ip_id_counter := s.(ip_id_counter); ping_wait := s.(ping_wait); ping_seq_global :=
     s.(ping_seq_global); ping6_wait := s.(ping6_wait); ping6_seq_g := s.(ping6_seq_g); nd_tbl := s.(nd_tbl);
     dhcp_done := s.(dhcp_done); dns_rx := s.(dns_rx); inbox := v; sent := s.(sent); time := s.(time); wire :=
     s.(wire) |}.
Definition set_sent (s : net_t) (v : list (list Z)) : net_t :=
  {| g_iface := s.(g_iface); arp_table := s.(arp_table); udp_sockets := s.(udp_sockets); tcp_sockets :=
     s.(tcp_sockets); ip_id_counter := s.(ip_id_counter); ping_wait := s.(ping_wait); ping_seq_global :=
     s.(ping_seq_global); ping6_wait := s.(ping6_wait); ping6_seq_g := s.(ping6_seq_g); nd_tbl := s.(nd_tbl);
     dhcp_done := s.(dhcp_done); dns_rx := s.(dns_rx); inbox := s.(inbox); sent := v; time := s.(time); wire :=
     s.(wire) |}.
Definition set_time (s : net_t) (v : nat) : net_t :=
  {| g_iface := s.(g_iface); arp_table := s.(arp_table); udp_sockets := s.(udp_sockets); tcp_sockets :=
     s.(tcp_sockets); ip_id_counter := s.(ip_id_counter); ping_wait := s.(ping_wait); ping_seq_global :=
     s.(ping_seq_global); ping6_wait := s.(ping6_wait); ping6_seq_g := s.(ping6_seq_g); nd_tbl := s.(nd_tbl);
     dhcp_done := s.(dhcp_done); dns_rx := s.(dns_rx); inbox := s.(inbox); sent := s.(sent); time := v; wire :=
     s.(wire) |}.
Definition set_wire (s : net_t) (v : list (option (list Z))) : net_t :=
  {| g_iface := s.(g_iface); arp_table := s.(arp_table); udp_sockets := s.(udp_sockets); tcp_sockets :=
     s.(tcp_sockets); ip_id_counter := s.(ip_id_counter); ping_wait := s.(ping_wait); ping_seq_global :=
     s.(ping_seq_global); ping6_wait := s.(ping6_wait); ping6_seq_g := s.(ping6_seq_g); nd_tbl := s.(nd_tbl);
     dhcp_done := s.(dhcp_done); dns_rx := s.(dns_rx); inbox := s.(inbox); sent := s.(sent); time := s.(time);
     wire := v |}.

(** Updates of a socket. *)
Definition t_with (t : tcp_socket_t) (u : bool) (st : tcp_state_t) (sq ak : Z) : tcp_socket_t :=
  {| t_in_use := u; t_state := st; t_local_ip := t.(t_local_ip); t_local_port := t.(t_local_port); t_remote_ip := t.(t_remote_ip);
     t_remote_port := t.(t_remote_port); t_seq := sq; t_ack := ak; rx_buf := t.(rx_buf); rx_len := t.(rx_len) |}.
Definition t_set_state (t : tcp_socket_t) (st : tcp_state_t) : tcp_socket_t := t_with t t.(t_in_use) st t.(t_seq) t.(t_ack).
Definition t_set_seq (t : tcp_socket_t) (sq : Z) : tcp_socket_t := t_with t t.(t_in_use) t.(t_state) sq t.(t_ack).
Definition t_set_ack (t : tcp_socket_t) (ak : Z) : tcp_socket_t := t_with t t.(t_in_use) t.(t_state) t.(t_seq) ak.
Definition t_closed (t : tcp_socket_t) : tcp_socket_t := t_with t false TCP_STATE_CLOSED t.(t_seq) t.(t_ack).
Definition t_addresses (t : tcp_socket_t) (lip lport rip rport : Z) : tcp_socket_t :=
  {| t_in_use := t.(t_in_use); t_state := t.(t_state); t_local_ip := lip; t_local_port := lport; t_remote_ip := rip;
     t_remote_port := rport; t_seq := t.(t_seq); t_ack := t.(t_ack); rx_buf := t.(rx_buf); rx_len := t.(rx_len) |}.
Definition t_set_rx (t : tcp_socket_t) (b : list Z) (n : Z) : tcp_socket_t :=
  {| t_in_use := t.(t_in_use); t_state := t.(t_state); t_local_ip := t.(t_local_ip); t_local_port := t.(t_local_port);
     t_remote_ip := t.(t_remote_ip); t_remote_port := t.(t_remote_port); t_seq := t.(t_seq); t_ack := t.(t_ack); rx_buf := b; rx_len := n |}.
Definition put_tcp (s : net_t) (k : Z) (t : tcp_socket_t) : net_t := set_tcp s (s.(tcp_sockets).[k <- t]).

(** The first index from [i] on whose entry satisfies [p]. *)
Fixpoint first_from {A} (p : A → bool) (l : list A) (i : Z) : option Z :=
  match l with [] => None | x :: l => if p x then Some i else first_from p l (i + 1) end.

Section net.
Context (send_raw : nat → list Z → Z) (clock : nat → Z) (stack rx_stack : list Z).

Definition timer_get_ticks (s : net_t) : net_t * Z := (set_time s (S s.(time)), u64 (clock s.(time))).

(** [ping_wait] and [ping6_wait], which [net_init] leaves alone, are given. *)
Definition net_init (s : net_t) : net_t :=
  set_iface (set_tcp (set_udp (set_arp s (replicate (Z.to_nat ARP_TABLE_SIZE) inhabitant)) (replicate (Z.to_nat UDP_MAX_SOCKETS) inhabitant))
    (replicate (Z.to_nat TCP_MAX_SOCKETS) tcp_zero)) None.
Definition net_set_interface (s : net_t) (i : option net_interface_t) : net_t := set_iface s i.

(** ** Ethernet *)

Definition eth_send (s : net_t) (dst_mac : list Z) (ethertype : Z) (payload : list Z) : net_t * Z :=
  match s.(g_iface) with
  | None => (s, - EIO)
  | Some i =>
      if negb (i.(can_send) && i.(is_up)) then (s, - EIO) else
      if zlen payload >? ETH_MTU then (s, - EINVAL) else
      let frame := dst_mac ++ i.(mac) ++ le_bytes 2 (htons ethertype) ++ payload in
      let total := SIZEOF_ETH + zlen payload in
      let total := if total <? 60 then 60 else total in
      let f := take (Z.to_nat total) (frame ++ drop (length frame) stack) in
      let r := send_raw (length s.(sent)) f in
      (set_sent s (s.(sent) ++ [f]), if r >? 0 then 0 else - EIO)
  end.

(** ** ARP *)

Definition arp_table_add (s : net_t) (a : Z) (m : list Z) : net_t :=
  let t := s.(arp_table) in
  match first_from (λ e, e.(a_valid) && (e.(a_ip) =? a)) t 0 with
  | Some k => set_arp s (t.[k <- {| a_ip := (t.[k]).(a_ip); a_mac := m; a_valid := (t.[k]).(a_valid) |}])
  | None =>
      let k := match first_from (λ e, negb e.(a_valid)) t 0 with Some k => k | None => 0 end in
      set_arp s (t.[k <- {| a_ip := a; a_mac := m; a_valid := true |}])
  end.
Definition arp_lookup (s : net_t) (a : Z) : option (list Z) :=
  match first_from (λ e, e.(a_valid) && (e.(a_ip) =? a)) s.(arp_table) 0 with
  | Some k => Some ((s.(arp_table).[k]).(a_mac))
  | None => None
  end.
Definition arp_packet (i : net_interface_t) (opcode : Z) (target_mac : list Z) (target_ip : Z) : list Z :=
  le_bytes 2 (htons 1) ++ le_bytes 2 (htons 0x0800) ++ [ETH_ADDR_LEN; 4] ++ le_bytes 2 (htons opcode) ++
  i.(mac) ++ le_bytes 4 i.(ip) ++ target_mac ++ le_bytes 4 target_ip.
Definition BROADCAST : list Z := replicate 6 0xFF.
Definition arp_request (s : net_t) (target_ip : Z) : net_t * Z :=
  match s.(g_iface) with
  | None => (s, - EIO)
  | Some i => eth_send s BROADCAST ETH_TYPE_ARP (arp_packet i ARP_OP_REQUEST BROADCAST target_ip)
  end.
Definition arp_reply (s : net_t) (target_mac : list Z) (target_ip : Z) : net_t * Z :=
  match s.(g_iface) with
  | None => (s, - EIO)
  | Some i => eth_send s target_mac ETH_TYPE_ARP (arp_packet i ARP_OP_REPLY target_mac target_ip)
  end.
Definition arp_process (s : net_t) (frame : list Z) (len : Z) : outcome (net_t * Z) :=
  match s.(g_iface) with
  | None => Ret (s, - EIO)
  | Some i =>
      if len <? SIZEOF_ETH + SIZEOF_ARP then Ret (s, - EINVAL) else
      sender_mac ← rd_block frame (SIZEOF_ETH + 8) 6;
      sender_ip ← field frame (SIZEOF_ETH + 14) 4;
      opcode ← field frame (SIZEOF_ETH + 6) 2;
      target_ip ← field frame (SIZEOF_ETH + 24) 4;
      let s := arp_table_add s sender_ip sender_mac in
      if (ntohs opcode =? ARP_OP_REQUEST) && (target_ip =? i.(ip)) then Ret (arp_reply s sender_mac sender_ip) else Ret (s, 0)
  end.

(** ** Sending IPv4 *)

Definition ip_next_hop (s : net_t) (dst_ip : Z) : Z :=
  match s.(g_iface) with
  | None => dst_ip
  | Some i => if Z.land dst_ip i.(netmask) =? Z.land i.(ip) i.(netmask) then dst_ip else i.(gateway)
  end.
Definition ipv4_header (total id protocol checksum src dst : Z) : list Z :=
  [0x45; 0] ++ le_bytes 2 (htons total) ++ le_bytes 2 (htons id) ++ [0; 0; 64; protocol] ++ le_bytes 2 checksum ++
  le_bytes 4 src ++ le_bytes 4 dst.
Definition ip_send (s : net_t) (dst_ip protocol : Z) (payload : list Z) : net_t * Z :=
  match s.(g_iface) with
  | None => (s, - EINVAL)
  | Some i =>
      if zlen payload >? ETH_MTU - SIZEOF_IPV4 then (s, - EINVAL) else
      let next_hop := ip_next_hop s dst_ip in
      match arp_lookup s next_hop with
      | None => ((arp_request s next_hop).1, - EIO)
      | Some dst_mac =>
          let total := u16 (SIZEOF_IPV4 + zlen payload) in
          let id := s.(ip_id_counter) in
          let s := set_ip_id s (u16 (id + 1)) in
          let checksum := ip_checksum (ipv4_header total id protocol 0 i.(ip) dst_ip) in
          eth_send s dst_mac ETH_TYPE_IPV4 (ipv4_header total id protocol checksum i.(ip) dst_ip ++ payload)
      end
  end.

(** ** ICMP *)

Definition ping_reply {T} (p : ping_t T) : ping_t T :=
  {| p_active := p.(p_active); p_id := p.(p_id); p_seq := p.(p_seq); p_target := p.(p_target); p_replied := true; p_start := p.(p_start) |}.
(** The two bytes at [i], the first one the higher. *)
Definition be16 (p : list Z) (i : Z) : outcome Z := dns_read_u16 p i.

(** The message is at [p] in [buf]. *)
Definition icmp_process (s : net_t) (src_ip : Z) (buf : list Z) (p len : Z) : outcome net_t :=
  if (len <? 8) || bool_decide (s.(g_iface) = None) then Ret s else
  type ← rd buf p;
  if type =? ICMP_ECHOREPLY then
    if negb s.(ping_wait).(p_active) then Ret s else
    rid ← be16 buf (p + 4);
    rseq ← be16 buf (p + 6);
    let w := s.(ping_wait) in
    Ret (if (src_ip =? w.(p_target)) && (rid =? w.(p_id)) && (rseq =? w.(p_seq)) then set_ping s (ping_reply w) else s)
  else if type =? ICMP_ECHO then
    let len := if len >? 512 then 512 else len in
    rest ← rd_block buf (p + 4) (len - 4);
    let csum := ip_checksum ([ICMP_ECHOREPLY; 0; 0; 0] ++ rest) in
    Ret (ip_send s src_ip IP_PROTO_ICMP ([ICMP_ECHOREPLY; 0] ++ le_bytes 2 csum ++ rest)).1
  else Ret s.

(** ** UDP *)

Definition udp_bind (s : net_t) (port : Z) (cb : option udp_recv_callback_t) : net_t * Z :=
  match first_from (λ u, negb u.(u_in_use)) s.(udp_sockets) 0 with
  | Some k => (set_udp s (s.(udp_sockets).[k <- {| u_port := port; u_in_use := true; u_callback := cb |}]), k)
  | None => (s, - ENOMEM)
  end.
Definition udp_bound (port : Z) (u : udp_socket_t) : bool := u.(u_in_use) && (u.(u_port) =? port).
Definition udp_unbind (s : net_t) (port : Z) : net_t * Z :=
  match first_from (udp_bound port) s.(udp_sockets) 0 with
  | Some k =>
      let u := s.(udp_sockets).[k] in
      (set_udp s (s.(udp_sockets).[k <- {| u_port := u.(u_port); u_in_use := false; u_callback := u.(u_callback) |}]), 0)
  | None => (s, - ENOENT)
  end.
Definition udp_header (src_port dst_port length : Z) : list Z :=
  le_bytes 2 (htons src_port) ++ le_bytes 2 (htons dst_port) ++ le_bytes 2 (htons length) ++ [0; 0].
Definition udp_send (s : net_t) (dst_ip dst_port src_port : Z) (data : list Z) : net_t * Z :=
  if zlen data >? ETH_MTU - SIZEOF_IPV4 - SIZEOF_UDP then (s, - EINVAL) else
  ip_send s dst_ip IP_PROTO_UDP (udp_header src_port dst_port (u16 (SIZEOF_UDP + zlen data)) ++ data).

(** ** DHCP *)

Definition with_ip (i : net_interface_t) (a m g : Z) (up : bool) : net_interface_t :=
  {| mac := i.(mac); ip := a; netmask := m; gateway := g; dns4 := i.(dns4); is_up := up; can_send := i.(can_send); ipv6_link_local := i.(ipv6_link_local) |}.
(** The options from [opt] on: the new netmask and gateway. *)
Fixpoint dhcp_options (fuel : nat) (buf : list Z) (opt opt_end : Z) (m g : Z) : outcome (Z * Z) :=
  if opt <? opt_end then
    code ← rd buf opt;
    if code =? 0xFF then Ret (m, g) else
    let opt := opt + 1 in
    match fuel with
    | O => NoFuel
    | S fuel =>
        if code =? 0 then dhcp_options fuel buf opt opt_end m g else
        if opt >=? opt_end then Ret (m, g) else
        olen ← rd buf opt;
        let opt := opt + 1 in
        if opt + olen >? opt_end then Ret (m, g) else
        r ← (if (code =? 1) && (olen >=? 4) then m ← field buf opt 4; Ret (m, g)
             else if (code =? 3) && (olen >=? 4) then g ← field buf opt 4; Ret (m, g)
             else Ret (m, g));
        let '(m, g) := r in
        dhcp_options fuel buf (opt + olen) opt_end m g
    end
  else Ret (m, g).
Definition dhcp_recv_handler (s : net_t) (buf : list Z) (p len : Z) : outcome net_t :=
  if len <? SIZEOF_DHCP - 312 then Ret s else
  op ← rd buf p;
  if negb (op =? 2) then Ret s else
  offered_ip ← field buf (p + 16) 4;
  match s.(g_iface) with
  | Some i =>
      if offered_ip =? 0 then Ret s else
      let s := set_dhcp s true in
      r ← dhcp_options 312 buf (p + 240) (p + 240 + 312) i.(netmask) i.(gateway);
      let '(m, g) := r in
      Ret (set_iface s (Some (with_ip i offered_ip m g true)))
  | None => Ret s
  end.
Definition dhcp_discover (s : net_t) : net_t * Z :=
  match s.(g_iface) with
  | None => (s, - EIO)
  | Some i =>
      let '(s, rc) := udp_bind s DHCP_CLIENT_PORT (Some cb_dhcp) in
      if rc <? 0 then (s, rc) else
      let pkt := [1; 1; ETH_ADDR_LEN; 0] ++ le_bytes 4 (htonl 0x12345678) ++ zeros 2 ++ le_bytes 2 (htons 0x8000) ++ zeros 16 ++
                 i.(mac) ++ zeros 10 ++ zeros 192 ++ le_bytes 4 (htonl DHCP_MAGIC) ++ [53; 1; 1; 0xFF] ++ zeros 308 in
      udp_send s 0xFFFFFFFF DHCP_SERVER_PORT DHCP_CLIENT_PORT pkt
  end.

(** The datagram [data] of [len] bytes is at [p] in [buf]. *)
Definition udp_callback (s : net_t) (cb : udp_recv_callback_t) (src_ip src_port : Z) (buf : list Z) (p len : Z) : outcome net_t :=
  match cb with
  | cb_dns =>
      if negb s.(dns_rx).(waiting) || (len <? 12) || (len >? DNS_BUF) then Ret s else
      d ← rd_block buf p len;
      rx ← dns_udp_handler s.(dns_rx) d;
      Ret (set_dns s rx)
  | cb_dhcp => dhcp_recv_handler s buf p len
  | cb_client n => d ← rd_block buf p len; Ret (set_inbox s (s.(inbox) ++ [(n, src_ip, src_port, d)]))
  end.
Definition udp_process (s : net_t) (src_ip : Z) (buf : list Z) (p len : Z) : outcome net_t :=
  if len <? SIZEOF_UDP then Ret s else
  sp ← field buf p 2;
  dp ← field buf (p + 2) 2;
  match first_from (udp_bound (ntohs dp)) s.(udp_sockets) 0 with
  | Some k =>
      match (s.(udp_sockets).[k]).(u_callback) with
      | Some cb => udp_callback s cb src_ip (ntohs sp) buf (p + SIZEOF_UDP) (len - SIZEOF_UDP)
      | None => Ret s
      end
  | None => Ret s
  end.

(** ** TCP *)

Definition get_tcp_socket (s : net_t) (sock : Z) : option tcp_socket_t :=
  if (sock <? 0) || (sock >=? TCP_MAX_SOCKETS) then None else
  let t := s.(tcp_sockets).[sock] in if t.(t_in_use) then Some t else None.
Definition tcp_header (sp dp sq ak flags : Z) : list Z :=
  le_bytes 2 (htons sp) ++ le_bytes 2 (htons dp) ++ le_bytes 4 (htonl sq) ++ le_bytes 4 (htonl ak) ++ [Z.shiftl 5 4; flags] ++
  le_bytes 2 (htons TCP_RX_BUF_SIZE) ++ [0; 0; 0; 0].
Definition has (flags f : Z) : bool := nonzero (Z.land flags f).
(** The segment of socket number [k]; its sequence number moves on whether the segment is sent or not. *)
Definition tcp_send_segment (s : net_t) (k : Z) (flags : Z) (data : list Z) : net_t * Z :=
  let t := s.(tcp_sockets).[k] in
  let '(s, rc) := ip_send s t.(t_remote_ip) IP_PROTO_TCP
    (tcp_header t.(t_local_port) t.(t_remote_port) t.(t_seq) t.(t_ack) flags ++ data) in
  let sq := if has flags TCP_SYN then u32 (t.(t_seq) + 1) else t.(t_seq) in
  let sq := if has flags TCP_FIN then u32 (sq + 1) else sq in
  let sq := if zlen data >? 0 then u32 (sq + u32 (zlen data)) else sq in
  (put_tcp s k (t_set_seq t sq), rc).

Definition tcp_socket_create (s : net_t) : net_t * Z :=
  match first_from (λ t, negb t.(t_in_use)) s.(tcp_sockets) 0 with
  | Some k => (put_tcp s k (t_with tcp_zero true TCP_STATE_CLOSED 1000 0), k)
  | None => (s, - ENOMEM)
  end.
Definition iface_ip (s : net_t) : Z := match s.(g_iface) with Some i => i.(ip) | None => 0 end.
Definition tcp_connect (s : net_t) (sock a port : Z) : net_t * Z :=
  match get_tcp_socket s sock with
  | Some t =>
      if bool_decide (t.(t_state) = TCP_STATE_CLOSED) then
        let t := t_addresses t (iface_ip s) (u16 (49152 + u16 (sock * 7 + 1))) a port in
        tcp_send_segment (put_tcp s sock (t_set_state t TCP_STATE_SYN_SENT)) sock TCP_SYN []
      else (s, - EINVAL)
  | None => (s, - EINVAL)
  end.
Definition tcp_listen (s : net_t) (sock port : Z) : net_t * Z :=
  match get_tcp_socket s sock with
  | Some t =>
      if bool_decide (t.(t_state) = TCP_STATE_CLOSED) then
        let t := t_addresses t (iface_ip s) port t.(t_remote_ip) t.(t_remote_port) in
        (put_tcp s sock (t_set_state t TCP_STATE_LISTEN), 0)
      else (s, - EINVAL)
  | None => (s, - EINVAL)
  end.

Definition MAX_SEGMENT : Z := ETH_MTU - SIZEOF_IPV4 - SIZEOF_TCP.
Fixpoint send_from (fuel : nat) (s : net_t) (sock : Z) (data : list Z) (done : Z) : outcome (net_t * Z) :=
  match data, fuel with
  | [], _ => Ret (s, done)
  | _, O => NoFuel
  | _, S fuel =>
      let chunk := Z.min (zlen data) MAX_SEGMENT in
      let '(s, rc) := tcp_send_segment s sock (Z.lor TCP_ACK TCP_PSH) (take (Z.to_nat chunk) data) in
      if rc <? 0 then Ret (s, if done >? 0 then done else rc)
      else send_from fuel s sock (drop (Z.to_nat chunk) data) (done + chunk)
  end.
Definition tcp_send (s : net_t) (sock : Z) (data : list Z) : outcome (net_t * Z) :=
  match get_tcp_socket s sock with
  | Some t => if bool_decide (t.(t_state) = TCP_STATE_ESTABLISHED) then send_from (length data) s sock data 0 else Ret (s, - EINVAL)
  | None => Ret (s, - EINVAL)
  end.
(** The bytes received and the result. *)
Definition tcp_recv (s : net_t) (sock max_len : Z) : outcome (net_t * list Z * Z) :=
  match get_tcp_socket s sock with
  | Some t =>
      if negb (bool_decide (t.(t_state) = TCP_STATE_ESTABLISHED)) then Ret (s, [], - EINVAL) else
      if t.(rx_len) =? 0 then Ret (s, [], 0) else
      let n := if max_len <? t.(rx_len) then max_len else t.(rx_len) in
      d ← rd_block t.(rx_buf) 0 n;
      b ← (if n <? t.(rx_len) then rest ← rd_block t.(rx_buf) n (t.(rx_len) - n); wr t.(rx_buf) 0 rest else Ret t.(rx_buf));
      Ret (put_tcp s sock (t_set_rx t b (t.(rx_len) - n)), d, n)
  | None => Ret (s, [], - EINVAL)
  end.
Definition tcp_close (s : net_t) (sock : Z) : net_t * Z :=
  match get_tcp_socket s sock with
  | Some t =>
      let s :=
        if bool_decide (t.(t_state) = TCP_STATE_ESTABLISHED) then
          (tcp_send_segment (put_tcp s sock (t_set_state t TCP_STATE_FIN_WAIT_1)) sock (Z.lor TCP_FIN TCP_ACK) []).1
        else s in
      (put_tcp s sock (t_closed (s.(tcp_sockets).[sock])), 0)
  | None => (s, - EINVAL)
  end.

Definition tcp_match (dst_port src_port src_ip : Z) (t : tcp_socket_t) : bool :=
  t.(t_in_use) &&
  (bool_decide (t.(t_state) = TCP_STATE_LISTEN) && (t.(t_local_port) =? dst_port) ||
   (t.(t_local_port) =? dst_port) && (t.(t_remote_port) =? src_port) && (t.(t_remote_ip) =? src_ip)).
(** A change of socket [k] followed by a segment. *)
Definition reply (s : net_t) (k : Z) (t : tcp_socket_t) (flags : Z) : net_t := (tcp_send_segment (put_tcp s k t) k flags []).1.
Definition tcp_process (s : net_t) (src_ip : Z) (buf : list Z) (p len : Z) : outcome net_t :=
  if len <? SIZEOF_TCP then Ret s else
  sp ← field buf p 2;
  dp ← field buf (p + 2) 2;
  sq ← field buf (p + 4) 4;
  doff ← rd buf (p + 12);
  flags ← rd buf (p + 13);
  let src_port := ntohs sp in
  let sq := ntohl sq in
  let data_off := u8 (Z.shiftr doff 4 * 4) in
  let payload_len := if len >? data_off then len - data_off else 0 in
  match first_from (tcp_match (ntohs dp) src_port src_ip) s.(tcp_sockets) 0 with
  | None => Ret s
  | Some k =>
      let t := s.(tcp_sockets).[k] in
      match t.(t_state) with
      | TCP_STATE_LISTEN =>
          if has flags TCP_SYN then
            let t := t_set_ack (t_addresses t t.(t_local_ip) t.(t_local_port) src_ip src_port) (u32 (sq + 1)) in
            Ret (reply s k (t_set_state t TCP_STATE_SYN_RECEIVED) (Z.lor TCP_SYN TCP_ACK))
          else Ret s
      | TCP_STATE_SYN_SENT =>
          if Z.land flags (Z.lor TCP_SYN TCP_ACK) =? Z.lor TCP_SYN TCP_ACK then
            Ret (reply s k (t_set_state (t_set_ack t (u32 (sq + 1))) TCP_STATE_ESTABLISHED) TCP_ACK)
          else Ret s
      | TCP_STATE_SYN_RECEIVED =>
          if has flags TCP_ACK then Ret (put_tcp s k (t_set_state t TCP_STATE_ESTABLISHED)) else Ret s
      | TCP_STATE_ESTABLISHED =>
          if has flags TCP_FIN then
            let s := reply s k (t_set_state (t_set_ack t (u32 (sq + 1))) TCP_STATE_CLOSE_WAIT) TCP_ACK in
            Ret (reply s k (t_set_state (s.(tcp_sockets).[k]) TCP_STATE_LAST_ACK) (Z.lor TCP_FIN TCP_ACK))
          else if payload_len >? 0 then
            let space := u64 (TCP_RX_BUF_SIZE - t.(rx_len)) in
            let copy := if payload_len <? space then payload_len else space in
            t ← (if copy >? 0 then
                   d ← rd_block buf (p + data_off) copy;
                   b ← wr t.(rx_buf) t.(rx_len) d;
                   Ret (t_set_rx t b (t.(rx_len) + copy))
                 else Ret t);
            Ret (reply s k (t_set_ack t (u32 (sq + u32 payload_len))) TCP_ACK)
          else Ret s
      | TCP_STATE_FIN_WAIT_1 =>
          if Z.land flags (Z.lor TCP_FIN TCP_ACK) =? Z.lor TCP_FIN TCP_ACK then
            Ret (reply s k (t_set_state (t_set_ack t (u32 (sq + 1))) TCP_STATE_TIME_WAIT) TCP_ACK)
          else if has flags TCP_ACK then Ret (put_tcp s k (t_set_state t TCP_STATE_FIN_WAIT_2))
          else Ret s
      | TCP_STATE_FIN_WAIT_2 =>
          if has flags TCP_FIN then Ret (reply s k (t_set_state (t_set_ack t (u32 (sq + 1))) TCP_STATE_TIME_WAIT) TCP_ACK)
          else Ret s
      | TCP_STATE_LAST_ACK => if has flags TCP_ACK then Ret (put_tcp s k (t_closed t)) else Ret s
      | _ => Ret s
      end
  end.

(** ** Receiving IPv4 *)

Definition ip_receive (s : net_t) (frame : list Z) (len : Z) : outcome (net_t * Z) :=
  match s.(g_iface) with
  | None => Ret (s, - EINVAL)
  | Some i =>
      if len <? SIZEOF_ETH + SIZEOF_IPV4 then Ret (s, - EINVAL) else
      v ← rd frame SIZEOF_ETH;
      tl ← field frame (SIZEOF_ETH + 2) 2;
      protocol ← rd frame (SIZEOF_ETH + 9);
      src_ip ← field frame (SIZEOF_ETH + 12) 4;
      dst_ip ← field frame (SIZEOF_ETH + 16) 4;
      let ihl := Z.land v 0x0F * 4 in
      let tlen := ntohs tl in
      if tlen <? ihl then Ret (s, - EINVAL) else
      let p := SIZEOF_ETH + ihl in
      let n := tlen - ihl in
      if negb (dst_ip =? i.(ip)) && negb (dst_ip =? 0xFFFFFFFF) then Ret (s, 0) else
      s ← (if protocol =? IP_PROTO_UDP then udp_process s src_ip frame p n
           else if protocol =? IP_PROTO_TCP then tcp_process s src_ip frame p n
           else if protocol =? IP_PROTO_ICMP then icmp_process s src_ip frame p n
           else Ret s);
      Ret (s, 0)
  end.

(** ** IPv6 *)

Definition same (a b : list Z) : bool := bool_decide (a = b).
Definition nd_cache_add (s : net_t) (a m : list Z) : net_t :=
  let t := s.(nd_tbl) in
  match first_from (λ e, e.(nd_valid) && same e.(nd_ip) a) t 0 with
  | Some k => set_nd s (t.[k <- {| nd_ip := (t.[k]).(nd_ip); nd_mac := m; nd_valid := (t.[k]).(nd_valid) |}])
  | None =>
      let k := match first_from (λ e, negb e.(nd_valid)) t 0 with Some k => k | None => 0 end in
      set_nd s (t.[k <- {| nd_ip := a; nd_mac := m; nd_valid := true |}])
  end.
Definition nd_lookup (s : net_t) (a : list Z) : option (list Z) :=
  match first_from (λ e, e.(nd_valid) && same e.(nd_ip) a) s.(nd_tbl) 0 with
  | Some k => Some ((s.(nd_tbl).[k]).(nd_mac))
  | None => None
  end.
Definition ipv6_is_loopback (a : list Z) : bool := same a (zeros 15 ++ [1]).
Definition ipv6_is_linklocal (a : list Z) : bool := (a.[0] =? 0xfe) && (Z.land (a.[1]) 0xc0 =? 0x80).
Definition ipv6_solicited_mcast (tgt : list Z) : list Z :=
  [0xff; 0x02] ++ zeros 9 ++ [1; 0xff; tgt.[13]; tgt.[14]; tgt.[15]].
Definition ipv6_mcast_mac (a : list Z) : list Z := [0x33; 0x33; a.[12]; a.[13]; a.[14]; a.[15]].
Definition ipv6_solicited_for_us (me d : list Z) : bool :=
  (d.[0] =? 0xff) && (d.[1] =? 0x02) && (d.[11] =? 1) && (d.[12] =? 0xff) &&
  (d.[13] =? me.[13]) && (d.[14] =? me.[14]) && (d.[15] =? me.[15]).
Definition ipv6_dst_for_us (me d : list Z) : bool := same d me || ipv6_solicited_for_us me d.

(** The buffer holds at most 256 bytes of the message. The two bytes that are cleared are
    those of the checksum, as the message starts at 40. *)
Definition icmp6_csum (src dst : list Z) (nxt : Z) (icmp : list Z) : Z :=
  if zlen icmp >? 256 then 0 else
  let cleared := if zlen icmp >=? 4 then icmp.[2 <- 0].[3 <- 0] else icmp in
  ip_checksum (src ++ dst ++ le_bytes 4 (htonl (u32 (zlen icmp))) ++ [0; 0; 0; nxt] ++ cleared).
(** A message with its checksum in place. *)
Definition with_csum (m : list Z) (cs : Z) : list Z := m.[2 <- u8 (Z.land cs 0xFF)].[3 <- u8 (Z.shiftr cs 8)].

Definition ipv6_send_eth (s : net_t) (dst_mac src dst : list Z) (nxt : Z) (payload : list Z) : net_t * Z :=
  if bool_decide (s.(g_iface) = None) || (zlen payload + 40 >? ETH_MTU) then (s, - EINVAL) else
  let hop := if (nxt =? IP6_NXT_ICMP6) && (zlen payload >=? 4) && (payload.[0] >=? ICMP6_NS) then 255 else 64 in
  eth_send s dst_mac ETH_TYPE_IPV6
    ([0x60; 0; 0; 0] ++ le_bytes 2 (htons (u16 (zlen payload))) ++ [nxt; hop] ++ src ++ dst ++ payload).

(** A neighbour message about [target] with the option [opt] that carries our address. *)
Definition nd_message (i : net_interface_t) (type flags : Z) (target : list Z) (opt : Z) : list Z :=
  [type; 0; 0; 0; flags; 0; 0; 0] ++ target ++ [opt; 1] ++ i.(mac).
Definition ndp_send_ns (s : net_t) (target : list Z) : net_t :=
  match s.(g_iface) with
  | None => s
  | Some i =>
      let mc := ipv6_solicited_mcast target in
      let m := nd_message i ICMP6_NS 0 target ND_OPT_SRCLLA in
      let cs := icmp6_csum i.(ipv6_link_local) mc IP6_NXT_ICMP6 m in
      (ipv6_send_eth s (ipv6_mcast_mac mc) i.(ipv6_link_local) mc IP6_NXT_ICMP6 (with_csum m cs)).1
  end.
Definition ndp_send_na (s : net_t) (dst_ip dst_mac target : list Z) : net_t :=
  match s.(g_iface) with
  | None => s
  | Some i =>
      let m := nd_message i ICMP6_NA 0x40 target ND_OPT_TGTLLA in
      let cs := icmp6_csum i.(ipv6_link_local) dst_ip IP6_NXT_ICMP6 m in
      (ipv6_send_eth s dst_mac i.(ipv6_link_local) dst_ip IP6_NXT_ICMP6 (with_csum m cs)).1
  end.

(** The first option [want] of a neighbour message at [pay]: the address it carries. *)
Fixpoint nd_option (fuel : nat) (buf : list Z) (pay off len want : Z) : outcome (option (list Z)) :=
  if off + 2 <=? len then
    ot ← rd buf (pay + off);
    olen ← rd buf (pay + off + 1);
    if olen =? 0 then Ret None else
    let ob := olen * 8 in
    if off + ob >? len then Ret None else
    if (ot =? want) && (ob >=? 8) then a ← rd_block buf (pay + off + 2) 6; Ret (Some a)
    else match fuel with O => NoFuel | S fuel => nd_option fuel buf pay (off + ob) len want end
  else Ret None.

(** ** Waiting

    [poll] is the poll function of the card, which calls the handlers below again. *)
Section waiting.
Context (poll : net_t → outcome net_t) (patience : nat).

Definition deadline_in (now ms : Z) : Z := u64 (now + u64 (ms * TIMER_FREQ_HZ) / 1000).

(** The loop of every wait: polling until [found] gives a result, or the deadline has passed. *)
Fixpoint wait_until {A} (found : net_t → option A) (fuel : nat) (s : net_t) (deadline : Z) : outcome (net_t * option A) :=
  let '(s, now) := timer_get_ticks s in
  if s64 (deadline - now) >? 0 then
    match found s with
    | Some a => Ret (s, Some a)
    | None => match fuel with O => NoFuel | S fuel => s ← poll s; wait_until found fuel s deadline end
    end
  else Ret (s, None).
(** The address, or the timeout. *)
Definition ndp_resolve (s : net_t) (tgt : list Z) (timeout_ms : Z) : outcome (net_t * option (list Z)) :=
  match nd_lookup s tgt with
  | Some m => Ret (s, Some m)
  | None =>
      let s := ndp_send_ns s tgt in
      let '(s, now) := timer_get_ticks s in
      wait_until (λ s, nd_lookup s tgt) patience s (deadline_in now timeout_ms)
  end.

Definition icmp6_process (s : net_t) (src : list Z) (buf : list Z) (pay len : Z) : outcome net_t :=
  match s.(g_iface) with
  | None => Ret s
  | Some i =>
      if len <? 8 then Ret s else
      type ← rd buf pay;
      if type =? ICMP6_ECHO_REP then
        if negb s.(ping6_wait).(p_active) then Ret s else
        rid ← be16 buf (pay + 4);
        rseq ← be16 buf (pay + 6);
        let w := s.(ping6_wait) in
        Ret (if same src w.(p_target) && (rid =? w.(p_id)) && (rseq =? w.(p_seq)) then set_ping6 s (ping_reply w) else s)
      else if type =? ICMP6_ECHO_REQ then
        let rlen := if len >? 128 then 128 else len in
        m ← rd_block buf pay rlen;
        let m := m.[0 <- ICMP6_ECHO_REP].[2 <- 0].[3 <- 0] in
        let m := with_csum m (icmp6_csum i.(ipv6_link_local) src IP6_NXT_ICMP6 m) in
        r ← (match nd_lookup s src with Some dm => Ret (s, Some dm) | None => ndp_resolve s src 500 end);
        match r with
        | (s, None) => Ret s
        | (s, Some dm) =>
            match s.(g_iface) with
            | Some i => Ret (ipv6_send_eth s dm i.(ipv6_link_local) src IP6_NXT_ICMP6 m).1
            | None => Fault
            end
        end
      else if (type =? ICMP6_NS) && (len >=? 24) then
        tgt ← rd_block buf (pay + 8) 16;
        if negb (same tgt i.(ipv6_link_local)) then Ret s else
        o ← nd_option (Z.to_nat len) buf pay 24 len ND_OPT_SRCLLA;
        match o with Some smac => Ret (ndp_send_na s src smac tgt) | None => Ret s end
      else if (type =? ICMP6_NA) && (len >=? 24) then
        tgt ← rd_block buf (pay + 8) 16;
        o ← nd_option (Z.to_nat len) buf pay 24 len ND_OPT_TGTLLA;
        match o with Some m => Ret (nd_cache_add s tgt m) | None => Ret s end
      else Ret s
  end.

Definition ipv6_receive (s : net_t) (frame : list Z) (len : Z) : outcome (net_t * Z) :=
  match s.(g_iface) with
  | None => Ret (s, - EINVAL)
  | Some i =>
      if len <? SIZEOF_ETH + 40 then Ret (s, - EINVAL) else
      v ← rd frame SIZEOF_ETH;
      if negb (Z.land v 0xf0 =? 0x60) then Ret (s, 0) else
      plen ← be16 frame (SIZEOF_ETH + 4);
      if SIZEOF_ETH + 40 + plen >? len then Ret (s, - EINVAL) else
      dst ← rd_block frame (SIZEOF_ETH + 24) 16;
      src ← rd_block frame (SIZEOF_ETH + 8) 16;
      if negb (ipv6_dst_for_us i.(ipv6_link_local) dst) then Ret (s, 0) else
      nxt ← rd frame (SIZEOF_ETH + 6);
      if negb (nxt =? IP6_NXT_ICMP6) then Ret (s, 0) else
      s ← icmp6_process s src frame (SIZEOF_ETH + 40) plen;
      Ret (s, 0)
  end.

(** ** The frame dispatcher *)

Definition net_process_frame (s : net_t) (frame : list Z) (len : Z) : outcome (net_t * Z) :=
  if len <? SIZEOF_ETH then Ret (s, - EINVAL) else
  t ← field frame 12 2;
  let type := ntohs t in
  if type =? ETH_TYPE_ARP then arp_process s frame len
  else if type =? ETH_TYPE_IPV4 then ip_receive s frame len
  else if type =? ETH_TYPE_IPV6 then ipv6_receive s frame len
  else Ret (s, 0).

(** ** Pings *)

Definition icmp_wait_arp (s : net_t) (hop deadline : Z) : outcome (net_t * Z) :=
  r ← wait_until (λ s, arp_lookup s hop) patience (arp_request s hop).1 deadline;
  Ret (r.1, match r.2 with Some _ => 0 | None => - ETIMEDOUT end).
Definition net_ipv4_dns_server (s : net_t) : Z :=
  match s.(g_iface) with Some i => if nonzero i.(dns4) then i.(dns4) else i.(gateway) | None => 0 end.
Definition net_wait_arp_ipv4 (s : net_t) (ipv4 timeout_ms : Z) : outcome (net_t * Z) :=
  match s.(g_iface) with
  | None => Ret (s, - EIO)
  | Some _ =>
      let hop := ip_next_hop s ipv4 in
      let '(s, now) := timer_get_ticks s in
      icmp_wait_arp (arp_request s hop).1 hop (deadline_in now timeout_ms)
  end.

Definition ping_stop {T} (p : ping_t T) : ping_t T :=
  {| p_active := false; p_id := p.(p_id); p_seq := p.(p_seq); p_target := p.(p_target); p_replied := p.(p_replied); p_start := p.(p_start) |}.
Definition rtt (start now : Z) : Z := u32 (u64 (u64 (now - start) * 1000) / TIMER_FREQ_HZ).
(** The round trip time, or the timeout. *)
Definition ping_loop (s : net_t) (deadline : Z) : outcome (net_t * option Z * Z) :=
  r ← wait_until (λ s, if s.(ping_wait).(p_replied) then Some tt else None) patience s deadline;
  match r with
  | (s, Some _) =>
      let '(s, now) := timer_get_ticks s in
      Ret (set_ping s (ping_stop s.(ping_wait)), Some (rtt s.(ping_wait).(p_start) now), 0)
  | (s, None) => Ret (set_ping s (ping_stop s.(ping_wait)), None, - ETIMEDOUT)
  end.
Definition payload32 : list Z := seqZ 0 32.
Definition icmp_ping (s : net_t) (dst_ip timeout_ms : Z) (out : bool) : outcome (net_t * option Z * Z) :=
  if negb out then Ret (s, None, - EINVAL) else
  match s.(g_iface) with
  | None => Ret (s, None, - EIO)
  | Some i =>
      if negb i.(is_up) then Ret (s, None, - EIO) else
      let hop := ip_next_hop s dst_ip in
      let '(s, now) := timer_get_ticks s in
      r ← icmp_wait_arp s hop (deadline_in now 2000);
      let '(s, rc) := r in
      if rc <? 0 then Ret (s, None, - ETIMEDOUT) else
      if s.(ping_wait).(p_active) || s.(ping6_wait).(p_active) then Ret (s, None, - EBUSY) else
      let id := 0xAEA1 in
      let sq := u16 (s.(ping_seq_global) + 1) in
      let s := set_ping_seq s sq in
      let body := le_bytes 2 (htons id) ++ le_bytes 2 (htons sq) ++ payload32 in
      let icmp := [ICMP_ECHO; 0] ++ le_bytes 2 (ip_checksum ([ICMP_ECHO; 0; 0; 0] ++ body)) ++ body in
      let '(s, start) := timer_get_ticks s in
      let s := set_ping s {| p_active := true; p_id := id; p_seq := sq; p_target := dst_ip; p_replied := false; p_start := start |} in
      let '(s, snd) := ip_send s dst_ip IP_PROTO_ICMP icmp in
      r ← (if snd <? 0 then s ← poll s; Ret (ip_send s dst_ip IP_PROTO_ICMP icmp) else Ret (s, snd));
      let '(s, snd) := r in
      if snd <? 0 then Ret (set_ping s (ping_stop s.(ping_wait)), None, - EIO) else
      let '(s, now) := timer_get_ticks s in
      let d := deadline_in now timeout_ms in
      let d := if d <? s.(ping_wait).(p_start) then s.(ping_wait).(p_start) else d in
      ping_loop s d
  end.

Definition ping6_loop (s : net_t) (deadline : Z) : outcome (net_t * option Z * Z) :=
  r ← wait_until (λ s, if s.(ping6_wait).(p_replied) then Some tt else None) patience s deadline;
  match r with
  | (s, Some _) =>
      let '(s, now) := timer_get_ticks s in
      Ret (set_ping6 s (ping_stop s.(ping6_wait)), Some (rtt s.(ping6_wait).(p_start) now), 0)
  | (s, None) => Ret (set_ping6 s (ping_stop s.(ping6_wait)), None, - ETIMEDOUT)
  end.
(** The hardware address to send to, or the error. *)
Definition ping6_mac (s : net_t) (i : net_interface_t) (dst : list Z) : outcome (net_t * option (list Z) * Z) :=
  if ipv6_is_linklocal dst then
    r ← ndp_resolve s dst 2000;
    match r with (s, Some m) => Ret (s, Some m, 0) | (s, None) => Ret (s, None, - ETIMEDOUT) end
  else
    r ← net_wait_arp_ipv4 s i.(gateway) 2000;
    let '(s, rc) := r in
    if rc <? 0 then Ret (s, None, - ETIMEDOUT) else
    match s.(g_iface) with
    | None => Fault
    | Some i => match arp_lookup s i.(gateway) with Some m => Ret (s, Some m, 0) | None => Ret (s, None, - EIO) end
    end.
Definition icmp6_ping (s : net_t) (dst : list Z) (timeout_ms : Z) (out : bool) : outcome (net_t * option Z * Z) :=
  match s.(g_iface) with
  | None => Ret (s, None, - EINVAL)
  | Some i =>
      if negb (out && i.(is_up)) then Ret (s, None, - EINVAL) else
      if ipv6_is_loopback dst then Ret (s, Some 0, 0) else
      if s.(ping6_wait).(p_active) || s.(ping_wait).(p_active) then Ret (s, None, - EBUSY) else
      r ← ping6_mac s i dst;
      match r with
      | (s, None, rc) => Ret (s, None, rc)
      | (s, Some dmac, _) =>
          let id := 0xAE6 in
          let sq := u16 (s.(ping6_seq_g) + 1) in
          let s := set_ping6_seq s sq in
          let m := [ICMP6_ECHO_REQ; 0; 0; 0; u8 (Z.shiftr id 8); u8 id; u8 (Z.shiftr sq 8); u8 sq] ++ payload32 in
          match s.(g_iface) with
          | None => Fault
          | Some i =>
              let m := with_csum m (icmp6_csum i.(ipv6_link_local) dst IP6_NXT_ICMP6 m) in
              let '(s, start) := timer_get_ticks s in
              let s := set_ping6 s {| p_active := true; p_id := id; p_seq := sq; p_target := dst; p_replied := false; p_start := start |} in
              let '(s, snd) := ipv6_send_eth s dmac i.(ipv6_link_local) dst IP6_NXT_ICMP6 m in
              if snd <? 0 then Ret (set_ping6 s (ping_stop s.(ping6_wait)), None, - EIO) else
              let '(s, now) := timer_get_ticks s in
              ping6_loop s (deadline_in now timeout_ms)
          end
      end
  end.
End waiting.

(** The card's poll function takes at most 64 frames, each read over the bytes that the
    buffer holds already, until the card has none. A handler can poll again, so that polls
    nest, to at most [depth]. *)
Fixpoint deliver_frames (process : net_t → list Z → Z → outcome (net_t * Z)) (iter : nat) (s : net_t) (buf : list Z) : outcome net_t :=
  match iter, s.(wire) with
  | O, _ | _, [] => Ret s
  | S iter, None :: rest => Ret (set_wire s rest)
  | S iter, Some f :: rest => buf ← wr buf 0 f; r ← process (set_wire s rest) buf (zlen f); deliver_frames process iter r.1 buf
  end.
Fixpoint net_poll (depth patience : nat) (s : net_t) : outcome net_t :=
  match depth with
  | O => match s.(wire) with [] => Ret s | _ => NoFuel end
  | S depth => deliver_frames (net_process_frame (net_poll depth patience) patience) 64 s rx_stack
  end.
End net.
