(* ===== verification/NetInv.v ===== *)
(** * The network stack stays well-formed, in its buffers, and returns ([src/kernel/net/lwip_port.c])

    The invariant of [Net.net_t], its preservation by every handler and call, and
    the time and the frames that the waiting loops consume. *)

From stdpp Require Import base numbers list.
From S2P Require Import Prelude CMem CArray Buf Dns NetWire Net.
Open Scope Z_scope.


(** * Well-formed states *)

Lemma first_from_shift {A} (p : A → bool) l i k : first_from p l i = Some k ↔ first_from p l 0 = Some (k - i).
Proof.
  revert i k. assert (∀ l i j, first_from p l (i + j) = (λ x, x + j) <$> first_from p l i) as H.
  { clear. induction l as [|x l IH]; intros i j; [done|]. cbn [first_from]. destruct (p x); [done|].
    replace (i + j + 1) with (i + 1 + j) by lia. apply IH. }
  intros i k. specialize (H l 0 i). rewrite Z.add_0_l in H. rewrite H. destruct (first_from p l 0) as [x|]; cbn; [|done].
  split; intros [= E]; f_equal; lia.
Qed.

Lemma first_from_some {A} `{Inhabited A} (p : A → bool) l k : first_from p l 0 = Some k →
  0 ≤ k < zlen l ∧ p (l.[k]) = true ∧ ∀ j, 0 ≤ j < k → p (l.[j]) = false.
Proof.
  revert k. induction l as [|x l IH]; intros k; [done|]. cbn [first_from]. rewrite zlen_cons. pose proof (zlen_nonneg l).
  destruct (p x) eqn:Ep.
  - intros [= <-]. split; [lia|]. split; [done|lia].
  - rewrite first_from_shift. intros (Hk & Hp & Hj)%IH.
    assert (∀ j, 0 < j → (x :: l).[j] = l.[j - 1]) as Hs.
    { intros j Hj'. unfold aget. replace (Z.to_nat j) with (S (Z.to_nat (j - 1))) by lia. done. }
    split; [lia|]. rewrite Hs by lia. split; [by replace (k - (0 + 1)) with (k - 1) in Hp by lia|].
    intros j Hlt. destruct (decide (j = 0)) as [->|]; [done|]. rewrite Hs by lia. apply Hj. lia.
Qed.

Lemma first_from_none {A} (p : A → bool) l i : first_from p l i = None ↔ Forall (λ x, p x = false) l.
Proof.
  revert i. induction l as [|x l IH]; intros i; cbn [first_from]; [by split|]. rewrite Forall_cons. destruct (p x); [naive_solver|].
  rewrite IH. naive_solver.
Qed.

Definition word16 (v : Z) : Prop := 0 ≤ v < 2 ^ 16.
Definition word32 (v : Z) : Prop := 0 ≤ v < 2 ^ 32.
Definition address (n : Z) (a : list Z) : Prop := zlen a = n ∧ bytes_ok a.

Record iface_ok (i : net_interface_t) : Prop := {
  io_mac : address 6 i.(mac); io_ip : word32 i.(ip); io_mask : word32 i.(netmask); io_gw : word32 i.(gateway); io_dns : word32 i.(dns4);
  io_v6 : address 16 i.(ipv6_link_local) }.
(** The states of a connection that can be reached: those behind [tcp_close] never are, for
    it gives the socket back at once. *)
Definition live_state (st : tcp_state_t) : Prop :=
  match st with
  | TCP_STATE_FIN_WAIT_1 | TCP_STATE_FIN_WAIT_2 | TCP_STATE_CLOSE_WAIT | TCP_STATE_TIME_WAIT => False
  | _ => True
  end.
(** [tcp_body] leaves out the state, for the steps that pass through another one. *)
Record tcp_body (t : tcp_socket_t) : Prop := {
  tb_ports : word16 t.(t_local_port) ∧ word16 t.(t_remote_port); tb_remote : word32 t.(t_remote_ip) ∧ word32 t.(t_local_ip);
  tb_seq : word32 t.(t_seq) ∧ word32 t.(t_ack);
  tb_rx : zlen t.(rx_buf) = TCP_RX_BUF_SIZE ∧ bytes_ok t.(rx_buf) ∧ 0 ≤ t.(rx_len) ≤ TCP_RX_BUF_SIZE }.
Definition tcp_ok (t : tcp_socket_t) : Prop := tcp_body t ∧ (t.(t_in_use) = true → live_state t.(t_state)).
Definition arp_ok (e : arp_entry_t) : Prop := address 6 e.(a_mac) ∧ word32 e.(a_ip).
Definition nd_ok (e : nd_entry_t) : Prop := address 6 e.(nd_mac) ∧ zlen e.(nd_ip) = 16.
(** A frame on its way out: of legal size. *)
Definition out_ok (f : list Z) : Prop := 60 ≤ zlen f ≤ 1514 ∧ bytes_ok f.
(** A frame on its way in: its IPv4 header, if it has one, does not claim more than the
    receive buffer holds. *)
Definition fits_buffer (f : list Z) : Prop :=
  le_val (sub_list f 12 2) = htons ETH_TYPE_IPV4 → SIZEOF_ETH + ntohs (le_val (sub_list f 16 2)) ≤ RX_FRAME.
Definition in_ok (f : list Z) : Prop := bytes_ok f ∧ zlen f ≤ RX_FRAME ∧ fits_buffer f.

Record net_body (s : net_t) : Prop := {
  nb_iface : ∀ i, s.(g_iface) = Some i → iface_ok i;
  nb_arp : zlen s.(arp_table) = ARP_TABLE_SIZE ∧ Forall arp_ok s.(arp_table);
  nb_udp : zlen s.(udp_sockets) = UDP_MAX_SOCKETS ∧ Forall (λ u, word16 u.(u_port)) s.(udp_sockets);
  nb_tcp : zlen s.(tcp_sockets) = TCP_MAX_SOCKETS ∧ Forall tcp_body s.(tcp_sockets);
  nb_nd : zlen s.(nd_tbl) = ND_CACHE ∧ Forall nd_ok s.(nd_tbl);
  nb_id : word16 s.(ip_id_counter);
  nb_dns : rx_ok s.(dns_rx);
  nb_sent : Forall out_ok s.(sent);
  nb_wire : Forall (λ o, ∀ f, o = Some f → in_ok f) s.(wire) }.
Definition net_ok (s : net_t) : Prop := net_body s ∧ Forall tcp_ok s.(tcp_sockets).

(** An update of one field is justified by what it says of that field. *)
Ltac net_field := intros [?]; split; cbn; assumption.
Lemma body_set_arp s v : net_body s → zlen v = ARP_TABLE_SIZE ∧ Forall arp_ok v → net_body (set_arp s v).
Proof. net_field. Qed.
Lemma body_set_iface s v : net_body s → (∀ i, v = Some i → iface_ok i) → net_body (set_iface s v).
Proof. net_field. Qed.
Lemma body_set_udp s v : net_body s → zlen v = UDP_MAX_SOCKETS ∧ Forall (λ u, word16 u.(u_port)) v → net_body (set_udp s v).
Proof. net_field. Qed.
Lemma body_set_tcp s v : net_body s → zlen v = TCP_MAX_SOCKETS ∧ Forall tcp_body v → net_body (set_tcp s v).
Proof. net_field. Qed.
Lemma body_set_nd s v : net_body s → zlen v = ND_CACHE ∧ Forall nd_ok v → net_body (set_nd s v).
Proof. net_field. Qed.
Lemma body_set_ip_id s v : net_body s → word16 v → net_body (set_ip_id s v).
Proof. net_field. Qed.
Lemma body_set_dns s v : net_body s → rx_ok v → net_body (set_dns s v).
Proof. net_field. Qed.
Lemma body_set_sent s v : net_body s → Forall out_ok v → net_body (set_sent s v).
Proof. net_field. Qed.
Lemma body_set_wire s v : net_body s → Forall (λ o, ∀ f, o = Some f → in_ok f) v → net_body (set_wire s v).
Proof. net_field. Qed.
Lemma body_set_ping s v : net_body s → net_body (set_ping s v).
Proof. net_field. Qed.
Lemma body_set_ping6 s v : net_body s → net_body (set_ping6 s v).
Proof. net_field. Qed.
Lemma body_set_ping_seq s v : net_body s → net_body (set_ping_seq s v).
Proof. net_field. Qed.
Lemma body_set_ping6_seq s v : net_body s → net_body (set_ping6_seq s v).
Proof. net_field. Qed.
Lemma body_set_dhcp s v : net_body s → net_body (set_dhcp s v).
Proof. net_field. Qed.
Lemma body_set_inbox s v : net_body s → net_body (set_inbox s v).
Proof. net_field. Qed.
Lemma body_set_time s v : net_body s → net_body (set_time s v).
Proof. net_field. Qed.

Lemma ends_rd_block (p : list Z) i n : bytes_ok p → 0 ≤ i → 0 ≤ n → i + n ≤ zlen p →
  ends False (λ l, address n l) (rd_block p i n).
Proof.
  intros Hp Hi Hn Hl. rewrite rd_block_ok by done. split; [by apply zlen_sub_list|]. by apply Forall_take, Forall_drop.
Qed.
Lemma ends_field (p : list Z) i (n : nat) : bytes_ok p → 0 ≤ i → i + Z.of_nat n ≤ zlen p → ends False (λ v, 0 ≤ v < 256 ^ Z.of_nat n) (field p i n).
Proof.
  intros Hp Hi Hl. unfold field. eapply ends_bind; [by apply ends_rd_block; [done|lia..]|]. intros l [El Hb]. cbn. rewrite <- El. by apply le_val_range.
Qed.

Lemma zlen_le_bytes n v : zlen (le_bytes n v) = Z.of_nat n.
Proof. unfold zlen. by rewrite length_le_bytes. Qed.

(** * What a step leaves alone *)

Definition wire_size (s : net_t) : nat := length s.(wire).
(** An interface that is set stays set; neither the clock is read nor a frame taken from the
    wire, nor a ping begun. *)
Record later (s s' : net_t) : Prop := {
  la_iface : is_Some s.(g_iface) → is_Some s'.(g_iface); la_time : s'.(time) = s.(time); la_wire : s'.(wire) = s.(wire);
  la_start : s'.(ping_wait).(p_start) = s.(ping_wait).(p_start) }.
#[export] Instance later_preorder : PreOrder later.
Proof. split; [by split|]. intros s1 s2 s3 [] []. split; [auto|congruence..]. Qed.
(** The result of a step on a well-formed state. *)
Definition stays (s s' : net_t) : Prop := net_ok s' ∧ later s s'.
Lemma stays_trans s1 s2 s3 : stays s1 s2 → stays s2 s3 → stays s1 s3.
Proof. intros [_ H1] [Hok H2]. split; [done|by etrans]. Qed.

(** The effect of sending: frames, and the identifier of the next packet. *)
Definition sends (s s' : net_t) : Prop :=
  ∃ id fs, word16 id ∧ Forall out_ok fs ∧ s' = set_sent (set_ip_id s id) (s.(sent) ++ fs).
Lemma sends_refl s : net_body s → sends s s.
Proof. intros Hs. exists s.(ip_id_counter), []. split; [apply Hs|]. split; [done|]. rewrite app_nil_r. by destruct s. Qed.
Lemma sends_trans s1 s2 s3 : sends s1 s2 → sends s2 s3 → sends s1 s3.
Proof.
  intros (i & fs & Hi & Hfs & ->) (i' & fs' & Hi' & Hfs' & ->). exists i', (fs ++ fs'). split; [done|].
  split; [by apply Forall_app|]. destruct s1; cbn. by rewrite app_assoc.
Qed.
Lemma sends_body s s' : net_body s → sends s s' → net_body s'.
Proof.
  intros Hs (i & fs & Hi & Hfs & ->). apply body_set_sent; [by apply body_set_ip_id|]. apply Forall_app. split; [apply Hs|done].
Qed.
Lemma sends_tcp s s' : sends s s' → s'.(tcp_sockets) = s.(tcp_sockets).
Proof. by intros (i & fs & _ & _ & ->). Qed.
Lemma sends_iface s s' : sends s s' → s'.(g_iface) = s.(g_iface).
Proof. by intros (i & fs & _ & _ & ->). Qed.
Lemma sends_later s s' : sends s s' → later s s'.
Proof. by intros (i & fs & _ & _ & ->). Qed.
Lemma sends_stays s s' : net_ok s → sends s s' → stays s s'.
Proof.
  intros [Hb Ht] Hs. split; [|by apply sends_later]. split; [by eapply sends_body|]. by rewrite (sends_tcp _ _ Hs).
Qed.

(** ** Bytes of a packet *)

Lemma bytes_app a b : bytes_ok a → bytes_ok b → bytes_ok (a ++ b).
Proof. intros. by apply Forall_app. Qed.
Lemma bytes_le n v : bytes_ok (le_bytes n v).
Proof. apply le_bytes_range. Qed.
Lemma bytes_cons b l : 0 ≤ b < 256 → bytes_ok l → bytes_ok (b :: l).
Proof. intros. by apply Forall_cons. Qed.
Lemma bytes_nil : bytes_ok [].
Proof. apply Forall_nil_2. Qed.
Lemma bytes_replicate n b : 0 ≤ b < 256 → bytes_ok (replicate n b).
Proof. intros. by apply Forall_replicate. Qed.
Lemma bytes_aset l i b : bytes_ok l → 0 ≤ b < 256 → bytes_ok (l.[i <- b]).
Proof. intros. by apply Forall_aset. Qed.
Lemma bytes_take n l : bytes_ok l → bytes_ok (take n l).
Proof. apply Forall_take. Qed.
Lemma bytes_drop n l : bytes_ok l → bytes_ok (drop n l).
Proof. apply Forall_drop. Qed.
Create HintDb bytes.
#[export] Hint Resolve bytes_app bytes_le bytes_cons bytes_nil bytes_replicate bytes_aset bytes_take bytes_drop : bytes.
#[export] Hint Resolve io_mac io_v6 : bytes.
#[export] Hint Extern 2 (_ ≤ _ < _) => (split; [by apply Z.leb_le|by apply Z.ltb_lt]) || (apply (wrap_range 8); lia) || (apply bytes_aget; solve [eauto with bytes]) || (unfold word16 in *; lia) : bytes.
#[export] Hint Extern 1 (bytes_ok ?a) => match goal with H : address _ a |- _ => exact (proj2 H) end : bytes.

Lemma address_bytes n a : address n a → bytes_ok a.
Proof. by intros []. Qed.
#[export] Hint Resolve address_bytes : bytes.
Ltac bytes_tac := unfold zeros; eauto 30 with bytes.
Lemma zlen_replicate {A} n (x : A) : zlen (replicate n x) = Z.of_nat n.
Proof. unfold zlen. by rewrite length_replicate. Qed.
Lemma zlen_take_le {A} (l : list A) n : 0 ≤ n ≤ zlen l → zlen (take (Z.to_nat n) l) = n.
Proof. unfold zlen. rewrite length_take. lia. Qed.
Lemma zlen_drop_le {A} (l : list A) n : 0 ≤ n ≤ zlen l → zlen (drop (Z.to_nat n) l) = zlen l - n.
Proof. unfold zlen. rewrite length_drop. lia. Qed.
(** The length of a packet, by its parts. *)
Ltac zlens := rewrite ?zlen_app, ?zlen_cons, ?zlen_le_bytes, ?zlen_replicate; change (zlen (A := Z) []) with 0.

Section proofs.
Context (send_raw : nat → list Z → Z) (clock : nat → Z) (stack rx_stack : list Z).
Context (Hstack : address 1514 stack).

Lemma eth_send_sends s dst ty payload : net_body s → address 6 dst → bytes_ok payload → word16 ty →
  sends s (eth_send send_raw stack s dst ty payload).1.
Proof.
  intros Hs [Hd1 Hd2] Hp Hty. unfold eth_send. destruct s.(g_iface) as [i|] eqn:Ei; [|by apply sends_refl].
  destruct (nb_iface _ Hs i Ei) as [[Hm1 Hm2] _ _ _ _ _]. destruct Hstack as [Hs1 Hs2].
  destruct (negb _); [by apply sends_refl|]. destruct (Z.gtb_spec (zlen payload) ETH_MTU) as [|Hle]; [by apply sends_refl|]. cbn [fst].
  exists s.(ip_id_counter). eexists [_]. split; [apply Hs|]. split; [|by destruct s]. apply Forall_singleton. cbv zeta.
  set (frame := dst ++ _). assert (zlen frame = 14 + zlen payload) as Hf by (unfold frame; zlens; lia).
  pose proof (zlen_nonneg payload). unfold ETH_MTU, SIZEOF_ETH in *. set (t := if _ <? 60 then 60 else _).
  assert (60 ≤ t ≤ 1514 ∧ 14 + zlen payload ≤ t) as Ht by (unfold t; destruct (Z.ltb_spec (14 + zlen payload) 60); lia). split.
  - rewrite zlen_take_le; [lia|]. rewrite zlen_app. rewrite <- (Nat2Z.id (length frame)), zlen_drop_le; unfold zlen in *; lia.
  - apply bytes_take, bytes_app; [unfold frame; bytes_tac|by apply bytes_drop].
Qed.

Lemma arp_lookup_mac s a m : net_body s → arp_lookup s a = Some m → address 6 m.
Proof.
  intros Hs. unfold arp_lookup. destruct (first_from _ _ _) as [k|] eqn:E; [|done]. intros [= <-].
  apply first_from_some in E as (Hk & _).
  destruct (Forall_aget arp_ok (arp_table s) k); [apply Hs|done..].
Qed.
Lemma arp_packet_bytes i op m a : iface_ok i → bytes_ok m → bytes_ok (arp_packet i op m a).
Proof. intros Hi Hm. unfold arp_packet. bytes_tac. Qed.
Lemma broadcast_ok : address 6 BROADCAST.
Proof. split; [done|]. apply bytes_replicate. lia. Qed.
Lemma arp_request_sends s a : net_body s → sends s (arp_request send_raw stack s a).1.
Proof.
  intros Hs. unfold arp_request. destruct s.(g_iface) as [i|] eqn:Ei; [|by apply sends_refl].
  pose proof broadcast_ok as Hb. apply eth_send_sends; [done..| |done]. apply arp_packet_bytes; [by apply (nb_iface _ Hs)|apply Hb].
Qed.
Lemma arp_reply_sends s m a : net_body s → address 6 m → sends s (arp_reply send_raw stack s m a).1.
Proof.
  intros Hs Hm. unfold arp_reply. destruct s.(g_iface) as [i|] eqn:Ei; [|by apply sends_refl].
  apply eth_send_sends; [done..| |done]. apply arp_packet_bytes; [by apply (nb_iface _ Hs)|apply Hm].
Qed.

Lemma ip_send_sends s dst protocol payload : net_body s → 0 ≤ protocol < 256 → bytes_ok payload →
  sends s (ip_send send_raw stack s dst protocol payload).1.
Proof.
  intros Hs Hpr Hp. unfold ip_send. destruct s.(g_iface) as [i|] eqn:Ei; [|by apply sends_refl].
  destruct (Z.gtb_spec (zlen payload) (ETH_MTU - SIZEOF_IPV4)); [by apply sends_refl|]. cbv zeta.
  destruct (arp_lookup s _) as [m|] eqn:Em; [|by apply arp_request_sends].
  assert (word16 (u16 (s.(ip_id_counter) + 1))) as Hid by (apply (wrap_range 16); lia).
  apply (sends_trans s (set_ip_id s (u16 (ip_id_counter s + 1)))).
  - exists (u16 (ip_id_counter s + 1)), []. split; [done|]. split; [done|]. rewrite app_nil_r. by destruct s.
  - apply eth_send_sends; [by apply body_set_ip_id|by eapply arp_lookup_mac| |done]. unfold ipv4_header. bytes_tac.
Qed.

(** ** TCP *)

Lemma put_tcp_body s k t : net_body s → tcp_body t → net_body (put_tcp s k t).
Proof.
  intros Hs Ht. apply body_set_tcp; [done|]. destruct (nb_tcp _ Hs). rewrite zlen_aset. split; [done|]. by apply Forall_aset.
Qed.
Lemma put_tcp_stays s k t : net_ok s → tcp_ok t → stays s (put_tcp s k t).
Proof.
  intros [Hb Hs] Ht. split; [|done]. split; [apply put_tcp_body; [done|apply Ht]|]. by apply Forall_aset.
Qed.
Lemma socket_ok s k : net_ok s → 0 ≤ k < TCP_MAX_SOCKETS → tcp_ok (s.(tcp_sockets).[k]).
Proof. intros [Hb Hs] Hk. apply Forall_aget; [done|]. by rewrite (proj1 (nb_tcp _ Hb)). Qed.
Lemma socket_body s k : net_body s → 0 ≤ k < TCP_MAX_SOCKETS → tcp_body (s.(tcp_sockets).[k]).
Proof. intros Hb Hk. destruct (nb_tcp _ Hb) as [Hl Hf]. apply (Forall_aget tcp_body); [done|]. by rewrite Hl. Qed.

Lemma t_with_body t u st sq ak : tcp_body t → word32 sq → word32 ak → tcp_body (t_with t u st sq ak).
Proof. intros [] Hsq Hak. by split. Qed.
Lemma t_set_seq_body t sq : tcp_body t → word32 sq → tcp_body (t_set_seq t sq).
Proof. intros Ht Hsq. apply t_with_body; [done..|apply Ht]. Qed.
Lemma t_set_ack_body t ak : tcp_body t → word32 ak → tcp_body (t_set_ack t ak).
Proof. intros Ht Hsq. apply t_with_body; [done|apply Ht|done]. Qed.
Lemma t_set_state_body t st : tcp_body t → tcp_body (t_set_state t st).
Proof. intros Ht. apply t_with_body; [done|apply Ht..]. Qed.
Lemma t_addresses_body t lip lp rip rp : tcp_body t → word32 lip → word16 lp → word32 rip → word16 rp → tcp_body (t_addresses t lip lp rip rp).
Proof. intros [] **. by split. Qed.
Lemma t_set_seq_ok t sq : tcp_ok t → word32 sq → tcp_ok (t_set_seq t sq).
Proof. intros [Ht Hl] Hsq. split; [by apply t_set_seq_body|done]. Qed.
Lemma t_closed_ok t : tcp_body t → tcp_ok (t_closed t).
Proof. intros Ht. split; [apply t_with_body; [done|apply Ht..]|done]. Qed.
Lemma u32_word z : word32 (u32 z).
Proof. apply (wrap_range 32). lia. Qed.
Lemma u16_word z : word16 (u16 z).
Proof. apply (wrap_range 16). lia. Qed.
#[local] Hint Resolve u32_word u16_word t_set_seq_body t_set_ack_body t_set_state_body t_addresses_body : net.

(** A segment: the socket has another sequence number, the others are as they were. *)
Lemma segment_spec s k flags data : net_body s → 0 ≤ k < TCP_MAX_SOCKETS → 0 ≤ flags < 256 → bytes_ok data →
  let s' := (tcp_send_segment send_raw stack s k flags data).1 in
  net_body s' ∧ later s s' ∧ ∃ sq, word32 sq ∧ s'.(tcp_sockets) = s.(tcp_sockets).[k <- t_set_seq (s.(tcp_sockets).[k]) sq].
Proof.
  intros Hs Hk Hfl Hd s'. subst s'. unfold tcp_send_segment. set (t := (tcp_sockets s).[k]).
  pose proof (socket_body s k Hs Hk) as Ht. fold t in Ht.
  pose proof (ip_send_sends s (t_remote_ip t) IP_PROTO_TCP (tcp_header (t_local_port t) (t_remote_port t) (t_seq t) (t_ack t) flags ++ data) Hs) as Hsend.
  destruct (ip_send _ _ _ _ _ _) as [s1 rc]. cbn [fst] in *. specialize (Hsend ltac:(done) ltac:(unfold tcp_header; bytes_tac)).
  set (sq := if zlen data >? 0 then _ else _).
  assert (word32 sq) as Hsq by (unfold sq; repeat case_match; auto with net; apply Ht).
  split; [apply put_tcp_body; [by eapply sends_body|auto with net]|].
  split; [by destruct (sends_later _ _ Hsend)|]. exists sq. split; [done|]. unfold put_tcp. cbn. by rewrite (sends_tcp _ _ Hsend).
Qed.

Lemma aget_put s k t : net_body s → 0 ≤ k < TCP_MAX_SOCKETS → (s.(tcp_sockets).[k <- t]).[k] = t.
Proof. intros Hs Hk. apply aget_aset_eq. by rewrite (proj1 (nb_tcp _ Hs)). Qed.

Lemma reply_spec s k t flags : net_body s → 0 ≤ k < TCP_MAX_SOCKETS → tcp_body t → 0 ≤ flags < 256 →
  let s' := reply send_raw stack s k t flags in
  net_body s' ∧ later s s' ∧ ∃ sq, word32 sq ∧ s'.(tcp_sockets) = s.(tcp_sockets).[k <- t_set_seq t sq].
Proof.
  intros Hs Hk Ht Hfl. unfold reply.
  destruct (segment_spec (put_tcp s k t) k flags [] (put_tcp_body _ _ _ Hs Ht) Hk Hfl bytes_nil) as (Hb & Hl & sq & Hsq & E).
  split; [done|]. split; [by destruct Hl|]. exists sq. split; [done|]. rewrite E. cbn [put_tcp set_tcp tcp_sockets]. by rewrite aset_aset, aget_put.
Qed.
Lemma reply_stays s k t flags : net_ok s → 0 ≤ k < TCP_MAX_SOCKETS → tcp_ok t → 0 ≤ flags < 256 →
  stays s (reply send_raw stack s k t flags).
Proof.
  intros [Hb Hs] Hk Ht Hfl. destruct (reply_spec s k t flags Hb Hk (proj1 Ht) Hfl) as (Hb' & Hl & sq & Hsq & E).
  split; [|done]. split; [done|]. rewrite E. apply Forall_aset; [done|by apply t_set_seq_ok].
Qed.

(** ** The calls of a client *)

Lemma get_tcp_socket_some s sock t : get_tcp_socket s sock = Some t →
  0 ≤ sock < TCP_MAX_SOCKETS ∧ t = s.(tcp_sockets).[sock] ∧ t.(t_in_use) = true.
Proof.
  unfold get_tcp_socket. destruct (Z.ltb_spec sock 0); [done|]. destruct (Z.geb_spec sock TCP_MAX_SOCKETS); [done|]. cbn [orb].
  destruct (t_in_use _) eqn:Eu; [|done]. intros [= <-]. split; [lia|done].
Qed.
Lemma iface_ip_word s : net_body s → word32 (iface_ip s).
Proof. intros Hs. unfold iface_ip. destruct (g_iface s) as [i|] eqn:Ei; [apply (nb_iface _ Hs i Ei)|done]. Qed.

Lemma tcp_zero_body : tcp_body tcp_zero.
Proof. split; cbn [tcp_zero t_local_port t_remote_port t_remote_ip t_local_ip t_seq t_ack rx_buf rx_len]; try done. split; [done|]. split; [apply bytes_replicate; lia|done]. Qed.
Lemma tcp_socket_create_stays s : net_ok s → stays s (tcp_socket_create s).1.
Proof.
  intros Hs. unfold tcp_socket_create. destruct (first_from _ _ _); [|by split]. apply put_tcp_stays; [done|]. split; [|done].
  by apply t_with_body; [apply tcp_zero_body|..].
Qed.
Lemma tcp_connect_stays s sock a port : net_ok s → word32 a → word16 port → stays s (tcp_connect send_raw stack s sock a port).1.
Proof.
  intros Hs Ha Hp. unfold tcp_connect. destruct (get_tcp_socket s sock) as [t|] eqn:Et; [|by split].
  apply get_tcp_socket_some in Et as (Hk & -> & Hu). destruct (bool_decide _); [|by split].
  apply (reply_stays s sock _ TCP_SYN); [done|done| |done]. destruct (socket_ok s sock Hs Hk) as [Ht _]. split; [|done].
  apply t_set_state_body, t_addresses_body; try done; [apply iface_ip_word, Hs|apply u16_word].
Qed.
Lemma tcp_listen_stays s sock port : net_ok s → word16 port → stays s (tcp_listen s sock port).1.
Proof.
  intros Hs Hp. unfold tcp_listen. destruct (get_tcp_socket s sock) as [t|] eqn:Et; [|by split].
  apply get_tcp_socket_some in Et as (Hk & -> & Hu). destruct (bool_decide _); [|by split].
  apply put_tcp_stays; [done|]. destruct (socket_ok s sock Hs Hk) as [Ht _]. split; [|done].
  apply t_set_state_body, t_addresses_body; try done; [apply iface_ip_word, Hs|apply Ht..].
Qed.

Lemma segment_stays s k flags data : net_ok s → 0 ≤ k < TCP_MAX_SOCKETS → 0 ≤ flags < 256 → bytes_ok data →
  stays s (tcp_send_segment send_raw stack s k flags data).1.
Proof.
  intros Hs Hk Hfl Hd. destruct (segment_spec s k flags data (proj1 Hs) Hk Hfl Hd) as (Hb & Hl & sq & Hsq & E).
  split; [|done]. split; [done|]. rewrite E. apply Forall_aset; [apply Hs|]. apply t_set_seq_ok; [by apply socket_ok|done].
Qed.
Lemma send_from_ends fuel s sock data done0 : net_ok s → 0 ≤ sock < TCP_MAX_SOCKETS → bytes_ok data → (length data ≤ fuel)%nat →
  ends False (λ r, stays s r.1) (send_from send_raw stack fuel s sock data done0).
Proof.
  revert s data done0. induction fuel as [|fuel IH]; intros s data done0 Hs Hk Hd Hf.
  { destruct data; [by split|cbn in Hf; lia]. }
  destruct data as [|b data]; [by split|]. cbn [send_from]. set (d := b :: data) in *. set (chunk := Z.min (zlen d) MAX_SEGMENT).
  assert (1 ≤ chunk) as Hc by (unfold chunk, d; change MAX_SEGMENT with 1460; rewrite zlen_cons; pose proof (zlen_nonneg data); lia).
  pose proof (segment_stays s sock (Z.lor TCP_ACK TCP_PSH) (take (Z.to_nat chunk) d) Hs Hk ltac:(done) ltac:(by apply bytes_take)) as Hst.
  destruct (tcp_send_segment _ _ _ _ _ _) as [s1 rc]. cbn [fst] in Hst. destruct (rc <? 0); [done|].
  eapply ends_mono; [apply IH; [apply Hst|done|by apply bytes_drop|]|done|].
  - rewrite length_drop. unfold d in *. cbn [length] in *. lia.
  - intros r Hr. by eapply stays_trans.
Qed.
Lemma tcp_send_ends s sock data : net_ok s → bytes_ok data → ends False (λ r, stays s r.1) (tcp_send send_raw stack s sock data).
Proof.
  intros Hs Hd. unfold tcp_send. destruct (get_tcp_socket s sock) as [t|] eqn:Et; [|by split].
  apply get_tcp_socket_some in Et as (Hk & -> & Hu). destruct (bool_decide _); [|by split]. by apply send_from_ends.
Qed.
Lemma tcp_recv_ends s sock max_len : net_ok s → 0 ≤ max_len → ends False (λ r, stays s r.1.1) (tcp_recv s sock max_len).
Proof.
  intros Hs Hm. unfold tcp_recv. destruct (get_tcp_socket s sock) as [t|] eqn:Et; [|by split].
  apply get_tcp_socket_some in Et as (Hk & -> & Hu). set (t := (tcp_sockets s).[sock]) in *. destruct (negb _); [by split|].
  destruct (_ =? 0); [by split|]. destruct (socket_ok s sock Hs Hk) as [Ht Hl]. fold t in Ht, Hl. destruct (tb_rx _ Ht) as (Hz & Hby & Hr).
  unfold TCP_RX_BUF_SIZE in *. set (n := if max_len <? rx_len t then max_len else rx_len t).
  assert (0 ≤ n ≤ rx_len t) as Hn by (unfold n; destruct (Z.ltb_spec max_len (rx_len t)); lia).
  eapply ends_bind; [apply ends_rd_block; [done|lia..]|]. intros d _.
  apply (ends_bind _ (λ b, zlen b = 8192 ∧ bytes_ok b)).
  - destruct (n <? rx_len t); [|done]. eapply ends_bind; [apply ends_rd_block; [done|lia..]|]. intros r [Hzr Hbr].
    rewrite wr_ok by lia. cbn. split; [by rewrite zlen_splice by lia|by apply bytes_ok_splice].
  - intros b [Hzb Hbb]. cbn. apply put_tcp_stays; [done|]. split; [|done]. destruct Ht. split; [done..|]. cbn.
    split; [done|]. split; [done|]. unfold TCP_RX_BUF_SIZE. lia.
Qed.
Lemma tcp_close_stays s sock : net_ok s → stays s (tcp_close send_raw stack s sock).1.
Proof.
  intros Hs. unfold tcp_close. destruct (get_tcp_socket s sock) as [t|] eqn:Et; [|by split].
  apply get_tcp_socket_some in Et as (Hk & -> & Hu). destruct (socket_ok s sock Hs Hk) as [Ht _].
  destruct (bool_decide _); [|apply put_tcp_stays; [done|by apply t_closed_ok]]. cbn [fst].
  destruct (reply_spec s sock (t_set_state ((tcp_sockets s).[sock]) TCP_STATE_FIN_WAIT_1) (Z.lor TCP_FIN TCP_ACK))
    as (Hb & Hl & sq & Hsq & E); [apply Hs|done|by apply t_set_state_body|done|]. unfold reply in *.
  set (s1 := (tcp_send_segment _ _ _ _ _ _).1) in *. split; [|by destruct Hl].
  split; [apply put_tcp_body; [done|]; apply t_closed_ok; by apply socket_body|]. cbn [put_tcp set_tcp tcp_sockets]. rewrite E at 1.
  rewrite aset_aset. apply Forall_aset; [apply Hs|]. apply t_closed_ok. by apply socket_body.
Qed.

Lemma udp_stays s v : net_ok s → zlen v = UDP_MAX_SOCKETS ∧ Forall (λ u, word16 u.(u_port)) v → stays s (set_udp s v).
Proof. intros [Hb Hs] Hv. split; [|done]. split; [by apply body_set_udp|done]. Qed.
Lemma udp_bind_stays s port cb : net_ok s → word16 port → stays s (udp_bind s port cb).1.
Proof.
  intros Hs Hp. unfold udp_bind. destruct (first_from _ _ _); [|by split]. apply udp_stays; [done|].
  destruct (nb_udp _ (proj1 Hs)). rewrite zlen_aset. split; [done|]. by apply Forall_aset.
Qed.
Lemma udp_unbind_stays s port : net_ok s → stays s (udp_unbind s port).1.
Proof.
  intros Hs. unfold udp_unbind. destruct (first_from _ _ _) as [k|] eqn:Ek; [|by split]. apply udp_stays; [done|].
  destruct (nb_udp _ (proj1 Hs)) as [Hl Hu]. rewrite zlen_aset. split; [done|]. apply Forall_aset; [done|]. cbn.
  apply first_from_some in Ek as (Hk & _). by apply (Forall_aget (λ u, word16 u.(u_port))).
Qed.
Lemma udp_send_stays s dst dport sport data : net_ok s → bytes_ok data → stays s (udp_send send_raw stack s dst dport sport data).1.
Proof.
  intros Hs Hd. unfold udp_send. destruct (_ >? _); [by split|]. apply sends_stays; [done|]. apply ip_send_sends; [apply Hs|done|].
  unfold udp_header. bytes_tac.
Qed.
Lemma dhcp_discover_stays s : net_ok s → stays s (dhcp_discover send_raw stack s).1.
Proof.
  intros Hs. unfold dhcp_discover. destruct (g_iface s) as [i|] eqn:Ei; [|by split].
  pose proof (udp_bind_stays s DHCP_CLIENT_PORT (Some cb_dhcp) Hs ltac:(done)) as Hb.
  destruct (udp_bind _ _ _) as [s1 rc]. cbn [fst] in Hb. destruct (rc <? 0); [done|]. eapply stays_trans; [done|].
  apply udp_send_stays; [apply Hb|]. pose proof (nb_iface _ (proj1 Hs) i Ei) as [[_ Hm] _ _ _ _ _].
  repeat first [apply bytes_app | apply bytes_le | exact Hm | apply bytes_replicate; lia | apply bytes_cons; [by split; [apply Z.leb_le|apply Z.ltb_lt]|] | apply bytes_nil].
Qed.

(** ** Handlers of datagrams

    The message of [len] bytes is at [p] in [buf]. *)

Section handlers.
Context (buf : list Z) (p len : Z).
Context (Hbuf : bytes_ok buf) (Hp : 0 ≤ p) (Hlen : 0 ≤ len) (Hin : p + len ≤ zlen buf).

Lemma rd_in i : 0 ≤ i < len → ends False (λ b, 0 ≤ b < 256) (rd buf (p + i)).
Proof. intros Hi. apply rd_ends; [done|lia]. Qed.
Lemma field_in i n : 0 ≤ i → i + Z.of_nat n ≤ len → ends False (λ v, 0 ≤ v < 256 ^ Z.of_nat n) (field buf (p + i) n).
Proof. intros Hi Hn. apply ends_field; [done|lia..]. Qed.
Lemma block_in i n : 0 ≤ i → 0 ≤ n → i + n ≤ len → ends False (λ l, address n l) (rd_block buf (p + i) n).
Proof. intros Hi Hn Hl. apply ends_rd_block; [done|lia..]. Qed.
Lemma be16_in i : 0 ≤ i → i + 2 ≤ len → ends False (λ _, True) (be16 buf (p + i)).
Proof.
  intros Hi Hl. unfold be16, dns_read_u16. eapply ends_bind; [apply rd_in; lia|]. intros a _.
  eapply ends_bind; [rewrite <- Z.add_assoc; apply rd_in; lia|]. intros b _. by cbn.
Qed.
Lemma field0_in n : Z.of_nat n ≤ len → ends False (λ v, 0 ≤ v < 256 ^ Z.of_nat n) (field buf p n).
Proof. intros Hn. rewrite <- (Z.add_0_r p). apply field_in; lia. Qed.

Lemma icmp_process_ends s src : net_ok s → ends False (stays s) (icmp_process send_raw stack s src buf p len).
Proof.
  intros Hs. unfold icmp_process. destruct (Z.ltb_spec len 8); [by split|]. cbn [orb]. destruct (bool_decide _); [by split|].
  rewrite <- (Z.add_0_r p) at 1. eapply ends_bind; [apply rd_in; lia|]. intros ty _. destruct (ty =? ICMP_ECHOREPLY).
  - destruct (negb _); [by split|]. eapply ends_bind; [apply be16_in; lia|]. intros rid _.
    eapply ends_bind; [apply be16_in; lia|]. intros rseq _. cbn [ends]. destruct (_ && _); [|by split].
    split; [|done]. split; [by apply body_set_ping, Hs|apply Hs].
  - destruct (ty =? ICMP_ECHO); [|by split]. set (n := if len >? 512 then 512 else len).
    assert (8 ≤ n ≤ len) as Hn by (unfold n; destruct (Z.gtb_spec len 512); lia).
    eapply ends_bind; [apply block_in; lia|]. intros rest [_ Hrest]. cbn [ends]. apply sends_stays; [done|].
    apply ip_send_sends; [apply Hs|done|]. bytes_tac.
Qed.

Lemma dhcp_options_ends fuel opt opt_end m g : 0 ≤ opt → opt_end ≤ zlen buf → word32 m → word32 g → opt_end ≤ opt + Z.of_nat fuel →
  ends False (λ r, word32 r.1 ∧ word32 r.2) (dhcp_options fuel buf opt opt_end m g).
Proof.
  intros Ho He. revert opt m g Ho. induction fuel as [|fuel IH]; intros opt m g Ho Hm Hg Hf; cbn [dhcp_options].
  { destruct (Z.ltb_spec opt opt_end); [lia|done]. }
  destruct (Z.ltb_spec opt opt_end); [|done]. eapply ends_bind; [apply rd_ends; [done|lia]|]. intros code _.
  destruct (_ =? _); [done|]. destruct (_ =? _); [apply IH; try done; lia|]. destruct (Z.geb_spec (opt + 1) opt_end); [done|].
  eapply ends_bind; [apply rd_ends; [done|lia]|]. intros olen Hol. cbv beta in Hol. destruct (Z.gtb_spec (opt + 1 + 1 + olen) opt_end); [done|].
  apply (ends_bind _ (λ r, word32 r.1 ∧ word32 r.2)); [|intros [m' g'] [Hm' Hg']; apply IH; try done; lia].
  destruct (code =? 1), (code =? 3), (Z.geb_spec olen 4); try done; cbn [andb].
  all: eapply ends_bind; [apply ends_field; [done|lia|lia]|]; intros v Hv; done.
Qed.
(** The options are looked for in 312 bytes, whatever the length of the datagram. *)
Lemma dhcp_recv_handler_ends s : net_ok s → p + SIZEOF_DHCP ≤ zlen buf → ends False (stays s) (dhcp_recv_handler s buf p len).
Proof.
  intros Hs Hd. unfold SIZEOF_DHCP in Hd. unfold dhcp_recv_handler. change (SIZEOF_DHCP - 312) with 240. destruct (Z.ltb_spec len 240); [by split|].
  rewrite <- (Z.add_0_r p) at 1. eapply ends_bind; [apply rd_in; lia|]. intros op _. destruct (negb _); [by split|].
  eapply ends_bind; [apply (field_in 16 4); lia|]. intros a Ha. cbv beta in Ha. destruct (g_iface s) as [i|] eqn:Ei; [|by split].
  destruct (a =? 0); [by split|]. destruct (nb_iface _ (proj1 Hs) i Ei) as [].
  eapply ends_bind; [apply dhcp_options_ends; [lia|lia|done|done|lia]|]. intros [m g] [Hm Hg]. cbn. split.
  - split; [|apply Hs]. apply body_set_iface; [by apply body_set_dhcp, Hs|]. intros ? [= <-]. by split.
  - split; cbn; done || lia.
Qed.

Lemma udp_callback_ends s cb src sport : net_ok s → p + SIZEOF_DHCP ≤ zlen buf →
  ends False (stays s) (udp_callback s cb src sport buf p len).
Proof.
  intros Hs Hd. destruct cb as [| |n]; cbn [udp_callback].
  - destruct (_ || _); [by split|]. rewrite <- (Z.add_0_r p) at 1. eapply ends_bind; [apply block_in; lia|]. intros d [Hz Hd'].
    pose proof (nb_dns _ (proj1 Hs)) as Hrx.
    eapply ends_bind; [apply (handler_ends (λ _, True) (dns_rx s) d)|]; try done.
    + intros _. destruct Hrx as [Hb Hbb Hl]. exists (sub_list (Dns.buf (dns_rx s)) 0 (Dns.len (dns_rx s))).
      split; [done|]. split; [apply zlen_sub_list; lia|]. intros i Hi. by rewrite aget_sub_list by lia.
    + intros rx [Hrx' _]. cbn. split; [|done]. split; [by apply body_set_dns; [apply Hs|]|apply Hs].
  - by apply dhcp_recv_handler_ends.
  - rewrite <- (Z.add_0_r p) at 1. eapply ends_bind; [apply block_in; lia|]. intros d _. cbn. split; [|done].
    split; [by apply body_set_inbox, Hs|apply Hs].
Qed.
End handlers.

Section transport.
Context (buf : list Z) (p len : Z).
Context (Hbuf : bytes_ok buf) (Hp : 0 ≤ p) (Hlen : 0 ≤ len) (Hin : p + len ≤ zlen buf).

Lemma udp_process_ends s src : net_ok s → p + SIZEOF_UDP + SIZEOF_DHCP ≤ zlen buf → ends False (stays s) (udp_process s src buf p len).
Proof.
  intros Hs Hd. unfold udp_process. destruct (Z.ltb_spec len SIZEOF_UDP) as [|Hl]; [by split|]. unfold SIZEOF_UDP in *.
  eapply ends_bind; [apply (field0_in buf p len); done || lia|]. intros sp _. eapply ends_bind; [apply (field_in buf p len); done || lia|]. intros dp _.
  destruct (first_from _ _ _) as [k|]; [|by split]. destruct (u_callback _) as [cb|]; [|by split].
  apply udp_callback_ends; done || lia.
Qed.

(** The data of a segment is appended to the buffer of its socket, as far as there is room. *)
Lemma tcp_take_ends t off n : tcp_ok t → 0 ≤ off → 0 ≤ n → off + n ≤ len →
  let space := u64 (TCP_RX_BUF_SIZE - t.(rx_len)) in
  let copy := if n <? space then n else space in
  ends False (λ t', tcp_ok t' ∧ t_state t' = t_state t)
    (if copy >? 0 then
       d ← rd_block buf (p + off) copy;
       b ← wr t.(rx_buf) t.(rx_len) d;
       Ret (t_set_rx t b (t.(rx_len) + copy))
     else Ret t).
Proof.
  intros [Ht Hst] Ho Hn Hon space copy. destruct (tb_rx _ Ht) as (Hz & Hby & Hr). unfold TCP_RX_BUF_SIZE in *.
  assert (space = 8192 - rx_len t) as Hsp by (apply wrap_id; lia). destruct (Z.gtb_spec copy 0) as [Hc|]; [|done].
  assert (copy ≤ n ∧ copy ≤ space) as Hcn by (unfold copy; destruct (Z.ltb_spec n space); lia).
  eapply ends_bind; [apply (block_in buf p len); done || lia|]. intros d [Hdz Hdb]. rewrite wr_ok by lia. cbn. split; [|done]. split; [|done].
  destruct Ht. split; [done..|]. cbn. rewrite zlen_splice by lia. split; [done|]. split; [by apply bytes_ok_splice|]. unfold TCP_RX_BUF_SIZE. lia.
Qed.

Lemma tcp_ok_state t st ak : tcp_body t → live_state st → word32 ak → tcp_ok (t_set_state (t_set_ack t ak) st).
Proof. intros Ht Hst Hak. split; [auto with net|done]. Qed.
Lemma tcp_match_used dport sport src t : tcp_match dport sport src t = true → t.(t_in_use) = true.
Proof. unfold tcp_match. by destruct (t_in_use t). Qed.
(** A closing segment passes through [TCP_STATE_CLOSE_WAIT] to [TCP_STATE_LAST_ACK]. *)
Lemma fin_stays s k ak : net_ok s → 0 ≤ k < TCP_MAX_SOCKETS → word32 ak →
  let s1 := reply send_raw stack s k (t_set_state (t_set_ack (s.(tcp_sockets).[k]) ak) TCP_STATE_CLOSE_WAIT) TCP_ACK in
  stays s (reply send_raw stack s1 k (t_set_state (s1.(tcp_sockets).[k]) TCP_STATE_LAST_ACK) (Z.lor TCP_FIN TCP_ACK)).
Proof.
  intros Hs Hk Hak s1. destruct (socket_ok s k Hs Hk) as [Ht _].
  destruct (reply_spec s k (t_set_state (t_set_ack (s.(tcp_sockets).[k]) ak) TCP_STATE_CLOSE_WAIT) TCP_ACK) as (Hb1 & Hl1 & sq1 & Hsq1 & E1);
    [apply Hs|done|auto with net|done|]. fold s1 in Hb1, Hl1, E1.
  destruct (reply_spec s1 k (t_set_state (s1.(tcp_sockets).[k]) TCP_STATE_LAST_ACK) (Z.lor TCP_FIN TCP_ACK)) as (Hb2 & Hl2 & sq2 & Hsq2 & E2);
    [done|done|by apply t_set_state_body, socket_body|done|].
  split; [|by etrans]. split; [done|]. rewrite E2, E1, aset_aset. rewrite <- E1 at 1. apply Forall_aset; [apply Hs|]. split; [|done].
  apply t_set_seq_body, Hsq2. apply t_set_state_body. by apply socket_body.
Qed.

Lemma tcp_process_ends s src : net_ok s → word32 src → ends False (stays s) (tcp_process send_raw stack s src buf p len).
Proof.
  intros Hs Hsrc. unfold tcp_process. destruct (Z.ltb_spec len SIZEOF_TCP) as [|Hl]; [by split|]. unfold SIZEOF_TCP in *.
  eapply ends_bind; [apply (field0_in buf p len); done || lia|]. intros sp _. eapply ends_bind; [apply (field_in buf p len); done || lia|]. intros dp _.
  eapply ends_bind; [apply (field_in buf p len); done || lia|]. intros sq _. eapply ends_bind; [apply (rd_in buf p len); done || lia|]. intros doff Hdoff.
  eapply ends_bind; [apply (rd_in buf p len); done || lia|]. intros flags _. set (off := u8 _).
  assert (0 ≤ off < 256) as Hoff by (apply (wrap_range 8); lia). set (n := if len >? off then len - off else 0).
  destruct (first_from _ _ _) as [k|] eqn:Ek; [|by split]. apply first_from_some in Ek as (Hk & Hm & _).
  rewrite (proj1 (nb_tcp _ (proj1 Hs))) in Hk. pose proof (socket_ok s k Hs Hk) as Ht. apply tcp_match_used in Hm.
  cbv zeta. set (t := (tcp_sockets s).[k]) in *. pose proof (u32_word (ntohl sq + 1)) as Hak.
  destruct Ht as [Htb Htl]. specialize (Htl Hm). destruct (t_state t) eqn:Est; try done; try (by split).
  - destruct (has _ _); [|by split]. apply reply_stays; [done|done| |done]. apply (tcp_ok_state (t_addresses _ _ _ _ _)); [|done..].
    apply t_addresses_body; [done|apply Htb|apply Htb|done|apply htons_range].
  - destruct (_ =? _); [|by split]. apply reply_stays; [done|done| |done]. by apply tcp_ok_state.
  - destruct (has _ _); [|by split]. apply put_tcp_stays; [done|]. split; [auto with net|done].
  - destruct (has _ _); [by apply (fin_stays s k)|]. destruct (Z.gtb_spec n 0) as [Hn|]; [|by split].
    assert (off + n ≤ len) as Hon by (unfold n in *; destruct (Z.gtb_spec len off); lia).
    eapply ends_bind; [apply (tcp_take_ends t off n); [split; [done|by rewrite Est]|lia..]|]. intros t' [[Ht' _] Est'].
    apply reply_stays; [done|done| |done]. split; [by apply t_set_ack_body; [|apply u32_word]|]. intros _. cbn. by rewrite Est', Est.
  - destruct (has _ _); [|by split]. apply put_tcp_stays; [done|]. by apply t_closed_ok.
Qed.
End transport.

(** ** ARP and IPv4 *)

Lemma arp_table_add_stays s a m : net_ok s → word32 a → address 6 m → stays s (arp_table_add s a m).
Proof.
  intros Hs Ha Hm. destruct (nb_arp _ (proj1 Hs)) as [Hl Ht].
  assert (∀ v, zlen v = ARP_TABLE_SIZE ∧ Forall arp_ok v → stays s (set_arp s v)) as H.
  { intros v Hv. split; [|done]. split; [by apply body_set_arp; [apply Hs|]|apply Hs]. }
  unfold arp_table_add. destruct (first_from _ _ _) as [k|] eqn:Ek; apply H; rewrite zlen_aset; (split; [done|]); apply Forall_aset; try done.
  split; [done|]. apply first_from_some in Ek as (Hk & _). by apply (Forall_aget arp_ok).
Qed.

Lemma arp_process_ends s frame len : net_ok s → bytes_ok frame → 0 ≤ len ≤ zlen frame →
  ends False (λ r, stays s r.1) (arp_process send_raw stack s frame len).
Proof.
  intros Hs Hf Hl. unfold arp_process. destruct (g_iface s) as [i|]; [|by split].
  change (SIZEOF_ETH + SIZEOF_ARP) with 42. change SIZEOF_ETH with 14. destruct (Z.ltb_spec len 42); [by split|].
  eapply ends_bind; [apply ends_rd_block; [done|lia..]|]. intros m Hm. cbv beta in Hm.
  eapply ends_bind; [apply ends_field; [done|lia..]|]. intros a Ha. eapply ends_bind; [apply ends_field; [done|lia..]|]. intros op _.
  eapply ends_bind; [apply ends_field; [done|lia..]|]. intros target _. pose proof (arp_table_add_stays s a m Hs Ha Hm) as Hst.
  cbv zeta. destruct (_ && _); [|done]. eapply stays_trans; [done|]. apply sends_stays; [apply Hst|].
  apply arp_reply_sends; [apply Hst|done].
Qed.

(** The packet in a frame of [len] bytes claims no more than the buffer holds. *)
Definition ip_fits (frame : list Z) (len : Z) : Prop :=
  34 ≤ len → le_val (sub_list frame 12 2) = htons ETH_TYPE_IPV4 → SIZEOF_ETH + ntohs (le_val (sub_list frame 16 2)) ≤ RX_FRAME.
Lemma field_eq (p : list Z) i n v : field p i n = Ret v → v = le_val (sub_list p i (Z.of_nat n)).
Proof. unfold field, rd_block. destruct (_ && _); [|done]. cbn. by intros [= <-]. Qed.
Lemma ends_field_eq (p : list Z) i (n : nat) : bytes_ok p → 0 ≤ i → i + Z.of_nat n ≤ zlen p →
  ends False (λ v, v = le_val (sub_list p i (Z.of_nat n))) (field p i n).
Proof.
  intros Hp Hi Hl. pose proof (ends_field p i n Hp Hi Hl) as H. destruct (field p i n) as [v| |] eqn:E; [|done..]. by apply field_eq.
Qed.

Lemma ip_receive_ends s frame len : net_ok s → bytes_ok frame → zlen frame = RX_FRAME → 0 ≤ len ≤ RX_FRAME →
  (34 ≤ len → SIZEOF_ETH + ntohs (le_val (sub_list frame 16 2)) ≤ RX_FRAME) →
  ends False (λ r, stays s r.1) (ip_receive send_raw stack s frame len).
Proof.
  intros Hs Hf Hz Hl Hfit. unfold ip_receive. destruct (g_iface s) as [i|]; [|by split]. unfold RX_FRAME in *.
  change (SIZEOF_ETH + SIZEOF_IPV4) with 34. change SIZEOF_ETH with 14 in *. destruct (Z.ltb_spec len 34); [by split|]. specialize (Hfit ltac:(lia)).
  eapply ends_bind; [apply rd_ends; [done|lia]|]. intros v Hv. cbv beta in Hv.
  eapply ends_bind; [apply ends_field_eq; [done|lia..]|]. intros tl Htl.
  cbv beta in Htl. change (14 + 2) with 16 in Htl. change (Z.of_nat 2) with 2 in Htl. rewrite <- Htl in Hfit.
  eapply ends_bind; [apply rd_ends; [done|lia]|]. intros protocol _. eapply ends_bind; [apply ends_field; [done|lia..]|]. intros src Hsrc.
  eapply ends_bind; [apply ends_field; [done|lia..]|]. intros dst _. set (ihl := Z.land v 15 * 4).
  assert (0 ≤ ihl ≤ 60) as Hihl.
  { unfold ihl. change 15 with (Z.ones 4). rewrite Z.land_ones by lia. pose proof (Z.mod_pos_bound v (2 ^ 4)). lia. }
  destruct (Z.ltb_spec (ntohs tl) ihl); [by split|]. destruct (_ && _); [by split|].
  apply (ends_bind _ (stays s)); [|done]. destruct (protocol =? _); [|destruct (protocol =? _); [|destruct (protocol =? _); [|by split]]].
  - apply udp_process_ends; try done; [lia..|]. unfold SIZEOF_UDP, SIZEOF_DHCP. lia.
  - apply tcp_process_ends; try done; lia.
  - apply icmp_process_ends; try done; lia.
Qed.

(** ** IPv6 *)

Lemma nd_cache_add_stays s a m : net_ok s → zlen a = 16 → address 6 m → stays s (nd_cache_add s a m).
Proof.
  intros Hs Ha Hm. destruct (nb_nd _ (proj1 Hs)) as [Hl Ht].
  assert (∀ v, zlen v = ND_CACHE ∧ Forall nd_ok v → stays s (set_nd s v)) as H.
  { intros v Hv. split; [|done]. split; [by apply body_set_nd; [apply Hs|]|apply Hs]. }
  unfold nd_cache_add. destruct (first_from _ _ _) as [k|] eqn:Ek; apply H; rewrite zlen_aset; (split; [done|]); apply Forall_aset; try done.
  split; [done|]. apply first_from_some in Ek as (Hk & _). by apply (Forall_aget nd_ok).
Qed.
Lemma nd_lookup_mac s a m : net_body s → nd_lookup s a = Some m → address 6 m.
Proof.
  intros Hs. unfold nd_lookup. destruct (first_from _ _ _) as [k|] eqn:E; [|done]. intros [= <-].
  apply first_from_some in E as (Hk & _). destruct (Forall_aget nd_ok (nd_tbl s) k); [apply Hs|done..].
Qed.
Lemma ipv6_send_eth_sends s m src dst nxt payload : net_body s → address 6 m → bytes_ok src → bytes_ok dst → 0 ≤ nxt < 256 → bytes_ok payload →
  sends s (ipv6_send_eth send_raw stack s m src dst nxt payload).1.
Proof.
  intros Hs Hm Hsrc Hdst Hn Hp. unfold ipv6_send_eth. destruct (_ || _); [by apply sends_refl|]. cbv zeta. match goal with |- context [if ?b then 255 else 64] => set (hop := if b then 255 else 64) end.
  assert (0 ≤ hop < 256) as Hhop by (unfold hop; case_match; lia). apply eth_send_sends; [done..| |done]. bytes_tac.
Qed.
Lemma with_csum_bytes m cs : bytes_ok m → bytes_ok (with_csum m cs).
Proof. intros Hm. unfold with_csum. bytes_tac. Qed.
Lemma nd_message_bytes i ty fl target opt : iface_ok i → 0 ≤ ty < 256 → 0 ≤ fl < 256 → 0 ≤ opt < 256 → bytes_ok target →
  bytes_ok (nd_message i ty fl target opt).
Proof. intros [[_ Hm] _ _ _ _ _] **. unfold nd_message. bytes_tac. Qed.
Lemma ipv6_mcast_mac_ok a : bytes_ok a → address 6 (ipv6_mcast_mac a).
Proof. intros Ha. split; [done|]. unfold ipv6_mcast_mac. bytes_tac. Qed.
Lemma solicited_bytes a : bytes_ok a → bytes_ok (ipv6_solicited_mcast a).
Proof. intros Ha. unfold ipv6_solicited_mcast. bytes_tac. Qed.
Lemma ndp_send_ns_sends s target : net_body s → bytes_ok target → sends s (ndp_send_ns send_raw stack s target).
Proof.
  intros Hs Ht. unfold ndp_send_ns. destruct (g_iface s) as [i|] eqn:Ei; [|by apply sends_refl].
  pose proof (nb_iface _ Hs i Ei) as Hi. pose proof (solicited_bytes target Ht) as Hm.
  apply ipv6_send_eth_sends; [done|by apply ipv6_mcast_mac_ok|apply Hi|done|done|]. apply with_csum_bytes, nd_message_bytes; done.
Qed.
Lemma ndp_send_na_sends s dst m target : net_body s → bytes_ok dst → address 6 m → bytes_ok target → sends s (ndp_send_na send_raw stack s dst m target).
Proof.
  intros Hs Hd Hm Ht. unfold ndp_send_na. destruct (g_iface s) as [i|] eqn:Ei; [|by apply sends_refl].
  pose proof (nb_iface _ Hs i Ei) as Hi. apply ipv6_send_eth_sends; [done..|apply Hi|done|done|]. apply with_csum_bytes, nd_message_bytes; done.
Qed.

Lemma nd_option_ends fuel buf pay off len want : bytes_ok buf → 0 ≤ pay → 0 ≤ off → pay + len ≤ zlen buf → len ≤ off + Z.of_nat fuel →
  ends False (λ o, ∀ m, o = Some m → address 6 m) (nd_option fuel buf pay off len want).
Proof.
  intros Hb Hp Ho Hl. revert off Ho. induction fuel as [|fuel IH]; intros off Ho Hf; cbn [nd_option]; destruct (Z.leb_spec (off + 2) len); try done; [lia|].
  eapply ends_bind; [apply rd_ends; [done|lia]|]. intros ot _. eapply ends_bind; [apply rd_ends; [done|lia]|]. intros olen Hol. cbv beta in Hol.
  destruct (Z.eqb_spec olen 0); [done|]. cbv zeta. destruct (Z.gtb_spec (off + olen * 8) len); [done|]. destruct (_ && _) eqn:Eo.
  - bool_hyps. eapply ends_bind; [apply ends_rd_block; [done|lia..]|]. intros a Ha. cbn. by intros m [= <-].
  - apply IH; lia.
Qed.

(** ** Waiting

    The clock is read at most [patience] and three times for each frame that is taken
    from the wire, so the number of readings of a poll is bounded by what is [due]. *)

Section waiting.
Context (patience N : nat).

Definition due (s : net_t) : nat := (s.(time) + (patience + 3) * wire_size s)%nat.
Record within (n : nat) (s s' : net_t) : Prop := {
  wi_ok : net_ok s'; wi_iface : is_Some s.(g_iface) → is_Some s'.(g_iface);
  wi_start : s'.(ping_wait).(p_start) = s.(ping_wait).(p_start);
  wi_time : (s.(time) ≤ s'.(time))%nat; wi_wire : (wire_size s' ≤ wire_size s)%nat; wi_due : (due s' ≤ due s + n)%nat }.
Lemma within_trans m n s1 s2 s3 : within m s1 s2 → within n s2 s3 → within (m + n) s1 s3.
Proof. intros [] []. split; [done|auto|congruence|lia..]. Qed.
Lemma within_mono m n s s' : within m s s' → (m ≤ n)%nat → within n s s'.
Proof. intros [] Hn. split; try done. lia. Qed.
Lemma stays_within n s s' : stays s s' → within n s s'.
Proof. intros [Hok [Hi Ht Hw Hst]]. assert (wire_size s' = wire_size s) as E by (unfold wire_size; by rewrite Hw).
  split; try done; try lia. unfold due. rewrite Ht, E. lia.
Qed.

(** Within the first [N] readings of the clock, [patience] readings after a reading its
    time and [ms] milliseconds are over. *)
Definition clock_passes (ms : Z) : Prop :=
  ∀ i j, (i + patience ≤ j ≤ N)%nat → s64 (deadline_in (u64 (clock i)) ms - u64 (clock j)) ≤ 0.

Lemma set_time_within s n : net_ok s → (s.(time) ≤ n)%nat → within (n - s.(time)) s (set_time s n).
Proof.
  intros [Hb Hs] Hn. split; [split; [by apply body_set_time|done]|done|done|done|done|]. unfold due. change (wire_size (set_time s n)) with (wire_size s).
  cbn [set_time time]. lia.
Qed.
Lemma tick_within s : net_ok s → within 1 s (set_time s (S s.(time))).
Proof. intros Hs. eapply within_mono; [by apply set_time_within; [|lia]|lia]. Qed.

Section polling.
Context (poll : net_t → outcome net_t) (depth : nat).
Context (Hpoll : ∀ s, net_ok s → (wire_size s ≤ depth)%nat → (due s ≤ N)%nat → ends False (within 0 s) (poll s)).

Lemma wait_until_ends {A} (found : net_t → option A) fuel s deadline :
  net_ok s → (wire_size s ≤ depth)%nat → (due s + S fuel ≤ N)%nat →
  (∀ j, (s.(time) + fuel ≤ j ≤ N)%nat → s64 (deadline - u64 (clock j)) ≤ 0) →
  ends False (λ r, within (S fuel) s r.1 ∧ ∀ a, r.2 = Some a → found r.1 = Some a) (wait_until clock poll found fuel s deadline).
Proof.
  revert s. induction fuel as [|fuel IH]; intros s Hs Hw Hd Hdl; cbn [wait_until]; unfold timer_get_ticks; pose proof (tick_within s Hs) as Ht.
  - assert (time s ≤ N)%nat by (unfold due in Hd; lia). specialize (Hdl (time s) ltac:(lia)).
    destruct (Z.gtb_spec (s64 (deadline - u64 (clock (time s)))) 0); [lia|]. by split.
  - assert (within (S (S fuel)) s (set_time s (S (time s)))) as Ht' by (eapply within_mono; [done|lia]).
    destruct (_ >? 0); [|by split]. destruct (found _) as [a|] eqn:Ef; [by split; [|intros ? [= <-]]|].
    destruct Ht as [Hok _ _ _ Hws Hdue].
    eapply ends_bind; [apply Hpoll; [done|lia|lia]|]. intros s2 H2. pose proof (within_trans _ _ _ _ _ (tick_within s Hs) H2) as H12.
    destruct H2 as [Hok2 _ _ Ht2 Hw2 Hd2]. cbn [set_time time] in Ht2.
    eapply ends_mono; [apply IH; [done|lia|lia|intros j Hj; apply Hdl; lia]|done|]. intros r [Hr Hf]. split; [|done].
    eapply within_mono; [by eapply within_trans|lia].
Qed.

Lemma ndp_resolve_ends s tgt ms : net_ok s → bytes_ok tgt → (wire_size s ≤ depth)%nat → (due s + (patience + 2) ≤ N)%nat → clock_passes ms →
  ends False (λ r, within (patience + 2) s r.1 ∧ ∀ m, r.2 = Some m → address 6 m) (ndp_resolve send_raw clock stack poll patience s tgt ms).
Proof.
  intros Hs Ht Hw Hd Hc. unfold ndp_resolve. destruct (nd_lookup s tgt) as [m|] eqn:Em.
  { split; [by apply stays_within|]. intros ? [= <-]. by eapply nd_lookup_mac; [apply Hs|]. }
  pose proof (sends_stays _ _ Hs (ndp_send_ns_sends s tgt (proj1 Hs) Ht)) as Hst. set (s1 := ndp_send_ns _ _ _ _) in *.
  pose proof (stays_within 0 _ _ Hst) as H1. pose proof (within_trans _ _ _ _ _ H1 (tick_within s1 (proj1 Hst))) as H2.
  unfold timer_get_ticks. eapply ends_mono; [apply wait_until_ends; [apply H2|..]|done|].
  - destruct H2. lia.
  - destruct H2. lia.
  - cbn [set_time time]. intros j Hj. apply Hc. lia.
  - intros r [Hr Hf]. split; [eapply within_mono; [by eapply within_trans|lia]|]. intros m Hm. specialize (Hf m Hm).
    eapply nd_lookup_mac; [apply (wi_ok _ _ _ Hr)|done].
Qed.

Lemma icmp6_process_ends s src buf pay len :
  net_ok s → bytes_ok src → (wire_size s ≤ depth)%nat → (due s + (patience + 2) ≤ N)%nat → clock_passes 500 →
  bytes_ok buf → 0 ≤ pay → 0 ≤ len → pay + len ≤ zlen buf →
  ends False (within (patience + 2) s) (icmp6_process send_raw clock stack poll patience s src buf pay len).
Proof.
  intros Hs Hsrc Hw Hd Hc Hb Hp Hl Hin. unfold icmp6_process. destruct (g_iface s) as [i|] eqn:Ei; [|by apply stays_within].
  destruct (Z.ltb_spec len 8); [by apply stays_within|]. rewrite <- (Z.add_0_r pay) at 1.
  eapply ends_bind; [by apply (rd_in buf pay len); done || lia|]. intros ty _. destruct (ty =? ICMP6_ECHO_REP).
  { destruct (negb _); [by apply stays_within|]. eapply ends_bind; [by apply (be16_in buf pay len); done || lia|]. intros rid _.
    eapply ends_bind; [by apply (be16_in buf pay len); done || lia|]. intros rseq _. apply stays_within. destruct (_ && _); [|done].
    split; [|done]. split; [by apply body_set_ping6, Hs|apply Hs]. }
  destruct (ty =? ICMP6_ECHO_REQ); [|destruct (_ && _) eqn:E1; [|clear E1; destruct (_ && _) eqn:E1; [|by apply stays_within]]].
  - set (n := if len >? 128 then 128 else len). assert (8 ≤ n ≤ len) as Hn by (unfold n; destruct (Z.gtb_spec len 128); lia).
    rewrite <- (Z.add_0_r pay). eapply ends_bind; [by apply (block_in buf pay len); done || lia|]. intros m [_ Hm]. cbv zeta.
    set (m1 := with_csum _ _). assert (bytes_ok m1) as Hm1 by (apply with_csum_bytes; bytes_tac).
    apply (ends_bind _ (λ r, within (patience + 2) s r.1 ∧ ∀ m, r.2 = Some m → address 6 m)).
    + destruct (nd_lookup s src) as [dm|] eqn:Em; [|by apply ndp_resolve_ends]. split; [by apply stays_within|].
      intros ? [= <-]. by eapply nd_lookup_mac; [apply Hs|].
    + intros [s1 [dm|]] [H1 Hdm]; [|done]. destruct (wi_iface _ _ _ H1) as [i1 Ei1]; [by eexists|]. cbn [fst snd] in *. rewrite Ei1.
      cbn [ends]. rewrite <- (Nat.add_0_r (patience + 2)). eapply within_trans; [done|]. pose proof (wi_ok _ _ _ H1) as Hok1. apply stays_within, sends_stays; [done|].
      apply ipv6_send_eth_sends; [apply Hok1|by apply Hdm|apply (nb_iface _ (proj1 Hok1) i1 Ei1)|done|done|done].
  - bool_hyps. eapply ends_bind; [by apply (block_in buf pay len); done || lia|]. intros tgt [_ Htgt]. destruct (negb _); [by apply stays_within|].
    eapply ends_bind; [by apply nd_option_ends; done || lia|]. intros [m|] Hm; apply stays_within; [|done]. apply sends_stays; [done|].
    apply ndp_send_na_sends; [apply Hs|done|by apply Hm|done].
  - bool_hyps. eapply ends_bind; [by apply (block_in buf pay len); done || lia|]. intros tgt [Htl Htgt].
    eapply ends_bind; [by apply nd_option_ends; done || lia|]. intros [m|] Hm; apply stays_within; [|done]. apply nd_cache_add_stays; [done|done|by apply Hm].
Qed.

Lemma ipv6_receive_ends s frame len :
  net_ok s → (wire_size s ≤ depth)%nat → (due s + (patience + 2) ≤ N)%nat → clock_passes 500 →
  bytes_ok frame → 0 ≤ len ≤ zlen frame →
  ends False (λ r, within (patience + 2) s r.1) (ipv6_receive send_raw clock stack poll patience s frame len).
Proof.
  intros Hs Hw Hd Hc Hb Hl. unfold ipv6_receive. destruct (g_iface s) as [i|]; [|by apply stays_within].
  change (SIZEOF_ETH + 40) with 54. change SIZEOF_ETH with 14. destruct (Z.ltb_spec len 54); [by apply stays_within|].
  eapply ends_bind; [apply rd_ends; [done|lia]|]. intros v _. destruct (negb _); [by apply stays_within|].
  apply (ends_bind _ (λ n, 0 ≤ n)).
  { unfold be16, dns_read_u16. eapply ends_bind; [apply rd_ends; [done|lia]|]. intros a Ha. cbv beta in Ha.
    eapply ends_bind; [apply rd_ends; [done|lia]|]. intros b Hb'. cbv beta in Hb'. cbn. by apply (wrap_range 16). }
  intros plen Hpl. destruct (Z.gtb_spec (54 + plen) len); [by apply stays_within|].
  eapply ends_bind; [apply ends_rd_block; [done|lia..]|]. intros dst _. eapply ends_bind; [apply ends_rd_block; [done|lia..]|]. intros src [_ Hsrc].
  destruct (negb _); [by apply stays_within|]. eapply ends_bind; [apply rd_ends; [done|lia]|]. intros nxt _. destruct (negb _); [by apply stays_within|].
  apply (ends_bind _ (within (patience + 2) s)); [|done]. apply icmp6_process_ends; done || lia.
Qed.

Lemma net_process_frame_ends s frame len :
  net_ok s → (wire_size s ≤ depth)%nat → (due s + (patience + 2) ≤ N)%nat → clock_passes 500 →
  address RX_FRAME frame → 0 ≤ len ≤ RX_FRAME → ip_fits frame len →
  ends False (λ r, within (patience + 2) s r.1) (net_process_frame send_raw clock stack poll patience s frame len).
Proof.
  intros Hs Hw Hd Hc [Hz Hb] Hl Hfit. unfold net_process_frame. unfold SIZEOF_ETH. destruct (Z.ltb_spec len 14); [by apply stays_within|].
  assert (∀ r : net_t * Z, stays s r.1 → within (patience + 2) s r.1) as Hst by (intros r; apply stays_within).
  unfold RX_FRAME in *. eapply ends_bind; [apply ends_field_eq; [done|lia..]|]. intros t ->. cbv zeta. change (Z.of_nat 2) with 2.
  set (t := le_val (sub_list frame 12 2)) in *. assert (0 ≤ t < 65536) as Ht.
  { unfold t. pose proof (le_val_range (sub_list frame 12 2)) as Hr. unfold zlen in *.
    pose proof (zlen_sub_list frame 12 2) as E. unfold zlen in E. rewrite E in Hr by lia. apply Hr. by apply Forall_take, Forall_drop. }
  destruct (_ =? ETH_TYPE_ARP); [eapply ends_mono; [apply arp_process_ends; done || lia|done|apply Hst]|].
  destruct (Z.eqb_spec (ntohs t) ETH_TYPE_IPV4) as [E|].
  - eapply ends_mono; [apply ip_receive_ends; done || (unfold RX_FRAME; lia) || idtac|done|apply Hst]. intros H34. apply Hfit; [done|].
    fold t. rewrite <- E. symmetry. apply (ntohs_htons t Ht).
  - destruct (_ =? ETH_TYPE_IPV6); [by apply ipv6_receive_ends; done || lia|]. by apply stays_within.
Qed.
End polling.

(** ** The card's poll function *)

Lemma ip_fits_splice buf f : zlen buf = RX_FRAME → in_ok f → ip_fits (splice buf 0 f) (zlen f).
Proof.
  intros Hb (_ & Hl & Hf) H34. rewrite !sub_list_splice by (rewrite ?Hb; lia). by apply Hf.
Qed.

Lemma deliver_frames_ends poll depth iter s buf :
  (∀ s, net_ok s → (wire_size s ≤ depth)%nat → (due s ≤ N)%nat → ends False (within 0 s) (poll s)) → clock_passes 500 →
  net_ok s → (wire_size s ≤ S depth)%nat → (due s ≤ N)%nat → address RX_FRAME buf →
  ends False (within 0 s) (deliver_frames (net_process_frame send_raw clock stack poll patience) iter s buf).
Proof.
  intros Hpoll Hc. revert s buf. induction iter as [|iter IH]; intros s buf Hs Hw Hd [Hz Hby]; cbn [deliver_frames]; [by apply stays_within|].
  pose proof (nb_wire _ (proj1 Hs)) as Hin. destruct (wire s) as [|o rest] eqn:Ew; [by apply stays_within|].
  apply Forall_cons in Hin as [Ho Hrest]. assert (wire_size s = S (length rest)) as Es by (unfold wire_size; by rewrite Ew).
  set (s1 := set_wire s rest). assert (wire_size s1 = length rest) as Es1 by done.
  assert (due s1 + (patience + 3) = due s)%nat as Ed by (unfold due; rewrite Es, Es1; change (time s1) with (time s); lia).
  assert (net_ok s1) as Hok1 by (split; [by apply body_set_wire; [apply Hs|]|apply Hs]).
  assert (∀ n s2, within n s1 s2 → (n ≤ patience + 3)%nat → within 0 s s2) as Hws by (intros n s2 [] Hn; split; done || lia).
  destruct o as [f|]; [|apply (Hws O); [by apply stays_within|lia]]. destruct (Ho f eq_refl) as (Hfb & Hfl & Hff). pose proof (zlen_nonneg f).
  rewrite wr_ok by lia. cbn [mbind outcome_bind].
  assert (address RX_FRAME (splice buf 0 f)) as Hbuf' by (split; [by rewrite zlen_splice by lia|by apply bytes_ok_splice]).
  eapply ends_bind; [apply (net_process_frame_ends poll depth Hpoll s1); [done|lia|lia|done|done|lia|by apply ip_fits_splice]|].
  intros r Hr. cbv beta in Hr. pose proof (Hws _ _ Hr ltac:(lia)) as H2. destruct (id Hr) as [Hok _ _ _ Hw2 Hd2].
  eapply ends_mono; [apply IH; [done|lia|lia|done]|done|]. intros s3 H3. exact (within_trans _ _ _ _ _ H2 H3).
Qed.

(** A poll returns, and leaves a well-formed state. *)
Lemma net_poll_ends depth s : address RX_FRAME rx_stack → clock_passes 500 → net_ok s → (wire_size s ≤ depth)%nat → (due s ≤ N)%nat →
  ends False (within 0 s) (net_poll send_raw clock stack rx_stack depth patience s).
Proof.
  intros Hrx Hc. revert s. induction depth as [|depth IH]; intros s Hs Hw Hd; cbn [net_poll].
  - unfold wire_size in Hw. destruct (wire s); [by apply stays_within|cbn in Hw; lia].
  - by apply (deliver_frames_ends _ depth).
Qed.

(** ** Pings *)

(** A call that waits: [n] readings of its own. *)
Record finishes (n : nat) (s s' : net_t) : Prop := {
  fi_ok : net_ok s'; fi_iface : is_Some s.(g_iface) → is_Some s'.(g_iface);
  fi_wire : (wire_size s' ≤ wire_size s)%nat; fi_due : (due s' ≤ due s + n)%nat }.
Lemma within_finishes m n s s' : within m s s' → (m ≤ n)%nat → finishes n s s'.
Proof. intros [] Hn. split; try done. lia. Qed.
Lemma finishes_trans m n k s1 s2 s3 : finishes m s1 s2 → finishes n s2 s3 → (m + n ≤ k)%nat → finishes k s1 s3.
Proof. intros [] [] Hk. split; [done|auto|lia..]. Qed.

Lemma ping_ok s w : net_ok s → finishes 0 s (set_ping s w).
Proof. intros [Hb Hs]. split; [split; [by apply body_set_ping|done]|done|done|apply Nat.le_add_r]. Qed.
Lemma ping6_ok s w : net_ok s → finishes 0 s (set_ping6 s w).
Proof. intros [Hb Hs]. split; [split; [by apply body_set_ping6|done]|done|done|apply Nat.le_add_r]. Qed.
Lemma ping_seq_ok s w : net_ok s → finishes 0 s (set_ping_seq s w).
Proof. intros [Hb Hs]. split; [split; [by apply body_set_ping_seq|done]|done|done|apply Nat.le_add_r]. Qed.
Lemma ping6_seq_ok s w : net_ok s → finishes 0 s (set_ping6_seq s w).
Proof. intros [Hb Hs]. split; [split; [by apply body_set_ping6_seq|done]|done|done|apply Nat.le_add_r]. Qed.
Lemma tick_ok s : net_ok s → finishes 1 s (set_time s (S s.(time))).
Proof. intros Hs. by eapply within_finishes; [apply tick_within|]. Qed.

Context (W : Z) (HW : 2000 ≤ W) (Hclock : ∀ ms, 0 ≤ ms ≤ W → clock_passes ms).
Section pings.
Context (poll : net_t → outcome net_t) (depth : nat).
Context (Hpoll : ∀ s, net_ok s → (wire_size s ≤ depth)%nat → (due s ≤ N)%nat → ends False (within 0 s) (poll s)).

Lemma icmp_wait_arp_ends s hop k ms : net_ok s → (wire_size s ≤ depth)%nat → (due s + S patience ≤ N)%nat → 0 ≤ ms ≤ W → (k < s.(time))%nat →
  ends False (λ r, within (S patience) s r.1) (icmp_wait_arp send_raw clock stack poll patience s hop (deadline_in (u64 (clock k)) ms)).
Proof.
  intros Hs Hw Hd Hms Hk. pose proof (sends_stays _ _ Hs (arp_request_sends s hop (proj1 Hs))) as Hst.
  pose proof (stays_within 0 _ _ Hst) as H1. unfold icmp_wait_arp. set (s1 := (arp_request _ _ _ _).1) in *.
  eapply ends_bind; [apply (wait_until_ends poll depth Hpoll); [apply H1|destruct H1; lia|destruct H1; lia|]|].
  - intros j Hj. apply (Hclock ms Hms). destruct H1. lia.
  - intros r [Hr _]. cbn. exact (within_trans _ _ _ _ _ H1 Hr).
Qed.
Lemma net_wait_arp_ends s a ms : net_ok s → (wire_size s ≤ depth)%nat → (due s + (patience + 2) ≤ N)%nat → 0 ≤ ms ≤ W →
  ends False (λ r, within (patience + 2) s r.1) (net_wait_arp_ipv4 send_raw clock stack poll patience s a ms).
Proof.
  intros Hs Hw Hd Hms. unfold net_wait_arp_ipv4. destruct (g_iface s); [|by apply stays_within]. unfold timer_get_ticks.
  set (s0 := set_time s (S (time s))) in *. pose proof (tick_within s Hs) as H0. fold s0 in H0.
  pose proof (sends_stays _ _ (wi_ok _ _ _ H0) (arp_request_sends s0 (ip_next_hop s a) (proj1 (wi_ok _ _ _ H0)))) as Hst.
  pose proof (within_trans _ _ _ _ _ H0 (stays_within 0 _ _ Hst)) as H1. set (s1 := (arp_request _ _ s0 _).1) in *.
  eapply ends_mono; [apply (icmp_wait_arp_ends s1 _ (time s) ms); [apply H1|destruct H1; lia|destruct H1; lia|done|]|done|].
  - destruct Hst as [_ [_ Ht _ _]]. rewrite Ht. cbn. lia.
  - intros r Hr. eapply within_mono; [exact (within_trans _ _ _ _ _ H1 Hr)|lia].
Qed.

Lemma ping_loop_ends s d k ms : net_ok s → (wire_size s ≤ depth)%nat → (due s + (patience + 2) ≤ N)%nat →
  0 ≤ ms ≤ W → (k < s.(time))%nat → d = deadline_in (u64 (clock k)) ms →
  ends False (λ r, finishes (patience + 2) s r.1.1) (ping_loop clock poll patience s d).
Proof.
  intros Hs Hw Hd Hms Hk ->. unfold ping_loop. eapply ends_bind; [apply (wait_until_ends poll depth Hpoll); [done..|lia|]|].
  - intros j Hj. apply (Hclock ms Hms). lia.
  - intros [s1 [u|]] [H1 _]; pose proof (within_finishes _ (S patience) _ _ H1 ltac:(lia)) as F1; cbn [fst] in *; unfold timer_get_ticks; cbn.
    + pose proof (tick_ok s1 (fi_ok _ _ _ F1)) as F2. eapply finishes_trans; [exact F1|eapply finishes_trans; [exact F2|apply ping_ok, F2|reflexivity]|lia].
    + eapply finishes_trans; [exact F1|apply ping_ok, F1|lia].
Qed.
Lemma ping6_loop_ends s d k ms : net_ok s → (wire_size s ≤ depth)%nat → (due s + (patience + 2) ≤ N)%nat →
  0 ≤ ms ≤ W → (k < s.(time))%nat → d = deadline_in (u64 (clock k)) ms →
  ends False (λ r, finishes (patience + 2) s r.1.1) (ping6_loop clock poll patience s d).
Proof.
  intros Hs Hw Hd Hms Hk ->. unfold ping6_loop. eapply ends_bind; [apply (wait_until_ends poll depth Hpoll); [done..|lia|]|].
  - intros j Hj. apply (Hclock ms Hms). lia.
  - intros [s1 [u|]] [H1 _]; pose proof (within_finishes _ (S patience) _ _ H1 ltac:(lia)) as F1; cbn [fst] in *; unfold timer_get_ticks; cbn.
    + pose proof (tick_ok s1 (fi_ok _ _ _ F1)) as F2. eapply finishes_trans; [exact F1|eapply finishes_trans; [exact F2|apply ping6_ok, F2|reflexivity]|lia].
    + eapply finishes_trans; [exact F1|apply ping6_ok, F1|lia].
Qed.

Lemma deadline_now k : u64 (clock k) = deadline_in (u64 (clock k)) 0.
Proof. unfold deadline_in. change (u64 (0 * TIMER_FREQ_HZ) / 1000) with 0. rewrite Z.add_0_r. symmetry. apply wrap_id, wrap_range. lia. Qed.
Lemma payload_ok : bytes_ok payload32.
Proof. apply Forall_forall. intros b Hb. apply elem_of_seqZ in Hb. lia. Qed.
Lemma stays_finishes s s' : stays s s' → finishes 0 s s'.
Proof. intros Hs. eapply within_finishes; [by apply (stays_within 0)|done]. Qed.

Lemma idle_finishes n s : net_ok s → finishes n s s.
Proof. intros Hs. split; done || lia. Qed.

(** The second half of [icmp_ping], behind the resolution of the next hop. *)
Lemma echo_ends s dst m w ms k : net_ok s → bytes_ok m → (wire_size s ≤ depth)%nat → (due s + (patience + 3) ≤ N)%nat → 0 ≤ ms ≤ W →
  (k < s.(time))%nat → w.(p_start) = u64 (clock k) →
  ends False (λ r, finishes (patience + 3) s r.1.1)
    (let '(s, snd) := ip_send send_raw stack (set_ping s w) dst IP_PROTO_ICMP m in
     r ← (if snd <? 0 then s ← poll s; Ret (ip_send send_raw stack s dst IP_PROTO_ICMP m) else Ret (s, snd));
     let '(s, snd) := r in
     if snd <? 0 then Ret (set_ping s (ping_stop s.(ping_wait)), None, - EIO) else
     let '(s, now) := timer_get_ticks clock s in
     let d := deadline_in now ms in
     let d := if d <? s.(ping_wait).(p_start) then s.(ping_wait).(p_start) else d in
     ping_loop clock poll patience s d).
Proof.
  intros Hs Hm Hw Hd Hms Hk Hst. pose proof (ping_ok s w Hs) as F0. set (s0 := set_ping s w) in *.
  pose proof (sends_stays _ _ (fi_ok _ _ _ F0) (ip_send_sends s0 dst IP_PROTO_ICMP m (proj1 (fi_ok _ _ _ F0)) ltac:(done) Hm)) as H1.
  destruct (ip_send send_raw stack s0 dst IP_PROTO_ICMP m) as [s1 snd1]. cbn [fst] in H1.
  apply (ends_bind _ (λ r, within 0 s0 r.1)).
  - destruct (snd1 <? 0); [|by apply stays_within]. pose proof (stays_within 0 _ _ H1) as W1.
    eapply ends_bind; [apply Hpoll; [apply H1|destruct F0, W1; lia|destruct F0, W1; lia]|]. intros s2 H2. cbn [ends].
    pose proof (wi_ok _ _ _ H2) as Hok2. pose proof (sends_stays _ _ Hok2 (ip_send_sends s2 dst IP_PROTO_ICMP m (proj1 Hok2) ltac:(done) Hm)) as H3.
    exact (within_trans _ _ _ _ _ W1 (within_trans _ _ _ _ _ H2 (stays_within 0 _ _ H3))).
  - intros [s2 snd2] H2. cbn [fst] in H2. pose proof (within_finishes _ 0 _ _ H2 ltac:(done)) as F2. pose proof (fi_ok _ _ _ F2) as Hok2.
    destruct (snd2 <? 0); [cbn; eapply finishes_trans; [exact F0|eapply finishes_trans; [exact F2|by apply ping_ok|reflexivity]|lia]|].
    unfold timer_get_ticks. cbv zeta. pose proof (tick_ok s2 Hok2) as F3. set (s3 := set_time s2 (S (time s2))) in *.
    assert (p_start (ping_wait s3) = u64 (clock k)) as -> by (rewrite <- Hst; apply (wi_start _ _ _ H2)).
    pose proof (wi_time _ _ _ H2) as Ht2. change (time s0) with (time s) in Ht2.
    assert (finishes 1 s s3) as F03 by (eapply finishes_trans; [exact F0|eapply finishes_trans; [exact F2|exact F3|reflexivity]|lia]).
    assert (∃ k' ms', (k' < time s3)%nat ∧ 0 ≤ ms' ≤ W ∧
      (if deadline_in (u64 (clock (time s2))) ms <? u64 (clock k) then u64 (clock k) else deadline_in (u64 (clock (time s2))) ms) = deadline_in (u64 (clock k')) ms')
      as (k' & ms' & Hk' & Hms' & Ed).
    { destruct (_ <? _); [exists k, 0; rewrite <- deadline_now|exists (time s2), ms]; cbn [s3 set_time time]; (split; [lia|]); (split; [lia|done]). }
    eapply ends_mono; [apply (ping_loop_ends s3 _ k' ms'); [apply F03|destruct F03; lia|destruct F03; lia|done|done|done]|done|].
    intros r Fr. cbv beta in Fr. eapply finishes_trans; [exact F03|exact Fr|lia].
Qed.

Lemma icmp_ping_ends s dst ms out : net_ok s → (wire_size s ≤ depth)%nat → (due s + (2 * patience + 6) ≤ N)%nat → 0 ≤ ms ≤ W →
  ends False (λ r, finishes (2 * patience + 6) s r.1.1) (icmp_ping send_raw clock stack poll patience s dst ms out).
Proof.
  intros Hs Hw Hd Hms. unfold icmp_ping. destruct (negb out); [by apply idle_finishes|].
  destruct (g_iface s) as [i|]; [|by apply idle_finishes]. destruct (negb _); [by apply idle_finishes|].
  unfold timer_get_ticks at 1. cbv zeta. pose proof (tick_ok s Hs) as F0. set (s0 := set_time s (S (time s))) in *.
  eapply ends_bind; [apply (icmp_wait_arp_ends s0 _ (time s) 2000); [apply F0|destruct F0; lia|destruct F0; lia|lia|cbn; lia]|].
  intros [s1 rc] H1. cbn [fst] in H1. pose proof (within_finishes _ (S patience) _ _ H1 ltac:(lia)) as F1.
  assert (finishes (patience + 2) s s1) as F01 by (eapply finishes_trans; [exact F0|exact F1|lia]).
  assert (∀ s2, finishes 0 s1 s2 → finishes (2 * patience + 6) s s2) as Hfin by (intros s2 F; eapply finishes_trans; [exact F01|exact F|lia]).
  pose proof (idle_finishes 0 s1 (fi_ok _ _ _ F1)) as Frefl.
  destruct (rc <? 0); [by apply Hfin|]. destruct (_ || _); [by apply Hfin|]. pose proof (fi_ok _ _ _ F1) as Hok1.
  set (m := [ICMP_ECHO; 0] ++ _). assert (bytes_ok m) as Hm.
  { pose proof payload_ok. subst m. generalize payload32 H. intros l Hl. bytes_tac. }
  pose proof (ping_seq_ok s1 (u16 (ping_seq_global s1 + 1)) Hok1) as F2. set (s2 := set_ping_seq s1 _) in *.
  unfold timer_get_ticks at 1. pose proof (tick_ok s2 (fi_ok _ _ _ F2)) as F3. set (s3 := set_time s2 (S (time s2))) in *.
  assert (finishes (patience + 3) s s3) as F03 by (eapply finishes_trans; [exact F01|eapply finishes_trans; [exact F2|exact F3|reflexivity]|lia]).
  eapply ends_mono; [apply (echo_ends s3 dst m _ ms (time s2)); [apply F03|done|destruct F03; lia|destruct F03; lia|done|cbn; lia|done]|done|].
  intros r Fr. cbv beta in Fr. eapply finishes_trans; [exact F03|exact Fr|lia].
Qed.

Lemma ping6_mac_ends s i dst : net_ok s → g_iface s = Some i → (wire_size s ≤ depth)%nat → (due s + (patience + 2) ≤ N)%nat → bytes_ok dst →
  ends False (λ r, within (patience + 2) s r.1.1 ∧ ∀ m, r.1.2 = Some m → address 6 m) (ping6_mac send_raw clock stack poll patience s i dst).
Proof.
  intros Hs Hi Hw Hd Hdst. unfold ping6_mac. destruct (ipv6_is_linklocal dst).
  - eapply ends_bind; [apply (ndp_resolve_ends poll depth Hpoll s dst 2000); [done..|apply Hclock; lia]|].
    intros [s1 [m|]] [H1 Hm]; cbn [ends fst snd] in *; [|by split]. split; [done|]. intros ? [= <-]. by apply Hm.
  - eapply ends_bind; [apply (net_wait_arp_ends s _ 2000); [done..|lia]|]. intros [s1 rc] H1. cbn [fst] in H1.
    destruct (rc <? 0); [by split|]. destruct (wi_iface _ _ _ H1) as [i1 Ei]; [by eexists|]. rewrite Ei.
    destruct (arp_lookup _ _) as [m|] eqn:Em; (split; [done|]); [|done]. intros ? [= <-]. eapply arp_lookup_mac; [apply (wi_ok _ _ _ H1)|done].
Qed.

Lemma icmp6_ping_ends s dst ms out : net_ok s → (wire_size s ≤ depth)%nat → (due s + (2 * patience + 6) ≤ N)%nat → 0 ≤ ms ≤ W → bytes_ok dst →
  ends False (λ r, finishes (2 * patience + 6) s r.1.1) (icmp6_ping send_raw clock stack poll patience s dst ms out).
Proof.
  intros Hs Hw Hd Hms Hdst. unfold icmp6_ping. destruct (g_iface s) as [i|] eqn:Ei; [|by apply idle_finishes].
  destruct (negb _); [by apply idle_finishes|]. destruct (ipv6_is_loopback dst); [by apply idle_finishes|]. destruct (_ || _); [by apply idle_finishes|].
  eapply ends_bind; [apply (ping6_mac_ends s i dst); done || lia|]. intros [[s1 [dm|]] rc] [H1 Hdm]; cbn [fst snd] in *; pose proof (within_finishes _ (patience + 2) _ _ H1 ltac:(lia)) as F1;
    [|cbn; eapply finishes_trans; [exact F1|apply (idle_finishes 0), F1|lia]].
  cbv zeta. change (g_iface (set_ping6_seq s1 (u16 (ping6_seq_g s1 + 1)))) with (g_iface s1).
  pose proof (fi_ok _ _ _ F1) as Hok1. destruct (fi_iface _ _ _ F1) as [i1 Ei1]; [by eexists|]. rewrite Ei1.
  set (m := with_csum _ _). assert (bytes_ok m) as Hm.
  { apply with_csum_bytes. pose proof payload_ok as Hp. generalize dependent payload32. intros l. intros. bytes_tac. }
  pose proof (ping6_seq_ok s1 (u16 (ping6_seq_g s1 + 1)) Hok1) as F2. set (s2 := set_ping6_seq s1 _) in *.
  unfold timer_get_ticks at 1. pose proof (tick_ok s2 (fi_ok _ _ _ F2)) as F3. set (s3 := set_time s2 (S (time s2))) in *.
  match goal with |- context [set_ping6 s3 ?w] => pose proof (ping6_ok s3 w (fi_ok _ _ _ F3)) as F4; set (s4 := set_ping6 s3 w) in * end.
  assert (finishes (patience + 3) s s4) as F04.
  { eapply finishes_trans; [exact F1|eapply finishes_trans; [exact F2|eapply finishes_trans; [exact F3|exact F4|reflexivity]|reflexivity]|lia]. }
  pose proof (nb_iface _ (proj1 Hok1) i1 Ei1) as Hi1. pose proof (fi_ok _ _ _ F4) as Hok4.
  pose proof (stays_finishes _ _ (sends_stays _ _ Hok4 (ipv6_send_eth_sends s4 dm (ipv6_link_local i1) dst IP6_NXT_ICMP6 m (proj1 Hok4)
    (Hdm dm eq_refl) (proj2 (io_v6 _ Hi1)) Hdst ltac:(done) Hm))) as F5.
  destruct (ipv6_send_eth _ _ _ _ _ _ _ _) as [s5 snd]. cbn [fst] in F5.
  assert (finishes (patience + 3) s s5) as F05 by (eapply finishes_trans; [exact F04|exact F5|lia]).
  destruct (snd <? 0); [cbn; eapply finishes_trans; [exact F05|apply ping6_ok, F5|lia]|].
  unfold timer_get_ticks. pose proof (tick_ok s5 (fi_ok _ _ _ F5)) as F6. set (s6 := set_time s5 (S (time s5))) in *.
  assert (finishes (patience + 4) s s6) as F06 by (eapply finishes_trans; [exact F05|exact F6|lia]).
  eapply ends_mono; [apply (ping6_loop_ends s6 _ (time s5) ms); [apply F06|destruct F06; lia|destruct F06; lia|done|cbn; lia|done]|done|].
  intros r Fr. cbv beta in Fr. eapply finishes_trans; [exact F06|exact Fr|lia].
Qed.
End pings.
End waiting.
End proofs.

(** * Histories

    The calls of the clients, the frames that arrive, and the polls of the main loop. *)

Inductive net_op :=
| Set_interface (i : option net_interface_t) | Bind (port : Z) (cb : option udp_recv_callback_t) | Unbind (port : Z)
| Send_to (dst dport sport : Z) (data : list Z) | Discover | Create | Connect (sock a port : Z) | Listen (sock port : Z)
| Send (sock : Z) (data : list Z) | Recv (sock max_len : Z) | Close (sock : Z)
| Ping (dst ms : Z) | Ping6 (dst : list Z) (ms : Z) | Wait_arp (a ms : Z)
| Arrive (fs : list (option (list Z))) | Poll.

Section run.
Context (send_raw : nat → list Z → Z) (clock : nat → Z) (stack rx_stack : list Z) (depth patience : nat).
Let poll := net_poll send_raw clock stack rx_stack depth patience.

Definition net_step (s : net_t) (o : net_op) : outcome net_t :=
  match o with
  | Set_interface i => Ret (net_set_interface s i)
  | Bind port cb => Ret (udp_bind s port cb).1
  | Unbind port => Ret (udp_unbind s port).1
  | Send_to dst dport sport data => Ret (udp_send send_raw stack s dst dport sport data).1
  | Discover => Ret (dhcp_discover send_raw stack s).1
  | Create => Ret (tcp_socket_create s).1
  | Connect sock a port => Ret (tcp_connect send_raw stack s sock a port).1
  | Listen sock port => Ret (tcp_listen s sock port).1
  | Send sock data => r ← tcp_send send_raw stack s sock data; Ret r.1
  | Recv sock max_len => r ← tcp_recv s sock max_len; Ret r.1.1
  | Close sock => Ret (tcp_close send_raw stack s sock).1
  | Ping dst ms => r ← icmp_ping send_raw clock stack poll patience s dst ms true; Ret r.1.1
  | Ping6 dst ms => r ← icmp6_ping send_raw clock stack poll patience s dst ms true; Ret r.1.1
  | Wait_arp a ms => r ← net_wait_arp_ipv4 send_raw clock stack poll patience s a ms; Ret r.1
  | Arrive fs => Ret (set_wire s (s.(wire) ++ fs))
  | Poll => poll s
  end.
Fixpoint net_run (s : net_t) (os : list net_op) : outcome net_t :=
  match os with [] => Ret s | o :: os => s ← net_step s o; net_run s os end.
End run.

(** Arguments of their types, waits of at most [W] milliseconds, and frames that the
    receive buffer holds. *)
Definition op_ok (W : Z) (o : net_op) : Prop :=
  match o with
  | Set_interface i => ∀ j, i = Some j → iface_ok j
  | Bind port _ => word16 port
  | Unbind _ | Discover | Create | Close _ | Poll => True
  | Send_to _ _ _ data => bytes_ok data
  | Connect _ a port => word32 a ∧ word16 port
  | Listen _ port => word16 port
  | Send _ data => bytes_ok data
  | Recv _ max_len => 0 ≤ max_len
  | Ping _ ms => 0 ≤ ms ≤ W
  | Ping6 dst ms => bytes_ok dst ∧ 0 ≤ ms ≤ W
  | Wait_arp _ ms => 0 ≤ ms ≤ W
  | Arrive fs => Forall (λ o, ∀ f, o = Some f → in_ok f) fs
  end.
(** What arrives at the card, and the readings of the clock that a call can cause. *)
Definition op_frames (o : net_op) : nat := match o with Arrive fs => length fs | _ => O end.
Definition op_cost (patience : nat) (o : net_op) : nat :=
  match o with
  | Ping _ _ | Ping6 _ _ => 2 * patience + 6
  | Wait_arp _ _ => patience + 2
  | Arrive fs => (patience + 3) * length fs
  | _ => O
  end.
Definition total_frames (os : list net_op) : nat := sum_list_with op_frames os.
Definition total_cost (patience : nat) (os : list net_op) : nat := sum_list_with (op_cost patience) os.

(** The static variables of the stack before [net_init]. *)
Definition net_zero : net_t :=
  {| g_iface := None; arp_table := replicate 64 inhabitant; udp_sockets := replicate 32 inhabitant; tcp_sockets := replicate 16 tcp_zero;
     ip_id_counter := 1; ping_wait := {| p_active := false; p_id := 0; p_seq := 0; p_target := 0; p_replied := false; p_start := 0 |};
     ping_seq_global := 0; ping6_wait := {| p_active := false; p_id := 0; p_seq := 0; p_target := zeros 16; p_replied := false; p_start := 0 |};
     ping6_seq_g := 0; nd_tbl := replicate 24 inhabitant; dhcp_done := false; dns_rx := dns_rx0; inbox := []; sent := []; time := 0; wire := [] |}.

Lemma net_zero_ok : net_ok (net_init net_zero).
Proof.
  assert (Forall tcp_ok (replicate (Z.to_nat TCP_MAX_SOCKETS) tcp_zero)) as Ht.
  { apply Forall_replicate. split; [apply tcp_zero_body|done]. }
  assert (address 6 (zeros 6)) as Hm by (split; [done|apply bytes_replicate; lia]).
  split; [|exact Ht]. split; cbn [net_init net_zero set_iface set_tcp set_udp set_arp g_iface arp_table udp_sockets tcp_sockets ip_id_counter nd_tbl dns_rx sent wire];
    try done.
  - split; [done|]. apply Forall_replicate. split; done.
  - split; [done|]. apply Forall_replicate. done.
  - split; [done|]. eapply Forall_impl; [exact Ht|]. intros t. apply proj1.
  - split; [done|]. apply Forall_replicate. split; done.
  - split; [done| |done]. apply Forall_replicate. lia.
Qed.

Lemma wire_arrive s fs : wire_size (set_wire s (s.(wire) ++ fs)) = (wire_size s + length fs)%nat.
Proof. unfold wire_size. cbn [set_wire wire]. apply length_app. Qed.

Section runs.
Context (send_raw : nat → list Z → Z) (clock : nat → Z) (stack rx_stack : list Z) (depth patience N : nat) (W : Z).
Context (Hstack : address 1514 stack) (Hrx : address RX_FRAME rx_stack) (HW : 2000 ≤ W).
Context (Hclock : ∀ ms, 0 ≤ ms ≤ W → clock_passes clock patience N ms).
Let poll := net_poll send_raw clock stack rx_stack depth patience.

Lemma net_step_ends s o : net_ok s → op_ok W o → (wire_size s + op_frames o ≤ depth)%nat → (due patience s + op_cost patience o ≤ N)%nat →
  ends False (λ s', net_ok s' ∧ (wire_size s' ≤ wire_size s + op_frames o)%nat ∧ (due patience s' ≤ due patience s + op_cost patience o)%nat)
    (net_step send_raw clock stack rx_stack depth patience s o).
Proof.
  intros Hs Ho Hw Hd.
  assert (∀ n s', finishes patience n s s' → (n ≤ op_cost patience o)%nat →
    net_ok s' ∧ (wire_size s' ≤ wire_size s + op_frames o)%nat ∧ (due patience s' ≤ due patience s + op_cost patience o)%nat) as Hfin.
  { intros n s' [] Hn. split; [done|lia]. }
  assert (∀ s', stays s s' → net_ok s' ∧ (wire_size s' ≤ wire_size s + op_frames o)%nat ∧ (due patience s' ≤ due patience s + op_cost patience o)%nat) as Hst.
  { intros s' H. eapply (Hfin O); [by apply stays_finishes|lia]. }
  assert (∀ s, net_ok s → (wire_size s ≤ depth)%nat → (due patience s ≤ N)%nat → ends False (within patience 0 s) (poll s)) as Hpoll.
  { intros s0 H0 Hw0 Hd0. apply (net_poll_ends send_raw clock stack rx_stack Hstack patience N depth s0); try done. apply Hclock. lia. }
  destruct o as [i|port cb|port|dst dport sport data| | |sock a port|sock port|sock data|sock max_len|sock|dst ms|dst ms|a ms|fs|]; cbn [net_step op_ok op_cost op_frames] in *.
  - destruct Hs as [Hb Hs]. split; [split; [by apply body_set_iface|done]|]. split; apply Nat.le_add_r.
  - by apply Hst, udp_bind_stays.
  - by apply Hst, udp_unbind_stays.
  - by apply Hst, udp_send_stays.
  - by apply Hst, dhcp_discover_stays.
  - by apply Hst, tcp_socket_create_stays.
  - destruct Ho. by apply Hst, tcp_connect_stays.
  - by apply Hst, tcp_listen_stays.
  - eapply ends_bind; [by apply tcp_send_ends|]. intros r Hr. by apply Hst.
  - eapply ends_bind; [by apply tcp_recv_ends|]. intros r Hr. by apply Hst.
  - by apply Hst, tcp_close_stays.
  - eapply ends_bind; [apply (icmp_ping_ends send_raw clock stack Hstack patience N W HW Hclock poll depth Hpoll); done || lia|]. intros r Hr. eapply Hfin; [exact Hr|lia].
  - destruct Ho. eapply ends_bind; [apply (icmp6_ping_ends send_raw clock stack Hstack patience N W HW Hclock poll depth Hpoll); done || lia|]. intros r Hr. eapply Hfin; [exact Hr|lia].
  - eapply ends_bind; [apply (net_wait_arp_ends send_raw clock stack Hstack patience N W Hclock poll depth Hpoll); done || lia|]. intros r Hr.
    eapply Hfin; [eapply within_finishes; [exact Hr|reflexivity]|lia].
  - split; [|split].
    + destruct Hs as [Hb Hs]. split; [|done]. apply body_set_wire; [done|]. apply Forall_app. split; [apply Hb|done].
    + rewrite wire_arrive. done.
    + unfold due. rewrite wire_arrive. cbn [set_wire time]. lia.
  - eapply ends_mono; [apply Hpoll; done || lia|done|]. intros s' H'. eapply Hfin; [eapply within_finishes; [exact H'|reflexivity]|lia].
Qed.

Lemma net_run_ends os s : net_ok s → Forall (op_ok W) os → (wire_size s + total_frames os ≤ depth)%nat → (due patience s + total_cost patience os ≤ N)%nat →
  ends False net_ok (net_run send_raw clock stack rx_stack depth patience s os).
Proof.
  intros Hs Hos. revert s Hs. induction Hos as [|o os Ho Hos IH]; intros s Hs Hw Hd; [done|]. unfold total_frames, total_cost in *. cbn [net_run sum_list_with] in *.
  eapply ends_bind; [apply net_step_ends; [done|done|lia|lia]|]. intros s' (Hok & Hw' & Hd'). apply IH; [done|lia|lia].
Qed.
End runs.

(** C15: from [net_init] on, while no IPv4 packet claims to be longer than the receive
    buffer and the clock moves on where the code waits for it, every history of calls,
    arriving frames and polls returns and leaves the stack well-formed: no handler reads or writes outside a buffer or a table,
    every wait ends, and no socket is ever in a state behind [tcp_close]. Otherwise
    the frames may hold anything; a longer claim is believed ([tcp_overread]). *)
Theorem network_run_inv send_raw clock stack rx_stack depth patience W os :
  address 1514 stack → address RX_FRAME rx_stack → 2000 ≤ W → Forall (op_ok W) os → (total_frames os ≤ depth)%nat →
  (∀ ms, 0 ≤ ms ≤ W → clock_passes clock patience (total_cost patience os) ms) →
  ∃ s, net_run send_raw clock stack rx_stack depth patience (net_init net_zero) os = Ret s ∧ net_ok s.
Proof.
  intros Hst Hrx HW Hos Hf Hc.
  pose proof (net_run_ends send_raw clock stack rx_stack depth patience (total_cost patience os) W Hst Hrx HW Hc os (net_init net_zero) net_zero_ok Hos) as H.
  specialize (H Hf). unfold due in H. change (time (net_init net_zero)) with O in H. change (wire_size (net_init net_zero)) with O in H.
  rewrite Nat.mul_0_r in H. specialize (H ltac:(done)). destruct (net_run _ _ _ _ _ _ _ _) as [s| |]; [by exists s|done..].
Qed.

Definition demo_iface : net_interface_t :=
  {| mac := [2; 0; 0; 0; 0; 1]; ip := IP4 10 0 2 15; netmask := IP4 255 255 255 0; gateway := IP4 10 0 2 2; dns4 := 0; is_up := true;
     can_send := true; ipv6_link_local := linklocal_from_mac [2; 0; 0; 0; 0; 1] |}.
(** A request for our hardware address from the gateway. *)
Definition demo_arp : list Z :=
  replicate 6 0xFF ++ [2; 0; 0; 0; 0; 2] ++ [8; 6; 0; 1; 8; 0; 6; 4; 0; 1] ++ [2; 0; 0; 0; 0; 2] ++ [10; 0; 2; 2] ++ zeros 6 ++ [10; 0; 2; 15].
Definition demo_ops : list net_op :=
  [Set_interface (Some demo_iface); Arrive [Some demo_arp; None]; Poll; Create; Connect 0 (IP4 10 0 2 2) 80; Bind 53 (Some (cb_client 1));
   Send_to (IP4 10 0 2 2) 53 53 [1; 2; 3]; Ping (IP4 10 0 2 2) 1000; Close 0].
Lemma demo_iface_ok : iface_ok demo_iface.
Proof. split; try done; (split; [done|]); repeat constructor; done. Qed.
Lemma demo_arp_ok : in_ok demo_arp.
Proof. split; [repeat constructor; done|]. split; [done|]. intros H. vm_compute in H. discriminate H. Qed.
Lemma demo_clock N ms : 0 ≤ ms ≤ 2000 → (N ≤ 1000)%nat → clock_passes (λ i, 1000 * Z.of_nat i) 20 N ms.
Proof.
  intros Hms HN i j Hij. unfold deadline_in. rewrite (wrap_id 64 (1000 * _)) by lia. rewrite (wrap_id 64 (1000 * _)) by lia.
  rewrite (wrap_id 64 (ms * _)) by (unfold TIMER_FREQ_HZ; lia). unfold TIMER_FREQ_HZ.
  assert (0 ≤ ms * 1000 / 1000 ≤ 2000) as Hd by (rewrite Z.div_mul by lia; lia). rewrite wrap_id by lia.
  set (d := 1000 * Z.of_nat i + ms * 1000 / 1000 - 1000 * Z.of_nat j). assert (- 2 ^ 62 ≤ d ≤ 0) as Hdd by (unfold d; lia).
  unfold swrap, wrap. destruct (decide (d = 0)) as [->|]; [done|]. change (2 ^ (64 - 1)) with (2 ^ 63).
  assert (d mod 2 ^ 64 = d + 2 ^ 64) as -> by (symmetry; apply (Z.mod_unique_pos _ _ (-1)); lia).
  destruct (Z.ltb_spec (d + 2 ^ 64) (2 ^ 63)); lia.
Qed.
Lemma network_run_inv_witness :
  ∃ s, net_run (λ _ f, zlen f) (λ i, 1000 * Z.of_nat i) (replicate 1514 7) (replicate 2048 7) 4 20 (net_init net_zero) demo_ops = Ret s ∧ net_ok s.
Proof.
  apply (network_run_inv _ _ _ _ _ _ 2000).
  - split; [done|]. apply bytes_replicate. lia.
  - split; [done|]. apply bytes_replicate. lia.
  - done.
  - repeat apply Forall_cons_2; try apply Forall_nil_2; cbn [op_ok]; try done.
    + intros ? [= <-]. apply demo_iface_ok.
    + intros f [= <-]. apply demo_arp_ok.
  - by apply Nat.leb_le.
  - intros ms Hms. apply demo_clock; [done|]. by apply Nat.leb_le.
Defined.
