(* ===== verification/NetTraffic.v ===== *)
(** * What the network stack makes of the traffic ([src/kernel/net/lwip_port.c])

    Datagrams that arrive as they were sent, the byte queue of a connection, and what
    the handlers believe about the length of a packet. *)

From stdpp Require Import base numbers list.
From S2P Require Import Prelude CMem CArray Buf Dns NetWire Net NetInv.
Open Scope Z_scope.

(** ** Fields of a packet *)

Lemma field_at p i n v : 0 ≤ v < 256 ^ Z.of_nat n → 0 ≤ i → i + Z.of_nat n ≤ zlen p → sub_list p i (Z.of_nat n) = le_bytes n v → field p i n = Ret v.
Proof. intros Hv Hi Hl E. unfold field. rewrite rd_block_ok by lia. cbn. rewrite E. by rewrite le_val_bytes. Qed.
Lemma rd_value p i v : 0 ≤ i < zlen p → p.[i] = v → rd p i = Ret v.
Proof. intros Hi <-. by apply rd_ok. Qed.

Lemma list6 {A} (l : list A) : zlen l = 6 → ∃ a b c d e f, l = [a; b; c; d; e; f].
Proof.
  intros Hl. unfold zlen in Hl. do 6 (destruct l as [|? l]; [cbn in Hl; lia|]). destruct l; [|cbn in Hl; lia]. by do 6 eexists.
Qed.

(** The headers in front of the payload of an IPv4 packet in a frame. *)
Definition ip_frame (dm sm : list Z) (total id protocol checksum src dst : Z) (payload : list Z) : list Z :=
  dm ++ sm ++ le_bytes 2 (htons ETH_TYPE_IPV4) ++ ipv4_header total id protocol checksum src dst ++ payload.
Lemma zlen_ip_frame dm sm total id protocol checksum src dst payload : zlen dm = 6 → zlen sm = 6 →
  zlen (ip_frame dm sm total id protocol checksum src dst payload) = 34 + zlen payload.
Proof. intros Hd Hs. unfold ip_frame, ipv4_header. zlens. lia. Qed.

Section traffic.
Context (send_raw : nat → list Z → Z) (clock : nat → Z) (stack : list Z) (poll : net_t → outcome net_t) (patience : nat).
Local Notation process_frame := (net_process_frame send_raw clock stack poll patience).

(** The dispatch of an IPv4 packet to the handler of its protocol. *)
Definition ip_handler (s : net_t) (protocol src : Z) (buf : list Z) (p len : Z) : outcome net_t :=
  if protocol =? IP_PROTO_UDP then udp_process s src buf p len
  else if protocol =? IP_PROTO_TCP then tcp_process send_raw stack s src buf p len
  else if protocol =? IP_PROTO_ICMP then icmp_process send_raw stack s src buf p len
  else Ret s.

Lemma process_ip s i dm sm total id protocol checksum src dst payload len :
  g_iface s = Some i → zlen dm = 6 → zlen sm = 6 → 20 ≤ total < 2 ^ 16 → word32 src → word32 dst → dst = i.(ip) ∨ dst = 0xFFFFFFFF → 34 ≤ len →
  let p := ip_frame dm sm total id protocol checksum src dst payload in
  process_frame s p len = s' ← ip_handler s protocol src p 34 (total - 20); Ret (s', 0).
Proof.
  intros Hi Hd Hs Ht Hsrc Hdst Hus Hl p. pose proof (zlen_ip_frame dm sm total id protocol checksum src dst payload Hd Hs) as Hz. fold p in Hz.
  pose proof (zlen_nonneg payload). apply list6 in Hd as (d0 & d1 & d2 & d3 & d4 & d5 & ->). apply list6 in Hs as (s0 & s1 & s2 & s3 & s4 & s5 & ->).
  unfold word32 in *. unfold net_process_frame. unfold SIZEOF_ETH at 1. rewrite (proj2 (Z.ltb_ge len 14)) by lia.
  rewrite (field_at p 12 2 (htons ETH_TYPE_IPV4)) by (done || lia). cbn [mbind outcome_bind]. cbv zeta.
  change (ntohs (htons ETH_TYPE_IPV4) =? ETH_TYPE_ARP) with false. change (ntohs (htons ETH_TYPE_IPV4) =? ETH_TYPE_IPV4) with true. cbv iota.
  unfold ip_receive. rewrite Hi. unfold SIZEOF_ETH, SIZEOF_IPV4. rewrite (proj2 (Z.ltb_ge len (14 + 20))) by lia.
  rewrite (rd_value p 14 0x45) by (done || lia). cbn [mbind outcome_bind].
  rewrite (field_at p (14 + 2) 2 (htons total)) by (done || lia || apply htons_range). cbn [mbind outcome_bind].
  rewrite (rd_value p (14 + 9) protocol) by (done || lia). cbn [mbind outcome_bind].
  rewrite (field_at p (14 + 12) 4 src) by (done || lia). cbn [mbind outcome_bind].
  rewrite (field_at p (14 + 16) 4 dst) by (done || lia). cbn [mbind outcome_bind]. cbv zeta.
  rewrite ntohs_htons by lia. change (Z.land 0x45 0x0F * 4) with 20. rewrite (proj2 (Z.ltb_ge total 20)) by lia.
  assert (negb (dst =? ip i) && negb (dst =? 0xFFFFFFFF) = false) as ->.
  { destruct Hus as [->| ->]; rewrite ?Z.eqb_refl; [done|by rewrite andb_comm]. }
  done.
Qed.

Lemma sub_list_payload dm sm total id protocol checksum src dst payload i n : zlen dm = 6 → zlen sm = 6 → 0 ≤ i →
  sub_list (ip_frame dm sm total id protocol checksum src dst payload) (34 + i) n = sub_list payload i n.
Proof.
  intros Hd Hs Hi. apply list6 in Hd as (d0 & d1 & d2 & d3 & d4 & d5 & ->). apply list6 in Hs as (s0 & s1 & s2 & s3 & s4 & s5 & ->).
  unfold sub_list. by replace (Z.to_nat (34 + i)) with (34 + Z.to_nat i)%nat by lia.
Qed.

(** ** Sending *)

(** A frame of the card: padded, with the bytes that the buffer of [eth_send] held. *)
Definition padded (f : list Z) : list Z := f ++ take (60 - length f) (drop (length f) stack).
Lemma eth_send_eq s i dm ty payload : g_iface s = Some i → can_send i && is_up i = true → zlen dm = 6 → zlen i.(mac) = 6 → zlen payload ≤ ETH_MTU →
  ∃ rc, eth_send send_raw stack s dm ty payload = (set_sent s (s.(sent) ++ [padded (dm ++ i.(mac) ++ le_bytes 2 (htons ty) ++ payload)]), rc).
Proof.
  intros Hi Hup Hd Hm Hl. unfold eth_send. rewrite Hi, Hup. cbn [negb]. rewrite gtb_le by done. cbv zeta.
  set (frame := dm ++ _). assert (zlen frame = 14 + zlen payload) as Hf by (unfold frame; zlens; lia).
  eexists. do 4 f_equal. unfold padded, SIZEOF_ETH, zlen in *. destruct (Z.ltb_spec (14 + Z.of_nat (length payload)) 60).
  - rewrite take_app. rewrite take_ge by lia. by replace (Z.to_nat 60 - length frame)%nat with (60 - length frame)%nat by lia.
  - rewrite take_app. rewrite take_ge by lia. replace (60 - length frame)%nat with O by lia.
    by replace (Z.to_nat _ - length frame)%nat with O by lia.
Qed.
Lemma ip_send_eq s i m dst protocol payload : g_iface s = Some i → can_send i && is_up i = true → zlen i.(mac) = 6 → zlen m = 6 →
  arp_lookup s (ip_next_hop s dst) = Some m → zlen payload ≤ 1480 →
  ∃ rc checksum, ip_send send_raw stack s dst protocol payload =
    (set_sent (set_ip_id s (u16 (s.(ip_id_counter) + 1)))
       (s.(sent) ++ [padded (ip_frame m i.(mac) (20 + zlen payload) s.(ip_id_counter) protocol checksum i.(ip) dst payload)]), rc).
Proof.
  intros Hi Hup Hmac Hm Ha Hl. unfold ip_send. rewrite Hi. change (ETH_MTU - SIZEOF_IPV4) with 1480. rewrite gtb_le by done. cbv zeta. rewrite Ha.
  pose proof (zlen_nonneg payload). unfold SIZEOF_IPV4. rewrite (wrap_id 16 (20 + zlen payload)) by lia. set (ck := ip_checksum _).
  destruct (eth_send_eq (set_ip_id s (u16 (ip_id_counter s + 1))) i m ETH_TYPE_IPV4
    (ipv4_header (20 + zlen payload) (ip_id_counter s) protocol ck (ip i) dst ++ payload)) as [rc E]; try done.
  { unfold ipv4_header, ETH_MTU. zlens. lia. }
  rewrite E. by exists rc, ck.
Qed.

(** The frame in the buffer of the receiver: more payload behind it. *)
Lemma frame_in_buffer buf dm sm total id protocol checksum src dst payload : let f := padded (ip_frame dm sm total id protocol checksum src dst payload) in
  ∃ tl, splice buf 0 f = ip_frame dm sm total id protocol checksum src dst (payload ++ tl).
Proof.
  unfold padded, splice. cbn [Z.to_nat take app]. rewrite take_0. cbn [app]. unfold ip_frame at 1.
  eexists. unfold ip_frame. by rewrite <- !app_assoc.
Qed.

Lemma udp_process_delivers s src p sport dport k u n data : word16 sport → word16 dport → 42 + zlen data ≤ zlen p →
  sub_list p 34 2 = le_bytes 2 (htons sport) → sub_list p 36 2 = le_bytes 2 (htons dport) → sub_list p 42 (zlen data) = data →
  first_from (udp_bound dport) s.(udp_sockets) 0 = Some k → s.(udp_sockets).[k] = u → u.(u_callback) = Some (cb_client n) →
  udp_process s src p 34 (8 + zlen data) = Ret (set_inbox s (s.(inbox) ++ [(n, src, sport, data)])).
Proof.
  intros Hsp Hdp Hz H34 H36 H42 Hk Hu Hcb. pose proof (zlen_nonneg data). unfold word16 in *. unfold udp_process, SIZEOF_UDP.
  rewrite (proj2 (Z.ltb_ge (8 + zlen data) 8)) by lia.
  rewrite (field_at p 34 2 (htons sport)) by (done || lia || apply htons_range). cbn [mbind outcome_bind].
  rewrite (field_at p (34 + 2) 2 (htons dport)) by (done || lia || apply htons_range). cbn [mbind outcome_bind].
  rewrite !ntohs_htons by done. rewrite Hk, Hu, Hcb. cbn [udp_callback]. replace (8 + zlen data - 8) with (zlen data) by lia.
  rewrite rd_block_ok by lia. cbn [mbind outcome_bind]. change (34 + 8) with 42. by rewrite H42.
Qed.
End traffic.

(** C29: a datagram that is sent on one machine and received on another is delivered to
    the socket bound to its port exactly as it was sent, with the address and the port of
    the sender, whatever the buffers held before; this holds up to the largest datagram,
    of 1472 bytes, and also for those that are padded to the smallest frame. *)
Theorem udp_roundtrip send_raw clock stack poll patience s i m dst dport sport data s' i' k n buf :
  g_iface s = Some i → can_send i && is_up i = true → iface_ok i → zlen m = 6 → arp_lookup s (ip_next_hop s dst) = Some m →
  word32 dst → word16 dport → word16 sport → zlen data ≤ 1472 →
  g_iface s' = Some i' → ip i' = dst → first_from (udp_bound dport) (udp_sockets s') 0 = Some k →
  u_callback ((udp_sockets s').[k]) = Some (cb_client n) → zlen buf = RX_FRAME →
  ∃ f, (udp_send send_raw stack s dst dport sport data).1.(sent) = s.(sent) ++ [f] ∧
    net_process_frame send_raw clock stack poll patience s' (splice buf 0 f) (zlen f) =
      Ret (set_inbox s' (inbox s' ++ [(n, ip i, sport, data)]), 0).
Proof.
  intros Hi Hup Hiok Hm Ha Hdst Hdp Hsp Hl Hi' Hip Hk Hcb Hb. pose proof (zlen_nonneg data).
  set (payload := udp_header sport dport (8 + zlen data) ++ data). assert (zlen payload = 8 + zlen data) as Hp by (unfold payload, udp_header; zlens; lia).
  destruct Hiok as [[Hmac _] Hsrc _ _ _ _].
  destruct (ip_send_eq send_raw stack s i m dst IP_PROTO_UDP payload Hi Hup Hmac Hm Ha ltac:(lia)) as (rc & ck & E).
  unfold udp_send. change (ETH_MTU - SIZEOF_IPV4 - SIZEOF_UDP) with 1472. rewrite gtb_le by done. unfold SIZEOF_UDP. rewrite (wrap_id 16 (8 + zlen data)) by lia.
  fold payload. rewrite E. eexists. split; [reflexivity|].
  destruct (frame_in_buffer stack buf m (mac i) (20 + zlen payload) (ip_id_counter s) IP_PROTO_UDP ck (ip i) dst payload) as [tl Etl].
  set (f := padded _ _) in *. assert (zlen (ip_frame m (mac i) (20 + zlen payload) (ip_id_counter s) IP_PROTO_UDP ck (ip i) dst payload) ≤ zlen f) as Hf.
  { unfold f, padded. rewrite zlen_app. pose proof (zlen_nonneg (take (60 - length (ip_frame m (mac i) (20 + zlen payload) (ip_id_counter s) IP_PROTO_UDP ck (ip i) dst payload)) (drop (length (ip_frame m (mac i) (20 + zlen payload) (ip_id_counter s) IP_PROTO_UDP ck (ip i) dst payload)) stack))). lia. }
  rewrite zlen_ip_frame in Hf by done. rewrite Etl.
  rewrite (process_ip send_raw clock stack poll patience s' i') by (done || lia || (by left)).
  set (p := ip_frame _ _ _ _ _ _ _ _ _). assert (zlen p = 34 + (zlen payload + zlen tl)) as Hz by (unfold p; rewrite zlen_ip_frame, zlen_app by done; done).
  pose proof (zlen_nonneg tl). replace (20 + zlen payload - 20) with (8 + zlen data) by lia.
  change (ip_handler send_raw stack s' IP_PROTO_UDP (ip i) p 34 (8 + zlen data)) with (udp_process s' (ip i) p 34 (8 + zlen data)).
  assert (∀ j n, 0 ≤ j → sub_list p (34 + j) n = sub_list (payload ++ tl) j n) as Hsub by (intros; by apply sub_list_payload).
  rewrite (udp_process_delivers s' (ip i) p sport dport k ((udp_sockets s').[k]) n data); try done; [lia|..].
  - by etrans; [exact (Hsub 0 2 ltac:(done))|].
  - by etrans; [exact (Hsub 2 2 ltac:(done))|].
  - etrans; [exact (Hsub 8 (zlen data) ltac:(done))|]. unfold sub_list, payload, zlen. rewrite Nat2Z.id. change (take (length data) (data ++ tl) = data). by rewrite take_app_length.
Qed.

(** ** Packets that claim to be longer than their frame *)

Lemma splice_frame buf f : splice buf 0 f = f ++ drop (length f) buf.
Proof. unfold splice. change (take (Z.to_nat 0) buf) with (@nil Z). cbn [app]. by replace (Z.to_nat (0 + zlen f)) with (length f) by (unfold zlen; lia). Qed.

(** An echo request whose IPv4 header claims [n] bytes of ICMP message, up to 512, is
    answered with [n] bytes although the frame ends before: the bytes of the answer
    behind position [zlen f] are those that the receive buffer held behind the frame. *)
Theorem icmp_echo_leaks send_raw clock stack poll patience s i m dm sm id ck src code c1 c2 tail n buf :
  let f := ip_frame dm sm (20 + n) id IP_PROTO_ICMP ck src (ip i) ([ICMP_ECHO; code; c1; c2] ++ tail) in
  g_iface s = Some i → can_send i && is_up i = true → iface_ok i → zlen m = 6 → arp_lookup s (ip_next_hop s src) = Some m →
  zlen dm = 6 → zlen sm = 6 → word32 src → 8 ≤ n ≤ 512 → zlen f < 34 + n → zlen buf = RX_FRAME →
  ∃ s' reply, net_process_frame send_raw clock stack poll patience s (splice buf 0 f) (zlen f) = Ret (s', 0) ∧
    sent s' = sent s ++ [reply] ∧ sub_list reply (zlen f) (34 + n - zlen f) = sub_list buf (zlen f) (34 + n - zlen f).
Proof.
  intros f Hi Hup Hiok Hm Ha Hd Hs Hsrc Hn Hf Hb. unfold RX_FRAME in Hb. pose proof (zlen_nonneg tail) as Htl. destruct Hiok as [[Hmac _] Hip _ _ _ _].
  assert (zlen f = 38 + zlen tail) as Hz by (unfold f; rewrite zlen_ip_frame, zlen_app by done; change (zlen [_; _; _; _]) with 4; lia).
  rewrite splice_frame. set (D := drop (length f) buf). assert (zlen D = 2048 - zlen f) as HD by (unfold D, zlen in *; rewrite length_drop; lia).
  assert (f ++ D = ip_frame dm sm (20 + n) id IP_PROTO_ICMP ck src (ip i) ([ICMP_ECHO; code; c1; c2] ++ tail ++ D)) as E by (unfold f, ip_frame; by rewrite <- !app_assoc).
  rewrite E, (process_ip send_raw clock stack poll patience s i) by (done || lia || (by left)). set (p := ip_frame _ _ _ _ _ _ _ _ _).
  assert (zlen p = 2048) as Hzp by (unfold p; rewrite <- E, zlen_app; lia). replace (20 + n - 20) with n by lia.
  change (ip_handler send_raw stack s IP_PROTO_ICMP src p 34 n) with (icmp_process send_raw stack s src p 34 n).
  assert (∀ j n, 0 ≤ j → sub_list p (34 + j) n = sub_list ([ICMP_ECHO; code; c1; c2] ++ tail ++ D) j n) as Hsub by (intros; by apply sub_list_payload).
  assert (p.[34] = ICMP_ECHO) as Hty.
  { pose proof (aget_sub_list p 34 1 0 ltac:(lia) ltac:(lia) ltac:(lia)) as Eg. pose proof (Hsub 0 1 ltac:(lia)) as E1. change (34 + 0) with 34 in *. rewrite <- Eg. by rewrite E1. }
  unfold icmp_process. rewrite (proj2 (Z.ltb_ge n 8)), bool_decide_eq_false_2 by (lia || congruence). cbn [orb].
  rewrite (rd_value p 34 ICMP_ECHO) by (done || lia). cbn [mbind outcome_bind]. change (ICMP_ECHO =? ICMP_ECHOREPLY) with false.
  change (ICMP_ECHO =? ICMP_ECHO) with true. cbv iota zeta. rewrite (gtb_le n 512) by lia. rewrite rd_block_ok by lia. cbn [mbind outcome_bind].
  rewrite (Hsub 4 (n - 4)) by lia. change (sub_list ([ICMP_ECHO; code; c1; c2] ++ tail ++ D) 4 (n - 4)) with (take (Z.to_nat (n - 4)) (tail ++ D)).
  set (rest := take _ (tail ++ D)). assert (zlen rest = n - 4) as Hr by (unfold rest; rewrite zlen_take_le; rewrite ?zlen_app; lia).
  set (answer := [ICMP_ECHOREPLY; 0] ++ _). assert (zlen answer = n) as Hans by (unfold answer; zlens; lia).
  destruct (ip_send_eq send_raw stack s i m src IP_PROTO_ICMP answer Hi Hup Hmac Hm Ha ltac:(lia)) as (rc & ck' & ->). cbn [fst].
  eexists _, _. split; [reflexivity|]. split; [reflexivity|].
  set (reply := ip_frame m _ _ _ _ _ _ _ _). assert (zlen reply = 34 + n) as Hrep by (unfold reply; rewrite zlen_ip_frame by done; lia).
  assert (sub_list (padded stack reply) (zlen f) (34 + n - zlen f) = sub_list reply (zlen f) (34 + n - zlen f)) as ->.
  { unfold sub_list, padded, zlen in *. rewrite drop_app_le by lia. by rewrite take_app_le by (rewrite length_drop; lia). }
  replace (zlen f) with (34 + (4 + zlen tail)) at 1 by lia. unfold reply. rewrite sub_list_payload by (done || lia).
  unfold sub_list, D in *. replace (Z.to_nat (4 + zlen tail)) with (4 + Z.to_nat (zlen tail))%nat by lia.
  change (drop (4 + Z.to_nat (zlen tail)) answer) with (drop (Z.to_nat (zlen tail)) rest). unfold rest. rewrite skipn_firstn_comm.
  replace (drop (Z.to_nat (zlen tail)) (tail ++ drop (length f) buf)) with (drop (length f) buf) by (unfold zlen; by rewrite Nat2Z.id, drop_app_length).
  rewrite take_take. unfold zlen in *. f_equal; [lia|]. by rewrite Nat2Z.id.
Qed.

(** ** Connections *)

(** A segment behind [pre] in a buffer, with [tl] behind it. *)
Definition segment (sport dport sq ak flags : Z) (data : list Z) : list Z := tcp_header sport dport sq ak flags ++ data.
Lemma segment_fields sport dport sq ak flags data pre tl : word16 sport → word16 dport → word32 sq →
  let p := pre ++ segment sport dport sq ak flags data ++ tl in let o := zlen pre in
  field p o 2 = Ret (htons sport) ∧ field p (o + 2) 2 = Ret (htons dport) ∧ field p (o + 4) 4 = Ret (htonl sq) ∧ rd p (o + 12) = Ret 80 ∧
  rd p (o + 13) = Ret flags ∧ (∀ n, 0 ≤ n ≤ zlen data + zlen tl → rd_block p (o + 20) n = Ret (take (Z.to_nat n) (data ++ tl))).
Proof.
  intros Hsp Hdp Hsq p o. set (q := segment sport dport sq ak flags data ++ tl). assert (zlen q = 20 + zlen data + zlen tl) as Hq.
  { unfold q, segment, tcp_header. rewrite !zlen_app, !zlen_le_bytes. change (zlen [_; _]) with 2. change (zlen [_; _; _; _]) with 4. lia. }
  assert (zlen p = o + zlen q) as Hz by (unfold p; by rewrite zlen_app). pose proof (zlen_nonneg data). pose proof (zlen_nonneg tl).
  assert (0 ≤ o) as Ho by apply zlen_nonneg.
  assert (∀ j n, 0 ≤ j → sub_list p (o + j) n = sub_list q j n) as Hsub.
  { intros j n Hj. unfold sub_list, p. f_equal. rewrite Z2Nat.inj_add by lia. unfold o, zlen. by rewrite Nat2Z.id, drop_app_add. }
  assert (∀ j v, 0 ≤ j < 20 → sub_list q j 1 = [v] → rd p (o + j) = Ret v) as Hrd.
  { intros j v Hj E. apply rd_value; [lia|]. pose proof (aget_sub_list p (o + j) 1 0 ltac:(lia) ltac:(lia) ltac:(lia)) as Eg.
    rewrite Z.add_0_r in Eg. rewrite <- Eg, Hsub by lia. by rewrite E. }
  split_and!.
  - apply field_at; [apply htons_range|lia|lia|]. rewrite <- (Z.add_0_r o), Hsub by lia. done.
  - apply field_at; [apply htons_range|lia|lia|]. by rewrite Hsub by lia.
  - apply field_at; [apply htonl_range|lia|lia|]. by rewrite Hsub by lia.
  - by apply Hrd; [lia|].
  - by apply Hrd; [lia|].
  - intros n Hn. rewrite rd_block_ok by lia. by rewrite Hsub by lia.
Qed.

Section connection.
Context (send_raw : nat → list Z → Z) (stack : list Z).

(** A segment without [TCP_FIN] that finds an established socket. *)
Lemma established_step s src sport dport sq ak flags data k len pre tl : word16 sport → word16 dport → word32 sq → has flags TCP_FIN = false →
  first_from (tcp_match dport sport src) s.(tcp_sockets) 0 = Some k → (s.(tcp_sockets).[k]).(t_state) = TCP_STATE_ESTABLISHED → 20 ≤ len →
  let p := pre ++ segment sport dport sq ak flags data ++ tl in let t := s.(tcp_sockets).[k] in
  let n := len - 20 in let copy := Z.min n (TCP_RX_BUF_SIZE - t.(rx_len)) in
  0 < n → 0 ≤ t.(rx_len) ≤ TCP_RX_BUF_SIZE → zlen t.(rx_buf) = TCP_RX_BUF_SIZE →
  tcp_process send_raw stack s src p (zlen pre) len =
    if zlen data + zlen tl <? copy then Fault else
    Ret (reply send_raw stack s k
      (t_set_ack (t_set_rx t (splice t.(rx_buf) t.(rx_len) (take (Z.to_nat copy) (data ++ tl))) (t.(rx_len) + copy)) (u32 (sq + u32 n))) TCP_ACK).
Proof.
  intros Hsp Hdp Hsq Hfin Hk Hst Hl p t n copy Hn Hrx Hz. unfold TCP_RX_BUF_SIZE in *.
  destruct (segment_fields sport dport sq ak flags data pre tl Hsp Hdp Hsq) as (E0 & E2 & E4 & E12 & E13 & Ed). fold p in E0, E2, E4, E12, E13, Ed.
  unfold tcp_process. rewrite (proj2 (Z.ltb_ge len SIZEOF_TCP)) by (unfold SIZEOF_TCP; lia). rewrite E0, E2, E4, E12, E13. cbn [mbind outcome_bind]. cbv zeta.
  change (u8 (Z.shiftr 80 4 * 4)) with 20. rewrite !ntohs_htons, ntohl_htonl by done. rewrite Hk. fold t in Hst |- *. rewrite Hst, Hfin.
  rewrite (gtb_gt len 20) by lia. fold n. rewrite (gtb_gt n 0) by lia. unfold TCP_RX_BUF_SIZE. rewrite (wrap_id 64) by lia.
  assert ((if n <? 8192 - rx_len t then n else 8192 - rx_len t) = copy) as -> by (unfold copy; destruct (Z.ltb_spec n (8192 - rx_len t)); lia).
  pose proof (zlen_nonneg data). pose proof (zlen_nonneg tl). destruct (Z.gtb_spec copy 0) as [Hc|Hc].
  - destruct (Z.ltb_spec (zlen data + zlen tl) copy) as [Ho|Ho].
    + unfold rd_block. rewrite (proj2 (andb_false_iff _ _)); [done|right].
      assert (zlen p = zlen pre + 20 + zlen data + zlen tl) as ->; [|apply Z.leb_gt; lia].
      unfold p, segment, tcp_header. rewrite !zlen_app, !zlen_le_bytes. change (zlen [_; _]) with 2. change (zlen [_; _; _; _]) with 4. lia.
    + rewrite Ed by lia. cbn [mbind outcome_bind].
      assert (zlen (take (Z.to_nat copy) (data ++ tl)) = copy) as Ht by (apply zlen_take_le; rewrite zlen_app; lia).
      rewrite wr_ok by lia. done.
  - rewrite (proj2 (Z.ltb_ge (zlen data + zlen tl) copy)) by lia. cbn [mbind outcome_bind]. assert (copy = 0) as -> by (unfold copy in *; lia).
    rewrite Z.add_0_r. assert (splice (rx_buf t) (rx_len t) (take (Z.to_nat 0) (data ++ tl)) = rx_buf t) as ->.
    { unfold splice. change (take (Z.to_nat 0) (data ++ tl)) with (@nil Z). cbn [app]. change (zlen []) with 0. rewrite Z.add_0_r. apply take_drop. }
    by destruct t.
Qed.
End connection.

(** C37: a segment whose IPv4 header claims more than the receive buffer holds makes the
    handler read past the end of that buffer, when the connection has room for the data. *)
Theorem tcp_overread send_raw clock stack poll patience s i dm sm total id ck src sport dport sq ak flags data k buf :
  let f := ip_frame dm sm total id IP_PROTO_TCP ck src (ip i) (segment sport dport sq ak flags data) in
  net_ok s → g_iface s = Some i → zlen dm = 6 → zlen sm = 6 → total < 2 ^ 16 → word32 src → word16 sport → word16 dport → word32 sq →
  has flags TCP_FIN = false → first_from (tcp_match dport sport src) s.(tcp_sockets) 0 = Some k →
  (s.(tcp_sockets).[k]).(t_state) = TCP_STATE_ESTABLISHED → zlen f ≤ RX_FRAME → zlen buf = RX_FRAME →
  RX_FRAME - 54 < Z.min (total - 40) (TCP_RX_BUF_SIZE - (s.(tcp_sockets).[k]).(rx_len)) →
  net_process_frame send_raw clock stack poll patience s (splice buf 0 f) (zlen f) = Fault.
Proof.
  intros f Hs Hi Hd Hsm Ht Hsrc Hsp Hdp Hsq Hfin Hk Hst Hf Hb Hmin. unfold RX_FRAME in *. pose proof (zlen_nonneg data). pose proof (nb_iface _ (proj1 Hs) i Hi) as [_ Hip _ _ _ _].
  assert (zlen f = 54 + zlen data) as Hz.
  { unfold f, segment, tcp_header. rewrite zlen_ip_frame by done. rewrite !zlen_app, !zlen_le_bytes. change (zlen [_; _]) with 2. change (zlen [_; _; _; _]) with 4. lia. }
  pose proof (proj1 (first_from_some _ _ _ Hk)) as Hkr. rewrite (proj1 (nb_tcp _ (proj1 Hs))) in Hkr.
  destruct (tb_rx _ (proj1 (socket_ok s k Hs Hkr))) as (Hrz & _ & Hrl).
  rewrite splice_frame. set (D := drop (length f) buf). assert (zlen D = 2048 - zlen f) as HD by (unfold D, zlen in *; rewrite length_drop; lia).
  assert (f ++ D = ip_frame dm sm total id IP_PROTO_TCP ck src (ip i) (segment sport dport sq ak flags data ++ D)) as -> by (unfold f, ip_frame; by rewrite <- !app_assoc).
  rewrite (process_ip send_raw clock stack poll patience s i) by (done || lia || (by left)).
  set (pre := dm ++ sm ++ le_bytes 2 (htons ETH_TYPE_IPV4) ++ ipv4_header total id IP_PROTO_TCP ck src (ip i)).
  assert (ip_frame dm sm total id IP_PROTO_TCP ck src (ip i) (segment sport dport sq ak flags data ++ D) = pre ++ segment sport dport sq ak flags data ++ D) as ->
    by (unfold pre, ip_frame; by rewrite <- !app_assoc).
  assert (34 = zlen pre) as -> by (unfold pre, ipv4_header; zlens; lia).
  change (ip_handler send_raw stack s IP_PROTO_TCP src ?p ?o ?l) with (tcp_process send_raw stack s src p o l).
  rewrite (established_step send_raw stack s src sport dport sq ak flags data k (total - 20) pre D) by (done || lia).
  replace (total - 20 - 20) with (total - 40) by lia. rewrite (proj2 (Z.ltb_lt _ _)) by lia. done.
Qed.

(** ** The receive queue of a connection *)

Lemma first_from_nonneg {A} (p : A → bool) l k : first_from p l 0 = Some k → 0 ≤ k.
Proof.
  revert k. induction l as [|y l IH]; intros k; [done|]. cbn [first_from]. destruct (p y); [by intros [= <-]|].
  intros E%first_from_shift. apply IH in E. lia.
Qed.
Lemma first_from_update {A} (p : A → bool) l k x : first_from p l 0 = Some k → p x = true → first_from p (l.[k <- x]) 0 = Some k.
Proof.
  revert k. induction l as [|y l IH]; intros k; [done|]. cbn [first_from]. destruct (p y) eqn:Ey.
  - intros [= <-] Hx. change ((y :: l).[0 <- x]) with (x :: l). cbn [first_from]. by rewrite Hx.
  - intros E%first_from_shift Hx. pose proof (first_from_nonneg _ _ _ E) as Hk.
    assert ((y :: l).[k <- x] = y :: l.[k - 1 <- x]) as -> by (unfold aset; by replace (Z.to_nat k) with (S (Z.to_nat (k - 1))) by lia).
    cbn [first_from]. rewrite Ey.
    apply first_from_shift. replace (k - (0 + 1)) with (k - 1) in * by lia. by apply IH.
Qed.

Inductive rx_op := Segment (sq ak flags : Z) (data tl : list Z) | Read (max_len : Z).
Inductive rx_out := Acked (ack : Z) | Got (data : list Z) (n : Z).
(** A bounded queue of bytes. What does not fit is lost, but acknowledged. *)
Module queue.
Definition step (q : list Z) (o : rx_op) : list Z * rx_out :=
  match o with
  | Segment sq _ _ data _ => (q ++ take (Z.to_nat (TCP_RX_BUF_SIZE - zlen q)) data, Acked (u32 (sq + u32 (zlen data))))
  | Read m => (drop (Z.to_nat m) q, Got (take (Z.to_nat m) q) (Z.min m (zlen q)))
  end.
Fixpoint run (q : list Z) (os : list rx_op) : list Z * list rx_out :=
  match os with [] => (q, []) | o :: os => let '(q, r) := step q o in let '(q, rs) := run q os in (q, r :: rs) end.
End queue.

Section stream.
Context (send_raw : nat → list Z → Z) (stack : list Z) (src sport dport k : Z) (pre : list Z).
Definition rx_step (s : net_t) (o : rx_op) : outcome (net_t * rx_out) :=
  match o with
  | Segment sq ak flags data tl =>
      s ← tcp_process send_raw stack s src (pre ++ segment sport dport sq ak flags data ++ tl) (zlen pre) (20 + zlen data);
      Ret (s, Acked ((s.(tcp_sockets).[k]).(t_ack)))
  | Read m => r ← tcp_recv s k m; let '(s, d, n) := r in Ret (s, Got d n)
  end.
Fixpoint rx_run (s : net_t) (os : list rx_op) : outcome (net_t * list rx_out) :=
  match os with
  | [] => Ret (s, [])
  | o :: os => r ← rx_step s o; let '(s, r) := r in r' ← rx_run s os; let '(s, rs) := r' in Ret (s, r :: rs)
  end.
Definition rx_op_ok (o : rx_op) : Prop :=
  match o with
  | Segment sq ak flags data tl => word32 sq ∧ has flags TCP_FIN = false ∧ 0 < zlen data ∧ 0 ≤ flags < 256 ∧ bytes_ok data ∧ bytes_ok tl
  | Read m => 0 ≤ m
  end.
(** The socket is established, the first one for these segments, and holds [q]. *)
Definition holds (s : net_t) (q : list Z) : Prop :=
  net_ok s ∧ first_from (tcp_match dport sport src) s.(tcp_sockets) 0 = Some k ∧
  let t := s.(tcp_sockets).[k] in t.(t_state) = TCP_STATE_ESTABLISHED ∧ q = take (Z.to_nat t.(rx_len)) t.(rx_buf).

Lemma take_spliced dst op l : 0 ≤ op ≤ zlen dst → take (Z.to_nat (op + zlen l)) (splice dst op l) = take (Z.to_nat op) dst ++ l.
Proof.
  intros Ho. unfold splice, zlen in *. rewrite app_assoc. apply take_app_length'. rewrite length_app, length_take. lia.
Qed.

Context (Hstack : address 1514 stack) (Hsrc : word32 src) (Hsp : word16 sport) (Hdp : word16 dport) (Hpre : bytes_ok pre).

Lemma segment_bytes sq ak flags data : 0 ≤ flags < 256 → bytes_ok data → bytes_ok (segment sport dport sq ak flags data).
Proof. intros Hf Hd. unfold segment, tcp_header. bytes_tac. Qed.
Lemma holds_room s q : holds s q → zlen q = ((s.(tcp_sockets).[k]).(rx_len)) ∧ 0 ≤ zlen q ≤ TCP_RX_BUF_SIZE ∧
  zlen ((s.(tcp_sockets).[k]).(rx_buf)) = TCP_RX_BUF_SIZE ∧ 0 ≤ k < TCP_MAX_SOCKETS ∧ (s.(tcp_sockets).[k]).(t_in_use) = true ∧
  tcp_match dport sport src (s.(tcp_sockets).[k]) = true.
Proof.
  intros (Hs & Hk & _ & ->). destruct (first_from_some _ _ _ Hk) as (Hkr & Hm & _). rewrite (proj1 (nb_tcp _ (proj1 Hs))) in Hkr.
  destruct (tb_rx _ (proj1 (socket_ok s k Hs Hkr))) as (Hrz & _ & Hrl). rewrite zlen_take_le by lia.
  split_and!; try done; [lia..|by eapply tcp_match_used].
Qed.
Lemma holds_update s s' t : net_ok s' → s'.(tcp_sockets) = s.(tcp_sockets).[k <- t] → first_from (tcp_match dport sport src) s.(tcp_sockets) 0 = Some k →
  tcp_match dport sport src t = true → t.(t_state) = TCP_STATE_ESTABLISHED → s'.(tcp_sockets).[k] = t ∧ holds s' (take (Z.to_nat t.(rx_len)) t.(rx_buf)).
Proof.
  intros Hok E Hk Hm Hst. destruct (first_from_some _ _ _ Hk) as (Hkr & _ & _).
  assert (s'.(tcp_sockets).[k] = t) as Et by (rewrite E; by apply aget_aset_eq). split; [done|]. split; [done|]. split.
  - rewrite E. by apply first_from_update.
  - cbv zeta. by rewrite Et.
Qed.

Lemma segment_step s q sq ak flags data tl : holds s q → rx_op_ok (Segment sq ak flags data tl) →
  let o := Segment sq ak flags data tl in ∃ s', rx_step s o = Ret (s', (queue.step q o).2) ∧ holds s' (queue.step q o).1.
Proof.
  intros Hh (Hsq & Hfin & Hd & Hfl & Hdb & Htb) o. subst o. destruct (holds_room s q Hh) as (Hq & Hqr & Hrz & Hk & _ & Hm).
  destruct Hh as (Hs & Hfirst & Hst & Eq). set (t := (tcp_sockets s).[k]) in *. unfold TCP_RX_BUF_SIZE in *.
  set (p := pre ++ segment sport dport sq ak flags data ++ tl). pose proof (zlen_nonneg tl).
  pose proof (tcp_process_ends send_raw stack Hstack p (zlen pre) (20 + zlen data)) as Hends. specialize (Hends ltac:(unfold p; auto using bytes_app, segment_bytes)).
  specialize (Hends (zlen_nonneg pre)). unfold rx_step. fold p.
  assert (zlen pre + (20 + zlen data) ≤ zlen p) as Hlen.
  { unfold p, segment, tcp_header. rewrite !zlen_app, !zlen_le_bytes. change (zlen [_; _]) with 2. change (zlen [_; _; _; _]) with 4. lia. }
  specialize (Hends Hlen s src Hs Hsrc).
  pose proof (established_step send_raw stack s src sport dport sq ak flags data k (20 + zlen data) pre tl Hsp Hdp Hsq Hfin Hfirst Hst ltac:(lia)) as Ee.
  fold t p in Ee. specialize (Ee ltac:(lia) ltac:(unfold TCP_RX_BUF_SIZE; lia) Hrz). cbv zeta in Ee. rewrite Ee in Hends |- *. clear Ee. replace (20 + zlen data - 20) with (zlen data) in * by lia. set (copy := Z.min (zlen data) (TCP_RX_BUF_SIZE - rx_len t)) in *.
  assert (copy = Z.min (zlen data) (8192 - rx_len t)) as Ec by done. rewrite (proj2 (Z.ltb_ge (zlen data + zlen tl) copy)) in Hends |- * by lia. cbn [mbind outcome_bind ends] in *.
  assert (take (Z.to_nat copy) (data ++ tl) = take (Z.to_nat (8192 - zlen q)) data) as Etk.
  { rewrite take_app_le by (unfold zlen in *; lia). rewrite Hq. destruct (decide (zlen data ≤ 8192 - rx_len t)).
    - rewrite !take_ge by (unfold zlen in *; lia). done.
    - by replace copy with (8192 - rx_len t) by lia. }
  assert (zlen (take (Z.to_nat copy) (data ++ tl)) = copy) as Hzt by (apply zlen_take_le; rewrite zlen_app; lia).
  set (t1 := t_set_ack (t_set_rx t _ _) _) in *. assert (tcp_body t1) as Ht1.
  { apply t_set_ack_body; [|apply u32_word]. destruct (socket_ok s k Hs Hk) as [Hb _]. fold t in Hb. destruct (tb_rx _ Hb) as (_ & Hby & _). destruct Hb. split; [done..|].
    cbn [t_set_rx rx_buf rx_len]. unfold TCP_RX_BUF_SIZE. rewrite zlen_splice by lia. split; [done|]. split; [|lia].
    apply bytes_ok_splice; [done|]. auto using bytes_take, bytes_app. }
  destruct (reply_spec send_raw stack Hstack s k t1 TCP_ACK (proj1 Hs) Hk Ht1 ltac:(done)) as (_ & _ & sq' & Hsq' & Esock).
  eexists. destruct (holds_update s _ (t_set_seq t1 sq') (proj1 Hends) Esock Hfirst Hm Hst) as [Et Hh']. split.
  - rewrite Et. done.
  - cbn [queue.step fst]. unfold TCP_RX_BUF_SIZE. assert (take (Z.to_nat (rx_len (t_set_seq t1 sq'))) (rx_buf (t_set_seq t1 sq')) = q ++ take (Z.to_nat (8192 - zlen q)) data) as <-; [|done].
    cbn [t_set_seq t1 t_set_ack t_with t_set_rx rx_len rx_buf]. rewrite <- Hzt at 1. rewrite take_spliced by lia. by rewrite Etk, <- Eq.
Qed.

(** The bytes behind the ones that are read move to the front. *)
Lemma recv_eq s q m : holds s q → 0 ≤ m → q ≠ [] →
  ∃ b, tcp_recv s k m = Ret (put_tcp s k (t_set_rx (s.(tcp_sockets).[k]) b (zlen q - Z.min m (zlen q))), take (Z.to_nat m) q, Z.min m (zlen q)) ∧
    take (Z.to_nat (zlen q - Z.min m (zlen q))) b = drop (Z.to_nat m) q.
Proof.
  intros Hh Hm Hne. destruct (holds_room s q Hh) as (Hq & Hqr & Hrz & Hk & Hu & _). destruct Hh as (Hs & _ & Hst & Eq).
  set (t := (tcp_sockets s).[k]) in *. unfold TCP_RX_BUF_SIZE, TCP_MAX_SOCKETS in *.
  assert (0 < zlen q) as Hpos by (destruct q; [done|rewrite zlen_cons; pose proof (zlen_nonneg q); lia]).
  unfold tcp_recv, get_tcp_socket. rewrite (proj2 (Z.ltb_ge k 0)), geb_lt by (unfold TCP_MAX_SOCKETS; lia). cbn [orb]. cbv zeta. fold t. rewrite Hu.
  rewrite bool_decide_eq_true_2 by done. cbn [negb]. rewrite <- Hq, (proj2 (Z.eqb_neq (zlen q) 0)) by lia. cbv zeta.
  assert ((if m <? zlen q then m else zlen q) = Z.min m (zlen q)) as -> by (destruct (Z.ltb_spec m (zlen q)); lia). set (n := Z.min m (zlen q)).
  assert (∀ j, 0 ≤ j ≤ zlen q → sub_list (rx_buf t) 0 j = take (Z.to_nat j) q) as Hsub0.
  { intros j Hj. unfold sub_list. change (drop (Z.to_nat 0) (rx_buf t)) with (rx_buf t). rewrite Eq, take_take. f_equal. lia. }
  assert (sub_list (rx_buf t) n (zlen q - n) = drop (Z.to_nat n) q) as Hsubn.
  { unfold sub_list. rewrite Eq at 2. rewrite skipn_firstn_comm. f_equal. lia. }
  rewrite (rd_block_ok (rx_buf t) 0 n) by lia. cbn [mbind outcome_bind]. rewrite Hsub0 by lia.
  assert (take (Z.to_nat n) q = take (Z.to_nat m) q) as ->.
  { unfold n. destruct (decide (m ≤ zlen q)); [by rewrite Z.min_l by lia|]. rewrite !take_ge by (unfold zlen in *; lia). done. }
  assert (drop (Z.to_nat m) q = drop (Z.to_nat n) q) as ->.
  { unfold n. destruct (decide (m ≤ zlen q)); [by rewrite Z.min_l by lia|]. rewrite !drop_ge by (unfold zlen in *; lia). done. }
  destruct (Z.ltb_spec n (zlen q)).
  - rewrite rd_block_ok by lia. cbn [mbind outcome_bind]. rewrite Hsubn. assert (zlen (drop (Z.to_nat n) q) = zlen q - n) as Hd by (apply zlen_drop_le; lia).
    rewrite wr_ok by lia. cbn [mbind outcome_bind]. eexists. split; [reflexivity|]. rewrite <- Hd. apply (take_spliced (rx_buf t) 0). lia.
  - cbn [mbind outcome_bind]. eexists. split; [reflexivity|]. assert (n = zlen q) as -> by lia. rewrite Z.sub_diag. rewrite drop_ge by (unfold zlen; lia). done.
Qed.
Lemma read_step s q m : holds s q → rx_op_ok (Read m) → let o := Read m in ∃ s', rx_step s o = Ret (s', (queue.step q o).2) ∧ holds s' (queue.step q o).1.
Proof.
  intros Hh Hm o. subst o. cbn [rx_op_ok] in Hm. destruct (holds_room s q Hh) as (Hq & Hqr & Hrz & Hk & Hu & Hmt). unfold rx_step.
  destruct (decide (q = [])) as [->|Hne].
  - exists s. cbn [queue.step fst snd]. rewrite drop_nil, take_nil. split; [|done]. change (zlen []) with 0 in *. rewrite Z.min_r by done.
    destruct Hh as (Hs & _ & Hst & _). unfold tcp_recv, get_tcp_socket. unfold TCP_MAX_SOCKETS in Hk.
    rewrite (proj2 (Z.ltb_ge k 0)), geb_lt by (unfold TCP_MAX_SOCKETS; lia). cbn [orb]. cbv zeta. rewrite Hu.
    rewrite bool_decide_eq_true_2 by done. cbn [negb]. rewrite <- Hq. done.
  - destruct (recv_eq s q m Hh Hm Hne) as (b & E & Hb). destruct Hh as (Hs & Hf & Hst & Eq).
    pose proof (tcp_recv_ends s k m Hs Hm) as Hends. rewrite E in Hends |- *. cbn [mbind outcome_bind ends fst] in Hends |- *.
    eexists. split; [reflexivity|]. cbn [queue.step fst]. rewrite <- Hb.
    by destruct (holds_update s _ (t_set_rx ((tcp_sockets s).[k]) b (zlen q - Z.min m (zlen q))) (proj1 Hends) eq_refl Hf Hmt Hst) as [_ Hh'].
Qed.
Lemma rx_run_refines os s q : holds s q → Forall rx_op_ok os →
  ∃ s', rx_run s os = Ret (s', (queue.run q os).2) ∧ holds s' (queue.run q os).1.
Proof.
  intros Hh Hos. revert s q Hh. induction Hos as [|o os Ho _ IH]; intros s q Hh; [by exists s|]. cbn [rx_run queue.run].
  assert (∃ s', rx_step s o = Ret (s', (queue.step q o).2) ∧ holds s' (queue.step q o).1) as (s1 & -> & H1).
  { destruct o; [by apply segment_step|by apply read_step]. }
  cbn [mbind outcome_bind]. destruct (queue.step q o) as [q1 r1]. cbn [fst snd] in *. destruct (IH s1 q1 H1) as (s2 & -> & H2).
  cbn [mbind outcome_bind]. destruct (queue.run q1 os) as [q2 rs]. by exists s2.
Qed.
End stream.

(** C16: towards its client an established connection is a queue of at most 8192 bytes:
    every history of segments and reads returns what the queue returns. The queue takes
    no notice of sequence numbers, so a segment that is sent again is delivered again;
    and a segment is acknowledged in full when only a part of it, or nothing, fits. *)
Theorem tcp_stream_refines send_raw stack src sport dport k pre s os q :
  address 1514 stack → word32 src → word16 sport → word16 dport → bytes_ok pre →
  holds src sport dport k s q → Forall rx_op_ok os →
  ∃ s', rx_run send_raw stack src sport dport k pre s os = Ret (s', (queue.run q os).2) ∧ holds src sport dport k s' (queue.run q os).1.
Proof. intros. by apply rx_run_refines. Qed.

(** ** Witnesses

    A machine at 10.0.2.15 that knows the hardware address of the gateway, and a connection
    to port 80 of the gateway. *)

Definition gateway_ip : Z := IP4 10 0 2 2.
Definition gateway_mac : list Z := [2; 0; 0; 0; 0; 2].
Definition demo_net : net_t := arp_table_add (net_set_interface (net_init net_zero) (Some demo_iface)) gateway_ip gateway_mac.
Definition demo_socket : tcp_socket_t := t_set_state (t_addresses (t_with tcp_zero true TCP_STATE_CLOSED 1000 0) (ip demo_iface) 49153 gateway_ip 80) TCP_STATE_ESTABLISHED.
Definition demo_connected : net_t := put_tcp demo_net 0 demo_socket.
Definition demo_receiver : net_t :=
  (udp_bind (net_set_interface (net_init net_zero) (Some (with_ip demo_iface gateway_ip 0 0 true))) 53 (Some (cb_client 7))).1.
Definition demo_card : nat → list Z → Z := λ _ f, zlen f.
Definition quiet_poll : net_t → outcome net_t := λ s, Ret s.

Lemma demo_net_ok : net_ok demo_net.
Proof.
  apply arp_table_add_stays; [|done|split; [done|by repeat constructor]]. split; [|apply net_zero_ok]. apply body_set_iface; [apply net_zero_ok|].
  intros i [= <-]. apply demo_iface_ok.
Qed.
Lemma demo_connected_ok : net_ok demo_connected.
Proof.
  apply put_tcp_stays; [apply demo_net_ok|]. split; [|done]. apply t_set_state_body, t_addresses_body; try done.
  by apply t_with_body; [apply tcp_zero_body|..].
Qed.
Lemma demo_stack_ok : address 1514 (replicate 1514 7).
Proof. split; [done|]. apply bytes_replicate. lia. Qed.

Lemma udp_roundtrip_witness : ∃ f, sent (udp_send demo_card (replicate 1514 7) demo_net gateway_ip 53 4000 [1; 2; 3]).1 = sent demo_net ++ [f] ∧
  net_process_frame demo_card (λ _, 0) (replicate 1514 7) quiet_poll 0 demo_receiver (splice (replicate 2048 9) 0 f) (zlen f) =
    Ret (set_inbox demo_receiver (inbox demo_receiver ++ [(7, ip demo_iface, 4000, [1; 2; 3])]), 0).
Proof.
  apply (udp_roundtrip demo_card (λ _, 0) (replicate 1514 7) quiet_poll 0 demo_net demo_iface gateway_mac gateway_ip 53 4000 [1; 2; 3]
    demo_receiver (with_ip demo_iface gateway_ip 0 0 true) 0 7 (replicate 2048 9));
    try done; apply demo_iface_ok.
Defined.
Lemma icmp_echo_leaks_witness :
  let f := ip_frame gateway_mac gateway_mac (20 + 512) 1 IP_PROTO_ICMP 0 gateway_ip (ip demo_iface) ([ICMP_ECHO; 0; 1; 2] ++ [0; 1; 0; 1]) in
  ∃ s' reply, net_process_frame demo_card (λ _, 0) (replicate 1514 7) quiet_poll 0 demo_net (splice (replicate 2048 9) 0 f) (zlen f) = Ret (s', 0) ∧
    sent s' = sent demo_net ++ [reply] ∧ sub_list reply 42 504 = replicate 504 9.
Proof.
  destruct (icmp_echo_leaks demo_card (λ _, 0) (replicate 1514 7) quiet_poll 0 demo_net demo_iface gateway_mac gateway_mac gateway_mac 1 0 gateway_ip 0 1 2
    [0; 1; 0; 1] 512 (replicate 2048 9)) as (s' & reply & E & Es & El); try done; [apply demo_iface_ok|]. exists s', reply. split; [exact E|]. split; [exact Es|].
  exact El.
Defined.
Lemma tcp_overread_witness :
  net_process_frame demo_card (λ _, 0) (replicate 1514 7) quiet_poll 0 demo_connected
    (splice (replicate 2048 9) 0 (ip_frame gateway_mac gateway_mac 4000 1 IP_PROTO_TCP 0 gateway_ip (ip demo_iface) (segment 80 49153 1 1 TCP_ACK [5])))
    (zlen (ip_frame gateway_mac gateway_mac 4000 1 IP_PROTO_TCP 0 gateway_ip (ip demo_iface) (segment 80 49153 1 1 TCP_ACK [5]))) = Fault.
Proof. apply (tcp_overread _ _ _ _ _ demo_connected demo_iface _ _ _ _ _ _ _ _ _ _ _ _ 0); try done. apply demo_connected_ok. Defined.
(** The segment is sent, and delivered, twice. *)
Definition demo_rx : list rx_op := [Segment 1 1 TCP_ACK [1; 2] []; Segment 1 1 TCP_ACK [1; 2] []; Read 3; Read 10].
Lemma tcp_stream_refines_witness :
  ∃ s', rx_run demo_card (replicate 1514 7) gateway_ip 80 49153 0 [] demo_connected demo_rx =
    Ret (s', [Acked 3; Acked 3; Got [1; 2; 1] 3; Got [2] 1]) ∧ holds gateway_ip 80 49153 0 s' [].
Proof.
  apply (tcp_stream_refines demo_card (replicate 1514 7) gateway_ip 80 49153 0 [] demo_connected demo_rx []); try done.
  - apply demo_stack_ok.
  - apply Forall_nil_2.
  - split; [apply demo_connected_ok|done].
  - repeat apply Forall_cons_2; try apply Forall_nil_2; cbn [rx_op_ok]; try done; (split_and!; try done; repeat constructor; done).
Defined.

(** ** DHCP *)

(** Unless the ARP table happens to have an entry for the broadcast address (or for the
    gateway, when a netmask is set), [dhcp_discover] sends no DHCP packet: it asks
    by ARP who 255.255.255.255 is, fails, and leaves the client port bound, so that
    32 such calls leave no free UDP socket. *)
Theorem dhcp_discover_lost send_raw stack s i k :
  g_iface s = Some i → can_send i && is_up i = true → iface_ok i → arp_lookup s (ip_next_hop s 0xFFFFFFFF) = None →
  first_from (λ u, negb u.(u_in_use)) s.(udp_sockets) 0 = Some k →
  dhcp_discover send_raw stack s =
    (set_sent (set_udp s (s.(udp_sockets).[k <- {| u_port := 68; u_in_use := true; u_callback := Some cb_dhcp |}]))
       (s.(sent) ++ [padded stack (BROADCAST ++ i.(mac) ++ le_bytes 2 (htons ETH_TYPE_ARP) ++ arp_packet i ARP_OP_REQUEST BROADCAST (ip_next_hop s 0xFFFFFFFF))]), - EIO).
Proof.
  intros Hi Hup [[Hm _] _ _ _ _ _] Ha Hk. unfold dhcp_discover. rewrite Hi. unfold udp_bind. rewrite Hk. pose proof (proj1 (first_from_some _ _ _ Hk)) as Hk0.
  rewrite (proj2 (Z.ltb_ge k 0)) by lia. set (s1 := set_udp s _). set (pkt := [1; 1; ETH_ADDR_LEN; 0] ++ _).
  assert (zlen pkt = 552) as Hp by (unfold pkt, zeros; zlens; rewrite Hm; done).
  unfold udp_send. rewrite gtb_le by (rewrite Hp; done). unfold ip_send. change (g_iface s1) with (g_iface s). rewrite Hi.
  rewrite gtb_le by (unfold udp_header; zlens; rewrite Hp; done). cbv zeta. change (ip_next_hop s1 0xFFFFFFFF) with (ip_next_hop s 0xFFFFFFFF).
  change (arp_lookup s1 (ip_next_hop s 0xFFFFFFFF)) with (arp_lookup s (ip_next_hop s 0xFFFFFFFF)). rewrite Ha. unfold arp_request. change (g_iface s1) with (g_iface s). rewrite Hi.
  set (arp := arp_packet _ _ _ _). assert (zlen arp = 28) as Harp by (unfold arp, arp_packet, BROADCAST; zlens; rewrite Hm; done).
  destruct (eth_send_eq send_raw stack s1 i BROADCAST ETH_TYPE_ARP arp Hi Hup eq_refl Hm ltac:(unfold ETH_MTU; lia)) as [rc E]. by rewrite E.
Qed.
Definition demo_booted : net_t := net_set_interface (net_init net_zero) (Some demo_iface).
Lemma dhcp_discover_lost_witness : (dhcp_discover demo_card (replicate 1514 7) demo_booted).2 = - EIO ∧ zlen (sent (dhcp_discover demo_card (replicate 1514 7) demo_booted).1) = 1.
Proof.
  by rewrite (dhcp_discover_lost demo_card (replicate 1514 7) demo_booted demo_iface 0); [|done|done|apply demo_iface_ok|done..].
Defined.
