(* ===== verification/Vmm.v ===== *)
(** * Page tables ([src/kernel/mm/vmm.c], the x86_64 configuration)

    A table is named by its physical address, and memory is the map from
    physical addresses to 64-bit words: [ptov] only chooses the window
    (identity or direct map) through which the same word is reached. Table
    pages come from any [FrameAllocator]. [invlpg] and [write_cr3] act on the
    processor and not on the tables, and are left out. *)

From S2P Require Import Prelude FrameAllocator.
From stdpp Require Import base numbers list gmap.
Open Scope Z_scope.

Definition PTE_PRESENT : Z := Z.shiftl 1 0.
Definition PTE_WRITABLE : Z := Z.shiftl 1 1.
Definition PTE_USER : Z := Z.shiftl 1 2.
Definition PTE_NO_CACHE : Z := Z.shiftl 1 4.
Definition PTE_HUGE : Z := Z.shiftl 1 7.
Definition PTE_GLOBAL : Z := Z.shiftl 1 8.
Definition PTE_ADDR_MASK : Z := 0x000FFFFFFFFFF000.

Definition PML4_INDEX (a : Z) : Z := Z.land (Z.shiftr a 39) 0x1FF.
Definition PDPT_INDEX (a : Z) : Z := Z.land (Z.shiftr a 30) 0x1FF.
Definition PD_INDEX (a : Z) : Z := Z.land (Z.shiftr a 21) 0x1FF.
Definition PT_INDEX (a : Z) : Z := Z.land (Z.shiftr a 12) 0x1FF.

(** [e & flag] as a condition *)
Definition has (e flag : Z) : bool := nonzero (Z.land e flag).

Record vm (A : Type) := { pages : A; word : Z → Z }.
Arguments Build_vm {A}.
Arguments pages {A}.
Arguments word {A}.

Record vmm_ctx_t := { pml4 : Z; cr3 : Z }.

(** [table[i]] for a table at physical address [t] *)
Definition slot (t i : Z) : Z := t + 8 * i.

Section vmm.
Context {A : Type} `{FA : FrameAllocator A}.
Implicit Types st : vm A.

Definition put (st : vm A) (a v : Z) : vm A :=
  {| pages := st.(pages); word := λ x, if x =? a then v else st.(word) x |}.

Fixpoint zero_from (n : nat) (st : vm A) (p i : Z) : vm A :=
  match n with
  | O => st
  | S n => zero_from n (put st (slot p i) 0) p (i + 1)
  end.
Definition zero_page (st : vm A) (paddr : Z) : vm A := zero_from 512 st paddr 0.

Definition pmm_alloc_page (st : vm A) : vm A * Z :=
  let '(a, p) := fa_alloc st.(pages) 1 in ({| pages := a; word := st.(word) |}, p).
Definition pmm_free_page (st : vm A) (paddr : Z) : vm A :=
  {| pages := fa_release st.(pages) paddr 1; word := st.(word) |}.

Definition alloc_table (st : vm A) : vm A * Z :=
  let '(st, paddr) := pmm_alloc_page st in
  (if nonzero paddr then zero_page st paddr else st, paddr).

(** ** [vmm_walk] *)

Definition indices (level vaddr : Z) : Z :=
  [PML4_INDEX vaddr; PDPT_INDEX vaddr; PD_INDEX vaddr].[level].

Fixpoint walk_from (n : nat) (level : Z) (st : vm A) (table vaddr : Z) (create : bool)
  : vm A * option Z :=
  match n with
  | O => (st, Some (slot table (PT_INDEX vaddr)))
  | S n =>
      let a := slot table (indices level vaddr) in
      let entry := st.(word) a in
      if has entry PTE_HUGE then (st, Some a) else
      if negb (has entry PTE_PRESENT) then
        if negb create then (st, None) else
        let '(st, new_table) := alloc_table st in
        if negb (nonzero new_table) then (st, None) else
        let st := put st a (Z.lor (Z.lor (Z.lor new_table PTE_PRESENT) PTE_WRITABLE) PTE_USER) in
        walk_from n (level + 1) st (Z.land (st.(word) a) PTE_ADDR_MASK) vaddr create
      else walk_from n (level + 1) st (Z.land entry PTE_ADDR_MASK) vaddr create
  end.
Definition vmm_walk (st : vm A) (ctx : vmm_ctx_t) (vaddr : Z) (create : bool) : vm A * option Z :=
  walk_from 3 0 st ctx.(pml4) vaddr create.

(** ** The interface *)

Definition vmm_map_page (st : vm A) (ctx : vmm_ctx_t) (vaddr paddr flags : Z) : vm A :=
  let '(st, pte) := vmm_walk st ctx vaddr true in
  match pte with
  | None => st
  | Some pte => put st pte (Z.lor (Z.land paddr PTE_ADDR_MASK) (Z.land flags (lnot64 PTE_ADDR_MASK)))
  end.

Definition vmm_unmap_page (st : vm A) (ctx : vmm_ctx_t) (vaddr : Z) : vm A :=
  let '(st, pte) := vmm_walk st ctx vaddr false in
  match pte with
  | Some pte => if has (st.(word) pte) PTE_PRESENT then put st pte 0 else st
  | None => st
  end.

Definition vmm_get_phys (st : vm A) (ctx : vmm_ctx_t) (vaddr : Z) : Z :=
  let '(st, pte) := vmm_walk st ctx vaddr false in
  match pte with
  | None => 0
  | Some pte =>
      let e := st.(word) pte in
      if negb (has e PTE_PRESENT) then 0 else
      if has e PTE_HUGE then Z.lor (Z.land e PTE_ADDR_MASK) (Z.land vaddr 0x1FFFFF)
      else Z.lor (Z.land e PTE_ADDR_MASK) (Z.land vaddr 0xFFF)
  end.

(** ** Large mappings and contexts *)

(** The table behind entry [a], made if the entry is absent; unlike
    [vmm_walk], the failure of [alloc_table] is not checked. *)
Definition force_table (st : vm A) (a : Z) : vm A * Z :=
  let st :=
    if negb (has (st.(word) a) PTE_PRESENT) then
      let '(st, t) := alloc_table st in
      put st a (Z.lor (Z.lor (Z.lor t PTE_PRESENT) PTE_WRITABLE) PTE_USER)
    else st in
  (st, Z.land (st.(word) a) PTE_ADDR_MASK).

(** One 2 MiB step of [map_huge_range]. *)
Definition map_huge (st : vm A) (ctx : vmm_ctx_t) (vaddr phys flags : Z) : vm A :=
  let '(st, pdpt) := force_table st (slot ctx.(pml4) (PML4_INDEX vaddr)) in
  let '(st, pd) := force_table st (slot pdpt (PDPT_INDEX vaddr)) in
  put st (slot pd (PD_INDEX vaddr)) (Z.lor (Z.lor phys flags) PTE_HUGE).

Fixpoint map_huge_from (n : nat) (st : vm A) (ctx : vmm_ctx_t) (vbase pbase phys end_ flags : Z) : vm A :=
  match n with
  | O => st
  | S n =>
      if phys <? end_ then
        let st := map_huge st ctx (u64 (vbase + (phys - pbase))) phys flags in
        map_huge_from n st ctx vbase pbase (u64 (phys + 0x200000)) end_ flags
      else st
  end.
(** The loop advances by 2 MiB up to [end], so [size / 2 MiB + 1] turns are
    enough when the range does not wrap around. *)
Definition map_huge_range (st : vm A) (ctx : vmm_ctx_t) (vbase pbase size flags : Z) : vm A :=
  map_huge_from (Z.to_nat (size / 0x200000 + 1)) st ctx vbase pbase pbase (u64 (pbase + size)) flags.

Fixpoint copy_entries (n : nat) (st : vm A) (dst src i : Z) : vm A :=
  match n with
  | O => st
  | S n => copy_entries n (put st (slot dst i) (st.(word) (slot src i))) dst src (i + 1)
  end.

(** The context structure lives in the page at the returned physical address;
    its two fields are returned beside it. *)
Definition vmm_create_ctx (st : vm A) (kernel_ctx : vmm_ctx_t) : vm A * option (Z * vmm_ctx_t) :=
  let '(st, pml4_phys) := alloc_table st in
  if negb (nonzero pml4_phys) then (st, None) else
  let st := copy_entries 256 st pml4_phys kernel_ctx.(pml4) 256 in
  let '(st, ctx_phys) := pmm_alloc_page st in
  if negb (nonzero ctx_phys) then (pmm_free_page st pml4_phys, None)
  else (st, Some (ctx_phys, {| pml4 := pml4_phys; cr3 := pml4_phys |})).

(** The three nested loops of [vmm_destroy_ctx], innermost first. Entries are
    read while the pages are being given back; the allocator does not write to
    them. *)
Fixpoint free_pts (n : nat) (st : vm A) (pd i2 : Z) : vm A :=
  match n with
  | O => st
  | S n =>
      let e := st.(word) (slot pd i2) in
      let st := if negb (has e PTE_PRESENT) || has e PTE_HUGE then st
                else pmm_free_page st (Z.land e PTE_ADDR_MASK) in
      free_pts n st pd (i2 + 1)
  end.

Fixpoint free_pds (n : nat) (st : vm A) (pdpt i3 : Z) : vm A :=
  match n with
  | O => st
  | S n =>
      let e := st.(word) (slot pdpt i3) in
      let st := if negb (has e PTE_PRESENT) || has e PTE_HUGE then st
                else pmm_free_page (free_pts 512 st (Z.land e PTE_ADDR_MASK) 0) (Z.land e PTE_ADDR_MASK) in
      free_pds n st pdpt (i3 + 1)
  end.

Fixpoint free_pdpts (n : nat) (st : vm A) (pml4 i4 : Z) : vm A :=
  match n with
  | O => st
  | S n =>
      let e := st.(word) (slot pml4 i4) in
      let st := if negb (has e PTE_PRESENT) then st
                else pmm_free_page (free_pds 512 st (Z.land e PTE_ADDR_MASK) 0) (Z.land e PTE_ADDR_MASK) in
      free_pdpts n st pml4 (i4 + 1)
  end.

(** [ctx] is [None] for a null pointer or the kernel's own context. *)
Definition vmm_destroy_ctx (st : vm A) (ctx : option (Z * vmm_ctx_t)) : vm A :=
  match ctx with
  | None => st
  | Some (ctx_phys, c) =>
      let st := free_pdpts 256 st c.(pml4) 0 in
      pmm_free_page (pmm_free_page st c.(cr3)) ctx_phys
  end.
End vmm.

(** ** Indices and prefixes of a virtual address *)

(** The index used at depth [n] (0 is the PML4, 3 the page table), and the
    part of the 48-bit address that the first [n] indices make up. *)
Definition idx (n : nat) (v : Z) : Z := Z.land (Z.shiftr v (39 - 9 * Z.of_nat n)) 0x1FF.
Definition prefix (n : nat) (v : Z) : Z := v mod 2 ^ 48 / 2 ^ (48 - 9 * Z.of_nat n).
Abbreviation page_number := (prefix 4).

Lemma idx_div n v : (n ≤ 3)%nat → idx n v = v / 2 ^ (39 - 9 * Z.of_nat n) mod 512.
Proof.
  intros Hn. unfold idx. change 0x1FF with (Z.ones 9). rewrite Z.land_ones by lia.
  by rewrite Z.shiftr_div_pow2 by lia.
Qed.

Lemma idx_range n v : (n ≤ 3)%nat → 0 ≤ idx n v < 512.
Proof. intros. rewrite idx_div by done. by apply Z.mod_pos_bound. Qed.

Lemma prefix_S n v : (n ≤ 3)%nat → prefix (S n) v = 512 * prefix n v + idx n v.
Proof.
  intros Hn. rewrite idx_div by done. unfold prefix.
  destruct n as [|[|[|[|n]]]]; [..|lia]; cbn; div_lia.
Qed.

Lemma prefix_S_eq n v v' :
  (n ≤ 3)%nat → prefix (S n) v = prefix (S n) v' ↔ prefix n v = prefix n v' ∧ idx n v = idx n v'.
Proof.
  intros Hn. rewrite !prefix_S by done. pose proof (idx_range n v Hn). pose proof (idx_range n v' Hn). lia.
Qed.

Lemma prefix_0 v : prefix 0 v = 0.
Proof. unfold prefix. apply Z.div_small. by apply Z.mod_pos_bound. Qed.

(** Two words of page-aligned tables are the same word only for the same table
    and index. *)
Lemma slot_inj f i f' i' :
  0 ≤ i < 512 → 0 ≤ i' < 512 → slot (f * PAGE_SIZE) i = slot (f' * PAGE_SIZE) i' → f = f' ∧ i = i'.
Proof. unfold slot, PAGE_SIZE. lia. Qed.

(** ** Entries *)

Lemma has_testbit e k : 0 ≤ k → has e (Z.shiftl 1 k) = Z.testbit e k.
Proof.
  intros Hk. unfold has, nonzero. destruct (Z.testbit e k) eqn:E.
  - apply negb_true_iff, Z.eqb_neq. intros H0. apply (f_equal (λ z, Z.testbit z k)) in H0.
    rewrite Z.land_spec, shiftl_1_testbit, E, Z.bits_0, bool_decide_true in H0 by (done || lia). done.
  - apply negb_false_iff, Z.eqb_eq. apply Z.bits_inj'. intros i Hi.
    rewrite Z.land_spec, shiftl_1_testbit, Z.bits_0 by lia. case_bool_decide; [subst; by rewrite E|apply andb_false_r].
Qed.

Lemma mask_testbit i : 0 ≤ i → Z.testbit PTE_ADDR_MASK i = (12 <=? i) && (i <? 52).
Proof.
  intros Hi. change PTE_ADDR_MASK with (Z.shiftl (Z.ones 40) 12). rewrite Z.shiftl_spec by lia.
  destruct (Z.leb_spec 12 i), (Z.ltb_spec i 52); cbn.
  - apply Z.ones_spec_low. lia.
  - apply Z.ones_spec_high. lia.
  - apply Z.testbit_neg_r. lia.
  - lia.
Qed.

(** A page-aligned physical address below [2 ^ 52]. *)
Definition page_address (p : Z) : Prop := 0 ≤ p < 2 ^ 52 ∧ p mod 4096 = 0.

Lemma page_address_low p i : page_address p → 0 ≤ i < 12 → Z.testbit p i = false.
Proof.
  intros [_ Hp] Hi. rewrite <- (Z.mod_pow2_bits_low p 12 i) by lia.
  change (2 ^ 12) with 4096. rewrite Hp. apply Z.bits_0.
Qed.

(** The address and the flags of an entry do not disturb each other. *)
Lemma entry_address p f :
  page_address p → (∀ i, 12 ≤ i < 52 → Z.testbit f i = false) → Z.land (Z.lor p f) PTE_ADDR_MASK = p.
Proof.
  intros Hp Hf. apply Z.bits_inj'. intros i Hi. rewrite Z.land_spec, Z.lor_spec, mask_testbit by done.
  destruct (Z.leb_spec 12 i), (Z.ltb_spec i 52); cbn; rewrite ?andb_false_r, ?andb_true_r.
  - by rewrite Hf, orb_false_r by lia.
  - symmetry. apply (testbit_out_of_range 52); [lia|apply Hp].
  - symmetry. by apply page_address_low.
  - lia.
Qed.

Lemma entry_flag p f k :
  page_address p → 0 ≤ k < 12 → has (Z.lor p f) (Z.shiftl 1 k) = has f (Z.shiftl 1 k).
Proof.
  intros Hp Hk. rewrite !has_testbit by lia. rewrite Z.lor_spec. by rewrite page_address_low.
Qed.

Lemma frame_page_address f : 0 < f < MAX_FRAMES → page_address (f * PAGE_SIZE).
Proof. intros Hf. unfold page_address, MAX_FRAMES, PAGE_SIZE in *. split; [lia|]. by apply Z.mod_mul. Qed.

(** The entry [vmm_walk] stores for a new table. *)
Definition table_entry (t : Z) : Z := Z.lor (Z.lor (Z.lor t PTE_PRESENT) PTE_WRITABLE) PTE_USER.

Lemma table_entry_spec t :
  page_address t →
  Z.land (table_entry t) PTE_ADDR_MASK = t ∧
  has (table_entry t) PTE_PRESENT = true ∧ has (table_entry t) PTE_HUGE = false.
Proof.
  intros Ht. unfold table_entry. rewrite <- !Z.lor_assoc.
  change (Z.lor PTE_PRESENT (Z.lor PTE_WRITABLE PTE_USER)) with 7. split; [|split].
  - apply entry_address; [done|]. intros i Hi. apply (testbit_out_of_range 3); lia.
  - by apply (entry_flag t 7 0).
  - by apply (entry_flag t 7 7).
Qed.

(** ** The tree of tables *)

Section tree.
Context {A : Type} `{FA : FrameAllocator A}.
Implicit Types st : vm A.

(** The next table behind an entry, if there is one. *)
Definition entry_table (e : Z) : option Z :=
  if has e PTE_HUGE then None else if has e PTE_PRESENT then Some (Z.land e PTE_ADDR_MASK) else None.

(** The table reached from [root] with the first [n] indices of [v]. *)
Fixpoint tbl (n : nat) (st : vm A) (root v : Z) : option Z :=
  match n with
  | O => Some root
  | S n => t ← tbl n st root v; entry_table (st.(word) (slot t (idx n v)))
  end.

(** Tables are frames the allocator does not hold as free, and no frame is the
    table of two different prefixes. *)
Record vmm_inv (st : vm A) (root : Z) : Prop := {
  vinv_pages : fa_inv st.(pages);
  vinv_frame : ∀ n v t, (n ≤ 3)%nat → tbl n st root v = Some t →
    ∃ f, t = f * PAGE_SIZE ∧ 0 < f < fa_size st.(pages) ∧ f ∉ fa_free st.(pages);
  vinv_tree : ∀ n v m v' t, (n ≤ 3)%nat → (m ≤ 3)%nat →
    tbl n st root v = Some t → tbl m st root v' = Some t → n = m ∧ prefix n v = prefix n v';
}.

Lemma managed_page_address (a : A) f : fa_inv a → 0 < f < fa_size a → page_address (f * PAGE_SIZE).
Proof. intros Ha Hf. apply frame_page_address. pose proof (fa_size_max a Ha). lia. Qed.

(** The words that the translation of [v] reads are the same in [st']. *)
Definition same_path (st st' : vm A) (root v : Z) : Prop :=
  ∀ n t, (n ≤ 3)%nat → tbl n st root v = Some t →
    st'.(word) (slot t (idx n v)) = st.(word) (slot t (idx n v)).

Lemma tbl_prefix n st root v v' :
  (n ≤ 4)%nat → prefix n v = prefix n v' → tbl n st root v = tbl n st root v'.
Proof.
  induction n as [|n IH]; intros Hn Hp; [done|]. apply prefix_S_eq in Hp as [Hp Hi]; [|lia].
  cbn [tbl]. rewrite IH by (done || lia). by rewrite Hi.
Qed.

Lemma same_path_tbl n st st' root v :
  (n ≤ 4)%nat → same_path st st' root v → tbl n st' root v = tbl n st root v.
Proof.
  induction n as [|n IH]; intros Hn Hs; [done|]. cbn [tbl]. rewrite IH by (done || lia).
  destruct (tbl n st root v) as [t|] eqn:E; [|done]. cbn. by rewrite (Hs n t) by (done || lia).
Qed.

(** What [vmm_walk] without [create] returns, and the translation. *)
Lemma walk_step n st root v t k create :
  (n < 3)%nat → tbl n st root v = Some t →
  has (st.(word) (slot t (idx n v))) PTE_HUGE = false →
  has (st.(word) (slot t (idx n v))) PTE_PRESENT = true →
  ∃ t', tbl (S n) st root v = Some t' ∧
    walk_from (S k) (Z.of_nat n) st t v create = walk_from k (Z.of_nat (S n)) st t' v create.
Proof.
  intros Hn Ht Hh Hp. exists (Z.land (st.(word) (slot t (idx n v))) PTE_ADDR_MASK). split.
  { cbn [tbl]. rewrite Ht. cbn. unfold entry_table. by rewrite Hh, Hp. }
  cbn [walk_from]. replace (indices (Z.of_nat n) v) with (idx n v)
    by (destruct n as [|[|[|]]]; [done..|lia]).
  rewrite Hh, Hp. cbn [negb]. by replace (Z.of_nat n + 1) with (Z.of_nat (S n)) by lia.
Qed.

Lemma walk_same k n st st' root v t :
  (n + k = 3)%nat → tbl n st root v = Some t → same_path st st' root v →
  walk_from k (Z.of_nat n) st t v false = (st, (walk_from k (Z.of_nat n) st t v false).2) ∧
  walk_from k (Z.of_nat n) st' t v false = (st', (walk_from k (Z.of_nat n) st t v false).2) ∧
  ∀ p, (walk_from k (Z.of_nat n) st t v false).2 = Some p → st'.(word) p = st.(word) p.
Proof.
  revert n t. induction k as [|k IH]; intros n t Hn Ht Hs.
  { cbn [walk_from snd]. split; [done|]. split; [done|]. intros p [= <-]. assert (n = 3)%nat as -> by lia.
    change (PT_INDEX v) with (idx 3 v). by apply (Hs 3%nat). }
  pose proof (Hs n t ltac:(lia) Ht) as Hw. assert (n < 3)%nat as Hn3 by lia.
  assert (indices (Z.of_nat n) v = idx n v) as Hi by (destruct n as [|[|[|]]]; [done..|lia]).
  destruct (has (st.(word) (slot t (idx n v))) PTE_HUGE) eqn:Eh;
    [|destruct (has (st.(word) (slot t (idx n v))) PTE_PRESENT) eqn:Ep].
  - cbn [walk_from]. rewrite !Hi, Hw, Eh. split; [done|]. split; [done|]. by intros p [= <-].
  - assert (tbl n st' root v = Some t) as Ht' by (rewrite (same_path_tbl n st st'); [done|lia|done]).
    destruct (walk_step n st root v t k false Hn3 Ht Eh Ep) as (t' & Ht1 & ->).
    destruct (walk_step n st' root v t k false Hn3 Ht') as (t'' & Ht2 & ->); [by rewrite Hw..|].
    rewrite (same_path_tbl (S n) st st') in Ht2 by (done || lia).
    assert (t'' = t') as -> by congruence. apply IH; [lia|done|done].
  - cbn [walk_from]. rewrite !Hi, Hw, Eh, Ep. done.
Qed.

Lemma same_path_get_phys st st' ctx v :
  same_path st st' ctx.(pml4) v → vmm_get_phys st' ctx v = vmm_get_phys st ctx v.
Proof.
  intros Hs. destruct (walk_same 3 0 st st' ctx.(pml4) v ctx.(pml4)) as (E1 & E2 & Hw); [done..|].
  unfold vmm_get_phys, vmm_walk. change 0 with (Z.of_nat 0). rewrite E1, E2. cbn [snd].
  destruct (walk_from 3 (Z.of_nat 0) st ctx.(pml4) v false).2 as [p|]; [|done]. by rewrite (Hw p).
Qed.

(** Storing in one entry of a table leaves the other prefixes alone. *)
Lemma put_same_path st root n v t w v' :
  vmm_inv st root → (n ≤ 3)%nat → tbl n st root v = Some t → prefix (S n) v' ≠ prefix (S n) v →
  same_path st (put st (slot t (idx n v)) w) root v'.
Proof.
  intros Hinv Hn Ht Hne m t' Hm Ht'. cbn [word put].
  destruct (Z.eqb_spec (slot t' (idx m v')) (slot t (idx n v))) as [E|]; [|done]. exfalso.
  destruct (vinv_frame _ _ Hinv n v t Hn Ht) as (f & Ef & _).
  destruct (vinv_frame _ _ Hinv m v' t' Hm Ht') as (f' & Ef' & _). subst t t'.
  apply slot_inj in E as [-> Ei]; [|by apply idx_range..].
  destruct (vinv_tree _ _ Hinv m v' n v (f * PAGE_SIZE) Hm Hn Ht' Ht) as [-> Hp].
  apply Hne. by apply prefix_S_eq.
Qed.

(** ** New tables *)

Lemma zero_from_word n st p i x :
  (zero_from n st p i).(word) x = if existsb (λ k, x =? slot p k) (seqZ i (Z.of_nat n)) then 0 else st.(word) x.
Proof.
  revert st i. induction n as [|n IH]; intros st i; cbn [zero_from]; [done|].
  rewrite IH. rewrite (seqZ_cons i (Z.of_nat (S n))) by lia. cbn [existsb word put].
  replace (Z.pred (Z.of_nat (S n))) with (Z.of_nat n) by lia. change (Z.succ i) with (i + 1).
  destruct (existsb _ _); [by rewrite orb_true_r|]. rewrite orb_false_r. by destruct (x =? slot p i).
Qed.

Lemma zero_from_pages n st p i : (zero_from n st p i).(pages) = st.(pages).
Proof. revert st i. induction n as [|n IH]; intros st i; [done|]. cbn [zero_from]. by rewrite IH. Qed.

(** A table obtained from the allocator: a free frame, zeroed; no other frame
    is written. *)
Lemma alloc_table_spec st :
  fa_inv st.(pages) →
  let '(st', t) := alloc_table st in
  fa_inv st'.(pages) ∧ fa_size st'.(pages) = fa_size st.(pages) ∧
  ((t = 0 ∧ st'.(word) = st.(word) ∧ st'.(pages) = st.(pages)) ∨
   ∃ f, t = f * PAGE_SIZE ∧ 0 < f < fa_size st.(pages) ∧ f ∈ fa_free st.(pages) ∧
     fa_free st'.(pages) = fa_free st.(pages) ∖ {[f]} ∧
     (∀ i, 0 ≤ i < 512 → st'.(word) (slot t i) = 0) ∧
     ∀ f' i, f' ≠ f → 0 ≤ i < 512 → st'.(word) (slot (f' * PAGE_SIZE) i) = st.(word) (slot (f' * PAGE_SIZE) i)).
Proof.
  intros Hp. unfold alloc_table, pmm_alloc_page. pose proof (fa_alloc_spec st.(pages) 1 Hp) as H.
  destruct (fa_alloc st.(pages) 1) as [a t]. destruct H as (Ha & Hsz & [[-> ->]|(f & Hf & Hfc & -> & Hsub & Hfree)]); [lia|..].
  { cbn. split; [done|]. split; [done|]. by left. }
  unfold nonzero. rewrite (proj2 (Z.eqb_neq _ 0)) by (unfold PAGE_SIZE; lia). cbn [negb].
  unfold zero_page. rewrite zero_from_pages. cbn [pages]. split; [done|]. split; [done|]. right. exists f.
  assert (frames f 1 = {[f]}) as Efr by (apply set_eq; intros i; rewrite elem_of_frames, elem_of_singleton; lia).
  rewrite Efr in Hsub, Hfree. split; [done|]. split; [lia|]. split; [set_solver|]. split; [done|].
  split; [intros i Hi|intros f' i Hne Hi]; rewrite zero_from_word.
  - replace (existsb _ _) with true; [done|]. symmetry. apply existsb_exists. exists i.
    rewrite Z.eqb_refl. split; [|done]. apply list_elem_of_In, elem_of_seqZ. lia.
  - destruct (existsb _ _) eqn:E; [|done]. exfalso. apply existsb_exists in E as (k & Hk & E).
    apply list_elem_of_In, elem_of_seqZ in Hk. apply Z.eqb_eq in E. apply slot_inj in E as [? _]; [done|lia..].
Qed.

Lemma entry_table_Some e t :
  entry_table e = Some t → has e PTE_HUGE = false ∧ has e PTE_PRESENT = true ∧ t = Z.land e PTE_ADDR_MASK.
Proof. unfold entry_table. destruct (has e PTE_HUGE), (has e PTE_PRESENT); intros [= <-]; done. Qed.

(** A walk gets to every table of the tree. *)
Lemma walk_reach n st root v t create :
  (n ≤ 3)%nat → tbl n st root v = Some t →
  walk_from 3 0 st root v create = walk_from (3 - n) (Z.of_nat n) st t v create.
Proof.
  revert t. induction n as [|n IH]; intros t Hn Ht; [by injection Ht as ->|].
  pose proof Ht as Ht0. cbn [tbl] in Ht. destruct (tbl n st root v) as [t0|] eqn:E0; [|done]. cbn in Ht.
  apply entry_table_Some in Ht as (Hh & Hp & _). rewrite (IH t0) by (done || lia).
  replace (3 - n)%nat with (S (3 - S n)) by lia.
  destruct (walk_step n st root v t0 (3 - S n) create) as (t' & Ht' & ->); [lia|done..|]. congruence.
Qed.

Definition leaf_phys (e v : Z) : Z :=
  if negb (has e PTE_PRESENT) then 0 else
  if has e PTE_HUGE then Z.lor (Z.land e PTE_ADDR_MASK) (Z.land v 0x1FFFFF)
  else Z.lor (Z.land e PTE_ADDR_MASK) (Z.land v 0xFFF).

Lemma get_phys_leaf st ctx v t :
  tbl 3 st ctx.(pml4) v = Some t → vmm_get_phys st ctx v = leaf_phys (st.(word) (slot t (idx 3 v))) v.
Proof.
  intros Ht. unfold vmm_get_phys, vmm_walk. rewrite (walk_reach 3 st _ v t) by done. done.
Qed.

Lemma get_phys_absent n st ctx v t :
  (n < 3)%nat → tbl n st ctx.(pml4) v = Some t →
  has (st.(word) (slot t (idx n v))) PTE_HUGE = false →
  has (st.(word) (slot t (idx n v))) PTE_PRESENT = false →
  vmm_get_phys st ctx v = 0.
Proof.
  intros Hn Ht Hh Hp. unfold vmm_get_phys, vmm_walk. rewrite (walk_reach n st _ v t) by (done || lia).
  replace (3 - n)%nat with (S (3 - S n)) by lia. cbn [walk_from].
  replace (indices (Z.of_nat n) v) with (idx n v) by (destruct n as [|[|[|]]]; [done..|lia]).
  by rewrite Hh, Hp.
Qed.

(** [st2] is [st] with a new, empty table [T] behind the absent entry [idx n v]
    of table [t]. *)
Record grown (st st2 : vm A) (root : Z) (n : nat) (v t T : Z) : Prop := {
  g_inv : vmm_inv st root;
  g_level : (n < 3)%nat;
  g_table : tbl n st root v = Some t;
  g_absent : has (st.(word) (slot t (idx n v))) PTE_HUGE = false ∧
             has (st.(word) (slot t (idx n v))) PTE_PRESENT = false;
  g_pages : fa_inv st2.(pages) ∧ fa_size st2.(pages) = fa_size st.(pages);
  g_frame : ∃ f, T = f * PAGE_SIZE ∧ 0 < f < fa_size st.(pages) ∧ f ∈ fa_free st.(pages) ∧
            fa_free st2.(pages) = fa_free st.(pages) ∖ {[f]};
  g_entry : st2.(word) (slot t (idx n v)) = table_entry T;
  g_zero : ∀ i, 0 ≤ i < 512 → st2.(word) (slot T i) = 0;
  g_other : ∀ f' i, f' * PAGE_SIZE ≠ T → 0 ≤ i < 512 → slot (f' * PAGE_SIZE) i ≠ slot t (idx n v) →
            st2.(word) (slot (f' * PAGE_SIZE) i) = st.(word) (slot (f' * PAGE_SIZE) i);
}.

Lemma alloc_grown st root n v t st1 T :
  vmm_inv st root → (n < 3)%nat → tbl n st root v = Some t →
  has (st.(word) (slot t (idx n v))) PTE_HUGE = false →
  has (st.(word) (slot t (idx n v))) PTE_PRESENT = false →
  alloc_table st = (st1, T) → T ≠ 0 →
  grown st (put st1 (slot t (idx n v)) (table_entry T)) root n v t T.
Proof.
  intros Hinv Hn Ht Hh Hp Eal HT. pose proof (alloc_table_spec st (vinv_pages _ _ Hinv)) as Hal.
  rewrite Eal in Hal. destruct Hal as (Hp1 & Hsz1 & [[? _]|(f & Ef & Hf & Hin & Hfree & Hzero & Hoth)]); [done|].
  destruct (vinv_frame _ _ Hinv n v t ltac:(lia) Ht) as (ft & Eft & Hft & Hnf).
  assert (f ≠ ft) as Hne by (by intros ->).
  split; try done; cbn [word put pages].
  - by exists f.
  - by rewrite Z.eqb_refl.
  - intros i Hi. destruct (Z.eqb_spec (slot T i) (slot t (idx n v))) as [E|_]; [|by apply Hzero].
    subst. apply slot_inj in E as [? _]; [done|done|apply idx_range; lia].
  - intros f' i Hf' Hi Hs. rewrite (proj2 (Z.eqb_neq _ _)) by done. apply Hoth; [|done]. intros ->. by subst.
Qed.

Section grown.
Context {st st2 : vm A} {root : Z} {n : nat} {v t T : Z} (G : grown st st2 root n v t T).

Lemma grown_fresh m v' : (m ≤ 3)%nat → tbl m st root v' ≠ Some T.
Proof.
  intros Hm Ht. destruct (g_frame _ _ _ _ _ _ _ G) as (f & Ef & Hf & Hin & _).
  destruct (vinv_frame _ _ (g_inv _ _ _ _ _ _ _ G) m v' T Hm Ht) as (f' & Ef' & _ & Hnf).
  assert (f = f') as -> by (unfold PAGE_SIZE in *; lia). done.
Qed.

(** The words of the old tables, apart from the changed entry. *)
Lemma grown_word m v' t' :
  (m ≤ 3)%nat → tbl m st root v' = Some t' → ¬ (m = n ∧ prefix (S n) v' = prefix (S n) v) →
  st2.(word) (slot t' (idx m v')) = st.(word) (slot t' (idx m v')).
Proof.
  intros Hm Ht' Hne. pose proof (g_inv _ _ _ _ _ _ _ G) as Hinv. pose proof (g_level _ _ _ _ _ _ _ G) as Hn.
  destruct (vinv_frame _ _ Hinv m v' t' Hm Ht') as (f' & Ef' & _). rewrite Ef'.
  apply (g_other _ _ _ _ _ _ _ G); [|by apply idx_range|].
  - rewrite <- Ef'. intros ->. by apply (grown_fresh m v').
  - pose proof (g_table _ _ _ _ _ _ _ G) as Ht. destruct (vinv_frame _ _ Hinv n v t ltac:(lia) Ht) as (ft & Eft & _).
    rewrite Eft. intros E. apply slot_inj in E as [-> Ei]; [|apply idx_range; lia..].
    destruct (vinv_tree _ _ Hinv m v' n v (ft * PAGE_SIZE)) as [-> Hp]; [lia|lia|congruence|congruence|].
    apply Hne. split; [done|]. by apply prefix_S_eq; [lia|].
Qed.

Lemma grown_tbl m v' :
  (m ≤ 3)%nat →
  tbl m st2 root v' =
    if decide (prefix (S n) v' = prefix (S n) v ∧ (n < m)%nat)
    then (if decide (m = S n) then Some T else None) else tbl m st root v'.
Proof.
  intros Hm. pose proof (g_level _ _ _ _ _ _ _ G) as Hn. induction m as [|m IH].
  { rewrite decide_False by lia. done. }
  cbn [tbl]. rewrite IH by lia. clear IH. destruct (decide (prefix (S n) v' = prefix (S n) v)) as [Ep|Ep].
  - apply prefix_S_eq in Ep as Ep'; [|lia]. destruct Ep' as [Epn Ei].
    destruct (decide (m < n)%nat); [|destruct (decide (m = n)) as [->|Hmn]].
    + rewrite !decide_False by lia. destruct (tbl m st root v') as [t'|] eqn:Et; [|done]. cbn.
      by rewrite (grown_word m v' t') by (done || lia).
    + rewrite (decide_False (P := _ ∧ (n < n)%nat)) by lia. rewrite decide_True by (split; [done|lia]).
      rewrite decide_True by done. rewrite (tbl_prefix n st root v' v) by (done || lia).
      rewrite (g_table _ _ _ _ _ _ _ G). cbn. rewrite Ei, (g_entry _ _ _ _ _ _ _ G).
      destruct (g_frame _ _ _ _ _ _ _ G) as (f & -> & Hf & _).
      destruct (table_entry_spec (f * PAGE_SIZE)) as (E1 & E2 & E3); [by eapply managed_page_address; [apply (g_inv _ _ _ _ _ _ _ G)|]|].
      unfold entry_table. by rewrite E3, E2, E1.
    + rewrite (decide_True (P := _ ∧ (n < m)%nat)) by (split; [done|lia]).
      rewrite (decide_True (P := _ ∧ (n < S m)%nat)) by (split; [done|lia]).
      rewrite (decide_False (P := S m = S n)) by lia.
      destruct (decide (m = S n)); [|done]. cbn. rewrite (g_zero _ _ _ _ _ _ _ G) by (apply idx_range; lia). done.
  - rewrite !decide_False by tauto. destruct (tbl m st root v') as [t'|] eqn:Et; [|done]. cbn.
    by rewrite (grown_word m v' t') by (done || tauto || lia).
Qed.

Lemma grown_inv : vmm_inv st2 root.
Proof.
  pose proof (g_inv _ _ _ _ _ _ _ G) as Hinv. pose proof (g_level _ _ _ _ _ _ _ G) as Hn.
  destruct (g_frame _ _ _ _ _ _ _ G) as (f & ET & Hf & Hin & Hfree).
  destruct (g_pages _ _ _ _ _ _ _ G) as [Hp2 Hsz2]. split; [done| |].
  - intros m v' t' Hm. rewrite grown_tbl by done. rewrite Hfree, Hsz2. case_decide.
    + case_decide; [|done]. intros [= <-]. exists f. split; [done|]. split; [done|]. set_solver.
    + intros Ht'. destruct (vinv_frame _ _ Hinv m v' t' Hm Ht') as (f' & ? & ? & ?).
      exists f'. split; [done|]. split; [done|]. set_solver.
  - intros m1 v1 m2 v2 t' Hm1 Hm2. rewrite !grown_tbl by done.
    destruct (decide (prefix (S n) v1 = _ ∧ _)) as [[Ep1 _]|H1], (decide (prefix (S n) v2 = _ ∧ _)) as [[Ep2 _]|H2].
    + destruct (decide (m1 = S n)) as [->|], (decide (m2 = S n)) as [->|]; [|done..].
      intros _ _. split; [done|congruence].
    + case_decide; [|done]. intros [= <-] Ht'. by apply grown_fresh in Ht'.
    + case_decide; [|done]. intros Ht' [= <-]. by apply grown_fresh in Ht'.
    + by apply (vinv_tree _ _ Hinv).
Qed.

(** Adding an empty table changes no translation. *)
Lemma grown_get_phys ctx v' : ctx.(pml4) = root → vmm_get_phys st2 ctx v' = vmm_get_phys st ctx v'.
Proof.
  intros Hroot. pose proof (g_level _ _ _ _ _ _ _ G) as Hn.
  destruct (decide (prefix (S n) v' = prefix (S n) v)) as [Ep|Ep].
  - apply prefix_S_eq in Ep as Ep'; [|lia]. destruct Ep' as [Epn Ei].
    destruct (g_absent _ _ _ _ _ _ _ G) as [Hh Hp].
    rewrite (get_phys_absent n st ctx v' t); [|done| |by rewrite Ei..].
    2: { rewrite Hroot, (tbl_prefix n st _ v' v) by (done || lia). apply G. }
    assert (tbl (S n) st2 ctx.(pml4) v' = Some T) as HT.
    { rewrite Hroot, grown_tbl by lia. rewrite decide_True by (split; [done|lia]). by rewrite decide_True. }
    pose proof (g_zero _ _ _ _ _ _ _ G (idx (S n) v') (idx_range (S n) v' ltac:(lia))) as Hz.
    destruct (decide (S n = 3)%nat) as [E3|].
    + rewrite E3 in HT, Hz. rewrite (get_phys_leaf st2 ctx v' T HT). by rewrite Hz.
    + apply (get_phys_absent (S n) st2 ctx v' T); [lia|done|by rewrite Hz..].
  - apply same_path_get_phys. rewrite Hroot. intros m t' Hm Ht'. apply grown_word; [done|done|tauto].
Qed.

Definition no_huge (st : vm A) (root v : Z) : Prop :=
  ∀ n t, (n < 3)%nat → tbl n st root v = Some t → has (st.(word) (slot t (idx n v))) PTE_HUGE = false.

Lemma grown_no_huge v' : no_huge st root v' → no_huge st2 root v'.
Proof.
  intros Hno m t' Hm. pose proof (g_level _ _ _ _ _ _ _ G) as Hn. rewrite grown_tbl by lia. case_decide as E.
  - case_decide; [|done]. intros [= <-]. by rewrite (g_zero _ _ _ _ _ _ _ G) by (apply idx_range; lia).
  - intros Ht'. destruct (decide (m = n ∧ prefix (S n) v' = prefix (S n) v)) as [[-> Ep]|Hne].
    + apply prefix_S_eq in Ep as [Epn Ei]; [|lia].
      assert (t' = t) as -> by (rewrite (tbl_prefix n st _ v' v), (g_table _ _ _ _ _ _ _ G) in Ht' by (done || lia); congruence).
      rewrite Ei, (g_entry _ _ _ _ _ _ _ G). destruct (g_frame _ _ _ _ _ _ _ G) as (f & -> & Hf & _).
      apply table_entry_spec. by eapply managed_page_address; [apply (g_inv _ _ _ _ _ _ _ G)|].
    + rewrite (grown_word m v' t') by (done || lia). by apply (Hno m).
Qed.
End grown.

(** A walk that creates tables gets to the page table of [v], or runs out of
    pages on the way; on the way it only adds empty tables, so it keeps every
    property that such steps keep. *)
Lemma walk_create_ind (P : vm A → Prop) root v :
  (∀ st st2 n t T, grown st st2 root n v t T → P st → P st2) →
  ∀ k n st t, (n + k = 3)%nat → vmm_inv st root → no_huge st root v → tbl n st root v = Some t → P st →
  let '(st', r) := walk_from k (Z.of_nat n) st t v true in
  P st' ∧ match r with
          | Some p => ∃ t3, tbl 3 st' root v = Some t3 ∧ p = slot t3 (idx 3 v)
          | None => True
          end.
Proof.
  intros Hstep k. induction k as [|k IH]; intros n st t Hnk Hinv Hno Ht HP.
  { cbn [walk_from]. assert (n = 3)%nat as -> by lia. split; [done|]. by exists t. }
  assert (n < 3)%nat as Hn by lia. pose proof (Hno n t Hn Ht) as Hh.
  destruct (has (st.(word) (slot t (idx n v))) PTE_PRESENT) eqn:Hp.
  { destruct (walk_step n st root v t k true Hn Ht Hh Hp) as (t' & Ht' & ->). apply IH; [lia|done..]. }
  cbn [walk_from]. replace (indices (Z.of_nat n) v) with (idx n v) by (destruct n as [|[|[|]]]; [done..|lia]).
  rewrite Hh, Hp. cbn [negb]. destruct (alloc_table st) as [st1 T] eqn:Eal. unfold nonzero.
  destruct (Z.eqb_spec T 0) as [->|HT]; cbn [negb].
  - pose proof (alloc_table_spec st (vinv_pages _ _ Hinv)) as Hal. rewrite Eal in Hal.
    destruct Hal as (_ & _ & [(_ & Ew & Epg)|(f & Ef & Hf & _)]); [|unfold PAGE_SIZE in *; lia].
    assert (st1 = st) as -> by (destruct st, st1; cbn in *; congruence). done.
  - fold (table_entry T). pose proof (alloc_grown st root n v t st1 T Hinv Hn Ht Hh Hp Eal HT) as G.
    set (st2 := put st1 _ _) in *. replace (Z.of_nat n + 1) with (Z.of_nat (S n)) by lia.
    apply IH; [lia|apply (grown_inv G)|by apply (grown_no_huge G)| |by eapply Hstep].
    rewrite (g_entry _ _ _ _ _ _ _ G). destruct (g_frame _ _ _ _ _ _ _ G) as (f & Ef & Hf & _).
    rewrite (proj1 (table_entry_spec T ltac:(rewrite Ef; by eapply managed_page_address; [apply Hinv|]))).
    rewrite (grown_tbl G) by lia. rewrite decide_True by (split; [done|lia]). by rewrite decide_True.
Qed.

Lemma walk_create_spec st ctx v :
  vmm_inv st ctx.(pml4) → no_huge st ctx.(pml4) v →
  let '(st', r) := vmm_walk st ctx v true in
  (vmm_inv st' ctx.(pml4) ∧ (∀ v', vmm_get_phys st' ctx v' = vmm_get_phys st ctx v') ∧
   ∀ v', no_huge st ctx.(pml4) v' → no_huge st' ctx.(pml4) v') ∧
  match r with
  | Some p => ∃ t3, tbl 3 st' ctx.(pml4) v = Some t3 ∧ p = slot t3 (idx 3 v)
  | None => True
  end.
Proof.
  intros Hinv Hno. unfold vmm_walk.
  apply (walk_create_ind (λ st', vmm_inv st' ctx.(pml4) ∧
    (∀ v', vmm_get_phys st' ctx v' = vmm_get_phys st ctx v') ∧
    ∀ v', no_huge st ctx.(pml4) v' → no_huge st' ctx.(pml4) v') ctx.(pml4) v) with (n := O); try done.
  intros st1 st2 n t T G (_ & Hx & Hn). split; [apply (grown_inv G)|]. split.
  - intros v'. rewrite <- Hx. by apply (grown_get_phys G).
  - intros v' Hv'. by apply (grown_no_huge G), Hn.
Qed.

(** Storing a leaf entry of [v]. *)
Lemma put_leaf_tbl st root v t w :
  vmm_inv st root → tbl 3 st root v = Some t →
  let st' := put st (slot t (idx 3 v)) w in
  (∀ m v' t', (m < 3)%nat → tbl m st root v' = Some t' →
    st'.(word) (slot t' (idx m v')) = st.(word) (slot t' (idx m v'))) ∧
  ∀ m v', (m ≤ 3)%nat → tbl m st' root v' = tbl m st root v'.
Proof.
  intros Hinv Ht st'. destruct (vinv_frame _ _ Hinv 3 v t ltac:(lia) Ht) as (f & Ef & _).
  assert (∀ m v' t', (m < 3)%nat → tbl m st root v' = Some t' →
    st'.(word) (slot t' (idx m v')) = st.(word) (slot t' (idx m v'))) as Hw.
  { intros m v' t' Hm Ht'. cbn [word st' put]. destruct (Z.eqb_spec (slot t' (idx m v')) (slot t (idx 3 v))) as [E|]; [|done].
    destruct (vinv_frame _ _ Hinv m v' t' ltac:(lia) Ht') as (f' & Ef' & _). subst t t'.
    apply slot_inj in E as [-> _]; [|apply idx_range; lia..].
    destruct (vinv_tree _ _ Hinv m v' 3 v (f * PAGE_SIZE)) as [? _]; (done || lia). }
  split; [done|]. intros m v'. induction m as [|m IH]; intros Hm; [done|]. cbn [tbl]. rewrite IH by lia.
  destruct (tbl m st root v') as [t'|] eqn:E; [|done]. cbn [mbind option_bind].
  by rewrite (Hw m v' t') by (done || lia).
Qed.

Lemma put_leaf_spec st ctx v t w :
  vmm_inv st ctx.(pml4) → tbl 3 st ctx.(pml4) v = Some t →
  let st' := put st (slot t (idx 3 v)) w in
  vmm_inv st' ctx.(pml4) ∧ (∀ v', no_huge st ctx.(pml4) v' → no_huge st' ctx.(pml4) v') ∧
  ∀ v', vmm_get_phys st' ctx v' =
    if decide (page_number v' = page_number v) then leaf_phys w v' else vmm_get_phys st ctx v'.
Proof.
  intros Hinv Ht st'. set (root := ctx.(pml4)) in *.
  destruct (put_leaf_tbl st root v t w Hinv Ht) as [Hw Htbl]. fold st' in Hw, Htbl. split; [|split].
  - split; [apply Hinv| |].
    + intros m v' t' Hm. rewrite Htbl by done. by apply (vinv_frame _ _ Hinv).
    + intros m1 v1 m2 v2 t' Hm1 Hm2. rewrite !Htbl by done. by apply (vinv_tree _ _ Hinv).
  - intros v' Hno m t' Hm. rewrite Htbl by lia. intros Ht'. rewrite (Hw m v' t') by done. by apply (Hno m).
  - intros v'. case_decide as Ep.
    + apply prefix_S_eq in Ep as [Ep Ei]; [|lia].
      rewrite (get_phys_leaf st' ctx v' t).
      * rewrite Ei. cbn [word st' put]. by rewrite Z.eqb_refl.
      * fold root. rewrite Htbl by lia. by rewrite (tbl_prefix 3 st root v' v) by (done || lia).
    + apply same_path_get_phys. by apply (put_same_path st root 3 v t w v').
Qed.

(** ** Mapping and unmapping *)

Definition leaf_entry (paddr flags : Z) : Z :=
  Z.lor (Z.land paddr PTE_ADDR_MASK) (Z.land flags (lnot64 PTE_ADDR_MASK)).

Lemma leaf_entry_spec paddr flags :
  page_address paddr →
  Z.land (leaf_entry paddr flags) PTE_ADDR_MASK = paddr ∧
  has (leaf_entry paddr flags) PTE_PRESENT = has flags PTE_PRESENT ∧
  has (leaf_entry paddr flags) PTE_HUGE = has flags PTE_HUGE.
Proof.
  intros Hp. unfold leaf_entry.
  assert (Z.land paddr PTE_ADDR_MASK = paddr) as ->.
  { rewrite <- (Z.lor_0_r paddr) at 1. apply entry_address; [done|]. intros. apply Z.bits_0. }
  set (f := Z.land flags _).
  assert (∀ k, 0 ≤ k < 12 → has f (Z.shiftl 1 k) = has flags (Z.shiftl 1 k)) as Hf.
  { intros k Hk. rewrite !has_testbit by lia. unfold f. rewrite Z.land_spec, lnot64_testbit, mask_testbit by lia.
    rewrite (proj2 (Z.leb_gt 12 k)) by lia. apply andb_true_r. }
  unfold PTE_PRESENT, PTE_HUGE. rewrite !entry_flag, !Hf by (done || lia). split; [|done].
  apply entry_address; [done|]. intros i Hi. unfold f.
  rewrite Z.land_spec, lnot64_testbit, mask_testbit by lia.
  rewrite (proj2 (Z.leb_le 12 i)), (proj2 (Z.ltb_lt i 52)) by lia. apply andb_false_r.
Qed.

Lemma leaf_entry_phys paddr flags v :
  page_address paddr → has flags PTE_PRESENT = true → has flags PTE_HUGE = false →
  leaf_phys (leaf_entry paddr flags) v = Z.lor paddr (Z.land v 0xFFF).
Proof.
  intros Hp Hpr Hh. destruct (leaf_entry_spec paddr flags Hp) as (E1 & E2 & E3).
  unfold leaf_phys. by rewrite E2, E3, E1, Hpr, Hh.
Qed.

Lemma walk_false_spec k n st root v t :
  (n + k = 3)%nat → no_huge st root v → tbl n st root v = Some t →
  (∃ t3, tbl 3 st root v = Some t3 ∧ walk_from k (Z.of_nat n) st t v false = (st, Some (slot t3 (idx 3 v)))) ∨
  (walk_from k (Z.of_nat n) st t v false = (st, None) ∧
   ∃ m tm, (m < 3)%nat ∧ tbl m st root v = Some tm ∧ has (st.(word) (slot tm (idx m v))) PTE_PRESENT = false).
Proof.
  revert n t. induction k as [|k IH]; intros n t Hnk Hno Ht.
  { left. assert (n = 3)%nat as -> by lia. by exists t. }
  assert (n < 3)%nat as Hn by lia. pose proof (Hno n t Hn Ht) as Hh.
  destruct (has (st.(word) (slot t (idx n v))) PTE_PRESENT) eqn:Hp.
  { destruct (walk_step n st root v t k false Hn Ht Hh Hp) as (t' & Ht' & ->). apply IH; [lia|done..]. }
  right. cbn [walk_from]. replace (indices (Z.of_nat n) v) with (idx n v) by (destruct n as [|[|[|]]]; [done..|lia]).
  rewrite Hh, Hp. split; [done|]. by exists n, t.
Qed.

Inductive vm_op :=
| MapPage (vaddr paddr flags : Z)
| UnmapPage (vaddr : Z).

Definition vm_step (st : vm A) (ctx : vmm_ctx_t) (op : vm_op) : vm A :=
  match op with
  | MapPage v p f => vmm_map_page st ctx v p f
  | UnmapPage v => vmm_unmap_page st ctx v
  end.

Definition op_vaddr (op : vm_op) : Z := match op with MapPage v _ _ => v | UnmapPage v => v end.
Definition op_ok (op : vm_op) : Prop :=
  match op with
  | MapPage _ p f => page_address p ∧ has f PTE_PRESENT = true ∧ has f PTE_HUGE = false
  | UnmapPage _ => True
  end.

(** What a call does to the translation [X] of virtual addresses, where 0 is
    "not mapped". A map call that finds no page for a table does nothing. *)
Definition vm_spec (X : Z → Z) (op : vm_op) (X' : Z → Z) : Prop :=
  match op with
  | MapPage v p _ =>
      (∀ v', X' v' = if decide (page_number v' = page_number v) then Z.lor p (Z.land v' 0xFFF) else X v') ∨
      (∀ v', X' v' = X v')
  | UnmapPage v => ∀ v', X' v' = if decide (page_number v' = page_number v) then 0 else X v'
  end.

Lemma map_page_spec st ctx v p f :
  vmm_inv st ctx.(pml4) → no_huge st ctx.(pml4) v →
  page_address p → has f PTE_PRESENT = true → has f PTE_HUGE = false →
  let st' := vmm_map_page st ctx v p f in
  vmm_inv st' ctx.(pml4) ∧ (∀ v', no_huge st ctx.(pml4) v' → no_huge st' ctx.(pml4) v') ∧
  vm_spec (vmm_get_phys st ctx) (MapPage v p f) (vmm_get_phys st' ctx).
Proof.
  intros Hinv Hno Hp Hpr Hh. unfold vmm_map_page.
  pose proof (walk_create_spec st ctx v Hinv Hno) as Hw.
  destruct (vmm_walk st ctx v true) as [st1 [pte|]]; destruct Hw as ((Hinv1 & Hx & Hno1) & Hr).
  - destruct Hr as (t3 & Ht3 & ->). fold (leaf_entry p f).
    destruct (put_leaf_spec st1 ctx v t3 (leaf_entry p f) Hinv1 Ht3) as (Hinv2 & Hno2 & Hx2).
    split; [done|]. split; [auto|]. left. intros v'. rewrite Hx2, Hx. case_decide; [|done].
    by apply leaf_entry_phys.
  - split; [done|]. split; [done|]. by right.
Qed.

Lemma unmap_page_spec st ctx v :
  vmm_inv st ctx.(pml4) → no_huge st ctx.(pml4) v →
  let st' := vmm_unmap_page st ctx v in
  vmm_inv st' ctx.(pml4) ∧ (∀ v', no_huge st ctx.(pml4) v' → no_huge st' ctx.(pml4) v') ∧
  vm_spec (vmm_get_phys st ctx) (UnmapPage v) (vmm_get_phys st' ctx).
Proof.
  intros Hinv Hno. unfold vmm_unmap_page, vmm_walk.
  assert (∀ v', page_number v' = page_number v → ∀ n, (n ≤ 3)%nat → idx n v' = idx n v ∧
    tbl n st ctx.(pml4) v' = tbl n st ctx.(pml4) v) as Hpage.
  { intros v' Ep n Hn. assert (prefix (S n) v' = prefix (S n) v) as E.
    { clear -Ep Hn. destruct n as [|[|[|[|n]]]]; [..|done|lia];
        repeat (apply prefix_S_eq in Ep as [Ep _]; [|lia]; try done). }
    apply prefix_S_eq in E as [E Ei]; [|done]. split; [done|]. apply tbl_prefix; [lia|done]. }
  destruct (walk_false_spec 3 0 st ctx.(pml4) v ctx.(pml4)) as [(t3 & Ht3 & Ew)|(Ew & m & tm & Hm & Htm & Ep)];
    [done..| |]; change 0 with (Z.of_nat 0); rewrite Ew.
  - destruct (has (st.(word) (slot t3 (idx 3 v))) PTE_PRESENT) eqn:Epr.
    + destruct (put_leaf_spec st ctx v t3 0 Hinv Ht3) as (Hinv2 & Hno2 & Hx2).
      split; [done|]. split; [done|]. intros v'. by rewrite Hx2.
    + split; [done|]. split; [done|]. intros v'. case_decide as E; [|done].
      destruct (Hpage v' E 3%nat) as [Ei Et]; [lia|]. rewrite (get_phys_leaf st ctx v' t3) by congruence.
      unfold leaf_phys. by rewrite Ei, Epr.
  - split; [done|]. split; [done|]. intros v'. case_decide as E; [|done].
    destruct (Hpage v' E m) as [Ei Et]; [lia|].
    apply (get_phys_absent m st ctx v' tm); [lia|congruence|rewrite Ei; by apply Hno|by rewrite Ei].
Qed.

Fixpoint vm_run (st : vm A) (ctx : vmm_ctx_t) (ops : list vm_op) : vm A :=
  match ops with
  | [] => st
  | op :: ops => vm_run (vm_step st ctx op) ctx ops
  end.

Inductive vm_trace : (Z → Z) → list vm_op → (Z → Z) → Prop :=
| trace_nil X X' : (∀ v, X' v = X v) → vm_trace X [] X'
| trace_cons X op X1 ops X2 : vm_spec X op X1 → vm_trace X1 ops X2 → vm_trace X (op :: ops) X2.

Lemma vm_run_spec st ctx ops :
  vmm_inv st ctx.(pml4) → Forall op_ok ops → (∀ op, op ∈ ops → no_huge st ctx.(pml4) (op_vaddr op)) →
  vmm_inv (vm_run st ctx ops) ctx.(pml4) ∧
  vm_trace (vmm_get_phys st ctx) ops (vmm_get_phys (vm_run st ctx ops) ctx).
Proof.
  intros Hinv Hops. revert st Hinv. induction Hops as [|op ops Hop _ IH]; intros st Hinv Hno; cbn [vm_run].
  { split; [done|]. by constructor. }
  assert (no_huge st ctx.(pml4) (op_vaddr op)) as Hno1 by (apply Hno; left).
  assert (vmm_inv (vm_step st ctx op) ctx.(pml4) ∧
    (∀ v', no_huge st ctx.(pml4) v' → no_huge (vm_step st ctx op) ctx.(pml4) v') ∧
    vm_spec (vmm_get_phys st ctx) op (vmm_get_phys (vm_step st ctx op) ctx)) as (Hinv1 & Hkeep & Hs).
  { destruct op as [v p f|v]; [destruct Hop as (? & ? & ?); by apply map_page_spec|by apply unmap_page_spec]. }
  destruct (IH _ Hinv1) as [Hinv2 Htr]; [intros op' Hin; apply Hkeep, Hno; by right|].
  split; [done|]. by econstructor.
Qed.

(** ** Address-space contexts *)

(** A step that writes only to frames that were free. *)
Record untouched (st st' : vm A) : Prop := {
  unt_inv : fa_inv st'.(pages);
  unt_size : fa_size st'.(pages) = fa_size st.(pages);
  unt_free : fa_free st'.(pages) ⊆ fa_free st.(pages);
  unt_word : ∀ f i, 0 ≤ i < 512 → f ∉ fa_free st.(pages) →
    st'.(word) (slot (f * PAGE_SIZE) i) = st.(word) (slot (f * PAGE_SIZE) i);
}.

Lemma untouched_path st st' root v : vmm_inv st root → untouched st st' → same_path st st' root v.
Proof.
  intros Hinv U n t Hn Ht. destruct (vinv_frame _ _ Hinv n v t Hn Ht) as (f & -> & _ & Hf).
  by apply (unt_word _ _ U); [apply idx_range|].
Qed.

Lemma untouched_inv st st' root : vmm_inv st root → untouched st st' → vmm_inv st' root.
Proof.
  intros Hinv U. pose proof (λ v, untouched_path st st' root v Hinv U) as Hs. split; [apply U| |].
  - intros n v t Hn Ht. rewrite (same_path_tbl n st st') in Ht by (auto; lia).
    destruct (vinv_frame _ _ Hinv n v t Hn Ht) as (f & ? & ? & Hf). exists f.
    rewrite (unt_size _ _ U). split; [done|]. split; [done|]. intros Hin. by apply Hf, (unt_free _ _ U).
  - intros n v m v' t Hn Hm Ht Ht'. rewrite (same_path_tbl n st st') in Ht by (auto; lia).
    rewrite (same_path_tbl m st st') in Ht' by (auto; lia). by apply (vinv_tree _ _ Hinv n v m v' t).
Qed.

Lemma copy_entries_word n st dst src i :
  (∀ k k', i ≤ k < i + Z.of_nat n → i ≤ k' < i + Z.of_nat n → slot src k ≠ slot dst k') →
  (copy_entries n st dst src i).(pages) = st.(pages) ∧
  (∀ k, i ≤ k < i + Z.of_nat n → (copy_entries n st dst src i).(word) (slot dst k) = st.(word) (slot src k)) ∧
  ∀ x, (∀ k, i ≤ k < i + Z.of_nat n → x ≠ slot dst k) → (copy_entries n st dst src i).(word) x = st.(word) x.
Proof.
  revert st i. induction n as [|n IH]; intros st i Hd; cbn [copy_entries].
  { split; [done|]. split; [intros; lia|done]. }
  destruct (IH (put st (slot dst i) (st.(word) (slot src i))) (i + 1)) as (Hp & Hin & Hout).
  { intros k k' Hk Hk'. apply Hd; lia. }
  split; [by rewrite Hp|]. split.
  - intros k Hk. destruct (decide (k = i)) as [->|Hne].
    + rewrite Hout by (unfold slot; lia). cbn [word put]. by rewrite Z.eqb_refl.
    + rewrite Hin by lia. cbn [word put]. rewrite (proj2 (Z.eqb_neq _ _)); [done|]. apply Hd; lia.
  - intros x Hx. rewrite Hout by (intros k Hk; apply Hx; lia). cbn [word put].
    by rewrite (proj2 (Z.eqb_neq _ _)) by (apply Hx; lia).
Qed.

(** The root table of a new context: the kernel half of [kroot], the rest empty. *)
Record forked (st st' : vm A) (kroot root : Z) : Prop := {
  fk_untouched : untouched st st';
  fk_root : ∃ f, root = f * PAGE_SIZE ∧ f ∈ fa_free st.(pages) ∧ f ∉ fa_free st'.(pages);
  fk_entry : ∀ i, 0 ≤ i < 512 →
    st'.(word) (slot root i) = if i <? 256 then 0 else st.(word) (slot kroot i);
}.

Section forked.
Context {st st' : vm A} {kroot root : Z} (F : forked st st' kroot root) (Hinv : vmm_inv st kroot).

Lemma forked_tbl n v :
  (n ≤ 3)%nat → tbl (S n) st' root v = if idx 0 v <? 256 then None else tbl (S n) st kroot v.
Proof.
  pose proof (idx_range 0 v ltac:(lia)) as Hi. induction n as [|n IH]; intros Hn.
  - cbn [tbl mbind option_bind]. rewrite (fk_entry _ _ _ _ F) by done. by destruct (idx 0 v <? 256).
  - remember (S n) as m eqn:Em. cbn [tbl]. rewrite IH by lia. destruct (idx 0 v <? 256); [done|].
    destruct (tbl m st kroot v) as [t|] eqn:Et; [|done]. cbn [mbind option_bind].
    by rewrite (untouched_path st st' kroot v Hinv (fk_untouched _ _ _ _ F) m t) by (done || lia).
Qed.

Lemma forked_not_root n v : (n ≤ 3)%nat → tbl n st kroot v ≠ Some root.
Proof.
  intros Hn Ht. destruct (fk_root _ _ _ _ F) as (f & -> & Hin & _).
  destruct (vinv_frame _ _ Hinv n v _ Hn Ht) as (f' & E & _ & Hf'). assert (f = f') as -> by (unfold PAGE_SIZE in *; lia). done.
Qed.

Lemma forked_inv : vmm_inv st' root.
Proof.
  pose proof (fk_untouched _ _ _ _ F) as U. destruct (fk_root _ _ _ _ F) as (f & Ef & Hin & Hnf).
  split; [apply U| |].
  - intros n v t Hn Ht. rewrite (unt_size _ _ U). destruct n as [|n].
    + injection Ht as <-. exists f. split; [done|]. split; [by apply fa_free_range, Hin; apply Hinv|done].
    + rewrite forked_tbl in Ht by lia. destruct (idx 0 v <? 256); [done|].
      destruct (vinv_frame _ _ Hinv (S n) v t Hn Ht) as (g & ? & ? & Hg). exists g.
      split; [done|]. split; [done|]. intros Hgin. by apply Hg, (unt_free _ _ U).
  - intros n v m v' t Hn Hm Ht Ht'. destruct n as [|n], m as [|m].
    + split; [done|]. by rewrite !prefix_0.
    + injection Ht as <-. rewrite forked_tbl in Ht' by lia. destruct (idx 0 v' <? 256); [done|].
      by apply forked_not_root in Ht'.
    + injection Ht' as <-. rewrite forked_tbl in Ht by lia. destruct (idx 0 v <? 256); [done|].
      by apply forked_not_root in Ht.
    + rewrite forked_tbl in Ht, Ht' by lia. destruct (idx 0 v <? 256), (idx 0 v' <? 256); [done..|].
      by apply (vinv_tree _ _ Hinv (S n) v (S m) v' t).
Qed.

Lemma forked_get_phys ctx kctx v :
  ctx.(pml4) = root → kctx.(pml4) = kroot →
  vmm_get_phys st' ctx v = if idx 0 v <? 256 then 0 else vmm_get_phys st kctx v.
Proof.
  intros Hr Hk. pose proof (idx_range 0 v ltac:(lia)) as Hi. pose proof (fk_entry _ _ _ _ F (idx 0 v) Hi) as He.
  destruct (Z.ltb_spec (idx 0 v) 256).
  - apply (get_phys_absent 0 st' ctx v root); [lia|by rewrite <- Hr|by rewrite He..].
  - rewrite <- (same_path_get_phys st st' kctx v) by (rewrite Hk; by apply untouched_path, F).
    assert (st'.(word) (slot kroot (idx 0 v)) = st.(word) (slot kroot (idx 0 v))) as Hw.
    { by apply (untouched_path st st' kroot v Hinv (fk_untouched _ _ _ _ F) 0%nat); [lia|]. }
    unfold vmm_get_phys, vmm_walk. rewrite Hr, Hk. cbn [walk_from].
    change (indices 0 v) with (idx 0 v). rewrite He, Hw. set (e := st.(word) (slot kroot (idx 0 v))).
    destruct (has e PTE_HUGE) eqn:Eh; [by rewrite He, Hw|].
    destruct (has e PTE_PRESENT); cbn [negb]; [|done]. done.
Qed.
End forked.

Lemma alloc_page_spec st :
  fa_inv st.(pages) →
  let '(st', p) := pmm_alloc_page st in
  fa_inv st'.(pages) ∧ fa_size st'.(pages) = fa_size st.(pages) ∧ st'.(word) = st.(word) ∧
  ((p = 0 ∧ st' = st) ∨
   ∃ f, p = f * PAGE_SIZE ∧ 0 < f < fa_size st.(pages) ∧ f ∈ fa_free st.(pages) ∧
     fa_free st'.(pages) = fa_free st.(pages) ∖ {[f]}).
Proof.
  intros Hp. unfold pmm_alloc_page. pose proof (fa_alloc_spec st.(pages) 1 Hp) as H.
  destruct (fa_alloc st.(pages) 1) as [a t]. cbn [pages word].
  destruct H as (Ha & Hsz & [[-> ->]|(f & Hf & Hfc & -> & Hsub & Hfree)]); [lia|..].
  { split; [done|]. split; [done|]. split; [done|]. left. by destruct st. }
  assert (frames f 1 = {[f]}) as Efr by (apply set_eq; intros i; rewrite elem_of_frames, elem_of_singleton; lia).
  rewrite Efr in Hsub, Hfree. split; [done|]. split; [done|]. split; [done|]. right. exists f.
  split; [done|]. split; [lia|]. split; [set_solver|done].
Qed.

Lemma free_page_spec st f :
  fa_inv st.(pages) → 0 < f < fa_size st.(pages) →
  let st' := pmm_free_page st (f * PAGE_SIZE) in
  fa_inv st'.(pages) ∧ fa_size st'.(pages) = fa_size st.(pages) ∧ st'.(word) = st.(word) ∧
  fa_free st'.(pages) = fa_free st.(pages) ∪ {[f]}.
Proof.
  intros Hp Hf. destruct (fa_release_spec st.(pages) f 1 Hp) as (Ha & Hsz & Hfree); [lia..|].
  split; [done|]. split; [done|]. split; [done|]. cbn [pages pmm_free_page]. rewrite Hfree. f_equal.
  apply set_eq. intros i. rewrite elem_of_filter, elem_of_frames, elem_of_singleton. lia.
Qed.

(** What [vmm_create_ctx] makes of the tree under the kernel's root. *)
Lemma create_ctx_spec st kctx :
  vmm_inv st kctx.(pml4) →
  let '(st', r) := vmm_create_ctx st kctx in
  match r with
  | None => vmm_inv st' kctx.(pml4) ∧ (∀ v, vmm_get_phys st' kctx v = vmm_get_phys st kctx v) ∧
            fa_free st'.(pages) = fa_free st.(pages)
  | Some (ctx_phys, ctx) =>
      forked st st' kctx.(pml4) ctx.(pml4) ∧ ctx.(cr3) = ctx.(pml4) ∧
      ∃ f g, ctx.(pml4) = f * PAGE_SIZE ∧ ctx_phys = g * PAGE_SIZE ∧ f ≠ g ∧
        {[f; g]} ⊆ fa_free st.(pages) ∧ fa_free st'.(pages) = fa_free st.(pages) ∖ {[f; g]}
  end.
Proof.
  intros Hinv. unfold vmm_create_ctx. pose proof (alloc_table_spec st (vinv_pages _ _ Hinv)) as Hal.
  destruct (alloc_table st) as [st1 T]. destruct Hal as (Hp1 & Hsz1 & [(-> & Ew & Epg)|(f & -> & Hf & Hin & Hfree & Hzero & Hoth)]).
  { cbn. assert (st1 = st) as -> by (destruct st, st1; cbn in *; congruence). done. }
  unfold nonzero at 1. rewrite (proj2 (Z.eqb_neq _ 0)) by (unfold PAGE_SIZE; lia). cbn [negb].
  destruct (vinv_frame _ _ Hinv 0 0 kctx.(pml4)) as (fk & Ek & Hfk & Hnk); [lia|done|].
  assert (f ≠ fk) as Hne by (by intros ->).
  destruct (copy_entries_word 256 st1 (f * PAGE_SIZE) kctx.(pml4) 256) as (Hcp & Hcin & Hcout).
  { rewrite Ek. intros k k' Hk Hk' E. apply slot_inj in E as [? _]; [done|lia..]. }
  set (st2 := copy_entries _ _ _ _ _) in *. clearbody st2.
  assert (∀ i, 0 ≤ i < 512 → st2.(word) (slot (f * PAGE_SIZE) i) = if i <? 256 then 0 else st.(word) (slot kctx.(pml4) i)) as Hent.
  { intros i Hi. destruct (Z.ltb_spec i 256).
    - rewrite Hcout by (intros k Hk E; apply slot_inj in E as [_ ?]; lia). by apply Hzero.
    - rewrite Hcin by lia. rewrite Ek. by apply Hoth. }
  assert (∀ g i, 0 ≤ i < 512 → g ≠ f → st2.(word) (slot (g * PAGE_SIZE) i) = st.(word) (slot (g * PAGE_SIZE) i)) as Hoth2.
  { intros g i Hi Hg. rewrite Hcout; [by apply Hoth|]. intros k Hk E. apply slot_inj in E as [? _]; [done|lia..]. }
  pose proof (alloc_page_spec st2) as Hal2. rewrite Hcp in Hal2. destruct (pmm_alloc_page st2) as [st3 cp].
  destruct (Hal2 Hp1) as (Hp3 & Hsz3 & Hw3 & [[-> ->]|(g & -> & Hg & Hgin & Hgfree)]); clear Hal2.
  - cbn [nonzero Z.eqb negb]. destruct (free_page_spec st2 f) as (Hp4 & Hsz4 & Hw4 & Hfree4); [by rewrite Hcp|rewrite Hcp; lia|].
    rewrite Hcp, Hfree in Hfree4.
    assert (fa_free (pmm_free_page st2 (f * PAGE_SIZE)).(pages) = fa_free st.(pages)) as Efr.
    { rewrite Hfree4. apply set_eq. intros i. destruct (decide (i = f)); set_solver. }
    assert (untouched st (pmm_free_page st2 (f * PAGE_SIZE))) as U.
    { split; [done|congruence|by rewrite Efr|]. intros g i Hi Hg. rewrite Hw4. apply Hoth2; [done|by intros ->]. }
    split; [by eapply untouched_inv|]. split; [|done]. intros v. apply same_path_get_phys. by apply untouched_path.
  - unfold nonzero. rewrite (proj2 (Z.eqb_neq _ 0)) by (unfold PAGE_SIZE; lia). cbn [negb pml4 cr3].
    assert (fa_free st3.(pages) = fa_free st.(pages) ∖ {[f; g]}) as Efr by (rewrite Hgfree, Hfree; set_solver).
    split; [|split; [done|]].
    + split.
      * split; [done|congruence|rewrite Efr; set_solver|]. intros g' i Hi Hg'. rewrite Hw3.
        apply Hoth2; [done|by intros ->].
      * exists f. split; [done|]. split; [done|]. rewrite Efr. set_solver.
      * intros i Hi. rewrite Hw3. by apply Hent.
    + exists f, g. split; [done|]. split; [done|]. rewrite Hfree in Hgin.
      split; [set_solver|]. split; [set_solver|done].
Qed.

(** ** Destroying a context *)

(** The step gave back exactly the frames in [P], and wrote nothing. *)
Record freed (st st' : vm A) (P : Z → Prop) : Prop := {
  fr_inv : fa_inv st'.(pages);
  fr_size : fa_size st'.(pages) = fa_size st.(pages);
  fr_word : st'.(word) = st.(word);
  fr_free : ∀ f, f ∈ fa_free st'.(pages) ↔ f ∈ fa_free st.(pages) ∨ P f;
}.

Lemma freed_refl st (P : Z → Prop) : fa_inv st.(pages) → (∀ f, ¬ P f) → freed st st P.
Proof. intros Hi Hn. split; [done..|]. intros f. specialize (Hn f). tauto. Qed.

Lemma freed_trans st1 st2 st3 P Q R :
  freed st1 st2 P → freed st2 st3 Q → (∀ f, R f ↔ P f ∨ Q f) → freed st1 st3 R.
Proof.
  intros [I1 S1 W1 F1] [I2 S2 W2 F2] HR. split; [done|congruence..|].
  intros f. rewrite F2, F1, HR. tauto.
Qed.

(** [t] is the address of a frame of the machine. *)
Definition managed (st : vm A) (t : Z) : Prop := ∃ f, t = f * PAGE_SIZE ∧ 0 < f < fa_size st.(pages).

Lemma freed_page st t :
  fa_inv st.(pages) → managed st t → freed st (pmm_free_page st t) (λ f, f * PAGE_SIZE = t).
Proof.
  intros Hp (f & -> & Hf). destruct (free_page_spec st f Hp Hf) as (H1 & H2 & H3 & H4).
  split; [done..|]. intros g. rewrite H4, elem_of_union, elem_of_singleton. unfold PAGE_SIZE. split; [intros [?|?]|intros [?|?]]; auto; right; lia.
Qed.

Lemma managed_freed st st' P t : freed st st' P → managed st t → managed st' t.
Proof. intros F (f & ? & ?). exists f. by rewrite (fr_size _ _ _ F). Qed.

(** The test of the loops: is there a table behind the entry? *)
Lemma entry_table_test e :
  negb (has e PTE_PRESENT) || has e PTE_HUGE = match entry_table e with None => true | Some _ => false end.
Proof. unfold entry_table. by destruct (has e PTE_HUGE), (has e PTE_PRESENT). Qed.

Definition below (st : vm A) (t i j f : Z) : Prop :=
  ∃ k, i ≤ k < j ∧ entry_table (st.(word) (slot t k)) = Some (f * PAGE_SIZE).

Lemma free_pts_spec n st pd i :
  fa_inv st.(pages) →
  (∀ k t, i ≤ k < i + Z.of_nat n → entry_table (st.(word) (slot pd k)) = Some t → managed st t) →
  freed st (free_pts n st pd i) (below st pd i (i + Z.of_nat n)).
Proof.
  revert st i. induction n as [|n IH]; intros st i Hp Hm; cbn [free_pts].
  { apply freed_refl; [done|]. intros f (k & Hk & _). lia. }
  rewrite entry_table_test. destruct (entry_table (st.(word) (slot pd i))) as [t|] eqn:E.
  - destruct (entry_table_Some _ _ E) as (_ & _ & Et). rewrite <- Et. clear Et.
    pose proof (freed_page st t Hp (Hm i t ltac:(lia) E)) as F1. set (st1 := pmm_free_page st t) in *.
    eapply freed_trans; [done|apply (IH st1 (i + 1))|].
    + apply F1.
    + intros k t' Hk Et'. rewrite (fr_word _ _ _ F1) in Et'. eapply managed_freed; [done|]. apply (Hm k); [lia|done].
    + intros f. unfold below. rewrite (fr_word _ _ _ F1). split.
      * intros (k & Hk & Ek). destruct (decide (k = i)) as [->|]; [left; congruence|right; exists k; split; [lia|done]].
      * intros [<-|(k & Hk & Ek)]; [exists i; split; [lia|done]|exists k; split; [lia|done]].
  - eapply freed_trans; [apply (freed_refl st (λ _, False)); [done|by intros ? []]|apply (IH st (i + 1) Hp)|].
    + intros k t' Hk. apply Hm. lia.
    + intros f. unfold below. split.
      * intros (k & Hk & Ek). right. exists k. destruct (decide (k = i)) as [->|]; [congruence|]. split; [lia|done].
      * intros [[]|(k & Hk & Ek)]. exists k. split; [lia|done].
Qed.

(** The tables behind the entries [i .. j-1] of a PDPT, two levels deep. *)
Definition below2 (st : vm A) (t i j f : Z) : Prop :=
  ∃ k t', i ≤ k < j ∧ entry_table (st.(word) (slot t k)) = Some t' ∧ (f * PAGE_SIZE = t' ∨ below st t' 0 512 f).

Lemma free_pds_spec n st pdpt i :
  fa_inv st.(pages) →
  (∀ k t, i ≤ k < i + Z.of_nat n → entry_table (st.(word) (slot pdpt k)) = Some t →
     managed st t ∧ ∀ k2 t2, 0 ≤ k2 < 512 → entry_table (st.(word) (slot t k2)) = Some t2 → managed st t2) →
  freed st (free_pds n st pdpt i) (below2 st pdpt i (i + Z.of_nat n)).
Proof.
  revert st i. induction n as [|n IH]; intros st i Hp Hm; cbn [free_pds].
  { apply freed_refl; [done|]. intros f (k & t & Hk & _). lia. }
  rewrite entry_table_test. destruct (entry_table (st.(word) (slot pdpt i))) as [t|] eqn:E.
  - destruct (entry_table_Some _ _ E) as (_ & _ & Et). rewrite <- Et. clear Et.
    destruct (Hm i t ltac:(lia) E) as [Ht Hsub].
    pose proof (free_pts_spec 512 st t 0 Hp Hsub) as F0.
    pose proof (freed_page _ t (fr_inv _ _ _ F0) (managed_freed _ _ _ t F0 Ht)) as F1.
    pose proof (freed_trans _ _ _ _ _ _ F0 F1 (λ f, reflexivity _)) as F. clear F0 F1.
    set (st1 := pmm_free_page _ t) in *.
    eapply freed_trans; [done|apply (IH st1 (i + 1))|].
    + apply F.
    + intros k t' Hk Et'. rewrite (fr_word _ _ _ F) in *. destruct (Hm k t' ltac:(lia) Et') as [H1 H2].
      split; [by eapply managed_freed|]. intros k2 t2 Hk2 E2. eapply managed_freed; [done|]. by eapply H2.
    + intros f. unfold below2, below. rewrite (fr_word _ _ _ F). split.
      * intros (k & t' & Hk & Ek & Hf). destruct (decide (k = i)) as [->|].
        -- assert (t' = t) as -> by congruence. left. tauto.
        -- right. exists k, t'. split; [lia|done].
      * intros [Hf|(k & t' & Hk & Ek & Hf)]; [exists i, t; split; [lia|]; tauto|exists k, t'; split; [lia|done]].
  - eapply freed_trans; [apply (freed_refl st (λ _, False)); [done|by intros ? []]|apply (IH st (i + 1) Hp)|].
    + intros k t' Hk. apply Hm. lia.
    + intros f. unfold below2. split.
      * intros (k & t' & Hk & Ek & Hf). right. exists k, t'. destruct (decide (k = i)) as [->|]; [congruence|]. split; [lia|done].
      * intros [[]|(k & t' & Hk & Ek & Hf)]. exists k, t'. split; [lia|done].
Qed.

(** The tables behind the PML4 entries [i .. j-1], three levels deep. *)
Definition below3 (st : vm A) (t i j f : Z) : Prop :=
  ∃ k t', i ≤ k < j ∧ entry_table (st.(word) (slot t k)) = Some t' ∧ (f * PAGE_SIZE = t' ∨ below2 st t' 0 512 f).

Lemma free_pdpts_spec n st root i :
  fa_inv st.(pages) →
  (∀ k, i ≤ k < i + Z.of_nat n → has (st.(word) (slot root k)) PTE_HUGE = false) →
  (∀ k t, i ≤ k < i + Z.of_nat n → entry_table (st.(word) (slot root k)) = Some t →
     managed st t ∧ ∀ k2 t2, 0 ≤ k2 < 512 → entry_table (st.(word) (slot t k2)) = Some t2 →
     managed st t2 ∧ ∀ k3 t3, 0 ≤ k3 < 512 → entry_table (st.(word) (slot t2 k3)) = Some t3 → managed st t3) →
  freed st (free_pdpts n st root i) (below3 st root i (i + Z.of_nat n)).
Proof.
  revert st i. induction n as [|n IH]; intros st i Hp Hh Hm; cbn [free_pdpts].
  { apply freed_refl; [done|]. intros f (k & t & Hk & _). lia. }
  assert (negb (has (st.(word) (slot root i)) PTE_PRESENT) =
    match entry_table (st.(word) (slot root i)) with None => true | Some _ => false end) as ->.
  { rewrite <- entry_table_test, Hh by lia. by rewrite orb_false_r. }
  destruct (entry_table (st.(word) (slot root i))) as [t|] eqn:E.
  - destruct (entry_table_Some _ _ E) as (_ & _ & Et). rewrite <- Et. clear Et.
    destruct (Hm i t ltac:(lia) E) as [Ht Hsub]. pose proof (free_pds_spec 512 st t 0 Hp Hsub) as F0.
    pose proof (freed_page _ t (fr_inv _ _ _ F0) (managed_freed _ _ _ t F0 Ht)) as F1.
    pose proof (freed_trans _ _ _ _ _ _ F0 F1 (λ f, reflexivity _)) as F. clear F0 F1.
    set (st1 := pmm_free_page _ t) in *.
    eapply freed_trans; [done|apply (IH st1 (i + 1))|].
    + apply F.
    + intros k Hk. rewrite (fr_word _ _ _ F). apply Hh. lia.
    + intros k t' Hk. rewrite (fr_word _ _ _ F). intros Et'. destruct (Hm k t' ltac:(lia) Et') as [H0 H1].
      split; [by eapply managed_freed|]. intros k2 t2 Hk2 E2.
      destruct (H1 k2 t2 Hk2 E2) as [H2 H3]. split; [by eapply managed_freed|]. intros k3 t3 Hk3 E3. eapply managed_freed; [done|]. by eapply H3.
    + intros f. unfold below3, below2, below. rewrite (fr_word _ _ _ F). split.
      * intros (k & t' & Hk & Ek & Hf). destruct (decide (k = i)) as [->|].
        -- assert (t' = t) as -> by congruence. left. tauto.
        -- right. exists k, t'. split; [lia|done].
      * intros [Hf|(k & t' & Hk & Ek & Hf)]; [exists i, t; split; [lia|]; tauto|exists k, t'; split; [lia|done]].
  - eapply freed_trans; [apply (freed_refl st (λ _, False)); [done|by intros ? []]|apply (IH st (i + 1) Hp)|].
    + intros k Hk. apply Hh. lia.
    + intros k t' Hk. apply Hm. lia.
    + intros f. unfold below3. split.
      * intros (k & t' & Hk & Ek & Hf). right. exists k, t'. destruct (decide (k = i)) as [->|]; [congruence|]. split; [lia|done].
      * intros [[]|(k & t' & Hk & Ek & Hf)]. exists k, t'. split; [lia|done].
Qed.

(** The virtual address with given table indices. *)
Definition vaddr_of (i4 i3 i2 : Z) : Z := i4 * 2 ^ 39 + i3 * 2 ^ 30 + i2 * 2 ^ 21.

Lemma idx_vaddr_of i4 i3 i2 :
  0 ≤ i4 < 512 → 0 ≤ i3 < 512 → 0 ≤ i2 < 512 →
  idx 0 (vaddr_of i4 i3 i2) = i4 ∧ idx 1 (vaddr_of i4 i3 i2) = i3 ∧ idx 2 (vaddr_of i4 i3 i2) = i2.
Proof.
  intros. rewrite !idx_div by lia. unfold vaddr_of. cbn. repeat split; div_lia.
Qed.

(** The tables of the user half, as [vmm_destroy_ctx] enumerates them. *)
Definition user_table (st : vm A) (root f : Z) : Prop :=
  ∃ n v, (1 ≤ n ≤ 3)%nat ∧ idx 0 v < 256 ∧ tbl n st root v = Some (f * PAGE_SIZE).

Lemma tbl_vaddr_of st root i4 i3 i2 :
  0 ≤ i4 < 512 → 0 ≤ i3 < 512 → 0 ≤ i2 < 512 →
  let v := vaddr_of i4 i3 i2 in
  let next t i := entry_table (st.(word) (slot t i)) in
  tbl 1 st root v = next root i4 ∧ tbl 2 st root v = (next root i4 ≫= λ t, next t i3) ∧
  tbl 3 st root v = (next root i4 ≫= λ t, next t i3 ≫= λ t, next t i2).
Proof.
  intros H4 H3 H2. destruct (idx_vaddr_of i4 i3 i2 H4 H3 H2) as (E4 & E3 & E2).
  cbn [tbl mbind option_bind]. rewrite E4, E3, E2. by destruct (entry_table (st.(word) (slot root i4))).
Qed.

Lemma below3_user_table st root f : below3 st root 0 256 f ↔ user_table st root f.
Proof.
  split.
  - intros (i4 & t1 & H4 & E4 & [Ef|(i3 & t2 & H3 & E3 & [Ef|(i2 & H2 & E2)])]).
    + exists 1%nat, (vaddr_of i4 0 0). destruct (idx_vaddr_of i4 0 0) as (-> & _); [lia..|].
      destruct (tbl_vaddr_of st root i4 0 0) as (-> & _); [lia..|]. split; [lia|]. split; [lia|]. by rewrite Ef.
    + exists 2%nat, (vaddr_of i4 i3 0). destruct (idx_vaddr_of i4 i3 0) as (-> & _); [lia..|].
      destruct (tbl_vaddr_of st root i4 i3 0) as (_ & -> & _); [lia..|]. split; [lia|]. split; [lia|].
      rewrite E4. cbn. by rewrite Ef.
    + exists 3%nat, (vaddr_of i4 i3 i2). destruct (idx_vaddr_of i4 i3 i2) as (-> & _); [lia..|].
      destruct (tbl_vaddr_of st root i4 i3 i2) as (_ & _ & ->); [lia..|]. split; [lia|]. split; [lia|].
      rewrite E4. cbn. rewrite E3. done.
  - intros (n & v & Hn & Hu & Ht). pose proof (λ k, idx_range k v) as Hr.
    destruct n as [|[|[|[|n]]]]; [lia| | | |lia]; cbn [tbl mbind option_bind] in Ht;
      destruct (entry_table (st.(word) (slot root (idx 0 v)))) as [t1|] eqn:E1; try done; cbn in Ht;
      exists (idx 0 v), t1; (split; [specialize (Hr 0%nat); lia|]); (split; [done|]).
    + left. congruence.
    + right. exists (idx 1 v), (f * PAGE_SIZE). split; [apply Hr; lia|]. split; [done|by left].
    + destruct (entry_table (st.(word) (slot t1 (idx 1 v)))) as [t2|] eqn:E2; [|done]. cbn in Ht.
      right. exists (idx 1 v), t2. split; [apply Hr; lia|]. split; [done|]. right.
      exists (idx 2 v). split; [apply Hr; lia|done].
Qed.

(** Destroying a context gives back the tables of its user half, its root and
    the page of the context structure, and nothing else. *)
Lemma destroy_ctx_spec st ctx g :
  vmm_inv st ctx.(pml4) → ctx.(cr3) = ctx.(pml4) → 0 < g < fa_size st.(pages) →
  (∀ i, 0 ≤ i < 256 → has (st.(word) (slot ctx.(pml4) i)) PTE_HUGE = false) →
  freed st (vmm_destroy_ctx st (Some (g * PAGE_SIZE, ctx)))
    (λ f, user_table st ctx.(pml4) f ∨ f * PAGE_SIZE = ctx.(pml4) ∨ f = g).
Proof.
  intros Hinv Hcr Hg Hh. set (root := ctx.(pml4)) in *.
  assert (∀ n v t, (n ≤ 3)%nat → tbl n st root v = Some t → managed st t) as Hman.
  { intros n v t Hn Ht. destruct (vinv_frame _ _ Hinv n v t Hn Ht) as (f & ? & ? & _). by exists f. }
  assert (freed st (free_pdpts 256 st root 0) (below3 st root 0 256)) as F.
  { apply (free_pdpts_spec 256 st root 0 (vinv_pages _ _ Hinv)); [exact Hh|].
    intros i4 t1 H4 E4. split.
    { apply (Hman 1%nat (vaddr_of i4 0 0)); [lia|]. by destruct (tbl_vaddr_of st root i4 0 0) as (-> & _); [lia..|]. }
    intros i3 t2 H3 E3. split.
    { apply (Hman 2%nat (vaddr_of i4 i3 0)); [lia|]. destruct (tbl_vaddr_of st root i4 i3 0) as (_ & -> & _); [lia..|].
      by rewrite E4. }
    intros i2 t3 H2 E2. apply (Hman 3%nat (vaddr_of i4 i3 i2)); [lia|].
    destruct (tbl_vaddr_of st root i4 i3 i2) as (_ & _ & ->); [lia..|]. rewrite E4. cbn. by rewrite E3. }
  cbn [vmm_destroy_ctx]. rewrite Hcr. fold root.
  pose proof (freed_page _ root (fr_inv _ _ _ F) (managed_freed _ _ _ root F (Hman 0%nat 0 root ltac:(lia) eq_refl))) as F1.
  pose proof (freed_trans _ _ _ _ _ _ F F1 (λ f, reflexivity _)) as F2. clear F F1.
  assert (managed st (g * PAGE_SIZE)) as Hmg by (by exists g).
  pose proof (freed_page _ (g * PAGE_SIZE) (fr_inv _ _ _ F2) (managed_freed _ _ _ _ F2 Hmg)) as F3.
  eapply freed_trans; [exact F2|exact F3|]. intros f. cbn beta. rewrite below3_user_table. unfold PAGE_SIZE.
  split; [intros [?|[?|?]]|intros [[?|?]|?]]; auto; right; lia.
Qed.

(** ** The life of a context *)

(** The state of a context since it was made in state [st0]: its tables are
    the frames taken since then, and no other frame that was in use has been
    written, its root excepted. *)
Record ctx_inv (st0 st : vm A) (root : Z) : Prop := {
  ci_inv : vmm_inv st root;
  ci_huge : ∀ v, idx 0 v < 256 → no_huge st root v;
  ci_size : fa_size st.(pages) = fa_size st0.(pages);
  ci_acct : ∀ f, f ∈ fa_free st0.(pages) ↔ f ∈ fa_free st.(pages) ∨ user_table st root f;
  ci_word : ∀ g i, 0 ≤ i < 512 → g ∉ fa_free st0.(pages) → g * PAGE_SIZE ≠ root →
    st.(word) (slot (g * PAGE_SIZE) i) = st0.(word) (slot (g * PAGE_SIZE) i);
}.

(** A table on the path of a user address is the root or a frame taken since
    the context was made. *)
Lemma ctx_table st0 st root n v t :
  ctx_inv st0 st root → (n ≤ 3)%nat → idx 0 v < 256 → tbl n st root v = Some t →
  ∃ f, t = f * PAGE_SIZE ∧ (t = root ∨ f ∈ fa_free st0.(pages)).
Proof.
  intros Hci Hn Hu Ht. destruct (vinv_frame _ _ (ci_inv _ _ _ Hci) n v t Hn Ht) as (f & -> & _).
  exists f. split; [done|]. destruct n as [|n]; [left; by injection Ht|].
  right. apply (ci_acct _ _ _ Hci). right. exists (S n), v. split; [lia|done].
Qed.

Lemma ctx_inv_grown st0 st st2 root n v t T :
  idx 0 v < 256 → grown st st2 root n v t T → ctx_inv st0 st root → ctx_inv st0 st2 root.
Proof.
  intros Hu G Hci. pose proof (g_level _ _ _ _ _ _ _ G) as Hn.
  destruct (g_pages _ _ _ _ _ _ _ G) as [_ Hsz]. destruct (g_frame _ _ _ _ _ _ _ G) as (f & ET & Hf & Hin & Hfree).
  assert (∀ g, user_table st2 root g ↔ user_table st root g ∨ g = f) as Hut.
  { intros g. split.
    - intros (m & v' & Hm & Hu' & Ht'). rewrite (grown_tbl G) in Ht' by lia. case_decide; [|left; by exists m, v'].
      case_decide; [|done]. right. injection Ht' as E. unfold PAGE_SIZE in *. lia.
    - intros [(m & v' & Hm & Hu' & Ht')| ->].
      + exists m, v'. split; [done|]. split; [done|]. rewrite (grown_tbl G) by lia. case_decide as E; [|done].
        destruct E as [Ep Hlt]. exfalso. apply prefix_S_eq in Ep as [Epn Ei]; [|lia].
        assert (tbl (S n) st root v' = None) as Hnone.
        { cbn [tbl]. rewrite (tbl_prefix n st root v' v), (g_table _ _ _ _ _ _ _ G) by (done || lia). cbn.
          unfold entry_table. rewrite Ei. by destruct (g_absent _ _ _ _ _ _ _ G) as [-> ->]. }
        assert (∀ d, tbl (d + S n) st root v' = None) as Hall.
        { intros d. induction d as [|d IH]; [done|]. cbn [Nat.add tbl]. by rewrite IH. }
        specialize (Hall (m - S n)%nat). replace (m - S n + S n)%nat with m in Hall by lia. congruence.
      + exists (S n), v. split; [lia|]. split; [done|]. rewrite (grown_tbl G) by lia.
        rewrite decide_True by (split; [done|lia]). rewrite decide_True by done. by rewrite ET. }
  split.
  - apply (grown_inv G).
  - intros v' Hv'. apply (grown_no_huge G). by apply (ci_huge _ _ _ Hci).
  - rewrite Hsz. apply Hci.
  - intros g. rewrite Hut, Hfree, elem_of_difference, elem_of_singleton, (ci_acct _ _ _ Hci).
    destruct (decide (g = f)) as [->|]; [|tauto]. split; [auto|]. intros _. by left.
  - intros g i Hi Hg Hr. rewrite <- (ci_word _ _ _ Hci g i Hi Hg Hr).
    apply (g_other _ _ _ _ _ _ _ G); [|done|].
    + rewrite ET. intros E. apply Hg. assert (g = f) as -> by (unfold PAGE_SIZE in *; lia).
      apply (ci_acct _ _ _ Hci). by left.
    + destruct (ctx_table st0 st root n v t Hci ltac:(lia) Hu (g_table _ _ _ _ _ _ _ G)) as (ft & Et & Hft).
      rewrite Et. intros E. apply slot_inj in E as [-> _]; [|done|apply idx_range; lia].
      destruct Hft as [?|?]; [congruence|done].
Qed.

Lemma ctx_inv_put st0 st ctx v t w :
  ctx_inv st0 st ctx.(pml4) → idx 0 v < 256 → tbl 3 st ctx.(pml4) v = Some t →
  ctx_inv st0 (put st (slot t (idx 3 v)) w) ctx.(pml4).
Proof.
  intros Hci Hu Ht. pose proof (ci_inv _ _ _ Hci) as Hinv.
  destruct (put_leaf_spec st ctx v t w Hinv Ht) as (Hinv' & Hno & _). set (st' := put st _ w) in *.
  destruct (ctx_table st0 st _ 3 v t Hci ltac:(lia) Hu Ht) as (ft & Et & Hft).
  assert (∀ g, user_table st' ctx.(pml4) g ↔ user_table st ctx.(pml4) g) as Hut.
  { destruct (put_leaf_tbl st ctx.(pml4) v t w Hinv Ht) as [_ Htbl]. fold st' in Htbl.
    intros g. split; intros (m & v' & Hm & Hu' & Ht'); exists m, v'; (split; [done|]); (split; [done|]);
      rewrite Htbl in * by lia; done. }
  split; [done|by intros v' Hv'; apply Hno, (ci_huge _ _ _ Hci)|apply Hci| |].
  - intros g. rewrite Hut. apply Hci.
  - intros g i Hi Hg Hr. rewrite <- (ci_word _ _ _ Hci g i Hi Hg Hr). cbn [word st' put].
    rewrite (proj2 (Z.eqb_neq _ _)); [done|]. rewrite Et. intros E.
    apply slot_inj in E as [-> _]; [|done|apply idx_range; lia]. destruct Hft as [?|?]; [congruence|done].
Qed.

Lemma ctx_inv_map st0 st ctx v p f :
  ctx_inv st0 st ctx.(pml4) → idx 0 v < 256 → ctx_inv st0 (vmm_map_page st ctx v p f) ctx.(pml4).
Proof.
  intros Hci Hu. unfold vmm_map_page, vmm_walk.
  pose proof (walk_create_ind (λ st', ctx_inv st0 st' ctx.(pml4)) ctx.(pml4) v
    (λ st1 st2 n t T G, ctx_inv_grown st0 st1 st2 _ n v t T Hu G) 3 0 st ctx.(pml4)
    eq_refl (ci_inv _ _ _ Hci) (ci_huge _ _ _ Hci v Hu) eq_refl Hci) as Hw.
  change 0 with (Z.of_nat 0). destruct (walk_from 3 (Z.of_nat 0) st ctx.(pml4) v true) as [st1 [pte|]];
    destruct Hw as [Hci1 Hr]; [|done].
  destruct Hr as (t3 & Ht3 & ->). by apply ctx_inv_put.
Qed.

Lemma ctx_inv_unmap st0 st ctx v :
  ctx_inv st0 st ctx.(pml4) → idx 0 v < 256 → ctx_inv st0 (vmm_unmap_page st ctx v) ctx.(pml4).
Proof.
  intros Hci Hu. unfold vmm_unmap_page, vmm_walk.
  destruct (walk_false_spec 3 0 st ctx.(pml4) v ctx.(pml4)) as [(t3 & Ht3 & Ew)|(Ew & _)];
    [done|by apply (ci_huge _ _ _ Hci)|done| |]; change 0 with (Z.of_nat 0); rewrite Ew; [|done].
  destruct (has _ PTE_PRESENT); [by apply ctx_inv_put|done].
Qed.

Lemma ctx_inv_run st0 st ctx ops :
  Forall (λ op, idx 0 (op_vaddr op) < 256) ops → ctx_inv st0 st ctx.(pml4) →
  ctx_inv st0 (vm_run st ctx ops) ctx.(pml4).
Proof.
  intros Hu. revert st. induction Hu as [|op ops Hop _ IH]; intros st Hci; [done|]. apply IH.
  destruct op; [by apply ctx_inv_map|by apply ctx_inv_unmap].
Qed.

Lemma forked_ctx_inv st st' kroot root :
  vmm_inv st kroot → forked st st' kroot root → ctx_inv st' st' root.
Proof.
  intros Hinv F. split; [by apply (forked_inv F)| |done| |done].
  - intros v Hu n t Hn Ht. destruct n as [|n].
    + injection Ht as <-. rewrite (fk_entry _ _ _ _ F) by (apply idx_range; lia).
      by rewrite (proj2 (Z.ltb_lt _ _)).
    + rewrite (forked_tbl F Hinv) in Ht by lia. by rewrite (proj2 (Z.ltb_lt _ _)) in Ht.
  - intros f. split; [auto|]. intros [?|(n & v & Hn & Hu & Ht)]; [done|]. destruct n as [|n]; [lia|].
    rewrite (forked_tbl F Hinv) in Ht by lia. by rewrite (proj2 (Z.ltb_lt _ _)) in Ht.
Qed.

Lemma vm_trace_ext X Y ops Z' : (∀ v, X v = Y v) → vm_trace X ops Z' → vm_trace Y ops Z'.
Proof.
  intros E H. revert Y E. destruct H as [X X' H|X op X1 ops X2 Hs Ht]; intros Y E.
  - constructor. intros v. by rewrite H.
  - econstructor; [|done]. destruct op; cbn [vm_spec] in *; [destruct Hs as [Hs|Hs]; [left|right]|];
      intros v'; by rewrite Hs, ?E.
Qed.

(** The kernel's translations while a context lives. *)
Lemma ctx_inv_kernel st st1 st2 kctx root v :
  vmm_inv st kctx.(pml4) → forked st st1 kctx.(pml4) root → ctx_inv st1 st2 root →
  vmm_get_phys st2 kctx v = vmm_get_phys st kctx v.
Proof.
  intros Hinv F Hci. apply same_path_get_phys. intros n t Hn Ht.
  destruct (vinv_frame _ _ Hinv n v t Hn Ht) as (f & Ef & _ & Hf).
  pose proof (fk_untouched _ _ _ _ F) as U. rewrite Ef.
  rewrite (ci_word _ _ _ Hci); [apply (unt_word _ _ U)|..]; [by apply idx_range|done|by apply idx_range|..].
  - intros Hin. by apply Hf, (unt_free _ _ U).
  - rewrite <- Ef. intros E. apply (forked_not_root F Hinv n v Hn). congruence.
Qed.

(** C6: the life of an address space. A context made by [vmm_create_ctx] maps
    nothing in its user half and what the kernel maps in the other half; each
    [vmm_map_page] and [vmm_unmap_page] on user addresses changes the
    translation of exactly the page it names (a map call that finds no frame
    for a table changes none) and no translation of the kernel; and
    [vmm_destroy_ctx] gives back every frame the context took and no other. *)
Theorem context_lifecycle st kctx ops :
  vmm_inv st kctx.(pml4) → Forall op_ok ops → Forall (λ op, PML4_INDEX (op_vaddr op) < 256) ops →
  match vmm_create_ctx st kctx with
  | (st1, None) =>
      (∀ v, vmm_get_phys st1 kctx v = vmm_get_phys st kctx v) ∧
      fa_free st1.(pages) = fa_free st.(pages)
  | (st1, Some (p, ctx)) =>
      let st2 := vm_run st1 ctx ops in
      let st3 := vmm_destroy_ctx st2 (Some (p, ctx)) in
      vm_trace (λ v, if PML4_INDEX v <? 256 then 0 else vmm_get_phys st kctx v) ops (vmm_get_phys st2 ctx) ∧
      (∀ v, vmm_get_phys st2 kctx v = vmm_get_phys st kctx v) ∧
      fa_free st3.(pages) = fa_free st.(pages)
  end.
Proof.
  intros Hinv Hok Hu. pose proof (create_ctx_spec st kctx Hinv) as Hc.
  destruct (vmm_create_ctx st kctx) as [st1 [[p ctx]|]]; [|by destruct Hc as (_ & ? & ?)].
  destruct Hc as (F & Hcr & f & g & Ef & -> & Hne & Hsub & Hfree). cbn zeta.
  pose proof (forked_ctx_inv st st1 _ _ Hinv F) as Hci1.
  pose proof (ctx_inv_run st1 st1 ctx ops Hu Hci1) as Hci2. set (st2 := vm_run st1 ctx ops) in *.
  split; [|split].
  - eapply vm_trace_ext; [intros v; exact (forked_get_phys F Hinv ctx kctx v eq_refl eq_refl)|].
    apply vm_run_spec; [apply Hci1|done|]. intros op Hin. apply (ci_huge _ _ _ Hci1).
    rewrite Forall_forall in Hu. by apply Hu.
  - intros v. by apply (ctx_inv_kernel st st1 st2 kctx ctx.(pml4)).
  - pose proof (fk_untouched _ _ _ _ F) as U.
    assert (0 < g < fa_size st2.(pages)) as Hg.
    { rewrite (ci_size _ _ _ Hci2), (unt_size _ _ U). apply fa_free_range; [apply Hinv|set_solver]. }
    destruct (destroy_ctx_spec st2 ctx g (ci_inv _ _ _ Hci2) Hcr Hg) as [_ _ _ Hfr].
    { intros i Hi. destruct (idx_vaddr_of i 0 0) as (E0 & _); [lia..|].
      rewrite <- E0. apply (ci_huge _ _ _ Hci2 (vaddr_of i 0 0)) with (n := O); [lia|lia|done]. }
    apply set_eq. intros x. rewrite Hfr.
    pose proof (ci_acct _ _ _ Hci2 x) as Hx. rewrite Hfree, elem_of_difference in Hx. rewrite Ef in Hx |- *.
    assert (x * PAGE_SIZE = f * PAGE_SIZE ↔ x = f) as -> by (unfold PAGE_SIZE; lia).
    assert (x ∈ ({[f; g]} : gset Z) ↔ x = f ∨ x = g) as Efg by (clear; set_solver).
    assert (x = f ∨ x = g → x ∈ fa_free st.(pages)) as Hfg by (rewrite <- Efg; clear -Hsub; set_solver).
    rewrite Efg in Hx. destruct (decide (x = f)), (decide (x = g)); tauto.
Qed.

(** [vmm_map_page] on an address inside a 2 MiB mapping stores the 4 KiB
    entry over the large one in the page directory, so that from then on the
    data page [p] is read as the page table of the whole 2 MiB region. *)
Theorem map_page_in_huge st ctx v t p f v' :
  vmm_inv st ctx.(pml4) → tbl 2 st ctx.(pml4) v = Some t →
  has (st.(word) (slot t (PD_INDEX v))) PTE_HUGE = true →
  page_address p → has f PTE_PRESENT = true → has f PTE_HUGE = false →
  Z.shiftr (v mod 2 ^ 48) 21 = Z.shiftr (v' mod 2 ^ 48) 21 →
  vmm_get_phys (vmm_map_page st ctx v p f) ctx v' =
    leaf_phys ((vmm_map_page st ctx v p f).(word) (p + 8 * PT_INDEX v')) v'.
Proof.
  intros Hinv Ht Hh Hp Hpr Hhf Hv. apply (get_phys_leaf _ ctx v' p).
  assert (prefix 3 v = prefix 3 v') as Ep by (rewrite !Z.shiftr_div_pow2 in Hv by lia; exact Hv).
  apply prefix_S_eq in Ep as [Ep Ei]; [|lia].
  assert (vmm_map_page st ctx v p f = put st (slot t (idx 2 v)) (leaf_entry p f)) as ->.
  { unfold vmm_map_page, vmm_walk. rewrite (walk_reach 2 st _ v t) by (done || lia). cbn [walk_from Nat.sub].
    change (indices (Z.of_nat 2) v) with (PD_INDEX v). by rewrite Hh. }
  set (st' := put st _ _). cbn [tbl].
  assert (∀ m, (m ≤ 2)%nat → tbl m st' ctx.(pml4) v' = tbl m st ctx.(pml4) v) as Htbl.
  { intros m Hm. assert (tbl m st' ctx.(pml4) v = tbl m st ctx.(pml4) v) as E.
    { clear Ep Ei. induction m as [|m IH]; [done|]. cbn [tbl]. rewrite IH by lia.
      destruct (tbl m st ctx.(pml4) v) as [t'|] eqn:Et; [|done]. cbn [mbind option_bind]. f_equal.
      cbn [word st' put]. destruct (Z.eqb_spec (slot t' (idx m v)) (slot t (idx 2 v))) as [E|]; [|done].
      destruct (vinv_frame _ _ Hinv 2 v t) as (g & -> & _); [lia|done|].
      destruct (vinv_frame _ _ Hinv m v t') as (g' & -> & _); [lia|done|].
      apply slot_inj in E as [-> _]; [|apply idx_range; lia..].
      destruct (vinv_tree _ _ Hinv m v 2 v (g * PAGE_SIZE)) as [? _]; (done || lia). }
    rewrite <- E. symmetry. apply tbl_prefix; [lia|].
    destruct m as [|[|[|m]]]; [by rewrite !prefix_0| |done|lia]. by apply prefix_S_eq in Ep as [Ep _]; [|lia]. }
  change ((t ← tbl 2 st' ctx.(pml4) v'; entry_table (st'.(word) (slot t (idx 2 v')))) = Some p).
  rewrite Htbl, Ht by lia. cbn [mbind option_bind]. rewrite <- Ei. cbn [word st' put]. rewrite Z.eqb_refl.
  destruct (leaf_entry_spec p f Hp) as (E1 & E2 & E3). unfold entry_table. by rewrite E3, E2, E1, Hhf, Hpr.
Qed.
End tree.
