(* ===== verification/KernelVm.v ===== *)
(** * Address spaces on top of the page allocator

    The theorems of [Vmm] applied with the frames of [pmm.c]. *)

From S2P Require Import Prelude FrameAllocator Pmm Vmm.
From stdpp Require Import base numbers list gmap.
Open Scope Z_scope.

(** 64 pages, of which the first 8 are in use; page 7 is the kernel's root. *)
Definition demo_pmm : pmm_t :=
  {| bitmap := 0xFF :: replicate (Z.to_nat 16383) UINT64_MAX; total_pages := 64; free_pages := 56 |}.
Definition demo_vm : vm pmm_t := {| pages := demo_pmm; word := λ _, 0 |}.
Definition demo_kernel : vmm_ctx_t := {| pml4 := 0x7000; cr3 := 0x7000 |}.

Lemma demo_pmm_inv : pmm_inv demo_pmm.
Proof.
  split; [|by intros [_ ?]%elem_of_free_set].
  split; [|by vm_compute]. split; [by vm_compute|]. split; [|by vm_compute].
  apply List.Forall_cons; [lia|]. apply Forall_replicate. unfold UINT64_MAX. lia.
Qed.

(** A tree that is only its root. *)
Lemma root_only_inv (st : vm pmm_t) f :
  (∀ x, st.(word) x = 0) → pmm_inv st.(pages) → 0 < f < total_pages st.(pages) → f ∉ free_set st.(pages) →
  vmm_inv st (f * PAGE_SIZE).
Proof.
  intros Hw Hp Hf Hn.
  assert (∀ n v, tbl (S n) st (f * PAGE_SIZE) v = None) as Hnone.
  { intros n v. induction n as [|n IH]; [cbn; by rewrite Hw|]. remember (S n) as m. cbn [tbl]. by rewrite IH. }
  split; [done| |].
  - intros [|n] v t _ Ht; [|by rewrite Hnone in Ht]. injection Ht as <-. by exists f.
  - intros [|n] v [|m] v' t _ _ Ht Ht'; rewrite ?Hnone in *; try done. split; [done|by rewrite !prefix_0].
Qed.

Lemma demo_vm_inv : vmm_inv demo_vm demo_kernel.(pml4).
Proof.
  apply (root_only_inv demo_vm 7); [done|exact demo_pmm_inv|done|].
  intros [_ ?]%elem_of_free_set. done.
Qed.

Definition demo_ops : list vm_op :=
  [MapPage 0x400000 0x20000 7; MapPage 0x401000 0x23000 7; UnmapPage 0x401000].

Lemma demo_run :
  match vmm_create_ctx demo_vm demo_kernel with
  | (_, None) => False
  | (st1, Some (p, ctx)) =>
      vmm_get_phys (vm_run st1 ctx demo_ops) ctx 0x400123 = 0x20123 ∧
      vmm_get_phys (vm_run st1 ctx demo_ops) ctx 0x401123 = 0
  end.
Proof. vm_compute. by split. Qed.

Lemma context_lifecycle_witness :
  match vmm_create_ctx demo_vm demo_kernel with
  | (_, None) => False
  | (st1, Some (p, ctx)) =>
      let st2 := vm_run st1 ctx demo_ops in
      vmm_get_phys st2 ctx 0x400123 = 0x20123 ∧ vmm_get_phys st2 ctx 0x401123 = 0 ∧
      free_set (pages (vmm_destroy_ctx st2 (Some (p, ctx)))) = free_set demo_pmm
  end.
Proof.
  assert (Forall op_ok demo_ops) as Hok by (repeat (apply List.Forall_cons; [by vm_compute|]); apply List.Forall_nil).
  assert (Forall (λ op, PML4_INDEX (op_vaddr op) < 256) demo_ops) as Hu
    by (repeat (apply List.Forall_cons; [by vm_compute|]); apply List.Forall_nil).
  pose proof (context_lifecycle demo_vm demo_kernel demo_ops demo_vm_inv Hok Hu) as H.
  pose proof demo_run as Hex. destruct (vmm_create_ctx demo_vm demo_kernel) as [st1 [[p ctx]|]]; [|done].
  destruct Hex as [H1 H2]. destruct H as (_ & _ & H3). split; [exact H1|]. split; [exact H2|exact H3].
Defined.

(** A kernel tree with one 2 MiB mapping, of virtual address 0. *)
Definition huge_vm : vm pmm_t :=
  {| pages := demo_pmm;
     word := λ x, if x =? 0x7000 then 0x6007 else if x =? 0x6000 then 0x5007
                  else if x =? 0x5000 then 0x200083 else 0 |}.

Lemma huge_vm_tbl n v :
  tbl n huge_vm 0x7000 v =
    match n with
    | 0%nat => Some 0x7000
    | 1%nat => if idx 0 v =? 0 then Some 0x6000 else None
    | 2%nat => if (idx 0 v =? 0) && (idx 1 v =? 0) then Some 0x5000 else None
    | _ => None
    end.
Proof.
  assert (∀ t w i, 0 ≤ i < 512 → t mod 4096 = 0 → w mod 4096 = 0 → (slot t i =? w) = (t =? w) && (i =? 0)) as Hs.
  { intros t w i Hi Ht Hw. unfold slot. destruct (Z.eqb_spec (t + 8 * i) w), (Z.eqb_spec t w), (Z.eqb_spec i 0); cbn; try done; div_lia. }
  pose proof (λ k, idx_range k v) as Hr. induction n as [|n IH]; [done|]. cbn [tbl]. rewrite IH.
  destruct n as [|[|[|n]]]; cbn [mbind option_bind].
  - cbn [word huge_vm]. rewrite !Hs by (done || (apply Hr; lia)). by destruct (idx 0 v =? 0).
  - destruct (idx 0 v =? 0); [|done]. cbn [mbind option_bind word huge_vm]. rewrite !Hs by (done || (apply Hr; lia)).
    by destruct (idx 1 v =? 0).
  - destruct ((idx 0 v =? 0) && (idx 1 v =? 0)); [|done]. cbn [mbind option_bind word huge_vm]. rewrite !Hs by (done || (apply Hr; lia)).
    by destruct (idx 2 v =? 0).
  - done.
Qed.

Lemma huge_vm_inv : vmm_inv huge_vm 0x7000.
Proof.
  assert (∀ n v t, tbl n huge_vm 0x7000 v = Some t → t = (7 - Z.of_nat n) * 4096 ∧ (n ≤ 2)%nat ∧ Vmm.prefix n v = 0) as H.
  { intros n v t. rewrite huge_vm_tbl. destruct n as [|[|[|n]]]; [| | |done].
    - intros [= <-]. split; [done|]. split; [lia|apply prefix_0].
    - destruct (Z.eqb_spec (idx 0 v) 0) as [E|]; intros [= <-]. split; [done|]. split; [lia|].
      by rewrite prefix_S, prefix_0, E by lia.
    - destruct (Z.eqb_spec (idx 0 v) 0) as [E|], (Z.eqb_spec (idx 1 v) 0) as [E'|]; intros [= <-].
      split; [done|]. split; [lia|]. by rewrite !prefix_S, prefix_0, E, E' by lia. }
  split; [exact demo_pmm_inv| |].
  - intros n v t _ Ht. apply H in Ht as (-> & Hn & _). exists (7 - Z.of_nat n).
    split; [done|]. split; [cbn; lia|]. intros [_ Hb]%elem_of_free_set. by destruct n as [|[|[|n]]]; [..|lia].
  - intros n v m v' t _ _ Ht Ht'. apply H in Ht as (-> & Hn & Ep), Ht' as (E & Hm & Ep').
    assert (n = m) as -> by lia. split; [done|congruence].
Qed.

(** After mapping one 4 KiB page into it, the 2 MiB region no longer translates. *)
Lemma map_page_in_huge_witness :
  let ctx := {| pml4 := 0x7000; cr3 := 0x7000 |} in
  vmm_get_phys huge_vm ctx 0x3000 = 0x203000 ∧
  vmm_get_phys (vmm_map_page huge_vm ctx 0x1000 0x20000 7) ctx 0x3000 = 0.
Proof.
  intros ctx. split; [by vm_compute|].
  rewrite (map_page_in_huge huge_vm ctx 0x1000 0x5000 0x20000 7 0x3000);
    [by vm_compute|exact huge_vm_inv|by vm_compute..].
Defined.
