(* ===== verification/Sched.v ===== *)
(** * The coroutine scheduler ([src/kernel/sched/coroutine.c])

    A coroutine pointer is an index of [coros]: the slots of [coro_pool] come
    first and [IDLE] is the static idle coroutine. Each of the 256 run queues
    is an intrusive list. [kmalloc] and [kfree] are those of the kernel heap:
    [coro_create] takes the address [kmalloc] returned, and [kfree] calls are
    recorded in [released]. [timer_get_ticks] is the argument [now]. The body of
    a coroutine and [coro_switch] are not part of the model: a call that
    switches returns the state in which the next coroutine runs. *)

From S2P Require Import Prelude CMem IList.
From Stdlib Require Import (notations) String.
From stdpp Require Import functions base numbers list gmap.
Open Scope Z_scope.

Definition MAX_COROUTINES : Z := 1024.
Definition CORO_NAME_MAX : Z := 32.
Definition CORO_PRIORITY_MAX : Z := 255.
Definition CORO_PRIORITY_LEVELS : Z := 256.
Definition CORO_STACK_SIZE : Z := 64 * 1024.
Definition TIMER_FREQ_HZ : Z := 1000.
Definition SCHED_PREEMPT_TICKS : Z := TIMER_FREQ_HZ / 100.
Definition IDLE : Z := MAX_COROUTINES.

Inductive coro_state_t := CORO_READY | CORO_RUNNING | CORO_WAITING | CORO_DEAD.
#[export] Instance coro_state_eq_dec : EqDecision coro_state_t.
Proof. solve_decision. Defined.

Record coro_t := {
  rsp : Z; stack_base : Z; state : coro_state_t; priority : Z; id : Z;
  wake_tick : Z; fn : Z; arg : Z; name : list Z; next : option Z;
}.
Definition zero_coro : coro_t :=
  {| rsp := 0; stack_base := 0; state := CORO_READY; priority := 0; id := 0;
     wake_tick := 0; fn := 0; arg := 0; name := replicate (Z.to_nat CORO_NAME_MAX) 0; next := None |}.
#[export] Instance coro_inhabited : Inhabited coro_t := populate zero_coro.

Record sched := {
  coros : list coro_t;
  coro_used : list bool;
  run_queues : list (option Z);
  current_coro : Z;
  next_coro_id : Z;
  sched_preempt_pending : bool;
  sched_ticks_since_switch : Z;
  sched_cancel_broadcast : bool;
  released : list Z;
  stack_mem : gmap Z Z;
}.

(** ** Field updates *)

Definition set_next (c : coro_t) (n : option Z) : coro_t :=
  {| rsp := c.(rsp); stack_base := c.(stack_base); state := c.(state); priority := c.(priority);
     id := c.(id); wake_tick := c.(wake_tick); fn := c.(fn); arg := c.(arg); name := c.(name); next := n |}.
Definition set_state (c : coro_t) (st : coro_state_t) : coro_t :=
  {| rsp := c.(rsp); stack_base := c.(stack_base); state := st; priority := c.(priority);
     id := c.(id); wake_tick := c.(wake_tick); fn := c.(fn); arg := c.(arg); name := c.(name); next := c.(next) |}.
Definition set_wake (c : coro_t) (t : Z) : coro_t :=
  {| rsp := c.(rsp); stack_base := c.(stack_base); state := c.(state); priority := c.(priority);
     id := c.(id); wake_tick := t; fn := c.(fn); arg := c.(arg); name := c.(name); next := c.(next) |}.
Definition set_id (c : coro_t) (i : Z) : coro_t :=
  {| rsp := c.(rsp); stack_base := c.(stack_base); state := c.(state); priority := c.(priority);
     id := i; wake_tick := c.(wake_tick); fn := c.(fn); arg := c.(arg); name := c.(name); next := c.(next) |}.
Definition set_stack (c : coro_t) (b : Z) : coro_t :=
  {| rsp := c.(rsp); stack_base := b; state := c.(state); priority := c.(priority);
     id := c.(id); wake_tick := c.(wake_tick); fn := c.(fn); arg := c.(arg); name := c.(name); next := c.(next) |}.

Definition with_coros (s : sched) (cs : list coro_t) : sched :=
  {| coros := cs; coro_used := s.(coro_used); run_queues := s.(run_queues);
     current_coro := s.(current_coro); next_coro_id := s.(next_coro_id);
     sched_preempt_pending := s.(sched_preempt_pending);
     sched_ticks_since_switch := s.(sched_ticks_since_switch);
     sched_cancel_broadcast := s.(sched_cancel_broadcast); released := s.(released); stack_mem := s.(stack_mem) |}.
Definition with_queues (s : sched) (q : list (option Z)) : sched :=
  {| coros := s.(coros); coro_used := s.(coro_used); run_queues := q;
     current_coro := s.(current_coro); next_coro_id := s.(next_coro_id);
     sched_preempt_pending := s.(sched_preempt_pending);
     sched_ticks_since_switch := s.(sched_ticks_since_switch);
     sched_cancel_broadcast := s.(sched_cancel_broadcast); released := s.(released); stack_mem := s.(stack_mem) |}.
Definition with_used (s : sched) (u : list bool) : sched :=
  {| coros := s.(coros); coro_used := u; run_queues := s.(run_queues);
     current_coro := s.(current_coro); next_coro_id := s.(next_coro_id);
     sched_preempt_pending := s.(sched_preempt_pending);
     sched_ticks_since_switch := s.(sched_ticks_since_switch);
     sched_cancel_broadcast := s.(sched_cancel_broadcast); released := s.(released); stack_mem := s.(stack_mem) |}.
Definition with_next_id (s : sched) (n : Z) : sched :=
  {| coros := s.(coros); coro_used := s.(coro_used); run_queues := s.(run_queues);
     current_coro := s.(current_coro); next_coro_id := n;
     sched_preempt_pending := s.(sched_preempt_pending);
     sched_ticks_since_switch := s.(sched_ticks_since_switch);
     sched_cancel_broadcast := s.(sched_cancel_broadcast); released := s.(released); stack_mem := s.(stack_mem) |}.
Definition with_released (s : sched) (r : list Z) : sched :=
  {| coros := s.(coros); coro_used := s.(coro_used); run_queues := s.(run_queues);
     current_coro := s.(current_coro); next_coro_id := s.(next_coro_id);
     sched_preempt_pending := s.(sched_preempt_pending);
     sched_ticks_since_switch := s.(sched_ticks_since_switch);
     sched_cancel_broadcast := s.(sched_cancel_broadcast); released := r; stack_mem := s.(stack_mem) |}.
Definition with_preempt (s : sched) (b : bool) (t : Z) : sched :=
  {| coros := s.(coros); coro_used := s.(coro_used); run_queues := s.(run_queues);
     current_coro := s.(current_coro); next_coro_id := s.(next_coro_id);
     sched_preempt_pending := b; sched_ticks_since_switch := t;
     sched_cancel_broadcast := s.(sched_cancel_broadcast); released := s.(released); stack_mem := s.(stack_mem) |}.
Definition with_current (s : sched) (c : Z) : sched :=
  {| coros := s.(coros); coro_used := s.(coro_used); run_queues := s.(run_queues);
     current_coro := c; next_coro_id := s.(next_coro_id);
     sched_preempt_pending := s.(sched_preempt_pending);
     sched_ticks_since_switch := s.(sched_ticks_since_switch);
     sched_cancel_broadcast := s.(sched_cancel_broadcast); released := s.(released); stack_mem := s.(stack_mem) |}.
Definition with_cancel (s : sched) (b : bool) : sched :=
  {| coros := s.(coros); coro_used := s.(coro_used); run_queues := s.(run_queues);
     current_coro := s.(current_coro); next_coro_id := s.(next_coro_id);
     sched_preempt_pending := s.(sched_preempt_pending);
     sched_ticks_since_switch := s.(sched_ticks_since_switch);
     sched_cancel_broadcast := b; released := s.(released); stack_mem := s.(stack_mem) |}.
Definition with_mem (s : sched) (m : gmap Z Z) : sched :=
  {| coros := s.(coros); coro_used := s.(coro_used); run_queues := s.(run_queues);
     current_coro := s.(current_coro); next_coro_id := s.(next_coro_id);
     sched_preempt_pending := s.(sched_preempt_pending);
     sched_ticks_since_switch := s.(sched_ticks_since_switch);
     sched_cancel_broadcast := s.(sched_cancel_broadcast); released := s.(released); stack_mem := m |}.
Definition upd (s : sched) (i : Z) (f : coro_t → coro_t) : sched :=
  with_coros s (s.(coros).[i <- f (s.(coros).[i])]).

(** ** Preemption and cancellation flags *)

Definition scheduler_preempt_pending (s : sched) : bool := s.(sched_preempt_pending).
Definition scheduler_preempt_clear (s : sched) : sched :=
  with_preempt s false s.(sched_ticks_since_switch).
Definition scheduler_cancel_broadcast_set (s : sched) (active : bool) : sched := with_cancel s active.
Definition scheduler_cancel_requested (s : sched) : bool := s.(sched_cancel_broadcast).

(** [current_coro] is never null after [coro_init]. *)
Definition scheduler_kernel_timer_tick (s : sched) : sched :=
  let t := u32 (s.(sched_ticks_since_switch) + 1) in
  if t >=? SCHED_PREEMPT_TICKS then
    let pend := if negb (s.(current_coro) =? IDLE) &&
                   bool_decide (state (s.(coros).[s.(current_coro)]) = CORO_RUNNING)
                then true else s.(sched_preempt_pending) in
    with_preempt s pend 0
  else with_preempt s s.(sched_preempt_pending) t.

(** ** Run queues *)

(** The walk of [enqueue] from the element [i]: [tail = &coros[i].next]. *)
Fixpoint tail_from (fuel : nat) (cs : list coro_t) (i : Z) : outcome Z :=
  match fuel with
  | O => NoFuel
  | S fuel =>
      match next (cs.[i]) with
      | None => Ret i
      | Some j => tail_from fuel cs j
      end
  end.

(** A run queue without repetitions has at most [MAX_COROUTINES + 1] elements. *)
Definition walk_fuel : nat := Z.to_nat (MAX_COROUTINES + 2).

Definition enqueue (fuel : nat) (s : sched) (c : Z) : outcome sched :=
  let s := upd s c (λ x, set_next x None) in
  let p := priority (s.(coros).[c]) in
  match s.(run_queues).[p] with
  | None => Ret (with_queues s (s.(run_queues).[p <- Some c]))
  | Some i => t ← tail_from fuel s.(coros) i; Ret (upd s t (λ x, set_next x (Some c)))
  end.

Fixpoint pick_from (n : nat) (s : sched) (p : Z) : sched * Z :=
  match n with
  | O => (s, IDLE)
  | S n =>
      match s.(run_queues).[p] with
      | Some c =>
          let s := with_queues s (s.(run_queues).[p <- next (s.(coros).[c])]) in
          (upd s c (λ x, set_next x None), c)
      | None => pick_from n s (p - 1)
      end
  end.
Definition pick_next_coro (s : sched) : sched * Z :=
  pick_from (Z.to_nat CORO_PRIORITY_LEVELS) s CORO_PRIORITY_MAX.

(** ** Pool slots *)

Fixpoint alloc_from (n : nat) (s : sched) (i : Z) : sched * option Z :=
  match n with
  | O => (s, None)
  | S n =>
      if negb (s.(coro_used).[i]) then
        let s := with_used s (s.(coro_used).[i <- true]) in
        let s := upd s i (λ c, set_id c s.(next_coro_id)) in
        (with_next_id s (u32 (s.(next_coro_id) + 1)), Some i)
      else alloc_from n s (i + 1)
  end.
Definition alloc_coro (s : sched) : sched * option Z := alloc_from (Z.to_nat MAX_COROUTINES) s 0.

Definition free_coro (s : sched) (i : Z) : sched :=
  if i <? MAX_COROUTINES then
    let s := if nonzero (stack_base (s.(coros).[i]))
             then upd (with_released s (stack_base (s.(coros).[i]) :: s.(released))) i (λ c, set_stack c 0)
             else s in
    with_used s (s.(coro_used).[i <- false])
  else s.

Fixpoint wake_from (n : nat) (s : sched) (now i : Z) : outcome sched :=
  match n with
  | O => Ret s
  | S n =>
      let c := s.(coros).[i] in
      s ← (if s.(coro_used).[i] && bool_decide (c.(state) = CORO_WAITING)
              && nonzero c.(wake_tick) && (now >=? c.(wake_tick))
           then enqueue walk_fuel (upd s i (λ c, set_wake (set_state c CORO_READY) 0)) i
           else Ret s);
      wake_from n s now (i + 1)
  end.
Definition wake_sleeping (s : sched) (now : Z) : outcome sched :=
  wake_from (Z.to_nat MAX_COROUTINES) s now 0.

(** ** The interface *)

(** [coro_strncpy]: the loop from [i], [n] iterations at most; [src] holds its terminator. *)
Fixpoint strncpy_from (n : nat) (dst src : list Z) (i : Z) : list Z :=
  match n with
  | O => dst.[i <- 0]
  | S n => if nonzero (src.[i]) then strncpy_from n (dst.[i <- src.[i]]) src (i + 1)
           else dst.[i <- 0]
  end.
Definition coro_strncpy (dst src : list Z) (n : Z) : list Z :=
  strncpy_from (Z.to_nat (n - 1)) dst src 0.

(** [idle_fn]'s address is a parameter. *)
Definition coro_init (s : sched) (idle_fn : Z) : sched :=
  let s := with_queues s (replicate (Z.to_nat CORO_PRIORITY_LEVELS) None) in
  let s := with_used s (replicate (Z.to_nat MAX_COROUTINES) false) in
  let s := upd s IDLE (λ c, {| rsp := c.(rsp); stack_base := 0; state := CORO_RUNNING; priority := 0;
                               id := s.(next_coro_id); wake_tick := 0; fn := idle_fn; arg := c.(arg);
                               name := coro_strncpy c.(name) (bytes "idle" ++ [0]) CORO_NAME_MAX;
                               next := None |}) in
  let s := with_next_id s (u32 (s.(next_coro_id) + 1)) in
  with_current s IDLE.

(** The initial stack on x86_64: nine words pushed below the aligned top. *)
Definition push (m : gmap Z Z) (sp w : Z) : gmap Z Z * Z := (<[sp - 8 := w]> m, sp - 8).
Definition push_all (m : gmap Z Z) (sp : Z) (ws : list Z) : gmap Z Z * Z :=
  fold_left (λ '(m, sp) w, push m sp w) ws (m, sp).
Definition initial_stack (m : gmap Z Z) (stack fn_ arg_ trampoline : Z) : gmap Z Z * Z :=
  push_all m (Z.land (stack + CORO_STACK_SIZE) (lnot64 0xF))
    [arg_; fn_; trampoline; 0; 0; 0; 0; 0; 0].

(** [stack] is what [kmalloc(CORO_STACK_SIZE)] returned and [trampoline] the
    address of [coro_entry_trampoline]; [nm] is the name, if any, with its
    terminator. *)
Definition coro_create (s : sched) (nm : option (list Z)) (fn_ arg_ prio stack trampoline : Z)
    : outcome (sched * option Z) :=
  let '(s, r) := alloc_coro s in
  match r with
  | None => Ret (s, None)
  | Some i =>
      let s := upd s i (λ c, set_stack c stack) in
      if negb (nonzero stack) then Ret (free_coro s i, None) else
      let '(m, sp) := initial_stack s.(stack_mem) stack fn_ arg_ trampoline in
      let s := with_mem s m in
      let s := upd s i (λ c, {| rsp := sp; stack_base := c.(stack_base);
                                state := CORO_READY; priority := prio; id := c.(id);
                                wake_tick := 0; fn := fn_; arg := arg_;
                                name := coro_strncpy c.(name)
                                          (default (bytes "coro" ++ [0]) nm) CORO_NAME_MAX;
                                next := None |}) in
      s ← enqueue walk_fuel s i; Ret (s, Some i)
  end.

(** [coro_yield], up to the [coro_switch] to the new current coroutine. *)
Definition coro_yield (s : sched) (now : Z) : outcome sched :=
  let s := scheduler_preempt_clear s in
  let prev := s.(current_coro) in
  let s := if bool_decide (state (s.(coros).[prev]) = CORO_RUNNING)
           then upd s prev (λ c, set_state c CORO_READY) else s in
  s ← wake_sleeping s now;
  s ← (if bool_decide (state (s.(coros).[prev]) = CORO_READY) then enqueue walk_fuel s prev else Ret s);
  let '(s, nxt) := pick_next_coro s in
  if nxt =? prev then Ret (upd s prev (λ c, set_state c CORO_RUNNING)) else
  let s := upd s nxt (λ c, set_state c CORO_RUNNING) in
  let s := with_current s nxt in
  Ret (with_preempt s s.(sched_preempt_pending) 0).

(** [now] is the tick count read by [coro_sleep], [now'] the one read by
    [wake_sleeping] a little later. *)
Definition coro_sleep (s : sched) (ms now now' : Z) : outcome sched :=
  let s := upd s s.(current_coro) (λ c, set_state c CORO_WAITING) in
  let s := upd s s.(current_coro) (λ c, set_wake c (u64 (now + u64 (ms * TIMER_FREQ_HZ) / 1000))) in
  coro_yield s now'.

Definition coro_exit (s : sched) (now : Z) : outcome sched :=
  coro_yield (upd s s.(current_coro) (λ c, set_state c CORO_DEAD)) now.

Fixpoint reclaim_from (n : nat) (s : sched) (i : Z) : sched :=
  match n with
  | O => s
  | S n =>
      let s := if s.(coro_used).[i] && bool_decide (state (s.(coros).[i]) = CORO_DEAD)
               then free_coro s i else s in
      reclaim_from n s (i + 1)
  end.

(** One turn of the loop of [scheduler_run]. *)
Definition scheduler_turn (s : sched) (now : Z) : outcome sched :=
  s ← wake_sleeping s now;
  let s := reclaim_from (Z.to_nat MAX_COROUTINES) s 0 in
  let '(s, nxt) := pick_next_coro s in
  if (nxt =? IDLE) && (s.(current_coro) =? IDLE) then Ret s else
  let prev := s.(current_coro) in
  let s := if bool_decide (state (s.(coros).[prev]) = CORO_RUNNING)
           then upd s prev (λ c, set_state c CORO_READY) else s in
  s ← (if bool_decide (state (s.(coros).[prev]) = CORO_READY) && negb (prev =? IDLE)
       then enqueue walk_fuel s prev else Ret s);
  let s := upd s nxt (λ c, set_state c CORO_RUNNING) in
  let s := with_current s nxt in
  Ret (if negb (nxt =? prev) then with_preempt s s.(sched_preempt_pending) 0 else s).

(** ** The invariant of the run queues *)

Abbreviation queues := (Z → list Z).
Abbreviation links s := (λ i, next (aget s.(coros) i)).

Definition valid (i : Z) : Prop := 0 ≤ i ≤ MAX_COROUTINES.
Definition level (p : Z) : Prop := 0 ≤ p < CORO_PRIORITY_LEVELS.
Definition alive (s : sched) (i : Z) : Prop := i = IDLE ∨ s.(coro_used).[i] = true.

Record qinv (s : sched) (Q : queues) : Prop := {
  q_len : zlen s.(coros) = MAX_COROUTINES + 1 ∧ zlen s.(coro_used) = MAX_COROUTINES ∧
          zlen s.(run_queues) = CORO_PRIORITY_LEVELS;
  q_prio : ∀ i, valid i → level (priority (s.(coros).[i]));
  q_chain : ∀ p, level p → ilist (links s) (s.(run_queues).[p]) (Q p) ∧ NoDup (Q p);
  q_mem : ∀ p i, level p → i ∈ Q p →
    valid i ∧ alive s i ∧ state (s.(coros).[i]) = CORO_READY ∧ priority (s.(coros).[i]) = p;
}.

(** [s'] differs from [s] only in the links of the queues. *)
Record relinked (s s' : sched) : Prop := {
  rl_zlen : zlen s'.(coros) = zlen s.(coros);
  rl_coros : ∀ i, valid i → set_next (s'.(coros).[i]) None = set_next (s.(coros).[i]) None;
  rl_used : s'.(coro_used) = s.(coro_used);
  rl_current : s'.(current_coro) = s.(current_coro);
}.

Lemma relinked_fields s s' i :
  relinked s s' → valid i →
  state (s'.(coros).[i]) = state (s.(coros).[i]) ∧ priority (s'.(coros).[i]) = priority (s.(coros).[i]) ∧
  wake_tick (s'.(coros).[i]) = wake_tick (s.(coros).[i]).
Proof.
  intros R Hi. pose proof (rl_coros _ _ R i Hi) as E.
  destruct (s'.(coros).[i]), (s.(coros).[i]). unfold set_next in E. cbn in *. by injection E.
Qed.

Lemma relinked_refl s : relinked s s.
Proof. by split. Qed.

Lemma links_trans s1 s2 s3 : relinked s1 s2 → relinked s2 s3 → relinked s1 s3.
Proof.
  intros [L1 C1 U1 K1] [L2 C2 U2 K2]. split; [congruence| |congruence..].
  intros i Hi. rewrite C2 by done. by apply C1.
Qed.

Lemma coros_upd s i f j :
  zlen s.(coros) = MAX_COROUTINES + 1 → valid i → valid j →
  (upd s i f).(coros).[j] = if decide (i = j) then f (s.(coros).[i]) else s.(coros).[j].
Proof. intros Hl Hi Hj. cbn [coros upd with_coros]. unfold valid in *. apply aget_aset; lia. Qed.

Lemma relinked_upd s i n :
  zlen s.(coros) = MAX_COROUTINES + 1 → valid i → relinked s (upd s i (λ c, set_next c n)).
Proof.
  intros Hl Hi. split; [apply zlen_aset| |done..]. intros j Hj. rewrite coros_upd by done.
  by case_decide; subst.
Qed.

Lemma tail_from_spec fuel cs l i z :
  ilist (λ j, next (cs.[j])) (Some i) (l ++ [z]) → (length l < fuel)%nat → tail_from fuel cs i = Ret z.
Proof.
  revert fuel i. induction l as [|j l IH]; intros fuel i Hc Hf; (destruct fuel as [|fuel]; [cbn in Hf; lia|]);
    destruct Hc as [[= ->] Hc]; cbn [tail_from].
  - cbn in Hc. by rewrite Hc.
  - destruct l as [|k l]; cbn [app] in Hc; pose proof Hc as [E _]; rewrite E in Hc |- *;
      apply IH; [done|cbn in *; lia|done|cbn in *; lia].
Qed.

Lemma queue_length s Q p : qinv s Q → level p → Z.of_nat (length (Q p)) ≤ MAX_COROUTINES + 1.
Proof.
  intros Hq Hp. destruct (q_chain _ _ Hq p Hp) as [_ Hnd].
  pose proof (NoDup_range_length (Q p) (MAX_COROUTINES + 1) Hnd) as H. unfold MAX_COROUTINES in *.
  enough (Z.of_nat (length (Q p)) ≤ Z.max 0 (1024 + 1)) by lia. apply H.
  intros i Hi. destruct (q_mem _ _ Hq p i Hp Hi) as [Hv _]. unfold valid, MAX_COROUTINES in Hv. lia.
Qed.

Lemma not_queued s Q c p :
  qinv s Q → level p → c ∉ Q (priority (s.(coros).[c])) → c ∉ Q p.
Proof. intros Hq Hp Hn Hc. destruct (q_mem _ _ Hq p c Hp Hc) as (_ & _ & _ & E). by rewrite E in Hn. Qed.

(** A state that links [c] at the end of its queue and leaves the others alone. *)
Lemma qinv_push s Q c s' :
  qinv s Q → valid c → alive s c → state (s.(coros).[c]) = CORO_READY →
  let p := priority (s.(coros).[c]) in
  c ∉ Q p → relinked s s' → zlen s'.(run_queues) = CORO_PRIORITY_LEVELS →
  (∀ q, level q → q ≠ p → s'.(run_queues).[q] = s.(run_queues).[q]) →
  (∀ q j, level q → q ≠ p → j ∈ Q q → next (s'.(coros).[j]) = next (s.(coros).[j])) →
  ilist (links s') (s'.(run_queues).[p]) (Q p ++ [c]) →
  qinv s' (<[p := Q p ++ [c]]> Q).
Proof.
  intros Hq Hc Hal Hst p Hn R Hlr' Hrq Hoth Hch.
  pose proof (q_len _ _ Hq) as (Hl & Hlu & Hlr). pose proof (q_prio _ _ Hq c Hc) as Hp. fold p in Hp.
  split; [rewrite (rl_zlen _ _ R), (rl_used _ _ R); done| | |].
  - intros i Hi. destruct (relinked_fields _ _ i R Hi) as (_ & -> & _). by apply Hq.
  - intros q Hlq. destruct (q_chain _ _ Hq q Hlq) as [Hcq Hndq]. destruct (decide (q = p)) as [->|Hne].
    + rewrite fn_lookup_insert. split; [done|]. apply NoDup_app. split; [done|].
      split; [intros x Hx ->%list_elem_of_singleton; done|apply NoDup_singleton].
    + rewrite fn_lookup_insert_ne by done. rewrite Hrq by done. split; [|done].
      eapply ilist_ext; [|done]. intros j Hj. by apply (Hoth q).
  - intros q i Hlq Hi. assert (i ∈ Q q ∨ (q = p ∧ i = c)) as Hcase.
    { destruct (decide (q = p)) as [->|Hne]; [|left; by rewrite fn_lookup_insert_ne in Hi].
      rewrite fn_lookup_insert in Hi. apply elem_of_app in Hi as [?|?%list_elem_of_singleton]; auto. }
    unfold alive. rewrite (rl_used _ _ R). destruct Hcase as [Hi'|[-> ->]].
    + destruct (q_mem _ _ Hq q i Hlq Hi') as (Hv & Ha & H1 & H2).
      destruct (relinked_fields _ _ i R Hv) as (-> & -> & _). done.
    + destruct (relinked_fields _ _ c R Hc) as (-> & -> & _). done.
Qed.

Lemma enqueue_spec s Q c :
  qinv s Q → valid c → alive s c → state (s.(coros).[c]) = CORO_READY →
  let p := priority (s.(coros).[c]) in
  c ∉ Q p →
  ∃ s', enqueue walk_fuel s c = Ret s' ∧ relinked s s' ∧ qinv s' (<[p := Q p ++ [c]]> Q).
Proof.
  intros Hq Hc Hal Hst p Hn. pose proof (q_len _ _ Hq) as (Hl & Hlu & Hlr). pose proof (q_prio _ _ Hq c Hc) as Hp. fold p in Hp.
  unfold enqueue. set (s1 := upd s c _). pose proof (relinked_upd s c None Hl Hc) as R1. fold s1 in R1.
  assert (priority (s1.(coros).[c]) = p) as -> by (by apply (relinked_fields s s1 c)).
  assert (∀ j, valid j → next (s1.(coros).[j]) = if decide (c = j) then None else next (s.(coros).[j])) as Hn1.
  { intros j Hj. unfold s1. rewrite coros_upd by done. by case_decide. }
  destruct (q_chain _ _ Hq p Hp) as [Hcp Hndp].
  assert (∀ q j, level q → j ∈ Q q → valid j ∧ c ≠ j) as Hne.
  { intros q j Hlq Hj. split; [by apply (q_mem _ _ Hq q)|]. intros ->. by apply (not_queued s Q j q Hq Hlq Hn). }
  change (s1.(run_queues)) with s.(run_queues). destruct (s.(run_queues).[p]) as [i|] eqn:Ehead.
  - destruct (exists_last (l := Q p)) as (l & z & El); [by intros E; rewrite E in Hcp|].
    assert (ilist (links s1) (Some i) (l ++ [z])) as Hc1.
    { rewrite <- El. eapply ilist_ext; [|done]. intros j Hj. destruct (Hne p j Hp Hj).
      rewrite Hn1 by done. by rewrite decide_False. }
    assert (z ∈ Q p) as Hzp by (rewrite El; set_solver). destruct (Hne p z Hp Hzp) as [Hz Hcz].
    rewrite (tail_from_spec _ s1.(coros) l i z Hc1); cbn [mbind outcome_bind].
    2: { pose proof (queue_length s Q p Hq Hp) as Hlen. rewrite El, length_app in Hlen. cbn in Hlen.
         unfold walk_fuel, MAX_COROUTINES in *. lia. }
    set (s2 := upd s1 z _). eexists. split; [done|].
    assert (zlen s1.(coros) = MAX_COROUTINES + 1) as Hl1 by (rewrite (rl_zlen _ _ R1); done).
    assert (∀ j, valid j → next (s2.(coros).[j]) = if decide (z = j) then Some c else next (s1.(coros).[j])) as Hn2.
    { intros j Hj. unfold s2. rewrite coros_upd by done. by case_decide. }
    assert (relinked s s2) as R by (eapply links_trans; [done|by apply relinked_upd]).
    split; [done|]. apply qinv_push; try done.
    + intros q j Hlq Hqp Hj. destruct (Hne q j Hlq Hj) as [Hvj Hcj]. rewrite Hn2, Hn1 by done.
      rewrite !decide_False; [done|done|]. intros ->. apply Hqp. fold p.
      destruct (q_mem _ _ Hq q j Hlq Hj) as (_ & _ & _ & E1), (q_mem _ _ Hq p j Hp Hzp) as (_ & _ & _ & E2). congruence.
    + fold p. change (s2.(run_queues).[p]) with (s.(run_queues).[p]). rewrite Ehead, El, <- app_assoc.
      eapply ilist_snoc; [exact Hc1|by rewrite <- El|by rewrite <- El| | |].
      * rewrite Hn2 by done. by rewrite decide_True.
      * rewrite Hn2, Hn1 by done. rewrite decide_False by done.
        by rewrite decide_True.
      * intros j Hj. destruct (Hne p j Hp) as [Hvj _]; [rewrite El; set_solver|]. rewrite Hn2 by done.
        rewrite decide_False; [done|]. intros ->. rewrite El in Hndp. apply NoDup_app in Hndp as (_ & Hd & _). by apply (Hd j); [|set_solver].
  - apply ilist_none in Hcp as E. rewrite E in *. eexists. split; [done|].
    match goal with |- relinked s ?x ∧ _ => set (s2 := x) end.
    assert (relinked s s2) as R by (eapply links_trans; [done|by split]).
    split; [done|]. rewrite <- E at 1. apply qinv_push; try done; fold p; rewrite ?E; try done.
    + by cbn; rewrite zlen_aset.
    + intros q Hlq Hqp. cbn. unfold level in *. apply aget_aset_ne; lia.
    + intros q j Hlq Hqp Hj. destruct (Hne q j Hlq Hj). cbn [coros with_queues]. rewrite Hn1 by done. by rewrite decide_False.
    + assert (s2.(run_queues).[p] = Some c) as -> by (unfold s2, level in *; cbn; apply aget_aset_eq; lia).
      split; [done|]. cbn. change (s2.(coros)) with s1.(coros). rewrite Hn1 by done. by rewrite decide_True.
Qed.

(** ** Choosing the next coroutine *)

(** [pick Q] is the abstract choice: the head of the highest non-empty level
    at or below [p], with that level shortened. *)
Fixpoint pick_level (n : nat) (Q : queues) (p : Z) : queues * Z :=
  match n with
  | O => (Q, IDLE)
  | S n => match Q p with c :: l => (<[p := l]> Q, c) | [] => pick_level n Q (p - 1) end
  end.
Definition pick (Q : queues) : queues * Z :=
  pick_level (Z.to_nat CORO_PRIORITY_LEVELS) Q CORO_PRIORITY_MAX.

(** A state whose level [p] has lost its head [c]. *)
Lemma qinv_pop s Q c l p s' :
  qinv s Q → level p → Q p = c :: l → relinked s s' →
  zlen s'.(run_queues) = CORO_PRIORITY_LEVELS →
  (∀ q, level q → q ≠ p → s'.(run_queues).[q] = s.(run_queues).[q]) →
  s'.(run_queues).[p] = next (s.(coros).[c]) →
  (∀ j, valid j → j ≠ c → next (s'.(coros).[j]) = next (s.(coros).[j])) →
  qinv s' (<[p := l]> Q).
Proof.
  intros Hq Hp El R Hlr' Hrq Hhd Hoth.
  pose proof (q_len _ _ Hq) as (Hl & Hlu & Hlr).
  destruct (q_chain _ _ Hq p Hp) as [Hcp Hndp]. rewrite El in Hcp, Hndp.
  apply NoDup_cons in Hndp as [Hnc Hndl]. destruct Hcp as [_ Hcl].
  assert (c ∈ Q p) as Hcq by (rewrite El; left).
  assert (∀ q j, level q → j ∈ (<[p := l]> Q) q → j ∈ Q q ∧ j ≠ c) as Hsub.
  { intros q j Hlq Hj. destruct (decide (q = p)) as [->|Hne].
    - rewrite fn_lookup_insert in Hj. rewrite El. split; [by right|congruence].
    - rewrite fn_lookup_insert_ne in Hj by done. split; [done|]. intros ->.
      destruct (q_mem _ _ Hq q c Hlq Hj) as (_ & _ & _ & E1), (q_mem _ _ Hq p c Hp Hcq) as (_ & _ & _ & E2).
      congruence. }
  split; [rewrite (rl_zlen _ _ R), (rl_used _ _ R); done| | |].
  - intros i Hi. destruct (relinked_fields _ _ i R Hi) as (_ & -> & _). by apply Hq.
  - intros q Hlq. assert (∀ P, ilist (links s) P ((<[p := l]> Q) q) → ilist (links s') P ((<[p := l]> Q) q)) as Hext.
    { intros P. apply ilist_ext. intros j Hj. destruct (Hsub q j Hlq Hj) as [Hj' Hne].
      apply Hoth; [|done]. by apply (q_mem _ _ Hq q). }
    destruct (decide (q = p)) as [->|Hne].
    + rewrite Hhd. split; [apply Hext|]; by rewrite fn_lookup_insert.
    + destruct (q_chain _ _ Hq q Hlq). rewrite Hrq by done. split; [apply Hext|]; by rewrite fn_lookup_insert_ne.
  - intros q i Hlq Hi. destruct (Hsub q i Hlq Hi) as [Hi' _].
    destruct (q_mem _ _ Hq q i Hlq Hi') as (Hv & Ha & H1 & H2).
    unfold alive. rewrite (rl_used _ _ R).
    destruct (relinked_fields _ _ i R Hv) as (-> & -> & _). done.
Qed.

Lemma pick_from_spec n s Q p :
  qinv s Q → Z.of_nat n = p + 1 → p < CORO_PRIORITY_LEVELS →
  (pick_from n s p).2 = (pick_level n Q p).2 ∧ relinked s (pick_from n s p).1 ∧
  qinv (pick_from n s p).1 (pick_level n Q p).1.
Proof.
  intros Hq. revert p. induction n as [|n IH]; intros p Hn Hp; [done|].
  assert (level p) as Hlp by (unfold level; lia).
  pose proof (q_len _ _ Hq) as (Hl & Hlu & Hlr).
  destruct (q_chain _ _ Hq p Hlp) as [Hcp Hndp]. cbn [pick_from pick_level].
  destruct (s.(run_queues).[p]) as [c|] eqn:Ehead.
  - destruct (Q p) as [|c' l] eqn:El; [done|]. pose proof Hcp as [[= <-] Hcl].
    assert (valid c) as Hc by (apply (q_mem _ _ Hq p); [done|rewrite El; left]).
    cbn [fst snd]. set (s1 := with_queues _ _).
    assert (relinked s s1) as R1 by done.
    assert (relinked s (upd s1 c (λ x, set_next x None))) as R
      by (eapply links_trans; [done|by apply relinked_upd]).
    split; [done|]. split; [done|]. eapply (qinv_pop s Q c); try done.
    + unfold s1. cbn. by rewrite zlen_aset.
    + intros q Hlq Hne. unfold s1, level in *. cbn. apply aget_aset_ne; lia.
    + unfold s1, level in *. cbn. apply aget_aset_eq. lia.
    + intros j Hj Hne. rewrite coros_upd by done. by rewrite decide_False.
  - apply ilist_none in Hcp as ->. apply IH; lia.
Qed.

Lemma pick_spec s Q :
  qinv s Q →
  (pick_next_coro s).2 = (pick Q).2 ∧ relinked s (pick_next_coro s).1 ∧ qinv (pick_next_coro s).1 (pick Q).1.
Proof. intros Hq. by apply pick_from_spec. Qed.

(** ** Changing a coroutine that is in no queue *)

Lemma qinv_ext s Q Q' : (∀ p, level p → Q' p = Q p) → qinv s Q → qinv s Q'.
Proof.
  intros He [L P C M]. split; [done|done| |].
  - intros p Hp. rewrite He by done. by apply C.
  - intros p i Hp. rewrite He by done. by apply M.
Qed.

Lemma qinv_upd s Q c f :
  qinv s Q → valid c → (∀ p, level p → c ∉ Q p) →
  level (priority (f (s.(coros).[c]))) → qinv (upd s c f) Q.
Proof.
  intros Hq Hc Hn Hf. pose proof (q_len _ _ Hq) as (Hl & Hlu & Hlr).
  split; [cbn; by rewrite zlen_aset| | |].
  - intros i Hi. rewrite coros_upd by done. case_decide; [by subst|by apply Hq].
  - intros p Hp. destruct (q_chain _ _ Hq p Hp) as [Hcp Hnd]. split; [|done].
    change (run_queues (upd s c f)) with s.(run_queues). eapply ilist_ext; [|exact Hcp].
    intros j Hj. destruct (q_mem _ _ Hq p j Hp Hj) as [Hv _].
    rewrite coros_upd by done. rewrite decide_False; [done|]. intros ->. by apply (Hn p).
  - intros p i Hp Hi. destruct (q_mem _ _ Hq p i Hp Hi) as [Hv Hr].
    rewrite coros_upd by done. rewrite decide_False; [by unfold alive in *|]. intros ->. by apply (Hn p).
Qed.

(** The flags, the current coroutine and the counters do not matter. *)
Lemma qinv_same s s' Q :
  s'.(coros) = s.(coros) → s'.(coro_used) = s.(coro_used) → s'.(run_queues) = s.(run_queues) →
  qinv s Q → qinv s' Q.
Proof.
  intros E1 E2 E3 [L P C M]. by split; unfold alive in *; rewrite ?E1, ?E2, ?E3.
Qed.

Lemma unqueued s Q c p :
  qinv s Q → state (s.(coros).[c]) ≠ CORO_READY → level p → c ∉ Q p.
Proof. intros Hq Hs Hp Hc. by destruct (q_mem _ _ Hq p c Hp Hc) as (_ & _ & ? & _). Qed.

(** [s'] is [s] where coroutine [i] has become [g i], the links of the queues aside. *)
Record recast (g : Z → coro_t → coro_t) (s s' : sched) : Prop := {
  rc_zlen : zlen s'.(coros) = zlen s.(coros);
  rc_coros : ∀ i, valid i → set_next (s'.(coros).[i]) None = set_next (g i (s.(coros).[i])) None;
  rc_used : s'.(coro_used) = s.(coro_used);
  rc_current : s'.(current_coro) = s.(current_coro);
}.

Lemma recast_fields g s s' i :
  recast g s s' → valid i →
  state (s'.(coros).[i]) = state (g i (s.(coros).[i])) ∧
  priority (s'.(coros).[i]) = priority (g i (s.(coros).[i])) ∧
  wake_tick (s'.(coros).[i]) = wake_tick (g i (s.(coros).[i])).
Proof.
  intros R Hi. pose proof (rc_coros _ _ _ R i Hi) as E.
  destruct (s'.(coros).[i]), (g i _). unfold set_next in E. cbn in *. by injection E.
Qed.

Lemma relinked_recast s s' : relinked s s' → recast (λ _ c, c) s s'.
Proof. by intros [? ? ? ?]. Qed.

Lemma recast_upd s i f :
  zlen s.(coros) = MAX_COROUTINES + 1 → valid i →
  recast (λ j c, if decide (i = j) then f c else c) s (upd s i f).
Proof.
  intros Hl Hi. split; [apply zlen_aset| |done..]. intros j Hj. rewrite coros_upd by done.
  case_decide; by subst.
Qed.

(** ** Waking the sleepers *)

Definition expired (s : sched) (now i : Z) : bool :=
  s.(coro_used).[i] && bool_decide (state (s.(coros).[i]) = CORO_WAITING)
  && nonzero (wake_tick (s.(coros).[i])) && (now >=? wake_tick (s.(coros).[i])).
Definition woken (s : sched) (now p : Z) (l : list Z) : list Z :=
  filter (λ i, expired s now i = true ∧ priority (s.(coros).[i]) = p) l.
Definition rouse (c : coro_t) : coro_t := set_wake (set_state c CORO_READY) 0.

(** One slot of the loop. *)
Lemma wake_one s Q now i :
  qinv s Q → 0 ≤ i < MAX_COROUTINES → expired s now i = true →
  ∃ s', enqueue walk_fuel (upd s i rouse) i = Ret s' ∧
    recast (λ j c, if decide (i = j) then rouse c else c) s s' ∧
    qinv s' (λ p, Q p ++ woken s now p [i]).
Proof.
  intros Hq Hi He. pose proof (q_len _ _ Hq) as (Hl & Hlu & Hlr).
  pose proof He as He0. unfold expired in He. bool_hyps. rewrite bool_decide_eq_true in *.
  assert (valid i) as Hv by (unfold valid; lia).
  assert (∀ p, level p → i ∉ Q p) as Hn by (intros p; apply (unqueued s); [done|congruence]).
  pose proof (coros_upd s i rouse i Hl Hv Hv) as Ei. rewrite decide_True in Ei by done.
  destruct (enqueue_spec (upd s i rouse) Q i) as (s' & -> & R & Hq').
  - apply qinv_upd; [done..|]. cbn. by apply Hq.
  - done.
  - by right.
  - by rewrite Ei.
  - rewrite Ei. apply Hn. by apply Hq.
  - exists s'. split; [done|]. split.
    + pose proof (recast_upd s i rouse Hl Hv) as [L C U K]. destruct R as [L' C' U' K'].
      split; [congruence| |congruence..]. intros j Hj. rewrite C' by done. by apply C.
    + eapply qinv_ext; [|exact Hq']. intros p Hp. rewrite Ei. cbn [rouse priority set_wake set_state].
      unfold woken. rewrite filter_cons, filter_nil. destruct (decide (priority (s.(coros).[i]) = p)) as [<-|Hne].
      * rewrite fn_lookup_insert. by rewrite decide_True.
      * rewrite fn_lookup_insert_ne by done. rewrite decide_False by tauto. by rewrite app_nil_r.
Qed.

Definition roused (s : sched) (now lo : Z) (i : Z) (c : coro_t) : coro_t :=
  if (lo <=? i) && (i <? MAX_COROUTINES) && expired s now i then rouse c else c.

(** The state after slot [i], and what it means for the slots above. *)
Lemma wake_slot s Q now i :
  qinv s Q → 0 ≤ i < MAX_COROUTINES →
  ∃ s1, (if expired s now i then enqueue walk_fuel (upd s i rouse) i else Ret s) = Ret s1 ∧
    recast (λ j c, if (j =? i) && expired s now i then rouse c else c) s s1 ∧
    qinv s1 (λ p, Q p ++ woken s now p [i]).
Proof.
  intros Hq Hi. destruct (expired s now i) eqn:He.
  - destruct (wake_one s Q now i Hq Hi He) as (s1 & E1 & [L C U K] & Hq1). exists s1.
    split; [done|]. split; [split; [done| |done..]|done]. intros j Hj. rewrite C by done.
    case_decide; bool_cases; try done; lia.
  - exists s. split; [done|]. split; [split; [done| |done..]|].
    + intros j _. by rewrite andb_false_r.
    + eapply qinv_ext; [|done]. intros p _. unfold woken. rewrite filter_cons, filter_nil, He.
      rewrite decide_False by naive_solver. by rewrite app_nil_r.
Qed.

Lemma wake_slot_above s s1 now i j :
  recast (λ j c, if (j =? i) && expired s now i then rouse c else c) s s1 →
  0 ≤ j ≤ MAX_COROUTINES → j ≠ i →
  set_next (s1.(coros).[j]) None = set_next (s.(coros).[j]) None ∧
  expired s1 now j = expired s now j ∧ priority (s1.(coros).[j]) = priority (s.(coros).[j]).
Proof.
  intros R Hj Hne. assert (valid j) as Hv by done.
  pose proof (rc_coros _ _ _ R j Hv) as E. unfold expired. rewrite (rc_used _ _ _ R).
  destruct (recast_fields _ _ _ j R Hv) as (E1 & E2 & E3).
  assert ((j =? i) = false) as Eji by lia. cbn beta in E. rewrite Eji in E, E1, E2, E3. cbn [andb] in *.
  by rewrite E1, E2, E3.
Qed.

Lemma roused_step s s1 s' now i :
  0 ≤ i < MAX_COROUTINES → recast (λ j c, if (j =? i) && expired s now i then rouse c else c) s s1 →
  recast (roused s1 now (i + 1)) s1 s' → recast (roused s now i) s s'.
Proof.
  intros Hi R1 R. split.
  - by rewrite (rc_zlen _ _ _ R), (rc_zlen _ _ _ R1).
  - intros j Hj. rewrite (rc_coros _ _ _ R) by done. unfold roused. destruct (decide (j = i)) as [->|Hne].
    + rewrite (proj2 (Z.leb_gt (i + 1) i)) by lia. cbn [andb]. rewrite (rc_coros _ _ _ R1) by done.
      rewrite Z.eqb_refl, Z.leb_refl. by rewrite (proj2 (Z.ltb_lt i MAX_COROUTINES)) by lia.
    + destruct (wake_slot_above s s1 now i j R1 Hj Hne) as (E & -> & _).
      replace (i + 1 <=? j) with (i <=? j) by (bool_cases; lia). destruct (_ && _); [|done].
      destruct (s1.(coros).[j]), (s.(coros).[j]). unfold set_next, rouse in *. cbn in *. congruence.
  - by rewrite (rc_used _ _ _ R), (rc_used _ _ _ R1).
  - by rewrite (rc_current _ _ _ R), (rc_current _ _ _ R1).
Qed.

Lemma wake_from_spec n s Q now i :
  qinv s Q → 0 ≤ i → i + Z.of_nat n = MAX_COROUTINES →
  ∃ s', wake_from n s now i = Ret s' ∧ recast (roused s now i) s s' ∧
    qinv s' (λ p, Q p ++ woken s now p (seqZ i (Z.of_nat n))).
Proof.
  revert s Q i. induction n as [|n IH]; intros s Q i Hq Hi Hn.
  - exists s. split; [done|]. split.
    + split; [done| |done..]. intros j _. unfold roused. bool_cases; try done. lia.
    + eapply qinv_ext; [|done]. intros p _. apply app_nil_r.
  - cbn [wake_from]. fold (expired s now i).
    destruct (wake_slot s Q now i Hq) as (s1 & E1 & R1 & Hq1); [lia|].
    unfold rouse in E1 at 1. rewrite E1. cbn [mbind outcome_bind].
    destruct (IH s1 _ (i + 1) Hq1 ltac:(lia) ltac:(lia)) as (s' & -> & R & Hq').
    exists s'. split; [done|]. split; [apply (roused_step s s1); [lia|done..]|].
    eapply qinv_ext; [|exact Hq']. intros p Hp. cbn beta. rewrite <- app_assoc. f_equal.
    rewrite (seqZ_cons i) by lia. replace (Z.pred (Z.of_nat (S n))) with (Z.of_nat n) by lia.
    replace (Z.succ i) with (i + 1) by lia. unfold woken. rewrite (filter_cons _ i), filter_cons, filter_nil.
    rewrite (filter_iff_in (λ j, expired s1 now j = true ∧ priority (s1.(coros).[j]) = p)
               (λ j, expired s now j = true ∧ priority (s.(coros).[j]) = p)).
    + by case_decide.
    + intros j Hj%elem_of_seqZ. destruct (wake_slot_above s s1 now i j R1) as (_ & -> & ->); [lia..|done].
Qed.

Lemma wake_spec s Q now :
  qinv s Q →
  ∃ s', wake_sleeping s now = Ret s' ∧ recast (roused s now 0) s s' ∧
    qinv s' (λ p, Q p ++ woken s now p (seqZ 0 MAX_COROUTINES)).
Proof.
  intros Hq. pose proof (wake_from_spec (Z.to_nat MAX_COROUTINES) s Q now 0 Hq) as H.
  rewrite Z2Nat.id in H by (unfold MAX_COROUTINES; lia). apply H; lia.
Qed.

(** ** What a choice leaves in the queues *)

Lemma pick_level_mem s Q n p :
  qinv s Q → Z.of_nat n = p + 1 → p < CORO_PRIORITY_LEVELS →
  (∀ q, p < q < CORO_PRIORITY_LEVELS → Q q = []) →
  let '(Q', c) := pick_level n Q p in
  valid c ∧ alive s c ∧
  (∀ q, level q → c ∉ Q' q ∧ (∀ i, i ∈ Q q → i ≠ c → i ∈ Q' q)) ∧
  (∀ q i, level q → i ∈ Q q → q ≤ priority (s.(coros).[c])).
Proof.
  intros Hq. revert p. induction n as [|n IH]; intros p Hn Hp Hhi; cbn [pick_level].
  - assert (∀ q, level q → Q q = []) as He by (intros q Hlq; apply Hhi; unfold level in *; lia).
    split; [done|]. split; [by left|]. split.
    + intros q Hlq. rewrite He by done. split; [by apply not_elem_of_nil|]. by intros i ?%not_elem_of_nil.
    + intros q i Hlq. rewrite He by done. by intros ?%not_elem_of_nil.
  - assert (level p) as Hlp by (unfold level; lia). destruct (Q p) as [|c l] eqn:El.
    { apply IH; [lia..|]. intros q Hq'. destruct (decide (q = p)) as [->|]; [done|apply Hhi; lia]. }
    assert (c ∈ Q p) as Hc by (rewrite El; left). destruct (q_mem _ _ Hq p c Hlp Hc) as (Hv & Ha & _ & Epr).
    split; [done|]. split; [done|]. split.
    + intros q Hlq. destruct (decide (q = p)) as [->|Hne].
      * rewrite fn_lookup_insert, El. destruct (q_chain _ _ Hq p Hlp) as [_ Hnd]. rewrite El in Hnd.
        apply NoDup_cons in Hnd as [Hnc _]. split; [done|]. intros i Hi Hne. by apply elem_of_cons in Hi as [?|?].
      * rewrite fn_lookup_insert_ne by done. split; [|done]. intros Hcq.
        destruct (q_mem _ _ Hq q c Hlq Hcq) as (_ & _ & _ & ?). congruence.
    + intros q i Hlq Hi. rewrite Epr. destruct (decide (q ≤ p)); [done|]. rewrite Hhi in Hi by (unfold level in *; lia).
      by apply not_elem_of_nil in Hi.
Qed.

(** ** Composition of changes *)

Definition link_free (g : Z → coro_t → coro_t) : Prop :=
  ∀ i c n, set_next (g i (set_next c n)) None = set_next (g i c) None.

Lemma recast_trans g h s1 s2 s3 :
  link_free h → recast g s1 s2 → recast h s2 s3 → recast (λ i c, h i (g i c)) s1 s3.
Proof.
  intros Hh [L1 C1 U1 K1] [L2 C2 U2 K2]. split; [congruence| |congruence..].
  intros i Hi. rewrite C2 by done. rewrite <- (Hh i (s2.(coros).[i]) None), C1 by done. apply Hh.
Qed.

Lemma recast_ext g h s s' :
  (∀ i, valid i → g i (s.(coros).[i]) = h i (s.(coros).[i])) → recast g s s' → recast h s s'.
Proof. intros He [L C U K]. split; [done| |done..]. intros i Hi. rewrite C by done. by rewrite He. Qed.

Lemma recast_relinked g s1 s2 s3 : recast g s1 s2 → relinked s2 s3 → recast g s1 s3.
Proof.
  intros [L1 C1 U1 K1] [L2 C2 U2 K2]. split; [congruence| |congruence..].
  intros i Hi. rewrite C2 by done. by apply C1.
Qed.

(** The state change of the coroutine [prev] that gives up the processor. *)
Definition yielded (prev i : Z) (c : coro_t) : coro_t :=
  if (i =? prev) && bool_decide (c.(state) = CORO_RUNNING) then set_state c CORO_READY else c.
Definition started (nxt i : Z) (c : coro_t) : coro_t :=
  if i =? nxt then set_state c CORO_RUNNING else c.

Lemma link_free_roused s now lo : link_free (roused s now lo).
Proof. intros i c n. unfold roused. by destruct (_ && _). Qed.

Lemma link_free_started nxt : link_free (started nxt).
Proof. intros i c n. unfold started. by destruct (_ =? _). Qed.

Lemma link_free_yielded prev : link_free (yielded prev).
Proof. intros i c n. unfold yielded. cbn [state set_next]. by destruct (_ && _). Qed.

Lemma yielded_spec s Q prev :
  qinv s Q → valid prev → state (s.(coros).[prev]) ≠ CORO_READY →
  let s' := if bool_decide (state (s.(coros).[prev]) = CORO_RUNNING)
            then upd s prev (λ c, set_state c CORO_READY) else s in
  qinv s' Q ∧ recast (yielded prev) s s'.
Proof.
  intros Hq Hv Hst. pose proof (q_len _ _ Hq) as (Hl & _). case_bool_decide as E.
  - split; [apply qinv_upd; [done|done| |by apply Hq]; intros p; by apply (unqueued s)|].
    eapply recast_ext; [|by apply recast_upd]. intros i Hi. cbn. unfold yielded.
    case_decide as Ei; [subst|].
    + by rewrite Z.eqb_refl, E.
    + by rewrite (proj2 (Z.eqb_neq i prev)) by done.
  - split; [done|]. split; [done| |done..]. intros i Hi. unfold yielded.
    destruct (Z.eqb_spec i prev) as [->|]; [|done]. by rewrite bool_decide_eq_false_2.
Qed.

Lemma started_spec s Q nxt :
  qinv s Q → valid nxt → (∀ p, level p → nxt ∉ Q p) →
  qinv (upd s nxt (λ c, set_state c CORO_RUNNING)) Q ∧
  recast (started nxt) s (upd s nxt (λ c, set_state c CORO_RUNNING)).
Proof.
  intros Hq Hv Hn. pose proof (q_len _ _ Hq) as (Hl & _).
  split; [apply qinv_upd; [done..|by apply Hq]|].
  eapply recast_ext; [|by apply recast_upd]. intros i Hi. cbn. unfold started.
  case_decide as Ei; [subst; by rewrite Z.eqb_refl|]. by rewrite (proj2 (Z.eqb_neq i nxt)) by done.
Qed.

(** An enqueue that happens when [c] is ready. *)
Lemma enqueue_if s Q c (b : bool) :
  qinv s Q → valid c → alive s c → (b = true → state (s.(coros).[c]) = CORO_READY) →
  let p := priority (s.(coros).[c]) in
  c ∉ Q p →
  ∃ s', (if b then enqueue walk_fuel s c else Ret s) = Ret s' ∧ relinked s s' ∧
    qinv s' (if b then <[p := Q p ++ [c]]> Q else Q).
Proof.
  intros Hq Hv Ha Hst p Hn. destruct b.
  - by apply enqueue_spec; [..|apply Hst|].
  - by exists s.
Qed.

Lemma expired_same g s s' now i :
  recast g s s' → valid i →
  (state (g i (s.(coros).[i])) = CORO_WAITING ↔ state (s.(coros).[i]) = CORO_WAITING) →
  wake_tick (g i (s.(coros).[i])) = wake_tick (s.(coros).[i]) → expired s' now i = expired s now i.
Proof.
  intros R Hv Hst Hw. unfold expired. rewrite (rc_used _ _ _ R).
  destruct (recast_fields _ _ _ i R Hv) as (-> & _ & ->). rewrite Hw.
  by rewrite (bool_decide_ext _ _ Hst).
Qed.

Lemma yielded_expired s s' prev now i :
  recast (yielded prev) s s' → valid i → expired s' now i = expired s now i.
Proof.
  intros R Hv. apply (expired_same _ _ _ _ _ R Hv); unfold yielded; [|by destruct (_ && _)].
  destruct (i =? prev); [|done]. case_bool_decide as E; [|done]. cbn. rewrite E. done.
Qed.

Lemma yielded_woken s s' prev now p :
  recast (yielded prev) s s' → woken s' now p (seqZ 0 MAX_COROUTINES) = woken s now p (seqZ 0 MAX_COROUTINES).
Proof.
  intros R. apply filter_iff_in. intros i Hi%elem_of_seqZ. assert (valid i) as Hv by (unfold valid; lia).
  rewrite (yielded_expired s s' prev) by done. destruct (recast_fields _ _ _ i R Hv) as (_ & -> & _).
  unfold yielded. by destruct (_ && _).
Qed.

(** ** What a yield does

    [resumed] is the queues from which the next coroutine is chosen: the
    sleepers whose time has come are appended in index order, then the
    coroutine that yields if it is still running. *)
Definition resumed (s : sched) (Q : queues) (now : Z) : queues :=
  let prev := s.(current_coro) in
  let Q1 p := Q p ++ woken s now p (seqZ 0 MAX_COROUTINES) in
  if bool_decide (state (s.(coros).[prev]) = CORO_RUNNING)
  then <[priority (s.(coros).[prev]) := Q1 (priority (s.(coros).[prev])) ++ [prev]]> Q1 else Q1.

Definition coro_after (s : sched) (now nxt i : Z) (c : coro_t) : coro_t :=
  started nxt i (roused s now 0 i (yielded s.(current_coro) i c)).

Record may_yield (s : sched) (now : Z) : Prop := {
  my_valid : valid s.(current_coro);
  my_alive : alive s s.(current_coro);
  my_state : state (s.(coros).[s.(current_coro)]) ≠ CORO_READY;
  my_asleep : expired s now s.(current_coro) = false;
}.

(** The first half of [coro_yield]. *)
Lemma yield_front s Q now :
  qinv s Q → may_yield s now →
  let prev := s.(current_coro) in
  let s1 := if bool_decide (state (s.(coros).[prev]) = CORO_RUNNING)
            then upd s prev (λ c, set_state c CORO_READY) else s in
  ∃ s2 s3, wake_sleeping s1 now = Ret s2 ∧
    (if bool_decide (state (s2.(coros).[prev]) = CORO_READY) then enqueue walk_fuel s2 prev else Ret s2) = Ret s3 ∧
    recast (λ i c, roused s now 0 i (yielded prev i c)) s s3 ∧ qinv s3 (resumed s Q now).
Proof.
  intros Hq [Hv Ha Hst Has] prev s1. fold prev in Hv, Ha, Hst, Has.
  destruct (yielded_spec s Q prev Hq Hv Hst) as [Hq1 R1]. fold s1 in Hq1, R1.
  destruct (wake_spec s1 Q now Hq1) as (s2 & E2 & R2 & Hq2). exists s2.
  assert (recast (λ i c, roused s now 0 i (yielded prev i c)) s s2) as R.
  { eapply recast_ext; [|by eapply recast_trans; [apply link_free_roused| |]]. intros i Hi. cbn beta.
    unfold roused. by rewrite (yielded_expired s s1 prev). }
  set (run := bool_decide (state (s.(coros).[prev]) = CORO_RUNNING)).
  destruct (recast_fields _ _ _ prev R Hv) as (Est & Epr & _).
  unfold roused, yielded in Est, Epr. rewrite Has, Z.eqb_refl, !andb_false_r in Est, Epr. fold run in Est, Epr. cbn [andb] in Est, Epr.
  assert (bool_decide (state (s2.(coros).[prev]) = CORO_READY) = run) as ->.
  { rewrite Est. unfold run. case_bool_decide as E1; case_bool_decide as E2'; try done; cbn in *; congruence. }
  assert (priority (s2.(coros).[prev]) = priority (s.(coros).[prev])) as Epr' by (rewrite Epr; by destruct run).
  destruct (enqueue_if s2 _ prev run Hq2 Hv) as (s3 & E3 & R3 & Hq3).
  - unfold alive in *. by rewrite (rc_used _ _ _ R).
  - intros Hr. rewrite Est, Hr. done.
  - intros [Hin|Hin]%elem_of_app.
    + eapply (unqueued s); [exact Hq|done| |exact Hin]. rewrite Epr'. by apply Hq.
    + apply list_elem_of_filter in Hin as [[He _] _]. rewrite (yielded_expired s s1 prev) in He by done. congruence.
  - exists s3. split; [done|]. split; [done|]. split; [by eapply recast_relinked|].
    eapply qinv_ext; [|exact Hq3]. intros p Hp. unfold resumed. fold prev run. rewrite Epr'.
    destruct run; cbn beta; rewrite ?(yielded_woken s s1 prev) by done; [|done].
    destruct (decide (p = priority (s.(coros).[prev]))) as [->|Hne].
    + by rewrite !fn_lookup_insert.
    + by rewrite !fn_lookup_insert_ne, (yielded_woken s s1 prev) by done.
Qed.

(** What [coro_yield] and [scheduler_run] do with the chosen coroutine. *)
Lemma dispatch_spec s Q nxt s' :
  qinv s Q → valid nxt → (∀ p, level p → nxt ∉ Q p) →
  s'.(coros) = (upd s nxt (λ c, set_state c CORO_RUNNING)).(coros) → s'.(coro_used) = s.(coro_used) →
  s'.(run_queues) = s.(run_queues) →
  qinv s' Q ∧ recast (started nxt) (with_current s s'.(current_coro)) s'.
Proof.
  intros Hq Hv Hn E1 E2 E3. destruct (started_spec s Q nxt Hq Hv Hn) as [Hq' [L C U K]].
  split; [by eapply qinv_same; [exact E1| | |exact Hq']|].
  split; [by rewrite E1|by rewrite E1|by rewrite E2|done].
Qed.

Lemma yield_spec s Q now :
  qinv s Q → may_yield s now →
  ∃ s', coro_yield s now = Ret s' ∧ s'.(current_coro) = (pick (resumed s Q now)).2 ∧
    qinv s' (pick (resumed s Q now)).1 ∧
    recast (coro_after s now s'.(current_coro)) (with_current s s'.(current_coro)) s'.
Proof.
  intros Hq Hm. set (s0 := scheduler_preempt_clear s).
  assert (qinv s0 Q) as Hq0 by (by eapply qinv_same; [..|exact Hq]).
  assert (may_yield s0 now) as Hm0 by (by destruct Hm).
  destruct (yield_front s0 Q now Hq0 Hm0) as (s2 & s3 & E2 & E3 & R3 & Hq3).
  unfold coro_yield. fold s0. cbv zeta. rewrite E2. cbn [mbind outcome_bind]. rewrite E3.
  cbn [mbind outcome_bind].
  change (resumed s0 Q now) with (resumed s Q now) in Hq3.
  destruct (pick_spec s3 _ Hq3) as (Enxt & R4 & Hq4).
  pose proof (pick_level_mem s3 _ (Z.to_nat CORO_PRIORITY_LEVELS) CORO_PRIORITY_MAX Hq3 eq_refl eq_refl) as Hmem.
  fold (pick (resumed s Q now)) in Hmem. destruct (pick (resumed s Q now)) as [Q4 nxt].
  destruct (pick_next_coro s3) as [s4 nxt'] eqn:Epick. cbn [fst snd] in *. subst nxt'.
  destruct Hmem as (Hv & _ & Hmem & _); [unfold CORO_PRIORITY_MAX, CORO_PRIORITY_LEVELS; lia|].
  assert (∀ p, level p → nxt ∉ Q4 p) as Hn by (intros p Hp; by apply Hmem).
  pose proof (recast_relinked _ _ _ _ R3 R4) as R.
  assert (∀ s', qinv s' Q4 ∧ recast (started nxt) (with_current s4 s'.(current_coro)) s' →
    s'.(current_coro) = nxt →
    s'.(current_coro) = nxt ∧ qinv s' Q4 ∧
    recast (coro_after s now s'.(current_coro)) (with_current s s'.(current_coro)) s') as Hfin.
  { intros s' [Hq' R'] Ec. rewrite Ec in *. split; [done|]. split; [done|].
    eapply (recast_trans _ (started nxt)); [apply link_free_started| |exact R'].
    by destruct R; split. }
  destruct (Z.eqb_spec nxt s0.(current_coro)) as [Eq|Hne].
  - eexists. split; [done|]. apply Hfin; [|].
    + apply (dispatch_spec s4 Q4 nxt); try done. by rewrite Eq.
    + cbn [current_coro upd with_coros]. rewrite (rl_current _ _ R4), (rc_current _ _ _ R3). done.
  - eexists. split; [done|]. apply Hfin; [|done]. by apply (dispatch_spec s4 Q4 nxt).
Qed.

(** ** The invariant of the scheduler *)

(** No coroutine but [current_coro] is running, and no ready coroutine of the
    pool is missing from the queue of its priority. *)
Record inv (s : sched) (Q : queues) : Prop := {
  i_q : qinv s Q;
  i_valid : valid s.(current_coro);
  i_alive : alive s s.(current_coro);
  i_only : ∀ i, valid i → alive s i → state (s.(coros).[i]) = CORO_RUNNING → i = s.(current_coro);
  i_full : ∀ i, 0 ≤ i < MAX_COROUTINES → s.(coro_used).[i] = true →
    state (s.(coros).[i]) = CORO_READY → i ∈ Q (priority (s.(coros).[i]));
}.

Definition running (s : sched) : Prop := state (s.(coros).[s.(current_coro)]) = CORO_RUNNING.

Lemma running_may_yield s Q now : inv s Q → running s → may_yield s now.
Proof.
  intros [Hq Hv Ha _ _] Hr. split; [done|done|by rewrite Hr|].
  unfold expired. by rewrite Hr, bool_decide_eq_false_2, andb_false_r by done.
Qed.

(** Only the chosen coroutine runs after a yield. *)
Lemma coro_after_running s Q now nxt i :
  inv s Q → valid i → alive s i →
  state (coro_after s now nxt i (s.(coros).[i])) = CORO_RUNNING → i = nxt.
Proof.
  intros Hi Hv Ha. unfold coro_after, started. destruct (Z.eqb_spec i nxt) as [|Hne]; [done|].
  unfold roused. destruct (_ && _); [done|]. unfold yielded.
  destruct ((i =? s.(current_coro)) && _) eqn:Eb; [done|]. intros Hr.
  pose proof (i_only _ _ Hi i Hv Ha Hr) as ->. by rewrite Z.eqb_refl, Hr in Eb.
Qed.

(** The coroutines that are ready after a yield were in [resumed]. *)
Lemma resumed_full s Q now nxt i :
  inv s Q → 0 ≤ i < MAX_COROUTINES → s.(coro_used).[i] = true → i ≠ nxt →
  state (coro_after s now nxt i (s.(coros).[i])) = CORO_READY →
  i ∈ resumed s Q now (priority (s.(coros).[i])).
Proof.
  intros [Hq Hv Ha _ Hf] Hi Hu Hne. unfold coro_after, started. rewrite (proj2 (Z.eqb_neq i nxt)) by done.
  set (prev := s.(current_coro)). set (Q1 := λ p, Q p ++ woken s now p (seqZ 0 MAX_COROUTINES)). intros Hst.
  assert (i ∈ Q1 (priority (s.(coros).[i])) ∨ (i = prev ∧ state (s.(coros).[prev]) = CORO_RUNNING)) as [Hin|[-> Hr]].
  { destruct (expired s now i) eqn:He.
    - left. apply elem_of_app. right. apply list_elem_of_filter. split; [done|]. apply elem_of_seqZ. lia.
    - unfold roused in Hst. rewrite He, andb_false_r in Hst. unfold yielded in Hst.
      destruct ((i =? prev) && _) eqn:Eb; [right; bool_hyps; apply bool_decide_eq_true in H0; by subst|].
      left. apply elem_of_app. left. by apply Hf. }
  - unfold resumed. fold prev Q1. case_bool_decide; [|done].
    destruct (decide (priority (s.(coros).[i]) = priority (s.(coros).[prev]))) as [Ep|].
    + rewrite Ep in Hin |- *. rewrite fn_lookup_insert. apply elem_of_app. by left.
    + by rewrite fn_lookup_insert_ne.
  - unfold resumed. fold prev Q1. rewrite bool_decide_eq_true_2 by done. rewrite fn_lookup_insert. set_solver.
Qed.

Lemma yield_inv s Q now :
  inv s Q → may_yield s now →
  ∃ s', coro_yield s now = Ret s' ∧ inv s' (pick (resumed s Q now)).1 ∧ running s'.
Proof.
  intros Hi Hm. pose proof (i_q _ _ Hi) as Hq.
  destruct (yield_spec s Q now Hq Hm) as (s' & E & Ec & Hq' & R). exists s'. split; [done|].
  destruct (yield_front (scheduler_preempt_clear s) Q now) as (s2 & s3 & _ & _ & R3 & Hq3).
  { by eapply qinv_same; [..|exact Hq]. }
  { by destruct Hm. }
  change (resumed (scheduler_preempt_clear s) Q now) with (resumed s Q now) in Hq3.
  pose proof (pick_level_mem s3 _ (Z.to_nat CORO_PRIORITY_LEVELS) CORO_PRIORITY_MAX Hq3 eq_refl eq_refl) as Hmem.
  fold (pick (resumed s Q now)) in Hmem. destruct (pick (resumed s Q now)) as [Q4 nxt].
  cbn [fst snd] in *. destruct Hmem as (Hv & Ha & Hmem & _); [unfold CORO_PRIORITY_MAX, CORO_PRIORITY_LEVELS; lia|].
  assert (∀ i, valid i → state (s'.(coros).[i]) = state (coro_after s now nxt i (s.(coros).[i])) ∧
                         priority (s'.(coros).[i]) = priority (s.(coros).[i])) as Hst.
  { intros i Hvi. destruct (recast_fields _ _ _ i R Hvi) as (E1 & E2 & _). rewrite Ec in E1, E2.
    split; [done|]. rewrite E2. unfold coro_after, started, roused, yielded.
    cbn [coros with_current]. by repeat destruct (_ && _); destruct (_ =? _). }
  assert (s'.(coro_used) = s.(coro_used)) as Eu by apply R.
  split.
  - split; [done|by rewrite Ec| | |].
    + rewrite Ec. unfold alive in *. rewrite Eu. by rewrite (rc_used _ _ _ R3) in Ha.
    + intros i Hvi Hai Hr. rewrite Ec. rewrite (proj1 (Hst i Hvi)) in Hr.
      eapply coro_after_running; [done|done| |done]. unfold alive in *. by rewrite Eu in Hai.
    + intros i Hir Hu Hr. assert (valid i) as Hvi by (unfold valid; lia).
      rewrite (proj2 (Hst i Hvi)). destruct (decide (i = nxt)) as [->|Hne].
      * exfalso. rewrite (proj1 (Hst nxt Hvi)) in Hr. unfold coro_after, started in Hr. by rewrite Z.eqb_refl in Hr.
      * rewrite (proj1 (Hst i Hvi)) in Hr. rewrite Eu in Hu. apply Hmem; [by apply Hq| |done].
        by eapply resumed_full.
  - unfold running. rewrite Ec, (proj1 (Hst nxt Hv)). unfold coro_after, started. by rewrite Z.eqb_refl.
Qed.

(** ** The other operations keep the invariant *)

(** Changes of the current coroutine only. *)
Lemma inv_upd_current s Q f :
  inv s Q → state (s.(coros).[s.(current_coro)]) ≠ CORO_READY →
  (∀ c, state (f c) ≠ CORO_READY ∧ priority (f c) = priority c) →
  inv (upd s s.(current_coro) f) Q.
Proof.
  intros [Hq Hv Ha Ho Hf] Hst Hfc. pose proof (q_len _ _ Hq) as (Hl & _).
  split; [|done|done| |].
  - apply qinv_upd; [done|done|intros p; by apply (unqueued s)|]. rewrite (proj2 (Hfc _)). by apply Hq.
  - intros i Hvi Hai. rewrite coros_upd by done. case_decide as E; [by intros _|]. by apply Ho.
  - intros i Hi Hu. assert (valid i) by (unfold valid; lia). rewrite coros_upd by done.
    case_decide as E; [|by apply Hf]. by destruct (Hfc (s.(coros).[s.(current_coro)])).
Qed.

(** The flags and counters are free. *)
Lemma inv_same s s' Q :
  s'.(coros) = s.(coros) → s'.(coro_used) = s.(coro_used) → s'.(run_queues) = s.(run_queues) →
  s'.(current_coro) = s.(current_coro) → inv s Q → inv s' Q.
Proof.
  intros E1 E2 E3 E4 [Hq Hv Ha Ho Hf]. split; unfold alive in *; rewrite ?E1, ?E2, ?E4; try done.
  by eapply qinv_same.
Qed.

(** Slot [i] is taken or given back, and its content changed. *)
Lemma qinv_slot s s' Q i f b :
  qinv s Q → 0 ≤ i < MAX_COROUTINES → (∀ p, level p → i ∉ Q p) →
  s'.(coros) = (upd s i f).(coros) → s'.(coro_used) = s.(coro_used).[i <- b] →
  s'.(run_queues) = s.(run_queues) → level (priority (f (s.(coros).[i]))) → qinv s' Q.
Proof.
  intros Hq Hi Hn E1 E2 E3 Hf. assert (valid i) as Hv by (unfold valid; lia).
  destruct (qinv_upd s Q i f Hq Hv Hn Hf) as [(L1 & L2 & L3) P C M].
  split; rewrite ?E1, ?E2, ?E3; [by rewrite zlen_aset|exact P|exact C|].
  intros p j Hp Hj. destruct (M p j Hp Hj) as (Hvj & Haj & Hr). split; [done|]. split; [|done].
  destruct Haj as [->|Hu]; [by left|right]. rewrite E2.
  assert (j ≠ i) by (intros ->; by apply (Hn p)). rewrite aget_aset_ne; [done|lia| |done].
  unfold valid in Hvj. lia.
Qed.

Lemma unused_unqueued s Q i p :
  qinv s Q → 0 ≤ i < MAX_COROUTINES → s.(coro_used).[i] = false → level p → i ∉ Q p.
Proof.
  intros Hq Hi Hu Hp Hin. destruct (q_mem _ _ Hq p i Hp Hin) as (_ & [E|Ha] & _); [|congruence].
  unfold IDLE in E. lia.
Qed.

(** Giving back slot [i], which is not the current one. *)
Lemma inv_slot s s' Q i f :
  inv s Q → 0 ≤ i < MAX_COROUTINES → (∀ p, level p → i ∉ Q p) → i ≠ s.(current_coro) →
  s'.(coros) = (upd s i f).(coros) → s'.(coro_used) = s.(coro_used).[i <- false] →
  s'.(run_queues) = s.(run_queues) → s'.(current_coro) = s.(current_coro) →
  level (priority (f (s.(coros).[i]))) → inv s' Q.
Proof.
  intros [Hq Hv Ha Ho Hf] Hi Hn Hne E1 E2 E3 E4 Hp. pose proof (q_len _ _ Hq) as (Hl & Hlu & _).
  assert (valid i) as Hvi by (unfold valid; lia).
  assert (∀ j, valid j → j ≠ i → s'.(coros).[j] = s.(coros).[j]) as Hco.
  { intros j Hj Hji. rewrite E1. rewrite coros_upd by done. by rewrite decide_False. }
  assert (∀ j, 0 ≤ j → s'.(coro_used).[j] = true → j ≠ i ∧ s.(coro_used).[j] = true) as Hus.
  { intros j Hj. rewrite E2. rewrite aget_aset by lia. by case_decide. }
  assert (∀ j, valid j → alive s' j → j ≠ i ∧ alive s j) as Hal.
  { intros j Hj [->|Hu]; [split; [unfold IDLE; lia|by left]|].
    destruct (Hus j) as [? ?]; [unfold valid in Hj; lia|done|]. split; [done|by right]. }
  split; [by eapply (qinv_slot s s')|by rewrite E4| | |].
  - rewrite E4. destruct Ha as [Ha|Ha]; [by left|right]. rewrite E2, aget_aset_ne; [done|lia| |done].
    unfold valid in Hv. lia.
  - intros j Hj Haj. destruct (Hal j Hj Haj). rewrite E4, Hco by done. by apply Ho.
  - intros j Hj Hu. destruct (Hus j ltac:(lia) Hu). rewrite Hco by (unfold valid; lia || done). by apply Hf.
Qed.

(** ** Reclaiming *)

Lemma free_coro_inv s Q i :
  inv s Q → 0 ≤ i < MAX_COROUTINES → (∀ p, level p → i ∉ Q p) → i ≠ s.(current_coro) →
  inv (free_coro s i) Q ∧ (free_coro s i).(current_coro) = s.(current_coro) ∧
  state ((free_coro s i).(coros).[s.(current_coro)]) = state (s.(coros).[s.(current_coro)]).
Proof.
  intros Hi Hr Hn Hne. pose proof (q_len _ _ (i_q _ _ Hi)) as (Hl & _).
  assert (valid i) as Hv by (unfold valid; lia). pose proof (i_valid _ _ Hi) as Hvc.
  unfold free_coro. rewrite (proj2 (Z.ltb_lt i MAX_COROUTINES)) by lia.
  pose proof (q_prio _ _ (i_q _ _ Hi) i Hv) as Hp.
  destruct (nonzero _).
  - split; [by apply (inv_slot s _ Q i (λ c, set_stack c 0))|]. split; [done|].
    pose proof (coros_upd s i (λ c, set_stack c 0) _ Hl Hv Hvc) as E.
    rewrite decide_False in E by done. cbn in E |- *. by rewrite E.
  - split; [|done]. apply (inv_slot s _ Q i (λ c, c)); try done.
    cbn. unfold aset, aget. symmetry. apply list_insert_id. unfold valid in Hv.
    apply list_lookup_lookup_total_lt. unfold zlen in Hl. lia.
Qed.

Lemma reclaim_inv n s Q i :
  inv s Q → running s → 0 ≤ i → i + Z.of_nat n ≤ MAX_COROUTINES →
  inv (reclaim_from n s i) Q ∧ running (reclaim_from n s i) ∧
  (reclaim_from n s i).(current_coro) = s.(current_coro).
Proof.
  revert s i. induction n as [|n IH]; intros s i Hi Hr H0 Hn; [done|].
  cbn [reclaim_from]. destruct (_ && _) eqn:Ed; [|apply IH; [done|done|lia|lia]].
  bool_hyps. rewrite bool_decide_eq_true in *.
  assert (i ≠ s.(current_coro)) as Hne by (intros ->; unfold running in Hr; congruence).
  destruct (free_coro_inv s Q i Hi) as (Hi' & Ec & Es); [lia| |done|].
  { intros p Hp. apply (unqueued s); [by apply Hi|congruence|done]. }
  destruct (IH (free_coro s i) (i + 1) Hi') as (A & B & C); [unfold running; congruence|lia|lia|].
  split; [done|]. split; [done|congruence].
Qed.

(** ** Waking keeps the invariant *)

Lemma wake_inv s Q now :
  inv s Q → running s →
  ∃ s', wake_sleeping s now = Ret s' ∧ inv s' (λ p, Q p ++ woken s now p (seqZ 0 MAX_COROUTINES)) ∧
    running s' ∧ s'.(current_coro) = s.(current_coro).
Proof.
  intros Hi Hr. pose proof (my_asleep _ _ (running_may_yield s Q now Hi Hr)) as Has.
  destruct Hi as [Hq Hv Ha Ho Hf]. destruct (wake_spec s Q now Hq) as (s' & E & R & Hq').
  exists s'. split; [done|].
  assert (∀ i, valid i → state (s'.(coros).[i]) = state (roused s now 0 i (s.(coros).[i])) ∧
                         priority (s'.(coros).[i]) = priority (s.(coros).[i])) as Hst.
  { intros i Hvi. destruct (recast_fields _ _ _ i R Hvi) as (-> & -> & _). split; [done|].
    unfold roused. by destruct (_ && _). }
  pose proof (rc_used _ _ _ R) as Eu. pose proof (rc_current _ _ _ R) as Ec.
  assert (running s') as Hr'.
  { unfold running. rewrite Ec, (proj1 (Hst _ Hv)). unfold roused. by rewrite Has, andb_false_r. }
  split; [|done]. split; [done|by rewrite Ec|unfold alive in *; by rewrite Ec, Eu| |].
  - intros i Hvi Hai. rewrite Ec, (proj1 (Hst i Hvi)). unfold alive in *. rewrite Eu in Hai.
    unfold roused. destruct (_ && _); [done|]. by apply Ho.
  - intros i Hir Hu. assert (valid i) as Hvi by (unfold valid; lia).
    destruct (Hst i Hvi) as [-> ->]. rewrite Eu in Hu. unfold roused.
    destruct (expired s now i) eqn:He.
    + intros _. apply elem_of_app. right. apply list_elem_of_filter. split; [done|]. apply elem_of_seqZ. lia.
    + rewrite andb_false_r. intros Hs. apply elem_of_app. left. by apply Hf.
Qed.

(** ** One turn of [scheduler_run] *)

Lemma pick_level_from Q n p :
  Z.of_nat n = p + 1 → p < CORO_PRIORITY_LEVELS →
  (pick_level n Q p).2 = IDLE ∨ ∃ q, level q ∧ (pick_level n Q p).2 ∈ Q q.
Proof.
  revert p. induction n as [|n IH]; intros p Hn Hp; cbn [pick_level]; [by left|].
  destruct (Q p) as [|c l] eqn:El; [apply IH; lia|]. right. exists p. rewrite El.
  split; [unfold level; lia|left].
Qed.

(** The choice of a turn: the chosen coroutine is not the current one, unless both are the idle one. *)
Lemma pick_inv s Q :
  inv s Q → running s →
  let s' := (pick_next_coro s).1 in let nxt := (pick_next_coro s).2 in
  nxt = (pick Q).2 ∧ relinked s s' ∧ qinv s' (pick Q).1 ∧ valid nxt ∧ alive s nxt ∧
  (nxt = s.(current_coro) → nxt = IDLE) ∧
  (∀ p, level p → nxt ∉ (pick Q).1 p ∧ (∀ i, i ∈ Q p → i ≠ nxt → i ∈ (pick Q).1 p)) ∧
  (∀ p, level p → s.(current_coro) ∉ (pick Q).1 p).
Proof.
  intros Hi Hr s' nxt. pose proof (i_q _ _ Hi) as Hq. destruct (pick_spec s Q Hq) as (En & R & Hq').
  fold s' nxt in En, R, Hq'.
  pose proof (pick_level_mem s Q (Z.to_nat CORO_PRIORITY_LEVELS) CORO_PRIORITY_MAX Hq eq_refl eq_refl) as Hmem.
  fold (pick Q) in Hmem. clearbody s' nxt. subst nxt. destruct (pick Q) as [Q' nxt] eqn:Ep. cbn [fst snd] in *.
  destruct Hmem as (Hv & Ha & Hmem & _); [unfold CORO_PRIORITY_MAX, CORO_PRIORITY_LEVELS; lia|].
  assert (∀ p, level p → s.(current_coro) ∉ Q' p) as Hcur.
  { intros p Hp. apply (unqueued s'); [done| |done].
    destruct (relinked_fields s s' _ R (i_valid _ _ Hi)) as (-> & _). by rewrite Hr. }
  split; [done|]. split; [done|]. split; [done|]. split; [done|]. split; [done|]. split; [|done].
  pose proof (pick_level_from Q (Z.to_nat CORO_PRIORITY_LEVELS) CORO_PRIORITY_MAX eq_refl eq_refl) as Hfrom.
  fold (pick Q) in Hfrom. rewrite Ep in Hfrom. intros E. destruct Hfrom as [?|(q & Hlq & Hin)]; [done|].
  cbn [snd] in Hin. destruct (q_mem _ _ Hq q nxt Hlq Hin) as (_ & _ & Hs & _).
  unfold running in Hr. congruence.
Qed.

(** The second half of a turn, after the choice of [nxt]. *)
Definition switch (s : sched) (nxt : Z) : outcome sched :=
  let prev := s.(current_coro) in
  let s := if bool_decide (state (s.(coros).[prev]) = CORO_RUNNING)
           then upd s prev (λ c, set_state c CORO_READY) else s in
  s ← (if bool_decide (state (s.(coros).[prev]) = CORO_READY) && negb (prev =? IDLE)
       then enqueue walk_fuel s prev else Ret s);
  let s := upd s nxt (λ c, set_state c CORO_RUNNING) in
  let s := with_current s nxt in
  Ret (if negb (nxt =? prev) then with_preempt s s.(sched_preempt_pending) 0 else s).

Lemma switch_queue s Q :
  let prev := s.(current_coro) in
  qinv s Q → valid prev → alive s prev → running s →
  let s1 := if bool_decide (state (s.(coros).[prev]) = CORO_RUNNING)
            then upd s prev (λ c, set_state c CORO_READY) else s in
  ∃ s2 Q2,
    (if bool_decide (state (s1.(coros).[prev]) = CORO_READY) && negb (prev =? IDLE)
     then enqueue walk_fuel s1 prev else Ret s1) = Ret s2 ∧
    recast (yielded prev) s s2 ∧ qinv s2 Q2 ∧
    (∀ p i, level p → i ∈ Q p → i ∈ Q2 p) ∧ (∀ p i, level p → i ∈ Q2 p → i ∈ Q p ∨ i = prev) ∧
    (prev ≠ IDLE → prev ∈ Q2 (priority (s.(coros).[prev]))).
Proof.
  intros prev Hq Hv Ha Hr s1. unfold running in Hr. fold prev in Hr.
  assert (state (s.(coros).[prev]) ≠ CORO_READY) as Hst by congruence.
  destruct (yielded_spec s Q prev Hq Hv Hst) as [Hq1 R1]. fold s1 in Hq1, R1.
  destruct (recast_fields _ _ _ prev R1 Hv) as (Es & Ep & _).
  unfold yielded in Es, Ep. rewrite Z.eqb_refl, Hr, bool_decide_eq_true_2 in Es, Ep by done.
  cbn in Es, Ep. rewrite Es, bool_decide_eq_true_2 by done. cbn [andb].
  destruct (enqueue_if s1 Q prev (negb (prev =? IDLE)) Hq1 Hv) as (s2 & E2 & R2 & Hq2).
  - unfold alive in *. by rewrite (rc_used _ _ _ R1).
  - done.
  - rewrite Ep. apply (unqueued s); [done|done|]. by apply Hq.
  - rewrite Ep in Hq2. eexists s2, _. split; [done|]. split; [by eapply recast_relinked|]. split; [done|].
    assert (∀ p i, i ∈ (<[priority (s.(coros).[prev]) := Q (priority (s.(coros).[prev])) ++ [prev]]> Q) p ↔
                   i ∈ Q p ∨ (i = prev ∧ p = priority (s.(coros).[prev]))) as Hin.
    { intros p i. destruct (decide (p = priority (s.(coros).[prev]))) as [->|].
      - rewrite fn_lookup_insert. set_solver.
      - rewrite fn_lookup_insert_ne by done. naive_solver. }
    destruct (Z.eqb_spec prev IDLE) as [|Hn]; cbn [negb].
    + split; [done|]. split; [by left|done].
    + split; [intros; apply Hin; by left|]. split; [intros p i _ H; apply Hin in H; tauto|].
      intros _. apply Hin. by right.
Qed.

Lemma switch_inv s Q nxt :
  qinv s Q → valid s.(current_coro) → alive s s.(current_coro) → running s →
  (∀ i, valid i → alive s i → state (s.(coros).[i]) = CORO_RUNNING → i = s.(current_coro)) →
  (∀ i, 0 ≤ i < MAX_COROUTINES → s.(coro_used).[i] = true → i ≠ nxt →
    state (s.(coros).[i]) = CORO_READY → i ∈ Q (priority (s.(coros).[i]))) →
  valid nxt → alive s nxt → (∀ p, level p → nxt ∉ Q p) → nxt ≠ s.(current_coro) →
  ∃ s' Q', switch s nxt = Ret s' ∧ inv s' Q' ∧ running s'.
Proof.
  intros Hq Hvc Hac Hr Ho Hf Hv Ha Hn Hne.
  destruct (switch_queue s Q Hq Hvc Hac Hr) as (s2 & Q2 & E2 & R2 & Hq2 & Hsub & Hsup & Hprev).
  unfold switch. rewrite E2. cbn [mbind outcome_bind]. cbv zeta. set (s' := if negb _ then _ else _).
  assert (s'.(current_coro) = nxt) as Ec by (unfold s'; destruct (nxt =? s.(current_coro)); reflexivity).
  destruct (dispatch_spec s2 Q2 nxt s') as [Hq' R'].
  { done. } { done. } { intros p Hp Hin. destruct (Hsup p nxt Hp Hin) as [H|H]; [exact (Hn p Hp H)|exact (Hne H)]. }
  1-3: unfold s'; destruct (nxt =? s.(current_coro)); reflexivity.
  rewrite Ec in R'. clearbody s'.
  assert (recast (λ i c, started nxt i (yielded s.(current_coro) i c)) (with_current s nxt) s') as R.
  { eapply recast_trans; [apply link_free_started| |exact R']. by destruct R2; split. }
  assert (s'.(coro_used) = s.(coro_used)) as Eu by apply R.
  exists s', Q2. split; [done|]. split; [split; [done|by rewrite Ec|unfold alive in *; by rewrite Ec, Eu| |]|].
  - intros i Hvi Hai. destruct (recast_fields _ _ _ i R Hvi) as (-> & _). rewrite Ec. cbn [coros with_current].
    unfold started. destruct (Z.eqb_spec i nxt); [done|]. unfold yielded. destruct ((i =? s.(current_coro)) && _) eqn:Eb; [done|].
    intros Hs. unfold alive in Hai. rewrite Eu in Hai. pose proof (Ho i Hvi Hai Hs) as ->.
    by rewrite Z.eqb_refl, Hs in Eb.
  - intros i Hi Hu. assert (valid i) as Hvi by (unfold valid; lia). rewrite Eu in Hu.
    destruct (recast_fields _ _ _ i R Hvi) as (-> & -> & _). cbn [coros with_current].
    unfold started, yielded. destruct (Z.eqb_spec i nxt) as [|Hin]; [done|].
    destruct (Z.eqb_spec i s.(current_coro)) as [->|].
    + unfold running in Hr. rewrite Hr. intros _. apply Hprev. unfold IDLE. lia.
    + cbn [andb]. intros Hs. apply Hsub; [by apply Hq|by apply Hf].
  - unfold running. rewrite Ec. destruct (recast_fields _ _ _ nxt R Hv) as (-> & _).
    cbn. unfold started. by rewrite Z.eqb_refl.
Qed.

Lemma turn_inv s Q now :
  inv s Q → running s →
  ∃ s' Q', scheduler_turn s now = Ret s' ∧ inv s' Q' ∧ running s'.
Proof.
  intros Hi Hr. unfold scheduler_turn.
  destruct (wake_inv s Q now Hi Hr) as (s1 & -> & Hi1 & Hr1 & _). cbn [mbind outcome_bind]. cbv zeta.
  revert Hi1. generalize (λ p, Q p ++ woken s now p (seqZ 0 MAX_COROUTINES)). intros Q1 Hi1.
  destruct (reclaim_inv (Z.to_nat MAX_COROUTINES) s1 Q1 0 Hi1 Hr1) as (Hi2 & Hr2 & _);
    [done|by rewrite Z2Nat.id|]. generalize dependent (reclaim_from (Z.to_nat MAX_COROUTINES) s1 0). intros s2 Hi2 Hr2.
  destruct (pick_inv s2 Q1 Hi2 Hr2) as (_ & R3 & Hq3 & Hv & Ha & Hne & Hmem & Hcur).
  destruct (pick_next_coro s2) as [s3 nxt]. cbn [fst snd] in *. generalize dependent (pick Q1).1. intros Q3 Hq3 Hmem Hcur.
  pose proof (i_valid _ _ Hi2) as Hvc. rewrite <- (rl_current _ _ R3) in Hne, Hcur, Hvc.
  pose proof (rl_used _ _ R3) as Eu. pose proof (rl_current _ _ R3) as Ec.
  assert (alive s3 s3.(current_coro) ∧ alive s3 nxt) as [Hac Han].
  { unfold alive in *. rewrite Eu, Ec. by split; [apply Hi2|]. }
  assert (running s3) as Hr3.
  { unfold running. rewrite Ec. destruct (relinked_fields _ _ _ R3 (i_valid _ _ Hi2)) as (-> & _). done. }
  assert (∀ i, valid i → alive s3 i → state (s3.(coros).[i]) = CORO_RUNNING → i = s3.(current_coro)) as Ho3.
  { intros i Hvi Hai. destruct (relinked_fields _ _ i R3 Hvi) as (-> & _). rewrite Ec.
    apply Hi2; [done|]. unfold alive in *. by rewrite Eu in Hai. }
  assert (∀ i, 0 ≤ i < MAX_COROUTINES → s3.(coro_used).[i] = true → i ≠ nxt →
    state (s3.(coros).[i]) = CORO_READY → i ∈ Q3 (priority (s3.(coros).[i]))) as Hf3.
  { intros i Hir Hu Hin. assert (valid i) as Hvi by (unfold valid; lia).
    destruct (relinked_fields _ _ i R3 Hvi) as (-> & -> & _). intros Hs. rewrite Eu in Hu.
    apply Hmem; [by apply Hi2|by apply Hi2|done]. }
  assert (∀ p, level p → nxt ∉ Q3 p) as Hnq by (intros p Hp; by apply Hmem).
  clear Hmem. destruct (_ && _) eqn:Eid.
  - bool_hyps. exists s3, Q3. split; [done|]. split; [|done]. split; try done.
    intros i Hir Hu. apply Hf3; [done|done|]. subst nxt. unfold IDLE. lia.
  - fold (switch s3 nxt). apply (switch_inv s3 Q3 nxt); try done.
    intros E. pose proof (Hne E) as ->. by rewrite <- E, Z.eqb_refl in Eid.
Qed.

(** ** Creating a coroutine *)

Definition taken (s : sched) (k : Z) : sched :=
  let s := upd (with_used s (s.(coro_used).[k <- true])) k (λ c, set_id c s.(next_coro_id)) in
  with_next_id s (u32 (s.(next_coro_id) + 1)).

Lemma alloc_from_spec n s i :
  alloc_from n s i = (s, None) ∨
  ∃ k, i ≤ k < i + Z.of_nat n ∧ s.(coro_used).[k] = false ∧ alloc_from n s i = (taken s k, Some k).
Proof.
  revert i. induction n as [|n IH]; intros i; [by left|]. cbn [alloc_from].
  destruct (s.(coro_used).[i]) eqn:E; cbn [negb].
  - destruct (IH (i + 1)) as [?|(k & ? & ? & ?)]; [by left|right]. exists k. split; [lia|done].
  - right. exists i. split; [lia|done].
Qed.

Lemma upd_step s s' i f g :
  zlen s.(coros) = MAX_COROUTINES + 1 → valid i → s'.(coros) = (upd s i f).(coros) →
  (upd s' i g).(coros) = (upd s i (λ c, g (f c))).(coros).
Proof.
  intros Hl Hv E. cbn in *. rewrite E. rewrite aget_aset_eq by (unfold valid in *; lia). apply aset_aset.
Qed.

(** A new coroutine at the end of the queue of its priority. *)
Lemma inv_push s s1 s' Q k f :
  inv s Q → running s → 0 ≤ k < MAX_COROUTINES → s.(coro_used).[k] = false →
  s1.(coros) = (upd s k f).(coros) → s1.(coro_used) = s.(coro_used).[k <- true] →
  s1.(current_coro) = s.(current_coro) → state (f (s.(coros).[k])) = CORO_READY →
  relinked s1 s' →
  qinv s' (<[priority (f (s.(coros).[k])) := Q (priority (f (s.(coros).[k]))) ++ [k]]> Q) →
  inv s' (<[priority (f (s.(coros).[k])) := Q (priority (f (s.(coros).[k]))) ++ [k]]> Q) ∧ running s'.
Proof.
  intros Hi Hr Hk Hu E1 E2 E3 Hfs R Hq'. pose proof (q_len _ _ (i_q _ _ Hi)) as (Hl & Hlu & _).
  set (p := priority (f (s.(coros).[k]))) in *.
  assert (valid k) as Hvk by (unfold valid; lia).
  assert (∀ j, valid j → state (s'.(coros).[j]) = (if decide (k = j) then CORO_READY else state (s.(coros).[j])) ∧
                         priority (s'.(coros).[j]) = if decide (k = j) then p else priority (s.(coros).[j])) as Hst.
  { intros j Hj. destruct (relinked_fields _ _ j R Hj) as (-> & -> & _). rewrite E1, coros_upd by done.
    by case_decide. }
  assert (s'.(coro_used) = s.(coro_used).[k <- true]) as Eu by (by rewrite (rl_used _ _ R)).
  assert (s'.(current_coro) = s.(current_coro)) as Ec by (by rewrite (rl_current _ _ R)).
  assert (∀ j, 0 ≤ j → k ≠ j → s'.(coro_used).[j] = s.(coro_used).[j]) as Hus.
  { intros j Hj Hne. rewrite Eu. by apply aget_aset_ne; [lia..|]. }
  pose proof (i_valid _ _ Hi) as Hvc.
  assert (k ≠ s.(current_coro)) as Hne.
  { intros ->. destruct (i_alive _ _ Hi) as [?|?]; [unfold IDLE in *; lia|congruence]. }
  unfold running in *. split; [split; [done|by rewrite Ec| | |]|].
  - rewrite Ec. destruct (i_alive _ _ Hi) as [?|?]; [by left|right]. rewrite Hus by (done || apply Hvc). done.
  - intros j Hj Haj. rewrite (proj1 (Hst j Hj)), Ec. case_decide; [done|]. apply Hi; [done|].
    destruct Haj as [?|Haj]; [by left|right]. by rewrite Hus in Haj by (done || apply Hj).
  - intros j Hj Huj. assert (valid j) as Hvj by (unfold valid; lia). destruct (Hst j Hvj) as [-> ->].
    case_decide as E; [subst j; intros _; rewrite fn_lookup_insert; set_solver|].
    rewrite Hus in Huj by (done || lia). intros Hs. pose proof (i_full _ _ Hi j Hj Huj Hs) as Hin.
    destruct (decide (priority (s.(coros).[j]) = p)) as [Ep|]; [|by rewrite fn_lookup_insert_ne].
    rewrite Ep in Hin |- *. rewrite fn_lookup_insert. apply elem_of_app. by left.
  - rewrite Ec, (proj1 (Hst _ Hvc)). by rewrite decide_False.
Qed.

Lemma create_inv s Q nm fn_ arg_ prio stack tr :
  inv s Q → running s → level prio →
  ∃ s' r Q', coro_create s nm fn_ arg_ prio stack tr = Ret (s', r) ∧ inv s' Q' ∧ running s'.
Proof.
  intros Hi Hr Hp. pose proof (i_q _ _ Hi) as Hq. pose proof (q_len _ _ Hq) as (Hl & Hlu & Hlr).
  unfold coro_create. destruct (alloc_from_spec (Z.to_nat MAX_COROUTINES) s 0) as [E|(k & Hk & Hu & E)];
    fold (alloc_coro s) in E; rewrite E; [by exists s, None, Q|].
  rewrite Z2Nat.id in Hk by done. assert (valid k) as Hv by (unfold valid; lia).
  assert (∀ p, level p → k ∉ Q p) as Hn by (intros p; by apply (unused_unqueued s)).
  assert (k ≠ s.(current_coro)) as Hne.
  { intros ->. destruct (i_alive _ _ Hi) as [?|?]; [unfold IDLE in *; lia|congruence]. }
  set (s2 := upd (taken s k) k _).
  assert (s2.(coros) = (upd s k (λ c, set_stack (set_id c s.(next_coro_id)) stack)).(coros)) as Ec2
    by (by apply (upd_step s (taken s k) k (λ c, set_id c s.(next_coro_id)))).
  destruct (nonzero stack) eqn:Es; cbn [negb].
  - destruct (initial_stack _ _ _ _ _) as [m sp]. set (s4 := upd (with_mem s2 m) k _).
    assert (∃ f, s4.(coros) = (upd s k f).(coros) ∧
      (∀ c, state (f c) = CORO_READY ∧ priority (f c) = prio)) as (f & Ec4 & Hf).
    { eexists. split; [by apply (upd_step s (with_mem s2 m) k)|done]. }
    assert (s4.(coro_used) = s.(coro_used).[k <- true]) as Eu4 by reflexivity.
    assert (s4.(current_coro) = s.(current_coro)) as Ecur by reflexivity.
    assert (qinv s4 Q) as Hq4.
    { apply (qinv_slot s s4 Q k f true); try done. by rewrite (proj2 (Hf _)). }
    clearbody s4. assert (state (s4.(coros).[k]) = CORO_READY ∧ priority (s4.(coros).[k]) = prio) as [Hs4 Hp4].
    { rewrite Ec4, coros_upd by done. by rewrite decide_True. }
    destruct (enqueue_spec s4 Q k Hq4 Hv) as (s5 & E5 & R5 & Hq5).
    + right. rewrite Eu4. apply aget_aset_eq. lia.
    + done.
    + rewrite Hp4. by apply Hn.
    + rewrite E5. cbn [mbind outcome_bind]. eexists s5, (Some k), _. split; [done|].
      destruct (Hf (s.(coros).[k])) as [Hf1 Hf2].
      apply (inv_push s s4 s5 Q k f); try done. by rewrite Hp4, <- Hf2 in Hq5.
  - assert (stack = 0) as -> by (unfold nonzero in Es; bool_hyps; done).
    exists (free_coro s2 k), None, Q. split; [done|].
    assert (stack_base (s2.(coros).[k]) = 0) as E0 by (rewrite Ec2, coros_upd by done; by rewrite decide_True).
    unfold free_coro. rewrite (proj2 (Z.ltb_lt k MAX_COROUTINES)) by lia. rewrite E0.
    cbn [nonzero Z.eqb negb]. split.
    + apply (inv_slot s _ Q k (λ c, set_stack (set_id c s.(next_coro_id)) 0)); try done.
      * cbn. apply aset_aset.
      * by apply Hq.
    + unfold running. change (current_coro (with_used s2 _)) with s.(current_coro). cbn [coros with_used].
      rewrite Ec2. rewrite coros_upd by (done || apply Hi). by rewrite decide_False.
Qed.

(** ** Runs of the scheduler *)

Lemma init_inv s f :
  zlen s.(coros) = MAX_COROUTINES + 1 → (∀ i, valid i → level (priority (s.(coros).[i]))) →
  inv (coro_init s f) (λ _, []) ∧ running (coro_init s f).
Proof.
  intros Hl Hp. unfold coro_init. set (s1 := upd _ IDLE _).
  assert (valid IDLE) as Hvi by (unfold valid, IDLE, MAX_COROUTINES; lia).
  assert (∀ i, valid i → s1.(coros).[i] = if decide (IDLE = i) then s1.(coros).[IDLE] else s.(coros).[i]) as Hco.
  { intros i Hv. case_decide as E; [by subst|]. unfold s1. rewrite coros_upd by done. by rewrite decide_False. }
  assert (state (s1.(coros).[IDLE]) = CORO_RUNNING ∧ priority (s1.(coros).[IDLE]) = 0) as [Hs Hpr].
  { unfold s1. rewrite coros_upd by done. by rewrite decide_True. }
  assert (zlen s1.(coros) = MAX_COROUTINES + 1) as Hl1 by (unfold s1; cbn; by rewrite zlen_aset).
  assert (∀ i, 0 ≤ i < MAX_COROUTINES → s1.(coro_used).[i] = false) as Hu.
  { intros i Hi. change s1.(coro_used) with (replicate (Z.to_nat MAX_COROUTINES) false).
    by apply aget_replicate. }
  assert (∀ p, level p → s1.(run_queues).[p] = None) as Hq.
  { intros p Hlp. change s1.(run_queues) with (replicate (Z.to_nat CORO_PRIORITY_LEVELS) (@None Z)).
    by apply aget_replicate. }
  assert (zlen s1.(coro_used) = MAX_COROUTINES ∧ zlen s1.(run_queues) = CORO_PRIORITY_LEVELS) as [Hlu Hlq].
  { change s1.(coro_used) with (replicate (Z.to_nat MAX_COROUTINES) false).
    change s1.(run_queues) with (replicate (Z.to_nat CORO_PRIORITY_LEVELS) (@None Z)).
    unfold zlen. by rewrite !length_replicate. }
  clearbody s1. split; [|done]. split; [split| | | |]; cbn.
  - done.
  - intros i Hv. rewrite Hco by done. case_decide; [by rewrite Hpr|by apply Hp].
  - intros p Hlp. split; [by apply Hq|by apply NoDup_nil].
  - by intros p i _ ?%not_elem_of_nil.
  - done.
  - by left.
  - intros i Hv [->|Ha]; [done|]. cbn in Ha. destruct (decide (i = IDLE)); [done|].
    rewrite Hu in Ha; [done|]. unfold valid, IDLE in *. lia.
  - intros i Hi Ha. by rewrite Hu in Ha.
Qed.

Inductive op :=
  | Create (nm : option (list Z)) (fn_ arg_ prio stack tr : Z)
  | Yield (now : Z) | Sleep (ms now now' : Z) | Exit (now : Z) | Turn (now : Z)
  | Tick | PreemptClear | Cancel (b : bool).

Definition run_op (s : sched) (o : op) : outcome sched :=
  match o with
  | Create nm f a p st tr => r ← coro_create s nm f a p st tr; Ret r.1
  | Yield now => coro_yield s now
  | Sleep ms now now' => coro_sleep s ms now now'
  | Exit now => coro_exit s now
  | Turn now => scheduler_turn s now
  | Tick => Ret (scheduler_kernel_timer_tick s)
  | PreemptClear => Ret (scheduler_preempt_clear s)
  | Cancel b => Ret (scheduler_cancel_broadcast_set s b)
  end.
Fixpoint run_ops (s : sched) (os : list op) : outcome sched :=
  match os with [] => Ret s | o :: os => s ← run_op s o; run_ops s os end.

(** The priority is a byte, and a sleep ends after the tick at which [coro_yield]
    looks at the clock. *)
Definition valid_op (o : op) : Prop :=
  match o with
  | Create _ _ _ p _ _ => level p
  | Sleep ms now now' => now' < u64 (now + u64 (ms * TIMER_FREQ_HZ) / 1000)
  | _ => True
  end.

Lemma exit_inv s Q now :
  inv s Q → running s → ∃ s' Q', coro_exit s now = Ret s' ∧ inv s' Q' ∧ running s'.
Proof.
  intros Hi Hr. pose proof (q_len _ _ (i_q _ _ Hi)) as (Hl & _). unfold coro_exit. set (s1 := upd _ _ _).
  assert (inv s1 Q) as Hi1 by (apply inv_upd_current; [done|by rewrite Hr|done]).
  assert (state (s1.(coros).[s1.(current_coro)]) = CORO_DEAD) as Hs.
  { unfold s1. cbn [current_coro upd with_coros]. rewrite coros_upd by (done || apply Hi). by rewrite decide_True. }
  destruct (yield_inv s1 Q now Hi1) as (s' & E & H & H'); [|by eauto].
  split; [apply Hi1|apply Hi1|by rewrite Hs|].
  unfold expired. by rewrite Hs, bool_decide_eq_false_2, andb_false_r by done.
Qed.

Lemma sleep_inv s Q ms now now' :
  inv s Q → running s → now' < u64 (now + u64 (ms * TIMER_FREQ_HZ) / 1000) →
  ∃ s' Q', coro_sleep s ms now now' = Ret s' ∧ inv s' Q' ∧ running s'.
Proof.
  intros Hi Hr Hw. pose proof (q_len _ _ (i_q _ _ Hi)) as (Hl & _).
  unfold coro_sleep. set (w := u64 _) in *. set (s1 := upd s _ _). set (s2 := upd s1 _ _).
  assert (inv s1 Q) as Hi1 by (apply inv_upd_current; [done|by rewrite Hr|done]).
  assert (s2.(coros) = (upd s s.(current_coro) (λ c, set_wake (set_state c CORO_WAITING) w)).(coros)) as E2
    by (by apply (upd_step s s1 s.(current_coro) (λ c, set_state c CORO_WAITING)); [|apply Hi|]).
  assert (inv s2 Q) as Hi2.
  { apply (inv_same (upd s s.(current_coro) (λ c, set_wake (set_state c CORO_WAITING) w))); try done.
    apply inv_upd_current; [done|by rewrite Hr|done]. }
  destruct (yield_inv s2 Q now' Hi2) as (s' & E & H & H'); [|by eauto].
  assert (s2.(coros).[s2.(current_coro)] = set_wake (set_state (s.(coros).[s.(current_coro)]) CORO_WAITING) w) as Hc.
  { rewrite E2. change s2.(current_coro) with s.(current_coro). rewrite coros_upd by (done || apply Hi).
    by rewrite decide_True. }
  split; [apply Hi2|apply Hi2|by rewrite Hc|].
  unfold expired. rewrite Hc. cbn [wake_tick set_wake]. replace (now' >=? w) with false by lia. apply andb_false_r.
Qed.

Lemma op_inv s Q o :
  inv s Q → running s → valid_op o → ∃ s' Q', run_op s o = Ret s' ∧ inv s' Q' ∧ running s'.
Proof.
  intros Hi Hr Hv. destruct o as [nm f a p st tr|now|ms now now'|now|now| | |b]; cbn [run_op].
  - destruct (create_inv s Q nm f a p st tr Hi Hr Hv) as (s' & r & Q' & -> & ? & ?). by exists s', Q'.
  - destruct (yield_inv s Q now Hi (running_may_yield s Q now Hi Hr)) as (s' & E & ? & ?). by eexists s', _.
  - by apply (sleep_inv s Q).
  - by apply (exit_inv s Q).
  - by apply (turn_inv s Q).
  - eexists _, Q. split; [done|]. unfold scheduler_kernel_timer_tick, running.
    cbv zeta. by destruct (_ >=? _); (split; [apply (inv_same s)|]).
  - eexists _, Q. split; [done|]. split; [by apply (inv_same s)|done].
  - eexists _, Q. split; [done|]. split; [by apply (inv_same s)|done].
Qed.

Lemma run_ops_inv os s Q :
  inv s Q → running s → Forall valid_op os → ∃ s' Q', run_ops s os = Ret s' ∧ inv s' Q' ∧ running s'.
Proof.
  revert s Q. induction os as [|o os IH]; intros s Q Hi Hr Hv; [by exists s, Q|].
  apply Forall_cons in Hv as [Ho Hv]. destruct (op_inv s Q o Hi Hr Ho) as (s1 & Q1 & E & Hi1 & Hr1).
  cbn [run_ops]. rewrite E. by apply (IH s1 Q1).
Qed.

(** ** Theorems *)

(** C4: Whatever calls are made after [coro_init], in any order, provided that every
    sleep ends after the time at which [coro_yield] reads the clock, the scheduler
    never loops in a run queue, and afterwards the queues are well formed:
    they are chains without repetition of ready coroutines of their level,
    every ready coroutine of the pool is in the queue of its priority, and
    exactly the current coroutine is running. The calls are all those of the
    interface and the turns of [scheduler_run]. (A sleep that is over when
    [coro_yield] reads the clock corrupts the queue: [sleep_zero_loops].) *)
Theorem scheduler_run_inv s f os :
  zlen s.(coros) = MAX_COROUTINES + 1 → (∀ i, valid i → level (priority (s.(coros).[i]))) →
  Forall valid_op os →
  ∃ s' Q, run_ops (coro_init s f) os = Ret s' ∧ inv s' Q ∧ running s'.
Proof. intros Hl Hp Hv. destruct (init_inv s f Hl Hp) as [Hi Hr]. by apply (run_ops_inv _ _ (λ _, [])). Qed.

Lemma started_priority nxt i c : priority (started nxt i c) = priority c.
Proof. unfold started. by destruct (i =? nxt). Qed.
Lemma roused_priority s now lo i c : priority (roused s now lo i c) = priority c.
Proof. unfold roused. by destruct ((lo <=? i) && _ && _). Qed.
Lemma yielded_priority prev i c : priority (yielded prev i c) = priority c.
Proof. unfold yielded. by destruct ((i =? prev) && _). Qed.

Lemma yield_max s Q now s' :
  inv s Q → may_yield s now → coro_yield s now = Ret s' → inv s' (pick (resumed s Q now)).1 →
  ∀ i, 0 ≤ i < MAX_COROUTINES → s'.(coro_used).[i] = true → state (s'.(coros).[i]) = CORO_READY →
  priority (s'.(coros).[i]) ≤ priority (s'.(coros).[s'.(current_coro)]).
Proof.
  intros Hi Hm E Hi' i Hir Hu Hst. destruct (yield_spec s Q now (i_q _ _ Hi) Hm) as (s'' & E' & Ec & _ & R).
  rewrite E in E'. injection E' as <-.
  destruct (yield_front (scheduler_preempt_clear s) Q now) as (s2 & s3 & _ & _ & R3 & Hq3).
  { by eapply qinv_same; [..|apply Hi]. }
  { by destruct Hm. }
  change (resumed (scheduler_preempt_clear s) Q now) with (resumed s Q now) in Hq3.
  pose proof (pick_level_mem s3 _ (Z.to_nat CORO_PRIORITY_LEVELS) CORO_PRIORITY_MAX Hq3 eq_refl eq_refl) as Hmem.
  fold (pick (resumed s Q now)) in Hmem. destruct (pick (resumed s Q now)) as [Q4 nxt].
  cbn [fst snd] in *. destruct Hmem as (Hv & _ & _ & Hmax); [unfold CORO_PRIORITY_MAX, CORO_PRIORITY_LEVELS; lia|].
  assert (∀ j, valid j → priority (s'.(coros).[j]) = priority (s.(coros).[j]) ∧
                         priority (s3.(coros).[j]) = priority (s.(coros).[j])) as Hpr.
  { intros j Hj. pose proof (recast_fields _ _ _ j R Hj) as (_ & E1 & _).
    pose proof (recast_fields _ _ _ j R3 Hj) as (_ & E2 & _). rewrite E1, E2. unfold coro_after.
    by rewrite started_priority, !roused_priority, !yielded_priority. }
  assert (valid i) as Hvi by (unfold valid; lia). rewrite Ec.
  rewrite (proj1 (Hpr i Hvi)), (proj1 (Hpr nxt Hv)), <- (proj2 (Hpr nxt Hv)).
  assert (i ≠ nxt) as Hne.
  { intros ->. destruct (recast_fields _ _ _ nxt R Hvi) as (E1 & _). rewrite Hst, Ec in E1.
    unfold coro_after, started in E1. by rewrite Z.eqb_refl in E1. }
  apply (Hmax _ i); [by apply Hi|]. apply (resumed_full s Q now nxt); [done|done| |done|].
  - by rewrite (rc_used _ _ _ R) in Hu.
  - destruct (recast_fields _ _ _ i R Hvi) as (E1 & _). by rewrite Hst, Ec in E1.
Qed.

(** C17: [coro_yield] implements strict-priority, first-in first-out scheduling
    with sleepers. The coroutine it switches to is the head of the highest
    non-empty queue once the expired sleepers (in index order) and then the
    coroutine that yields have been appended to theirs; the queues afterwards
    are those without that head; each coroutine changes as [coro_after] says,
    and no ready coroutine has a higher priority than the chosen one. *)
Theorem yield_refines s Q now :
  inv s Q → running s →
  ∃ s', coro_yield s now = Ret s' ∧
    s'.(current_coro) = (pick (resumed s Q now)).2 ∧ inv s' (pick (resumed s Q now)).1 ∧ running s' ∧
    recast (coro_after s now s'.(current_coro)) (with_current s s'.(current_coro)) s' ∧
    ∀ i, 0 ≤ i < MAX_COROUTINES → s'.(coro_used).[i] = true → state (s'.(coros).[i]) = CORO_READY →
      priority (s'.(coros).[i]) ≤ priority (s'.(coros).[s'.(current_coro)]).
Proof.
  intros Hi Hr. pose proof (running_may_yield s Q now Hi Hr) as Hm.
  destruct (yield_spec s Q now (i_q _ _ Hi) Hm) as (s' & E & Ec & _ & R).
  destruct (yield_inv s Q now Hi Hm) as (s'' & E' & Hi' & Hr'). rewrite E in E'. injection E' as <-.
  exists s'. do 5 (split; [done|]). by apply (yield_max s Q now).
Qed.

(** ** Round robin *)

(** No coroutine of a priority above [p] can become ready. *)
Definition calm (s : sched) (p : Z) : Prop :=
  ∀ i, valid i → alive s i → p < priority (s.(coros).[i]) → state (s.(coros).[i]) = CORO_DEAD.

Lemma pick_level_at Q c l p n q :
  Q p = c :: l → p ≤ q → q - p < Z.of_nat n → (∀ r, p < r ≤ q → Q r = []) → pick_level n Q q = (<[p := l]> Q, c).
Proof.
  intros Hp. revert q. induction n as [|n IH]; intros q Hpq Hn He; [lia|]. cbn [pick_level].
  destruct (decide (q = p)) as [->|]; [by rewrite Hp|]. rewrite He by lia. apply IH; [lia|lia|]. intros r Hr. apply He. lia.
Qed.

Lemma calm_empty s Q now p r : inv s Q → running s → calm s p → level r → p < r → resumed s Q now r = [].
Proof.
  intros Hi Hr Hc Hl Hpr. assert (Q r = []) as Eq.
  { destruct (Q r) as [|i l] eqn:E; [done|]. destruct (q_mem _ _ (i_q _ _ Hi) r i Hl) as (V & A & S & Pr); [rewrite E; by left|].
    rewrite (Hc i V A) in S; [done|lia]. }
  assert (woken s now r (seqZ 0 MAX_COROUTINES) = []) as Ew.
  { destruct (woken s now r (seqZ 0 MAX_COROUTINES)) as [|i l] eqn:E; [done|]. assert (i ∈ woken s now r (seqZ 0 MAX_COROUTINES)) as Hin by (rewrite E; by left).
    apply list_elem_of_filter in Hin as [[He Hp] Hin]. apply elem_of_seqZ in Hin. unfold expired in He. bool_hyps.
    match goal with H : bool_decide _ = true |- _ => apply bool_decide_eq_true in H; rename H into Hw end.
    rewrite (Hc i) in Hw; [done|unfold valid; lia|by right|lia]. }
  unfold resumed. rewrite bool_decide_eq_true_2 by done.
  rewrite fn_lookup_insert_ne; [by rewrite Eq, Ew|]. intros <-. pose proof (Hc _ (i_valid _ _ Hi) (i_alive _ _ Hi) Hpr) as Hd. by rewrite Hr in Hd.
Qed.

(** One yield: the queue of level [p] moves up by one. *)
Lemma yield_turn s Q p c l now :
  inv s Q → running s → level p → calm s p → Q p = c :: l →
  ∃ s' Q' l', coro_yield s now = Ret s' ∧ inv s' Q' ∧ running s' ∧ calm s' p ∧ s'.(current_coro) = c ∧ Q' p = l ++ l'.
Proof.
  intros Hi Hr Hl Hc Hq. pose proof (running_may_yield s Q now Hi Hr) as Hm.
  destruct (yield_inv s Q now Hi Hm) as (s' & E & Hi' & Hr'). destruct (yield_spec s Q now (i_q _ _ Hi) Hm) as (s'' & E' & Ec & _ & R).
  rewrite E in E'. injection E' as <-.
  assert (∃ l', resumed s Q now p = c :: l ++ l') as (l' & Ep).
  { unfold resumed. set (Q1 := λ p, Q p ++ woken s now p (seqZ 0 MAX_COROUTINES)). case_bool_decide; [|eexists; unfold Q1; by rewrite Hq].
    destruct (decide (p = priority (s.(coros).[s.(current_coro)]))) as [->|]; [rewrite fn_lookup_insert|rewrite fn_lookup_insert_ne by done];
      unfold Q1; rewrite Hq; [rewrite <- app_assoc|]; by eexists. }
  assert (pick (resumed s Q now) = (<[p := l ++ l']> (resumed s Q now), c)) as Epick.
  { apply pick_level_at; [done|unfold level, CORO_PRIORITY_MAX, CORO_PRIORITY_LEVELS in *; lia| |].
    - unfold level, CORO_PRIORITY_MAX, CORO_PRIORITY_LEVELS in *. lia.
    - intros r Hr2. apply (calm_empty s Q now p); [done|done|done| |lia]. unfold level, CORO_PRIORITY_MAX, CORO_PRIORITY_LEVELS in *. lia. }
  rewrite Epick in Hi', Ec. cbn [fst snd] in *. exists s', (<[p := l ++ l']> (resumed s Q now)), l'. split; [done|]. split; [done|]. split; [done|].
  split; [|split; [done|by rewrite fn_lookup_insert]]. intros i V A Hpr. destruct (recast_fields _ _ _ i R V) as (Es & Eprio & _).
  assert (priority (s'.(coros).[i]) = priority (s.(coros).[i])) as Epr by (rewrite Eprio; unfold coro_after; by rewrite started_priority, roused_priority, yielded_priority).
  assert (alive s i) as A' by (unfold alive in *; by rewrite (rc_used _ _ _ R) in A). rewrite Epr in Hpr. pose proof (Hc i V A' Hpr) as Hd.
  assert (expired s now i = false) as Ee by (unfold expired; rewrite Hd; by rewrite bool_decide_eq_false_2, andb_false_r by done).
  assert (roused s now 0 i (yielded s.(current_coro) i (s.(coros).[i])) = s.(coros).[i]) as Ey.
  { unfold roused. rewrite Ee, andb_false_r. unfold yielded. by rewrite Hd, andb_false_r. }
  rewrite Es. unfold coro_after. cbn [coros with_current]. rewrite Ey. unfold started.
  destruct (Z.eqb_spec i s'.(current_coro)) as [->|]; [|done]. exfalso.
  destruct (q_mem _ _ (i_q _ _ Hi) p c Hl) as (_ & _ & Sc & _); [rewrite Hq; by left|]. rewrite Ec in Hd. congruence.
Qed.

Lemma turns s Q p c l1 l2 nows :
  inv s Q → running s → level p → calm s p → Q p = l1 ++ c :: l2 → length nows = S (length l1) →
  ∃ s', run_ops s (map Yield nows) = Ret s' ∧ s'.(current_coro) = c ∧ running s'.
Proof.
  revert s Q l2 nows. induction l1 as [|a l1 IH]; intros s Q l2 nows Hi Hr Hl Hc Hq Hn.
  - destruct nows as [|now [|? ?]]; [done| |done]. destruct (yield_turn s Q p c l2 now Hi Hr Hl Hc Hq) as (s' & Q' & l' & E & _ & Hr' & _ & Ec & _).
    exists s'. cbn [map run_ops run_op]. by rewrite E.
  - destruct nows as [|now nows]; [done|]. destruct (yield_turn s Q p a (l1 ++ c :: l2) now Hi Hr Hl Hc Hq) as (s1 & Q1 & l' & E & Hi1 & Hr1 & Hc1 & _ & Eq).
    rewrite <- app_assoc in Eq. destruct (IH s1 Q1 (l2 ++ l') nows Hi1 Hr1 Hl Hc1 Eq ltac:(cbn in Hn; lia)) as (s' & E' & ?).
    exists s'. split; [|done]. cbn [map run_ops run_op]. rewrite E. exact E'.
Qed.

(** C19: No coroutine waits for ever behind its equals: with nothing of a higher
    priority about, the coroutine at position [k] of its queue is the one that
    runs after [k + 1] yields, whatever the clock says and whoever wakes up
    meanwhile. *)
Theorem round_robin s Q p c l1 l2 nows :
  inv s Q → running s → level p → calm s p → Q p = l1 ++ c :: l2 → length nows = S (length l1) →
  ∃ s', run_ops s (map Yield nows) = Ret s' ∧ s'.(current_coro) = c ∧ running s'.
Proof. apply turns. Qed.

(** ** A sleep that is over at once *)

Definition boot_sched : sched :=
  {| coros := replicate (Z.to_nat MAX_COROUTINES + 1) zero_coro;
     coro_used := replicate (Z.to_nat MAX_COROUTINES) false;
     run_queues := replicate (Z.to_nat CORO_PRIORITY_LEVELS) None;
     current_coro := IDLE; next_coro_id := 0; sched_preempt_pending := false;
     sched_ticks_since_switch := 0; sched_cancel_broadcast := false; released := []; stack_mem := ∅ |}.

(** Two coroutines of the same priority, of which the first is started. *)
Definition two_coros : list op :=
  [Create None 16 0 128 0x10000 32; Create None 24 0 128 0x30000 32; Turn 1].

Lemma tail_from_loop fuel cs i : next (cs.[i]) = Some i → tail_from fuel cs i = NoFuel.
Proof. intros E. induction fuel as [|fuel IH]; [done|]. cbn [tail_from]. by rewrite E. Qed.

Lemma enqueue_loop s c i fuel :
  s.(run_queues).[priority ((upd s c (λ x, set_next x None)).(coros).[c])] = Some i →
  next ((upd s c (λ x, set_next x None)).(coros).[i]) = Some i →
  enqueue fuel s c = NoFuel.
Proof.
  intros Eq En. unfold enqueue. cbv zeta. change (run_queues (upd s c _)) with s.(run_queues).
  rewrite Eq. by rewrite tail_from_loop.
Qed.

Definition after_sleep_zero : outcome sched :=
  s ← run_ops (coro_init boot_sched 8) two_coros; coro_sleep s 0 5 5.
Definition ret_or {A} (o : outcome A) (d : A) : A := match o with Ret x => x | _ => d end.

(** [coro_sleep(0)] breaks the run queue. The sleep is over when
    [coro_yield] wakes the sleepers, so the coroutine is put in its queue twice
    and is linked to itself; the next time a coroutine of that priority is put
    in the queue, the walk to its end does not terminate. *)
Theorem sleep_zero_loops :
  ∃ s, after_sleep_zero = Ret s ∧ s.(current_coro) = 1 ∧
    s.(run_queues).[128] = Some 0 ∧ next (s.(coros).[0]) = Some 0 ∧
    coro_yield s 6 = NoFuel ∧ ∀ fuel, enqueue fuel s 1 = NoFuel.
Proof.
  exists (ret_or after_sleep_zero boot_sched). do 5 (split; [vm_compute; reflexivity|]).
  intros fuel. apply (enqueue_loop _ _ 0); vm_compute; reflexivity.
Qed.

(** ** The theorems at concrete states *)

Lemma boot_length : zlen boot_sched.(coros) = MAX_COROUTINES + 1.
Proof. by vm_compute. Qed.

Lemma boot_levels i : valid i → level (priority (boot_sched.(coros).[i])).
Proof.
  intros _. cbn [coros boot_sched]. apply (Forall_aget_default (λ c, level (priority c))); [|done].
  by apply Forall_replicate.
Qed.

Lemma two_coros_inv :
  ∃ s Q, run_ops (coro_init boot_sched 8) two_coros = Ret s ∧ inv s Q ∧ running s.
Proof.
  destruct (init_inv boot_sched 8 boot_length boot_levels) as [Hi Hr].
  apply (run_ops_inv two_coros _ (λ _, [])); [done|done|].
  repeat (apply List.Forall_cons || apply List.Forall_nil); cbn [valid_op]; try exact I;
    unfold level, CORO_PRIORITY_LEVELS; lia.
Qed.

Definition demo_ops : list op :=
  two_coros ++ [Yield 2; Sleep 20 2 2; Tick; Turn 3; Yield 40; Exit 41; Turn 42; Cancel true].

Lemma demo_ops_valid : Forall valid_op demo_ops.
Proof.
  repeat (apply List.Forall_cons || apply List.Forall_nil); cbn [valid_op]; try exact I;
    [unfold level, CORO_PRIORITY_LEVELS; lia..|by vm_compute].
Qed.

Lemma scheduler_run_inv_witness :
  ∃ s Q, run_ops (coro_init boot_sched 8) demo_ops = Ret s ∧ inv s Q ∧ running s.
Proof.
  exact (scheduler_run_inv boot_sched 8 demo_ops boot_length boot_levels demo_ops_valid).
Defined.

Lemma yield_refines_witness :
  ∃ s Q s', run_ops (coro_init boot_sched 8) two_coros = Ret s ∧ coro_yield s 2 = Ret s' ∧
    s'.(current_coro) = (pick (resumed s Q 2)).2.
Proof.
  destruct two_coros_inv as (s & Q & E & Hi & Hr).
  destruct (yield_refines s Q 2 Hi Hr) as (s' & E' & Ec & _). exists s, Q, s'. exact (conj E (conj E' Ec)).
Defined.

(** Three coroutines of one priority, the first of them running. *)
Definition three_coros : list op :=
  [Create None 16 0 128 0x10000 32; Create None 24 0 128 0x30000 32; Create None 32 0 128 0x50000 32; Turn 1].
Definition three : sched := ret_or (run_ops (coro_init boot_sched 8) three_coros) boot_sched.

Lemma three_inv : ∃ Q, inv three Q ∧ running three.
Proof.
  destruct (init_inv boot_sched 8 boot_length boot_levels) as [Hi Hr].
  destruct (run_ops_inv three_coros _ (λ _, []) Hi Hr) as (s & Q & E & Hi' & Hr').
  - repeat (apply List.Forall_cons || apply List.Forall_nil); cbn [valid_op]; try exact I; unfold level, CORO_PRIORITY_LEVELS; lia.
  - exists Q. unfold three. rewrite E. exact (conj Hi' Hr').
Qed.
Lemma three_calm : calm three 128.
Proof.
  assert (forallb (λ i, priority (three.(coros).[i]) <=? 128) (seqZ 0 (MAX_COROUTINES + 1)) = true) as Hf by (vm_compute; reflexivity).
  rewrite forallb_forall in Hf. intros i Hv _ Hp. exfalso.
  assert (i ∈ seqZ 0 (MAX_COROUTINES + 1)) as Hin by (apply elem_of_seqZ; unfold valid in Hv; lia).
  apply list_elem_of_In, Hf in Hin. lia.
Qed.
Lemma ilist_two nxt p l a b : p = Some a → nxt a = Some b → nxt b = None → ilist nxt p l → l = [a; b].
Proof.
  intros -> Ha Hb Hl. destruct l as [|x l]; [discriminate|]. destruct Hl as [Hx Hl]. injection Hx as <-. rewrite Ha in Hl.
  destruct l as [|y l]; [discriminate|]. destruct Hl as [Hy Hl]. injection Hy as <-. rewrite Hb in Hl.
  destruct l as [|z l]; [reflexivity|]. destruct Hl as [Hz _]. discriminate.
Qed.
Lemma three_queue Q : inv three Q → Q 128 = [1; 2].
Proof.
  intros Hi. destruct (q_chain _ _ (i_q _ _ Hi) 128) as [Hc _]; [split; [discriminate|reflexivity]|].
  eapply ilist_two; [..|exact Hc]; vm_compute; reflexivity.
Qed.

Lemma round_robin_witness : ∃ s', run_ops three (map Yield [2; 3]) = Ret s' ∧ s'.(current_coro) = 2 ∧ running s'.
Proof.
  destruct three_inv as (Q & Hi & Hr). apply (round_robin three Q 128 2 [1] [] [2; 3] Hi Hr); [split; [discriminate|reflexivity]|exact three_calm| |reflexivity].
  exact (three_queue Q Hi).
Defined.
