(* ===== verification/Ifc.v ===== *)
(** * Information-flow control, sandbox profiles and syscall routing

    [src/container/ifc.c], [src/container/sandbox.c] and
    [src/linux/linux_syscall_dispatch.c]. A domain is its number, as in the C
    enumeration, which is unsigned; [UINT32_MAX] ends an allowlist. *)

From S2P Require Import Prelude.
From stdpp Require Import base numbers list.
Open Scope Z_scope.

(** ** The policy matrix ([ifc.c]) *)

Definition LC_IFC_DOM_HOST : Z := 0.
Definition LC_IFC_DOM_CONTAINER : Z := 1.
Definition LC_IFC_DOM_SKILL : Z := 2.
Definition LC_IFC_DOM_LLM : Z := 3.
Definition LC_IFC_DOM_HMS : Z := 4.
Definition LC_IFC_DOM_COUNT : Z := 5.

Definition LC_IFC_OP_READ : Z := 1.
Definition LC_IFC_OP_WRITE : Z := 2.
Definition LC_IFC_OP_EXEC : Z := 4.
Definition IFC_ALL : Z := Z.lor (Z.lor LC_IFC_OP_READ LC_IFC_OP_WRITE) LC_IFC_OP_EXEC.

Definition policy : Type := list (list Z).

Definition ifc_set (g : policy) (a b mask : Z) : policy := g.[a <- (g.[a]).[b <- mask]].

Fixpoint zero_row (n : nat) (g : policy) (i j : Z) : policy :=
  match n with O => g | S n => zero_row n (ifc_set g i j 0) i (j + 1) end.
Fixpoint zero_rows (n : nat) (g : policy) (i : Z) : policy :=
  match n with
  | O => g
  | S n => zero_rows n (zero_row (Z.to_nat LC_IFC_DOM_COUNT) g i 0) (i + 1)
  end.
Fixpoint host_all (n : nat) (g : policy) (j : Z) : policy :=
  match n with O => g | S n => host_all n (ifc_set g LC_IFC_DOM_HOST j IFC_ALL) (j + 1) end.

Definition lc_ifc_init (g : policy) : policy :=
  let g := zero_rows (Z.to_nat LC_IFC_DOM_COUNT) g 0 in
  let g := host_all (Z.to_nat LC_IFC_DOM_COUNT) g 0 in
  let g := ifc_set g LC_IFC_DOM_CONTAINER LC_IFC_DOM_HOST (Z.lor LC_IFC_OP_READ LC_IFC_OP_WRITE) in
  let g := ifc_set g LC_IFC_DOM_CONTAINER LC_IFC_DOM_HMS LC_IFC_OP_READ in
  let g := ifc_set g LC_IFC_DOM_CONTAINER LC_IFC_DOM_LLM 0 in
  let g := ifc_set g LC_IFC_DOM_SKILL LC_IFC_DOM_LLM LC_IFC_OP_READ in
  let g := ifc_set g LC_IFC_DOM_SKILL LC_IFC_DOM_HMS (Z.lor LC_IFC_OP_READ LC_IFC_OP_WRITE) in
  let g := ifc_set g LC_IFC_DOM_SKILL LC_IFC_DOM_HOST 0 in
  let g := ifc_set g LC_IFC_DOM_LLM LC_IFC_DOM_HMS LC_IFC_OP_READ in
  let g := ifc_set g LC_IFC_DOM_LLM LC_IFC_DOM_HOST LC_IFC_OP_WRITE in
  let g := ifc_set g LC_IFC_DOM_HMS LC_IFC_DOM_HOST (Z.lor LC_IFC_OP_READ LC_IFC_OP_WRITE) in
  ifc_set g LC_IFC_DOM_HMS LC_IFC_DOM_SKILL LC_IFC_OP_READ.

Definition lc_ifc_flow_allowed (g : policy) (from to ops : Z) : bool :=
  if (from >=? LC_IFC_DOM_COUNT) || (to >=? LC_IFC_DOM_COUNT) then false else
  let cell := (g.[from]).[to] in
  Z.land cell ops =? ops.

Definition lc_ifc_grant (g : policy) (from to ops : Z) : policy :=
  if (from >=? LC_IFC_DOM_COUNT) || (to >=? LC_IFC_DOM_COUNT) then g else
  ifc_set g from to (Z.lor ((g.[from]).[to]) ops).

(** [~ops] on a 32-bit word. *)
Definition lnot32 (x : Z) : Z := u32 (Z.lnot x).

Definition lc_ifc_revoke (g : policy) (from to ops : Z) : policy :=
  if (from >=? LC_IFC_DOM_COUNT) || (to >=? LC_IFC_DOM_COUNT) then g else
  ifc_set g from to (Z.land ((g.[from]).[to]) (lnot32 ops)).

(** ** Syscall allowlists ([sandbox.c]) *)

Definition g_skill_allow : list Z := [0; 1; 2; 3; 9; 10; 11; 12; 60; 231; UINT32_MAX].
Definition g_docker_allow : list Z :=
  [0; 1; 2; 3; 4; 5; 6; 7; 8; 9; 10; 11; 12;
   13; 14; 16; 17; 23; 24; 28; 35; 39; 41; 42; 56; 57; 59; 60; 63; 72; 78;
   79; 89; 96; 97; 102; 131; 158; 186; 202; 217; 230; 231; 234; 237; 270;
   273; 281; 291; 293; 318;
   257; 262; 263; 267; 269; 270; 271; 273; 281; UINT32_MAX].

(** [in_list], from the element at hand; a list without a final [UINT32_MAX] is
    read past its end. *)
Fixpoint in_list (l : list Z) (nr : Z) : option bool :=
  match l with
  | [] => None
  | x :: l => if x =? UINT32_MAX then Some false else if x =? nr then Some true else in_list l nr
  end.

Inductive lc_sb_profile_t := LC_SB_PROFILE_SKILL | LC_SB_PROFILE_DOCKER | LC_SB_PROFILE_COUNT.

(** [None] when the allowlist is read out of its bounds. *)
Definition lc_sandbox_syscall_allow (prof : lc_sb_profile_t) (linux_nr : Z) : option bool :=
  match prof with
  | LC_SB_PROFILE_SKILL => in_list g_skill_allow linux_nr
  | LC_SB_PROFILE_DOCKER => in_list g_docker_allow linux_nr
  | LC_SB_PROFILE_COUNT => Some false
  end.

Definition lc_linux_syscall_gate (g : policy) (prof : lc_sb_profile_t) (from_dom linux_nr : Z) : option Z :=
  match lc_sandbox_syscall_allow prof linux_nr with
  | None => None
  | Some false => Some (-1)
  | Some true =>
      match prof with
      | LC_SB_PROFILE_DOCKER =>
          if (from_dom =? LC_IFC_DOM_CONTAINER)
             && negb (lc_ifc_flow_allowed g from_dom LC_IFC_DOM_HOST (Z.lor LC_IFC_OP_READ LC_IFC_OP_WRITE))
          then Some (-1) else Some 0
      | _ => Some 0
      end
  end.

(** ** Routing ([linux_syscall_dispatch.c]) *)

Inductive linux_dispatch_domain_t :=
  LINUX_DISPATCH_VFS | LINUX_DISPATCH_MM | LINUX_DISPATCH_PROC | LINUX_DISPATCH_NET
  | LINUX_DISPATCH_SIGNAL | LINUX_DISPATCH_STUB | LINUX_DISPATCH_ENOSYS.
#[export] Instance linux_dispatch_domain_eq_dec : EqDecision linux_dispatch_domain_t.
Proof. solve_decision. Defined.

Definition domain_for_nr (nr : Z) : linux_dispatch_domain_t :=
  match nr with
  | 0 | 1 | 2 | 3 | 4 | 5 | 6 | 7 | 8 | 13 | 14 | 17 | 72 | 78 | 79 | 89 | 97 | 102 | 131 | 217
  | 257 | 262 | 263 | 267 | 269 => LINUX_DISPATCH_VFS
  | 9 | 10 | 11 | 12 | 23 | 24 | 28 => LINUX_DISPATCH_MM
  | 35 | 39 | 56 | 57 | 59 | 60 | 63 | 186 | 231 | 234 | 237 | 281 => LINUX_DISPATCH_PROC
  | 41 | 42 | 44 | 45 | 46 | 47 | 48 | 49 | 50 | 51 | 52 | 53 | 291 | 293 | 318 => LINUX_DISPATCH_NET
  | 16 | 96 | 158 | 202 | 230 | 270 | 271 | 273 => LINUX_DISPATCH_SIGNAL
  | _ => LINUX_DISPATCH_ENOSYS
  end.
Definition linux_syscall_dispatch_domain (linux_nr : Z) : linux_dispatch_domain_t :=
  domain_for_nr linux_nr.

(** The counters of [evolution_metrics.c]. *)
Record evolution_metrics_t := {
  crash_events : Z; syscall_samples : Z; syscall_latency_ticks_sum : Z;
  skill_success : Z; skill_attempts : Z; patch_apply_ok : Z; patch_revert_count : Z;
}.
Definition evolution_metrics_note_syscall_latency (m : evolution_metrics_t) (delta_ticks : Z) : evolution_metrics_t :=
  {| crash_events := m.(crash_events); syscall_samples := u64 (m.(syscall_samples) + 1);
     syscall_latency_ticks_sum := u64 (m.(syscall_latency_ticks_sum) + delta_ticks);
     skill_success := m.(skill_success); skill_attempts := m.(skill_attempts);
     patch_apply_ok := m.(patch_apply_ok); patch_revert_count := m.(patch_revert_count) |}.
Definition linux_syscall_dispatch_stub (m : evolution_metrics_t) (linux_nr : Z) : evolution_metrics_t * Z :=
  (evolution_metrics_note_syscall_latency m 1, - ENOTSUP).

(** ** The matrix as a set of permissions

    [g_bit g f t b]: the operation whose mask is [2 ^ b] may flow from [f] to [t]. *)

Definition domain (d : Z) : Prop := 0 ≤ d < LC_IFC_DOM_COUNT.
Definition word (x : Z) : Prop := 0 ≤ x < 2 ^ 32.
Definition policy_ok (g : policy) : Prop :=
  zlen g = LC_IFC_DOM_COUNT ∧ ∀ d, domain d → zlen (g.[d]) = LC_IFC_DOM_COUNT.
Definition g_bit (g : policy) (f t b : Z) : bool := Z.testbit ((g.[f]).[t]) b.

Inductive ifc_call := Grant (from to ops : Z) | Revoke (from to ops : Z).
Definition ifc_step (g : policy) (c : ifc_call) : policy :=
  match c with Grant f t o => lc_ifc_grant g f t o | Revoke f t o => lc_ifc_revoke g f t o end.
Definition ifc_run (g : policy) (cs : list ifc_call) : policy := fold_left ifc_step cs g.

(** The permission matrix that [lc_ifc_init]'s comments describe. *)
Definition default_ops (f t : Z) : list Z :=
  if f =? LC_IFC_DOM_HOST then [0; 1; 2] else
  if (f =? LC_IFC_DOM_CONTAINER) && (t =? LC_IFC_DOM_HOST) then [0; 1] else
  if (f =? LC_IFC_DOM_CONTAINER) && (t =? LC_IFC_DOM_HMS) then [0] else
  if (f =? LC_IFC_DOM_SKILL) && (t =? LC_IFC_DOM_LLM) then [0] else
  if (f =? LC_IFC_DOM_SKILL) && (t =? LC_IFC_DOM_HMS) then [0; 1] else
  if (f =? LC_IFC_DOM_LLM) && (t =? LC_IFC_DOM_HMS) then [0] else
  if (f =? LC_IFC_DOM_LLM) && (t =? LC_IFC_DOM_HOST) then [1] else
  if (f =? LC_IFC_DOM_HMS) && (t =? LC_IFC_DOM_HOST) then [0; 1] else
  if (f =? LC_IFC_DOM_HMS) && (t =? LC_IFC_DOM_SKILL) then [0] else [].

(** Whether the last call about a permission granted it, or else the default. *)
Definition decide_call (f t b : Z) (acc : bool) (c : ifc_call) : bool :=
  match c with
  | Grant f' t' o => if (f =? f') && (t =? t') && Z.testbit o b then true else acc
  | Revoke f' t' o => if (f =? f') && (t =? t') && Z.testbit o b then false else acc
  end.
Definition permitted (cs : list ifc_call) (f t b : Z) : bool :=
  fold_left (decide_call f t b) cs (bool_decide (b ∈ default_ops f t)).

Lemma ifc_set_cell g a b mask f t :
  policy_ok g → domain a → domain b → domain f → domain t →
  ((ifc_set g a b mask).[f]).[t] = (if decide (a = f ∧ b = t) then mask else (g.[f]).[t]) ∧
  policy_ok (ifc_set g a b mask).
Proof.
  intros [Hg Hr] Ha Hb Hf Ht. unfold ifc_set, policy_ok. pose proof (Hr a Ha) as Hra.
  assert (∀ d, domain d → (g.[a <- (g.[a]).[b <- mask]]).[d] = if decide (a = d) then (g.[a]).[b <- mask] else g.[d]) as E.
  { intros d Hd. unfold domain in *. apply aget_aset; lia. }
  split; [|split; [by rewrite zlen_aset|]].
  - rewrite E by done. case_decide as E1; [subst f|by rewrite decide_False by naive_solver].
    unfold domain in *. rewrite aget_aset by lia. repeat case_decide; naive_solver.
  - intros d Hd. rewrite E by done. case_decide; [by rewrite zlen_aset|by apply Hr].
Qed.

Lemma guarded_set g a b mask f t :
  policy_ok g → 0 ≤ a → 0 ≤ b → domain f → domain t →
  let g' := if (a >=? LC_IFC_DOM_COUNT) || (b >=? LC_IFC_DOM_COUNT) then g else ifc_set g a b mask in
  (g'.[f]).[t] = (if (f =? a) && (t =? b) then mask else (g.[f]).[t]) ∧ policy_ok g'.
Proof.
  intros Hg Ha Hb Hf Ht. destruct (_ || _) eqn:E.
  - split; [|done]. apply orb_true_iff in E. unfold domain in *.
    by replace ((f =? a) && (t =? b)) with false by (symmetry; apply andb_false_iff; lia).
  - apply orb_false_iff in E. destruct (ifc_set_cell g a b mask f t) as [E' Hok]; [done|unfold domain; lia..|done|done|].
    cbv zeta. rewrite E'. split; [|done]. repeat case_decide; bool_cases; naive_solver.
Qed.

Definition in_range (c : ifc_call) : Prop :=
  match c with Grant f t o | Revoke f t o => 0 ≤ f ∧ 0 ≤ t ∧ word o end.

Lemma ifc_step_bit g c f t b :
  policy_ok g → domain f → domain t → 0 ≤ b < 32 → in_range c →
  g_bit (ifc_step g c) f t b = decide_call f t b (g_bit g f t b) c ∧ policy_ok (ifc_step g c).
Proof.
  intros Hg Hf Ht Hb Hc. unfold g_bit.
  destruct c as [f' t' o|f' t' o]; destruct Hc as (Hf' & Ht' & _);
    cbn [ifc_step decide_call]; unfold lc_ifc_grant, lc_ifc_revoke;
    (edestruct (guarded_set g f' t') as [E Hok]; [exact Hg|exact Hf'|exact Ht'|exact Hf|exact Ht|]);
    (split; [rewrite E|exact Hok]);
    (destruct (Z.eqb_spec f f') as [->|]; [|done]); (destruct (Z.eqb_spec t t') as [->|]; [|done]); cbn [andb].
  - rewrite Z.lor_spec. by destruct (Z.testbit o b); rewrite ?orb_true_r, ?orb_false_r.
  - rewrite Z.land_spec. unfold lnot32. rewrite wrap_testbit, Z.lnot_spec by lia.
    by destruct (Z.testbit o b); rewrite ?andb_true_r, ?andb_false_r.
Qed.

Lemma ifc_run_bit g cs f t b :
  policy_ok g → domain f → domain t → 0 ≤ b < 32 → Forall in_range cs →
  g_bit (ifc_run g cs) f t b = fold_left (decide_call f t b) cs (g_bit g f t b).
Proof.
  intros Hg Hf Ht Hb. revert g Hg. induction cs as [|c cs IH]; intros g Hg Hc; [done|].
  apply Forall_cons in Hc as [Hc Hcs]. destruct (ifc_step_bit g c f t b) as [E Hok]; try done.
  unfold ifc_run in *. cbn [fold_left]. rewrite IH by done. by rewrite E.
Qed.

(** What [lc_ifc_init] leaves does not depend on what was there. *)
Definition default_policy : policy :=
  [[7; 7; 7; 7; 7]; [3; 0; 0; 0; 1]; [0; 0; 0; 1; 3]; [2; 0; 0; 0; 1]; [3; 0; 1; 0; 0]].

Lemma domain_cases d : domain d → d = 0 ∨ d = 1 ∨ d = 2 ∨ d = 3 ∨ d = 4.
Proof. unfold domain, LC_IFC_DOM_COUNT. lia. Qed.

Lemma row_cases (r : list Z) : zlen r = LC_IFC_DOM_COUNT → ∃ a b c d e, r = [a; b; c; d; e].
Proof.
  unfold zlen, LC_IFC_DOM_COUNT. intros Hl.
  destruct r as [|a [|b [|c [|d [|e [|]]]]]]; cbn in Hl; try lia. by exists a, b, c, d, e.
Qed.

Lemma init_default g : policy_ok g → lc_ifc_init g = default_policy.
Proof.
  intros [Hl Hr]. assert (∃ r0 r1 r2 r3 r4 : list Z, g = [r0; r1; r2; r3; r4]) as (r0 & r1 & r2 & r3 & r4 & ->).
  { unfold zlen, LC_IFC_DOM_COUNT in Hl. destruct g as [|r0 [|r1 [|r2 [|r3 [|r4 [|]]]]]]; cbn in Hl; try lia.
    by exists r0, r1, r2, r3, r4. }
  assert (∀ d, domain d → ∃ a b c e f, [r0; r1; r2; r3; r4].[d] = [a; b; c; e; f]) as Hrow
    by (intros d Hd; by apply row_cases, Hr).
  destruct (Hrow 0) as (x & x0 & x1 & x2 & x3 & E0); [done|]. destruct (Hrow 1) as (x4 & x5 & x6 & x7 & x8 & E1); [done|].
  destruct (Hrow 2) as (x9 & x10 & x11 & x12 & x13 & E2); [done|]. destruct (Hrow 3) as (x14 & x15 & x16 & x17 & x18 & E3); [done|].
  destruct (Hrow 4) as (x19 & x20 & x21 & x22 & x23 & E4); [done|].
  change (r0 = [x; x0; x1; x2; x3]) in E0. change (r1 = [x4; x5; x6; x7; x8]) in E1.
  change (r2 = [x9; x10; x11; x12; x13]) in E2. change (r3 = [x14; x15; x16; x17; x18]) in E3.
  change (r4 = [x19; x20; x21; x22; x23]) in E4. by subst.
Qed.

Ltac domain_cases f t Hf Ht :=
  destruct (domain_cases f Hf) as [->|[->|[->|[->| ->]]]];
  destruct (domain_cases t Ht) as [->|[->|[->|[->| ->]]]].

Lemma default_small f t : domain f → domain t → 0 ≤ (default_policy.[f]).[t] < 2 ^ 3.
Proof. intros Hf Ht. domain_cases f t Hf Ht; vm_compute; by split. Qed.

Lemma default_bits f t b :
  domain f → domain t → 0 ≤ b < 32 → g_bit default_policy f t b = bool_decide (b ∈ default_ops f t).
Proof.
  intros Hf Ht Hb. destruct (decide (3 ≤ b)) as [Hge|Hlt].
  - unfold g_bit. rewrite (testbit_out_of_range 3); [|lia|by apply default_small].
    symmetry. apply bool_decide_eq_false. unfold default_ops. repeat case_match; rewrite ?elem_of_cons, elem_of_nil; lia.
  - assert (b = 0 ∨ b = 1 ∨ b = 2) as Hb' by lia.
    domain_cases f t Hf Ht; destruct Hb' as [->|[->| ->]]; vm_compute; reflexivity.
Qed.

Lemma default_ok : policy_ok default_policy.
Proof. split; [done|]. intros d Hd. by destruct (domain_cases d Hd) as [->|[->|[->|[->| ->]]]]. Qed.

(** ** Theorems *)

Lemma flow_bits g f t ops :
  domain f → domain t → word ops →
  lc_ifc_flow_allowed g f t ops = true ↔ ∀ b, 0 ≤ b < 32 → Z.testbit ops b = true → g_bit g f t b = true.
Proof.
  intros Hf Ht Ho. unfold lc_ifc_flow_allowed, domain in *.
  replace ((f >=? LC_IFC_DOM_COUNT) || (t >=? LC_IFC_DOM_COUNT)) with false by (symmetry; apply orb_false_iff; lia).
  rewrite Z.eqb_eq. unfold g_bit. split.
  - intros E b _ Hb. rewrite <- E, Z.land_spec in Hb. by apply andb_true_iff in Hb as [? _].
  - intros Hall. apply Z.bits_inj'. intros b Hb. rewrite Z.land_spec.
    destruct (decide (b < 32)); [|by rewrite (testbit_out_of_range 32 ops), andb_false_r by (unfold word in Ho; lia)].
    destruct (Z.testbit ops b) eqn:Eb; [|apply andb_false_r]. by rewrite Hall.
Qed.

(** The policy matrix after [lc_ifc_init] and any sequence of grants and
    revocations: a flow is allowed exactly when each operation it asks for was
    granted by the last call that mentioned it for these two domains, or, if no
    call did, is in the default table. *)
Theorem ifc_history g cs f t ops :
  policy_ok g → Forall in_range cs → domain f → domain t → word ops →
  lc_ifc_flow_allowed (ifc_run (lc_ifc_init g) cs) f t ops = true ↔
  ∀ b, 0 ≤ b < 32 → Z.testbit ops b = true → permitted cs f t b = true.
Proof.
  intros Hg Hcs Hf Ht Ho. rewrite (init_default g Hg), flow_bits by done. unfold permitted.
  split; intros H b Hb Hob; specialize (H b Hb Hob);
    [rewrite ifc_run_bit in H by (done || apply default_ok)|rewrite ifc_run_bit by (done || apply default_ok)];
    by rewrite default_bits in * by done.
Qed.

Definition grants (f t : Z) (c : ifc_call) : bool :=
  match c with Grant f' t' _ => (f =? f') && (t =? t') | Revoke _ _ _ => false end.

Lemma permitted_false cs f t b :
  Forall (λ c, grants f t c = false) cs → b ∉ default_ops f t → permitted cs f t b = false.
Proof.
  intros Hcs Hb. unfold permitted. rewrite bool_decide_eq_false_2 by done.
  induction cs as [|c cs IH]; [done|]. apply Forall_cons in Hcs as [Hc Hcs]. cbn [fold_left].
  replace (decide_call f t b false c) with false; [by apply IH|].
  destruct c; cbn in *; [|by destruct (_ && _)]. by rewrite Hc.
Qed.

(** Default deny: no operation flows from a container to the language model,
    nor from a skill to the host, until a call grants that very flow; grants for
    other pairs of domains never open it. *)
Theorem ifc_default_deny g cs f t ops :
  policy_ok g → Forall in_range cs → word ops → ops ≠ 0 →
  (f, t) = (LC_IFC_DOM_CONTAINER, LC_IFC_DOM_LLM) ∨ (f, t) = (LC_IFC_DOM_SKILL, LC_IFC_DOM_HOST) →
  Forall (λ c, grants f t c = false) cs →
  lc_ifc_flow_allowed (ifc_run (lc_ifc_init g) cs) f t ops = false.
Proof.
  intros Hg Hcs Ho Hne Hft Hno. assert (domain f ∧ domain t ∧ default_ops f t = []) as (Hf & Ht & Hd).
  { by destruct Hft as [[= -> ->]|[= -> ->]]. }
  apply not_true_is_false. rewrite (init_default g Hg), flow_bits by done. intros Hall.
  apply Hne, Z.bits_inj'. intros b Hb. rewrite Z.bits_0.
  destruct (decide (b < 32)); [|apply (testbit_out_of_range 32); unfold word in Ho; lia].
  destruct (Z.testbit ops b) eqn:Eb; [|done]. specialize (Hall b ltac:(lia) Eb).
  rewrite ifc_run_bit, default_bits in Hall by (done || apply default_ok || lia).
  fold (permitted cs f t b) in Hall. rewrite permitted_false in Hall; [done|done|]. rewrite Hd. apply not_elem_of_nil.
Qed.

(** ** The allowlists *)

Lemma in_list_elem l nr :
  in_list l nr = Some true → nr ∈ l ∧ nr ≠ UINT32_MAX.
Proof.
  induction l as [|x l IH]; [done|]. cbn. destruct (Z.eqb_spec x UINT32_MAX); [done|].
  destruct (Z.eqb_spec x nr) as [->|]; intros H; [split; [by left|done]|].
  destruct (IH H). split; [by right|done].
Qed.

Lemma in_list_total l nr : UINT32_MAX ∈ l → ∃ b, in_list l nr = Some b.
Proof.
  induction l as [|x l IH]; [by intros ?%not_elem_of_nil|]. intros Hin. cbn.
  destruct (Z.eqb_spec x UINT32_MAX); [by eexists|]. destruct (x =? nr); [by eexists|].
  apply IH. by apply elem_of_cons in Hin as [?|?].
Qed.

Definition skill_ok (nr : Z) : bool :=
  bool_decide (in_list g_docker_allow nr = Some true) &&
  (bool_decide (domain_for_nr nr = LINUX_DISPATCH_VFS) || bool_decide (domain_for_nr nr = LINUX_DISPATCH_MM)
   || (nr =? 60) || (nr =? 231)).

(** The sandbox profiles are consistent with each other and with the
    routing table: the search never leaves its table; each system call that a
    profile allows is routed to a service; and the skill profile allows only
    calls that the docker profile allows, all of them for files, memory or exit. *)
Theorem sandbox_consistent prof nr :
  ∃ b, lc_sandbox_syscall_allow prof nr = Some b ∧
    (b = true → linux_syscall_dispatch_domain nr ≠ LINUX_DISPATCH_ENOSYS) ∧
    (b = true → prof = LC_SB_PROFILE_SKILL →
       lc_sandbox_syscall_allow LC_SB_PROFILE_DOCKER nr = Some true ∧
       (linux_syscall_dispatch_domain nr = LINUX_DISPATCH_VFS ∨
        linux_syscall_dispatch_domain nr = LINUX_DISPATCH_MM ∨ nr = 60 ∨ nr = 231)).
Proof.
  assert (Forall (λ nr, nr = UINT32_MAX ∨ domain_for_nr nr ≠ LINUX_DISPATCH_ENOSYS) g_docker_allow) as Hd
    by (apply (bool_decide_unpack _); vm_compute; exact I).
  assert (Forall (λ nr, nr = UINT32_MAX ∨ skill_ok nr = true) g_skill_allow) as Hs
    by (apply (bool_decide_unpack _); vm_compute; exact I).
  rewrite Forall_forall in Hd, Hs. unfold linux_syscall_dispatch_domain.
  assert (in_list g_skill_allow nr = Some true → skill_ok nr = true) as Hsk.
  { intros [Hin Hne]%in_list_elem. by destruct (Hs nr Hin). }
  assert (in_list g_docker_allow nr = Some true → domain_for_nr nr ≠ LINUX_DISPATCH_ENOSYS) as Hdk.
  { intros [Hin Hne]%in_list_elem. by destruct (Hd nr Hin). }
  assert (skill_ok nr = true → in_list g_docker_allow nr = Some true ∧
    (domain_for_nr nr = LINUX_DISPATCH_VFS ∨ domain_for_nr nr = LINUX_DISPATCH_MM ∨ nr = 60 ∨ nr = 231)) as Hok.
  { unfold skill_ok. rewrite andb_true_iff, !orb_true_iff, !bool_decide_eq_true, !Z.eqb_eq.
    intros [H1 [[[H2|H2]|H2]|H2]]; (split; [exact H1|]);
      [left|right; left|right; right; left|right; right; right]; exact H2. }
  destruct prof; cbn [lc_sandbox_syscall_allow].
  - destruct (in_list_total g_skill_allow nr) as [b E]; [apply (bool_decide_unpack _); vm_compute; exact I|].
    exists b. split; [done|]. split; intros ->; [|intros _; by apply Hok, Hsk]. by apply Hdk, Hok, Hsk.
  - destruct (in_list_total g_docker_allow nr) as [b E]; [apply (bool_decide_unpack _); vm_compute; exact I|].
    exists b. split; [done|]. split; intros ->; [by apply Hdk|done].
  - by exists false.
Qed.

(** ** The theorems at concrete inputs *)

Definition demo_calls : list ifc_call :=
  [Grant 2 3 4; Revoke 1 0 2; Grant 1 4 2; Revoke 2 3 4; Grant 9 1 7].

Lemma demo_calls_in_range : Forall in_range demo_calls.
Proof. apply List.Forall_forall. intros c Hc. repeat (destruct Hc as [<-|Hc]; [by cbn|]). by destruct Hc. Qed.

Lemma ifc_history_witness :
  lc_ifc_flow_allowed (ifc_run (lc_ifc_init default_policy) demo_calls) 1 0 3 = false ∧
  (lc_ifc_flow_allowed (ifc_run (lc_ifc_init default_policy) demo_calls) 1 4 3 = true ↔
   ∀ b, 0 ≤ b < 32 → Z.testbit 3 b = true → permitted demo_calls 1 4 b = true).
Proof.
  split; [by vm_compute|].
  apply (ifc_history default_policy demo_calls 1 4 3 default_ok demo_calls_in_range); done.
Defined.

Lemma ifc_default_deny_witness :
  lc_ifc_flow_allowed (ifc_run (lc_ifc_init default_policy) demo_calls) 1 3 1 = false.
Proof.
  apply (ifc_default_deny default_policy demo_calls 1 3 1 default_ok demo_calls_in_range);
    [done|done|by left|]. apply List.Forall_forall. intros c Hc.
  repeat (destruct Hc as [<-|Hc]; [reflexivity|]). by destruct Hc.
Defined.
