(* ===== verification/LcContainer.v ===== *)
(** * Containers ([src/container/lc_container.c], [oci_runtime.c], [lc_layer.c])

    The docker commands over the table of container slots, the OCI bundles and
    the information-flow policy of [Ifc]. The fixed character arrays are lists of
    bytes; a message buffer [out] of [cap] bytes is a list of that length, or
    [None] for a null pointer. Log lines are not modelled. *)

From Stdlib Require Import (notations) String.
From S2P Require Import Prelude CMem CFormat CArray CPrint Ifc.
From stdpp Require Import base numbers list.
Open Scope Z_scope.

Definition LC_MAX_CONTAINERS : Z := 16.
Definition LC_IMAGE_NAME_LEN : nat := 96.
Definition LC_CTR_NAME_LEN : nat := 64.
Definition LC_ID_STR_LEN : nat := 24.
Definition LC_OCI_MAX_BUNDLES : Z := 16.
Definition KERNEL_HEAP_SIZE : Z := 256 * 1024 * 1024.

Inductive lc_ctr_state_t := LC_CTR_CREATED | LC_CTR_RUNNING | LC_CTR_STOPPED.
#[export] Instance ctr_state_eq_dec : EqDecision lc_ctr_state_t.
Proof. solve_decision. Defined.

Record lc_container_slot_t := { id : Z; id_str : list Z; name : list Z; image : list Z; state : lc_ctr_state_t }.
Definition zero_slot : lc_container_slot_t :=
  {| id := 0; id_str := replicate LC_ID_STR_LEN 0; name := replicate LC_CTR_NAME_LEN 0; image := replicate LC_IMAGE_NAME_LEN 0;
     state := LC_CTR_CREATED |}.
#[export] Instance slot_inhabited : Inhabited lc_container_slot_t := populate zero_slot.

Record lc_oci_bundle_t := {
  ctr_id : Z; b_image : list Z; lower : list Z; upper : list Z; work : list Z; rootfs : list Z; used : bool;
}.
Definition zero_bundle : lc_oci_bundle_t :=
  {| ctr_id := 0; b_image := replicate LC_IMAGE_NAME_LEN 0; lower := replicate 128 0; upper := replicate 128 0;
     work := replicate 128 0; rootfs := replicate 128 0; used := false |}.
#[export] Instance bundle_inhabited : Inhabited lc_oci_bundle_t := populate zero_bundle.

Record lc := { g_slots : list lc_container_slot_t; g_next_id : Z; g_bundles : list lc_oci_bundle_t; g_ifc : policy }.
Definition with_slots (s : lc) (l : list lc_container_slot_t) : lc :=
  {| g_slots := l; g_next_id := s.(g_next_id); g_bundles := s.(g_bundles); g_ifc := s.(g_ifc) |}.

(** ** Messages *)

(** [snprintf(out, cap, fmt, ...)] *)
Definition say (out : option (list Z)) (ps : list piece) : outcome (option (list Z)) :=
  match out with
  | None | Some [] => Ret out
  | Some o => r ← snprintf_arr o (length o) (unparse ps) (args ps); Ret (Some r.1)
  end.
(** [snprintf(a, sizeof(a), fmt, ...)] for an array [a] *)
Definition fill (a : list Z) (ps : list piece) : outcome (list Z) :=
  r ← snprintf_arr a (length a) (unparse ps) (args ps); Ret r.1.
(** [snprintf(out + pos, cap - pos, fmt, ...)], the size as an unsigned word. *)
Definition say_at (out : list Z) (pos : Z) (fmt : list Z) (ap : list varg) : outcome (list Z * Z) :=
  let sz := u64 (zlen out - pos) in
  if sz =? 0 then Ret (out, 0) else
  if pos >? zlen out then Fault else
  r ← snprintf_arr (drop (Z.to_nat pos) out) (Z.to_nat sz) fmt ap;
  Ret (take (Z.to_nat pos) out ++ r.1, r.2).
Definition nl : list Z := [10].

(** ** OCI bundles ([oci_runtime.c]) *)

Fixpoint oci_from (n : nat) (l : list lc_oci_bundle_t) (i : Z) : option Z :=
  match n with
  | O => None
  | S n => if negb (l.[i]).(used) then Some i else oci_from n l (i + 1)
  end.
(** The slot that [oci_alloc_slot] returns has been cleared. *)
Definition oci_alloc_slot (l : list lc_oci_bundle_t) : option Z := oci_from (Z.to_nat LC_OCI_MAX_BUNDLES) l 0.

Definition lc_oci_register_bundle (l : list lc_oci_bundle_t) (cid : Z) (img lower_root : option (list Z)) : outcome (list lc_oci_bundle_t) :=
  match oci_alloc_slot l with
  | None => Ret l
  | Some i =>
      bi ← match img with Some s => strncpy_term zero_bundle.(b_image) s | None => Ret zero_bundle.(b_image) end;
      bl ← match lower_root with Some s => strncpy_term zero_bundle.(lower) s | None => Ret zero_bundle.(lower) end;
      bu ← fill zero_bundle.(upper) [Lit (bytes "/lc/overlay/"); Llu cid; Lit (bytes "/upper")];
      bw ← fill zero_bundle.(work) [Lit (bytes "/lc/overlay/"); Llu cid; Lit (bytes "/work")];
      br ← fill zero_bundle.(rootfs) [Lit (bytes "/lc/overlay/"); Llu cid; Lit (bytes "/merged")];
      Ret (l.[i <- {| ctr_id := cid; b_image := bi; lower := bl; upper := bu; work := bw; rootfs := br; used := true |}])
  end.
Definition lc_oci_init : list lc_oci_bundle_t := replicate (Z.to_nat LC_OCI_MAX_BUNDLES) zero_bundle.

Definition lc_layer_init (s : lc) : lc :=
  {| g_slots := s.(g_slots); g_next_id := s.(g_next_id); g_bundles := lc_oci_init; g_ifc := lc_ifc_init s.(g_ifc) |}.

(** ** The slots *)

Fixpoint slot_from (n : nat) (l : list lc_container_slot_t) (i : Z) : option Z :=
  match n with
  | O => None
  | S n => if (l.[i]).(id) =? 0 then Some i else slot_from n l (i + 1)
  end.
Definition slot_alloc (l : list lc_container_slot_t) : option Z := slot_from (Z.to_nat LC_MAX_CONTAINERS) l 0.
Definition slot_free (s : lc) (i : Z) : lc := with_slots s (s.(g_slots).[i <- zero_slot]).

(** The loop of [find_slot], with the last prefix match and their number. *)
Fixpoint find_from (n : nat) (l : list lc_container_slot_t) (q : list Z) (i : Z) (pre : option Z) (hits : Z) : option Z :=
  match n with
  | O => if hits =? 1 then pre else None
  | S n =>
      let s := l.[i] in
      if s.(id) =? 0 then find_from n l q (i + 1) pre hits else
      if bool_decide (cstr s.(id_str) = q) || bool_decide (cstr s.(name) = q) then Some i else
      if (zlen q >=? 4) && bool_decide (take (length q) (cstr s.(id_str)) = q)
      then find_from n l q (i + 1) (Some i) (hits + 1)
      else find_from n l q (i + 1) pre hits
  end.
Definition find_slot (l : list lc_container_slot_t) (q : option (list Z)) : option Z :=
  match q with
  | None | Some [] => None
  | Some q => find_from (Z.to_nat LC_MAX_CONTAINERS) l q 0 None 0
  end.

Definition lower_path_for_image (img : list Z) (out : list Z) : outcome (list Z) :=
  fill out [Lit (bytes "/lc/images/"); Str (Some img); Lit (bytes "/rootfs")].

(** ** The commands *)

(** Each returns the state, the buffer and the result of the C function. *)
Definition lc_docker_version (out : option (list Z)) : outcome (option (list Z) * Z) :=
  match out with
  | None | Some [] => Ret (out, -1)
  | Some _ =>
      o ← say out [Lit (bytes "Client: AevOS-LC 0.1 (docker CLI subset)" ++ nl ++ bytes "Server: AevOS OCI shim / Linux ABI bridge" ++ nl ++
                        bytes " API version: 1.41 (compatible surface)" ++ nl ++
                        bytes " OS/Arch: AevOS / multi-arch kernel + x86_64 syscall table" ++ nl)];
      Ret (o, 0)
  end.
Definition lc_docker_info (out : option (list Z)) : outcome (option (list Z) * Z) :=
  match out with
  | None | Some [] => Ret (out, -1)
  | Some _ =>
      o ← say out [Lit (bytes "Containers: running (LC slots="); Dec LC_MAX_CONTAINERS;
                   Lit (bytes ")" ++ nl ++ bytes " LC: OCI bundle + overlayfs semantics (shim)" ++ nl ++ bytes " Kernel heap: ");
                   Llu (KERNEL_HEAP_SIZE / (1024 * 1024));
                   Lit (bytes " MiB" ++ nl ++ bytes " IFC: container→LLM default deny" ++ nl ++
                        bytes " Sandbox: skill vs docker syscall profiles active" ++ nl)];
      Ret (o, 0)
  end.

(** The slots that the caller's array of [max_slots] gets. *)
Fixpoint ps_from (n : nat) (l : list lc_container_slot_t) (i w max_slots : Z) : list lc_container_slot_t :=
  match n with
  | O => []
  | S n =>
      if w <? max_slots then
        if (l.[i]).(id) =? 0 then ps_from n l (i + 1) w max_slots
        else (l.[i]) :: ps_from n l (i + 1) (w + 1) max_slots
      else []
  end.
Definition lc_docker_ps (s : lc) (out : bool) (max_slots : Z) (n_out : bool) : Z * list lc_container_slot_t :=
  if negb n_out then (-1, []) else
  if negb out || (max_slots <=? 0) then (-1, []) else
  (0, ps_from (Z.to_nat LC_MAX_CONTAINERS) s.(g_slots) 0 0 max_slots).

Definition catalog : list (list Z) :=
  [bytes "busybox    latest    ca1f010a0a01   LC catalog   1.2 MiB";
   bytes "alpine     latest    c1a4a0b0c2d3   LC catalog   3.4 MiB";
   bytes "hello-world latest   feb5d9fea6a5   LC catalog   16 KiB"].
Definition images_header : list Z := bytes "REPOSITORY   TAG       IMAGE ID      SOURCE      SIZE" ++ nl.
Definition images_line : list Z := bytes "%-12s (in-use)  slot %-6llu  container   —" ++ nl.
Fixpoint images_catalog (l : list (list Z)) (out : list Z) (pos : Z) : outcome (list Z * Z) :=
  match l with
  | [] => Ret (out, pos)
  | c :: l =>
      r ← say_at out pos (bytes "%s" ++ nl) [VStr (Some c)];
      let '(out, n) := r in
      if (n <? 0) || (n >=? u64 (zlen out - pos)) then Ret (out, pos) else images_catalog l out (pos + n)
  end.
Fixpoint images_slots (n : nat) (l : list lc_container_slot_t) (i : Z) (out : list Z) (pos : Z) : outcome (list Z) :=
  match n with
  | O => Ret out
  | S n =>
      if (l.[i]).(id) =? 0 then images_slots n l (i + 1) out pos else
      r ← say_at out pos images_line [VStr (Some (cstr (l.[i]).(image))); VInt (l.[i]).(id)];
      let '(out, k) := r in
      if (k <? 0) || (k >=? u64 (zlen out - pos)) then Ret out else images_slots n l (i + 1) out (pos + k)
  end.
Definition lc_docker_images (s : lc) (out : option (list Z)) : outcome (option (list Z) * Z) :=
  match out with
  | None | Some [] => Ret (out, -1)
  | Some o =>
      r ← say_at o 0 images_header [];
      let '(o, n) := r in
      let pos := if n >? 0 then n else 0 in
      r ← images_catalog catalog o pos;
      let '(o, pos) := r in
      o ← images_slots (Z.to_nat LC_MAX_CONTAINERS) s.(g_slots) 0 o pos;
      Ret (Some o, 0)
  end.

Definition lc_docker_run (s : lc) (img cmdline_rest : option (list Z)) (out : option (list Z)) : outcome (lc * option (list Z) * Z) :=
  match img, out with
  | Some ((_ :: _) as img), Some (_ :: _) =>
      if negb (lc_ifc_flow_allowed s.(g_ifc) LC_IFC_DOM_CONTAINER LC_IFC_DOM_HOST (Z.lor LC_IFC_OP_READ LC_IFC_OP_WRITE)) then
        o ← say out [Lit (bytes "LC: IFC denied container→host I/O; start aborted")]; Ret (s, o, -1)
      else
      match slot_alloc s.(g_slots) with
      | None => o ← say out [Lit (bytes "LC: no free container slots (max="); Dec LC_MAX_CONTAINERS; Lit (bytes ")")]; Ret (s, o, -1)
      | Some i =>
          let sl := s.(g_slots).[i] in
          let n := s.(g_next_id) in
          ids ← fill sl.(id_str) [Lit (bytes "aevos_lc_"); Llu n];
          nm ← fill sl.(name) [Lit (bytes "focused_"); Llu n];
          im ← strncpy_term sl.(image) img;
          low ← lower_path_for_image img (replicate 160 0);
          b ← lc_oci_register_bundle s.(g_bundles) n (Some img) (Some (cstr low));
          let cmd := match cmdline_rest with Some ((_ :: _) as c) => c | _ => bytes "(default)" end in
          o ← say out [Lit (bytes "LC: started "); Str (Some (cstr nm)); Lit (bytes " as "); Str (Some (cstr ids)); Lit (bytes " [");
                       Str (Some (bytes "running")); Lit (bytes "]" ++ nl ++ bytes "    image="); Str (Some img); Lit (bytes " cmd=");
                       Str (Some cmd); Lit (nl ++ bytes "    OCI: bundle registered; exec is shim-only on bare-metal AevOS.")];
          Ret ({| g_slots := s.(g_slots).[i <- {| id := n; id_str := ids; name := nm; image := im; state := LC_CTR_RUNNING |}];
                  g_next_id := u64 (n + 1); g_bundles := b; g_ifc := s.(g_ifc) |}, o, 0)
      end
  | _, _ => Ret (s, out, -1)
  end.

Definition lc_docker_stop (s : lc) (q : option (list Z)) (err : option (list Z)) : outcome (lc * option (list Z) * Z) :=
  match find_slot s.(g_slots) q with
  | None => o ← say err [Lit (bytes "Error: no such container: "); Str q]; Ret (s, o, -1)
  | Some i =>
      let sl := s.(g_slots).[i] in
      if bool_decide (sl.(state) = LC_CTR_STOPPED) then
        o ← say err [Lit (bytes "Container "); Str q; Lit (bytes " already stopped")]; Ret (s, o, -1)
      else
      let sl := {| id := sl.(id); id_str := sl.(id_str); name := sl.(name); image := sl.(image); state := LC_CTR_STOPPED |} in
      o ← say err [Lit (bytes "Stopped "); Str (Some (cstr sl.(id_str)))];
      Ret (with_slots s (s.(g_slots).[i <- sl]), o, 0)
  end.
Definition lc_docker_rm (s : lc) (q : option (list Z)) (err : option (list Z)) : outcome (lc * option (list Z) * Z) :=
  match find_slot s.(g_slots) q with
  | None => o ← say err [Lit (bytes "Error: no such container: "); Str q]; Ret (s, o, -1)
  | Some i =>
      let sl := s.(g_slots).[i] in
      if negb (bool_decide (sl.(state) = LC_CTR_STOPPED)) then
        o ← say err [Lit (bytes "Error: container "); Str q; Lit (bytes " is running — `docker stop` first")]; Ret (s, o, -1)
      else
      o ← say err [Lit (bytes "Removed "); Str (Some (cstr sl.(id_str)))];
      Ret (slot_free s i, o, 0)
  end.

(** ** The abstract table of containers *)

Record ctr := { cid : Z; cimage : list Z; running : bool }.
Record docker := { ctrs : list (option ctr); next : Z; bundled : list (Z * list Z); pol : policy }.
Definition cid_str (n : Z) : list Z := take 23 (bytes "aevos_lc_" ++ dec n).
Definition cname (n : Z) : list Z := take 63 (bytes "focused_" ++ dec n).
Definition indices : list Z := seqZ 0 LC_MAX_CONTAINERS.

Definition exact (A : docker) (q : list Z) (i : Z) : bool :=
  match A.(ctrs).[i] with Some c => bool_decide (cid_str c.(cid) = q) || bool_decide (cname c.(cid) = q) | None => false end.
Definition prefixed (A : docker) (q : list Z) (i : Z) : bool :=
  match A.(ctrs).[i] with Some c => (zlen q >=? 4) && bool_decide (take (length q) (cid_str c.(cid)) = q) | None => false end.
(** The container with the identifier or name [q], or else the only one whose
    identifier has the prefix [q] of four bytes or more. *)
Definition afind (A : docker) (q : list Z) : option Z :=
  match filter (exact A q) indices with
  | i :: _ => Some i
  | [] => match filter (prefixed A q) indices with [i] => Some i | _ => None end
  end.
Definition afree (A : docker) : option Z := head (filter (λ i, A.(ctrs).[i] = None) indices).
Definition set_ctr (A : docker) (i : Z) (c : option ctr) : docker :=
  {| ctrs := A.(ctrs).[i <- c]; next := A.(next); bundled := A.(bundled); pol := A.(pol) |}.

(** The command, with the caller's buffer; [None] is a null pointer. *)
Inductive op :=
  | Run (img cmd out : option (list Z)) | Stop (q out : option (list Z)) | Rm (q out : option (list Z))
  | Ps (max_slots : Z) | Grant (from to ops : Z) | Revoke (from to ops : Z).
Inductive reply := Msg (rc : Z) (out : option (list Z)) | Slots (rc : Z) (l : list lc_container_slot_t) | Unit.
(** The abstract answer: the result and the text of the message, if there is one. *)
Inductive answer := AMsg (rc : Z) (t : option (list Z)) | ASlots (rc : Z) (l : list ctr) | AUnit.

Definition shown (q : option (list Z)) : list Z := default null_text q.
Definition started (n : Z) (img cmd : list Z) : list Z :=
  bytes "LC: started " ++ cname n ++ bytes " as " ++ cid_str n ++ bytes " [running]" ++ nl ++ bytes "    image=" ++ img ++ bytes " cmd=" ++ cmd ++ nl ++
  bytes "    OCI: bundle registered; exec is shim-only on bare-metal AevOS.".
Definition named (q : option (list Z)) : list Z := match q with Some q => q | None => [] end.

Definition astep (A : docker) (o : op) : docker * answer :=
  match o with
  | Run (Some ((_ :: _) as img)) cmd (Some (_ :: _)) =>
      if negb (lc_ifc_flow_allowed A.(pol) LC_IFC_DOM_CONTAINER LC_IFC_DOM_HOST 3)
      then (A, AMsg (-1) (Some (bytes "LC: IFC denied container→host I/O; start aborted"))) else
      match afree A with
      | None => (A, AMsg (-1) (Some (bytes "LC: no free container slots (max=16)")))
      | Some i =>
          ({| ctrs := A.(ctrs).[i <- Some {| cid := A.(next); cimage := take 95 img; running := true |}]; next := A.(next) + 1;
              bundled := if decide (length A.(bundled) < 16)%nat then A.(bundled) ++ [(A.(next), img)] else A.(bundled); pol := A.(pol) |},
           AMsg 0 (Some (started A.(next) img (match cmd with Some ((_ :: _) as c) => c | _ => bytes "(default)" end))))
      end
  | Run _ _ _ => (A, AMsg (-1) None)
  | Stop q _ =>
      match afind A (named q) with
      | None => (A, AMsg (-1) (Some (bytes "Error: no such container: " ++ shown q)))
      | Some i =>
          match A.(ctrs).[i] with
          | Some c =>
              if c.(running) then (set_ctr A i (Some {| cid := c.(cid); cimage := c.(cimage); running := false |}),
                                   AMsg 0 (Some (bytes "Stopped " ++ cid_str c.(cid))))
              else (A, AMsg (-1) (Some (bytes "Container " ++ shown q ++ bytes " already stopped")))
          | None => (A, AMsg (-1) None)
          end
      end
  | Rm q _ =>
      match afind A (named q) with
      | None => (A, AMsg (-1) (Some (bytes "Error: no such container: " ++ shown q)))
      | Some i =>
          match A.(ctrs).[i] with
          | Some c =>
              if c.(running) then (A, AMsg (-1) (Some (bytes "Error: container " ++ shown q ++ bytes " is running — `docker stop` first")))
              else (set_ctr A i None, AMsg 0 (Some (bytes "Removed " ++ cid_str c.(cid))))
          | None => (A, AMsg (-1) None)
          end
      end
  | Ps n => (A, if n <=? 0 then ASlots (-1) [] else ASlots 0 (take (Z.to_nat n) (omap (λ c, c) A.(ctrs))))
  | Grant f t m => ({| ctrs := A.(ctrs); next := A.(next); bundled := A.(bundled); pol := lc_ifc_grant A.(pol) f t m |}, AUnit)
  | Revoke f t m => ({| ctrs := A.(ctrs); next := A.(next); bundled := A.(bundled); pol := lc_ifc_revoke A.(pol) f t m |}, AUnit)
  end.

Definition with_ifc (s : lc) (g : policy) : lc := {| g_slots := s.(g_slots); g_next_id := s.(g_next_id); g_bundles := s.(g_bundles); g_ifc := g |}.
Definition do_op (s : lc) (o : op) : outcome (lc * reply) :=
  match o with
  | Run img cmd out => r ← lc_docker_run s img cmd out; Ret (r.1.1, Msg r.2 r.1.2)
  | Stop q out => r ← lc_docker_stop s q out; Ret (r.1.1, Msg r.2 r.1.2)
  | Rm q out => r ← lc_docker_rm s q out; Ret (r.1.1, Msg r.2 r.1.2)
  | Ps n => let r := lc_docker_ps s true n true in Ret (s, Slots r.1 r.2)
  | Grant f t m => Ret (with_ifc s (lc_ifc_grant s.(g_ifc) f t m), Unit)
  | Revoke f t m => Ret (with_ifc s (lc_ifc_revoke s.(g_ifc) f t m), Unit)
  end.

(** ** The representation *)

Definition slot_rep (s : lc_container_slot_t) (c : option ctr) : Prop :=
  length s.(id_str) = LC_ID_STR_LEN ∧ length s.(name) = LC_CTR_NAME_LEN ∧ length s.(image) = LC_IMAGE_NAME_LEN ∧
  match c with
  | None => s.(id) = 0
  | Some c => s.(id) = c.(cid) ∧ 0 < c.(cid) ∧ cstr s.(id_str) = cid_str c.(cid) ∧ cstr s.(name) = cname c.(cid) ∧
      cstr s.(image) = c.(cimage) ∧ s.(state) = if c.(running) then LC_CTR_RUNNING else LC_CTR_STOPPED
  end.
Definition bundle_rep (b : lc_oci_bundle_t) (c : Z * list Z) : Prop :=
  b.(used) = true ∧ b.(ctr_id) = c.1 ∧ cstr b.(b_image) = take 95 c.2 ∧
  cstr b.(lower) = take 127 (bytes "/lc/images/" ++ c.2 ++ bytes "/rootfs") ∧
  cstr b.(upper) = take 127 (bytes "/lc/overlay/" ++ dec c.1 ++ bytes "/upper") ∧
  cstr b.(work) = take 127 (bytes "/lc/overlay/" ++ dec c.1 ++ bytes "/work") ∧
  cstr b.(rootfs) = take 127 (bytes "/lc/overlay/" ++ dec c.1 ++ bytes "/merged").
Record lc_rep (s : lc) (A : docker) : Prop := {
  l_slots : zlen s.(g_slots) = LC_MAX_CONTAINERS;
  l_ctrs : zlen A.(ctrs) = LC_MAX_CONTAINERS;
  l_slot i : 0 ≤ i < LC_MAX_CONTAINERS → slot_rep (s.(g_slots).[i]) (A.(ctrs).[i]);
  l_next : s.(g_next_id) = A.(next) ∧ 0 < A.(next);
  l_pol : s.(g_ifc) = A.(pol);
  l_bundles : zlen s.(g_bundles) = LC_OCI_MAX_BUNDLES;
  l_count : zlen A.(bundled) ≤ LC_OCI_MAX_BUNDLES;
  l_used i : 0 ≤ i < zlen A.(bundled) → bundle_rep (s.(g_bundles).[i]) (A.(bundled).[i]);
  l_free i : zlen A.(bundled) ≤ i < LC_OCI_MAX_BUNDLES → (s.(g_bundles).[i]).(used) = false;
}.

(** ** Filling arrays *)

Lemma fill_spec a ps : Forall piece_ok ps → (0 < length a)%nat →
  ∃ a', fill a ps = Ret a' ∧ length a' = length a ∧ cstr a' = take (length a - 1) (text ps).
Proof.
  intros Hp Ha. unfold fill. destruct (snprintf_arr_spec a (length a) (unparse ps) (args ps) (text ps)) as (a' & -> & Hl & Hc);
    [by apply formatted_pieces|by apply text_cstr|lia|]. by exists a'.
Qed.

(** What a buffer holds after a message. *)
Definition holds (out : option (list Z)) (t : list Z) (out' : option (list Z)) : Prop :=
  match out with
  | None | Some [] => out' = out
  | Some o => ∃ o', out' = Some o' ∧ length o' = length o ∧ cstr o' = take (length o - 1) t
  end.
Lemma say_spec out ps : Forall piece_ok ps → ∃ out', say out ps = Ret out' ∧ holds out (text ps) out'.
Proof.
  intros Hp. unfold say, holds. destruct out as [[|x o]|]; [by eexists| |by eexists]. set (a := x :: o).
  destruct (snprintf_arr_spec a (length a) (unparse ps) (args ps) (text ps)) as (a' & -> & Hl & Hc);
    [by apply formatted_pieces|by apply text_cstr|cbn; lia|]. eexists. split; [done|]. by exists a'.
Qed.

(** Literal texts are decided by evaluation. *)
Definition lit_ok (l : list Z) : bool := forallb (λ c, (0 <? c) && (c <? 256) && negb (c =? 37)) l.
Lemma lit_piece l : lit_ok l = true → piece_ok (Lit l).
Proof.
  unfold lit_ok. rewrite forallb_forall. intros Hl. apply Forall_forall. intros c Hc. apply list_elem_of_In, Hl in Hc. lia.
Qed.
Ltac pieces :=
  repeat match goal with
    | |- Forall piece_ok (_ :: _) => apply Forall_cons; split
    | |- Forall piece_ok [] => constructor
    | |- piece_ok (Lit _) => apply lit_piece; vm_compute; reflexivity
    end.

(** ** Bundles *)

Lemma oci_from_spec l k : ∀ n i, 0 ≤ i → (∀ j, i ≤ j < i + Z.of_nat n → (l.[j]).(used) = bool_decide (j < k)) → i ≤ k →
  oci_from n l i = if decide (k < i + Z.of_nat n) then Some k else None.
Proof.
  induction n as [|n IH]; intros i Hi Hu Hk; cbn [oci_from]; [by rewrite decide_False by lia|].
  rewrite (Hu i) by lia. case_bool_decide as E; cbn [negb].
  - rewrite (IH (i + 1)); [|lia| |lia].
    + destruct (decide (k < i + 1 + Z.of_nat n)); [rewrite decide_True by lia|rewrite decide_False by lia]; done.
    + intros j Hj. apply Hu. lia.
  - assert (i = k) as -> by lia. by rewrite decide_True by lia.
Qed.

Lemma register_spec s A n img low :
  lc_rep s A → 0 ≤ n < 2 ^ 64 → is_cstr img → is_cstr low → take 127 low = take 127 (bytes "/lc/images/" ++ img ++ bytes "/rootfs") →
  ∃ b, lc_oci_register_bundle s.(g_bundles) n (Some img) (Some low) = Ret b ∧
    lc_rep {| g_slots := s.(g_slots); g_next_id := s.(g_next_id); g_bundles := b; g_ifc := s.(g_ifc) |}
      {| ctrs := A.(ctrs); next := A.(next); bundled := if decide (length A.(bundled) < 16)%nat then A.(bundled) ++ [(n, img)] else A.(bundled); pol := A.(pol) |}.
Proof.
  intros R Hn Hi Hl El. unfold lc_oci_register_bundle, oci_alloc_slot.
  rewrite (oci_from_spec s.(g_bundles) (zlen A.(bundled))); [|lia| |apply zlen_nonneg].
  2:{ intros j Hj. change (Z.of_nat (Z.to_nat LC_OCI_MAX_BUNDLES)) with 16 in Hj. case_bool_decide as E.
      - destruct (l_used _ _ R j) as [Hu _]; [lia|exact Hu].
      - apply (l_free _ _ R j). unfold LC_OCI_MAX_BUNDLES. lia. }
  change (0 + Z.of_nat (Z.to_nat LC_OCI_MAX_BUNDLES)) with 16. pose proof (l_count _ _ R) as Hc. unfold LC_OCI_MAX_BUNDLES in Hc.
  destruct (decide (length A.(bundled) < 16)%nat) as [Hlt|Hge].
  2:{ rewrite decide_False by (unfold zlen; lia). eexists. split; [done|]. destruct s, A; exact R. }
  rewrite decide_True by (unfold zlen; lia).
  destruct (strncpy_term_spec zero_bundle.(b_image) img Hi ltac:(vm_compute; lia)) as (bi & -> & _ & Ebi). cbn [mbind outcome_bind].
  destruct (strncpy_term_spec zero_bundle.(lower) low Hl ltac:(vm_compute; lia)) as (bl & -> & _ & Ebl). cbn [mbind outcome_bind].
  destruct (fill_spec zero_bundle.(upper) [Lit (bytes "/lc/overlay/"); Llu n; Lit (bytes "/upper")] ltac:(pieces; exact Hn) ltac:(vm_compute; lia)) as (bu & -> & _ & Ebu).
  destruct (fill_spec zero_bundle.(work) [Lit (bytes "/lc/overlay/"); Llu n; Lit (bytes "/work")] ltac:(pieces; exact Hn) ltac:(vm_compute; lia)) as (bw & -> & _ & Ebw).
  destruct (fill_spec zero_bundle.(rootfs) [Lit (bytes "/lc/overlay/"); Llu n; Lit (bytes "/merged")] ltac:(pieces; exact Hn) ltac:(vm_compute; lia)) as (br & -> & _ & Ebr).
  cbn [mbind outcome_bind]. eexists. split; [done|]. pose proof (l_bundles _ _ R) as Hb. unfold LC_OCI_MAX_BUNDLES in Hb.
  assert (zlen (A.(bundled) ++ [(n, img)]) = zlen A.(bundled) + 1) as Ez by (rewrite zlen_app; done).
  pose proof (zlen_nonneg A.(bundled)). split; cbn [g_slots g_next_id g_bundles g_ifc ctrs next bundled pol]; try apply R.
  - by rewrite zlen_aset.
  - rewrite Ez. unfold LC_OCI_MAX_BUNDLES, zlen in *. lia.
  - intros i Hi'. rewrite Ez in Hi'. rewrite aget_aset by (unfold zlen in *; lia). case_decide as E.
    + subst i. rewrite aget_app_r by lia. replace (zlen A.(bundled) - zlen A.(bundled)) with 0 by lia.
      split; [done|]. split; [done|]. split; [exact Ebi|]. split; [exact (eq_trans Ebl El)|].
      cbn [text] in Ebu, Ebw, Ebr. rewrite app_nil_r in Ebu, Ebw, Ebr. done.
    + rewrite aget_app_l by lia. apply (l_used _ _ R). lia.
  - intros i Hi'. rewrite Ez in Hi'. unfold LC_OCI_MAX_BUNDLES in Hi'. rewrite aget_aset_ne by lia. apply (l_free _ _ R). unfold LC_OCI_MAX_BUNDLES. lia.
Qed.

(** ** Searching the slots *)

Lemma seqZ_S i n : seqZ i (Z.of_nat (S n)) = i :: seqZ (i + 1) (Z.of_nat n).
Proof. rewrite seqZ_cons by lia. f_equal. f_equal; lia. Qed.

Lemma slot_id s A i : lc_rep s A → 0 ≤ i < LC_MAX_CONTAINERS → ((s.(g_slots).[i]).(id) =? 0) = bool_decide (A.(ctrs).[i] = None).
Proof.
  intros R Hi. destruct (l_slot _ _ R i Hi) as (_ & _ & _ & Hc). destruct (A.(ctrs).[i]) as [c|].
  - destruct Hc as (-> & Hp & _). rewrite (proj2 (Z.eqb_neq _ 0)) by lia. by rewrite bool_decide_eq_false_2.
  - rewrite Hc. done.
Qed.

Lemma slot_from_spec s A : lc_rep s A → ∀ n i, 0 ≤ i → i + Z.of_nat n ≤ LC_MAX_CONTAINERS →
  slot_from n s.(g_slots) i = head (filter (λ i, A.(ctrs).[i] = None) (seqZ i (Z.of_nat n))).
Proof.
  intros R n. induction n as [|n IH]; intros i Hi Hn; [done|]. rewrite seqZ_S, filter_cons. cbn [slot_from].
  rewrite (slot_id s A i R) by lia. case_bool_decide as E; [by rewrite decide_True|rewrite decide_False by done]. apply IH; lia.
Qed.
Lemma slot_alloc_spec s A : lc_rep s A → slot_alloc s.(g_slots) = afree A.
Proof. intros R. apply (slot_from_spec s A R); [lia|]. unfold LC_MAX_CONTAINERS. lia. Qed.

Definition the_one (l : list Z) : option Z := match l with [i] => Some i | _ => None end.
Lemma find_loop_spec s A q : lc_rep s A → ∀ n i acc pre, 0 ≤ i → i + Z.of_nat n ≤ LC_MAX_CONTAINERS → last acc = pre →
  find_from n s.(g_slots) q i pre (zlen acc) =
  match filter (exact A q) (seqZ i (Z.of_nat n)) with
  | j :: _ => Some j
  | [] => the_one (acc ++ filter (prefixed A q) (seqZ i (Z.of_nat n)))
  end.
Proof.
  intros R n. induction n as [|n IH]; intros i acc pre Hi Hn Hp; cbn [find_from].
  - change (seqZ i (Z.of_nat 0)) with (@nil Z). cbn. rewrite app_nil_r. subst pre. destruct acc as [|x [|y acc]]; [done..|].
    rewrite !zlen_cons. pose proof (zlen_nonneg acc). by rewrite (proj2 (Z.eqb_neq _ 1)) by lia.
  - rewrite seqZ_S, !filter_cons, (slot_id s A i R) by lia. destruct (l_slot _ _ R i ltac:(lia)) as (_ & _ & _ & Hc).
    pose proof (eq_refl (exact A q i)) as He. pose proof (eq_refl (prefixed A q i)) as Hp'. unfold exact at 2 in He. unfold prefixed at 2 in Hp'.
    destruct (A.(ctrs).[i]) as [c|].
    2:{ rewrite He, Hp'. cbn. by apply IH; [lia|lia|]. }
    destruct Hc as (_ & _ & -> & -> & _). rewrite bool_decide_eq_false_2 by done. rewrite <- He, <- Hp'.
    destruct (exact A q i); cbn; [done|]. destruct (prefixed A q i); cbn.
    + rewrite <- (zlen_app acc [i]) || (replace (zlen acc + 1) with (zlen (acc ++ [i])) by (rewrite zlen_app; done)).
      rewrite (IH (i + 1) (acc ++ [i])); [|lia|lia|by rewrite last_snoc]. by rewrite <- app_assoc.
    + by apply IH; [lia|lia|].
Qed.
Lemma find_slot_spec s A q : lc_rep s A → find_slot s.(g_slots) q = afind A (named q).
Proof.
  intros R. assert (∀ q, find_from (Z.to_nat LC_MAX_CONTAINERS) s.(g_slots) q 0 None 0 = afind A q) as Hf.
  { intros q'. rewrite (find_loop_spec s A q' R _ 0 [] None); [|lia|unfold LC_MAX_CONTAINERS; lia|done]. unfold afind, indices, the_one.
    change (Z.of_nat (Z.to_nat LC_MAX_CONTAINERS)) with LC_MAX_CONTAINERS. reflexivity. }
  assert (∀ l, filter (exact A []) l = [] ∧ filter (prefixed A []) l = []) as Hnil.
  { assert (∀ i, exact A [] i = false ∧ prefixed A [] i = false) as Hf0.
    { intros i. unfold exact, prefixed. destruct (A.(ctrs).[i]) as [c|]; [|done]. split; [|done]. rewrite !bool_decide_eq_false_2; [done|intros [=]|intros [=]]. }
    induction l as [|i l [IH1 IH2]]; [done|]. rewrite !filter_cons. destruct (Hf0 i) as [-> ->]. done. }
  unfold find_slot. destruct q as [[|c q]|]; cbn [named]; [|by apply Hf|]; unfold afind; destruct (Hnil indices) as [-> ->]; done.
Qed.

(** A container that is found is there. *)
Lemma afind_some A q i : afind A q = Some i → 0 ≤ i < LC_MAX_CONTAINERS ∧ ∃ c, A.(ctrs).[i] = Some c.
Proof.
  intros Hf. assert (∃ P : Z → bool, i ∈ filter P indices ∧ (P i → ∃ c, A.(ctrs).[i] = Some c)) as (P & Hin & HP).
  { unfold afind in Hf. destruct (filter (exact A q) indices) as [|j l] eqn:E.
    - exists (prefixed A q). destruct (filter (prefixed A q) indices) as [|j [|? ?]]; [done| |done]. injection Hf as ->. split; [by left|].
      unfold prefixed. destruct (A.(ctrs).[i]) as [c|]; [by exists c|done].
    - injection Hf as ->. exists (exact A q). rewrite E. split; [by left|]. unfold exact. destruct (A.(ctrs).[i]) as [c|]; [by exists c|done]. }
  apply list_elem_of_filter in Hin as [H1 H2]. apply elem_of_seqZ in H2. split; [lia|by apply HP].
Qed.
Lemma afree_some A i : afree A = Some i → 0 ≤ i < LC_MAX_CONTAINERS ∧ A.(ctrs).[i] = None.
Proof.
  unfold afree. intros Hf. apply head_Some_elem_of in Hf. apply list_elem_of_filter in Hf as [H1 H2]. apply elem_of_seqZ in H2. split; [lia|done].
Qed.

(** ** The commands *)

Definition out_of (o : op) : option (list Z) := match o with Run _ _ out | Stop _ out | Rm _ out => out | _ => None end.
Definition agrees (o : op) (r : reply) (a : answer) : Prop :=
  match r, a with
  | Msg rc out, AMsg rc' t => rc = rc' ∧ match t with None => out = out_of o | Some t => holds (out_of o) t out end
  | Slots rc l, ASlots rc' l' => rc = rc' ∧ Forall2 (λ s c, slot_rep s (Some c)) l l'
  | Unit, AUnit => True
  | _, _ => False
  end.
Definition opt_cstr (q : option (list Z)) : Prop := match q with Some q => is_cstr q | None => True end.
Definition op_ok (o : op) : Prop :=
  match o with Run img cmd _ => opt_cstr img ∧ opt_cstr cmd | Stop q _ | Rm q _ => opt_cstr q | _ => True end.

Lemma rep_slot s A i sl c : lc_rep s A → 0 ≤ i < LC_MAX_CONTAINERS → slot_rep sl c → lc_rep (with_slots s (s.(g_slots).[i <- sl])) (set_ctr A i c).
Proof.
  intros R Hi Hs. pose proof (l_slots _ _ R). pose proof (l_ctrs _ _ R). split; cbn; try apply R.
  - by rewrite zlen_aset.
  - by rewrite zlen_aset.
  - intros j Hj. rewrite !aget_aset by lia. case_decide; [done|by apply R].
Qed.

Lemma cid_cstr n : 0 ≤ n → is_cstr (cid_str n) ∧ is_cstr (cname n).
Proof.
  intros Hn. split; apply is_cstr_take, Forall_app; (split; [apply (bool_decide_unpack _); vm_compute; exact I|by apply dec_cstr]).
Qed.
Lemma str_piece q : opt_cstr q → piece_ok (Str q).
Proof. by destruct q. Qed.

Lemma stop_rep s A q out : lc_rep s A → opt_cstr q →
  ∃ s' r, do_op s (Stop q out) = Ret (s', r) ∧ lc_rep s' (astep A (Stop q out)).1 ∧ agrees (Stop q out) r (astep A (Stop q out)).2.
Proof.
  intros R Hq. cbn [do_op astep]. unfold lc_docker_stop. rewrite (find_slot_spec s A q R). destruct (afind A (named q)) as [i|] eqn:Ef.
  2:{ destruct (say_spec out [Lit (bytes "Error: no such container: "); Str q] ltac:(pieces; by apply str_piece)) as (o & -> & Ho).
      cbn [mbind outcome_bind]. exists s, (Msg (-1) o). split; [done|]. split; [done|]. split; [done|]. cbn [text] in Ho. by rewrite app_nil_r in Ho. }
  destruct (afind_some A _ i Ef) as (Hi & c & Ec). rewrite Ec. destruct (l_slot _ _ R i Hi) as (L1 & L2 & L3 & Hc). rewrite Ec in Hc.
  destruct Hc as (C1 & C2 & C3 & C4 & C5 & ->). destruct (running c) eqn:Er.
  - rewrite bool_decide_eq_false_2 by done. cbn [id_str]. rewrite C3.
    destruct (say_spec out [Lit (bytes "Stopped "); Str (Some (cid_str c.(cid)))]) as (o & -> & Ho).
    { pieces. apply cid_cstr. lia. }
    cbn [mbind outcome_bind]. eexists _, (Msg 0 o). split; [done|]. split; [|split; [done|cbn [text default] in Ho; by rewrite app_nil_r in Ho]].
    by apply rep_slot.
  - rewrite bool_decide_eq_true_2 by done.
    destruct (say_spec out [Lit (bytes "Container "); Str q; Lit (bytes " already stopped")] ltac:(pieces; by apply str_piece)) as (o & -> & Ho).
    cbn [mbind outcome_bind]. exists s, (Msg (-1) o). split; [done|]. split; [done|]. split; [done|]. cbn [text] in Ho. by rewrite app_nil_r in Ho.
Qed.

Lemma rm_rep s A q out : lc_rep s A → opt_cstr q →
  ∃ s' r, do_op s (Rm q out) = Ret (s', r) ∧ lc_rep s' (astep A (Rm q out)).1 ∧ agrees (Rm q out) r (astep A (Rm q out)).2.
Proof.
  intros R Hq. cbn [do_op astep]. unfold lc_docker_rm. rewrite (find_slot_spec s A q R). destruct (afind A (named q)) as [i|] eqn:Ef.
  2:{ destruct (say_spec out [Lit (bytes "Error: no such container: "); Str q] ltac:(pieces; by apply str_piece)) as (o & -> & Ho).
      cbn [mbind outcome_bind]. exists s, (Msg (-1) o). split; [done|]. split; [done|]. split; [done|]. cbn [text] in Ho. by rewrite app_nil_r in Ho. }
  destruct (afind_some A _ i Ef) as (Hi & c & Ec). rewrite Ec. destruct (l_slot _ _ R i Hi) as (L1 & L2 & L3 & Hc). rewrite Ec in Hc.
  destruct Hc as (C1 & C2 & C3 & C4 & C5 & ->). destruct (running c) eqn:Er.
  - rewrite bool_decide_eq_false_2 by done. cbn [negb].
    destruct (say_spec out [Lit (bytes "Error: container "); Str q; Lit (bytes " is running — `docker stop` first")] ltac:(pieces; by apply str_piece)) as (o & -> & Ho).
    cbn [mbind outcome_bind]. exists s, (Msg (-1) o). split; [done|]. split; [done|]. split; [done|]. cbn [text] in Ho. by rewrite app_nil_r in Ho.
  - rewrite bool_decide_eq_true_2 by done. cbn [negb]. rewrite C3.
    destruct (say_spec out [Lit (bytes "Removed "); Str (Some (cid_str c.(cid)))]) as (o & -> & Ho).
    { pieces. apply cid_cstr. lia. }
    cbn [mbind outcome_bind]. eexists _, (Msg 0 o). split; [done|]. split; [|split; [done|cbn [text default] in Ho; by rewrite app_nil_r in Ho]].
    by apply rep_slot.
Qed.

Lemma run_rep s A img cmd out : lc_rep s A → opt_cstr img → opt_cstr cmd → A.(next) + 1 < 2 ^ 64 →
  ∃ s' r, do_op s (Run img cmd out) = Ret (s', r) ∧ lc_rep s' (astep A (Run img cmd out)).1 ∧ agrees (Run img cmd out) r (astep A (Run img cmd out)).2.
Proof.
  intros R Hi Hc Hn. destruct (l_next _ _ R) as [En Hn0]. cbn [do_op]. unfold lc_docker_run.
  destruct img as [[|c0 img]|]; [exists s, (Msg (-1) out); by split; [|split] | |exists s, (Msg (-1) out); by split; [|split]].
  destruct out as [[|o0 out]|]; [exists s, (Msg (-1) (Some [])); by split; [|split] | |exists s, (Msg (-1) None); by split; [|split]].
  cbn [astep]. rewrite <- (l_pol _ _ R). change (Z.lor LC_IFC_OP_READ LC_IFC_OP_WRITE) with 3.
  set (im := c0 :: img) in *. set (ob := Some (o0 :: out)). destruct (lc_ifc_flow_allowed _ _ _ _); cbn [negb].
  2:{ destruct (say_spec ob [Lit (bytes "LC: IFC denied container→host I/O; start aborted")] ltac:(pieces)) as (o & -> & Ho).
      cbn [mbind outcome_bind]. exists s, (Msg (-1) o). split; [done|]. split; [done|]. split; [done|]. cbn [text] in Ho. by rewrite app_nil_r in Ho. }
  rewrite (slot_alloc_spec s A R). destruct (afree A) as [i|] eqn:Ef.
  2:{ destruct (say_spec ob [Lit (bytes "LC: no free container slots (max="); Dec LC_MAX_CONTAINERS; Lit (bytes ")")] ltac:(pieces; cbn; unfold LC_MAX_CONTAINERS; lia)) as (o & -> & Ho).
      cbn [mbind outcome_bind]. exists s, (Msg (-1) o). split; [done|]. split; [done|]. split; [done|]. exact Ho. }
  destruct (afree_some A i Ef) as [Hir _]. destruct (l_slot _ _ R i Hir) as (L1 & L2 & L3 & _). unfold LC_ID_STR_LEN, LC_CTR_NAME_LEN, LC_IMAGE_NAME_LEN in L1, L2, L3. rewrite En. pose proof Hi as Hic. cbn [opt_cstr] in Hic.
  destruct (fill_spec (s.(g_slots).[i]).(id_str) [Lit (bytes "aevos_lc_"); Llu A.(next)]) as (ids & -> & Hl1 & E1); [pieces; cbn; lia|lia|].
  destruct (fill_spec (s.(g_slots).[i]).(name) [Lit (bytes "focused_"); Llu A.(next)]) as (nm & -> & Hl2 & E2); [pieces; cbn; lia|lia|].
  rewrite L1 in E1. rewrite L2 in E2. cbn [text] in E1, E2. rewrite app_nil_r in E1, E2. cbn [mbind outcome_bind].
  destruct (strncpy_term_spec (s.(g_slots).[i]).(image) im Hic) as (ima & -> & Hl3 & E3); [lia|]. rewrite L3 in E3. cbn [mbind outcome_bind].
  unfold lower_path_for_image. destruct (fill_spec (replicate 160 0) [Lit (bytes "/lc/images/"); Str (Some im); Lit (bytes "/rootfs")]) as (low & -> & _ & E4);
    [pieces; exact Hic|cbn; lia|]. cbn [mbind outcome_bind text default] in E4 |- *. rewrite app_nil_r in E4.
  pose proof (text_cstr [Lit (bytes "/lc/images/"); Str (Some im); Lit (bytes "/rootfs")] ltac:(pieces; exact Hic)) as Ht. cbn [text default] in Ht. rewrite app_nil_r in Ht.
  destruct (register_spec s A A.(next) im (cstr low) R ltac:(lia) Hic) as (b & -> & Rb).
  { rewrite E4. by apply is_cstr_take. } { rewrite E4, take_take. f_equal. }
  cbn [mbind outcome_bind]. set (cm := match cmd with Some _ => _ | None => _ end).
  assert (is_cstr cm) as Hcm by (subst cm; destruct cmd as [[|? ?]|]; [apply (bool_decide_unpack _); vm_compute; exact I|exact Hc|apply (bool_decide_unpack _); vm_compute; exact I]).
  change (cstr nm = cname A.(next)) in E2. change (cstr ids = cid_str A.(next)) in E1. rewrite E1, E2. destruct (cid_cstr A.(next) ltac:(lia)) as [K1 K2].
  edestruct (say_spec ob) as (o & -> & Ho); [pieces; try exact K1; try exact K2; try exact Hic; try exact Hcm; apply (bool_decide_unpack _); vm_compute; exact I|].
  cbn [mbind outcome_bind]. eexists _, (Msg 0 o). split; [done|]. split.
  - pose proof (rep_slot _ _ i {| id := A.(next); id_str := ids; name := nm; image := ima; state := LC_CTR_RUNNING |} (Some {| cid := A.(next); cimage := take 95 im; running := true |}) Rb Hir) as Rs.
    cbn [fst]. destruct Rs as [S1 S2 S3 S4 S5 S6 S7 S8 S9].
    { cbn. unfold slot_rep. cbn. rewrite Hl1, Hl2, Hl3, L1, L2, L3. split; [done|]. split; [done|]. split; [done|]. split; [done|]. split; [done|]. done. }
    split; cbn [g_slots g_next_id g_bundles g_ifc ctrs next bundled pol with_slots set_ctr] in *; try first [assumption|reflexivity].
    rewrite wrap_id by lia. split; [done|lia].
  - split; [done|]. cbn [out_of snd]. refine (eq_ind _ (λ t, holds ob t o) Ho (started A.(next) im cm) _). unfold started. cbn [text default].
    rewrite app_nil_r, <- !app_assoc. done.
Qed.

Lemma drop_cons {X} `{Inhabited X} (l : list X) i : 0 ≤ i < zlen l → drop (Z.to_nat i) l = l.[i] :: drop (Z.to_nat (i + 1)) l.
Proof.
  intros Hi. rewrite (drop_S l (l.[i]) (Z.to_nat i)) by (by apply aget_lookup). f_equal. f_equal. lia.
Qed.

Lemma ps_from_spec s A max : lc_rep s A → ∀ n i w, 0 ≤ i → i + Z.of_nat n = LC_MAX_CONTAINERS →
  Forall2 (λ s c, slot_rep s (Some c)) (ps_from n s.(g_slots) i w max) (take (Z.to_nat (max - w)) (omap (λ c, c) (drop (Z.to_nat i) A.(ctrs)))).
Proof.
  intros R n. induction n as [|n IH]; intros i w Hi Hn; cbn [ps_from].
  - rewrite drop_ge by (pose proof (l_ctrs _ _ R); unfold zlen in *; lia). cbn. rewrite take_nil. constructor.
  - destruct (Z.ltb_spec w max) as [Hw|Hw].
    2:{ replace (Z.to_nat (max - w)) with 0%nat by lia. constructor. }
    rewrite drop_cons by (pose proof (l_ctrs _ _ R); lia). cbn [omap list_omap]. rewrite (slot_id s A i R) by lia.
    pose proof (l_slot _ _ R i ltac:(lia)) as Hs. destruct (A.(ctrs).[i]) as [c|].
    + rewrite bool_decide_eq_false_2 by done. replace (Z.to_nat (max - w)) with (S (Z.to_nat (max - (w + 1)))) by lia. cbn [take].
      constructor; [done|]. apply IH; lia.
    + rewrite bool_decide_eq_true_2 by done. apply IH; lia.
Qed.

Lemma op_rep s A o : lc_rep s A → op_ok o → A.(next) + 1 < 2 ^ 64 →
  ∃ s' r, do_op s o = Ret (s', r) ∧ lc_rep s' (astep A o).1 ∧ agrees o r (astep A o).2.
Proof.
  intros R Ho Hn. destruct o as [img cmd out|q out|q out|n|f t m|f t m].
  - by apply run_rep; [|apply Ho|apply Ho|].
  - by apply stop_rep.
  - by apply rm_rep.
  - cbn [do_op astep]. eexists s, _. split; [done|]. split; [done|]. unfold lc_docker_ps. cbn [negb orb]. destruct (n <=? 0); [by split|].
    split; [done|]. pose proof (ps_from_spec s A n R (Z.to_nat LC_MAX_CONTAINERS) 0 0 ltac:(lia) eq_refl) as Hp.
    rewrite Z.sub_0_r in Hp. exact Hp.
  - eexists _, Unit. split; [done|]. split; [|done]. split; cbn; try apply R. by rewrite (l_pol _ _ R).
  - eexists _, Unit. split; [done|]. split; [|done]. split; cbn; try apply R. by rewrite (l_pol _ _ R).
Qed.

Fixpoint run (s : lc) (os : list op) : outcome (lc * list reply) :=
  match os with
  | [] => Ret (s, [])
  | o :: os => r ← do_op s o; let '(s, x) := r in r ← run s os; let '(s, xs) := r in Ret (s, x :: xs)
  end.
Fixpoint asteps (A : docker) (os : list op) : docker * list answer :=
  match os with
  | [] => (A, [])
  | o :: os => let '(A, a) := astep A o in let '(A, l) := asteps A os in (A, a :: l)
  end.
Fixpoint agree (os : list op) (rs : list reply) (l : list answer) : Prop :=
  match os, rs, l with
  | [], [], [] => True
  | o :: os, r :: rs, a :: l => agrees o r a ∧ agree os rs l
  | _, _, _ => False
  end.

(** An identifier is used up by a start only. *)
Lemma next_step A o : (astep A o).1.(next) = A.(next) ∨ (astep A o).1.(next) = A.(next) + 1.
Proof. destruct o; cbn; repeat case_match; cbn; auto. Qed.

Lemma ops_rep os : Forall op_ok os → ∀ s A, lc_rep s A → A.(next) + zlen os < 2 ^ 64 →
  ∃ s' rs, run s os = Ret (s', rs) ∧ lc_rep s' (asteps A os).1 ∧ agree os rs (asteps A os).2.
Proof.
  induction 1 as [|o os Ho _ IH]; intros s A R Hn; cbn [run asteps]; [by exists s, []|].
  rewrite zlen_cons in Hn. pose proof (zlen_nonneg os). destruct (op_rep s A o R Ho ltac:(lia)) as (s1 & r & -> & R1 & Ha). cbn [mbind outcome_bind].
  pose proof (next_step A o) as Hs. destruct (astep A o) as [A1 a]. cbn [fst snd] in *. destruct (IH s1 A1 R1 ltac:(lia)) as (s2 & rs & -> & R2 & Hrs).
  cbn [mbind outcome_bind]. destruct (asteps A1 os) as [A2 l]. exists s2, (r :: rs). done.
Qed.

(** The state at boot: the tables are zero. *)
Definition boot_lc (g : policy) : lc :=
  {| g_slots := replicate (Z.to_nat LC_MAX_CONTAINERS) zero_slot; g_next_id := 1; g_bundles := replicate (Z.to_nat LC_OCI_MAX_BUNDLES) zero_bundle; g_ifc := g |}.
Definition boot_docker (g : policy) : docker :=
  {| ctrs := replicate (Z.to_nat LC_MAX_CONTAINERS) None; next := 1; bundled := []; pol := lc_ifc_init g |}.
Lemma boot_rep g : lc_rep (lc_layer_init (boot_lc g)) (boot_docker g).
Proof.
  split; cbn [lc_layer_init boot_lc boot_docker g_slots g_next_id g_bundles g_ifc ctrs next bundled pol lc_oci_init]; try done.
  - intros i Hi. rewrite !aget_replicate by done. done.
  - unfold zlen. cbn. intros i Hi. lia.
  - intros i Hi. unfold lc_oci_init. rewrite aget_replicate; [done|]. unfold zlen in Hi. cbn in Hi. unfold LC_OCI_MAX_BUNDLES in *. lia.
Qed.

(** C18: The docker commands implement a table of at most sixteen containers: after
    [lc_layer_init] every history of [docker run], [stop], [rm] and [ps] and of
    changes of the policy returns, and its results, messages and listings are
    those of the table. The sandbox has no part in it: a start looks at the
    container-to-host flow of the policy and at the free slots only, and its
    message has three lines. It takes the next identifier and the first free slot
    and is refused by that flow or a full table; a name or identifier, or an
    unambiguous prefix of four bytes, selects a container; only a stopped one is
    removed. *)
Theorem containers_refine g os :
  Forall op_ok os → zlen os < 2 ^ 64 - 1 →
  ∃ s rs, run (lc_layer_init (boot_lc g)) os = Ret (s, rs) ∧ agree os rs (asteps (boot_docker g) os).2 ∧ lc_rep s (asteps (boot_docker g) os).1.
Proof.
  intros Ho Hn. destruct (ops_rep os Ho _ _ (boot_rep g)) as (s & rs & E & R & Ha); [cbn; lia|]. by exists s, rs.
Qed.

(** ** Bundles are never given back *)

Definition bundle_inv (A : docker) : Prop :=
  zlen A.(bundled) = Z.min 16 (A.(next) - 1) ∧ ∀ i, 0 ≤ i < zlen A.(bundled) → (A.(bundled).[i]).1 = i + 1.
Lemma bundle_step A o : 0 < A.(next) → bundle_inv A → bundle_inv (astep A o).1.
Proof.
  intros Hn [H1 H2]. destruct o as [img cmd out|q out|q out|n|f t m|f t m]; cbn [astep]; try (repeat case_match; by split).
  destruct img as [[|c img]|], out as [[|x out]|]; try by split. destruct (negb _); [by split|]. destruct (afree A); [|by split].
  unfold bundle_inv. cbn [fst bundled next]. destruct (decide (length A.(bundled) < 16)%nat) as [Hl|Hl].
  - rewrite zlen_app. change (zlen [_]) with 1. split; [unfold zlen in *; lia|]. intros i Hi.
    destruct (decide (i < zlen A.(bundled))); [rewrite aget_app_l by lia; apply H2; lia|]. rewrite aget_app_r by lia.
    assert (i = zlen A.(bundled)) as -> by lia. rewrite Z.sub_diag. change ((A.(next)) = zlen A.(bundled) + 1). unfold zlen in *. lia.
  - split; [unfold zlen in *; lia|done].
Qed.
Lemma bundle_steps os : ∀ A, 0 < A.(next) → bundle_inv A → bundle_inv (asteps A os).1.
Proof.
  induction os as [|o os IH]; intros A Hn Hi; [done|]. cbn [asteps]. pose proof (bundle_step A o Hn Hi) as H1. pose proof (next_step A o) as H2.
  destruct (astep A o) as [A1 a]. cbn [fst] in *. specialize (IH A1 ltac:(lia) H1). by destruct (asteps A1 os).
Qed.

(** Only the first sixteen containers ever get an OCI bundle: in every state that
    the commands lead to, the bundles in use are those of the identifiers 1 to 16
    that have been started, whether these containers still exist or not, and no
    later container has one, although the header promises one for every active
    container. *)
Theorem bundles_of_first_sixteen g os s rs :
  Forall op_ok os → zlen os < 2 ^ 64 - 1 → run (lc_layer_init (boot_lc g)) os = Ret (s, rs) →
  ∀ i, 0 ≤ i < LC_OCI_MAX_BUNDLES →
    if decide (i + 1 < s.(g_next_id)) then (s.(g_bundles).[i]).(used) = true ∧ (s.(g_bundles).[i]).(ctr_id) = i + 1 else (s.(g_bundles).[i]).(used) = false.
Proof.
  intros Ho Hn E i Hi. destruct (ops_rep os Ho _ _ (boot_rep g)) as (s' & rs' & E' & R & _); [cbn; lia|].
  rewrite E in E'. injection E' as <- <-. destruct (bundle_steps os (boot_docker g)) as [H1 H2]; [done|split; [done|intros j Hj; unfold zlen in Hj; cbn in Hj; lia]|].
  destruct (l_next _ _ R) as [-> _]. unfold LC_OCI_MAX_BUNDLES in Hi. case_decide as Hd.
  - destruct (l_used _ _ R i) as (-> & -> & _); [lia|]. split; [done|]. apply H2. lia.
  - apply (l_free _ _ R). unfold LC_OCI_MAX_BUNDLES. lia.
Qed.

(** ** The list of images *)

Lemma say_at_ok out pos fmt ap t :
  0 ≤ pos ≤ zlen out → zlen out < 2 ^ 64 → formatted fmt ap = Ret t →
  ∃ out' n, say_at out pos fmt ap = Ret (out', n) ∧ zlen out' = zlen out.
Proof.
  intros Hp Hl Hf. unfold say_at. rewrite wrap_id by lia. destruct (Z.eqb_spec (zlen out - pos) 0); [by exists out, 0|].
  rewrite Z.gtb_ltb, (proj2 (Z.ltb_ge (zlen out) pos)) by lia. unfold snprintf_arr. rewrite Hf. cbn [mbind outcome_bind].
  rewrite decide_True by (rewrite length_drop; unfold zlen in *; lia). cbn [mbind outcome_bind]. eexists _, _. split; [done|]. cbn [fst].
  unfold zlen in *. repeat rewrite ?length_app, ?length_take, ?length_drop. cbn [length]. lia.
Qed.

Lemma images_catalog_ok l : ∀ out pos, Forall is_cstr l → 0 ≤ pos ≤ zlen out → zlen out < 2 ^ 64 →
  ∃ out' pos', images_catalog l out pos = Ret (out', pos') ∧ zlen out' = zlen out ∧ 0 ≤ pos' ≤ zlen out.
Proof.
  induction l as [|c l IH]; intros out pos Hc Hp Hl; cbn [images_catalog]; [by exists out, pos|]. apply Forall_cons in Hc as [Hc Hcs].
  destruct (say_at_ok out pos (bytes "%s" ++ nl) [VStr (Some c)] (text [Str (Some c); Lit nl]) Hp Hl) as (out1 & n & -> & E1).
  { apply (formatted_pieces [Str (Some c); Lit nl]). pieces. exact Hc. }
  cbn [mbind outcome_bind]. destruct ((n <? 0) || (n >=? u64 (zlen out1 - pos))) eqn:En; [by exists out1, pos|].
  rewrite E1, wrap_id in En by lia. destruct (IH out1 (pos + n)) as (out2 & pos2 & -> & E2 & Hp2); [done|lia|lia|]. exists out2, pos2. rewrite <- E1. split; [done|]. split; [done|lia].
Qed.

(** [%-12s] and [%-6llu] are not conversions: the line is printed as it is written. *)
Lemma images_line_literal ap : formatted images_line ap = Ret images_line.
Proof. vm_compute. reflexivity. Qed.

Lemma images_slots_ok l : ∀ n i out pos, 0 ≤ pos ≤ zlen out → zlen out < 2 ^ 64 → ∃ out', images_slots n l i out pos = Ret out'.
Proof.
  induction n as [|n IH]; intros i out pos Hp Hl; cbn [images_slots]; [by exists out|]. destruct ((l.[i]).(id) =? 0); [by apply IH|].
  destruct (say_at_ok out pos images_line [VStr (Some (cstr (l.[i]).(image))); VInt (l.[i]).(id)] images_line Hp Hl (images_line_literal _)) as (out1 & k & -> & E1).
  cbn [mbind outcome_bind]. destruct ((k <? 0) || (k >=? u64 (zlen out1 - pos))) eqn:En; [by exists out1|].
  rewrite E1, wrap_id in En by lia. apply IH; lia.
Qed.

(** [lc_docker_images] overruns its buffer exactly when the buffer is smaller
    than the header line: [snprintf] returns the length of the whole line, the
    function adds it to the position without a check, and the size of the next
    piece, an unsigned difference, wraps around. With a buffer of the header's
    length or more it returns. *)
Theorem images_overrun s o :
  0 < zlen o < 2 ^ 64 → if decide (zlen o < zlen images_header) then lc_docker_images s (Some o) = Fault else ∃ o', lc_docker_images s (Some o) = Ret (Some o', 0).
Proof.
  intros Ho. destruct o as [|x o]; [unfold zlen in Ho; cbn in Ho; lia|]. set (b := x :: o) in *. assert (formatted images_header [] = Ret images_header) as Hf by (vm_compute; reflexivity).
  assert (zlen images_header = 54) as Hh by (vm_compute; reflexivity).
  assert (∃ b1, say_at b 0 images_header [] = Ret (b1, 54) ∧ zlen b1 = zlen b) as (b1 & E & E1).
  { destruct (say_at_ok b 0 images_header [] images_header ltac:(lia) ltac:(lia) Hf) as (b1 & n & E & E1). exists b1. split; [|done]. rewrite E. f_equal. f_equal.
    unfold say_at in E. rewrite wrap_id, Z.sub_0_r in E by lia. rewrite (proj2 (Z.eqb_neq (zlen b) 0)) in E by lia.
    rewrite Z.gtb_ltb, (proj2 (Z.ltb_ge (zlen b) 0)) in E by lia. unfold snprintf_arr in E. rewrite Hf in E. cbn [mbind outcome_bind] in E.
    rewrite Hh in E. case_decide; [|done]. cbn [mbind outcome_bind snd] in E. injection E as _ <-. reflexivity. }
  unfold lc_docker_images. fold b. rewrite E. cbn [mbind outcome_bind]. change (54 >? 0) with true. cbn match. rewrite Hh. case_decide as Hlt.
  - unfold catalog. cbn [images_catalog]. unfold say_at. assert (u64 (zlen b1 - 54) = 2 ^ 64 + (zlen b1 - 54)) as ->.
    { unfold wrap. rewrite <- (Z_mod_plus_full _ 1). rewrite Z.mod_small; lia. }
    rewrite (proj2 (Z.eqb_neq _ 0)) by lia. rewrite Z.gtb_ltb, (proj2 (Z.ltb_lt _ _)) by lia. done.
  - destruct (images_catalog_ok catalog b1 54) as (b2 & pos & -> & E2 & Hp); [|lia|lia|].
    { repeat constructor; apply (bool_decide_unpack _); vm_compute; exact I. }
    cbn [mbind outcome_bind]. destruct (images_slots_ok s.(g_slots) (Z.to_nat LC_MAX_CONTAINERS) 0 b2 pos) as (b3 & ->); [lia|lia|]. by exists b3.
Qed.

(** ** Examples *)

Definition zero_policy : policy := replicate (Z.to_nat LC_IFC_DOM_COUNT) (replicate (Z.to_nat LC_IFC_DOM_COUNT) 0).
Definition buffer (n : nat) : option (list Z) := Some (replicate n 0).
Definition demo_ops : list op :=
  [Run (Some (bytes "alpine")) None (buffer 64); Run (Some (bytes "busybox")) (Some (bytes "sh")) None; Run (Some (bytes "busybox")) (Some (bytes "sh")) (buffer 200);
   Ps 8; Stop (Some (bytes "aevos")) (buffer 40); Stop (Some (bytes "focused_1")) (buffer 40); Rm (Some (bytes "aevos_lc_2")) (buffer 9);
   Rm (Some (bytes "aevos_lc_1")) (buffer 40); Rm None (buffer 40); Stop (Some (bytes "aevo")) (buffer 40); Revoke 1 0 2; Run (Some (bytes "x")) None (buffer 80); Ps 1].
Definition rc_of (r : reply) : Z := match r with Msg rc _ | Slots rc _ => rc | Unit => 0 end.
Lemma demo_ops_ok : Forall op_ok demo_ops.
Proof.
  assert (∀ l, forallb (λ c, (0 <? c) && (c <? 256)) l = true → is_cstr l) as Hl.
  { intros l Hf. apply Forall_forall. intros c Hc. rewrite forallb_forall in Hf. apply list_elem_of_In, Hf in Hc. lia. }
  repeat constructor; apply Hl; reflexivity.
Qed.

Lemma containers_refine_witness :
  (∃ s rs, run (lc_layer_init (boot_lc zero_policy)) demo_ops = Ret (s, rs) ∧ agree demo_ops rs (asteps (boot_docker zero_policy) demo_ops).2 ∧
     lc_rep s (asteps (boot_docker zero_policy) demo_ops).1) ∧
  match run (lc_layer_init (boot_lc zero_policy)) demo_ops with Ret (_, rs) => Some (map rc_of rs) | _ => None end = Some [0; -1; 0; 0; -1; 0; -1; 0; -1; 0; 0; -1; 0].
Proof.
  split; [|vm_compute; reflexivity]. apply (containers_refine zero_policy demo_ops demo_ops_ok). reflexivity.
Defined.

(** Seventeen containers, each removed before the next one starts. *)
Definition one_by_one : list op := concat (map (λ i, [Run (Some (bytes "a")) None (buffer 4); Stop (Some (bytes "aevo")) None; Rm (Some (bytes "aevo")) None]) (seq 0 17)).
Lemma one_by_one_ok : Forall op_ok one_by_one.
Proof.
  assert (is_cstr (bytes "a") ∧ is_cstr (bytes "aevo")) as [H1 H2] by (split; apply (bool_decide_unpack _); vm_compute; exact I).
  unfold one_by_one. apply Forall_concat, Forall_forall. intros l Hl. apply list_elem_of_In, in_map_iff in Hl as (i & <- & _). repeat constructor; done.
Qed.
Lemma bundles_of_first_sixteen_witness :
  ∃ s rs, run (lc_layer_init (boot_lc zero_policy)) one_by_one = Ret (s, rs) ∧ s.(g_next_id) = 18 ∧
    (if decide (15 + 1 < s.(g_next_id)) then (s.(g_bundles).[15]).(used) = true ∧ (s.(g_bundles).[15]).(ctr_id) = 15 + 1 else (s.(g_bundles).[15]).(used) = false).
Proof.
  destruct (run (lc_layer_init (boot_lc zero_policy)) one_by_one) as [[s rs]| |] eqn:E; [|exfalso..].
  - exists s, rs. split; [reflexivity|]. split.
    + assert (match run (lc_layer_init (boot_lc zero_policy)) one_by_one with Ret (s, _) => g_next_id s | _ => 0 end = 18) as Hn by (vm_compute; reflexivity).
      rewrite E in Hn. exact Hn.
    + apply (bundles_of_first_sixteen zero_policy one_by_one s rs one_by_one_ok ltac:(reflexivity) E 15). split; [discriminate|reflexivity].
  - revert E. vm_compute. discriminate.
  - revert E. vm_compute. discriminate.
Defined.

Lemma images_overrun_witness : lc_docker_images (boot_lc zero_policy) (buffer 53) = Fault ∧ ∃ o, lc_docker_images (boot_lc zero_policy) (buffer 54) = Ret (Some o, 0).
Proof.
  split.
  - apply (images_overrun (boot_lc zero_policy) (replicate 53 0)). split; reflexivity.
  - apply (images_overrun (boot_lc zero_policy) (replicate 54 0)). split; reflexivity.
Defined.
