(* ===== verification/AevosFs.v ===== *)
(** * The file system of AevOS ([src/kernel/fs/aevosfs.c])

    A log of blocks on a block device: every write of a file goes to fresh blocks behind
    the head of the log. The device is a parameter: [disk] is what its blocks hold, of
    blocks that were never written as well, and [dev_ok k] tells whether its [k]-th
    request succeeds; a request that fails changes nothing. A pointer to an inode is
    its index in the table. Every call runs under the lock of the file system. *)

From stdpp Require Import base numbers list functions.
From Stdlib Require Import (notations) String.
From S2P Require Import Prelude CMem CArray Buf.
Open Scope Z_scope.

Definition AEVOSFS_MAGIC : Z := 0xAE05F5A1.
Definition AEVOSFS_VERSION : Z := 1.
Definition AEVOSFS_BLOCK_SIZE : Z := 4096.
Definition AEVOSFS_DIRECT_BLOCKS : Z := 16.
Definition AEVOSFS_MAX_NAME : Z := 128.
Definition AEVOSFS_MAX_INODES : Z := 4096.
Definition AEVOSFS_LOG_ENTRY_WRITE : Z := 1.
Definition VFS_PATH_MAX : Z := 512.

Record aevosfs_superblock_t := {
  magic : Z; version : Z; block_size : Z; total_blocks : Z; free_blocks : Z; root_inode : Z; log_head : Z; checkpoint_block : Z; reserved : list Z }.
Inductive aevosfs_inode_type_t := AEVOSFS_FILE | AEVOSFS_DIR.
#[export] Instance inode_type_dec : EqDecision aevosfs_inode_type_t.
Proof. solve_decision. Defined.
Definition type_code (t : aevosfs_inode_type_t) : Z := match t with AEVOSFS_FILE => 0 | AEVOSFS_DIR => 1 end.
(** The creation and modification times, the indirect block and the reserved bytes are always 0. *)
Record aevosfs_inode_t := { id : Z; type : aevosfs_inode_type_t; isize : Z; block_list : list Z; permissions : Z; link_count : Z }.
Definition no_inode : aevosfs_inode_t :=
  {| id := 0; type := AEVOSFS_FILE; isize := 0; block_list := replicate 16 0; permissions := 0; link_count := 0 |}.
#[export] Instance inode_inhabited : Inhabited aevosfs_inode_t := populate no_inode.
Record fs_t := { disk : Z → list Z; io : nat; sb : aevosfs_superblock_t; inode_table : list aevosfs_inode_t; next_inode_id : Z }.

Definition with_io (s : fs_t) (d : Z → list Z) : fs_t :=
  {| disk := d; io := S s.(io); sb := s.(sb); inode_table := s.(inode_table); next_inode_id := s.(next_inode_id) |}.
Definition with_sb (s : fs_t) (b : aevosfs_superblock_t) : fs_t :=
  {| disk := s.(disk); io := s.(io); sb := b; inode_table := s.(inode_table); next_inode_id := s.(next_inode_id) |}.
Definition with_inodes (s : fs_t) (t : list aevosfs_inode_t) (n : Z) : fs_t :=
  {| disk := s.(disk); io := s.(io); sb := s.(sb); inode_table := t; next_inode_id := n |}.
Definition set_log (b : aevosfs_superblock_t) (free head cp : Z) : aevosfs_superblock_t :=
  {| magic := b.(magic); version := b.(version); block_size := b.(block_size); total_blocks := b.(total_blocks); free_blocks := free;
     root_inode := b.(root_inode); log_head := head; checkpoint_block := cp; reserved := b.(reserved) |}.
Definition set_inode (s : fs_t) (k : Z) (i : aevosfs_inode_t) : fs_t := with_inodes s (s.(inode_table).[k <- i]) s.(next_inode_id).
Definition set_blocks (i : aevosfs_inode_t) (b : list Z) : aevosfs_inode_t :=
  {| id := i.(id); type := i.(type); isize := i.(isize); block_list := b; permissions := i.(permissions); link_count := i.(link_count) |}.
Definition set_size (i : aevosfs_inode_t) (n : Z) : aevosfs_inode_t :=
  {| id := i.(id); type := i.(type); isize := n; block_list := i.(block_list); permissions := i.(permissions); link_count := i.(link_count) |}.
Definition set_id (i : aevosfs_inode_t) (n : Z) : aevosfs_inode_t :=
  {| id := n; type := i.(type); isize := i.(isize); block_list := i.(block_list); permissions := i.(permissions); link_count := i.(link_count) |}.

(** ** Structures in blocks *)

Definition pad_block (l : list Z) : list Z := l ++ replicate (Z.to_nat AEVOSFS_BLOCK_SIZE - length l) 0.
Definition zero_block : list Z := pad_block [].
Definition superblock_bytes (b : aevosfs_superblock_t) : list Z :=
  le_bytes 4 b.(magic) ++ le_bytes 4 b.(version) ++ le_bytes 4 b.(block_size) ++ le_bytes 8 b.(total_blocks) ++ le_bytes 8 b.(free_blocks) ++
  le_bytes 8 b.(root_inode) ++ le_bytes 8 b.(log_head) ++ le_bytes 8 b.(checkpoint_block) ++ b.(reserved).
Definition word_at (p : list Z) (i n : Z) : Z := le_val (sub_list p i n).
Definition superblock_of (p : list Z) : aevosfs_superblock_t :=
  {| magic := word_at p 0 4; version := word_at p 4 4; block_size := word_at p 8 4; total_blocks := word_at p 12 8; free_blocks := word_at p 20 8;
     root_inode := word_at p 28 8; log_head := word_at p 36 8; checkpoint_block := word_at p 44 8; reserved := sub_list p 52 448 |}.
Definition inode_bytes (i : aevosfs_inode_t) : list Z :=
  le_bytes 8 i.(id) ++ le_bytes 4 (type_code i.(type)) ++ le_bytes 8 i.(isize) ++ replicate 16 0 ++ concat (map (le_bytes 8) i.(block_list)) ++
  replicate 8 0 ++ le_bytes 4 i.(permissions) ++ le_bytes 4 i.(link_count) ++ replicate 40 0.
Definition log_entry_bytes (inode_id offset length data_block : Z) : list Z :=
  [AEVOSFS_LOG_ENTRY_WRITE] ++ le_bytes 8 inode_id ++ le_bytes 8 offset ++ le_bytes 4 length ++ le_bytes 8 data_block ++ replicate 8 0.

(** An entry of a directory: the identifier, the name and the type. *)
Definition DIRENT : Z := 140.
Definition entries_per_block : Z := AEVOSFS_BLOCK_SIZE / DIRENT.
Definition de_inode (p : list Z) (i : Z) : Z := word_at p (DIRENT * i) 8.
Definition dirent_bytes (inode_id : Z) (name : list Z) (t : aevosfs_inode_type_t) : list Z :=
  le_bytes 8 inode_id ++ name ++ replicate (Z.to_nat AEVOSFS_MAX_NAME - length name) 0 ++ le_bytes 4 (type_code t).
(** [strcmp(de[i].name, name) == 0] *)
Definition de_named (p : list Z) (i : Z) (name : list Z) : bool := bool_decide (sub_list p (DIRENT * i + 8) (zlen name + 1) = name ++ [0]).

Section device.
Context (dev_ok : nat → bool).

Definition alloc_block (s : fs_t) : fs_t * Z :=
  if s.(sb).(free_blocks) =? 0 then (s, 0) else
  (with_sb s (set_log s.(sb) (u64 (s.(sb).(free_blocks) - 1)) (u64 (s.(sb).(log_head) + 1)) s.(sb).(checkpoint_block)), s.(sb).(log_head)).
Definition read_block (s : fs_t) (b : Z) : fs_t * option (list Z) :=
  (with_io s s.(disk), if dev_ok s.(io) then Some (s.(disk) b) else None).
Definition write_block (s : fs_t) (b : Z) (l : list Z) : fs_t * Z :=
  if dev_ok s.(io) then (with_io s (<[b := l]> s.(disk)), 0) else (with_io s s.(disk), - EIO).

(** ** Inodes *)

Fixpoint first_inode (t : list aevosfs_inode_t) (want k : Z) : option Z :=
  match t with [] => None | i :: t => if i.(id) =? want then Some k else first_inode t want (k + 1) end.
Definition find_inode (s : fs_t) (want : Z) : option Z := first_inode s.(inode_table) want 0.
Definition alloc_inode (s : fs_t) (t : aevosfs_inode_type_t) : fs_t * option Z :=
  match find_inode s 0 with
  | Some k =>
      let i := {| id := s.(next_inode_id); type := t; isize := 0; block_list := replicate 16 0; permissions := 493; link_count := 1 |} in
      (with_inodes s (s.(inode_table).[k <- i]) (u64 (s.(next_inode_id) + 1)), Some k)
  | None => (s, None)
  end.
Definition inode (s : fs_t) (k : Z) : aevosfs_inode_t := s.(inode_table).[k].

Definition log_append_write (s : fs_t) (k offset length data_blk : Z) : fs_t * Z :=
  let entry := log_entry_bytes (inode s k).(id) offset length data_blk in
  let '(s, blk) := alloc_block s in
  if blk =? 0 then (s, - ENOSPC) else write_block s blk (pad_block entry).

(** ** Directories *)

(** The block numbers up to the first 0. *)
Fixpoint used_blocks (l : list Z) : list Z := match l with b :: l => if b =? 0 then [] else b :: used_blocks l | [] => [] end.
(** Entry [i] and the following [n - 1] of a block: the first one with this name. *)
Fixpoint entry_named (n : nat) (p : list Z) (i : Z) (name : list Z) : option Z :=
  match n with
  | O => None
  | S n => if nonzero (de_inode p i) && de_named p i name then Some (de_inode p i) else entry_named n p (i + 1) name
  end.
Fixpoint scan_dir (s : fs_t) (blocks : list Z) (name : list Z) : fs_t * option Z :=
  match blocks with
  | [] => (s, None)
  | b :: blocks =>
      match read_block s b with
      | (s, Some p) =>
          match entry_named (Z.to_nat entries_per_block) p 0 name with Some n => (s, Some n) | None => scan_dir s blocks name end
      | (s, None) => scan_dir s blocks name
      end
  end.
Definition SLASH : Z := 47.
Fixpoint skip_slashes (p : list Z) : list Z := match p with c :: r => if c =? SLASH then skip_slashes r else p | [] => [] end.
(** A component of at most 127 characters, and what follows it. *)
Fixpoint component (p : list Z) (room : nat) : list Z * list Z :=
  match p, room with
  | c :: r, S room => if c =? SLASH then ([], p) else let '(l, q) := component r room in (c :: l, q)
  | _, _ => ([], p)
  end.
Fixpoint walk (fuel : nat) (s : fs_t) (cur : Z) (p : list Z) : outcome (fs_t * option Z) :=
  match skip_slashes p with
  | [] => Ret (s, Some cur)
  | p =>
      match fuel with
      | O => NoFuel
      | S fuel =>
          let '(name, p) := component p 127 in
          if negb (bool_decide ((inode s cur).(type) = AEVOSFS_DIR)) then Ret (s, None) else
          match scan_dir s (used_blocks (inode s cur).(block_list)) name with
          | (s, Some n) => match find_inode s n with Some k => walk fuel s k p | None => Ret (s, None) end
          | (s, None) => Ret (s, None)
          end
      end
  end.
(** Each turn takes at least one character. *)
Definition resolve_path_internal (s : fs_t) (path : list Z) : outcome (fs_t * option Z) :=
  match find_inode s s.(sb).(root_inode) with
  | None => Ret (s, None)
  | Some root => walk (length path) s root path
  end.

Fixpoint free_entry (n : nat) (p : list Z) (i : Z) : option Z :=
  match n with O => None | S n => if de_inode p i =? 0 then Some i else free_entry n p (i + 1) end.
(** The first block of a directory with a free entry gets the new one. *)
Fixpoint add_to_blocks (s : fs_t) (blocks : list Z) (entry : list Z) : fs_t * option Z :=
  match blocks with
  | [] => (s, None)
  | b :: blocks =>
      match read_block s b with
      | (s, Some p) =>
          match free_entry (Z.to_nat entries_per_block) p 0 with
          | Some i => let '(s, rc) := write_block s b (splice p (DIRENT * i) entry) in (s, Some rc)
          | None => add_to_blocks s blocks entry
          end
      | (s, None) => add_to_blocks s blocks entry
      end
  end.
Fixpoint first_zero (l : list Z) (i : Z) : option Z := match l with [] => None | b :: l => if b =? 0 then Some i else first_zero l (i + 1) end.
Definition add_dir_entry (s : fs_t) (parent : Z) (name : list Z) (child : Z) (t : aevosfs_inode_type_t) : fs_t * Z :=
  let entry := dirent_bytes child name t in
  match add_to_blocks s (used_blocks (inode s parent).(block_list)) entry with
  | (s, Some rc) => (s, rc)
  | (s, None) =>
      match first_zero (inode s parent).(block_list) 0 with
      | None => (s, - ENOSPC)
      | Some b =>
          let '(s, blk) := alloc_block s in
          if blk =? 0 then (s, - ENOSPC) else
          let i := inode s parent in
          write_block (set_inode s parent (set_blocks i (i.(block_list).[b <- blk]))) blk (pad_block entry)
      end
  end.

(** ** The interface *)

Definition zero_sb : aevosfs_superblock_t :=
  {| magic := 0; version := 0; block_size := 0; total_blocks := 0; free_blocks := 0; root_inode := 0; log_head := 0; checkpoint_block := 0; reserved := replicate 448 0 |}.
Definition fresh_sb (root : Z) : aevosfs_superblock_t :=
  {| magic := AEVOSFS_MAGIC; version := AEVOSFS_VERSION; block_size := AEVOSFS_BLOCK_SIZE; total_blocks := 65536; free_blocks := 65536 - 2; root_inode := root;
     log_head := 2; checkpoint_block := 0; reserved := replicate 448 0 |}.
(** The superblock in memory stays as it was. *)
Definition aevosfs_init (s : fs_t) (read_fn write_fn : bool) : fs_t * Z :=
  if negb (read_fn && write_fn) then (s, - EINVAL) else
  (with_inodes s (replicate (Z.to_nat AEVOSFS_MAX_INODES) no_inode) 1, 0).
Definition aevosfs_mount (s : fs_t) : fs_t * Z :=
  let '(s, r) := read_block s 0 in
  let s := match r with Some p => with_sb s (superblock_of p) | None => s end in
  if negb (s.(sb).(magic) =? AEVOSFS_MAGIC) then
    let s := with_sb s (fresh_sb 0) in
    match alloc_inode s AEVOSFS_DIR with
    | (s, None) => (s, - ENOMEM)
    | (s, Some k) =>
        let i := inode s k in
        let s := with_sb s (fresh_sb i.(id)) in
        let s := set_inode s k (set_blocks i (i.(block_list).[0 <- 1])) in
        let '(s, _) := write_block s 1 zero_block in
        let '(s, _) := write_block s 0 (pad_block (superblock_bytes s.(sb))) in
        (s, 0)
    end
  else
    match find_inode s s.(sb).(root_inode) with
    | Some _ => (s, 0)
    | None =>
        match alloc_inode s AEVOSFS_DIR with
        | (s, Some k) => (set_inode s k (set_id (inode s k) s.(sb).(root_inode)), 0)
        | (s, None) => (s, 0)
        end
    end.

(** The path of the parent and the name: [strncpy] to an array of [VFS_PATH_MAX] bytes, the
    last slash in it, and at most 127 characters of the name. *)
Fixpoint split_last_slash (s : list Z) : option (list Z * list Z) :=
  match s with
  | [] => None
  | c :: r =>
      match split_last_slash r with
      | Some (l, t) => Some (c :: l, t)
      | None => if c =? SLASH then Some ([], r) else None
      end
  end.
Definition split_path (path : list Z) : option (list Z * list Z) :=
  match split_last_slash (take (Z.to_nat VFS_PATH_MAX - 1) path) with
  | None => None
  | Some ([], _) => Some ([SLASH], take 127 (tail path))
  | Some (l, t) => Some (l, take 127 t)
  end.
Definition aevosfs_create (s : fs_t) (path : option (list Z)) (t : aevosfs_inode_type_t) : outcome (fs_t * Z) :=
  match path with
  | Some (c :: r) =>
      if negb (c =? SLASH) then Ret (s, - EINVAL) else
      match split_path (c :: r) with
      | None => Ret (s, - EINVAL)
      | Some (parent_path, name) =>
          r ← resolve_path_internal s parent_path;
          match r with
          | (s, None) => Ret (s, - ENOENT)
          | (s, Some parent) =>
              if negb (bool_decide ((inode s parent).(type) = AEVOSFS_DIR)) then Ret (s, - ENOENT) else
              match alloc_inode s t with
              | (s, None) => Ret (s, - ENOMEM)
              | (s, Some k) =>
                  let '(s, rc) := add_dir_entry s parent name (inode s k).(id) t in
                  if rc <? 0 then Ret (set_inode s k (set_id (inode s k) 0), rc) else Ret (s, 0)
              end
          end
      end
  | _ => Ret (s, - EINVAL)
  end.

(** The bytes read so far and the result. *)
Fixpoint read_from (fuel : nat) (s : fs_t) (blocks : list Z) (offset size total : Z) (out : list Z) : outcome (fs_t * list Z * Z) :=
  if total <? size then
    match fuel with
    | O => NoFuel
    | S fuel =>
        let pos := u64 (offset + total) in
        let block_idx := pos / AEVOSFS_BLOCK_SIZE in
        let block_offset := pos mod AEVOSFS_BLOCK_SIZE in
        if block_idx >=? AEVOSFS_DIRECT_BLOCKS then Ret (s, out, total) else
        let phys_blk := blocks.[block_idx] in
        if phys_blk =? 0 then Ret (s, out, total) else
        match read_block s phys_blk with
        | (s, None) => Ret (s, out, - EIO)
        | (s, Some p) =>
            let chunk := AEVOSFS_BLOCK_SIZE - block_offset in
            let chunk := if chunk >? size - total then size - total else chunk in
            read_from fuel s blocks offset size (total + chunk) (out ++ sub_list p block_offset chunk)
        end
    end
  else Ret (s, out, total).
(** A file has at most 16 blocks, so that the 17th turn ends. *)
Definition TURNS : nat := 17.
Definition aevosfs_read (s : fs_t) (k : option Z) (offset : Z) (buf : bool) (size : Z) : outcome (fs_t * list Z * Z) :=
  match k, buf with
  | Some k, true =>
      let i := inode s k in
      if offset >=? i.(isize) then Ret (s, [], 0) else
      let remaining := u64 (i.(isize) - offset) in
      read_from TURNS s i.(block_list) offset (if size >? remaining then remaining else size) 0 []
  | _, _ => Ret (s, [], - EINVAL)
  end.

(** The loop of [aevosfs_write] ends with what is written, or returns from the function,
    which leaves the size of the file as it is. *)
Inductive write_end := Done (total : Z) | Returns (rc : Z).
(** A block is allocated if the file has none at [i]. *)
Definition ensure_block (s : fs_t) (k i : Z) : fs_t * bool :=
  if (inode s k).(block_list).[i] =? 0 then
    let '(s, blk) := alloc_block s in
    if blk =? 0 then (s, false) else
    let n := inode s k in (set_inode s k (set_blocks n (n.(block_list).[i <- blk])), true)
  else (s, true).
Fixpoint write_from (fuel : nat) (s : fs_t) (k : Z) (offset : Z) (data : list Z) (total : Z) : outcome (fs_t * write_end) :=
  let size := zlen data in
  if total <? size then
    match fuel with
    | O => NoFuel
    | S fuel =>
        let pos := u64 (offset + total) in
        let block_idx := pos / AEVOSFS_BLOCK_SIZE in
        let block_offset := pos mod AEVOSFS_BLOCK_SIZE in
        if block_idx >=? AEVOSFS_DIRECT_BLOCKS then Ret (s, Returns total) else
        let nospace := Returns (if total >? 0 then total else - ENOSPC) in
        let '(s, ok) := ensure_block s k block_idx in
        if negb ok then Ret (s, nospace) else
        let '(s, old) :=
          if negb (block_offset =? 0) || (size - total <? AEVOSFS_BLOCK_SIZE) then
            match read_block s ((inode s k).(block_list).[block_idx]) with (s, Some p) => (s, p) | (s, None) => (s, zero_block) end
          else (s, zero_block) in
        let chunk := AEVOSFS_BLOCK_SIZE - block_offset in
        let chunk := if chunk >? size - total then size - total else chunk in
        let block_buf := splice old block_offset (sub_list data total chunk) in
        let '(s, new_blk) := alloc_block s in
        if new_blk =? 0 then Ret (s, nospace) else
        let '(s, rc) := write_block s new_blk block_buf in
        if negb (rc =? 0) then Ret (s, Returns (- EIO)) else
        let i := inode s k in
        let s := set_inode s k (set_blocks i (i.(block_list).[block_idx <- new_blk])) in
        let '(s, _) := log_append_write s k (u64 (offset + total)) chunk new_blk in
        write_from fuel s k offset data (total + chunk)
    end
  else Ret (s, Done total).
Definition aevosfs_write (s : fs_t) (k : option Z) (offset : Z) (buf : option (list Z)) : outcome (fs_t * Z) :=
  match k, buf with
  | Some k, Some data =>
      r ← write_from TURNS s k offset data 0;
      match r with
      | (s, Returns rc) => Ret (s, rc)
      | (s, Done total) =>
          let new_end := u64 (offset + total) in
          let i := inode s k in
          Ret (if new_end >? i.(isize) then set_inode s k (set_size i new_end) else s, total)
      end
  | _, _ => Ret (s, - EINVAL)
  end.

(** The entries in use, at most [max] of them. *)
Fixpoint used_entries (n : nat) (p : list Z) (i max : Z) : list (list Z) :=
  match n with
  | O => []
  | S n =>
      if max <=? 0 then [] else
      if nonzero (de_inode p i) then sub_list p (DIRENT * i) DIRENT :: used_entries n p (i + 1) (max - 1)
      else used_entries n p (i + 1) max
  end.
Fixpoint list_blocks (s : fs_t) (blocks : list Z) (max : Z) : fs_t * list (list Z) :=
  match blocks with
  | [] => (s, [])
  | b :: blocks =>
      match read_block s b with
      | (s, Some p) =>
          let l := used_entries (Z.to_nat entries_per_block) p 0 max in
          let '(s, r) := list_blocks s blocks (max - zlen l) in (s, l ++ r)
      | (s, None) => list_blocks s blocks max
      end
  end.
Definition aevosfs_list_dir (s : fs_t) (k : option Z) (entries : bool) (max : Z) : fs_t * list (list Z) * Z :=
  match k with
  | Some k =>
      if negb entries || negb (bool_decide ((inode s k).(type) = AEVOSFS_DIR)) then (s, [], - EINVAL) else
      let '(s, l) := list_blocks s (used_blocks (inode s k).(block_list)) max in (s, l, zlen l)
  | None => (s, [], - EINVAL)
  end.

(** The inodes from [t] on are written to the log, each to a block of its own. *)
Fixpoint write_inodes (s : fs_t) (t : list aevosfs_inode_t) : fs_t * Z :=
  match t with
  | [] => (s, 0)
  | i :: t =>
      if i.(id) =? 0 then write_inodes s t else
      let '(s, blk) := alloc_block s in
      if blk =? 0 then (s, - ENOSPC) else
      let '(s, rc) := write_block s blk (pad_block (inode_bytes i)) in
      if negb (rc =? 0) then (s, - EIO) else write_inodes s t
  end.
Definition aevosfs_checkpoint (s : fs_t) : fs_t * Z :=
  let '(s, rc) := write_inodes s s.(inode_table) in
  if negb (rc =? 0) then (s, rc) else
  let b := s.(sb) in
  let s := with_sb s (set_log b b.(free_blocks) b.(log_head) b.(log_head)) in
  write_block s 0 (pad_block (superblock_bytes s.(sb))).

(** ** The bridge to the virtual file system

    The private data of a node is the inode. *)

Definition aevosfs_vfs_read (s : fs_t) (fs_data : option Z) (offset : Z) (buf : bool) (size : Z) : outcome (fs_t * list Z * Z) :=
  match fs_data with Some k => aevosfs_read s (Some k) offset buf size | None => Ret (s, [], - EINVAL) end.
Definition aevosfs_vfs_write (s : fs_t) (fs_data : option Z) (offset : Z) (buf : option (list Z)) : outcome (fs_t * Z) :=
  match fs_data with Some k => aevosfs_write s (Some k) offset buf | None => Ret (s, - EINVAL) end.
Record vfs_dirent := { d_name : list Z; d_dir : bool; d_inode : Z; d_size : Z }.
Definition dirent_of (s : fs_t) (e : list Z) : vfs_dirent :=
  let n := word_at e 0 8 in
  {| d_name := take 127 (cstr (drop 8 e)); d_dir := word_at e 136 4 =? type_code AEVOSFS_DIR; d_inode := n;
     d_size := match find_inode s n with Some k => (inode s k).(isize) | None => 0 end |}.
(** [kmalloc] gives a buffer or not. *)
Definition aevosfs_vfs_readdir (s : fs_t) (fs_data : option Z) (kmalloc : bool) (max : Z) : fs_t * list vfs_dirent * Z :=
  match fs_data with
  | None => (s, [], - EINVAL)
  | Some k =>
      if negb kmalloc then (s, [], - ENOMEM) else
      let '(s, l, n) := aevosfs_list_dir s (Some k) true max in (s, map (dirent_of s) l, n)
  end.
Record vfs_stat_t := { st_dir : bool; st_size : Z; st_permissions : Z; st_inode : Z }.
Definition aevosfs_vfs_stat (s : fs_t) (fs_data : option Z) : option vfs_stat_t * Z :=
  match fs_data with
  | None => (None, - EINVAL)
  | Some k =>
      let i := inode s k in
      (Some {| st_dir := bool_decide (i.(type) = AEVOSFS_DIR); st_size := i.(isize); st_permissions := i.(permissions); st_inode := i.(id) |}, 0)
  end.
Definition aevosfs_vfs_open (flags : Z) : Z := 0.
Definition aevosfs_vfs_close : Z := 0.
Definition aevosfs_vfs_mkdir (name : list Z) : Z := 0.
End device.

Definition AEVOSFS_FEAT_JOURNAL_META : Z := 1.
Definition AEVOSFS_FEAT_COW_BLOCKS : Z := 2.
Definition g_aevosfs_features : Z := AEVOSFS_FEAT_JOURNAL_META.
Definition aevosfs_feature_flags : Z := g_aevosfs_features.
Definition aevosfs_journal_stage_meta (reason : option (list Z)) : Z := 0.
Definition aevosfs_cow_blocks_enabled : bool := nonzero (Z.land g_aevosfs_features AEVOSFS_FEAT_COW_BLOCKS).

(** * The storage invariant *)

Definition blk (s : fs_t) (k i : Z) : Z := (inode s k).(block_list).[i].
Definition inode_index (k : Z) : Prop := 0 ≤ k < AEVOSFS_MAX_INODES.
Definition block_index (i : Z) : Prop := 0 ≤ i < AEVOSFS_DIRECT_BLOCKS.
Definition head (s : fs_t) : Z := s.(sb).(log_head).
Definition free (s : fs_t) : Z := s.(sb).(free_blocks).

(** Blocks in use lie below the head of the log and have one owner; the device is clean
    from the head on. *)
Record fs_inv (s : fs_t) : Prop := {
  iv_table : zlen s.(inode_table) = AEVOSFS_MAX_INODES ∧ Forall (λ i, zlen i.(block_list) = AEVOSFS_DIRECT_BLOCKS) s.(inode_table);
  iv_head : 2 ≤ head s ∧ 0 ≤ free s ∧ head s + free s < 2 ^ 63 ∧ zlen s.(sb).(reserved) = 448;
  iv_blk : ∀ k i, inode_index k → block_index i → blk s k i = 0 ∨ 1 ≤ blk s k i < head s;
  iv_owner : ∀ k i k' i', inode_index k → block_index i → inode_index k' → block_index i' → blk s k i ≠ 0 → blk s k i = blk s k' i' → k = k' ∧ i = i';
  iv_disk : ∀ b, zlen (s.(disk) b) = AEVOSFS_BLOCK_SIZE;
  iv_clean : ∀ b, head s ≤ b → s.(disk) b = zero_block }.

(** ** Files

    The bytes of an inode by their position; bytes of blocks that it does not have are 0. *)

Record file := { f_size : Z; f_present : Z → bool; f_data : Z → Z }.
Definition byte_at (s : fs_t) (k p : Z) : Z :=
  let b := blk s k (p / AEVOSFS_BLOCK_SIZE) in if b =? 0 then 0 else (s.(disk) b).[p mod AEVOSFS_BLOCK_SIZE].
Definition MAX_FILE : Z := 65536.
Record represents (s : fs_t) (k : Z) (f : file) : Prop := {
  rp_size : (inode s k).(isize) = f_size f;
  rp_present : ∀ i, block_index i → f_present f i = negb (blk s k i =? 0);
  rp_data : ∀ p, 0 ≤ p < MAX_FILE → byte_at s k p = f_data f p }.
Definition all_represent (s : fs_t) (F : Z → file) : Prop := ∀ k, inode_index k → represents s k (F k).

Lemma zero_block_len : zlen zero_block = AEVOSFS_BLOCK_SIZE.
Proof. done. Qed.
Lemma zero_block_get i : 0 ≤ i < AEVOSFS_BLOCK_SIZE → zero_block.[i] = 0.
Proof. intros Hi. change zero_block with (replicate 4096 0). apply aget_replicate. unfold AEVOSFS_BLOCK_SIZE in Hi. lia. Qed.
Lemma pad_block_len l : zlen l ≤ AEVOSFS_BLOCK_SIZE → zlen (pad_block l) = AEVOSFS_BLOCK_SIZE.
Proof. unfold zlen, pad_block, AEVOSFS_BLOCK_SIZE. intros Hl. rewrite length_app, length_replicate. lia. Qed.
Lemma block_pos p : 0 ≤ p < MAX_FILE → block_index (p / AEVOSFS_BLOCK_SIZE) ∧ 0 ≤ p mod AEVOSFS_BLOCK_SIZE < AEVOSFS_BLOCK_SIZE.
Proof. unfold MAX_FILE, block_index, AEVOSFS_BLOCK_SIZE, AEVOSFS_DIRECT_BLOCKS. intros Hp. div_lia. Qed.

Lemma inode_set s k j i : fs_inv s → inode_index k → inode_index j → inode (set_inode s k i) j = if decide (j = k) then i else inode s j.
Proof.
  intros Hs Hk Hj. unfold inode, set_inode. cbn [with_inodes inode_table]. destruct (iv_table _ Hs) as [Hl _]. unfold inode_index in *.
  case_decide as E; [subst; apply aget_aset_eq; lia|apply aget_aset_ne; lia].
Qed.
Lemma inode_blocks s k : fs_inv s → inode_index k → zlen (inode s k).(block_list) = AEVOSFS_DIRECT_BLOCKS.
Proof. intros Hs Hk. destruct (iv_table _ Hs) as [Hl Hf]. apply (Forall_aget (λ i, zlen (block_list i) = AEVOSFS_DIRECT_BLOCKS)); [done|]. unfold inode_index in Hk. lia. Qed.
Lemma blk_set s k i b j i' : fs_inv s → inode_index k → block_index i → inode_index j → block_index i' →
  blk (set_inode s k (set_blocks (inode s k) ((inode s k).(block_list).[i <- b]))) j i' = if decide (j = k ∧ i' = i) then b else blk s j i'.
Proof.
  intros Hs Hk Hi Hj Hi'. pose proof (inode_blocks s k Hs Hk) as Hl. unfold block_index in *. unfold blk. rewrite inode_set by done.
  destruct (decide (j = k)) as [->|Hn]; [|by rewrite decide_False by naive_solver]. cbn [set_blocks block_list].
  destruct (decide (i' = i)) as [->|Hn]; [rewrite decide_True by done; apply aget_aset_eq; lia|].
  rewrite decide_False by naive_solver. apply aget_aset_ne; lia.
Qed.

(** What the files are depends on the blocks and the inodes only. *)
Lemma represents_ext s s' F : s'.(disk) = s.(disk) → s'.(inode_table) = s.(inode_table) → all_represent s F → all_represent s' F.
Proof.
  intros Ed Et HF k Hk. destruct (HF k Hk) as [Hs Hp Hd]. assert (∀ i, blk s' k i = blk s k i) as Eb by (intros; unfold blk, inode; by rewrite Et).
  split; [unfold inode; by rewrite Et|intros i Hi; by rewrite Eb, Hp|]. intros p Hp'. unfold byte_at. rewrite Eb, Ed. by apply Hd.
Qed.

(** ** Steps of the log *)

Section steps.
Context (dev_ok : nat → bool).

Lemma alloc_spec s : fs_inv s → 0 < free s →
  let s' := (alloc_block s).1 in
  (alloc_block s).2 = head s ∧ fs_inv s' ∧ head s' = head s + 1 ∧ free s' = free s - 1 ∧ s'.(disk) = s.(disk) ∧ s'.(inode_table) = s.(inode_table) ∧ s'.(io) = s.(io).
Proof.
  intros [Ht Hh Hb Ho Hd Hc] Hf. unfold alloc_block. unfold free, head in *. rewrite (proj2 (Z.eqb_neq _ 0)) by lia. cbn [fst snd].
  rewrite !wrap_id by lia. split; [done|]. split; [|done]. split; try done; unfold head, free; cbn [with_sb sb set_log log_head free_blocks disk]; [destruct Hh as (? & ? & ? & ?); cbn [reserved]; repeat split; lia || done| |].
  - intros k i Hk Hi. destruct (Hb k i Hk Hi); [by left|right]. change (blk (with_sb s _) k i) with (blk s k i). lia.
  - intros b Hlt. apply Hc. lia.
Qed.

(** A write to a block that no inode owns. *)
Definition unowned (s : fs_t) (b : Z) : Prop := ∀ k i, inode_index k → block_index i → blk s k i = 0 ∨ blk s k i ≠ b.
Lemma write_unowned s b l F : fs_inv s → all_represent s F → unowned s b → b < head s → zlen l = AEVOSFS_BLOCK_SIZE →
  let s' := (write_block dev_ok s b l).1 in
  fs_inv s' ∧ all_represent s' F ∧ s'.(sb) = s.(sb) ∧ s'.(inode_table) = s.(inode_table) ∧ (dev_ok s.(io) = true → s'.(disk) b = l).
Proof.
  intros [Ht Hh Hb Ho Hd Hc] HF Hu Hlt Hl. unfold write_block. destruct (dev_ok (io s)); cbn [fst]; [|split; [by split|split; [by apply (represents_ext s)|done]]].
  split; [|split; [|split; [done|split; [done|intros _; apply fn_lookup_insert]]]].
  - split; try done; cbn [with_io disk].
    + intros b'. destruct (decide (b = b')) as [->|Hn]; [by rewrite fn_lookup_insert|by rewrite fn_lookup_insert_ne].
    + intros b' Hb'. change (head _) with (head s) in Hb'. rewrite fn_lookup_insert_ne by lia. by apply Hc.
  - intros k Hk. destruct (HF k Hk) as [Hsz Hpr Hda]. split; [done|done|]. intros p Hp. rewrite <- Hda by done. unfold byte_at.
    change (blk (with_io _ _) k ?i) with (blk s k i). destruct (block_pos p Hp) as [Hi _].
    destruct (Z.eqb_spec (blk s k (p / AEVOSFS_BLOCK_SIZE)) 0) as [|Hnz]; [done|]. cbn [with_io disk].
    destruct (Hu k _ Hk Hi); [done|]. by rewrite fn_lookup_insert_ne.
Qed.
End steps.

(** ** The abstract files

    A read ends before the first block that the file does not have; a write stops after
    16 blocks, and the size is then not adjusted. *)

Module spec.
Definition put (f : file) (offset : Z) (l : list Z) : file :=
  {| f_size := f_size f;
     f_present i := f_present f i || (offset / AEVOSFS_BLOCK_SIZE <=? i) && (AEVOSFS_BLOCK_SIZE * i <? offset + zlen l);
     f_data p := if (offset <=? p) && (p <? offset + zlen l) then l.[p - offset] else f_data f p |}.
Definition resize (f : file) (n : Z) : file := {| f_size := n; f_present := f_present f; f_data := f_data f |}.
Definition write (f : file) (offset : Z) (d : list Z) : file * Z :=
  let n := Z.min (zlen d) (Z.max 0 (MAX_FILE - offset)) in
  let f := if 0 <? n then put f offset (take (Z.to_nat n) d) else f in
  (if n =? zlen d then resize f (Z.max (f_size f) (offset + n)) else f, n).
Fixpoint extent (n : nat) (present : Z → bool) (i : Z) : Z :=
  match n with O => 0 | S n => if present i then 1 + extent n present (i + 1) else 0 end.
Definition readable (f : file) (p : Z) : Z :=
  let i := p / AEVOSFS_BLOCK_SIZE in
  Z.max 0 (AEVOSFS_BLOCK_SIZE * (i + extent (Z.to_nat (AEVOSFS_DIRECT_BLOCKS - i)) (f_present f) i) - p).
Definition read (f : file) (offset size : Z) : list Z :=
  if offset >=? f_size f then [] else map (f_data f) (seqZ offset (Z.min (Z.min size (f_size f - offset)) (readable f offset))).
End spec.

Definition same_file (f g : file) : Prop :=
  f_size f = f_size g ∧ (∀ i, block_index i → f_present f i = f_present g i) ∧ (∀ p, 0 ≤ p < MAX_FILE → f_data f p = f_data g p).
Lemma represents_same s k f g : represents s k f → same_file f g → represents s k g.
Proof. intros [Hs Hp Hd] (E1 & E2 & E3). split; [by rewrite Hs|intros i Hi; by rewrite <- E2, Hp|intros p Hp'; by rewrite <- E3, Hd]. Qed.
Lemma all_represent_same s F k g : all_represent s F → inode_index k → same_file (F k) g → all_represent s (<[k := g]> F).
Proof.
  intros HF Hk Hg j Hj. destruct (decide (k = j)) as [->|Hn]; [rewrite fn_lookup_insert; by eapply represents_same; [apply HF|]|rewrite fn_lookup_insert_ne by done; by apply HF].
Qed.

Section write.
Context (dev_ok : nat → bool).

Lemma unowned_new s b : fs_inv s → head s ≤ b → unowned s b.
Proof. intros Hs Hb k i Hk Hi. destruct (iv_blk _ Hs k i Hk Hi); [by left|right; lia]. Qed.
Lemma unowned_ext s s' b : s'.(inode_table) = s.(inode_table) → unowned s b → unowned s' b.
Proof. intros Et Hu k i Hk Hi. specialize (Hu k i Hk Hi). unfold blk, inode in *. by rewrite Et. Qed.

(** A block is given to an inode. *)
Definition assigned (s : fs_t) (k i b : Z) : fs_t := set_inode s k (set_blocks (inode s k) ((inode s k).(block_list).[i <- b])).
Definition with_block (s : fs_t) (f : file) (i b : Z) : file :=
  {| f_size := f_size f; f_present j := (j =? i) || f_present f j;
     f_data p := if p / AEVOSFS_BLOCK_SIZE =? i then (s.(disk) b).[p mod AEVOSFS_BLOCK_SIZE] else f_data f p |}.
Lemma assign_spec s k i b F : fs_inv s → all_represent s F → inode_index k → block_index i → unowned s b → 1 ≤ b < head s →
  fs_inv (assigned s k i b) ∧ all_represent (assigned s k i b) (<[k := with_block s (F k) i b]> F) ∧ blk (assigned s k i b) k i = b.
Proof.
  intros Hs HF Hk Hi Hu Hb. pose proof (λ j i', blk_set s k i b j i' Hs Hk Hi) as Hblk. fold (assigned s k i b) in Hblk. split; [|split].
  - destruct Hs as [[Hl Ht] Hh Hbl Ho Hd Hc]. split; try done.
    + unfold assigned, set_inode. cbn [with_inodes inode_table]. rewrite zlen_aset. split; [done|]. apply Forall_aset; [done|]. cbn [set_blocks block_list].
      rewrite zlen_aset. apply (Forall_aget (λ i, zlen (block_list i) = AEVOSFS_DIRECT_BLOCKS)); [done|]. unfold inode_index in Hk. lia.
    + intros k' i' Hk' Hi'. rewrite Hblk by done. case_decide; [by right|by apply Hbl].
    + intros k1 i1 k2 i2 H1 H2 H3 H4. rewrite !Hblk by done. case_decide as E1; case_decide as E2; [naive_solver|..|by apply Ho].
      * intros _ E. destruct (Hu k2 i2 H3 H4); lia.
      * intros Hn E. destruct (Hu k1 i1 H1 H2); lia.
  - intros j Hj. destruct (decide (k = j)) as [<-|Hn].
    + rewrite fn_lookup_insert. destruct (HF k Hk) as [Hsz Hpr Hda]. split; cbn [with_block f_size f_present f_data].
      * unfold assigned. rewrite inode_set by done. by rewrite decide_True.
      * intros j Hj'. rewrite Hblk, Hpr by done. destruct (decide (k = k ∧ j = i)) as [[_ ->]|Hn].
        -- rewrite Z.eqb_refl, (proj2 (Z.eqb_neq b 0)) by lia. done.
        -- rewrite (proj2 (Z.eqb_neq j i)) by naive_solver. done.
      * intros p Hp. destruct (block_pos p Hp) as [Hpi _]. rewrite <- Hda by done. unfold byte_at. rewrite Hblk by done. change (disk (assigned _ _ _ _)) with (disk s).
        destruct (decide (k = k ∧ p / AEVOSFS_BLOCK_SIZE = i)) as [[_ ->]|Hn]; [rewrite Z.eqb_refl, (proj2 (Z.eqb_neq b 0)) by lia; done|].
        by rewrite (proj2 (Z.eqb_neq _ i)) by naive_solver.
    + rewrite fn_lookup_insert_ne by done. destruct (HF j Hj) as [Hsz Hpr Hda]. split.
      * unfold assigned. rewrite inode_set by done. by rewrite decide_False by done.
      * intros i' Hi'. rewrite Hblk by done. rewrite decide_False by naive_solver. by apply Hpr.
      * intros p Hp. destruct (block_pos p Hp) as [Hpi _]. rewrite <- Hda by done. unfold byte_at. rewrite Hblk by done. by rewrite decide_False by naive_solver.
  - by rewrite Hblk, decide_True by done.
Qed.
End write.

(** ** A chunk of a write *)

Section chunk.
Context (dev_ok : nat → bool) (Hok : ∀ n, dev_ok n = true).
Local Notation alloc := (alloc_block).

Lemma read_block_ok s b : read_block dev_ok s b = (with_io s s.(disk), Some (s.(disk) b)).
Proof. unfold read_block. by rewrite Hok. Qed.
Lemma write_block_ok s b l : write_block dev_ok s b l = (with_io s (<[b := l]> s.(disk)), 0).
Proof. unfold write_block. by rewrite Hok. Qed.
Lemma alloc_ok s F : fs_inv s → all_represent s F → 0 < free s →
  ∃ s', alloc_block s = (s', head s) ∧ fs_inv s' ∧ all_represent s' F ∧ head s' = head s + 1 ∧ free s' = free s - 1 ∧
    s'.(disk) = s.(disk) ∧ s'.(inode_table) = s.(inode_table) ∧ unowned s' (head s).
Proof.
  intros Hs HF Hf. pose proof (alloc_spec s Hs Hf) as (E & Hi & Hh & Hfr & Hd & Ht & _). destruct (alloc_block s) as [s' b]. cbn [fst snd] in *. subst b.
  exists s'. split; [done|]. split; [done|]. split; [by apply (represents_ext s)|]. do 4 (split; [done|]). apply (unowned_ext s); [done|]. by apply unowned_new.
Qed.
Lemma write_ok s b l F : fs_inv s → all_represent s F → unowned s b → b < head s → zlen l = AEVOSFS_BLOCK_SIZE →
  ∃ s', write_block dev_ok s b l = (s', 0) ∧ fs_inv s' ∧ all_represent s' F ∧ head s' = head s ∧ free s' = free s ∧
    s'.(disk) b = l ∧ s'.(inode_table) = s.(inode_table) ∧ unowned s' b.
Proof.
  intros Hs HF Hu Hb Hl. pose proof (write_unowned dev_ok s b l F Hs HF Hu Hb Hl) as (Hi & HF' & Esb & Et & Ed). specialize (Ed (Hok _)).
  rewrite write_block_ok in *. cbn [fst] in *. eexists. split; [reflexivity|]. do 2 (split; [done|]). do 4 (split; [done|]). by apply (unowned_ext s).
Qed.

(** The first half of a turn: the file has a block at [i], clean if it is new. *)
Definition present_at (f : file) (i : Z) : file := {| f_size := f_size f; f_present j := (j =? i) || f_present f j; f_data := f_data f |}.
Lemma ensure_block_spec s k i F : fs_inv s → all_represent s F → inode_index k → block_index i → 0 < free s →
  ∃ s', ensure_block s k i = (s', true) ∧ fs_inv s' ∧ all_represent s' (<[k := present_at (F k) i]> F) ∧ free s - 1 ≤ free s' ∧ blk s' k i ≠ 0.
Proof.
  intros Hs HF Hk Hi Hf. unfold ensure_block. fold (blk s k i). destruct (Z.eqb_spec (blk s k i) 0) as [E0|Hn].
  - destruct (alloc_ok s F Hs HF Hf) as (s1 & E1 & Hs1 & HF1 & Hh1 & Hf1 & Hd1 & Ht1 & Hu1). rewrite E1. destruct (iv_head _ Hs) as [Hh _].
    rewrite (proj2 (Z.eqb_neq (head s) 0)) by lia. destruct (assign_spec s1 k i (head s) F Hs1 HF1 Hk Hi Hu1 ltac:(lia)) as (Ha & HFa & Eb).
    exists (assigned s1 k i (head s)). split; [reflexivity|]. split; [done|]. split; [|split; [change (free (assigned s1 k i (head s))) with (free s1); lia|rewrite Eb; lia]].
    intros j Hj. specialize (HFa j Hj). destruct (decide (k = j)) as [<-|Hne]; [|by rewrite fn_lookup_insert_ne in * by done]. rewrite fn_lookup_insert in *.
    eapply represents_same; [done|]. split; [done|]. split; [done|]. intros p Hp. cbn [with_block present_at f_data]. destruct (Z.eqb_spec (p / AEVOSFS_BLOCK_SIZE) i) as [E|]; [|done].
    rewrite Hd1, (iv_clean _ Hs) by lia. destruct (block_pos p Hp) as [_ Hm]. rewrite zero_block_get by done.
    rewrite <- (rp_data _ _ _ (HF k Hk) p Hp). unfold byte_at. by rewrite E, E0.
  - exists s. split; [done|]. split; [done|]. split; [|split; [lia|done]]. apply all_represent_same; [done..|]. split; [done|]. split; [|done]. intros j Hj. cbn.
    destruct (Z.eqb_spec j i) as [->|]; [|done]. rewrite (rp_present _ _ _ (HF k Hk)) by done. by rewrite (proj2 (Z.eqb_neq _ 0)).
Qed.

(** The second half: the block is replaced by [l], and the log gets an entry. *)
Definition replace (s : fs_t) (k i offset chunk : Z) (l : list Z) : option fs_t :=
  let '(s, b) := alloc_block s in
  if b =? 0 then None else
  let '(s, rc) := write_block dev_ok s b l in
  if negb (rc =? 0) then None else
  Some (log_append_write dev_ok (assigned s k i b) k offset chunk b).1.
Definition replace_at (f : file) (i : Z) (l : list Z) : file :=
  {| f_size := f_size f; f_present j := (j =? i) || f_present f j; f_data p := if p / AEVOSFS_BLOCK_SIZE =? i then l.[p mod AEVOSFS_BLOCK_SIZE] else f_data f p |}.
Lemma log_entry_len n o c b : zlen (log_entry_bytes n o c b) = 37.
Proof. unfold log_entry_bytes, zlen. by rewrite !length_app, !length_le_bytes. Qed.
Lemma log_spec s F k offset chunk b : fs_inv s → all_represent s F → 0 < free s →
  let s' := (log_append_write dev_ok s k offset chunk b).1 in fs_inv s' ∧ all_represent s' F ∧ free s' = free s - 1.
Proof.
  intros Hs HF Hf. unfold log_append_write. destruct (alloc_ok s F Hs HF Hf) as (s1 & E1 & Hs1 & HF1 & Hh1 & Hf1 & _ & _ & Hu1). rewrite E1.
  destruct (iv_head _ Hs) as [Hh _]. rewrite (proj2 (Z.eqb_neq (head s) 0)) by lia.
  destruct (write_ok s1 (head s) (pad_block (log_entry_bytes (id (inode s k)) offset chunk b)) F Hs1 HF1 Hu1 ltac:(lia)) as (s2 & E2 & Hs2 & HF2 & _ & Hf2 & _).
  { apply pad_block_len. rewrite log_entry_len. done. }
  rewrite E2. cbn [fst]. split; [done|]. split; [done|]. lia.
Qed.
Lemma replace_spec s k i offset chunk l F : fs_inv s → all_represent s F → inode_index k → block_index i → 2 ≤ free s → zlen l = AEVOSFS_BLOCK_SIZE →
  ∃ s', replace s k i offset chunk l = Some s' ∧ fs_inv s' ∧ all_represent s' (<[k := replace_at (F k) i l]> F) ∧ free s' = free s - 2.
Proof.
  intros Hs HF Hk Hi Hf Hl. unfold replace. destruct (alloc_ok s F Hs HF ltac:(lia)) as (s1 & E1 & Hs1 & HF1 & Hh1 & Hf1 & _ & _ & Hu1). rewrite E1.
  destruct (iv_head _ Hs) as [Hh _]. rewrite (proj2 (Z.eqb_neq (head s) 0)) by lia.
  destruct (write_ok s1 (head s) l F Hs1 HF1 Hu1 ltac:(lia) Hl) as (s2 & E2 & Hs2 & HF2 & Hh2 & Hf2 & Hd2 & _ & Hu2). rewrite E2. cbn [negb Z.eqb].
  destruct (assign_spec s2 k i (head s) F Hs2 HF2 Hk Hi Hu2 ltac:(lia)) as (Ha & HFa & _).
  destruct (log_spec (assigned s2 k i (head s)) _ k offset chunk (head s) Ha HFa) as (H3 & HF3 & Hf3); [change (0 < free s2); lia|].
  eexists. split; [reflexivity|]. split; [done|]. split; [|rewrite Hf3; change (free (assigned s2 k i (head s))) with (free s2); lia].
  intros j Hj. specialize (HF3 j Hj). destruct (decide (k = j)) as [<-|Hne]; [|by rewrite fn_lookup_insert_ne in * by done]. rewrite fn_lookup_insert in *.
  eapply represents_same; [done|]. split; [done|]. split; [done|]. intros p Hp. cbn [with_block replace_at f_data]. by rewrite Hd2.
Qed.

Lemma byte_at_block s k p i : p / 4096 = i → blk s k i ≠ 0 → byte_at s k p = (s.(disk) (blk s k i)).[p mod 4096].
Proof. intros <- Hn. unfold byte_at, AEVOSFS_BLOCK_SIZE. by rewrite (proj2 (Z.eqb_neq _ 0)). Qed.
(** Replacing a block by one that differs in a chunk is writing the chunk. *)
Lemma replace_is_put f i off old l pos : pos = 4096 * i + off → 0 ≤ i → 0 ≤ off → 0 < zlen l → off + zlen l ≤ 4096 → zlen old = 4096 →
  (∀ p, 0 ≤ p < MAX_FILE → p / 4096 = i → p < pos ∨ pos + zlen l ≤ p → old.[p mod 4096] = f_data f p) →
  same_file (replace_at (present_at f i) i (splice old off l)) (spec.put f pos l).
Proof.
  intros Hpos Hi Ho Hl Hol Hold Hd. assert (pos / 4096 = i) as Ei by (symmetry; apply (Z.div_unique_pos _ _ _ off); lia). split; [done|]. split.
  - intros j Hj. cbn. unfold AEVOSFS_BLOCK_SIZE. rewrite Ei. destruct (Z.eqb_spec j i) as [->|Hn].
    + cbn. rewrite (proj2 (Z.leb_le i i)), (proj2 (Z.ltb_lt _ _)) by lia. by rewrite orb_true_r.
    + assert ((i <=? j) && (4096 * j <? pos + zlen l) = false) as ->; [|by rewrite orb_false_r]. destruct (Z.leb_spec i j); [|done]. apply Z.ltb_ge. lia.
  - intros p Hp. cbn. unfold AEVOSFS_BLOCK_SIZE in *. pose proof (Z.div_mod p 4096 ltac:(lia)). pose proof (Z.mod_pos_bound p 4096 ltac:(lia)).
    destruct (Z.eqb_spec (p / 4096) i) as [Ep|Hn].
    + rewrite Ep in *. destruct (decide (pos ≤ p < pos + zlen l)).
      * rewrite (proj2 (Z.leb_le pos p)), (proj2 (Z.ltb_lt p _)) by lia. cbn. replace (p mod 4096) with (off + (p - pos)) by lia. apply splice_in; lia.
      * assert ((pos <=? p) && (p <? pos + zlen l) = false) as -> by (destruct (Z.leb_spec pos p); [apply Z.ltb_ge; lia|done]).
        rewrite splice_out by lia. apply Hd; done || lia.
    + assert ((pos <=? p) && (p <? pos + zlen l) = false) as ->; [|done]. destruct (Z.leb_spec pos p), (Z.ltb_spec p (pos + zlen l)); try done. exfalso. apply Hn.
      symmetry. apply (Z.div_unique_pos _ _ _ (p - 4096 * i)); lia.
Qed.
(** One turn of the loop writes one chunk. *)
Lemma write_turn s k F offset d t fuel : fs_inv s → all_represent s F → inode_index k → 3 ≤ free s → 0 ≤ t < zlen d → 0 ≤ offset → offset + t < MAX_FILE →
  let pos := offset + t in let chunk := Z.min (AEVOSFS_BLOCK_SIZE - pos mod AEVOSFS_BLOCK_SIZE) (zlen d - t) in
  ∃ s', write_from dev_ok (S fuel) s k offset d t = write_from dev_ok fuel s' k offset d (t + chunk) ∧
    fs_inv s' ∧ all_represent s' (<[k := spec.put (F k) pos (sub_list d t chunk)]> F) ∧ free s - 3 ≤ free s'.
Proof.
  intros Hs HF Hk Hf Ht Ho Hpos pos chunk. destruct (block_pos pos ltac:(unfold pos; lia)) as [Hi Hm]. unfold MAX_FILE, AEVOSFS_BLOCK_SIZE in *.
  cbn [write_from]. rewrite (proj2 (Z.ltb_lt t (zlen d))) by lia. rewrite (wrap_id 64 (offset + t)) by (fold pos; lia). fold pos. cbv zeta.
  unfold AEVOSFS_BLOCK_SIZE. rewrite geb_lt by (unfold block_index in Hi; lia). set (i := pos / 4096) in *. set (off := pos mod 4096) in *.
  destruct (ensure_block_spec s k i F Hs HF Hk Hi ltac:(lia)) as (s1 & E1 & Hs1 & HF1 & Hf1 & Hn1). rewrite E1. cbn [negb].
  assert ((if 4096 - off >? zlen d - t then zlen d - t else 4096 - off) = chunk) as -> by (unfold chunk; destruct (Z.gtb_spec (4096 - off) (zlen d - t)); lia).
  assert (0 < chunk ∧ off + chunk ≤ 4096 ∧ t + chunk ≤ zlen d) as Hc by (unfold chunk; lia).
  assert (zlen (sub_list d t chunk) = chunk) as Hzl by (apply zlen_sub_list; lia).
  assert (∃ s2 old, (if negb (off =? 0) || (zlen d - t <? 4096)
     then match read_block dev_ok s1 (block_list (inode s1 k)).[i] with (s, Some p) => (s, p) | (s, None) => (s, zero_block) end else (s1, zero_block)) = (s2, old) ∧
     s2.(disk) = s1.(disk) ∧ s2.(sb) = s1.(sb) ∧ s2.(inode_table) = s1.(inode_table) ∧ zlen old = 4096 ∧
     (old = s1.(disk) (blk s1 k i) ∨ off = 0 ∧ chunk = 4096)) as (s2 & old & -> & Ed2 & Esb2 & Et2 & Hol & Hold).
  { destruct (Z.eqb_spec off 0) as [E0|]; [destruct (Z.ltb_spec (zlen d - t) 4096)|]; cbn [negb orb]; rewrite ?read_block_ok; eexists _, _; (split; [reflexivity|]); do 3 (split; [done|]).
    - split; [apply (iv_disk _ Hs1)|by left].
    - split; [done|]. right. unfold chunk. lia.
    - split; [apply (iv_disk _ Hs1)|by left]. }
  assert (fs_inv s2) as Hs2.
  { destruct Hs1 as [Ha Hb Hc1 Hd1 He1 Hf1']. assert (∀ k i, blk s2 k i = blk s1 k i) as Eb by (intros; unfold blk, inode; by rewrite Et2).
    split; unfold head, free; rewrite ?Et2, ?Esb2, ?Ed2; try done; intros *; rewrite !Eb; [apply Hc1|apply Hd1]. }
  pose proof (represents_ext s1 s2 _ Ed2 Et2 HF1) as HF2. assert (free s2 = free s1) as Efr by (unfold free; by rewrite Esb2).
  set (l := splice old off (sub_list d t chunk)). assert (zlen l = 4096) as Hl by (unfold l; rewrite zlen_splice; lia).
  destruct (replace_spec s2 k i (u64 pos) chunk l _ Hs2 HF2 Hk Hi ltac:(lia) Hl) as (s3 & E3 & Hs3 & HF3 & Hf3).
  rewrite (wrap_id 64 pos) in E3 by lia. unfold replace in E3. destruct (alloc_block s2) as [s2a b]. destruct (b =? 0); [done|].
  destruct (write_block dev_ok s2a b l) as [s2b rc]. destruct (negb (rc =? 0)); [done|]. unfold assigned in E3.
  destruct (log_append_write _ _ _ _ _ _) as [s2c rc']. cbn [fst] in E3. injection E3 as <-. exists s2c.
  split; [done|]. split; [done|]. split; [|lia]. rewrite fn_lookup_insert in HF3.
  intros j Hj. specialize (HF3 j Hj). destruct (decide (k = j)) as [<-|Hne]; [|by rewrite !fn_lookup_insert_ne in * by done]. rewrite !fn_lookup_insert in *.
  eapply represents_same; [done|]. pose proof (Z.div_mod pos 4096 ltac:(lia)) as Hdm. fold i off in Hdm. destruct Hi as [Hi0 _].
  apply replace_is_put; rewrite ?Hzl; [done|lia..|done|]. intros p Hp Ep Hout.
  destruct Hold as [->|[E0 E4]]; [|pose proof (Z.div_mod p 4096); pose proof (Z.mod_pos_bound p 4096); lia].
  pose proof (rp_data _ _ _ (HF1 k Hk) p Hp) as Hda. rewrite fn_lookup_insert in Hda. by rewrite (byte_at_block s1 k p i Ep Hn1) in Hda.
Qed.

(** ** Writes *)

Lemma put_put f pos l1 l2 : 0 ≤ pos → 0 < zlen l1 → same_file (spec.put (spec.put f pos l1) (pos + zlen l1) l2) (spec.put f pos (l1 ++ l2)).
Proof.
  intros Hp Hl. pose proof (zlen_app l1 l2) as Ha. pose proof (zlen_nonneg l2). split; [done|]. split.
  - intros i _. cbn. rewrite Ha. unfold AEVOSFS_BLOCK_SIZE.
    rewrite <- orb_assoc. f_equal. pose proof (Z.div_le_mono pos (pos + zlen l1) 4096 ltac:(lia) ltac:(lia)). pose proof (Z.mul_div_le (pos + zlen l1) 4096 ltac:(lia)).
    apply eq_true_iff_eq. rewrite !orb_true_iff, !andb_true_iff, !Z.leb_le, !Z.ltb_lt. split; [intros [|]; lia|]. intros [Ha1 Ha2].
    destruct (decide (4096 * i < pos + zlen l1)); [left; lia|right; split; [|lia]]. apply Z.div_le_upper_bound; lia.
  - intros p _. cbn. rewrite Ha, Z.add_assoc. destruct (Z.leb_spec pos p); cbn; [|by rewrite (proj2 (Z.leb_gt _ _)) by lia].
    destruct (Z.ltb_spec p (pos + zlen l1)).
    + rewrite (proj2 (Z.leb_gt _ _)), (proj2 (Z.ltb_lt _ _)) by lia. cbn. by rewrite aget_app_l by lia.
    + rewrite (proj2 (Z.leb_le _ _)) by lia. cbn. destruct (_ <? _); [|done]. rewrite aget_app_r by lia. f_equal. lia.
Qed.
Lemma put_same f g pos l : same_file f g → same_file (spec.put f pos l) (spec.put g pos l).
Proof. intros (Es & Ep & Ed). split; [done|]. split; [intros i Hi; cbn; by rewrite Ep|]. intros p Hp. cbn. by rewrite Ed. Qed.
Lemma same_file_trans f g h : same_file f g → same_file g h → same_file f h.
Proof. intros (E1 & E2 & E3) (E4 & E5 & E6). split; [congruence|]. split; [intros i Hi; by rewrite E2, E5|intros p Hp; by rewrite E3, E6]. Qed.
Lemma all_represent_upd s F k f g : all_represent s (<[k := f]> F) → same_file f g → all_represent s (<[k := g]> F).
Proof.
  intros HF Hg j Hj. specialize (HF j Hj). destruct (decide (k = j)) as [<-|Hn]; [|by rewrite fn_lookup_insert_ne in * by done].
  rewrite fn_lookup_insert in *. by eapply represents_same.
Qed.
Lemma all_represent_twice s F k f g : all_represent s (<[k := f]> (<[k := g]> F)) → all_represent s (<[k := f]> F).
Proof. intros HF j Hj. specialize (HF j Hj). destruct (decide (k = j)) as [<-|Hn]; [|by rewrite !fn_lookup_insert_ne in * by done]. by rewrite !fn_lookup_insert in *. Qed.
Lemma all_represent_id s F k : all_represent s F → all_represent s (<[k := F k]> F).
Proof. intros HF j Hj. destruct (decide (k = j)) as [<-|Hn]; [rewrite fn_lookup_insert|rewrite fn_lookup_insert_ne by done]; by apply HF. Qed.

(** What the loop has to write from [t] on, and how it ends. *)
Definition goal_of (offset : Z) (d : list Z) (t : Z) : Z := Z.max t (Z.min (zlen d) (MAX_FILE - offset)).
Definition put_rest (f : file) (offset : Z) (d : list Z) (t : Z) : file :=
  let n := goal_of offset d t in if t <? n then spec.put f (offset + t) (sub_list d t (n - t)) else f.
Definition end_of (offset : Z) (d : list Z) (t : Z) : write_end := let n := goal_of offset d t in if n =? zlen d then Done n else Returns n.
Lemma put_rest_step f offset d t c : 0 ≤ offset → 0 ≤ t → 0 < c → t + c ≤ goal_of offset d t → goal_of offset d t ≤ zlen d →
  same_file (put_rest (spec.put f (offset + t) (sub_list d t c)) offset d (t + c)) (put_rest f offset d t).
Proof.
  intros Ho Ht Hc Hle Hlen. unfold put_rest. assert (goal_of offset d (t + c) = goal_of offset d t) as -> by (unfold goal_of in *; lia).
  set (n := goal_of offset d t) in *. rewrite (proj2 (Z.ltb_lt t n)) by lia.
  assert (zlen (sub_list d t c) = c) as Hz by (apply zlen_sub_list; lia).
  destruct (Z.ltb_spec (t + c) n).
  - rewrite (sub_list_split d t c (n - t)) by lia. eapply same_file_trans; [|apply put_put; lia]. rewrite Hz. replace (offset + t + c) with (offset + (t + c)) by lia.
    replace (n - (t + c)) with (n - t - c) by lia. by repeat split.
  - assert (c = n - t) as -> by lia. by repeat split.
Qed.
Lemma write_loop k offset d : inode_index k → 0 ≤ offset < 2 ^ 64 → ∀ fuel s F t, fs_inv s → all_represent s F → 0 ≤ t ≤ zlen d → t = 0 ∨ offset + t ≤ MAX_FILE →
  t = zlen d ∨ 17 ≤ Z.min 16 ((offset + t) / 4096) + Z.of_nat fuel → 3 * (Z.of_nat fuel - 1) ≤ free s →
  ∃ s', write_from dev_ok fuel s k offset d t = Ret (s', end_of offset d t) ∧ fs_inv s' ∧ all_represent s' (<[k := put_rest (F k) offset d t]> F) ∧
    free s - Z.max 0 (3 * (Z.of_nat fuel - 1)) ≤ free s'.
Proof.
  intros Hk Ho. induction fuel as [|fuel IH]; intros s F t Hs HF Ht Hwrap Hfuel Hfree.
  { destruct Hfuel as [->|]; [|lia]. exists s. cbn [write_from]. rewrite Z.ltb_irrefl. unfold end_of, put_rest, goal_of, MAX_FILE. rewrite Z.max_l by lia.
    rewrite Z.eqb_refl, Z.ltb_irrefl. split; [done|]. split; [done|]. split; [by apply all_represent_id|lia]. }
  destruct (decide (t = zlen d)) as [->|Hne].
  { exists s. cbn [write_from]. rewrite Z.ltb_irrefl. unfold end_of, put_rest, goal_of, MAX_FILE. rewrite Z.max_l by lia.
    rewrite Z.eqb_refl, Z.ltb_irrefl. split; [done|]. split; [done|]. split; [by apply all_represent_id|lia]. }
  destruct Hfuel as [|Hfuel]; [done|]. destruct (decide (offset + t < MAX_FILE)) as [Hlt|Hge].
  - destruct (block_pos (offset + t) ltac:(lia)) as [Hi Hm]. unfold block_index, AEVOSFS_DIRECT_BLOCKS, AEVOSFS_BLOCK_SIZE in *.
    destruct (write_turn s k F offset d t fuel Hs HF Hk ltac:(lia) ltac:(lia) ltac:(lia) Hlt) as (s1 & -> & Hs1 & HF1 & Hf1). unfold AEVOSFS_BLOCK_SIZE in *.
    set (off := (offset + t) mod 4096) in *. set (c := Z.min (4096 - off) (zlen d - t)) in *. assert (0 < c) by lia.
    pose proof (Z.div_mod (offset + t) 4096 ltac:(lia)) as Hdm. fold off in Hdm. set (i := (offset + t) / 4096) in *.
    assert (goal_of offset d (t + c) = goal_of offset d t ∧ t + c ≤ goal_of offset d t ≤ zlen d) as [Eg Hg] by (unfold goal_of, MAX_FILE in *; lia).
    destruct (IH s1 (<[k := spec.put (F k) (offset + t) (sub_list d t c)]> F) (t + c)) as (s2 & E2 & Hs2 & HF2 & Hf2); [done..|lia|unfold MAX_FILE in *; lia| |lia|].
    { destruct (decide (t + c = zlen d)); [by left|right]. replace (offset + (t + c)) with ((i + 1) * 4096) by lia. rewrite Z.div_mul by lia. lia. }
    exists s2. unfold end_of in *. rewrite Eg in E2. split; [done|]. split; [done|]. split; [|lia]. rewrite fn_lookup_insert in HF2. apply all_represent_twice in HF2.
    eapply all_represent_upd; [done|]. apply put_rest_step; lia.
  - exists s. cbn [write_from]. rewrite (proj2 (Z.ltb_lt _ _)) by lia. cbv zeta. unfold end_of, put_rest, goal_of, MAX_FILE in *. rewrite !Z.max_l by lia.
    rewrite Z.ltb_irrefl, (proj2 (Z.eqb_neq t (zlen d))) by lia. rewrite (wrap_id 64 (offset + t)) by lia.
    rewrite (proj2 (Z.geb_le _ _)) by (apply Z.div_le_lower_bound; unfold AEVOSFS_BLOCK_SIZE, AEVOSFS_DIRECT_BLOCKS; lia).
    split; [done|]. split; [done|]. split; [by apply all_represent_id|lia].
Qed.

Lemma write_spec_is f offset d : 0 ≤ offset → let f' := put_rest f offset d 0 in
  spec.write f offset d = (match end_of offset d 0 with Done n => spec.resize f' (Z.max (f_size f) (offset + n)) | Returns _ => f' end, goal_of offset d 0).
Proof.
  intros Ho. cbv zeta. unfold spec.write, put_rest, end_of, goal_of. pose proof (zlen_nonneg d).
  replace (Z.max 0 (Z.min (zlen d) (MAX_FILE - offset))) with (Z.min (zlen d) (Z.max 0 (MAX_FILE - offset))) by lia. set (n := Z.min _ _).
  rewrite Z.add_0_r, Z.sub_0_r. change (sub_list d 0 n) with (take (Z.to_nat n) d). destruct (0 <? n), (n =? zlen d); done.
Qed.
Lemma resize_spec s k n F : fs_inv s → all_represent s F → inode_index k →
  let s' := set_inode s k (set_size (inode s k) n) in fs_inv s' ∧ all_represent s' (<[k := spec.resize (F k) n]> F) ∧ free s' = free s.
Proof.
  intros Hs HF Hk s'. assert (∀ j i, inode_index j → blk s' j i = blk s j i) as Eb.
  { intros j i Hj. unfold blk, s'. rewrite inode_set by done. case_decide as E; [by rewrite E|done]. }
  split; [|split; [|done]].
  - destruct Hs as [[Hl Ht] Hh Hbl Ho Hd Hc]. split; [|done|..|done|done].
    + unfold s', set_inode. cbn [with_inodes inode_table]. rewrite zlen_aset. split; [done|]. apply Forall_aset; [done|]. cbn [set_size block_list].
      apply (Forall_aget (λ i, zlen (block_list i) = AEVOSFS_DIRECT_BLOCKS)); [done|]. unfold inode_index in Hk. lia.
    + intros j i Hj Hi. rewrite Eb by done. by apply Hbl.
    + intros j i j' i' Hj Hi Hj' Hi'. rewrite !Eb by done. by apply Ho.
  - intros j Hj. destruct (HF j Hj) as [Hsz Hpr Hda].
    assert (∀ p, byte_at s' j p = byte_at s j p) as Ep by (intros p; unfold byte_at; by rewrite Eb).
    destruct (decide (k = j)) as [<-|Hn]; [rewrite fn_lookup_insert|rewrite fn_lookup_insert_ne by done].
    + split; [unfold s'; by rewrite inode_set, decide_True by done|intros i Hi; rewrite Eb by done; by apply Hpr|intros p Hp; rewrite Ep; by apply Hda].
    + split; [unfold s'; by rewrite inode_set, decide_False by done|intros i Hi; rewrite Eb by done; by apply Hpr|intros p Hp; rewrite Ep; by apply Hda].
Qed.
Lemma goal_range offset d : 0 ≤ offset → 0 ≤ goal_of offset d 0 ≤ zlen d ∧ (0 < goal_of offset d 0 → offset + goal_of offset d 0 ≤ MAX_FILE).
Proof. intros Ho. unfold goal_of, MAX_FILE. pose proof (zlen_nonneg d). lia. Qed.
Lemma write_spec s k F offset d : fs_inv s → all_represent s F → inode_index k → 0 ≤ offset < 2 ^ 64 → 48 ≤ free s →
  ∃ s', aevosfs_write dev_ok s (Some k) offset (Some d) = Ret (s', (spec.write (F k) offset d).2) ∧
    fs_inv s' ∧ all_represent s' (<[k := (spec.write (F k) offset d).1]> F) ∧ free s - 48 ≤ free s'.
Proof.
  intros Hs HF Hk Ho Hf. rewrite write_spec_is by lia. cbn [fst snd]. destruct (goal_range offset d ltac:(lia)) as [Hg1 Hg2]. pose proof (zlen_nonneg d).
  destruct (write_loop k offset d Hk Ho TURNS s F 0 Hs HF) as (s' & E & Hs' & HF' & Hf'); [lia|by left| |unfold TURNS; lia|].
  { right. unfold TURNS. assert (0 ≤ (offset + 0) / 4096) by (apply Z.div_pos; lia). lia. }
  assert (free s - 48 ≤ free s') by (unfold TURNS in Hf'; lia). unfold aevosfs_write. rewrite E. cbn [mbind outcome_bind]. unfold end_of in *.
  destruct (Z.eqb_spec (goal_of offset d 0) (zlen d)) as [E1|]; [|by exists s'].
  rewrite (wrap_id 64) by (unfold MAX_FILE in *; lia). pose proof (rp_size _ _ _ (HF' k Hk)) as Esz. rewrite fn_lookup_insert in Esz. rewrite Esz.
  assert (f_size (put_rest (F k) offset d 0) = f_size (F k)) as Ef by (unfold put_rest; by destruct (_ <? _)). rewrite Ef.
  destruct (Z.gtb_spec (offset + goal_of offset d 0) (f_size (F k))).
  - eexists. split; [done|]. destruct (resize_spec s' k (offset + goal_of offset d 0) _ Hs' HF' Hk) as (Hs2 & HF2 & Hf2). split; [done|]. split; [|lia].
    rewrite fn_lookup_insert in HF2. apply all_represent_twice in HF2. by rewrite Z.max_r by lia.
  - exists s'. split; [done|]. split; [done|]. split; [|done]. rewrite Z.max_l by lia. eapply all_represent_upd; [done|]. by split.
Qed.

(** ** Reads *)

Lemma extent_spec f n i : 0 ≤ spec.extent n f i ≤ Z.of_nat n ∧ (∀ j, i ≤ j < i + spec.extent n f i → f j = true) ∧
  (spec.extent n f i < Z.of_nat n → f (i + spec.extent n f i) = false).
Proof.
  revert i. induction n as [|n IH]; intros i; cbn [spec.extent]; [split; [lia|]; split; [lia|lia]|]. destruct (f i) eqn:Ef.
  - destruct (IH (i + 1)) as (H1 & H2 & H3). split; [lia|]. split.
    + intros j Hj. destruct (decide (j = i)) as [->|]; [done|apply H2; lia].
    + intros Hlt. rewrite Z.add_assoc. apply H3. lia.
  - split; [lia|]. split; [lia|]. intros _. by rewrite Z.add_0_r.
Qed.
(** The first block from that of [p] on that the file does not have. *)
Lemma readable_spec f p : 0 ≤ p → ∃ e, spec.readable f p = Z.max 0 (4096 * e - p) ∧ p / 4096 ≤ e ∧ (e ≤ 16 ∨ e = p / 4096) ∧
  (∀ j, p / 4096 ≤ j < e → f_present f j = true) ∧ (e < 16 → f_present f e = false).
Proof.
  intros Hp. unfold spec.readable, AEVOSFS_BLOCK_SIZE, AEVOSFS_DIRECT_BLOCKS. set (i := p / 4096). assert (0 ≤ i) by (apply Z.div_pos; lia).
  destruct (extent_spec (f_present f) (Z.to_nat (16 - i)) i) as (H1 & H2 & H3). eexists. split; [reflexivity|]. split; [lia|]. split; [lia|].
  split; [done|]. intros He. apply H3. lia.
Qed.
Lemma block_chunk s k f p c : fs_inv s → represents s k f → 0 ≤ p → block_index (p / 4096) → blk s k (p / 4096) ≠ 0 → 0 ≤ c → p mod 4096 + c ≤ 4096 →
  sub_list (s.(disk) (blk s k (p / 4096))) (p mod 4096) c = map (f_data f) (seqZ p c).
Proof.
  intros Hs Hr Hp Hi Hb Hc Hle. pose proof (Z.mod_pos_bound p 4096 ltac:(lia)) as Hm. pose proof (Z.div_mod p 4096 ltac:(lia)) as Hdm.
  set (i := p / 4096) in *. pose proof (iv_disk _ Hs (blk s k i)) as Hl. change AEVOSFS_BLOCK_SIZE with 4096 in Hl.
  assert (zlen (map (f_data f) (seqZ p c)) = c) as Hz by (unfold zlen; rewrite length_map, length_seqZ; lia).
  apply array_eq; [rewrite zlen_sub_list by lia; done|].
  rewrite zlen_sub_list by lia. intros j Hj. rewrite aget_sub_list by lia.
  assert ((map (f_data f) (seqZ p c)).[j] = f_data f (p + j)) as ->.
  { unfold aget. rewrite list_lookup_total_alt, list_lookup_fmap, lookup_seqZ_lt by lia. cbn. f_equal. lia. }
  unfold block_index, AEVOSFS_DIRECT_BLOCKS in Hi. assert ((p + j) / 4096 = i) as Ei by (symmetry; apply (Z.div_unique_pos _ _ _ (p mod 4096 + j)); lia).
  rewrite <- (rp_data _ _ _ Hr) by (unfold MAX_FILE; lia). rewrite (byte_at_block s k (p + j) i) by done. f_equal.
  pose proof (Z.div_mod (p + j) 4096 ltac:(lia)). lia.
Qed.
Definition after_requests (s : fs_t) (m : nat) : fs_t :=
  {| disk := disk s; io := m; sb := sb s; inode_table := inode_table s; next_inode_id := next_inode_id s |}.
Lemma read_loop k offset size f : inode_index k → 0 ≤ offset < 2 ^ 64 → 0 ≤ size → offset + size < 2 ^ 64 → ∀ fuel s t,
  fs_inv s → represents s k f → 0 ≤ t ≤ Z.min size (spec.readable f offset) → t = size ∨ 17 ≤ Z.min 16 ((offset + t) / 4096) + Z.of_nat fuel →
  let n := Z.min size (spec.readable f offset) in
  ∃ m, read_from dev_ok fuel s (inode s k).(block_list) offset size t (map (f_data f) (seqZ offset t)) =
    Ret (after_requests s m, map (f_data f) (seqZ offset n), n).
Proof.
  intros Hk Ho Hsz Hw. destruct (readable_spec f offset ltac:(lia)) as (e & -> & He1 & He2 & Hpres & Habs).
  induction fuel as [|fuel IH]; intros s t Hs Hr Ht Hfuel n.
  { destruct Hfuel as [->|]; [|lia]. exists (io s). cbn [read_from]. rewrite Z.ltb_irrefl. assert (n = size) as -> by (unfold n; lia). by destruct s. }
  cbn [read_from]. destruct (Z.ltb_spec t size) as [Hlt|]; [|assert (n = size ∧ t = size) as [-> ->] by (unfold n; lia); exists (io s); by destruct s].
  destruct Hfuel as [|Hfuel]; [lia|]. rewrite (wrap_id 64 (offset + t)) by lia. cbv zeta. change AEVOSFS_BLOCK_SIZE with 4096. change AEVOSFS_DIRECT_BLOCKS with 16.
  pose proof (Z.div_mod (offset + t) 4096 ltac:(lia)) as Hdm. pose proof (Z.mod_pos_bound (offset + t) 4096 ltac:(lia)) as Hmb.
  pose proof (Z.div_le_mono offset (offset + t) 4096 ltac:(lia) ltac:(lia)) as Hmono. assert (0 ≤ offset / 4096) by (apply Z.div_pos; lia).
  set (i := (offset + t) / 4096) in *. set (o := (offset + t) mod 4096) in *.
  assert (i ≤ e) as Hie. { destruct (decide (t = 0)) as [E|]; [|lia]. unfold i. rewrite E, Z.add_0_r. done. }
  destruct (Z.geb_spec i 16) as [H16|H16].
  { exists (io s). assert (n = t) as -> by (unfold n; destruct He2; [lia|]; subst e; pose proof (Z.mul_div_le offset 4096); lia). by destruct s. }
  fold (blk s k i). pose proof (rp_present _ _ _ Hr i ltac:(unfold block_index, AEVOSFS_DIRECT_BLOCKS; lia)) as Hpi. destruct (Z.eqb_spec (blk s k i) 0) as [Hb|Hb].
  { exists (io s). assert (¬ i < e) by (intros ?; rewrite Hpres in Hpi by lia; done). assert (n = t) as -> by (unfold n; lia). by destruct s. }
  assert (i < e) by (destruct (decide (i = e)) as [->|]; [rewrite Habs in Hpi by lia; done|lia]).
  rewrite read_block_ok. set (c := if 4096 - o >? size - t then size - t else 4096 - o).
  assert (0 < c ∧ o + c ≤ 4096 ∧ t + c ≤ size ∧ (t + c = size ∨ o + c = 4096)) as Hc by (unfold c; destruct (Z.gtb_spec (4096 - o) (size - t)); lia).
  assert (map (f_data f) (seqZ offset t) ++ sub_list (s.(disk) (blk s k i)) o c = map (f_data f) (seqZ offset (t + c))) as ->.
  { rewrite seqZ_app, map_app by lia. f_equal. apply block_chunk; try done; unfold block_index, AEVOSFS_DIRECT_BLOCKS; fold i o; lia. }
  destruct (IH (with_io s (disk s)) (t + c)) as [m Em]; [by destruct Hs|by destruct Hr|lia| |].
  { destruct Hc as (? & ? & ? & [?|?]); [by left|right]. replace (offset + (t + c)) with ((i + 1) * 4096) by lia. rewrite Z.div_mul by lia. lia. }
  exists m. exact Em.
Qed.
Lemma read_spec s k f offset size : fs_inv s → represents s k f → inode_index k → 0 ≤ offset < 2 ^ 64 → 0 ≤ size → 0 ≤ f_size f < 2 ^ 64 →
  ∃ m, aevosfs_read dev_ok s (Some k) offset true size =
    Ret (after_requests s m, spec.read f offset size, zlen (spec.read f offset size)).
Proof.
  intros Hs Hr Hk Ho Hsz Hfs. unfold aevosfs_read, spec.read. rewrite (rp_size _ _ _ Hr). destruct (Z.geb_spec offset (f_size f)) as [Hge|Hlt].
  { exists (io s). by destruct s. }
  rewrite (wrap_id 64) by lia. set (z := if size >? f_size f - offset then f_size f - offset else size).
  assert (Z.min size (f_size f - offset) = z) as -> by (unfold z; destruct (Z.gtb_spec size (f_size f - offset)); lia).
  assert (0 ≤ z ∧ offset + z < 2 ^ 64) as [Hz1 Hz2] by (unfold z; destruct (Z.gtb_spec size (f_size f - offset)); lia).
  destruct (readable_spec f offset ltac:(lia)) as (e & Ee & _).
  destruct (read_loop k offset z f Hk Ho Hz1 Hz2 TURNS s 0 Hs Hr) as [m Em]; [lia| |].
  { right. unfold TURNS. assert (0 ≤ (offset + 0) / 4096) by (apply Z.div_pos; lia). lia. }
  exists m. change (map (f_data f) (seqZ offset 0)) with (@nil Z) in Em. rewrite Em. do 2 f_equal. unfold zlen. rewrite length_map, length_seqZ. lia.
Qed.

(** ** Checkpoints and histories *)

Lemma inode_bytes_len i : zlen i.(block_list) = AEVOSFS_DIRECT_BLOCKS → zlen (inode_bytes i) = 220.
Proof.
  intros Hl. unfold inode_bytes, zlen. rewrite !length_app, !length_le_bytes, !length_replicate.
  assert (length (concat (map (le_bytes 8) (block_list i))) = 8 * length (block_list i))%nat as ->; [|unfold zlen, AEVOSFS_DIRECT_BLOCKS in Hl; lia].
  induction (block_list i) as [|b l IH] in |- *; [done|]. cbn [map concat length]. rewrite length_app, length_le_bytes, IH. lia.
Qed.
Lemma write_inodes_spec t : Forall (λ i, zlen i.(block_list) = AEVOSFS_DIRECT_BLOCKS) t → ∀ s F, fs_inv s → all_represent s F → zlen t ≤ free s →
  ∃ s', write_inodes dev_ok s t = (s', 0) ∧ fs_inv s' ∧ all_represent s' F ∧ free s - zlen t ≤ free s'.
Proof.
  induction 1 as [|i t Hi Ht IH]; intros s F Hs HF Hf; [by exists s; split; [|split; [|split; [|change (zlen _) with 0; lia]]]|].
  rewrite zlen_cons in Hf. rewrite (zlen_cons i t). pose proof (zlen_nonneg t). cbn [write_inodes]. destruct (id i =? 0).
  - destruct (IH s F Hs HF ltac:(lia)) as (s' & -> & Hs' & HF' & Hf'). exists s'. split; [done|]. split; [done|]. split; [done|lia].
  - destruct (alloc_ok s F Hs HF ltac:(lia)) as (s1 & -> & Hs1 & HF1 & Hh1 & Hf1 & _ & _ & Hu1). destruct (iv_head _ Hs) as [Hh _]. rewrite (proj2 (Z.eqb_neq (head s) 0)) by lia.
    destruct (write_ok s1 (head s) (pad_block (inode_bytes i)) F Hs1 HF1 Hu1 ltac:(lia)) as (s2 & -> & Hs2 & HF2 & _ & Hf2 & _); [apply pad_block_len; by rewrite inode_bytes_len|].
    cbn [negb Z.eqb]. destruct (IH s2 F Hs2 HF2 ltac:(lia)) as (s' & -> & Hs' & HF' & Hf'). exists s'. split; [done|]. split; [done|]. split; [done|lia].
Qed.
Lemma superblock_len b : zlen b.(reserved) = 448 → zlen (pad_block (superblock_bytes b)) = AEVOSFS_BLOCK_SIZE.
Proof. intros Hl. apply pad_block_len. unfold superblock_bytes, zlen in *. rewrite !length_app, !length_le_bytes. unfold AEVOSFS_BLOCK_SIZE. lia. Qed.
Lemma checkpoint_spec s F : fs_inv s → all_represent s F → AEVOSFS_MAX_INODES ≤ free s →
  ∃ s', aevosfs_checkpoint dev_ok s = (s', 0) ∧ fs_inv s' ∧ all_represent s' F ∧ free s - AEVOSFS_MAX_INODES ≤ free s'.
Proof.
  intros Hs HF Hf. unfold aevosfs_checkpoint. destruct (iv_table _ Hs) as [Hl Ht]. destruct (write_inodes_spec _ Ht s F Hs HF ltac:(lia)) as (s1 & -> & Hs1 & HF1 & Hf1).
  cbn [negb Z.eqb]. set (b := sb s1). set (s2 := with_sb s1 (set_log b (free_blocks b) (log_head b) (log_head b))).
  assert (fs_inv s2) as Hs2 by by destruct Hs1. pose proof (represents_ext s1 s2 F eq_refl eq_refl HF1) as HF2. destruct (iv_head _ Hs2) as (Hh & _ & _ & Hr).
  destruct (write_ok s2 0 (pad_block (superblock_bytes (sb s2))) F Hs2 HF2) as (s3 & -> & Hs3 & HF3 & _ & Hf3 & _); [|lia|by apply superblock_len|].
  { intros k i Hk Hi. destruct (iv_blk _ Hs2 k i Hk Hi); [by left|right; lia]. }
  exists s3. split; [done|]. split; [done|]. split; [done|]. rewrite Hf3. change (free s2) with (free s1). lia.
Qed.

Inductive fs_op := Write (k offset : Z) (d : list Z) | Read (k offset size : Z) | Checkpoint.
Definition fs_do (s : fs_t) (o : fs_op) : outcome (fs_t * (list Z * Z)) :=
  match o with
  | Write k offset d => '(s, n) ← aevosfs_write dev_ok s (Some k) offset (Some d); Ret (s, ([], n))
  | Read k offset size => '(s, out, n) ← aevosfs_read dev_ok s (Some k) offset true size; Ret (s, (out, n))
  | Checkpoint => let '(s, rc) := aevosfs_checkpoint dev_ok s in Ret (s, ([], rc))
  end.
Fixpoint fs_run (s : fs_t) (l : list fs_op) : outcome (fs_t * list (list Z * Z)) :=
  match l with [] => Ret (s, []) | o :: l => '(s, r) ← fs_do s o; '(s, rs) ← fs_run s l; Ret (s, r :: rs) end.
Definition spec_do (F : Z → file) (o : fs_op) : (Z → file) * (list Z * Z) :=
  match o with
  | Write k offset d => (<[k := (spec.write (F k) offset d).1]> F, ([], (spec.write (F k) offset d).2))
  | Read k offset size => (F, (spec.read (F k) offset size, zlen (spec.read (F k) offset size)))
  | Checkpoint => (F, ([], 0))
  end.
Fixpoint spec_run (F : Z → file) (l : list fs_op) : (Z → file) * list (list Z * Z) :=
  match l with [] => (F, []) | o :: l => let '(F, r) := spec_do F o in let '(F, rs) := spec_run F l in (F, r :: rs) end.
Definition op_ok (o : fs_op) : Prop :=
  match o with
  | Write k offset _ => inode_index k ∧ 0 ≤ offset < 2 ^ 64
  | Read k offset size => inode_index k ∧ 0 ≤ offset < 2 ^ 64 ∧ 0 ≤ size
  | Checkpoint => True
  end.
(** The blocks that an operation may take. *)
Definition cost (o : fs_op) : Z := match o with Write _ _ _ => 48 | Read _ _ _ => 0 | Checkpoint => AEVOSFS_MAX_INODES end.
Fixpoint total_cost (l : list fs_op) : Z := match l with [] => 0 | o :: l => cost o + total_cost l end.
Definition sizes_ok (F : Z → file) : Prop := ∀ k, inode_index k → 0 ≤ f_size (F k) < 2 ^ 64.

Lemma spec_write_size f offset d : 0 ≤ offset < 2 ^ 64 → 0 ≤ f_size f < 2 ^ 64 → 0 ≤ f_size (spec.write f offset d).1 < 2 ^ 64.
Proof.
  intros Ho Hf. unfold spec.write. cbn [fst]. pose proof (zlen_nonneg d). set (n := Z.min (zlen d) (Z.max 0 (MAX_FILE - offset))). set (g := if 0 <? n then _ else f).
  assert (f_size g = f_size f) as Eg by (unfold g; by destruct (0 <? n)). destruct (Z.eqb_spec n (zlen d)); [|by rewrite Eg]. cbn [spec.resize f_size]. rewrite Eg. unfold n, MAX_FILE in *. lia.
Qed.
Lemma spec_do_sizes F o : sizes_ok F → op_ok o → sizes_ok (spec_do F o).1.
Proof.
  intros HF Ho j Hj. destruct o as [k offset d| |]; [|by apply HF..]. destruct Ho as [Hk Ho]. cbn [spec_do fst].
  destruct (decide (k = j)) as [->|Hn]; [rewrite fn_lookup_insert; apply spec_write_size; [done|by apply HF]|rewrite fn_lookup_insert_ne by done; by apply HF].
Qed.
Lemma fs_do_spec s F o : fs_inv s → all_represent s F → sizes_ok F → op_ok o → cost o ≤ free s →
  ∃ s', fs_do s o = Ret (s', (spec_do F o).2) ∧ fs_inv s' ∧ all_represent s' (spec_do F o).1 ∧ free s - cost o ≤ free s'.
Proof.
  intros Hs HF Hsz Ho Hc. destruct o as [k offset d|k offset size|]; cbn [op_ok cost fs_do spec_do fst snd] in *.
  - destruct Ho as [Hk Ho]. destruct (write_spec s k F offset d Hs HF Hk Ho Hc) as (s' & -> & Hs' & HF' & Hf'). by exists s'.
  - destruct Ho as (Hk & Ho & Hz). destruct (read_spec s k (F k) offset size Hs (HF k Hk) Hk Ho Hz (Hsz k Hk)) as [m ->].
    exists (after_requests s m). split; [done|]. split; [by destruct Hs|]. split; [by apply (represents_ext s)|change (free (after_requests s m)) with (free s); lia].
  - destruct (checkpoint_spec s F Hs HF Hc) as (s' & -> & Hs' & HF' & Hf'). by exists s'.
Qed.
Lemma fs_run_spec l : ∀ s F, fs_inv s → all_represent s F → sizes_ok F → Forall op_ok l → total_cost l ≤ free s →
  ∃ s', fs_run s l = Ret (s', (spec_run F l).2) ∧ fs_inv s' ∧ all_represent s' (spec_run F l).1 ∧ sizes_ok (spec_run F l).1.
Proof.
  induction l as [|o l IH]; intros s F Hs HF Hsz Ho Hc; [by exists s|]. apply list.Forall_cons_1 in Ho as [Ho Hl]. cbn [total_cost fs_run spec_run] in *.
  assert (0 ≤ total_cost l) as Hp by (clear; induction l as [|[] ? ?]; cbn [total_cost cost]; unfold AEVOSFS_MAX_INODES in *; lia).
  destruct (fs_do_spec s F o Hs HF Hsz Ho ltac:(lia)) as (s1 & -> & Hs1 & HF1 & Hf1). pose proof (spec_do_sizes F o Hsz Ho) as Hsz1. destruct (spec_do F o) as [F1 r].
  cbn [fst snd mbind outcome_bind] in *. destruct (IH s1 F1 Hs1 HF1 Hsz1 Hl ltac:(lia)) as (s2 & -> & Hs2 & HF2 & Hsz2). destruct (spec_run F1 l) as [F2 rs]. cbn. by exists s2.
Qed.

(** ** A new file system *)

Definition blank (s : fs_t) : Prop := ∀ b, s.(disk) b = zero_block.
Definition initial_files (k : Z) : file := {| f_size := 0; f_present i := (k =? 0) && (i =? 0); f_data _ := 0 |}.
Definition init_mount (s : fs_t) : fs_t * Z := aevosfs_mount dev_ok (aevosfs_init s true true).1.

Definition root_dir : aevosfs_inode_t :=
  {| id := 1; type := AEVOSFS_DIR; isize := 0; block_list := 1 :: replicate 15 0; permissions := 493; link_count := 1 |}.
Lemma init_mount_blank s : blank s → init_mount s =
  ({| disk := <[0 := pad_block (superblock_bytes (fresh_sb 1))]> (<[1 := zero_block]> s.(disk)); io := 3 + s.(io); sb := fresh_sb 1;
      inode_table := root_dir :: replicate 4095 no_inode; next_inode_id := 2 |}, 0).
Proof.
  intros Hb. unfold init_mount, aevosfs_init, aevosfs_mount. cbn [negb andb fst]. rewrite read_block_ok. cbn [with_inodes disk]. rewrite Hb.
  change (superblock_of zero_block) with zero_sb. cbn [with_sb sb magic zero_sb with_io negb]. change (0 =? AEVOSFS_MAGIC) with false. cbn [negb].
  unfold alloc_inode, find_inode. cbn [with_sb inode_table with_io with_inodes]. change (replicate (Z.to_nat AEVOSFS_MAX_INODES) no_inode) with (no_inode :: replicate 4095 no_inode).
  cbn [first_inode no_inode id Z.eqb]. rewrite !write_block_ok. reflexivity.
Qed.
Lemma blk_initial k i t : inode_index k → block_index i → t = root_dir :: replicate 4095 no_inode →
  (t.[k]).(block_list).[i] = if (k =? 0) && (i =? 0) then 1 else 0.
Proof.
  intros Hk Hi ->. unfold inode_index, block_index, AEVOSFS_MAX_INODES, AEVOSFS_DIRECT_BLOCKS in *. change (root_dir :: replicate 4095 no_inode) with ([root_dir] ++ replicate 4095 no_inode).
  destruct (Z.eqb_spec k 0) as [->|].
  - cbn [andb]. rewrite aget_app_l by done. change ([root_dir].[0]) with root_dir. cbn [root_dir block_list]. change (1 :: replicate 15 0) with ([1] ++ replicate 15 0).
    destruct (Z.eqb_spec i 0) as [->|]; [done|]. rewrite aget_app_r by (change (zlen [1]) with 1; lia). change (zlen [1]) with 1. apply aget_replicate. lia.
  - cbn [andb]. rewrite aget_app_r by (change (zlen [root_dir]) with 1; lia). change (zlen [root_dir]) with 1. rewrite aget_replicate by lia. cbn [no_inode block_list].
    apply aget_replicate. lia.
Qed.
Lemma initial_spec s : blank s → let s' := (init_mount s).1 in fs_inv s' ∧ all_represent s' initial_files ∧ free s' = 65534.
Proof.
  intros Hb. rewrite init_mount_blank by done. cbn [fst]. set (s' := {| disk := _ |}).
  assert (∀ k i, inode_index k → block_index i → blk s' k i = if (k =? 0) && (i =? 0) then 1 else 0) as Eb by (intros k i Hk Hi; by apply blk_initial).
  assert (s'.(disk) 1 = zero_block) as E1 by (unfold s'; cbn [disk]; rewrite fn_lookup_insert_ne by done; apply fn_lookup_insert).
  split; [|split; [|done]].
  - split.
    + split; [done|]. constructor; [done|]. by apply Forall_replicate.
    + done.
    + intros k i Hk Hi. rewrite Eb by done. destruct (_ && _); [right; done|by left].
    + intros k i k' i' Hk Hi Hk' Hi'. rewrite !Eb by done. destruct (Z.eqb_spec k 0), (Z.eqb_spec i 0), (Z.eqb_spec k' 0), (Z.eqb_spec i' 0); cbn; lia.
    + intros b. unfold s'. cbn [disk]. destruct (decide (0 = b)) as [<-|]; [rewrite fn_lookup_insert; by apply superblock_len|rewrite fn_lookup_insert_ne by done].
      destruct (decide (1 = b)) as [<-|]; [by rewrite fn_lookup_insert|rewrite fn_lookup_insert_ne by done; by rewrite Hb].
    + intros b Hlt. change (head s') with 2 in Hlt. unfold s'. cbn [disk]. rewrite !fn_lookup_insert_ne by lia. apply Hb.
  - intros k Hk. split; cbn [initial_files f_size f_present f_data].
    + unfold inode, s'. cbn [inode_table]. unfold inode_index, AEVOSFS_MAX_INODES in Hk. destruct (decide (k = 0)) as [->|]; [done|].
      change (root_dir :: replicate 4095 no_inode) with ([root_dir] ++ replicate 4095 no_inode).
      rewrite aget_app_r by (change (zlen [root_dir]) with 1; lia). change (zlen [root_dir]) with 1. by rewrite aget_replicate by lia.
    + intros i Hi. rewrite Eb by done. by destruct (_ && _).
    + intros p Hp. unfold byte_at. destruct (block_pos p Hp) as [Hi Hm]. rewrite Eb by done. destruct (_ && _); [|done]. cbn [Z.eqb]. rewrite E1. by apply zero_block_get.
Qed.
End chunk.

(** C12: On a blank disk that works, from [aevosfs_init] and [aevosfs_mount] on, every
    history of writes, reads and checkpoints that the space suffices for returns what
    files of 64 KiB with holes return: a write stores what fits below 64 KiB, and only a
    write that fits moves the size; a read ends at the size or at the first block that
    the file does not have. 48 blocks are enough for a write. *)
Theorem aevosfs_files_refine (dev_ok : nat → bool) (s : fs_t) (l : list fs_op) :
  (∀ n, dev_ok n = true) → blank s → Forall op_ok l → total_cost l ≤ 65534 →
  ∃ s1 s2, init_mount dev_ok s = (s1, 0) ∧ fs_run dev_ok s1 l = Ret (s2, (spec_run initial_files l).2) ∧ all_represent s2 (spec_run initial_files l).1.
Proof.
  intros Hok Hb Hl Hc. destruct (initial_spec dev_ok Hok s Hb) as (Hs & HF & Hf). rewrite init_mount_blank in * by done. cbn [fst] in *.
  destruct (fs_run_spec dev_ok Hok l _ _ Hs HF) as (s2 & E & _ & HF2 & _); [done|done|lia|]. eexists _, s2. by split.
Qed.
(** A file with a hole: the read ends before it, although the size covers more. *)
Lemma aevosfs_files_refine_witness :
  let dev (_ : nat) := true in
  let s := {| disk _ := zero_block; io := 0; sb := zero_sb; inode_table := []; next_inode_id := 0 |} in
  let l := [Write 3 4094 [1; 2; 3; 4]; Write 3 16384 [5]; Checkpoint; Read 3 4095 100000; Write 3 70000 [6]; Read 3 8190 5] in
  (spec_run initial_files l).2.*2 = [4; 1; 0; 4097; 0; 2] ∧
  ∃ s1 s2, init_mount dev s = (s1, 0) ∧ fs_run dev s1 l = Ret (s2, (spec_run initial_files l).2) ∧ all_represent s2 (spec_run initial_files l).1.
Proof.
  intros dev s l. split; [by vm_compute|]. apply (aevosfs_files_refine dev s l); [done|done| |done].
  repeat (constructor; [cbn; unfold inode_index, AEVOSFS_MAX_INODES; lia|]). constructor.
Defined.

(** A mount of a file system that is there: the root has no blocks. *)
Definition remounted (s : fs_t) : fs_t :=
  let b := superblock_of (s.(disk) 0) in
  {| disk := s.(disk); io := S s.(io); sb := b; inode_table := set_id (set_blocks root_dir (replicate 16 0)) b.(root_inode) :: replicate 4095 no_inode; next_inode_id := 2 |}.
Lemma init_mount_again (dev_ok : nat → bool) s : dev_ok s.(io) = true → (superblock_of (s.(disk) 0)).(magic) = AEVOSFS_MAGIC →
  (superblock_of (s.(disk) 0)).(root_inode) ≠ 0 → init_mount dev_ok s = (remounted s, 0).
Proof.
  intros Hok Hm Hr. unfold init_mount, aevosfs_init, aevosfs_mount, read_block. cbn [negb andb fst with_inodes disk with_io with_sb sb io]. rewrite Hok. cbn [with_sb sb with_io disk].
  rewrite Hm. change (AEVOSFS_MAGIC =? AEVOSFS_MAGIC) with true. cbn [negb]. unfold find_inode at 1. cbn [with_inodes with_io with_sb inode_table].
  assert (∀ m k, first_inode (replicate m no_inode) (root_inode (superblock_of (disk s 0))) k = None) as ->; [|reflexivity].
  induction m as [|m IH]; intros k; [done|]. cbn [replicate first_inode no_inode id]. rewrite (proj2 (Z.eqb_neq 0 _)) by done. apply IH.
Qed.
(** C32: A mount of a disk that holds a file system finds no file on it: no path but the root
    resolves, whatever was written and whether or not there was a checkpoint. *)
Theorem remount_loses_files (dev_ok : nat → bool) (s : fs_t) (path : list Z) :
  dev_ok s.(io) = true → (superblock_of (s.(disk) 0)).(magic) = AEVOSFS_MAGIC → (superblock_of (s.(disk) 0)).(root_inode) ≠ 0 → skip_slashes path ≠ [] →
  ∃ s', init_mount dev_ok s = (s', 0) ∧ resolve_path_internal dev_ok s' path = Ret (s', None).
Proof.
  intros Hok Hm Hr Hp. rewrite init_mount_again by done. eexists. split; [reflexivity|]. unfold resolve_path_internal, find_inode, remounted.
  cbn [sb inode_table first_inode set_id id]. rewrite Z.eqb_refl. destruct path as [|c r]; [done|]. cbn [length walk].
  destruct (skip_slashes (c :: r)) as [|c' r'] eqn:Es; [done|]. destruct (component (c' :: r') 127) as [name q]. done.
Qed.
(** A file that was created, resolved and put into a checkpoint is not found after a mount. *)
Lemma remount_loses_files_witness :
  let dev (_ : nat) := true in
  let s := {| disk _ := zero_block; io := 0; sb := zero_sb; inode_table := []; next_inode_id := 0 |} in
  let created := aevosfs_create dev (init_mount dev s).1 (Some (bytes "/a")) AEVOSFS_FILE in
  let s2 := match created with Ret (s2, _) => s2 | _ => s end in
  match created with Ret (_, rc) => rc = 0 | _ => False end ∧
  match resolve_path_internal dev s2 (bytes "/a") with Ret (_, k) => k = Some 1 | _ => False end ∧
  (aevosfs_checkpoint dev s2).2 = 0 ∧
  ∃ s', init_mount dev (aevosfs_checkpoint dev s2).1 = (s', 0) ∧ resolve_path_internal dev s' (bytes "/a") = Ret (s', None).
Proof.
  intros dev s created s2. split; [by vm_compute|]. split; [by vm_compute|]. split; [by vm_compute|].
  apply (remount_loses_files dev); [done|by vm_compute|by vm_compute|by vm_compute].
Defined.

(** ** Space

    No block is ever given back: with any device, each chunk that is written costs two
    blocks, or the last one. *)

Section space.
Context (dev_ok : nat → bool).

Lemma alloc_free s : 0 ≤ free s < 2 ^ 64 →
  (free s = 0 ∧ alloc_block s = (s, 0)) ∨ (0 < free s ∧ free (alloc_block s).1 = free s - 1).
Proof.
  intros Hf. unfold alloc_block, free in *. destruct (Z.eqb_spec (free_blocks (sb s)) 0) as [E|]; [by left|right]. cbn [fst with_sb set_log sb free_blocks].
  rewrite wrap_id by lia. lia.
Qed.
Lemma ensure_free s k i : 0 ≤ free s < 2 ^ 64 → 0 ≤ free (ensure_block s k i).1 ≤ free s.
Proof.
  intros Hf. unfold ensure_block. destruct (_ =? 0); [|cbn; lia]. destruct (alloc_free s Hf) as [[E ->]|[Hp E]]; [cbn; lia|].
  destruct (alloc_block s) as [s1 b]. cbn [fst] in E. destruct (b =? 0); cbn [fst]; [lia|]. change (free (set_inode _ _ _)) with (free s1). lia.
Qed.
Lemma write_block_free s b l : free (write_block dev_ok s b l).1 = free s.
Proof. unfold write_block. by destruct (dev_ok _). Qed.
Lemma log_free s k o c b : 0 ≤ free s < 2 ^ 64 → let s' := (log_append_write dev_ok s k o c b).1 in free s' = Z.max 0 (free s - 1).
Proof.
  intros Hf. unfold log_append_write. destruct (alloc_free s Hf) as [[E ->]|[Hp E]]; [cbn; lia|]. destruct (alloc_block s) as [s1 n] eqn:Ea. cbn [fst] in E.
  destruct (n =? 0); cbn zeta; [cbn; lia|]. rewrite write_block_free. lia.
Qed.
Definition written (e : write_end) : Z := match e with Done n => n | Returns n => n end.
Lemma write_from_free k offset d fuel : ∀ s t s' e, 0 ≤ free s < 2 ^ 64 → 0 ≤ t → write_from dev_ok fuel s k offset d t = Ret (s', e) →
  0 ≤ free s' ≤ free s ∧ (t < written e → 0 < free s ∧ (free s' ≤ free s - 2 ∨ free s' = 0)).
Proof.
  induction fuel as [|fuel IH]; intros s t s' e Hf Ht; cbn [write_from]; destruct (Z.ltb_spec t (zlen d)) as [Hlt|]; try done; [intros [= <- <-]; cbn; lia| |intros [= <- <-]; cbn; lia].
  cbv zeta. destruct (_ >=? _); [intros [= <- <-]; cbn; lia|]. set (i := u64 (offset + t) / AEVOSFS_BLOCK_SIZE). pose proof (ensure_free s k i Hf) as H1.
  destruct (ensure_block s k i) as [s1 ok]. cbn [fst] in H1.
  assert (written (Returns (if t >? 0 then t else - ENOSPC)) ≤ t) as Hns by (cbn; unfold ENOSPC; destruct (Z.gtb_spec t 0); lia).
  destruct ok; cbn [negb]; [|intros [= <- <-]; lia]. set (rd := if _ || _ then _ else _). assert (free rd.1 = free s1) as H2.
  { unfold rd. destruct (_ || _); [|done]. unfold read_block. by destruct (dev_ok _). }
  destruct rd as [s2 old]. cbn [fst] in H2. destruct (alloc_free s2 ltac:(lia)) as [[E ->]|[Hp E]]; [cbn [Z.eqb]; intros [= <- <-]; lia|].
  destruct (alloc_block s2) as [s3 b]. cbn [fst] in E. destruct (b =? 0); [intros [= <- <-]; lia|].
  set (c := if _ >? _ then _ else _). set (l := splice _ _ _). pose proof (write_block_free s3 b l) as H4.
  destruct (write_block dev_ok s3 b l) as [s4 rc]. cbn [fst] in H4. destruct (negb (rc =? 0)); [intros [= <- <-]; cbn; unfold EIO; lia|].
  set (s5 := set_inode s4 k _). pose proof (log_free s5 k (u64 (offset + t)) c b) as H5. change (free s5) with (free s4) in H5.
  destruct (log_append_write dev_ok s5 k (u64 (offset + t)) c b) as [s6 rc']. cbn [fst] in H5.
  specialize (H5 ltac:(lia)). assert (0 < c) as Hc.
  { unfold c. pose proof (Z.mod_pos_bound (u64 (offset + t)) AEVOSFS_BLOCK_SIZE ltac:(done)). destruct (Z.gtb_spec (AEVOSFS_BLOCK_SIZE - u64 (offset + t) mod AEVOSFS_BLOCK_SIZE) (zlen d - t)); lia. }
  intros E'. apply IH in E'; [|lia..]. lia.
Qed.
Lemma write_free s k offset d s' n : 0 ≤ free s < 2 ^ 64 → aevosfs_write dev_ok s (Some k) offset (Some d) = Ret (s', n) →
  0 ≤ free s' ≤ free s ∧ (0 < n → 0 < free s ∧ (free s' ≤ free s - 2 ∨ free s' = 0)).
Proof.
  intros Hf. unfold aevosfs_write. destruct (write_from _ _ _ _ _ _ _) as [[s1 e]| |] eqn:E; cbn [mbind outcome_bind]; try done.
  apply write_from_free in E; [|lia..]. destruct e as [m|m]; intros [= <- <-]; [|exact E]. destruct (_ >? _); exact E.
Qed.

(** The results of a sequence of writes. *)
Fixpoint write_all (s : fs_t) (l : list (Z * Z * list Z)) : outcome (fs_t * list Z) :=
  match l with
  | [] => Ret (s, [])
  | (k, offset, d) :: l => '(s, n) ← aevosfs_write dev_ok s (Some k) offset (Some d); '(s, ns) ← write_all s l; Ret (s, n :: ns)
  end.
Definition successes (ns : list Z) : Z := zlen (filter (λ n, 0 < n) ns).
Lemma write_all_free l : ∀ s s' ns, 0 ≤ free s < 2 ^ 64 → write_all s l = Ret (s', ns) → 0 ≤ free s' ∧ 2 * successes ns ≤ free s + free s mod 2.
Proof.
  induction l as [|[[k o] d] l IH]; intros s s' ns Hf; cbn [write_all]; [intros [= <- <-]; change (successes []) with 0; pose proof (Z.mod_pos_bound (free s) 2); lia|].
  destruct (aevosfs_write _ _ _ _ _) as [[s1 n]| |] eqn:E1; cbn [mbind outcome_bind]; try done. destruct (write_all s1 l) as [[s2 ns']| |] eqn:E2; cbn; try done.
  intros [= <- <-]. apply write_free in E1; [|done]. apply IH in E2; [|lia]. unfold successes in *. rewrite filter_cons. destruct E1 as [Hle E1].
  case_decide as Hn; [rewrite zlen_cons; destruct (E1 Hn) as [Hp Hd]; clear E1|clear E1]; div_lia.
Qed.
End space.

(** C33: A new file system takes at most 32767 writes that store a byte, even if they all
    write the same one: the log is never cleaned. *)
Theorem aevosfs_space_bound (dev_ok : nat → bool) (s s' : fs_t) (l : list (Z * Z * list Z)) (ns : list Z) :
  dev_ok s.(io) = true → (superblock_of (s.(disk) 0)).(magic) ≠ AEVOSFS_MAGIC →
  write_all dev_ok (init_mount dev_ok s).1 l = Ret (s', ns) → successes ns ≤ 32767.
Proof.
  intros Hok Hm E. assert (free (init_mount dev_ok s).1 = 65534) as Hf.
  { unfold init_mount, aevosfs_init, aevosfs_mount, read_block. cbn [negb andb fst with_inodes disk with_io with_sb sb io]. rewrite Hok. cbn [with_sb sb with_io disk].
    rewrite (proj2 (Z.eqb_neq _ _)) by done. cbn [negb]. unfold alloc_inode, find_inode. cbn [with_sb inode_table with_io with_inodes].
    change (replicate (Z.to_nat AEVOSFS_MAX_INODES) no_inode) with (no_inode :: replicate 4095 no_inode). cbn [first_inode no_inode id Z.eqb].
    set (s1 := set_inode _ _ _). pose proof (write_block_free dev_ok s1 1 zero_block) as E1. destruct (write_block dev_ok s1 1 zero_block) as [s2 ?]. cbn [fst] in E1.
    set (l2 := pad_block _). pose proof (write_block_free dev_ok s2 0 l2) as E2. destruct (write_block dev_ok s2 0 l2) as [s3 ?]. cbn [fst] in *. rewrite E2, E1. done. }
  apply write_all_free in E; rewrite Hf in *; [|lia]. change (65534 mod 2) with 0 in E. lia.
Qed.
(** The same byte, written again and again. *)
Lemma aevosfs_space_bound_witness :
  let dev (_ : nat) := true in
  let s := {| disk _ := zero_block; io := 0; sb := zero_sb; inode_table := []; next_inode_id := 0 |} in
  match write_all dev (init_mount dev s).1 (replicate 3 (0, 0, [65])) with Ret (s', ns) => ns = [1; 1; 1] ∧ free s' = 65534 - 6 | _ => False end ∧
  ∃ ns s', write_all dev (init_mount dev s).1 (replicate 3 (0, 0, [65])) = Ret (s', ns) ∧ successes ns ≤ 32767.
Proof.
  intros dev s. split; [by vm_compute|]. destruct (write_all dev (init_mount dev s).1 (replicate 3 (0, 0, [65]))) as [[s' ns]| |] eqn:E; [|by vm_compute in E..].
  exists ns, s'. split; [done|]. apply (aevosfs_space_bound dev s s' (replicate 3 (0, 0, [65])) ns); [done|by vm_compute|exact E].
Defined.
