(* ===== verification/VecIndex.v ===== *)
(** * The vector index ([src/db/vecindex.c])

    Vectors of signed bytes with identifiers, in one array (a flat index) or in the
    lists of an inverted file. The live part of an array is a list in the index, next to
    the address of its block and its capacity; [blobs] holds the copies of the vectors
    by address. Signed arithmetic that overflows is a [Fault]. The type and the metric
    are numbers, since a serialised index can hold any. The lock makes a call one step. *)

From stdpp Require Import base numbers list gmap sets sorting.
From S2P Require Import Pmm Slab SlabHeap KernelHeap.
From S2P Require Import Prelude CMem KHeap Buf.
Open Scope Z_scope.

Definition VECINDEX_FLAT : Z := 0.
Definition VECINDEX_IVF : Z := 1.
Definition VECDIST_L2 : Z := 0.
Definition VECDIST_IP : Z := 1.
Definition VEC_BLOCK_SIZE : Z := 256.
Definition IVF_DEFAULT_NLIST : Z := 64.
Definition IVF_DEFAULT_NPROBE : Z := 8.
Definition KMEANS_MAX_ITERS : nat := 20.
Definition INT32_MAX : Z := 2147483647.

(** An entry is the identifier and the address of the vector. *)
Definition vec_entry_t : Type := Z * Z.
Definition SIZEOF_ENTRY : Z := 16.
Record ivf_list_t := { l_ptr : Z; l_entries : list vec_entry_t; l_capacity : Z }.
Definition empty_list : ivf_list_t := {| l_ptr := 0; l_entries := []; l_capacity := 0 |}.
Definition SIZEOF_LIST : Z := 16.
Record vecindex := {
  self : Z; type : Z; dist : Z; dim : Z;
  flat_ptr : Z; flat_entries : list vec_entry_t; flat_capacity : Z;
  centroids_ptr : Z; centroids : list Z;
  lists_ptr : Z; lists : list ivf_list_t; nlist : Z; nprobe : Z; trained : bool }.
Definition SIZEOF_INDEX : Z := 64.
Record vstore (H : Type) := { heap : H; blobs : gmap Z (list Z) }.
Arguments heap {H}.
Arguments blobs {H}.

Definition set_flat (x : vecindex) (p : Z) (l : list vec_entry_t) (cap : Z) : vecindex :=
  {| self := x.(self); type := x.(type); dist := x.(dist); dim := x.(dim); flat_ptr := p; flat_entries := l; flat_capacity := cap;
     centroids_ptr := x.(centroids_ptr); centroids := x.(centroids); lists_ptr := x.(lists_ptr); lists := x.(lists); nlist := x.(nlist);
     nprobe := x.(nprobe); trained := x.(trained) |}.
Definition set_lists (x : vecindex) (p : Z) (l : list ivf_list_t) (n np : Z) : vecindex :=
  {| self := x.(self); type := x.(type); dist := x.(dist); dim := x.(dim); flat_ptr := x.(flat_ptr); flat_entries := x.(flat_entries);
     flat_capacity := x.(flat_capacity); centroids_ptr := x.(centroids_ptr); centroids := x.(centroids); lists_ptr := p; lists := l; nlist := n;
     nprobe := np; trained := x.(trained) |}.
Definition set_centroids (x : vecindex) (p : Z) (c : list Z) (t : bool) : vecindex :=
  {| self := x.(self); type := x.(type); dist := x.(dist); dim := x.(dim); flat_ptr := x.(flat_ptr); flat_entries := x.(flat_entries);
     flat_capacity := x.(flat_capacity); centroids_ptr := p; centroids := c; lists_ptr := x.(lists_ptr); lists := x.(lists); nlist := x.(nlist);
     nprobe := x.(nprobe); trained := t |}.

(** ** Distances *)

Definition in_s32 (z : Z) : bool := (- 2 ^ 31 <=? z) && (z <? 2 ^ 31).
Fixpoint sum_from (f : Z → Z → Z) (l : list (Z * Z)) (sum : Z) : outcome Z :=
  match l with
  | [] => Ret sum
  | (a, b) :: l => if in_s32 (sum + f a b) then sum_from f l (sum + f a b) else Fault
  end.
Definition dist_l2_sq (a b : list Z) (dim : Z) : outcome Z :=
  x ← rd_block a 0 dim; y ← rd_block b 0 dim; sum_from (λ a b, (a - b) * (a - b)) (zip x y) 0.
Definition dist_ip (a b : list Z) (dim : Z) : outcome Z :=
  x ← rd_block a 0 dim; y ← rd_block b 0 dim; sum_from Z.mul (zip x y) 0.

(** ** The heap of the best [k]

    An item is an identifier and its distance. *)

Definition heap_item_t : Type := Z * Z.
(** [max_heap] compares with [>], otherwise with [<]. *)
Definition beats (max_heap : bool) (a b : heap_item_t) : bool := if max_heap then a.2 >? b.2 else a.2 <? b.2.
Fixpoint heap_sift_down (fuel : nat) (h : list heap_item_t) (n i : Z) (max_heap : bool) : outcome (list heap_item_t) :=
  let l := u32 (2 * i + 1) in
  let r := u32 (2 * i + 2) in
  let target := if (l <? n) && beats max_heap (h.[l]) (h.[i]) then l else i in
  let target := if (r <? n) && beats max_heap (h.[r]) (h.[target]) then r else target in
  if target =? i then Ret h else
  match fuel with
  | O => NoFuel
  | S fuel => heap_sift_down fuel (h.[i <- h.[target]].[target <- h.[i]]) n target max_heap
  end.
(** A node moves down at most [n] times. *)
Definition sift (h : list heap_item_t) (n i : Z) (max_heap : bool) : outcome (list heap_item_t) := heap_sift_down (Z.to_nat n) h n i max_heap.
(** [for (j = m - 1; j >= 0; j--)] *)
Fixpoint heapify (m : nat) (h : list heap_item_t) (n : Z) (max_heap : bool) : outcome (list heap_item_t) :=
  match m with O => Ret h | S m => h ← sift h n (Z.of_nat m) max_heap; heapify m h n max_heap end.
Definition offer (k : Z) (is_l2 : bool) (h : list heap_item_t) (x : heap_item_t) : outcome (list heap_item_t) :=
  if zlen h <? k then
    let h := h ++ [x] in
    if zlen h =? k then heapify (Z.to_nat (k / 2)) h k is_l2 else Ret h
  else if (if is_l2 then x.2 <? (h.[0]).2 else x.2 >? (h.[0]).2) then sift (h.[0 <- x]) k 0 is_l2 else Ret h.
(** The results from the worst to the best. *)
Fixpoint extract (i : nat) (h : list heap_item_t) (is_l2 : bool) (out : list heap_item_t) : outcome (list heap_item_t) :=
  match i with
  | O => Ret out
  | S m =>
      let x := h.[0] in
      let h := h.[0 <- h.[Z.of_nat m]] in
      h ← (if (1 <? i)%nat then sift h (Z.of_nat m) 0 is_l2 else Ret h);
      extract m h is_l2 (x :: out)
  end.

(** ** Centroids *)

(** The nearest of the centroids from [c] on, [n] of them, compared with the best so far. *)
Fixpoint nearest_from (n : nat) (cents vec : list Z) (dim c best best_d : Z) : outcome Z :=
  match n with
  | O => Ret best
  | S n =>
      cv ← rd_block cents (u32 (c * dim)) dim;
      d ← dist_l2_sq vec cv dim;
      if d <? best_d then nearest_from n cents vec dim (c + 1) c d else nearest_from n cents vec dim (c + 1) best best_d
  end.
Definition nearest (cents vec : list Z) (dim n : Z) : outcome Z :=
  d ← dist_l2_sq vec cents dim;
  nearest_from (Z.to_nat (n - 1)) cents vec dim 1 0 d.
Definition find_nearest_centroid (x : vecindex) (vec : list Z) : outcome Z := nearest x.(centroids) vec x.(dim) x.(nlist).

Section vecindex.
Context {H : Type} `{KH : KHeap H}.
Implicit Types (s : vstore H) (x : vecindex).

Definition with_heap s (h : H) : vstore H := {| heap := h; blobs := s.(blobs) |}.
Definition v_kmalloc s (n : Z) : outcome (vstore H * Z) := '(h, p) ← kmalloc s.(heap) n; Ret (with_heap s h, p).
Definition v_kcalloc s (c n : Z) : outcome (vstore H * Z) := '(h, p) ← kcalloc s.(heap) c n; Ret (with_heap s h, p).
Definition v_krealloc s (p n : Z) : outcome (vstore H * Z) := '(h, q) ← krealloc s.(heap) p n; Ret (with_heap s h, q).
Definition v_kfree s (p : Z) : outcome (vstore H) := h ← kfree s.(heap) p; Ret (with_heap s h).
Definition blob s (p : Z) : outcome (list Z) := match s.(blobs) !! p with Some d => Ret d | None => Fault end.
Definition free_blob s (p : Z) : outcome (vstore H) :=
  _ ← blob s p; s ← v_kfree s p; Ret {| heap := s.(heap); blobs := delete p s.(blobs) |}.
(** A copy of the first [n] bytes; 0 if there is no memory. *)
Definition copy_vec s (v : list Z) (n : Z) : outcome (vstore H * Z) :=
  '(s, p) ← v_kmalloc s n;
  if p =? 0 then Ret (s, 0) else
  d ← rd_block v 0 n;
  Ret ({| heap := s.(heap); blobs := <[p := d]> s.(blobs) |}, p).

(** [list] has room for one more, if need be by a larger block. *)
Definition grow s (ptr count capacity : Z) : outcome (vstore H * option (Z * Z)) :=
  if count >=? capacity then
    let new_cap := u32 (capacity + VEC_BLOCK_SIZE) in
    '(s, p) ← v_krealloc s ptr (new_cap * SIZEOF_ENTRY);
    Ret (s, if p =? 0 then None else Some (p, new_cap))
  else Ret (s, Some (ptr, capacity)).

(** ** The flat index *)

Definition flat_add s x (id : Z) (vec : list Z) : outcome (vstore H * vecindex * Z) :=
  '(s, g) ← grow s x.(flat_ptr) (zlen x.(flat_entries)) x.(flat_capacity);
  match g with
  | None => Ret (s, x, - ENOMEM)
  | Some (p, cap) =>
      let x := set_flat x p x.(flat_entries) cap in
      '(s, copy) ← copy_vec s vec x.(dim);
      if copy =? 0 then Ret (s, x, - ENOMEM) else
      Ret (s, set_flat x p (x.(flat_entries) ++ [(id, copy)]) cap, 0)
  end.
Definition distance s (is_l2 : bool) (query : list Z) (e : vec_entry_t) (dim : Z) : outcome Z :=
  v ← blob s e.2; if is_l2 then dist_l2_sq query v dim else dist_ip query v dim.
Fixpoint select s (k : Z) (is_l2 : bool) (query : list Z) (dim : Z) (l : list vec_entry_t) (h : list heap_item_t) : outcome (list heap_item_t) :=
  match l with
  | [] => Ret h
  | e :: l => d ← distance s is_l2 query e dim; h ← offer k is_l2 h (e.1, d); select s k is_l2 query dim l h
  end.
Definition is_l2_of x : bool := x.(dist) =? VECDIST_L2.
(** The results in the output arrays, and the number of them or an error. *)
Definition flat_search s x (query : list Z) (k : Z) : outcome (vstore H * list heap_item_t * Z) :=
  let count := zlen x.(flat_entries) in
  if (k =? 0) || (count =? 0) then Ret (s, [], 0) else
  let k := if k >? count then count else k in
  '(s, p) ← v_kmalloc s (k * 16);
  if p =? 0 then Ret (s, [], - ENOMEM) else
  h ← select s k (is_l2_of x) query x.(dim) x.(flat_entries) [];
  out ← extract (length h) h (is_l2_of x) [];
  s ← v_kfree s p;
  Ret (s, out, s32 (zlen h)).

(** ** The inverted file *)

Definition ivf_add s x (id : Z) (vec : list Z) : outcome (vstore H * vecindex * Z) :=
  if negb x.(trained) then Ret (s, x, - EINVAL) else
  c ← find_nearest_centroid x vec;
  match x.(lists) !! Z.to_nat c with
  | None => Fault
  | Some l =>
      '(s, g) ← grow s l.(l_ptr) (zlen l.(l_entries)) l.(l_capacity);
      match g with
      | None => Ret (s, x, - ENOMEM)
      | Some (p, cap) =>
          let put es := set_lists x x.(lists_ptr) (x.(lists).[c <- {| l_ptr := p; l_entries := es; l_capacity := cap |}]) x.(nlist) x.(nprobe) in
          '(s, copy) ← copy_vec s vec x.(dim);
          if copy =? 0 then Ret (s, put l.(l_entries), - ENOMEM) else
          Ret (s, put (l.(l_entries) ++ [(id, copy)]), 0)
      end
  end.
(** The distances of the centroids from [c] on. *)
Fixpoint centroid_dists (n : nat) (cents query : list Z) (dim c : Z) : outcome (list Z) :=
  match n with
  | O => Ret []
  | S n => cv ← rd_block cents (u32 (c * dim)) dim; d ← dist_l2_sq query cv dim; ds ← centroid_dists n cents query dim (c + 1); Ret (d :: ds)
  end.
Fixpoint argmin_from (n : nat) (cd : list Z) (c best : Z) : Z :=
  match n with O => best | S n => argmin_from n cd (c + 1) (if cd.[c] <? cd.[best] then c else best) end.
Fixpoint choose_probes (p : nat) (cd : list Z) (nlist : Z) : list Z :=
  match p with O => [] | S p => let best := argmin_from (Z.to_nat (nlist - 1)) cd 1 0 in best :: choose_probes p (cd.[best <- INT32_MAX]) nlist end.
Fixpoint select_lists s (k : Z) (is_l2 : bool) (query : list Z) (dim : Z) (ls : list ivf_list_t) (probe : list Z) (h : list heap_item_t) : outcome (list heap_item_t) :=
  match probe with
  | [] => Ret h
  | c :: probe =>
      match ls !! Z.to_nat c with
      | None => Fault
      | Some l => h ← select s k is_l2 query dim l.(l_entries) h; select_lists s k is_l2 query dim ls probe h
      end
  end.
Definition ivf_search s x (query : list Z) (k : Z) : outcome (vstore H * list heap_item_t * Z) :=
  if negb x.(trained) || (k =? 0) then Ret (s, [], 0) else
  let np := Z.min x.(nprobe) x.(nlist) in
  '(s, probe) ← v_kmalloc s (np * 4);
  '(s, cdist) ← v_kmalloc s (x.(nlist) * 4);
  if (probe =? 0) || (cdist =? 0) then
    s ← (if negb (probe =? 0) then v_kfree s probe else Ret s);
    s ← (if negb (cdist =? 0) then v_kfree s cdist else Ret s);
    Ret (s, [], - ENOMEM)
  else
  cd ← centroid_dists (Z.to_nat x.(nlist)) x.(centroids) query x.(dim) 0;
  let probes := choose_probes (Z.to_nat np) cd x.(nlist) in
  s ← v_kfree s cdist;
  '(s, p) ← v_kmalloc s (k * 16);
  if p =? 0 then s ← v_kfree s probe; Ret (s, [], - ENOMEM) else
  h ← select_lists s k (is_l2_of x) query x.(dim) x.(lists) probes [];
  s ← v_kfree s probe;
  out ← extract (length h) h (is_l2_of x) [];
  s ← v_kfree s p;
  Ret (s, out, s32 (zlen h)).

(** ** Training *)

Fixpoint init_centroids (n : nat) (cents vecs : list Z) (dim c : Z) : outcome (list Z) :=
  match n with
  | O => Ret cents
  | S n => v ← rd_block vecs (u32 (c * dim)) dim; cents ← Buf.wr cents (u32 (c * dim)) v; init_centroids n cents vecs dim (c + 1)
  end.
Fixpoint add_all (a v : list Z) : outcome (list Z) :=
  match a, v with
  | x :: a, y :: v => if in_s32 (x + y) then r ← add_all a v; Ret (x + y :: r) else Fault
  | _, _ => Ret []
  end.
Fixpoint assign_from (n : nat) (cents vecs accum counts : list Z) (dim nlist i : Z) : outcome (list Z * list Z) :=
  match n with
  | O => Ret (accum, counts)
  | S n =>
      v ← rd_block vecs (u32 (i * dim)) dim;
      best ← nearest cents v dim nlist;
      let counts := counts.[best <- u32 (counts.[best] + 1)] in
      a ← rd_block accum (u32 (best * dim)) dim;
      a ← add_all a v;
      accum ← Buf.wr accum (u32 (best * dim)) a;
      assign_from n cents vecs accum counts dim nlist (i + 1)
  end.
Definition average (a count : Z) : Z := Z.max (-128) (Z.min 127 (Z.quot a (s32 count))).
Fixpoint recompute (n : nat) (cents accum counts : list Z) (dim c : Z) : outcome (list Z) :=
  match n with
  | O => Ret cents
  | S n =>
      if counts.[c] =? 0 then recompute n cents accum counts dim (c + 1) else
      a ← rd_block accum (u32 (c * dim)) dim;
      cents ← Buf.wr cents (u32 (c * dim)) (map (λ a, average a (counts.[c])) a);
      recompute n cents accum counts dim (c + 1)
  end.
Fixpoint lloyd (iters : nat) (cents vecs : list Z) (dim nlist count : Z) : outcome (list Z) :=
  match iters with
  | O => Ret cents
  | S iters =>
      r ← assign_from (Z.to_nat count) cents vecs (replicate (Z.to_nat (u32 (nlist * dim))) 0) (replicate (Z.to_nat nlist) 0) dim nlist 0;
      cents ← recompute (Z.to_nat nlist) cents r.1 r.2 dim 0;
      lloyd iters cents vecs dim nlist count
  end.
Definition vecindex_train s (xo : option vecindex) (vecs : option (list Z)) (count : Z) : outcome (vstore H * option vecindex * Z) :=
  match xo, vecs with
  | Some x, Some vecs =>
      if count =? 0 then Ret (s, xo, - EINVAL) else
      if negb (x.(type) =? VECINDEX_IVF) then Ret (s, xo, - EINVAL) else
      let n := if x.(nlist) >? count then count else x.(nlist) in
      '(s, x) ← (if x.(centroids_ptr) =? 0 then
                   '(s, p) ← v_kmalloc s (u32 (n * x.(dim)));
                   Ret (s, set_centroids x p (if p =? 0 then [] else replicate (Z.to_nat (u32 (n * x.(dim)))) 0) x.(trained))
                 else Ret (s, x));
      if x.(centroids_ptr) =? 0 then Ret (s, Some x, - ENOMEM) else
      cents ← init_centroids (Z.to_nat n) x.(centroids) vecs x.(dim) 0;
      let x := set_centroids x x.(centroids_ptr) cents x.(trained) in
      '(s, accum) ← v_kmalloc s (u32 (n * x.(dim)) * 4);
      '(s, counts) ← v_kcalloc s n 4;
      if (accum =? 0) || (counts =? 0) then
        s ← (if negb (accum =? 0) then v_kfree s accum else Ret s);
        s ← (if negb (counts =? 0) then v_kfree s counts else Ret s);
        Ret (s, Some x, - ENOMEM)
      else
      cents ← lloyd KMEANS_MAX_ITERS cents vecs x.(dim) n count;
      s ← v_kfree s accum;
      s ← v_kfree s counts;
      Ret (s, Some (set_centroids x x.(centroids_ptr) cents true), 0)
  | _, _ => Ret (s, xo, - EINVAL)
  end.

(** ** The interface *)

Definition vecindex_create s (dim type dist : Z) : outcome (vstore H * option vecindex) :=
  '(s, p) ← v_kcalloc s 1 SIZEOF_INDEX;
  if p =? 0 then Ret (s, None) else
  let x := {| self := p; type := type; dist := dist; dim := dim; flat_ptr := 0; flat_entries := []; flat_capacity := 0; centroids_ptr := 0;
              centroids := []; lists_ptr := 0; lists := []; nlist := 0; nprobe := 0; trained := false |} in
  if type =? VECINDEX_IVF then
    '(s, l) ← v_kcalloc s IVF_DEFAULT_NLIST SIZEOF_LIST;
    let x := set_lists x l (replicate (Z.to_nat IVF_DEFAULT_NLIST) empty_list) IVF_DEFAULT_NLIST IVF_DEFAULT_NPROBE in
    if l =? 0 then s ← v_kfree s p; Ret (s, None) else Ret (s, Some x)
  else Ret (s, Some x).
Fixpoint free_entries s (l : list vec_entry_t) : outcome (vstore H) :=
  match l with [] => Ret s | e :: l => s ← (if negb (e.2 =? 0) then free_blob s e.2 else Ret s); free_entries s l end.
Fixpoint free_lists (n : nat) s (ls : list ivf_list_t) : outcome (vstore H) :=
  match n with
  | O => Ret s
  | S n =>
      match ls with
      | [] => Fault
      | l :: ls => s ← free_entries s l.(l_entries); s ← (if negb (l.(l_ptr) =? 0) then v_kfree s l.(l_ptr) else Ret s); free_lists n s ls
      end
  end.
Definition vecindex_destroy s (xo : option vecindex) : outcome (vstore H) :=
  match xo with
  | None => Ret s
  | Some x =>
      s ← free_entries s x.(flat_entries);
      s ← (if negb (x.(flat_ptr) =? 0) then v_kfree s x.(flat_ptr) else Ret s);
      s ← (if negb (x.(lists_ptr) =? 0) then s ← free_lists (Z.to_nat x.(nlist)) s x.(lists); v_kfree s x.(lists_ptr) else Ret s);
      s ← (if negb (x.(centroids_ptr) =? 0) then v_kfree s x.(centroids_ptr) else Ret s);
      v_kfree s x.(self)
  end.
Definition add_one s x (id : Z) (vec : list Z) : outcome (vstore H * vecindex * Z) :=
  if x.(type) =? VECINDEX_FLAT then flat_add s x id vec else ivf_add s x id vec.
Definition vecindex_add s (xo : option vecindex) (id : Z) (vec : option (list Z)) : outcome (vstore H * option vecindex * Z) :=
  match xo, vec with
  | Some x, Some vec => '(s, x, rc) ← add_one s x id vec; Ret (s, Some x, rc)
  | _, _ => Ret (s, xo, - EINVAL)
  end.
Fixpoint add_from s x (ids : list Z) (vecs : list Z) (i : Z) : outcome (vstore H * vecindex * Z) :=
  match ids with
  | [] => Ret (s, x, 0)
  | id :: ids =>
      v ← rd_block vecs (u32 (i * x.(dim))) x.(dim);
      '(s, x, rc) ← add_one s x id v;
      if negb (rc =? 0) then Ret (s, x, rc) else add_from s x ids vecs (i + 1)
  end.
Definition vecindex_add_batch s (xo : option vecindex) (ids vecs : option (list Z)) (count : Z) : outcome (vstore H * option vecindex * Z) :=
  match xo, ids, vecs with
  | Some x, Some ids, Some vecs => ids ← rd_block ids 0 count; '(s, x, rc) ← add_from s x ids vecs 0; Ret (s, Some x, rc)
  | _, _, _ => Ret (s, xo, - EINVAL)
  end.
Definition vecindex_search s (xo : option vecindex) (query : option (list Z)) (k : Z) (outs : bool) : outcome (vstore H * list heap_item_t * Z) :=
  match xo, query with
  | Some x, Some query =>
      if negb outs || (k =? 0) then Ret (s, [], - EINVAL) else
      if x.(type) =? VECINDEX_FLAT then flat_search s x query k else ivf_search s x query k
  | _, _ => Ret (s, [], - EINVAL)
  end.
(** The entry with this identifier is freed and the others move up. *)
Fixpoint remove_entry s (l : list vec_entry_t) (id : Z) : outcome (vstore H * option (list vec_entry_t)) :=
  match l with
  | [] => Ret (s, None)
  | e :: l =>
      if e.1 =? id then s ← (if negb (e.2 =? 0) then free_blob s e.2 else Ret s); Ret (s, Some l)
      else '(s, r) ← remove_entry s l id; Ret (s, option_map (cons e) r)
  end.
Fixpoint remove_from (n : nat) s (ls : list ivf_list_t) (id : Z) : outcome (vstore H * option (list ivf_list_t)) :=
  match n with
  | O => Ret (s, None)
  | S n =>
      match ls with
      | [] => Fault
      | l :: ls =>
          '(s, r) ← remove_entry s l.(l_entries) id;
          match r with
          | Some es => Ret (s, Some ({| l_ptr := l.(l_ptr); l_entries := es; l_capacity := l.(l_capacity) |} :: ls))
          | None => '(s, r) ← remove_from n s ls id; Ret (s, option_map (cons l) r)
          end
      end
  end.
Definition vecindex_remove s (xo : option vecindex) (id : Z) : outcome (vstore H * option vecindex * Z) :=
  match xo with
  | None => Ret (s, None, - EINVAL)
  | Some x =>
      if x.(type) =? VECINDEX_FLAT then
        '(s, r) ← remove_entry s x.(flat_entries) id;
        match r with
        | Some l => Ret (s, Some (set_flat x x.(flat_ptr) l x.(flat_capacity)), 0)
        | None => Ret (s, Some x, - ENOENT)
        end
      else
        '(s, r) ← remove_from (Z.to_nat x.(nlist)) s x.(lists) id;
        match r with
        | Some ls => Ret (s, Some (set_lists x x.(lists_ptr) ls x.(nlist) x.(nprobe)), 0)
        | None => Ret (s, Some x, - ENOENT)
        end
  end.
Fixpoint count_lists (n : nat) (ls : list ivf_list_t) (total : Z) : outcome Z :=
  match n with
  | O => Ret total
  | S n => match ls with [] => Fault | l :: ls => count_lists n ls (u32 (total + zlen l.(l_entries))) end
  end.
Definition vecindex_count (xo : option vecindex) : outcome Z :=
  match xo with
  | None => Ret 0
  | Some x => if x.(type) =? VECINDEX_FLAT then Ret (zlen x.(flat_entries)) else count_lists (Z.to_nat x.(nlist)) x.(lists) 0
  end.

(** ** Serialisation *)

Definition VECINDEX_MAGIC : Z := 0x56454349.
Definition to_bytes (v : list Z) : list Z := map u8 v.
Definition to_int8 (v : list Z) : list Z := map (swrap 8) v.
Definition header (x : vecindex) (count : Z) : list Z :=
  le_bytes 4 VECINDEX_MAGIC ++ le_bytes 4 x.(type) ++ le_bytes 4 x.(dist) ++ le_bytes 4 x.(dim) ++ le_bytes 4 count ++ le_bytes 4 x.(nlist).
(** Entries at [op] in the buffer; the offset behind them. *)
Fixpoint put_entries s (dim : Z) (l : list vec_entry_t) (buf : list Z) (op : Z) : outcome (list Z * Z) :=
  match l with
  | [] => Ret (buf, op)
  | e :: l =>
      buf ← Buf.wr buf op (le_bytes 8 e.1);
      v ← blob s e.2; v ← rd_block v 0 dim;
      buf ← Buf.wr buf (op + 8) (to_bytes v);
      put_entries s dim l buf (op + 8 + dim)
  end.
Fixpoint put_lists (n : nat) s (dim : Z) (ls : list ivf_list_t) (buf : list Z) (op : Z) : outcome (list Z * Z) :=
  match n with
  | O => Ret (buf, op)
  | S n => match ls with [] => Fault | l :: ls => '(buf, op) ← put_entries s dim l.(l_entries) buf op; put_lists n s dim ls buf op end
  end.
(** The buffer and the number of bytes, or what would be needed. *)
Definition vecindex_serialize s (xo : option vecindex) (buf : option (list Z)) (size : Z) : outcome (option (list Z) * Z) :=
  match xo, buf with
  | Some x, Some b =>
      count ← vecindex_count (Some x);
      let has_cents := (x.(type) =? VECINDEX_IVF) && negb (x.(centroids_ptr) =? 0) in
      let needed := u64 (24 + count * u32 (8 + x.(dim))) in
      let needed := if has_cents then u64 (needed + x.(nlist) * x.(dim)) else needed in
      if size <? needed then Ret (buf, needed) else
      b ← Buf.wr b 0 (header x count);
      '(b, op) ← (if has_cents then c ← rd_block x.(centroids) 0 (u32 (x.(nlist) * x.(dim))); b ← Buf.wr b 24 (to_bytes c); Ret (b, 24 + u32 (x.(nlist) * x.(dim)))
                  else Ret (b, 24));
      '(b, op) ← (if x.(type) =? VECINDEX_FLAT then put_entries s x.(dim) x.(flat_entries) b op
                  else put_lists (Z.to_nat x.(nlist)) s x.(dim) x.(lists) b op);
      Ret (Some b, op)
  | _, _ => Ret (buf, - EINVAL)
  end.
(** The errors of [vecindex_add] are ignored. *)
Fixpoint get_entries (n : nat) s x (buf : list Z) (size op : Z) : outcome (vstore H * vecindex) :=
  match n with
  | O => Ret (s, x)
  | S n =>
      if op + 8 + x.(dim) >? size then Ret (s, x) else
      id ← rd_block buf op 8;
      v ← rd_block buf (op + 8) x.(dim);
      '(s, x, _) ← add_one s x (le_val id) (to_int8 v);
      get_entries n s x buf size (op + 8 + x.(dim))
  end.
Definition vecindex_deserialize s (buf : option (list Z)) (size : Z) : outcome (vstore H * option vecindex) :=
  match buf with
  | None => Ret (s, None)
  | Some b =>
      if size <? 24 then Ret (s, None) else
      hd ← rd_block b 0 24;
      let word i := le_val (sub_list hd i 4) in
      if negb (word 0 =? VECINDEX_MAGIC) then Ret (s, None) else
      '(s, xo) ← vecindex_create s (word 12) (word 4) (word 8);
      match xo with
      | None => Ret (s, None)
      | Some x =>
          let n := word 20 in
          '(s, x, op) ← (if (word 4 =? VECINDEX_IVF) && (n >? 0) then
                           let m := u32 (n * x.(dim)) in
                           let x := set_lists x x.(lists_ptr) x.(lists) n x.(nprobe) in
                           '(s, p) ← v_kmalloc s m;
                           if p =? 0 then Ret (s, set_centroids x 0 [] true, 24) else
                           c ← rd_block b 24 m;
                           Ret (s, set_centroids x p (to_int8 c) true, 24 + m)
                         else Ret (s, x, 24));
          '(s, x) ← get_entries (Z.to_nat (word 16)) s x b size op;
          Ret (s, Some x)
      end
  end.
End vecindex.

(** * Facts about the heap of the best *)

Lemma Permutation_swap (h : list heap_item_t) i j : 0 ≤ i < zlen h → 0 ≤ j < zlen h → h.[i <- h.[j]].[j <- h.[i]] ≡ₚ h.
Proof.
  unfold zlen. intros Hi Hj. apply Permutation_inj. split; [by rewrite !length_aset|].
  exists (λ n, if decide (n = Z.to_nat i) then Z.to_nat j else if decide (n = Z.to_nat j) then Z.to_nat i else n). split.
  - intros a b. repeat case_decide; lia.
  - intros n. unfold aset. destruct (decide (n = Z.to_nat j)) as [->|Hn].
    + rewrite list_lookup_insert_eq by (rewrite length_insert; lia). destruct (decide (Z.to_nat j = Z.to_nat i)) as [E|].
      * rewrite aget_lookup by (unfold zlen; lia). assert (i = j) as -> by lia. done.
      * rewrite aget_lookup by (unfold zlen; lia). done.
    + rewrite list_lookup_insert_ne by done. destruct (decide (n = Z.to_nat i)) as [->|].
      * rewrite list_lookup_insert_eq by lia. rewrite aget_lookup by (unfold zlen; lia). done.
      * by rewrite list_lookup_insert_ne by done.
Qed.

Section heap.
Context (b : bool).
(** The order of the heap, with its greatest item on top: for [b] by distance, otherwise
    by the negated distance. *)
Definition K (x : heap_item_t) : Z := if b then x.2 else - x.2.
Definition child (p c : Z) : Prop := c = 2 * p + 1 ∨ c = 2 * p + 2.
Definition heap_ok (h : list heap_item_t) (n lo : Z) : Prop := ∀ p c, lo ≤ p → child p c → c < n → K (h.[c]) ≤ K (h.[p]).

Lemma beats_K x y : beats b x y = (K y <? K x).
Proof. unfold beats, K. destruct b; [by rewrite Z.gtb_ltb|]. apply eq_true_iff_eq. rewrite !Z.ltb_lt. lia. Qed.
Lemma heap_top h n j : heap_ok h n 0 → 0 ≤ j < n → K (h.[j]) ≤ K (h.[0]).
Proof.
  intros Hh [Hj Hn]. revert Hn. induction j as [j IH] using (well_founded_ind (Z.lt_wf 0)). intros Hn. destruct (decide (j = 0)) as [->|]; [done|].
  set (p := (j - 1) / 2). assert (0 ≤ p < j ∧ child p j) as [Hp Hc] by (unfold p, child; div_lia). etrans; [apply (Hh p j); [lia|done|done]|]. apply IH; lia.
Qed.

Lemma sift_spec fuel : ∀ h n i lo, 0 ≤ lo ≤ i → i < n → n ≤ zlen h → n < 2 ^ 31 → n - i ≤ Z.of_nat fuel →
  (∀ p c, lo ≤ p → p ≠ i → child p c → c < n → K (h.[c]) ≤ K (h.[p])) →
  (∀ p c, lo ≤ p → child p i → child i c → c < n → K (h.[c]) ≤ K (h.[p])) →
  ∃ h', heap_sift_down fuel h n i b = Ret h' ∧ h' ≡ₚ h ∧ (∀ j, n ≤ j → h'.[j] = h.[j]) ∧ heap_ok h' n lo.
Proof.
  induction fuel as [|fuel IH]; intros h n i lo Hi Hin Hn Hmax Hf Hok Hup; [lia|]. cbn [heap_sift_down]. rewrite !wrap_id by lia. rewrite !beats_K.
  set (t1 := if _ && _ then 2 * i + 1 else i). set (t := if _ && _ then 2 * i + 2 else t1).
  assert ((t = i ∨ child i t ∧ t < n ∧ K (h.[i]) < K (h.[t])) ∧ (∀ c, child i c → c < n → K (h.[c]) ≤ K (h.[t]))) as [Ht Hmx].
  { unfold t, t1, child. destruct (Z.ltb_spec (2 * i + 1) n), (Z.ltb_spec (K (h.[i])) (K (h.[2 * i + 1]))), (Z.ltb_spec (2 * i + 2) n); cbn [andb];
      repeat match goal with |- context [?x <? ?y] => destruct (Z.ltb_spec x y) end; (split; [lia|]); intros c [->| ->] Hc; lia. }
  destruct (Z.eqb_spec t i) as [E|Hne].
  { exists h. split; [done|]. split; [done|]. split; [done|]. intros p c Hp Hc Hcn. destruct (decide (p = i)) as [->|]; [|by apply Hok]. specialize (Hmx c Hc Hcn). rewrite E in Hmx. lia. }
  destruct Ht as [|(Hct & Htn & Hlt)]; [done|]. assert (i < t) by (unfold child in Hct; lia). set (h2 := h.[i <- h.[t]].[t <- h.[i]]).
  assert (∀ j, 0 ≤ j → h2.[j] = if decide (j = t) then h.[i] else if decide (j = i) then h.[t] else h.[j]) as E2.
  { intros j Hj. unfold h2. destruct (decide (j = t)) as [->|]; [by rewrite aget_aset_eq by (rewrite zlen_aset; lia)|]. rewrite aget_aset_ne by lia.
    destruct (decide (j = i)) as [->|]; [by rewrite aget_aset_eq by lia|by rewrite aget_aset_ne by lia]. }
  destruct (IH h2 n t lo) as (h' & -> & Hperm & Hout & Hh'); [lia|lia|unfold h2; by rewrite !zlen_aset|done|lia|..].
  - intros p c Hp Hpt Hc Hcn. rewrite !E2 by (unfold child in Hc; lia). destruct (decide (p = t)); [done|]. destruct (decide (p = i)) as [->|].
    + destruct (decide (c = t)); [lia|]. rewrite decide_False by (unfold child in Hc; lia). by apply Hmx.
    + rewrite (decide_False (P := c = t)) by (unfold child in *; lia). destruct (decide (c = i)) as [->|]; [apply (Hup p t); done|by apply Hok].
  - intros p c Hp Hpt Hc Hcn. rewrite !E2 by (unfold child in *; lia). assert (p = i) as -> by (unfold child in *; lia).
    rewrite (decide_False (P := i = t)), (decide_True (P := i = i)) by lia. rewrite !decide_False by (unfold child in *; lia). apply Hok; [lia|lia|done|done].
  - exists h'. split; [done|]. split; [rewrite Hperm; apply Permutation_swap; lia|]. split; [|done]. intros j Hj. rewrite Hout, E2 by lia. by rewrite !decide_False by lia.
Qed.
Lemma heapify_spec m : ∀ h n, Z.of_nat m ≤ n → n ≤ zlen h → n < 2 ^ 31 → heap_ok h n (Z.of_nat m) →
  ∃ h', heapify m h n b = Ret h' ∧ h' ≡ₚ h ∧ heap_ok h' n 0.
Proof.
  induction m as [|m IH]; intros h n Hm Hn Hmax Hh; cbn [heapify]; [by exists h|]. unfold sift.
  destruct (sift_spec (Z.to_nat n) h n (Z.of_nat m) (Z.of_nat m)) as (h1 & -> & Hp & _ & H1); [lia|lia|done|done|lia| |unfold child; lia|].
  { intros p c Hp Hne. apply Hh. lia. }
  cbn [mbind outcome_bind]. destruct (IH h1 n) as (h' & E & Hp' & Hh'); [lia|unfold zlen in *; by rewrite Hp|done|done|]. exists h'. split; [done|]. split; [by rewrite Hp'|done].
Qed.
Lemma heap_ok_elem h x : heap_ok h (zlen h) 0 → x ∈ h → K x ≤ K (h.[0]).
Proof.
  intros Hh [i Hi]%list_elem_of_lookup_1. pose proof (lookup_lt_Some _ _ _ Hi). assert (x = h.[Z.of_nat i]) as -> by (unfold aget; rewrite Nat2Z.id; symmetry; by apply list_lookup_total_correct).
  apply (heap_top h (zlen h)); [done|unfold zlen; lia].
Qed.

(** [h] holds the best [k] of the items [E]. *)
Record best_of (k : Z) (E h : list heap_item_t) : Prop := {
  bo_rest : ∃ rest, h ++ rest ≡ₚ E ∧ (∀ x y, x ∈ h → y ∈ rest → K x ≤ K y);
  bo_len : zlen h = Z.min k (zlen E);
  bo_heap : zlen h = k → heap_ok h k 0 }.
Lemma best_nil k : 0 < k → best_of k [] [].
Proof. intros Hk. split; [exists []; split; [done|]; intros x y Hx; by apply elem_of_nil in Hx|unfold zlen; cbn; lia|unfold zlen; cbn; lia]. Qed.
Lemma offer_spec k E h x : 0 < k < 2 ^ 31 → best_of k E h → ∃ h', offer k b h x = Ret h' ∧ best_of k (E ++ [x]) h'.
Proof.
  intros Hk [(rest & Hperm & Hle) Hlen Hheap]. unfold offer. pose proof (zlen_app E [x]) as HE. change (zlen [x]) with 1 in HE.
  assert (zlen h + zlen rest = zlen E) as Hl by (rewrite <- zlen_app; unfold zlen; by rewrite Hperm). pose proof (zlen_nonneg rest).
  destruct (Z.ltb_spec (zlen h) k) as [Hlt|Hge].
  - assert (rest = []) as -> by (destruct rest; [done|]; rewrite zlen_cons in *; pose proof (zlen_nonneg rest); lia). rewrite app_nil_r in Hperm.
    assert (∃ rest, (h ++ [x]) ++ rest ≡ₚ E ++ [x] ∧ (∀ y z, y ∈ h ++ [x] → z ∈ rest → K y ≤ K z)) as Hr.
    { exists []. split; [by rewrite app_nil_r, Hperm|]. intros y z _ Hz. by apply elem_of_nil in Hz. }
    pose proof (zlen_app h [x]) as Hh. change (zlen [x]) with 1 in Hh. destruct (Z.eqb_spec (zlen (h ++ [x])) k) as [Ek|Hne].
    + destruct (heapify_spec (Z.to_nat (k / 2)) (h ++ [x]) k) as (h' & -> & Hp & Hh'); [div_lia|lia|lia| |].
      { intros p c Hp Hc Hcn. unfold child in Hc. assert (k / 2 ≤ p) by lia. div_lia. }
      exists h'. split; [done|]. split; [|unfold zlen in *; rewrite Hp; lia|done]. destruct Hr as (r & Hr1 & Hr2). exists r. split; [by rewrite Hp|]. intros y z Hy. apply Hr2. by rewrite <- Hp.
    + exists (h ++ [x]). split; [done|]. split; [done|lia|lia].
  - assert (zlen h = k) as Ek by lia. specialize (Hheap Ek). destruct h as [|top t]; [change (zlen []) with 0 in Ek; lia|]. change ((top :: t).[0]) with top.
    assert ((if b then x.2 <? top.2 else x.2 >? top.2) = (K x <? K top)) as -> by (unfold K; destruct b; [done|]; rewrite Z.gtb_ltb; apply eq_true_iff_eq; rewrite !Z.ltb_lt; lia).
    assert (∀ y, y ∈ top :: t → K y ≤ K top) as Htop by (intros y Hy; change top with ((top :: t).[0]); apply heap_ok_elem; [by rewrite Ek|done]).
    destruct (Z.ltb_spec (K x) (K top)) as [Hb|Hb].
    + change ((top :: t).[0 <- x]) with (x :: t). unfold sift.
      destruct (sift_spec (Z.to_nat k) (x :: t) k 0 0) as (h' & -> & Hp & _ & Hh'); [lia|lia|rewrite zlen_cons in *; lia|lia|lia| |unfold child; lia|].
      { intros p c Hp Hne Hc Hcn. specialize (Hheap p c Hp Hc Hcn). unfold child in Hc.
        assert (∀ i, 0 < i → (x :: t).[i] = (top :: t).[i]) as Et; [|by rewrite !Et by lia]. intros i Hi. unfold aget. destruct (Z.to_nat i) eqn:Ei; [lia|done]. }
      exists h'. split; [done|]. assert (zlen h' = k) as Eh by (unfold zlen in *; rewrite Hp; cbn in *; lia). split; [|lia|done]. exists (top :: rest). split.
      * rewrite Hp. rewrite <- Hperm. cbn. rewrite (Permutation_app_comm _ [x]). cbn. rewrite <- Permutation_middle. solve_Permutation.
      * intros y z Hy Hz. rewrite Hp in Hy. apply elem_of_cons in Hy as [->|Hy]; apply elem_of_cons in Hz as [->|Hz].
        -- lia.
        -- specialize (Hle top z ltac:(by left) Hz). lia.
        -- apply Htop. by right.
        -- apply Hle; [by right|done].
    + exists (top :: t). split; [done|]. split; [|lia|intros _; exact Hheap]. exists (rest ++ [x]). split; [by rewrite app_assoc, Hperm|]. intros y z Hy Hz. apply elem_of_app in Hz as [Hz|Hz]; [by apply Hle|].
      apply list_elem_of_singleton in Hz as ->. specialize (Htop y Hy). lia.
Qed.
Lemma take_beyond (h h' : list heap_item_t) m : h' ≡ₚ h → (∀ j, Z.of_nat m ≤ j → h'.[j] = h.[j]) → (m ≤ length h)%nat → take m h' ≡ₚ take m h.
Proof.
  intros Hp Hj Hm. pose proof (Permutation_length Hp) as Hl. assert (drop m h' = drop m h) as Ed.
  { apply list_eq. intros i. rewrite !lookup_drop. destruct (decide (m + i < length h)%nat) as [Hlt|]; [|by rewrite !lookup_ge_None_2 by lia].
    specialize (Hj (Z.of_nat (m + i)) ltac:(lia)). unfold aget in Hj. rewrite Nat2Z.id in Hj. rewrite !list_lookup_lookup_total_lt by lia. by f_equal. }
  apply (Permutation_app_inv_r (drop m h)). rewrite <- Ed at 1. by rewrite !take_drop.
Qed.
Lemma take_last (x : heap_item_t) t m : (S m ≤ length (x :: t))%nat → take (S m) (x :: t) ≡ₚ x :: take m ((x :: t).[0 <- (x :: t).[Z.of_nat m]]).
Proof.
  intros Hi. destruct m as [|m]; [done|]. unfold aset, aget. rewrite Nat2Z.id. cbn [insert list_insert Z.to_nat take]. constructor. cbn [length] in Hi.
  change ((x :: t) !!! S m) with (t !!! m). rewrite (take_S_r t m (t !!! m)) by (apply list_lookup_lookup_total_lt; lia). by rewrite Permutation_app_comm.
Qed.
Lemma extract_spec i : ∀ h out, (i ≤ length h)%nat → zlen h < 2 ^ 31 → heap_ok h (Z.of_nat i) 0 → (∀ x y, x ∈ take i h → y ∈ out → K x ≤ K y) →
  StronglySorted (λ x y, K x ≤ K y) out →
  ∃ out', extract i h b out = Ret out' ∧ out' ≡ₚ take i h ++ out ∧ StronglySorted (λ x y, K x ≤ K y) out'.
Proof.
  induction i as [|m IH]; intros h out Hi Hmax Hh Hle Hs; [by exists out|]. cbn [extract]. destruct h as [|x t]; [cbn in Hi; lia|]. change ((x :: t).[0]) with x.
  set (h2 := (x :: t).[0 <- (x :: t).[Z.of_nat m]]). assert (length h2 = length (x :: t)) as El by apply length_aset.
  pose proof (take_last x t m Hi) as Hperm. fold h2 in Hperm.
  assert (∃ h3, (if (1 <? S m)%nat then sift h2 (Z.of_nat m) 0 b else Ret h2) = Ret h3 ∧ take m h3 ≡ₚ take m h2 ∧ length h3 = length h2 ∧ heap_ok h3 (Z.of_nat m) 0) as (h3 & -> & Hp3 & El3 & Hh3).
  { destruct m as [|m]; [exists h2; split; [done|]; split; [done|]; split; [done|]; intros p c Hp Hc Hcn; unfold child in Hc; lia|].
    cbn [Nat.ltb Nat.leb]. unfold sift. unfold zlen in Hmax. cbn [length] in *.
    destruct (sift_spec (Z.to_nat (Z.of_nat (S m))) h2 (Z.of_nat (S m)) 0 0) as (h3 & -> & Hp & Hj & Hh3); [lia|lia|unfold zlen; rewrite El; cbn [length]; lia|lia|lia| |unfold child; lia|].
    { intros p c Hp Hne Hc Hcn. unfold child in Hc. unfold h2. rewrite !aget_aset_ne by lia. apply Hh; [done|done|lia]. }
    exists h3. split; [done|]. split; [apply take_beyond; [done|done|rewrite El; cbn [length]; lia]|]. split; [by apply Permutation_length|done]. }
  cbn [mbind outcome_bind]. assert (∀ y, y ∈ take m h3 → y ∈ take (S m) (x :: t)) as Hsub by (intros y Hy; rewrite Hperm; right; by rewrite <- Hp3).
  destruct (IH h3 (x :: out)) as (out' & E & Hpo & Hso); [rewrite El3, El; lia|unfold zlen in *; rewrite El3, El; done|done|..].
  - intros y z Hy%Hsub Hz. apply elem_of_cons in Hz as [->|Hz]; [|by apply Hle]. apply list_elem_of_lookup_1 in Hy as [j Hj]. apply lookup_take_Some in Hj as [Hj Hjm].
    pose proof (heap_top (x :: t) (Z.of_nat (S m)) (Z.of_nat j) Hh ltac:(lia)) as Ht. unfold aget in Ht. rewrite Nat2Z.id in Ht. by rewrite (list_lookup_total_correct _ _ _ Hj) in Ht.
  - constructor; [done|]. apply Forall_forall. intros y Hy. apply Hle; [by left|done].
  - exists out'. split; [done|]. split; [|done]. rewrite Hpo, Hperm, Hp3. cbn. by rewrite Permutation_middle.
Qed.

(** The reference: the first [k] of the sorted distances. *)
Definition ranked (k : Z) (E out : list heap_item_t) : Prop := out ⊆+ E ∧ map K out = take (Z.to_nat k) (merge_sort Z.le (map K E)).
Lemma best_extract k E h : 0 < k < 2 ^ 31 → zlen h = k → best_of k E h → ∃ out, extract (length h) h b [] = Ret out ∧ zlen out = k ∧ ranked k E out.
Proof.
  intros Hk El [(rest & Hperm & Hle) Hlen Hheap]. destruct (extract_spec (length h) h []) as (out & E1 & Hp & Hs); [done|lia|unfold zlen in *; rewrite El; by apply Hheap| |constructor|].
  { intros x y _ Hy. by apply elem_of_nil in Hy. }
  rewrite app_nil_r, firstn_all in Hp. assert (length out = Z.to_nat k) as Elo by (rewrite Hp; unfold zlen in El; lia). exists out. split; [done|]. split; [unfold zlen; lia|].
  split; [rewrite Hp, <- Hperm; apply submseteq_inserts_r; done|]. set (R := merge_sort Z.le (map K rest)).
  assert (map K out ++ R = merge_sort Z.le (map K E)) as <-.
  { apply (StronglySorted_unique Z.le); [|apply StronglySorted_merge_sort; apply _|unfold R; rewrite !merge_sort_Permutation, Hp, <- Hperm; by rewrite map_app].
    apply StronglySorted_app. split; [|split; [|apply StronglySorted_merge_sort; apply _]].
    - intros y z Hy Hz. unfold R in Hz. rewrite merge_sort_Permutation in Hz. apply list_elem_of_fmap in Hy as (x1 & -> & H1). apply list_elem_of_fmap in Hz as (x2 & -> & H2).
      rewrite Hp in H1. by apply Hle.
    - clear -Hs. induction Hs as [|y l Hs IH Hy]; [constructor|]. cbn. constructor; [done|]. by apply Forall_map. }
  by rewrite take_app_length' by (by rewrite length_map, Elo).
Qed.
End heap.

(** * The flat index *)

Definition int8 (z : Z) : Prop := -128 ≤ z < 128.
Definition term (is_l2 : bool) (a b : Z) : Z := if is_l2 then (a - b) * (a - b) else a * b.
(** The squared distance or the inner product. *)
Definition score (is_l2 : bool) (q v : list Z) : Z := foldr Z.add 0 (zip_with (term is_l2) q v).
(** The largest dimension whose distances fit [int32_t]. *)
Definition MAX_DIM : Z := 33025.
(** What the index holds: identifiers and vectors. *)
Definition contents : Type := list (Z * list Z).
Definition scored (is_l2 : bool) (q : list Z) (C : contents) : list heap_item_t := map (λ c, (c.1, score is_l2 q c.2)) C.

Lemma sum_from_spec f l sum : Forall (λ p, Z.abs (f p.1 p.2) ≤ 65025) l → Z.abs sum + 65025 * zlen l < 2 ^ 31 →
  sum_from f l sum = Ret (sum + foldr Z.add 0 (map (λ p, f p.1 p.2) l)).
Proof.
  revert sum. induction l as [|[x y] l IH]; intros sum Hf Hs; [cbn; f_equal; lia|]. apply list.Forall_cons_1 in Hf as [Hp Hl]. rewrite zlen_cons in Hs. pose proof (zlen_nonneg l).
  cbn [fst snd] in Hp. cbn [sum_from map foldr fst snd]. assert (in_s32 (sum + f x y) = true) as -> by (apply andb_true_iff; split; [apply Z.leb_le; lia|apply Z.ltb_lt; lia]).
  rewrite IH by (done || lia). f_equal. lia.
Qed.
Lemma sub_list_all (l : list Z) n : zlen l = n → sub_list l 0 n = l.
Proof. intros <-. unfold sub_list. change (Z.to_nat 0) with O. rewrite drop_0. apply take_ge. unfold zlen. lia. Qed.
Lemma int8_term is_l2 x y : int8 x → int8 y → Z.abs (term is_l2 x y) ≤ 65025.
Proof. unfold int8, term. intros Hx Hy. destruct is_l2; nia. Qed.

Section search.
Context {H : Type} `{KH : KHeap H}.
Implicit Types (s : vstore H).

Definition holds (bl : gmap Z (list Z)) (dim : Z) (e : vec_entry_t) (c : Z * list Z) : Prop :=
  e.1 = c.1 ∧ bl !! e.2 = Some c.2 ∧ zlen c.2 = dim ∧ Forall int8 c.2.
Definition query_ok (q : list Z) (dim : Z) : Prop := zlen q = dim ∧ Forall int8 q.
Lemma metric_spec (is_l2 : bool) q v dim : 0 ≤ dim ≤ MAX_DIM → query_ok q dim → query_ok v dim →
  (if is_l2 then dist_l2_sq q v dim else dist_ip q v dim) = Ret (score is_l2 q v).
Proof.
  intros Hd [Hq Hq8] [Hl H8].
  assert (sum_from (term is_l2) (zip q v) 0 = Ret (score is_l2 q v)) as <-.
  { rewrite sum_from_spec.
    - f_equal. unfold score. cbn [Z.add]. f_equal. clear. revert q. induction v as [|y l IH]; intros [|x q]; [done..|]. cbn. by rewrite <- IH.
    - apply Forall_forall. intros [x y] Hxy. cbn. rewrite Forall_forall in Hq8, H8. apply int8_term; [apply Hq8; by eapply elem_of_zip_l|apply H8; by eapply elem_of_zip_r].
    - unfold zlen in *. rewrite length_zip_with. unfold MAX_DIM in Hd. lia. }
  unfold dist_l2_sq, dist_ip. rewrite !rd_block_ok by lia. cbn [mbind outcome_bind]. rewrite (sub_list_all q), (sub_list_all v) by done. by destruct is_l2.
Qed.
Lemma distance_spec s is_l2 q e dim c : 0 ≤ dim ≤ MAX_DIM → query_ok q dim → holds s.(blobs) dim e c →
  distance s is_l2 q e dim = Ret (score is_l2 q c.2).
Proof. intros Hd Hq (_ & Hb & Hl). unfold distance, blob. rewrite Hb. cbn [mbind outcome_bind]. by apply metric_spec. Qed.
Lemma select_spec s k is_l2 q dim l C : 0 < k < 2 ^ 31 → 0 ≤ dim ≤ MAX_DIM → query_ok q dim → Forall2 (holds s.(blobs) dim) l C → ∀ E h, best_of is_l2 k E h →
  ∃ h', select s k is_l2 q dim l h = Ret h' ∧ best_of is_l2 k (E ++ scored is_l2 q C) h'.
Proof.
  intros Hk Hd Hq Hl. induction Hl as [|e c l C He Hl IH]; intros E h Hh; [exists h; split; [done|by rewrite app_nil_r]|]. cbn [select scored map].
  rewrite (distance_spec s is_l2 q e dim c) by done. cbn [mbind outcome_bind]. destruct (offer_spec is_l2 k E h (e.1, score is_l2 q c.2) Hk Hh) as (h1 & -> & H1).
  cbn [mbind outcome_bind]. destruct (IH _ _ H1) as (h' & -> & Hb). exists h'. split; [done|]. by rewrite <- app_assoc, (proj1 He) in Hb.
Qed.
End search.

(** ** The flat index as a list *)

Inductive vec_op := Add (id : Z) (v : list Z) | Remove (id : Z) | Search (q : list Z) (k : Z) | Count.
Fixpoint without (id : Z) (C : contents) : option contents :=
  match C with [] => None | c :: C => if c.1 =? id then Some C else option_map (cons c) (without id C) end.
(** The results that a list of vectors allows; an allocation can fail. *)
Inductive flat_step (is_l2 : bool) (C : contents) : vec_op → contents → list heap_item_t * Z → Prop :=
| step_add id v : flat_step is_l2 C (Add id v) (C ++ [(id, v)]) ([], 0)
| step_add_fails id v : flat_step is_l2 C (Add id v) C ([], - ENOMEM)
| step_remove id C' : without id C = Some C' → flat_step is_l2 C (Remove id) C' ([], 0)
| step_remove_none id : without id C = None → flat_step is_l2 C (Remove id) C ([], - ENOENT)
| step_search q k out n : 0 < k → n = Z.min k (zlen C) → zlen out = n → ranked is_l2 n (scored is_l2 q C) out → flat_step is_l2 C (Search q k) C (out, n)
| step_search_fails q k : 0 < k → C ≠ [] → flat_step is_l2 C (Search q k) C ([], - ENOMEM)
| step_search_0 q : flat_step is_l2 C (Search q 0) C ([], - EINVAL)
| step_count : flat_step is_l2 C Count C ([], zlen C).
Inductive flat_steps (is_l2 : bool) : contents → list vec_op → contents → list (list heap_item_t * Z) → Prop :=
| steps_nil C : flat_steps is_l2 C [] C []
| steps_cons C o C1 r l C2 rs : flat_step is_l2 C o C1 r → flat_steps is_l2 C1 l C2 rs → flat_steps is_l2 C (o :: l) C2 (r :: rs).

Section flat.
Context {H : Type} `{KH : KHeap H}.
Implicit Types (s : vstore H) (x : vecindex).

Definition vec_do s (xo : option vecindex) (o : vec_op) : outcome (vstore H * option vecindex * (list heap_item_t * Z)) :=
  match o with
  | Add id v => '(s, xo, rc) ← vecindex_add s xo id (Some v); Ret (s, xo, ([], rc))
  | Remove id => '(s, xo, rc) ← vecindex_remove s xo id; Ret (s, xo, ([], rc))
  | Search q k => '(s, out, n) ← vecindex_search s xo (Some q) k true; Ret (s, xo, (out, n))
  | Count => n ← vecindex_count xo; Ret (s, xo, ([], n))
  end.
Fixpoint vec_run s (xo : option vecindex) (l : list vec_op) : outcome (vstore H * option vecindex * list (list heap_item_t * Z)) :=
  match l with [] => Ret (s, xo, []) | o :: l => '(s, xo, r) ← vec_do s xo o; '(s, xo, rs) ← vec_run s xo l; Ret (s, xo, r :: rs) end.
Definition op_ok (dim : Z) (o : vec_op) : Prop :=
  match o with Add _ v => query_ok v dim | Search q k => query_ok q dim ∧ 0 ≤ k < 2 ^ 32 | _ => True end.

(** The blocks of the index; [B0] are those of others, [N] bounds the capacity. *)
Definition own x : list Z := x.(self) :: (if x.(flat_ptr) =? 0 then [] else [x.(flat_ptr)]) ++ map snd x.(flat_entries).
Record flat_inv (B0 : gset Z) (N : Z) s x (C : contents) : Prop := {
  fi_flat : x.(type) = VECINDEX_FLAT ∧ x.(lists_ptr) = 0 ∧ x.(centroids_ptr) = 0;
  fi_dim : 0 ≤ x.(dim) ≤ MAX_DIM;
  fi_entries : Forall2 (holds s.(blobs) x.(dim)) x.(flat_entries) C;
  fi_own : NoDup (own x) ∧ Forall (λ p, p ≠ 0 ∧ p ∉ B0) (own x);
  fi_heap : kh_rep s.(heap) (list_to_set (own x) ∪ B0);
  fi_cap : zlen x.(flat_entries) ≤ x.(flat_capacity) ≤ N ∧ zlen x.(flat_entries) + 256 ≤ N }.

Lemma v_kmalloc_spec s B n : kh_rep s.(heap) B → 0 ≤ n < 2 ^ 64 →
  ∃ s' p, v_kmalloc s n = Ret (s', p) ∧ s'.(blobs) = s.(blobs) ∧ (p = 0 ∧ kh_rep s'.(heap) B ∨ p ≠ 0 ∧ 0 < n ≤ KMALLOC_MAX ∧ p ∉ B ∧ kh_rep s'.(heap) ({[p]} ∪ B)).
Proof.
  intros Hh Hn. unfold v_kmalloc. destruct (kmalloc_spec _ _ _ Hh Hn) as (h' & p & -> & Hc). exists (with_heap s h'), p. split; [done|]. split; [done|].
  destruct Hc as [Hc|(Hp & Hn' & Hi & Hr)]; [by left|right]. split; [lia|done].
Qed.
Lemma v_krealloc_spec s B p n : kh_rep s.(heap) B → p = 0 ∨ p ∈ B → 0 < n < 2 ^ 64 →
  ∃ s' q, v_krealloc s p n = Ret (s', q) ∧ s'.(blobs) = s.(blobs) ∧
    (q = 0 ∧ kh_rep s'.(heap) B ∨ q ≠ 0 ∧ (p ≠ 0 ∧ q = p ∨ q ∉ B) ∧ kh_rep s'.(heap) ({[q]} ∪ if decide (p = 0) then B else B ∖ {[p]})).
Proof.
  intros Hh Hp Hn. unfold v_krealloc. destruct (decide (p = 0)) as [->|Hne].
  - rewrite krealloc_null. destruct (kmalloc_spec _ _ n Hh ltac:(lia)) as (h' & q & -> & Hc). exists (with_heap s h'), q. split; [done|]. split; [done|].
    destruct Hc as [Hc|(Hq & _ & Hi & Hr)]; [by left|right]. split; [lia|]. split; [by right|done].
  - destruct Hp as [|Hp]; [done|]. destruct (krealloc_spec _ _ p n Hh Hp Hn) as (h' & q & -> & Hc). exists (with_heap s h'), q. split; [done|]. split; [done|].
    destruct Hc as [Hc|(Hq & Hi & Hr)]; [by left|right]. split; [lia|]. split; [naive_solver|]. replace ({[q]} ∪ B ∖ {[p]}) with (({[q]} ∪ B ∖ {[p]} : gset Z)) by done. done.
Qed.
Lemma v_kfree_spec s B p : kh_rep s.(heap) B → p ∈ B → ∃ s', v_kfree s p = Ret s' ∧ s'.(blobs) = s.(blobs) ∧ kh_rep s'.(heap) (B ∖ {[p]}).
Proof. intros Hh Hp. unfold v_kfree. destruct (kfree_spec _ _ p Hh Hp) as (h' & -> & Hr). by exists (with_heap s h'). Qed.
Lemma vec_free_spec s B p d : kh_rep s.(heap) B → p ∈ B → s.(blobs) !! p = Some d →
  ∃ s', free_blob s p = Ret s' ∧ s'.(blobs) = delete p s.(blobs) ∧ kh_rep s'.(heap) (B ∖ {[p]}).
Proof.
  intros Hh Hp Hd. unfold free_blob, blob. rewrite Hd. cbn [mbind outcome_bind]. destruct (v_kfree_spec s B p Hh Hp) as (s' & -> & Eb & Hr). eexists. split; [done|].
  cbn [blobs heap]. by rewrite Eb.
Qed.

(** The blocks of an index can be listed in any order, with the rest of the heap. *)
Lemma own_flat x p cap : own (set_flat x p x.(flat_entries) cap) = x.(self) :: (if p =? 0 then [] else [p]) ++ map snd x.(flat_entries).
Proof. done. Qed.
Lemma grow_spec B0 N s x C : flat_inv B0 N s x C → N < 2 ^ 31 →
  ∃ s' g, grow s x.(flat_ptr) (zlen x.(flat_entries)) x.(flat_capacity) = Ret (s', g) ∧
    match g with
    | None => flat_inv B0 N s' x C
    | Some (p, cap) => flat_inv B0 N s' (set_flat x p x.(flat_entries) cap) C ∧ zlen x.(flat_entries) < cap
    end.
Proof.
  intros [Hf Hd He [Hn Hal] Hh Hc] HN. unfold grow. pose proof (zlen_nonneg (flat_entries x)). destruct (Z.geb_spec (zlen (flat_entries x)) (flat_capacity x)) as [Hge|Hlt].
  2:{ eexists s, _. split; [done|]. cbn. split; [|lia]. split; try done. }
  rewrite wrap_id by (unfold VEC_BLOCK_SIZE; lia). unfold SIZEOF_ENTRY, VEC_BLOCK_SIZE. set (B := list_to_set (own x) ∪ B0) in *.
  assert (flat_ptr x = 0 ∨ flat_ptr x ∈ B) as Hp by (unfold B, own; destruct (Z.eqb_spec (flat_ptr x) 0); [by left|right; set_solver]).
  destruct (v_krealloc_spec s B (flat_ptr x) ((flat_capacity x + 256) * 16) Hh Hp ltac:(lia)) as (s' & q & -> & Eb & Hq). cbn [mbind outcome_bind].
  destruct (Z.eqb_spec q 0) as [->|Hq0].
  { exists s', None. split; [done|]. destruct Hq as [[_ Hq]|[? _]]; [|done]. split; try done. by rewrite Eb. }
  exists s', (Some (q, flat_capacity x + 256)). split; [done|]. split; [|lia]. destruct Hq as [[? _]|(_ & Hin & Hr)]; [done|].
  split; [done|done|by rewrite Eb| | |cbn; lia].
  - rewrite own_flat, (proj2 (Z.eqb_neq q 0)) by done. unfold own in *. destruct (Z.eqb_spec (flat_ptr x) 0) as [E0|Hne]; cbn [app] in *.
    + destruct Hin as [[? _]|Hin]; [done|]. unfold B in Hin. apply list.Forall_cons_1 in Hal as [Ha1 Ha2]. apply NoDup_cons in Hn as [Hn1 Hn2].
      split; [apply NoDup_cons; split; [set_solver|apply NoDup_cons; split; [set_solver|done]]|]. constructor; [done|]. constructor; [split; [done|set_solver]|done].
    + apply NoDup_cons in Hn as [Hn1 Hn2]. apply NoDup_cons in Hn2 as [Hn2 Hn3]. apply list.Forall_cons_1 in Hal as [Ha1 [Ha2 Ha3]%list.Forall_cons_1].
      destruct Hin as [[_ ->]|Hin]; [split; [by apply NoDup_cons; split; [|apply NoDup_cons]|constructor; [done|by constructor]]|]. unfold B in Hin.
      split; [apply NoDup_cons; split; [set_solver|apply NoDup_cons; split; [set_solver|done]]|constructor; [done|constructor; [split; [done|set_solver]|done]]].
  - rewrite own_flat, (proj2 (Z.eqb_neq q 0)) by done. eapply eq_ind; [exact Hr|]. unfold B, own. unfold own in Hn, Hal. destruct (Z.eqb_spec (flat_ptr x) 0) as [E0|Hne]; cbn [app] in *.
    + rewrite decide_True by done. set_solver.
    + rewrite decide_False by done. apply NoDup_cons in Hn as [Hn1 Hn2]. apply NoDup_cons in Hn2 as [Hn2 Hn3]. apply list.Forall_cons_1 in Hal as [Ha1 [Ha2 Ha3]%list.Forall_cons_1]. set_solver.
Qed.
Lemma own_app x p cap l : p ≠ 0 → own (set_flat x p l cap) = x.(self) :: p :: map snd l.
Proof. intros Hp. unfold own. cbn [set_flat flat_ptr self flat_entries]. by rewrite (proj2 (Z.eqb_neq p 0)). Qed.
Lemma entry_owned x e : e ∈ x.(flat_entries) → e.2 ∈ own x.
Proof. intros He. unfold own. right. apply elem_of_app. right. apply list_elem_of_fmap. by exists e. Qed.
Lemma holds_other bl dim l C p d : Forall2 (holds bl dim) l C → p ∉ map snd l → Forall2 (holds (<[p := d]> bl) dim) l C.
Proof.
  intros Hl Hp. induction Hl as [|e c l C (E1 & E2 & E3) Hl IH]; [constructor|]. cbn in Hp. apply not_elem_of_cons in Hp as [Hp1 Hp2]. constructor; [|by apply IH].
  split; [done|]. split; [by rewrite lookup_insert_ne|done].
Qed.
Lemma copy_vec_spec s B v dim : kh_rep s.(heap) B → query_ok v dim → 0 ≤ dim ≤ MAX_DIM →
  ∃ s' p, copy_vec s v dim = Ret (s', p) ∧
    (p = 0 ∧ s'.(blobs) = s.(blobs) ∧ kh_rep s'.(heap) B ∨ p ≠ 0 ∧ p ∉ B ∧ s'.(blobs) = <[p := v]> s.(blobs) ∧ kh_rep s'.(heap) ({[p]} ∪ B)).
Proof.
  intros Hh [Hv _] Hd. unfold copy_vec. destruct (v_kmalloc_spec s B dim Hh) as (s1 & p & -> & Eb & Hc); [unfold MAX_DIM in Hd; lia|]. cbn [mbind outcome_bind].
  destruct (Z.eqb_spec p 0) as [->|Hp].
  - exists s1, 0. split; [done|]. left. destruct Hc as [[_ Hc]|[? _]]; done.
  - destruct Hc as [[? _]|(_ & _ & Hi & Hr)]; [done|]. rewrite rd_block_ok by lia. cbn [mbind outcome_bind]. eexists _, p. split; [done|]. right. cbn [blobs heap]. rewrite Eb.
    split; [done|]. split; [done|]. split; [|done]. f_equal. by apply sub_list_all.
Qed.
Lemma flat_inv_mono B0 N N' s x C : flat_inv B0 N s x C → N ≤ N' → flat_inv B0 N' s x C.
Proof. intros [Hf Hd He Hn Hh Hc] HN. split; try done. lia. Qed.
Lemma flat_add_spec B0 N s x C id v : flat_inv B0 N s x C → N < 2 ^ 31 → query_ok v x.(dim) →
  ∃ s' x' rc, flat_add s x id v = Ret (s', x', rc) ∧ x'.(dim) = x.(dim) ∧ x'.(dist) = x.(dist) ∧
    (rc = - ENOMEM ∧ flat_inv B0 (N + 1) s' x' C ∨ rc = 0 ∧ flat_inv B0 (N + 1) s' x' (C ++ [(id, v)])).
Proof.
  intros Hi HN Hv. unfold flat_add. destruct (grow_spec B0 N s x C Hi HN) as (s1 & g & -> & Hg). cbn [mbind outcome_bind]. destruct g as [[p cap]|].
  2:{ exists s1, x, (- ENOMEM). split; [done|]. do 2 (split; [done|]). left. split; [done|]. by apply (flat_inv_mono B0 N); [|lia]. }
  destruct Hg as [Hg Hcap]. set (x1 := set_flat x p (flat_entries x) cap) in *. destruct Hg as [Hf Hd He [Hn Hal] Hh Hc].
  change (dim x1) with (dim x) in *. destruct (copy_vec_spec s1 _ v (dim x) Hh Hv Hd) as (s2 & q & -> & Hq). cbn [mbind outcome_bind]. destruct (Z.eqb_spec q 0) as [->|Hq0].
  { exists s2, x1, (- ENOMEM). split; [done|]. do 2 (split; [done|]). left. split; [done|]. destruct Hq as [(_ & Eb & Hr)|[? _]]; [|done]. split; try done; [by rewrite Eb|lia]. }
  destruct Hq as [[? _]|(_ & Hq & Eb & Hr)]; [done|]. eexists s2, _, 0. split; [done|]. do 2 (split; [done|]). right. split; [done|].
  set (x2 := set_flat x1 p (flat_entries x1 ++ [(id, q)]) cap).
  assert (own x2 ≡ₚ q :: own x1) as Ho.
  { unfold own, x2, x1. cbn [set_flat self flat_ptr flat_entries]. rewrite map_app, app_assoc. apply (Permutation_app_comm (_ :: _) [q]). }
  split; [done|done| | | |].
  - apply Forall2_app; [|constructor; [|constructor]].
    + rewrite Eb. apply holds_other; [done|]. intros Hin. apply Hq. apply elem_of_union_l, elem_of_list_to_set. unfold own. right. apply elem_of_app. by right.
    + split; [done|]. rewrite Eb. cbn. rewrite lookup_insert_eq. destruct Hv as [Hv1 Hv2]. done.
  - rewrite Ho. split; [apply NoDup_cons; split; [set_solver|done]|]. constructor; [split; [done|set_solver]|done].
  - eapply eq_ind; [exact Hr|]. rewrite (list_to_set_perm_L _ _ Ho). cbn. set_solver.
  - cbn [x2 x1 set_flat flat_entries flat_capacity] in *. rewrite zlen_app. change (zlen [(id, q)]) with 1. cbn [x1 set_flat flat_entries flat_capacity] in Hc. lia.
Qed.
Lemma holds_delete bl dim l C p : Forall2 (holds bl dim) l C → p ∉ map snd l → Forall2 (holds (delete p bl) dim) l C.
Proof.
  intros Hl Hp. induction Hl as [|e c l C (E1 & E2 & E3) Hl IH]; [constructor|]. cbn in Hp. apply not_elem_of_cons in Hp as [Hp1 Hp2]. constructor; [|by apply IH].
  split; [done|]. split; [by rewrite lookup_delete_ne|done].
Qed.
Lemma remove_entry_spec s dim id l : ∀ C B, kh_rep s.(heap) B → Forall2 (holds s.(blobs) dim) l C → Forall (λ p, p ≠ 0 ∧ p ∈ B) (map snd l) →
  match without id C with
  | None => remove_entry s l id = Ret (s, None)
  | Some C' => ∃ s' l' p, remove_entry s l id = Ret (s', Some l') ∧ map snd l ≡ₚ p :: map snd l' ∧ Forall2 (holds s.(blobs) dim) l' C' ∧
      s'.(blobs) = delete p s.(blobs) ∧ kh_rep s'.(heap) (B ∖ {[p]})
  end.
Proof.
  intros C B Hh Hl. induction Hl as [|e c l C (E1 & E2 & E3) Hl IH]; intros Hp; [done|]. cbn in Hp. apply list.Forall_cons_1 in Hp as [[Hp1 Hp2] Hp3].
  cbn [without remove_entry]. rewrite E1. destruct (c.1 =? id).
  - rewrite (proj2 (Z.eqb_neq _ 0)) by done. cbn [negb]. destruct (vec_free_spec s B e.2 c.2 Hh Hp2 E2) as (s' & -> & Eb & Hr). by exists s', l, e.2.
  - specialize (IH Hp3). destruct (without id C) as [C'|]; cbn [option_map]; [|by rewrite IH].
    destruct IH as (s' & l' & p & -> & Hperm & Hl' & Eb & Hr). exists s', (e :: l'), p. split; [done|]. split; [cbn; rewrite Hperm; constructor|]. split; [|done]. by constructor.
Qed.
Lemma flat_remove_spec B0 N s x C id : flat_inv B0 N s x C →
  match without id C with
  | None => remove_entry s x.(flat_entries) id = Ret (s, None)
  | Some C' => ∃ s' l, remove_entry s x.(flat_entries) id = Ret (s', Some l) ∧ flat_inv B0 (N + 1) s' (set_flat x x.(flat_ptr) l x.(flat_capacity)) C'
  end.
Proof.
  intros [Hf Hd He [Hn Hal] Hh Hc]. pose proof (remove_entry_spec s x.(dim) id x.(flat_entries) C _ Hh He) as Hr. specialize (Hr ltac:(
    apply Forall_forall; intros p Hp; assert (p ∈ own x) by (unfold own; right; apply elem_of_app; by right); rewrite Forall_forall in Hal; split; [by apply Hal|set_solver])).
  destruct (without id C) as [C'|]; [|done]. destruct Hr as (s' & l & p & -> & Hperm & Hl & Eb & Hr). exists s', l. split; [done|].
  set (x2 := set_flat _ _ _ _). assert (own x ≡ₚ p :: own x2) as Ho.
  { unfold own, x2. cbn [set_flat self flat_ptr flat_entries]. rewrite Hperm. rewrite <- Permutation_middle. constructor. }
  rewrite Ho in Hn, Hal. apply NoDup_cons in Hn as [Hn1 Hn2]. apply list.Forall_cons_1 in Hal as [Hp Hal]. split; [done|done| | | |].
  - rewrite Eb. apply holds_delete; [done|]. intros Hin. apply Hn1. unfold own. right. apply elem_of_app. by right.
  - done.
  - eapply eq_ind; [exact Hr|]. rewrite (list_to_set_perm_L _ _ Ho). cbn. set_solver.
  - cbn [x2 set_flat flat_entries flat_capacity]. assert (zlen (flat_entries x) = zlen l + 1) by (apply Permutation_length in Hperm; cbn in Hperm; rewrite !length_map in Hperm; unfold zlen, vec_entry_t in *; lia). lia.
Qed.
Lemma flat_search_spec B0 N s x C q k : flat_inv B0 N s x C → query_ok q x.(dim) → 0 < k < 2 ^ 32 →
  ∃ s' out n, flat_search s x q k = Ret (s', out, n) ∧ flat_inv B0 N s' x C ∧ flat_step (is_l2_of x) C (Search q k) C (out, n).
Proof.
  intros [Hf Hd He [Hn Hal] Hh Hc] Hq Hk. unfold flat_search. assert (zlen (flat_entries x) = zlen C) as El by (unfold zlen; by rewrite (Forall2_length _ _ _ He)). rewrite El.
  rewrite (proj2 (Z.eqb_neq k 0)) by lia. cbn [orb]. destruct (Z.eqb_spec (zlen C) 0) as [E0|Hne].
  { exists s, [], 0. split; [done|]. split; [done|]. assert (C = []) as -> by (destruct C; [done|]; rewrite zlen_cons in E0; pose proof (zlen_nonneg C); lia).
    apply step_search; [lia|unfold zlen; cbn; lia|done|]. split; [done|by rewrite take_0]. }
  pose proof (zlen_nonneg C). set (m := if k >? zlen C then zlen C else k). assert (m = Z.min k (zlen C)) as Em by (unfold m; destruct (Z.gtb_spec k (zlen C)); lia).
  destruct (v_kmalloc_spec s _ (m * 16) Hh ltac:(lia)) as (s1 & p & -> & Eb & Hp). cbn [mbind outcome_bind]. destruct (Z.eqb_spec p 0) as [->|Hp0].
  { destruct Hp as [[_ Hr]|[? _]]; [|done]. exists s1, [], (- ENOMEM). split; [done|]. split; [split; try done; by rewrite Eb|]. apply step_search_fails; [lia|]. intros ->. by apply Hne. }
  destruct Hp as [[? _]|(_ & Hm & Hi & Hr)]; [done|]. unfold KMALLOC_MAX in Hm.
  destruct (select_spec s1 m (is_l2_of x) q x.(dim) x.(flat_entries) C ltac:(lia) Hd Hq) with (E := @nil heap_item_t) (h := @nil heap_item_t) as (h & -> & Hb); [by rewrite Eb|apply best_nil; lia|].
  cbn [mbind outcome_bind app] in *. assert (zlen (scored (is_l2_of x) q C) = zlen C) as Es by (unfold zlen, scored; by rewrite length_map).
  assert (zlen h = m) as Eh by (rewrite (bo_len _ _ _ _ Hb), Es; lia). destruct (best_extract (is_l2_of x) m _ h ltac:(lia) Eh Hb) as (out & -> & Hlo & Hrk). cbn [mbind outcome_bind].
  destruct (v_kfree_spec s1 _ p Hr ltac:(set_solver)) as (s2 & -> & Eb2 & Hr2). cbn [mbind outcome_bind]. exists s2, out, m. split; [|split].
  - do 3 f_equal. rewrite Eh. unfold swrap. rewrite wrap_id by lia. by rewrite (proj2 (Z.ltb_lt _ _)) by lia.
  - split; try done; [by rewrite Eb2, Eb|]. eapply eq_ind; [exact Hr2|]. set_solver.
  - apply step_search; [lia|lia|done|done].
Qed.
Lemma vec_do_spec B0 N s x C o : flat_inv B0 N s x C → N < 2 ^ 31 → op_ok x.(dim) o →
  ∃ s' x' r C', vec_do s (Some x) o = Ret (s', Some x', r) ∧ x'.(dim) = x.(dim) ∧ x'.(dist) = x.(dist) ∧
    flat_inv B0 (N + 1) s' x' C' ∧ flat_step (is_l2_of x) C o C' r.
Proof.
  intros Hi HN Ho. pose proof (flat_inv_mono B0 N (N + 1) s x C Hi ltac:(lia)) as Hi1. destruct (fi_flat _ _ _ _ _ Hi) as [Ht _].
  destruct o as [id v|id|q k|]; cbn [vec_do op_ok] in *.
  - unfold vecindex_add, add_one. rewrite Ht. cbn [Z.eqb VECINDEX_FLAT]. destruct (flat_add_spec B0 N s x C id v Hi HN Ho) as (s' & x' & rc & -> & Hd1 & Hd2 & Hc).
    cbn [mbind outcome_bind]. destruct Hc as [[-> Hc]|[-> Hc]]; eexists s', x', _, _; do 3 (split; [done|]); split; try exact Hc; constructor.
  - unfold vecindex_remove. rewrite Ht. cbn [Z.eqb VECINDEX_FLAT]. pose proof (flat_remove_spec B0 N s x C id Hi) as Hr. destruct (without id C) as [C'|] eqn:Ew.
    + destruct Hr as (s' & l & -> & Hi'). cbn [mbind outcome_bind]. eexists s', _, _, C'. do 3 (split; [done|]). split; [done|]. by constructor.
    + rewrite Hr. cbn [mbind outcome_bind]. eexists s, x, _, C. do 3 (split; [done|]). split; [done|]. by constructor.
  - destruct Ho as [Hq Hk]. unfold vecindex_search. cbn [negb orb]. destruct (Z.eqb_spec k 0) as [->|Hk0].
    + eexists s, x, _, C. do 3 (split; [done|]). split; [done|apply step_search_0].
    + rewrite Ht. cbn [Z.eqb VECINDEX_FLAT]. destruct (flat_search_spec B0 (N + 1) s x C q k Hi1 Hq ltac:(lia)) as (s' & out & n & -> & Hi' & Hst). cbn [mbind outcome_bind]. by exists s', x, (out, n), C.
  - unfold vecindex_count. rewrite Ht. cbn [Z.eqb VECINDEX_FLAT mbind outcome_bind]. exists s, x, ([], zlen C), C. split; [|split; [done|split; [done|split; [done|constructor]]]].
    do 3 f_equal. unfold zlen. by rewrite (Forall2_length _ _ _ (fi_entries _ _ _ _ _ Hi)).
Qed.
Lemma vec_run_spec B0 l : ∀ N s x C, flat_inv B0 N s x C → N + zlen l < 2 ^ 31 → Forall (op_ok x.(dim)) l →
  ∃ s' x' rs C', vec_run s (Some x) l = Ret (s', Some x', rs) ∧ flat_inv B0 (N + zlen l) s' x' C' ∧ flat_steps (is_l2_of x) C l C' rs.
Proof.
  induction l as [|o l IH]; intros N s x C Hi HN Ho; cbn [vec_run].
  - exists s, x, [], C. split; [done|]. split; [|constructor]. change (zlen []) with 0. by rewrite Z.add_0_r.
  - rewrite zlen_cons in *. pose proof (zlen_nonneg l). apply list.Forall_cons_1 in Ho as [Ho Hl].
    destruct (vec_do_spec B0 N s x C o Hi ltac:(lia) Ho) as (s1 & x1 & r & C1 & -> & Ed & Es & Hi1 & Hst). cbn [mbind outcome_bind].
    destruct (IH (N + 1) s1 x1 C1 Hi1 ltac:(lia)) as (s2 & x2 & rs & C2 & -> & Hi2 & Hsts); [by rewrite Ed|]. cbn [mbind outcome_bind].
    exists s2, x2, (r :: rs), C2. split; [done|]. split; [by replace (N + (zlen l + 1)) with (N + 1 + zlen l) by lia|]. unfold is_l2_of in *. rewrite Es in Hsts. by econstructor.
Qed.
Lemma free_entries_spec dim l C : ∀ s B, kh_rep s.(heap) B → Forall2 (holds s.(blobs) dim) l C → NoDup (map snd l) → Forall (λ p, p ≠ 0 ∧ p ∈ B) (map snd l) →
  ∃ s', free_entries s l = Ret s' ∧ kh_rep s'.(heap) (B ∖ list_to_set (map snd l)).
Proof.
  revert C. induction l as [|e l IH]; intros C s B Hh Hl Hn Hp; cbn [free_entries].
  - exists s. split; [done|]. eapply eq_ind; [exact Hh|]. cbn. set_solver.
  - inversion Hl as [|? c ? C' (E1 & E2 & E3) Hl' X1 X2]; subst. cbn in Hn, Hp. apply NoDup_cons in Hn as [Hn1 Hn2]. apply list.Forall_cons_1 in Hp as [[Hp1 Hp2] Hp3].
    rewrite (proj2 (Z.eqb_neq _ 0)) by done. cbn [negb]. destruct (vec_free_spec s B e.2 c.2 Hh Hp2 E2) as (s1 & -> & Eb & Hr). cbn [mbind outcome_bind].
    destruct (IH C' s1 _ Hr) as (s' & -> & Hr'); [rewrite Eb; by apply holds_delete|done| |].
    + apply Forall_forall. intros p Hin. rewrite Forall_forall in Hp3. specialize (Hp3 p Hin). set_solver.
    + exists s'. split; [done|]. eapply eq_ind; [exact Hr'|]. cbn. set_solver.
Qed.
Lemma vec_destroy_spec B0 N s x C : flat_inv B0 N s x C → ∃ s', vecindex_destroy s (Some x) = Ret s' ∧ kh_rep s'.(heap) B0.
Proof.
  intros [(Hf & Hl0 & Hc0) Hd He [Hn Hal] Hh Hc]. unfold vecindex_destroy. unfold own in Hn, Hal, Hh. apply NoDup_cons in Hn as [Hn1 Hn2]. apply list.Forall_cons_1 in Hal as [Ha1 Ha2].
  apply NoDup_app in Hn2 as (_ & Hn3 & Hn4). apply Forall_app in Ha2 as [Ha2 Ha3]. set (fl := if flat_ptr x =? 0 then [] else [flat_ptr x]) in *.
  destruct (free_entries_spec _ _ _ s _ Hh He Hn4) as (s1 & -> & H1).
  { apply Forall_forall. intros p Hp. rewrite Forall_forall in Ha3. specialize (Ha3 p Hp). set_solver. }
  cbn [mbind outcome_bind]. set (B1 := _ ∖ _) in H1.
  assert (∃ s2, (if negb (flat_ptr x =? 0) then v_kfree s1 (flat_ptr x) else Ret s1) = Ret s2 ∧ kh_rep s2.(heap) ({[self x]} ∪ B0)) as (s2 & -> & H2).
  { unfold fl in *. destruct (Z.eqb_spec (flat_ptr x) 0) as [E0|Hne]; cbn [negb].
    - exists s1. split; [done|]. eapply eq_ind; [exact H1|]. unfold B1. rewrite Forall_forall in Ha3. set_solver.
    - destruct (v_kfree_spec s1 B1 (flat_ptr x) H1) as (s2 & -> & _ & H2).
      { unfold B1. set_solver. }
      exists s2. split; [done|]. eapply eq_ind; [exact H2|]. unfold B1. rewrite Forall_forall in Ha2, Ha3. set_solver. }
  cbn [mbind outcome_bind]. rewrite Hl0, Hc0. cbn [negb Z.eqb mbind outcome_bind]. destruct (v_kfree_spec s2 _ (self x) H2 ltac:(set_solver)) as (s3 & -> & _ & H3). exists s3. split; [done|].
  eapply eq_ind; [exact H3|]. set_solver.
Qed.
Lemma vec_create_spec B0 s dm ds : kh_rep s.(heap) B0 → 0 ≤ dm ≤ MAX_DIM →
  ∃ s' xo, vecindex_create s dm VECINDEX_FLAT ds = Ret (s', xo) ∧
    match xo with None => kh_rep s'.(heap) B0 | Some x => flat_inv B0 256 s' x [] ∧ x.(dim) = dm ∧ x.(dist) = ds end.
Proof.
  intros Hh Hd. unfold vecindex_create, v_kcalloc. destruct (kcalloc_spec _ _ 1 SIZEOF_INDEX Hh ltac:(lia) ltac:(unfold SIZEOF_INDEX; lia)) as (h & p & -> & Hc). cbn [mbind outcome_bind].
  change (VECINDEX_FLAT =? VECINDEX_IVF) with false. cbn match. destruct (Z.eqb_spec p 0) as [->|Hp].
  - eexists _, None. split; [done|]. by destruct Hc as [[_ Hc]|[? _]].
  - destruct Hc as [[? _]|(_ & _ & Hi & Hr)]; [done|]. eexists _, (Some _). split; [reflexivity|]. split; [|done]. split; [done|done|constructor| | |unfold zlen; cbn; lia].
    + split; [apply NoDup_singleton|]. by constructor.
    + eapply eq_ind; [exact Hr|]. cbn. set_solver.
Qed.
End flat.

(** C10: A flat index is a list of vectors: every history of additions, removals, searches
    and counts returns what the list returns, unless there is no memory; a search gives
    the first [k] of the distances in order; and destroying the index gives back every
    block that it took. *)
Theorem vecindex_flat_refines {H} `{KH : KHeap H} (s : vstore H) (B0 : gset Z) (dim dist : Z) (l : list vec_op) :
  kh_rep s.(heap) B0 → 0 ≤ dim ≤ MAX_DIM → Forall (op_ok dim) l → zlen l < 2 ^ 30 →
  ∃ s1 xo, vecindex_create s dim VECINDEX_FLAT dist = Ret (s1, xo) ∧
    match xo with
    | None => kh_rep s1.(heap) B0
    | Some x => ∃ s2 x2 rs C s3, vec_run s1 (Some x) l = Ret (s2, Some x2, rs) ∧ flat_steps (dist =? VECDIST_L2) [] l C rs ∧
        vecindex_destroy s2 (Some x2) = Ret s3 ∧ kh_rep s3.(heap) B0
    end.
Proof.
  intros Hh Hd Ho Hl. destruct (vec_create_spec B0 s dim dist Hh Hd) as (s1 & [x|] & E & Hx); exists s1; [exists (Some x)|by exists None]. split; [done|]. destruct Hx as (Hi & <- & <-).
  destruct (vec_run_spec B0 l 256 s1 x [] Hi ltac:(lia) Ho) as (s2 & x2 & rs & C & E2 & Hi2 & Hst). destruct (vec_destroy_spec _ _ _ _ _ Hi2) as (s3 & E3 & Hr). by exists s2, x2, rs, C, s3.
Qed.
Definition demo_vstore : vstore (Slab.heap pmm_t) := {| heap := demo_heap; blobs := ∅ |}.
Definition demo_vecs : list vec_op :=
  [Add 1 [3; 4]; Add 2 [0; 1]; Search [0; 0] 5; Add 3 [-1; -1]; Search [0; 0] 2; Remove 2; Search [0; 0] 1; Count; Remove 7].
Lemma demo_vecs_ok : Forall (op_ok 2) demo_vecs.
Proof. by repeat (constructor; [cbn; unfold query_ok, int8, zlen; cbn; repeat (split || constructor); lia|]). Qed.
Lemma vecindex_flat_refines_witness :
  (∃ s1 xo, vecindex_create demo_vstore 2 VECINDEX_FLAT VECDIST_L2 = Ret (s1, xo) ∧
    match xo with
    | None => kh_rep s1.(heap) ∅
    | Some x => ∃ s2 x2 rs C s3, vec_run s1 (Some x) demo_vecs = Ret (s2, Some x2, rs) ∧ flat_steps true [] demo_vecs C rs ∧
        vecindex_destroy s2 (Some x2) = Ret s3 ∧ kh_rep s3.(heap) ∅
    end) ∧
  match vecindex_create demo_vstore 2 VECINDEX_FLAT VECDIST_L2 with
  | Ret (s1, xo) => match vec_run s1 xo demo_vecs with Ret (_, _, rs) => rs = [([], 0); ([], 0); ([(2, 1); (1, 25)], 2); ([], 0); ([(2, 1); (3, 2)], 2); ([], 0); ([(3, 2)], 1); ([], 2); ([], - ENOENT)] | _ => False end
  | _ => False
  end.
Proof. split; [|by vm_compute]. apply (vecindex_flat_refines demo_vstore ∅ 2 VECDIST_L2 demo_vecs); [exact demo_heap_rep|unfold MAX_DIM; lia|exact demo_vecs_ok|done]. Defined.

(** * The inverted file *)

Lemma wr_len dst op l d : Buf.wr dst op l = Ret d → zlen d = zlen dst.
Proof.
  unfold Buf.wr. destruct (Z.leb_spec 0 op), (Z.leb_spec (op + zlen l) (zlen dst)); try done. intros [= <-]. by apply (zlen_splice dst op l).
Qed.
Lemma init_centroids_len n : ∀ cents vecs dim c r, init_centroids n cents vecs dim c = Ret r → zlen r = zlen cents.
Proof.
  induction n as [|n IH]; intros cents vecs dim c r; cbn [init_centroids]; [by intros [= <-]|]. destruct (rd_block _ _ _) as [v| |]; cbn [mbind outcome_bind]; try done.
  destruct (Buf.wr _ _ _) as [c1| |] eqn:E; cbn [mbind outcome_bind]; try done. intros Hr. rewrite (IH _ _ _ _ _ Hr). by apply wr_len in E.
Qed.
Lemma recompute_len n : ∀ cents accum counts dim c r, recompute n cents accum counts dim c = Ret r → zlen r = zlen cents.
Proof.
  induction n as [|n IH]; intros cents accum counts dim c r; cbn [recompute]; [by intros [= <-]|]. destruct (_ =? 0); [apply IH|].
  destruct (rd_block _ _ _) as [v| |]; cbn [mbind outcome_bind]; try done. destruct (Buf.wr _ _ _) as [c1| |] eqn:E; cbn [mbind outcome_bind]; try done.
  intros Hr. rewrite (IH _ _ _ _ _ _ Hr). by apply wr_len in E.
Qed.
Lemma lloyd_len it : ∀ cents vecs dim n count r, lloyd it cents vecs dim n count = Ret r → zlen r = zlen cents.
Proof.
  induction it as [|it IH]; intros cents vecs dim n count r; cbn [lloyd]; [by intros [= <-]|]. destruct (assign_from _ _ _ _ _ _ _ _) as [a| |]; cbn [mbind outcome_bind]; try done.
  destruct (recompute _ _ _ _ _ _) as [c1| |] eqn:E; cbn [mbind outcome_bind]; try done. intros Hr. rewrite (IH _ _ _ _ _ _ Hr). by apply recompute_len in E.
Qed.
Lemma dist_l2_sq_ends a b dim : dist_l2_sq a b dim ≠ NoFuel.
Proof.
  assert (∀ f l z, sum_from f l z ≠ NoFuel) as Hs.
  { intros f l. induction l as [|[x y] l IH]; intros z; [done|]. cbn [sum_from]. destruct (in_s32 _); [apply IH|done]. }
  assert (∀ p, rd_block p 0 dim ≠ NoFuel) as Hr by (intros p; unfold rd_block; by destruct (_ && _)).
  unfold dist_l2_sq. destruct (rd_block a 0 dim) eqn:Ea; cbn [mbind outcome_bind]; [|done|by destruct (Hr a)]. destruct (rd_block b 0 dim) eqn:Eb; cbn [mbind outcome_bind]; [apply Hs|done|by destruct (Hr b)].
Qed.
Lemma nearest_from_overread n : ∀ cents vec dim c best bd, 0 < dim → 0 ≤ c → c * dim ≤ zlen cents → zlen cents < (c + Z.of_nat n) * dim < 2 ^ 32 →
  nearest_from n cents vec dim c best bd = Fault.
Proof.
  induction n as [|n IH]; intros cents vec dim c best bd Hd Hc Hle Hn; [lia|]. cbn [nearest_from]. rewrite wrap_id by nia.
  destruct (Z.leb_spec (c * dim + dim) (zlen cents)) as [Hin|].
  - rewrite rd_block_ok by nia. cbn [mbind outcome_bind]. destruct (dist_l2_sq _ _ _) as [d| |] eqn:Ed; cbn [mbind outcome_bind]; [|done|by destruct (dist_l2_sq_ends _ _ _ Ed)].
    destruct (d <? bd); apply IH; nia.
  - unfold rd_block. rewrite (proj2 (Z.leb_gt (c * dim + dim) _)) by lia. by rewrite andb_false_r.
Qed.
Lemma nearest_overread cents vec dim n : 0 < dim → zlen cents < n * dim < 2 ^ 32 → nearest cents vec dim n = Fault.
Proof.
  intros Hd Hn. unfold nearest. destruct (dist_l2_sq vec cents dim) as [d| |] eqn:Ed; cbn [mbind outcome_bind]; [|done|by destruct (dist_l2_sq_ends _ _ _ Ed)].
  assert (dim ≤ zlen cents).
  { revert Ed. unfold dist_l2_sq. destruct (rd_block vec 0 dim); cbn [mbind outcome_bind]; [|done..]. unfold rd_block. destruct (Z.leb_spec (0 + dim) (zlen cents)); [lia|].
    by rewrite andb_false_r. }
  apply nearest_from_overread; nia.
Qed.

(** C36: After a training with fewer vectors than centroids every addition reads past the
    end of the centroids. *)
Theorem ivf_train_overread {H} `{KH : KHeap H} (s s' : vstore H) (x : vecindex) (xo : option vecindex) (vecs : list Z) (count : Z) :
  x.(centroids_ptr) = 0 → 0 < x.(dim) → 0 < count < x.(nlist) → x.(nlist) * x.(dim) < 2 ^ 32 → vecindex_train s (Some x) (Some vecs) count = Ret (s', xo, 0) →
  ∀ id v, vecindex_add s' xo id (Some v) = Fault.
Proof.
  intros Hc Hd Hn Hlt Ht id v. unfold vecindex_train in Ht. change (- EINVAL) with (-3) in Ht. change (- ENOMEM) with (-2) in Ht. rewrite (proj2 (Z.eqb_neq count 0)) in Ht by lia. destruct (type x =? VECINDEX_IVF) eqn:Et; [|done]. cbn [negb] in Ht.
  rewrite gtb_gt in Ht by lia. rewrite Hc in Ht. cbn [Z.eqb] in Ht. rewrite wrap_id in Ht by nia.
  destruct (v_kmalloc s (count * dim x)) as [[s1 p]| |]; cbn [mbind outcome_bind] in Ht; try done. cbn [set_centroids centroids_ptr] in Ht.
  destruct (Z.eqb_spec p 0) as [|Hp]; [done|]. cbn [set_centroids centroids dim] in Ht. destruct (init_centroids _ _ _ _ _) as [c1| |] eqn:E1; cbn [mbind outcome_bind] in Ht; try done.
  apply init_centroids_len in E1. assert (zlen c1 = count * dim x) as El by (rewrite E1; unfold zlen; rewrite length_replicate; nia). clear E1.
  destruct (v_kmalloc s1 _) as [[s2 a]| |]; cbn [mbind outcome_bind] in Ht; try done. destruct (v_kcalloc s2 _ _) as [[s3 t]| |]; cbn [mbind outcome_bind] in Ht; try done.
  destruct ((a =? 0) || (t =? 0)).
  { destruct (if negb (a =? 0) then _ else _) as [s4| |]; cbn [mbind outcome_bind] in Ht; try done. destruct (if negb (t =? 0) then _ else _) as [s5| |]; cbn [mbind outcome_bind] in Ht; done. }
  destruct (lloyd _ _ _ _ _ _) as [c2| |] eqn:E2; cbn [mbind outcome_bind] in Ht; try done. apply lloyd_len in E2.
  destruct (v_kfree s3 a) as [s4| |]; cbn [mbind outcome_bind] in Ht; try done. destruct (v_kfree s4 t) as [s5| |]; cbn [mbind outcome_bind] in Ht; try done. injection Ht as <- <-.
  unfold vecindex_add, add_one, set_centroids. cbn [type]. apply Z.eqb_eq in Et. rewrite Et. change (VECINDEX_IVF =? VECINDEX_FLAT) with false. cbn match. unfold ivf_add, find_nearest_centroid. cbn [trained negb centroids dim nlist].
  rewrite nearest_overread by nia. done.
Qed.
Definition result {A B} (d : A) (o : outcome (A * B)) : A := match o with Ret (a, _) => a | _ => d end.
Definition demo_ivf := vecindex_create demo_vstore 1 VECINDEX_IVF VECDIST_L2.
Definition demo_ivf_index : vecindex :=
  match demo_ivf with Ret (_, Some x) => x | _ => set_centroids {| self := 0; type := 0; dist := 0; dim := 0; flat_ptr := 0; flat_entries := []; flat_capacity := 0;
    centroids_ptr := 0; centroids := []; lists_ptr := 0; lists := []; nlist := 0; nprobe := 0; trained := false |} 0 [] false end.
Definition code {A} (o : outcome (A * Z)) : Z := match o with Ret (_, rc) => rc | _ => 1 end.
Lemma code_0 {A B} (o : outcome (A * B * Z)) : code o = 0 → ∃ a b, o = Ret (a, b, 0).
Proof. destruct o as [[[a b] rc]| |]; [|done..]. cbn. intros ->. by exists a, b. Qed.
Lemma ivf_train_overread_witness :
  (match demo_ivf with Ret (_, Some _) => True | _ => False end) ∧
  ∃ s2 xo, vecindex_train (result demo_vstore demo_ivf) (Some demo_ivf_index) (Some [5; 9]) 2 = Ret (s2, xo, 0) ∧ vecindex_add s2 xo 7 (Some [5]) = Fault.
Proof.
  split; [by vm_compute|].
  assert (demo_ivf_index.(centroids_ptr) = 0) as F1 by (vm_compute; reflexivity). assert (0 < demo_ivf_index.(dim)) as F2 by (vm_compute; reflexivity).
  assert (0 < 2 < demo_ivf_index.(nlist)) as F3 by (vm_compute; split; reflexivity).
  assert (demo_ivf_index.(nlist) * demo_ivf_index.(dim) < 2 ^ 32) as F4 by (vm_compute; reflexivity).
  destruct (code_0 (vecindex_train (result demo_vstore demo_ivf) (Some demo_ivf_index) (Some [5; 9]) 2)) as (s2 & xo & E); [vm_compute; reflexivity|].
  exists s2, xo. split; [exact E|]. apply (ivf_train_overread (result demo_vstore demo_ivf) s2 demo_ivf_index xo [5; 9] 2); [exact F1|exact F2|exact F3|exact F4|exact E].
Defined.

(** ** What a search of the lists finds *)

Lemma argmin_spec n : ∀ cd c best, 0 ≤ best < c → (∀ j, 0 ≤ j < c → cd.[best] ≤ cd.[j]) →
  let m := argmin_from n cd c best in 0 ≤ m < c + Z.of_nat n ∧ (∀ j, 0 ≤ j < c + Z.of_nat n → cd.[m] ≤ cd.[j]).
Proof.
  induction n as [|n IH]; intros cd c best Hb Hmin; cbn [argmin_from]; [rewrite Z.add_0_r; split; [lia|done]|].
  destruct (Z.ltb_spec (cd.[c]) (cd.[best])) as [Hlt|Hge].
  - destruct (IH cd (c + 1) c ltac:(lia)) as [H1 H2]; [|split; [lia|intros j Hj; apply H2; lia]].
    intros j Hj. destruct (decide (j = c)) as [->|]; [done|]. specialize (Hmin j ltac:(lia)). lia.
  - destruct (IH cd (c + 1) best ltac:(lia)) as [H1 H2]; [|split; [lia|intros j Hj; apply H2; lia]].
    intros j Hj. destruct (decide (j = c)) as [->|]; [done|]. apply Hmin. lia.
Qed.
(** [l] are [p] of the numbers below [n] with the least [f]. *)
Definition least (f : Z → Z) (n : Z) (p : nat) (l : list Z) : Prop :=
  NoDup l ∧ length l = p ∧ (∀ c, c ∈ l → 0 ≤ c < n) ∧ (∀ c d, c ∈ l → 0 ≤ d < n → d ∉ l → f c ≤ f d).
Lemma choose_probes_from p : ∀ cd0 cd done_ n, 0 < n → zlen cd = n → (∀ c, 0 ≤ c < n → cd0.[c] < INT32_MAX) →
  (∀ c, 0 ≤ c < n → cd.[c] = if decide (c ∈ done_) then INT32_MAX else cd0.[c]) → least (λ c, cd0.[c]) n (length done_) done_ → Z.of_nat (length done_ + p) ≤ n →
  least (λ c, cd0.[c]) n (length done_ + p) (done_ ++ choose_probes p cd n).
Proof.
  induction p as [|p IH]; intros cd0 cd done_ n Hn Hl Hmax Hcd (Hnd & _ & Hin & Hle) Hp; cbn [choose_probes].
  { rewrite app_nil_r, Nat.add_0_r. by repeat split; try apply Hin. }
  destruct (argmin_spec (Z.to_nat (n - 1)) cd 1 0 ltac:(lia)) as [Hm Hmin]; [intros j Hj; by assert (j = 0) as -> by lia|]. set (m := argmin_from _ _ _ _) in *.
  assert (∃ d, 0 ≤ d < n ∧ d ∉ done_) as (d & Hd & Hdn).
  { destruct (decide (Forall (λ d, d ∈ done_) (seqZ 0 n))) as [Hall|Hnot%not_Forall_Exists]; [|apply Exists_exists in Hnot as (d & Hd & Hdn); exists d; by apply elem_of_seqZ in Hd|apply _].
    exfalso. rewrite Forall_forall in Hall. pose proof (submseteq_length _ _ (NoDup_submseteq _ _ (NoDup_seqZ 0 n) Hall)) as Hlen. rewrite length_seqZ in Hlen. lia. }
  assert (m ∉ done_) as Hmd.
  { intros Hmd. specialize (Hmin d ltac:(lia)). rewrite !Hcd in Hmin by lia. rewrite decide_True, decide_False in Hmin by done. specialize (Hmax d Hd). lia. }
  rewrite cons_middle, app_assoc. assert (length done_ + S p = length (done_ ++ [m]) + p)%nat as -> by (rewrite length_app; cbn; lia). apply IH; [done|by rewrite zlen_aset|done| | |rewrite length_app; cbn; lia].
  - intros c Hc. destruct (decide (c = m)) as [->|Hne].
    + rewrite aget_aset_eq by lia. rewrite decide_True by (apply elem_of_app; right; by left). done.
    + rewrite aget_aset_ne by lia. rewrite Hcd by done. repeat case_decide; try done; exfalso; set_solver.
  - split; [|split; [done|split]].
    + apply NoDup_app. split; [done|]. split; [set_solver|apply NoDup_singleton].
    + intros c Hc. apply elem_of_app in Hc as [Hc|Hc]; [by apply Hin|]. apply list_elem_of_singleton in Hc as ->. lia.
    + intros c e Hc He Hne. apply not_elem_of_app in Hne as [Hne1 Hne2]. apply elem_of_app in Hc as [Hc|Hc]; [by apply Hle|]. apply list_elem_of_singleton in Hc as ->.
      specialize (Hmin e ltac:(lia)). rewrite !Hcd in Hmin by lia. by rewrite !decide_False in Hmin by done.
Qed.
Lemma choose_probes_least p cd n : 0 < n → zlen cd = n → (∀ c, 0 ≤ c < n → cd.[c] < INT32_MAX) → Z.of_nat p ≤ n → least (λ c, cd.[c]) n p (choose_probes p cd n).
Proof.
  intros Hn Hl Hmax Hp. apply (choose_probes_from p cd cd [] n); [done|done|done| | |cbn; lia].
  - intros c Hc. by rewrite decide_False by (intros X; by apply elem_of_nil in X).
  - split; [constructor|]. split; [done|]. split; intros c; intros; exfalso; set_solver.
Qed.

Lemma sift_perm b fuel : ∀ h n i, 0 ≤ i < n → n ≤ zlen h → n < 2 ^ 31 → n - i ≤ Z.of_nat fuel →
  ∃ h', heap_sift_down fuel h n i b = Ret h' ∧ h' ≡ₚ h ∧ (∀ j, n ≤ j → h'.[j] = h.[j]).
Proof.
  induction fuel as [|fuel IH]; intros h n i Hi Hn Hmax Hf; [lia|]. cbn [heap_sift_down]. rewrite !wrap_id by lia.
  set (t1 := if _ && _ then 2 * i + 1 else i). set (t := if _ && _ then 2 * i + 2 else t1).
  assert (t = i ∨ i < t < n) as Ht.
  { unfold t, t1. destruct (Z.ltb_spec (2 * i + 1) n), (Z.ltb_spec (2 * i + 2) n); cbn [andb]; repeat match goal with |- context [if ?c then _ else _] => destruct c end; lia. }
  destruct (Z.eqb_spec t i) as [|Hne]; [by exists h|]. destruct (IH (h.[i <- h.[t]].[t <- h.[i]]) n t) as (h' & -> & Hp & Hj); [lia|by rewrite !zlen_aset|done|lia|].
  exists h'. split; [done|]. split; [rewrite Hp; apply Permutation_swap; lia|]. intros j Hnj. rewrite Hj by done. by rewrite !aget_aset_ne by lia.
Qed.
Lemma extract_perm b i : ∀ h out, (i ≤ length h)%nat → zlen h < 2 ^ 31 → ∃ out', extract i h b out = Ret out' ∧ out' ≡ₚ take i h ++ out.
Proof.
  induction i as [|m IH]; intros h out Hi Hmax; [by exists out|]. cbn [extract]. destruct h as [|x t]; [cbn in Hi; lia|]. change ((x :: t).[0]) with x.
  set (h2 := (x :: t).[0 <- (x :: t).[Z.of_nat m]]). assert (length h2 = length (x :: t)) as El by apply length_aset. pose proof (take_last x t m Hi) as Hperm. fold h2 in Hperm.
  assert (∃ h3, (if (1 <? S m)%nat then sift h2 (Z.of_nat m) 0 b else Ret h2) = Ret h3 ∧ take m h3 ≡ₚ take m h2 ∧ length h3 = length h2) as (h3 & -> & Hp3 & El3).
  { destruct m as [|m]; [by exists h2|]. cbn [Nat.ltb Nat.leb]. unfold sift. unfold zlen in Hmax. cbn [length] in *.
    destruct (sift_perm b (Z.to_nat (Z.of_nat (S m))) h2 (Z.of_nat (S m)) 0) as (h3 & -> & Hp & Hj); [lia|unfold zlen; rewrite El; cbn [length]; lia|lia|lia|].
    exists h3. split; [done|]. split; [apply take_beyond; [done|done|rewrite El; cbn [length]; lia]|by apply Permutation_length]. }
  cbn [mbind outcome_bind]. destruct (IH h3 (x :: out)) as (out' & E & Hpo); [rewrite El3, El; lia|unfold zlen in *; rewrite El3, El; done|].
  exists out'. split; [done|]. rewrite Hpo, Hperm, Hp3. cbn. by rewrite Permutation_middle.
Qed.

Section ivf.
Context {H : Type} `{KH : KHeap H}.
Implicit Types (s : vstore H) (x : vecindex).

Lemma select_heap s s' k is_l2 q dim l h : s'.(blobs) = s.(blobs) → select s' k is_l2 q dim l h = select s k is_l2 q dim l h.
Proof.
  intros Eb. revert h. induction l as [|e l IH]; intros h; [done|]. cbn [select]. unfold distance, blob. rewrite Eb. destruct (s.(blobs) !! e.2); [|done]. cbn [mbind outcome_bind].
  destruct (if is_l2 then _ else _); [|done..]. cbn [mbind outcome_bind]. destruct (offer _ _ _ _); [|done..]. apply IH.
Qed.
Lemma select_short s k is_l2 q dim l C : 0 ≤ dim ≤ MAX_DIM → query_ok q dim → Forall2 (holds s.(blobs) dim) l C → ∀ h, zlen h + zlen C < k →
  select s k is_l2 q dim l h = Ret (h ++ scored is_l2 q C).
Proof.
  intros Hd Hq Hl. induction Hl as [|e c l C He Hl IH]; intros h Hk; [by rewrite app_nil_r|]. cbn [select scored map]. rewrite zlen_cons in Hk. pose proof (zlen_nonneg C).
  rewrite (distance_spec s is_l2 q e dim c) by done. cbn [mbind outcome_bind]. unfold offer. rewrite (proj2 (Z.ltb_lt _ _)) by lia.
  assert (∀ y : heap_item_t, zlen (h ++ [y]) = zlen h + 1) as Ha by (intros y; apply zlen_app). rewrite Ha, (proj2 (Z.eqb_neq _ _)) by lia. cbn [mbind outcome_bind]. rewrite IH by (rewrite Ha; lia). by rewrite <- app_assoc, (proj1 He).
Qed.
Definition list_holds (bl : gmap Z (list Z)) (dim : Z) (l : ivf_list_t) (C : contents) : Prop := Forall2 (holds bl dim) l.(l_entries) C.
Definition probed (Cs : list contents) (probes : list Z) : contents := concat (map (λ c, Cs.[c]) probes).
Lemma select_app s k is_l2 q dim l l' h : select s k is_l2 q dim (l ++ l') h = (h ← select s k is_l2 q dim l h; select s k is_l2 q dim l' h).
Proof.
  revert h. induction l as [|e l IH]; intros h; [done|]. cbn [app select]. destruct (distance _ _ _ _ _) as [d| |]; [|done..]. cbn [mbind outcome_bind].
  destruct (offer _ _ _ _) as [h1| |]; [|done..]. cbn [mbind outcome_bind]. apply IH.
Qed.
(** Searching the lists is searching their entries. *)
Lemma select_lists_is s k is_l2 q dim ls Cs probes : Forall2 (list_holds s.(blobs) dim) ls Cs → (∀ c, c ∈ probes → 0 ≤ c < zlen ls) →
  ∃ l, Forall2 (holds s.(blobs) dim) l (probed Cs probes) ∧ ∀ h, select_lists s k is_l2 q dim ls probes h = select s k is_l2 q dim l h.
Proof.
  intros Hls. induction probes as [|c probes IH]; intros Hin; [by exists []|]. destruct IH as (l & Hl & E); [set_solver|].
  assert (0 ≤ c < zlen ls) as Hc by (apply Hin; by left). destruct (lookup_lt_is_Some_2 ls (Z.to_nat c)) as [x Hx]; [unfold zlen in Hc; lia|].
  destruct (Forall2_lookup_l _ _ _ _ _ Hls Hx) as (C & HC & Hxc). exists (x.(l_entries) ++ l). split.
  - unfold probed. cbn. assert (Cs.[c] = C) as -> by (unfold aget; by apply list_lookup_total_correct). by apply Forall2_app.
  - intros h. cbn [select_lists]. rewrite Hx, select_app. destruct (select _ _ _ _ _ _ _); [|done..]. cbn [mbind outcome_bind]. apply E.
Qed.

Definition centroid x (c : Z) : list Z := sub_list x.(centroids) (c * x.(dim)) x.(dim).
Record ivf_ok s x (Cs : list contents) : Prop := {
  io_trained : x.(trained) = true; io_dim : 0 ≤ x.(dim) ≤ MAX_DIM; io_nlist : 0 < x.(nlist) ∧ x.(nlist) * x.(dim) < 2 ^ 32 ∧ x.(nlist) < 2 ^ 32 ∧ 0 ≤ x.(nprobe);
  io_centroids : zlen x.(centroids) = x.(nlist) * x.(dim) ∧ Forall int8 x.(centroids);
  io_lists : zlen x.(lists) = x.(nlist) ∧ Forall2 (list_holds s.(blobs) x.(dim)) x.(lists) Cs }.
Lemma centroid_ok s x Cs c : ivf_ok s x Cs → 0 ≤ c < x.(nlist) → query_ok (centroid x c) x.(dim).
Proof.
  intros [_ Hd Hn [Hl H8] _] Hc. split; [apply zlen_sub_list; nia|]. unfold centroid, sub_list. by apply Forall_take, Forall_drop.
Qed.
Lemma centroid_dists_spec s x Cs q : ivf_ok s x Cs → query_ok q x.(dim) → ∀ n c, 0 ≤ c → c + Z.of_nat n ≤ x.(nlist) →
  centroid_dists n x.(centroids) q x.(dim) c = Ret (map (λ c, score true q (centroid x c)) (seqZ c (Z.of_nat n))).
Proof.
  intros Hx Hq. pose proof Hx as [_ Hd Hn [Hl H8] _]. induction n as [|n IH]; intros c Hc Hle; [done|]. cbn [centroid_dists].
  rewrite wrap_id by nia. rewrite rd_block_ok by nia. cbn [mbind outcome_bind]. fold (centroid x c).
  rewrite (metric_spec true q (centroid x c)) by (done || by apply (centroid_ok s x Cs); [|lia]). cbn [mbind outcome_bind]. rewrite IH by lia. cbn [mbind outcome_bind].
  rewrite (seqZ_cons c) by lia. cbn [map]. by replace (Z.pred (Z.of_nat (S n))) with (Z.of_nat n) by lia.
Qed.
Lemma score_l2_bound q v dim : 0 ≤ dim ≤ MAX_DIM → query_ok q dim → query_ok v dim → score true q v < INT32_MAX.
Proof.
  intros Hd [Hq Hq8] [Hv Hv8]. assert (score true q v ≤ 65025 * zlen q) as Hb; [|unfold MAX_DIM, INT32_MAX in *; nia]. unfold score. clear Hd Hq Hv. revert v Hv8.
  induction Hq8 as [|x q Hx Hq IH]; intros [|y v] Hv; [done..|cbn; pose proof (zlen_nonneg (x :: q)); lia|]. apply list.Forall_cons_1 in Hv as [Hy Hv]. specialize (IH v Hv).
  rewrite zlen_cons. cbn [zip_with foldr]. pose proof (int8_term true x y Hx Hy). lia.
Qed.

(** The result for the items [E] that are in the lists. *)
Definition answer (is_l2 : bool) (k : Z) (E out : list heap_item_t) : Prop :=
  zlen out = Z.min k (zlen E) ∧ out ⊆+ E ∧ (k ≤ zlen E → ranked is_l2 k E out) ∧ (∀ a b, E = [a; b] → 2 < k → out = [b; a]).
Lemma items_answer s k is_l2 q dim l C : 0 < k < 2 ^ 31 → 0 ≤ dim ≤ MAX_DIM → query_ok q dim → Forall2 (holds s.(blobs) dim) l C →
  ∃ h out, select s k is_l2 q dim l [] = Ret h ∧ extract (length h) h is_l2 [] = Ret out ∧ zlen h = zlen out ∧ zlen h ≤ k ∧ answer is_l2 k (scored is_l2 q C) out.
Proof.
  intros Hk Hd Hq Hl. destruct (select_spec s k is_l2 q dim l C Hk Hd Hq Hl [] [] (best_nil is_l2 k ltac:(lia))) as (h & Eh & Hb). cbn [app] in Hb. set (E := scored is_l2 q C) in *.
  pose proof (bo_len _ _ _ _ Hb) as Hlen. exists h. destruct (decide (k ≤ zlen E)) as [Hge|Hlt].
  - destruct (best_extract is_l2 k E h Hk ltac:(lia) Hb) as (out & Eo & Hlo & Hr). exists out. split; [done|]. split; [done|]. split; [lia|]. split; [lia|].
    split; [lia|]. split; [apply Hr|]. split; [done|]. intros a b Eab Hk2. rewrite Eab in Hge. unfold zlen in Hge. cbn in Hge. lia.
  - destruct (extract_perm is_l2 (length h) h [] ltac:(lia) ltac:(lia)) as (out & Eo & Hp). rewrite app_nil_r, firstn_all in Hp.
    assert (zlen C = zlen E) as EC by (unfold E, scored, zlen; by rewrite length_map).
    rewrite (select_short s k is_l2 q dim l C Hd Hq Hl []) in Eh by (change (zlen []) with 0; unfold contents in *; lia). injection Eh as Eh. cbn [app] in Eh. fold E in Eh. subst h.
    assert (zlen out = zlen E) as Elo by (unfold zlen; by rewrite Hp). exists out. split; [apply (select_short s k is_l2 q dim l C Hd Hq Hl []); change (zlen []) with 0; unfold contents in *; lia|].
    split; [done|]. split; [lia|]. split; [lia|]. split; [lia|]. split; [by rewrite Hp|]. split; [lia|]. intros a b Eab Hk2. rewrite Eab in Eo. by injection Eo as <-.
Qed.
Lemma ivf_search_spec s B x Cs q k : kh_rep s.(heap) B → ivf_ok s x Cs → query_ok q x.(dim) → 0 < k < 2 ^ 32 →
  ∃ s' out n, ivf_search s x q k = Ret (s', out, n) ∧ kh_rep s'.(heap) B ∧ s'.(blobs) = s.(blobs) ∧
    (n = - ENOMEM ∧ out = [] ∨ n = zlen out ∧ ∃ probes, least (λ c, score true q (centroid x c)) x.(nlist) (Z.to_nat (Z.min x.(nprobe) x.(nlist))) probes ∧
       answer (is_l2_of x) k (scored (is_l2_of x) q (probed Cs probes)) out).
Proof.
  intros Hh Hx Hq Hk. pose proof Hx as [Ht Hd (Hn1 & Hn2 & Hn3 & Hnp) Hc [Hl Hls]]. unfold ivf_search. rewrite Ht, (proj2 (Z.eqb_neq k 0)) by lia. cbn [negb orb]. set (np := Z.min _ _).
  destruct (v_kmalloc_spec s B (np * 4) Hh ltac:(lia)) as (s1 & p1 & -> & Eb1 & Hp1). cbn [mbind outcome_bind].
  assert (∃ B1, kh_rep s1.(heap) B1 ∧ (p1 = 0 ∧ B1 = B ∨ p1 ≠ 0 ∧ p1 ∉ B ∧ B1 = {[p1]} ∪ B)) as (B1 & Hr1 & H1) by (destruct Hp1 as [[-> Hr]|(H1 & _ & H2 & Hr)]; eexists; (split; [exact Hr|]); [by left|by right]).
  destruct (v_kmalloc_spec s1 B1 (nlist x * 4) Hr1 ltac:(lia)) as (s2 & p2 & -> & Eb2 & Hp2). cbn [mbind outcome_bind].
  destruct ((p1 =? 0) || (p2 =? 0)) eqn:E0.
  { assert (∃ s3, (if negb (p1 =? 0) then v_kfree s2 p1 else Ret s2) = Ret s3 ∧ s3.(blobs) = s2.(blobs) ∧ kh_rep s3.(heap) (if decide (p2 = 0) then B else {[p2]} ∪ B) ∧ (p2 ≠ 0 → p2 ∉ B)) as (s3 & -> & Eb3 & Hr3 & Hp2').
    { destruct (Z.eqb_spec p1 0) as [->|Hne]; cbn [negb].
      - destruct H1 as [[_ ->]|[? _]]; [|done]. exists s2. split; [done|]. split; [done|]. destruct Hp2 as [[-> Hr]|(H2 & _ & Hi & Hr)]; [done|]. by rewrite decide_False.
      - destruct H1 as [[? _]|(_ & H1 & ->)]; [done|]. destruct Hp2 as [[-> Hr]|(H2 & _)]; [|by rewrite (proj2 (Z.eqb_neq p2 0)) in E0].
        destruct (v_kfree_spec s2 _ p1 Hr ltac:(set_solver)) as (s3 & -> & Eb3 & Hr3). exists s3. split; [done|]. split; [done|]. rewrite decide_True by done. split; [|done]. eapply eq_ind; [exact Hr3|]. set_solver. }
    cbn [mbind outcome_bind]. destruct (Z.eqb_spec p2 0) as [->|Hne]; cbn [negb mbind outcome_bind].
    - exists s3, [], (- ENOMEM). split; [done|]. split; [done|]. split; [congruence|by left].
    - rewrite decide_False in Hr3 by done. destruct (v_kfree_spec s3 _ p2 Hr3 ltac:(set_solver)) as (s4 & -> & Eb4 & Hr4). exists s4, [], (- ENOMEM). split; [done|]. split; [|split; [congruence|by left]].
      eapply eq_ind; [exact Hr4|]. specialize (Hp2' Hne). set_solver. }
  apply orb_false_iff in E0 as [E1%Z.eqb_neq E2%Z.eqb_neq]. destruct H1 as [[? _]|(_ & H1 & ->)]; [done|]. destruct Hp2 as [[? _]|(_ & _ & H2 & Hr2)]; [done|].
  rewrite (centroid_dists_spec s x Cs q Hx Hq (Z.to_nat (nlist x)) 0) by lia. cbn [mbind outcome_bind]. rewrite Z2Nat.id by lia. set (cd := map _ _). set (probes := choose_probes _ _ _).
  destruct (v_kfree_spec s2 _ p2 Hr2 ltac:(set_solver)) as (s3 & -> & Eb3 & Hr3). cbn [mbind outcome_bind].
  assert (∀ c, 0 ≤ c < nlist x → cd.[c] = score true q (centroid x c)) as Ecd.
  { intros c Hc'. unfold cd, aget. rewrite list_lookup_total_alt, list_lookup_fmap, lookup_seqZ_lt by lia. cbn. do 2 f_equal. lia. }
  assert (least (λ c, score true q (centroid x c)) (nlist x) (Z.to_nat np) probes) as Hleast.
  { destruct (choose_probes_least (Z.to_nat np) cd (nlist x) Hn1) as (L1 & L2 & L3 & L4); [unfold cd, zlen; rewrite length_map, length_seqZ; lia| |lia|].
    - intros c Hc'. rewrite Ecd by done. by apply (score_l2_bound _ _ (dim x)), (centroid_ok s x Cs).
    - fold probes in L1, L2, L3, L4. split; [done|]. split; [done|]. split; [done|]. intros c d Hc1 Hd1 Hd2. rewrite <- !Ecd by (done || by apply L3). by apply L4. }
  assert (kh_rep s3.(heap) ({[p1]} ∪ B)) as Hr3' by (eapply eq_ind; [exact Hr3|]; set_solver). clear Hr3.
  destruct (v_kmalloc_spec s3 _ (k * 16) Hr3' ltac:(lia)) as (s4 & p & -> & Eb4 & Hp). cbn [mbind outcome_bind]. destruct (Z.eqb_spec p 0) as [->|Hp0].
  { destruct Hp as [[_ Hr4]|[? _]]; [|done]. destruct (v_kfree_spec s4 _ p1 Hr4 ltac:(set_solver)) as (s5 & -> & Eb5 & Hr5). cbn [mbind outcome_bind].
    exists s5, [], (- ENOMEM). split; [done|]. split; [|split; [congruence|by left]]. eapply eq_ind; [exact Hr5|]. set_solver. }
  destruct Hp as [[? _]|(_ & Hm & Hi & Hr4)]; [done|]. unfold KMALLOC_MAX in Hm. assert (s4.(blobs) = s.(blobs)) as Eb by congruence.
  destruct (select_lists_is s4 k (is_l2_of x) q (dim x) (lists x) Cs probes) as (l & Hlh & El); [by rewrite Eb|intros c Hc'; rewrite Hl; by apply (proj1 (proj2 (proj2 Hleast)))|].
  destruct (items_answer s4 k (is_l2_of x) q (dim x) l (probed Cs probes) ltac:(lia) Hd Hq Hlh) as (h & out & Es & Eo & Ez & Hzk & Ha). rewrite El, Es. cbn [mbind outcome_bind].
  destruct (v_kfree_spec s4 _ p1 Hr4 ltac:(set_solver)) as (s5 & -> & Eb5 & Hr5). cbn [mbind outcome_bind]. rewrite Eo. cbn [mbind outcome_bind].
  destruct (v_kfree_spec s5 _ p Hr5 ltac:(set_solver)) as (s6 & -> & Eb6 & Hr6). cbn [mbind outcome_bind]. pose proof (zlen_nonneg h). exists s6, out, (zlen out). split; [|split; [|split; [congruence|right; split; [done|by exists probes]]]].
  - do 3 f_equal. unfold swrap. rewrite wrap_id by lia. by rewrite (proj2 (Z.ltb_lt _ _)) by lia.
  - eapply eq_ind; [exact Hr6|]. set_solver.
Qed.
End ivf.

(** C13: A search of an inverted file looks through the lists of the [nprobe] centroids that
    are nearest to the query, and returns the best [k] of their entries: in order, if
    they have as many. *)
Theorem ivf_search_probes {H} `{KH : KHeap H} (s : vstore H) (B : gset Z) (x : vecindex) (Cs : list contents) (q : list Z) (k : Z) :
  kh_rep s.(heap) B → ivf_ok s x Cs → query_ok q x.(dim) → 0 < k < 2 ^ 32 →
  ∃ s' out n, ivf_search s x q k = Ret (s', out, n) ∧ kh_rep s'.(heap) B ∧ s'.(blobs) = s.(blobs) ∧
    (n = - ENOMEM ∧ out = [] ∨ n = zlen out ∧ ∃ probes, least (λ c, score true q (centroid x c)) x.(nlist) (Z.to_nat (Z.min x.(nprobe) x.(nlist))) probes ∧
       let E := scored (is_l2_of x) q (probed Cs probes) in n = Z.min k (zlen E) ∧ out ⊆+ E ∧ (k ≤ zlen E → ranked (is_l2_of x) k E out)).
Proof.
  intros Hh Hx Hq Hk. destruct (ivf_search_spec s B x Cs q k Hh Hx Hq Hk) as (s' & out & n & E & Hr & Eb & Hc). exists s', out, n. do 3 (split; [done|]).
  destruct Hc as [Hc|(-> & probes & Hp & H1 & H2 & H3 & _)]; [by left|right]. split; [done|]. by exists probes.
Qed.
(** C35: A search that meets two entries and was asked for more returns first the one that it
    met last, whichever is nearer to the query. It meets the entries list by list, in the
    order of the probes, and in a list in the order of their addition. *)
Theorem ivf_results_unsorted {H} `{KH : KHeap H} (s s' : vstore H) (B : gset Z) (x : vecindex) (Cs : list contents) (q : list Z) (k n : Z) (a b : Z * list Z) (out : list heap_item_t) :
  kh_rep s.(heap) B → ivf_ok s x Cs → query_ok q x.(dim) → 2 < k < 2 ^ 32 → (∀ probes, least (λ c, score true q (centroid x c)) x.(nlist) (Z.to_nat (Z.min x.(nprobe) x.(nlist))) probes → probed Cs probes = [a; b]) →
  ivf_search s x q k = Ret (s', out, n) → 0 ≤ n → out = scored (is_l2_of x) q [b; a].
Proof.
  intros Hh Hx Hq Hk Hab Hs Hn. destruct (ivf_search_spec s B x Cs q k Hh Hx Hq ltac:(lia)) as (s2 & out2 & n2 & E & _ & _ & Hc). rewrite E in Hs. injection Hs as -> -> ->.
  destruct Hc as [[-> _]|(-> & probes & Hp & _ & _ & _ & Ha)]; [done|]. rewrite (Hab probes Hp) in Ha. by apply Ha; [|lia].
Qed.

Definition demo_two : vstore (Slab.heap pmm_t) := {| heap := demo_heap; blobs := {[100 := [5]; 101 := [9]]} |}.
Definition demo_lists : vecindex :=
  {| self := 8; type := VECINDEX_IVF; dist := VECDIST_L2; dim := 1; flat_ptr := 0; flat_entries := []; flat_capacity := 0; centroids_ptr := 16; centroids := [5];
     lists_ptr := 24; lists := [{| l_ptr := 32; l_entries := [(1, 100); (2, 101)]; l_capacity := 256 |}]; nlist := 1; nprobe := 8; trained := true |}.
Lemma demo_lists_ok : ivf_ok demo_two demo_lists [[(1, [5]); (2, [9])]].
Proof.
  split; [done|done|done| |].
  - split; [done|]. by repeat constructor.
  - split; [done|]. constructor; [|constructor]. constructor; [split; [done|split; [done|split; [done|by repeat constructor]]]|]. constructor; [|constructor].
    split; [done|split; [done|split; [done|by repeat constructor]]].
Qed.
Lemma demo_query_ok : query_ok [4] 1.
Proof. split; [done|]. by repeat constructor. Qed.
Lemma least_of_one f probes : least f 1 1 probes → probes = [0].
Proof. intros (_ & Hl & Hin & _). destruct probes as [|c [|]]; [done| |done]. specialize (Hin c ltac:(by left)). by assert (c = 0) as -> by lia. Qed.
Lemma found {A B} (o : outcome (A * B * Z)) n : match o with Ret (_, m) => m | _ => -1 end = n → 0 ≤ n → ∃ a b, o = Ret (a, b, n).
Proof. destruct o as [[[a b] m]| |]; cbn; intros <- Hn; [by exists a, b|lia..]. Qed.
Lemma ivf_search_probes_witness :
  ∃ s' out n, ivf_search demo_two demo_lists [4] 1 = Ret (s', out, n) ∧ kh_rep s'.(heap) ∅ ∧ s'.(blobs) = demo_two.(blobs) ∧
    (n = - ENOMEM ∧ out = [] ∨ n = zlen out ∧ ∃ probes, least (λ c, score true [4] (centroid demo_lists c)) 1 1 probes ∧
       let E := scored true [4] (probed [[(1, [5]); (2, [9])]] probes) in n = Z.min 1 (zlen E) ∧ out ⊆+ E ∧ (1 ≤ zlen E → ranked true 1 E out)).
Proof. apply (ivf_search_probes demo_two ∅ demo_lists [[(1, [5]); (2, [9])]] [4] 1 demo_heap_rep demo_lists_ok demo_query_ok). lia. Defined.
(** The nearest vector comes last. *)
Lemma ivf_results_unsorted_witness : ∃ s' out, ivf_search demo_two demo_lists [4] 5 = Ret (s', out, 2) ∧ out = [(2, 25); (1, 1)].
Proof.
  destruct (found (ivf_search demo_two demo_lists [4] 5) 2) as (s' & out & E); [vm_compute; reflexivity|lia|]. exists s', out. split; [exact E|].
  apply (ivf_results_unsorted demo_two s' ∅ demo_lists [[(1, [5]); (2, [9])]] [4] 5 2 (1, [5]) (2, [9]) out demo_heap_rep demo_lists_ok demo_query_ok); [lia| |exact E|lia].
  intros probes Hp. by rewrite (least_of_one _ probes Hp).
Defined.

(** * Serialisation *)

Definition record (c : Z * list Z) : list Z := le_bytes 8 c.1 ++ to_bytes c.2.
Definition image (x : vecindex) (C : contents) : list Z := header x (zlen C) ++ concat (map record C).
Definition ids_ok (C : contents) : Prop := Forall (λ c, 0 ≤ c.1 < 2 ^ 64) C.

Lemma to_bytes_len v : zlen (to_bytes v) = zlen v.
Proof. unfold zlen, to_bytes. by rewrite length_map. Qed.
Lemma to_int8_bytes v : Forall int8 v → to_int8 (to_bytes v) = v.
Proof.
  induction 1 as [|z v Hz Hv IH]; [done|]. unfold to_int8, to_bytes in *. cbn [map]. f_equal; [|done]. unfold int8 in Hz. unfold swrap, wrap. change (2 ^ 8) with 256. change (2 ^ (8 - 1)) with 128.
  rewrite Z.mod_mod by lia. destruct (decide (0 ≤ z)).
  - rewrite Z.mod_small by lia. by rewrite (proj2 (Z.ltb_lt _ _)) by lia.
  - assert (z mod 256 = z + 256) as -> by (symmetry; apply (Z.mod_unique_pos _ _ (-1)); lia). rewrite (proj2 (Z.ltb_ge _ _)) by lia. lia.
Qed.
Lemma record_len c : zlen (record c) = 8 + zlen c.2.
Proof. unfold record. rewrite zlen_app, to_bytes_len. unfold zlen at 1. by rewrite length_le_bytes. Qed.
Lemma header_len x n : zlen (header x n) = 24.
Proof. unfold header, zlen. by rewrite !length_app, !length_le_bytes. Qed.
Lemma records_len dim C : Forall (λ c, zlen c.2 = dim) C → zlen (concat (map record C)) = zlen C * (8 + dim).
Proof. induction 1 as [|c C Hc HC IH]; [done|]. cbn [map concat]. rewrite zlen_app, zlen_cons, record_len, IH, Hc. lia. Qed.
Lemma sub_list_app_l (l l' : list Z) i n : 0 ≤ i → 0 ≤ n → i + n ≤ zlen l → sub_list (l ++ l') i n = sub_list l i n.
Proof. intros Hi Hn Hl. unfold sub_list, zlen in *. rewrite drop_app_le by lia. by rewrite take_app_le by (rewrite length_drop; lia). Qed.

Lemma sublist_same_length {A} (l l' : list A) : l' `sublist_of` l → zlen l' = zlen l → l' = l.
Proof.
  unfold zlen. induction 1 as [|y l1 l2 Hs IH|y l1 l2 Hs IH]; intros Hl; cbn [length] in *; [done|rewrite IH; [done|lia]|]. apply sublist_length in Hs. lia.
Qed.
Section serial.
Context {H : Type} `{KH : KHeap H}.
Implicit Types (s : vstore H) (x : vecindex).

Lemma holds_dim bl dim l C : Forall2 (holds bl dim) l C → Forall (λ c, zlen c.2 = dim) C.
Proof. induction 1 as [|e c l C (_ & _ & Hd & _) Hl IH]; by constructor. Qed.
Lemma holds_int8 bl dim l C : Forall2 (holds bl dim) l C → Forall (λ c, Forall int8 c.2) C.
Proof. induction 1 as [|e c l C (_ & _ & _ & Hd) Hl IH]; by constructor. Qed.
Lemma put_entries_spec s dim l C buf : Forall2 (holds s.(blobs) dim) l C → 0 ≤ dim → ∀ L, zlen L + zlen C * (8 + dim) ≤ zlen buf →
  put_entries s dim l (splice buf 0 L) (zlen L) = Ret (splice buf 0 (L ++ concat (map record C)), zlen L + zlen C * (8 + dim)).
Proof.
  intros Hl Hd. induction Hl as [|e c l C (E1 & E2 & E3 & E4) Hl IH]; intros L HL; cbn [put_entries map concat]; [rewrite app_nil_r; do 2 f_equal; unfold zlen; cbn; lia|].
  rewrite zlen_cons in *. pose proof (zlen_nonneg C). assert (zlen (le_bytes 8 e.1) = 8) as H8 by (unfold zlen; by rewrite length_le_bytes).
  rewrite (wr_next buf 0 L) by lia. cbn [mbind outcome_bind]. unfold blob. rewrite E2. cbn [mbind outcome_bind]. rewrite rd_block_ok by lia. cbn [mbind outcome_bind].
  rewrite (sub_list_all c.2 dim E3).
  pose proof (zlen_app L (le_bytes 8 e.1)) as Ha. rewrite H8 in Ha. rewrite <- Ha. rewrite (wr_next buf 0 (L ++ le_bytes 8 e.1)) by (rewrite ?to_bytes_len; lia). cbn [mbind outcome_bind].
  assert ((L ++ le_bytes 8 e.1) ++ to_bytes c.2 = L ++ record c) as -> by (unfold record; by rewrite E1, app_assoc).
  assert (zlen (L ++ record c) = zlen L + 8 + dim) as Hr by (rewrite zlen_app, record_len; lia).
  replace (zlen (L ++ le_bytes 8 e.1) + dim) with (zlen (L ++ record c)) by lia. rewrite IH by lia. rewrite <- app_assoc. do 2 f_equal. lia.
Qed.
Lemma serialize_spec B0 N s x C buf size : flat_inv B0 N s x C → zlen C < 2 ^ 31 → 24 + zlen C * (8 + x.(dim)) ≤ size → size ≤ zlen buf →
  vecindex_serialize s (Some x) (Some buf) size = Ret (Some (splice buf 0 (image x C)), 24 + zlen C * (8 + x.(dim))).
Proof.
  intros Hi HC Hsz Hb. destruct Hi as [(Hf & Hl0 & Hc0) Hd He _ _ _]. unfold MAX_DIM in Hd. unfold vecindex_serialize, vecindex_count. rewrite Hf. change (VECINDEX_FLAT =? VECINDEX_FLAT) with true. change (VECINDEX_FLAT =? VECINDEX_IVF) with false. cbn [andb mbind outcome_bind].
  assert (zlen (flat_entries x) = zlen C) as -> by (unfold zlen; by rewrite (Forall2_length _ _ _ He)). pose proof (zlen_nonneg C).
  assert (0 ≤ zlen C * (8 + dim x) ≤ 2 ^ 31 * 33033) as Hm by (split; [nia|apply Z.mul_le_mono_nonneg; lia]).
  rewrite (wrap_id 32) by lia. rewrite wrap_id by lia. rewrite (proj2 (Z.ltb_ge _ _)) by lia. pose proof (header_len x (zlen C)) as Hh. rewrite wr_ok by nia. cbn [mbind outcome_bind].
  rewrite <- Hh at 1. rewrite (put_entries_spec s (dim x) _ C buf He) by nia. cbn [mbind outcome_bind]. by rewrite Hh.
Qed.
(** What the heap [h] allows of the vectors [C], added one after the other to an array
    of [cnt] entries with room for [cap]: the vectors that it has memory for, and
    whether it refused no request. An array that is full asks for a larger block, a
    vector for a block of its size. *)
Fixpoint allot (h : H) (ptr cnt cap dim : Z) (C : contents) : outcome (contents * bool) :=
  match C with
  | [] => Ret ([], true)
  | c :: C =>
      '(h, p) ← (if cnt >=? cap then krealloc h ptr (u32 (cap + VEC_BLOCK_SIZE) * SIZEOF_ENTRY) else Ret (h, ptr));
      if (cnt >=? cap) && (p =? 0) then r ← allot h ptr cnt cap dim C; Ret (r.1, false) else
      let cap := if cnt >=? cap then u32 (cap + VEC_BLOCK_SIZE) else cap in
      '(h, q) ← kmalloc h dim;
      if q =? 0 then r ← allot h p cnt cap dim C; Ret (r.1, false)
      else r ← allot h p (cnt + 1) cap dim C; Ret (c :: r.1, r.2)
  end.
(** The same for an index that is created first; [None] when there is no memory for it. *)
Definition allot_index (h : H) (dim : Z) (C : contents) : outcome (option contents * bool) :=
  '(h, p) ← kcalloc h 1 SIZEOF_INDEX;
  if p =? 0 then Ret (None, false) else r ← allot h 0 0 0 dim C; Ret (Some r.1, r.2).

Lemma allot_all C : ∀ h ptr cnt cap dim C', allot h ptr cnt cap dim C = Ret (C', true) → C' = C.
Proof.
  induction C as [|c C IH]; intros h ptr cnt cap dim C'; cbn [allot]; [congruence|].
  set (g := if cnt >=? cap then krealloc _ _ _ else _). destruct g as [[h1 p]| |]; cbn [mbind outcome_bind]; [|done..]. destruct (_ && _); [destruct (allot _ _ _ _ _ C); discriminate|].
  destruct (kmalloc h1 dim) as [[h2 q]| |]; cbn [mbind outcome_bind]; [|done..]. destruct (q =? 0); [destruct (allot _ _ _ _ _ C); discriminate|].
  destruct (allot _ _ _ _ _ C) as [[r ok]| |] eqn:E; cbn [mbind outcome_bind fst snd]; [|done..]. intros [= <- ->]. f_equal. by eapply IH.
Qed.
Lemma allot_add s x id v s1 x1 rc C : flat_add s x id v = Ret (s1, x1, rc) →
  allot s.(heap) x.(flat_ptr) (zlen x.(flat_entries)) x.(flat_capacity) x.(dim) ((id, v) :: C) =
  (r ← allot s1.(heap) x1.(flat_ptr) (zlen x1.(flat_entries)) x1.(flat_capacity) x1.(dim) C; Ret (if rc =? 0 then ((id, v) :: r.1, r.2) else (r.1, false))).
Proof.
  unfold flat_add, grow, copy_vec, v_krealloc, v_kmalloc. cbn [allot]. destruct (_ >=? _); cbn [mbind outcome_bind andb].
  - destruct (krealloc _ _ _) as [[h p]| |]; cbn [mbind outcome_bind]; [|done..]. destruct (p =? 0); cbn [mbind outcome_bind]; [by intros [= <- <- <-]|].
    cbn [with_heap heap]. destruct (kmalloc _ _) as [[h2 q]| |]; cbn [mbind outcome_bind set_flat dim]; [|done..].
    destruct (q =? 0) eqn:Eq; cbn [mbind outcome_bind].
    + rewrite (Z.eqb_refl 0). by intros [= <- <- <-].
    + destruct (rd_block v 0 _); cbn [mbind outcome_bind]; [|done..]. rewrite Eq. intros [= <- <- <-]. cbn. by rewrite zlen_app.
  - destruct (kmalloc _ _) as [[h2 q]| |]; cbn [mbind outcome_bind set_flat dim]; [|done..].
    destruct (q =? 0) eqn:Eq; cbn [mbind outcome_bind].
    + rewrite (Z.eqb_refl 0). by intros [= <- <- <-].
    + destruct (rd_block v 0 _); cbn [mbind outcome_bind]; [|done..]. rewrite Eq. intros [= <- <- <-]. cbn. by rewrite zlen_app.
Qed.

Lemma get_entries_spec B0 b L : ∀ C pre N s x D, L = pre ++ concat (map record C) → flat_inv B0 N s x D → Forall (λ c, zlen c.2 = x.(dim)) C → Forall (λ c, Forall int8 c.2) C → ids_ok C →
  N + zlen C < 2 ^ 31 → (∀ i n, 0 ≤ i → 0 ≤ n → i + n ≤ zlen L → rd_block b i n = Ret (sub_list L i n)) →
  ∃ s' x' C', get_entries (length C) s x b (zlen L) (zlen pre) = Ret (s', x') ∧ flat_inv B0 (N + zlen C) s' x' (D ++ C') ∧ C' `sublist_of` C ∧ x'.(dim) = x.(dim) ∧ x'.(dist) = x.(dist) ∧
    ∃ ok, allot s.(heap) x.(flat_ptr) (zlen x.(flat_entries)) x.(flat_capacity) x.(dim) C = Ret (C', ok).
Proof.
  induction C as [|c C IH]; intros pre N s x D EL Hi Hdim H8 Hids HN Hrd; cbn [length get_entries].
  { exists s, x, []. split; [done|]. rewrite app_nil_r. split; [by change (zlen []) with 0; rewrite Z.add_0_r|]. split; [done|]. split; [done|]. split; [done|by exists true]. }
  apply list.Forall_cons_1 in Hdim as [Hd1 Hd2]. apply list.Forall_cons_1 in H8 as [H81 H82]. apply list.Forall_cons_1 in Hids as [Hid1 Hid2]. rewrite zlen_cons in *. pose proof (zlen_nonneg C).
  cbn [map concat] in EL. destruct (fi_dim _ _ _ _ _ Hi) as [Hd0 _]. pose proof (zlen_nonneg pre) as Hpre. pose proof (zlen_nonneg (concat (map record C))).
  assert (zlen L = zlen pre + 8 + dim x + zlen (concat (map record C))) as EzL by (rewrite EL, !zlen_app, record_len; lia).
  rewrite gtb_le by lia. rewrite !Hrd by lia. cbn [mbind outcome_bind].
  assert (sub_list L (zlen pre) 8 = le_bytes 8 c.1) as ->.
  { rewrite EL. unfold record. rewrite <- app_assoc. replace 8 with (zlen (le_bytes 8 c.1)) at 1 by (unfold zlen; by rewrite length_le_bytes). apply sub_list_middle. }
  assert (sub_list L (zlen pre + 8) (dim x) = to_bytes c.2) as ->.
  { rewrite EL. unfold record. replace (dim x) with (zlen (to_bytes c.2)) by (by rewrite to_bytes_len). replace (zlen pre + 8) with (zlen (pre ++ le_bytes 8 c.1)) by (rewrite zlen_app; unfold zlen; by rewrite length_le_bytes).
    rewrite <- app_assoc, app_assoc. apply sub_list_middle. }
  rewrite le_val_bytes by (change (256 ^ Z.of_nat 8) with (2 ^ 64); done). rewrite to_int8_bytes by done. unfold add_one. destruct (fi_flat _ _ _ _ _ Hi) as [Hf _]. rewrite Hf. cbn [Z.eqb VECINDEX_FLAT].
  destruct (flat_add_spec B0 N s x D c.1 c.2 Hi ltac:(lia)) as (s1 & x1 & rc & Ea & Ed & Es & Hc); [by split|]. pose proof (allot_add s x c.1 c.2 s1 x1 rc C Ea) as Hal. rewrite Ea. cbn [mbind outcome_bind].
  replace (zlen pre + 8 + dim x1) with (zlen (pre ++ record c)) by (rewrite zlen_app, record_len, Ed; lia).
  assert (∃ D1, flat_inv B0 (N + 1) s1 x1 (D ++ D1) ∧ D1 `sublist_of` [c] ∧ D1 = if rc =? 0 then [c] else []) as (D1 & Hi1 & Hs1 & ED1).
  { destruct Hc as [[-> Hc]|[-> Hc]]; [exists []; split; [by rewrite app_nil_r|split; [apply sublist_nil_l|done]]|exists [c]; split; [by destruct c|by split; [reflexivity|]]]. }
  destruct (IH (pre ++ record c) (N + 1) s1 x1 (D ++ D1)) as (s2 & x2 & C2 & E2 & Hi2 & Hs2 & Ed2 & Es2 & ok & Hal2); [by rewrite EL, <- app_assoc|done|by rewrite Ed|done|done|lia|done|].
  exists s2, x2, (D1 ++ C2). split; [done|]. split; [rewrite app_assoc; by replace (N + (zlen C + 1)) with (N + 1 + zlen C) by lia|]. split; [|split; [congruence|split; [congruence|]]].
  - change (c :: C) with ([c] ++ C). by apply sublist_app.
  - destruct c as [id v]. cbn [fst snd] in Hal. rewrite Hal, Hal2, ED1. cbn [mbind outcome_bind fst snd]. destruct (rc =? 0); by eexists.
Qed.
Lemma header_words x n : let h := header x n in
  sub_list h 0 4 = le_bytes 4 VECINDEX_MAGIC ∧ sub_list h 4 4 = le_bytes 4 x.(type) ∧ sub_list h 8 4 = le_bytes 4 x.(dist) ∧
  sub_list h 12 4 = le_bytes 4 x.(dim) ∧ sub_list h 16 4 = le_bytes 4 n ∧ sub_list h 20 4 = le_bytes 4 x.(nlist).
Proof. by repeat split. Qed.
Lemma deserialize_spec B0 B2 N s s2 x C b : flat_inv B0 N s x C → zlen C < 2 ^ 30 → ids_ok C → 0 ≤ x.(dist) < 2 ^ 32 → kh_rep s2.(heap) B2 →
  (∀ i n, 0 ≤ i → 0 ≤ n → i + n ≤ zlen (image x C) → rd_block b i n = Ret (sub_list (image x C) i n)) →
  ∃ s3 xo r ok, vecindex_deserialize s2 (Some b) (zlen (image x C)) = Ret (s3, xo) ∧ allot_index s2.(heap) x.(dim) C = Ret (r, ok) ∧
    (ok = true → r = Some C) ∧
    match xo, r with
    | None, None => kh_rep s3.(heap) B2
    | Some x', Some C' => flat_inv B2 (256 + zlen C) s3 x' C' ∧ C' `sublist_of` C ∧ x'.(dim) = x.(dim) ∧ x'.(dist) = x.(dist)
    | _, _ => False
    end.
Proof.
  intros Hi HC Hids Hds Hh Hrd. destruct Hi as [(Hf & _ & _) Hd He _ _ _]. unfold MAX_DIM in Hd. pose proof (zlen_nonneg C). pose proof (header_len x (zlen C)) as Hhl. pose proof (zlen_nonneg (concat (map record C))).
  assert (zlen (image x C) = 24 + zlen (concat (map record C))) as El by (unfold image; rewrite zlen_app; lia). unfold vecindex_deserialize.
  rewrite (proj2 (Z.ltb_ge _ _)) by lia. rewrite Hrd by lia. cbn [mbind outcome_bind].
  assert (sub_list (image x C) 0 24 = header x (zlen C)) as ->.
  { unfold image. rewrite sub_list_app_l by lia. by apply sub_list_all. }
  destruct (header_words x (zlen C)) as (W0 & W4 & W8 & W12 & W16 & W20). rewrite W0, W4, W8, W12, W16, W20, Hf. assert (∀ z, 0 ≤ z < 2 ^ 32 → le_val (le_bytes 4 z) = z) as Hw by (intros z; apply (le_val_bytes 4)).
  rewrite (Hw VECINDEX_MAGIC), (Hw VECINDEX_FLAT), (Hw (dist x)), (Hw (dim x)), (Hw (zlen C)) by (done || lia).
  rewrite Z.eqb_refl. cbn [negb]. destruct (vec_create_spec B2 s2 x.(dim) x.(dist) Hh Hd) as (s3 & xo & Ecr & Hx). rewrite Ecr. cbn [mbind outcome_bind].
  unfold allot_index. unfold vecindex_create, v_kcalloc in Ecr. destruct (kcalloc s2.(heap) 1 SIZEOF_INDEX) as [[h p]| |]; cbn [mbind outcome_bind] in Ecr |- *; [|done..].
  change (VECINDEX_FLAT =? VECINDEX_IVF) with false in *. cbn [andb mbind outcome_bind]. destruct (p =? 0); injection Ecr as <- <-; [by exists (with_heap s2 h), None, None, false|].
  set (s3 := with_heap s2 h) in *. set (x' := {| self := p |}) in *.
  destruct Hx as (Hx & Ed & Es).
  destruct (get_entries_spec B2 b (image x C) C (header x (zlen C)) 256 s3 x' []) as (s4 & x4 & C' & E4 & H4 & Hsub & Ed4 & Es4 & ok & Hal);
    [done|done|rewrite Ed; by eapply holds_dim|by eapply holds_int8|done|lia|done|].
  rewrite Hhl in E4. unfold zlen at 1. rewrite Nat2Z.id. rewrite E4. cbn [mbind outcome_bind]. exists s4, (Some x4), (Some C'), ok. split; [done|].
  change (allot h 0 0 0 x.(dim) C = Ret (C', ok)) in Hal. rewrite Hal. split; [done|]. split; [intros ->; f_equal; by eapply allot_all|]. split; [done|]. split; [done|]. split; congruence.
Qed.
End serial.

(** C30: What is written of a flat index is read back as an index of the same vectors with
    their identifiers in the same order, less those for which there was no memory: it
    is NULL exactly when the heap refuses the block of the index, and lacks exactly the
    vectors for which the heap, asked for one entry after the other, refuses the larger
    entry array or the block of the vector ([allot_index]); when it refuses nothing,
    the index is the one that was written. *)
Theorem vecindex_roundtrip {H} `{KH : KHeap H} (s s2 : vstore H) (B0 B2 : gset Z) (N size : Z) (x : vecindex) (C : contents) (buf : list Z) :
  flat_inv B0 N s x C → zlen C < 2 ^ 30 → ids_ok C → 0 ≤ x.(dist) < 2 ^ 32 → 24 + zlen C * (8 + x.(dim)) ≤ size ≤ zlen buf → kh_rep s2.(heap) B2 →
  ∃ b n s3 xo r ok, vecindex_serialize s (Some x) (Some buf) size = Ret (Some b, n) ∧ vecindex_deserialize s2 (Some b) n = Ret (s3, xo) ∧
    allot_index s2.(heap) x.(dim) C = Ret (r, ok) ∧ (ok = true → r = Some C) ∧
    match xo, r with
    | None, None => kh_rep s3.(heap) B2
    | Some x', Some C' => (∃ N', flat_inv B2 N' s3 x' C') ∧ C' `sublist_of` C ∧ x'.(dim) = x.(dim) ∧ x'.(dist) = x.(dist)
    | _, _ => False
    end.
Proof.
  intros Hi HC Hids Hds Hsz Hh. assert (zlen (image x C) = 24 + zlen C * (8 + x.(dim))) as El.
  { unfold image. rewrite zlen_app, header_len. f_equal. apply records_len. eapply holds_dim, (fi_entries _ _ _ _ _ Hi). }
  destruct (deserialize_spec B0 B2 N s s2 x C (splice buf 0 (image x C)) Hi HC Hids Hds Hh) as (s3 & xo & r & ok & E & Hal & Hok & Hx).
  { intros i n Hi0 Hn Hin. rewrite rd_block_ok by (rewrite ?zlen_splice; lia). f_equal. apply sub_list_splice; lia. }
  exists (splice buf 0 (image x C)), (24 + zlen C * (8 + x.(dim))), s3, xo, r, ok. split; [apply (serialize_spec B0 N s x C buf size Hi); lia|]. rewrite <- El.
  split; [done|]. split; [done|]. split; [done|]. destruct xo as [x'|], r as [C'|]; [|done..]. destruct Hx as (H1 & Hx). split; [by exists (256 + zlen C)|done].
Qed.
Lemma index_of_one {H} `{KH : KHeap H} (s : vstore H) d m id v : kh_rep s.(heap) ∅ → 0 ≤ d ≤ MAX_DIM → query_ok v d →
  match vecindex_create s d VECINDEX_FLAT m with Ret (s, xo) => match vec_run s xo [Add id v] with Ret (_, rs) => rs | _ => [] end | _ => [] end = [([], 0)] →
  ∃ s2 x2, flat_inv ∅ 257 s2 x2 [(id, v)] ∧ x2.(dim) = d ∧ x2.(dist) = m.
Proof.
  intros Hh Hd Hv Hrs. destruct (vec_create_spec ∅ s d m Hh Hd) as (s1 & xo & E1 & Hx). rewrite E1 in Hrs. destruct xo as [x|]; [|done]. destruct Hx as (Hi & Ed & Es).
  destruct (vec_do_spec ∅ 256 s1 x [] (Add id v) Hi ltac:(lia)) as (s' & x' & r & C' & E' & Ed' & Es' & Hi' & Hst); [by rewrite Ed|].
  cbn [vec_run] in Hrs. rewrite E' in Hrs. cbn [mbind outcome_bind] in Hrs. injection Hrs as ->. exists s', x'. split; [|split; congruence]. change 257 with (256 + 1).
  inversion Hst; subst. done.
Qed.
Lemma vecindex_roundtrip_witness :
  ∃ (s : vstore (Slab.heap pmm_t)) x b n s3 x', flat_inv ∅ 257 s x [(7, [3; -4])] ∧
    vecindex_serialize s (Some x) (Some (replicate 64 0)) 64 = Ret (Some b, n) ∧ vecindex_deserialize demo_vstore (Some b) n = Ret (s3, Some x') ∧
    (∃ N', flat_inv ∅ N' s3 x' [(7, [3; -4])]) ∧ x'.(dim) = 2 ∧ x'.(dist) = VECDIST_IP.
Proof.
  assert (query_ok [3; -4] 2) as Hv by (split; [done|]; unfold int8; repeat constructor; lia).
  destruct (index_of_one demo_vstore 2 VECDIST_IP 7 [3; -4] demo_heap_rep) as (s2 & x2 & Hi & Ed & Es); [unfold MAX_DIM; lia|exact Hv|vm_compute; reflexivity|].
  destruct (vecindex_roundtrip s2 demo_vstore ∅ ∅ 257 64 x2 [(7, [3; -4])] (replicate 64 0) Hi) as (b & n & s3 & xo & r & ok & Eser & Edes & Eal & _ & Hx);
    [reflexivity| |rewrite Es; unfold VECDIST_IP; lia|rewrite Ed; unfold zlen; cbn; lia|exact demo_heap_rep|].
  { repeat constructor; cbn; lia. }
  assert (allot_index demo_heap 2 [(7, [3; -4])] = Ret (Some [(7, [3; -4])], true)) as Hal by (vm_compute; reflexivity).
  rewrite Ed in Eal. change (heap demo_vstore) with demo_heap in Eal. rewrite Hal in Eal. injection Eal as <- <-.
  destruct xo as [x'|]; [|contradiction]. destruct Hx as (HN & _ & Ed' & Es'). exists s2, x2, b, n, s3, x'. split; [exact Hi|]. split; [exact Eser|].
  split; [exact Edes|]. split; [exact HN|]. split; congruence.
Defined.
