(* ===== verification/Json.v ===== *)
(** * The JSON reader ([lib/json.c])

    A pointer into the text is the rest of the text from there, up to its terminator. A
    step past the terminator is a [Fault]: the code always goes on to read there. A
    double is a [spec_float] of 53 bits. [nodes] and [strs] hold the values and the
    strings by the addresses of their blocks; the items of an array are part of its
    node, next to the address of their block. *)

From Stdlib Require Import SpecFloat.
From stdpp Require Import base numbers list gmap sets.
From S2P Require Import Prelude CMem CArray KHeap Buf.
From Stdlib Require Import (notations) String.
Open Scope Z_scope.

(** ** Doubles *)

Definition double : Type := spec_float.
Definition d_of (n : Z) : double := binary_normalize 53 1024 n 0 false.
Definition d_add : double → double → double := SFadd 53 1024.
Definition d_mul : double → double → double := SFmul 53 1024.
Definition d_div : double → double → double := SFdiv 53 1024.
(** [0.1] is the double that is nearest to a tenth. *)
Definition d_tenth : double := d_div (d_of 1) (d_of 10).
(** [(int)x]; a value that [int] does not have is undefined. *)
Definition int_of (x : double) : outcome Z :=
  match x with
  | S754_zero _ => Ret 0
  | S754_finite s m e =>
      let a := if e >=? 0 then Z.pos m * 2 ^ e else Z.pos m / 2 ^ (- e) in
      let z := if s then - a else a in
      if (- 2 ^ 31 <=? z) && (z <? 2 ^ 31) then Ret z else Fault
  | _ => Fault
  end.

(** ** Values *)

Inductive node :=
| N_NULL | N_BOOL (bool_val : bool) | N_NUMBER (num_val : double) | N_STRING (str_val : Z)
| N_ARRAY (items_ptr : Z) (items : list Z) | N_OBJECT (keys_ptr values_ptr : Z) (members : list (Z * Z)).
Definition SIZEOF_VALUE : Z := 32.
Record jstore (H : Type) := { heap : H; nodes : gmap Z node; strs : gmap Z (list Z) }.
Arguments heap {H}.
Arguments nodes {H}.
Arguments strs {H}.

(** ** The text *)

Definition peek (p : list Z) : Z := hd 0 p.
Definition adv (p : list Z) (n : nat) : outcome (list Z) := if decide (n ≤ length p)%nat then Ret (drop n p) else Fault.
Definition QUOTE : Z := 34.
Definition BACKSLASH : Z := 92.
Definition LC_U : Z := 117.
Definition is_ws (c : Z) : bool := (c =? 32) || (c =? 9) || (c =? 10) || (c =? 13).
Fixpoint skip_whitespace (p : list Z) : list Z := match p with c :: r => if is_ws c then skip_whitespace r else p | [] => [] end.
Definition is_digit (c : Z) : bool := (48 <=? c) && (c <=? 57).

(** The first pass of [parse_string_raw]: where the string ends, and its length. *)
Fixpoint string_len (fuel : nat) (p : list Z) (len : Z) : outcome (list Z * Z) :=
  if nonzero (peek p) && negb (peek p =? QUOTE) then
    match fuel with
    | O => NoFuel
    | S fuel =>
        if peek p =? BACKSLASH then
          p ← adv p 1;
          if peek p =? LC_U then p ← adv p 4; string_len fuel p (len + 1)
          else p ← adv p 1; string_len fuel p (len + 1)
        else p ← adv p 1; string_len fuel p (len + 1)
    end
  else Ret (p, len).
Definition unescape (c : Z) : Z :=
  if c =? 98 then 8 else if c =? 102 then 12 else if c =? 110 then 10 else if c =? 114 then 13 else if c =? 116 then 9 else c.
(** The next entry of a block for [size] of them, [str[i++] = c]. *)
Definition put {A} (size : Z) (l : list A) (x : A) : outcome (list A) := if zlen l <? size then Ret (l ++ [x]) else Fault.
(** The second pass. *)
Fixpoint string_copy (fuel : nat) (size : Z) (p str : list Z) : outcome (list Z * list Z) :=
  if negb (peek p =? QUOTE) then
    match fuel with
    | O => NoFuel
    | S fuel =>
        if peek p =? BACKSLASH then
          p ← adv p 1;
          if peek p =? LC_U then str ← put size str 63; p ← adv p 4; string_copy fuel size p str
          else str ← put size str (unescape (peek p)); p ← adv p 1; string_copy fuel size p str
        else str ← put size str (peek p); p ← adv p 1; string_copy fuel size p str
    end
  else Ret (p, str).

(** *** Numbers *)

(** The digits at [p], their value added to [acc], and what follows. *)
Fixpoint integer_from (p : list Z) (acc : double) : double * list Z :=
  match p with c :: r => if is_digit c then integer_from r (d_add (d_mul acc (d_of 10)) (d_of (c - 48))) else (acc, p) | [] => (acc, []) end.
Fixpoint fraction_from (p : list Z) (frac place : double) : double * list Z :=
  match p with
  | c :: r => if is_digit c then fraction_from r (d_add frac (d_mul (d_of (c - 48)) place)) (d_mul place d_tenth) else (frac, p)
  | [] => (frac, [])
  end.
Definition power (n : Z) : double := Nat.iter (Z.to_nat n) (λ m, d_mul m (d_of 10)) (d_of 1).
(** The value of a number and what follows it. *)
Definition read_number (p : list Z) : outcome (double * list Z) :=
  let '(sign, p) := if peek p =? 45 then (d_of (-1), tail p) else (d_of 1, p) in
  let '(integer, p) := integer_from p (d_of 0) in
  let '(frac, p) := if peek p =? 46 then fraction_from (tail p) (d_of 0) d_tenth else (d_of 0, p) in
  let result := d_mul sign (d_add integer frac) in
  if (peek p =? 101) || (peek p =? 69) then
    let p := tail p in
    let '(minus, p) := if peek p =? 43 then (false, tail p) else if peek p =? 45 then (true, tail p) else (false, p) in
    let '(exp, p) := integer_from p (d_of 0) in
    n ← int_of exp;
    Ret (if minus : bool then d_div result (power n) else d_mul result (power n), p)
  else Ret (result, p).

Section json.
Context {H : Type} `{KH : KHeap H}.
Implicit Types (s : jstore H).

Definition with_heap s (h : H) : jstore H := {| heap := h; nodes := s.(nodes); strs := s.(strs) |}.
Definition set_node s (v : Z) (n : node) : jstore H := {| heap := s.(heap); nodes := <[v := n]> s.(nodes); strs := s.(strs) |}.
Definition node_at s (v : Z) : outcome node := match s.(nodes) !! v with Some n => Ret n | None => Fault end.
Definition j_kmalloc s (n : Z) : outcome (jstore H * Z) := '(h, p) ← kmalloc s.(heap) n; Ret (with_heap s h, p).
Definition j_krealloc s (p n : Z) : outcome (jstore H * Z) := '(h, q) ← krealloc s.(heap) p n; Ret (with_heap s h, q).
Definition j_kfree s (p : Z) : outcome (jstore H) := h ← kfree s.(heap) p; Ret (with_heap s h).
Definition free_str s (p : Z) : outcome (jstore H) :=
  match s.(strs) !! p with
  | Some _ => s ← j_kfree s p; Ret {| heap := s.(heap); nodes := s.(nodes); strs := delete p s.(strs) |}
  | None => Fault
  end.
(** [kfree] of a value. *)
Definition free_node s (v : Z) : outcome (jstore H) :=
  s ← j_kfree s v; Ret {| heap := s.(heap); nodes := delete v s.(nodes); strs := s.(strs) |}.
Definition array_at s (v : Z) : outcome (Z * list Z) := n ← node_at s v; match n with N_ARRAY ap vs => Ret (ap, vs) | _ => Fault end.
Definition object_at s (v : Z) : outcome (Z * Z * list (Z * Z)) :=
  n ← node_at s v; match n with N_OBJECT kp vp ms => Ret (kp, vp, ms) | _ => Fault end.
(** [alloc_value] and the assignment of the value; 0 if there is no memory. *)
Definition alloc_value s (n : node) : outcome (jstore H * Z) :=
  '(h, v) ← kcalloc s.(heap) 1 SIZEOF_VALUE;
  Ret (if v =? 0 then with_heap s h else set_node (with_heap s h) v n, v).

(** The string behind the quote at [p], and what follows it. *)
Definition parse_string_raw s (p : list Z) : outcome (jstore H * option (Z * list Z)) :=
  if negb (peek p =? QUOTE) then Ret (s, None) else
  start ← adv p 1;
  '(q, len) ← string_len (length start) start 0;
  if negb (peek q =? QUOTE) then Ret (s, None) else
  '(s, b) ← j_kmalloc s (len + 1);
  if b =? 0 then Ret (s, None) else
  '(q, str) ← string_copy (length start) (len + 1) start [];
  str ← put (len + 1) str 0;
  q ← adv q 1;
  Ret ({| heap := s.(heap); nodes := s.(nodes); strs := <[b := str]> s.(strs) |}, Some (b, q)).
Definition parse_string s (p : list Z) : outcome (jstore H * option (Z * list Z)) :=
  '(s, r) ← parse_string_raw s p;
  match r with
  | None => Ret (s, None)
  | Some (b, q) =>
      '(s, v) ← alloc_value s (N_STRING b);
      if v =? 0 then s ← free_str s b; Ret (s, None) else Ret (s, Some (v, q))
  end.
Definition parse_number s (p : list Z) : outcome (jstore H * option (Z * list Z)) :=
  '(x, q) ← read_number p;
  '(s, v) ← alloc_value s (N_NUMBER x);
  Ret (s, if v =? 0 then None else Some (v, q)).

Fixpoint free_keys_and (free : jstore H → Z → outcome (jstore H)) s (ms : list (Z * Z)) : outcome (jstore H) :=
  match ms with [] => Ret s | (k, v) :: ms => s ← free_str s k; s ← free s v; free_keys_and free s ms end.
Fixpoint free_items (free : jstore H → Z → outcome (jstore H)) s (vs : list Z) : outcome (jstore H) :=
  match vs with [] => Ret s | v :: vs => s ← free s v; free_items free s vs end.
Fixpoint free_from (fuel : nat) s (v : Z) : outcome (jstore H) :=
  if v =? 0 then Ret s else
  match fuel with
  | O => NoFuel
  | S fuel =>
      n ← node_at s v;
      s ← (match n with
           | N_STRING b => free_str s b
           | N_ARRAY ap vs => s ← free_items (free_from fuel) s vs; j_kfree s ap
           | N_OBJECT kp vp ms => s ← free_keys_and (free_from fuel) s ms; s ← j_kfree s kp; j_kfree s vp
           | _ => Ret s
           end);
      free_node s v
  end.
(** Values do not share: a tree is at most as high as there are values. *)
Definition json_free s (v : Z) : outcome (jstore H) := free_from (S (size s.(nodes))) s v.

(** A literal at the start of [p]. *)
Definition starts (p l : list Z) : bool := bool_decide (take (length l) p = l).

(** [parse_array] and [parse_object] up to their loops, which are [loop]. *)
Definition parse_array (loop : jstore H → Z → Z → list Z → outcome (jstore H * option (Z * list Z))) s (p : list Z) : outcome (jstore H * option (Z * list Z)) :=
  p ← adv p 1;
  '(s, arr) ← alloc_value s (N_ARRAY 0 []);
  if arr =? 0 then Ret (s, None) else
  '(s, ap) ← j_kmalloc s (8 * 8);
  let s := set_node s arr (N_ARRAY ap []) in
  if ap =? 0 then s ← free_node s arr; Ret (s, None) else
  let p := skip_whitespace p in
  if peek p =? 93 then p ← adv p 1; Ret (s, Some (arr, p)) else
  loop s arr 8 p.
Definition parse_object (loop : jstore H → Z → Z → list Z → outcome (jstore H * option (Z * list Z))) s (p : list Z) : outcome (jstore H * option (Z * list Z)) :=
  p ← adv p 1;
  '(s, obj) ← alloc_value s (N_OBJECT 0 0 []);
  if obj =? 0 then Ret (s, None) else
  '(s, kp) ← j_kmalloc s (8 * 8);
  '(s, vp) ← j_kmalloc s (8 * 8);
  let s := set_node s obj (N_OBJECT kp vp []) in
  if (kp =? 0) || (vp =? 0) then s ← json_free s obj; Ret (s, None) else
  let p := skip_whitespace p in
  if peek p =? 125 then p ← adv p 1; Ret (s, Some (obj, p)) else
  loop s obj 8 p.
(** Room for one more item in the array [ap], which holds [count] of [capacity]. *)
Definition grow_items s (ap count capacity : Z) : outcome (jstore H * option (Z * Z)) :=
  if count >=? capacity then
    '(s, q) ← j_krealloc s ap (u64 (u64 (capacity * 2) * 8));
    Ret (s, if q =? 0 then None else Some (q, u64 (capacity * 2)))
  else Ret (s, Some (ap, capacity)).
Definition grow_members s (kp vp count capacity : Z) : outcome (jstore H * option (Z * Z * Z)) :=
  if count >=? capacity then
    '(s, nk) ← j_krealloc s kp (u64 (u64 (capacity * 2) * 8));
    '(s, nv) ← j_krealloc s vp (u64 (u64 (capacity * 2) * 8));
    Ret (s, if (nk =? 0) || (nv =? 0) then None else Some (nk, nv, u64 (capacity * 2)))
  else Ret (s, Some (kp, vp, capacity)).

Fixpoint parse_value (fuel : nat) s (p : list Z) : outcome (jstore H * option (Z * list Z)) :=
  match fuel with
  | O => NoFuel
  | S fuel =>
      let p := skip_whitespace p in
      if peek p =? QUOTE then parse_string s p else
      if peek p =? 123 then parse_object (object_loop fuel) s p else
      if peek p =? 91 then parse_array (array_loop fuel) s p else
      if starts p (bytes "true") then '(s, v) ← alloc_value s (N_BOOL true); Ret (s, if v =? 0 then None else Some (v, drop 4 p)) else
      if starts p (bytes "false") then '(s, v) ← alloc_value s (N_BOOL false); Ret (s, if v =? 0 then None else Some (v, drop 5 p)) else
      if starts p (bytes "null") then '(s, v) ← alloc_value s N_NULL; Ret (s, if v =? 0 then None else Some (v, drop 4 p)) else
      if (peek p =? 45) || is_digit (peek p) then parse_number s p else
      Ret (s, None)
  end
with array_loop (fuel : nat) s (arr capacity : Z) (p : list Z) : outcome (jstore H * option (Z * list Z)) :=
  match fuel with
  | O => NoFuel
  | S fuel =>
      '(s, r) ← parse_value fuel s (skip_whitespace p);
      match r with
      | None => s ← json_free s arr; Ret (s, None)
      | Some (item, p) =>
          '(ap, vs) ← array_at s arr;
          '(s, g) ← grow_items s ap (zlen vs) capacity;
          match g with
          | None => s ← json_free s item; s ← json_free s arr; Ret (s, None)
          | Some (ap, capacity) =>
              vs ← put capacity vs item;
              let s := set_node s arr (N_ARRAY ap vs) in
              let p := skip_whitespace p in
              if peek p =? 44 then p ← adv p 1; array_loop fuel s arr capacity p else
              if peek p =? 93 then p ← adv p 1; Ret (s, Some (arr, p)) else
              s ← json_free s arr; Ret (s, None)
          end
      end
  end
with object_loop (fuel : nat) s (obj capacity : Z) (p : list Z) : outcome (jstore H * option (Z * list Z)) :=
  match fuel with
  | O => NoFuel
  | S fuel =>
      '(s, r) ← parse_string_raw s (skip_whitespace p);
      match r with
      | None => s ← json_free s obj; Ret (s, None)
      | Some (key, p) =>
          let p := skip_whitespace p in
          if negb (peek p =? 58) then s ← free_str s key; s ← json_free s obj; Ret (s, None) else
          p ← adv p 1;
          '(s, r) ← parse_value fuel s (skip_whitespace p);
          match r with
          | None => s ← free_str s key; s ← json_free s obj; Ret (s, None)
          | Some (val, p) =>
              '(kp, vp, ms) ← object_at s obj;
              '(s, g) ← grow_members s kp vp (zlen ms) capacity;
              match g with
              | None => s ← free_str s key; s ← json_free s val; s ← json_free s obj; Ret (s, None)
              | Some (kp, vp, capacity) =>
                  ms ← put capacity ms (key, val);
                  let s := set_node s obj (N_OBJECT kp vp ms) in
                  let p := skip_whitespace p in
                  if peek p =? 44 then p ← adv p 1; object_loop fuel s obj capacity p else
                  if peek p =? 125 then p ← adv p 1; Ret (s, Some (obj, p)) else
                  s ← json_free s obj; Ret (s, None)
              end
          end
      end
  end.
(** A value and an item of a list are read for each character at most. *)
Definition json_parse s (text : option (list Z)) : outcome (jstore H * option Z) :=
  match text with
  | None => Ret (s, None)
  | Some t => '(s, r) ← parse_value (2 * length t + 2) s t; Ret (s, option_map fst r)
  end.

(** ** Access *)

Fixpoint find_key s (ms : list (Z * Z)) (key : list Z) : outcome (option Z) :=
  match ms with
  | [] => Ret None
  | (k, v) :: ms =>
      match s.(strs) !! k with
      | None => Fault
      | Some b => if bool_decide (cstr b = key) then Ret (Some v) else find_key s ms key
      end
  end.
Definition json_get s (obj : option Z) (key : option (list Z)) : outcome (option Z) :=
  match obj, key with
  | Some o, Some key => n ← node_at s o; match n with N_OBJECT _ _ ms => find_key s ms key | _ => Ret None end
  | _, _ => Ret None
  end.
Definition json_get_node s (obj : option Z) (key : option (list Z)) : outcome (option node) :=
  v ← json_get s obj key; match v with Some v => n ← node_at s v; Ret (Some n) | None => Ret None end.
Definition json_get_string s (obj : option Z) (key : option (list Z)) : outcome (option Z) :=
  n ← json_get_node s obj key; Ret (match n with Some (N_STRING b) => Some b | _ => None end).
Definition json_get_number s (obj : option Z) (key : option (list Z)) : outcome double :=
  n ← json_get_node s obj key; Ret (match n with Some (N_NUMBER x) => x | _ => d_of 0 end).
Definition json_get_bool s (obj : option Z) (key : option (list Z)) : outcome bool :=
  n ← json_get_node s obj key; Ret (match n with Some (N_BOOL b) => b | _ => false end).
End json.

(** ** The specification: texts as values *)

Inductive json :=
| J_null | J_bool (b : bool) | J_number (x : double) | J_string (bs : list Z)
| J_array (js : list json) | J_object (ms : list (list Z * json)).

(** What a text starts with. [Unsafe] are the texts that the code is not safe on: an
    escape that reaches beyond the end, an exponent that is no [int], and an object of
    more than eight members. [Spent] is a lack of fuel. *)
Inductive scanned (A : Type) :=
| Parsed (a : A) (rest : list Z)
| Rejected
| Unsafe
| Spent.
Arguments Parsed {A}.
Arguments Rejected {A}.
Arguments Unsafe {A}.
Arguments Spent {A}.

Definition scan_map {A B} (f : A → B) (x : scanned A) : scanned B :=
  match x with Parsed a q => Parsed (f a) q | Rejected => Rejected | Unsafe => Unsafe | Spent => Spent end.
(** The characters of a string up to the closing quote. [\u] stands for [?] and takes three
    more characters. *)
Fixpoint scan_chars (p : list Z) : scanned (list Z) :=
  match p with
  | [] => Rejected
  | c :: r =>
      if c =? QUOTE then Parsed [] r else
      if c =? BACKSLASH then
        match r with
        | [] => Unsafe
        | e :: r =>
            if e =? LC_U then match r with _ :: _ :: _ :: r => scan_map (cons 63) (scan_chars r) | _ => Unsafe end
            else scan_map (cons (unescape e)) (scan_chars r)
        end
      else scan_map (cons c) (scan_chars r)
  end.
Definition scan_string (p : list Z) : scanned (list Z) := if peek p =? QUOTE then scan_chars (tail p) else Rejected.
Definition scan_number (p : list Z) : scanned json :=
  match read_number p with Ret (x, q) => Parsed (J_number x) q | _ => Unsafe end.

(** The code keeps the items of an array and the members of an object that it has read,
    so [scan_items] gives all of them, and [room] is what is left of eight members. *)
Fixpoint scan_value (fuel : nat) (p : list Z) : scanned json :=
  match fuel with
  | O => Spent
  | S fuel =>
      let p := skip_whitespace p in
      if peek p =? QUOTE then scan_map J_string (scan_string p) else
      if peek p =? 123 then
        let p := skip_whitespace (tail p) in
        if peek p =? 125 then Parsed (J_object []) (tail p) else scan_map J_object (scan_members fuel 8 p)
      else
      if peek p =? 91 then
        let p := skip_whitespace (tail p) in
        if peek p =? 93 then Parsed (J_array []) (tail p) else scan_map J_array (scan_items fuel p)
      else
      if starts p (bytes "true") then Parsed (J_bool true) (drop 4 p) else
      if starts p (bytes "false") then Parsed (J_bool false) (drop 5 p) else
      if starts p (bytes "null") then Parsed J_null (drop 4 p) else
      if (peek p =? 45) || is_digit (peek p) then scan_number p else
      Rejected
  end
with scan_items (fuel : nat) (p : list Z) : scanned (list json) :=
  match fuel with
  | O => Spent
  | S fuel =>
      match scan_value fuel (skip_whitespace p) with
      | Parsed j p =>
          let p := skip_whitespace p in
          if peek p =? 44 then scan_map (cons j) (scan_items fuel (tail p)) else
          if peek p =? 93 then Parsed [j] (tail p) else Rejected
      | Rejected => Rejected
      | Unsafe => Unsafe
      | Spent => Spent
      end
  end
with scan_members (fuel : nat) (room : nat) (p : list Z) : scanned (list (list Z * json)) :=
  match fuel with
  | O => Spent
  | S fuel =>
      match scan_string (skip_whitespace p) with
      | Parsed k p =>
          let p := skip_whitespace p in
          if peek p =? 58 then
            match scan_value fuel (skip_whitespace (tail p)) with
            | Parsed j p =>
                match room with
                | O => Unsafe
                | S room =>
                    let p := skip_whitespace p in
                    if peek p =? 44 then scan_map (cons (k, j)) (scan_members fuel room (tail p)) else
                    if peek p =? 125 then Parsed [(k, j)] (tail p) else Rejected
                end
            | Rejected => Rejected
            | Unsafe => Unsafe
            | Spent => Spent
            end
          else Rejected
      | Rejected => Rejected
      | Unsafe => Unsafe
      | Spent => Spent
      end
  end.
Definition scan (t : list Z) : scanned json := scan_value (2 * length t + 2) t.

(** *** The memory that a value needs *)

Section build.
Context {H : Type} `{KH : KHeap H}.

(** One request to the heap; [None] is a refusal. *)
Definition granted (o : outcome (H * Z)) : option (H * Z) :=
  match o with Ret (h, p) => if p =? 0 then None else Some (h, p) | _ => None end.
Definition ask_value (h : H) : option H := fst <$> granted (kcalloc h 1 SIZEOF_VALUE).
Definition ask_string (h : H) (bs : list Z) : option H := fst <$> granted (kmalloc h (zlen bs + 1)).
(** Room for one more item in an array [ap] of [capacity] items, [count] of which are
    there: a full block is doubled. *)
Definition room_for (h : H) (ap count capacity : Z) : option (H * Z * Z) :=
  if count >=? capacity then '(h, q) ← granted (krealloc h ap (capacity * 2 * 8)); Some (h, q, capacity * 2)
  else Some (h, ap, capacity).
(** The requests for the items of an array after its block. *)
Fixpoint build_items (build : H → json → option H) (h : H) (ap count capacity : Z) (js : list json) : option H :=
  match js with
  | [] => Some h
  | j :: js => h ← build h j; '(h, ap, capacity) ← room_for h ap count capacity; build_items build h ap (count + 1) capacity js
  end%stdpp.
Fixpoint build_members (build : H → json → option H) (h : H) (ms : list (list Z * json)) : option H :=
  match ms with [] => Some h | (k, j) :: ms => h ← ask_string h k; h ← build h j; build_members build h ms end%stdpp.
(** The requests for a value in their order; what is left is the heap with the value. *)
Fixpoint build (h : H) (j : json) : option H :=
  match j with
  | J_string bs => h ← ask_string h bs; ask_value h
  | J_array js => h ← ask_value h; '(h, ap) ← granted (kmalloc h (8 * 8)); build_items build h ap 0 8 js
  | J_object ms =>
      h ← ask_value h; '(h, kp) ← granted (kmalloc h (8 * 8)); '(h, vp) ← granted (kmalloc h (8 * 8));
      build_members build h ms
  | _ => ask_value h
  end%stdpp.
End build.

(** ** The text *)

Lemma is_cstr_cons c r : is_cstr (c :: r) → 0 < c < 256 ∧ is_cstr r.
Proof. intros Hp. by apply list.Forall_cons in Hp. Qed.
Lemma is_cstr_tail p : is_cstr p → is_cstr (tail p).
Proof. destruct p; [done|]. apply is_cstr_cons. Qed.
Lemma is_cstr_drop n p : is_cstr p → is_cstr (drop n p).
Proof. apply Forall_drop. Qed.
Lemma zlen_tail_le {A} (p : list A) : zlen (tail p) ≤ zlen p.
Proof. destruct p; unfold zlen; cbn; lia. Qed.
Lemma peek_cons c p : 0 < c → peek p = c → ∃ r, p = c :: r.
Proof. destruct p as [|x r]; cbn; intros Hc Hp; [lia|subst; by eexists]. Qed.
Lemma adv_1 p : 0 < peek p → adv p 1 = Ret (tail p).
Proof. destruct p; cbn; [lia|]. unfold adv. rewrite decide_True by (cbn; lia). done. Qed.
Lemma tail_shorter p : 0 < peek p → zlen (tail p) < zlen p.
Proof. destruct p; unfold zlen; cbn; lia. Qed.

Lemma skip_whitespace_rest p : is_cstr p → is_cstr (skip_whitespace p) ∧ zlen (skip_whitespace p) ≤ zlen p.
Proof.
  induction p as [|c r IH]; cbn; [split; [done|reflexivity]|]. intros Hp.
  destruct (is_ws c); [|split; [done|reflexivity]]. destruct (IH (proj2 (is_cstr_cons _ _ Hp))). rewrite zlen_cons. split; [done|lia].
Qed.
Lemma skip_whitespace_idem p : skip_whitespace (skip_whitespace p) = skip_whitespace p.
Proof. induction p as [|c r IH]; cbn; [done|]. destruct (is_ws c) eqn:E; [done|]. cbn. by rewrite E. Qed.

Lemma unescape_range c : 0 < c < 256 → 0 < unescape c < 256.
Proof. unfold unescape. intros. repeat case_match; lia. Qed.

(** *** Strings *)

(** What is left of [p], that the scanner has made something of, is shorter. *)
Definition shorter (q p : list Z) : Prop := is_cstr q ∧ zlen q < zlen p.
Lemma shorter_cons c q r : shorter q r → shorter q (c :: r).
Proof. intros [? ?]. split; [done|]. rewrite zlen_cons. lia. Qed.
Lemma scan_map_parsed {A B} (f : A → B) x b q : scan_map f x = Parsed b q → ∃ a, x = Parsed a q ∧ b = f a.
Proof. destruct x; cbn; intros E; simplify_eq. by eexists. Qed.
(** A property of a string that the scanner takes in steps. *)
Lemma scan_chars_ind (P : list Z → scanned (list Z) → Prop) :
  P [] Rejected →
  (∀ r, P (QUOTE :: r) (Parsed [] r)) →
  (∀ p, P p Unsafe) →
  (∀ a b c r, P r (scan_chars r) → P (BACKSLASH :: LC_U :: a :: b :: c :: r) (scan_map (cons 63) (scan_chars r))) →
  (∀ e r, e ≠ LC_U → P r (scan_chars r) → P (BACKSLASH :: e :: r) (scan_map (cons (unescape e)) (scan_chars r))) →
  (∀ c r, c ≠ QUOTE → c ≠ BACKSLASH → P r (scan_chars r) → P (c :: r) (scan_map (cons c) (scan_chars r))) →
  ∀ p, P p (scan_chars p).
Proof.
  intros H0 HQ HU Hu He Hc p. remember (length p) as n eqn:En. revert p En.
  induction (Nat.lt_wf_0 n) as [n _ IH]. intros [|c r] ->; cbn [scan_chars]; [done|].
  destruct (Z.eqb_spec c QUOTE) as [->|]; [apply HQ|].
  destruct (Z.eqb_spec c BACKSLASH) as [->|]; [|apply Hc; [done..|]; eapply IH; [|done]; cbn; lia].
  destruct r as [|e r]; [apply HU|]. destruct (Z.eqb_spec e LC_U) as [->|].
  - destruct r as [|a [|b [|d r]]]; try apply HU. apply Hu. eapply IH; [|done]. cbn; lia.
  - apply He; [done|]. eapply IH; [|done]. cbn; lia.
Qed.
Lemma scan_chars_shorter p bs q :
  is_cstr p → scan_chars p = Parsed bs q → shorter q p ∧ is_cstr bs ∧ zlen bs ≤ zlen p.
Proof.
  revert bs q. pattern p, (scan_chars p). apply scan_chars_ind; try done.
  - intros r bs q Hp [= <- <-]. apply is_cstr_cons in Hp as [_ Hp]. split; [split; [done|rewrite zlen_cons; lia]|].
    split; [constructor|unfold zlen; cbn; lia].
  - intros a b c r IH bs q Hp E. apply scan_map_parsed in E as (bs' & E & ->).
    do 5 apply is_cstr_cons in Hp as [_ Hp]. destruct (IH _ _ Hp E) as (Hq & Hb & Hl).
    split; [by do 5 apply shorter_cons|]. split; [by constructor|]. rewrite !zlen_cons. lia.
  - intros e r _ IH bs q Hp E. apply scan_map_parsed in E as (bs' & E & ->).
    apply is_cstr_cons in Hp as [_ Hp]. apply is_cstr_cons in Hp as [He Hp]. destruct (IH _ _ Hp E) as (Hq & Hb & Hl).
    split; [by do 2 apply shorter_cons|]. split; [constructor; [by apply unescape_range|done]|]. rewrite !zlen_cons. lia.
  - intros c r _ _ IH bs q Hp E. apply scan_map_parsed in E as (bs' & E & ->).
    apply is_cstr_cons in Hp as [Hc Hp]. destruct (IH _ _ Hp E) as (Hq & Hb & Hl).
    split; [by apply shorter_cons|]. split; [by constructor|]. rewrite !zlen_cons. lia.
Qed.

Lemma string_len_step f p len :
  string_len (S f) p len =
  if nonzero (peek p) && negb (peek p =? QUOTE) then
    if peek p =? BACKSLASH then
      p ← adv p 1;
      if peek p =? LC_U then p ← adv p 4; string_len f p (len + 1) else p ← adv p 1; string_len f p (len + 1)
    else p ← adv p 1; string_len f p (len + 1)
  else Ret (p, len).
Proof. done. Qed.
Lemma string_copy_step f size p str :
  string_copy (S f) size p str =
  if negb (peek p =? QUOTE) then
    if peek p =? BACKSLASH then
      p ← adv p 1;
      if peek p =? LC_U then str ← put size str 63; p ← adv p 4; string_copy f size p str
      else str ← put size str (unescape (peek p)); p ← adv p 1; string_copy f size p str
    else str ← put size str (peek p); p ← adv p 1; string_copy f size p str
  else Ret (p, str).
Proof. done. Qed.
Lemma adv_cons c r n : adv (c :: r) (S n) = adv r n.
Proof. unfold adv. cbn [length drop]. by destruct (decide (n ≤ length r)%nat), (decide (S n ≤ S (length r))%nat); try lia. Qed.
Lemma adv_0 r : adv r 0 = Ret r.
Proof. unfold adv. by rewrite decide_True by lia. Qed.
Lemma put_ok {A} size (l : list A) x : zlen l < size → put size l x = Ret (l ++ [x]).
Proof. intros. unfold put. by rewrite (proj2 (Z.ltb_lt _ _)). Qed.

(** Both passes go through the string as the scanner does. *)
Lemma string_len_scan p f len :
  is_cstr p → (length p ≤ f)%nat →
  match scan_chars p with
  | Parsed bs q => string_len f p len = Ret (QUOTE :: q, len + zlen bs)
  | Rejected => ∃ n, string_len f p len = Ret ([], n)
  | _ => True
  end.
Proof.
  revert f len. pattern p, (scan_chars p). apply scan_chars_ind; clear p.
  - intros [|f] len _ _; by eexists.
  - intros r [|f] len _ Hf; [cbn in Hf; lia|]. rewrite string_len_step. cbn. by rewrite Z.add_0_r.
  - done.
  - intros a b c r IH [|f] len Hp Hf; [cbn in Hf; lia|].
    do 5 apply is_cstr_cons in Hp as [_ Hp]. specialize (IH f (len + 1) Hp ltac:(cbn in Hf; lia)).
    rewrite string_len_step. cbn [peek hd]. change (_ && _) with true. change (BACKSLASH =? BACKSLASH) with true. cbn iota.
    rewrite adv_cons, adv_0. cbn [mbind outcome_bind peek hd]. change (LC_U =? LC_U) with true. cbn iota. rewrite !adv_cons, adv_0. cbn.
    destruct (scan_chars r); cbn; [|done..]. rewrite IH, zlen_cons. do 2 f_equal. lia.
  - intros e r Hne IH [|f] len Hp Hf; [cbn in Hf; lia|].
    do 2 apply is_cstr_cons in Hp as [_ Hp]. specialize (IH f (len + 1) Hp ltac:(cbn in Hf; lia)).
    rewrite string_len_step. cbn [peek hd]. change (_ && _) with true. change (BACKSLASH =? BACKSLASH) with true. cbn iota.
    rewrite adv_cons, adv_0. cbn [mbind outcome_bind peek hd]. rewrite (proj2 (Z.eqb_neq e LC_U)) by done. rewrite adv_cons, adv_0. cbn.
    destruct (scan_chars r); cbn; [|done..]. rewrite IH, zlen_cons. do 2 f_equal. lia.
  - intros c r Hq Hb IH [|f] len Hp Hf; [cbn in Hf; lia|].
    apply is_cstr_cons in Hp as [Hc Hp]. specialize (IH f (len + 1) Hp ltac:(cbn in Hf; lia)).
    rewrite string_len_step. cbn [peek hd]. rewrite (proj2 (Z.eqb_neq c QUOTE)), (proj2 (Z.eqb_neq c BACKSLASH)) by done.
    replace (nonzero c) with true by (unfold nonzero; lia). cbn [negb andb]. rewrite adv_cons, adv_0. cbn.
    destruct (scan_chars r); cbn; [|done..]. rewrite IH, zlen_cons. do 2 f_equal. lia.
Qed.
Lemma string_copy_scan p f size str bs q :
  is_cstr p → (length p ≤ f)%nat → scan_chars p = Parsed bs q → zlen str + zlen bs ≤ size →
  string_copy f size p str = Ret (QUOTE :: q, str ++ bs).
Proof.
  revert f str bs q. pattern p, (scan_chars p). apply scan_chars_ind; clear p; try done.
  - intros r [|f] str bs q _ Hf [= <- <-] _; [cbn in Hf; lia|]. rewrite string_copy_step. cbn. by rewrite app_nil_r.
  - intros a b c r IH [|f] str bs q Hp Hf E Hs; [cbn in Hf; lia|]. apply scan_map_parsed in E as (bs' & E & ->). rewrite zlen_cons in Hs.
    do 5 apply is_cstr_cons in Hp as [_ Hp]. rewrite string_copy_step. cbn [peek hd].
    change (negb _) with true. change (BACKSLASH =? BACKSLASH) with true. cbn iota. rewrite adv_cons, adv_0. cbn [mbind outcome_bind peek hd].
    change (LC_U =? LC_U) with true. cbn iota. pose proof (zlen_nonneg bs'). rewrite put_ok by lia. cbn [mbind outcome_bind]. rewrite !adv_cons, adv_0. cbn.
    erewrite IH; [by rewrite <- app_assoc|done|cbn in Hf; lia|done|rewrite zlen_app; unfold zlen in *; cbn; lia].
  - intros e r Hne IH [|f] str bs q Hp Hf E Hs; [cbn in Hf; lia|]. apply scan_map_parsed in E as (bs' & E & ->). rewrite zlen_cons in Hs.
    do 2 apply is_cstr_cons in Hp as [_ Hp]. rewrite string_copy_step. cbn [peek hd].
    change (negb _) with true. change (BACKSLASH =? BACKSLASH) with true. cbn iota. rewrite adv_cons, adv_0. cbn [mbind outcome_bind peek hd].
    rewrite (proj2 (Z.eqb_neq e LC_U)) by done. pose proof (zlen_nonneg bs'). rewrite put_ok by lia. cbn [mbind outcome_bind]. rewrite adv_cons, adv_0. cbn.
    erewrite IH; [by rewrite <- app_assoc|done|cbn in Hf; lia|done|rewrite zlen_app; unfold zlen in *; cbn; lia].
  - intros c r Hq Hb IH [|f] str bs q Hp Hf E Hs; [cbn in Hf; lia|]. apply scan_map_parsed in E as (bs' & E & ->). rewrite zlen_cons in Hs.
    apply is_cstr_cons in Hp as [_ Hp]. rewrite string_copy_step. cbn [peek hd].
    rewrite (proj2 (Z.eqb_neq c QUOTE)), (proj2 (Z.eqb_neq c BACKSLASH)) by done. cbn [negb].
    pose proof (zlen_nonneg bs'). rewrite put_ok by lia. cbn [mbind outcome_bind]. rewrite adv_cons, adv_0. cbn.
    erewrite IH; [by rewrite <- app_assoc|done|cbn in Hf; lia|done|rewrite zlen_app; unfold zlen in *; cbn; lia].
Qed.

(** *** Numbers and values *)

Definition no_longer (q p : list Z) : Prop := is_cstr q ∧ zlen q ≤ zlen p.
Lemma shorter_trans q r p : shorter q r → no_longer r p → shorter q p.
Proof. intros [? ?] [? ?]. split; [done|lia]. Qed.
Lemma no_longer_trans q r p : no_longer q r → no_longer r p → no_longer q p.
Proof. intros [? ?] [? ?]. split; [done|lia]. Qed.
Lemma no_longer_refl p : is_cstr p → no_longer p p.
Proof. intros. split; [done|lia]. Qed.
#[local] Hint Resolve no_longer_refl : core.
Lemma no_longer_tail p : is_cstr p → no_longer (tail p) p.
Proof. intros. split; [by apply is_cstr_tail|apply zlen_tail_le]. Qed.
Lemma no_longer_shorter q p : shorter q p → no_longer q p.
Proof. intros [? ?]. split; [done|lia]. Qed.
Lemma tail_shorter_peek p c : is_cstr p → (peek p =? c) = true → 0 < c → shorter (tail p) p.
Proof. intros Hp Hc ?. apply Z.eqb_eq in Hc. split; [by apply is_cstr_tail|apply tail_shorter; lia]. Qed.
Lemma skip_no_longer p : is_cstr p → no_longer (skip_whitespace p) p.
Proof. apply skip_whitespace_rest. Qed.

Lemma integer_from_rest p acc : is_cstr p → no_longer (integer_from p acc).2 p.
Proof.
  revert acc. induction p as [|c r IH]; intros acc Hp; cbn; [auto|]. destruct (is_digit c); [|auto].
  eapply no_longer_trans; [apply IH, (is_cstr_tail (c :: r)), Hp|by apply (no_longer_tail (c :: r))].
Qed.
Lemma integer_from_shorter p acc : is_cstr p → is_digit (peek p) = true → shorter (integer_from p acc).2 p.
Proof.
  destruct p as [|c r]; [done|]. cbn [peek hd integer_from]. intros Hp ->.
  destruct (integer_from_rest r (d_add (d_mul acc (d_of 10)) (d_of (c - 48))) (is_cstr_tail _ Hp)).
  split; [done|rewrite zlen_cons; lia].
Qed.
Lemma fraction_from_rest p x y : is_cstr p → no_longer (fraction_from p x y).2 p.
Proof.
  revert x y. induction p as [|c r IH]; intros x y Hp; cbn; [auto|]. destruct (is_digit c); [|auto].
  eapply no_longer_trans; [apply IH, (is_cstr_tail (c :: r)), Hp|by apply (no_longer_tail (c :: r))].
Qed.
Lemma read_number_shorter p x q :
  is_cstr p → (peek p =? 45) || is_digit (peek p) = true → read_number p = Ret (x, q) → shorter q p.
Proof.
  intros Hp Hd E. unfold read_number in E.
  assert (∃ sign p1, (if peek p =? 45 then (d_of (-1), tail p) else (d_of 1, p)) = (sign, p1) ∧ no_longer p1 p ∧
    shorter (integer_from p1 (d_of 0)).2 p) as (sign & p1 & E1 & H1 & H2).
  { destruct (peek p =? 45) eqn:Em.
    - assert (shorter (tail p) p) by (by eapply tail_shorter_peek). eexists _, _. split; [done|].
      split; [by apply no_longer_tail|]. destruct (integer_from_rest (tail p) (d_of 0) (is_cstr_tail _ Hp)), H. split; [done|lia].
    - eexists _, _. split; [done|]. split; [auto|]. by apply integer_from_shorter. }
  rewrite E1 in E. destruct (integer_from p1 _) as [i p2]. cbn in H2.
  assert (∃ frac p3, (if peek p2 =? 46 then fraction_from (tail p2) (d_of 0) d_tenth else (d_of 0, p2)) = (frac, p3) ∧ no_longer p3 p2) as (frac & p3 & E3 & H3).
  { destruct H2 as [H2 _]. destruct (peek p2 =? 46); [|eexists _, _; split; [done|auto]].
    destruct (fraction_from _ _ _) as [y p3] eqn:Ef. eexists _, _. split; [done|].
    pose proof (fraction_from_rest (tail p2) (d_of 0) d_tenth (is_cstr_tail _ H2)) as Hr. rewrite Ef in Hr.
    eapply no_longer_trans; [exact Hr|by apply no_longer_tail]. }
  rewrite E3 in E. assert (shorter p3 p) as H4 by (destruct H3, H2; split; [done|lia]).
  destruct ((peek p3 =? 101) || (peek p3 =? 69)); [|by simplify_eq].
  assert (∃ minus p5, (if peek (tail p3) =? 43 then (false, tail (tail p3)) else if peek (tail p3) =? 45 then (true, tail (tail p3)) else (false, tail p3)) = (minus, p5) ∧ no_longer p5 p3) as (minus & p5 & E5 & H5).
  { destruct H4 as [H4 _]. pose proof (no_longer_tail p3 H4) as Ht.
    pose proof (no_longer_trans _ _ _ (no_longer_tail _ (proj1 Ht)) Ht). repeat case_match; eexists _, _; by split. }
  rewrite E5 in E. pose proof (integer_from_rest p5 (d_of 0) (proj1 H5)) as H6. destruct (integer_from p5 _) as [ex p6]. cbn in H6.
  destruct (int_of ex); [|done..]. cbn in E. simplify_eq. destruct H4, H5, H6. split; [done|lia].
Qed.

Lemma starts_drop p l : starts p l = true → (length l ≤ length p)%nat.
Proof. unfold starts. intros E%bool_decide_eq_true. rewrite <- E, length_take. lia. Qed.
Lemma literal_shorter p l : is_cstr p → starts p l = true → (0 < length l)%nat → shorter (drop (length l) p) p.
Proof.
  intros Hp Hs%starts_drop Hl. split; [by apply is_cstr_drop|]. unfold zlen. rewrite length_drop. lia.
Qed.

Lemma scan_string_shorter p bs q : is_cstr p → scan_string p = Parsed bs q → shorter q p ∧ is_cstr bs ∧ zlen bs < zlen p.
Proof.
  unfold scan_string. intros Hp E. destruct (peek p =? QUOTE) eqn:Eq; [|done].
  destruct (tail_shorter_peek p QUOTE Hp Eq ltac:(done)).
  apply scan_chars_shorter in E as (Hq & Hb & Hl); [|by apply is_cstr_tail]. split; [eapply shorter_trans; [exact Hq|by apply no_longer_tail]|].
  split; [done|lia].
Qed.

(** What follows a value is shorter than the text. *)
Lemma scan_shorter f :
  (∀ p j q, is_cstr p → scan_value f p = Parsed j q → shorter q p) ∧
  (∀ p js q, is_cstr p → scan_items f p = Parsed js q → shorter q p) ∧
  (∀ room p ms q, is_cstr p → scan_members f room p = Parsed ms q → shorter q p).
Proof.
  induction f as [|f (IHv & IHi & IHm)]; [done|]. split_and!.
  - intros p j q Hp. cbn [scan_value]. pose proof (skip_no_longer p Hp) as Hk. destruct Hk as [Hs Hl].
    generalize dependent (skip_whitespace p). intros p' Hs Hl E. enough (shorter q p') by (by eapply shorter_trans).
    destruct (peek p' =? QUOTE) eqn:?. { apply scan_map_parsed in E as (? & E & _). by apply scan_string_shorter in E as [? _]. }
    destruct (peek p' =? 123) eqn:Eo; [|destruct (peek p' =? 91) eqn:Ea].
    + assert (shorter (skip_whitespace (tail p')) p') as [Ht Hn].
      { destruct (tail_shorter_peek _ _ Hs Eo ltac:(done)) as [Ht ?], (skip_no_longer _ Ht). split; [done|lia]. }
      destruct (peek _ =? 125); [simplify_eq|].
      * destruct (no_longer_tail _ Ht). split; [done|lia].
      * apply scan_map_parsed in E as (ms & E & _). destruct (IHm _ _ _ _ Ht E). split; [done|lia].
    + assert (shorter (skip_whitespace (tail p')) p') as [Ht Hn].
      { destruct (tail_shorter_peek _ _ Hs Ea ltac:(done)) as [Ht ?], (skip_no_longer _ Ht). split; [done|lia]. }
      destruct (peek _ =? 93); [simplify_eq|].
      * destruct (no_longer_tail _ Ht). split; [done|lia].
      * apply scan_map_parsed in E as (ms & E & _). destruct (IHi _ _ _ Ht E). split; [done|lia].
    + destruct (starts p' (bytes "true")) eqn:?; [simplify_eq; by apply (literal_shorter p' (bytes "true")); [..|cbn; lia]|].
      destruct (starts p' (bytes "false")) eqn:?; [simplify_eq; by apply (literal_shorter p' (bytes "false")); [..|cbn; lia]|].
      destruct (starts p' (bytes "null")) eqn:?; [simplify_eq; by apply (literal_shorter p' (bytes "null")); [..|cbn; lia]|].
      destruct (_ || _) eqn:En; [|done]. unfold scan_number in E. destruct (read_number p') as [[x r]| |] eqn:Er; simplify_eq.
      by eapply read_number_shorter.
  - intros p js q Hp. cbn [scan_items]. destruct (skip_no_longer p Hp) as [Hs Hl].
    destruct (scan_value f _) as [j r| | |] eqn:Ev; [|done..]. apply IHv in Ev as [Hr Hrl]; [|done].
    destruct (skip_no_longer r Hr) as [Hs' Hl'], (no_longer_tail _ Hs') as [Ht Htl]. intros E.
    destruct (_ =? 44). { apply scan_map_parsed in E as (? & E & _). destruct (IHi _ _ _ Ht E). split; [done|lia]. }
    destruct (_ =? 93); simplify_eq. split; [done|lia].
  - intros room p ms q Hp. cbn [scan_members]. destruct (skip_no_longer p Hp) as [Hs Hl].
    destruct (scan_string _) as [k r| | |] eqn:Ek; [|done..]. apply scan_string_shorter in Ek as [[Hr Hrl] _]; [|done].
    destruct (skip_no_longer r Hr) as [Hs' Hl'], (no_longer_tail _ Hs') as [Ht Htl]. destruct (_ =? 58); [|done].
    destruct (skip_no_longer _ Ht) as [Hs2 Hl2]. destruct (scan_value f _) as [j r2| | |] eqn:Ev; [|done..]. apply IHv in Ev as [Hr2 Hrl2]; [|done].
    destruct (skip_no_longer _ Hr2) as [Hs3 Hl3], (no_longer_tail _ Hs3) as [Ht3 Htl3]. intros E.
    destruct room as [|room]; [done|].
    destruct (_ =? 44). { apply scan_map_parsed in E as (? & E & _). destruct (IHm _ _ _ _ Ht3 E). split; [done|lia]. }
    destruct (_ =? 125); simplify_eq. split; [done|lia].
Qed.
Lemma scan_map_spent {A B} (f : A → B) x : scan_map f x = Spent → x = Spent.
Proof. by destruct x. Qed.
Lemma scan_string_ends p : scan_string p ≠ Spent.
Proof.
  unfold scan_string. destruct (_ =? _); [|done]. generalize (tail p). clear p. intros p. pattern p, (scan_chars p).
  apply scan_chars_ind; try done; intros; intros E%scan_map_spent; auto.
Qed.

(** Every item takes a character and its separator another: the fuel of [scan] suffices. *)
Lemma scan_ends f :
  (∀ p, is_cstr p → 2 * zlen p + 1 ≤ Z.of_nat f → scan_value f p ≠ Spent) ∧
  (∀ p, is_cstr p → 2 * zlen p + 2 ≤ Z.of_nat f → scan_items f p ≠ Spent) ∧
  (∀ room p, is_cstr p → 2 * zlen p + 2 ≤ Z.of_nat f → scan_members f room p ≠ Spent).
Proof.
  induction f as [|f (IHv & IHi & IHm)].
  { split_and!; intros; pose proof (zlen_nonneg p); lia. }
  split_and!.
  - intros p Hp Hf. cbn [scan_value]. destruct (skip_no_longer p Hp) as [Hs Hl]. intros E.
    generalize dependent (skip_whitespace p). intros p' Hs Hl E.
    destruct (peek p' =? QUOTE) eqn:?. { by apply scan_map_spent, scan_string_ends in E. }
    destruct (peek p' =? 123) eqn:Eo; [|destruct (peek p' =? 91) eqn:Ea].
    + destruct (tail_shorter_peek _ _ Hs Eo ltac:(done)) as [Ht ?], (skip_no_longer _ Ht).
      destruct (_ =? 125); [done|]. apply scan_map_spent, IHm in E; [done|done|lia].
    + destruct (tail_shorter_peek _ _ Hs Ea ltac:(done)) as [Ht ?], (skip_no_longer _ Ht).
      destruct (_ =? 93); [done|]. apply scan_map_spent, IHi in E; [done|done|lia].
    + repeat (case_match; try done). unfold scan_number in E. by case_match; try case_match.
  - intros p Hp Hf. cbn [scan_items]. destruct (skip_no_longer p Hp) as [Hs Hl].
    destruct (scan_value f _) as [j r| | |] eqn:Ev; [|done..|apply IHv in Ev; [done|done|lia]].
    apply scan_shorter in Ev as [Hr Hrl]; [|done]. destruct (skip_no_longer r Hr) as [Hs' Hl'].
    destruct (_ =? 44) eqn:Ec; [|by destruct (_ =? 93)]. destruct (tail_shorter_peek _ _ Hs' Ec ltac:(done)).
    intros E%scan_map_spent. apply IHi in E; [done|done|lia].
  - intros room p Hp Hf. cbn [scan_members]. destruct (skip_no_longer p Hp) as [Hs Hl].
    destruct (scan_string _) as [k r| | |] eqn:Ek; [|done..|by apply scan_string_ends in Ek].
    apply scan_string_shorter in Ek as [[Hr Hrl] _]; [|done]. destruct (skip_no_longer r Hr) as [Hs' Hl'].
    destruct (_ =? 58) eqn:E58; [|done]. destruct (tail_shorter_peek _ _ Hs' E58 ltac:(done)) as [Ht ?], (skip_no_longer _ Ht) as [Hs2 ?].
    destruct (scan_value f _) as [j r2| | |] eqn:Ev; [|done..|apply IHv in Ev; [done|done|lia]].
    apply scan_shorter in Ev as [Hr2 Hrl2]; [|done]. destruct (skip_no_longer r2 Hr2) as [Hs3 Hl3].
    destruct room; [done|]. destruct (_ =? 44) eqn:Ec; [|by destruct (_ =? 125)].
    destruct (tail_shorter_peek _ _ Hs3 Ec ltac:(done)).
    intros E%scan_map_spent. apply IHm in E; [done|done|lia].
Qed.
Lemma scan_total t : is_cstr t → scan t ≠ Spent.
Proof. intros. apply scan_ends; [done|]. unfold zlen. lia. Qed.

(** *** Printing *)

(** A document as it is printed: a number is a sign, the digits before the point, and the
    digits after it, if there is a point. *)
Inductive doc :=
| D_null | D_bool (b : bool) | D_number (minus : bool) (whole : list Z) (frac : option (list Z)) | D_string (bs : list Z)
| D_array (ds : list doc) | D_object (ms : list (list Z * doc)).

Definition escape (c : Z) : list Z :=
  if (c =? QUOTE) || (c =? BACKSLASH) then [BACKSLASH; c] else
  if c =? 8 then BACKSLASH :: bytes "b" else if c =? 12 then BACKSLASH :: bytes "f" else if c =? 10 then BACKSLASH :: bytes "n" else
  if c =? 13 then BACKSLASH :: bytes "r" else if c =? 9 then BACKSLASH :: bytes "t" else [c].
Definition show_string (bs : list Z) : list Z := QUOTE :: flat_map escape bs ++ [QUOTE].
Definition show_digits (ds : list Z) : list Z := map (λ d, d + 48) ds.
Fixpoint commas (ts : list (list Z)) : list Z := match ts with [] => [] | [t] => t | t :: ts => t ++ 44 :: commas ts end.
Fixpoint show (d : doc) : list Z :=
  match d with
  | D_null => bytes "null"
  | D_bool b => if b then bytes "true" else bytes "false"
  | D_number minus whole frac =>
      (if minus then [45] else []) ++ show_digits whole ++ (match frac with Some ds => 46 :: show_digits ds | None => [] end)
  | D_string bs => show_string bs
  | D_array ds => 91 :: commas (map show ds) ++ [93]
  | D_object ms => 123 :: commas (map (λ m, show_string m.1 ++ 58 :: show m.2) ms) ++ [125]
  end.
(** Its value. *)
Definition whole_value (ds : list Z) : double := fold_left (λ acc d, d_add (d_mul acc (d_of 10)) (d_of d)) ds (d_of 0).
Definition frac_value (ds : list Z) : double :=
  (fold_left (λ '(acc, place) d, (d_add acc (d_mul (d_of d) place), d_mul place d_tenth)) ds (d_of 0, d_tenth)).1.
Fixpoint value_of (d : doc) : json :=
  match d with
  | D_null => J_null
  | D_bool b => J_bool b
  | D_number minus whole frac =>
      J_number (d_mul (d_of (if minus then -1 else 1)) (d_add (whole_value whole) (match frac with Some ds => frac_value ds | None => d_of 0 end)))
  | D_string bs => J_string bs
  | D_array ds => J_array (map value_of ds)
  | D_object ms => J_object (map (λ m, (m.1, value_of m.2)) ms)
  end.
Definition digits_ok (ds : list Z) : bool := forallb (λ d, (0 <=? d) && (d <=? 9)) ds.
Definition chars_ok (bs : list Z) : bool := forallb (λ c, (0 <? c) && (c <? 256)) bs.
Fixpoint doc_ok (d : doc) : bool :=
  match d with
  | D_null | D_bool _ => true
  | D_number _ whole frac => negb (bool_decide (whole = [])) && digits_ok whole && (match frac with Some ds => digits_ok ds | None => true end)
  | D_string bs => chars_ok bs
  | D_array ds => forallb doc_ok ds
  | D_object ms => (zlen ms <=? 8) && forallb (λ m, chars_ok m.1 && doc_ok m.2) ms
  end.

Lemma digits_ok_cons d ds : digits_ok (d :: ds) = true → 0 ≤ d ≤ 9 ∧ digits_ok ds = true.
Proof. cbn. intros [[? ?]%andb_true_iff ?]%andb_true_iff. split; [lia|done]. Qed.
Lemma integer_from_show ds rest acc :
  digits_ok ds = true → is_digit (peek rest) = false →
  integer_from (show_digits ds ++ rest) acc = (fold_left (λ acc d, d_add (d_mul acc (d_of 10)) (d_of d)) ds acc, rest).
Proof.
  revert acc. induction ds as [|d ds IH]; intros acc Hd Hr; cbn [show_digits map app fold_left].
  - destruct rest as [|c r]; [done|]. cbn in *. by rewrite Hr.
  - apply digits_ok_cons in Hd as [Hd Hds]. cbn [integer_from]. replace (is_digit (d + 48)) with true by (unfold is_digit; lia).
    replace (d + 48 - 48) with d by lia. by apply IH.
Qed.
Lemma fraction_from_show ds rest acc place :
  digits_ok ds = true → is_digit (peek rest) = false →
  fraction_from (show_digits ds ++ rest) acc place =
  ((fold_left (λ '(acc, place) d, (d_add acc (d_mul (d_of d) place), d_mul place d_tenth)) ds (acc, place)).1, rest).
Proof.
  revert acc place. induction ds as [|d ds IH]; intros acc place Hd Hr; cbn [show_digits map app fold_left].
  - destruct rest as [|c r]; [done|]. cbn in *. by rewrite Hr.
  - apply digits_ok_cons in Hd as [Hd Hds]. cbn [fraction_from]. replace (is_digit (d + 48)) with true by (unfold is_digit; lia).
    replace (d + 48 - 48) with d by lia. by apply IH.
Qed.

(** What may follow a number. *)
Definition stops (rest : list Z) : Prop := is_digit (peek rest) = false ∧ peek rest ≠ 46 ∧ peek rest ≠ 101 ∧ peek rest ≠ 69.
Lemma stops_at c rest : c = 44 ∨ c = 93 ∨ c = 125 → stops (c :: rest).
Proof. intros [->|[->| ->]]; by split_and!. Qed.
Lemma read_number_show minus whole frac rest :
  whole ≠ [] → digits_ok whole = true → match frac with Some ds => digits_ok ds = true | None => True end → stops rest →
  read_number (show (D_number minus whole frac) ++ rest) =
    Ret (d_mul (d_of (if minus then -1 else 1)) (d_add (whole_value whole) (match frac with Some ds => frac_value ds | None => d_of 0 end)), rest).
Proof.
  intros Hne Hw Hf (Hr & H46 & H101 & H69). unfold read_number. cbn [show].
  assert (∀ tl, (if peek (((if minus then [45] else []) ++ show_digits whole ++ tl) ++ rest) =? 45
     then (d_of (-1), tail (((if minus then [45] else []) ++ show_digits whole ++ tl) ++ rest))
     else (d_of 1, ((if minus then [45] else []) ++ show_digits whole ++ tl) ++ rest)) =
     (d_of (if minus then -1 else 1), show_digits whole ++ tl ++ rest)) as ->.
  { intros tl. destruct minus; cbn; [by rewrite app_assoc|]. destruct whole as [|d w]; [done|]. apply digits_ok_cons in Hw as [Hd _].
    cbn. rewrite (proj2 (Z.eqb_neq (d + 48) 45)) by lia. by rewrite app_assoc. }
  assert (is_digit (peek ((match frac with Some ds => 46 :: show_digits ds | None => [] end) ++ rest)) = false) as Hp by by destruct frac.
  rewrite integer_from_show by done. fold (whole_value whole).
  assert ((if peek ((match frac with Some ds => 46 :: show_digits ds | None => [] end) ++ rest) =? 46
    then fraction_from (tail ((match frac with Some ds => 46 :: show_digits ds | None => [] end) ++ rest)) (d_of 0) d_tenth
    else (d_of 0, (match frac with Some ds => 46 :: show_digits ds | None => [] end) ++ rest)) =
    (match frac with Some ds => frac_value ds | None => d_of 0 end, rest)) as ->.
  { destruct frac as [ds|]; cbn [app peek hd tail]; [by apply fraction_from_show|]. by rewrite (proj2 (Z.eqb_neq _ 46)). }
  by rewrite (proj2 (Z.eqb_neq _ 101)), (proj2 (Z.eqb_neq _ 69)).
Qed.

Lemma scan_escape c p : scan_chars (escape c ++ p) = scan_map (cons c) (scan_chars p).
Proof.
  unfold escape. destruct (Z.eqb_spec c QUOTE) as [->|Hq]; [done|]. destruct (Z.eqb_spec c BACKSLASH) as [->|Hb]; [done|].
  cbn [orb]. repeat (match goal with |- context [if ?x =? ?n then _ else _] => destruct (Z.eqb_spec x n) as [->|]; [done|] end).
  cbn [app scan_chars]. by rewrite (proj2 (Z.eqb_neq c QUOTE)), (proj2 (Z.eqb_neq c BACKSLASH)) by done.
Qed.
Lemma scan_chars_show bs rest : scan_chars (flat_map escape bs ++ QUOTE :: rest) = Parsed bs rest.
Proof. induction bs as [|c bs IH]; [done|]. cbn [flat_map]. by rewrite <- app_assoc, scan_escape, IH. Qed.
Lemma scan_string_show bs rest : scan_string (show_string bs ++ rest) = Parsed bs rest.
Proof. unfold scan_string, show_string. cbn. rewrite <- app_assoc. apply scan_chars_show. Qed.

(** A printed document starts with a character that is no white space. *)
Lemma show_head d : doc_ok d = true → ∃ c r, show d = c :: r ∧ is_ws c = false ∧ c ≠ 93.
Proof.
  destruct d as [|[]|minus whole frac| | |]; cbn [show doc_ok]; try (intros _; by eexists _, _).
  intros [[Hne Hw]%andb_true_iff _]%andb_true_iff. apply negb_true_iff, bool_decide_eq_false in Hne.
  destruct minus; [by eexists _, _|]. destruct whole as [|d w]; [done|]. apply digits_ok_cons in Hw as [Hd _].
  eexists _, _. split; [done|]. unfold is_ws. split; lia.
Qed.
Lemma skip_show d rest : doc_ok d = true → skip_whitespace (show d ++ rest) = show d ++ rest.
Proof. intros (c & r & -> & Hc & _)%show_head. cbn. by rewrite Hc. Qed.
Lemma skip_char c r : is_ws c = false → skip_whitespace (c :: r) = c :: r.
Proof. intros Hc. cbn. by rewrite Hc. Qed.

Lemma commas_cons t ts : ∃ tl, commas (t :: ts) = t ++ tl.
Proof. destruct ts; [exists []; by rewrite app_nil_r|by eexists]. Qed.

(** Induction over documents. *)
Lemma doc_rect' (P : doc → Prop) :
  P D_null → (∀ b, P (D_bool b)) → (∀ m w f, P (D_number m w f)) → (∀ bs, P (D_string bs)) →
  (∀ ds, Forall P ds → P (D_array ds)) → (∀ ms, Forall (λ m, P m.2) ms → P (D_object ms)) → ∀ d, P d.
Proof.
  intros Hn Hb Hm Hs Ha Ho. fix IH 1. intros [|b|m w f|bs|ds|ms]; [done|apply Hb|apply Hm|apply Hs|apply Ha|apply Ho].
  - induction ds; constructor; [apply IH|done].
  - induction ms as [|[k d] ms]; constructor; [apply IH|done].
Qed.

Definition shows (d : doc) : Prop := doc_ok d = true → ∀ f rest,
  stops rest → 2 * zlen (show d ++ rest) + 1 ≤ Z.of_nat f → scan_value f (show d ++ rest) = Parsed (value_of d) rest.
Lemma shows_items ds f rest :
  Forall shows ds → ds ≠ [] → forallb doc_ok ds = true → 2 * zlen (commas (map show ds) ++ 93 :: rest) + 2 ≤ Z.of_nat f →
  scan_items f (commas (map show ds) ++ 93 :: rest) = Parsed (map value_of ds) rest.
Proof.
  intros Hs. revert f. induction Hs as [|d ds Hd Hs IH]; intros f Hne Hok Hf; [done|].
  cbn [forallb] in Hok. apply andb_true_iff in Hok as [Hok Hoks]. destruct f as [|f]; [pose proof (zlen_nonneg (commas (map show (d :: ds)) ++ 93 :: rest)); lia|].
  cbn [scan_items]. destruct ds as [|d' ds].
  - cbn [map commas] in *. rewrite skip_show by done. rewrite Hd; [|done|apply stops_at; tauto|lia]. by rewrite skip_char.
  - change (commas (map show (d :: d' :: ds))) with (show d ++ 44 :: commas (map show (d' :: ds))) in *.
    rewrite <- app_assoc in *. cbn [app] in *. rewrite skip_show by done.
    rewrite Hd; [|done|apply stops_at; tauto|lia]. rewrite skip_char by done. cbn [peek hd tail]. change (44 =? 44) with true. cbn iota.
    rewrite IH; [done..|]. rewrite zlen_app, zlen_cons in Hf. pose proof (zlen_nonneg (show d)). lia.
Qed.
Lemma shows_members ms f room rest :
  Forall (λ m, shows m.2) ms → ms ≠ [] → forallb (λ m, chars_ok m.1 && doc_ok m.2) ms = true → (length ms ≤ room)%nat →
  2 * zlen (commas (map (λ m, show_string m.1 ++ 58 :: show m.2) ms) ++ 125 :: rest) + 2 ≤ Z.of_nat f →
  scan_members f room (commas (map (λ m, show_string m.1 ++ 58 :: show m.2) ms) ++ 125 :: rest) = Parsed (map (λ m, (m.1, value_of m.2)) ms) rest.
Proof.
  intros Hs. revert f room. induction Hs as [|[k d] ms Hd Hs IH]; intros f room Hne Hok Hl Hf; [done|].
  cbn [forallb fst snd] in *. apply andb_true_iff in Hok as [[_ Hok]%andb_true_iff Hoks].
  set (sh := λ m : list Z * doc, show_string m.1 ++ 58 :: show m.2) in *.
  destruct f as [|f]; [pose proof (zlen_nonneg (commas (map sh ((k, d) :: ms)) ++ 125 :: rest)); lia|].
  assert (∀ tl, 2 * zlen (sh (k, d) ++ tl) + 2 ≤ Z.of_nat (S f) → stops tl →
    scan_members (S f) room (sh (k, d) ++ tl) =
      match room with
      | O => Unsafe
      | S room =>
          let p := skip_whitespace tl in
          if peek p =? 44 then scan_map (cons (k, value_of d)) (scan_members f room (tail p)) else
          if peek p =? 125 then Parsed [(k, value_of d)] (tail p) else Rejected
      end) as Hstep.
  { intros tl Htl Hst. unfold sh in *. cbn [fst snd] in *. rewrite <- app_assoc in *. cbn [app] in *. cbn [scan_members].
    replace (skip_whitespace (show_string k ++ 58 :: show d ++ tl)) with (show_string k ++ 58 :: show d ++ tl) by done.
    rewrite scan_string_show. rewrite skip_char by done. cbn [peek hd tail]. change (58 =? 58) with true. cbn iota.
    rewrite skip_show by done. rewrite Hd; [done|done|done|]. rewrite zlen_app, zlen_cons in Htl. pose proof (zlen_nonneg (show_string k)). lia. }
  destruct room as [|room]; [cbn in Hl; lia|]. destruct ms as [|m' ms].
  - cbn [map commas] in *. rewrite Hstep by (done || (apply stops_at; tauto)). by rewrite skip_char.
  - change (commas (map sh ((k, d) :: m' :: ms))) with (sh (k, d) ++ 44 :: commas (map sh (m' :: ms))) in *.
    rewrite <- app_assoc in *. cbn [app] in *. rewrite Hstep by (done || (apply stops_at; tauto)).
    rewrite skip_char by done. cbn [peek hd tail]. change (44 =? 44) with true. cbn iota.
    rewrite IH; [done|done|done|cbn in *; lia|]. rewrite zlen_app, zlen_cons in Hf. pose proof (zlen_nonneg (sh (k, d))). lia.
Qed.

Lemma number_head minus whole frac rest :
  whole ≠ [] → digits_ok whole = true →
  (peek (show (D_number minus whole frac) ++ rest) =? 45) || is_digit (peek (show (D_number minus whole frac) ++ rest)) = true.
Proof.
  intros Hne Hw. destruct minus; [done|]. destruct whole as [|d w]; [done|]. apply digits_ok_cons in Hw as [Hd _].
  cbn. apply orb_true_iff. right. unfold is_digit. lia.
Qed.
(** No other kind of value starts like a number. *)
Lemma scan_value_number f p :
  skip_whitespace p = p → (peek p =? 45) || is_digit (peek p) = true → scan_value (S f) p = scan_number p.
Proof.
  intros Hp Hd. cbn [scan_value]. rewrite Hp, Hd. destruct p as [|c r]; [done|]. cbn [peek hd] in *.
  assert (c = 45 ∨ 48 ≤ c ≤ 57) as Hc.
  { apply orb_true_iff in Hd as [?%Z.eqb_eq|Hd]; [by left|right]. unfold is_digit in Hd. lia. }
  unfold QUOTE. rewrite (proj2 (Z.eqb_neq c 34)), (proj2 (Z.eqb_neq c 123)), (proj2 (Z.eqb_neq c 91)) by lia.
  assert (∀ c' l, c' ≠ c → starts (c :: r) (c' :: l) = false) as Hst by (intros; unfold starts; apply bool_decide_eq_false; cbn; congruence).
  change (bytes "true") with (116 :: bytes "rue"). change (bytes "false") with (102 :: bytes "alse"). change (bytes "null") with (110 :: bytes "ull").
  by rewrite !Hst by lia.
Qed.

Lemma scan_show d : shows d.
Proof.
  induction d as [|b|m w fr|bs|ds IH|ms IH] using doc_rect'; intros Hok f rest Hst Hf;
    (destruct f as [|f]; [match type of Hf with 2 * zlen ?l + 1 ≤ _ => pose proof (zlen_nonneg l) end; lia|]).
  - done.
  - by destruct b.
  - cbn [doc_ok] in Hok. apply andb_true_iff in Hok as [[Hne Hw]%andb_true_iff Hfr]. apply negb_true_iff, bool_decide_eq_false in Hne.
    rewrite scan_value_number.
    + unfold scan_number. rewrite read_number_show; [done..|by destruct fr|done].
    + apply skip_show. cbn [doc_ok]. by rewrite bool_decide_false, Hw, Hfr.
    + by apply number_head.
  - cbn [scan_value]. change (show (D_string bs)) with (show_string bs).
    replace (skip_whitespace (show_string bs ++ rest)) with (show_string bs ++ rest) by done. cbn [value_of].
    change (peek (show_string bs ++ rest) =? QUOTE) with true. cbn iota. by rewrite scan_string_show.
  - cbn [doc_ok show value_of] in *. cbn [app] in *. rewrite <- app_assoc in *. cbn [app] in *. cbn [scan_value].
    rewrite skip_char by done. cbn [peek hd tail]. change (91 =? QUOTE) with false. change (91 =? 123) with false. change (91 =? 91) with true. cbn iota.
    destruct ds as [|d ds]; [done|].
    destruct (commas_cons (show d) (map show ds)) as [tl Etl]. cbn [forallb] in Hok. pose proof Hok as [Hd _]%andb_true_iff.
    assert (skip_whitespace (commas (map show (d :: ds)) ++ 93 :: rest) = commas (map show (d :: ds)) ++ 93 :: rest ∧
      (peek (commas (map show (d :: ds)) ++ 93 :: rest) =? 93) = false) as [-> ->].
    { cbn [map]. rewrite Etl, <- app_assoc, skip_show by done. split; [done|].
      destruct (show_head d Hd) as (c & r & -> & _ & Hc). by apply Z.eqb_neq. }
    rewrite shows_items; [done|done|done|done|]. rewrite zlen_cons in Hf. lia.
  - cbn [doc_ok show value_of] in *. cbn [app] in *. rewrite <- app_assoc in *. cbn [app] in *. cbn [scan_value].
    rewrite skip_char by done. cbn [peek hd tail]. change (123 =? QUOTE) with false. change (123 =? 123) with true. cbn iota.
    apply andb_true_iff in Hok as [Hlen%Z.leb_le Hok].
    destruct ms as [|[k d] ms]; [done|]. set (sh := λ m : list Z * doc, show_string m.1 ++ 58 :: show m.2) in *.
    destruct (commas_cons (sh (k, d)) (map sh ms)) as [tl Etl].
    assert (skip_whitespace (commas (map sh ((k, d) :: ms)) ++ 125 :: rest) = commas (map sh ((k, d) :: ms)) ++ 125 :: rest ∧
      (peek (commas (map sh ((k, d) :: ms)) ++ 125 :: rest) =? 125) = false) as [-> ->].
    { cbn [map]. rewrite Etl. by split. }
    unfold sh. rewrite shows_members; [done|done|done|done| |]; [unfold zlen in Hlen; lia|].
    fold sh. rewrite zlen_cons in Hf. lia.
Qed.
Lemma scan_printed d : doc_ok d = true → scan (show d) = Parsed (value_of d) [].
Proof. intros Hd. unfold scan. rewrite <- (app_nil_r (show d)) at 2. apply scan_show; [done|by split_and!|]. rewrite app_nil_r. unfold zlen. lia. Qed.

(** A printed document is a text without a terminator inside. *)
Lemma chars_ok_cstr bs : chars_ok bs = true → is_cstr bs.
Proof. induction bs; cbn; [constructor|]. intros [[? ?]%andb_true_iff ?]%andb_true_iff. constructor; [lia|by apply IHbs]. Qed.
Lemma show_digits_cstr ds : digits_ok ds = true → is_cstr (show_digits ds).
Proof. induction ds; [constructor|]. intros [? ?]%digits_ok_cons. constructor; [lia|by apply IHds]. Qed.
Lemma show_string_cstr bs : chars_ok bs = true → is_cstr (show_string bs).
Proof.
  intros Hb%chars_ok_cstr. constructor; [done|]. apply Forall_app. split; [|by repeat constructor].
  induction Hb as [|c bs Hc Hb IH]; cbn [flat_map]; [constructor|]. apply Forall_app. split; [|done].
  unfold escape. destruct (_ || _); [repeat constructor; (done || lia)|]. repeat case_match; repeat constructor; (done || lia).
Qed.
Lemma commas_cstr ts : Forall is_cstr ts → is_cstr (commas ts).
Proof.
  induction 1 as [|t ts Ht Hts IH]; [constructor|]. destruct ts; [done|].
  change (commas (t :: l :: ts)) with (t ++ 44 :: commas (l :: ts)). apply Forall_app. split; [done|]. constructor; [done|apply IH].
Qed.
Lemma show_cstr d : doc_ok d = true → is_cstr (show d).
Proof.
  induction d as [|b|m w fr|bs|ds IH|ms IH] using doc_rect'; cbn [doc_ok show].
  - intros _. by repeat constructor.
  - intros _. destruct b; by repeat constructor.
  - intros [[_ Hw]%andb_true_iff Hf]%andb_true_iff. apply Forall_app. split; [destruct m; by repeat constructor|].
    apply Forall_app. split; [by apply show_digits_cstr|]. destruct fr; [|constructor]. constructor; [done|by apply show_digits_cstr].
  - apply show_string_cstr.
  - intros Hok. constructor; [done|]. apply Forall_app. split; [|by repeat constructor]. apply commas_cstr.
    induction IH as [|d ds Hd _ IHds]; [constructor|]. cbn in Hok. apply andb_true_iff in Hok as [? ?]. constructor; auto.
  - intros [_ Hok]%andb_true_iff. constructor; [done|]. apply Forall_app. split; [|by repeat constructor]. apply commas_cstr.
    induction IH as [|[k d] ms Hd _ IHms]; [constructor|]. cbn in Hok. apply andb_true_iff in Hok as [[? ?]%andb_true_iff ?].
    constructor; [|auto]. apply (Forall_app _ (show_string k) (58 :: show d)). split; [by apply show_string_cstr|]. constructor; [done|by apply Hd].
Qed.
