(* ===== verification/JsonMem.v ===== *)
(** * The JSON reader in memory

    The trees that [json_parse] makes in the heap, what it leaves when memory runs out,
    and [json_free]; the theorems about the reader of [Json]. *)

From stdpp Require Import base numbers list gmap sets.
From S2P Require Import Pmm Slab SlabHeap KernelHeap.
From S2P Require Import Prelude CMem CArray KHeap Json.
From Stdlib Require Import (notations) String.
Open Scope Z_scope.

(** ** Values in memory *)

Section memory.
Context {H : Type} `{KH : KHeap H}.
Implicit Types (s : jstore H) (B D E X : gset Z).

Definition at_node s (v : Z) (n : node) : Prop := 0 < v ∧ s.(nodes) !! v = Some n ∧ s.(strs) !! v = None.
Definition at_str s (b : Z) (bs : list Z) : Prop :=
  0 < b ∧ s.(strs) !! b = Some (bs ++ [0]) ∧ s.(nodes) !! b = None ∧ is_cstr bs.
Definition at_raw s (a : Z) : Prop := 0 < a ∧ s.(nodes) !! a = None ∧ s.(strs) !! a = None.

(** The value at [v] is [j], and [D] are its blocks. *)
Inductive tree s : Z → json → gset Z → Prop :=
| tree_null v : at_node s v N_NULL → tree s v J_null {[v]}
| tree_bool v b : at_node s v (N_BOOL b) → tree s v (J_bool b) {[v]}
| tree_number v x : at_node s v (N_NUMBER x) → tree s v (J_number x) {[v]}
| tree_string v b bs : at_node s v (N_STRING b) → at_str s b bs → tree s v (J_string bs) ({[v]} ∪ {[b]})
| tree_array v ap vs js D :
    at_node s v (N_ARRAY ap vs) → at_raw s ap → trees s vs js D → v ∉ D → ap ∉ D →
    tree s v (J_array js) ({[v]} ∪ ({[ap]} ∪ D))
| tree_object v kp vp ms js D :
    at_node s v (N_OBJECT kp vp ms) → at_raw s kp → at_raw s vp → kp ≠ vp → members s ms js D →
    v ∉ D → kp ∉ D → vp ∉ D → tree s v (J_object js) ({[v]} ∪ ({[kp]} ∪ ({[vp]} ∪ D)))
with trees s : list Z → list json → gset Z → Prop :=
| trees_nil : trees s [] [] ∅
| trees_cons v vs j js D E : tree s v j D → trees s vs js E → D ## E → trees s (v :: vs) (j :: js) (D ∪ E)
with members s : list (Z * Z) → list (list Z * json) → gset Z → Prop :=
| members_nil : members s [] [] ∅
| members_cons k v ms kb j js D E :
    at_str s k kb → tree s v j D → members s ms js E → k ∉ D → k ∉ E → D ## E →
    members s ((k, v) :: ms) ((kb, j) :: js) ({[k]} ∪ (D ∪ E)).
Scheme tree_mut := Induction for tree Sort Prop
  with trees_mut := Induction for trees Sort Prop
  with members_mut := Induction for members Sort Prop.
Combined Scheme tree_all from tree_mut, trees_mut, members_mut.

(** Outside [X] nothing has changed. *)
Definition keeps X s s' : Prop := ∀ a, a ∉ X → s'.(nodes) !! a = s.(nodes) !! a ∧ s'.(strs) !! a = s.(strs) !! a.
(** [s] is [s0], whose blocks are [B], with the new blocks [D]. *)
Record grows B s0 s D : Prop := {
  g_heap : kh_rep s.(heap) (B ∪ D);
  g_new : D ## B;
  g_old : ∀ a, a ∉ B → s0.(nodes) !! a = None ∧ s0.(strs) !! a = None;
  g_keeps : keeps D s0 s;
}.

Lemma keeps_refl X s : keeps X s s.
Proof. done. Qed.
Lemma keeps_same X s s' : s'.(nodes) = s.(nodes) → s'.(strs) = s.(strs) → keeps X s s'.
Proof. intros En Es a _. by rewrite En, Es. Qed.
Lemma keeps_trans X Y s s1 s2 : keeps X s s1 → keeps Y s1 s2 → keeps (X ∪ Y) s s2.
Proof. intros H1 H2 a Ha. destruct (H1 a), (H2 a); [set_solver..|]. split; congruence. Qed.
Lemma keeps_mono X Y s s' : keeps X s s' → X ⊆ Y → keeps Y s s'.
Proof. intros Hk HXY a Ha. apply Hk. set_solver. Qed.
Lemma keeps_node X s s' v n : keeps X s s' → v ∉ X → at_node s v n → at_node s' v n.
Proof. intros Hk Hv (? & Hn & Hs). destruct (Hk v Hv) as [En Es]. by rewrite <- En in Hn; rewrite <- Es in Hs. Qed.
Lemma keeps_str X s s' b bs : keeps X s s' → b ∉ X → at_str s b bs → at_str s' b bs.
Proof. intros Hk Hb (? & Hs & Hn & ?). destruct (Hk b Hb) as [En Es]. by rewrite <- En in Hn; rewrite <- Es in Hs. Qed.
Lemma keeps_raw X s s' a : keeps X s s' → a ∉ X → at_raw s a → at_raw s' a.
Proof. intros Hk Ha (? & Hn & Hs). destruct (Hk a Ha) as [En Es]. by rewrite <- En in Hn; rewrite <- Es in Hs. Qed.
(** A value lasts as long as its blocks are left alone. *)
Lemma tree_keeps_all s :
  (∀ v j D, tree s v j D → ∀ X s', keeps X s s' → X ## D → tree s' v j D) ∧
  (∀ vs js D, trees s vs js D → ∀ X s', keeps X s s' → X ## D → trees s' vs js D) ∧
  (∀ ms js D, members s ms js D → ∀ X s', keeps X s s' → X ## D → members s' ms js D).
Proof.
  apply tree_all; intros; econstructor; try done;
    (eapply keeps_node || eapply keeps_str || eapply keeps_raw || idtac); try done; try set_solver; eauto; set_solver.
Qed.
End memory.

(** *** The steps on the heap *)

Section steps.
Context {H : Type} `{KH : KHeap H}.
Implicit Types (s : jstore H) (B D E X : gset Z).

Lemma grows_fresh B s0 s D p : grows B s0 s D → p ∉ B → p ∉ D → s.(nodes) !! p = None ∧ s.(strs) !! p = None.
Proof. intros HG HB HD. destruct (g_keeps _ _ _ _ HG p HD) as [-> ->]. by apply HG. Qed.
(** A step that changes the store at the blocks [X] only. *)
Lemma grows_step B s0 s s' D D' X :
  grows B s0 s D → kh_rep s'.(heap) (B ∪ D') → D' ## B → keeps X s s' →
  (∀ a, a ∉ D' → a ∈ X ∪ D → a ∉ B ∧ s'.(nodes) !! a = None ∧ s'.(strs) !! a = None) → grows B s0 s' D'.
Proof.
  intros HG Hh Hnew Hk Hx. split; [done..|apply HG|]. intros a Ha. destruct (decide (a ∈ X ∪ D)) as [Hi|Hi].
  - destruct (Hx a Ha Hi) as (? & -> & ->), (g_old _ _ _ _ HG a); [done|]. by split.
  - destruct (Hk a), (g_keeps _ _ _ _ HG a); [set_solver..|]. split; congruence.
Qed.
Lemma grows_heap_eq B s0 s D h : grows B s0 s D → kh_rep h (B ∪ D) → grows B s0 (with_heap s h) D.
Proof. intros [] Hh. by split. Qed.

Lemma granted_none (h : H) : granted (Ret (h, 0)) = None.
Proof. done. Qed.
Lemma granted_some (h : H) p : 0 < p → granted (Ret (h, p)) = Some (h, p).
Proof. intros. unfold granted. by rewrite (proj2 (Z.eqb_neq p 0)) by lia. Qed.

(** What an allocation does: nothing, or one new block. *)
Definition allocates B s0 D (g : option (H * Z)) s s' p : Prop :=
  s'.(nodes) = s.(nodes) ∧ s'.(strs) = s.(strs) ∧
  (p = 0 ∧ grows B s0 s' D ∧ g = None ∨
   0 < p ∧ p ∉ B ∧ p ∉ D ∧ at_raw s' p ∧ grows B s0 s' ({[p]} ∪ D) ∧ g = Some (s'.(heap), p)).
Lemma allocates_intro B s0 D s (o : outcome (H * Z)) h p :
  grows B s0 s D → o = Ret (h, p) →
  (p = 0 ∧ kh_rep h (B ∪ D) ∨ 0 < p ∧ p ∉ B ∪ D ∧ kh_rep h ({[p]} ∪ (B ∪ D))) →
  allocates B s0 D (granted o) s (with_heap s h) p.
Proof.
  intros HG -> Hp. split_and!; [done..|]. destruct Hp as [[-> Hh]|(Hp & Hn & Hh)].
  - left. split_and!; [done|by apply grows_heap_eq|done].
  - right. assert (p ∉ B ∧ p ∉ D) as [HB HD] by set_solver. destruct (grows_fresh _ _ _ _ _ HG HB HD).
    split_and!; [done..| | |by apply granted_some]; [by split|].
    eapply (grows_step _ _ s _ D _ ∅); [done| | |by apply keeps_same|set_solver].
    + by replace (B ∪ ({[p]} ∪ D)) with ({[p]} ∪ (B ∪ D)) by set_solver.
    + pose proof (g_new _ _ _ _ HG). set_solver.
Qed.
Lemma j_kmalloc_ok B s0 s D n : grows B s0 s D → 0 ≤ n < 2 ^ 64 →
  ∃ s' p, j_kmalloc s n = Ret (s', p) ∧ allocates B s0 D (granted (kmalloc s.(heap) n)) s s' p.
Proof.
  intros HG Hn. destruct (kmalloc_spec _ _ n (g_heap _ _ _ _ HG) Hn) as (h & p & E & Hp).
  exists (with_heap s h), p. unfold j_kmalloc. split; [by rewrite E|]. eapply allocates_intro; [done..|]. tauto.
Qed.
Lemma with_heap_eq s h : (with_heap s h).(heap) = h.
Proof. done. Qed.

Lemma set_node_keeps s v n : keeps {[v]} s (set_node s v n).
Proof. intros a Ha. cbn. split; [|done]. apply lookup_insert_ne. set_solver. Qed.
Lemma set_node_at s v n : 0 < v → s.(strs) !! v = None → at_node (set_node s v n) v n.
Proof. intros. split_and!; [done|apply lookup_insert_eq|done]. Qed.
Lemma grows_set_node B s0 s D v n : grows B s0 s D → v ∈ D → grows B s0 (set_node s v n) D.
Proof.
  intros HG Hv. pose proof (g_new _ _ _ _ HG).
  apply (grows_step _ _ s _ D _ {[v]}); [done|apply HG|done|apply set_node_keeps|set_solver].
Qed.

Lemma alloc_value_ok B s0 s D n : grows B s0 s D →
  ∃ s' v, alloc_value s n = Ret (s', v) ∧
    (v = 0 ∧ grows B s0 s' D ∧ keeps ∅ s s' ∧ ask_value s.(heap) = None ∨
     0 < v ∧ v ∉ B ∧ v ∉ D ∧ at_node s' v n ∧ grows B s0 s' ({[v]} ∪ D) ∧ keeps {[v]} s s' ∧ ask_value s.(heap) = Some s'.(heap)).
Proof.
  intros HG. destruct (kcalloc_spec _ _ 1 SIZEOF_VALUE (g_heap _ _ _ _ HG) ltac:(done) ltac:(done)) as (h & v & E & Hv).
  destruct (allocates_intro B s0 D s _ h v HG E ltac:(tauto)) as (_ & _ & Ha). unfold alloc_value, ask_value. rewrite E in *.
  cbn [mbind outcome_bind]. destruct Ha as [(-> & HG' & _)|(Hv0 & HB & HD & Hraw & HG' & Hg)].
  - eexists _, _. split; [done|]. left. split_and!; [done|done|by apply keeps_same|done].
  - rewrite (proj2 (Z.eqb_neq v 0)) by lia. eexists _, _. split; [done|]. right. split_and!; [done..| | | |by rewrite Hg].
    + apply set_node_at; [done|]. apply Hraw.
    + apply grows_set_node; [done|set_solver].
    + exact (set_node_keeps (with_heap s h) v n).
Qed.

(** Giving a block back. *)
Lemma only_removed (a p : Z) X D : a ∉ D ∖ {[p]} → a ∈ X ∪ D → X ⊆ {[p]} → a = p.
Proof. intros. destruct (decide (a = p)); [done|]. set_solver. Qed.
Lemma j_kfree_ok B s0 s D p : grows B s0 s D → p ∈ D →
  ∃ h, j_kfree s p = Ret (with_heap s h) ∧ kh_rep h (B ∪ D ∖ {[p]}).
Proof.
  intros HG Hp. pose proof (g_new _ _ _ _ HG).
  destruct (kfree_spec _ _ p (g_heap _ _ _ _ HG) ltac:(set_solver)) as (h & E & Hh).
  exists h. unfold j_kfree. rewrite E. split; [done|]. by replace (B ∪ D ∖ {[p]}) with ((B ∪ D) ∖ {[p]}) by set_solver.
Qed.
Lemma j_kfree_null s : j_kfree s 0 = Ret s.
Proof. unfold j_kfree. rewrite kfree_null. by destruct s. Qed.
Lemma free_raw_ok B s0 s D p : grows B s0 s D → p ∈ D → at_raw s p →
  ∃ s', j_kfree s p = Ret s' ∧ grows B s0 s' (D ∖ {[p]}) ∧ keeps ∅ s s'.
Proof.
  intros HG Hp (_ & ? & ?). destruct (j_kfree_ok _ _ _ _ _ HG Hp) as (h & E & Hh). pose proof (g_new _ _ _ _ HG).
  eexists. split; [done|]. split; [|by apply keeps_same].
  apply (grows_step _ _ s _ D _ ∅); [done..|set_solver|by apply keeps_same|]. intros a Ha Hi. apply (only_removed a p) in Hi as ->; [|done|set_solver]. split; [set_solver|by split].
Qed.
Lemma free_str_ok B s0 s D b bs : grows B s0 s D → b ∈ D → at_str s b bs →
  ∃ s', free_str s b = Ret s' ∧ grows B s0 s' (D ∖ {[b]}) ∧ keeps {[b]} s s'.
Proof.
  intros HG Hb (_ & Hs & Hn & _). destruct (j_kfree_ok _ _ _ _ _ HG Hb) as (h & E & Hh). pose proof (g_new _ _ _ _ HG).
  unfold free_str. rewrite Hs, E. eexists. split; [done|].
  assert (keeps {[b]} s {| heap := h; nodes := s.(nodes); strs := delete b s.(strs) |}) as Hk.
  { intros a Ha. split; [done|]. apply lookup_delete_ne. set_solver. }
  split; [|done]. eapply (grows_step _ _ s _ D _ {[b]}); [done|done|set_solver|done|]. intros a Ha Hi. apply (only_removed a b) in Hi as ->; [|done|set_solver].
  split; [set_solver|]. split; [done|apply lookup_delete_eq].
Qed.
Lemma free_node_ok B s0 s D v n : grows B s0 s D → v ∈ D → at_node s v n →
  ∃ s', free_node s v = Ret s' ∧ grows B s0 s' (D ∖ {[v]}) ∧ keeps {[v]} s s'.
Proof.
  intros HG Hb (_ & Hn & Hs). destruct (j_kfree_ok _ _ _ _ _ HG Hb) as (h & E & Hh). pose proof (g_new _ _ _ _ HG).
  unfold free_node. rewrite E. eexists. split; [done|].
  assert (keeps {[v]} s {| heap := h; nodes := delete v s.(nodes); strs := s.(strs) |}) as Hk.
  { intros a Ha. split; [|done]. apply lookup_delete_ne. set_solver. }
  split; [|done]. eapply (grows_step _ _ s _ D _ {[v]}); [done|done|set_solver|done|]. intros a Ha Hi. apply (only_removed a v) in Hi as ->; [|done|set_solver].
  split; [set_solver|]. split; [apply lookup_delete_eq|done].
Qed.
End steps.

(** *** [json_free] *)

Section free.
Context {H : Type} `{KH : KHeap H}.
Implicit Types (s : jstore H) (B D E X : gset Z).

(** The values among the blocks [D] bound the recursion. *)
Definition weight s D : nat := size (filter (λ a, is_Some (s.(nodes) !! a)) D).
Lemma weight_mono s D E : D ⊆ E → (weight s D ≤ weight s E)%nat.
Proof. intros. apply subseteq_size. set_solver. Qed.
Lemma weight_node s v n D E : at_node s v n → v ∉ D → D ⊆ E → (S (weight s D) ≤ weight s ({[v]} ∪ E))%nat.
Proof.
  intros (_ & Hn & _) Hv HDE. transitivity (weight s ({[v]} ∪ D)); [|apply weight_mono; set_solver].
  unfold weight. rewrite filter_union_L by apply _. rewrite filter_singleton_True_L by first [apply _ | by rewrite Hn]. rewrite size_union, size_singleton; [done|]. set_solver.
Qed.
Lemma weight_all s D : (weight s D ≤ size s.(nodes))%nat.
Proof.
  rewrite <- size_dom. apply subseteq_size. intros a. rewrite elem_of_filter, elem_of_dom. tauto.
Qed.

Definition releases s D (m : nat → jstore H → outcome (jstore H)) : Prop := ∀ f s1 E B s0 X,
  keeps X s s1 → X ## D → grows B s0 s1 E → D ⊆ E → (weight s D ≤ f)%nat →
  ∃ s2, m f s1 = Ret s2 ∧ grows B s0 s2 (E ∖ D) ∧ keeps D s1 s2.

Lemma free_from_S f s v : 0 < v →
  free_from (S f) s v =
  (n ← node_at s v;
   s ← (match n with
        | N_STRING b => free_str s b
        | N_ARRAY ap vs => s ← free_items (free_from f) s vs; j_kfree s ap
        | N_OBJECT kp vp ms => s ← free_keys_and (free_from f) s ms; s ← j_kfree s kp; j_kfree s vp
        | _ => Ret s
        end);
   free_node s v).
Proof. intros. cbn [free_from]. by rewrite (proj2 (Z.eqb_neq v 0)) by lia. Qed.
Lemma at_node_lookup s v n : at_node s v n → node_at s v = Ret n.
Proof. intros (_ & Hn & _). unfold node_at. by rewrite Hn. Qed.

(** A value without parts. *)
Lemma release_leaf s v n : at_node s v n → match n with N_NULL | N_BOOL _ | N_NUMBER _ => True | _ => False end →
  releases s {[v]} (λ f s1, free_from f s1 v).
Proof.
  intros Hn Hl f s1 E B s0 X Hk HX HG HE Hf. pose proof (weight_node s v n ∅ ∅ Hn ltac:(set_solver) ltac:(done)) as Hw.
  rewrite union_empty_r_L in Hw. destruct f as [|f]; [lia|].
  apply (keeps_node X s s1) in Hn; [|done|set_solver]. destruct (free_node_ok _ _ _ _ v n HG ltac:(set_solver) Hn) as (s2 & E2 & HG2 & Hk2).
  exists s2. rewrite free_from_S by apply Hn. rewrite (at_node_lookup _ _ _ Hn). by destruct n.
Qed.
Lemma grows_eq B s0 s D D' : grows B s0 s D → D = D' → grows B s0 s D'.
Proof. by intros ? <-. Qed.
#[local] Ltac less_blocks :=
  eapply grows_eq; [eassumption|]; rewrite ?difference_difference_l_L; f_equal; set_solver.
Lemma release_all s :
  (∀ v j D, tree s v j D → releases s D (λ f s1, free_from f s1 v)) ∧
  (∀ vs js D, trees s vs js D → releases s D (λ f s1, free_items (free_from f) s1 vs)) ∧
  (∀ ms js D, members s ms js D → releases s D (λ f s1, free_keys_and (free_from f) s1 ms)).
Proof.
  apply tree_all.
  - intros v Hn. by eapply release_leaf.
  - intros v b Hn. by eapply release_leaf.
  - intros v x Hn. by eapply release_leaf.
  - intros v b bs Hn Hb f s1 E B s0 X Hk HX HG HE Hf.
    assert (v ≠ b) as Hne. { destruct Hn as (_ & Hn & _), Hb as (_ & _ & Hb & _). congruence. }
    pose proof (weight_node s v _ ∅ {[b]} Hn ltac:(set_solver) ltac:(set_solver)). destruct f as [|f]; [lia|].
    apply (keeps_node X s s1) in Hn; [|done|set_solver]. apply (keeps_str X s s1) in Hb; [|done|set_solver].
    rewrite free_from_S by apply Hn. rewrite (at_node_lookup _ _ _ Hn). cbn [mbind outcome_bind].
    destruct (free_str_ok _ _ _ _ b bs HG ltac:(set_solver) Hb) as (s2 & E2 & HG2 & Hk2). rewrite E2. cbn [mbind outcome_bind].
    apply (keeps_node _ _ _ _ _ Hk2) in Hn; [|set_solver].
    destruct (free_node_ok _ _ _ _ v _ HG2 ltac:(set_solver) Hn) as (s3 & E3 & HG3 & Hk3).
    exists s3. split; [done|]. split; [less_blocks|].
    eapply keeps_mono; [by eapply keeps_trans|set_solver].
  - intros v ap vs js D Hn Ha _ IH Hv Hap f s1 E B s0 X Hk HX HG HE Hf.
    assert (v ≠ ap) as Hne. { destruct Hn as (_ & Hn & _), Ha as (_ & Ha & _). congruence. }
    pose proof (weight_node s v _ D ({[ap]} ∪ D) Hn ltac:(set_solver) ltac:(set_solver)). destruct f as [|f]; [lia|].
    destruct (IH f s1 E B s0 X Hk ltac:(set_solver) HG ltac:(set_solver) ltac:(lia)) as (s2 & E2 & HG2 & Hk2).
    apply (keeps_node X s s1) in Hn; [|done|set_solver]. apply (keeps_raw X s s1) in Ha; [|done|set_solver].
    rewrite free_from_S by apply Hn. rewrite (at_node_lookup _ _ _ Hn). cbn [mbind outcome_bind]. rewrite E2. cbn [mbind outcome_bind].
    apply (keeps_node _ _ _ _ _ Hk2) in Hn; [|set_solver]. apply (keeps_raw _ _ _ _ Hk2) in Ha; [|set_solver].
    destruct (free_raw_ok _ _ _ _ ap HG2 ltac:(set_solver) Ha) as (s3 & E3 & HG3 & Hk3). rewrite E3. cbn [mbind outcome_bind].
    apply (keeps_node _ _ _ _ _ Hk3) in Hn; [|set_solver].
    destruct (free_node_ok _ _ _ _ v _ HG3 ltac:(set_solver) Hn) as (s4 & E4 & HG4 & Hk4).
    exists s4. split; [done|]. split; [less_blocks|].
    eapply keeps_mono; [eapply keeps_trans; [by eapply keeps_trans|done]|set_solver].
  - intros v kp vp ms js D Hn Ha Hb Hkv _ IH Hv Hkp Hvp f s1 E B s0 X Hk HX HG HE Hf.
    assert (v ≠ kp ∧ v ≠ vp) as [Hne Hne']. { destruct Hn as (_ & Hn & _), Ha as (_ & Ha & _), Hb as (_ & Hb & _). split; congruence. }
    pose proof (weight_node s v _ D ({[kp]} ∪ ({[vp]} ∪ D)) Hn ltac:(set_solver) ltac:(set_solver)). destruct f as [|f]; [lia|].
    destruct (IH f s1 E B s0 X Hk ltac:(set_solver) HG ltac:(set_solver) ltac:(lia)) as (s2 & E2 & HG2 & Hk2).
    apply (keeps_node X s s1) in Hn; [|done|set_solver]. apply (keeps_raw _ _ _ _ Hk) in Ha, Hb; [|set_solver..].
    rewrite free_from_S by apply Hn. rewrite (at_node_lookup _ _ _ Hn). cbn [mbind outcome_bind]. rewrite E2. cbn [mbind outcome_bind].
    apply (keeps_node _ _ _ _ _ Hk2) in Hn; [|set_solver]. apply (keeps_raw _ _ _ _ Hk2) in Ha, Hb; [|set_solver..].
    destruct (free_raw_ok _ _ _ _ kp HG2 ltac:(set_solver) Ha) as (s3 & E3 & HG3 & Hk3). rewrite E3. cbn [mbind outcome_bind].
    apply (keeps_node _ _ _ _ _ Hk3) in Hn; [|set_solver]. apply (keeps_raw _ _ _ _ Hk3) in Hb; [|set_solver].
    destruct (free_raw_ok _ _ _ _ vp HG3 ltac:(set_solver) Hb) as (s4 & E4 & HG4 & Hk4). rewrite E4. cbn [mbind outcome_bind].
    apply (keeps_node _ _ _ _ _ Hk4) in Hn; [|set_solver].
    destruct (free_node_ok _ _ _ _ v _ HG4 ltac:(set_solver) Hn) as (s5 & E5 & HG5 & Hk5).
    exists s5. split; [done|]. split; [less_blocks|].
    eapply keeps_mono; [eapply keeps_trans; [eapply keeps_trans; [by eapply keeps_trans|done]|done]|set_solver].
  - intros f s1 E B s0 X Hk HX HG HE Hf. exists s1. split; [done|]. split; [by rewrite difference_empty_L|apply keeps_refl].
  - intros v vs j js D D' _ IH1 _ IH2 HD f s1 E B s0 X Hk HX HG HE Hf.
    pose proof (weight_mono s D (D ∪ D') ltac:(set_solver)). pose proof (weight_mono s D' (D ∪ D') ltac:(set_solver)).
    destruct (IH1 f s1 E B s0 X Hk ltac:(set_solver) HG ltac:(set_solver) ltac:(lia)) as (s2 & E2 & HG2 & Hk2).
    destruct (IH2 f s2 (E ∖ D) B s0 (X ∪ D) ltac:(by eapply keeps_trans) ltac:(set_solver) HG2 ltac:(set_solver) ltac:(lia)) as (s3 & E3 & HG3 & Hk3).
    exists s3. cbn [free_items]. rewrite E2. cbn [mbind outcome_bind]. split; [done|].
    split; [less_blocks|by eapply keeps_trans].
  - intros f s1 E B s0 X Hk HX HG HE Hf. exists s1. split; [done|]. split; [by rewrite difference_empty_L|apply keeps_refl].
  - intros k v ms kb j js D D' Hs _ IH1 _ IH2 HkD HkD' HD f s1 E B s0 X Hk HX HG HE Hf.
    pose proof (weight_mono s D ({[k]} ∪ (D ∪ D')) ltac:(set_solver)). pose proof (weight_mono s D' ({[k]} ∪ (D ∪ D')) ltac:(set_solver)).
    apply (keeps_str X s s1) in Hs; [|done|set_solver].
    destruct (free_str_ok _ _ _ _ k kb HG ltac:(set_solver) Hs) as (s2 & E2 & HG2 & Hk2).
    destruct (IH1 f s2 (E ∖ {[k]}) B s0 (X ∪ {[k]}) ltac:(by eapply keeps_trans) ltac:(set_solver) HG2 ltac:(set_solver) ltac:(lia)) as (s3 & E3 & HG3 & Hk3).
    destruct (IH2 f s3 (E ∖ {[k]} ∖ D) B s0 (X ∪ {[k]} ∪ D) ltac:(eapply keeps_trans; [by eapply keeps_trans|done]) ltac:(set_solver) HG3 ltac:(set_solver) ltac:(lia)) as (s4 & E4 & HG4 & Hk4).
    exists s4. cbn [free_keys_and]. rewrite E2. cbn [mbind outcome_bind]. rewrite E3. cbn [mbind outcome_bind]. split; [done|].
    split; [less_blocks|].
    eapply keeps_mono; [eapply keeps_trans; [by eapply keeps_trans|done]|set_solver].
Qed.

(** [json_free] gives back the blocks of a value and nothing else. *)
Lemma json_free_ok B s0 s D E v j : tree s v j D → grows B s0 s E → D ⊆ E →
  ∃ s', json_free s v = Ret s' ∧ grows B s0 s' (E ∖ D) ∧ keeps D s s'.
Proof.
  intros Ht HG HD. apply (proj1 (release_all s) v j D Ht _ s E B s0 ∅); [apply keeps_refl|set_solver|done|done|].
  pose proof (weight_all s D). lia.
Qed.
End free.

(** *** Reading values *)

Section parse.
Context {H : Type} `{KH : KHeap H}.
Implicit Types (s : jstore H) (B C D E X : gset Z).

(** A call that makes the value [j] from the text up to [q] and answers its address, or
    finds no memory: [g] is the heap that the requests for [j] leave. [D] are the blocks
    that the caller has made since [s0]. *)
Definition obtains B s0 D s (g : option H) (j : json) (q : list Z) (o : outcome (jstore H * option (Z * list Z))) : Prop :=
  (∃ s' v X, o = Ret (s', Some (v, q)) ∧ tree s' v j X ∧ X ## D ∧ grows B s0 s' (X ∪ D) ∧ keeps X s s' ∧ g = Some s'.(heap)) ∨
  (∃ s', o = Ret (s', None) ∧ grows B s0 s' D ∧ keeps ∅ s s' ∧ g = None).
Definition fails B s0 D s (o : outcome (jstore H * option (Z * list Z))) : Prop :=
  ∃ s', o = Ret (s', None) ∧ grows B s0 s' D ∧ keeps ∅ s s'.
Definition settles B s0 D s (x : scanned json) (o : outcome (jstore H * option (Z * list Z))) : Prop :=
  match x with
  | Parsed j q => obtains B s0 D s (build s.(heap) j) j q o
  | Rejected => fails B s0 D s o
  | _ => True
  end.

Lemma tree_keeps X s s' v j D : keeps X s s' → X ## D → tree s v j D → tree s' v j D.
Proof. intros. by eapply (proj1 (tree_keeps_all s)). Qed.
Lemma trees_keeps X s s' vs js D : keeps X s s' → X ## D → trees s vs js D → trees s' vs js D.
Proof. intros. by eapply (proj1 (proj2 (tree_keeps_all s))). Qed.
Lemma members_keeps X s s' ms js D : keeps X s s' → X ## D → members s ms js D → members s' ms js D.
Proof. intros. by eapply (proj2 (proj2 (tree_keeps_all s))). Qed.
Lemma tree_pos s v j D : tree s v j D → 0 < v ∧ v ∈ D ∧ ∃ n, at_node s v n.
Proof. destruct 1; (split; [by match goal with Hn : at_node _ _ _ |- _ => apply Hn end|]); (split; [set_solver|eauto]). Qed.
Lemma trees_length s vs js D : trees s vs js D → zlen vs = zlen js.
Proof. induction 1; [done|]. rewrite !zlen_cons. lia. Qed.
Lemma members_length s ms js D : members s ms js D → zlen ms = zlen js.
Proof. induction 1; [done|]. rewrite !zlen_cons. lia. Qed.
Lemma trees_snoc s vs js D v j X :
  trees s vs js D → tree s v j X → D ## X → trees s (vs ++ [v]) (js ++ [j]) (D ∪ X).
Proof.
  intros Ht Hv. induction Ht as [|v' vs j' js D' E' Ht Hts IH HD]; intros HX; cbn.
  - replace (∅ ∪ X) with (X ∪ ∅) by set_solver. constructor; [done|constructor|set_solver].
  - replace (D' ∪ E' ∪ X) with (D' ∪ (E' ∪ X)) by set_solver. constructor; [done|apply IH; set_solver|set_solver].
Qed.
Lemma members_snoc s ms js D k kb v j X :
  members s ms js D → at_str s k kb → tree s v j X → k ∉ D → k ∉ X → D ## X →
  members s (ms ++ [(k, v)]) (js ++ [(kb, j)]) (D ∪ ({[k]} ∪ X)).
Proof.
  intros Hm Hk Hv. induction Hm as [|k' v' ms kb' j' js D' E' Hk' Ht Hts IH ? ? HD]; intros HkD HkX HX; cbn.
  - replace (∅ ∪ ({[k]} ∪ X)) with ({[k]} ∪ (X ∪ ∅)) by set_solver. constructor; [done..|constructor|done|set_solver|set_solver].
  - replace ({[k']} ∪ (D' ∪ E') ∪ ({[k]} ∪ X)) with ({[k']} ∪ (D' ∪ (E' ∪ ({[k]} ∪ X)))) by set_solver.
    assert (k' ≠ k) by set_solver. constructor; [done|done|apply IH; set_solver|done|set_solver|set_solver].
Qed.

(** A call that leaves the blocks as they were has changed nothing. *)
Lemma keeps_back B s0 s s' D X : grows B s0 s D → grows B s0 s' D → keeps X s s' → X ## D → keeps ∅ s s'.
Proof.
  intros HG HG' Hk HX a _. destruct (decide (a ∈ D)) as [Ha|Ha]; [apply Hk; set_solver|].
  destruct (g_keeps _ _ _ _ HG a Ha) as [-> ->]. by apply (g_keeps _ _ _ _ HG').
Qed.
Lemma fails_intro B s0 sr s D X :
  grows B s0 sr D → grows B s0 s D → keeps X sr s → X ## D → fails B s0 D sr (Ret (s, None)).
Proof. intros. exists s. split_and!; [done|done|by eapply keeps_back]. Qed.
(** Giving up on a value that is not finished. *)
Lemma abandon B s0 D sr s C v j :
  grows B s0 sr D → grows B s0 s (C ∪ D) → tree s v j C → C ## D → keeps C sr s →
  fails B s0 D sr (s ← json_free s v; Ret (s, None)).
Proof.
  intros HGr HG Ht HCD Hk. destruct (json_free_ok _ _ _ C _ v j Ht HG ltac:(set_solver)) as (s' & E & HG' & Hk').
  rewrite E. cbn [mbind outcome_bind]. replace ((C ∪ D) ∖ C) with D in HG' by set_solver.
  eapply (fails_intro _ _ _ _ _ C); [done|done|eapply keeps_mono; [by eapply keeps_trans|set_solver]|done].
Qed.

(** [kfree] of a key. *)
Lemma abandon_key B s0 D s k kb :
  grows B s0 s ({[k]} ∪ D) → at_str s k kb → k ∉ D →
  ∃ s', free_str s k = Ret s' ∧ grows B s0 s' D ∧ keeps {[k]} s s'.
Proof.
  intros HG Hk HkD. destruct (free_str_ok _ _ _ _ k kb HG ltac:(set_solver) Hk) as (s' & E & HG' & Hk').
  exists s'. split_and!; [done| |done]. eapply grows_eq; [done|]. set_solver.
Qed.

(** A value without parts. *)
Lemma leaf_ok B s0 D s n j q :
  grows B s0 s D → (∀ s' v, at_node s' v n → tree s' v j {[v]}) → build s.(heap) j = ask_value s.(heap) →
  obtains B s0 D s (build s.(heap) j) j q ('(s, v) ← alloc_value s n; Ret (s, if v =? 0 then None else Some (v, q))).
Proof.
  intros HG Ht ->. destruct (alloc_value_ok _ _ _ _ n HG) as (s' & v & -> & Hv). cbn [mbind outcome_bind].
  destruct Hv as [(-> & HG' & Hk & Ha)|(Hv & HB & HD & Hn & HG' & Hk & Ha)].
  - right. by exists s'.
  - left. rewrite (proj2 (Z.eqb_neq v 0)) by lia. exists s', v, {[v]}. split_and!; [done|by apply Ht|set_solver|done..].
Qed.

Lemma parse_string_raw_ok B s0 D s p :
  grows B s0 s D → is_cstr p → zlen p < 2 ^ 60 →
  match scan_string p with
  | Parsed bs q =>
      (∃ s' b, parse_string_raw s p = Ret (s', Some (b, q)) ∧ b ∉ D ∧ at_str s' b bs ∧ grows B s0 s' ({[b]} ∪ D) ∧
         keeps {[b]} s s' ∧ ask_string s.(heap) bs = Some s'.(heap)) ∨
      (∃ s', parse_string_raw s p = Ret (s', None) ∧ grows B s0 s' D ∧ keeps ∅ s s' ∧ ask_string s.(heap) bs = None)
  | Rejected => parse_string_raw s p = Ret (s, None)
  | _ => True
  end.
Proof.
  intros HG Hp Hl. unfold scan_string, parse_string_raw. destruct (peek p =? QUOTE) eqn:Eq; cbn [negb]; [|done].
  pose proof Eq as Hq%Z.eqb_eq. rewrite adv_1 by (rewrite Hq; done). cbn [mbind outcome_bind].
  pose proof (string_len_scan (tail p) (length (tail p)) 0 ltac:(by apply is_cstr_tail) ltac:(lia)) as Hlen.
  pose proof (zlen_tail_le p). destruct (scan_chars (tail p)) as [bs q| | |] eqn:Es; [|destruct Hlen as [n ->]|done..].
  2: done.
  rewrite Hlen. cbn [mbind outcome_bind peek hd]. change (negb _) with false. cbn iota. rewrite Z.add_0_l.
  destruct (scan_chars_shorter _ _ _ (is_cstr_tail _ Hp) Es) as (_ & Hbs & Hbl). pose proof (zlen_nonneg bs).
  destruct (j_kmalloc_ok _ _ _ _ (zlen bs + 1) HG ltac:(lia)) as (s1 & b & -> & Hn & Hs & Hb). cbn [mbind outcome_bind].
  unfold ask_string. destruct Hb as [(-> & HG1 & ->)|(Hb & HB & HD & Hraw & HG1 & ->)].
  - right. exists s1. cbn. split_and!; [done|done|by apply keeps_same|done].
  - left. rewrite (proj2 (Z.eqb_neq b 0)) by lia.
    rewrite (string_copy_scan _ _ (zlen bs + 1) [] bs q) by (done || (by apply is_cstr_tail) || (unfold zlen; cbn; lia)).
    cbn [mbind outcome_bind]. rewrite app_nil_l, put_ok by lia. cbn [mbind outcome_bind]. rewrite adv_cons, adv_0. cbn [mbind outcome_bind].
    eexists _, b. split; [done|]. split; [done|].
    assert (keeps {[b]} s {| heap := s1.(heap); nodes := s1.(nodes); strs := <[b := bs ++ [0]]> s1.(strs) |}) as Hk.
    { intros a Ha. cbn. rewrite Hn, Hs. split; [done|]. apply lookup_insert_ne. set_solver. }
    split; [split_and!; [done|apply lookup_insert_eq|apply Hraw|done]|]. split_and!; [|done|done].
    eapply (grows_step _ _ s _ D _ {[b]}); [done|apply HG1|apply HG1|done|]. intros a Ha Hi. exfalso. set_solver.
Qed.

Lemma parse_string_ok B s0 D s p :
  grows B s0 s D → is_cstr p → zlen p < 2 ^ 60 →
  settles B s0 D s (scan_map J_string (scan_string p)) (parse_string s p).
Proof.
  intros HG Hp Hl. pose proof (parse_string_raw_ok B s0 D s p HG Hp Hl) as Hr. unfold parse_string.
  destruct (scan_string p) as [bs q| | |]; cbn [scan_map settles]; [|rewrite Hr; exists s; split_and!; [done..|apply keeps_refl]|done..].
  cbn [build]. destruct Hr as [(s1 & b & -> & Hb & Hs & HG1 & Hk1 & ->)|(s1 & -> & HG1 & Hk1 & ->)]; cbn [mbind outcome_bind option_bind].
  2: { right. by exists s1. }
  destruct (alloc_value_ok _ _ _ _ (N_STRING b) HG1) as (s2 & v & -> & Hv). cbn [mbind outcome_bind].
  destruct Hv as [(-> & HG2 & Hk2 & Ha)|(Hv & HB & HD & Hn & HG2 & Hk2 & Ha)].
  - right. eapply keeps_str in Hs; [|done|set_solver].
    destruct (abandon_key _ _ _ _ _ _ HG2 Hs Hb) as (s3 & E3 & HG3 & Hk3). cbn. rewrite E3. exists s3. split_and!; [done|done| |done].
    eapply (keeps_back _ _ _ _ D {[b]}); [done..| |set_solver]. eapply keeps_mono; [eapply keeps_trans; [by eapply keeps_trans|done]|set_solver].
  - left. rewrite (proj2 (Z.eqb_neq v 0)) by lia. exists s2, v, ({[v]} ∪ {[b]}). eapply keeps_str in Hs; [|done|set_solver].
    split; [done|]. split; [by constructor|]. split; [set_solver|]. split; [eapply grows_eq; [done|set_solver]|].
    split; [eapply keeps_mono; [by eapply keeps_trans|set_solver]|done].
Qed.
Lemma parse_number_ok B s0 D s p :
  grows B s0 s D → settles B s0 D s (scan_number p) (parse_number s p).
Proof.
  intros HG. unfold scan_number, parse_number. destruct (read_number p) as [[x q]| |]; [|done..]. cbn [mbind outcome_bind settles].
  apply leaf_ok; [done|by constructor|done].
Qed.

Lemma j_krealloc_ok B s0 s D p n : grows B s0 s D → p ∈ D → at_raw s p → 0 < n < 2 ^ 64 →
  ∃ s' q, j_krealloc s p n = Ret (s', q) ∧ keeps ∅ s s' ∧
    (q = 0 ∧ grows B s0 s' D ∧ granted (krealloc s.(heap) p n) = None ∨
     q ∉ B ∧ (q = p ∨ q ∉ D) ∧ at_raw s' q ∧ grows B s0 s' ({[q]} ∪ D ∖ {[p]}) ∧
     granted (krealloc s.(heap) p n) = Some (s'.(heap), q)).
Proof.
  intros HG Hp Hraw Hn. pose proof (g_new _ _ _ _ HG) as Hnew.
  destruct (krealloc_spec _ _ p n (g_heap _ _ _ _ HG) ltac:(set_solver) Hn) as (h & q & E & Hq).
  unfold j_krealloc. rewrite E. exists (with_heap s h), q. split; [done|]. split; [by apply keeps_same|].
  destruct Hq as [[-> Hh]|(Hq & Hqp & Hh)]; [left; split_and!; [done|by apply grows_heap_eq|done]|right].
  assert (q ∉ B) as HqB by set_solver.
  assert (at_raw s q) as Hrq. { destruct (decide (q = p)) as [->|]; [done|]. destruct (grows_fresh _ _ _ _ q HG); [set_solver..|]. by split. }
  split; [done|]. split; [set_solver|]. split; [by destruct Hrq as (? & ? & ?)|]. split; [|by apply granted_some].
  apply (grows_step _ _ s _ D _ ∅); [done| |set_solver|by apply keeps_same|].
  - by replace (B ∪ ({[q]} ∪ D ∖ {[p]})) with ({[q]} ∪ (B ∪ D) ∖ {[p]}) by set_solver.
  - intros a Ha Hi. destruct (decide (a = p)) as [->|]; [|set_solver]. destruct Hraw as (_ & ? & ?). split; [set_solver|by split].
Qed.
End parse.

(** *** Arrays and objects *)

Section loops.
Context {H : Type} `{KH : KHeap H}.
Implicit Types (s : jstore H) (B C D E X : gset Z).

(** An array at [arr] that holds [js], and its parts. *)
Record array_ok s (arr ap : Z) (vs : list Z) (js : list json) (V : gset Z) : Prop := {
  ao_node : at_node s arr (N_ARRAY ap vs);
  ao_raw : at_raw s ap;
  ao_items : trees s vs js V;
  ao_arr : arr ∉ V;
  ao_ap : ap ∉ V;
}.
Definition array_blocks (arr ap : Z) (V : gset Z) : gset Z := {[arr]} ∪ ({[ap]} ∪ V).
Lemma array_tree s arr ap vs js V : array_ok s arr ap vs js V → tree s arr (J_array js) (array_blocks arr ap V).
Proof. intros []. by econstructor. Qed.
Lemma array_ok_keeps X s s' arr ap vs js V :
  keeps X s s' → X ## array_blocks arr ap V → array_ok s arr ap vs js V → array_ok s' arr ap vs js V.
Proof.
  unfold array_blocks. intros Hk HX [Hn Hr Ht ? ?]. split; [| | |done|done].
  - eapply keeps_node; [done|set_solver|done].
  - eapply keeps_raw; [done|set_solver|done].
  - eapply trees_keeps; [done|set_solver|done].
Qed.
Lemma array_ne s arr ap vs js V : array_ok s arr ap vs js V → arr ≠ ap.
Proof. intros [(_ & Hn & _) (_ & Hr & _)]. congruence. Qed.

Lemma grow_items_ok B s0 s C ap count cap :
  grows B s0 s C → ap ∈ C → at_raw s ap → 0 < cap → count ≤ cap → count < 2 ^ 58 →
  ∃ s' r, grow_items s ap count cap = Ret (s', r) ∧ keeps ∅ s s' ∧
    match r with
    | None => grows B s0 s' C ∧ room_for s.(heap) ap count cap = None
    | Some (q, cap') =>
        (q = ap ∨ q ∉ C) ∧ at_raw s' q ∧ grows B s0 s' ({[q]} ∪ C ∖ {[ap]}) ∧ count < cap' ∧
        room_for s.(heap) ap count cap = Some (s'.(heap), q, cap')
    end.
Proof.
  intros HG HC Hraw H0 H1 H2. unfold grow_items, room_for. destruct (count >=? cap) eqn:Ec.
  - assert (u64 (u64 (cap * 2) * 8) = cap * 2 * 8 ∧ u64 (cap * 2) = cap * 2) as [E8 E2].
    { unfold wrap. rewrite !(Z.mod_small (cap * 2)) by lia. by rewrite Z.mod_small by lia. }
    rewrite E8, E2. destruct (j_krealloc_ok _ _ _ _ ap (cap * 2 * 8) HG HC Hraw ltac:(lia)) as (s' & q & -> & Hk & Hq).
    cbn [mbind outcome_bind]. exists s'. destruct Hq as [(-> & HG' & ->)|(_ & Hqp & Hq & HG' & ->)].
    + exists None. by split_and!.
    + rewrite (proj2 (Z.eqb_neq q 0)) by (destruct Hq; lia). exists (Some (q, cap * 2)). split_and!; [done..|lia|done].
  - exists s, (Some (ap, cap)). split_and!; [done|apply keeps_refl|by left|done| |lia|done].
    eapply grows_eq; [done|]. apply set_eq. intros a. destruct (decide (a = ap)); set_solver.
Qed.

(** The loop over the items: the array at [arr] has the items [js] so far. *)
Record in_array B s0 D sr s (arr ap : Z) (vs : list Z) (js : list json) (V : gset Z) : Prop := {
  ia_start : grows B s0 sr D;
  ia_now : grows B s0 s (array_blocks arr ap V ∪ D);
  ia_new : array_blocks arr ap V ## D;
  ia_ok : array_ok s arr ap vs js V;
  ia_keeps : keeps (array_blocks arr ap V) sr s;
}.
Lemma array_at_ok s arr ap vs js V : array_ok s arr ap vs js V → array_at s arr = Ret (ap, vs).
Proof. intros HA. unfold array_at. by rewrite (at_node_lookup _ _ _ (ao_node _ _ _ _ _ _ HA)). Qed.
(** Giving up, with or without blocks [X] that are gone again. *)
Lemma array_abandon B s0 D sr s s1 arr ap vs js V :
  in_array B s0 D sr s arr ap vs js V → grows B s0 s1 (array_blocks arr ap V ∪ D) → keeps ∅ s s1 →
  fails B s0 D sr (s ← json_free s1 arr; Ret (s, None)).
Proof.
  intros [Hst Hnow Hnew Hok Hk] HG1 Hk1. eapply abandon; [done|done| |done|].
  - eapply array_tree, (array_ok_keeps ∅); [done|set_solver|done].
  - eapply keeps_mono; [by eapply keeps_trans|set_solver].
Qed.
(** The state with the new item [v]. *)
Lemma array_item B s0 D sr s s1 arr ap vs js V v j X :
  in_array B s0 D sr s arr ap vs js V → tree s1 v j X → X ## array_blocks arr ap V ∪ D →
  grows B s0 s1 (X ∪ (array_blocks arr ap V ∪ D)) → keeps X s s1 →
  array_ok s1 arr ap vs js V ∧ keeps (X ∪ array_blocks arr ap V) sr s1.
Proof.
  intros [Hst Hnow Hnew Hok Hk] Ht HX HG1 Hk1. split.
  - eapply array_ok_keeps; [done|set_solver|done].
  - eapply keeps_mono; [by eapply keeps_trans|set_solver].
Qed.
Lemma array_push_fails B s0 D sr s s1 s2 arr ap vs js V v j X :
  in_array B s0 D sr s arr ap vs js V → tree s1 v j X → X ## array_blocks arr ap V ∪ D →
  keeps X s s1 → keeps ∅ s1 s2 → grows B s0 s2 (X ∪ (array_blocks arr ap V ∪ D)) →
  fails B s0 D sr (s ← json_free s2 v; s ← json_free s arr; Ret (s, None)).
Proof.
  intros HI Ht HX Hk1 Hk2 HG2. eapply tree_keeps in Ht; [|done|set_solver].
  destruct (json_free_ok _ _ _ X _ v j Ht HG2 ltac:(set_solver)) as (s3 & -> & HG3 & Hk3). cbn [mbind outcome_bind].
  assert (grows B s0 s3 (array_blocks arr ap V ∪ D)) as HG3' by (eapply grows_eq; [done|set_solver]).
  eapply (array_abandon _ _ _ _ s); [done|done|]. eapply (keeps_back _ _ _ _ _ X); [apply HI|done| |done].
  eapply keeps_mono; [eapply keeps_trans; [by eapply keeps_trans|done]|set_solver].
Qed.
Lemma array_push B s0 D sr s s1 s2 arr ap vs js V v j X q :
  in_array B s0 D sr s arr ap vs js V → tree s1 v j X → X ## array_blocks arr ap V ∪ D →
  keeps X s s1 → keeps ∅ s1 s2 → (q = ap ∨ q ∉ X ∪ (array_blocks arr ap V ∪ D)) → at_raw s2 q →
  grows B s0 s2 ({[q]} ∪ (X ∪ (array_blocks arr ap V ∪ D)) ∖ {[ap]}) →
  in_array B s0 D sr (set_node s2 arr (N_ARRAY q (vs ++ [v]))) arr q (vs ++ [v]) (js ++ [j]) (V ∪ X).
Proof.
  intros [Hst Hnow Hnew Hok Hk] Ht HX Hk1 Hk2 Hq Hraw HG2. pose proof (array_ne _ _ _ _ _ _ Hok) as Hne.
  destruct Hok as [Hn Hr Hts Harr Hap]. unfold array_blocks in *.
  assert (q ≠ arr) as Hqa by (destruct Hq as [->|?]; [done|set_solver]).
  assert (q ∉ V ∪ X ∧ q ∉ D) as [HqV HqD] by (destruct Hq as [->|?]; set_solver).
  assert (keeps (X ∪ {[arr]}) s (set_node s2 arr (N_ARRAY q (vs ++ [v])))) as Hk3.
  { eapply keeps_mono; [eapply keeps_trans; [by eapply keeps_trans|apply set_node_keeps]|set_solver]. }
  split; [done| |set_solver| |].
  - eapply grows_eq; [apply grows_set_node; [done|set_solver]|]. apply set_eq. intros a. destruct (decide (a = ap)), (decide (a = q)); set_solver.
  - split.
    + apply set_node_at; [apply Hn|]. eapply (keeps_node X s s1) in Hn; [|done|set_solver]. eapply keeps_node in Hn; [|done|set_solver]. apply Hn.
    + eapply keeps_raw; [apply set_node_keeps|set_solver|done].
    + apply trees_snoc; [eapply trees_keeps; [done|set_solver|done]| |set_solver].
      eapply tree_keeps; [apply set_node_keeps|set_solver|]. eapply tree_keeps; [done|set_solver|done].
    + set_solver.
    + done.
  - intros a Ha. destruct (decide (a = ap)) as [->|]; [|apply (keeps_trans _ _ _ _ _ Hk Hk3); set_solver].
    pose proof (g_new _ _ _ _ Hnow). destruct (grows_fresh _ _ _ _ ap Hst) as [-> ->]; [set_solver..|].
    destruct (Hk3 ap) as [-> ->]; [set_solver|]. by destruct Hr as (_ & -> & ->).
Qed.
End loops.

Section loop_steps.
Context {H : Type} `{KH : KHeap H}.
Implicit Types (s : jstore H) (B C D E X : gset Z).

(** The texts that fit into memory. *)
Definition LONGEST : Z := 2 ^ 57.
Definition values_ok (f : nat) : Prop := ∀ B s0 D s p,
  grows B s0 s D → is_cstr p → zlen p < LONGEST → settles B s0 D s (scan_value f p) (parse_value f s p).
Definition items_ok (f : nat) : Prop := ∀ B s0 D sr s arr ap vs js V cap p,
  in_array B s0 D sr s arr ap vs js V → is_cstr p → 0 < cap → zlen vs ≤ cap → zlen vs + zlen p < LONGEST →
  match scan_items f p with
  | Parsed js' q => obtains B s0 D sr (build_items build s.(heap) ap (zlen vs) cap js') (J_array (js ++ js')) q (array_loop f s arr cap p)
  | Rejected => fails B s0 D sr (array_loop f s arr cap p)
  | _ => True
  end.

Lemma array_loop_S f s arr cap p :
  array_loop (S f) s arr cap p =
  ('(s, r) ← parse_value f s (skip_whitespace p);
   match r with
   | None => s ← json_free s arr; Ret (s, None)
   | Some (item, p) =>
       '(ap, vs) ← array_at s arr;
       '(s, g) ← grow_items s ap (zlen vs) cap;
       match g with
       | None => s ← json_free s item; s ← json_free s arr; Ret (s, None)
       | Some (ap, cap) =>
           vs ← put cap vs item;
           let s := set_node s arr (N_ARRAY ap vs) in
           let p := skip_whitespace p in
           if peek p =? 44 then p ← adv p 1; array_loop f s arr cap p else
           if peek p =? 93 then p ← adv p 1; Ret (s, Some (arr, p)) else
           s ← json_free s arr; Ret (s, None)
       end
   end).
Proof. done. Qed.
Lemma obtains_ext B s0 D s g g' j j' q o : obtains B s0 D s g j q o → g = g' → j = j' → obtains B s0 D s g' j' q o.
Proof. by intros ? <- <-. Qed.
(** The array is complete. *)
Lemma array_done B s0 D sr s arr ap vs js V q :
  in_array B s0 D sr s arr ap vs js V → obtains B s0 D sr (Some s.(heap)) (J_array js) q (Ret (s, Some (arr, q))).
Proof.
  intros [Hst Hnow Hnew Hok Hk]. left. exists s, arr, (array_blocks arr ap V). split_and!; [done|by eapply array_tree|done..].
Qed.

Lemma items_ok_S f : values_ok f → items_ok f → items_ok (S f).
Proof.
  intros IHv IHi B s0 D sr s arr ap vs js V cap p HI Hp Hcap Hvs Hlen.
  destruct (skip_no_longer p Hp) as [Hs Hl]. pose proof (zlen_nonneg vs). pose proof (zlen_nonneg p). unfold LONGEST in *.
  pose proof (IHv _ _ _ s (skip_whitespace p) (ia_now _ _ _ _ _ _ _ _ _ _ HI) Hs ltac:(unfold LONGEST; lia)) as Hv.
  rewrite array_loop_S. cbn [scan_items]. destruct (scan_value f _) as [j r| | |] eqn:Ev; [| |done..].
  2: { destruct Hv as (s1 & -> & HG1 & Hk1). by eapply array_abandon. }
  destruct (proj1 (scan_shorter f) _ _ _ Hs Ev) as [Hr Hrl].
  destruct (skip_no_longer r Hr) as [Hs' Hl']. cbn [settles] in Hv.
  destruct Hv as [(s1 & v & X & -> & Ht & HX & HG1 & Hk1 & Hb)|(s1 & -> & HG1 & Hk1 & Hb)]; cbn [mbind outcome_bind].
  2: { assert (fails B s0 D sr (s ← json_free s1 arr; Ret (s, None))) as Hf by (by eapply array_abandon).
       destruct (peek _ =? 44); [|destruct (peek _ =? 93); [|done]];
         [destruct (scan_items f _); cbn [scan_map]; [|done..]|];
         (destruct Hf as (s2 & -> & HG2 & Hk2); right; exists s2; split_and!; [done..|]; cbn [build_items]; by rewrite Hb). }
  destruct (array_item _ _ _ _ _ _ _ _ _ _ _ _ _ _ HI Ht HX HG1 Hk1) as [Hok1 _].
  rewrite (array_at_ok _ _ _ _ _ _ Hok1). cbn [mbind outcome_bind].
  destruct (grow_items_ok B s0 s1 (X ∪ (array_blocks arr ap V ∪ D)) ap (zlen vs) cap HG1) as (s2 & g & -> & Hk2 & Hg);
    [unfold array_blocks; set_solver|apply Hok1|done|done|lia|]. cbn [mbind outcome_bind].
  destruct g as [[q cap']|].
  - destruct Hg as (Hq & Hraw & HG2 & Hcap' & Hroom). rewrite put_ok by done. cbn [mbind outcome_bind].
    pose proof (array_push _ _ _ _ _ _ _ _ _ _ _ _ _ _ _ _ HI Ht HX Hk1 Hk2 Hq Hraw HG2) as HI2.
    destruct (peek _ =? 44) eqn:E44; [|destruct (peek _ =? 93) eqn:E93].
    + destruct (tail_shorter_peek _ _ Hs' E44 ltac:(done)) as [Ht' Hlt].
      rewrite adv_1 by (apply Z.eqb_eq in E44; rewrite E44; done). cbn [mbind outcome_bind].
      specialize (IHi _ _ _ _ _ _ _ _ _ _ cap' (tail (skip_whitespace r)) HI2 Ht').
      rewrite zlen_app in IHi. change (zlen [v]) with 1 in IHi. specialize (IHi ltac:(lia) ltac:(lia) ltac:(unfold LONGEST; lia)).
      destruct (scan_items f _); cbn [scan_map]; [|done..].
      eapply obtains_ext; [done| |by rewrite <- app_assoc]. cbn [build_items]. rewrite Hb. cbn [mbind option_bind]. by rewrite Hroom.
    + rewrite adv_1 by (apply Z.eqb_eq in E93; rewrite E93; done). cbn [mbind outcome_bind].
      eapply obtains_ext; [by eapply array_done| |done]. cbn [build_items]. rewrite Hb. cbn [mbind option_bind]. by rewrite Hroom.
    + eapply array_abandon; [done|apply HI2|apply keeps_refl].
  - destruct Hg as (HG2 & Hroom).
    assert (fails B s0 D sr (s ← json_free s2 v; s ← json_free s arr; Ret (s, None))) as Hf by (by eapply array_push_fails).
    destruct (peek _ =? 44); [|destruct (peek _ =? 93); [|done]];
      [destruct (scan_items f _); cbn [scan_map]; [|done..]|];
      (destruct Hf as (s3 & -> & HG3 & Hk3); right; exists s3; split_and!; [done..|]; cbn [build_items]; rewrite Hb; cbn [mbind option_bind]; by rewrite Hroom).
Qed.
End loop_steps.

Section objects.
Context {H : Type} `{KH : KHeap H}.
Implicit Types (s : jstore H) (B C D E X : gset Z).

(** An object at [obj] that holds [js], and the loop over its members. *)
Record object_ok s (obj kp vp : Z) (ms : list (Z * Z)) (js : list (list Z * json)) (V : gset Z) : Prop := {
  oo_node : at_node s obj (N_OBJECT kp vp ms);
  oo_keys : at_raw s kp;
  oo_values : at_raw s vp;
  oo_ne : kp ≠ vp;
  oo_members : members s ms js V;
  oo_obj : obj ∉ V;
  oo_kp : kp ∉ V;
  oo_vp : vp ∉ V;
}.
Definition object_blocks (obj kp vp : Z) (V : gset Z) : gset Z := {[obj]} ∪ ({[kp]} ∪ ({[vp]} ∪ V)).
Record in_object B s0 D sr s (obj kp vp : Z) (ms : list (Z * Z)) (js : list (list Z * json)) (V : gset Z) : Prop := {
  io_start : grows B s0 sr D;
  io_now : grows B s0 s (object_blocks obj kp vp V ∪ D);
  io_new : object_blocks obj kp vp V ## D;
  io_ok : object_ok s obj kp vp ms js V;
  io_keeps : keeps (object_blocks obj kp vp V) sr s;
}.
Lemma object_tree s obj kp vp ms js V : object_ok s obj kp vp ms js V → tree s obj (J_object js) (object_blocks obj kp vp V).
Proof. intros []. by econstructor. Qed.
Lemma object_ok_keeps X s s' obj kp vp ms js V :
  keeps X s s' → X ## object_blocks obj kp vp V → object_ok s obj kp vp ms js V → object_ok s' obj kp vp ms js V.
Proof.
  unfold object_blocks. intros Hk HX [Hn Hr Hr' ? Ht ? ? ?]. split; [| | |done| |done..].
  - eapply keeps_node; [done|set_solver|done].
  - eapply keeps_raw; [done|set_solver|done].
  - eapply keeps_raw; [done|set_solver|done].
  - eapply members_keeps; [done|set_solver|done].
Qed.
Lemma object_at_ok s obj kp vp ms js V : object_ok s obj kp vp ms js V → object_at s obj = Ret (kp, vp, ms).
Proof. intros HO. unfold object_at. by rewrite (at_node_lookup _ _ _ (oo_node _ _ _ _ _ _ _ HO)). Qed.
Lemma object_abandon B s0 D sr s s1 obj kp vp ms js V :
  in_object B s0 D sr s obj kp vp ms js V → grows B s0 s1 (object_blocks obj kp vp V ∪ D) → keeps ∅ s s1 →
  fails B s0 D sr (s ← json_free s1 obj; Ret (s, None)).
Proof.
  intros [Hst Hnow Hnew Hok Hk] HG1 Hk1. eapply abandon; [done|done| |done|].
  - eapply object_tree, (object_ok_keeps ∅); [done|set_solver|done].
  - eapply keeps_mono; [by eapply keeps_trans|set_solver].
Qed.
(** Giving up with a key at hand. *)
Lemma object_abandon_key B s0 D sr s s1 obj kp vp ms js V k kb X :
  in_object B s0 D sr s obj kp vp ms js V → grows B s0 s1 ({[k]} ∪ (object_blocks obj kp vp V ∪ D)) →
  at_str s1 k kb → k ∉ object_blocks obj kp vp V ∪ D → keeps X s s1 → X ## object_blocks obj kp vp V ∪ D →
  fails B s0 D sr (s ← free_str s1 k; s ← json_free s obj; Ret (s, None)).
Proof.
  intros HI HG1 Hs Hk Hk1 HX. destruct (abandon_key _ _ _ _ _ _ HG1 Hs Hk) as (s2 & -> & HG2 & Hk2). cbn [mbind outcome_bind].
  eapply (object_abandon _ _ _ _ s); [done|done|]. eapply (keeps_back _ _ _ _ _ (X ∪ {[k]})); [apply HI|done|by eapply keeps_trans|set_solver].
Qed.
(** The state with the new member. *)
Lemma object_push B s0 D sr s s1 s2 obj kp vp ms js V k kb v j X :
  in_object B s0 D sr s obj kp vp ms js V →
  at_str s1 k kb → k ∉ object_blocks obj kp vp V ∪ D → keeps {[k]} s s1 →
  tree s2 v j X → X ## {[k]} ∪ (object_blocks obj kp vp V ∪ D) → keeps X s1 s2 →
  grows B s0 s2 (X ∪ ({[k]} ∪ (object_blocks obj kp vp V ∪ D))) →
  in_object B s0 D sr (set_node s2 obj (N_OBJECT kp vp (ms ++ [(k, v)]))) obj kp vp (ms ++ [(k, v)]) (js ++ [(kb, j)]) (V ∪ ({[k]} ∪ X)).
Proof.
  intros [Hst Hnow Hnew Hok Hk] Hs HkD Hk1 Ht HX Hk2 HG2.
  assert (keeps ({[k]} ∪ X) s s2) as Hk12 by (by eapply keeps_trans).
  pose proof (object_ok_keeps _ _ _ obj kp vp ms js V Hk12 ltac:(set_solver) Hok) as [Hn Hr Hr' Hne Hms Hobj Hkp Hvp].
  assert (obj ≠ kp ∧ obj ≠ vp) as [Hok1 Hok2].
  { destruct Hn as (_ & Hn & _), Hr as (_ & Hr & _), Hr' as (_ & Hr' & _). split; congruence. }
  assert (obj ≠ k) as Hok3 by (unfold object_blocks in *; set_solver).
  assert (obj ∉ X) as Hok4 by (unfold object_blocks in *; set_solver).
  eapply (keeps_str X) in Hs; [|done|set_solver].
  unfold object_blocks in *. split; [done| |set_solver| |].
  - eapply grows_eq; [apply grows_set_node; [done|set_solver]|set_solver].
  - split; [..|done| |set_solver|set_solver|set_solver].
    + apply set_node_at; apply Hn.
    + eapply keeps_raw; [apply set_node_keeps|set_solver|done].
    + eapply keeps_raw; [apply set_node_keeps|set_solver|done].
    + apply members_snoc.
      * eapply members_keeps; [apply set_node_keeps|set_solver|done].
      * eapply keeps_str; [apply set_node_keeps|set_solver|done].
      * eapply tree_keeps; [apply set_node_keeps|set_solver|done].
      * set_solver.
      * set_solver.
      * set_solver.
  - eapply keeps_mono; [eapply keeps_trans; [by eapply keeps_trans|apply set_node_keeps]|set_solver].
Qed.
Lemma object_done B s0 D sr s obj kp vp ms js V q :
  in_object B s0 D sr s obj kp vp ms js V → obtains B s0 D sr (Some s.(heap)) (J_object js) q (Ret (s, Some (obj, q))).
Proof.
  intros [Hst Hnow Hnew Hok Hk]. left. exists s, obj, (object_blocks obj kp vp V). split_and!; [done|by eapply object_tree|done..].
Qed.

(** As long as there is room, which is for eight members, the blocks stay as they are. *)
Definition members_ok (f : nat) : Prop := ∀ B s0 D sr s obj kp vp ms js V room p,
  in_object B s0 D sr s obj kp vp ms js V → is_cstr p → zlen ms + Z.of_nat room = 8 → zlen p < LONGEST →
  match scan_members f room p with
  | Parsed js' q => obtains B s0 D sr (build_members build s.(heap) js') (J_object (js ++ js')) q (object_loop f s obj 8 p)
  | Rejected => fails B s0 D sr (object_loop f s obj 8 p)
  | _ => True
  end.
Lemma object_loop_S f s obj cap p :
  object_loop (S f) s obj cap p =
  ('(s, r) ← parse_string_raw s (skip_whitespace p);
   match r with
   | None => s ← json_free s obj; Ret (s, None)
   | Some (key, p) =>
       let p := skip_whitespace p in
       if negb (peek p =? 58) then s ← free_str s key; s ← json_free s obj; Ret (s, None) else
       p ← adv p 1;
       '(s, r) ← parse_value f s (skip_whitespace p);
       match r with
       | None => s ← free_str s key; s ← json_free s obj; Ret (s, None)
       | Some (val, p) =>
           '(kp, vp, ms) ← object_at s obj;
           '(s, g) ← grow_members s kp vp (zlen ms) cap;
           match g with
           | None => s ← free_str s key; s ← json_free s val; s ← json_free s obj; Ret (s, None)
           | Some (kp, vp, cap) =>
               ms ← put cap ms (key, val);
               let s := set_node s obj (N_OBJECT kp vp ms) in
               let p := skip_whitespace p in
               if peek p =? 44 then p ← adv p 1; object_loop f s obj cap p else
               if peek p =? 125 then p ← adv p 1; Ret (s, Some (obj, p)) else
               s ← json_free s obj; Ret (s, None)
           end
       end
   end).
Proof. done. Qed.

(** A refusal ends the loop whatever the rest of the text is. *)
Lemma gives_up {A} B s0 D sr (x : scanned A) (g : A → option H) (mk : A → json) o :
  fails B s0 D sr o → (∀ a q, x = Parsed a q → g a = None) →
  match x with Parsed a q => obtains B s0 D sr (g a) (mk a) q o | Rejected => fails B s0 D sr o | _ => True end.
Proof.
  intros Hf Hg. destruct x as [a q| | |]; [|done..]. destruct Hf as (s' & ? & ? & ?). right. exists s'. split_and!; [done..|].
  by eapply Hg.
Qed.
(** What follows the first member. *)
Definition members_rest (f room : nat) (kb : list Z) (p : list Z) : scanned (list (list Z * json)) :=
  match scan_value f (skip_whitespace p) with
  | Parsed j p =>
      match room with
      | O => Unsafe
      | S room =>
          let p := skip_whitespace p in
          if peek p =? 44 then scan_map (cons (kb, j)) (scan_members f room (tail p)) else
          if peek p =? 125 then Parsed [(kb, j)] (tail p) else Rejected
      end
  | Rejected => Rejected
  | Unsafe => Unsafe
  | Spent => Spent
  end.
Lemma members_rest_head f room kb p js q :
  members_rest f room kb p = Parsed js q → ∃ j r js', scan_value f (skip_whitespace p) = Parsed j r ∧ js = (kb, j) :: js'.
Proof.
  unfold members_rest. destruct (scan_value _ _) as [j r| | |]; [|done..]. destruct room; [done|].
  destruct (_ =? 44); [intros (js' & _ & ->)%scan_map_parsed; by eexists _, _, _|].
  destruct (_ =? 125); intros; simplify_eq. by eexists _, _, _.
Qed.

Lemma members_ok_S f : values_ok f → members_ok f → members_ok (S f).
Proof.
  intros IHv IHm B s0 D sr s obj kp vp ms js V room p HI Hp Hroom Hlen.
  destruct (skip_no_longer p Hp) as [Hs Hl]. unfold LONGEST in *.
  pose proof (parse_string_raw_ok _ _ _ s (skip_whitespace p) (io_now _ _ _ _ _ _ _ _ _ _ _ HI) Hs ltac:(lia)) as Hv.
  rewrite object_loop_S. cbn [scan_members]. destruct (scan_string _) as [kb r| | |] eqn:Ek; [| |done..].
  2: { rewrite Hv. eapply object_abandon; [done|apply HI|apply keeps_refl]. }
  destruct (scan_string_shorter _ _ _ Hs Ek) as ([Hr Hrl] & _ & _). destruct (skip_no_longer r Hr) as [Hs' Hl'].
  fold (members_rest f room kb (tail (skip_whitespace r))).
  destruct Hv as [(s1 & k & -> & HkD & Hk & HG1 & Hk1 & Ha)|(s1 & -> & HG1 & Hk1 & Ha)]; cbn [mbind outcome_bind].
  2: { apply gives_up; [by eapply object_abandon|]. intros js' q. destruct (_ =? 58); [|done].
       intros (j & r' & js'' & _ & ->)%members_rest_head. cbn [build_members]. by rewrite Ha. }
  destruct (peek _ =? 58) eqn:E58; cbn [negb].
  2: { eapply (object_abandon_key _ _ _ _ s); [done..|]. set_solver. }
  rewrite adv_1 by (apply Z.eqb_eq in E58; rewrite E58; done). cbn [mbind outcome_bind].
  destruct (tail_shorter_peek _ _ Hs' E58 ltac:(done)) as [Ht ?], (skip_no_longer _ Ht) as [Hs2 ?].
  pose proof (IHv _ _ _ s1 _ HG1 Hs2 ltac:(unfold LONGEST; lia)) as Hv.
  destruct (scan_value f _) as [j r2| | |] eqn:Ev; [| |by unfold members_rest; rewrite Ev..].
  2: { unfold members_rest. rewrite Ev. destruct Hv as (s2 & -> & HG2 & Hk2). eapply keeps_str in Hk; [|done|set_solver].
       eapply (object_abandon_key _ _ _ _ s); [done..|by eapply keeps_trans|set_solver]. }
  destruct Hv as [(s2 & v & X & -> & Htr & HX & HG2 & Hk2 & Hb)|(s2 & -> & HG2 & Hk2 & Hb)]; cbn [mbind outcome_bind].
  2: { apply gives_up.
       - eapply keeps_str in Hk; [|done|set_solver].
         eapply (object_abandon_key _ _ _ _ s); [done..|by eapply keeps_trans|set_solver].
       - intros js' q (j' & r' & js'' & Ev' & ->)%members_rest_head. rewrite Ev in Ev'. simplify_eq.
         cbn [build_members]. rewrite Ha. cbn [mbind option_bind]. by rewrite Hb. }
  destruct (proj1 (scan_shorter f) _ _ _ Hs2 Ev) as [Hr2 Hrl2]. destruct (skip_no_longer r2 Hr2) as [Hs3 Hl3].
  assert (object_ok s2 obj kp vp ms js V) as Hok2.
  { apply (object_ok_keeps ({[k]} ∪ X) s); [by eapply keeps_trans|set_solver|apply HI]. }
  rewrite (object_at_ok _ _ _ _ _ _ _ Hok2). cbn [mbind outcome_bind]. unfold members_rest. rewrite Ev.
  destruct room as [|room]; [done|]. unfold grow_members. replace (zlen ms >=? 8) with false by (symmetry; rewrite Z.geb_leb; apply Z.leb_gt; lia). cbn [mbind outcome_bind].
  rewrite put_ok by lia. cbn [mbind outcome_bind].
  pose proof (object_push _ _ _ _ _ _ _ _ _ _ _ _ _ _ _ _ _ _ HI Hk HkD Hk1 Htr HX Hk2 HG2) as HI2.
  destruct (peek (skip_whitespace r2) =? 44) eqn:E44; [|destruct (peek (skip_whitespace r2) =? 125) eqn:E125].
  - destruct (tail_shorter_peek _ _ Hs3 E44 ltac:(done)) as [Ht3 Hl4].
    rewrite adv_1 by (apply Z.eqb_eq in E44; rewrite E44; done). cbn [mbind outcome_bind].
    specialize (IHm _ _ _ _ _ _ _ _ _ _ _ room _ HI2 Ht3). rewrite zlen_app in IHm. change (zlen [(k, v)]) with 1 in IHm.
    specialize (IHm ltac:(lia) ltac:(unfold LONGEST; lia)). destruct (scan_members f room _); cbn [scan_map]; [|done..].
    eapply obtains_ext; [done| |by rewrite <- app_assoc]. cbn [build_members]. rewrite Ha. cbn [mbind option_bind]. by rewrite Hb.
  - rewrite adv_1 by (apply Z.eqb_eq in E125; rewrite E125; done). cbn [mbind outcome_bind].
    eapply obtains_ext; [by eapply object_done| |done]. cbn [build_members]. rewrite Ha. cbn [mbind option_bind]. by rewrite Hb.
  - eapply object_abandon; [done|apply HI2|apply keeps_refl].
Qed.
End objects.

(** *** The whole parser *)

Section whole.
Context {H : Type} `{KH : KHeap H}.
Implicit Types (s : jstore H) (B C D E X : gset Z).

Definition scan_array (f : nat) (p : list Z) : scanned json :=
  if peek p =? 93 then Parsed (J_array []) (tail p) else scan_map J_array (scan_items f p).
Definition scan_object (f : nat) (p : list Z) : scanned json :=
  if peek p =? 125 then Parsed (J_object []) (tail p) else scan_map J_object (scan_members f 8 p).

Lemma settles_none B s0 D s x o (P : json → Prop) :
  fails B s0 D s o → (∀ j q, x = Parsed j q → P j) → (∀ j, P j → build s.(heap) j = None) → settles B s0 D s x o.
Proof. intros Hf Hx HP. unfold settles. apply (gives_up _ _ _ _ _ (build s.(heap)) id); [done|]. intros. eapply HP, Hx. done. Qed.

Lemma parse_array_ok f B s0 D s p :
  items_ok f → grows B s0 s D → is_cstr p → (peek p =? 91) = true → zlen p < LONGEST →
  settles B s0 D s (scan_array f (skip_whitespace (tail p))) (parse_array (array_loop f) s p).
Proof.
  intros IH HG Hp E91 Hlen. unfold parse_array. destruct (tail_shorter_peek _ _ Hp E91 ltac:(done)) as [Ht ?], (skip_no_longer _ Ht) as [Hs ?].
  rewrite adv_1 by (apply Z.eqb_eq in E91; rewrite E91; done). cbn [mbind outcome_bind].
  set (p1 := skip_whitespace (tail p)) in *.
  assert (∀ j q, scan_array f p1 = Parsed j q → ∃ js, j = J_array js) as Hshape.
  { unfold scan_array. intros j q. destruct (_ =? 93); [intros; simplify_eq; by eexists|]. intros (js & _ & ->)%scan_map_parsed. by eexists. }
  destruct (alloc_value_ok _ _ _ _ (N_ARRAY 0 []) HG) as (s1 & arr & -> & Ha). cbn [mbind outcome_bind].
  destruct Ha as [(-> & HG1 & Hk1 & Ha)|(Harr & HaB & HaD & Hn1 & HG1 & Hk1 & Ha)].
  { apply settles_none with (P := λ j, ∃ js, j = J_array js); [by exists s1|done|]. intros j [js ->]. cbn [build]. by rewrite Ha. }
  rewrite (proj2 (Z.eqb_neq arr 0)) by lia.
  destruct (j_kmalloc_ok _ _ _ _ (8 * 8) HG1 ltac:(lia)) as (s2 & ap & -> & Hn & Hst & Hp2). cbn [mbind outcome_bind].
  destruct Hp2 as [(-> & HG2 & Hg)|(Hap & HpB & HpD & Hraw & HG2 & Hg)].
  - cbn [Z.eqb]. pose proof (grows_set_node _ _ _ _ arr (N_ARRAY 0 []) HG2 ltac:(set_solver)) as HG3.
    destruct (free_node_ok _ _ _ _ arr (N_ARRAY 0 []) HG3 ltac:(set_solver)) as (s4 & -> & HG4 & Hk4).
    { apply set_node_at; [done|]. rewrite Hst. apply Hn1. }
    cbn [mbind outcome_bind]. apply settles_none with (P := λ j, ∃ js, j = J_array js); [|done|].
    + apply (fails_intro _ _ _ _ _ {[arr]}); [done|eapply grows_eq; [done|set_solver]| |set_solver].
      eapply keeps_mono; [eapply keeps_trans; [eapply keeps_trans; [exact Hk1|by apply (keeps_same ∅ s1 s2)]|eapply keeps_trans; [apply set_node_keeps|done]]|set_solver].
    + intros j [js ->]. cbn [build]. rewrite Ha. cbn [mbind option_bind]. by rewrite Hg.
  - rewrite (proj2 (Z.eqb_neq ap 0)) by lia.
    assert (in_array B s0 D s (set_node s2 arr (N_ARRAY ap [])) arr ap [] [] ∅) as HI.
    { assert (keeps ∅ s1 s2) as Hk2 by (by apply keeps_same). split; [done| |unfold array_blocks; set_solver| |].
      - eapply grows_eq; [apply grows_set_node; [done|set_solver]|unfold array_blocks; set_solver].
      - split; [|eapply keeps_raw; [apply set_node_keeps|set_solver|done]|constructor|set_solver..].
        apply set_node_at; [done|]. rewrite Hst. apply Hn1.
      - eapply keeps_mono; [eapply keeps_trans; [by eapply keeps_trans|apply set_node_keeps]|unfold array_blocks; set_solver]. }
    assert (∀ js h, build_items build s2.(heap) ap 0 8 js = h → build s.(heap) (J_array js) = h) as Hb.
    { intros js h <-. cbn [build]. rewrite Ha. cbn [mbind option_bind]. by rewrite Hg. }
    unfold scan_array. destruct (peek p1 =? 93) eqn:E93.
    + rewrite adv_1 by (apply Z.eqb_eq in E93; rewrite E93; done). cbn [mbind outcome_bind settles].
      eapply obtains_ext; [by eapply array_done| |done]. symmetry. by apply Hb.
    + specialize (IH _ _ _ _ _ _ _ _ _ _ 8 p1 HI Hs ltac:(done) ltac:(done) ltac:(unfold LONGEST, zlen in *; cbn [length]; lia)).
      destruct (scan_items f p1); cbn [scan_map settles]; [|done..].
      eapply obtains_ext; [done| |done]. symmetry. by apply Hb.
Qed.

(** The block of a request that may have been refused. *)
Definition maybe (p : Z) : gset Z := if decide (p = 0) then ∅ else {[p]}.
Lemma malloc_maybe B s0 s D n : grows B s0 s D → 0 ≤ n < 2 ^ 64 →
  ∃ s' p, j_kmalloc s n = Ret (s', p) ∧ keeps ∅ s s' ∧ maybe p ## D ∧ (p = 0 ∨ at_raw s' p) ∧ grows B s0 s' (maybe p ∪ D) ∧
    granted (kmalloc s.(heap) n) = if decide (p = 0) then None else Some (s'.(heap), p).
Proof.
  intros HG Hn. destruct (j_kmalloc_ok _ _ _ _ n HG Hn) as (s' & p & -> & Hnd & Hst & Hp). exists s', p. split; [done|].
  split; [by apply keeps_same|]. unfold maybe. destruct Hp as [(-> & HG' & ->)|(Hp & HB & HD & Hraw & HG' & ->)].
  - rewrite !decide_True by done. split_and!; [set_solver|by left|by rewrite union_empty_l_L|done].
  - rewrite !decide_False by lia. split_and!; [set_solver|by right|done..].
Qed.
Lemma free_maybe B s0 s D p : grows B s0 s (maybe p ∪ D) → maybe p ## D → (p = 0 ∨ at_raw s p) →
  ∃ s', j_kfree s p = Ret s' ∧ grows B s0 s' D ∧ keeps ∅ s s'.
Proof.
  unfold maybe. intros HG HD [->|Hraw].
  - rewrite decide_True in HG by done. exists s. rewrite j_kfree_null, union_empty_l_L in *. split_and!; [done|done|apply keeps_refl].
  - assert (p ≠ 0) by (destruct Hraw; lia). rewrite decide_False in HG, HD by done.
    destruct (free_raw_ok _ _ _ _ p HG ltac:(set_solver) Hraw) as (s' & E & HG' & Hk). exists s'. split_and!; [done| |done].
    eapply grows_eq; [done|set_solver].
Qed.
Lemma json_free_empty s obj kp vp :
  at_node s obj (N_OBJECT kp vp []) → json_free s obj = (s ← j_kfree s kp; s ← j_kfree s vp; free_node s obj).
Proof.
  intros Hn. unfold json_free. rewrite free_from_S by apply Hn. rewrite (at_node_lookup _ _ _ Hn). cbn [mbind outcome_bind free_keys_and].
  by destruct (j_kfree s kp).
Qed.

Lemma parse_object_ok f B s0 D s p :
  members_ok f → grows B s0 s D → is_cstr p → (peek p =? 123) = true → zlen p < LONGEST →
  settles B s0 D s (scan_object f (skip_whitespace (tail p))) (parse_object (object_loop f) s p).
Proof.
  intros IH HG Hp E Hlen. unfold parse_object. destruct (tail_shorter_peek _ _ Hp E ltac:(done)) as [Ht ?], (skip_no_longer _ Ht) as [Hs ?].
  rewrite adv_1 by (apply Z.eqb_eq in E; rewrite E; done). cbn [mbind outcome_bind].
  set (p1 := skip_whitespace (tail p)) in *.
  assert (∀ j q, scan_object f p1 = Parsed j q → ∃ js, j = J_object js) as Hshape.
  { unfold scan_object. intros j q. destruct (_ =? 125); [intros; simplify_eq; by eexists|]. intros (js & _ & ->)%scan_map_parsed. by eexists. }
  destruct (alloc_value_ok _ _ _ _ (N_OBJECT 0 0 []) HG) as (s1 & obj & -> & Ha). cbn [mbind outcome_bind].
  destruct Ha as [(-> & HG1 & Hk1 & Ha)|(Hobj & HoB & HoD & Hn1 & HG1 & Hk1 & Ha)].
  { apply settles_none with (P := λ j, ∃ js, j = J_object js); [by exists s1|done|]. intros j [js ->]. cbn [build]. by rewrite Ha. }
  rewrite (proj2 (Z.eqb_neq obj 0)) by lia.
  destruct (malloc_maybe _ _ _ _ (8 * 8) HG1 ltac:(lia)) as (s2 & kp & -> & Hk2 & HkD & Hkraw & HG2 & Hg2). cbn [mbind outcome_bind].
  destruct (malloc_maybe _ _ _ _ (8 * 8) HG2 ltac:(lia)) as (s3 & vp & -> & Hk3 & HvD & Hvraw & HG3 & Hg3). cbn [mbind outcome_bind].
  assert (at_node (set_node s3 obj (N_OBJECT kp vp [])) obj (N_OBJECT kp vp [])) as Hn4.
  { apply set_node_at; [done|]. cbn. destruct (Hk3 obj ltac:(set_solver)) as [_ ->], (Hk2 obj ltac:(set_solver)) as [_ ->]. apply Hn1. }
  assert (kp = 0 ∨ at_raw (set_node s3 obj (N_OBJECT kp vp [])) kp) as Hkraw4.
  { destruct Hkraw as [|Hraw]; [by left|right]. eapply keeps_raw; [apply set_node_keeps| |eapply keeps_raw; [done|set_solver|done]].
    unfold maybe in HkD. rewrite decide_False in HkD by (destruct Hraw; lia). set_solver. }
  assert (vp = 0 ∨ at_raw (set_node s3 obj (N_OBJECT kp vp [])) vp) as Hvraw4.
  { destruct Hvraw as [|Hraw]; [by left|right]. eapply keeps_raw; [apply set_node_keeps| |done].
    unfold maybe in HvD. rewrite (decide_False (P := vp = 0)) in HvD by (destruct Hraw; lia). set_solver. }
  pose proof (grows_set_node _ _ _ _ obj (N_OBJECT kp vp []) HG3 ltac:(set_solver)) as HG4.
  assert (keeps {[obj]} s (set_node s3 obj (N_OBJECT kp vp []))) as Hk4.
  { eapply keeps_mono; [eapply keeps_trans; [eapply keeps_trans; [exact Hk1|exact Hk2]|eapply keeps_trans; [exact Hk3|apply set_node_keeps]]|set_solver]. }
  destruct ((kp =? 0) || (vp =? 0)) eqn:E0.
  - apply settles_none with (P := λ j, ∃ js, j = J_object js); [|done|].
    + rewrite (json_free_empty _ _ _ _ Hn4).
      replace (maybe vp ∪ (maybe kp ∪ ({[obj]} ∪ D))) with (maybe kp ∪ (maybe vp ∪ ({[obj]} ∪ D))) in HG4 by set_solver.
      destruct (free_maybe B s0 _ (maybe vp ∪ ({[obj]} ∪ D)) kp HG4 ltac:(set_solver) Hkraw4) as (s5 & -> & HG5 & Hk5).
      cbn [mbind outcome_bind].
      destruct (free_maybe B s0 s5 ({[obj]} ∪ D) vp HG5 ltac:(set_solver)) as (s6 & -> & HG6 & Hk6).
      { destruct Hvraw4; [by left|right]. eapply keeps_raw; [done|set_solver|done]. }
      cbn [mbind outcome_bind]. eapply keeps_node in Hn4; [|done|set_solver]. eapply keeps_node in Hn4; [|done|set_solver].
      destruct (free_node_ok _ _ _ _ obj _ HG6 ltac:(set_solver) Hn4) as (s7 & -> & HG7 & Hk7). cbn [mbind outcome_bind].
      apply (fails_intro _ _ _ _ _ {[obj]}); [done|eapply grows_eq; [done|set_solver]| |set_solver].
      eapply keeps_mono; [eapply keeps_trans; [eapply keeps_trans; [exact Hk4|exact Hk5]|eapply keeps_trans; [exact Hk6|exact Hk7]]|set_solver].
    + intros j [js ->]. cbn [build]. rewrite Ha. cbn [mbind option_bind]. rewrite Hg2. destruct (decide (kp = 0)) as [|Hkp]; [done|]. cbn [mbind option_bind].
      rewrite Hg3. rewrite decide_True; [done|]. apply orb_true_iff in E0 as [?%Z.eqb_eq|?%Z.eqb_eq]; [done|done].
  - apply orb_false_iff in E0 as [Hkp%Z.eqb_neq Hvp%Z.eqb_neq]. unfold maybe in *.
    rewrite (decide_False (P := kp = 0)) in * by done. rewrite (decide_False (P := vp = 0)) in * by done.
    rewrite decide_False in Hg2 by done. rewrite decide_False in Hg3 by done.
    destruct Hkraw4 as [|Hkraw4]; [done|]. destruct Hvraw4 as [|Hvraw4]; [done|].
    assert (in_object B s0 D s (set_node s3 obj (N_OBJECT kp vp [])) obj kp vp [] [] ∅) as HI.
    { unfold object_blocks. split; unfold object_blocks; [done|eapply grows_eq; [done|set_solver]|set_solver| |].
      - split; [done|done|done|set_solver|constructor|set_solver|set_solver|set_solver].
      - eapply keeps_mono; [exact Hk4|set_solver]. }
    assert (∀ js h, build_members build s3.(heap) js = h → build s.(heap) (J_object js) = h) as Hb.
    { intros js h <-. cbn [build]. rewrite Ha. cbn [mbind option_bind]. rewrite Hg2. cbn [mbind option_bind]. by rewrite Hg3. }
    unfold scan_object. destruct (peek p1 =? 125) eqn:E125.
    + rewrite adv_1 by (apply Z.eqb_eq in E125; rewrite E125; done). cbn [mbind outcome_bind settles].
      eapply obtains_ext; [by eapply object_done| |done]. symmetry. by apply Hb.
    + specialize (IH _ _ _ _ _ _ _ _ _ _ _ 8%nat p1 HI Hs ltac:(done) ltac:(unfold LONGEST in *; lia)).
      destruct (scan_members f 8 p1); cbn [scan_map settles]; [|done..].
      eapply obtains_ext; [done| |done]. symmetry. by apply Hb.
Qed.
End whole.

(** *** The contract *)

Section contract.
Context {H : Type} `{KH : KHeap H}.
Implicit Types (s : jstore H) (B C D E X : gset Z).

Lemma values_ok_S f : items_ok f → members_ok f → values_ok (S f).
Proof.
  intros IHi IHm B s0 D s p HG Hp Hlen. cbn [scan_value parse_value]. destruct (skip_no_longer p Hp) as [Hs Hl].
  generalize dependent (skip_whitespace p). intros p' Hs Hl. unfold LONGEST in *.
  destruct (peek p' =? QUOTE). { apply parse_string_ok; [done|done|lia]. }
  destruct (peek p' =? 123) eqn:E123. { apply parse_object_ok; [done..|unfold LONGEST; lia]. }
  destruct (peek p' =? 91) eqn:E91. { apply parse_array_ok; [done..|unfold LONGEST; lia]. }
  destruct (starts p' (bytes "true")). { cbn [settles]; apply leaf_ok; [done|by constructor|done]. }
  destruct (starts p' (bytes "false")). { cbn [settles]; apply leaf_ok; [done|by constructor|done]. }
  destruct (starts p' (bytes "null")). { cbn [settles]; apply leaf_ok; [done|by constructor|done]. }
  destruct (_ || _); [by apply parse_number_ok|]. exists s. split_and!; [done..|apply keeps_refl].
Qed.
Lemma parser_ok f : values_ok f ∧ items_ok f ∧ members_ok f.
Proof.
  induction f as [|f (IHv & IHi & IHm)].
  - unfold values_ok, items_ok, members_ok. split_and!; by intros.
  - split_and!; [by apply values_ok_S|by apply items_ok_S|by apply members_ok_S].
Qed.

(** The blocks of a store, and a store that is as it was. *)
Definition owns s B : Prop := kh_rep s.(heap) B ∧ dom s.(nodes) ⊆ B ∧ dom s.(strs) ⊆ B.
Definition unchanged s s' B : Prop := kh_rep s'.(heap) B ∧ s'.(nodes) = s.(nodes) ∧ s'.(strs) = s.(strs).
Lemma owns_grows s B : owns s B → grows B s s ∅.
Proof.
  intros (Hh & Hn & Hs). split; [by rewrite union_empty_r_L|set_solver| |apply keeps_refl].
  intros a Ha. split; apply not_elem_of_dom; set_solver.
Qed.
Lemma grows_unchanged B s s' : grows B s s' ∅ → unchanged s s' B.
Proof.
  intros [Hh _ _ Hk]. rewrite union_empty_r_L in Hh. split; [done|]. split; apply map_eq; intros a; apply (Hk a); set_solver.
Qed.
Lemma scan_settles s B t :
  owns s B → is_cstr t → zlen t < LONGEST → settles B s ∅ s (scan t) (parse_value (2 * length t + 2) s t).
Proof. intros Ho Ht Hl. apply parser_ok; [by apply owns_grows|done|done]. Qed.

(** What becomes of a text that holds [j]. *)
Definition reads B s t j : Prop :=
  match build s.(heap) j with
  | Some h => ∃ s' v D,
      json_parse s (Some t) = Ret (s', Some v) ∧ tree s' v j D ∧ s'.(heap) = h ∧ kh_rep h (D ∪ B) ∧ D ## B ∧ keeps D s s' ∧
      ∃ s'', json_free s' v = Ret s'' ∧ unchanged s s'' B
  | None => ∃ s', json_parse s (Some t) = Ret (s', None) ∧ unchanged s s' B
  end.
Lemma settles_reads s B t j q :
  owns s B → settles B s ∅ s (Parsed j q) (parse_value (2 * length t + 2) s t) → reads B s t j.
Proof.
  intros Ho [(s' & v & X & E & Ht & _ & HG & Hk & Hb)|(s' & E & HG & Hk & Hb)]; unfold reads; rewrite Hb; unfold json_parse; rewrite E.
  - exists s', v, X. destruct (json_free_ok _ _ _ X _ v j Ht HG ltac:(set_solver)) as (s'' & E2 & HG2 & _).
    rewrite union_empty_r_L in *. split; [done|]. split; [done|]. split; [done|]. split; [rewrite union_comm_L; apply HG|]. split; [apply HG|].
    split; [done|]. exists s''. split; [done|]. apply grows_unchanged. eapply grows_eq; [done|set_solver].
  - exists s'. split; [done|]. by apply grows_unchanged.
Qed.

(** C11: for every text and every state of the heap, [json_parse] does what the grammar
    [scan] says. A text that starts with a value yields a tree of that value in new blocks,
    if the heap grants the requests for it, and null with nothing left behind if it does
    not; any other text yields null with nothing left behind. [json_free] gives exactly the
    blocks of the tree back. The exceptions are the texts that [scan] calls [Unsafe]. *)
Theorem json_parse_refines s B t :
  owns s B → is_cstr t → zlen t < LONGEST →
  match scan t with
  | Parsed j _ => reads B s t j
  | Rejected => ∃ s', json_parse s (Some t) = Ret (s', None) ∧ unchanged s s' B
  | Unsafe => True
  | Spent => False
  end.
Proof.
  intros Ho Ht Hl. pose proof (scan_settles s B t Ho Ht Hl) as Hs. pose proof (scan_total t Ht) as Htot.
  destruct (scan t) as [j q| | |]; [by eapply settles_reads| |done|done].
  destruct Hs as (s' & E & HG & Hk). exists s'. unfold json_parse. rewrite E. split; [done|by apply grows_unchanged].
Qed.
End contract.

(** *** Access *)

Section access.
Context {H : Type} `{KH : KHeap H}.
Implicit Types (s : jstore H).

(** The first member of the name [key]. *)
Fixpoint first_member (ms : list (list Z * json)) (key : list Z) : option json :=
  match ms with [] => None | (k, j) :: ms => if bool_decide (k = key) then Some j else first_member ms key end.
Definition member (j : json) (key : list Z) : option json := match j with J_object ms => first_member ms key | _ => None end.

Lemma find_key_ok s ms js D key :
  members s ms js D →
  match first_member js key with
  | Some j => ∃ v D', find_key s ms key = Ret (Some v) ∧ tree s v j D' ∧ D' ⊆ D
  | None => find_key s ms key = Ret None
  end.
Proof.
  induction 1 as [|k v ms kb j js D E Hk Ht Hms IH ? ? ?]; [done|]. cbn [first_member find_key].
  destruct Hk as (_ & -> & _ & Hkb). rewrite cstr_app by done. destruct (bool_decide (kb = key)); [exists v, D; split_and!; [done..|set_solver]|].
  destruct (first_member js key); [|done]. destruct IH as (v' & D' & ? & ? & ?). exists v', D'. split_and!; [done..|set_solver].
Qed.
Lemma json_tree_node s v j D : tree s v j D → ∃ n, node_at s v = Ret n ∧
  match j with
  | J_null => n = N_NULL
  | J_bool b => n = N_BOOL b
  | J_number x => n = N_NUMBER x
  | J_string bs => ∃ b, n = N_STRING b ∧ at_str s b bs
  | J_array js => ∃ ap vs V, n = N_ARRAY ap vs ∧ trees s vs js V
  | J_object js => ∃ kp vp ms V, n = N_OBJECT kp vp ms ∧ members s ms js V ∧ V ⊆ D
  end.
Proof.
  destruct 1; (eexists; split; [by apply at_node_lookup|]); try done; repeat eexists; try done; try set_solver; by match goal with Hs : at_str _ _ _ |- _ => apply Hs end.
Qed.

(** [json_get] finds the first member of a name, and nothing in what is no object;
    the typed accessors add the check of the type and their defaults. *)
Theorem json_get_first s o j D key :
  tree s o j D →
  match member j key with
  | Some j' => ∃ v D', json_get s (Some o) (Some key) = Ret (Some v) ∧ tree s v j' D' ∧ D' ⊆ D
  | None => json_get s (Some o) (Some key) = Ret None
  end ∧
  match member j key with
  | Some (J_string bs) => ∃ b, json_get_string s (Some o) (Some key) = Ret (Some b) ∧ s.(strs) !! b = Some (bs ++ [0])
  | _ => json_get_string s (Some o) (Some key) = Ret None
  end ∧
  json_get_number s (Some o) (Some key) = Ret (match member j key with Some (J_number x) => x | _ => d_of 0 end) ∧
  json_get_bool s (Some o) (Some key) = Ret (match member j key with Some (J_bool b) => b | _ => false end).
Proof.
  intros Ht. destruct (json_tree_node _ _ _ _ Ht) as (n & Hn & Hj).
  assert (match member j key with
    | Some j' => ∃ v D', json_get s (Some o) (Some key) = Ret (Some v) ∧ tree s v j' D' ∧ D' ⊆ D
    | None => json_get s (Some o) (Some key) = Ret None
    end) as Hg.
  { unfold json_get. rewrite Hn. cbn [mbind outcome_bind]. destruct j as [| | | | |js]; cbn [member]; simplify_eq; try done.
    - by destruct Hj as (b & -> & _).
    - by destruct Hj as (ap & vs & V & -> & _).
    - destruct Hj as (kp & vp & ms & V & -> & Hms & HV). pose proof (find_key_ok _ _ _ _ key Hms) as Hf.
      destruct (first_member js key); [|done]. destruct Hf as (v & D' & ? & ? & ?). exists v, D'. split_and!; [done..|set_solver]. }
  split; [done|]. unfold json_get_string, json_get_number, json_get_bool, json_get_node.
  destruct (member j key) as [j'|]; [|by rewrite Hg]. destruct Hg as (v & D' & -> & Ht' & _). cbn [mbind outcome_bind].
  destruct (json_tree_node _ _ _ _ Ht') as (n' & -> & Hj'). cbn [mbind outcome_bind].
  destruct j'; try (by destruct Hj' as (? & ? & ? & -> & _)); try (by destruct Hj' as (? & ? & ? & ? & -> & _)); simplify_eq; try done.
  destruct Hj' as (b & -> & Hb). split; [|done]. exists b. split; [done|apply Hb].
Qed.
End access.

Section claims.
Context {H : Type} `{KH : KHeap H}.
Implicit Types (s : jstore H) (B C D E X : gset Z).

(** C31: a printed document is read back as its value: objects of at most eight members
    and arrays of any length, nested to any depth, with numbers that have a sign and digits
    on both sides of the point, and any characters in strings. *)
Theorem json_print_parse s B d :
  owns s B → doc_ok d = true → zlen (show d) < LONGEST → reads B s (show d) (value_of d).
Proof.
  intros Ho Hd Hl. pose proof (scan_settles s B (show d) Ho (show_cstr d Hd) Hl) as Hs.
  rewrite (scan_printed d Hd) in Hs. by eapply settles_reads.
Qed.

(** *** Defects *)

Lemma string_len_open bs f len :
  Forall (λ c, 0 < c ∧ c ≠ QUOTE ∧ c ≠ BACKSLASH) bs → (length bs < f)%nat → string_len f (bs ++ [BACKSLASH]) len = Fault.
Proof.
  revert f len. induction bs as [|c bs IH]; intros [|f] len Hb Hf; cbn in Hf; try lia; [done|].
  apply list.Forall_cons in Hb as [(Hc & Hq & Hbs) Hb]. rewrite string_len_step. cbn [app peek hd].
  rewrite (proj2 (Z.eqb_neq c QUOTE)), (proj2 (Z.eqb_neq c BACKSLASH)) by done. unfold nonzero. rewrite (proj2 (Z.eqb_neq c 0)) by lia.
  cbn [negb andb]. rewrite adv_cons, adv_0. apply IH; [done|lia].
Qed.
(** C34: a string that ends in a backslash makes the reader step over the terminator of
    the text. *)
Theorem json_backslash_overread s bs :
  Forall (λ c, 0 < c ∧ c ≠ QUOTE ∧ c ≠ BACKSLASH) bs → json_parse s (Some (QUOTE :: bs ++ [BACKSLASH])) = Fault.
Proof.
  intros Hb. unfold json_parse. replace (2 * length (QUOTE :: bs ++ [BACKSLASH]) + 2)%nat with (S (2 * length (QUOTE :: bs ++ [BACKSLASH]) + 1)) by lia. cbn [parse_value].
  rewrite skip_char by done. cbn [peek hd]. change (QUOTE =? QUOTE) with true. cbn iota.
  unfold parse_string, parse_string_raw. cbn [peek hd]. change (negb (QUOTE =? QUOTE)) with false. cbn iota.
  rewrite adv_cons, adv_0. cbn [mbind outcome_bind]. rewrite string_len_open; [done..|]. rewrite length_app. cbn. lia.
Qed.
(** An exponent beyond the range of [int] is converted all the same, which C leaves
    undefined. *)
Theorem json_exponent_undefined s : json_parse s (Some (bytes "1e2147483648")) = Fault.
Proof. vm_compute. reflexivity. Qed.

(** Four hexadecimal digits follow [\u], of which the reader takes three: the last one
    stays in the string. *)
Theorem json_unicode_digit s B a b c d :
  owns s B → Forall (λ x, 0 < x < 256) [a; b; c; d] → d ≠ QUOTE → d ≠ BACKSLASH →
  reads B s [QUOTE; BACKSLASH; LC_U; a; b; c; d; QUOTE] (J_string [63; d]).
Proof.
  intros Ho Hx Hq Hb. assert (scan [QUOTE; BACKSLASH; LC_U; a; b; c; d; QUOTE] = Parsed (J_string [63; d]) []) as E.
  { unfold scan. cbn. rewrite (proj2 (Z.eqb_neq d QUOTE)), (proj2 (Z.eqb_neq d BACKSLASH)) by done. done. }
  eapply settles_reads; [done|]. rewrite <- E. apply scan_settles; [done| |done].
  repeat (apply list.Forall_cons in Hx as [? Hx]). repeat constructor; (done || lia).
Qed.

(** The growth of an object forgets the first new block if there is none for the
    second: the object keeps the old one, which is no longer its own, and [json_free] gives
    it back a second time. *)
Lemma object_growth_stale B s0 s D kp vp count cap s1 nk s2 :
  grows B s0 s D → kp ∈ D → at_raw s kp → 0 < cap < 2 ^ 58 → cap ≤ count →
  j_krealloc s kp (cap * 2 * 8) = Ret (s1, nk) → nk ≠ 0 → nk ≠ kp →
  j_krealloc s1 vp (cap * 2 * 8) = Ret (s2, 0) →
  grow_members s kp vp count cap = Ret (s2, None) ∧ ∃ D', grows B s0 s1 D' ∧ kp ∉ D' ∧ nk ∈ D'.
Proof.
  intros HG Hkp Hraw Hcap Hcount E1 Hnk Hne E2. unfold grow_members. replace (count >=? cap) with true by (symmetry; rewrite Z.geb_leb; apply Z.leb_le; lia).
  assert (u64 (u64 (cap * 2) * 8) = cap * 2 * 8) as -> by (unfold wrap; rewrite !(Z.mod_small (cap * 2)) by lia; by rewrite Z.mod_small by lia).
  rewrite E1. cbn [mbind outcome_bind]. rewrite E2. cbn [mbind outcome_bind]. split; [by rewrite orb_true_r|].
  destruct (j_krealloc_ok _ _ _ _ kp (cap * 2 * 8) HG Hkp Hraw ltac:(lia)) as (s1' & q & E & _ & Hq).
  rewrite E1 in E. injection E as <- <-. destruct Hq as [(? & _)|(_ & _ & _ & HG1 & _)]; [done|]. eexists. split; [done|]. set_solver.
Qed.
End claims.

(** ** Witnesses, with the heap that boot sets up *)

Definition demo_store : jstore (Slab.heap pmm_t) := {| heap := demo_heap; nodes := ∅; strs := ∅ |}.
Lemma demo_store_owns : owns demo_store ∅.
Proof. split; [exact demo_heap_rep|]. by split. Qed.
(** An array of a number, a truth value and an object. *)
Definition demo_text : list Z :=
  bytes "[1, true, {" ++ show_string (bytes "n") ++ bytes ": " ++ show_string (bytes "x") ++ bytes "}]".
Definition demo_json : json :=
  J_array [J_number (d_of 1); J_bool true; J_object [(bytes "n", J_string (bytes "x"))]].
(** The heap grants what the value needs. *)
Definition served (j : json) : bool := match build demo_heap j with Some _ => true | None => false end.

Lemma json_parse_refines_witness :
  reads ∅ demo_store demo_text demo_json ∧ served demo_json = true.
Proof.
  split; [|vm_compute; reflexivity]. assert (scan demo_text = Parsed demo_json []) as E by (vm_compute; reflexivity).
  pose proof (json_parse_refines demo_store ∅ demo_text demo_store_owns) as Hw. rewrite E in Hw.
  apply Hw; [|done]. by repeat constructor.
Defined.
Definition demo_doc : doc :=
  D_object [(bytes "a", D_array [D_null; D_number true [4; 2] (Some [5])]); (bytes "b", D_string [QUOTE; BACKSLASH; 10])].
Lemma json_print_parse_witness :
  reads ∅ demo_store (show demo_doc) (value_of demo_doc) ∧ served (value_of demo_doc) = true.
Proof. split; [|vm_compute; reflexivity]. apply (json_print_parse demo_store ∅ demo_doc); [exact demo_store_owns|vm_compute; reflexivity|done]. Defined.
(** Two members of one name. *)
Definition demo_members : jstore (Slab.heap pmm_t) :=
  {| heap := demo_heap; nodes := {[8 := N_OBJECT 16 24 [(32, 40); (48, 56)]; 40 := N_BOOL true; 56 := N_NUMBER (d_of 7)]};
     strs := {[32 := bytes "k" ++ [0]; 48 := bytes "k" ++ [0]]} |}.
Lemma json_get_first_witness :
  json_get_bool demo_members (Some 8) (Some (bytes "k")) = Ret true ∧ json_get_number demo_members (Some 8) (Some (bytes "k")) = Ret (d_of 0).
Proof.
  assert (tree demo_members 8 (J_object [(bytes "k", J_bool true); (bytes "k", J_number (d_of 7))])
    ({[8]} ∪ ({[16]} ∪ ({[24]} ∪ ({[32]} ∪ ({[40]} ∪ ({[48]} ∪ ({[56]} ∪ ∅)))))))) as Ht.
  { eapply (tree_object _ 8 16 24 [(32, 40); (48, 56)]); try done; try set_solver.
    eapply members_cons; [|by constructor| |set_solver..]; [split_and!; [done..|by repeat constructor]|].
    eapply members_cons; [|by constructor|constructor|set_solver..]. split_and!; [done..|by repeat constructor]. }
  destruct (json_get_first demo_members 8 _ _ (bytes "k") Ht) as (_ & _ & Hn & Hb). split; [exact Hb|exact Hn].
Defined.
Lemma json_backslash_overread_witness : json_parse demo_store (Some [QUOTE; 97; BACKSLASH]) = Fault.
Proof. apply (json_backslash_overread demo_store [97]). by repeat constructor. Defined.
Lemma json_unicode_digit_witness : reads ∅ demo_store [QUOTE; BACKSLASH; LC_U; 48; 48; 52; 49; QUOTE] (J_string (bytes "?1")).
Proof. apply (json_unicode_digit demo_store ∅ 48 48 52 49); [exact demo_store_owns|by repeat constructor|done|done]. Defined.
